(* ===== verification/_CoqProject ===== *)
-Q . S2P
Prelude.v
Wire.v
Control.v
Cdf53Rle.v
Cdf53Passes.v
Cdf53.v
Prevalidate.v
TileOut.v
TileState.v
PalRle.v
PaletteTable.v
Parity.v
Batchers.v
Gate.v
LossTracking.v
Coverage.v
Event.v
TileDecoder.v
TileBatch.v
Client.v
FrameAssembly.v
PartSafety.v
Reassembly.v
ClientSafety.v
Delivery.v
ClientTimers.v
EmitIds.v
MapTotals.v
RetxCache.v
FrameCache.v
FragmentCoverage.v
EmissionQueue.v
Rtt.v
Emitter.v
EmitterSession.v
Ledger.v
LedgerTheory.v
LossDetection.v
EmitterRequests.v
LossPath.v
F32.v
Slab.v
SlotMap.v
Deficit.v
Scheduler.v
SchedulerTheory.v
SchedulerDrain.v
SchedulerSession.v
TileMetrics.v
DirtyTiles.v
Classifier.v
ClassifierTheory.v
DeliveryRate.v
LossWindow.v
