(* ===== verification/Prelude.v ===== *)
(** * Ghostframe: a verification development

    Ghostframe is a remote desktop: a server captures a screen, cuts it into
    32x32 tiles, codes each tile (a solid colour, a 16-colour palette image, or
    the bit planes of an integer wavelet transform) or the whole frame (H.264), and
    sends datagrams over an unreliable transport; a client rebuilds the pictures,
    repairs loss from parity datagrams, and reports back what it got, what it
    misses and what it measures.  This library models the parts of the Rust sources
    under [src/] that decide what is on the wire, what is kept in memory and what
    reaches the screen, and proves that they do what they are there for.

    ** How the parts interact

    server tile codecs -> fragments on the wire (+ parity groups) -> client
    [handle_datagram]: parity recovery, routing, loss accounting -> tile payloads
    or access units -> pixel decode; acknowledgements, NACKs, frame acks, feedback
    and reset requests -> wire -> server [classify_inbound], which drives the
    palette table and the retransmission state.

    ** Files, and the sources they model

    - [Prelude]: results of fallible code ([outcome], with panics apart from
      errors), machine-width integers, byte order, tactics, shared lemmas.
    - [Wire], [Control]: [ghostframe-protocol/src/protocol.rs], [ack.rs],
      [feedback.rs], [feedback_stream.rs], [eviction.rs], [codec/solid.rs]: every
      message, encoder and decoder, and fragmentation.
    - [Cdf53Rle], [Cdf53Passes], [Cdf53]: [codec/cdf53.rs], bottom up: the
      zero-run code, the bit-plane passes, the lifting transform.
    - [Prevalidate], [TileState]: the client's [cdf53_prevalidate.rs] and
      [cdf53_tile_state.rs].
    - [TileOut], [Event], [TileDecoder], [TileBatch]: [tile_out.rs], [event.rs],
      [tile_decoder.rs]: pixels into caller-owned memory, one event at a time or in
      batches.
    - [PalRle], [PaletteTable]: [codec/pal_rle.rs], the client's
      [pal_rle_decode.rs] and [palette_shadow.rs], and the transport steps that
      drive the server's palette slots.
    - [Parity]: the server's [reliable_emitter/parity.rs] and the client's
      [parity_decoder.rs] and [ordered_map.rs].
    - [Batchers], [Gate], [LossTracking], [Coverage]: the client's batchers
      ([ack_batcher.rs], [nack_batcher.rs], [decode_error_batcher.rs]), the H.264
      reference gate ([h264_gate.rs]), [loss_tracker.rs] and [wire_loss.rs], and
      [cdf53_coverage.rs].
    - [Client], [FrameAssembly], [Reassembly]: the client core itself: [lib.rs],
      [frame_assembly.rs], [reassembly.rs].  [PartSafety], [ClientSafety],
      [Delivery] and [ClientTimers] hold the theory of these three.
    - [EmitIds], [RetxCache], [FrameCache], [EmissionQueue]: the parts of the server's
      [transport/reliable_emitter/]: emission keys and wire sequence numbers
      ([mod.rs], [wire_seq.rs]), the retransmission cache ([cache.rs]), the probe cache
      of H.264 fragments and the padding ring ([h264.rs]), the queue between the emitter
      and the socket ([emission_queue.rs]).  [MapTotals] has the lemmas on sums over maps
      that their byte counters need.
    - [Emitter]: [emitter.rs], which composes them with [Parity] and [Rtt].
      [EmitterSession] is the invariant of any sequence of its operations,
      [EmitterRequests] the theory of its retransmissions.
    - [FragmentCoverage]: [transport/fragment_coverage.rs], what each datagram
      carried, for the acknowledgements that name it.
    - [Rtt]: [transport/rtt_estimator.rs] and [reliable_emitter/pto.rs].
    - [Ledger]: [transport/transmission_ledger.rs], every datagram sent and its fate.
      [LedgerTheory] is the invariant of a session, [LossDetection] the theory of the
      loss detector.
    - [LossPath]: [transport/loss_path.rs], the ledger's verdicts put to the emitter.
    - [F32], [Slab], [SlotMap], [Deficit], [Scheduler]: the send scheduler
      ([transport/scheduler.rs], [scheduler/slab.rs], [scheduler/slots.rs]): the [f32]
      operations it uses (on the Standard Library's binary32), the slab of versioned
      handles, the slots of the tile grid, the count of tiles with queued refinement, and the
      scheduler itself.  [SchedulerTheory] is its invariant, [SchedulerDrain] what its
      two drains do, [SchedulerSession] the theorems on whole sessions and ticks.
    - [TileMetrics], [DirtyTiles], [Classifier]: what the server decides to send
      ([tile/]).  [TileMetrics] is the per-tile metrics, the idle escalation and the tile
      classifier ([mod.rs], [metrics_tracker.rs], [escalation.rs],
      [classifier.rs]); [DirtyTiles] the grid, the extraction of a tile and the tracker of
      changed tiles ([mod.rs]); [Classifier] the choice between tiles and H.264 for a whole
      frame ([classifier.rs]), its costs in the machine's binary32, and
      [ClassifierTheory] its theory, in terms of the history of its decisions.
    A Rust struct is a record with the source's fields (sometimes prefixed); an
    enum is an inductive type; a [&mut self] method is a function returning the new
    state; a [HashMap] is a [gmap] unless its iteration order is observable; a
    [Vec] or [VecDeque] is a list.  A [w]-bit integer is a [Z], with [wrap w] where
    the code wraps or casts.  An index or slice out of range, a failed [assert!]
    and an overflowing subtraction are [Panic], so that "never panics" is a theorem.

    ** What the theorems show

    - The codecs lose nothing: [Cdf53.cdf53_lossless], [PalRle.pal_rle_client_exact],
      the fragmenters of [Wire], the messages of [Control]; the partial picture is
      within the bound of the passes received ([Cdf53Passes.passes_progressive]).
    - What arrives is what was sent, whatever the network does to the order:
      [TileState.sparse_delivery_exact], [FrameAssembly.frame_reassembled_exactly],
      [Parity.receive_parity_recovers], [Delivery.recovered_as_received],
      [Delivery.pass_acked_iff_delivered].
    - Optimised code agrees with its plain reading: the batched decode
      ([TileBatch.batch_paints_the_same]), the validator that does not expand
      ([Prevalidate.validate_agrees]), the client's palette decoder.
    - Nothing the network sends makes the client panic or grow without bound:
      [ClientSafety.hostile_datagrams_safe], by an invariant of the whole client.
    - The client asks for what it misses, once, in order, and stops:
      [Coverage], [ClientTimers] (tail sweeps, the debounced NACK queue, deadlines
      always move on), [Batchers] (every entry is delivered), [Gate] (only
      decodable frames are fed; reset requests are paced).
    - What is measured is what happened: [LossTracking].
    - The server's palette slots are never overwritten while a tile refers to
      them: [PaletteTable].
    - The server knows what became of everything it sent:
      [LedgerTheory.ledger_accounts_for_everything] (one fate each, bytes in flight,
      bounded memory); the detector declares lost exactly what its rules condemn
      ([LossDetection.detect_condemns_exactly]), nothing on a path that keeps the
      order ([LossDetection.in_order_never_lost]), and is woken at the first moment
      it has something to say ([LossDetection.next_loss_time_exact]).
    - The emitter never panics, reports exactly what it puts on the wire, numbered
      without gap or repetition, and sends only what was submitted
      ([EmitterSession.emitter_session_sound]); its parity gives the client back any one
      datagram of a group ([EmitterSession.emitter_parity_recovers], against the client's
      own decoder); retransmissions keep to their budget and answer each request once
      ([EmitterRequests.tick_serves_requests]).  Verdicts and probes put to it are
      accounted for ([LossPath]).
    - The indices of the server's tables agree with the plain map or list they
      stand for: [RetxCache.cache_refines_map], [FrameCache.frame_cache_refines_map],
      [FragmentCoverage.coverage_map_refines_list]; nothing is lost between the
      emitter and the socket ([EmissionQueue.queue_loses_nothing]), and probe
      timeouts back off without getting stuck ([Rtt]).  The fuel of [Emitter.drain] is
      one more than what can be waiting, which [EmitterRequests.drain_finishes] shows to
      be enough; the 32 rounds of a probe are the source's own bound.
    - The scheduler sends what its rule says and nothing stale: its counters, slots and
      queues agree after any session ([SchedulerSession.scheduler_session_sound]), a tick
      sends exactly the items due, in order, within each queue's share
      ([SchedulerSession.tick_sends_exactly], [SchedulerSession.tick_keeps_the_rule]), and
      replaced content is silent for good ([SchedulerSession.new_content_silences_old]).
      Its handles never resolve to somebody else's item
      ([Slab.stale_handle_never_resolves]) and each tile's slot follows its live
      generation ([SlotMap.slot_map_tracks_tiles]).
    - What is sent is what is on the screen: a viewer who repaints the tiles each update
      reports holds the captured frame ([DirtyTiles.viewer_holds_the_frame]), and the codec of a tile
      can carry its colours ([TileMetrics.tile_codec_fits_content]).  H.264 is chosen only where it works
      ([ClassifierTheory.h264_only_where_it_works]); the mode changes exactly when a run of
      decisions has earned it ([ClassifierTheory.mode_changes_are_earned],
      [ClassifierTheory.sustained_pressure_switches]), and the headroom guard is a latch
      ([ClassifierTheory.guard_latches]).
    ** Bounds and fuel

    Most recursion is structural: over the suffix of a buffer still to be read,
    over a list of events, or over the entries of a bounded queue.  Loops that
    are not structural take a fuel argument that their callers set to a bound of
    the loop: the length of the data for the zero-run encoder and the chunking of a
    payload, the distance between sequence numbers for the settling loop of the
    wire-loss tracker.  The round-trip and refinement theorems are stated for the callers,
    so they show that this fuel is enough.  Examples and witnesses use real
    dimensions (32x32 tiles, 14 passes) except where a smaller input already
    exercises every branch.

    ** Parameters

    The H.264 decoder answers through [h264_result] and is not modelled; the
    clock is the [now] argument the source passes; the sink of decoded tiles is the
    class [TileSink] with the laws its callers rely on.

    ** Not modelled, and why

    - The client's [input.rs] and the diagnostic [cdf53_incomplete_tiles].
    - The server's drop planning, admission and delivery-rate sampling.  The ledger's
      read-outs of its counters are not definitions of their own.
    - The model controller ([model_controller.rs]): floating-point control whose
      promises are about measured time.
    - QUIC, WebTransport, X11, PipeWire, VA-API, wgpu and Vulkan glue, the server
      binary's installation commands, the native, wasm and C bindings: I/O around
      libraries that are not part of the repository.
    - Benchmarks, the end-to-end harness and the test patterns: tooling. *)

From Stdlib Require Export ZifyNat.
From Stdlib Require Import ZArith Lia.
From stdpp Require Import base option list numbers sets.

#[export] Set Default Goal Selector "!".

Local Open Scope Z_scope.

(** ** Results of fallible code

    Rust code that validates untrusted bytes either returns [Ok], returns a
    typed [Err], or panics (an index or slice out of range, a failed
    [assert!]).  The three are kept apart, so that "does not panic on hostile
    input" is a statement one can prove. *)

Inductive outcome (E A : Type) : Type :=
| Ok (a : A)
| Err (e : E)
| Panic.
Arguments Ok {E A} a.
Arguments Err {E A} e.
Arguments Panic {E A}.

#[export] Instance outcome_ret {E} : MRet (outcome E) := λ A a, Ok a.
#[export] Instance outcome_bind {E} : MBind (outcome E) := λ A B f m,
  match m with Ok a => f a | Err e => Err e | Panic => Panic end.

Definition no_panic {E A} (m : outcome E A) : Prop := m ≠ Panic.

(** [.ok()]: forget the error, keep the panic apart. *)
Definition is_ok {E A} (m : outcome E A) : bool :=
  match m with Ok _ => true | _ => false end.

(** [data[i]] and [&data[a..b]]: Rust panics out of range. *)
Definition idx {E A} (l : list A) (i : nat) : outcome E A :=
  match l !! i with Some x => Ok x | None => Panic end.

Definition slice {E A} (l : list A) (a b : nat) : outcome E (list A) :=
  if (a <=? b)%nat && (b <=? length l)%nat then Ok (take (b - a) (drop a l)) else Panic.

(** [a -= b] on [usize]: an overflowing subtraction panics. *)
Definition sub_usize {E} (a b : nat) : outcome E nat := if (b <=? a)%nat then Ok (a - b)%nat else Panic.

(** [assert!(c)] *)
Definition assert_ {E} (c : bool) : outcome E unit := if c then Ok tt else Panic.

Lemma idx_lt {E A} (l : list A) i :
  (i < length l)%nat → ∃ x, idx (E:=E) l i = Ok x ∧ l !! i = Some x.
Proof.
  intros Hi. destruct (lookup_lt_is_Some_2 l i Hi) as [x Hx].
  exists x. unfold idx. by rewrite Hx.
Qed.

Lemma idx_Some {E A} (l : list A) i x : l !! i = Some x → idx (E:=E) l i = Ok x.
Proof. intros H. unfold idx. by rewrite H. Qed.

Lemma slice_ok {E A} (l : list A) a b :
  (a ≤ b)%nat → (b ≤ length l)%nat → slice (E:=E) l a b = Ok (take (b - a) (drop a l)).
Proof.
  intros Hab Hb. unfold slice.
  by rewrite (proj2 (Nat.leb_le a b) Hab), (proj2 (Nat.leb_le _ _) Hb).
Qed.

Lemma slice_app {E A} (pre mid post : list A) a b :
  a = length pre → b = (a + length mid)%nat →
  slice (E:=E) (pre ++ mid ++ post) a b = Ok mid.
Proof.
  intros -> ->. rewrite slice_ok by (rewrite ?length_app; lia).
  f_equal. rewrite drop_app_length. replace (length pre + length mid - length pre)%nat
    with (length mid) by lia. apply take_app_length.
Qed.

(** ** Machine-width integers

    A [w]-bit unsigned value is a [Z] in [0, 2^w); every place where the code
    truncates or wraps says so with one of these functions. *)

Definition wrap (w x : Z) : Z := x mod 2 ^ w.
Abbreviation u8 := (wrap 8) (only parsing).
Abbreviation u16 := (wrap 16) (only parsing).
Abbreviation u32 := (wrap 32) (only parsing).
Abbreviation u64 := (wrap 64) (only parsing).

Definition swrap (w x : Z) : Z := (x + 2 ^ (w - 1)) mod 2 ^ w - 2 ^ (w - 1).
Abbreviation i16 := (swrap 16) (only parsing).
Abbreviation i32 := (swrap 32) (only parsing).

(** [a.wrapping_sub(b)], [a.wrapping_add(b)], [a.saturating_sub(b)]. *)
Definition wsub32 (a b : Z) : Z := u32 (a - b).
Definition wadd32 (a b : Z) : Z := u32 (a + b).
Definition sat_sub (a b : Z) : Z := Z.max 0 (a - b).

Definition in_width (w x : Z) : Prop := 0 ≤ x < 2 ^ w.
#[export] Instance in_width_dec w x : Decision (in_width w x).
Proof. unfold in_width. apply _. Defined.

Abbreviation byte := (in_width 8).
Definition bytes (l : list Z) : Prop := Forall byte l.
#[export] Instance bytes_dec l : Decision (bytes l).
Proof. unfold bytes. apply _. Defined.

(** Turn the [in_width] hypotheses with literal widths into bounds for [lia]. *)
Ltac widths :=
  unfold bytes, in_width in *;
  repeat match goal with
  | H : context [2 ^ ?k] |- _ =>
      let k' := eval compute in (2 ^ k) in change (2 ^ k) with k' in H
  | |- context [2 ^ ?k] =>
      let k' := eval compute in (2 ^ k) in change (2 ^ k) with k'
  end.
Ltac wsolve := widths; lia.

(** [lia] with division and remainder by constants. *)
Ltac dlia := Z.to_euclidean_division_equations; lia.
(** The same over [nat]. *)
Ltac ndlia := zify; Z.to_euclidean_division_equations; lia.

Lemma wrap_small w x : in_width w x → wrap w x = x.
Proof. unfold in_width, wrap. apply Z.mod_small. Qed.

Lemma wrap_in_width w x : 0 ≤ w → in_width w (wrap w x).
Proof. intros. unfold in_width, wrap. apply Z.mod_pos_bound. by apply Z.pow_pos_nonneg. Qed.

Lemma swrap_small w x : 1 ≤ w → - 2 ^ (w - 1) ≤ x < 2 ^ (w - 1) → swrap w x = x.
Proof.
  intros Hw Hx. unfold swrap.
  assert (2 ^ w = 2 * 2 ^ (w - 1)) as Hp.
  { rewrite <-Z.pow_succ_r by lia. f_equal. lia. }
  rewrite Z.mod_small by lia. lia.
Qed.

(** ** Byte order: [to_le_bytes], [from_le_bytes], [to_be_bytes], [from_be_bytes] *)

Fixpoint le_bytes (n : nat) (v : Z) : list Z :=
  match n with
  | O => []
  | S n => v mod 256 :: le_bytes n (v / 256)
  end.

Fixpoint from_le (l : list Z) : Z :=
  match l with
  | [] => 0
  | b :: l => b + 256 * from_le l
  end.

Definition be_bytes (n : nat) (v : Z) : list Z := reverse (le_bytes n v).
Definition from_be (l : list Z) : Z := from_le (reverse l).

Lemma length_le_bytes n v : length (le_bytes n v) = n.
Proof. revert v. induction n as [|n IH]; intros v; simpl; [done|]. by rewrite IH. Qed.

Lemma length_be_bytes n v : length (be_bytes n v) = n.
Proof. unfold be_bytes. by rewrite length_reverse, length_le_bytes. Qed.

Lemma bytes_le_bytes n v : bytes (le_bytes n v).
Proof.
  revert v. induction n as [|n IH]; intros v; simpl; constructor; [|apply IH].
  unfold in_width. change (2 ^ 8) with 256. apply Z.mod_pos_bound. lia.
Qed.

Lemma bytes_be_bytes n v : bytes (be_bytes n v).
Proof. unfold be_bytes, bytes. apply Forall_reverse, bytes_le_bytes. Qed.

Lemma from_le_le_bytes n v : from_le (le_bytes n v) = v mod 256 ^ Z.of_nat n.
Proof.
  revert v. induction n as [|n IH]; intros v.
  { simpl. by rewrite Z.mod_1_r. }
  cbn [le_bytes from_le]. rewrite IH, Nat2Z.inj_succ, Z.pow_succ_r by lia.
  rewrite Z.rem_mul_r by lia. lia.
Qed.

Lemma from_be_be_bytes n v : from_be (be_bytes n v) = v mod 256 ^ Z.of_nat n.
Proof. unfold from_be, be_bytes. rewrite reverse_involutive. apply from_le_le_bytes. Qed.

Lemma from_le_bound l : bytes l → 0 ≤ from_le l < 256 ^ Z.of_nat (length l).
Proof.
  induction 1 as [|b l Hb _ IH]; cbn [from_le length]; [done|].
  rewrite Nat2Z.inj_succ, Z.pow_succ_r by lia. widths. nia.
Qed.

Lemma from_be_bound l : bytes l → 0 ≤ from_be l < 256 ^ Z.of_nat (length l).
Proof.
  intros Hl. unfold from_be. rewrite <-(length_reverse l).
  by apply from_le_bound, Forall_reverse.
Qed.

Lemma le_bytes_from_le l : bytes l → le_bytes (length l) (from_le l) = l.
Proof.
  induction 1 as [|b l Hb _ IH]; cbn [from_le length le_bytes]; [done|].
  widths. f_equal; [dlia|].
  etrans; [|exact IH]. f_equal. dlia.
Qed.

Lemma be_bytes_from_be l : bytes l → be_bytes (length l) (from_be l) = l.
Proof.
  intros Hl. unfold be_bytes, from_be. rewrite <-(length_reverse l).
  rewrite le_bytes_from_le by by apply Forall_reverse. apply reverse_involutive.
Qed.

Lemma from_be_exact n v w :
  2 ^ w = 256 ^ Z.of_nat n → in_width w v → from_be (be_bytes n v) = v.
Proof. intros Hw Hv. rewrite from_be_be_bytes, <-Hw. by apply wrap_small. Qed.

Lemma from_le_exact n v w :
  2 ^ w = 256 ^ Z.of_nat n → in_width w v → from_le (le_bytes n v) = v.
Proof. intros Hw Hv. rewrite from_le_le_bytes, <-Hw. by apply wrap_small. Qed.

(** ** The development's hint databases *)

Create HintDb ghost discriminated.
Create Rewrite HintDb lengths.
#[export] Hint Resolve bytes_le_bytes bytes_be_bytes wrap_in_width : ghost.
#[export] Hint Rewrite @length_app @length_take @length_drop @length_reverse
  @length_replicate @length_fmap @length_seq length_le_bytes length_be_bytes : lengths.

Ltac lens := autorewrite with lengths in *; cbn [length] in *; lia.

(** ** Reading fields out of an encoded buffer

    [rd_app] walks a right-nested concatenation of fields: it skips whole
    fields before the one read, and cuts after it. *)

Lemma slice_skip {E A} (pre l : list A) a b :
  (length pre ≤ a)%nat → (a ≤ b)%nat →
  slice (E:=E) (pre ++ l) a b = slice l (a - length pre) (b - length pre).
Proof.
  intros Ha Hab. unfold slice. rewrite length_app.
  replace (b - length pre <=? length l)%nat with (b <=? length pre + length l)%nat
    by (apply eq_true_iff_eq; rewrite !Nat.leb_le; lia).
  replace (a - length pre <=? b - length pre)%nat with (a <=? b)%nat
    by (apply eq_true_iff_eq; rewrite !Nat.leb_le; lia).
  rewrite drop_app_ge by lia.
  by replace (b - length pre - (a - length pre))%nat with (b - a)%nat by lia.
Qed.

Lemma slice_here {E A} (mid post : list A) a b :
  a = 0%nat → length mid = b → slice (E:=E) (mid ++ post) a b = Ok mid.
Proof. intros -> <-. by apply (slice_app [] mid post). Qed.

Lemma slice_all {E A} (l : list A) a b :
  a = 0%nat → length l = b → slice (E:=E) l a b = Ok l.
Proof. intros -> <-. rewrite slice_ok by lia. by rewrite Nat.sub_0_r, drop_0, firstn_all. Qed.

Lemma idx_skip {E A} (pre l : list A) i :
  (length pre ≤ i)%nat → idx (E:=E) (pre ++ l) i = idx l (i - length pre).
Proof. intros Hi. unfold idx. by rewrite lookup_app_r by lia. Qed.

Lemma idx_skip_off {E A} (pre l : list A) k :
  idx (E:=E) (pre ++ l) (length pre + k) = idx l k.
Proof. rewrite idx_skip by lia. f_equal. lia. Qed.

Lemma idx_here {E A} (pre l : list A) i :
  (i < length pre)%nat → idx (E:=E) (pre ++ l) i = idx pre i.
Proof. intros Hi. unfold idx. by rewrite lookup_app_l by lia. Qed.

Ltac rd_side :=
  autorewrite with lengths; cbn [length]; try reflexivity; lia.
Ltac rd_norm :=
  autorewrite with lengths; cbn [length Nat.sub mbind outcome_bind idx lookup list_lookup].
Ltac rd_step :=
  first
    [ rewrite slice_here by rd_side
    | rewrite slice_all by rd_side
    | rewrite slice_skip by rd_side
    | rewrite idx_here by rd_side
    | rewrite idx_skip by rd_side ]; rd_norm.
Ltac rd := rewrite <-?app_assoc; repeat rd_step.

Ltac len_false :=
  match goal with
  | |- context [(?a <? ?b)%nat] =>
      replace (a <? b)%nat with false
        by (symmetry; apply Nat.ltb_ge; autorewrite with lengths; cbn [length]; lia)
  end.

(** ** Packing bit fields *)

Lemma lor_shiftl g k p :
  0 ≤ k → 0 ≤ p < 2 ^ k → Z.lor (Z.shiftl g k) p = g * 2 ^ k + p.
Proof.
  intros Hk Hp. rewrite <-Z.add_nocarry_lor; [by rewrite Z.shiftl_mul_pow2 by lia|].
  apply Z.bits_inj'. intros n Hn. rewrite Z.land_spec, Z.bits_0.
  destruct (decide (n < k)) as [Hlt|Hge].
  - by rewrite Z.shiftl_spec_low by lia.
  - rewrite <-(Z.mod_small p (2 ^ k)) by lia. rewrite Z.mod_pow2_bits_high by lia.
    apply andb_false_r.
Qed.

Lemma land_low k x : 0 ≤ k → Z.land x (2 ^ k - 1) = x mod 2 ^ k.
Proof. intros Hk. rewrite <-Z.land_ones by lia. f_equal. by rewrite Z.ones_equiv. Qed.

Lemma land_15 x : Z.land x 0x0F = x mod 16.
Proof. apply (land_low 4). lia. Qed.

Lemma land_7 x : Z.land x 0x07 = x mod 8.
Proof. apply (land_low 3). lia. Qed.

Lemma land_1 x : Z.land x 1 = x mod 2.
Proof. apply (land_low 1). lia. Qed.

Lemma land_255 x : Z.land x 0xFF = x mod 256.
Proof. apply (land_low 8). lia. Qed.

Lemma shiftr_div k x : 0 ≤ k → Z.shiftr x k = x / 2 ^ k.
Proof. intros. by apply Z.shiftr_div_pow2. Qed.

(** Testing one bit: [x & (1 << n) != 0]. *)
Lemma land_pow2 x n : 0 ≤ n → Z.land x (2 ^ n) = if Z.testbit x n then 2 ^ n else 0.
Proof.
  intros Hn. apply Z.bits_inj'. intros m Hm. rewrite Z.land_spec, Z.pow2_bits_eqb by lia.
  destruct (Z.eqb_spec n m) as [<-|Hne].
  - destruct (Z.testbit x n); [by rewrite Z.pow2_bits_true by lia|by rewrite Z.bits_0].
  - rewrite andb_false_r. destruct (Z.testbit x n); [|by rewrite Z.bits_0].
    by rewrite Z.pow2_bits_false by lia.
Qed.

Lemma bit_set x n : 0 ≤ n → negb (Z.land x (2 ^ n) =? 0) = Z.testbit x n.
Proof.
  intros Hn. rewrite land_pow2 by done. destruct (Z.testbit x n); [|done].
  rewrite (proj2 (Z.eqb_neq _ _)); [done|]. pose proof (Z.pow_pos_nonneg 2 n). lia.
Qed.

(** Bits of wrapped values, and widths read off the bits. *)
Lemma testbit_wrap w x k : 0 ≤ k < w → Z.testbit (wrap w x) k = Z.testbit x k.
Proof. intros. apply Z.mod_pow2_bits_low; lia. Qed.

Lemma testbit_wrap_high w x k : 0 ≤ w ≤ k → Z.testbit (wrap w x) k = false.
Proof. intros. apply Z.mod_pow2_bits_high; lia. Qed.

Lemma testbit_high w x k : in_width w x → 0 ≤ w ≤ k → Z.testbit x k = false.
Proof. intros Hx Hk. rewrite <-(wrap_small w x) by done. by apply testbit_wrap_high. Qed.

Lemma in_width_bits w x :
  0 ≤ w → (∀ k, w ≤ k → Z.testbit x k = false) → in_width w x.
Proof.
  intros Hw Hb. enough (wrap w x = x) as <- by (by apply wrap_in_width).
  apply Z.bits_inj'. intros k Hk. destruct (Z.lt_ge_cases k w).
  - by apply testbit_wrap.
  - by rewrite testbit_wrap_high, Hb by lia.
Qed.

Lemma testbit_pow2 b k : 0 ≤ b → 0 ≤ k → Z.testbit (2 ^ b) k = (b =? k).
Proof. intros. by apply Z.pow2_bits_eqb. Qed.

(** [(hi << 4) | lo] of two nibbles, read back. *)
Definition nibbles (hi lo : Z) : Z := u8 (Z.lor (u8 (Z.shiftl hi 4)) lo).

Lemma nibbles_val hi lo : 0 ≤ hi < 16 → 0 ≤ lo < 16 → nibbles hi lo = hi * 16 + lo.
Proof.
  intros Hh Hl. unfold nibbles.
  rewrite (wrap_small 8 (Z.shiftl hi 4)).
  - rewrite lor_shiftl by lia. apply wrap_small. wsolve.
  - rewrite Z.shiftl_mul_pow2 by lia. wsolve.
Qed.

Lemma bind_Ok {E A B} (a : A) (f : A → outcome E B) : (Ok a ≫= f) = f a.
Proof. done. Qed.

Lemma Ok_inj {E A} (a b : A) : Ok (E:=E) a = Ok b → a = b.
Proof. congruence. Qed.

(** ** Lists *)

Lemma filter_agree {A} (P Q : A → Prop) `{!∀ x, Decision (P x), !∀ x, Decision (Q x)} (l : list A) :
  Forall (λ x, P x ↔ Q x) l → filter P l = filter Q l.
Proof.
  induction 1 as [|x l Hx _ IH]; [done|]. rewrite !filter_cons, IH.
  destruct (decide (P x)), (decide (Q x)); tauto.
Qed.

Lemma list_filter_fmap {A B} (f : A → B) (P : B → Prop) `{!∀ x, Decision (P x)} (l : list A) :
  filter P (f <$> l) = f <$> filter (λ x, P (f x)) l.
Proof.
  induction l as [|x l IH]; [done|]. rewrite fmap_cons, !filter_cons, IH.
  by destruct (decide (P (f x))).
Qed.

Lemma filter_none {A} (P : A → Prop) `{!∀ x, Decision (P x)} (l : list A) :
  (∀ x, ¬ P x) → filter P l = [].
Proof. intros HP. induction l as [|x l IH]; [done|]. by rewrite filter_cons, decide_False. Qed.

Lemma filter_every {A} (P : A → Prop) `{!∀ x, Decision (P x)} (l : list A) :
  Forall P l → filter P l = l.
Proof. induction 1 as [|x l Hx _ IH]; [done|]. by rewrite filter_cons, decide_True, IH. Qed.

Lemma default_Some_eq {A} (d x : A) : default d (Some x) = x.
Proof. done. Qed.

(** ** Absence of panics *)

Lemma no_panic_bind {E A B} (m : outcome E A) (f : A → outcome E B) :
  no_panic m → (∀ a, m = Ok a → no_panic (f a)) → no_panic (m ≫= f).
Proof. unfold no_panic. destruct m; cbn; auto. Qed.

Ltac np_len :=
  repeat match goal with
  | H : (_ <? _)%nat = false |- _ => apply Nat.ltb_ge in H
  | H : (_ <? _)%nat = true |- _ => apply Nat.ltb_lt in H
  | H : (_ =? _)%nat = true |- _ => apply Nat.eqb_eq in H
  end; autorewrite with lengths in *; cbn [length] in *; lia.

Ltac np_step :=
  match goal with
  | |- no_panic (Ok _) => discriminate
  | |- no_panic (Err _) => discriminate
  | |- no_panic (if ?c then _ else _) => destruct c eqn:?
  | |- no_panic (slice ?l ?a ?b ≫= _) =>
      rewrite (slice_ok l a b) by np_len; cbn [mbind outcome_bind]
  | |- no_panic (@idx ?E _ ?l ?i ≫= _) =>
      let x := fresh "x" in let Hx := fresh "Hx" in
      destruct (idx_lt (E:=E) l i) as (x & -> & Hx); [np_len|]; cbn [mbind outcome_bind]
  end.
Ltac np := repeat np_step.

(** ** Fixed-size records in a row *)

(** [for i in ixs { out.push(f(i)?) }] *)
Fixpoint collect {E A B} (f : B → outcome E A) (ixs : list B) : outcome E (list A) :=
  match ixs with
  | [] => Ok []
  | i :: ixs => x ← f i; xs ← collect f ixs; Ok (x :: xs)
  end.

Lemma collect_no_panic {E A B} (f : B → outcome E A) l :
  (∀ i, i ∈ l → no_panic (f i)) → no_panic (collect f l).
Proof.
  induction l as [|i l IH]; intros Hf; cbn [collect]; [discriminate|].
  apply no_panic_bind; [apply Hf; set_solver|]. intros x _.
  apply no_panic_bind; [apply IH; set_solver|]. intros xs _. discriminate.
Qed.

Lemma collect_ok {E A B} (f : B → outcome E A) (g : B → A) l :
  (∀ i, i ∈ l → f i = Ok (g i)) → collect f l = Ok (g <$> l).
Proof.
  induction l as [|i l IH]; intros Hf; cbn [collect]; [done|].
  rewrite Hf, IH by set_solver. done.
Qed.

(** [n] records of [sz] bytes after a prefix of [h] bytes read back in order. *)
Lemma collect_records {E A} (enc : A → list Z) (rdf : list Z → nat → outcome E A)
    (sz : nat) (P : A → Prop) (es : list A) :
  (∀ a, length (enc a) = sz) →
  (∀ pre a post, P a → rdf (pre ++ enc a ++ post) (length pre) = Ok a) →
  Forall P es →
  ∀ pre post k h,
    length pre = (h + k * sz)%nat →
    collect (λ i, rdf (pre ++ concat (enc <$> es) ++ post) (h + i * sz)%nat) (seq k (length es))
    = Ok es.
Proof.
  intros Hsz Hrd HP. induction HP as [|a es Ha HP IH]; intros pre post k h Hpre; [done|].
  rewrite fmap_cons. cbn [concat length seq collect]. rewrite <-Hpre, <-app_assoc, Hrd by done.
  cbn [mbind outcome_bind]. rewrite (app_assoc pre (enc a)), IH; [done|].
  rewrite length_app, Hsz. lia.
Qed.

(** ** Lists of equal-length lists *)

Lemma lookup_concat_fixed {A} (ls : list (list A)) n a b :
  Forall (λ l, length l = n) ls → (b < n)%nat →
  concat ls !! (a * n + b)%nat = (ls !! a) ≫= (.!! b).
Proof.
  intros Hn Hb. revert a. induction Hn as [|l ls Hl _ IH]; intros a; [done|].
  cbn [concat]. destruct a as [|a].
  - cbn [Nat.mul Nat.add]. rewrite lookup_app_l by lia. done.
  - rewrite lookup_app_r by lia.
    replace (S a * n + b - length l)%nat with (a * n + b)%nat by lia. apply IH.
Qed.

Lemma length_concat_fixed {A B} (f : A → list B) (n : nat) (l : list A) :
  (∀ a, length (f a) = n) → length (concat (f <$> l)) = (n * length l)%nat.
Proof.
  intros Hf. induction l as [|a l IH]; cbn [length]; [cbn; lia|].
  rewrite fmap_cons. cbn [concat]. rewrite length_app, IH, Hf. lia.
Qed.

Lemma existsb_false {A} (f : A → bool) l : existsb f l = false ↔ Forall (λ x, f x = false) l.
Proof.
  induction l as [|x l IH]; cbn [existsb]; [done|].
  rewrite orb_false_iff, Forall_cons, IH. done.
Qed.
