(* ===== verification/Wire.v ===== *)
(** * Wire formats of the datagram protocol ([ghostframe-protocol/src/protocol.rs])

    Tile datagrams, H.264 frame datagrams, the FEC parity envelope, the NACK
    and frame-ack envelopes, fragmentation, and the classification of inbound
    datagrams.  An [encode] appends to a buffer, as in the source; a [decode]
    is fallible, and indexes the input with the panicking primitives of the
    prelude, so that the absence of panics is a theorem. *)

From Stdlib Require Import ZArith Lia.
From stdpp Require Import base option list numbers sets.
From S2P Require Import Prelude.

Local Open Scope Z_scope.

(** ** Constants *)

Definition DATAGRAM_HEADER_SIZE : nat := 16.
Definition TILE_HEADER_SIZE : nat := 8.
Definition UNSTAMPED_WIRE_SEQ : Z := 0.
Definition TILE_DATAGRAM_FLAG : Z := Z.shiftl 1 31.
Definition FRAME_DIMENSIONS_SENTINEL_X : Z := 0xFF.
Definition FRAME_DIMENSIONS_SENTINEL_Y : Z := 0xFF.
Definition FRAME_HEADER_SIZE : nat := 22.
Definition NO_ACK : Z := 0xFFFFFFFF.
Definition REF_FRAME_NONE : Z := 0xFFFFFFFF.
Definition FRAME_FLAG_IDR : Z := 0x01.
Definition FRAME_FLAG_NON_REF : Z := 0x02.
Definition FRAME_FLAG_MARK_LT : Z := 0x04.
Definition FRAME_FLAG_TARGET_IS_LT : Z := 0x08.
Definition FRAME_FLAG_PAD : Z := 0x10.
Definition FRAME_FLAG_MARK_TARGET : Z := 0x20.
Definition TILE_PARITY_ENVELOPE : Z := 0x04.
Definition TILE_PARITY_HEADER_SIZE : nat := 1 + 4 + 1 + 1.
Definition TILE_NACK_ENVELOPE : Z := 0x05.
Definition TILE_NACK_ENTRY_SIZE : nat := 7.
Definition TILE_NACK_MAX_ENTRIES : nat := 64.
Definition FRAME_ACK_ENVELOPE : Z := 0x0A.
Definition FRAME_ACK_SIZE : nat := 1 + 4 + 8 + 8.
Definition FEEDBACK_MSG_TYPE : Z := 0x01.
Definition ACK_BATCH_MSG_TYPE : Z := 0x06.

(** ** Errors *)

Inductive ProtocolError : Type :=
| TooShort (expected got : nat)
| UnknownCodec (b : Z)
| UnknownEnvelope (b : Z)
| InvalidLength.

#[export] Instance ProtocolError_eq_dec : EqDecision ProtocolError.
Proof. solve_decision. Defined.

(** ** Codec *)

Inductive Codec : Type := Skip | H264 | CPalRle | CSolid | CCdf53.

#[export] Instance Codec_eq_dec : EqDecision Codec.
Proof. solve_decision. Defined.

(** [codec as u8] ([#[repr(u8)]]). *)
Definition codec_to_u8 (c : Codec) : Z :=
  match c with Skip => 0 | H264 => 1 | CPalRle => 2 | CSolid => 3 | CCdf53 => 5 end.

Definition codec_from_u8 (v : Z) : outcome ProtocolError Codec :=
  if v =? 0 then Ok Skip else
  if v =? 1 then Ok H264 else
  if v =? 2 then Ok CPalRle else
  if v =? 3 then Ok CSolid else
  if v =? 5 then Ok CCdf53 else
  Err (UnknownCodec v).

(** ** DatagramHeader (16 bytes, big-endian) *)

Record DatagramHeader : Type := mkDatagramHeader {
  dh_frame_seq : Z;
  dh_frag_idx : Z;
  dh_frag_total : Z;
  dh_wire_seq : Z;
  dh_timestamp_us : Z;
}.

Definition dh_encode (h : DatagramHeader) (buf : list Z) : list Z :=
  buf ++ be_bytes 4 (dh_frame_seq h) ++ be_bytes 2 (dh_frag_idx h)
      ++ be_bytes 2 (dh_frag_total h) ++ be_bytes 4 (dh_wire_seq h)
      ++ be_bytes 4 (dh_timestamp_us h).

Definition dh_decode (data : list Z) : outcome ProtocolError DatagramHeader :=
  if (length data <? DATAGRAM_HEADER_SIZE)%nat
  then Err (TooShort DATAGRAM_HEADER_SIZE (length data)) else
  frame_seq ← slice data 0 4;
  frag_idx ← slice data 4 6;
  frag_total ← slice data 6 8;
  wire_seq ← slice data 8 12;
  timestamp_us ← slice data 12 16;
  Ok (mkDatagramHeader (from_be frame_seq) (from_be frag_idx) (from_be frag_total)
        (from_be wire_seq) (from_be timestamp_us)).

(** ** TileHeader (8 bytes) *)

Record TileHeader : Type := mkTileHeader {
  th_tile_x : Z;
  th_tile_y : Z;
  th_codec : Codec;
  th_lz4 : bool;
  th_generation : Z;
  th_pass : Z;
  th_payload_len : Z;
}.

Definition th_encode (h : TileHeader) (buf : list Z) : list Z :=
  buf ++ [th_tile_x h; th_tile_y h;
          u8 (Z.lor (u8 (Z.shiftl (codec_to_u8 (th_codec h)) 1)) (Z.b2z (th_lz4 h)));
          u8 (Z.lor (u8 (Z.shiftl (Z.land (th_generation h) 0x0F) 4)) (Z.land (th_pass h) 0x0F))]
      ++ be_bytes 4 (th_payload_len h).

Definition th_decode (data : list Z) : outcome ProtocolError TileHeader :=
  if (length data <? TILE_HEADER_SIZE)%nat
  then Err (TooShort TILE_HEADER_SIZE (length data)) else
  packed ← idx data 2;
  codec ← codec_from_u8 (Z.shiftr packed 1);
  let lz4 := negb (Z.land packed 1 =? 0) in
  gen_pass ← idx data 3;
  tile_x ← idx data 0;
  tile_y ← idx data 1;
  payload_len ← slice data 4 8;
  Ok (mkTileHeader tile_x tile_y codec lz4
        (Z.shiftr gen_pass 4) (Z.land gen_pass 0x0F) (from_be payload_len)).

(** ** Fragmentation *)

(** [slice::chunks(n)]: pieces of [n] elements, the last possibly shorter. *)
Fixpoint chunks_go {A} (fuel n : nat) (l : list A) : list (list A) :=
  match fuel, l with
  | S fuel, _ :: _ => take n l :: chunks_go fuel n (drop n l)
  | _, _ => []
  end.
Definition chunks {A} (n : nat) (l : list A) : list (list A) := chunks_go (length l) n l.

Record TileFragmentInputs : Type := mkTileFragmentInputs {
  tfi_frame_seq : Z;
  tfi_tile_x : Z;
  tfi_tile_y : Z;
  tfi_codec : Codec;
  tfi_generation : Z;
  tfi_pass : Z;
  tfi_timestamp_us : Z;
}.

Definition payload_chunks (payload : list Z) (max_fragment_payload : nat) : list (list Z) :=
  match payload with [] => [[]] | _ => chunks max_fragment_payload payload end.

Definition tile_fragment (inputs : TileFragmentInputs) (payload_len frag_total : nat)
    (i : nat) (chunk : list Z) : list Z :=
  let dh := mkDatagramHeader (tfi_frame_seq inputs) (u16 (Z.of_nat i))
              (u16 (Z.of_nat frag_total)) UNSTAMPED_WIRE_SEQ (tfi_timestamp_us inputs) in
  let th := mkTileHeader (tfi_tile_x inputs) (tfi_tile_y inputs) (tfi_codec inputs) false
              (tfi_generation inputs) (tfi_pass inputs) (u32 (Z.of_nat payload_len)) in
  th_encode th (dh_encode dh []) ++ chunk.

Definition fragment_tile (inputs : TileFragmentInputs) (payload : list Z)
    (max_fragment_payload : nat) : outcome ProtocolError (list (list Z)) :=
  assert_ (0 <? max_fragment_payload)%nat ≫= λ _,
  let chs := payload_chunks payload max_fragment_payload in
  Ok (imap (tile_fragment inputs (length payload) (length chs)) chs).

Definition decode_tile_datagram (data : list Z)
    : outcome ProtocolError (DatagramHeader * TileHeader * list Z) :=
  dh ← dh_decode data;
  rest ← slice data DATAGRAM_HEADER_SIZE (length data);
  th ← th_decode rest;
  payload ← slice rest TILE_HEADER_SIZE (length rest);
  Ok (dh, th, payload).

(** [fragment_tile(..).remove(0)]: [remove] panics on an empty vector. *)
Definition encode_tile_datagram (inputs : TileFragmentInputs) (payload : list Z)
    : outcome ProtocolError (list Z) :=
  dgs ← fragment_tile inputs payload (Nat.max (length payload) 1);
  idx dgs 0.

Definition max_fragment_payload (max_datagram_size : nat) : nat :=
  max_datagram_size - (DATAGRAM_HEADER_SIZE + TILE_HEADER_SIZE).

Definition build_frame_dimensions_datagram (frame_seq timestamp_us width height : Z)
    : outcome ProtocolError (list Z) :=
  let payload := be_bytes 4 width ++ be_bytes 4 height in
  let inputs := mkTileFragmentInputs (Z.lor frame_seq TILE_DATAGRAM_FLAG)
      FRAME_DIMENSIONS_SENTINEL_X FRAME_DIMENSIONS_SENTINEL_Y Skip 0 0 timestamp_us in
  datagrams ← fragment_tile inputs payload 8;
  idx datagrams 0.

Definition is_tile_datagram (data : list Z) : bool :=
  if (length data <? 4)%nat then false else
  let first_u32 := from_be (take 4 data) in
  negb (Z.land first_u32 TILE_DATAGRAM_FLAG =? 0).

(** ** H.264 frame datagrams: FrameHeader v2 (22 bytes) *)

Record FrameRefInfo : Type := mkFrameRefInfo {
  fri_flags : Z;
  fri_slots : Z;
  fri_ref_frame_seq : Z;
}.

(** [FrameRefInfo::IDR] *)
Definition FRI_IDR : FrameRefInfo := mkFrameRefInfo FRAME_FLAG_IDR 0 REF_FRAME_NONE.

(** [FrameRefInfo::predicted] *)
Definition fri_predicted (ref_frame_seq : Z) : FrameRefInfo := mkFrameRefInfo 0 0 ref_frame_seq.

Record FrameHeader : Type := mkFrameHeader {
  fh_frame_seq : Z;
  fh_frag_idx : Z;
  fh_frag_total : Z;
  fh_wire_seq : Z;
  fh_timestamp_us : Z;
  fh_flags : Z;
  fh_slots : Z;
  fh_ref_frame_seq : Z;
}.

Definition fh_encode (h : FrameHeader) (buf : list Z) : list Z :=
  buf ++ be_bytes 4 (fh_frame_seq h) ++ be_bytes 2 (fh_frag_idx h)
      ++ be_bytes 2 (fh_frag_total h) ++ be_bytes 4 (fh_wire_seq h)
      ++ be_bytes 4 (fh_timestamp_us h) ++ [fh_flags h] ++ [fh_slots h]
      ++ be_bytes 4 (fh_ref_frame_seq h).

Definition fh_decode (data : list Z) : outcome ProtocolError FrameHeader :=
  if (length data <? FRAME_HEADER_SIZE)%nat
  then Err (TooShort FRAME_HEADER_SIZE (length data)) else
  frame_seq ← slice data 0 4;
  frag_idx ← slice data 4 6;
  frag_total ← slice data 6 8;
  wire_seq ← slice data 8 12;
  timestamp_us ← slice data 12 16;
  flags ← idx data 16;
  slots ← idx data 17;
  ref_frame_seq ← slice data 18 22;
  Ok (mkFrameHeader (from_be frame_seq) (from_be frag_idx) (from_be frag_total)
        (from_be wire_seq) (from_be timestamp_us) flags slots (from_be ref_frame_seq)).

Definition is_keyframe (h : FrameHeader) : bool := negb (Z.land (fh_flags h) FRAME_FLAG_IDR =? 0).

Definition frame_fragment (frame_seq timestamp_us : Z) (info : FrameRefInfo)
    (frag_total : nat) (i : nat) (chunk : list Z) : list Z :=
  fh_encode (mkFrameHeader frame_seq (u16 (Z.of_nat i)) (u16 (Z.of_nat frag_total)) NO_ACK
               timestamp_us (fri_flags info) (fri_slots info) (fri_ref_frame_seq info)) []
  ++ chunk.

Definition fragment_frame_ref (frame_seq timestamp_us : Z) (info : FrameRefInfo)
    (payload : list Z) (max_fragment_payload : nat) : outcome ProtocolError (list (list Z)) :=
  assert_ (0 <? max_fragment_payload)%nat ≫= λ _,
  let chs := payload_chunks payload max_fragment_payload in
  Ok (imap (frame_fragment frame_seq timestamp_us info (length chs)) chs).

Definition fragment_frame (frame_seq timestamp_us : Z) (keyframe : bool)
    (payload : list Z) (max_fragment_payload : nat) : outcome ProtocolError (list (list Z)) :=
  let info := if keyframe then FRI_IDR else fri_predicted REF_FRAME_NONE in
  fragment_frame_ref frame_seq timestamp_us info payload max_fragment_payload.

Definition decode_frame_datagram (data : list Z)
    : outcome ProtocolError (FrameHeader * list Z) :=
  fh ← fh_decode data;
  payload ← slice data FRAME_HEADER_SIZE (length data);
  Ok (fh, payload).

Definition max_frame_fragment_payload (max_datagram_size : nat) : nat :=
  max_datagram_size - FRAME_HEADER_SIZE.

(** ** TILE_PARITY envelope (0x04) *)

Record TileParityEnvelope : Type := mkTileParityEnvelope {
  tp_group_first_wire_seq : Z;
  tp_k : Z;
  tp_parity_idx : Z;
  tp_source_lens : list Z;
  tp_parity_payload : list Z;
}.

Definition tp_encode (e : TileParityEnvelope) (buf : list Z) : list Z :=
  buf ++ [TILE_PARITY_ENVELOPE] ++ be_bytes 4 (tp_group_first_wire_seq e)
      ++ [tp_k e] ++ [tp_parity_idx e]
      ++ concat (be_bytes 2 <$> tp_source_lens e)
      ++ tp_parity_payload e.

Definition tp_decode (data : list Z) : outcome ProtocolError TileParityEnvelope :=
  if (length data <? TILE_PARITY_HEADER_SIZE)%nat
  then Err (TooShort TILE_PARITY_HEADER_SIZE (length data)) else
  disc ← idx data 0;
  if negb (disc =? TILE_PARITY_ENVELOPE) then Err (UnknownEnvelope disc) else
  group_first ← slice data 1 5;
  k ← idx data 5;
  parity_idx ← idx data 6;
  let table_end := (TILE_PARITY_HEADER_SIZE + 2 * Z.to_nat k)%nat in
  if (length data <? table_end)%nat then Err (TooShort table_end (length data)) else
  table ← slice data TILE_PARITY_HEADER_SIZE table_end;
  parity_payload ← slice data table_end (length data);
  (* [chunks_exact(2)] of a table of even length is [chunks(2)] *)
  Ok (mkTileParityEnvelope (from_be group_first) k parity_idx
        (from_be <$> chunks 2 table) parity_payload).

(** ** TILE_NACK envelope (0x05) *)

Record TileNackEntry : Type := mkTileNackEntry {
  ne_frame_seq : Z;
  ne_tile_x : Z;
  ne_tile_y : Z;
  ne_pass_idx : Z;
}.

Definition nack_entry_bytes (e : TileNackEntry) : list Z :=
  le_bytes 4 (ne_frame_seq e) ++ [ne_tile_x e] ++ [ne_tile_y e] ++ [ne_pass_idx e].

(** [TileNackEnvelope::write] *)
Definition nack_write (buf : list Z) (entries : list TileNackEntry) : list Z :=
  buf ++ [TILE_NACK_ENVELOPE] ++ [u8 (Z.of_nat (length entries))]
      ++ concat (nack_entry_bytes <$> entries).

(** [TileNackEnvelope::encode]; its [debug_assert!] is the caller's contract. *)
Definition nack_encode (entries : list TileNackEntry) (buf : list Z) : list Z :=
  nack_write buf entries.

(** [TileNackEnvelope::encode_clamped] *)
Definition nack_encode_clamped (entries : list TileNackEntry) (buf : list Z) : list Z * nat :=
  let n := Nat.min (length entries) TILE_NACK_MAX_ENTRIES in
  (nack_write buf (take n entries), n).

Definition nack_entry_read (data : list Z) (off : nat) : outcome ProtocolError TileNackEntry :=
  fs ← slice data off (off + 4);
  x ← idx data (off + 4);
  y ← idx data (off + 5);
  p ← idx data (off + 6);
  Ok (mkTileNackEntry (from_le fs) x y p).

Definition nack_entry_at (data : list Z) (i : nat) : outcome ProtocolError TileNackEntry :=
  nack_entry_read data (2 + i * TILE_NACK_ENTRY_SIZE).

Definition nack_decode (data : list Z) : outcome ProtocolError (list TileNackEntry) :=
  if (length data <? 2)%nat then Err (TooShort 2 (length data)) else
  disc ← idx data 0;
  if negb (disc =? TILE_NACK_ENVELOPE) then Err (UnknownEnvelope disc) else
  c ← idx data 1;
  let count := Z.to_nat c in
  if (TILE_NACK_MAX_ENTRIES <? count)%nat then Err InvalidLength else
  let expected := (2 + count * TILE_NACK_ENTRY_SIZE)%nat in
  if (length data <? expected)%nat then Err (TooShort expected (length data)) else
  collect (nack_entry_at data) (seq 0 count).

(** ** FRAME_ACK (0x0A) *)

Record FrameAck : Type := mkFrameAck {
  fa_newest_seq : Z;
  fa_decoded_mask : Z;
  fa_refused_mask : Z;
}.

Definition fa_encode (a : FrameAck) (buf : list Z) : list Z :=
  buf ++ [FRAME_ACK_ENVELOPE] ++ le_bytes 4 (fa_newest_seq a)
      ++ le_bytes 8 (fa_decoded_mask a) ++ le_bytes 8 (fa_refused_mask a).

Definition fa_decode (data : list Z) : outcome ProtocolError FrameAck :=
  if (length data <? FRAME_ACK_SIZE)%nat
  then Err (TooShort FRAME_ACK_SIZE (length data)) else
  disc ← idx data 0;
  if negb (disc =? FRAME_ACK_ENVELOPE) then Err (UnknownEnvelope disc) else
  if negb (length data =? FRAME_ACK_SIZE)%nat then Err InvalidLength else
  newest ← slice data 1 5;
  decoded ← slice data 5 13;
  refused ← slice data 13 21;
  Ok (mkFrameAck (from_le newest) (from_le decoded) (from_le refused)).

(** [FrameAck::bit] *)
Definition fa_bit (a : FrameAck) (mask seq : Z) : bool :=
  let back := Z.land (wsub32 (fa_newest_seq a) seq) 0x7FFFFFFF in
  (back <? 64) && (Z.land (Z.shiftr mask back) 1 =? 1).
Definition is_decoded (a : FrameAck) (seq : Z) : bool := fa_bit a (fa_decoded_mask a) seq.
Definition is_refused (a : FrameAck) (seq : Z) : bool := fa_bit a (fa_refused_mask a) seq.

(** ** Inbound classification *)

Inductive InboundKind : Type :=
| KEmpty | KUnknown | KHello | KAckBatchV1 | KAckBatch | KTileParity
| KTileNack | KFrameAck | KFrameFragment | KTileFragment.

#[export] Instance InboundKind_eq_dec : EqDecision InboundKind.
Proof. solve_decision. Defined.

Definition classify_inbound (data : list Z) : InboundKind :=
  match data with
  | [] => KEmpty
  | first :: _ =>
      if first =? FEEDBACK_MSG_TYPE then KHello else
      if (0x02 <=? first) && (first <=? 0x04) then KAckBatchV1 else
      if first =? ACK_BATCH_MSG_TYPE then KAckBatch else
      if first =? TILE_NACK_ENVELOPE then KTileNack else
      if first =? FRAME_ACK_ENVELOPE then KFrameAck else
      if first <? 0x10 then KUnknown else
      if first <? 0x80 then KFrameFragment else
      KTileFragment
  end.

(** ** Well-formed headers: every field within its width *)

Definition dh_ok (h : DatagramHeader) : Prop :=
  in_width 32 (dh_frame_seq h) ∧ in_width 16 (dh_frag_idx h) ∧ in_width 16 (dh_frag_total h)
  ∧ in_width 32 (dh_wire_seq h) ∧ in_width 32 (dh_timestamp_us h).

Definition th_ok (h : TileHeader) : Prop :=
  byte (th_tile_x h) ∧ byte (th_tile_y h) ∧ byte (th_generation h) ∧ byte (th_pass h)
  ∧ in_width 32 (th_payload_len h).

Definition th_clip (h : TileHeader) : TileHeader :=
  mkTileHeader (th_tile_x h) (th_tile_y h) (th_codec h) (th_lz4 h)
    (Z.land (th_generation h) 0x0F) (Z.land (th_pass h) 0x0F) (th_payload_len h).

Lemma length_dh_encode h : length (dh_encode h []) = DATAGRAM_HEADER_SIZE.
Proof. reflexivity. Qed.

Lemma length_th_encode h : length (th_encode h []) = TILE_HEADER_SIZE.
Proof. reflexivity. Qed.

#[export] Hint Rewrite length_dh_encode length_th_encode : lengths.

Lemma codec_roundtrip c : codec_from_u8 (codec_to_u8 c) = Ok c.
Proof. by destruct c. Qed.

Lemma dh_decode_encode h rest : dh_ok h → dh_decode (dh_encode h [] ++ rest) = Ok h.
Proof.
  intros (? & ? & ? & ? & ?). unfold dh_decode, dh_encode, DATAGRAM_HEADER_SIZE.
  rewrite app_nil_l. len_false. rd.
  rewrite !(from_be_exact 4 _ 32), !(from_be_exact 2 _ 16) by done. by destruct h.
Qed.

Lemma codec_lz4_packed c (b : bool) :
  let packed := u8 (Z.lor (u8 (Z.shiftl (codec_to_u8 c) 1)) (Z.b2z b)) in
  codec_from_u8 (Z.shiftr packed 1) = Ok c ∧ negb (Z.land packed 1 =? 0) = b.
Proof. by destruct c, b. Qed.

Lemma gen_pass_packed g p :
  let packed := u8 (Z.lor (u8 (Z.shiftl (Z.land g 0x0F) 4)) (Z.land p 0x0F)) in
  Z.shiftr packed 4 = Z.land g 0x0F ∧ Z.land packed 0x0F = Z.land p 0x0F.
Proof.
  cbv zeta. fold (nibbles (Z.land g 0x0F) (Z.land p 0x0F)).
  rewrite !land_15. pose proof (Z.mod_pos_bound g 16). pose proof (Z.mod_pos_bound p 16).
  rewrite nibbles_val by lia. rewrite shiftr_div by lia. change (2 ^ 4) with 16.
  split; dlia.
Qed.

Lemma th_decode_encode h rest : th_ok h → th_decode (th_encode h [] ++ rest) = Ok (th_clip h).
Proof.
  intros (? & ? & ? & ? & ?). unfold th_decode, th_encode, TILE_HEADER_SIZE.
  rewrite app_nil_l. len_false. rd.
  destruct (codec_lz4_packed (th_codec h) (th_lz4 h)) as [-> ->].
  destruct (gen_pass_packed (th_generation h) (th_pass h)) as [-> ->].
  cbn [mbind outcome_bind]. rd.
  by rewrite (from_be_exact 4 _ 32) by done.
Qed.

(** ** Chunking *)

Section chunks.
Context {A : Type} (n : nat) (Hn : (0 < n)%nat).
  Implicit Types l : list A.

Lemma chunks_go_concat fuel l : (length l ≤ fuel)%nat → concat (chunks_go fuel n l) = l.
  Proof using Hn.
    revert l. induction fuel as [|fuel IH]; intros [|x l] Hl; try (cbn in *; done || lia).
    cbn [chunks_go concat]. rewrite IH; [by rewrite take_drop|].
    rewrite length_drop. cbn [length] in *. lia.
  Qed.

Lemma chunks_concat l : concat (chunks n l) = l.
  Proof using Hn. by apply chunks_go_concat. Qed.

Lemma chunks_go_sizes fuel l :
    Forall (λ c, 0 < length c ≤ n)%nat (chunks_go fuel n l).
  Proof using Hn.
    revert l. induction fuel as [|fuel IH]; intros [|x l]; cbn [chunks_go]; constructor; auto.
    rewrite length_take. cbn [length]. lia.
  Qed.

Lemma chunks_sizes l : Forall (λ c, 0 < length c ≤ n)%nat (chunks n l).
  Proof using Hn. apply chunks_go_sizes. Qed.

Lemma chunks_go_short fuel l :
    (0 < length l ≤ n)%nat → (0 < fuel)%nat → chunks_go fuel n l = [l].
  Proof.
    intros Hl Hf. destruct fuel as [|fuel], l as [|x l]; cbn [length] in *; try lia.
    cbn [chunks_go]. rewrite take_ge, drop_ge by (cbn [length]; lia). by destruct fuel.
  Qed.

Lemma chunks_short l : (0 < length l ≤ n)%nat → chunks n l = [l].
  Proof. intros. apply chunks_go_short; lia. Qed.
End chunks.

Lemma payload_chunks_concat payload m :
  (0 < m)%nat → concat (payload_chunks payload m) = payload.
Proof. intros Hm. destruct payload; [done|]. by apply chunks_concat. Qed.

Lemma payload_chunks_sizes payload m :
  (0 < m)%nat → Forall (λ c, length c ≤ m)%nat (payload_chunks payload m).
Proof.
  intros Hm. destruct payload as [|b payload].
  - repeat constructor. cbn. lia.
  - eapply Forall_impl; [exact (chunks_sizes m Hm (b :: payload))|]. cbn. lia.
Qed.

Lemma payload_chunks_bytes payload m :
  (0 < m)%nat → bytes payload → Forall bytes (payload_chunks payload m).
Proof.
  intros Hm Hb. rewrite <-(payload_chunks_concat payload m Hm) in Hb.
  by apply Forall_concat in Hb.
Qed.

(** ** Tile datagrams *)

Definition tfi_ok (i : TileFragmentInputs) : Prop :=
  in_width 32 (tfi_frame_seq i) ∧ byte (tfi_tile_x i) ∧ byte (tfi_tile_y i)
  ∧ byte (tfi_generation i) ∧ byte (tfi_pass i) ∧ in_width 32 (tfi_timestamp_us i).

(** The headers the fragments of one tile carry. *)
Definition fragment_dh (i : TileFragmentInputs) (frag_total n : nat) : DatagramHeader :=
  mkDatagramHeader (tfi_frame_seq i) (u16 (Z.of_nat n)) (u16 (Z.of_nat frag_total))
    UNSTAMPED_WIRE_SEQ (tfi_timestamp_us i).
Definition fragment_th (i : TileFragmentInputs) (payload_len : nat) : TileHeader :=
  mkTileHeader (tfi_tile_x i) (tfi_tile_y i) (tfi_codec i) false
    (Z.land (tfi_generation i) 0x0F) (Z.land (tfi_pass i) 0x0F) (u32 (Z.of_nat payload_len)).

Lemma decode_tile_datagram_encode dh th payload :
  dh_ok dh → th_ok th →
  decode_tile_datagram (th_encode th (dh_encode dh []) ++ payload) = Ok (dh, th_clip th, payload).
Proof.
  intros Hdh Hth. unfold decode_tile_datagram.
  replace (th_encode th (dh_encode dh []) ++ payload)
    with (dh_encode dh [] ++ th_encode th [] ++ payload)
    by (unfold th_encode, dh_encode; by rewrite <-!app_assoc).
  rewrite dh_decode_encode by done. cbn [mbind outcome_bind].
  rewrite slice_skip by lens.
  rewrite slice_all by lens.
  cbn [mbind outcome_bind]. rewrite th_decode_encode by done. cbn [mbind outcome_bind].
  rewrite slice_skip by lens.
  rewrite slice_all by lens. done.
Qed.

Lemma decode_tile_fragment i plen total n chunk :
  tfi_ok i →
  decode_tile_datagram (tile_fragment i plen total n chunk)
  = Ok (fragment_dh i total n, fragment_th i plen, chunk).
Proof.
  intros (? & ? & ? & ? & ? & ?). unfold tile_fragment. cbv zeta.
  rewrite decode_tile_datagram_encode; [done| |];
    unfold dh_ok, th_ok, UNSTAMPED_WIRE_SEQ; split_and!; cbn -[wrap in_width];
    try done; by apply wrap_in_width.
Qed.

(** Fragmenting a tile always succeeds for a positive fragment size, and the
    datagrams it makes decode, in order, to the shared headers (with the fragment
    number and the fragment count) and to pieces of the payload that fit the
    size and concatenate to the payload. *)
Theorem fragment_tile_reassembles i payload m :
  tfi_ok i → (0 < m)%nat →
  ∃ dgs chs, fragment_tile i payload m = Ok dgs ∧ concat chs = payload
    ∧ Forall (λ c, length c ≤ m)%nat chs
    ∧ decode_tile_datagram <$> dgs
      = imap (λ n c, Ok (fragment_dh i (length chs) n, fragment_th i (length payload), c)) chs.
Proof.
  intros Hi Hm. unfold fragment_tile, assert_. rewrite (proj2 (Nat.ltb_lt 0 m)) by done.
  cbn [mbind outcome_bind]. eexists _, (payload_chunks payload m). split_and!; [done|..].
  - by apply payload_chunks_concat.
  - by apply payload_chunks_sizes.
  - rewrite fmap_imap. apply imap_ext. intros n c _. by apply decode_tile_fragment.
Qed.

Lemma encode_tile_datagram_roundtrip i payload :
  tfi_ok i →
  ∃ dg, encode_tile_datagram i payload = Ok dg
    ∧ length dg = (DATAGRAM_HEADER_SIZE + TILE_HEADER_SIZE + length payload)%nat
    ∧ decode_tile_datagram dg = Ok (fragment_dh i 1 0, fragment_th i (length payload), payload).
Proof.
  intros Hi. exists (tile_fragment i (length payload) 1 0 payload). split_and!.
  - unfold encode_tile_datagram, fragment_tile, assert_.
    destruct (Nat.ltb_spec 0 (length payload `max` 1)); [|lia]. cbn [mbind outcome_bind].
    destruct payload as [|b payload]; [done|]. unfold payload_chunks.
    by rewrite chunks_short by lens.
  - unfold tile_fragment. rewrite length_app. unfold th_encode. rewrite length_app. done.
  - by apply decode_tile_fragment.
Qed.

(** Decoding never panics, whatever the bytes. *)
Lemma codec_from_u8_no_panic v : no_panic (codec_from_u8 v).
Proof. unfold codec_from_u8, no_panic. by repeat case_match. Qed.

Lemma dh_decode_no_panic data : no_panic (dh_decode data).
Proof. unfold dh_decode, DATAGRAM_HEADER_SIZE. np. Qed.

Lemma dh_decode_ok data h :
  dh_decode data = Ok h → (DATAGRAM_HEADER_SIZE ≤ length data)%nat.
Proof. unfold dh_decode. destruct (Nat.ltb_spec (length data) DATAGRAM_HEADER_SIZE); [done|lia]. Qed.

Lemma th_decode_no_panic data : no_panic (th_decode data).
Proof.
  unfold th_decode, TILE_HEADER_SIZE. np.
  apply no_panic_bind; [apply codec_from_u8_no_panic|]. intros c _. np.
Qed.

Lemma th_decode_ok data h :
  th_decode data = Ok h → (TILE_HEADER_SIZE ≤ length data)%nat.
Proof. unfold th_decode. destruct (Nat.ltb_spec (length data) TILE_HEADER_SIZE); [done|lia]. Qed.

Lemma decode_tile_datagram_no_panic data : no_panic (decode_tile_datagram data).
Proof.
  unfold decode_tile_datagram. apply no_panic_bind; [apply dh_decode_no_panic|].
  intros dh Hdh%dh_decode_ok. np.
  apply no_panic_bind; [apply th_decode_no_panic|].
  intros th Hth%th_decode_ok. np.
Qed.

Lemma fh_decode_no_panic data : no_panic (fh_decode data).
Proof. unfold fh_decode, FRAME_HEADER_SIZE. np. Qed.

Lemma fh_decode_ok data h :
  fh_decode data = Ok h → (FRAME_HEADER_SIZE ≤ length data)%nat.
Proof. unfold fh_decode. destruct (Nat.ltb_spec (length data) FRAME_HEADER_SIZE); [done|lia]. Qed.

Lemma decode_frame_datagram_no_panic data : no_panic (decode_frame_datagram data).
Proof.
  unfold decode_frame_datagram. apply no_panic_bind; [apply fh_decode_no_panic|].
  intros fh Hfh%fh_decode_ok. np.
Qed.

Lemma tp_decode_no_panic data : no_panic (tp_decode data).
Proof. unfold tp_decode, TILE_PARITY_HEADER_SIZE. np. Qed.

Lemma nack_entry_at_no_panic data i :
  (2 + S i * TILE_NACK_ENTRY_SIZE ≤ length data)%nat → no_panic (nack_entry_at data i).
Proof. intros Hi. unfold nack_entry_at, nack_entry_read, TILE_NACK_ENTRY_SIZE in *. np. Qed.

Lemma nack_decode_no_panic data : no_panic (nack_decode data).
Proof.
  unfold nack_decode. np. apply collect_no_panic. intros i Hi%elem_of_seq.
  apply nack_entry_at_no_panic. unfold TILE_NACK_ENTRY_SIZE in *. np_len.
Qed.

Lemma fa_decode_no_panic data : no_panic (fa_decode data).
Proof. unfold fa_decode, FRAME_ACK_SIZE. np. Qed.

(** No decoder of the datagram protocol panics, whatever bytes the peer
    sends: tile fragments, frame fragments, parity envelopes, NACK batches and
    frame acknowledgements each give a value or a typed error. *)
Theorem wire_decoders_no_panic data :
  no_panic (decode_tile_datagram data) ∧ no_panic (decode_frame_datagram data)
  ∧ no_panic (tp_decode data) ∧ no_panic (nack_decode data) ∧ no_panic (fa_decode data).
Proof.
  split_and!; [apply decode_tile_datagram_no_panic | apply decode_frame_datagram_no_panic
  | apply tp_decode_no_panic | apply nack_decode_no_panic | apply fa_decode_no_panic].
Qed.

(** ** H.264 frame datagrams *)

Definition fh_ok (h : FrameHeader) : Prop :=
  in_width 32 (fh_frame_seq h) ∧ in_width 16 (fh_frag_idx h) ∧ in_width 16 (fh_frag_total h)
  ∧ in_width 32 (fh_wire_seq h) ∧ in_width 32 (fh_timestamp_us h)
  ∧ byte (fh_flags h) ∧ byte (fh_slots h) ∧ in_width 32 (fh_ref_frame_seq h).

Definition fri_ok (i : FrameRefInfo) : Prop :=
  byte (fri_flags i) ∧ byte (fri_slots i) ∧ in_width 32 (fri_ref_frame_seq i).

Lemma length_fh_encode h : length (fh_encode h []) = FRAME_HEADER_SIZE.
Proof. reflexivity. Qed.
#[export] Hint Rewrite length_fh_encode : lengths.

Lemma decode_frame_datagram_encode h payload :
  fh_ok h → decode_frame_datagram (fh_encode h [] ++ payload) = Ok (h, payload).
Proof.
  intros (? & ? & ? & ? & ? & ? & ? & ?). unfold decode_frame_datagram.
  assert (fh_decode (fh_encode h [] ++ payload) = Ok h) as ->.
  { unfold fh_decode, fh_encode, FRAME_HEADER_SIZE.
    rewrite app_nil_l. len_false. rd.
    rewrite !(from_be_exact 4 _ 32), !(from_be_exact 2 _ 16) by done. by destruct h. }
  cbn [mbind outcome_bind]. rewrite slice_skip by lens. by rewrite slice_all by lens.
Qed.

Definition frame_fragment_fh (frame_seq timestamp_us : Z) (info : FrameRefInfo)
    (frag_total n : nat) : FrameHeader :=
  mkFrameHeader frame_seq (u16 (Z.of_nat n)) (u16 (Z.of_nat frag_total)) NO_ACK
    timestamp_us (fri_flags info) (fri_slots info) (fri_ref_frame_seq info).

(** Fragmenting an H.264 frame always succeeds for a positive fragment size,
    and the datagrams decode, in order, to the frame's header (flags, slots and
    reference included) and to pieces that fit the size and concatenate to the
    encoded frame. *)
Theorem fragment_frame_ref_reassembles seq ts info payload m :
  in_width 32 seq → in_width 32 ts → fri_ok info → (0 < m)%nat →
  ∃ dgs chs, fragment_frame_ref seq ts info payload m = Ok dgs ∧ concat chs = payload
    ∧ Forall (λ c, length c ≤ m)%nat chs
    ∧ decode_frame_datagram <$> dgs
      = imap (λ n c, Ok (frame_fragment_fh seq ts info (length chs) n, c)) chs.
Proof.
  intros Hs Ht (? & ? & ?) Hm. unfold fragment_frame_ref, assert_.
  rewrite (proj2 (Nat.ltb_lt 0 m)) by done.
  cbn [mbind outcome_bind]. eexists _, (payload_chunks payload m). split_and!; [done|..].
  - by apply payload_chunks_concat.
  - by apply payload_chunks_sizes.
  - rewrite fmap_imap. apply imap_ext. intros n c _. cbn [compose].
    apply decode_frame_datagram_encode.
    unfold fh_ok, NO_ACK; split_and!; cbn -[wrap in_width]; try done; by apply wrap_in_width.
Qed.

(** ** Parity envelope *)

Definition tp_ok (e : TileParityEnvelope) : Prop :=
  in_width 32 (tp_group_first_wire_seq e) ∧ byte (tp_k e) ∧ byte (tp_parity_idx e)
  ∧ Z.of_nat (length (tp_source_lens e)) = tp_k e ∧ Forall (in_width 16) (tp_source_lens e).

Lemma chunks_concat_fixed {A B} (f : A → list B) (n : nat) (l : list A) :
  (0 < n)%nat → (∀ a, length (f a) = n) → chunks n (concat (f <$> l)) = f <$> l.
Proof.
  intros Hn Hf. unfold chunks.
  enough (∀ fuel, (length (concat (f <$> l)) ≤ fuel)%nat →
          chunks_go fuel n (concat (f <$> l)) = f <$> l) by auto.
  induction l as [|a l IH]; intros fuel Hfuel; [by destruct fuel|].
  rewrite fmap_cons in *. cbn [concat] in *. rewrite length_app, Hf in Hfuel.
  destruct fuel as [|fuel]; [lia|].
  specialize (Hf a) as Ha. destruct (f a ++ concat (f <$> l)) as [|b t] eqn:E.
  { apply app_eq_nil in E as [E _]. rewrite E in Ha. cbn in Ha. lia. }
  cbn [chunks_go]. rewrite <-E, <-Ha, take_app_length, drop_app_length, Ha.
  by rewrite IH by lia.
Qed.

(** A parity envelope decodes to itself: first sequence number, every source
    length and the parity bytes. *)
Theorem tile_parity_roundtrip e : tp_ok e → tp_decode (tp_encode e []) = Ok e.
Proof.
  intros (? & Hk & ? & Hlen & Hlens). unfold tp_decode, tp_encode, TILE_PARITY_HEADER_SIZE.
  rewrite app_nil_l. len_false. rd. cbn [negb Z.eqb TILE_PARITY_ENVELOPE Pos.eqb]. rd.
  assert (Z.to_nat (tp_k e) = length (tp_source_lens e)) as -> by lia.
  pose proof (length_concat_fixed (be_bytes 2) 2 (tp_source_lens e) (length_be_bytes 2)) as Hc.
  set (tab := concat _) in *. rewrite (proj2 (Nat.ltb_ge _ _)) by lens. rd.
  unfold tab at 1. rewrite chunks_concat_fixed by (auto using length_be_bytes || lia).
  rewrite (from_be_exact 4 _ 32) by done. rewrite <-list_fmap_compose.
  replace ((from_be ∘ be_bytes 2) <$> tp_source_lens e) with (tp_source_lens e).
  - by destruct e.
  - rewrite <-(list_fmap_id (tp_source_lens e)) at 1. apply list_fmap_ext. intros i x Hx.
    cbn. symmetry. apply (from_be_exact 2 _ 16); [done|]. by eapply Forall_lookup_1.
Qed.

(** ** NACK envelope *)

Definition ne_ok (e : TileNackEntry) : Prop :=
  in_width 32 (ne_frame_seq e) ∧ byte (ne_tile_x e) ∧ byte (ne_tile_y e) ∧ byte (ne_pass_idx e).

Lemma length_nack_entry_bytes e : length (nack_entry_bytes e) = TILE_NACK_ENTRY_SIZE.
Proof. reflexivity. Qed.

Lemma nack_entry_read_bytes pre e post :
  ne_ok e → nack_entry_read (pre ++ nack_entry_bytes e ++ post) (length pre) = Ok e.
Proof.
  intros (? & ? & ? & ?). unfold nack_entry_read, nack_entry_bytes. rd.
  replace (length pre + 4 - length pre)%nat with 4%nat by lia.
  replace (length pre + 5 - length pre)%nat with 5%nat by lia.
  replace (length pre + 6 - length pre)%nat with 6%nat by lia. rd.
  rewrite (from_le_exact 4 _ 32) by done. by destruct e.
Qed.

Lemma nack_decode_write entries rest :
  (length entries ≤ TILE_NACK_MAX_ENTRIES)%nat → Forall ne_ok entries →
  nack_decode (nack_write [] entries ++ rest) = Ok entries.
Proof.
  unfold TILE_NACK_MAX_ENTRIES. intros Hlen Hok. unfold nack_decode, nack_write.
  pose proof (length_concat_fixed nack_entry_bytes _ entries length_nack_entry_bytes) as Hc.
  rewrite app_nil_l, <-!app_assoc. set (data := [TILE_NACK_ENVELOPE] ++ _).
  assert (length data = 2 + length entries * TILE_NACK_ENTRY_SIZE + length rest)%nat as Hdata.
  { unfold data, TILE_NACK_ENTRY_SIZE in *. lens. }
  rewrite Hdata. rewrite (proj2 (Nat.ltb_ge _ 2)) by lia.
  change (idx data 0) with (@Ok ProtocolError Z TILE_NACK_ENVELOPE).
  change (idx data 1) with (@Ok ProtocolError Z (u8 (Z.of_nat (length entries)))).
  cbn [mbind outcome_bind TILE_NACK_ENVELOPE Z.eqb Pos.eqb negb].
  rewrite wrap_small by wsolve. rewrite Nat2Z.id.
  rewrite (proj2 (Nat.ltb_ge _ _)) by (unfold TILE_NACK_MAX_ENTRIES; lia).
  rewrite (proj2 (Nat.ltb_ge _ _)) by lia.
  exact (collect_records nack_entry_bytes nack_entry_read TILE_NACK_ENTRY_SIZE ne_ok entries
    length_nack_entry_bytes nack_entry_read_bytes Hok
    [TILE_NACK_ENVELOPE; u8 (Z.of_nat (length entries))] rest 0 2 eq_refl).
Qed.

(** [encode_clamped] never writes more than the decoder accepts, and what it
    writes decodes to the entries it kept, in order. *)
Theorem nack_clamped_roundtrip entries :
  Forall ne_ok entries →
  let '(buf, n) := nack_encode_clamped entries [] in
  n = Nat.min (length entries) TILE_NACK_MAX_ENTRIES ∧ nack_decode buf = Ok (take n entries).
Proof.
  intros Hok. unfold nack_encode_clamped. split; [done|].
  rewrite <-(app_nil_r (nack_write [] _)). apply nack_decode_write.
  - rewrite length_take. lia.
  - by apply Forall_take.
Qed.

(** ** Frame acknowledgements *)

Definition fa_ok (a : FrameAck) : Prop :=
  in_width 32 (fa_newest_seq a) ∧ in_width 64 (fa_decoded_mask a) ∧ in_width 64 (fa_refused_mask a).

Lemma frame_ack_roundtrip a : fa_ok a → fa_decode (fa_encode a []) = Ok a.
Proof.
  intros (? & ? & ?). unfold fa_decode, fa_encode, FRAME_ACK_SIZE.
  rewrite app_nil_l. len_false. rd. cbn [negb Z.eqb FRAME_ACK_ENVELOPE Pos.eqb].
  rewrite (proj2 (Nat.eqb_eq _ _)) by reflexivity. cbn [negb]. rd.
  rewrite (from_le_exact 4 _ 32), !(from_le_exact 8 _ 64) by done. by destruct a.
Qed.

(** A frame ack is exact: no prefix or extension of it decodes. *)
Lemma frame_ack_exact_length a data :
  fa_decode data = Ok a → length data = FRAME_ACK_SIZE.
Proof.
  unfold fa_decode. destruct (Nat.ltb_spec (length data) FRAME_ACK_SIZE) as [|Hl]; [done|].
  destruct (idx data 0) as [disc|e|]; [|done|done]. cbn [mbind outcome_bind].
  destruct (negb (disc =? FRAME_ACK_ENVELOPE)); [done|].
  destruct (Nat.eqb_spec (length data) FRAME_ACK_SIZE) as [->|]; done.
Qed.

(** ** Telling datagrams apart *)

Lemma be4_cons v : ∃ a b c d, be_bytes 4 v = [a; b; c; d].
Proof. by repeat eexists. Qed.

Lemma is_tile_datagram_be v rest :
  in_width 32 v → is_tile_datagram (be_bytes 4 v ++ rest) = Z.testbit v 31.
Proof.
  intros Hv. unfold is_tile_datagram.
  rewrite (proj2 (Nat.ltb_ge _ _)) by lens.
  rewrite take_app_length' by (symmetry; apply length_be_bytes).
  rewrite (from_be_exact 4 v 32) by done. change TILE_DATAGRAM_FLAG with (2 ^ 31).
  by apply bit_set.
Qed.

Lemma is_tile_datagram_tile_fragment i plen total n chunk :
  tfi_ok i → is_tile_datagram (tile_fragment i plen total n chunk) = Z.testbit (tfi_frame_seq i) 31.
Proof.
  intros (? & _). unfold tile_fragment, th_encode, dh_encode. cbn [dh_frame_seq].
  rewrite app_nil_l, <-!app_assoc. by apply is_tile_datagram_be.
Qed.

Lemma is_tile_datagram_frame_fragment seq ts info total n chunk :
  in_width 32 seq →
  is_tile_datagram (frame_fragment seq ts info total n chunk) = Z.testbit seq 31.
Proof.
  intros ?. unfold frame_fragment, fh_encode. cbn [fh_frame_seq].
  rewrite app_nil_l, <-!app_assoc. by apply is_tile_datagram_be.
Qed.

Lemma first_byte_be4 v : head (be_bytes 4 v) = Some (v / 256 / 256 / 256 mod 256).
Proof. reflexivity. Qed.

(** The two datagram families of the wire are told apart by bit 31 of
    [frame_seq], and a tile datagram is never taken for an envelope. *)
Theorem tile_and_frame_datagrams_disjoint i plen total n chunk seq ts info :
  tfi_ok i → Z.testbit (tfi_frame_seq i) 31 = true → in_width 31 seq →
  let tile := tile_fragment i plen total n chunk in
  let frame := frame_fragment seq ts info total n chunk in
  is_tile_datagram tile = true ∧ classify_inbound tile = KTileFragment
  ∧ is_tile_datagram frame = false ∧ classify_inbound frame ≠ KTileFragment.
Proof.
  intros Hi Hbit Hseq. cbv zeta.
  assert (in_width 32 seq) as Hseq32 by wsolve.
  assert (Z.testbit seq 31 = false) as Hbit'.
  { apply Z.bits_above_log2; [wsolve|].
    destruct (decide (seq = 0)) as [->|]; [done|]. apply Z.log2_lt_pow2; wsolve. }
  assert (2 ^ 31 ≤ tfi_frame_seq i) as Hge.
  { apply Z.le_ngt. intros Hlt. rewrite Z.bits_above_log2 in Hbit; [done| |].
    - destruct Hi as (? & _). wsolve.
    - destruct (decide (tfi_frame_seq i = 0)) as [->|]; [done|].
      destruct Hi as (? & _). apply Z.log2_lt_pow2; wsolve. }
  rewrite is_tile_datagram_tile_fragment, is_tile_datagram_frame_fragment by done.
  assert (∀ v t, in_width 32 v → classify_inbound (be_bytes 4 v ++ t) = KTileFragment
                 ↔ 2 ^ 31 ≤ v) as Hcl.
  { intros v t Hv.
    change (be_bytes 4 v ++ t) with (v / 256 / 256 / 256 mod 256 ::
      (v / 256 / 256 mod 256) :: (v / 256 mod 256) :: (v mod 256) :: t).
    assert (0x80 ≤ v / 256 / 256 / 256 mod 256 ↔ 2 ^ 31 ≤ v) as <- by (widths; dlia).
    generalize (v / 256 / 256 / 256 mod 256) as b. intros b.
    unfold classify_inbound, FEEDBACK_MSG_TYPE, ACK_BATCH_MSG_TYPE, TILE_NACK_ENVELOPE,
      FRAME_ACK_ENVELOPE.
    repeat case_match; split; intros; first [done | exfalso; lia | lia]. }
  split_and!; try done.
  - unfold tile_fragment, th_encode, dh_encode. cbn [dh_frame_seq].
    rewrite app_nil_l, <-!app_assoc. apply Hcl; [apply Hi|done].
  - unfold frame_fragment, fh_encode. cbn [fh_frame_seq].
    rewrite app_nil_l, <-!app_assoc. rewrite Hcl by done. wsolve.
Qed.

(** ** Witnesses: the properties at concrete datagrams *)

Definition sample_inputs : TileFragmentInputs :=
  mkTileFragmentInputs (TILE_DATAGRAM_FLAG + 7) 3 5 CCdf53 2 4 1000.
Lemma sample_inputs_ok : tfi_ok sample_inputs.
Proof. unfold tfi_ok. split_and!; done. Qed.

Lemma fragment_tile_reassembles_witness :
  ∃ dgs chs, fragment_tile sample_inputs [1; 2; 3; 4; 5] 2 = Ok dgs ∧ concat chs = [1; 2; 3; 4; 5]
    ∧ Forall (λ c, length c ≤ 2)%nat chs
    ∧ decode_tile_datagram <$> dgs
      = imap (λ n c, Ok (fragment_dh sample_inputs (length chs) n, fragment_th sample_inputs 5, c)) chs.
Proof. exact (fragment_tile_reassembles _ [1; 2; 3; 4; 5] 2 sample_inputs_ok ltac:(lia)). Defined.

Lemma fragment_frame_ref_reassembles_witness :
  ∃ dgs chs, fragment_frame_ref 9 1000 (fri_predicted 8) [1; 2; 3] 2 = Ok dgs ∧ concat chs = [1; 2; 3]
    ∧ Forall (λ c, length c ≤ 2)%nat chs
    ∧ decode_frame_datagram <$> dgs
      = imap (λ n c, Ok (frame_fragment_fh 9 1000 (fri_predicted 8) (length chs) n, c)) chs.
Proof.
  apply (fragment_frame_ref_reassembles 9 1000 (fri_predicted 8) [1; 2; 3] 2);
    [done|done|unfold fri_ok; split_and!; done|lia].
Defined.

Definition sample_parity : TileParityEnvelope := mkTileParityEnvelope 41 2 0 [3; 2] [7; 8; 9].

Lemma tile_parity_roundtrip_witness : tp_decode (tp_encode sample_parity []) = Ok sample_parity.
Proof.
  apply (tile_parity_roundtrip sample_parity). unfold tp_ok. split_and!; try done.
  by repeat constructor.
Defined.

Definition sample_nacks : list TileNackEntry := [mkTileNackEntry 7 3 5 0; mkTileNackEntry 8 1 1 2].

Lemma nack_clamped_roundtrip_witness :
  let '(buf, n) := nack_encode_clamped sample_nacks [] in
  n = Nat.min 2 TILE_NACK_MAX_ENTRIES ∧ nack_decode buf = Ok (take n sample_nacks).
Proof.
  apply (nack_clamped_roundtrip sample_nacks). repeat constructor; done.
Defined.

Lemma tile_and_frame_datagrams_disjoint_witness :
  let tile := tile_fragment sample_inputs 3 1 0 [1; 2; 3] in
  let frame := frame_fragment 9 1000 (fri_predicted 8) 1 0 [1; 2; 3] in
  is_tile_datagram tile = true ∧ classify_inbound tile = KTileFragment
  ∧ is_tile_datagram frame = false ∧ classify_inbound frame ≠ KTileFragment.
Proof.
  exact (tile_and_frame_datagrams_disjoint _ 3 1 0 [1; 2; 3] 9 1000 (fri_predicted 8)
    sample_inputs_ok eq_refl ltac:(done)).
Defined.
