(* ===== verification/Control.v ===== *)
(** * Control messages of the protocol crate

    ACK batches ([ack.rs]), receiver feedback ([feedback.rs]), the feedback
    stream's reset request ([feedback_stream.rs]), eviction notices
    ([eviction.rs]) and the solid-colour tile codec ([codec/solid.rs]). *)

From Stdlib Require Import ZArith Lia.
From stdpp Require Import base option list numbers sets.
From S2P Require Import Prelude Wire.

Local Open Scope Z_scope.

(** ** ACK batches *)

Definition MAX_FRESH_ENTRIES_PER_BATCH : nat := 64.
Definition ACK_OVERLAP_COUNT : nat := 8.
Definition MAX_ACK_ENTRIES_PER_BATCH : nat := MAX_FRESH_ENTRIES_PER_BATCH + ACK_OVERLAP_COUNT.
Definition ACK_ENTRY_SIZE : nat := 6.

Inductive AckDecodeError : Type :=
| AckTooShort (n : nat)
| AckWrongMsgType (b : Z)
| AckInvalidCount (b : Z).

Record AckEntry : Type := mkAckEntry {
  ae_wire_seq : Z;
  ae_arrival_time_ms_lo16 : Z;
}.

#[export] Instance AckEntry_eq_dec : EqDecision AckEntry.
Proof. solve_decision. Defined.

Definition ack_entry_bytes (e : AckEntry) : list Z :=
  le_bytes 4 (ae_wire_seq e)
  ++ [u8 (Z.land (ae_arrival_time_ms_lo16 e) 0xFF)]
  ++ [u8 (Z.land (Z.shiftr (ae_arrival_time_ms_lo16 e) 8) 0xFF)].

(** [AckBatch::encode] *)
Definition ack_encode (entries : list AckEntry) : list Z :=
  [ACK_BATCH_MSG_TYPE] ++ [u8 (Z.of_nat (length entries))] ++ concat (ack_entry_bytes <$> entries).

Definition ack_entry_read (data : list Z) (off : nat) : outcome AckDecodeError AckEntry :=
  b0 ← idx data off;
  b1 ← idx data (off + 1);
  b2 ← idx data (off + 2);
  b3 ← idx data (off + 3);
  lo ← idx data (off + 4);
  hi ← idx data (off + 5);
  Ok (mkAckEntry (from_le [b0; b1; b2; b3]) (Z.lor lo (u16 (Z.shiftl hi 8)))).

(** [AckBatch::decode] *)
Definition ack_decode (data : list Z) : outcome AckDecodeError (list AckEntry) :=
  if (length data <? 2)%nat then Err (AckTooShort (length data)) else
  ty ← idx data 0;
  if negb (ty =? ACK_BATCH_MSG_TYPE) then Err (AckWrongMsgType ty) else
  count ← idx data 1;
  if (count =? 0) || (MAX_ACK_ENTRIES_PER_BATCH <? Z.to_nat count)%nat
  then Err (AckInvalidCount count) else
  let need := (2 + Z.to_nat count * ACK_ENTRY_SIZE)%nat in
  if (length data <? need)%nat then Err (AckTooShort (length data)) else
  collect (λ i, ack_entry_read data (2 + i * ACK_ENTRY_SIZE)) (seq 0 (Z.to_nat count)).

(** ** Receiver feedback *)

Definition FEEDBACK_SIZE : nat := 18.

Record ReceiverFeedback : Type := mkReceiverFeedback {
  rf_timestamp_ns : Z;
  rf_datagrams_received : Z;
  rf_datagrams_recovered_fec : Z;
  rf_suspension_detected : bool;
}.

Definition rf_encode (f : ReceiverFeedback) (buf : list Z) : list Z :=
  buf ++ [FEEDBACK_MSG_TYPE] ++ be_bytes 8 (rf_timestamp_ns f)
      ++ be_bytes 4 (rf_datagrams_received f) ++ be_bytes 4 (rf_datagrams_recovered_fec f)
      ++ [if rf_suspension_detected f then 0x01 else 0x00].

(** [decode] returns an [Option]: [None] is [Ok None] here, so that a panic
    stays distinguishable. *)
Definition rf_decode (data : list Z) : outcome Empty_set (option ReceiverFeedback) :=
  if (length data <? FEEDBACK_SIZE)%nat then Ok None else
  ty ← idx data 0;
  if negb (ty =? FEEDBACK_MSG_TYPE) then Ok None else
  ts ← slice data 1 9;
  rcv ← slice data 9 13;
  rec ← slice data 13 17;
  flags ← idx data 17;
  Ok (Some (mkReceiverFeedback (from_be ts) (from_be rcv) (from_be rec)
              (negb (Z.land flags 0x01 =? 0)))).

(** ** Feedback-stream message types and the reset request *)

Definition HELLO_MSG_TYPE : Z := 0x03.
Definition DECODE_ERROR_MSG_TYPE : Z := 0x04.
Definition INPUT_MSG_TYPE : Z := 0x05.
Definition RESET_REQUEST_MSG_TYPE : Z := 0x09.
Definition RESET_REQUEST_SIZE : nat := 6.
Definition DISPLAY_INFO_MSG_TYPE : Z := 0x07.
Definition DISPLAY_MODE_MSG_TYPE : Z := 0x08.
Definition HELLO_CAP_INDICES_RAW : Z := 0x01.
Definition HELLO_CAP_SUPPORTS_H264 : Z := 0x02.
Definition HELLO_CAP_H264_ACKED_REF : Z := 0x04.
Definition HELLO_CAPS_RESERVED_MASK : Z := 0xF8.

Definition FEEDBACK_STREAM_MSG_TYPES : list Z :=
  [FEEDBACK_MSG_TYPE; HELLO_MSG_TYPE; DECODE_ERROR_MSG_TYPE; INPUT_MSG_TYPE;
   DISPLAY_INFO_MSG_TYPE; DISPLAY_MODE_MSG_TYPE; RESET_REQUEST_MSG_TYPE].

Inductive ResetReason : Type := DecoderFailure | Resolution | NoDecoder | GateReset.

#[export] Instance ResetReason_eq_dec : EqDecision ResetReason.
Proof. solve_decision. Defined.

(** [self.reason as u8] *)
Definition reset_reason_u8 (r : ResetReason) : Z :=
  match r with DecoderFailure => 1 | Resolution => 2 | NoDecoder => 3 | GateReset => 4 end.

Definition reset_reason_from_u8 (b : Z) : option ResetReason :=
  if b =? 1 then Some DecoderFailure else
  if b =? 2 then Some Resolution else
  if b =? 3 then Some NoDecoder else
  if b =? 4 then Some GateReset else None.

Definition reset_request_encode (reason : ResetReason) (frame_seq : Z) (buf : list Z) : list Z :=
  buf ++ [RESET_REQUEST_MSG_TYPE] ++ [reset_reason_u8 reason] ++ le_bytes 4 frame_seq.

Definition reset_request_decode (data : list Z)
    : outcome Empty_set (option (ResetReason * Z)) :=
  if (length data <? RESET_REQUEST_SIZE)%nat then Ok None else
  ty ← idx data 0;
  if negb (ty =? RESET_REQUEST_MSG_TYPE) then Ok None else
  r ← idx data 1;
  match reset_reason_from_u8 r with
  | None => Ok None
  | Some reason => fs ← slice data 2 6; Ok (Some (reason, from_le fs))
  end.

(** ** Eviction notices *)

Definition EVICTION_SENTINEL_X : Z := 0xFE.
Definition EVICTION_SENTINEL_Y : Z := 0xFE.

Inductive EvictionReason : Type :=
| DisplacedByNewSession
| UnknownReason (b : Z).

Definition eviction_to_byte (r : EvictionReason) : Z :=
  match r with DisplacedByNewSession => 1 | UnknownReason b => b end.

Definition eviction_from_byte (b : Z) : EvictionReason :=
  if b =? 1 then DisplacedByNewSession else UnknownReason b.

Definition build_eviction_datagram (reason : EvictionReason) : outcome ProtocolError (list Z) :=
  let payload := [eviction_to_byte reason] in
  let inputs := mkTileFragmentInputs TILE_DATAGRAM_FLAG EVICTION_SENTINEL_X EVICTION_SENTINEL_Y
                  Skip 0 0 0 in
  datagrams ← fragment_tile inputs payload (length payload);
  assert_ (length datagrams =? 1)%nat ≫= λ _, idx datagrams 0.

Definition parse_eviction (datagram : list Z) : option EvictionReason :=
  match decode_tile_datagram datagram with
  | Ok (_, th, payload) =>
      if negb (th_tile_x th =? EVICTION_SENTINEL_X) || negb (th_tile_y th =? EVICTION_SENTINEL_Y)
      then None
      else Some (eviction_from_byte (default 0 (head payload)))
  | _ => None
  end.

(** ** Solid tiles *)

Inductive SolidDecodeError : Type := WrongSize (n : nat).

Definition encode_solid (tile_bgra : list Z) : outcome Empty_set (list Z) := slice tile_bgra 0 4.

Definition decode_solid (payload : list Z) : outcome SolidDecodeError (list Z) :=
  if negb (length payload =? 4)%nat then Err (WrongSize (length payload)) else slice payload 0 4.

(** ** ACK batches: round trip and acceptance *)

Definition ae_ok (e : AckEntry) : Prop :=
  in_width 32 (ae_wire_seq e) ∧ in_width 16 (ae_arrival_time_ms_lo16 e).

Lemma length_ack_entry_bytes e : length (ack_entry_bytes e) = ACK_ENTRY_SIZE.
Proof. reflexivity. Qed.

Lemma lo_hi_bytes x : in_width 16 x →
  Z.lor (u8 (Z.land x 0xFF)) (u16 (Z.shiftl (u8 (Z.land (Z.shiftr x 8) 0xFF)) 8)) = x.
Proof.
  intros Hx. rewrite !land_255, shiftr_div by lia.
  rewrite (wrap_small 8 (x mod 256)) by (widths; dlia).
  rewrite (wrap_small 8 (x / 2 ^ 8 mod 256)) by (widths; dlia).
  rewrite wrap_small by (rewrite Z.shiftl_mul_pow2 by lia; widths; dlia).
  rewrite Z.lor_comm, lor_shiftl by (widths; dlia). widths. dlia.
Qed.

Lemma ack_entry_read_bytes pre e post :
  ae_ok e → ack_entry_read (pre ++ ack_entry_bytes e ++ post) (length pre) = Ok e.
Proof.
  intros [Hw Ha]. unfold ack_entry_read.
  rewrite !idx_skip_off. rewrite (idx_skip pre), Nat.sub_diag by lia.
  change (ack_entry_bytes e ++ post) with
    (le_bytes 4 (ae_wire_seq e) ++ [u8 (Z.land (ae_arrival_time_ms_lo16 e) 0xFF);
      u8 (Z.land (Z.shiftr (ae_arrival_time_ms_lo16 e) 8) 0xFF)] ++ post).
  cbn [idx le_bytes app lookup list_lookup mbind outcome_bind].
  rewrite lo_hi_bytes by done.
  pose proof (from_le_exact 4 (ae_wire_seq e) 32 eq_refl Hw) as Hfl.
  cbn [le_bytes] in Hfl. rewrite Hfl. by destruct e.
Qed.

Lemma ack_decode_encode entries rest :
  (0 < length entries ≤ MAX_ACK_ENTRIES_PER_BATCH)%nat → Forall ae_ok entries →
  ack_decode (ack_encode entries ++ rest) = Ok entries.
Proof.
  unfold MAX_ACK_ENTRIES_PER_BATCH, MAX_FRESH_ENTRIES_PER_BATCH, ACK_OVERLAP_COUNT.
  intros Hlen Hok. unfold ack_decode, ack_encode.
  pose proof (length_concat_fixed ack_entry_bytes _ entries length_ack_entry_bytes) as Hc.
  rewrite <-!app_assoc. set (data := [ACK_BATCH_MSG_TYPE] ++ _).
  assert (length data = 2 + length entries * ACK_ENTRY_SIZE + length rest)%nat as Hdata.
  { unfold data, ACK_ENTRY_SIZE in *. lens. }
  rewrite Hdata. rewrite (proj2 (Nat.ltb_ge _ 2)) by lia.
  change (idx data 0) with (@Ok AckDecodeError Z ACK_BATCH_MSG_TYPE).
  change (idx data 1) with (@Ok AckDecodeError Z (u8 (Z.of_nat (length entries)))).
  cbn [mbind outcome_bind ACK_BATCH_MSG_TYPE Z.eqb Pos.eqb negb].
  rewrite wrap_small by wsolve. rewrite Nat2Z.id.
  rewrite (proj2 (Z.eqb_neq _ _)) by lia. cbn [orb].
  rewrite (proj2 (Nat.ltb_ge _ _))
    by (unfold MAX_ACK_ENTRIES_PER_BATCH, MAX_FRESH_ENTRIES_PER_BATCH, ACK_OVERLAP_COUNT; lia).
  rewrite (proj2 (Nat.ltb_ge _ _)) by lia.
  exact (collect_records ack_entry_bytes ack_entry_read ACK_ENTRY_SIZE ae_ok entries
    length_ack_entry_bytes ack_entry_read_bytes Hok
    [ACK_BATCH_MSG_TYPE; u8 (Z.of_nat (length entries))] rest 0 2 eq_refl).
Qed.

Lemma ack_batch_roundtrip entries :
  (0 < length entries ≤ MAX_ACK_ENTRIES_PER_BATCH)%nat → Forall ae_ok entries →
  ack_decode (ack_encode entries) = Ok entries.
Proof. intros. rewrite <-(app_nil_r (ack_encode entries)). by apply ack_decode_encode. Qed.

Lemma ack_decode_no_panic data : no_panic (ack_decode data).
Proof.
  unfold ack_decode. np. apply collect_no_panic. intros i Hi%elem_of_seq.
  unfold ack_entry_read, ACK_ENTRY_SIZE in *. np.
Qed.

(** ** Feedback, reset requests and evictions *)

Definition rf_ok (f : ReceiverFeedback) : Prop :=
  in_width 64 (rf_timestamp_ns f) ∧ in_width 32 (rf_datagrams_received f)
  ∧ in_width 32 (rf_datagrams_recovered_fec f).

Lemma rf_decode_no_panic data : no_panic (rf_decode data).
Proof. unfold rf_decode, FEEDBACK_SIZE. np. Qed.

Lemma rf_decode_encode f : rf_ok f → rf_decode (rf_encode f []) = Ok (Some f).
Proof.
  intros (? & ? & ?). unfold rf_decode, rf_encode, FEEDBACK_SIZE.
  rewrite app_nil_l. len_false. rd. cbn [FEEDBACK_MSG_TYPE Z.eqb Pos.eqb negb]. rd.
  rewrite (from_be_exact 8 _ 64), !(from_be_exact 4 _ 32) by done.
  destruct f as [? ? ? []]; done.
Qed.

Lemma reset_request_decode_no_panic data : no_panic (reset_request_decode data).
Proof.
  unfold reset_request_decode, RESET_REQUEST_SIZE. np.
  destruct (reset_reason_from_u8 _); np.
Qed.

Lemma reset_request_decode_encode r seq rest :
  in_width 32 seq →
  reset_request_decode (reset_request_encode r seq [] ++ rest) = Ok (Some (r, seq)).
Proof.
  intros Hs. unfold reset_request_decode, reset_request_encode, RESET_REQUEST_SIZE.
  rewrite app_nil_l. len_false. rd. cbn [RESET_REQUEST_MSG_TYPE Z.eqb Pos.eqb negb]. rd.
  replace (reset_reason_from_u8 (reset_reason_u8 r)) with (Some r) by (by destruct r).
  rd. by rewrite (from_le_exact 4 _ 32) by done.
Qed.

(** The message bytes of the feedback stream are pairwise distinct, none is
    the ACK batch's, and the HELLO capability bits partition the byte. *)
Lemma control_namespace_sound :
  NoDup FEEDBACK_STREAM_MSG_TYPES ∧ (ACK_BATCH_MSG_TYPE ∉ FEEDBACK_STREAM_MSG_TYPES)
  ∧ ACK_BATCH_MSG_TYPE ≠ TILE_NACK_ENVELOPE
  ∧ Z.lor HELLO_CAPS_RESERVED_MASK (Z.lor HELLO_CAP_INDICES_RAW
      (Z.lor HELLO_CAP_SUPPORTS_H264 HELLO_CAP_H264_ACKED_REF)) = 0xFF.
Proof. split_and!; try done; by apply (bool_decide_unpack _). Qed.

Lemma eviction_byte_roundtrip r :
  (∀ b, r = UnknownReason b → b ≠ 1) → eviction_from_byte (eviction_to_byte r) = r.
Proof.
  destruct r as [|b]; [done|]. intros Hb. unfold eviction_from_byte, eviction_to_byte.
  by rewrite (proj2 (Z.eqb_neq _ _)) by auto.
Qed.

(** An eviction notice is one datagram that parses back to its reason, and is
    routed as a tile datagram. *)
Theorem eviction_roundtrip r :
  (∀ b, r = UnknownReason b → byte b ∧ b ≠ 1) →
  ∃ dg, build_eviction_datagram r = Ok dg ∧ parse_eviction dg = Some r
        ∧ is_tile_datagram dg = true.
Proof.
  intros Hr. set (i := mkTileFragmentInputs TILE_DATAGRAM_FLAG EVICTION_SENTINEL_X
    EVICTION_SENTINEL_Y Skip 0 0 0).
  assert (tfi_ok i) as Hi by (unfold tfi_ok; split_and!; done).
  exists (tile_fragment i 1 1 0 [eviction_to_byte r]). split_and!; [done| |].
  - unfold parse_eviction. rewrite decode_tile_fragment by done.
    cbn [fragment_th th_tile_x th_tile_y i tfi_tile_x tfi_tile_y Z.eqb
         EVICTION_SENTINEL_X EVICTION_SENTINEL_Y Pos.eqb negb orb head default].
    cbn. f_equal. apply eviction_byte_roundtrip. intros b Hb. by apply Hr.
  - by rewrite is_tile_datagram_tile_fragment by done.
Qed.

Lemma eviction_roundtrip_witness :
  ∃ dg, build_eviction_datagram (UnknownReason 9) = Ok dg ∧ parse_eviction dg = Some (UnknownReason 9)
        ∧ is_tile_datagram dg = true.
Proof. apply (eviction_roundtrip (UnknownReason 9)). by intros b [= <-]. Defined.

(** ** What the client says, the server hears *)

(** Every control message a client encodes is recognised by its first byte and
    decoded to exactly what was encoded: ACK batches, NACK batches, frame
    acknowledgements, receiver feedback and reset requests; a frame
    acknowledgement of any other length is refused. *)
Theorem client_messages_understood entries nacks a f r seq :
  (0 < length entries ≤ MAX_ACK_ENTRIES_PER_BATCH)%nat → Forall ae_ok entries →
  (length nacks ≤ TILE_NACK_MAX_ENTRIES)%nat → Forall ne_ok nacks →
  fa_ok a → rf_ok f → in_width 32 seq →
  (classify_inbound (ack_encode entries) = KAckBatch ∧ ack_decode (ack_encode entries) = Ok entries)
  ∧ (classify_inbound (nack_write [] nacks) = KTileNack ∧ nack_decode (nack_write [] nacks) = Ok nacks)
  ∧ (classify_inbound (fa_encode a []) = KFrameAck ∧ fa_decode (fa_encode a []) = Ok a)
  ∧ (classify_inbound (rf_encode f []) = KHello ∧ rf_decode (rf_encode f []) = Ok (Some f))
  ∧ reset_request_decode (reset_request_encode r seq []) = Ok (Some (r, seq))
  ∧ (∀ data a', fa_decode data = Ok a' → length data = FRAME_ACK_SIZE).
Proof.
  intros Hl He Hn Hne Ha Hf Hs. split_and!; try done.
  - by apply ack_batch_roundtrip.
  - rewrite <-(app_nil_r (nack_write [] nacks)). by apply nack_decode_write.
  - by apply frame_ack_roundtrip.
  - by apply rf_decode_encode.
  - rewrite <-(app_nil_r (reset_request_encode r seq [])). by apply reset_request_decode_encode.
  - intros data a'. apply frame_ack_exact_length.
Qed.

Lemma client_messages_understood_witness :
  let entries := [mkAckEntry 7 300; mkAckEntry 8 301] in
  let a := mkFrameAck 9 5 2 in
  let f := mkReceiverFeedback 1000 50 2 true in
  (classify_inbound (ack_encode entries) = KAckBatch ∧ ack_decode (ack_encode entries) = Ok entries)
  ∧ (classify_inbound (nack_write [] sample_nacks) = KTileNack
     ∧ nack_decode (nack_write [] sample_nacks) = Ok sample_nacks)
  ∧ (classify_inbound (fa_encode a []) = KFrameAck ∧ fa_decode (fa_encode a []) = Ok a)
  ∧ (classify_inbound (rf_encode f []) = KHello ∧ rf_decode (rf_encode f []) = Ok (Some f))
  ∧ reset_request_decode (reset_request_encode GateReset 12 []) = Ok (Some (GateReset, 12))
  ∧ (∀ data a', fa_decode data = Ok a' → length data = FRAME_ACK_SIZE).
Proof.
  apply client_messages_understood;
    [unfold MAX_ACK_ENTRIES_PER_BATCH; cbn; lia|by repeat constructor
    |unfold TILE_NACK_MAX_ENTRIES; cbn; lia|by repeat constructor|by repeat constructor
    |by repeat constructor|done].
Defined.
