(* ===== verification/Cdf53Rle.v ===== *)
(** * Zero-run coding of bit-planes ([codec/cdf53.rs]: [rle_encode], [rle_decode],
      [rle_decode_into], [rle_expanded_len])

    Tokens: [0x00..=0x7E] a literal, [0x7F b] an escaped literal, [0x80 | (n-1)]
    a run of [n] zeros.  The source walks an index over a slice; here the
    suffix still to be read is the recursive argument. *)

From Stdlib Require Import ZArith Lia.
From stdpp Require Import base option list numbers.
From S2P Require Import Prelude.

Local Open Scope Z_scope.

(** ** Definitions *)

(** The inner [while]: [l] is the data from [i + run_len] on. *)
Fixpoint zero_run (l : list Z) (run_len : nat) : nat :=
  match l with
  | b :: l => if (b =? 0) && (run_len <? 128)%nat then zero_run l (S run_len) else run_len
  | [] => run_len
  end.

(** Every iteration of the outer [while] consumes at least one byte, so
    [length data] iterations always reach the end. *)
Fixpoint rle_encode_go (fuel : nat) (data : list Z) : list Z :=
  match fuel, data with
  | S fuel, b :: rest =>
      if b =? 0 then
        let run_len := zero_run rest 1 in
        Z.lor 0x80 (u8 (Z.of_nat (run_len - 1))) :: rle_encode_go fuel (drop run_len data)
      else if b <? 0x7F then b :: rle_encode_go fuel rest
      else 0x7F :: b :: rle_encode_go fuel rest
  | _, _ => []
  end.
Definition rle_encode (data : list Z) : list Z := rle_encode_go (length data) data.

(** [(token & 0x7F) as usize + 1] *)
Definition run_of (token : Z) : nat := Z.to_nat (Z.land token 0x7F) + 1.

Fixpoint rle_decode (rle : list Z) : list Z :=
  match rle with
  | [] => []
  | token :: rest =>
      if token =? 0x7F then
        match rest with
        | b :: rest' => b :: rle_decode rest'
        | [] => []
        end
      else if negb (Z.land token 0x80 =? 0) then replicate (run_of token) 0 ++ rle_decode rest
      else token :: rle_decode rest
  end.

(** [out[a..b].fill(v)] *)
Definition fill {A} (out : list A) (a b : nat) (v : A) : list A :=
  take a out ++ replicate (b - a) v ++ drop b out.

Fixpoint rle_decode_into_go (rle out : list Z) (n : nat) : list Z * nat :=
  match rle with
  | [] => (out, n)
  | token :: rest =>
      if token =? 0x7F then
        match rest with
        | b :: rest' =>
            let out := if (n <? 128)%nat then <[n:=b]> out else out in
            if (128 <? n + 1)%nat then (out, 129%nat) else rle_decode_into_go rest' out (n + 1)
        | [] => (out, n)
        end
      else if negb (Z.land token 0x80 =? 0) then
        let run := run_of token in
        let end_ := Nat.min (n + run) 128 in
        let out := if (n <? end_)%nat then fill out n end_ 0 else out in
        if (128 <? n + run)%nat then (out, 129%nat) else rle_decode_into_go rest out (n + run)
      else
        let out := if (n <? 128)%nat then <[n:=token]> out else out in
        if (128 <? n + 1)%nat then (out, 129%nat) else rle_decode_into_go rest out (n + 1)
  end.
Definition rle_decode_into (rle out : list Z) : list Z * nat := rle_decode_into_go rle out 0.

(** The loop's index overshoots the slice exactly when an escape is the last
    token; then the byte it counted is taken back. *)
Fixpoint rle_expanded_len_go (rle : list Z) (n : nat) : nat :=
  match rle with
  | [] => n
  | t :: rest =>
      let n := (n + (1 + Z.to_nat (Z.shiftr t 7) * Z.to_nat (Z.land t 0x7F)))%nat in
      if t =? 0x7F then
        match rest with
        | _ :: rest' => rle_expanded_len_go rest' n
        | [] => n - 1
        end
      else rle_expanded_len_go rest n
  end.
Definition rle_expanded_len (rle : list Z) : nat := Nat.min (rle_expanded_len_go rle 0) 129.

(** ** Encoding then decoding *)

Lemma zero_run_bounds l r : (r ≤ 128)%nat → (r ≤ zero_run l r ≤ 128)%nat.
Proof.
  revert r. induction l as [|b l IH]; intros r Hr; cbn [zero_run]; [lia|].
  destruct ((b =? 0) && (r <? 128)%nat) eqn:E; [|lia].
  apply andb_true_iff in E as [_ E%Nat.ltb_lt]. specialize (IH (S r)). lia.
Qed.

Lemma zero_run_spec l r :
  ∃ rest, l = replicate (zero_run l r - r) 0 ++ rest ∧ (length rest ≤ length l)%nat.
Proof.
  revert r. induction l as [|b l IH]; intros r; cbn [zero_run].
  { exists []. rewrite Nat.sub_diag. done. }
  destruct (Z.eqb_spec b 0) as [->|Hb]; cbn [andb].
  - destruct (Nat.ltb_spec r 128) as [Hr|Hr].
    + destruct (IH (S r)) as (rest & Hl & Hlen). exists rest. split; [|cbn; lia].
      pose proof (zero_run_bounds l (S r)).
      replace (zero_run l (S r) - r)%nat with (S (zero_run l (S r) - S r)) by lia.
      cbn [replicate app]. by rewrite <-Hl.
    + exists (0 :: l). by rewrite Nat.sub_diag.
  - exists (b :: l). by rewrite Nat.sub_diag.
Qed.

Lemma run_token r :
  (1 ≤ r ≤ 128)%nat →
  let t := Z.lor 0x80 (u8 (Z.of_nat (r - 1))) in
  byte t ∧ (t =? 0x7F) = false ∧ negb (Z.land t 0x80 =? 0) = true ∧ run_of t = r.
Proof.
  intros Hr. cbv zeta. rewrite wrap_small by wsolve.
  set (m := Z.of_nat (r - 1)). assert (0 ≤ m < 128) as Hm by lia.
  assert (Z.lor 0x80 m = 0x80 + m) as ->.
  { change (Z.lor 0x80 m) with (Z.lor (Z.shiftl 1 7) m). by rewrite lor_shiftl by lia. }
  assert (Z.land (0x80 + m) 0x7F = m) as Hland.
  { rewrite (land_low 7) by lia. change (2 ^ 7) with 128. dlia. }
  split_and!; [wsolve | lia | | unfold run_of; rewrite Hland; lia].
  change 0x80 with (2 ^ 7) at 2. rewrite bit_set, Z.testbit_odd, shiftr_div by lia.
  change (2 ^ 7) with 128. replace ((0x80 + m) / 128) with 1 by dlia. done.
Qed.

Lemma rle_encode_go_decode fuel data :
  bytes data → (length data ≤ fuel)%nat → rle_decode (rle_encode_go fuel data) = data.
Proof.
  revert data. induction fuel as [|fuel IH]; intros [|b rest] Hb Hl; try (cbn in *; done || lia).
  cbn [rle_encode_go]. inversion Hb as [|? ? Hb0 Hrest]; subst. cbn [length] in Hl.
  destruct (Z.eqb_spec b 0) as [->|Hnz].
  - pose proof (zero_run_bounds rest 1 ltac:(lia)) as Hr.
    destruct (zero_run_spec rest 1) as (tl & Htl & Hlen).
    destruct (run_token (zero_run rest 1) ltac:(lia)) as (_ & E1 & E2 & E3).
    cbn [rle_decode]. rewrite E1, E2, E3. set (r := zero_run rest 1) in *.
    assert (0 :: rest = replicate r 0 ++ tl) as Heq.
    { replace r with (S (r - 1)) by lia. cbn [replicate app]. by rewrite <-Htl. }
    rewrite Heq, drop_app_length' by by rewrite length_replicate.
    rewrite IH; [done| |lia].
    apply Forall_app with (l1 := replicate r 0). rewrite <-Heq. done.
  - destruct (Z.ltb_spec b 0x7F) as [Hlt|Hge]; cbn [rle_decode].
    + rewrite (proj2 (Z.eqb_neq _ _)) by lia.
      change 0x80 with (2 ^ 7). rewrite bit_set, Z.testbit_odd, shiftr_div by lia.
      rewrite Z.div_small by wsolve. cbn [Z.odd]. by rewrite IH by (done || lia).
    + by rewrite IH by (done || lia).
Qed.

Lemma rle_roundtrip data : bytes data → rle_decode (rle_encode data) = data.
Proof. intros. by apply rle_encode_go_decode. Qed.

Lemma rle_encode_go_length fuel data :
  (length (rle_encode_go fuel data) ≤ 2 * length data)%nat.
Proof.
  revert data. induction fuel as [|fuel IH]; intros [|b rest]; cbn [rle_encode_go length]; try lia.
  destruct (b =? 0).
  - pose proof (zero_run_bounds rest 1 ltac:(lia)).
    cbn [length]. specialize (IH (drop (zero_run rest 1) (b :: rest))).
    rewrite length_drop in IH. cbn [length] in IH. lia.
  - specialize (IH rest). destruct (b <? 0x7F); cbn [length]; lia.
Qed.

Lemma rle_encode_length data : (length (rle_encode data) ≤ 2 * length data)%nat.
Proof. apply rle_encode_go_length. Qed.

Lemma rle_encode_go_bytes fuel data : bytes data → bytes (rle_encode_go fuel data).
Proof.
  revert data. induction fuel as [|fuel IH]; intros [|b rest] Hb; try constructor.
  cbn [rle_encode_go]. inversion Hb; subst. destruct (b =? 0).
  - pose proof (zero_run_bounds rest 1 ltac:(lia)).
    constructor; [by apply run_token; lia|]. apply IH. by apply Forall_drop.
  - destruct (b <? 0x7F); repeat apply Forall_cons_2; first [done | by apply IH].
Qed.

Lemma rle_encode_bytes data : bytes data → bytes (rle_encode data).
Proof. apply rle_encode_go_bytes. Qed.

(** ** The in-place decoder computes the reference decoder, cut at 128 bytes *)

(** What [rle_decode_into] leaves in a 128-byte buffer that already holds [n]
    decoded bytes, when the stream expands to [d]. *)
Definition into_result (out d : list Z) (n : nat) : list Z * nat :=
  (take n out ++ take (128 - n) d ++ drop (n + length d) out, Nat.min (n + length d) 129).

Lemma into_result_nil out n : (n ≤ 128)%nat → into_result out [] n = (out, n).
Proof.
  intros Hn. unfold into_result. rewrite take_nil, app_nil_l. cbn [length].
  rewrite Nat.add_0_r, take_drop. f_equal. lia.
Qed.

(** Writing the first piece of the expansion, then the rest. *)
Lemma into_result_step out p d n :
  length out = 128%nat → (n + length p ≤ 128)%nat →
  into_result (take n out ++ p ++ drop (n + length p) out) d (n + length p)
  = into_result out (p ++ d) n.
Proof.
  intros Hout Hn. unfold into_result. rewrite length_app, Nat.add_assoc. f_equal.
  assert (length (take n out) = n) as Htn by lens.
  rewrite (app_assoc (take n out) p). rewrite take_app_length' by (rewrite length_app; lia).
  rewrite <-app_assoc. f_equal. rewrite take_app, (take_ge p) by lia.
  rewrite <-(app_assoc p). f_equal. rewrite Nat.sub_add_distr. f_equal.
  rewrite drop_app_ge by (rewrite length_app; lia).
  rewrite length_app, Htn, drop_drop. f_equal. lia.
Qed.

(** The first piece already overruns the buffer. *)
Lemma into_result_over out p d n :
  length out = 128%nat → (n ≤ 128)%nat → (128 < n + length p)%nat →
  into_result out (p ++ d) n = (take n out ++ take (128 - n) p, 129%nat).
Proof.
  intros Hout Hn Hp. unfold into_result. rewrite length_app. f_equal; [|lia].
  rewrite (drop_ge out) by lia. rewrite take_app_le by lia. by rewrite app_nil_r.
Qed.

Lemma insert_take_drop_lt (out : list Z) n b :
  (n < length out)%nat → <[n:=b]> out = take n out ++ [b] ++ drop (n + 1) out.
Proof.
  intros Hn. rewrite insert_take_drop by done. by replace (n + 1)%nat with (S n) by lia.
Qed.

Lemma insert_at_128 (out : list Z) (b : Z) : length out = 128%nat → take 128 out ++ take 0 [b] = out.
Proof. intros H. rewrite take_ge by lia. by rewrite app_nil_r. Qed.

Lemma rle_decode_into_byte out b d rest n
    (k : list Z → nat → list Z * nat) :
  length out = 128%nat → (n ≤ 128)%nat →
  (∀ o m, length o = 128%nat → (m ≤ 128)%nat → k o m = into_result o (rle_decode rest) m) →
  d = b :: rle_decode rest →
  (let out := if (n <? 128)%nat then <[n:=b]> out else out in
   if (128 <? n + 1)%nat then (out, 129%nat) else k out (n + 1)%nat)
  = into_result out d n.
Proof.
  intros Hout Hn IH ->. cbv zeta. change (b :: rle_decode rest) with ([b] ++ rle_decode rest).
  destruct (Nat.ltb_spec n 128) as [Hlt|Hge].
  - rewrite (proj2 (Nat.ltb_ge 128 (n + 1))) by lia.
    rewrite IH by (rewrite ?length_insert; lia).
    rewrite insert_take_drop_lt by lia. by apply (into_result_step out [b]); cbn [length]; lia.
  - replace n with 128%nat by lia. cbn [Nat.ltb Nat.leb Nat.add].
    rewrite into_result_over by (cbn [length]; lia). by rewrite insert_at_128.
Qed.

Lemma rle_decode_into_go_spec rle out n :
  length out = 128%nat → (n ≤ 128)%nat →
  rle_decode_into_go rle out n = into_result out (rle_decode rle) n.
Proof.
  remember (length rle) as len eqn:Hlen. revert rle Hlen out n.
  induction (lt_wf len) as [len _ IH]. intros rle -> out n Hout Hn.
  destruct rle as [|token rest]; [by rewrite into_result_nil by done|].
  cbn [rle_decode_into_go rle_decode].
  destruct (token =? 0x7F).
  { destruct rest as [|b rest']; [by rewrite into_result_nil by done|].
    apply rle_decode_into_byte with (rest := rest'); try done.
    intros o m Ho Hm. by apply (IH (length rest')); cbn; lia. }
  destruct (negb (Z.land token 0x80 =? 0)).
  - set (run := run_of token). assert (0 < run)%nat as Hrun by (unfold run, run_of; lia).
    destruct (Nat.ltb_spec 128 (n + run)) as [Hov|Hin].
    + rewrite into_result_over by (rewrite ?length_replicate; lia).
      f_equal. rewrite Nat.min_r, take_replicate by lia. rewrite Nat.min_l by lia.
      destruct (Nat.ltb_spec n 128).
      * unfold fill. by rewrite (drop_ge out 128), app_nil_r by lia.
      * replace (128 - n)%nat with 0%nat by lia. rewrite take_ge by lia. by rewrite app_nil_r.
    + rewrite Nat.min_l by lia. rewrite (proj2 (Nat.ltb_lt n (n + run))) by lia.
      assert (fill out n (n + run) 0 = take n out ++ replicate run 0
                ++ drop (n + length (replicate run 0)) out) as Hfill.
      { unfold fill. rewrite length_replicate. by replace (n + run - n)%nat with run by lia. }
      rewrite Hfill.
      rewrite (IH (length rest)) by (cbn [length]; try done; try lia; lens).
      rewrite <-into_result_step by (rewrite ?length_replicate; lia).
      by rewrite length_replicate.
  - apply rle_decode_into_byte with (rest := rest); try done.
    intros o m Ho Hm. by apply (IH (length rest)); cbn; lia.
Qed.

Lemma rle_decode_into_spec rle out :
  length out = 128%nat →
  let d := rle_decode rle in
  rle_decode_into rle out = (take 128 d ++ drop (length d) out, Nat.min (length d) 129).
Proof. intros Hout. unfold rle_decode_into. by rewrite rle_decode_into_go_spec by lia. Qed.

(** ** The length-only walk agrees with the decoder *)

Lemma token_high t :
  byte t → if negb (Z.land t 0x80 =? 0) then Z.shiftr t 7 = 1 else Z.shiftr t 7 = 0.
Proof.
  intros Ht. change 0x80 with (2 ^ 7). rewrite bit_set, Z.testbit_odd, shiftr_div by lia.
  change (2 ^ 7) with 128. assert (t / 128 = 0 ∨ t / 128 = 1) as [-> | ->]; [|done..].
  widths. dlia.
Qed.

Lemma rle_expanded_len_go_spec rle n :
  bytes rle → rle_expanded_len_go rle n = (n + length (rle_decode rle))%nat.
Proof.
  remember (length rle) as len eqn:Hlen. revert rle Hlen n.
  induction (lt_wf len) as [len _ IH]. intros [|t rest] -> n Hb; [cbn; lia|].
  inversion Hb as [|? ? Ht Hrest]; subst. cbn [rle_expanded_len_go rle_decode].
  pose proof (token_high t Ht) as Hhi.
  destruct (Z.eqb_spec t 0x7F) as [->|Hne].
  { change (Z.to_nat (Z.shiftr 127 7)) with 0%nat. rewrite Nat.mul_0_l.
    destruct rest as [|b rest']; [cbn; lia|]. inversion Hrest; subst.
    rewrite (IH (length rest')) by (done || cbn; lia). cbn [length]. lia. }
  rewrite (IH (length rest)) by (done || cbn; lia).
  destruct (negb (Z.land t 0x80 =? 0)); rewrite Hhi; cbn [length]; [|lia].
  rewrite length_app, length_replicate. unfold run_of. lia.
Qed.

(** Validating a stream without expanding it and expanding it in place agree
    on the (capped) length, for every stream of bytes. *)
Lemma rle_expanded_len_agrees rle out :
  bytes rle → length out = 128%nat →
  rle_expanded_len rle = snd (rle_decode_into rle out).
Proof.
  intros Hb Hout. rewrite rle_decode_into_spec by done.
  unfold rle_expanded_len. by rewrite rle_expanded_len_go_spec by done.
Qed.
