(* ===== verification/Cdf53Passes.v ===== *)
(** * Progressive bit-plane passes ([codec/cdf53.rs]: [encode_passes],
      [encode_passes_sparse], [extract_bit_plane], [decode_passes], [decode_planes])

    A tile is 3 channels of 1024 signed coefficients.  Pass 0 carries their
    signs, pass [p] (1..13) bit [13 - p] of their magnitudes; a pass payload is
    three length-prefixed RLE streams. *)

From Stdlib Require Import ZArith Lia.
From stdpp Require Import base option list numbers sets.
From S2P Require Import Prelude Cdf53Rle.

Local Open Scope Z_scope.

(** ** Definitions *)

Definition CDF53_PASS_COUNT : nat := 14.
Definition CDF53_COEFFS_PER_CHANNEL : nat := 1024.
Definition CDF53_CHANNELS : nat := 3.
Definition CDF53_TOTAL_COEFFS : nat := CDF53_CHANNELS * CDF53_COEFFS_PER_CHANNEL.
Definition BIT_PLANE_BYTES_PER_CHANNEL : nat := CDF53_COEFFS_PER_CHANNEL / 8.
Definition MAX_PASS_PAYLOAD : nat := 3 * (2 + 2 * (CDF53_COEFFS_PER_CHANNEL / 8)) + 2.

(** The bit of one coefficient in one pass. *)
Definition coeff_bit (coeff : Z) (pass_idx : nat) : Z :=
  if (pass_idx =? 0)%nat then Z.b2z (coeff <? 0)
  else Z.land (Z.shiftr (Z.abs coeff) (13 - Z.of_nat pass_idx)) 1.

(** [for (i, &coeff) in channel.iter().enumerate()] from index [i] on. *)
Fixpoint extract_go (channel : list Z) (pass_idx i : nat) (out : list Z) : list Z :=
  match channel with
  | [] => out
  | coeff :: channel =>
      let out :=
        if negb (coeff_bit coeff pass_idx =? 0)
        then alter (λ b, Z.lor b (Z.shiftl 1 (Z.of_nat (i mod 8)))) (i / 8)%nat out
        else out in
      extract_go channel pass_idx (S i) out
  end.
Definition extract_bit_plane (channel : list Z) (pass_idx : nat) : list Z :=
  extract_go channel pass_idx 0 (replicate BIT_PLANE_BYTES_PER_CHANNEL 0).

(** [&coefficients[ch * 1024 .. ch * 1024 + 1024]] *)
Definition channel_of (coefficients : list Z) (ch : nat) : list Z :=
  take CDF53_COEFFS_PER_CHANNEL (drop (ch * CDF53_COEFFS_PER_CHANNEL) coefficients).

(** [payload.push((len >> 8) as u8); payload.push(len as u8); payload.extend(rle)] *)
Definition frame_rle (rle : list Z) : list Z :=
  let len := u16 (Z.of_nat (length rle)) in
  [u8 (Z.shiftr len 8); u8 len] ++ rle.

Definition pass_prefix (present_passes : Z) : list Z :=
  [u8 (Z.shiftr present_passes 8); u8 present_passes].

Definition planes_of (coefficients : list Z) (pass_idx : nat) : list (list Z) :=
  (λ ch, extract_bit_plane (channel_of coefficients ch) pass_idx) <$> seq 0 CDF53_CHANNELS.

Definition pass_payload (present_passes : Z) (planes : list (list Z)) (pass_idx : nat) : list Z :=
  (if (pass_idx =? 0)%nat then pass_prefix present_passes else [])
  ++ concat ((λ plane, frame_rle (rle_encode plane)) <$> planes).

(** The loop body of [encode_passes]; [encode_passes] checks the length first. *)
Definition dense_passes (coefficients : list Z) : list (list Z) :=
  (λ pass_idx, pass_payload (Z.shiftl 1 (Z.of_nat CDF53_PASS_COUNT) - 1)
                 (planes_of coefficients pass_idx) pass_idx) <$> seq 0 CDF53_PASS_COUNT.

Definition encode_passes (coefficients : list Z) : outcome unit (list (list Z)) :=
  assert_ (length coefficients =? CDF53_TOTAL_COEFFS)%nat ≫= λ _, Ok (dense_passes coefficients).

Definition any_set (planes : list (list Z)) : bool :=
  existsb (λ plane, existsb (λ b, negb (b =? 0)) plane) planes.

Definition present_of (coefficients : list Z) : Z :=
  foldl (λ present pass_idx,
           if any_set (planes_of coefficients pass_idx)
           then Z.lor present (Z.shiftl 1 (Z.of_nat pass_idx)) else present)
        1 (seq 0 CDF53_PASS_COUNT).

Definition sparse_passes (coefficients : list Z) : list (Z * list Z) :=
  let present := present_of coefficients in
  omap (λ pass_idx,
          if Z.land present (Z.shiftl 1 (Z.of_nat pass_idx)) =? 0 then None
          else Some (Z.of_nat pass_idx,
                     pass_payload present (planes_of coefficients pass_idx) pass_idx))
       (seq 0 CDF53_PASS_COUNT).

Definition encode_passes_sparse (coefficients : list Z) : outcome unit (Z * list (Z * list Z)) :=
  assert_ (length coefficients =? CDF53_TOTAL_COEFFS)%nat ≫= λ _,
  Ok (present_of coefficients, sparse_passes coefficients).

(** The walk over the three [[u16 BE len][rle]] blocks of a payload, threading
    the state [each] updates; shared by the two parsers of the source. *)
Fixpoint walk_blocks {E S} (truncated : E) (each : nat → list Z → S → outcome E S)
    (payload : list Z) (chs : list nat) (offset : nat) (s : S) : outcome E (S * nat) :=
  match chs with
  | [] => Ok (s, offset)
  | ch :: chs =>
      if (length payload <? offset + 2)%nat then Err truncated else
      hi ← idx payload offset;
      lo ← idx payload (offset + 1);
      let len := Z.to_nat (Z.lor (Z.shiftl hi 8) lo) in
      let offset := (offset + 2)%nat in
      if (length payload <? offset + len)%nat then Err truncated else
      rle ← slice payload offset (offset + len);
      s ← each ch rle s;
      walk_blocks truncated each payload chs (offset + len) s
  end.

(** [rle_decode_into(rle, &mut plane[ch * 128 .. ch * 128 + 128])] *)
Definition decode_channel (ch : nat) (rle plane : list Z) : list Z * nat :=
  let off := (ch * BIT_PLANE_BYTES_PER_CHANNEL)%nat in
  let '(dst, n) := rle_decode_into rle (take BIT_PLANE_BYTES_PER_CHANNEL (drop off plane)) in
  (take off plane ++ dst ++ drop (off + BIT_PLANE_BYTES_PER_CHANNEL) plane, n).

Definition ZERO_PLANE : list Z := replicate (CDF53_CHANNELS * BIT_PLANE_BYTES_PER_CHANNEL) 0.

(** One pass of [decode_passes]; [Err tt] is its [return zeroed()]. *)
Definition decode_pass (pass_idx : nat) (payload : list Z) : outcome unit (list Z) :=
  offset ← (if (pass_idx =? 0)%nat
            then if (length payload <? 2)%nat then Err tt else Ok 2%nat
            else Ok 0%nat);
  '(plane, _) ← walk_blocks tt (λ ch rle plane, Ok (decode_channel ch rle plane).1)
                  payload (seq 0 CDF53_CHANNELS) offset ZERO_PLANE;
  Ok plane.

(** [(plane.get(off + i / 8).copied().unwrap_or(0) >> (i % 8)) & 1] *)
Definition plane_bit (plane : list Z) (j : nat) : Z :=
  let ch := (j / CDF53_COEFFS_PER_CHANNEL)%nat in
  let i := (j mod CDF53_COEFFS_PER_CHANNEL)%nat in
  let byte := default 0 (plane !! (ch * BIT_PLANE_BYTES_PER_CHANNEL + i / 8)%nat) in
  Z.land (Z.shiftr byte (Z.of_nat (i mod 8))) 1.

(** One plane's sweep over all coefficients: signs for pass 0, one magnitude
    bit otherwise.  The arrays are updated entry by entry. *)
Definition apply_plane (st : list bool * list Z) (pass_idx : nat) (plane : list Z)
    : list bool * list Z :=
  if (pass_idx =? 0)%nat
  then (imap (λ j s, if negb (plane_bit plane j =? 0) then true else s) st.1, st.2)
  else (st.1, imap (λ j m, if negb (plane_bit plane j =? 0)
                           then Z.lor m (Z.shiftl 1 (13 - Z.of_nat pass_idx)) else m) st.2).

Fixpoint apply_planes (st : list bool * list Z) (pass_idx : nat) (planes : list (list Z))
    : list bool * list Z :=
  match planes with
  | [] => st
  | plane :: planes => apply_planes (apply_plane st pass_idx plane) (S pass_idx) planes
  end.

Definition midpoint_of (k : nat) : Z :=
  if (2 <=? k)%nat && (k <? CDF53_PASS_COUNT)%nat
  then Z.shiftl 1 (Z.of_nat (CDF53_PASS_COUNT - k) - 1) else 0.

Definition finish_coeff (midpoint : Z) (sign : bool) (mag : Z) : Z :=
  let mag := if negb (mag =? 0) && negb (midpoint =? 0)
             then Z.min (mag + midpoint) (2 ^ 32 - 1) else mag in
  let mag := Z.min mag 32767 in
  if sign then - mag else mag.

Definition decode_planes (planes : list (list Z)) : outcome unit (list Z) :=
  let k := length planes in
  assert_ (k <=? CDF53_PASS_COUNT)%nat ≫= λ _,
  let '(signs, magnitudes) :=
    apply_planes (replicate CDF53_TOTAL_COEFFS false, replicate CDF53_TOTAL_COEFFS 0) 0 planes in
  Ok (zip_with (finish_coeff (midpoint_of k)) signs magnitudes).

(** [for (pass_idx, payload) in passes.iter().enumerate()] *)
Fixpoint collect_planes (pass_idx : nat) (passes : list (list Z)) : outcome unit (list (list Z)) :=
  match passes with
  | [] => Ok []
  | payload :: passes =>
      plane ← decode_pass pass_idx payload;
      planes ← collect_planes (S pass_idx) passes;
      Ok (plane :: planes)
  end.

Definition decode_passes (passes : list (list Z)) : outcome unit (list Z) :=
  assert_ (length passes <=? CDF53_PASS_COUNT)%nat ≫= λ _,
  match collect_planes 0 passes with
  | Ok planes => decode_planes planes
  | Err _ => Ok (replicate CDF53_TOTAL_COEFFS 0)
  | Panic => Panic
  end.

(** ** Bit-planes hold the bits *)

Definition get_bit (plane : list Z) (i : nat) : bool :=
  Z.testbit (default 0 (plane !! (i / 8)%nat)) (Z.of_nat (i mod 8)).

Lemma get_bit_alter out i j :
  (i / 8 < length out)%nat →
  get_bit (alter (λ b, Z.lor b (Z.shiftl 1 (Z.of_nat (i mod 8)))) (i / 8)%nat out) j
  = get_bit out j || (i =? j)%nat.
Proof.
  intros Hi. unfold get_bit.
  assert (Hpow : ∀ b, Z.testbit (Z.lor b (Z.shiftl 1 (Z.of_nat (i mod 8)))) (Z.of_nat (j mod 8))
    = Z.testbit b (Z.of_nat (j mod 8)) || (i mod 8 =? j mod 8)%nat).
  { intros b. rewrite Z.lor_spec, Z.shiftl_1_l, Z.pow2_bits_eqb by lia. f_equal.
    destruct (Nat.eqb_spec (i mod 8) (j mod 8)) as [->|]; [by rewrite Z.eqb_refl|].
    apply Z.eqb_neq. lia. }
  pose proof (Nat.div_mod_eq i 8). pose proof (Nat.div_mod_eq j 8).
  destruct (decide (i / 8 = j / 8)%nat) as [Heq|Hne].
  - rewrite <-Heq, list_lookup_alter.
    destruct (lookup_lt_is_Some_2 out (i / 8) Hi) as [b ->]. cbn [fmap option_fmap option_map].
    cbn [default]. rewrite decide_True by done. cbn. rewrite Hpow. f_equal.
    apply eq_true_iff_eq. rewrite !Nat.eqb_eq. lia.
  - rewrite list_lookup_alter_ne by done.
    rewrite (proj2 (Nat.eqb_neq i j)) by congruence. by rewrite orb_false_r.
Qed.

Lemma length_extract_go ch p i out : length (extract_go ch p i out) = length out.
Proof.
  revert i out. induction ch as [|c ch IH]; intros i out; cbn [extract_go]; [done|].
  rewrite IH. by destruct (negb _); rewrite ?length_alter.
Qed.

Lemma get_bit_extract_go ch p i out j :
  (i + length ch ≤ 8 * length out)%nat →
  get_bit (extract_go ch p i out) j
  = get_bit out j || match ch !! (j - i)%nat with
                     | Some c => (i <=? j)%nat && negb (coeff_bit c p =? 0)
                     | None => false
                     end.
Proof.
  revert i out. induction ch as [|c ch IH]; intros i out Hlen; cbn [extract_go].
  { by rewrite lookup_nil, orb_false_r. }
  cbn [length] in Hlen.
  assert (i / 8 < length out)%nat as Hi by (apply Nat.Div0.div_lt_upper_bound; lia).
  rewrite IH by (destruct (negb _); rewrite ?length_alter; lia).
  assert (get_bit (if negb (coeff_bit c p =? 0)
     then alter (λ b, Z.lor b (Z.shiftl 1 (Z.of_nat (i mod 8)))) (i / 8)%nat out else out) j
     = get_bit out j || (negb (coeff_bit c p =? 0) && (i =? j)%nat)) as ->.
  { destruct (negb _); cbn [andb]; [by apply get_bit_alter|by rewrite orb_false_r]. }
  rewrite <-orb_assoc. f_equal.
  destruct (lt_eq_lt_dec i j) as [[Hlt | ->] | Hgt].
  - replace (j - i)%nat with (S (j - S i)) by lia. cbn [lookup list_lookup].
    rewrite (proj2 (Nat.eqb_neq i j)) by lia. rewrite andb_false_r.
    by rewrite !(proj2 (Nat.leb_le _ _)) by lia.
  - rewrite Nat.sub_diag, Nat.eqb_refl, Nat.leb_refl. cbn [lookup list_lookup].
    rewrite andb_true_r, andb_true_l.
    replace (match ch !! (j - S j)%nat with
             | Some c0 => (S j <=? j)%nat && negb (coeff_bit c0 p =? 0) | None => false end)
      with false; [by rewrite orb_false_r|].
    rewrite (proj2 (Nat.leb_gt (S j) j)) by lia. by destruct (ch !! _).
  - rewrite (proj2 (Nat.eqb_neq i j)) by lia. rewrite andb_false_r.
    rewrite !(proj2 (Nat.leb_gt _ j)) by lia. by destruct (ch !! _), ((c :: ch) !! _).
Qed.

Lemma length_extract_bit_plane ch p :
  length (extract_bit_plane ch p) = BIT_PLANE_BYTES_PER_CHANNEL.
Proof. unfold extract_bit_plane. by rewrite length_extract_go, length_replicate. Qed.

Lemma get_bit_extract ch p j c :
  length ch = CDF53_COEFFS_PER_CHANNEL → ch !! j = Some c →
  get_bit (extract_bit_plane ch p) j = negb (coeff_bit c p =? 0).
Proof.
  intros Hlen Hj. unfold extract_bit_plane. rewrite get_bit_extract_go.
  - rewrite Nat.sub_0_r, Hj. cbn [Nat.leb andb].
    unfold get_bit. replace (default 0 _) with 0; [by rewrite Z.bits_0|].
    destruct (replicate _ 0 !! _) as [x|] eqn:E; [|done].
    apply lookup_replicate in E as [-> _]. done.
  - rewrite Hlen, length_replicate. done.
Qed.

Lemma byte_lor_bit b k : byte b → 0 ≤ k < 8 → byte (Z.lor b (Z.shiftl 1 k)).
Proof.
  intros Hb Hk. split; [apply Z.lor_nonneg; split; [apply Hb|by apply Z.shiftl_nonneg]|].
  destruct (decide (Z.lor b (Z.shiftl 1 k) = 0)) as [->|Hne]; [done|].
  apply Z.log2_lt_pow2; [pose proof (proj2 (Z.lor_nonneg b (Z.shiftl 1 k))) as Hn;
    rewrite Z.shiftl_1_l in *; pose proof (Z.pow_nonneg 2 k); destruct Hb; lia|].
  rewrite Z.log2_lor by (rewrite ?Z.shiftl_1_l; try apply Hb; by apply Z.pow_nonneg).
  rewrite Z.shiftl_1_l, Z.log2_pow2 by lia. apply Z.max_lub_lt; [|lia].
  destruct (decide (b = 0)) as [->|]; [done|]. apply Z.log2_lt_pow2; destruct Hb; lia.
Qed.

Lemma extract_go_bytes ch p i out : bytes out → bytes (extract_go ch p i out).
Proof.
  revert i out. induction ch as [|c ch IH]; intros i out Hout; cbn [extract_go]; [done|].
  apply IH. destruct (negb _); [|done]. apply Forall_alter; [done|].
  intros x Hx Hbx. apply byte_lor_bit; [done|]. pose proof (Nat.mod_upper_bound i 8). lia.
Qed.

Lemma extract_bit_plane_bytes ch p : bytes (extract_bit_plane ch p).
Proof. apply extract_go_bytes. apply Forall_replicate. done. Qed.

(** ** A plane that carries one pass of a coefficient array *)

Definition plane_ok (c : list Z) (p : nat) (plane : list Z) : Prop :=
  ∀ j x, c !! j = Some x → plane_bit plane j = coeff_bit x p.

Lemma coeff_bit_01 x p : (p ≤ 13)%nat → coeff_bit x p = 0 ∨ coeff_bit x p = 1.
Proof.
  intros Hp. unfold coeff_bit. destruct (p =? 0)%nat; [destruct (x <? 0); auto|].
  rewrite land_1. pose proof (Z.mod_pos_bound (Z.shiftr (Z.abs x) (13 - Z.of_nat p)) 2). lia.
Qed.

Lemma length_channel_of c ch :
  length c = CDF53_TOTAL_COEFFS → (ch < 3)%nat →
  length (channel_of c ch) = CDF53_COEFFS_PER_CHANNEL.
Proof.
  intros Hc Hch. unfold channel_of, CDF53_TOTAL_COEFFS, CDF53_COEFFS_PER_CHANNEL, CDF53_CHANNELS in *.
  rewrite length_take, length_drop. lia.
Qed.

Lemma lookup_channel_of c j x :
  c !! j = Some x →
  channel_of c (j / CDF53_COEFFS_PER_CHANNEL) !! (j mod CDF53_COEFFS_PER_CHANNEL)%nat = Some x.
Proof.
  intros Hj. unfold channel_of, CDF53_COEFFS_PER_CHANNEL.
  pose proof (Nat.div_mod_eq j 1024). pose proof (Nat.mod_upper_bound j 1024 ltac:(lia)).
  rewrite lookup_take_lt by lia. rewrite lookup_drop.
  by replace (j / 1024 * 1024 + j mod 1024)%nat with j by lia.
Qed.

Lemma planes_of_lengths c p :
  Forall (λ l, length l = BIT_PLANE_BYTES_PER_CHANNEL) (planes_of c p).
Proof. apply Forall_fmap, Forall_forall. intros ch _. apply length_extract_bit_plane. Qed.

Lemma planes_of_bytes c p : Forall bytes (planes_of c p).
Proof. apply Forall_fmap, Forall_forall. intros ch _. apply extract_bit_plane_bytes. Qed.

Lemma bit_of_get_bit (plane : list Z) (j k : nat) :
  Z.land (Z.shiftr (default 0 (plane !! k)) (Z.of_nat (j mod 8))) 1
  = Z.b2z (Z.testbit (default 0 (plane !! k)) (Z.of_nat (j mod 8))).
Proof. by rewrite land_1, Z.testbit_spec', shiftr_div by lia. Qed.

Lemma planes_of_ok c p :
  length c = CDF53_TOTAL_COEFFS → (p ≤ 13)%nat → plane_ok c p (concat (planes_of c p)).
Proof.
  intros Hc Hp j x Hj. unfold plane_bit.
  pose proof (lookup_lt_Some _ _ _ Hj) as Hlt. rewrite Hc in Hlt.
  unfold CDF53_TOTAL_COEFFS, CDF53_CHANNELS in Hlt.
  set (ch := (j / CDF53_COEFFS_PER_CHANNEL)%nat). set (i := (j mod CDF53_COEFFS_PER_CHANNEL)%nat).
  assert (ch < 3)%nat as Hch by (apply Nat.Div0.div_lt_upper_bound; lia).
  assert (i < CDF53_COEFFS_PER_CHANNEL)%nat as Hi by (by apply Nat.mod_upper_bound).
  assert (i / 8 < BIT_PLANE_BYTES_PER_CHANNEL)%nat as Hi8
    by (apply Nat.Div0.div_lt_upper_bound; done).
  rewrite (lookup_concat_fixed _ _ _ _ (planes_of_lengths c p) Hi8).
  unfold planes_of. rewrite list_lookup_fmap, lookup_seq_lt by done. cbn [fmap option_fmap option_map].
  cbn [mbind option_bind Nat.add]. rewrite bit_of_get_bit. fold (get_bit (extract_bit_plane (channel_of c ch) p) i).
  rewrite (get_bit_extract _ p i x); [|by apply length_channel_of|by apply lookup_channel_of].
  by destruct (coeff_bit_01 x p Hp) as [-> | ->].
Qed.

Lemma zero_plane_ok c p :
  (∀ x, x ∈ c → coeff_bit x p = 0) → plane_ok c p ZERO_PLANE.
Proof.
  intros Hz j x Hj. rewrite Hz by (by eapply list_elem_of_lookup_2).
  unfold plane_bit. replace (default 0 _) with 0; [by rewrite Z.shiftr_0_l|].
  destruct (ZERO_PLANE !! _) as [y|] eqn:E; [|done].
  apply lookup_replicate in E as [-> _]. done.
Qed.

(** ** Accumulating planes *)

(** The magnitude known once the bits above position [u] are in. *)
Definition known_bits (m : Z) (u : Z) : Z := m / 2 ^ u * 2 ^ u.

Lemma known_bits_step m u :
  0 ≤ m → 1 ≤ u →
  (if Z.testbit m (u - 1) then Z.lor (known_bits m u) (Z.shiftl 1 (u - 1)) else known_bits m u)
  = known_bits m (u - 1).
Proof.
  intros Hm Hu. unfold known_bits.
  assert (2 ^ u = 2 * 2 ^ (u - 1)) as Hpow by (rewrite <-Z.pow_succ_r by lia; f_equal; lia).
  assert (m / 2 ^ (u - 1) = 2 * (m / 2 ^ u) + Z.b2z (Z.testbit m (u - 1))) as Hdiv.
  { rewrite Z.testbit_spec' by lia. rewrite Hpow.
    replace (2 * 2 ^ (u - 1)) with (2 ^ (u - 1) * 2) by lia.
    rewrite <-Z.div_div by lia. apply Z.div_mod. lia. }
  pose proof (Z.pow_pos_nonneg 2 (u - 1)).
  destruct (Z.testbit m (u - 1)); cbn [Z.b2z] in Hdiv; [|nia].
  rewrite <-(Z.shiftl_mul_pow2 _ u), lor_shiftl by (rewrite ?Z.shiftl_1_l; lia).
  rewrite Z.shiftl_1_l. nia.
Qed.

Definition acc_state (c : list Z) (k : nat) : list bool * list Z :=
  ((λ x, (0 <? k)%nat && (x <? 0)) <$> c, (λ x, known_bits (Z.abs x) (14 - Z.of_nat k)) <$> c).

Lemma apply_plane_step c k plane :
  (k < 14)%nat → Forall (λ x, Z.abs x < 2 ^ 13) c → plane_ok c k plane →
  apply_plane (acc_state c k) k plane = acc_state c (S k).
Proof.
  intros Hk Hc Hplane. unfold apply_plane, acc_state.
  destruct (Nat.eqb_spec k 0) as [->|Hk0]; cbn [fst snd]; f_equal; apply list_eq; intros j;
    rewrite ?list_lookup_imap, !list_lookup_fmap;
    destruct (c !! j) as [x|] eqn:Hj; cbn [fmap option_fmap option_map]; try done; f_equal;
    pose proof (Forall_lookup_1 _ _ _ _ Hc Hj) as Hx; cbn beta in Hx.
  - rewrite (Hplane j x Hj). cbn. by destruct (x <? 0).
  - unfold known_bits. by rewrite !Z.div_small by lia.
  - by destruct k.
  - rewrite (Hplane j x Hj). unfold coeff_bit. rewrite (proj2 (Nat.eqb_neq k 0)) by lia.
    rewrite land_1, shiftr_div, <-Z.testbit_spec' by lia.
    replace (13 - Z.of_nat k) with (14 - Z.of_nat k - 1) by lia.
    replace (14 - Z.of_nat (S k)) with (14 - Z.of_nat k - 1) by lia.
    rewrite <-known_bits_step by lia. by destruct (Z.testbit _ _).
Qed.

Lemma apply_planes_spec c k planes :
  (k + length planes ≤ 14)%nat → Forall (λ x, Z.abs x < 2 ^ 13) c →
  (∀ i plane, planes !! i = Some plane → plane_ok c (k + i) plane) →
  apply_planes (acc_state c k) k planes = acc_state c (k + length planes).
Proof.
  revert k. induction planes as [|plane planes IH]; intros k Hk Hc Hok; cbn [apply_planes length].
  { by rewrite Nat.add_0_r. }
  cbn [length] in Hk. rewrite apply_plane_step; [|lia|done|].
  - rewrite IH; [f_equal; lia|lia|done|]. intros i pl Hi.
    replace (S k + i)%nat with (k + S i)%nat by lia. by apply Hok.
  - rewrite <-(Nat.add_0_r k) at 1. by apply Hok.
Qed.

(** What [decode_planes] makes of a coefficient after [k] passes. *)
Definition approx (k : nat) (x : Z) : Z :=
  finish_coeff (midpoint_of k) ((0 <? k)%nat && (x <? 0)) (known_bits (Z.abs x) (14 - Z.of_nat k)).

Lemma acc_state_0 c :
  length c = CDF53_TOTAL_COEFFS → Forall (λ x, Z.abs x < 2 ^ 13) c →
  acc_state c 0 = (replicate CDF53_TOTAL_COEFFS false, replicate CDF53_TOTAL_COEFFS 0).
Proof.
  intros Hlen Hc. unfold acc_state. rewrite <-Hlen. f_equal.
  - cbn [Nat.ltb Nat.leb andb]. clear. induction c; cbn; congruence.
  - clear Hlen. induction Hc as [|x c Hx _ IH]; [done|]. rewrite fmap_cons, IH.
    cbn [length replicate]. f_equal. unfold known_bits. rewrite Z.div_small; [done|].
    split; [lia|]. change (2 ^ (14 - Z.of_nat 0)) with (2 * 2 ^ 13). lia.
Qed.

Lemma decode_planes_spec c planes :
  length c = CDF53_TOTAL_COEFFS → Forall (λ x, Z.abs x < 2 ^ 13) c →
  (length planes ≤ CDF53_PASS_COUNT)%nat →
  (∀ i plane, planes !! i = Some plane → plane_ok c i plane) →
  decode_planes planes = Ok (approx (length planes) <$> c).
Proof.
  intros Hlen Hc Hk Hok. unfold decode_planes, assert_.
  rewrite (proj2 (Nat.leb_le _ _)) by done. cbn [mbind outcome_bind].
  rewrite <-(acc_state_0 c), (apply_planes_spec c 0) by done. cbn [Nat.add acc_state].
  unfold acc_state. f_equal. clear. induction c as [|x c IH]; [done|].
  rewrite !fmap_cons. cbn [zip_with]. f_equal. apply IH.
Qed.

Lemma known_bits_bounds m u : 0 ≤ m → 0 ≤ u → known_bits m u ≤ m < known_bits m u + 2 ^ u.
Proof.
  intros Hm Hu. unfold known_bits. pose proof (Z.pow_pos_nonneg 2 u).
  pose proof (Z.div_mod m (2 ^ u)). pose proof (Z.mod_pos_bound m (2 ^ u)). lia.
Qed.

Lemma known_bits_nonneg m u : 0 ≤ m → 0 ≤ u → 0 ≤ known_bits m u.
Proof.
  intros Hm Hu. unfold known_bits. pose proof (Z.pow_pos_nonneg 2 u).
  pose proof (Z.div_pos m (2 ^ u)). nia.
Qed.

Lemma approx_exact x : Z.abs x < 2 ^ 13 → approx CDF53_PASS_COUNT x = x.
Proof.
  intros Hx. unfold approx, finish_coeff.
  change (midpoint_of CDF53_PASS_COUNT) with 0. rewrite andb_false_r.
  change ((0 <? CDF53_PASS_COUNT)%nat) with true. cbn [andb].
  unfold known_bits. change (2 ^ (14 - Z.of_nat CDF53_PASS_COUNT)) with 1.
  rewrite Z.div_1_r, Z.mul_1_r. rewrite Z.min_l by lia.
  destruct (Z.ltb_spec x 0); lia.
Qed.

Lemma midpoint_of_range k :
  (2 ≤ k ≤ 13)%nat → midpoint_of k = 2 ^ (13 - Z.of_nat k).
Proof.
  intros Hk. unfold midpoint_of, CDF53_PASS_COUNT.
  rewrite (proj2 (Nat.leb_le _ _)), (proj2 (Nat.ltb_lt _ _)) by lia. cbn [andb].
  rewrite Z.shiftl_1_l. f_equal. lia.
Qed.

Lemma pow2_le_13 u : 0 ≤ u ≤ 13 → 2 ^ u ≤ 2 ^ 13.
Proof. intros. apply Z.pow_le_mono_r; lia. Qed.

(** Progressive refinement: after [k] passes every coefficient is within the
    weight of the first unknown bit of its true value, and within half of that
    once it is significant. *)
Lemma approx_error k x :
  (1 ≤ k ≤ 14)%nat → Z.abs x < 2 ^ 13 →
  let u := 14 - Z.of_nat k in
  Z.abs (approx k x - x) < 2 ^ u
  ∧ ((2 ≤ k ≤ 13)%nat → 2 ^ u ≤ Z.abs x → Z.abs (approx k x - x) ≤ 2 ^ (u - 1)).
Proof.
  intros Hk Hx. cbv zeta. unfold approx, finish_coeff.
  rewrite (proj2 (Nat.ltb_lt 0 k)) by lia. cbn [andb].
  set (u := 14 - Z.of_nat k). assert (0 ≤ u ≤ 13) as Hu by lia.
  pose proof (known_bits_bounds (Z.abs x) u ltac:(lia) ltac:(lia)) as Hb.
  pose proof (known_bits_nonneg (Z.abs x) u ltac:(lia) ltac:(lia)) as Hn.
  pose proof (pow2_le_13 u Hu). assert (0 < 2 ^ u) by (apply Z.pow_pos_nonneg; lia).
  set (kb := known_bits (Z.abs x) u) in *.
  destruct (decide (2 ≤ k ≤ 13)%nat) as [Hk2|Hk2].
  - rewrite midpoint_of_range by done.
    replace (13 - Z.of_nat k) with (u - 1) by lia.
    assert (2 ^ u = 2 * 2 ^ (u - 1)) as Hpow by (rewrite <-Z.pow_succ_r by lia; f_equal; lia).
    assert (0 < 2 ^ (u - 1)) by (apply Z.pow_pos_nonneg; lia).
    rewrite (proj2 (Z.eqb_neq (2 ^ (u - 1)) 0)) by lia. rewrite andb_true_r.
    destruct (Z.eqb_spec kb 0) as [Hz|Hnz]; cbn [negb].
    + rewrite Hz. destruct (Z.ltb_spec x 0); split; intros; lia.
    + rewrite (Z.min_l (kb + _)) by lia. rewrite (Z.min_l (kb + _)) by lia.
      destruct (Z.ltb_spec x 0); split; intros; lia.
  - assert (midpoint_of k = 0) as ->.
    { assert (k = 1 ∨ k = 14)%nat as [-> | ->] by lia; done. }
    rewrite andb_false_r. rewrite Z.min_l by lia.
    destruct (Z.ltb_spec x 0); split; intros; lia.
Qed.

(** ** Parsing what was framed *)

Fixpoint fold_blocks {E S} (each : nat → list Z → S → outcome E S)
    (chs : list nat) (rles : list (list Z)) (s : S) : outcome E S :=
  match chs, rles with
  | ch :: chs, rle :: rles => s ← each ch rle s; fold_blocks each chs rles s
  | _, _ => Ok s
  end.

Lemma frame_len_bytes n :
  Z.of_nat n < 2 ^ 16 →
  Z.to_nat (Z.lor (Z.shiftl (u8 (Z.shiftr (u16 (Z.of_nat n)) 8)) 8) (u8 (u16 (Z.of_nat n)))) = n.
Proof.
  intros Hn. rewrite (wrap_small 16) by wsolve. rewrite shiftr_div by lia.
  rewrite (wrap_small 8 (_ / _)) by (widths; dlia). unfold wrap.
  rewrite lor_shiftl by (widths; dlia). widths. dlia.
Qed.

Lemma walk_blocks_framed {E S} (trunc : E) (each : nat → list Z → S → outcome E S) chs rles :
  length chs = length rles → Forall (λ r, Z.of_nat (length r) < 2 ^ 16) rles →
  ∀ pre post s,
    walk_blocks trunc each (pre ++ concat (frame_rle <$> rles) ++ post) chs (length pre) s
    = (r ← fold_blocks each chs rles s; Ok (r, length pre + length (concat (frame_rle <$> rles)))%nat).
Proof.
  intros Hlen Hr. revert chs Hlen. induction Hr as [|rle rles Hrle _ IH];
    intros [|ch chs] Hlen pre post s; try done.
  { cbn. by rewrite Nat.add_0_r. }
  cbn [walk_blocks fold_blocks]. rewrite fmap_cons. cbn [concat].
  set (tail := concat (frame_rle <$> rles)) in *. rewrite <-!app_assoc.
  assert (∃ hi lo, frame_rle rle = [hi; lo] ++ rle
          ∧ Z.to_nat (Z.lor (Z.shiftl hi 8) lo) = length rle) as (hi & lo & -> & Hn)
    by (do 2 eexists; split; [done|by apply frame_len_bytes]).
  rewrite <-!app_assoc. rewrite (proj2 (Nat.ltb_ge _ _)) by lens.
  rewrite idx_skip_off, (idx_skip pre), Nat.sub_diag by lia.
  rewrite !idx_here by (cbn; lia). cbn [idx lookup list_lookup mbind outcome_bind].
  rewrite Hn. rewrite (proj2 (Nat.ltb_ge _ _)) by lens.
  rewrite (app_assoc pre), slice_app by lens. cbn [mbind outcome_bind].
  destruct (each ch rle s) as [s'|e|]; cbn [mbind outcome_bind]; try done.
  specialize (IH chs ltac:(cbn in Hlen; lia) (pre ++ [hi; lo] ++ rle) post s').
  replace (length (pre ++ [hi; lo] ++ rle)) with (length pre + 2 + length rle)%nat in IH by lens.
  rewrite <-!app_assoc in *. rewrite IH. destruct (fold_blocks each chs rles s'); try done.
  cbn [mbind outcome_bind]. do 2 f_equal. lens.
Qed.

Lemma decode_channel_encode ch p plane :
  bytes p → length p = BIT_PLANE_BYTES_PER_CHANNEL →
  length plane = (CDF53_CHANNELS * BIT_PLANE_BYTES_PER_CHANNEL)%nat → (ch < CDF53_CHANNELS)%nat →
  let off := (ch * BIT_PLANE_BYTES_PER_CHANNEL)%nat in
  decode_channel ch (rle_encode p) plane
  = (take off plane ++ p ++ drop (off + BIT_PLANE_BYTES_PER_CHANNEL) plane,
     BIT_PLANE_BYTES_PER_CHANNEL).
Proof.
  change BIT_PLANE_BYTES_PER_CHANNEL with 128%nat. unfold CDF53_CHANNELS.
  intros Hb Hp Hplane Hch. cbv zeta. unfold decode_channel.
  change BIT_PLANE_BYTES_PER_CHANNEL with 128%nat.
  rewrite rle_decode_into_spec by lens. rewrite rle_roundtrip, Hp by done.
  rewrite (take_ge p) by lia. rewrite (drop_ge (take 128 _)) by lens. by rewrite app_nil_r.
Qed.

Lemma list_length_3 {A} (l : list A) : length l = 3%nat → ∃ a b c, l = [a; b; c].
Proof. destruct l as [|a [|b [|c [|]]]]; try done. eauto. Qed.

Lemma rle_frames_short planes :
  Forall (λ l, length l = BIT_PLANE_BYTES_PER_CHANNEL) planes →
  Forall (λ r, Z.of_nat (length r) < 2 ^ 16) (rle_encode <$> planes).
Proof.
  intros H. apply Forall_fmap. eapply Forall_impl; [exact H|]. intros l Hl. cbn.
  pose proof (rle_encode_length l). rewrite Hl in *. change BIT_PLANE_BYTES_PER_CHANNEL with 128%nat in *.
  lia.
Qed.

(** The payload of a pass, parsed by any block walk: the three RLE streams of
    the planes are handed over in channel order. *)
Lemma walk_pass_payload {E S} (trunc : E) (each : nat → list Z → S → outcome E S)
    present planes p post s :
  length planes = CDF53_CHANNELS →
  Forall (λ l, length l = BIT_PLANE_BYTES_PER_CHANNEL) planes →
  walk_blocks trunc each (pass_payload present planes p ++ post) (seq 0 CDF53_CHANNELS)
    (if (p =? 0)%nat then 2 else 0)%nat s
  = (r ← fold_blocks each (seq 0 CDF53_CHANNELS) (rle_encode <$> planes) s;
     Ok (r, length (pass_payload present planes p))).
Proof.
  intros H3 Hlen. unfold pass_payload. rewrite <-app_assoc.
  rewrite (list_fmap_compose rle_encode frame_rle).
  pose proof (walk_blocks_framed trunc each (seq 0 CDF53_CHANNELS) (rle_encode <$> planes)
    ltac:(by rewrite length_seq, length_fmap, H3) (rle_frames_short _ Hlen)) as Hw.
  rewrite length_app. destruct (p =? 0)%nat; [apply (Hw (pass_prefix present))|apply (Hw [])].
Qed.

Lemma fold_decode_channels {E} (each : nat → list Z → list Z → outcome E (list Z)) planes :
  (∀ ch rle plane plane', decode_channel ch rle plane = (plane', BIT_PLANE_BYTES_PER_CHANNEL) →
                          each ch rle plane = Ok plane') →
  length planes = CDF53_CHANNELS → Forall bytes planes →
  Forall (λ l, length l = BIT_PLANE_BYTES_PER_CHANNEL) planes →
  fold_blocks each (seq 0 CDF53_CHANNELS) (rle_encode <$> planes) ZERO_PLANE
  = Ok (concat planes).
Proof.
  intros He (p0 & p1 & p2 & ->)%list_length_3 Hb Hl.
  rewrite !Forall_cons in Hb, Hl. destruct Hb as (?&?&?&_), Hl as (L0&L1&L2&_).
  cbn [seq CDF53_CHANNELS fmap list_fmap fold_blocks].
  assert (length ZERO_PLANE = 384%nat) as HZ by done.
  erewrite He by (apply (decode_channel_encode 0 p0); [done|exact L0|exact HZ|unfold CDF53_CHANNELS; lia]).
  cbn [mbind outcome_bind].
  change BIT_PLANE_BYTES_PER_CHANNEL with 128%nat in *.
  cbn [Nat.mul Nat.add]. rewrite take_0, app_nil_l.
  erewrite He by (apply (decode_channel_encode 1 p1); [done|exact L1| |unfold CDF53_CHANNELS; lia];
    rewrite length_app, length_drop, L0, HZ; done).
  cbn [mbind outcome_bind].
  change BIT_PLANE_BYTES_PER_CHANNEL with 128%nat in *.
  replace (1 * 128)%nat with (length p0) by lia.
  rewrite take_app_length. rewrite (drop_app_ge p0) by lia.
  replace (length p0 + 128 - length p0)%nat with 128%nat by lia. rewrite drop_drop.
  erewrite He by (apply (decode_channel_encode 2 p2); [done|exact L2| |unfold CDF53_CHANNELS; lia];
    rewrite !length_app, length_drop, L0, L1, HZ; done).
  cbn [mbind outcome_bind].
  change BIT_PLANE_BYTES_PER_CHANNEL with 128%nat in *.
  rewrite !(app_assoc p0). rewrite take_app_length' by lens.
  rewrite (drop_ge _ (2 * 128 + 128)) by lens. cbn [concat]. by rewrite <-!app_assoc, !app_nil_r.
Qed.

Lemma length_planes_of c p : length (planes_of c p) = CDF53_CHANNELS.
Proof. unfold planes_of. by rewrite length_fmap, length_seq. Qed.

Lemma decode_pass_payload present c p post :
  decode_pass p (pass_payload present (planes_of c p) p ++ post) = Ok (concat (planes_of c p)).
Proof.
  unfold decode_pass.
  assert ((if (p =? 0)%nat then if (length (pass_payload present (planes_of c p) p ++ post) <? 2)%nat
           then Err tt else Ok 2%nat else Ok 0%nat)
          = @Ok unit nat (if (p =? 0)%nat then 2 else 0)%nat) as ->.
  { destruct p; [|done]. cbn [Nat.eqb]. unfold pass_payload. cbn [Nat.eqb].
    by rewrite (proj2 (Nat.ltb_ge _ _)) by (rewrite !length_app; cbn [pass_prefix length]; lia). }
  cbn [mbind outcome_bind].
  rewrite walk_pass_payload by (apply length_planes_of || apply planes_of_lengths).
  rewrite fold_decode_channels;
    [done|by intros ? ? ? ? ->|apply length_planes_of|apply planes_of_bytes|apply planes_of_lengths].
Qed.

Lemma collect_planes_encode c present k n :
  collect_planes k ((λ p, pass_payload present (planes_of c p) p) <$> seq k n)
  = Ok ((λ p, concat (planes_of c p)) <$> seq k n).
Proof.
  revert k. induction n as [|n IH]; intros k; [done|].
  cbn [seq]. rewrite !fmap_cons. cbn [collect_planes].
  rewrite <-(app_nil_r (pass_payload _ _ _)), decode_pass_payload. cbn [mbind outcome_bind].
  by rewrite IH.
Qed.

Lemma decode_passes_prefix c k :
  length c = CDF53_TOTAL_COEFFS → Forall (λ x, Z.abs x < 2 ^ 13) c → (k ≤ CDF53_PASS_COUNT)%nat →
  decode_passes (take k (dense_passes c)) = Ok (approx k <$> c).
Proof.
  intros Hlen Hc Hk. unfold decode_passes, assert_, dense_passes. unfold CDF53_PASS_COUNT in Hk.
  rewrite <-fmap_take, take_seq. rewrite Nat.min_l by done.
  rewrite length_fmap, length_seq, (proj2 (Nat.leb_le _ _)) by done. cbn [mbind outcome_bind].
  rewrite collect_planes_encode. erewrite decode_planes_spec; [|exact Hlen|done| |].
  - by rewrite length_fmap, length_seq.
  - by rewrite length_fmap, length_seq.
  - intros i plane Hi. rewrite list_lookup_fmap in Hi.
    destruct (seq 0 k !! i) as [p|] eqn:Hp; [|done]. apply lookup_seq in Hp as [-> Hik].
    injection Hi as <-. apply planes_of_ok; [done|lia].
Qed.

Lemma approx_all_exact c :
  Forall (λ x, Z.abs x < 2 ^ 13) c → approx CDF53_PASS_COUNT <$> c = c.
Proof.
  induction 1 as [|x c Hx _ IH]; [done|]. by rewrite fmap_cons, IH, approx_exact.
Qed.

Lemma encode_passes_dense c :
  length c = CDF53_TOTAL_COEFFS → encode_passes c = Ok (dense_passes c).
Proof. intros Hl. unfold encode_passes. by rewrite Hl, Nat.eqb_refl. Qed.

(** All fourteen passes recover the coefficients exactly. *)
Lemma decode_dense_passes c :
  length c = CDF53_TOTAL_COEFFS → Forall (λ x, Z.abs x < 2 ^ 13) c →
  decode_passes (dense_passes c) = Ok c.
Proof.
  intros Hlen Hc. rewrite <-(take_ge (dense_passes c) CDF53_PASS_COUNT)
    by (unfold dense_passes; by rewrite length_fmap, length_seq).
  rewrite decode_passes_prefix by done. by rewrite approx_all_exact.
Qed.

(** Any non-empty prefix of the fourteen passes decodes, and its error shrinks
    with every pass: after [k] passes each coefficient is off by less than
    [2 ^ (14 - k)], and by at most half of that once the coefficient is
    significant. *)
Theorem passes_progressive c k :
  length c = CDF53_TOTAL_COEFFS → Forall (λ x, Z.abs x < 2 ^ 13) c → (1 ≤ k ≤ CDF53_PASS_COUNT)%nat →
  ∃ ps d, encode_passes c = Ok ps ∧ decode_passes (take k ps) = Ok d
    ∧ Forall2 (λ x y, Z.abs (y - x) < 2 ^ (14 - Z.of_nat k)
        ∧ ((2 ≤ k ≤ 13)%nat → 2 ^ (14 - Z.of_nat k) ≤ Z.abs x →
           Z.abs (y - x) ≤ 2 ^ (13 - Z.of_nat k))) c d.
Proof.
  intros Hlen Hc Hk. exists (dense_passes c), (approx k <$> c).
  split; [by rewrite encode_passes_dense|]. split; [apply decode_passes_prefix; done || lia|].
  clear Hlen. induction Hc as [|x c Hx _ IH]; [done|]. rewrite fmap_cons. constructor; [|done].
  pose proof (approx_error k x Hk Hx) as He. cbv zeta in He.
  by replace (14 - Z.of_nat k - 1) with (13 - Z.of_nat k) in He by lia.
Qed.

Lemma passes_progressive_witness :
  ∃ ps d, encode_passes (replicate CDF53_TOTAL_COEFFS 5) = Ok ps ∧ decode_passes (take 3 ps) = Ok d
    ∧ Forall2 (λ x y, Z.abs (y - x) < 2 ^ (14 - Z.of_nat 3)
        ∧ ((2 ≤ 3 ≤ 13)%nat → 2 ^ (14 - Z.of_nat 3) ≤ Z.abs x →
           Z.abs (y - x) ≤ 2 ^ (13 - Z.of_nat 3))) (replicate CDF53_TOTAL_COEFFS 5) d.
Proof.
  apply (passes_progressive (replicate CDF53_TOTAL_COEFFS 5) 3);
    [apply length_replicate|by apply Forall_replicate|unfold CDF53_PASS_COUNT; lia].
Defined.

(** ** The sparse encoding *)

Lemma testbit_present_fold f ps init q :
  Forall (λ p, (p < 14)%nat) ps → 0 ≤ q →
  Z.testbit (foldl (λ present p, if f p : bool then Z.lor present (Z.shiftl 1 (Z.of_nat p))
                                 else present) init ps) q
  = Z.testbit init q || existsb (λ p, (Z.of_nat p =? q) && f p) ps.
Proof.
  intros Hps Hq. revert init. induction Hps as [|p ps Hp _ IH]; intros init; cbn [foldl existsb].
  { by rewrite orb_false_r. }
  rewrite IH. destruct (f p); [|by rewrite andb_false_r].
  rewrite Z.lor_spec, Z.shiftl_1_l, Z.pow2_bits_eqb, andb_true_r, orb_assoc by lia. done.
Qed.

(** [present_passes] names exactly pass 0 and the passes that carry a set bit. *)
Lemma present_of_testbit c p :
  (p < CDF53_PASS_COUNT)%nat →
  Z.testbit (present_of c) (Z.of_nat p) = (p =? 0)%nat || any_set (planes_of c p).
Proof.
  intros Hp. unfold present_of. rewrite testbit_present_fold; [|by repeat constructor; lia|lia].
  f_equal.
  - destruct p; [done|]. change 1 with (2 ^ 0). rewrite Z.pow2_bits_eqb by lia.
    apply Z.eqb_neq. lia.
  - apply eq_true_iff_eq. rewrite existsb_exists. split.
    + intros (q & _ & [Hq%Z.eqb_eq Ha]%andb_true_iff). by apply Nat2Z.inj in Hq as ->.
    + intros Ha. exists p. rewrite Z.eqb_refl. split; [|done].
      apply list_elem_of_In, elem_of_seq. lia.
Qed.

Lemma present_of_high c q : 14 ≤ q → Z.testbit (present_of c) q = false.
Proof.
  intros Hq. unfold present_of. rewrite testbit_present_fold; [|by repeat constructor; lia|lia].
  apply orb_false_iff. split.
  - change 1 with (2 ^ 0). rewrite Z.pow2_bits_eqb by lia. apply Z.eqb_neq. lia.
  - apply existsb_false, Forall_forall. intros p Hp%elem_of_seq.
    apply andb_false_iff. left. apply Z.eqb_neq. unfold CDF53_PASS_COUNT in Hp. lia.
Qed.

Lemma present_of_range c : 1 ≤ present_of c < 2 ^ 14.
Proof.
  assert (∀ ps init, 0 ≤ init → 0 ≤ foldl (λ present p,
     if any_set (planes_of c p) then Z.lor present (Z.shiftl 1 (Z.of_nat p)) else present)
     init ps) as Hpos.
  { induction ps as [|p ps IH]; intros init Hi; cbn [foldl]; [done|]. apply IH.
    destruct (any_set _); [|done]. apply Z.lor_nonneg. split; [done|].
    by apply Z.shiftl_nonneg. }
  pose proof (Hpos (seq 0 CDF53_PASS_COUNT) 1 ltac:(lia)) as H0. fold (present_of c) in H0.
  assert (present_of c ≠ 0) as Hne.
  { intros E. pose proof (present_of_testbit c 0) as Hb. rewrite E in Hb.
    unfold CDF53_PASS_COUNT in Hb. specialize (Hb ltac:(lia)). done. }
  split; [lia|]. apply Z.log2_lt_cancel. change (Z.log2 (2 ^ 14)) with 14.
  apply Z.nle_gt. intros Hge.
  pose proof (Z.bit_log2 (present_of c) ltac:(lia)) as Hb. by rewrite present_of_high in Hb.
Qed.

(** A pass that is not sent has an all-zero plane. *)
Lemma absent_pass_zero c p :
  length c = CDF53_TOTAL_COEFFS → (p < CDF53_PASS_COUNT)%nat →
  Z.testbit (present_of c) (Z.of_nat p) = false → plane_ok c p ZERO_PLANE.
Proof.
  intros Hlen Hp Hbit. rewrite present_of_testbit in Hbit by done.
  apply orb_false_iff in Hbit as [_ Hbit]. unfold CDF53_PASS_COUNT in Hp.
  assert (Forall (λ b, b = 0) (concat (planes_of c p))) as Hz.
  { unfold any_set in Hbit. apply existsb_false in Hbit. apply Forall_concat.
    eapply Forall_impl; [exact Hbit|]. intros l Hl%existsb_false.
    eapply Forall_impl; [exact Hl|]. intros b Hb. cbn in Hb.
    by apply negb_false_iff, Z.eqb_eq in Hb. }
  apply zero_plane_ok. intros x (j & Hj)%list_elem_of_lookup_1.
  rewrite <-(planes_of_ok c p Hlen ltac:(lia) j x Hj). unfold plane_bit.
  replace (default 0 _) with 0; [by rewrite Z.shiftr_0_l|].
  destruct (concat _ !! _) as [b|] eqn:E; [|done]. symmetry. cbn.
  by apply (Forall_lookup_1 _ _ _ _ Hz E).
Qed.

(** ** Payload size *)

Lemma length_frame_rle r : length (frame_rle r) = (2 + length r)%nat.
Proof. done. Qed.

Lemma pass_payload_size present c p :
  (length (pass_payload present (planes_of c p) p) ≤ MAX_PASS_PAYLOAD)%nat.
Proof.
  destruct (list_length_3 (planes_of c p) (length_planes_of c p)) as (a & b & d & Heq).
  pose proof (planes_of_lengths c p) as Hl. unfold pass_payload. rewrite Heq in *.
  rewrite !Forall_cons in Hl. destruct Hl as (La & Lb & Ld & _).
  cbn [fmap list_fmap concat]. rewrite !length_app, !length_frame_rle.
  pose proof (rle_encode_length a). pose proof (rle_encode_length b).
  pose proof (rle_encode_length d).
  rewrite La, Lb, Ld in *. change BIT_PLANE_BYTES_PER_CHANNEL with 128%nat in *.
  change MAX_PASS_PAYLOAD with 776%nat.
  destruct (p =? 0)%nat; cbn [pass_prefix length]; lia.
Qed.
