(* ===== verification/Cdf53.v ===== *)
(** * The CDF 5/3 lifting transform ([codec/cdf53.rs]: [forward], [inverse],
      [row_forward], [row_inverse])

    A 32x32 tile is transformed channel by channel: three levels of a
    horizontal then a vertical lifting pass over the shrinking low-pass square,
    then a fixed scan order.  [i32] working values are integers here; the
    bounds proved below show that no [i32] operation and no [as i16] cast of
    the forward transform leaves its range. *)

From Stdlib Require Import ZArith Lia.
From stdpp Require Import base option list numbers sets.
From S2P Require Import Prelude Cdf53Rle Cdf53Passes.

Local Open Scope Z_scope.

(** ** Definitions *)

(** [buf[i]]; every index the code forms is in range (see [wf_work]). *)
Definition at_ (l : list Z) (i : nat) : Z := default 0 (l !! i).

(** [(a..n).step_by(2)] *)
Definition step_by2 (a n : nat) : list nat := (λ k, a + 2 * k)%nat <$> seq 0 ((n - a + 1) / 2).

Definition predict (n : nat) (buf : list Z) (i : nat) : Z :=
  let left := at_ buf (i - 1) in
  let right := if (i + 1 <? n)%nat then at_ buf (i + 1) else at_ buf (i - 1) in
  Z.shiftr (left + right) 1.

Definition update (n : nat) (buf : list Z) (i : nat) : Z :=
  let left := if (i =? 0)%nat then at_ buf 1 else at_ buf (i - 1) in
  let right := if (i + 1 <? n)%nat then at_ buf (i + 1) else at_ buf (i - 1) in
  Z.shiftr (left + right + 2) 2.

(** [for i in ixs { buf[i] += e(buf, i) }] and its subtracting twin. *)
Definition lift_add (e : list Z → nat → Z) (ixs : list nat) (buf : list Z) : list Z :=
  foldl (λ b i, <[i := at_ b i + e b i]> b) buf ixs.
Definition lift_sub (e : list Z → nat → Z) (ixs : list nat) (buf : list Z) : list Z :=
  foldl (λ b i, <[i := at_ b i - e b i]> b) buf ixs.

Definition deinterleave (n : nat) (buf : list Z) : list Z :=
  let half := (n / 2)%nat in
  ((λ i, at_ buf (2 * i)) <$> seq 0 half) ++ ((λ i, at_ buf (2 * i + 1)) <$> seq 0 half)
  ++ drop n buf.

Definition interleave (n : nat) (buf : list Z) : list Z :=
  let half := (n / 2)%nat in
  concat ((λ i, [at_ buf i; at_ buf (half + i)]) <$> seq 0 half) ++ drop n buf.

Definition row_forward (buf : list Z) (n : nat) : list Z :=
  let buf := lift_sub (predict n) (step_by2 1 n) buf in
  let buf := lift_add (update n) (step_by2 0 n) buf in
  deinterleave n buf.

Definition row_inverse (buf : list Z) (n : nat) : list Z :=
  let buf := interleave n buf in
  let buf := lift_sub (update n) (step_by2 0 n) buf in
  lift_add (predict n) (step_by2 1 n) buf.

Definition col_forward (buf : list Z) (n : nat) : list Z := row_forward buf n.
Definition col_inverse (buf : list Z) (n : nat) : list Z := row_inverse buf n.

(** The working square: 32 rows of 32. *)
Definition get (w : list (list Z)) (y x : nat) : Z := at_ (default [] (w !! y)) x.

(** [for y in 0..size { f(&mut work[y], size) }] *)
Definition map_rows (f : list Z → nat → list Z) (size : nat) (w : list (list Z)) : list (list Z) :=
  imap (λ y r, if (y <? size)%nat then f r size else r) w.

(** [let mut column = [0i32; 32]; for y in 0..size { column[y] = work[y][x] }] *)
Definition column (size : nat) (w : list (list Z)) (x : nat) : list Z :=
  ((λ y, get w y x) <$> seq 0 size) ++ replicate (32 - size) 0.

(** [for y in 0..size { work[y][x] = column[y] }] *)
Definition set_column (size : nat) (w : list (list Z)) (x : nat) (col : list Z) : list (list Z) :=
  imap (λ y r, if (y <? size)%nat then <[x := at_ col y]> r else r) w.

Definition map_cols (f : list Z → nat → list Z) (size : nat) (w : list (list Z)) : list (list Z) :=
  foldl (λ w x, set_column size w x (f (column size w x) size)) w (seq 0 size).

Definition level_forward (w : list (list Z)) (size : nat) : list (list Z) :=
  map_cols col_forward size (map_rows row_forward size w).

Definition level_inverse (w : list (list Z)) (size : nat) : list (list Z) :=
  map_rows row_inverse size (map_cols col_inverse size w).

(** [size] is 32, 16, 8 going forward and 8, 16, 32 going back. *)
Definition transform (w : list (list Z)) : list (list Z) := foldl level_forward w [32; 16; 8]%nat.
Definition untransform (w : list (list Z)) : list (list Z) := foldl level_inverse w [8; 16; 32]%nat.

(** The scan: LL3 HL3 LH3 HH3, HL2 LH2 HH2, HL1 LH1 HH1, each row by row. *)
Definition block (y0 y1 x0 x1 : nat) : list (nat * nat) :=
  y ← seq y0 (y1 - y0); x ← seq x0 (x1 - x0); [(y, x)].

Definition layout : list (nat * nat) :=
  (block 0 4 0 4 ++ block 0 4 4 8 ++ block 4 8 0 4 ++ block 4 8 4 8
  ++ block 0 8 8 16 ++ block 8 16 0 8 ++ block 8 16 8 16
  ++ block 0 16 16 32 ++ block 16 32 0 16 ++ block 16 32 16 32)%nat.

(** [output[out_idx] = work[y][x] as i16] along the scan. *)
Definition pack (w : list (list Z)) : list Z := (λ '(y, x), i16 (get w y x)) <$> layout.

(** [work[y][x] = coefficients[in_idx] as i32] along the scan, into zeros. *)
Definition set_at (w : list (list Z)) (y x : nat) (v : Z) : list (list Z) :=
  alter (λ r, <[x := v]> r) y w.
Definition unpack (coefficients : list Z) : list (list Z) :=
  foldl (λ w '((y, x), v), set_at w y x v) (replicate 32 (replicate 32 0))
        (zip layout coefficients).

(** [work[y][x] = tile_bgra[(y * 32 + x) * 4 + ch] as i32] *)
Definition load_channel (tile_bgra : list Z) (ch : nat) : list (list Z) :=
  (λ y, (λ x, at_ tile_bgra ((y * 32 + x) * 4 + ch)%nat) <$> seq 0 32) <$> seq 0 32.

Definition forward (tile_bgra : list Z) : outcome unit (list Z) :=
  assert_ (length tile_bgra =? 32 * 32 * 4)%nat ≫= λ _,
  Ok (concat ((λ ch, pack (transform (load_channel tile_bgra ch))) <$> seq 0 CDF53_CHANNELS)).

(** [v.clamp(0, 255) as u8] *)
Definition clamp_u8 (v : Z) : Z := Z.max 0 (Z.min v 255).

(** [output[(y * 32 + x) * 3 + ch] = v]: pixel by pixel, channels B, G, R. *)
Definition inverse (coefficients : list Z) : outcome unit (list Z) :=
  assert_ (length coefficients =? CDF53_TOTAL_COEFFS)%nat ≫= λ _,
  let works := (λ ch, untransform (unpack (channel_of coefficients ch))) <$> seq 0 CDF53_CHANNELS in
  Ok (concat ((λ px, (λ w, clamp_u8 (get w (px / 32) (px mod 32))) <$> works)
              <$> seq 0 (32 * 32))).

(** The tile without its alpha bytes: what a lossless decoder must return. *)
Definition strip_alpha (tile_bgra : list Z) : list Z :=
  concat ((λ px, (λ ch, at_ tile_bgra (px * 4 + ch)%nat) <$> seq 0 CDF53_CHANNELS) <$> seq 0 (32 * 32)).

(** ** Pointwise view of the lifting steps *)

Lemma at_insert l i j v :
  (i < length l)%nat → at_ (<[i := v]> l) j = if decide (i = j) then v else at_ l j.
Proof.
  intros Hi. unfold at_. destruct (decide (i = j)) as [->|Hne].
  - by rewrite list_lookup_insert_eq by done.
  - by rewrite list_lookup_insert_ne by done.
Qed.

Lemma at_eq l l' :
  length l = length l' → (∀ i, (i < length l)%nat → at_ l i = at_ l' i) → l = l'.
Proof.
  intros Hlen Hat. apply list_eq. intros i.
  destruct (decide (i < length l)%nat) as [Hi|Hi].
  - specialize (Hat i Hi). unfold at_ in Hat.
    destruct (lookup_lt_is_Some_2 l i Hi) as [x Hx].
    destruct (lookup_lt_is_Some_2 l' i) as [x' Hx']; [lia|].
    rewrite Hx, Hx' in *. cbn in Hat. by subst.
  - rewrite !lookup_ge_None_2 by lia. done.
Qed.

Lemma at_app_l l l' i : (i < length l)%nat → at_ (l ++ l') i = at_ l i.
Proof. intros. unfold at_. by rewrite lookup_app_l by done. Qed.

Lemma at_app_r l l' i : (length l ≤ i)%nat → at_ (l ++ l') i = at_ l' (i - length l).
Proof. intros. unfold at_. by rewrite lookup_app_r by done. Qed.

Lemma at_drop n l i : at_ (drop n l) i = at_ l (n + i).
Proof. unfold at_. by rewrite lookup_drop. Qed.

Lemma at_fmap_seq (f : nat → Z) n i : (i < n)%nat → at_ (f <$> seq 0 n) i = f i.
Proof. intros Hi. unfold at_. by rewrite list_lookup_fmap, lookup_seq_lt by done. Qed.

(** A lifting step whose correction reads no index the step writes. *)
Definition reads_outside (e : list Z → nat → Z) (ixs : list nat) : Prop :=
  ∀ b b' i, i ∈ ixs → (∀ j, j ∉ ixs → at_ b j = at_ b' j) → e b i = e b' i.

Section lifting.
Context (g : Z → Z → Z) (e : list Z → nat → Z).

Definition lift (ixs : list nat) (buf : list Z) : list Z :=
    foldl (λ b i, <[i := g (at_ b i) (e b i)]> b) buf ixs.

Lemma length_lift ixs buf : length (lift ixs buf) = length buf.
  Proof.
    revert buf. induction ixs as [|i ixs IH]; intros buf; [done|].
    cbn [lift foldl]. fold (lift ixs (<[i := g (at_ buf i) (e buf i)]> buf)).
    by rewrite IH, length_insert.
  Qed.

Lemma at_lift_out ixs buf j : j ∉ ixs → at_ (lift ixs buf) j = at_ buf j.
  Proof.
    revert buf. induction ixs as [|i ixs IH]; intros buf Hj; [done|].
    cbn [lift foldl]. fold (lift ixs (<[i := g (at_ buf i) (e buf i)]> buf)).
    rewrite IH by set_solver. unfold at_. rewrite list_lookup_insert_ne; [done|set_solver].
  Qed.

Lemma at_lift_gen all ixs buf0 buf j :
    reads_outside e all → NoDup ixs → ixs ⊆ all →
    Forall (λ i, i < length buf)%nat ixs →
    (∀ k, k ∉ all → at_ buf k = at_ buf0 k) →
    j ∈ ixs → at_ (lift ixs buf) j = g (at_ buf j) (e buf0 j).
  Proof.
    intros Hro Hnd. revert buf. induction Hnd as [|i ixs Hi Hnd IH]; intros buf Hsub Hlt Hag Hj.
    { set_solver. }
    cbn [lift foldl]. fold (lift ixs (<[i := g (at_ buf i) (e buf i)]> buf)).
    apply Forall_cons in Hlt as [Hil Hlt].
    destruct (decide (j = i)) as [->|Hne].
    - rewrite at_lift_out by done. rewrite at_insert, decide_True by done.
      f_equal. apply Hro; [set_solver|done].
    - rewrite IH.
      + f_equal. rewrite at_insert, decide_False by done. done.
      + set_solver.
      + eapply Forall_impl; [exact Hlt|]. intros k Hk. by rewrite length_insert.
      + intros k Hk. rewrite at_insert by done. rewrite decide_False by set_solver. by apply Hag.
      + set_solver.
  Qed.

Lemma at_lift ixs buf j :
    reads_outside e ixs → NoDup ixs → Forall (λ i, i < length buf)%nat ixs →
    at_ (lift ixs buf) j = if decide (j ∈ ixs) then g (at_ buf j) (e buf j) else at_ buf j.
  Proof.
    intros Hro Hnd Hlt. case_decide as Hj.
    - by apply (at_lift_gen ixs).
    - by apply at_lift_out.
  Qed.
End lifting.

(** Undoing a lifting step: the corrections are the same before and after. *)
Lemma lift_undo (g g' : Z → Z → Z) e ixs buf :
  (∀ x y, g' (g x y) y = x) →
  reads_outside e ixs → NoDup ixs → Forall (λ i, i < length buf)%nat ixs →
  lift g' e ixs (lift g e ixs buf) = buf.
Proof.
  intros Hg Hro Hnd Hlt. apply at_eq; [by rewrite length_lift, length_lift|]. intros j _.
  rewrite (at_lift g' e ixs (lift g e ixs buf)); [|done|done|by rewrite length_lift].
  rewrite !(at_lift g e ixs buf) by done. case_decide as Hj; [|done].
  rewrite (Hro (lift g e ixs buf) buf j Hj); [apply Hg|]. intros k Hk. by apply at_lift_out.
Qed.

Lemma elem_of_step_by2 a n i :
  i ∈ step_by2 a n ↔ (a ≤ i < n ∧ (i - a) mod 2 = 0)%nat.
Proof.
  unfold step_by2. rewrite list_elem_of_fmap. split.
  - intros (k & -> & Hk%elem_of_seq).
    replace (a + 2 * k - a)%nat with (k * 2)%nat by lia. rewrite Nat.Div0.mod_mul.
    pose proof (Nat.Div0.div_mod (n - a + 1) 2).
    pose proof (Nat.mod_upper_bound (n - a + 1) 2). lia.
  - intros [Hi Hm]. exists ((i - a) / 2)%nat.
    pose proof (Nat.Div0.div_mod (i - a) 2). split; [lia|].
    apply elem_of_seq. split; [lia|].
    pose proof (Nat.Div0.div_mod (n - a + 1) 2).
    pose proof (Nat.mod_upper_bound (n - a + 1) 2). lia.
Qed.

Lemma NoDup_step_by2 a n : NoDup (step_by2 a n).
Proof. apply NoDup_fmap_2; [intros x y; lia|apply NoDup_seq]. Qed.

(** ** One row: the inverse undoes the forward step *)

Lemma lift_sub_lift e ixs buf : lift_sub e ixs buf = lift Z.sub e ixs buf.
Proof. done. Qed.
Lemma lift_add_lift e ixs buf : lift_add e ixs buf = lift Z.add e ixs buf.
Proof. done. Qed.

Lemma odd_not_even n i : i ∈ step_by2 1 n → i ∉ step_by2 0 n.
Proof.
  rewrite !elem_of_step_by2, Nat.sub_0_r. intros [Hi Hm] [_ Hm'].
  pose proof (Nat.Div0.div_mod (i - 1) 2). pose proof (Nat.Div0.div_mod i 2). lia.
Qed.

Lemma predict_reads n : reads_outside (predict n) (step_by2 1 n).
Proof.
  intros b b' i Hi Hag. apply elem_of_step_by2 in Hi as [Hi Hm].
  pose proof (Nat.Div0.div_mod (i - 1) 2).
  assert (∀ k, k mod 2 = 0 → at_ b k = at_ b' k)%nat as Hev.
  { intros k Hk. apply Hag. rewrite elem_of_step_by2. intros [Hk' Hm'].
    pose proof (Nat.Div0.div_mod (k - 1) 2). pose proof (Nat.Div0.div_mod k 2). lia. }
  unfold predict. destruct (i + 1 <? n)%nat.
  - rewrite !Hev; [done| |]; ndlia.
  - rewrite !Hev; [done|]. ndlia.
Qed.

(** Rows have even length, so every even index has a right neighbour. *)
Definition even_len (n : nat) : Prop := (n mod 2 = 0)%nat.

Lemma update_reads n : even_len n → reads_outside (update n) (step_by2 0 n).
Proof.
  intros Hev b b' i Hi Hag. apply elem_of_step_by2 in Hi as [Hi Hm].
  assert (∀ k, k mod 2 = 1 → at_ b k = at_ b' k)%nat as Hod.
  { intros k Hk. apply Hag. rewrite elem_of_step_by2. rewrite Nat.sub_0_r. lia. }
  unfold even_len in Hev. rewrite Nat.sub_0_r in Hm. unfold update.
  destruct (Nat.eqb_spec i 0) as [Hi0|Hi0], (Nat.ltb_spec (i + 1) n) as [Hn|Hn];
    rewrite ?Hod; try done; try ndlia.
Qed.

Lemma Forall_step_by2 a n (buf : list Z) :
  (n ≤ length buf)%nat → Forall (λ i, i < length buf)%nat (step_by2 a n).
Proof. intros Hn. apply Forall_forall. intros i [Hi _]%elem_of_step_by2. lia. Qed.

Lemma length_deinterleave n buf :
  even_len n → (n ≤ length buf)%nat → length (deinterleave n buf) = length buf.
Proof. intros Hn Hl. unfold even_len in Hn. unfold deinterleave. lens || (autorewrite with lengths; ndlia). Qed.

Lemma at_deinterleave n buf i :
  even_len n → at_ (deinterleave n buf) i =
    if (i <? n / 2)%nat then at_ buf (2 * i)
    else if (i <? n)%nat then at_ buf (2 * (i - n / 2) + 1) else at_ buf i.
Proof.
  intros Hn. unfold even_len in Hn. unfold deinterleave.
  destruct (Nat.ltb_spec i (n / 2)) as [H1|H1].
  { rewrite at_app_l, at_fmap_seq by (autorewrite with lengths; lia). done. }
  rewrite at_app_r by (autorewrite with lengths; lia). autorewrite with lengths.
  destruct (Nat.ltb_spec i n) as [H2|H2].
  { rewrite at_app_l, at_fmap_seq by (autorewrite with lengths; ndlia). done. }
  rewrite at_app_r by (autorewrite with lengths; ndlia). autorewrite with lengths.
  rewrite at_drop. f_equal. ndlia.
Qed.

Lemma at_concat_pairs (f g : nat → Z) m i :
  (i < 2 * m)%nat →
  at_ (concat ((λ k, [f k; g k]) <$> seq 0 m)) i =
    if (i mod 2 =? 0)%nat then f (i / 2)%nat else g (i / 2)%nat.
Proof.
  intros Hi. unfold at_.
  pose proof (Nat.mod_upper_bound i 2 ltac:(lia)) as Hm.
  rewrite (Nat.Div0.div_mod i 2) at 1.
  replace (2 * (i / 2) + i mod 2)%nat with (i / 2 * 2 + i mod 2)%nat by lia.
  rewrite (lookup_concat_fixed _ 2); [|by apply Forall_fmap, Forall_forall|done].
  rewrite list_lookup_fmap, lookup_seq_lt by ndlia.
  revert Hm. generalize (i mod 2)%nat. intros [|[|?]] Hm; [done|done|lia].
Qed.

Lemma length_concat_pairs (f g : nat → Z) a m :
  length (concat ((λ k, [f k; g k]) <$> seq a m)) = (2 * m)%nat.
Proof.
  revert a. induction m as [|m IH]; intros k; [done|].
  cbn [seq]. rewrite fmap_cons. cbn [concat]. rewrite length_app, IH. cbn [length]. lia.
Qed.
#[export] Hint Rewrite length_concat_pairs : lengths.

Lemma length_interleave n buf :
  even_len n → (n ≤ length buf)%nat → length (interleave n buf) = length buf.
Proof. intros Hn Hl. unfold even_len in Hn. unfold interleave. autorewrite with lengths. ndlia. Qed.

Lemma at_interleave n buf i :
  even_len n → at_ (interleave n buf) i =
    if (i <? n)%nat then if (i mod 2 =? 0)%nat then at_ buf (i / 2) else at_ buf (n / 2 + i / 2)
    else at_ buf i.
Proof.
  intros Hn. unfold even_len in Hn. unfold interleave.
  destruct (Nat.ltb_spec i n) as [H1|H1].
  { rewrite at_app_l by (autorewrite with lengths; ndlia). by rewrite at_concat_pairs by ndlia. }
  rewrite at_app_r by (autorewrite with lengths; ndlia). autorewrite with lengths.
  rewrite at_drop. f_equal. ndlia.
Qed.

Lemma interleave_deinterleave n buf :
  even_len n → (n ≤ length buf)%nat → interleave n (deinterleave n buf) = buf.
Proof.
  intros Hn Hl. apply at_eq.
  { rewrite length_interleave, length_deinterleave; rewrite ?length_deinterleave; done. }
  intros i _. rewrite at_interleave, !at_deinterleave by done. unfold even_len in Hn.
  destruct (Nat.ltb_spec i n) as [H1|H1].
  - destruct (Nat.eqb_spec (i mod 2) 0) as [H2|H2].
    + rewrite (proj2 (Nat.ltb_lt _ _)) by ndlia. f_equal. ndlia.
    + rewrite (proj2 (Nat.ltb_ge _ _)), (proj2 (Nat.ltb_lt _ _)) by ndlia. f_equal. ndlia.
  - by rewrite (proj2 (Nat.ltb_ge i (n / 2))) by ndlia.
Qed.

Lemma length_row_forward buf n :
  even_len n → (n ≤ length buf)%nat → length (row_forward buf n) = length buf.
Proof.
  intros Hn Hl. unfold row_forward.
  rewrite length_deinterleave; rewrite ?lift_add_lift, ?lift_sub_lift, ?length_lift; done.
Qed.

Lemma length_row_inverse buf n :
  even_len n → (n ≤ length buf)%nat → length (row_inverse buf n) = length buf.
Proof.
  intros Hn Hl. unfold row_inverse.
  rewrite lift_add_lift, lift_sub_lift, length_lift, length_lift. by apply length_interleave.
Qed.

Lemma row_inverse_forward buf n :
  even_len n → (n ≤ length buf)%nat → row_inverse (row_forward buf n) n = buf.
Proof.
  intros Hn Hl. unfold row_inverse, row_forward.
  rewrite interleave_deinterleave
    by (rewrite ?lift_add_lift, ?lift_sub_lift, ?length_lift; done).
  rewrite !lift_add_lift, !lift_sub_lift.
  rewrite (lift_undo Z.add Z.sub (update n)); [|lia|by apply update_reads|apply NoDup_step_by2|].
  2: { apply Forall_step_by2. by rewrite ?lift_sub_lift, ?length_lift. }
  apply (lift_undo Z.sub Z.add (predict n)); [lia|apply predict_reads|apply NoDup_step_by2|].
  by apply Forall_step_by2.
Qed.

(** ** The working square *)

Definition wf_work (w : list (list Z)) : Prop :=
  length w = 32%nat ∧ Forall (λ r, length r = 32%nat) w.

Definition row (w : list (list Z)) (y : nat) : list Z := default [] (w !! y).

Lemma get_row w y x : get w y x = at_ (row w y) x.
Proof. done. Qed.

Lemma row_lookup w y : wf_work w → (y < 32)%nat → w !! y = Some (row w y) ∧ length (row w y) = 32%nat.
Proof.
  intros [Hl Hf] Hy. unfold row. destruct (lookup_lt_is_Some_2 w y) as [r Hr]; [lia|].
  rewrite Hr. cbn. split; [done|]. by apply (Forall_lookup_1 _ _ _ _ Hf Hr).
Qed.

Lemma work_eq w w' :
  wf_work w → wf_work w' →
  (∀ y x, (y < 32)%nat → (x < 32)%nat → get w y x = get w' y x) → w = w'.
Proof.
  intros Hw Hw' Hg. apply list_eq. intros y.
  destruct (decide (y < 32)%nat) as [Hy|Hy].
  - destruct (row_lookup w y Hw Hy) as [-> Hr], (row_lookup w' y Hw' Hy) as [-> Hr'].
    f_equal. apply at_eq; [lia|]. intros x Hx. apply Hg; lia.
  - destruct Hw, Hw'. rewrite !lookup_ge_None_2 by lia. done.
Qed.

Lemma row_imap (h : nat → list Z → list Z) w y :
  (y < length w)%nat → row (imap h w) y = h y (row w y).
Proof.
  intros Hy. unfold row. rewrite list_lookup_imap.
  by destruct (lookup_lt_is_Some_2 w y Hy) as [r ->].
Qed.

Lemma wf_imap (h : nat → list Z → list Z) w :
  wf_work w → (∀ y r, length r = 32%nat → length (h y r) = 32%nat) → wf_work (imap h w).
Proof.
  intros [Hl Hf] Hh. split; [by rewrite length_imap|].
  apply Forall_lookup. intros y r. rewrite list_lookup_imap.
  destruct (w !! y) as [r'|] eqn:Hr; cbn; [|done]. intros [= <-].
  apply Hh, (Forall_lookup_1 _ _ _ _ Hf Hr).
Qed.

(** A row operation on the first [n] entries: it keeps the length and the tail. *)
Definition row_op (f : list Z → nat → list Z) (n : nat) : Prop :=
  ∀ buf, (n ≤ length buf)%nat →
    length (f buf n) = length buf ∧ ∀ i, (n ≤ i)%nat → at_ (f buf n) i = at_ buf i.

Lemma map_rows_wf f size w : row_op f size → (size ≤ 32)%nat → wf_work w → wf_work (map_rows f size w).
Proof.
  intros Hf Hs Hw. apply wf_imap; [done|]. intros y r Hr.
  destruct (y <? size)%nat; [|done]. rewrite <-Hr. apply Hf. lia.
Qed.

Lemma get_map_rows f size w y x :
  wf_work w → (y < 32)%nat →
  get (map_rows f size w) y x = if (y <? size)%nat then at_ (f (row w y) size) x else get w y x.
Proof.
  intros [Hl _] Hy. rewrite !get_row. unfold map_rows. rewrite row_imap by lia.
  by destruct (y <? size)%nat.
Qed.

Lemma set_column_wf size w x col : wf_work w → wf_work (set_column size w x col).
Proof.
  intros Hw. apply wf_imap; [done|]. intros y r Hr.
  destruct (y <? size)%nat; by rewrite ?length_insert.
Qed.

Lemma get_set_column size w x0 col y x :
  wf_work w → (y < 32)%nat → (x0 < 32)%nat →
  get (set_column size w x0 col) y x =
    if (y <? size)%nat && (x0 =? x)%nat then at_ col y else get w y x.
Proof.
  intros Hw Hy Hx. destruct (row_lookup w y Hw Hy) as [_ Hr], Hw as [Hl _].
  rewrite !get_row. unfold set_column. rewrite row_imap by lia.
  destruct (y <? size)%nat; cbn [andb]; [|done]. rewrite at_insert by lia.
  destruct (Nat.eqb_spec x0 x); by case_decide.
Qed.

Lemma column_ext size w w' x :
  (∀ y, (y < size)%nat → get w y x = get w' y x) → column size w x = column size w' x.
Proof.
  intros Hg. unfold column. f_equal. apply list_fmap_ext. intros i y Hy.
  apply lookup_seq in Hy. apply Hg. lia.
Qed.

Lemma length_column size w x : (size ≤ 32)%nat → length (column size w x) = 32%nat.
Proof. intros. unfold column. lens. Qed.

Lemma at_column size w x y : at_ (column size w x) y = if (y <? size)%nat then get w y x else 0.
Proof.
  unfold column. destruct (Nat.ltb_spec y size) as [Hy|Hy].
  - rewrite at_app_l, at_fmap_seq by (autorewrite with lengths; lia). done.
  - rewrite at_app_r by (autorewrite with lengths; lia). unfold at_.
    destruct (_ !! _) eqn:H; [|done]. by apply lookup_replicate in H as [-> _].
Qed.

Lemma map_cols_prefix f size w k :
  wf_work w → (size ≤ 32)%nat → (k ≤ size)%nat →
  let w' := foldl (λ w x, set_column size w x (f (column size w x) size)) w (seq 0 k) in
  wf_work w' ∧ ∀ y x, (y < 32)%nat →
    get w' y x = if (y <? size)%nat && (x <? k)%nat then at_ (f (column size w x) size) y
                 else get w y x.
Proof.
  intros Hw Hs. induction k as [|k IH]; intros Hk.
  { cbn. split; [done|]. intros y x Hy. by rewrite andb_false_r. }
  destruct IH as [Hwf Hget]; [lia|]. rewrite seq_S, foldl_app. cbn [foldl Nat.add].
  set (w' := foldl _ w (seq 0 k)) in *. split; [by apply set_column_wf|].
  intros y x Hy. rewrite get_set_column, Hget by (done || lia).
  destruct (Nat.ltb_spec y size) as [H1|H1]; cbn [andb]; [|done].
  destruct (Nat.eqb_spec k x) as [->|Hne].
  - rewrite (proj2 (Nat.ltb_lt x (S x))) by lia. f_equal. f_equal. apply column_ext.
    intros y' Hy'. rewrite Hget by lia. by rewrite Nat.ltb_irrefl, andb_false_r.
  - replace (x <? S k)%nat with (x <? k)%nat; [done|].
    apply eq_true_iff_eq. rewrite !Nat.ltb_lt. lia.
Qed.

Lemma map_cols_wf f size w : wf_work w → (size ≤ 32)%nat → wf_work (map_cols f size w).
Proof. intros Hw Hs. by apply (map_cols_prefix f size w size). Qed.

Lemma get_map_cols f size w y x :
  wf_work w → (size ≤ 32)%nat → (y < 32)%nat →
  get (map_cols f size w) y x =
    if (y <? size)%nat && (x <? size)%nat then at_ (f (column size w x) size) y else get w y x.
Proof. intros Hw Hs Hy. by apply (map_cols_prefix f size w size). Qed.

(** After a column pass the columns are the transformed columns. *)
Lemma column_map_cols f size w x :
  row_op f size → wf_work w → (size ≤ 32)%nat → (x < size)%nat →
  column size (map_cols f size w) x = f (column size w x) size.
Proof.
  intros Hf Hw Hs Hx.
  destruct (Hf (column size w x)) as [Hlen Htail]; [rewrite length_column; lia|].
  apply at_eq; [rewrite Hlen, !length_column; lia|]. intros y Hy.
  rewrite length_column in Hy by done.
  rewrite at_column. destruct (Nat.ltb_spec y size) as [H1|H1].
  - rewrite get_map_cols by lia || done. by rewrite !(proj2 (Nat.ltb_lt _ _)) by lia.
  - rewrite Htail, at_column by done. by rewrite (proj2 (Nat.ltb_ge _ _)) by done.
Qed.

Lemma row_op_forward n : even_len n → row_op row_forward n.
Proof.
  intros Hn buf Hl. split; [by apply length_row_forward|]. intros i Hi.
  unfold row_forward. rewrite at_deinterleave by done.
  rewrite (proj2 (Nat.ltb_ge i (n / 2))), (proj2 (Nat.ltb_ge i n)) by ndlia.
  rewrite lift_add_lift, lift_sub_lift, at_lift_out, at_lift_out; [done| |];
    rewrite elem_of_step_by2; lia.
Qed.

Lemma row_op_inverse n : even_len n → row_op row_inverse n.
Proof.
  intros Hn buf Hl. split; [by apply length_row_inverse|]. intros i Hi.
  unfold row_inverse. rewrite lift_add_lift, lift_sub_lift, at_lift_out, at_lift_out;
    [|rewrite elem_of_step_by2; lia..].
  rewrite at_interleave by done. by rewrite (proj2 (Nat.ltb_ge i n)) by lia.
Qed.

(** An inverse pair of row operations lifts to the rows and columns of the square. *)
Section undo.
Context (f g : list Z → nat → list Z) (size : nat).
Context (Hf : row_op f size) (Hg : row_op g size) (Hs : (size ≤ 32)%nat).
Context (Hgf : ∀ buf, (size ≤ length buf)%nat → g (f buf size) size = buf).

Lemma map_rows_undo w : wf_work w → map_rows g size (map_rows f size w) = w.
  Proof using Hf Hg Hs Hgf.
    intros Hw. apply work_eq; [by repeat apply map_rows_wf|done|]. intros y x Hy Hx.
    rewrite get_map_rows by (done || by apply map_rows_wf).
    destruct (y <? size)%nat eqn:E.
    - unfold map_rows. destruct (row_lookup w y Hw Hy) as [_ Hr], Hw as [Hl _].
      rewrite row_imap, E, Hgf by lia. done.
    - by rewrite get_map_rows, E.
  Qed.

Lemma map_cols_undo w : wf_work w → map_cols g size (map_cols f size w) = w.
  Proof using Hf Hg Hs Hgf.
    intros Hw. apply work_eq; [by repeat apply map_cols_wf|done|]. intros y x Hy Hx.
    rewrite !get_map_cols by (done || by apply map_cols_wf).
    destruct (y <? size)%nat eqn:Ey, (x <? size)%nat eqn:Ex; cbn [andb]; try done.
    apply Nat.ltb_lt in Ex. rewrite column_map_cols, Hgf by (rewrite ?length_column; done).
    by rewrite at_column, Ey.
  Qed.
End undo.

Lemma level_forward_wf w size :
  even_len size → (size ≤ 32)%nat → wf_work w → wf_work (level_forward w size).
Proof.
  intros He Hs Hw. apply map_cols_wf; [|done]. apply map_rows_wf; [by apply row_op_forward|done..].
Qed.

Lemma level_inverse_forward w size :
  even_len size → (size ≤ 32)%nat → wf_work w → level_inverse (level_forward w size) size = w.
Proof.
  intros He Hs Hw. unfold level_inverse, level_forward.
  assert (∀ buf, (size ≤ length buf)%nat → row_inverse (row_forward buf size) size = buf) as Hrt.
  { intros buf Hb. by apply row_inverse_forward. }
  rewrite map_cols_undo; [apply map_rows_undo|..];
    auto using row_op_forward, row_op_inverse, map_rows_wf.
Qed.

Lemma untransform_transform w : wf_work w → untransform (transform w) = w.
Proof.
  intros Hw. unfold untransform, transform. cbn [foldl].
  rewrite !level_inverse_forward by (repeat apply level_forward_wf; done || lia). done.
Qed.

(** ** The scan *)

Lemma elem_of_block y0 y1 x0 x1 y x :
  (y, x) ∈ block y0 y1 x0 x1 ↔ (y0 ≤ y < y1 ∧ x0 ≤ x < x1)%nat.
Proof.
  unfold block. rewrite list_elem_of_bind. split.
  - intros (y' & H & Hy). apply list_elem_of_bind in H as (x' & H & Hx).
    apply list_elem_of_singleton in H. simplify_eq. apply elem_of_seq in Hy, Hx. lia.
  - intros [Hy Hx]. exists y. rewrite elem_of_seq. split; [|lia].
    apply list_elem_of_bind. exists x. rewrite elem_of_seq, list_elem_of_singleton. split; [done|lia].
Qed.

Lemma layout_covers y x : (y, x) ∈ layout ↔ (y < 32 ∧ x < 32)%nat.
Proof.
  unfold layout. rewrite !elem_of_app, !elem_of_block. lia.
Qed.

Lemma length_bind_const {A B} (f : A → list B) n l :
  (∀ a, length (f a) = n) → length (l ≫= f) = (length l * n)%nat.
Proof.
  intros Hf. induction l as [|a l IH]; [done|]. rewrite bind_cons, length_app, IH, Hf. done.
Qed.

Lemma length_block y0 y1 x0 x1 : length (block y0 y1 x0 x1) = ((y1 - y0) * (x1 - x0))%nat.
Proof.
  unfold block. rewrite (length_bind_const _ (x1 - x0)); [by rewrite length_seq|].
  intros y. rewrite (length_bind_const _ 1) by done. rewrite length_seq. lia.
Qed.

Lemma length_layout : length layout = CDF53_COEFFS_PER_CHANNEL.
Proof. unfold layout. rewrite !length_app, !length_block. done. Qed.

Lemma length_pack w : length (pack w) = CDF53_COEFFS_PER_CHANNEL.
Proof. unfold pack. by rewrite length_fmap, length_layout. Qed.

Lemma set_at_wf w y x v : wf_work w → wf_work (set_at w y x v).
Proof.
  intros [Hl Hf]. unfold set_at. split; [by rewrite length_alter|].
  apply Forall_alter; [done|]. intros r _ Hr. by rewrite length_insert.
Qed.

Lemma get_set_at w y x v y' x' :
  wf_work w → (y < 32)%nat → (x < 32)%nat →
  get (set_at w y x v) y' x' = if decide (y = y' ∧ x = x') then v else get w y' x'.
Proof.
  intros Hw Hy Hx. destruct (row_lookup w y Hw Hy) as [Hr Hlr].
  rewrite !get_row. unfold set_at, row at 1. destruct (decide (y = y')) as [<-|Hne].
  - rewrite list_lookup_alter_eq, Hr. cbn. rewrite at_insert by lia.
    destruct (decide (x = x')); [by rewrite decide_True|]. rewrite decide_False; [done|naive_solver].
  - rewrite list_lookup_alter_ne by done. rewrite decide_False; [done|naive_solver].
Qed.

(** Writing [h] along a scan that stays inside the square. *)
Lemma unpack_fmap (h : nat → nat → Z) l w :
  wf_work w → Forall (λ '(y, x), y < 32 ∧ x < 32)%nat l →
  let w' := foldl (λ w '((y, x), v), set_at w y x v) w (zip l ((λ '(y, x), h y x) <$> l)) in
  wf_work w' ∧ ∀ y x, get w' y x = if decide ((y, x) ∈ l) then h y x else get w y x.
Proof.
  intros Hw Hl. revert w Hw. induction Hl as [|[y0 x0] l [Hy Hx] _ IH]; intros w Hw.
  { cbn. split; [done|]. intros y x. rewrite decide_False; [done|set_solver]. }
  rewrite fmap_cons. cbn [zip zip_with foldl].
  destruct (IH (set_at w y0 x0 (h y0 x0))) as [Hwf Hget]; [by apply set_at_wf|].
  split; [done|]. intros y x. rewrite Hget, get_set_at by done.
  destruct (decide ((y, x) ∈ l)) as [Hin|Hin]; [by rewrite decide_True by set_solver|].
  destruct (decide (y0 = y ∧ x0 = x)) as [[-> ->]|Hne].
  - by rewrite decide_True by set_solver.
  - rewrite decide_False; [done|]. intros [[= -> ->]|]%elem_of_cons; naive_solver.
Qed.

Lemma unpack_pack w :
  wf_work w → (∀ y x, (y < 32)%nat → (x < 32)%nat → - 2 ^ 15 ≤ get w y x < 2 ^ 15) →
  unpack (pack w) = w.
Proof.
  intros Hw Hb. unfold unpack, pack.
  destruct (unpack_fmap (λ y x, i16 (get w y x)) layout (replicate 32 (replicate 32 0)))
    as [Hwf Hget].
  - split; [by rewrite length_replicate|]. by apply Forall_replicate.
  - apply Forall_forall. intros [y x] Hin. by apply layout_covers.
  - apply work_eq; [done|done|]. intros y x Hy Hx. rewrite Hget.
    rewrite decide_True by by apply layout_covers. apply swrap_small; [lia|]. by apply Hb.
Qed.

(** ** Growth of the coefficients *)

Definition in_box (a b : Z) (n : nat) (buf : list Z) : Prop :=
  ∀ i, (i < n)%nat → a ≤ at_ buf i ≤ b.

(** A high-pass value next to the even sample [m]: a sample minus the mean of
    [m] and one more sample. *)
Lemma high_form a b n buf i m :
  in_box a b n buf → even_len n → (n ≤ length buf)%nat → (i < n)%nat → (i mod 2 = 1)%nat →
  (m = i - 1 ∨ m = i + 1 ∧ i + 1 < n)%nat →
  ∃ u w, a ≤ u ≤ b ∧ a ≤ w ≤ b ∧
    at_ (lift_sub (predict n) (step_by2 1 n) buf) i = u - (at_ buf m + w) / 2.
Proof.
  intros Hbox Hn Hl Hi Hodd Hm. unfold even_len in Hn.
  rewrite lift_sub_lift, at_lift;
    [|apply predict_reads|apply NoDup_step_by2|by apply Forall_step_by2].
  rewrite decide_True by (rewrite elem_of_step_by2; ndlia).
  unfold predict. rewrite shiftr_div by lia. change (2 ^ 1) with 2.
  exists (at_ buf i). destruct (Nat.ltb_spec (i + 1) n) as [H1|H1].
  - destruct Hm as [->|[-> _]].
    + exists (at_ buf (i + 1)). split_and!; try (apply Hbox; ndlia). done.
    + exists (at_ buf (i - 1)). split_and!; try (apply Hbox; ndlia).
      by rewrite (Z.add_comm (at_ buf (i + 1))).
  - destruct Hm as [->|[_ ?]]; [|lia].
    exists (at_ buf (i - 1)). split_and!; try (apply Hbox; ndlia). done.
Qed.

(** The two half-bands of a row with samples in [[a, b]]. *)
Lemma row_forward_box a b n buf :
  in_box a b n buf → even_len n → (n ≤ length buf)%nat →
  in_box (a - (b - a) / 4 - 1) (b + (b - a) / 4 + 1) (n / 2) (row_forward buf n) ∧
  ∀ i, (n / 2 ≤ i < n)%nat → - (b - a) ≤ at_ (row_forward buf n) i ≤ b - a.
Proof.
  intros Hbox Hn Hl. split; intros i Hi; unfold row_forward; rewrite at_deinterleave by done;
    unfold even_len in Hn;
    set (hs := lift_sub (predict n) (step_by2 1 n) buf);
    assert (length hs = length buf) as Hlen by (unfold hs; by rewrite lift_sub_lift, length_lift).
  - rewrite (proj2 (Nat.ltb_lt _ _)) by done. rewrite lift_add_lift, at_lift;
      [|by apply update_reads|apply NoDup_step_by2|apply Forall_step_by2; lia].
    rewrite decide_True by (rewrite elem_of_step_by2; ndlia).
    assert (at_ hs (2 * i) = at_ buf (2 * i)) as ->.
    { unfold hs. rewrite lift_sub_lift. apply at_lift_out. rewrite elem_of_step_by2. ndlia. }
    pose proof (Hbox (2 * i)%nat ltac:(ndlia)).
    destruct (high_form a b n buf (2 * i + 1) (2 * i)) as (u & w & Hu & Hw & Hr); try ndlia; try done.
    assert (∃ u w, a ≤ u ≤ b ∧ a ≤ w ≤ b ∧
      (if (2 * i =? 0)%nat then at_ hs 1 else at_ hs (2 * i - 1)) = u - (at_ buf (2 * i) + w) / 2)
      as (u' & w' & Hu' & Hw' & Hr').
    { destruct (Nat.eqb_spec (2 * i) 0) as [H0|H0].
      - exists u, w. split_and!; try lia. fold hs in Hr. rewrite <-Hr. f_equal. lia.
      - apply high_form; try done; ndlia. }
    unfold update. rewrite Hr', (proj2 (Nat.ltb_lt _ _)) by ndlia. fold hs in Hr. rewrite Hr.
    rewrite shiftr_div by lia. change (2 ^ 2) with 4. dlia.
  - rewrite (proj2 (Nat.ltb_ge _ _)), (proj2 (Nat.ltb_lt _ _)) by lia.
    set (k := (2 * (i - n / 2) + 1)%nat).
    rewrite lift_add_lift, at_lift_out by (unfold k; rewrite elem_of_step_by2; ndlia).
    destruct (high_form a b n buf k (k - 1)) as (u & w & Hu & Hw & Hr);
      try (unfold k; ndlia); try done.
    fold hs in Hr. rewrite Hr. pose proof (Hbox (k - 1)%nat ltac:(unfold k; ndlia)). dlia.
Qed.

(** ** Growth over a level and over the whole transform *)

(** The top-left [n]-square lies in [[a, b]]; everything lies in [[-M, M]]. *)
Definition square_in (a b : Z) (n : nat) (w : list (list Z)) : Prop :=
  ∀ y x, (y < n)%nat → (x < n)%nat → a ≤ get w y x ≤ b.
Definition all_in (M : Z) (w : list (list Z)) : Prop := square_in (-M) M 32 w.

Lemma column_box a b size w x :
  (∀ y, (y < size)%nat → a ≤ get w y x ≤ b) → in_box a b size (column size w x).
Proof. intros H y Hy. rewrite at_column, (proj2 (Nat.ltb_lt _ _)) by done. by apply H. Qed.

Lemma level_forward_growth a b size w M :
  wf_work w → even_len size → (size ≤ 32)%nat → a ≤ b →
  square_in a b size w → all_in M w →
  let a1 := a - (b - a) / 4 - 1 in let b1 := b + (b - a) / 4 + 1 in
  let a2 := a1 - (b1 - a1) / 4 - 1 in let b2 := b1 + (b1 - a1) / 4 + 1 in
  -M ≤ a2 → b2 ≤ M → 2 * (b - a) + 2 ≤ M → b1 - a1 ≤ M →
  square_in a2 b2 (size / 2) (level_forward w size) ∧ all_in M (level_forward w size).
Proof.
  intros Hw He Hs Hab Hsq Hall a1 b1 a2 b2 HM1 HM2 HM3 HM4. unfold level_forward.
  set (v := map_rows row_forward size w).
  assert (wf_work v) as Hv by (apply map_rows_wf; auto using row_op_forward).
  assert (∀ y, (y < size)%nat → in_box a b size (row w y)) as Hrow.
  { intros y Hy x Hx. rewrite <-get_row. by apply Hsq. }
  assert (∀ y x, (y < size)%nat → get v y x = at_ (row_forward (row w y) size) x) as Hgv.
  { intros y x Hy. unfold v. rewrite get_map_rows by (done || lia).
    by rewrite (proj2 (Nat.ltb_lt _ _)) by done. }
  assert (∀ y, (y < size)%nat → (size ≤ length (row w y))%nat) as Hlr.
  { intros y Hy. destruct (row_lookup w y Hw) as [_ ->]; lia. }
  assert (∀ x, (x < size / 2)%nat → in_box a1 b1 size (column size v x)) as Hlow.
  { intros x Hx. apply column_box. intros y Hy. rewrite Hgv by done.
    by apply (row_forward_box a b size (row w y)); auto. }
  assert (∀ x, (size / 2 ≤ x < size)%nat → in_box (- (b - a)) (b - a) size (column size v x)) as Hhigh.
  { intros x Hx. apply column_box. intros y Hy. rewrite Hgv by done.
    by apply (row_forward_box a b size (row w y)); auto. }
  assert (∀ x, (size ≤ length (column size v x))%nat) as Hlc by (intros; rewrite length_column; lia).
  assert (size / 2 ≤ size)%nat as Hh by ndlia.
  split; intros y x Hy Hx; rewrite get_map_cols by (done || lia).
  - rewrite !(proj2 (Nat.ltb_lt _ _)) by lia. cbn [andb].
    by apply (row_forward_box a1 b1 size (column size v x)); auto.
  - destruct (Nat.ltb_spec y size) as [H1|H1], (Nat.ltb_spec x size) as [H2|H2]; cbn [andb].
    2: { rewrite Hgv by done. destruct (row_op_forward size He (row w y)) as [_ ->]; auto.
         rewrite <-get_row. by apply Hall. }
    2, 3: unfold v; rewrite get_map_rows by (done || lia);
      rewrite (proj2 (Nat.ltb_ge y size)) by done; by apply Hall.
    destruct (decide (x < size / 2)%nat) as [H3|H3].
    + destruct (row_forward_box a1 b1 size (column size v x)) as [HL HH]; auto.
      destruct (decide (y < size / 2)%nat) as [H4|H4].
      * specialize (HL y H4). unfold a2, b2, col_forward in *. lia.
      * specialize (HH y ltac:(lia)). unfold col_forward. lia.
    + destruct (row_forward_box (- (b - a)) (b - a) size (column size v x)) as [HL HH]; auto with lia.
      destruct (decide (y < size / 2)%nat) as [H4|H4].
      * specialize (HL y H4). unfold col_forward. dlia.
      * specialize (HH y ltac:(lia)). unfold col_forward. lia.
Qed.

Lemma transform_growth w :
  wf_work w → square_in 0 255 32 w →
  wf_work (transform w) ∧ square_in (-1330) 1585 4 (transform w) ∧ all_in 2622 (transform w).
Proof.
  intros Hw Hsq. unfold transform. cbn [foldl].
  assert (all_in 2622 w) as Hall by (intros y x Hy Hx; specialize (Hsq y x Hy Hx); lia).
  destruct (level_forward_growth 0 255 32 w 2622) as [Hs1 Ha1]; try done.
  pose proof (level_forward_wf w 32 eq_refl ltac:(lia) Hw) as Hw1.
  set (w1 := level_forward w 32) in *.
  destruct (level_forward_growth (-160) 415 16 w1 2622) as [Hs2 Ha2]; try done; [lia|].
  pose proof (level_forward_wf w1 16 eq_refl ltac:(lia) Hw1) as Hw2.
  set (w2 := level_forward w1 16) in *.
  destruct (level_forward_growth (-520) 775 8 w2 2622) as [Hs3 Ha3]; try done; [lia|].
  split; [|done]. by apply level_forward_wf; [|lia|].
Qed.

(** ** Whole tiles *)

Lemma load_channel_wf t ch : wf_work (load_channel t ch).
Proof.
  split; [unfold load_channel; lens|]. apply Forall_fmap, Forall_forall. intros y _. cbn. lens.
Qed.

Lemma get_load_channel t ch y x :
  (y < 32)%nat → (x < 32)%nat → get (load_channel t ch) y x = at_ t ((y * 32 + x) * 4 + ch).
Proof.
  intros Hy Hx. rewrite get_row. unfold row, load_channel.
  rewrite list_lookup_fmap, lookup_seq_lt by done. cbn [fmap option_fmap default].
  by apply (at_fmap_seq (λ x, at_ t ((y * 32 + x) * 4 + ch))).
Qed.

Lemma at_byte t i : bytes t → 0 ≤ at_ t i ≤ 255.
Proof.
  intros Ht. unfold at_. destruct (t !! i) eqn:E; cbn; [|lia].
  pose proof (Forall_lookup_1 _ _ _ _ Ht E). wsolve.
Qed.

Lemma load_channel_box t ch : bytes t → square_in 0 255 32 (load_channel t ch).
Proof. intros Ht y x Hy Hx. rewrite get_load_channel by done. by apply at_byte. Qed.

Definition coeffs_of (t : list Z) (ch : nat) : list Z := pack (transform (load_channel t ch)).

Lemma unpack_coeffs_of t ch : bytes t → untransform (unpack (coeffs_of t ch)) = load_channel t ch.
Proof.
  intros Ht. destruct (transform_growth (load_channel t ch)) as (Hw & _ & Hb).
  { apply load_channel_wf. } { by apply load_channel_box. }
  unfold coeffs_of. rewrite unpack_pack; [|done|].
  - apply untransform_transform, load_channel_wf.
  - intros y x Hy Hx. specialize (Hb y x Hy Hx). lia.
Qed.

Lemma coeffs_of_bound t ch : bytes t → Forall (λ x, Z.abs x ≤ 2622) (coeffs_of t ch).
Proof.
  intros Ht. destruct (transform_growth (load_channel t ch)) as (Hw & _ & Hb).
  { apply load_channel_wf. } { by apply load_channel_box. }
  apply Forall_fmap, Forall_forall. intros [y x] [Hy Hx]%layout_covers. cbn [compose].
  specialize (Hb y x Hy Hx). rewrite swrap_small by lia. lia.
Qed.

Lemma forward_ok t :
  length t = (32 * 32 * 4)%nat → forward t = Ok (coeffs_of t 0 ++ coeffs_of t 1 ++ coeffs_of t 2).
Proof.
  intros Hl. unfold forward. rewrite Hl, Nat.eqb_refl. cbn [assert_ mbind outcome_bind].
  change (seq 0 CDF53_CHANNELS) with [0; 1; 2]%nat. rewrite !fmap_cons, fmap_nil.
  cbn [concat]. by rewrite app_nil_r.
Qed.

Lemma length_coeffs_of t ch : length (coeffs_of t ch) = CDF53_COEFFS_PER_CHANNEL.
Proof. apply length_pack. Qed.

Lemma channel_of_three (a b c : list Z) :
  length a = CDF53_COEFFS_PER_CHANNEL → length b = CDF53_COEFFS_PER_CHANNEL →
  length c = CDF53_COEFFS_PER_CHANNEL →
  channel_of (a ++ b ++ c) 0 = a ∧ channel_of (a ++ b ++ c) 1 = b ∧ channel_of (a ++ b ++ c) 2 = c.
Proof.
  intros Ha Hb Hc. unfold channel_of. rewrite <-Ha. split_and!.
  - by rewrite Nat.mul_0_l, drop_0, take_app_length.
  - rewrite Nat.mul_1_l, drop_app_length. by apply take_app_length'; lia.
  - rewrite drop_app_ge by lia. rewrite drop_app_ge by lia.
    replace (2 * length a - length a - length b)%nat with 0%nat by lia.
    rewrite drop_0. apply take_ge. lia.
Qed.

Lemma inverse_coeffs t :
  bytes t → length t = (32 * 32 * 4)%nat →
  inverse (coeffs_of t 0 ++ coeffs_of t 1 ++ coeffs_of t 2) = Ok (strip_alpha t).
Proof.
  intros Ht Hl. unfold inverse, strip_alpha. rewrite !length_app, !length_coeffs_of.
  change (_ =? _)%nat with true. cbn [assert_ mbind outcome_bind]. f_equal. f_equal.
  change (seq 0 CDF53_CHANNELS) with [0; 1; 2]%nat. rewrite !fmap_cons, fmap_nil.
  destruct (channel_of_three (coeffs_of t 0) (coeffs_of t 1) (coeffs_of t 2)) as (-> & -> & ->);
    [apply length_coeffs_of..|].
  rewrite !unpack_coeffs_of by done.
  apply list_fmap_ext. intros i px Hi. apply lookup_seq in Hi as [-> Hpx]. cbn [fmap list_fmap Nat.add].
  assert (∀ ch, clamp_u8 (get (load_channel t ch) (i / 32) (i mod 32)) = at_ t (i * 4 + ch)) as Hpix.
  { intros ch. rewrite get_load_channel by ndlia.
    replace (i / 32 * 32 + i mod 32)%nat with i by ndlia.
    pose proof (at_byte t (i * 4 + ch) Ht). unfold clamp_u8. lia. }
  by rewrite !Hpix.
Qed.

Lemma coeffs_lt t :
  bytes t → Forall (λ x, Z.abs x < 2 ^ 13) (coeffs_of t 0 ++ coeffs_of t 1 ++ coeffs_of t 2).
Proof.
  intros Ht. rewrite !Forall_app. split_and!;
    (eapply Forall_impl; [by apply coeffs_of_bound|]; cbn; lia).
Qed.

(** ** The codec's guarantees *)

(** The forward transform of any 32x32 BGRA tile succeeds, yields 3072
    coefficients, and every coefficient is within [[-2622, 2622]]: the
    [as i16] casts are exact and the thirteen magnitude bit-planes suffice. *)
Theorem forward_coeffs_fit t :
  bytes t → length t = (32 * 32 * 4)%nat →
  ∃ c, forward t = Ok c ∧ length c = CDF53_TOTAL_COEFFS ∧ Forall (λ x, Z.abs x ≤ 2622) c.
Proof.
  intros Ht Hl. eexists. split; [by apply forward_ok|]. split.
  - rewrite !length_app, !length_coeffs_of. done.
  - rewrite !Forall_app. split_and!; by apply coeffs_of_bound.
Qed.

(** C15: The whole CDF 5/3 codec is lossless: transforming a tile, encoding the
    coefficients as fourteen bit-plane passes, decoding the passes and
    transforming back returns exactly the tile's B, G and R bytes. *)
Theorem cdf53_lossless t :
  bytes t → length t = (32 * 32 * 4)%nat →
  (c ← forward t; passes ← encode_passes c; d ← decode_passes passes; inverse d) = Ok (strip_alpha t).
Proof.
  intros Ht Hl. rewrite forward_ok, bind_Ok by done.
  assert (length (coeffs_of t 0 ++ coeffs_of t 1 ++ coeffs_of t 2) = CDF53_TOTAL_COEFFS) as Hc.
  { by rewrite !length_app, !length_coeffs_of. }
  rewrite encode_passes_dense, bind_Ok by done.
  rewrite decode_dense_passes by (done || by apply coeffs_lt).
  rewrite bind_Ok. by apply inverse_coeffs.
Qed.

(** A gradient tile, used by the witnesses. *)
Definition gradient_tile : list Z := (λ i, Z.of_nat i mod 256) <$> seq 0 (32 * 32 * 4).

Lemma gradient_tile_bytes : bytes gradient_tile.
Proof.
  apply Forall_fmap, Forall_forall. intros i _. cbn [compose]. widths. dlia.
Qed.

Lemma gradient_tile_length : length gradient_tile = (32 * 32 * 4)%nat.
Proof. unfold gradient_tile. by rewrite length_fmap, length_seq. Qed.

Lemma forward_coeffs_fit_witness :
  ∃ c, forward gradient_tile = Ok c ∧ length c = CDF53_TOTAL_COEFFS ∧ Forall (λ x, Z.abs x ≤ 2622) c.
Proof. exact (forward_coeffs_fit gradient_tile gradient_tile_bytes gradient_tile_length). Defined.

Lemma cdf53_lossless_witness :
  (c ← forward gradient_tile; passes ← encode_passes c; d ← decode_passes passes; inverse d)
  = Ok (strip_alpha gradient_tile).
Proof. exact (cdf53_lossless gradient_tile gradient_tile_bytes gradient_tile_length). Defined.
