(* ===== verification/Prevalidate.v ===== *)
(** * Accepting CDF 5/3 passes from the wire
      ([ghostframe-client-core/src/cdf53_prevalidate.rs])

    A pass payload is checked once by the thread that acknowledges it
    ([validate_cdf53], no output) and expanded by another ([decode_cdf53_wire]);
    [prevalidate_cdf53] does both at once.  The theorems say that the three
    agree on every byte string, that none of them panics, and that whatever the
    encoder emits is accepted with the planes it was made from. *)

From Stdlib Require Import ZArith Lia.
From stdpp Require Import base option list numbers sets.
From S2P Require Import Prelude Cdf53Rle Cdf53Passes.

Local Open Scope Z_scope.

(** ** Definitions *)

Inductive DecodeErrorCode :=
| PayloadTooShort | CountOutOfRange | ThinUncachedPalette | BundledTruncated | IndexOob
| RleOvershoot | RleUndershoot | Cdf53BadPass | Cdf53Truncated | Cdf53RleLength.

#[export] Instance DecodeErrorCode_eq_dec : EqDecision DecodeErrorCode.
Proof. solve_decision. Defined.

(** The [repr(u8)] discriminants, as sent in a decode-error report. *)
Definition error_code (e : DecodeErrorCode) : Z :=
  match e with
  | PayloadTooShort => 1 | CountOutOfRange => 2 | ThinUncachedPalette => 3
  | BundledTruncated => 4 | IndexOob => 5 | RleOvershoot => 6 | RleUndershoot => 7
  | Cdf53BadPass => 8 | Cdf53Truncated => 9 | Cdf53RleLength => 10
  end.

Record PrevalidatedCdf53 := {
  pc_generation : Z;
  pc_pass_idx : Z;
  pc_bit_planes : list Z;
  pc_present_passes : option Z;
}.

Record Cdf53WireInfo := {
  wi_present_passes : option Z;
  wi_streams : nat * nat;
}.

Definition parse_prefix (payload : list Z) (pass_idx : Z)
    : outcome DecodeErrorCode (option Z * nat) :=
  if 14 <=? pass_idx then Err Cdf53BadPass else
  if negb (pass_idx =? 0) then Ok (None, 0%nat) else
  if (length payload <? 2)%nat then Err Cdf53Truncated else
  hi ← idx payload 0;
  lo ← idx payload 1;
  let bitmap := Z.lor (Z.shiftl hi 8) lo in
  if Z.land bitmap 1 =? 0 then Err Cdf53BadPass else Ok (Some bitmap, 2%nat).

(** [each] threads what the closure captures mutably. *)
Definition walk_channels {S} (payload : list Z) (offset : nat)
    (each : nat → list Z → S → outcome DecodeErrorCode S) (s : S)
    : outcome DecodeErrorCode (S * nat) :=
  walk_blocks Cdf53Truncated each payload (seq 0 3) offset s.

Definition check_len (ch : nat) (rle : list Z) (s : unit) : outcome DecodeErrorCode unit :=
  if negb (rle_expanded_len rle =? 128)%nat then Err Cdf53RleLength else Ok tt.

Definition validate_cdf53 (payload : list Z) (pass_idx : Z)
    : outcome DecodeErrorCode Cdf53WireInfo :=
  '(present_passes, start) ← parse_prefix payload pass_idx;
  '(_, end_) ← walk_channels payload start check_len tt;
  Ok {| wi_present_passes := present_passes; wi_streams := (start, end_) |}.

(** [if rle_decode_into(rle, &mut planes[ch * 128 ..]) != 128 { Err } else { Ok }] *)
Definition expand_channel (ch : nat) (rle planes : list Z) : outcome DecodeErrorCode (list Z) :=
  let '(planes, n) := decode_channel ch rle planes in
  if negb (n =? 128)%nat then Err Cdf53RleLength else Ok planes.

Definition decode_cdf53_wire (streams planes : list Z) : outcome DecodeErrorCode (list Z) :=
  '(planes, _) ← walk_channels streams 0 expand_channel planes;
  Ok planes.

Definition prevalidate_cdf53 (payload : list Z) (generation pass_idx : Z)
    : outcome DecodeErrorCode PrevalidatedCdf53 :=
  '(present_passes, start) ← parse_prefix payload pass_idx;
  '(bit_planes, _) ← walk_channels payload start expand_channel (replicate 384 0);
  Ok {| pc_generation := generation; pc_pass_idx := pass_idx;
        pc_bit_planes := bit_planes; pc_present_passes := present_passes |}.

(** ** Two walks over the same payload *)

(** Both walks stop with the same error, or both finish at the same offset in
    related states; they never panic. *)
Definition rel_walk {E A B} (R : A → B → Prop) (a : outcome E (A * nat)) (b : outcome E (B * nat)) : Prop :=
  match a, b with
  | Ok (s, o), Ok (t, o') => o = o' ∧ R s t
  | Err e, Err e' => e = e'
  | _, _ => False
  end.

Definition rel_each {E A B} (R : nat → A → B → Prop)
    (e1 : nat → list Z → A → outcome E A) (e2 : nat → list Z → B → outcome E B) : Prop :=
  ∀ ch rle s t, bytes rle → (ch < 3)%nat → R ch s t →
    match e1 ch rle s, e2 ch rle t with
    | Ok s', Ok t' => R (S ch) s' t'
    | Err e, Err e' => e = e'
    | _, _ => False
    end.

Lemma walk_blocks_rel {E A B} (R : nat → A → B → Prop) (trunc : E) e1 e2 payload :
  bytes payload → rel_each R e1 e2 →
  ∀ n k o s t, (k + n ≤ 3)%nat → R k s t →
    rel_walk (R (k + n)%nat) (walk_blocks trunc e1 payload (seq k n) o s)
             (walk_blocks trunc e2 payload (seq k n) o t).
Proof.
  intros Hb He n. induction n as [|n IH]; intros k o s t Hk HR; cbn [seq walk_blocks].
  { rewrite Nat.add_0_r. done. }
  destruct (Nat.ltb_spec (length payload) (o + 2)) as [|H2]; [done|].
  destruct (idx_lt (E:=E) payload o) as (hi & -> & _); [lia|].
  destruct (idx_lt (E:=E) payload (o + 1)) as (lo & -> & _); [lia|]. cbn [mbind outcome_bind].
  set (len := Z.to_nat _). destruct (Nat.ltb_spec (length payload) (o + 2 + len)) as [|H3]; [done|].
  rewrite slice_ok by lia. cbn [mbind outcome_bind].
  set (rle := take _ _). assert (bytes rle) as Hr by (by apply Forall_take, Forall_drop).
  pose proof (He k rle s t Hr ltac:(lia) HR) as Hek.
  destruct (e1 k rle s), (e2 k rle t); try done; cbn [mbind outcome_bind].
  replace (k + S n)%nat with (S k + n)%nat by lia. apply IH; [lia|done].
Qed.

(** The blocks a walk covered, cut out and walked again from their own start. *)
Lemma walk_blocks_le {E A} (trunc : E) (e : nat → list Z → A → outcome E A) payload chs o s s' o' :
  walk_blocks trunc e payload chs o s = Ok (s', o') →
  (o ≤ o')%nat ∧ (chs ≠ [] → (o' ≤ length payload)%nat).
Proof.
  revert o s. induction chs as [|ch chs IH]; intros o s; cbn [walk_blocks].
  { intros [= <- <-]. done. }
  destruct (Nat.ltb_spec (length payload) (o + 2)) as [|H2]; [done|].
  destruct (idx_lt (E:=E) payload o) as (hi & -> & _); [lia|].
  destruct (idx_lt (E:=E) payload (o + 1)) as (lo & -> & _); [lia|]. cbn [mbind outcome_bind].
  set (len := Z.to_nat _). destruct (Nat.ltb_spec (length payload) (o + 2 + len)) as [|H3]; [done|].
  rewrite slice_ok by lia. cbn [mbind outcome_bind].
  destruct (e _ _ _); [|done..]. cbn [mbind outcome_bind]. intros Hw.
  pose proof (IH _ _ Hw) as [Hle Hlen]. split; [lia|]. intros _.
  destruct chs; [|by apply Hlen]. cbn in Hw. injection Hw as <- <-. lia.
Qed.

Lemma walk_blocks_cut {E A} (trunc : E) (e : nat → list Z → A → outcome E A) payload start end_ :
  (end_ ≤ length payload)%nat →
  ∀ chs k s s',
    walk_blocks trunc e payload chs (start + k) s = Ok (s', end_) →
    walk_blocks trunc e (take (end_ - start) (drop start payload)) chs k s
    = Ok (s', (end_ - start)%nat).
Proof.
  intros Hend chs. induction chs as [|ch chs IH]; intros k s s' Hw; pose proof Hw as Hw0;
    cbn [walk_blocks] in *.
  { injection Hw as <- <-. f_equal. f_equal. lia. }
  destruct (Nat.ltb_spec (length payload) (start + k + 2)) as [|H2]; [done|].
  destruct (idx_lt (E:=E) payload (start + k)) as (hi & Ehi & Lhi); [lia|].
  destruct (idx_lt (E:=E) payload (start + k + 1)) as (lo & Elo & Llo); [lia|].
  rewrite Ehi, Elo in Hw. cbn [mbind outcome_bind] in Hw.
  set (len := Z.to_nat _) in Hw.
  destruct (Nat.ltb_spec (length payload) (start + k + 2 + len)) as [|H3]; [done|].
  rewrite slice_ok in Hw by lia. cbn [mbind outcome_bind] in Hw.
  destruct (e _ _ _) as [s1|?|] eqn:Es in Hw; [|done..]. cbn [mbind outcome_bind] in Hw.
  pose proof (walk_blocks_le _ _ _ _ _ _ _ _ Hw) as [Hle _].
  rewrite length_take, length_drop.
  rewrite (proj2 (Nat.ltb_ge _ _)) by lia.
  assert (∀ i x, payload !! (start + i)%nat = Some x → (i < end_ - start)%nat →
    idx (E:=E) (take (end_ - start) (drop start payload)) i = Ok x) as Hidx.
  { intros i x Hx Hi. unfold idx. by rewrite lookup_take_lt, lookup_drop, Hx by done. }
  rewrite (Hidx k hi) by (done || lia).
  rewrite (Hidx (k + 1)%nat lo) by (by rewrite ?Nat.add_assoc || lia).
  cbn [mbind outcome_bind]. fold len. rewrite (proj2 (Nat.ltb_ge _ _)) by lia.
  rewrite slice_ok by (rewrite ?length_take, ?length_drop; lia).
  cbn [mbind outcome_bind]. rewrite skipn_firstn_comm, firstn_firstn, skipn_skipn, Nat.min_l by lia.
  replace (k + 2 + len - (k + 2))%nat with (start + k + 2 + len - (start + k + 2))%nat by lia.
  replace (k + 2 + start)%nat with (start + k + 2)%nat by lia. rewrite Es.
  cbn [mbind outcome_bind]. apply IH.
  by replace (start + (k + 2 + len))%nat with (start + k + 2 + len)%nat by lia.
Qed.

(** ** One channel *)

Lemma decode_channel_spec ch rle planes :
  length planes = 384%nat → (ch < 3)%nat →
  let d := rle_decode rle in
  decode_channel ch rle planes =
    (take (ch * 128) planes ++ take 128 d ++ drop (ch * 128 + Nat.min (length d) 128) planes,
     Nat.min (length d) 129).
Proof.
  intros Hl Hch. cbv zeta. unfold decode_channel. change BIT_PLANE_BYTES_PER_CHANNEL with 128%nat.
  assert (drop (length (rle_decode rle)) (take 128 (drop (ch * 128) planes)) ++
          drop (ch * 128 + 128) planes
          = drop (ch * 128 + Nat.min (length (rle_decode rle)) 128) planes) as Hd.
  { generalize (length (rle_decode rle)) as n. intros n.
    rewrite skipn_firstn_comm, skipn_skipn.
    destruct (decide (n ≤ 128)%nat) as [Hn|Hn].
    - rewrite Nat.min_l by done.
      replace (drop (ch * 128 + 128) planes) with (drop (128 - n) (drop (n + ch * 128) planes)).
      + rewrite take_drop. f_equal. lia.
      + rewrite skipn_skipn. f_equal. lia.
    - rewrite Nat.min_r by lia. replace (128 - n)%nat with 0%nat by lia. done. }
  rewrite rle_decode_into_spec by lens. rewrite <-app_assoc, Hd. done.
Qed.

Definition agree_upto (ch : nat) (p q : list Z) : Prop :=
  length p = 384%nat ∧ length q = 384%nat ∧ take (ch * 128) p = take (ch * 128) q.

Lemma take_written ch (rle p : list Z) :
  length p = 384%nat → (ch < 3)%nat → length (rle_decode rle) = 128%nat →
  let p' := take (ch * 128) p ++ take 128 (rle_decode rle) ++ drop (ch * 128 + 128) p in
  length p' = 384%nat ∧ take (S ch * 128) p' = take (ch * 128) p ++ rle_decode rle.
Proof.
  intros Hp Hch Hd. cbv zeta. rewrite (take_ge (rle_decode rle)) by lia. split; [lens|].
  rewrite app_assoc. apply take_app_length'. lens.
Qed.

Lemma expand_channel_rel : rel_each agree_upto expand_channel expand_channel.
Proof.
  intros ch rle p q Hb Hch (Hp & Hq & Heq). unfold expand_channel.
  rewrite !decode_channel_spec by done. cbv zeta.
  destruct (Nat.eqb_spec (Nat.min (length (rle_decode rle)) 129) 128) as [Hn|Hn]; cbn [negb]; [|done].
  rewrite (Nat.min_l _ 128) by lia. assert (length (rle_decode rle) = 128%nat) as Hd by lia.
  rewrite Hd. destruct (take_written ch rle p) as [L1 T1], (take_written ch rle q) as [L2 T2]; try done.
  split_and!; [done..|]. by rewrite T1, T2, Heq.
Qed.

Lemma check_expand_rel :
  rel_each (λ _ (_ : unit) p, length p = 384%nat) check_len expand_channel.
Proof.
  intros ch rle [] p Hb Hch Hp. unfold check_len, expand_channel.
  rewrite decode_channel_spec by done. unfold rle_expanded_len. cbv zeta.
  rewrite rle_expanded_len_go_spec, Nat.add_0_l by done.
  destruct (Nat.eqb_spec (Nat.min (length (rle_decode rle)) 129) 128) as [Hn|Hn]; cbn [negb]; [|done].
  rewrite (Nat.min_l _ 128) by lia. assert (length (rle_decode rle) = 128%nat) as Hd by lia.
  rewrite Hd. by apply take_written.
Qed.

(** ** Agreement of the three entry points *)

Lemma parse_prefix_no_panic payload p : no_panic (parse_prefix payload p).
Proof. unfold parse_prefix. np. Qed.

Lemma parse_prefix_start payload p present start :
  parse_prefix payload p = Ok (present, start) → (start ≤ length payload)%nat.
Proof.
  unfold parse_prefix. destruct (14 <=? p); [done|]. destruct (negb _); [intros [= <- <-]; lia|].
  destruct (Nat.ltb_spec (length payload) 2); [done|].
  destruct (idx _ 0) as [hi| |]; [|done..]. cbn [mbind outcome_bind].
  destruct (idx _ 1) as [lo| |]; [|done..]. cbn [mbind outcome_bind].
  destruct (_ =? 0); [done|]. intros [= <- <-]. done.
Qed.

Lemma decode_cdf53_wire_no_panic streams :
  bytes streams → no_panic (decode_cdf53_wire streams (replicate 384 0)).
Proof.
  intros Hb. unfold decode_cdf53_wire, walk_channels.
  pose proof (walk_blocks_rel _ Cdf53Truncated _ _ streams Hb expand_channel_rel 3 0 0
    (replicate 384 0) (replicate 384 0) ltac:(lia)) as H.
  specialize (H ltac:(split_and!; [apply length_replicate..|done])). unfold rel_walk in H.
  by destruct (walk_blocks _ _ _ _ _ _) as [[]| |].
Qed.

(** The two paths of a pass, and what they agree on. *)
Lemma validate_spec payload generation pass_idx buf :
  bytes payload → length buf = 384%nat →
  match validate_cdf53 payload pass_idx with
  | Err e => prevalidate_cdf53 payload generation pass_idx = Err e
  | Panic => False
  | Ok info => ∃ streams planes,
      slice (E:=DecodeErrorCode) payload info.(wi_streams).1 info.(wi_streams).2 = Ok streams ∧
      decode_cdf53_wire streams buf = Ok planes ∧ length planes = 384%nat ∧
      prevalidate_cdf53 payload generation pass_idx =
        Ok {| pc_generation := generation; pc_pass_idx := pass_idx; pc_bit_planes := planes;
              pc_present_passes := info.(wi_present_passes) |}
  end.
Proof.
  intros Hb Hbuf. unfold validate_cdf53, prevalidate_cdf53, decode_cdf53_wire, walk_channels.
  pose proof (parse_prefix_no_panic payload pass_idx) as Hnp.
  destruct (parse_prefix payload pass_idx) as [[present start]|e|] eqn:Hpp; [|done|by apply Hnp].
  cbn [mbind outcome_bind].
  pose proof (walk_blocks_rel _ Cdf53Truncated _ _ payload Hb check_expand_rel 3 0 start tt
    (replicate 384 0) ltac:(lia) (length_replicate _ _)) as Hce.
  pose proof (walk_blocks_rel _ Cdf53Truncated _ _ payload Hb expand_channel_rel 3 0 start
    buf (replicate 384 0) ltac:(lia)) as Hee.
  specialize (Hee ltac:(split_and!; [done|apply length_replicate|done])).
  change (0 + 3)%nat with 3%nat in *. unfold rel_walk in Hce, Hee.
  destruct (walk_blocks _ check_len payload (seq 0 3) start tt) as [[[] o]|e|];
    destruct (walk_blocks _ expand_channel payload (seq 0 3) start (replicate 384 0))
      as [[planes o2]|e2|] eqn:E2; try done; cbn [mbind outcome_bind] in *; [|by subst].
  destruct Hce as [<- Hlen].
  destruct (walk_blocks _ expand_channel payload (seq 0 3) start buf) as [[planes' o']|e'|] eqn:E3;
    [|done..]. destruct Hee as [<- (Hl1 & Hl2 & Ht)].
  rewrite !take_ge in Ht by lia. subst planes'.
  pose proof (walk_blocks_le _ _ _ _ _ _ _ _ E3) as [Hso Hol]. specialize (Hol ltac:(done)).
  exists (take (o' - start) (drop start payload)), planes. cbn [wi_streams wi_present_passes fst snd].
  split; [by apply slice_ok|]. split; [|done].
  rewrite <-(Nat.add_0_r start) in E3. by rewrite (walk_blocks_cut _ _ _ _ _ Hol _ _ _ _ E3).
Qed.

(** On every byte string the acknowledging thread's [validate_cdf53] and the
    expanding [prevalidate_cdf53] take the same decision with the same error
    code, and neither panics; when they accept, expanding the validated slice
    with [decode_cdf53_wire] into any 384-byte buffer succeeds and yields the
    same planes. *)
Theorem validate_agrees payload generation pass_idx buf :
  bytes payload → length buf = 384%nat →
  match validate_cdf53 payload pass_idx with
  | Err e => prevalidate_cdf53 payload generation pass_idx = Err e
  | Panic => False
  | Ok info => ∃ streams planes,
      slice (E:=DecodeErrorCode) payload info.(wi_streams).1 info.(wi_streams).2 = Ok streams ∧
      decode_cdf53_wire streams buf = Ok planes ∧ length planes = 384%nat ∧
      prevalidate_cdf53 payload generation pass_idx =
        Ok {| pc_generation := generation; pc_pass_idx := pass_idx; pc_bit_planes := planes;
              pc_present_passes := info.(wi_present_passes) |}
  end.
Proof. apply validate_spec. Qed.

(** A pass 0 of three all-zero planes is accepted. *)
Lemma validate_agrees_witness :
  let payload := [0; 1; 0; 1; 255; 0; 1; 255; 0; 1; 255] in
  ∃ streams planes,
    slice (E:=DecodeErrorCode) payload 2 11 = Ok streams ∧
    decode_cdf53_wire streams (replicate 384 7) = Ok planes ∧ length planes = 384%nat ∧
    prevalidate_cdf53 payload 3 0 =
      Ok {| pc_generation := 3; pc_pass_idx := 0; pc_bit_planes := planes;
            pc_present_passes := Some 1 |}.
Proof.
  exact (validate_agrees [0; 1; 0; 1; 255; 0; 1; 255; 0; 1; 255] 3 0 (replicate 384 7)
    ltac:(by repeat constructor) (length_replicate _ _)).
Defined.

(** ** What the encoder emits is accepted *)

Definition accepted (c : list Z) (present generation : Z) (p : nat) : PrevalidatedCdf53 :=
  {| pc_generation := generation; pc_pass_idx := Z.of_nat p;
     pc_bit_planes := concat (planes_of c p);
     pc_present_passes := if (p =? 0)%nat then Some present else None |}.

Lemma parse_prefix_payload present planes p :
  in_width 16 present → Z.testbit present 0 = true → (p < 14)%nat →
  parse_prefix (pass_payload present planes p) (Z.of_nat p)
  = Ok (if (p =? 0)%nat then (Some present, 2%nat) else (None, 0%nat)).
Proof.
  intros Hw Hodd Hp. unfold parse_prefix. rewrite (proj2 (Z.leb_gt _ _)) by lia.
  destruct p as [|p]; [|by rewrite (proj2 (Z.eqb_neq _ _)) by lia].
  cbn [Nat.eqb Z.of_nat Z.eqb negb]. unfold pass_payload, pass_prefix. cbn [Nat.eqb app length].
  rewrite (proj2 (Nat.ltb_ge _ _)) by lia. cbn [idx lookup list_lookup mbind outcome_bind].
  assert (Z.lor (Z.shiftl (u8 (Z.shiftr present 8)) 8) (u8 present) = present) as ->.
  { rewrite shiftr_div by lia. rewrite (wrap_small 8 (_ / _)) by (widths; dlia).
    unfold wrap. rewrite lor_shiftl by (widths; dlia). widths. dlia. }
  change 1 with (2 ^ 0). rewrite land_pow2, Hodd by lia. done.
Qed.

Lemma prevalidate_pass_payload c present generation p :
  in_width 16 present → Z.testbit present 0 = true → (p < CDF53_PASS_COUNT)%nat →
  prevalidate_cdf53 (pass_payload present (planes_of c p) p) generation (Z.of_nat p)
  = Ok (accepted c present generation p).
Proof.
  intros Hw Hodd Hp. unfold prevalidate_cdf53, walk_channels.
  rewrite parse_prefix_payload by done. cbn [mbind outcome_bind].
  pose proof (walk_pass_payload Cdf53Truncated expand_channel present (planes_of c p) p []
    (replicate 384 0) (length_planes_of c p) (planes_of_lengths c p)) as Hwalk.
  rewrite app_nil_r in Hwalk. change CDF53_CHANNELS with 3%nat in Hwalk.
  pose proof (fold_decode_channels expand_channel (planes_of c p)) as Hfold.
  change CDF53_CHANNELS with 3%nat in Hfold. change ZERO_PLANE with (replicate 384 0) in Hfold.
  rewrite Hfold in Hwalk.
  - unfold accepted. destruct (p =? 0)%nat; rewrite Hwalk; done.
  - intros ch rle plane plane' H. unfold expand_channel. by rewrite H.
  - apply length_planes_of.
  - apply planes_of_bytes.
  - apply planes_of_lengths.
Qed.
