(* ===== verification/TileOut.v ===== *)
(** * Where a decoded tile is written ([ghostframe-client-core/src/tile_out.rs])

    A tile is 32 rows of 128 bytes at a caller-chosen stride.  The raw pointer of
    [TileOut] is the memory it points into together with the offset of the tile's
    first byte; [row_mut] followed by a store of a whole row is [put_row].  A
    mutable borrow is modelled by taking the view, changing its memory, and giving
    the memory back.  The theorem: a tile's rows land at its stride and no byte
    between them, which belongs to a neighbouring tile, is touched. *)

From Stdlib Require Import ZArith Lia.
From stdpp Require Import base option numbers list sets.
From S2P Require Import Prelude.

Local Open Scope Z_scope.

(** ** Definitions *)

Definition TILE_SIZE : nat := 32.
Definition TILE_ROW_BYTES : nat := TILE_SIZE * 4.
Definition TILE_BYTES : nat := TILE_ROW_BYTES * TILE_SIZE.

Record TileOut : Type := mkTileOut {
  to_mem : list Z;
  to_base : nat;
  to_stride : nat;
}.

Definition tile_out_new (buf : list Z) (stride : nat) : outcome unit TileOut :=
  assert_ (TILE_ROW_BYTES <=? stride)%nat ≫= λ _,
  assert_ (stride * (TILE_SIZE - 1) + TILE_ROW_BYTES <=? length buf)%nat ≫= λ _,
  Ok (mkTileOut buf 0 stride).

(** [from_raw]: the caller promises what [tile_out_new] checks. *)
Definition tile_out_from_raw (mem : list Z) (base stride : nat) : TileOut := mkTileOut mem base stride.

(** [*out.row_mut(y) = row] for a row of 128 bytes. *)
Definition put_row (out : TileOut) (y : nat) (row : list Z) : outcome unit TileOut :=
  assert_ (y <? TILE_SIZE)%nat ≫= λ _,
  let at_ := (out.(to_base) + y * out.(to_stride))%nat in
  Ok (mkTileOut (list_inserts at_ row out.(to_mem)) out.(to_base) out.(to_stride)).

(** [for y in 0..32 { *out.row_mut(y) = f(y) }] *)
Fixpoint fill_rows_from (f : nat → outcome unit (list Z)) (ys : list nat) (out : TileOut)
    : outcome unit TileOut :=
  match ys with
  | [] => Ok out
  | y :: ys =>
      row ← f y;
      out ← put_row out y row;
      fill_rows_from f ys out
  end.
Definition fill_rows (f : nat → outcome unit (list Z)) (out : TileOut) : outcome unit TileOut :=
  fill_rows_from f (seq 0 TILE_SIZE) out.

(** [let mut rgba = vec![0u8; TILE_BYTES]; w(&mut TileOut::new(&mut rgba, TILE_ROW_BYTES)); rgba] *)
Definition into_vec (w : TileOut → outcome unit TileOut) : outcome unit (list Z) :=
  out ← tile_out_new (replicate TILE_BYTES 0) TILE_ROW_BYTES;
  out ← w out;
  Ok out.(to_mem).

(** ** Rows at their stride *)

(** What a tile's contract asks of the memory behind it. *)
Definition tile_fits (out : TileOut) : Prop :=
  (TILE_ROW_BYTES ≤ out.(to_stride))%nat
  ∧ (out.(to_base) + out.(to_stride) * (TILE_SIZE - 1) + TILE_ROW_BYTES ≤ length out.(to_mem))%nat.

Lemma tile_out_new_fits buf stride out : tile_out_new buf stride = Ok out → tile_fits out.
Proof.
  unfold tile_out_new, assert_. destruct (Nat.leb_spec TILE_ROW_BYTES stride); [|done].
  rewrite bind_Ok. destruct (Nat.leb_spec (stride * (TILE_SIZE - 1) + TILE_ROW_BYTES) (length buf)); [|done].
  rewrite bind_Ok. intros <-%Ok_inj. split; cbn [to_stride to_base to_mem]; lia.
Qed.

(** The position of byte [i] of row [y]. *)
Definition row_at (out : TileOut) (y i : nat) : nat := (out.(to_base) + y * out.(to_stride) + i)%nat.

(** Rows [ys] were written with [f]; every other byte is as in [mem0]. *)
Definition rows_written (mem0 : list Z) (f : nat → list Z) (ys : list nat) (out : TileOut) : Prop :=
  length out.(to_mem) = length mem0
  ∧ (∀ y i, y ∈ ys → (i < TILE_ROW_BYTES)%nat → out.(to_mem) !! row_at out y i = f y !! i)
  ∧ (∀ p, (∀ y i, y ∈ ys → (i < TILE_ROW_BYTES)%nat → p ≠ row_at out y i) → out.(to_mem) !! p = mem0 !! p).

Lemma row_at_inj out y i y' i' :
  (TILE_ROW_BYTES ≤ out.(to_stride))%nat → (i < TILE_ROW_BYTES)%nat → (i' < TILE_ROW_BYTES)%nat →
  row_at out y i = row_at out y' i' → y = y' ∧ i = i'.
Proof.
  unfold row_at. intros Hs Hi Hi' H. assert (y = y') as ->; [|split; [done|lia]].
  destruct (Nat.lt_trichotomy y y') as [Hlt|[|Hlt]]; [|done|]; nia.
Qed.

Lemma put_row_written mem0 f ys out y :
  tile_fits out → rows_written mem0 f ys out → (y < TILE_SIZE)%nat → length (f y) = TILE_ROW_BYTES →
  ∃ out', put_row out y (f y) = Ok out' ∧ out'.(to_base) = out.(to_base) ∧ out'.(to_stride) = out.(to_stride)
    ∧ tile_fits out' ∧ rows_written mem0 f (y :: ys) out'.
Proof.
  intros [Hs Hb] (Hl & Hw & Ho) Hy Hlen. unfold put_row, assert_.
  rewrite (proj2 (Nat.ltb_lt _ _)) by done. rewrite bind_Ok. eexists. split; [done|].
  split; [done|]. split; [done|]. set (out' := mkTileOut _ _ _).
  assert (∀ y i, row_at out' y i = row_at out y i) as Hrow by done.
  assert (length (to_mem out') = length (to_mem out)) as Hl' by apply length_inserts.
  split; [split; cbn [to_stride to_base out']; [done|rewrite Hl'; done]|].
  assert (out.(to_base) + y * out.(to_stride) + TILE_ROW_BYTES ≤ length out.(to_mem))%nat as Hin.
  { unfold TILE_SIZE in *. nia. }
  split; [by rewrite Hl'|]. split.
  - intros y' i Hy' Hi. rewrite Hrow. destruct (decide (y' = y)) as [->|Hne].
    + cbn [to_mem out']. unfold row_at. rewrite list_lookup_inserts; [f_equal; lia|rewrite Hlen; lia|].
      lia.
    + cbn [to_mem out']. apply elem_of_cons in Hy' as [?|Hy']; [done|]. rewrite <-Hw by done.
      destruct (decide (row_at out y' i < out.(to_base) + y * out.(to_stride))%nat).
      * by apply list_lookup_inserts_lt.
      * apply list_lookup_inserts_ge. rewrite Hlen. destruct (decide (out.(to_base) + y * out.(to_stride) + TILE_ROW_BYTES ≤ row_at out y' i)%nat); [done|].
        exfalso. apply Hne. apply (row_at_inj out y' i y (row_at out y' i - (out.(to_base) + y * out.(to_stride))));
          [done|done|lia|unfold row_at in *; lia].
  - intros p Hp. rewrite <-Ho by (intros y' i Hy' Hi; rewrite <-Hrow; apply Hp; [by apply elem_of_cons; right|done]).
    cbn [to_mem out']. destruct (decide (p < out.(to_base) + y * out.(to_stride))%nat).
    + by apply list_lookup_inserts_lt.
    + apply list_lookup_inserts_ge. rewrite Hlen.
      destruct (decide (out.(to_base) + y * out.(to_stride) + TILE_ROW_BYTES ≤ p)%nat); [done|].
      exfalso. apply (Hp y (p - (out.(to_base) + y * out.(to_stride)))%nat);
        [by apply elem_of_cons; left|lia|unfold row_at; cbn [to_base to_stride out']; lia].
Qed.

Lemma rows_written_nil f out : rows_written out.(to_mem) f [] out.
Proof. split_and!; [done|intros y i Hy; by apply not_elem_of_nil in Hy|done]. Qed.

Lemma fill_rows_from_written mem0 f ys done_ out :
  (∀ y, y ∈ ys → (y < TILE_SIZE)%nat ∧ length (f y) = TILE_ROW_BYTES) →
  tile_fits out → rows_written mem0 f done_ out →
  ∃ out', fill_rows_from (λ y, Ok (f y)) ys out = Ok out'
    ∧ out'.(to_base) = out.(to_base) ∧ out'.(to_stride) = out.(to_stride) ∧ rows_written mem0 f (reverse ys ++ done_) out'.
Proof.
  revert done_ out. induction ys as [|y ys IH]; intros done_ out Hys Hf Hw; [by exists out|].
  cbn [fill_rows_from]. rewrite bind_Ok. destruct (Hys y ltac:(set_solver)) as [Hy Hl].
  destruct (put_row_written mem0 f done_ out y Hf Hw Hy Hl) as (out1 & -> & Hb & Hs & Hf1 & Hw1).
  rewrite bind_Ok. destruct (IH (y :: done_) out1) as (out2 & -> & Hb2 & Hs2 & Hw2); [set_solver|done|done|].
  exists out2. split_and!; [done|congruence|congruence|]. rewrite reverse_cons, <-(assoc_L (++)). done.
Qed.

(** Filling the tile writes its 32 rows at their stride and nothing else. *)
Lemma fill_rows_written f out :
  tile_fits out → (∀ y, (y < TILE_SIZE)%nat → length (f y) = TILE_ROW_BYTES) →
  ∃ out', fill_rows (λ y, Ok (f y)) out = Ok out' ∧ length out'.(to_mem) = length out.(to_mem)
    ∧ out'.(to_base) = out.(to_base) ∧ out'.(to_stride) = out.(to_stride)
    ∧ (∀ y i, (y < TILE_SIZE)%nat → (i < TILE_ROW_BYTES)%nat →
         out'.(to_mem) !! row_at out y i = f y !! i)
    ∧ (∀ p, (∀ y i, (y < TILE_SIZE)%nat → (i < TILE_ROW_BYTES)%nat → p ≠ row_at out y i) →
         out'.(to_mem) !! p = out.(to_mem) !! p).
Proof.
  intros Hf Hl. destruct (fill_rows_from_written out.(to_mem) f (seq 0 TILE_SIZE) [] out)
    as (out' & H & Hb & Hs & Hlen & Hw & Ho).
  - intros y Hy%elem_of_seq. split; [lia|]. apply Hl. lia.
  - done.
  - apply rows_written_nil.
  - exists out'. rewrite app_nil_r in *. unfold row_at in *. rewrite Hb, Hs in *.
    split_and!; [done..| |].
    + intros y i Hy Hi. apply Hw; [|done]. apply elem_of_reverse, elem_of_seq. lia.
    + intros p Hp. apply Ho. intros y i Hy%elem_of_reverse%elem_of_seq Hi. apply Hp; [lia|done].
Qed.

Lemma concat_rows_lookup (f : nat → list Z) n : ∀ a,
  (∀ y, (a ≤ y < a + n)%nat → length (f y) = TILE_ROW_BYTES) →
  ∀ y i, (y < n)%nat → (i < TILE_ROW_BYTES)%nat →
  concat (f <$> seq a n) !! (y * TILE_ROW_BYTES + i)%nat = f (a + y)%nat !! i.
Proof.
  induction n as [|n IH]; intros a Hl y i Hy Hi; [lia|]. cbn [seq]. rewrite fmap_cons. cbn [concat].
  destruct y as [|y].
  - rewrite Nat.add_0_r, lookup_app_l by (rewrite Hl; lia). done.
  - rewrite lookup_app_r by (rewrite Hl; [unfold TILE_ROW_BYTES in *|]; lia). rewrite Hl by lia.
    replace (S y * TILE_ROW_BYTES + i - TILE_ROW_BYTES)%nat with (y * TILE_ROW_BYTES + i)%nat by lia.
    rewrite (IH (S a)); [f_equal; f_equal; lia|intros y' Hy'; apply Hl; lia|lia|done].
Qed.

Lemma length_concat_rows (f : nat → list Z) n : ∀ a,
  (∀ y, (a ≤ y < a + n)%nat → length (f y) = TILE_ROW_BYTES) →
  length (concat (f <$> seq a n)) = (n * TILE_ROW_BYTES)%nat.
Proof.
  induction n as [|n IH]; intros a Hl; [done|]. cbn [seq]. rewrite fmap_cons. cbn [concat].
  rewrite length_app, IH, Hl by (intros; apply Hl; lia) || lia. lia.
Qed.

(** A tight buffer is the rows one after the other. *)
Lemma into_vec_rows (f : nat → list Z) :
  (∀ y, (y < TILE_SIZE)%nat → length (f y) = TILE_ROW_BYTES) →
  into_vec (fill_rows (λ y, Ok (f y))) = Ok (concat (f <$> seq 0 TILE_SIZE)).
Proof.
  intros Hl. unfold into_vec. destruct (tile_out_new _ _) as [out| |] eqn:E; [|by exfalso..].
  pose proof (tile_out_new_fits _ _ _ E) as Hf. rewrite bind_Ok.
  assert (out = mkTileOut (replicate TILE_BYTES 0) 0 TILE_ROW_BYTES) as Hout.
  { unfold tile_out_new, assert_ in E. rewrite length_replicate in E. by apply Ok_inj in E. }
  destruct (fill_rows_written f out Hf Hl) as (out' & -> & Hlen & _ & _ & Hw & _). rewrite bind_Ok. f_equal.
  rewrite Hout in Hlen. cbn [to_mem] in Hlen. rewrite length_replicate in Hlen.
  apply list_eq. intros p. destruct (decide (p < TILE_BYTES)%nat) as [Hp|Hp].
  2: { rewrite !lookup_ge_None_2; [done|rewrite length_concat_rows|]; try (intros; apply Hl);
       unfold TILE_BYTES, TILE_ROW_BYTES, TILE_SIZE in *; lia. }
  assert (∃ y i, p = (y * TILE_ROW_BYTES + i)%nat ∧ (y < TILE_SIZE)%nat ∧ (i < TILE_ROW_BYTES)%nat)
    as (y & i & -> & Hy & Hi).
  { exists (p / 128)%nat, (p mod 128)%nat. unfold TILE_BYTES, TILE_ROW_BYTES, TILE_SIZE in *. ndlia. }
  rewrite concat_rows_lookup by (done || intros; apply Hl; lia). rewrite <-Hw by done.
  rewrite Hout. unfold row_at. cbn [to_base to_stride]. f_equal.
Qed.

Lemma fill_rows_ext f g out :
  (∀ y, (y < TILE_SIZE)%nat → f y = g y) → fill_rows f out = fill_rows g out.
Proof.
  intros H. unfold fill_rows. assert (∀ y, y ∈ seq 0 TILE_SIZE → f y = g y) as Hs.
  { intros y Hy%elem_of_seq. apply H. lia. }
  clear H. revert out Hs. induction (seq 0 TILE_SIZE) as [|y ys IH]; intros out Hs; [done|].
  cbn [fill_rows_from]. rewrite Hs by set_solver. destruct (g y); [|done..]. rewrite !bind_Ok.
  destruct (put_row out y a); [|done..]. rewrite !bind_Ok. apply IH. set_solver.
Qed.
