(* ===== verification/TileState.v ===== *)
(** * Accumulating CDF 5/3 passes into pictures
      ([ghostframe-client-core/src/cdf53_tile_state.rs])

    Passes of a tile arrive in any order, some twice, some never because the
    encoder skipped an all-zero plane.  [accumulate] stores them,
    [reconstruct] draws the contiguous prefix of resolved passes when it has
    grown, [integrate] does both.  The headline theorem: whatever the order,
    duplication and interleaving with other tiles, once all passes the encoder
    sent have been delivered the last picture drawn is the tile, exactly. *)

From Stdlib Require Import ZArith Lia.
From stdpp Require Import base option list numbers sets gmap.
From S2P Require Import Prelude Cdf53Rle Cdf53Passes Cdf53 Prevalidate TileOut.

Local Open Scope Z_scope.

(** ** Definitions *)

(** [px.copy_from_slice(&[src[2], src[1], src[0], 255])] for each triple of a row. *)
Fixpoint rgba_of_bgr (bgr : list Z) : list Z :=
  match bgr with
  | b :: g :: r :: bgr => [r; g; b; 255] ++ rgba_of_bgr bgr
  | _ => []
  end.

(** Row [y] of the output is made of bytes [y * 96 .. y * 96 + 96] of the input. *)
Definition write_bgr_rows (bgr : list Z) (out : TileOut) : outcome unit TileOut :=
  assert_ (length bgr =? 1024 * 3)%nat ≫= λ _,
  fill_rows (λ y, src ← slice bgr (y * 96) (y * 96 + 96); Ok (rgba_of_bgr src)) out.

(** The same into a fresh 4096-byte vector. *)
Definition bgr_vec (bgr : list Z) : outcome unit (list Z) := into_vec (write_bgr_rows bgr).

(** [!x] on a [u16] *)
Definition not16 (x : Z) : Z := u16 (Z.lnot x).

(** [(0..n).take_while(f).count()] *)
Fixpoint take_while_count (f : nat → bool) (l : list nat) : nat :=
  match l with
  | i :: l => if f i then S (take_while_count f l) else 0
  | [] => 0
  end.

Definition resolved_prefix (received : Z) (present_passes : option Z) : nat :=
  let resolved := match present_passes with
                  | Some present => Z.lor received (not16 present)
                  | None => received
                  end in
  take_while_count (λ i, negb (Z.land resolved (Z.shiftl 1 (Z.of_nat i)) =? 0))
                   (seq 0 CDF53_PASS_COUNT).

Record TileEntry := {
  te_generation : Z;
  te_generation_set : bool;
  te_planes : list (option (list Z));
  te_received : Z;
  te_present_passes : option Z;
  te_drawn_prefix : option nat;
}.

Definition TileEntry_default : TileEntry :=
  {| te_generation := 0; te_generation_set := false;
     te_planes := replicate CDF53_PASS_COUNT None; te_received := 0;
     te_present_passes := None; te_drawn_prefix := None |}.

Definition prefix_len (t : TileEntry) : nat := resolved_prefix t.(te_received) t.(te_present_passes).

Abbreviation Cdf53TileState := (gmap (Z * Z) TileEntry).
Definition tiles_new : Cdf53TileState := ∅.
Definition retain_tiles (keep : Z → Z → bool) (st : Cdf53TileState) : Cdf53TileState :=
  filter (λ '((x, y), _), keep x y = true) st.
Definition forget_tile (pos : Z * Z) (st : Cdf53TileState) : Cdf53TileState := delete pos st.
Definition tiles_reset (st : Cdf53TileState) : Cdf53TileState := ∅.

(** The generation rule: a change discards everything the tile holds. *)
Definition start_generation (t : TileEntry) (generation : Z) : TileEntry :=
  if negb t.(te_generation_set) || negb (t.(te_generation) =? generation) then
    {| te_generation := generation; te_generation_set := true;
       te_planes := replicate CDF53_PASS_COUNT None; te_received := 0;
       te_present_passes := None; te_drawn_prefix := None |}
  else t.

Definition store_pass (t : TileEntry) (e : PrevalidatedCdf53) : TileEntry :=
  let idx := Z.to_nat e.(pc_pass_idx) in
  let '(planes, received) :=
    if (idx <? CDF53_PASS_COUNT)%nat
    then (<[idx := Some e.(pc_bit_planes)]> t.(te_planes),
          Z.lor t.(te_received) (Z.shiftl 1 (Z.of_nat idx)))
    else (t.(te_planes), t.(te_received)) in
  {| te_generation := t.(te_generation); te_generation_set := t.(te_generation_set);
     te_planes := planes; te_received := received;
     te_present_passes := match e.(pc_present_passes) with
                          | Some present => Some present
                          | None => t.(te_present_passes)
                          end;
     te_drawn_prefix := t.(te_drawn_prefix) |}.

Definition accumulate (st : Cdf53TileState) (pos : Z * Z) (e : PrevalidatedCdf53)
    : Cdf53TileState * bool :=
  let tile := default TileEntry_default (st !! pos) in
  let tile := store_pass (start_generation tile e.(pc_generation)) e in
  (<[pos := tile]> st, negb (bool_decide (tile.(te_drawn_prefix) = Some (prefix_len tile)))).

Definition set_drawn (t : TileEntry) (k : nat) : TileEntry :=
  {| te_generation := t.(te_generation); te_generation_set := t.(te_generation_set);
     te_planes := t.(te_planes); te_received := t.(te_received);
     te_present_passes := t.(te_present_passes); te_drawn_prefix := Some k |}.

Definition reconstruct (st : Cdf53TileState) (pos : Z * Z)
    : outcome unit (Cdf53TileState * option (list Z)) :=
  match st !! pos with
  | None => Ok (st, None)
  | Some tile =>
      let k := prefix_len tile in
      if bool_decide (tile.(te_drawn_prefix) = Some k) then Ok (st, None) else
      planes ← slice tile.(te_planes) 0 k;
      coefficients ← decode_planes (default ZERO_PLANE <$> planes);
      if (k <? CDF53_PASS_COUNT)%nat && forallb (λ c, c =? 0) coefficients then Ok (st, None) else
      bgr ← inverse coefficients;
      Ok (<[pos := set_drawn tile k]> st, Some bgr)
  end.

Definition integrate_bgr (st : Cdf53TileState) (pos : Z * Z) (e : PrevalidatedCdf53)
    : outcome unit (Cdf53TileState * option (list Z)) :=
  let '(st, grown) := accumulate st pos e in
  if negb grown then Ok (st, None) else reconstruct st pos.

Definition integrate (st : Cdf53TileState) (pos : Z * Z) (e : PrevalidatedCdf53)
    : outcome unit (Cdf53TileState * option (list Z)) :=
  '(st, bgr) ← integrate_bgr st pos e;
  match bgr with
  | None => Ok (st, None)
  | Some bgr => rgba ← bgr_vec bgr; Ok (st, Some rgba)
  end.

(** ** The resolved prefix *)

Lemma take_while_count_spec f a n :
  let k := take_while_count f (seq a n) in
  (k ≤ n)%nat ∧ (∀ i, (i < k)%nat → f (a + i)%nat = true) ∧ ((k < n)%nat → f (a + k)%nat = false).
Proof.
  revert a. induction n as [|n IH]; intros a; cbn [seq take_while_count]; [split_and!; lia|].
  destruct (f a) eqn:E.
  - destruct (IH (S a)) as (Hk & Ht & Hf). cbv zeta in *. split_and!.
    + lia.
    + intros [|i] Hi; [by rewrite Nat.add_0_r|].
      replace (a + S i)%nat with (S a + i)%nat by lia. apply Ht. lia.
    + intros Hlt. replace (a + S _)%nat with (S a + take_while_count f (seq (S a) n))%nat by lia.
      apply Hf. lia.
  - split_and!; [lia|lia|]. intros _. by rewrite Nat.add_0_r.
Qed.

Lemma not16_testbit x i : 0 ≤ i < 16 → Z.testbit (not16 x) i = negb (Z.testbit x i).
Proof.
  intros Hi. unfold not16, wrap. rewrite Z.mod_pow2_bits_low by lia. by rewrite Z.lnot_spec by lia.
Qed.

Definition resolved (received : Z) (present : option Z) (i : nat) : bool :=
  Z.testbit received (Z.of_nat i) ||
  match present with Some p => negb (Z.testbit p (Z.of_nat i)) | None => false end.

Lemma resolved_prefix_spec received present :
  let k := resolved_prefix received present in
  (k ≤ 14)%nat ∧ (∀ i, (i < k)%nat → resolved received present i = true) ∧
  ((k < 14)%nat → resolved received present k = false).
Proof.
  unfold resolved_prefix. set (f := λ i, _).
  destruct (take_while_count_spec f 0 CDF53_PASS_COUNT) as (Hk & Ht & Hf).
  unfold CDF53_PASS_COUNT in Hk, Hf. cbv zeta.
  assert (∀ i, (i < 14)%nat → f i = resolved received present i) as Heq.
  { intros i Hi. unfold f, resolved. rewrite Z.shiftl_1_l, bit_set by lia.
    destruct present as [p|]; [|by rewrite orb_false_r].
    by rewrite Z.lor_spec, not16_testbit by lia. }
  split_and!; [done| |].
  - intros i Hi. rewrite <-Heq; [by apply (Ht i)|]. unfold CDF53_PASS_COUNT in *. lia.
  - intros Hlt. rewrite <-Heq by done. by apply Hf.
Qed.

(** ** Totality: no arrival, however odd, makes the accumulator panic *)

Lemma length_apply_planes st k planes :
  length (apply_planes st k planes).1 = length st.1 ∧
  length (apply_planes st k planes).2 = length st.2.
Proof.
  revert st k. induction planes as [|p planes IH]; intros st k; cbn [apply_planes]; [done|].
  destruct (IH (apply_plane st k p) (S k)) as [-> ->]. unfold apply_plane.
  destruct (k =? 0)%nat; cbn [fst snd]; by rewrite length_imap.
Qed.

Lemma decode_planes_total planes :
  (length planes ≤ 14)%nat → ∃ c, decode_planes planes = Ok c ∧ length c = CDF53_TOTAL_COEFFS.
Proof.
  intros Hk. unfold decode_planes, assert_. rewrite (proj2 (Nat.leb_le _ _)) by done.
  cbn [mbind outcome_bind].
  pose proof (length_apply_planes (replicate CDF53_TOTAL_COEFFS false, replicate CDF53_TOTAL_COEFFS 0)
    0 planes) as [H1 H2]. destruct (apply_planes _ _ _) as [signs mags].
  cbn [fst snd] in *. rewrite length_replicate in H1; rewrite length_replicate in H2.
  eexists. split; [done|]. rewrite length_zip_with_l_eq by lia. done.
Qed.

Lemma inverse_total c :
  length c = CDF53_TOTAL_COEFFS → ∃ bgr, inverse c = Ok bgr ∧ length bgr = (1024 * 3)%nat.
Proof.
  intros Hc. unfold inverse. rewrite Hc, Nat.eqb_refl. eexists. split; [done|].
  rewrite (length_concat_fixed _ 3); [by rewrite length_seq|].
  intros px. by rewrite !length_fmap, length_seq.
Qed.

Definition wf_tiles (st : Cdf53TileState) : Prop :=
  ∀ pos t, st !! pos = Some t → length t.(te_planes) = CDF53_PASS_COUNT.

Lemma start_generation_len t g :
  length t.(te_planes) = CDF53_PASS_COUNT →
  length (start_generation t g).(te_planes) = CDF53_PASS_COUNT.
Proof. intros H. unfold start_generation. by destruct (_ || _). Qed.

Lemma store_pass_len t e : length (store_pass t e).(te_planes) = length t.(te_planes).
Proof.
  unfold store_pass. destruct (_ <? _)%nat; cbn [te_planes]; by rewrite ?length_insert.
Qed.

Lemma wf_insert st pos t :
  wf_tiles st → length t.(te_planes) = CDF53_PASS_COUNT → wf_tiles (<[pos := t]> st).
Proof. intros Hst Ht q t' [[-> <-]|[_ H]]%lookup_insert_Some; [done|by eapply Hst]. Qed.

Lemma wf_accumulate st pos e : wf_tiles st → wf_tiles (accumulate st pos e).1.
Proof.
  intros Hst. apply wf_insert; [done|]. rewrite store_pass_len. apply start_generation_len.
  destruct (st !! pos) eqn:E; [by eapply Hst|done].
Qed.

Lemma rgba_of_bgr_length n bgr : length bgr = (n * 3)%nat → length (rgba_of_bgr bgr) = (n * 4)%nat.
Proof.
  revert bgr. induction n as [|n IH]; intros bgr H; [by destruct bgr|].
  destruct bgr as [|b [|g [|r bgr]]]; cbn in H; try lia.
  cbn [rgba_of_bgr]. rewrite length_app, IH by lia. done.
Qed.

Lemma bgr_vec_rows bgr :
  length bgr = (1024 * 3)%nat →
  bgr_vec bgr = Ok (concat ((λ y, rgba_of_bgr (take 96 (drop (y * 96) bgr))) <$> seq 0 32)).
Proof.
  intros H. unfold bgr_vec, write_bgr_rows, assert_. rewrite H, Nat.eqb_refl.
  assert (∀ y, (y < TILE_SIZE)%nat → length (rgba_of_bgr (take 96 (drop (y * 96) bgr))) = TILE_ROW_BYTES) as Hl.
  { intros y Hy. unfold TILE_SIZE in Hy. by rewrite (rgba_of_bgr_length 32) by lens. }
  change (seq 0 32) with (seq 0 TILE_SIZE). rewrite <-(into_vec_rows _ Hl). unfold into_vec.
  destruct (tile_out_new _ _) as [out| |]; [|done..]. rewrite !bind_Ok.
  rewrite (fill_rows_ext _ (λ y, Ok (rgba_of_bgr (take 96 (drop (y * 96) bgr))))); [done|].
  intros y Hy. unfold TILE_SIZE in Hy. rewrite slice_ok by lia. rewrite bind_Ok. do 3 f_equal. lia.
Qed.

Lemma bgr_vec_total bgr :
  length bgr = (1024 * 3)%nat → ∃ rgba, bgr_vec bgr = Ok rgba.
Proof. intros H. rewrite bgr_vec_rows by done. eauto. Qed.

(** What [integrate] does, once its internal lookups are resolved. *)
Definition tile_after (st : Cdf53TileState) (pos : Z * Z) (e : PrevalidatedCdf53) : TileEntry :=
  store_pass (start_generation (default TileEntry_default (st !! pos)) e.(pc_generation)) e.

Definition draw (tile : TileEntry) : outcome unit (TileEntry * option (list Z)) :=
  let k := prefix_len tile in
  if bool_decide (tile.(te_drawn_prefix) = Some k) then Ok (tile, None) else
  coefficients ← decode_planes (default ZERO_PLANE <$> take k tile.(te_planes));
  if (k <? CDF53_PASS_COUNT)%nat && forallb (λ c, c =? 0) coefficients then Ok (tile, None) else
  bgr ← inverse coefficients;
  rgba ← bgr_vec bgr;
  Ok (set_drawn tile k, Some rgba).

Lemma prefix_len_le t : (prefix_len t ≤ 14)%nat.
Proof. apply resolved_prefix_spec. Qed.

Lemma integrate_draw st pos e :
  wf_tiles st →
  integrate st pos e = ('(t, pic) ← draw (tile_after st pos e); Ok (<[pos := t]> st, pic)).
Proof.
  intros Hst. pose proof (wf_accumulate st pos e Hst pos) as Hlen.
  unfold integrate, integrate_bgr, accumulate in *. fold (tile_after st pos e) in *.
  cbn [fst] in Hlen. rewrite lookup_insert_eq in Hlen. specialize (Hlen _ eq_refl).
  unfold draw. set (t := tile_after st pos e) in *.
  destruct (bool_decide _) eqn:E; [done|]. cbn [negb].
  unfold reconstruct. rewrite lookup_insert_eq, E.
  pose proof (prefix_len_le t). rewrite slice_ok by (rewrite ?Hlen; unfold CDF53_PASS_COUNT; lia).
  rewrite Nat.sub_0_r, drop_0, bind_Ok.
  destruct (decode_planes _) as [c| |]; [|done..]. rewrite !bind_Ok.
  destruct (_ && _); [done|]. destruct (inverse c) as [bgr| |]; [|done..]. rewrite !bind_Ok.
  rewrite insert_insert_eq. destruct (bgr_vec bgr); done.
Qed.

Lemma draw_total t :
  length t.(te_planes) = CDF53_PASS_COUNT →
  ∃ t' pic, draw t = Ok (t', pic) ∧ t'.(te_planes) = t.(te_planes).
Proof.
  intros Hlen. unfold draw. destruct (bool_decide _); [eauto|].
  pose proof (prefix_len_le t).
  destruct (decode_planes_total (default ZERO_PLANE <$> take (prefix_len t) t.(te_planes)))
    as (c & -> & Hc); [lens|]. rewrite bind_Ok.
  destruct (_ && _); [eauto|].
  destruct (inverse_total c Hc) as (bgr & -> & Hb). rewrite bind_Ok.
  destruct (bgr_vec_total bgr Hb) as (rgba & ->). rewrite bind_Ok. eauto.
Qed.

Lemma integrate_total st pos e :
  wf_tiles st →
  ∃ st' pic, integrate st pos e = Ok (st', pic) ∧ wf_tiles st' ∧
             ∀ q, q ≠ pos → st' !! q = st !! q.
Proof.
  intros Hst. rewrite integrate_draw by done.
  pose proof (wf_accumulate st pos e Hst pos (tile_after st pos e)) as Hlen.
  cbn [accumulate fst] in Hlen. rewrite lookup_insert_eq in Hlen. specialize (Hlen eq_refl).
  destruct (draw_total _ Hlen) as (t' & pic & -> & Ht). rewrite bind_Ok.
  eexists _, _. split; [done|]. split; [apply wf_insert; [done|by rewrite Ht]|].
  intros q Hq. by rewrite lookup_insert_ne.
Qed.

(** ** Delivering a tile's passes *)

(** The arrivals at all tiles, in order; the picture kept is the last one drawn
    at [pos]. *)
Fixpoint deliver (st : Cdf53TileState) (pos : Z * Z) (last : option (list Z))
    (evs : list ((Z * Z) * PrevalidatedCdf53)) : outcome unit (Cdf53TileState * option (list Z)) :=
  match evs with
  | [] => Ok (st, last)
  | (q, e) :: evs =>
      '(st, pic) ← integrate st q e;
      deliver st pos (if decide (q = pos) then match pic with Some _ => pic | None => last end
                      else last) evs
  end.

(** A tile that holds nothing of generation [g]. *)
Definition fresh_for (g : Z) (t : option TileEntry) : Prop :=
  match t with
  | None => True
  | Some t => t.(te_generation_set) = false ∨ t.(te_generation) ≠ g
  end.
#[export] Instance fresh_for_dec g t : Decision (fresh_for g t).
Proof. unfold fresh_for. destruct t; apply _. Defined.

Lemma present_of_bit0 c : Z.testbit (present_of c) 0 = true.
Proof. change 0 with (Z.of_nat 0). by rewrite present_of_testbit by (unfold CDF53_PASS_COUNT; lia). Qed.

Section delivery.
Context (c : list Z) (g : Z).

  (** The tile holds exactly the passes [A] of [c]. *)
Definition holds (A : list nat) (t : TileEntry) : Prop :=
    t.(te_generation) = g ∧ t.(te_generation_set) = true ∧
    length t.(te_planes) = CDF53_PASS_COUNT ∧
    (∀ i, (i < CDF53_PASS_COUNT)%nat →
      t.(te_planes) !! i = Some (if decide (i ∈ A) then Some (concat (planes_of c i)) else None)) ∧
    (∀ i, Z.testbit t.(te_received) (Z.of_nat i) = bool_decide (i ∈ A)) ∧
    t.(te_present_passes) = if decide (0%nat ∈ A) then Some (present_of c) else None.

  (** The picture of the first [k] passes. *)
Definition picture (k : nat) : outcome unit (list Z) :=
    bgr ← inverse (approx k <$> c); bgr_vec bgr.

Definition drawn_ok (last : option (list Z)) (t : TileEntry) : Prop :=
    match t.(te_drawn_prefix) with
    | None => last = None
    | Some k => ∃ pic, last = Some pic ∧ picture k = Ok pic
    end.

Lemma holds_blank t :
    fresh_for g t → let t' := start_generation (default TileEntry_default t) g in
    holds [] t' ∧ drawn_ok None t'.
  Proof using.
    intros Hf. assert (start_generation (default TileEntry_default t) g =
      {| te_generation := g; te_generation_set := true;
         te_planes := replicate CDF53_PASS_COUNT None; te_received := 0;
         te_present_passes := None; te_drawn_prefix := None |}) as ->.
    { unfold start_generation. destruct t as [t|]; cbn in *; [|done].
      destruct Hf as [->|Hf]; [done|]. rewrite (proj2 (Z.eqb_neq _ _)) by done.
      by rewrite orb_true_r. }
    split; [|done]. split_and!; try done.
    - intros i Hi. cbn [te_planes]. rewrite lookup_replicate_2 by done. rewrite decide_False; set_solver.
    - intros i. cbn [te_received]. rewrite Z.bits_0. symmetry. apply bool_decide_eq_false. set_solver.
  Qed.

Lemma start_generation_same A t : holds A t → start_generation t g = t.
  Proof using.
    intros (Hg & Hs & _). unfold start_generation. by rewrite Hs, Hg, Z.eqb_refl.
  Qed.

Lemma store_pass_holds A t p :
    holds A t → (p < CDF53_PASS_COUNT)%nat →
    holds (p :: A) (store_pass t (accepted c (present_of c) g p)) ∧
    (store_pass t (accepted c (present_of c) g p)).(te_drawn_prefix) = t.(te_drawn_prefix).
  Proof using.
    intros (Hg & Hs & Hl & Hp & Hr & Hpr) Hlt. unfold store_pass, accepted.
    cbn [pc_pass_idx pc_bit_planes pc_present_passes]. rewrite Nat2Z.id.
    rewrite (proj2 (Nat.ltb_lt _ _)) by done. split; [|done].
    split_and!; cbn [te_generation te_generation_set te_planes te_received te_present_passes];
      try done.
    - by rewrite length_insert.
    - intros i Hi. destruct (decide (i = p)) as [->|Hne].
      + rewrite list_lookup_insert_eq by lia. rewrite decide_True; [done|set_solver].
      + rewrite list_lookup_insert_ne by done. rewrite Hp by done.
        destruct (decide (i ∈ A)); [rewrite decide_True|rewrite decide_False]; set_solver.
    - intros i. rewrite Z.lor_spec, Hr, Z.shiftl_1_l, Z.pow2_bits_eqb by lia.
      apply eq_true_iff_eq. rewrite orb_true_iff, !bool_decide_eq_true, Z.eqb_eq, elem_of_cons.
      split; [intros [?|?]; [by right|left; lia]|intros [->|?]; [by right|by left]].
    - rewrite Hpr. destruct p as [|p]; cbn [Nat.eqb].
      + by rewrite decide_True by set_solver.
      + destruct (decide (0%nat ∈ A)); [rewrite decide_True|rewrite decide_False]; set_solver.
  Qed.

Context (Hlen : length c = CDF53_TOTAL_COEFFS) (Hc : Forall (λ x, Z.abs x < 2 ^ 13) c).

Lemma holds_planes_ok A t :
    holds A t →
    ∀ i plane, (default ZERO_PLANE <$> take (prefix_len t) t.(te_planes)) !! i = Some plane →
      plane_ok c i plane.
  Proof using Hlen.
    intros (_ & _ & _ & Hp & Hr & Hpr) i plane Hi. rewrite list_lookup_fmap in Hi.
    destruct (decide (i < prefix_len t)%nat) as [Hlt|Hge].
    2: { by rewrite lookup_take_ge in Hi by lia. }
    pose proof (prefix_len_le t). destruct (resolved_prefix_spec (te_received t) (te_present_passes t))
      as (_ & Hres & _). specialize (Hres i Hlt).
    rewrite lookup_take_lt, Hp in Hi by (unfold CDF53_PASS_COUNT; lia).
    unfold resolved in Hres. rewrite Hr in Hres.
    destruct (decide (i ∈ A)) as [Hin|Hout]; cbn in Hi; injection Hi as <-.
    - apply planes_of_ok; [done|lia].
    - rewrite bool_decide_eq_false_2 in Hres by done. cbn [orb] in Hres. rewrite Hpr in Hres.
      destruct (decide (0%nat ∈ A)); [|done]. apply negb_true_iff in Hres.
      apply absent_pass_zero; [done|unfold CDF53_PASS_COUNT; lia|done].
  Qed.

Lemma draw_step A last t :
    holds A t → drawn_ok last t →
    ∃ t' pic, draw t = Ok (t', pic) ∧ holds A t' ∧
      drawn_ok (match pic with Some _ => pic | None => last end) t' ∧
      (prefix_len t' = 14%nat → t'.(te_drawn_prefix) = Some 14%nat).
  Proof using Hlen Hc.
    intros Hh Hd. unfold draw. case_bool_decide as Heq.
    { exists t, None. split_and!; try done. intros H14. by rewrite Heq, H14. }
    pose proof (prefix_len_le t) as Hle. assert (length t.(te_planes) = CDF53_PASS_COUNT) as Hl by apply Hh.
    rewrite (decode_planes_spec c) by (done || apply (holds_planes_ok A t Hh) || lens).
    assert (length (default ZERO_PLANE <$> take (prefix_len t) t.(te_planes)) = prefix_len t) as ->.
    { unfold CDF53_PASS_COUNT in Hl. lens. }
    rewrite bind_Ok. destruct (_ && _) eqn:Eb.
    { exists t, None. split_and!; try done. intros H14. by rewrite H14 in Eb. }
    destruct (inverse_total (approx (prefix_len t) <$> c)) as (bgr & Hbgr & Hb).
    { by rewrite length_fmap. }
    rewrite Hbgr, bind_Ok. destruct (bgr_vec_total bgr Hb) as (rgba & Hrgba).
    rewrite Hrgba, bind_Ok. eexists _, _. split_and!; [done|done| |].
    - unfold drawn_ok. cbn [set_drawn te_drawn_prefix]. exists rgba. split; [done|]. unfold picture. by rewrite Hbgr, bind_Ok.
    - intros H14. cbn [set_drawn te_drawn_prefix]. by f_equal.
  Qed.

  (** The tile as the next pass of generation [g] finds it. *)
Definition tile_for (st : Cdf53TileState) (pos : Z * Z) : TileEntry :=
    start_generation (default TileEntry_default (st !! pos)) g.

Definition delivered (A : list nat) (last : option (list Z)) (t : TileEntry) : Prop :=
    holds A t ∧ drawn_ok last t ∧ (prefix_len t = 14%nat → t.(te_drawn_prefix) = Some 14%nat).

Lemma integrate_delivered A last st pos p :
    wf_tiles st → delivered A last (tile_for st pos) → (p < CDF53_PASS_COUNT)%nat →
    ∃ st' pic, integrate st pos (accepted c (present_of c) g p) = Ok (st', pic) ∧ wf_tiles st' ∧
      delivered (p :: A) (match pic with Some _ => pic | None => last end) (tile_for st' pos).
  Proof using Hlen Hc.
    intros Hst (Hh & Hd & H14) Hp. rewrite integrate_draw by done.
    unfold tile_after. cbn [accepted pc_generation]. fold (accepted c (present_of c) g p).
    fold (tile_for st pos). destruct (store_pass_holds A _ p Hh Hp) as [Hh' Hdp].
    destruct (draw_step (p :: A) last (store_pass (tile_for st pos) (accepted c (present_of c) g p)))
      as (t' & pic & -> & Ht' & Hd' & H14'); [done|unfold drawn_ok in *; by rewrite Hdp|].
    rewrite bind_Ok. eexists _, _. split; [done|]. split; [apply wf_insert; [done|apply Ht']|].
    unfold tile_for. rewrite lookup_insert_eq. cbn [default].
    by rewrite (start_generation_same (p :: A)).
  Qed.

  (** A run of arrivals: the tile holds [A] before it, and all that came after it. *)
Lemma deliver_holds evs pos :
    Forall (λ '(q, e), q = pos →
      ∃ p, (p < CDF53_PASS_COUNT)%nat ∧ e = accepted c (present_of c) g p) evs →
    ∀ A st last,
      wf_tiles st → delivered A last (tile_for st pos) →
      ∃ st' last' A', deliver st pos last evs = Ok (st', last') ∧
        delivered A' last' (tile_for st' pos) ∧ A ⊆ A' ∧
        ∀ p, (pos, accepted c (present_of c) g p) ∈ evs → p ∈ A'.
  Proof using Hlen Hc.
    induction 1 as [|[q e] evs He _ IH]; intros A st last Hst Hdel; cbn [deliver].
    { exists st, last, A. split_and!; try done. intros p Hp. by apply not_elem_of_nil in Hp. }
    destruct (decide (q = pos)) as [->|Hne].
    - destruct (He eq_refl) as (p & Hp & ->).
      destruct (integrate_delivered A last st pos p) as (st1 & pic & -> & Hst1 & Hd1); try done.
      rewrite bind_Ok. destruct (IH _ _ _ Hst1 Hd1) as (st2 & last2 & A2 & E2 & Hd2 & Hsub & Hall).
      exists st2, last2, A2. split_and!; try done; [set_solver|].
      intros p' [Heq|Hin]%elem_of_cons; [|by apply Hall].
      injection Heq as Heq _ _. apply Nat2Z.inj in Heq. subst. set_solver.
    - destruct (integrate_total st q e Hst) as (st1 & pic & -> & Hst1 & Hq). rewrite bind_Ok.
      destruct (IH A st1 last Hst1) as (st2 & last2 & A2 & E2 & Hd2 & Hsub & Hall).
      { unfold tile_for. by rewrite Hq. }
      exists st2, last2, A2. split_and!; try done.
      intros p' [Heq|Hin]%elem_of_cons; [congruence|by apply Hall].
  Qed.

  (** Once every pass named by the bitmap is held, the whole picture is drawn. *)
Lemma delivered_complete A last t :
    delivered A last t →
    (∀ p, (p < CDF53_PASS_COUNT)%nat → Z.testbit (present_of c) (Z.of_nat p) = true → p ∈ A) →
    ∃ pic, last = Some pic ∧ picture 14 = Ok pic.
  Proof using Hlen Hc.
    intros ((_ & _ & _ & _ & Hr & Hpr) & Hd & H14) Hall.
    assert (0%nat ∈ A) as H0.
    { apply Hall; [unfold CDF53_PASS_COUNT; lia|]. apply present_of_bit0. }
    rewrite decide_True in Hpr by done.
    destruct (resolved_prefix_spec (te_received t) (te_present_passes t)) as (Hle & _ & Hstop).
    assert (prefix_len t = 14%nat) as Hk.
    { unfold prefix_len. destruct (decide (resolved_prefix (te_received t) (te_present_passes t) < 14)%nat)
        as [Hlt|]; [|lia]. specialize (Hstop Hlt). unfold resolved in Hstop.
      rewrite Hr, Hpr in Hstop. apply orb_false_iff in Hstop as [Hout Hpres].
      apply bool_decide_eq_false in Hout. apply negb_false_iff in Hpres.
      rewrite Hpr in Hlt. exfalso. by apply Hout, Hall. }
    specialize (H14 Hk). unfold drawn_ok in Hd. by rewrite H14 in Hd.
  Qed.
End delivery.

(** ** The tile arrives exactly *)

(** The tile as the screen shows it: RGBA, opaque. *)
Definition rgba_of_tile (t : list Z) : list Z :=
  concat ((λ px, [at_ t (px * 4 + 2); at_ t (px * 4 + 1); at_ t (px * 4); 255]) <$> seq 0 (32 * 32)).

Lemma rgba_of_bgr_concat (f : nat → list Z) l :
  (∀ px, length (f px) = 3%nat) →
  rgba_of_bgr (concat (f <$> l)) = concat ((λ px, rgba_of_bgr (f px)) <$> l).
Proof.
  intros Hf. induction l as [|px l IH]; [done|]. rewrite !fmap_cons. cbn [concat].
  specialize (Hf px). destruct (f px) as [|b [|g [|r [|]]]]; try done.
  cbn [app rgba_of_bgr]. by rewrite IH.
Qed.

Lemma rgba_of_bgr_app n a b : length a = (n * 3)%nat →
  rgba_of_bgr (a ++ b) = rgba_of_bgr a ++ rgba_of_bgr b.
Proof.
  revert a. induction n as [|n IH]; intros a H; [by destruct a|].
  destruct a as [|x [|y [|z a]]]; cbn in H; try lia. cbn [app rgba_of_bgr].
  rewrite IH by lia. done.
Qed.

(** Writing row by row is converting the whole tile. *)
Lemma rows_whole n (bgr : list Z) :
  length bgr = (n * 96)%nat →
  concat ((λ y, rgba_of_bgr (take 96 (drop (y * 96) bgr))) <$> seq 0 n) = rgba_of_bgr bgr.
Proof.
  revert bgr. induction n as [|n IH]; intros bgr H; [by destruct bgr|].
  cbn [seq]. rewrite fmap_cons. cbn [concat]. rewrite Nat.mul_0_l, drop_0.
  trans (rgba_of_bgr (take 96 bgr ++ drop 96 bgr)); [|by rewrite take_drop].
  rewrite (rgba_of_bgr_app 32) by lens. f_equal.
  rewrite <-IH by lens. rewrite <-fmap_S_seq, <-list_fmap_compose. f_equal.
  apply list_fmap_ext. intros i y _. cbn [compose]. rewrite drop_drop.
  do 3 f_equal.
Qed.

Lemma write_strip_alpha t : bgr_vec (strip_alpha t) = Ok (rgba_of_tile t).
Proof.
  assert (length (strip_alpha t) = (1024 * 3)%nat) as Hl.
  { unfold strip_alpha. rewrite (length_concat_fixed _ 3); [by rewrite length_seq|].
    intros px. by rewrite length_fmap, length_seq. }
  rewrite bgr_vec_rows by done.
  rewrite rows_whole by (by rewrite Hl). unfold strip_alpha, rgba_of_tile.
  rewrite rgba_of_bgr_concat by (intros px; by rewrite length_fmap, length_seq).
  apply (f_equal (λ l, Ok (concat l))), list_fmap_ext.
  intros i px _. cbn. by rewrite Nat.add_0_r.
Qed.

Lemma sparse_pass_in c p payload :
  (p, payload) ∈ sparse_passes c ↔
  ∃ i, (i < CDF53_PASS_COUNT)%nat ∧ p = Z.of_nat i ∧ Z.testbit (present_of c) (Z.of_nat i) = true ∧
       payload = pass_payload (present_of c) (planes_of c i) i.
Proof.
  unfold sparse_passes. rewrite list_elem_of_omap. split.
  - intros (i & Hi%elem_of_seq & H). exists i.
    rewrite Z.shiftl_1_l in H. pose proof (bit_set (present_of c) (Z.of_nat i) ltac:(lia)) as Hb.
    destruct (_ =? 0); [done|]. injection H as <- <-. split_and!; [lia|done|done|done].
  - intros (i & Hi & -> & Hb & ->). exists i. split; [apply elem_of_seq; lia|].
    rewrite Z.shiftl_1_l. rewrite <-bit_set in Hb by lia. by destruct (_ =? 0).
Qed.

Lemma prevalidate_sparse c g i :
  (i < CDF53_PASS_COUNT)%nat →
  prevalidate_cdf53 (pass_payload (present_of c) (planes_of c i) i) g (Z.of_nat i)
  = Ok (accepted c (present_of c) g i).
Proof.
  intros Hi. apply prevalidate_pass_payload; [|apply present_of_bit0|done].
  pose proof (present_of_range c). widths. lia.
Qed.

Lemma encode_passes_sparse_ok c :
  length c = CDF53_TOTAL_COEFFS → encode_passes_sparse c = Ok (present_of c, sparse_passes c).
Proof. intros Hl. unfold encode_passes_sparse. rewrite Hl, Nat.eqb_refl. done. Qed.

(** C1: Progressive delivery is exact.  The sparse passes of a tile arrive in any
    order, with duplicates, interleaved with arbitrary accepted passes of other
    tiles, at an accumulator that holds nothing of this generation: nothing
    panics, and once every pass that was sent has arrived, the last picture
    drawn for the tile is the tile itself, opaque, byte for byte. *)
Theorem sparse_delivery_exact t c present passes g pos st evs :
  bytes t → length t = (32 * 32 * 4)%nat →
  forward t = Ok c → encode_passes_sparse c = Ok (present, passes) →
  wf_tiles st → fresh_for g (st !! pos) →
  (∀ e, (pos, e) ∈ evs → ∃ p payload, (p, payload) ∈ passes ∧ prevalidate_cdf53 payload g p = Ok e) →
  (∀ p payload, (p, payload) ∈ passes → ∃ e, (pos, e) ∈ evs ∧ prevalidate_cdf53 payload g p = Ok e) →
  ∃ st', deliver st pos None evs = Ok (st', Some (rgba_of_tile t)).
Proof.
  intros Ht Hl Hfwd Henc Hst Hfresh Hsound Hall.
  rewrite forward_ok in Hfwd by done. apply Ok_inj in Hfwd.
  assert (length c = CDF53_TOTAL_COEFFS) as Hlc by (subst c; by rewrite !length_app, !length_coeffs_of).
  assert (Forall (λ x, Z.abs x < 2 ^ 13) c) as Hc by (subst c; by apply coeffs_lt).
  rewrite encode_passes_sparse_ok in Henc by done. apply Ok_inj in Henc as [= <- <-].
  destruct (deliver_holds c g Hlc Hc evs pos) with (A := @nil nat) (st := st) (last := @None (list Z))
    as (st' & last' & A' & E & Hdel & _ & Hin); [|done| |].
  - apply Forall_forall. intros [q e] He ->. destruct (Hsound e He) as (p & payload & Hp & Hpv).
    apply sparse_pass_in in Hp as (i & Hi & -> & _ & ->). exists i. split; [done|].
    rewrite prevalidate_sparse in Hpv by done. by apply Ok_inj in Hpv.
  - destruct (holds_blank c g (st !! pos) Hfresh) as [Hh Hd]. split_and!; [done|done|].
    intros Hk. destruct (resolved_prefix_spec (te_received (tile_for g st pos))
      (te_present_passes (tile_for g st pos))) as (_ & Hres & _).
    assert (resolved (te_received (tile_for g st pos)) (te_present_passes (tile_for g st pos)) 0 = true)
      as Hr0 by (apply Hres; unfold prefix_len in Hk; rewrite Hk; lia).
    destruct Hh as (_ & _ & _ & _ & Hr & Hp). unfold resolved in Hr0. fold (tile_for g st pos) in *.
    rewrite Hr, Hp in Hr0. done.
  - destruct (delivered_complete c g Hlc Hc A' last' _ Hdel) as (pic & -> & Hpic).
    { intros i Hi Hb. apply Hin. destruct (Hall (Z.of_nat i) (pass_payload (present_of c) (planes_of c i) i))
        as (e & He & Hpv); [apply sparse_pass_in; eauto|].
      rewrite prevalidate_sparse in Hpv by done. by apply Ok_inj in Hpv as <-. }
    exists st'. rewrite E. unfold picture in Hpic. change 14%nat with CDF53_PASS_COUNT in Hpic.
    rewrite approx_all_exact in Hpic by done. rewrite <-Hfwd, inverse_coeffs in Hpic by done.
    rewrite bind_Ok, write_strip_alpha in Hpic. apply Ok_inj in Hpic. by subst pic.
Qed.

(** A delivery of the gradient tile: its passes in reverse order, each twice,
    with a pass of a neighbouring tile in between. *)
Definition gradient_coeffs : list Z :=
  coeffs_of gradient_tile 0 ++ coeffs_of gradient_tile 1 ++ coeffs_of gradient_tile 2.

Definition gradient_arrivals : list ((Z * Z) * PrevalidatedCdf53) :=
  (λ '(p, _), ((3, 4), accepted gradient_coeffs (present_of gradient_coeffs) 5 (Z.to_nat p)))
    <$> reverse (sparse_passes gradient_coeffs).

Lemma gradient_forward : forward gradient_tile = Ok gradient_coeffs.
Proof. exact (forward_ok gradient_tile gradient_tile_length). Qed.

Lemma gradient_coeffs_length : length gradient_coeffs = CDF53_TOTAL_COEFFS.
Proof. unfold gradient_coeffs. by rewrite !length_app, !length_coeffs_of. Qed.

Lemma gradient_arrival_iff e :
  ((3, 4), e) ∈ gradient_arrivals ↔
  ∃ p payload, (p, payload) ∈ sparse_passes gradient_coeffs ∧ prevalidate_cdf53 payload 5 p = Ok e.
Proof.
  unfold gradient_arrivals. rewrite list_elem_of_fmap. split.
  - intros ([p payload] & Heq & Hin). rewrite elem_of_reverse in Hin.
    exists p, payload. split; [done|]. apply sparse_pass_in in Hin as (i & Hi & -> & _ & ->).
    rewrite prevalidate_sparse by done. rewrite Nat2Z.id in Heq. by injection Heq as ->.
  - intros (p & payload & Hin & Hpv). exists (p, payload). rewrite elem_of_reverse.
    split; [|done]. apply sparse_pass_in in Hin as (i & Hi & -> & _ & ->).
    rewrite prevalidate_sparse in Hpv by done. rewrite Nat2Z.id. by apply Ok_inj in Hpv as <-.
Qed.

Lemma twice_around {A B} (l : list (A * B)) (y : A * B) x e :
  (x, e) ∈ l ++ [y] ++ l → y.1 ≠ x → (x, e) ∈ l.
Proof. rewrite !elem_of_app, list_elem_of_singleton. intros [?|[<-|?]]; done. Qed.

Lemma sparse_delivery_exact_witness :
  ∃ st', deliver ∅ (3, 4) None
    (gradient_arrivals ++ [((2, 4), accepted gradient_coeffs 1 7 0)] ++ gradient_arrivals)
    = Ok (st', Some (rgba_of_tile gradient_tile)).
Proof.
  apply (sparse_delivery_exact gradient_tile gradient_coeffs _ _ 5 (3, 4) ∅ _
    gradient_tile_bytes gradient_tile_length gradient_forward
    (encode_passes_sparse_ok _ gradient_coeffs_length)).
  - intros pos t H. discriminate H.
  - exact I.
  - intros e He. apply gradient_arrival_iff, (twice_around _ _ _ _ He). discriminate.
  - intros p payload Hin. destruct (proj1 (sparse_pass_in _ _ _) Hin) as (i & Hi & -> & _ & ->).
    exists (accepted gradient_coeffs (present_of gradient_coeffs) 5 i).
    split; [|by apply prevalidate_sparse]. apply elem_of_app. left.
    apply gradient_arrival_iff. eexists _, _. split; [exact Hin|]. by apply prevalidate_sparse.
Defined.

(** The accumulator is total and tiles are independent: from any reachable
    state, integrating any pass at one position succeeds, keeps every tile's
    fourteen plane slots, and leaves all other positions as they were. *)
Theorem integrate_isolated st pos e :
  wf_tiles st →
  ∃ st' pic, integrate st pos e = Ok (st', pic) ∧ wf_tiles st' ∧
             ∀ q, q ≠ pos → st' !! q = st !! q.
Proof. apply integrate_total. Qed.

Lemma integrate_isolated_witness :
  ∃ st' pic, integrate ∅ (0, 0) (accepted [] 1 0 0) = Ok (st', pic) ∧ wf_tiles st' ∧
             ∀ q, q ≠ (0, 0) → st' !! q = (∅ : Cdf53TileState) !! q.
Proof. apply (integrate_isolated ∅ (0, 0) (accepted [] 1 0 0)). by intros pos t H. Defined.
