(* ===== verification/PalRle.v ===== *)
(** * The palette codec ([ghostframe-protocol/src/codec/pal_rle.rs], encoder and
      reference decoder; [ghostframe-client-core/src/pal_rle_decode.rs] and
      [palette_shadow.rs], the client)

    A tile of at most sixteen colours travels as a palette id and 1024 nibbles,
    run-length coded or raw; the palette itself is bundled the first time and
    remembered by the client afterwards. *)

From Stdlib Require Import ZArith Lia.
From stdpp Require Import base option list numbers sets.
From S2P Require Import Prelude Prevalidate.

Local Open Scope Z_scope.

(** ** Encoder definitions *)

Definition MAX_PALETTE_COUNT : nat := 16.
Definition PALETTE_TABLE_SLOTS : nat := 256.
Definition MAX_PAL_RLE_PAYLOAD : nat := 2 + 1 + MAX_PALETTE_COUNT * 4 + 1024.

(** Sixteen BGRA quads, of which the first [pe_count] mean something. *)
Record PaletteEntry := { pe_colors : list (list Z); pe_count : Z }.

#[export] Instance PaletteEntry_eq_dec : EqDecision PaletteEntry.
Proof. solve_decision. Defined.

Definition PaletteEntry_default : PaletteEntry :=
  {| pe_colors := replicate MAX_PALETTE_COUNT [0; 0; 0; 0]; pe_count := 0 |}.

(** [[byte & 0x0F, byte >> 4]], for every byte *)
Definition nibbles_of (packed : list Z) : list Z :=
  concat ((λ b, [Z.land b 0x0F; Z.shiftr b 4]) <$> packed).

(** [(cur_idx << 4) | (cur_run - 1)] *)
Definition run_byte (cur_idx cur_run : Z) : Z := nibbles cur_idx (cur_run - 1).

Fixpoint encode_indices_go (nibs : list Z) (cur_idx cur_run : Z) : list Z :=
  match nibs with
  | [] => [run_byte cur_idx cur_run]
  | idx :: nibs =>
      if (idx =? cur_idx) && (cur_run <? 16)
      then encode_indices_go nibs cur_idx (cur_run + 1)
      else run_byte cur_idx cur_run :: encode_indices_go nibs idx 1
  end.

Definition encode_pal_rle_indices (packed_indices : list Z) : list Z :=
  encode_indices_go (nibbles_of packed_indices) (Z.land (default 0 (packed_indices !! 0%nat)) 0x0F) 0.

Definition encode_pal_rle_payload (packed_indices : list Z) (palette : PaletteEntry)
    (palette_id : Z) (bundled : bool) : outcome unit (list Z) :=
  block ← (if bundled
           then colors ← slice palette.(pe_colors) 0 (Z.to_nat palette.(pe_count));
                Ok (palette.(pe_count) :: concat colors)
           else Ok []);
  Ok ([if bundled then 0x01 else 0x00; palette_id] ++ block ++ encode_pal_rle_indices packed_indices).

Definition encode_pal_rle_payload_indices_raw (packed_indices : list Z) (palette_id : Z) : list Z :=
  [0x02; palette_id] ++ packed_indices.

Definition palette_fingerprint_bgra (bgra : list Z) : Z :=
  foldl (λ acc b, u32 (u32 (acc * 0x01000193) + b))
        (u32 (Z.shiftl (Z.land (Z.of_nat (length bgra / 4)) 0xff) 24)) bgra.

Definition palette_fingerprint (p : PaletteEntry) : outcome unit Z :=
  let count := Nat.min (Z.to_nat p.(pe_count)) MAX_PALETTE_COUNT in
  colors ← slice p.(pe_colors) 0 count;
  Ok (palette_fingerprint_bgra (concat colors)).

(** ** The reference decoder *)

Inductive PalRleDecodeError :=
| Truncated (needed offset got : nat)
| UncachedPalette (id : Z)
| IndexOutOfRange (index count : Z)
| PixelCountMismatch (decoded : Z)
| PaletteCountOutOfRange (count : Z).

Record DecodedPalRle := {
  dp_pixels : list Z;
  dp_updated_palette : option (Z * PaletteEntry);
}.

Definition needed (payload : list Z) (n off : nat) : outcome PalRleDecodeError unit :=
  if (length payload <? off + n)%nat then Err (Truncated n off (length payload - off)) else Ok tt.

(** The bundled palette block: [p.colors[i].copy_from_slice(&payload[cursor..cursor + 4])]. *)
Definition read_palette (payload : list Z) (cursor : nat)
    : outcome PalRleDecodeError (PaletteEntry * nat) :=
  _ ← needed payload 1 cursor;
  count ← idx payload cursor;
  let cursor := (cursor + 1)%nat in
  if (MAX_PALETTE_COUNT <? Z.to_nat count)%nat || (count =? 0)
  then Err (PaletteCountOutOfRange count) else
  _ ← needed payload (Z.to_nat count * 4) cursor;
  colors ← collect (λ i, slice payload (cursor + i * 4) (cursor + i * 4 + 4)) (seq 0 (Z.to_nat count));
  Ok ({| pe_count := count;
         pe_colors := colors ++ drop (Z.to_nat count) PaletteEntry_default.(pe_colors) |},
      (cursor + Z.to_nat count * 4)%nat).

(** Alpha 0 becomes opaque. *)
Definition opaque (color : list Z) : list Z :=
  if default 0 (color !! 3%nat) =? 0 then <[3%nat := 255]> color else color.

(** The pixels written so far are the prefix of the output; the rest is zero. *)
Fixpoint expand_pixels (rle : list Z) (palette : PaletteEntry) (pixel_idx : Z)
    : outcome PalRleDecodeError (list Z * Z) :=
  match rle with
  | [] => Ok ([], pixel_idx)
  | b :: rle =>
      let index := Z.land (Z.shiftr b 4) 0x0F in
      let run_len := Z.land b 0x0F + 1 in
      if palette.(pe_count) <=? index
      then Err (IndexOutOfRange index palette.(pe_count)) else
      color ← idx palette.(pe_colors) (Z.to_nat index);
      if 1024 <? pixel_idx + run_len
      then Err (PixelCountMismatch (pixel_idx + run_len)) else
      '(pixels, n) ← expand_pixels rle palette (pixel_idx + run_len);
      Ok (concat (replicate (Z.to_nat run_len) (opaque color)) ++ pixels, n)
  end.

Definition decode_pal_rle (payload : list Z) (cached_palette : option PaletteEntry)
    : outcome PalRleDecodeError DecodedPalRle :=
  _ ← needed payload 2 0;
  flags ← idx payload 0;
  palette_id ← idx payload 1;
  let bundled := negb (Z.land flags 0x01 =? 0) in
  '(palette_owned, cursor) ←
    (if bundled then '(p, c) ← read_palette payload 2; Ok (Some p, c) else Ok (None, 2%nat));
  palette ← (match palette_owned, cached_palette with
             | Some p, _ => Ok p
             | None, Some p => Ok p
             | None, None => Err (UncachedPalette palette_id)
             end);
  '(pixels, pixel_idx) ← expand_pixels (drop cursor payload) palette 0;
  if negb (pixel_idx =? 1024) then Err (PixelCountMismatch pixel_idx) else
  Ok {| dp_pixels := pixels;
        dp_updated_palette := (λ p, (palette_id, p)) <$> palette_owned |}.

(** ** The client *)

(** [counts[id] == 0] means the slot is not populated. *)
Abbreviation PaletteShadow := (list Z) (only parsing).
Definition shadow_new : PaletteShadow := replicate PALETTE_TABLE_SLOTS 0.
Definition shadow_count (s : PaletteShadow) (id : Z) : Z := default 0 (s !! Z.to_nat id).
Definition shadow_has (s : PaletteShadow) (id : Z) : bool := negb (shadow_count s id =? 0).
Definition shadow_put (s : PaletteShadow) (id count : Z) : PaletteShadow :=
  if (1 <=? count) && (count <=? 16) then <[Z.to_nat id := count]> s else s.
Definition shadow_clear (s : PaletteShadow) : PaletteShadow := replicate PALETTE_TABLE_SLOTS 0.

Inductive PalRleVariant := Bundled | Thin | IndicesRaw.
#[export] Instance PalRleVariant_eq_dec : EqDecision PalRleVariant.
Proof. solve_decision. Defined.

Record PrevalidatedPalRle := {
  pv_variant : PalRleVariant;
  pv_wire_flags : Z;
  pv_palette_id : Z;
  pv_count : Z;
  pv_indices : list Z;
  pv_palette_upsert : option (list Z);
}.

(** One pixel's nibble, low nibble first. *)
Definition set_nibble (indices : list Z) (pixel_idx : nat) (v : Z) : list Z :=
  alter (λ b, if (pixel_idx mod 2 =? 0)%nat
              then Z.lor (Z.land b 0xF0) v
              else Z.lor (Z.land b 0x0F) (u8 (Z.shiftl v 4)))
        (pixel_idx / 2)%nat indices.

(** [for _ in 0..run_len] *)
Fixpoint write_run (indices : list Z) (pixel_idx : nat) (v : Z) (run_len : nat)
    : option (list Z * nat) :=
  match run_len with
  | O => Some (indices, pixel_idx)
  | S run_len =>
      if (1024 <=? pixel_idx)%nat then None
      else write_run (set_nibble indices pixel_idx v) (pixel_idx + 1) v run_len
  end.

Fixpoint expand_indices_go (rle : list Z) (indices : list Z) (pixel_idx : nat) : option (list Z) :=
  match rle with
  | [] => if negb (pixel_idx =? 1024)%nat then None else Some indices
  | b :: rle =>
      '(indices, pixel_idx) ←
        write_run indices pixel_idx (Z.land (Z.shiftr b 4) 0x0F) (Z.to_nat (Z.land b 0x0F + 1));
      expand_indices_go rle indices pixel_idx
  end.

Definition expand_rle_to_indices (rle_bytes : list Z) : option (list Z) :=
  expand_indices_go rle_bytes (replicate 512 0) 0.

Definition prevalidate_pal_rle (payload : list Z) (shadow : PaletteShadow)
    : outcome DecodeErrorCode PrevalidatedPalRle :=
  if (length payload <? 2)%nat then Err PayloadTooShort else
  flags ← idx payload 0;
  palette_id ← idx payload 1;
  let bundled := negb (Z.land flags 0x01 =? 0) in
  let indices_raw := negb (Z.land flags 0x02 =? 0) in
  if indices_raw then
    if (length payload <? 2 + 512)%nat then Err PayloadTooShort else
    if negb (shadow_has shadow palette_id) then Err ThinUncachedPalette else
    indices ← slice payload 2 (2 + 512);
    Ok {| pv_variant := IndicesRaw; pv_wire_flags := flags; pv_palette_id := palette_id;
          pv_count := shadow_count shadow palette_id; pv_indices := indices;
          pv_palette_upsert := None |}
  else
    '(count, palette_upsert, cursor) ←
      (if bundled then
         if (length payload <=? 2)%nat then Err BundledTruncated else
         count ← idx payload 2;
         if negb ((1 <=? count) && (count <=? 16)) then Err CountOutOfRange else
         let palette_bytes := (Z.to_nat count * 4)%nat in
         if (length payload <? 3 + palette_bytes)%nat then Err BundledTruncated else
         up ← slice payload 3 (3 + palette_bytes);
         Ok (count, Some up, 3 + palette_bytes)%nat
       else if negb (shadow_has shadow palette_id) then Err ThinUncachedPalette
       else Ok (shadow_count shadow palette_id, None, 2%nat));
    rle ← slice payload cursor (length payload);
    match expand_rle_to_indices rle with
    | None => Err PayloadTooShort
    | Some indices =>
        Ok {| pv_variant := if bundled then Bundled else Thin; pv_wire_flags := flags;
              pv_palette_id := palette_id; pv_count := count; pv_indices := indices;
              pv_palette_upsert := palette_upsert |}
    end.

(** [palettes: [[[u8; 4]; 16]; 256]] *)
Abbreviation Palettes := (list (list (list Z))) (only parsing).

(** [slot[i] = [b, g, r, a]] for the first [count] quads of [upsert]. *)
Definition upsert_slot (slot : list (list Z)) (upsert : list Z) (count : nat) : outcome DecodeErrorCode (list (list Z)) :=
  quads ← collect (λ i, b ← idx upsert (i * 4); g ← idx upsert (i * 4 + 1);
                        r ← idx upsert (i * 4 + 2); a ← idx upsert (i * 4 + 3);
                        Ok [b; g; r; a]) (seq 0 count);
  _ ← assert_ (count <=? length slot)%nat;
  Ok (quads ++ drop count slot).

Definition decode_pixel (slot : list (list Z)) (indices : list Z) (pixel_idx : nat)
    : outcome DecodeErrorCode (list Z) :=
  b ← idx indices (pixel_idx / 2);
  let index := if (pixel_idx mod 2 =? 0)%nat then Z.land b 0x0F else Z.land (Z.shiftr b 4) 0x0F in
  bgra ← idx slot (Z.to_nat index);
  r ← idx bgra 2; g ← idx bgra 1; b ← idx bgra 0;
  Ok [r; g; b; 255].

Definition decode_pal_rle_tile (payload : list Z) (shadow : PaletteShadow) (palettes : Palettes)
    : outcome DecodeErrorCode (PaletteShadow * Palettes * list Z) :=
  v ← prevalidate_pal_rle payload shadow;
  let id := Z.to_nat v.(pv_palette_id) in
  '(shadow, palettes) ←
    match v.(pv_palette_upsert) with
    | Some upsert =>
        slot ← idx palettes id;
        slot ← upsert_slot slot upsert (Z.to_nat v.(pv_count));
        Ok (shadow_put shadow v.(pv_palette_id) v.(pv_count), <[id := slot]> palettes)
    | None => Ok (shadow, palettes)
    end;
  slot ← idx palettes id;
  rgba ← collect (decode_pixel slot v.(pv_indices)) (seq 0 1024);
  Ok (shadow, palettes, concat rgba).

(** ** Runs of nibbles *)

Definition nibble (v : Z) : Prop := 0 ≤ v < 16.

(** The pixels an RLE stream stands for. *)
Definition runs_of (rle : list Z) : list Z :=
  concat ((λ b, replicate (Z.to_nat (Z.land b 0x0F + 1)) (Z.land (Z.shiftr b 4) 0x0F)) <$> rle).

Lemma run_byte_parts i r :
  nibble i → 1 ≤ r ≤ 16 →
  byte (run_byte i r) ∧ Z.land (run_byte i r) 0x0F + 1 = r ∧ Z.land (Z.shiftr (run_byte i r) 4) 0x0F = i.
Proof.
  intros Hi Hr. unfold nibble, run_byte in *. rewrite nibbles_val by lia.
  rewrite !land_15, shiftr_div by lia. change (2 ^ 4) with 16. widths. dlia.
Qed.

Lemma runs_of_cons b rle :
  runs_of (b :: rle) = replicate (Z.to_nat (Z.land b 0x0F + 1)) (Z.land (Z.shiftr b 4) 0x0F) ++ runs_of rle.
Proof. done. Qed.

Lemma encode_indices_go_runs nibs i r :
  Forall nibble nibs → nibble i → 1 ≤ r ≤ 16 →
  runs_of (encode_indices_go nibs i r) = replicate (Z.to_nat r) i ++ nibs
  ∧ bytes (encode_indices_go nibs i r)
  ∧ (length (encode_indices_go nibs i r) ≤ 1 + length nibs)%nat.
Proof.
  intros Hn. revert i r. induction Hn as [|n nibs Hn _ IH]; intros i r Hi Hr; cbn [encode_indices_go].
  - destruct (run_byte_parts i r Hi Hr) as (Hb & Hl & Hh).
    rewrite runs_of_cons, Hl, Hh. split_and!; [done|by apply Forall_singleton|done].
  - destruct ((n =? i) && (r <? 16)) eqn:E.
    + apply andb_true_iff in E as [->%Z.eqb_eq E%Z.ltb_lt].
      destruct (IH i (r + 1) Hi) as (-> & Hb & Hlen); [lia|]. split_and!; [|done|cbn [length]; lia].
      replace (Z.to_nat (r + 1)) with (Z.to_nat r + 1)%nat by lia.
      by rewrite replicate_add, <-app_assoc.
    + destruct (run_byte_parts i r Hi Hr) as (Hb & Hl & Hh).
      destruct (IH n 1 Hn) as (Hrun & Hbs & Hlen); [lia|].
      rewrite runs_of_cons, Hl, Hh, Hrun. split_and!; [done|by constructor|cbn [length]; lia].
Qed.

Lemma nibbles_of_nibble packed : bytes packed → Forall nibble (nibbles_of packed).
Proof.
  intros Hp. unfold nibbles_of. apply Forall_concat, Forall_fmap.
  eapply Forall_impl; [exact Hp|]. intros b Hb. cbn [compose].
  rewrite land_15, shiftr_div by lia. change (2 ^ 4) with 16. unfold nibble. widths.
  repeat constructor; dlia.
Qed.

Lemma length_nibbles_of packed : length (nibbles_of packed) = (2 * length packed)%nat.
Proof. unfold nibbles_of. by rewrite (length_concat_fixed _ 2). Qed.

(** The first nibble starts the first run, so no run is ever empty. *)
Lemma encode_indices_first n nibs : encode_indices_go (n :: nibs) n 0 = encode_indices_go nibs n 1.
Proof. cbn [encode_indices_go]. by rewrite Z.eqb_refl. Qed.

Lemma encode_pal_rle_indices_spec packed :
  bytes packed → packed ≠ [] →
  runs_of (encode_pal_rle_indices packed) = nibbles_of packed
  ∧ bytes (encode_pal_rle_indices packed)
  ∧ (length (encode_pal_rle_indices packed) ≤ 2 * length packed)%nat.
Proof.
  intros Hp Hne. destruct packed as [|b packed]; [done|].
  pose proof (nibbles_of_nibble _ Hp) as Hn. pose proof (length_nibbles_of (b :: packed)) as Hl.
  unfold encode_pal_rle_indices. change (default 0 ((b :: packed) !! 0%nat)) with b.
  unfold nibbles_of in *. rewrite fmap_cons in *. cbn [concat app] in *.
  apply Forall_cons in Hn as [H0 Hn]. rewrite encode_indices_first.
  destruct (encode_indices_go_runs _ (Z.land b 15) 1 Hn H0) as (-> & Hb & Hlen); [lia|].
  split_and!; [done|done|]. cbn [length] in *. lia.
Qed.

(** ** Writing nibbles back *)

(** The nibble of pixel [j]. *)
Definition pixel_at (indices : list Z) (j : nat) : Z :=
  let b := default 0 (indices !! (j / 2)%nat) in
  if (j mod 2 =? 0)%nat then b mod 16 else b / 16.

Lemma nibble_merge b v : byte b → nibble v →
  (Z.lor (Z.land b 0xF0) v = b / 16 * 16 + v) ∧
  (Z.lor (Z.land b 0x0F) (u8 (Z.shiftl v 4)) = v * 16 + b mod 16).
Proof.
  intros Hb Hv. unfold nibble in Hv. split.
  - assert (Z.land b 0xF0 = Z.shiftl (b / 16) 4) as ->.
    { apply Z.bits_inj'. intros n Hn. change (b / 16) with (b / 2 ^ 4). rewrite <-shiftr_div by lia.
      rewrite Z.land_spec. destruct (decide (n < 4)) as [Hlt|Hge].
      - rewrite Z.shiftl_spec_low by lia. change 0xF0 with (Z.shiftl 15 4).
        rewrite Z.shiftl_spec_low by lia. apply andb_false_r.
      - rewrite Z.shiftl_spec, Z.shiftr_spec by lia. replace (n - 4 + 4) with n by lia.
        change 0xF0 with (Z.shiftl 15 4). rewrite (Z.shiftl_spec 15) by lia.
        destruct (decide (n < 8)) as [H8|H8].
        + change 15 with (Z.ones 4). rewrite Z.ones_spec_low by lia. apply andb_true_r.
        + rewrite <-(Z.mod_small b (2 ^ 8)) by exact Hb.
          rewrite Z.mod_pow2_bits_high by lia. done. }
    rewrite lor_shiftl by lia. lia.
  - rewrite Z.lor_comm, land_15. rewrite (wrap_small 8) by (rewrite Z.shiftl_mul_pow2 by lia; widths; lia).
    rewrite lor_shiftl by (widths; dlia). lia.
Qed.

Lemma set_nibble_spec indices k v :
  bytes indices → (k < 2 * length indices)%nat → nibble v →
  bytes (set_nibble indices k v) ∧ length (set_nibble indices k v) = length indices ∧
  ∀ j, pixel_at (set_nibble indices k v) j = if decide (j = k) then v else pixel_at indices j.
Proof.
  intros Hb Hk Hv.
  destruct (lookup_lt_is_Some_2 indices (k / 2)) as [b Hbk]; [ndlia|].
  pose proof (Forall_lookup_1 _ _ _ _ Hb Hbk) as Hbb. destruct (nibble_merge b v Hbb Hv) as [Hlo Hhi].
  unfold set_nibble, nibble in *. split_and!.
  - apply Forall_alter; [done|]. intros b' Hb' _. rewrite Hbk in Hb'. injection Hb' as <-.
    destruct (_ =? _)%nat; rewrite ?Hlo, ?Hhi; widths; dlia.
  - by rewrite length_alter.
  - intros j. unfold pixel_at. destruct (decide (j / 2 = k / 2)%nat) as [Heq|Hne].
    + rewrite Heq, list_lookup_alter_eq, Hbk. cbn [fmap option_fmap option_map default].
      destruct (Nat.eqb_spec (k mod 2) 0) as [Ek|Ek], (Nat.eqb_spec (j mod 2) 0) as [Ej|Ej];
        case_decide; try (exfalso; ndlia); cbn; rewrite ?Hlo, ?Hhi; widths; dlia.
    + rewrite list_lookup_alter_ne by done. rewrite decide_False; [done|]. intros ->. done.
Qed.

Lemma write_run_spec n : ∀ indices k v,
  bytes indices → length indices = 512%nat → nibble v → (k ≤ 1024)%nat →
  if decide (k + n ≤ 1024)%nat
  then ∃ indices', write_run indices k v n = Some (indices', (k + n)%nat) ∧
         bytes indices' ∧ length indices' = 512%nat ∧
         ∀ j, pixel_at indices' j = if decide (k ≤ j < k + n)%nat then v else pixel_at indices j
  else write_run indices k v n = None.
Proof.
  induction n as [|n IH]; intros indices k v Hb Hl Hv Hk; cbn [write_run].
  - rewrite decide_True by lia. exists indices. rewrite Nat.add_0_r. split_and!; try done.
    intros j. by rewrite decide_False by lia.
  - destruct (Nat.leb_spec 1024 k) as [Hge|Hlt]; [by rewrite decide_False by lia|].
    destruct (set_nibble_spec indices k v Hb) as (Hb' & Hl' & Hp'); [lia|done|].
    specialize (IH (set_nibble indices k v) (k + 1)%nat v Hb' ltac:(lia) Hv ltac:(lia)).
    destruct (decide (k + 1 + n ≤ 1024)%nat) as [Hle|Hgt].
    + rewrite decide_True by lia. destruct IH as (ix & -> & Hbx & Hlx & Hpx).
      exists ix. split_and!; [do 2 f_equal; lia|done|done|]. intros j. rewrite Hpx, Hp'.
      repeat case_decide; done || lia.
    + by rewrite decide_False by lia.
Qed.

Lemma expand_indices_go_spec rle : ∀ indices k,
  bytes rle → bytes indices → length indices = 512%nat → (k ≤ 1024)%nat →
  if decide (k + length (runs_of rle) = 1024)%nat
  then ∃ indices', expand_indices_go rle indices k = Some indices' ∧
         bytes indices' ∧ length indices' = 512%nat ∧
         ∀ j, pixel_at indices' j = match runs_of rle !! (j - k)%nat with
                                    | Some v => if decide (k ≤ j)%nat then v else pixel_at indices j
                                    | None => pixel_at indices j
                                    end
  else expand_indices_go rle indices k = None.
Proof.
  induction rle as [|b rle IH]; intros indices k Hr Hb Hl Hk; cbn [expand_indices_go].
  - cbn [runs_of fmap list_fmap concat length]. rewrite Nat.add_0_r.
    destruct (Nat.eqb_spec k 1024) as [Heq|Hne]; cbn [negb]; case_decide; try lia; [|done].
    exists indices. done.
  - apply Forall_cons in Hr as [Hb0 Hr]. rewrite runs_of_cons. autorewrite with lengths.
    set (n := Z.to_nat _). set (v := Z.land (Z.shiftr b 4) 15).
    assert (nibble v) as Hv by (unfold v, nibble; rewrite land_15; dlia).
    pose proof (write_run_spec n indices k v Hb Hl Hv Hk) as Hw.
    destruct (decide (k + n ≤ 1024)%nat) as [Hle|Hgt].
    2: { rewrite Hw. by rewrite decide_False by lia. }
    destruct Hw as (ix & -> & Hbx & Hlx & Hpx). cbn [mbind option_bind].
    specialize (IH ix (k + n)%nat Hr Hbx Hlx Hle).
    destruct (decide (k + n + length (runs_of rle) = 1024)%nat) as [Heq|Hne].
    + rewrite decide_True by lia. destruct IH as (ix' & -> & Hb' & Hl' & Hp').
      exists ix'. split_and!; try done. intros j. rewrite Hp', Hpx.
      destruct (decide (j < k + n)%nat) as [Hj|Hj].
      * destruct (decide (k ≤ j)%nat) as [Hkj|Hkj].
        -- rewrite lookup_app_l by lens. rewrite lookup_replicate_2 by lia.
           rewrite (decide_True (P:=(k ≤ j < k + n)%nat)) by lia.
           destruct (runs_of rle !! _); [|done]. by rewrite decide_False by lia.
        -- replace (j - k)%nat with 0%nat by lia. replace (j - (k + n))%nat with 0%nat by lia.
           destruct (runs_of rle !! _), ((_ ++ _) !! _); by rewrite !decide_False by lia.
      * rewrite lookup_app_r by lens. autorewrite with lengths.
        replace (j - k - n)%nat with (j - (k + n))%nat by lia.
        rewrite (decide_False (P:=(k ≤ j < k + n)%nat)) by lia.
        destruct (runs_of rle !! _); [|done]. by rewrite !decide_True by lia.
    + rewrite decide_False by lia. done.
Qed.

Lemma pixel_at_nibbles indices j :
  bytes indices → (j < 2 * length indices)%nat → nibbles_of indices !! j = Some (pixel_at indices j).
Proof.
  intros Hb Hj. unfold nibbles_of, pixel_at.
  pose proof (Nat.mod_upper_bound j 2 ltac:(lia)) as Hm.
  rewrite (Nat.Div0.div_mod j 2) at 1.
  replace (2 * (j / 2) + j mod 2)%nat with (j / 2 * 2 + j mod 2)%nat by lia.
  rewrite (lookup_concat_fixed _ 2); [|by apply Forall_fmap, Forall_forall|done].
  rewrite list_lookup_fmap. destruct (lookup_lt_is_Some_2 indices (j / 2)) as [b Hbj]; [ndlia|].
  rewrite Hbj. pose proof (Forall_lookup_1 _ _ _ _ Hb Hbj). cbn [fmap option_fmap option_map mbind option_bind default].
  revert Hm. generalize (j mod 2)%nat. intros [|[|?]] Hm; [| |lia]; cbn [lookup list_lookup Nat.eqb].
  - by rewrite land_15.
  - by rewrite shiftr_div by lia.
Qed.

Lemma indices_ext (p q : list Z) :
  bytes p → bytes q → length p = length q →
  (∀ j, (j < 2 * length p)%nat → pixel_at p j = pixel_at q j) → p = q.
Proof.
  intros Hp Hq Hl Hpix. apply list_eq. intros i.
  destruct (decide (i < length p)%nat) as [Hi|Hi]; [|by rewrite !lookup_ge_None_2 by lia].
  destruct (lookup_lt_is_Some_2 p i Hi) as [a Ha], (lookup_lt_is_Some_2 q i) as [b Hb]; [lia|].
  rewrite Ha, Hb. f_equal.
  pose proof (Hpix (2 * i)%nat ltac:(lia)) as H0. pose proof (Hpix (2 * i + 1)%nat ltac:(lia)) as H1.
  unfold pixel_at in H0, H1.
  replace (2 * i / 2)%nat with i in H0 by ndlia. replace ((2 * i + 1) / 2)%nat with i in H1 by ndlia.
  replace ((2 * i) mod 2)%nat with 0%nat in H0 by ndlia.
  replace ((2 * i + 1) mod 2)%nat with 1%nat in H1 by ndlia.
  rewrite Ha, Hb in *. cbn in H0, H1. dlia.
Qed.

(** The client's expansion of the encoder's stream is the indices themselves. *)
Lemma expand_encode packed :
  bytes packed → length packed = 512%nat →
  expand_rle_to_indices (encode_pal_rle_indices packed) = Some packed.
Proof.
  intros Hb Hl. destruct (encode_pal_rle_indices_spec packed Hb) as (Hr & Hbe & _).
  { by destruct packed. }
  unfold expand_rle_to_indices.
  pose proof (expand_indices_go_spec (encode_pal_rle_indices packed) (replicate 512 0) 0 Hbe) as He.
  rewrite Hr, length_nibbles_of, Hl, decide_True in He by lia.
  destruct He as (ix & -> & Hbx & Hlx & Hpx).
  { apply Forall_replicate. widths. lia. } { apply length_replicate. } { lia. }
  f_equal. apply indices_ext; [done|done|lia|]. intros j Hj.
  rewrite Hpx, Nat.sub_0_r, pixel_at_nibbles, decide_True by (done || lia). done.
Qed.

(** ** Client state *)

Definition quad (c : list Z) : Prop := length c = 4%nat.
Definition wf_slot (slot : list (list Z)) : Prop := length slot = MAX_PALETTE_COUNT ∧ Forall quad slot.
Definition wf_client (shadow : PaletteShadow) (palettes : Palettes) : Prop :=
  length shadow = PALETTE_TABLE_SLOTS ∧ length palettes = PALETTE_TABLE_SLOTS ∧
  Forall wf_slot palettes.

(** The client has uploaded the palette the server means by [id]. *)
Definition client_knows (pal : PaletteEntry) (id : Z) (shadow : PaletteShadow) (palettes : Palettes) : Prop :=
  shadow_count shadow id = pal.(pe_count) ∧
  ∃ slot, palettes !! Z.to_nat id = Some slot ∧
          take (Z.to_nat pal.(pe_count)) slot = take (Z.to_nat pal.(pe_count)) pal.(pe_colors).

Definition wf_palette (pal : PaletteEntry) : Prop :=
  wf_slot pal.(pe_colors) ∧ 1 ≤ pal.(pe_count) ≤ 16.

(** A palette-indexed tile: 512 packed bytes that use only the palette's colours. *)
Definition wf_indices (packed : list Z) (pal : PaletteEntry) : Prop :=
  bytes packed ∧ length packed = 512%nat ∧ Forall (λ n, n < pal.(pe_count)) (nibbles_of packed).

Definition rgba_px (bgra : list Z) : list Z :=
  [default 0 (bgra !! 2%nat); default 0 (bgra !! 1%nat); default 0 (bgra !! 0%nat); 255].

(** What the tile looks like. *)
Definition paint (packed : list Z) (colors : list (list Z)) : list Z :=
  concat ((λ n, rgba_px (default [] (colors !! Z.to_nat n))) <$> nibbles_of packed).

Lemma pixel_at_nibble indices j : bytes indices → nibble (pixel_at indices j).
Proof.
  intros Hb. unfold pixel_at, nibble.
  assert (byte (default 0 (indices !! (j / 2)%nat))) as H.
  { destruct (indices !! _) eqn:E; [by apply (Forall_lookup_1 _ _ _ _ Hb E)|widths; cbn; lia]. }
  destruct (_ =? _)%nat; widths; dlia.
Qed.

Lemma decode_pixel_ok slot indices j :
  wf_slot slot → bytes indices → (j < 2 * length indices)%nat →
  decode_pixel slot indices j = Ok (rgba_px (default [] (slot !! Z.to_nat (pixel_at indices j)))).
Proof.
  intros [Hl Hq] Hb Hj. pose proof (pixel_at_nibble indices j Hb) as Hn. unfold nibble in Hn.
  destruct (lookup_lt_is_Some_2 indices (j / 2)) as [b Eb]; [ndlia|].
  pose proof (Forall_lookup_1 _ _ _ _ Hb Eb) as Hbb.
  assert ((if (j mod 2 =? 0)%nat then Z.land b 15 else Z.land (Z.shiftr b 4) 15)
          = pixel_at indices j) as Hpx.
  { unfold pixel_at. rewrite Eb, !land_15, shiftr_div by lia. cbn.
    destruct (_ =? _)%nat; [done|]. widths. dlia. }
  unfold decode_pixel. rewrite (idx_Some _ _ _ Eb), bind_Ok, Hpx.
  destruct (lookup_lt_is_Some_2 slot (Z.to_nat (pixel_at indices j))) as [c Ec].
  { rewrite Hl. unfold MAX_PALETTE_COUNT. lia. }
  rewrite (idx_Some _ _ _ Ec), bind_Ok. rewrite Ec. cbn [default from_option id].
  pose proof (Forall_lookup_1 _ _ _ _ Hq Ec) as H4. unfold quad in H4.
  destruct c as [|c0 [|c1 [|c2 [|c3 [|]]]]]; done.
Qed.

Lemma decode_pixels_paint slot indices :
  wf_slot slot → bytes indices → length indices = 512%nat →
  (rgba ← collect (decode_pixel slot indices) (seq 0 1024); Ok (concat rgba))
  = Ok (paint indices slot).
Proof.
  intros Hs Hb Hl.
  rewrite (collect_ok _ (λ j, rgba_px (default [] (slot !! Z.to_nat (pixel_at indices j))))).
  2: { intros j [_ Hj]%elem_of_seq. apply decode_pixel_ok; [done|done|lia]. }
  rewrite bind_Ok. unfold paint. apply (f_equal (λ l : list (list Z), Ok (concat l))).
  apply list_eq. intros j. rewrite !list_lookup_fmap.
  destruct (decide (j < 1024)%nat) as [Hj|Hj].
  - rewrite lookup_seq_lt by done. rewrite pixel_at_nibbles by (done || lia). done.
  - rewrite !lookup_ge_None_2; [done| |]; rewrite ?length_nibbles_of, ?length_seq; lia.
Qed.

Lemma paint_ext packed a b n :
  Forall (λ v, v < n) (nibbles_of packed) → bytes packed → take (Z.to_nat n) a = take (Z.to_nat n) b →
  paint packed a = paint packed b.
Proof.
  intros Hn Hb Hab. unfold paint. f_equal. apply list_fmap_ext. intros i v Hv.
  pose proof (Forall_lookup_1 _ _ _ _ Hn Hv) as Hlt. cbn beta in Hlt.
  pose proof (Forall_lookup_1 _ _ _ _ (nibbles_of_nibble _ Hb) Hv) as Hnb. unfold nibble in Hnb.
  rewrite <-(lookup_take_lt a (Z.to_nat n)), <-(lookup_take_lt b (Z.to_nat n)), Hab by lia. done.
Qed.

(** ** What the server sends, the client paints *)

Definition wire_payload (f : PalRleVariant) (packed : list Z) (pal : PaletteEntry) (id : Z)
    : outcome unit (list Z) :=
  match f with
  | Bundled => encode_pal_rle_payload packed pal id true
  | Thin => encode_pal_rle_payload packed pal id false
  | IndicesRaw => Ok (encode_pal_rle_payload_indices_raw packed id)
  end.

Definition wire_flags_of (f : PalRleVariant) : Z :=
  match f with Bundled => 1 | Thin => 0 | IndicesRaw => 2 end.

Lemma encode_bundled packed pal id :
  wf_palette pal →
  encode_pal_rle_payload packed pal id true =
    Ok ([1; id; pal.(pe_count)] ++ concat (take (Z.to_nat pal.(pe_count)) pal.(pe_colors))
        ++ encode_pal_rle_indices packed).
Proof.
  intros ([Hl _] & Hc). unfold encode_pal_rle_payload, MAX_PALETTE_COUNT in *.
  rewrite slice_ok by lia. cbn [mbind outcome_bind]. by rewrite Nat.sub_0_r, drop_0.
Qed.

Lemma length_concat_quads (cs : list (list Z)) : Forall quad cs → length (concat cs) = (4 * length cs)%nat.
Proof.
  induction 1 as [|c cs Hc _ IH]; [done|]. unfold quad in Hc. cbn [concat length].
  rewrite length_app, IH, Hc. lia.
Qed.

Lemma length_palette_block pal :
  wf_palette pal →
  length (concat (take (Z.to_nat pal.(pe_count)) pal.(pe_colors))) = (Z.to_nat pal.(pe_count) * 4)%nat.
Proof.
  intros ([Hl Hq] & Hc). rewrite length_concat_quads by by apply Forall_take.
  rewrite length_take, Hl. unfold MAX_PALETTE_COUNT. lia.
Qed.

Lemma prevalidate_wire f packed pal id shadow payload :
  wf_palette pal → wf_indices packed pal →
  (f = Bundled ∨ shadow_count shadow id = pal.(pe_count)) →
  wire_payload f packed pal id = Ok payload →
  prevalidate_pal_rle payload shadow =
    Ok {| pv_variant := f; pv_wire_flags := wire_flags_of f; pv_palette_id := id;
          pv_count := pal.(pe_count); pv_indices := packed;
          pv_palette_upsert :=
            match f with
            | Bundled => Some (concat (take (Z.to_nat pal.(pe_count)) pal.(pe_colors)))
            | _ => None
            end |}.
Proof.
  intros Hpal (Hb & Hl & _) Hknow Hpay. pose proof (length_palette_block pal Hpal) as Hblk.
  assert (1 ≤ pal.(pe_count) ≤ 16) as Hcnt by apply Hpal. unfold prevalidate_pal_rle.
  assert (f ≠ Bundled → shadow_has shadow id = true) as Hhas.
  { intros Hf. destruct Hknow as [?|Hk]; [done|]. unfold shadow_has. rewrite Hk.
    apply negb_true_iff, Z.eqb_neq. lia. }
  destruct f; cbn [wire_payload wire_flags_of] in *.
  - rewrite encode_bundled in Hpay by done. apply Ok_inj in Hpay as <-. cbn [app length].
    rewrite (proj2 (Nat.ltb_ge _ _)) by lia. cbn [idx lookup list_lookup mbind outcome_bind].
    change (negb (Z.land 1 1 =? 0)) with true. change (negb (Z.land 1 2 =? 0)) with false.
    cbn [andb]. rewrite (proj2 (Nat.leb_gt _ _)) by lia.
    rewrite (proj2 (Z.leb_le 1 _)), (proj2 (Z.leb_le _ 16)) by lia. cbn [andb negb].
    set (blk := concat _) in *. set (rle := encode_pal_rle_indices packed).
    rewrite (proj2 (Nat.ltb_ge _ _)) by (rewrite length_app; lia).
    change (1 :: id :: pe_count pal :: blk ++ rle) with ([1; id; pe_count pal] ++ blk ++ rle).
    rewrite slice_app by (cbn [length]; lia). cbn [mbind outcome_bind].
    rewrite (app_assoc _ blk rle).
    rewrite <-(app_nil_r (([1; id; pe_count pal] ++ blk) ++ rle)), <-app_assoc.
    rewrite slice_app by (rewrite ?length_app; cbn [length]; lia). cbn [mbind outcome_bind].
    unfold rle. by rewrite expand_encode.
  - cbn in Hpay. apply Ok_inj in Hpay as <-. cbn [app length].
    rewrite (proj2 (Nat.ltb_ge _ _)) by lia. cbn [idx lookup list_lookup mbind outcome_bind].
    change (negb (Z.land 0 1 =? 0)) with false. change (negb (Z.land 0 2 =? 0)) with false.
    cbn match. rewrite Hhas by done. cbn [negb mbind outcome_bind].
    rewrite slice_ok by (cbn [length]; lia). cbn [mbind outcome_bind].
    cbn [skipn]. rewrite drop_0, take_ge by lia. rewrite expand_encode by done.
    destruct Hknow as [?|Hk]; [done|by rewrite Hk].
  - apply Ok_inj in Hpay as <-. unfold encode_pal_rle_payload_indices_raw. cbn [app length].
    rewrite (proj2 (Nat.ltb_ge _ _)) by lia. cbn [idx lookup list_lookup mbind outcome_bind].
    change (negb (Z.land 2 2 =? 0)) with true. cbn match.
    rewrite (proj2 (Nat.ltb_ge _ _)) by lia. rewrite Hhas by done. cbn [negb].
    rewrite slice_ok by (cbn [length]; lia). cbn [mbind outcome_bind].
    cbn [skipn]. rewrite drop_0, take_ge by lia. destruct Hknow as [?|Hk]; [done|by rewrite Hk].
Qed.

Lemma upsert_slot_ok slot pal :
  wf_slot slot → wf_palette pal →
  upsert_slot slot (concat (take (Z.to_nat pal.(pe_count)) pal.(pe_colors))) (Z.to_nat pal.(pe_count))
  = Ok (take (Z.to_nat pal.(pe_count)) pal.(pe_colors) ++ drop (Z.to_nat pal.(pe_count)) slot).
Proof.
  intros [Hs _] ([Hl Hq] & Hc). unfold MAX_PALETTE_COUNT in *. unfold upsert_slot.
  set (n := Z.to_nat (pe_count pal)). set (cs := take n (pe_colors pal)).
  assert (length cs = n) as Hn by (unfold cs, n; lens).
  assert (Forall quad cs) as Hqs by by apply Forall_take.
  rewrite (collect_ok _ (λ i, default [] (cs !! i))).
  - rewrite bind_Ok. unfold assert_. rewrite (proj2 (Nat.leb_le _ _)) by lia.
    cbn [mbind outcome_bind]. f_equal. f_equal. apply list_eq. intros i.
    rewrite list_lookup_fmap. destruct (decide (i < n)%nat) as [Hi|Hi].
    + rewrite lookup_seq_lt by done. cbn. by destruct (lookup_lt_is_Some_2 cs i ltac:(lia)) as [c ->].
    + rewrite !lookup_ge_None_2; [done|lia|]. by rewrite length_seq; lia.
  - intros i [_ Hi]%elem_of_seq. destruct (lookup_lt_is_Some_2 cs i ltac:(lia)) as [c Ec].
    rewrite Ec. pose proof (Forall_lookup_1 _ _ _ _ Hqs Ec) as H4.
    assert (∀ k, (k < 4)%nat → concat cs !! (i * 4 + k)%nat = c !! k) as Hk.
    { intros k Hk. rewrite (lookup_concat_fixed cs 4) by done. by rewrite Ec. }
    unfold quad in H4. destruct c as [|c0 [|c1 [|c2 [|c3 [|]]]]]; try done.
    pose proof (Hk 0%nat ltac:(lia)) as H0. rewrite Nat.add_0_r in H0.
    rewrite (idx_Some _ _ _ H0), bind_Ok, (idx_Some _ _ _ (Hk 1%nat ltac:(lia))), bind_Ok.
    rewrite (idx_Some _ _ _ (Hk 2%nat ltac:(lia))), bind_Ok.
    by rewrite (idx_Some _ _ _ (Hk 3%nat ltac:(lia))), bind_Ok.
Qed.

Lemma wf_slot_upsert slot pal :
  wf_slot slot → wf_palette pal →
  wf_slot (take (Z.to_nat pal.(pe_count)) pal.(pe_colors) ++ drop (Z.to_nat pal.(pe_count)) slot).
Proof.
  intros [Hs Hqs] ([Hl Hq] & Hc). unfold MAX_PALETTE_COUNT in *. split.
  - unfold MAX_PALETTE_COUNT. lens.
  - apply Forall_app. split; [by apply Forall_take|by apply Forall_drop].
Qed.

Lemma client_slot shadow palettes id :
  wf_client shadow palettes → byte id → ∃ slot, palettes !! Z.to_nat id = Some slot ∧ wf_slot slot.
Proof.
  intros (_ & Hl & Hw) Hid.
  destruct (lookup_lt_is_Some_2 palettes (Z.to_nat id)) as [slot Hs].
  { rewrite Hl. unfold PALETTE_TABLE_SLOTS. widths. lia. }
  exists slot. split; [done|]. by apply (Forall_lookup_1 _ _ _ _ Hw Hs).
Qed.

Lemma shadow_put_count shadow id count :
  length shadow = PALETTE_TABLE_SLOTS → byte id → 1 ≤ count ≤ 16 →
  shadow_put shadow id count = <[Z.to_nat id := count]> shadow ∧
  shadow_count (shadow_put shadow id count) id = count.
Proof.
  intros Hl Hid Hc. unfold shadow_put.
  rewrite (proj2 (Z.leb_le 1 _)), (proj2 (Z.leb_le _ 16)) by lia. cbn [andb]. split; [done|].
  unfold shadow_count. rewrite list_lookup_insert_eq; [done|].
  rewrite Hl. unfold PALETTE_TABLE_SLOTS. widths. lia.
Qed.

(** What validation hands over for a tile [packed] in palette [pal]. *)
Definition validated (f : PalRleVariant) (flags : Z) (packed : list Z) (pal : PaletteEntry) (id : Z)
    : PrevalidatedPalRle :=
  {| pv_variant := f; pv_wire_flags := flags; pv_palette_id := id;
     pv_count := pal.(pe_count); pv_indices := packed;
     pv_palette_upsert :=
       match f with
       | Bundled => Some (concat (take (Z.to_nat pal.(pe_count)) pal.(pe_colors)))
       | _ => None
       end |}.

Lemma decode_validated f flags packed pal id shadow palettes payload :
  wf_palette pal → wf_indices packed pal → byte id → wf_client shadow palettes →
  (f = Bundled ∨ client_knows pal id shadow palettes) →
  prevalidate_pal_rle payload shadow = Ok (validated f flags packed pal id) →
  ∃ shadow' palettes',
    decode_pal_rle_tile payload shadow palettes = Ok (shadow', palettes', paint packed pal.(pe_colors)) ∧
    client_knows pal id shadow' palettes' ∧ wf_client shadow' palettes' ∧
    ∀ id', id' ≠ id → 0 ≤ id' →
      shadow_count shadow' id' = shadow_count shadow id' ∧
      palettes' !! Z.to_nat id' = palettes !! Z.to_nat id'.
Proof.
  intros Hpal Hix Hid Hcl Hknow Hpay. unfold decode_pal_rle_tile. rewrite Hpay, bind_Ok.
  cbn [validated pv_palette_id pv_palette_upsert pv_count pv_indices].
  destruct (client_slot shadow palettes id Hcl Hid) as (slot & Hs & Hws).
  assert (Hcl0 := Hcl). destruct Hcl as (Hls & Hlp & Hwp). destruct Hix as (Hb & Hlen & Hn).
  assert (1 ≤ pal.(pe_count) ≤ 16) as Hcnt by apply Hpal.
  destruct (decide (f = Bundled)) as [->|Hf].
  - rewrite (idx_Some _ _ _ Hs), bind_Ok, upsert_slot_ok, bind_Ok by done.
    set (slot' := take _ _ ++ _). pose proof (wf_slot_upsert slot pal Hws Hpal) as Hws'. fold slot' in Hws'.
    rewrite bind_Ok.
    assert (Z.to_nat id < length palettes)%nat as Hlt by (by eapply lookup_lt_Some).
    pose proof (list_lookup_insert_eq palettes (Z.to_nat id) slot' Hlt) as Hs'.
    rewrite (idx_Some _ _ _ Hs'), bind_Ok.
    pose proof (decode_pixels_paint slot' packed Hws' Hb Hlen) as Hpx.
    destruct (collect _ _) as [rgba| |]; [|done..]. rewrite bind_Ok in *. apply Ok_inj in Hpx.
    assert (take (Z.to_nat (pe_count pal)) slot' = take (Z.to_nat (pe_count pal)) (pe_colors pal)) as Ht.
    { unfold slot'. destruct Hpal as ([Hl16 _] & _). unfold MAX_PALETTE_COUNT in Hl16.
      rewrite take_app_le by lens. rewrite take_take. f_equal. lia. }
    rewrite Hpx, (paint_ext packed slot' (pe_colors pal) (pe_count pal)) by done.
    destruct (shadow_put_count shadow id (pe_count pal) Hls Hid Hcnt) as [Hput Hcount].
    eexists _, _. split; [done|]. split_and!.
    + by split; [|exists slot'].
    + rewrite Hput. split_and!; [by rewrite length_insert..|]. by apply Forall_insert.
    + intros id' Hne H0. unfold shadow_count at 1. rewrite Hput.
      rewrite !list_lookup_insert_ne by (widths; lia). done.
  - destruct Hknow as [?|Hknow]; [done|].
    replace (match f with Bundled => _ | _ => None end) with (@None (list Z)) by (by destruct f).
    rewrite bind_Ok, (idx_Some _ _ _ Hs), bind_Ok.
    pose proof (decode_pixels_paint slot packed Hws Hb Hlen) as Hpx.
    destruct (collect _ _) as [rgba| |]; [|done..]. rewrite bind_Ok in *. apply Ok_inj in Hpx.
    destruct Hknow as (Hc & slot0 & Hs0 & Ht). rewrite Hs in Hs0. injection Hs0 as <-.
    rewrite Hpx, (paint_ext packed slot (pe_colors pal) (pe_count pal)) by done.
    eexists _, _. split; [done|]. split_and!; [|done|done]. split; [done|by exists slot].
Qed.

(** C30: Palette tiles arrive exactly.  Whichever wire form the encoder uses for a
    tile (palette bundled, thin, or raw indices), the client paints exactly the
    palette colours the indices name, provided the palette is bundled or was
    delivered before; afterwards it knows the palette, and no other palette
    slot has changed. *)
Theorem pal_rle_client_exact f packed pal id shadow palettes payload :
  wf_palette pal → wf_indices packed pal → byte id → wf_client shadow palettes →
  (f = Bundled ∨ client_knows pal id shadow palettes) →
  wire_payload f packed pal id = Ok payload →
  ∃ shadow' palettes',
    decode_pal_rle_tile payload shadow palettes = Ok (shadow', palettes', paint packed pal.(pe_colors)) ∧
    client_knows pal id shadow' palettes' ∧ wf_client shadow' palettes' ∧
    ∀ id', id' ≠ id → 0 ≤ id' →
      shadow_count shadow' id' = shadow_count shadow id' ∧
      palettes' !! Z.to_nat id' = palettes !! Z.to_nat id'.
Proof.
  intros Hpal Hix Hid Hcl Hknow Hpay. apply (decode_validated f (wire_flags_of f)); try done.
  apply (prevalidate_wire f packed pal id shadow payload Hpal Hix); [|done].
  destruct Hknow as [?|[? _]]; auto.
Qed.

(** No PalRle payload exceeds [MAX_PAL_RLE_PAYLOAD], the size buffers are
    reserved for, whatever the tile and the palette. *)
Theorem pal_rle_payload_bound f packed pal id payload :
  wf_palette pal → bytes packed → length packed = 512%nat →
  wire_payload f packed pal id = Ok payload →
  (length payload ≤ MAX_PAL_RLE_PAYLOAD)%nat.
Proof.
  intros Hpal Hb Hl Hpay. pose proof (length_palette_block pal Hpal) as Hblk.
  destruct (encode_pal_rle_indices_spec packed Hb) as (_ & _ & Hlen); [by destruct packed|].
  assert (1 ≤ pal.(pe_count) ≤ 16) as Hcnt by apply Hpal.
  unfold MAX_PAL_RLE_PAYLOAD, MAX_PALETTE_COUNT. destruct f; cbn [wire_payload] in Hpay.
  - rewrite encode_bundled in Hpay by done. apply Ok_inj in Hpay as <-.
    rewrite !length_app, Hblk. cbn [length]. lia.
  - cbn in Hpay. apply Ok_inj in Hpay as <-. cbn [length]. lia.
  - apply Ok_inj in Hpay as <-. unfold encode_pal_rle_payload_indices_raw. cbn [app length]. lia.
Qed.

(** A four-colour palette and a tile that cycles through it. *)
Definition demo_palette : PaletteEntry :=
  {| pe_colors := [[0; 0; 0; 255]; [0; 0; 255; 255]; [0; 255; 0; 255]; [255; 0; 0; 0]]
                  ++ replicate 12 [0; 0; 0; 0];
     pe_count := 4 |}.
Definition demo_indices : list Z := concat (replicate 256 [0x10; 0x32]).

Lemma demo_palette_wf : wf_palette demo_palette.
Proof. split; [split; [done|by repeat constructor]|cbn; lia]. Qed.

Lemma demo_indices_bytes : bytes demo_indices ∧ length demo_indices = 512%nat.
Proof.
  split; [|done]. unfold demo_indices, bytes. apply Forall_concat, Forall_replicate.
  repeat constructor; widths; lia.
Qed.

Lemma demo_indices_wf : wf_indices demo_indices demo_palette.
Proof.
  destruct demo_indices_bytes as [Hb Hl]. split; [done|]. split; [done|].
  apply Forall_concat, Forall_fmap. unfold demo_indices. apply Forall_concat, Forall_replicate.
  repeat constructor; done.
Qed.

Definition no_palettes : Palettes := replicate 256 (replicate 16 [0; 0; 0; 0]).

Lemma no_palettes_wf : wf_client shadow_new no_palettes.
Proof.
  split_and!; [done|done|]. apply Forall_replicate. split; [done|]. by apply Forall_replicate.
Qed.

Definition demo_payload : list Z :=
  [1; 7; 4] ++ concat (take 4 demo_palette.(pe_colors)) ++ encode_pal_rle_indices demo_indices.

Lemma demo_payload_ok : wire_payload Bundled demo_indices demo_palette 7 = Ok demo_payload.
Proof. exact (encode_bundled demo_indices demo_palette 7 demo_palette_wf). Qed.

Lemma demo_id : byte 7.
Proof. widths. lia. Qed.

Lemma pal_rle_client_exact_witness :
  ∃ shadow' palettes',
    decode_pal_rle_tile demo_payload shadow_new no_palettes
    = Ok (shadow', palettes', paint demo_indices demo_palette.(pe_colors)) ∧
    client_knows demo_palette 7 shadow' palettes'.
Proof.
  destruct (pal_rle_client_exact Bundled demo_indices demo_palette 7 shadow_new no_palettes
    demo_payload demo_palette_wf demo_indices_wf demo_id no_palettes_wf (or_introl eq_refl)
    demo_payload_ok) as (sh & ps & Hdec & Hk & _).
  exists sh, ps. split; [exact Hdec|exact Hk].
Defined.

Lemma pal_rle_payload_bound_witness : (length demo_payload ≤ MAX_PAL_RLE_PAYLOAD)%nat.
Proof.
  exact (pal_rle_payload_bound Bundled demo_indices demo_palette 7 demo_payload demo_palette_wf
    (proj1 demo_indices_bytes) (proj2 demo_indices_bytes) demo_payload_ok).
Defined.

(** ** Hostile payloads *)

Lemma expand_rle_ok rle :
  bytes rle →
  match expand_rle_to_indices rle with
  | Some ix => bytes ix ∧ length ix = 512%nat ∧ nibbles_of ix = runs_of rle
  | None => length (runs_of rle) ≠ 1024%nat
  end.
Proof.
  intros Hr. unfold expand_rle_to_indices.
  pose proof (expand_indices_go_spec rle (replicate 512 0) 0 Hr) as He.
  case_decide as Hn.
  - destruct He as (ix & -> & Hb & Hl & Hp);
      [apply Forall_replicate; widths; lia|apply length_replicate|lia|].
    split_and!; [done|done|]. apply list_eq. intros j.
    destruct (decide (j < 1024)%nat) as [Hj|Hj].
    + rewrite pixel_at_nibbles by (done || lia). rewrite Hp, Nat.sub_0_r.
      destruct (lookup_lt_is_Some_2 (runs_of rle) j) as [v ->]; [lia|]. by rewrite decide_True by lia.
    + rewrite !lookup_ge_None_2; [done|lia|]. rewrite length_nibbles_of. lia.
  - rewrite He; [lia|apply Forall_replicate; widths; lia|apply length_replicate|lia].
Qed.

(** What acceptance guarantees to the painting loop. *)
Definition accepted_pal (v : PrevalidatedPalRle) : Prop :=
  byte v.(pv_palette_id) ∧ bytes v.(pv_indices) ∧ length v.(pv_indices) = 512%nat ∧
  match v.(pv_palette_upsert) with
  | Some up => length up = (Z.to_nat v.(pv_count) * 4)%nat ∧ 1 ≤ v.(pv_count) ≤ 16
  | None => True
  end.

Definition accept_post (m : outcome DecodeErrorCode PrevalidatedPalRle) : Prop :=
  match m with Ok v => accepted_pal v | Err _ => True | Panic => False end.

Lemma accept_rle payload cursor v_of :
  bytes payload → (cursor ≤ length payload)%nat →
  (∀ ix, bytes ix → length ix = 512%nat → accepted_pal (v_of ix)) →
  accept_post (rle ← slice payload cursor (length payload);
               match expand_rle_to_indices rle with
               | None => Err PayloadTooShort
               | Some indices => Ok (v_of indices)
               end).
Proof.
  intros Hb Hc Hv. rewrite slice_ok, bind_Ok by lia.
  pose proof (expand_rle_ok (take (length payload - cursor) (drop cursor payload))) as He.
  destruct (expand_rle_to_indices _) as [ix|]; [|done].
  destruct He as (Hbx & Hlx & _); [by apply Forall_take, Forall_drop|]. by apply Hv.
Qed.

Lemma prevalidate_pal_rle_accepts payload shadow :
  bytes payload → accept_post (prevalidate_pal_rle payload shadow).
Proof.
  intros Hb. unfold prevalidate_pal_rle.
  destruct (Nat.ltb_spec (length payload) 2) as [|H2]; [done|].
  destruct (idx_lt (E:=DecodeErrorCode) payload 0) as (flags & -> & _); [lia|].
  destruct (idx_lt (E:=DecodeErrorCode) payload 1) as (id & -> & Hid); [lia|]. rewrite !bind_Ok.
  pose proof (Forall_lookup_1 _ _ _ _ Hb Hid) as Hbid.
  destruct (negb (Z.land flags 2 =? 0)).
  { destruct (Nat.ltb_spec (length payload) (2 + 512)) as [|H514]; [done|].
    destruct (negb (shadow_has shadow id)); [done|].
    rewrite slice_ok, bind_Ok by lia. split_and!; cbn [pv_palette_id pv_indices pv_palette_upsert].
    - done.
    - by apply Forall_take, Forall_drop.
    - rewrite length_take, length_drop. lia.
    - done. }
  destruct (negb (Z.land flags 1 =? 0)).
  - destruct (Nat.leb_spec (length payload) 2) as [|H3]; [done|].
    destruct (idx_lt (E:=DecodeErrorCode) payload 2) as (count & -> & _); [lia|]. rewrite bind_Ok.
    destruct ((1 <=? count) && (count <=? 16)) eqn:Ec; cbn [negb]; [|done].
    apply andb_true_iff in Ec as [E1%Z.leb_le E2%Z.leb_le].
    destruct (Nat.ltb_spec (length payload) (3 + Z.to_nat count * 4)) as [|H4]; [done|].
    rewrite slice_ok, !bind_Ok by lia. apply accept_rle; [done|lia|].
    intros ix Hbx Hlx. split_and!; try done. cbn [pv_palette_upsert pv_count].
    split; [rewrite length_take, length_drop; lia|lia].
  - destruct (negb (shadow_has shadow id)); [done|]. rewrite bind_Ok.
    apply accept_rle; [done|lia|]. intros ix Hbx Hlx. by split_and!.
Qed.

Lemma upsert_slot_total slot up n :
  wf_slot slot → length up = (n * 4)%nat → (n ≤ 16)%nat →
  ∃ slot', upsert_slot slot up n = Ok slot' ∧ wf_slot slot'.
Proof.
  intros [Hl Hq] Hup Hn. unfold MAX_PALETTE_COUNT in *. unfold upsert_slot.
  set (g := λ i, [default 0 (up !! (i * 4)%nat); default 0 (up !! (i * 4 + 1)%nat);
                  default 0 (up !! (i * 4 + 2)%nat); default 0 (up !! (i * 4 + 3)%nat)]).
  rewrite (collect_ok _ g).
  - rewrite bind_Ok. unfold assert_. rewrite (proj2 (Nat.leb_le _ _)) by lia. rewrite bind_Ok.
    eexists. split; [done|]. split; [unfold MAX_PALETTE_COUNT; lens|].
    apply Forall_app. split; [|by apply Forall_drop]. by apply Forall_fmap, Forall_forall.
  - intros i [_ Hi]%elem_of_seq.
    assert (∀ k, (k < 4)%nat → idx (E:=DecodeErrorCode) up (i * 4 + k)%nat
                             = Ok (default 0 (up !! (i * 4 + k)%nat))) as Hk.
    { intros k Hk. destruct (lookup_lt_is_Some_2 up (i * 4 + k)%nat) as [x Hx]; [lia|].
      by rewrite (idx_Some _ _ _ Hx), Hx. }
    pose proof (Hk 0%nat ltac:(lia)) as H0. rewrite Nat.add_0_r in H0.
    by rewrite H0, bind_Ok, !Hk, !bind_Ok by lia.
Qed.

(** The client's palette decoder is safe on any bytes: from any reachable
    client state it returns a 4096-byte tile or an error code, never panics,
    and keeps the palette tables well formed; an error leaves them untouched. *)
Theorem decode_pal_rle_tile_safe payload shadow palettes :
  bytes payload → wf_client shadow palettes →
  match decode_pal_rle_tile payload shadow palettes with
  | Ok (shadow', palettes', rgba) => wf_client shadow' palettes' ∧ length rgba = (1024 * 4)%nat
  | Err _ => True
  | Panic => False
  end.
Proof.
  intros Hb Hcl. unfold decode_pal_rle_tile.
  pose proof (prevalidate_pal_rle_accepts payload shadow Hb) as Hacc.
  destruct (prevalidate_pal_rle payload shadow) as [v| |]; [|done..]. rewrite bind_Ok.
  destruct Hacc as (Hid & Hbx & Hlx & Hup).
  destruct (client_slot shadow palettes _ Hcl Hid) as (slot & Hs & Hws).
  assert (∃ sh ps slot', (match pv_palette_upsert v with
    | Some upsert =>
        slot ← idx palettes (Z.to_nat (pv_palette_id v));
        slot ← upsert_slot slot upsert (Z.to_nat (pv_count v));
        Ok (shadow_put shadow (pv_palette_id v) (pv_count v), <[Z.to_nat (pv_palette_id v) := slot]> palettes)
    | None => Ok (shadow, palettes) end = Ok (sh, ps)) ∧ wf_client sh ps ∧
    ps !! Z.to_nat (pv_palette_id v) = Some slot' ∧ wf_slot slot') as (sh & ps & slot' & -> & Hcl' & Hs' & Hws').
  { destruct (pv_palette_upsert v) as [up|]; [|by exists shadow, palettes, slot].
    destruct Hup as [Hlu Hc]. destruct (upsert_slot_total slot up (Z.to_nat (pv_count v)))
      as (slot' & Hups & Hws'); [done|done|lia|].
    rewrite (idx_Some _ _ _ Hs), bind_Ok, Hups, bind_Ok. eexists _, _, slot'. split; [done|].
    destruct Hcl as (Hls & Hlp & Hwp). destruct (shadow_put_count shadow _ _ Hls Hid Hc) as [-> _].
    split_and!; [split_and!; [by rewrite length_insert..|by apply Forall_insert]| |done].
    apply list_lookup_insert_eq. by eapply lookup_lt_Some. }
  rewrite bind_Ok, (idx_Some _ _ _ Hs'), bind_Ok.
  pose proof (decode_pixels_paint slot' (pv_indices v) Hws' Hbx Hlx) as Hpx.
  destruct (collect _ _) as [rgba| |]; [|done..]. rewrite bind_Ok in *. apply Ok_inj in Hpx. rewrite Hpx.
  split; [done|]. unfold paint. rewrite (length_concat_fixed _ 4) by done. by rewrite length_nibbles_of, Hlx.
Qed.

Lemma decode_pal_rle_tile_safe_witness :
  match decode_pal_rle_tile [1; 7; 200] shadow_new no_palettes with
  | Ok (shadow', palettes', rgba) => wf_client shadow' palettes' ∧ length rgba = (1024 * 4)%nat
  | Err _ => True
  | Panic => False
  end.
Proof.
  apply (decode_pal_rle_tile_safe [1; 7; 200] shadow_new no_palettes); [|exact no_palettes_wf].
  apply (bool_decide_unpack _). vm_compute. exact I.
Defined.

(** ** The client against the reference decoder *)

(** BGRA quads to opaque RGBA. *)
Fixpoint swizzle (pixels : list Z) : list Z :=
  match pixels with
  | b :: g :: r :: a :: pixels => [r; g; b; 255] ++ swizzle pixels
  | _ => []
  end.

Lemma swizzle_quads (cs : list (list Z)) :
  Forall quad cs → swizzle (concat cs) = concat (rgba_px <$> cs).
Proof.
  induction 1 as [|c cs Hc _ IH]; [done|]. unfold quad in Hc.
  destruct c as [|c0 [|c1 [|c2 [|c3 [|]]]]]; try done.
  rewrite fmap_cons. cbn [concat app swizzle]. by rewrite IH.
Qed.

Lemma opaque_quad c : quad c → quad (opaque c) ∧ rgba_px (opaque c) = rgba_px c.
Proof.
  unfold quad. destruct c as [|c0 [|c1 [|c2 [|c3 [|]]]]]; try done. intros _.
  unfold opaque. cbn. by destruct (c3 =? 0).
Qed.

Lemma expand_pixels_spec rle pal : ∀ k,
  bytes rle → wf_slot pal.(pe_colors) →
  match expand_pixels rle pal k with
  | Ok (pixels, n) =>
      n = k + Z.of_nat (length (runs_of rle)) ∧ Forall (λ v, v < pal.(pe_count)) (runs_of rle) ∧
      swizzle pixels = concat ((λ v, rgba_px (default [] (pal.(pe_colors) !! Z.to_nat v))) <$> runs_of rle)
  | Err _ => True
  | Panic => False
  end.
Proof.
  intros k Hr [Hl Hq]. revert k. induction Hr as [|b rle Hb _ IH]; intros k; cbn [expand_pixels].
  { cbn. split_and!; [lia|constructor|done]. }
  rewrite runs_of_cons. set (v := Z.land (Z.shiftr b 4) 15).
  assert (nibble v) as Hv by (unfold v, nibble; rewrite land_15; dlia). unfold nibble in Hv.
  assert (0 ≤ Z.land b 15 < 16) as Hrun by (rewrite land_15; dlia).
  destruct (Z.leb_spec (pe_count pal) v) as [|Hlt]; [done|].
  destruct (lookup_lt_is_Some_2 (pe_colors pal) (Z.to_nat v)) as [c Hc].
  { rewrite Hl. unfold MAX_PALETTE_COUNT. lia. }
  rewrite (idx_Some _ _ _ Hc), bind_Ok. destruct (1024 <? _); [done|].
  specialize (IH (k + (Z.land b 15 + 1))).
  destruct (expand_pixels rle pal _) as [[pixels n]| |]; [|done..]. rewrite bind_Ok.
  destruct IH as (-> & Hall & Hsw). pose proof (Forall_lookup_1 _ _ _ _ Hq Hc) as Hqc.
  destruct (opaque_quad c Hqc) as [Hqo Hpx]. split_and!.
  - rewrite length_app, length_replicate. lia.
  - apply Forall_app. split; [by apply Forall_replicate|done].
  - rewrite fmap_app, concat_app, <-Hsw. generalize (Z.to_nat (Z.land b 15 + 1)) as m. intros m.
    induction m as [|m IHm]; [done|]. cbn [replicate concat]. rewrite fmap_cons. cbn [concat].
    rewrite <-!app_assoc. unfold quad in Hqo. rewrite Hc in *. cbn [default from_option id].
    rewrite <-Hpx. destruct (opaque c) as [|c0 [|c1 [|c2 [|c3 [|]]]]]; try done.
    cbn [app swizzle]. rewrite IHm. done.
Qed.

Lemma needed_ok payload n off : (off + n ≤ length payload)%nat → needed payload n off = Ok tt.
Proof. intros H. unfold needed. by rewrite (proj2 (Nat.ltb_ge _ _)). Qed.

Lemma needed_cases payload n off :
  needed payload n off = Ok tt ∧ (off + n ≤ length payload)%nat ∨ ∃ e, needed payload n off = Err e.
Proof.
  unfold needed. destruct (Nat.ltb_spec (length payload) (off + n)); [right; eauto|by left].
Qed.

(** The bundled block, as the reference reads it. *)
Lemma read_palette_spec payload :
  bytes payload →
  match read_palette payload 2 with
  | Ok (p, cursor) =>
      payload !! 2%nat = Some p.(pe_count) ∧ wf_palette p ∧
      cursor = (3 + Z.to_nat p.(pe_count) * 4)%nat ∧ (cursor ≤ length payload)%nat ∧
      concat (take (Z.to_nat p.(pe_count)) p.(pe_colors))
      = take (Z.to_nat p.(pe_count) * 4) (drop 3 payload)
  | Err _ => True
  | Panic => False
  end.
Proof.
  intros Hb. unfold read_palette.
  destruct (needed_cases payload 1 2) as [[-> H3]|[e ->]]; [|done]. rewrite bind_Ok.
  destruct (idx_lt (E:=PalRleDecodeError) payload 2) as (count & -> & Hc); [lia|]. rewrite bind_Ok.
  pose proof (Forall_lookup_1 _ _ _ _ Hb Hc) as Hbc.
  destruct (_ || _) eqn:Ec; [done|].
  apply orb_false_iff in Ec as [E1%Nat.ltb_ge E2%Z.eqb_neq]. unfold MAX_PALETTE_COUNT in E1.
  set (n := Z.to_nat count) in *.
  destruct (needed_cases payload (n * 4) (2 + 1)) as [[-> H4]|[e ->]]; [|done]. rewrite bind_Ok.
  rewrite (collect_ok _ (λ i, take 4 (drop (3 + i * 4) payload))).
  2: { intros i [_ Hi]%elem_of_seq. rewrite slice_ok by lia. do 2 f_equal. lia. }
  rewrite bind_Ok. cbn [pe_count pe_colors]. fold n.
  set (cols := (λ i, take 4 (drop (3 + i * 4) payload)) <$> seq 0 n).
  assert (length cols = n) as Hlc by (unfold cols; lens).
  assert (Forall quad cols) as Hqc.
  { apply Forall_fmap, Forall_forall. intros i [_ Hi]%elem_of_seq. unfold quad. cbn [compose]. lens. }
  split_and!; [done| |done|lia|].
  - split; [|widths; cbn [pe_count]; lia]. split.
    + cbn [pe_colors]. rewrite length_app, length_drop, Hlc. unfold MAX_PALETTE_COUNT. cbn. lia.
    + apply Forall_app. split; [done|]. by apply Forall_drop, Forall_replicate.
  - rewrite take_app_le, take_ge by lia. clear -H4. unfold cols.
    induction n as [|n IH]; [done|]. rewrite seq_S, fmap_app, concat_app, IH by lia.
    cbn [fmap list_fmap concat Nat.add]. rewrite app_nil_r.
    replace (S n * 4)%nat with (n * 4 + 4)%nat by lia. rewrite <-take_take_drop, drop_drop. done.
Qed.

(** The part common to bundled and thin payloads: pixels for the reference,
    indices for the client, from the same run bytes. *)
Lemma expand_both payload pal cursor pixels :
  bytes payload → wf_palette pal → (cursor ≤ length payload)%nat →
  ('(pixels, pixel_idx) ← expand_pixels (drop cursor payload) pal 0;
   if negb (pixel_idx =? 1024) then Err (PixelCountMismatch pixel_idx) else Ok pixels) = Ok pixels →
  ∃ ix, slice (E:=DecodeErrorCode) payload cursor (length payload) = Ok (drop cursor payload) ∧
    expand_rle_to_indices (drop cursor payload) = Some ix ∧ wf_indices ix pal ∧
    swizzle pixels = paint ix pal.(pe_colors).
Proof.
  intros Hb Hpal Hcur Hexp.
  assert (bytes (drop cursor payload)) as Hbd by (by apply Forall_drop).
  pose proof (expand_pixels_spec (drop cursor payload) pal 0 Hbd ltac:(apply Hpal)) as Hs.
  destruct (expand_pixels _ pal 0) as [[px n]| |]; [|done..]. rewrite bind_Ok in Hexp.
  destruct (Z.eqb_spec n 1024) as [Hn0|]; [|done]. cbn [negb] in Hexp. apply Ok_inj in Hexp.
  destruct Hs as (Hn & Hall & Hsw). rewrite Hexp in Hsw.
  pose proof (expand_rle_ok (drop cursor payload) Hbd) as He.
  destruct (expand_rle_to_indices _) as [ix|]; [|lia]. destruct He as (Hbx & Hlx & Hnib).
  exists ix. split_and!; [|done|split_and!; [done|done|by rewrite Hnib]|].
  - rewrite slice_ok by lia. by rewrite take_ge by lens.
  - rewrite Hsw. unfold paint. by rewrite Hnib.
Qed.

(** The client, an independent port, agrees with the reference decoder: every
    payload without the raw-indices flag that [decode_pal_rle] accepts is
    accepted by the client, and painted with the same colours (as opaque RGBA),
    when the client knows the palette the reference decoder was given. *)
Theorem client_agrees_with_reference payload cached d shadow palettes :
  bytes payload → wf_client shadow palettes →
  decode_pal_rle payload cached = Ok d →
  (∀ flags, payload !! 0%nat = Some flags → Z.land flags 0x02 = 0) →
  (∀ pal id, cached = Some pal → payload !! 1%nat = Some id →
     wf_palette pal ∧ client_knows pal id shadow palettes) →
  ∃ shadow' palettes',
    decode_pal_rle_tile payload shadow palettes = Ok (shadow', palettes', swizzle d.(dp_pixels)).
Proof.
  intros Hb Hcl Hdec Hraw Hknow. unfold decode_pal_rle in Hdec.
  destruct (needed_cases payload 2 0) as [[E H2]|[e E]]; rewrite E in Hdec; [|done].
  rewrite bind_Ok in Hdec.
  destruct (idx_lt (E:=PalRleDecodeError) payload 0) as (flags & Ef & Lf); [lia|].
  destruct (idx_lt (E:=PalRleDecodeError) payload 1) as (id & Ei & Li); [lia|].
  rewrite Ef, Ei, !bind_Ok in Hdec. clear E Ef Ei.
  pose proof (Forall_lookup_1 _ _ _ _ Hb Li) as Hbid.
  assert (∃ f pal ix,
    wf_palette pal ∧ wf_indices ix pal ∧ (f = Bundled ∨ client_knows pal id shadow palettes) ∧
    swizzle d.(dp_pixels) = paint ix pal.(pe_colors) ∧
    prevalidate_pal_rle payload shadow = Ok (validated f flags ix pal id))
    as (f & pal & ix & Hpal & Hix & Hkn & Hsw & Hpv).
  2: { destruct (decode_validated f flags ix pal id shadow palettes payload)
         as (sh & ps & Hd & _); try done. exists sh, ps. by rewrite Hsw. }
  unfold prevalidate_pal_rle. rewrite (proj2 (Nat.ltb_ge _ _)) by lia.
  rewrite (idx_Some _ _ _ Lf), (idx_Some _ _ _ Li), !bind_Ok, (Hraw flags Lf).
  cbn [Z.eqb negb] in *. destruct (negb (Z.land flags 1 =? 0)).
  - pose proof (read_palette_spec payload Hb) as Hrp.
    destruct (read_palette payload 2) as [[p cursor]| |]; [|done..]. rewrite !bind_Ok in Hdec.
    destruct Hrp as (Hc & Hpal & Hcur & Hle & Hblk). assert (1 ≤ p.(pe_count) ≤ 16) as Hcnt by apply Hpal.
    destruct (expand_both payload p cursor d.(dp_pixels) Hb Hpal Hle) as (ix & Hsl & Hex & Hix & Hsw).
    { destruct (expand_pixels _ p 0) as [[pixels n]| |]; [|done..].
      rewrite bind_Ok in Hdec. rewrite bind_Ok. destruct (negb _); [done|]. by apply Ok_inj in Hdec as <-. }
    exists Bundled, p, ix. split_and!; [done|done|by left|done|].
    rewrite (proj2 (Nat.leb_gt _ _)) by lia. rewrite (idx_Some _ _ _ Hc), bind_Ok.
    rewrite (proj2 (Z.leb_le 1 _)), (proj2 (Z.leb_le _ 16)) by lia. cbn [andb negb].
    rewrite (proj2 (Nat.ltb_ge _ _)) by lia. rewrite (slice_ok payload 3) by lia. rewrite !bind_Ok.
    rewrite <-Hcur, Hsl, bind_Ok, Hex. unfold validated. rewrite Hblk. do 4 f_equal. lia.
  - rewrite bind_Ok in Hdec. destruct cached as [pal|]; [|done]. rewrite bind_Ok in Hdec.
    destruct (Hknow pal id eq_refl Li) as [Hpal Hkn]. assert (1 ≤ pal.(pe_count) ≤ 16) as Hcnt by apply Hpal.
    destruct (expand_both payload pal 2 d.(dp_pixels) Hb Hpal H2) as (ix & Hsl & Hex & Hix & Hsw).
    { destruct (expand_pixels _ pal 0) as [[pixels n]| |]; [|done..].
      rewrite bind_Ok in Hdec. rewrite bind_Ok. destruct (negb _); [done|]. by apply Ok_inj in Hdec as <-. }
    exists Thin, pal, ix. split_and!; [done|done|by right|done|].
    destruct Hkn as [Hcount _]. unfold shadow_has. rewrite Hcount.
    rewrite (proj2 (Z.eqb_neq _ _)) by lia. cbn [negb]. by rewrite bind_Ok, Hsl, bind_Ok, Hex.
Qed.

(** One pixel run after another: sixteen runs of sixteen, four times over. *)
Definition stripes_payload : list Z := [1; 9; 2; 10; 20; 30; 0; 40; 50; 60; 255] ++ concat (replicate 32 [0x0F; 0x1F]).

Definition stripes_palette : PaletteEntry :=
  {| pe_colors := [[10; 20; 30; 0]; [40; 50; 60; 255]] ++ replicate 14 [0; 0; 0; 0]; pe_count := 2 |}.

Lemma stripes_reference :
  ∃ d, decode_pal_rle stripes_payload None = Ok d ∧ dp_updated_palette d = Some (9, stripes_palette).
Proof. eexists. split; vm_compute; reflexivity. Qed.

Lemma client_agrees_with_reference_witness :
  ∃ d shadow' palettes',
    decode_pal_rle stripes_payload None = Ok d ∧
    decode_pal_rle_tile stripes_payload shadow_new no_palettes
    = Ok (shadow', palettes', swizzle d.(dp_pixels)).
Proof.
  destruct stripes_reference as (d & Hd & _). exists d.
  destruct (client_agrees_with_reference stripes_payload None d shadow_new no_palettes) as (sh & ps & H).
  - apply (bool_decide_unpack _). vm_compute. exact I.
  - exact no_palettes_wf.
  - exact Hd.
  - intros flags Hf. injection Hf as <-. reflexivity.
  - intros pal id Hp. discriminate Hp.
  - exists sh, ps. split; [exact Hd|exact H].
Defined.

(** The reference decoder never panics: any bytes and any cached palette give
    a result or a typed error. *)
Theorem decode_pal_rle_no_panic payload cached :
  bytes payload → (∀ pal, cached = Some pal → wf_slot pal.(pe_colors)) →
  no_panic (decode_pal_rle payload cached).
Proof.
  intros Hb Hc. unfold decode_pal_rle.
  destruct (needed_cases payload 2 0) as [[-> H2]|[e ->]]; [|discriminate]. rewrite bind_Ok.
  destruct (idx_lt (E:=PalRleDecodeError) payload 0) as (flags & -> & _); [lia|].
  destruct (idx_lt (E:=PalRleDecodeError) payload 1) as (id & -> & _); [lia|]. rewrite !bind_Ok.
  assert (∀ pal cursor, wf_slot pal.(pe_colors) → no_panic (expand_pixels (drop cursor payload) pal 0)) as Hx.
  { intros pal cursor Hs Hp. pose proof (expand_pixels_spec (drop cursor payload) pal 0) as H.
    rewrite Hp in H. apply H; [by apply Forall_drop|done]. }
  pose proof (read_palette_spec payload Hb) as Hrp.
  destruct (negb (Z.land flags 1 =? 0)).
  - destruct (read_palette payload 2) as [[p cursor]| |]; [|discriminate|done]. rewrite !bind_Ok.
    apply no_panic_bind; [apply Hx; apply Hrp|]. intros [px n] _. np.
  - rewrite bind_Ok. destruct cached as [pal|]; [|discriminate]. rewrite bind_Ok.
    apply no_panic_bind; [by apply Hx, Hc|]. intros [px n] _. np.
Qed.

Lemma decode_pal_rle_no_panic_witness : no_panic (decode_pal_rle [0; 3; 0xFF] (Some demo_palette)).
Proof.
  apply (decode_pal_rle_no_panic [0; 3; 0xFF] (Some demo_palette)).
  - apply (bool_decide_unpack _). vm_compute. exact I.
  - intros pal H. injection H as <-. apply demo_palette_wf.
Defined.
