(* ===== verification/PaletteTable.v ===== *)
(** * The server's palette table ([codec/pal_rle.rs]: [PaletteTable]; its callers in
      [transport/io_bridge/frame.rs], [ack_dispatch.rs] and [emit.rs])

    256 slots cache the palettes tiles refer to by id.  A slot is [Empty],
    [Held] by tiles in flight, or [FreeButCached].  The step relation collects
    what the transport does to the table: emit a tile, see it acknowledged,
    supersede it, reset the session, ask for re-bundling.  Reachable tables
    satisfy [wf_table], and no step overwrites a slot a tile still refers to. *)

From Stdlib Require Import ZArith Lia.
From stdpp Require Import base option list numbers sets relations.
From S2P Require Import Prelude PalRle.

Local Open Scope Z_scope.

(** ** Definitions *)

Inductive SlotState := Empty | Held | FreeButCached.
#[export] Instance SlotState_eq_dec : EqDecision SlotState.
Proof. solve_decision. Defined.

Record FramePaletteStats := { reused_or_allocated : Z; fell_back_to_raw : Z }.

(** Slot ids are [u8]s, written here as their index. *)
Record PaletteTable := {
  entries : list (option PaletteEntry);
  slot_state : list SlotState;
  ref_count : list Z;
  delivered : list bool;
  in_flight_carrying : list Z;
  free_lru : list nat;
  stats_frame : FramePaletteStats;
}.

Definition table_new : PaletteTable :=
  {| entries := replicate PALETTE_TABLE_SLOTS None;
     slot_state := replicate PALETTE_TABLE_SLOTS Empty;
     ref_count := replicate PALETTE_TABLE_SLOTS 0;
     delivered := replicate PALETTE_TABLE_SLOTS false;
     in_flight_carrying := replicate PALETTE_TABLE_SLOTS 0;
     free_lru := [];
     stats_frame := {| reused_or_allocated := 0; fell_back_to_raw := 0 |} |}.

Definition state_at (t : PaletteTable) (id : nat) : SlotState := default Empty (t.(slot_state) !! id).
Definition entry_at (t : PaletteTable) (id : nat) : option PaletteEntry := default None (t.(entries) !! id).
Definition refs_at (t : PaletteTable) (id : nat) : Z := default 0 (t.(ref_count) !! id).
Definition delivered_at (t : PaletteTable) (id : nat) : bool := default false (t.(delivered) !! id).
Definition carrying_at (t : PaletteTable) (id : nat) : Z := default 0 (t.(in_flight_carrying) !! id).

(** [for id in 0..256 { if f(id) { return Some(id) } } None] *)
Definition first_slot (f : nat → bool) : option nat := head (filter (λ id, f id = true) (seq 0 PALETTE_TABLE_SLOTS)).

Definition find_matching (t : PaletteTable) (palette : PaletteEntry) : option nat :=
  first_slot (λ id, negb (bool_decide (state_at t id = Empty)) &&
                    bool_decide (entry_at t id = Some palette)).

(** [u32::saturating_add] *)
Definition sat_add32 (a b : Z) : Z := Z.min (a + b) (2 ^ 32 - 1).

Definition acquire (t : PaletteTable) (id : nat) : PaletteTable :=
  let free := bool_decide (state_at t id = FreeButCached) in
  {| entries := t.(entries);
     slot_state := if free then <[id := Held]> t.(slot_state) else t.(slot_state);
     ref_count := <[id := sat_add32 (refs_at t id) 1]> t.(ref_count);
     delivered := t.(delivered);
     in_flight_carrying := t.(in_flight_carrying);
     free_lru := if free then filter (λ x, x ≠ id) t.(free_lru) else t.(free_lru);
     stats_frame := t.(stats_frame) |}.

Definition release (t : PaletteTable) (id : nat) : PaletteTable :=
  let refs := sat_sub (refs_at t id) 1 in
  {| entries := t.(entries);
     slot_state := if refs =? 0 then <[id := FreeButCached]> t.(slot_state) else t.(slot_state);
     ref_count := <[id := refs]> t.(ref_count);
     delivered := t.(delivered);
     in_flight_carrying := t.(in_flight_carrying);
     free_lru := if refs =? 0 then t.(free_lru) ++ [id] else t.(free_lru);
     stats_frame := t.(stats_frame) |}.

Definition overwrite_eligible (t : PaletteTable) (id : nat) : bool :=
  if negb (refs_at t id =? 0) then false else delivered_at t id || (carrying_at t id =? 0).

Definition write_bytes (t : PaletteTable) (id : nat) (palette : PaletteEntry) : PaletteTable :=
  {| entries := <[id := Some palette]> t.(entries);
     slot_state := <[id := Held]> t.(slot_state);
     ref_count := <[id := 0]> t.(ref_count);
     delivered := <[id := false]> t.(delivered);
     in_flight_carrying := <[id := 0]> t.(in_flight_carrying);
     free_lru := filter (λ x, x ≠ id) t.(free_lru);
     stats_frame := t.(stats_frame) |}.

Definition find_empty_slot (t : PaletteTable) : option nat :=
  first_slot (λ id, bool_decide (state_at t id = Empty)).

Definition find_eligible_free_slot (t : PaletteTable) : option nat :=
  head (filter (λ id, bool_decide (state_at t id = FreeButCached) && overwrite_eligible t id = true)
               t.(free_lru)).

Definition on_session_reset (t : PaletteTable) (preserve_delivered : bool) : PaletteTable :=
  let states := (λ e : option PaletteEntry, if e is Some _ then FreeButCached else Empty) <$> t.(entries) in
  {| entries := t.(entries);
     slot_state := states;
     ref_count := replicate PALETTE_TABLE_SLOTS 0;
     delivered := if preserve_delivered then t.(delivered) else replicate PALETTE_TABLE_SLOTS false;
     in_flight_carrying := replicate PALETTE_TABLE_SLOTS 0;
     free_lru := filter (λ id, states !! id = Some FreeButCached) (seq 0 PALETTE_TABLE_SLOTS);
     stats_frame := {| reused_or_allocated := 0; fell_back_to_raw := 0 |} |}.

Definition set_delivered (t : PaletteTable) (id : nat) (b : bool) : PaletteTable :=
  {| entries := t.(entries); slot_state := t.(slot_state); ref_count := t.(ref_count);
     delivered := <[id := b]> t.(delivered);
     in_flight_carrying := t.(in_flight_carrying); free_lru := t.(free_lru);
     stats_frame := t.(stats_frame) |}.

Definition force_rebundle (t : PaletteTable) (palette_id : nat) : PaletteTable :=
  set_delivered t palette_id false.

Definition acquire_or_allocate (t : PaletteTable) (palette : PaletteEntry) : PaletteTable * option nat :=
  match find_matching t palette with
  | Some id => (acquire t id, Some id)
  | None =>
      match find_empty_slot t with
      | Some id => (acquire (write_bytes t id palette) id, Some id)
      | None =>
          match find_eligible_free_slot t with
          | Some id => (acquire (write_bytes t id palette) id, Some id)
          | None => (t, None)
          end
      end
  end.

(** ** What the transport does with the table *)

Definition set_carrying (t : PaletteTable) (id : nat) (v : Z) : PaletteTable :=
  {| entries := t.(entries); slot_state := t.(slot_state); ref_count := t.(ref_count);
     delivered := t.(delivered);
     in_flight_carrying := <[id := v]> t.(in_flight_carrying);
     free_lru := t.(free_lru); stats_frame := t.(stats_frame) |}.

Definition bump_stats (t : PaletteTable) (reused fell : Z) : PaletteTable :=
  {| entries := t.(entries); slot_state := t.(slot_state); ref_count := t.(ref_count);
     delivered := t.(delivered); in_flight_carrying := t.(in_flight_carrying);
     free_lru := t.(free_lru);
     stats_frame := {| reused_or_allocated := t.(stats_frame).(reused_or_allocated) + reused;
                       fell_back_to_raw := t.(stats_frame).(fell_back_to_raw) + fell |} |}.

(** Phase A of a PalRle tile: the id it will carry and whether it is bundled. *)
Definition prepare_tile (t : PaletteTable) (palette : PaletteEntry)
    : PaletteTable * option (nat * bool) :=
  let '(t, r) := acquire_or_allocate t palette in
  match r with
  | Some id =>
      let bundled := negb (delivered_at t id) in
      let t := if bundled then set_carrying t id (carrying_at t id + 1) else t in
      (bump_stats t 1 0, Some (id, bundled))
  | None => (bump_stats t 0 1, None)
  end.

(** A PalRle tile was acknowledged. *)
Definition ack_tile (t : PaletteTable) (pid : nat) (palette_bundled palette_held : bool) : PaletteTable :=
  let t := if negb (delivered_at t pid) then set_delivered t pid true else t in
  let t := if palette_bundled then set_carrying t pid (sat_sub (carrying_at t pid) 1) else t in
  if palette_held && (0 <? refs_at t pid) then release t pid else t.

(** A PalRle tile was superseded before it was acknowledged. *)
Definition supersede_tile (t : PaletteTable) (pid : nat) (palette_bundled : bool) : PaletteTable :=
  let t := if palette_bundled then set_carrying t pid (sat_sub (carrying_at t pid) 1) else t in
  if 0 <? refs_at t pid then release t pid else t.

Inductive step (t : PaletteTable) : PaletteTable → Prop :=
| step_prepare palette : step t (prepare_tile t palette).1
| step_ack pid bundled held : (pid < PALETTE_TABLE_SLOTS)%nat → step t (ack_tile t pid bundled held)
| step_supersede pid bundled : (pid < PALETTE_TABLE_SLOTS)%nat → step t (supersede_tile t pid bundled)
| step_reset preserve : step t (on_session_reset t preserve)
| step_rebundle pid : step t (force_rebundle t pid).

Definition reachable (t : PaletteTable) : Prop := rtc step table_new t.

(** ** Well-formed tables *)

Record wf_table (t : PaletteTable) : Prop := {
  wf_entries : length t.(entries) = PALETTE_TABLE_SLOTS;
  wf_states : length t.(slot_state) = PALETTE_TABLE_SLOTS;
  wf_refs : length t.(ref_count) = PALETTE_TABLE_SLOTS;
  wf_delivered : length t.(delivered) = PALETTE_TABLE_SLOTS;
  wf_carrying : length t.(in_flight_carrying) = PALETTE_TABLE_SLOTS;
  wf_empty id : (id < PALETTE_TABLE_SLOTS)%nat → state_at t id = Empty ↔ entry_at t id = None;
  wf_held id : (id < PALETTE_TABLE_SLOTS)%nat → state_at t id = Held ↔ 1 ≤ refs_at t id;
  wf_refs_nonneg id : 0 ≤ refs_at t id;
  wf_free id : state_at t id = FreeButCached ↔ id ∈ t.(free_lru);
  wf_free_nodup : NoDup t.(free_lru);
  wf_unique i j p : entry_at t i = Some p → entry_at t j = Some p → i = j;
}.

Lemma default_insert {A} (d : A) l i j v :
  (i < length l)%nat → default d (<[i := v]> l !! j) = if decide (j = i) then v else default d (l !! j).
Proof.
  intros Hi. destruct (decide (j = i)) as [->|Hne].
  - by rewrite list_lookup_insert_eq.
  - by rewrite list_lookup_insert_ne by done.
Qed.

(** Read one field of an updated table. *)
Ltac upd :=
  unfold state_at, entry_at, refs_at, delivered_at, carrying_at in *;
  cbn [entries slot_state ref_count delivered in_flight_carrying free_lru stats_frame] in *;
  rewrite ?default_insert by lia.

Lemma state_of t id :
  wf_table t → (id < PALETTE_TABLE_SLOTS)%nat →
  state_at t id = if decide (1 ≤ refs_at t id) then Held
                  else match entry_at t id with Some _ => FreeButCached | None => Empty end.
Proof.
  intros Hw Hid. pose proof (wf_empty t Hw id Hid) as He. pose proof (wf_held t Hw id Hid) as Hh.
  destruct (state_at t id) eqn:Es; case_decide; try done; try naive_solver.
  - destruct (entry_at t id); naive_solver.
  - destruct (entry_at t id); naive_solver.
Qed.

Lemma state_slot t id : wf_table t → state_at t id ≠ Empty → (id < PALETTE_TABLE_SLOTS)%nat.
Proof.
  intros Hw Hs. apply Nat.nle_gt. intros Hge. apply Hs. unfold state_at.
  rewrite lookup_ge_None_2; [done|]. by rewrite (wf_states t Hw).
Qed.

Lemma table_new_wf : wf_table table_new.
Proof.
  assert (∀ id, state_at table_new id = Empty ∧ entry_at table_new id = None ∧ refs_at table_new id = 0) as H0.
  { intros id. unfold state_at, entry_at, refs_at. cbn [table_new entries slot_state ref_count].
    split_and!; destruct (_ !! _) eqn:E; try done; by apply lookup_replicate in E as [-> _]. }
  split; try done.
  - intros id _. by destruct (H0 id) as (-> & -> & _).
  - intros id _. destruct (H0 id) as (-> & _ & ->). split; [done|lia].
  - intros id. destruct (H0 id) as (_ & _ & ->). lia.
  - intros id. destruct (H0 id) as (-> & _ & _). cbn. split; [done|]. by intros ?%not_elem_of_nil.
  - constructor.
  - intros i j p. destruct (H0 i) as (_ & -> & _). done.
Qed.

Lemma acquire_wf t id :
  wf_table t → state_at t id ≠ Empty → wf_table (acquire t id).
Proof.
  intros Hw Hs. pose proof (state_slot t id Hw Hs) as Hid.
  pose proof (wf_refs_nonneg t Hw id) as Hr. destruct Hw as [He Hst Hrc Hd Hc Hem Hh Hnn Hfr Hnd Huq].
  assert (1 ≤ sat_add32 (refs_at t id) 1) as Hs1 by (unfold sat_add32; lia).
  assert (∀ j, state_at (acquire t id) j = if decide (j = id) then Held else state_at t j) as Hsa.
  { intros j. unfold acquire, state_at at 1. cbn [slot_state]. case_bool_decide as Ef.
    - rewrite default_insert by lia. done.
    - case_decide; [subst j|done]. fold (state_at t id). destruct (state_at t id) eqn:E; done. }
  assert (∀ j, refs_at (acquire t id) j = if decide (j = id) then sat_add32 (refs_at t id) 1 else refs_at t j) as Hra.
  { intros j. unfold acquire, refs_at at 1. cbn [ref_count]. by rewrite default_insert by lia. }
  split; try done.
  - unfold acquire. cbn [slot_state]. case_bool_decide; by rewrite ?length_insert.
  - unfold acquire. cbn [ref_count]. by rewrite length_insert.
  - intros j Hj. rewrite Hsa. change (entry_at (acquire t id) j) with (entry_at t j).
    case_decide; [subst j|by apply Hem]. specialize (Hem id Hid). naive_solver.
  - intros j Hj. rewrite Hsa, Hra. case_decide; [done|by apply Hh].
  - intros j. rewrite Hra. case_decide; [lia|apply Hnn].
  - intros j. rewrite Hsa. unfold acquire. cbn [free_lru]. case_bool_decide as Ef.
    + rewrite list_elem_of_filter, <-Hfr. case_decide; [subst j|]; naive_solver.
    + rewrite <-Hfr. case_decide; [subst j|done]. naive_solver.
  - unfold acquire. cbn [free_lru]. case_bool_decide; [by apply NoDup_filter|done].
Qed.

Lemma release_wf t id :
  wf_table t → (id < PALETTE_TABLE_SLOTS)%nat → 1 ≤ refs_at t id → wf_table (release t id).
Proof.
  intros Hw Hid Hr. destruct Hw as [He Hst Hrc Hd Hc Hem Hh Hnn Hfr Hnd Huq].
  assert (state_at t id = Held) as Hheld by by apply Hh.
  assert (sat_sub (refs_at t id) 1 = refs_at t id - 1) as Hsub by (unfold sat_sub; lia).
  assert (∀ j, refs_at (release t id) j = if decide (j = id) then refs_at t id - 1 else refs_at t j) as Hra.
  { intros j. unfold release, refs_at at 1. cbn [ref_count]. rewrite Hsub. by rewrite default_insert by lia. }
  assert (∀ j, state_at (release t id) j =
    if decide (j = id) then (if refs_at t id - 1 =? 0 then FreeButCached else Held) else state_at t j) as Hsa.
  { intros j. unfold release, state_at at 1. cbn [slot_state]. rewrite Hsub. destruct (refs_at t id - 1 =? 0).
    - by rewrite default_insert by lia.
    - case_decide; [by subst j|done]. }
  split; try done.
  - unfold release. cbn [slot_state]. destruct (sat_sub _ _ =? 0); by rewrite ?length_insert.
  - unfold release. cbn [ref_count]. by rewrite length_insert.
  - intros j Hj. rewrite Hsa. change (entry_at (release t id) j) with (entry_at t j).
    case_decide; [subst j|by apply Hem]. specialize (Hem id Hid). rewrite Hheld in Hem.
    destruct (refs_at t id - 1 =? 0); naive_solver.
  - intros j Hj. rewrite Hsa, Hra. case_decide; [|by apply Hh].
    destruct (Z.eqb_spec (refs_at t id - 1) 0); split; done || lia.
  - intros j. rewrite Hra. case_decide; [lia|apply Hnn].
  - intros j. rewrite Hsa. unfold release. cbn [free_lru]. rewrite Hsub.
    destruct (refs_at t id - 1 =? 0); rewrite ?elem_of_app, ?list_elem_of_singleton, <-Hfr;
      case_decide as Hj; [subst j; rewrite Hheld; tauto|tauto|subst j; by rewrite Hheld|done].
  - unfold release. cbn [free_lru]. destruct (sat_sub _ _ =? 0); [|done]. apply NoDup_app.
    split_and!; [done| |apply NoDup_singleton]. intros x Hx ->%list_elem_of_singleton.
    apply Hfr in Hx. congruence.
Qed.

(** The search loops. *)
Lemma first_slot_Some f id :
  first_slot f = Some id → f id = true ∧ (id < PALETTE_TABLE_SLOTS)%nat.
Proof.
  unfold first_slot. intros H. assert (id ∈ filter (λ id, f id = true) (seq 0 PALETTE_TABLE_SLOTS)) as Hin.
  { destruct (filter _ _); [done|]. injection H as ->. set_solver. }
  apply list_elem_of_filter in Hin as [Hf Hs%elem_of_seq]. split; [done|lia].
Qed.

Lemma first_slot_None f id :
  first_slot f = None → (id < PALETTE_TABLE_SLOTS)%nat → f id = false.
Proof.
  unfold first_slot. intros H Hid. destruct (f id) eqn:E; [|done].
  assert (id ∈ filter (λ id, f id = true) (seq 0 PALETTE_TABLE_SLOTS)) as Hin.
  { apply list_elem_of_filter. split; [done|]. apply elem_of_seq. lia. }
  destruct (filter _ _); [|done]. by apply not_elem_of_nil in Hin.
Qed.

Lemma find_matching_Some t p id :
  find_matching t p = Some id → entry_at t id = Some p ∧ state_at t id ≠ Empty.
Proof.
  intros [H _]%first_slot_Some. apply andb_true_iff in H as [H1%negb_true_iff H2%bool_decide_eq_true].
  apply bool_decide_eq_false in H1. done.
Qed.

Lemma find_matching_None t p i :
  wf_table t → find_matching t p = None → entry_at t i ≠ Some p.
Proof.
  intros Hw H Hi.
  assert (i < PALETTE_TABLE_SLOTS)%nat as Hlt.
  { rewrite <-(wf_entries t Hw). unfold entry_at in Hi. destruct (entries t !! i) eqn:E; [|done].
    by eapply lookup_lt_Some. }
  pose proof (first_slot_None _ i H Hlt) as Hf. cbn beta in Hf.
  rewrite (bool_decide_eq_true_2 _ Hi) in Hf.
  rewrite bool_decide_eq_false_2 in Hf; [done|]. intros He. apply (wf_empty t Hw i Hlt) in He. congruence.
Qed.

Lemma find_eligible_Some t id :
  find_eligible_free_slot t = Some id → state_at t id = FreeButCached ∧ overwrite_eligible t id = true.
Proof.
  unfold find_eligible_free_slot. intros H.
  assert (id ∈ filter (λ id, bool_decide (state_at t id = FreeButCached) && overwrite_eligible t id = true)
                      (free_lru t)) as Hin.
  { destruct (filter _ _); [done|]. injection H as ->. set_solver. }
  apply list_elem_of_filter in Hin as [Hf _]. apply andb_true_iff in Hf as [H1 H2].
  by apply bool_decide_eq_true in H1.
Qed.

(** Writing a slot leaves it [Held] with no reference: it must be acquired at once. *)
Lemma write_acquire_wf t id p :
  wf_table t → (id < PALETTE_TABLE_SLOTS)%nat → (∀ i, entry_at t i ≠ Some p) → refs_at t id = 0 →
  wf_table (acquire (write_bytes t id p) id).
Proof.
  intros Hw Hid Hnew Hr0. destruct Hw as [He Hst Hrc Hd Hc Hem Hh Hnn Hfr Hnd Huq].
  set (t' := acquire (write_bytes t id p) id).
  assert (∀ j, state_at t' j = if decide (j = id) then Held else state_at t j) as Hsa.
  { intros j. unfold t', acquire, write_bytes, state_at. cbn [slot_state].
    rewrite (bool_decide_eq_false_2 (default _ _ = FreeButCached))
      by (rewrite default_insert, decide_True by lia; done).
    by rewrite default_insert by lia. }
  assert (∀ j, refs_at t' j = if decide (j = id) then 1 else refs_at t j) as Hra.
  { intros j. unfold t', acquire, write_bytes, refs_at. cbn [ref_count].
    rewrite default_insert by (rewrite length_insert; lia). rewrite !default_insert by lia.
    rewrite (decide_True (P:=id = id)) by done. by case_decide. }
  assert (∀ j, entry_at t' j = if decide (j = id) then Some p else entry_at t j) as Hea.
  { intros j. unfold t', acquire, write_bytes, entry_at. cbn [entries]. by rewrite default_insert by lia. }
  assert (free_lru t' = filter (λ x, x ≠ id) (free_lru t)) as Hfl.
  { unfold t', acquire. cbn [free_lru]. rewrite bool_decide_eq_false_2; [done|].
    unfold state_at, write_bytes. cbn [slot_state]. rewrite default_insert, decide_True by lia. done. }
  split; try (unfold t', acquire, write_bytes; cbn [entries ref_count delivered in_flight_carrying];
              rewrite ?length_insert; done).
  - unfold t', acquire. cbn [slot_state]. case_bool_decide; cbn [write_bytes slot_state];
      by rewrite ?length_insert.
  - intros j Hj. rewrite Hsa, Hea. case_decide; [done|by apply Hem].
  - intros j Hj. rewrite Hsa, Hra. case_decide; [done|by apply Hh].
  - intros j. rewrite Hra. case_decide; [lia|apply Hnn].
  - intros j. rewrite Hsa, Hfl, list_elem_of_filter, <-Hfr. case_decide as Hj; tauto || (subst j; naive_solver).
  - rewrite Hfl. by apply NoDup_filter.
  - intros i j q. rewrite !Hea. repeat case_decide; subst; try done; [| |by apply Huq].
    + intros [= <-] Hj. by destruct (Hnew j).
    + intros Hi [= <-]. by destruct (Hnew i).
Qed.

(** Updates that touch neither slots, references nor the free list. *)
Lemma wf_same_slots t t' :
  wf_table t → entries t' = entries t → slot_state t' = slot_state t → ref_count t' = ref_count t →
  free_lru t' = free_lru t → length (delivered t') = length (delivered t) →
  length (in_flight_carrying t') = length (in_flight_carrying t) → wf_table t'.
Proof.
  intros [He Hst Hrc Hd Hc Hem Hh Hnn Hfr Hnd Huq] E1 E2 E3 E4 E5 E6.
  unfold state_at, entry_at, refs_at in *.
  split; unfold state_at, entry_at, refs_at; rewrite ?E1, ?E2, ?E3, ?E4, ?E5, ?E6; done.
Qed.

Lemma set_delivered_wf t id b : wf_table t → wf_table (set_delivered t id b).
Proof. intros Hw. apply (wf_same_slots t); try done. cbn. by rewrite length_insert. Qed.

Lemma set_carrying_wf t id v : wf_table t → wf_table (set_carrying t id v).
Proof. intros Hw. apply (wf_same_slots t); try done. cbn. by rewrite length_insert. Qed.

Lemma bump_stats_wf t a b : wf_table t → wf_table (bump_stats t a b).
Proof. intros Hw. by apply (wf_same_slots t). Qed.

#[export] Hint Resolve set_delivered_wf set_carrying_wf bump_stats_wf release_wf : ghost.

Lemma reset_states t j :
  state_at (on_session_reset t false) j =
    match entry_at t j with Some _ => FreeButCached | None => Empty end.
Proof.
  unfold state_at, on_session_reset, entry_at. cbn [slot_state]. rewrite list_lookup_fmap.
  by destruct (entries t !! j) as [[e|]|].
Qed.

Lemma on_session_reset_wf t b : wf_table t → wf_table (on_session_reset t b).
Proof.
  intros [He Hst Hrc Hd Hc Hem Hh Hnn Hfr Hnd Huq].
  assert (∀ j, state_at (on_session_reset t b) j =
    match entry_at t j with Some _ => FreeButCached | None => Empty end) as Hs by apply reset_states.
  assert (∀ j, refs_at (on_session_reset t b) j = 0) as Hr.
  { intros j. unfold refs_at, on_session_reset. cbn [ref_count]. destruct (_ !! _) eqn:E; [|done].
    by apply lookup_replicate in E as [-> _]. }
  split; try done.
  - cbn. by rewrite length_fmap.
  - cbn [delivered on_session_reset]. destruct b; [done|]. by rewrite length_replicate.
  - intros j Hj. rewrite Hs. change (entry_at (on_session_reset t b) j) with (entry_at t j).
    by destruct (entry_at t j).
  - intros j Hj. rewrite Hs, Hr. split; [by destruct (entry_at t j)|lia].
  - intros j. by rewrite Hr.
  - intros j. unfold on_session_reset. cbn [free_lru]. rewrite list_elem_of_filter, elem_of_seq.
    unfold state_at. cbn [slot_state]. rewrite list_lookup_fmap.
    destruct (entries t !! j) as [e|] eqn:E; cbn.
    + apply lookup_lt_Some in E. rewrite He in E. destruct e; split; try done; [intros _; split; [done|lia]|].
      by intros [? _].
    + split; [done|]. by intros [? _].
  - apply NoDup_filter, NoDup_seq.
Qed.

(** Allocation, branch by branch. *)
Inductive allocation (t : PaletteTable) (p : PaletteEntry) : PaletteTable * option nat → Prop :=
| alloc_reuse id :
    entry_at t id = Some p → state_at t id ≠ Empty → allocation t p (acquire t id, Some id)
| alloc_write id :
    (id < PALETTE_TABLE_SLOTS)%nat → (∀ i, entry_at t i ≠ Some p) → refs_at t id = 0 →
    state_at t id = Empty ∨ overwrite_eligible t id = true →
    allocation t p (acquire (write_bytes t id p) id, Some id)
| alloc_full :
    (∀ i, entry_at t i ≠ Some p) →
    (∀ id, (id < PALETTE_TABLE_SLOTS)%nat →
      state_at t id = Held ∨ state_at t id = FreeButCached ∧ overwrite_eligible t id = false) →
    allocation t p (t, None).

Lemma acquire_or_allocate_spec t p : wf_table t → allocation t p (acquire_or_allocate t p).
Proof.
  intros Hw. unfold acquire_or_allocate. destruct (find_matching t p) as [id|] eqn:Em.
  { apply find_matching_Some in Em as [He Hs]. by constructor. }
  assert (∀ i, entry_at t i ≠ Some p) as Hnew by (intros i; by apply find_matching_None).
  assert (∀ id, (id < PALETTE_TABLE_SLOTS)%nat → state_at t id ≠ Held → refs_at t id = 0) as Hr0.
  { intros id Hid Hs. pose proof (wf_held t Hw id Hid). pose proof (wf_refs_nonneg t Hw id).
    destruct (decide (1 ≤ refs_at t id)); [naive_solver|lia]. }
  destruct (find_empty_slot t) as [id|] eqn:Ee.
  { apply first_slot_Some in Ee as [Es%bool_decide_eq_true Hid].
    apply alloc_write; auto. apply Hr0; [done|]. by rewrite Es. }
  destruct (find_eligible_free_slot t) as [id|] eqn:Ef.
  { apply find_eligible_Some in Ef as [Es Hel].
    assert (id < PALETTE_TABLE_SLOTS)%nat by (apply (state_slot t id Hw); by rewrite Es).
    apply alloc_write; auto. apply Hr0; [done|]. by rewrite Es. }
  apply alloc_full; [done|]. intros id Hid.
  pose proof (first_slot_None _ id Ee Hid) as Hne%bool_decide_eq_false.
  destruct (state_at t id) eqn:Es; [done|by left|right]. split; [done|].
  destruct (overwrite_eligible t id) eqn:Eo; [|done].
  assert (id ∈ filter (λ id, bool_decide (state_at t id = FreeButCached) && overwrite_eligible t id = true)
                      (free_lru t)) as Hin.
  { apply list_elem_of_filter. rewrite Eo, bool_decide_eq_true_2 by done. split; [done|].
    by apply (wf_free t Hw). }
  unfold find_eligible_free_slot in Ef. destruct (filter _ _); [|done]. by apply not_elem_of_nil in Hin.
Qed.

Lemma acquire_or_allocate_wf t p : wf_table t → wf_table (acquire_or_allocate t p).1.
Proof.
  intros Hw. destruct (acquire_or_allocate_spec t p Hw); cbn [fst];
    auto using acquire_wf, write_acquire_wf.
Qed.

Lemma prepare_tile_wf t p : wf_table t → wf_table (prepare_tile t p).1.
Proof.
  intros Hw. unfold prepare_tile. pose proof (acquire_or_allocate_wf t p Hw) as Hw'.
  destruct (acquire_or_allocate t p) as [t' [id|]]; cbn [fst] in *; [|auto with ghost].
  destruct (negb _); auto with ghost.
Qed.

Lemma step_wf t t' : step t t' → wf_table t → wf_table t'.
Proof.
  intros Hstep Hw. destruct Hstep as [p|pid bundled held Hid|pid bundled Hid|b|pid].
  - by apply prepare_tile_wf.
  - unfold ack_tile. set (t1 := if negb _ then _ else _).
    assert (wf_table t1) as Hw1 by (unfold t1; destruct (negb _); auto with ghost).
    set (t2 := if bundled then _ else _).
    assert (wf_table t2) as Hw2 by (unfold t2; destruct bundled; auto with ghost).
    destruct (held && (0 <? refs_at t2 pid)) eqn:E; [|done].
    apply andb_true_iff in E as [_ E%Z.ltb_lt]. apply release_wf; [done|done|lia].
  - unfold supersede_tile. set (t2 := if bundled then _ else _).
    assert (wf_table t2) as Hw2 by (unfold t2; destruct bundled; auto with ghost).
    destruct (Z.ltb_spec 0 (refs_at t2 pid)); [|done]. apply release_wf; [done|done|lia].
  - by apply on_session_reset_wf.
  - by apply set_delivered_wf.
Qed.

(** ** Guarantees *)

Lemma reachable_wf_from t t' : rtc step t t' → wf_table t → wf_table t'.
Proof. induction 1 as [|t1 t2 t3 Hs _ IH]; [done|]. intros Hw. apply IH. by eapply step_wf. Qed.

(** Every palette table the transport can reach is well formed: a slot is
    [Empty] exactly when it has no palette, [Held] exactly when tiles hold
    references to it, [FreeButCached] exactly when it is on the free list (once);
    and no palette occupies two slots. *)
Theorem palette_table_invariant t : reachable t → wf_table t.
Proof. intros Hr. by apply (reachable_wf_from table_new), table_new_wf. Qed.

Lemma acquire_fields t id j :
  wf_table t → (id < PALETTE_TABLE_SLOTS)%nat → state_at t id ≠ Empty →
  entry_at (acquire t id) j = entry_at t j ∧
  delivered_at (acquire t id) j = delivered_at t j ∧ carrying_at (acquire t id) j = carrying_at t j ∧
  refs_at (acquire t id) j = (if decide (j = id) then sat_add32 (refs_at t id) 1 else refs_at t j) ∧
  state_at (acquire t id) j = (if decide (j = id) then Held else state_at t j).
Proof.
  intros Hw Hid Hs. split_and!; try done.
  - unfold acquire, refs_at at 1. cbn [ref_count]. rewrite default_insert; [done|]. by rewrite (wf_refs t Hw).
  - unfold acquire, state_at at 1. cbn [slot_state]. case_bool_decide as Ef.
    + rewrite default_insert; [done|]. by rewrite (wf_states t Hw).
    + case_decide; [subst j|done]. fold (state_at t id). by destruct (state_at t id).
Qed.

Lemma write_entry t id p j :
  wf_table t → (id < PALETTE_TABLE_SLOTS)%nat →
  entry_at (acquire (write_bytes t id p) id) j = if decide (j = id) then Some p else entry_at t j.
Proof.
  intros Hw Hid. unfold acquire, write_bytes, entry_at. cbn [entries].
  rewrite default_insert; [done|]. by rewrite (wf_entries t Hw).
Qed.

(** What allocation promises.  A granted slot holds exactly the requested
    palette, is [Held], and every other slot keeps its palette; if the slot held
    something else before, nothing referred to it and its bytes had either been
    delivered or were not in flight.  Allocation fails only when the palette is
    cached nowhere and every slot is in use or not yet safe to overwrite. *)
Theorem acquire_or_allocate_contract t p :
  wf_table t →
  match acquire_or_allocate t p with
  | (t', Some id) =>
      wf_table t' ∧ entry_at t' id = Some p ∧ state_at t' id = Held ∧
      (∀ j, j ≠ id → entry_at t' j = entry_at t j) ∧
      (entry_at t id ≠ Some p →
         refs_at t id = 0 ∧ (entry_at t id = None ∨ delivered_at t id = true ∨ carrying_at t id = 0))
  | (t', None) =>
      t' = t ∧ ∀ id, (id < PALETTE_TABLE_SLOTS)%nat →
        entry_at t id ≠ Some p ∧
        (state_at t id = Held ∨ delivered_at t id = false ∧ carrying_at t id ≠ 0)
  end.
Proof.
  intros Hw. pose proof (acquire_or_allocate_wf t p Hw) as Hw'.
  destruct (acquire_or_allocate_spec t p Hw) as [id He Hs|id Hid Hnew Hr Hel|Hnew Hfull]; cbn [fst] in Hw'.
  - pose proof (state_slot t id Hw Hs) as Hid.
    destruct (acquire_fields t id id Hw Hid Hs) as (_ & _ & _ & _ & Hst).
    rewrite decide_True in Hst by done. split_and!; try done.
  - assert (entry_at (acquire (write_bytes t id p) id) id = Some p) as Hent.
    { rewrite write_entry by done. by rewrite decide_True. }
    split_and!; [done|done| | |].
    + rewrite (state_of _ id Hw' Hid), decide_True; [done|]. apply (wf_held _ Hw' id Hid).
      unfold acquire, write_bytes, state_at. cbn [slot_state].
      assert (id < length (slot_state t))%nat by (by rewrite (wf_states t Hw)).
      rewrite bool_decide_eq_false_2; rewrite default_insert, decide_True by done; done.
    + intros j Hj. rewrite write_entry by done. by rewrite decide_False.
    + intros _. split; [done|]. destruct Hel as [Hem|Hov].
      * left. by apply (wf_empty t Hw id Hid).
      * unfold overwrite_eligible in Hov. rewrite Hr in Hov. cbn in Hov.
        apply orb_true_iff in Hov as [?|?%Z.eqb_eq]; auto.
  - split; [done|]. intros id Hid. split; [done|].
    destruct (Hfull id Hid) as [?|[Hs Hov]]; [by left|]. right.
    unfold overwrite_eligible in Hov. rewrite (state_of t id Hw Hid) in Hs.
    case_decide as Hr; [done|]. pose proof (wf_refs_nonneg t Hw id).
    rewrite (proj2 (Z.eqb_eq (refs_at t id) 0)) in Hov by lia. cbn in Hov.
    apply orb_false_iff in Hov as [? ?%Z.eqb_neq]. done.
Qed.

Lemma release_entries t id j : entry_at (release t id) j = entry_at t j.
Proof. done. Qed.

(** No transport step overwrites a palette that is still needed: as long as a
    tile refers to the slot, or its palette is on the wire and not yet known to
    have arrived, the slot's bytes do not change. *)
Theorem step_keeps_palettes_in_use t t' id pal :
  reachable t → step t t' → entry_at t id = Some pal →
  (1 ≤ refs_at t id ∨ (delivered_at t id = false ∧ carrying_at t id ≠ 0)) →
  entry_at t' id = Some pal.
Proof.
  intros Hreach Hstep Hent Huse.
  assert (wf_table t) as Hw by (by apply (reachable_wf_from table_new), table_new_wf).
  destruct Hstep as [p|pid bundled held Hid|pid bundled Hid|b|pid]; [|try done..].
  - unfold prepare_tile.
    assert (entry_at (acquire_or_allocate t p).1 id = Some pal) as Hkeep.
    { destruct (acquire_or_allocate_spec t p Hw) as [k He Hs|k Hk Hnew Hr Hel|]; cbn [fst]; [done| |done].
      rewrite write_entry by done. case_decide as Hki; [subst k|done]. exfalso.
      destruct Hel as [Hem|Hov].
      - apply (wf_empty t Hw id Hk) in Hem. congruence.
      - unfold overwrite_eligible in Hov. rewrite Hr in Hov, Huse. cbn in Hov.
        apply orb_true_iff in Hov as [?|?%Z.eqb_eq]; destruct Huse as [?|[? ?]]; congruence || lia. }
    destruct (acquire_or_allocate t p) as [t1 [k|]]; cbn [fst] in *; [|done].
    by destruct (negb _).
  - unfold ack_tile. destruct (negb _), bundled, (_ && _); done.
  - unfold supersede_tile. destruct bundled, (_ <? _); done.
Qed.

Lemma palette_table_invariant_witness : wf_table (prepare_tile table_new demo_palette).1.
Proof.
  apply (palette_table_invariant (prepare_tile table_new demo_palette).1).
  apply rtc_once, step_prepare.
Defined.

Lemma acquire_or_allocate_contract_witness :
  ∃ t', acquire_or_allocate table_new demo_palette = (t', Some 0%nat) ∧
        entry_at t' 0 = Some demo_palette ∧ state_at t' 0 = Held.
Proof.
  pose proof (acquire_or_allocate_contract table_new demo_palette table_new_wf) as H.
  destruct (acquire_or_allocate table_new demo_palette) as [t' [id|]] eqn:E; [|vm_compute in E; discriminate E].
  assert (id = 0%nat) as -> by (vm_compute in E; congruence).
  exists t'. split; [reflexivity|]. split; [exact (proj1 (proj2 H))|exact (proj1 (proj2 (proj2 H)))].
Defined.

Lemma step_keeps_palettes_in_use_witness :
  entry_at (force_rebundle (prepare_tile table_new demo_palette).1 0) 0 = Some demo_palette.
Proof.
  apply (step_keeps_palettes_in_use (prepare_tile table_new demo_palette).1 _ 0 demo_palette).
  - apply rtc_once, step_prepare.
  - apply step_rebundle.
  - vm_compute. reflexivity.
  - left. vm_compute. discriminate.
Defined.
