(* ===== verification/Parity.v ===== *)
(** * Forward error correction of tile datagrams
      ([transport/reliable_emitter/parity.rs] on the server;
       [ghostframe-client-core/src/parity_decoder.rs] and [ordered_map.rs] on the client)

    The server XORs every [k] consecutive source datagrams into a parity
    datagram, right-aligned, with a table of their lengths; the client keeps a
    bounded window of sources and rebuilds the one a group is missing.  The
    theorems: every group the builder emits is a run of consecutive sequence
    numbers; whatever the client rebuilds from such a group is the datagram
    that was lost, byte for byte; the client's memory stays bounded. *)

From Stdlib Require Import ZArith Lia.
From stdpp Require Import base option list numbers sets gmap relations.
From S2P Require Import Prelude Wire.

Local Open Scope Z_scope.

(** ** The server's group builder *)

(** [xor_into]: [out[pad + i] ^= src[i]], [pad = out.len() - src.len()]; a longer
    [src] would underflow. *)
Definition xor_into (out src : list Z) : outcome unit (list Z) :=
  assert_ (length src <=? length out)%nat ≫= λ _,
  let pad := (length out - length src)%nat in
  Ok (take pad out ++ zip_with Z.lxor (drop pad out) src).

Fixpoint xor_all (out : list Z) (sources : list (list Z)) : outcome unit (list Z) :=
  match sources with
  | [] => Ok out
  | src :: sources => out ← xor_into out src; xor_all out sources
  end.

Definition max_len (init : nat) (sources : list (list Z)) : nat :=
  foldl Nat.max init (length <$> sources).

Definition xor_payloads (sources : list (list Z)) : outcome unit (list Z) :=
  xor_all (replicate (max_len 0 sources) 0) sources.

Record GroupResult := {
  gr_group_first_wire_seq : Z;
  gr_k : Z;
  gr_source_lens : list Z;
  gr_parity : list Z;
}.

Record GroupBuilder := {
  gb_target_k : nat;
  gb_first_wire_seq : option Z;
  gb_last_wire_seq : option Z;
  gb_source_lens : list Z;
  gb_sources : list (list Z);
}.

Definition group_new (k : nat) : GroupBuilder :=
  {| gb_target_k := k; gb_first_wire_seq := None; gb_last_wire_seq := None;
     gb_source_lens := []; gb_sources := [] |}.

Definition group_reset (b : GroupBuilder) : GroupBuilder := group_new b.(gb_target_k).

Definition group_add (b : GroupBuilder) (wire_seq : Z) (source_bytes : list Z)
    : outcome unit (GroupBuilder * option GroupResult) :=
  let b := match b.(gb_last_wire_seq) with
           | Some last => if negb (wire_seq =? wadd32 last 1) then group_reset b else b
           | None => b
           end in
  let first := default wire_seq b.(gb_first_wire_seq) in
  let b := {| gb_target_k := b.(gb_target_k); gb_first_wire_seq := Some first;
              gb_last_wire_seq := Some wire_seq;
              gb_source_lens := b.(gb_source_lens) ++ [u16 (Z.of_nat (length source_bytes))];
              gb_sources := b.(gb_sources) ++ [source_bytes] |} in
  if (length b.(gb_sources) <? b.(gb_target_k))%nat then Ok (b, None) else
  parity ← xor_payloads b.(gb_sources);
  Ok (group_reset b,
      Some {| gr_group_first_wire_seq := first; gr_k := u8 (Z.of_nat b.(gb_target_k));
              gr_source_lens := b.(gb_source_lens); gr_parity := parity |}).

(** The envelope [feed_group] sends for a completed group. *)
Definition envelope_of (r : GroupResult) : TileParityEnvelope :=
  mkTileParityEnvelope r.(gr_group_first_wire_seq) r.(gr_k) 0 r.(gr_source_lens) r.(gr_parity).

(** ** The client's insertion-ordered map *)

Section ordered_map.
Context {K V : Type} `{EqDecision K}.

Fixpoint om_get (m : list (K * V)) (key : K) : option V :=
    match m with
    | [] => None
    | (k, v) :: m => if decide (k = key) then Some v else om_get m key
    end.

  (** An existing key is updated in place, a new one appended. *)
Fixpoint om_set (m : list (K * V)) (key : K) (value : V) : list (K * V) :=
    match m with
    | [] => [(key, value)]
    | (k, v) :: m => if decide (k = key) then (k, value) :: m else (k, v) :: om_set m key value
    end.

Fixpoint om_remove (m : list (K * V)) (key : K) : list (K * V) :=
    match m with
    | [] => []
    | (k, v) :: m => if decide (k = key) then m else (k, v) :: om_remove m key
    end.

Definition om_retain (f : K → V → bool) (m : list (K * V)) : list (K * V) :=
    filter (λ '(k, v), f k v = true) m.

Definition om_remove_oldest (m : list (K * V)) : list (K * V) := tail m.

Lemma om_get_set m key value k :
    om_get (om_set m key value) k = if decide (key = k) then Some value else om_get m k.
  Proof.
    induction m as [|[k0 v0] m IH]; cbn [om_set om_get]; [done|].
    destruct (decide (k0 = key)) as [->|Hne]; cbn [om_get].
    - by destruct (decide (key = k)).
    - rewrite IH. destruct (decide (k0 = k)) as [->|]; [by rewrite decide_False by done|done].
  Qed.

Lemma om_set_keys m key value :
    (om_set m key value).*1 = if decide (key ∈ m.*1) then m.*1 else m.*1 ++ [key].
  Proof.
    induction m as [|[k0 v0] m IH]; cbn [om_set]; [done|].
    rewrite fmap_cons. cbn [fst]. destruct (decide (k0 = key)) as [->|Hne].
    - rewrite decide_True by set_solver. done.
    - rewrite fmap_cons. cbn [fst]. rewrite IH.
      destruct (decide (key ∈ m.*1)); [rewrite decide_True by set_solver|rewrite decide_False by set_solver]; done.
  Qed.
End ordered_map.

(** ** The client's decoder *)

Record ParityDecoder := {
  pd_window : gmap Z (list Z);
  pd_order : list Z;
  pd_pending : list (Z * TileParityEnvelope);
  pd_newest_wire_seq : option Z;
  pd_window_capacity : nat;
  pd_max_evicted : option Z;
}.

Definition parity_new (window_capacity : nat) : ParityDecoder :=
  {| pd_window := ∅; pd_order := []; pd_pending := []; pd_newest_wire_seq := None;
     pd_window_capacity := window_capacity; pd_max_evicted := None |}.

Definition has_source (d : ParityDecoder) (wire_seq : Z) : bool :=
  bool_decide (is_Some (d.(pd_window) !! wire_seq)).

(** [(a.wrapping_sub(b) as i32) <= 0] *)
Definition seq_le (a b : Z) : bool := i32 (wsub32 a b) <=? 0.

(** [while self.window.len() > cap { match self.order.pop_front() ... }] *)
Fixpoint evict (cap : nat) (window : gmap Z (list Z)) (order : list Z) (max_evicted : option Z)
    : gmap Z (list Z) * list Z * option Z :=
  match order with
  | [] => (window, order, max_evicted)
  | oldest :: order' =>
      if (cap <? size window)%nat then
        evict cap (delete oldest window) order'
          (match max_evicted with
           | Some m => if seq_le oldest m then Some m else Some oldest
           | None => Some oldest
           end)
      else (window, order, max_evicted)
  end.

Definition covers (parity : TileParityEnvelope) (ws : Z) : bool :=
  wsub32 ws parity.(tp_group_first_wire_seq) <? parity.(tp_k).

(** The [k] sequence numbers of a group. *)
Definition group_seqs (parity : TileParityEnvelope) : list Z :=
  (λ i, wadd32 parity.(tp_group_first_wire_seq) (Z.of_nat i)) <$> seq 0 (Z.to_nat parity.(tp_k)).

Definition missing_in_window (window : gmap Z (list Z)) (parity : TileParityEnvelope) : list Z :=
  filter (λ ws, window !! ws = None) (group_seqs parity).

Definition try_recover (window : gmap Z (list Z)) (max_evicted : option Z)
    (parity : TileParityEnvelope) : outcome unit (option (list Z)) :=
  let received := omap (λ ws, window !! ws) (group_seqs parity) in
  match missing_in_window window parity with
  | [missing_ws] =>
      if match max_evicted with Some m => seq_le missing_ws m | None => false end then Ok None else
      let target_len := max_len (length parity.(tp_parity_payload)) received in
      out ← xor_into (replicate target_len 0) parity.(tp_parity_payload);
      out ← xor_all out received;
      let idx := Z.to_nat (wsub32 missing_ws parity.(tp_group_first_wire_seq)) in
      match parity.(tp_source_lens) !! idx with
      | None => Ok None
      | Some len =>
          let len := Z.to_nat len in
          if (length out <? len)%nat then Ok None else
          let recovered := drop (length out - len) out in
          if negb (is_tile_datagram recovered) then Ok None else Ok (Some recovered)
      end
  | _ => Ok None
  end.

(** The first pending parity, in insertion order, that covers [wire_seq] and recovers. *)
Fixpoint probe (window : gmap Z (list Z)) (max_evicted : option Z) (wire_seq : Z)
    (pending : list (Z * TileParityEnvelope)) : outcome unit (option (Z * list Z)) :=
  match pending with
  | [] => Ok None
  | (gfws, parity) :: pending =>
      if negb (covers parity wire_seq) then probe window max_evicted wire_seq pending else
      r ← try_recover window max_evicted parity;
      match r with
      | Some result => Ok (Some (gfws, result))
      | None => probe window max_evicted wire_seq pending
      end
  end.

Definition record_source (d : ParityDecoder) (wire_seq : Z) (bytes : list Z)
    : outcome unit (ParityDecoder * option (list Z)) :=
  let newest := match d.(pd_newest_wire_seq) with
                | Some prev => Z.max prev wire_seq
                | None => wire_seq
                end in
  let '(window, order, max_evicted) :=
    match d.(pd_window) !! wire_seq with
    | Some _ => (d.(pd_window), d.(pd_order), d.(pd_max_evicted))
    | None => evict d.(pd_window_capacity) (<[wire_seq := bytes]> d.(pd_window))
                    (d.(pd_order) ++ [wire_seq]) d.(pd_max_evicted)
    end in
  recovered ← probe window max_evicted wire_seq d.(pd_pending);
  Ok ({| pd_window := window; pd_order := order;
         pd_pending := match recovered with
                       | Some (gfws, _) => om_remove d.(pd_pending) gfws
                       | None => d.(pd_pending)
                       end;
         pd_newest_wire_seq := Some newest;
         pd_window_capacity := d.(pd_window_capacity);
         pd_max_evicted := max_evicted |},
      snd <$> recovered).

(** [while self.pending_parities.len() > cap { remove_oldest() }] *)
Definition drop_oldest (cap : nat) (m : list (Z * TileParityEnvelope)) : list (Z * TileParityEnvelope) :=
  Nat.iter (length m - cap) om_remove_oldest m.

Definition prune_pending (d : ParityDecoder) (pending : list (Z * TileParityEnvelope))
    : list (Z * TileParityEnvelope) :=
  let pending :=
    match d.(pd_newest_wire_seq) with
    | Some newest =>
        let horizon := sat_sub newest (u32 (Z.of_nat d.(pd_window_capacity))) in
        om_retain (λ gfws env,
          let group_last := Z.min (gfws + sat_sub env.(tp_k) 1) (2 ^ 32 - 1) in
          horizon <=? group_last) pending
    | None => pending
    end in
  drop_oldest d.(pd_window_capacity) pending.

Definition receive_parity (d : ParityDecoder) (env : TileParityEnvelope)
    : outcome unit (ParityDecoder * option (list Z)) :=
  result ← try_recover d.(pd_window) d.(pd_max_evicted) env;
  let pending :=
    match result with
    | None => if (0 <? length (missing_in_window d.(pd_window) env))%nat
              then prune_pending d (om_set d.(pd_pending) env.(tp_group_first_wire_seq) env)
              else d.(pd_pending)
    | Some _ => d.(pd_pending)
    end in
  Ok ({| pd_window := d.(pd_window); pd_order := d.(pd_order); pd_pending := pending;
         pd_newest_wire_seq := d.(pd_newest_wire_seq);
         pd_window_capacity := d.(pd_window_capacity);
         pd_max_evicted := d.(pd_max_evicted) |}, result).

(** ** Right-aligned XOR *)

(** The [j]-th byte counted from the end, zero past the start. *)
Definition rev_at (l : list Z) (j : nat) : Z := default 0 (reverse l !! j).

Lemma rev_at_lookup l j :
  rev_at l j = if (j <? length l)%nat then default 0 (l !! (length l - S j)%nat) else 0.
Proof.
  unfold rev_at. destruct (Nat.ltb_spec j (length l)) as [Hj|Hj].
  - by rewrite reverse_lookup by done.
  - rewrite lookup_ge_None_2; [done|]. by rewrite length_reverse.
Qed.

Lemma rev_at_replicate n j : rev_at (replicate n 0) j = 0.
Proof.
  rewrite rev_at_lookup. destruct (_ <? _)%nat; [|done]. destruct (_ !! _) eqn:E; [|done].
  by apply lookup_replicate in E as [-> _].
Qed.

(** A buffer whose last bytes are those of [s] ends with [s]. *)
Lemma suffix_of_rev_at out s :
  (length s ≤ length out)%nat → (∀ j, rev_at out j = rev_at s j) →
  drop (length out - length s) out = s.
Proof.
  intros Hl Hj. apply list_eq. intros i. rewrite lookup_drop.
  destruct (decide (i < length s)%nat) as [Hi|Hi]; [|by rewrite !lookup_ge_None_2 by lia].
  specialize (Hj (length s - S i)%nat). rewrite !rev_at_lookup in Hj.
  rewrite !(proj2 (Nat.ltb_lt _ _)) in Hj by lia.
  replace (length out - S (length s - S i))%nat with (length out - length s + i)%nat in Hj by lia.
  replace (length s - S (length s - S i))%nat with i in Hj by lia.
  destruct (lookup_lt_is_Some_2 out (length out - length s + i)) as [x Hx]; [lia|].
  destruct (lookup_lt_is_Some_2 s i Hi) as [y Hy]. rewrite Hx, Hy in *. cbn in Hj. by subst.
Qed.

Lemma xor_into_spec out src :
  (length src ≤ length out)%nat →
  ∃ o, xor_into out src = Ok o ∧ length o = length out ∧
       ∀ j, rev_at o j = Z.lxor (rev_at out j) (rev_at src j).
Proof.
  intros Hl. unfold xor_into, assert_. rewrite (proj2 (Nat.leb_le _ _)) by done.
  eexists. split; [done|].
  set (pad := (length out - length src)%nat). set (o := take pad out ++ _).
  assert (length o = length out) as Hlo.
  { unfold o. rewrite length_app, length_take, length_zip_with_r_eq; [|rewrite length_drop]; unfold pad; lia. }
  split; [done|]. intros j. rewrite !rev_at_lookup, Hlo.
  destruct (Nat.ltb_spec j (length out)) as [Ho|Ho].
  2: { rewrite (proj2 (Nat.ltb_ge _ _)) by lia. done. }
  unfold o. destruct (Nat.ltb_spec j (length src)) as [Hs|Hs].
  - rewrite lookup_app_r by (rewrite length_take; unfold pad; lia). rewrite lookup_zip_with, lookup_drop, length_take.
    destruct (lookup_lt_is_Some_2 out (length out - S j)) as [x Hx]; [lia|].
    destruct (lookup_lt_is_Some_2 src (length src - S j)) as [y Hy]; [lia|].
    replace (pad + (length out - S j - pad `min` length out))%nat with (length out - S j)%nat by (unfold pad; lia).
    replace (length out - S j - pad `min` length out)%nat with (length src - S j)%nat by (unfold pad; lia).
    by rewrite Hx, Hy.
  - rewrite lookup_app_l by (rewrite length_take; unfold pad; lia).
    rewrite lookup_take_lt by (unfold pad; lia). by rewrite Z.lxor_0_r.
Qed.

(** The XOR of the [j]-th bytes from the end. *)
Definition xsum (j : nat) (srcs : list (list Z)) : Z :=
  foldr (λ s acc, Z.lxor (rev_at s j) acc) 0 srcs.

Lemma xsum_app j a b : xsum j (a ++ b) = Z.lxor (xsum j a) (xsum j b).
Proof.
  induction a as [|s a IH]; cbn [xsum foldr app]; [done|].
  unfold xsum in IH. by rewrite IH, Z.lxor_assoc.
Qed.

Lemma xor_all_spec srcs : ∀ out,
  Forall (λ s, length s ≤ length out)%nat srcs →
  ∃ o, xor_all out srcs = Ok o ∧ length o = length out ∧
       ∀ j, rev_at o j = Z.lxor (rev_at out j) (xsum j srcs).
Proof.
  induction srcs as [|s srcs IH]; intros out Hl; cbn [xor_all].
  { exists out. split_and!; try done. intros j. by rewrite Z.lxor_0_r. }
  apply Forall_cons in Hl as [Hs Hl]. destruct (xor_into_spec out s Hs) as (o & -> & Hlo & Hj).
  rewrite bind_Ok. destruct (IH o) as (o' & -> & Hlo' & Hj').
  { eapply Forall_impl; [exact Hl|]. cbn. lia. }
  exists o'. split_and!; [done|lia|]. intros j. rewrite Hj', Hj. cbn [xsum foldr].
  by rewrite Z.lxor_assoc.
Qed.

Lemma max_len_spec init srcs :
  (init ≤ max_len init srcs)%nat ∧ Forall (λ s, length s ≤ max_len init srcs)%nat srcs.
Proof.
  unfold max_len. revert init. induction srcs as [|s srcs IH]; intros init; [done|].
  rewrite fmap_cons. cbn [foldl]. destruct (IH (Nat.max init (length s))) as [H1 H2].
  split; [lia|]. constructor; [lia|done].
Qed.

Lemma max_len_le init srcs n :
  (init ≤ n)%nat → Forall (λ s, length s ≤ n)%nat srcs → (max_len init srcs ≤ n)%nat.
Proof.
  unfold max_len. intros Hi Hs. revert init Hi. induction Hs as [|s srcs Hs _ IH]; intros init Hi; [done|].
  rewrite fmap_cons. cbn [foldl]. apply IH. lia.
Qed.

Lemma xor_payloads_spec srcs :
  ∃ p, xor_payloads srcs = Ok p ∧ length p = max_len 0 srcs ∧ ∀ j, rev_at p j = xsum j srcs.
Proof.
  unfold xor_payloads. destruct (xor_all_spec srcs (replicate (max_len 0 srcs) 0)) as (p & -> & Hl & Hj).
  { rewrite length_replicate. apply max_len_spec. }
  exists p. rewrite length_replicate in Hl. split_and!; [done|done|]. intros j.
  by rewrite Hj, rev_at_replicate, Z.lxor_0_l.
Qed.

(** XORing the parity with all sources but one leaves that one. *)
Lemma xor_recovers pre s post p :
  xor_payloads (pre ++ s :: post) = Ok p →
  ∃ out o, xor_into (replicate (max_len (length p) (pre ++ post)) 0) p = Ok out ∧
    xor_all out (pre ++ post) = Ok o ∧ (length s ≤ length o)%nat ∧
    drop (length o - length s) o = s.
Proof.
  intros Hp. destruct (xor_payloads_spec (pre ++ s :: post)) as (p' & Hp' & Hlp & Hj).
  rewrite Hp in Hp'. apply Ok_inj in Hp' as <-.
  destruct (max_len_spec (length p) (pre ++ post)) as [Hm Hf].
  destruct (xor_into_spec (replicate (max_len (length p) (pre ++ post)) 0) p) as (out & Ho & Hlo & Hjo).
  { by rewrite length_replicate. }
  rewrite length_replicate in Hlo. exists out.
  destruct (xor_all_spec (pre ++ post) out) as (o & Hoo & Hloo & Hjoo); [by rewrite Hlo|].
  exists o. split_and!; [done|done| |].
  - destruct (max_len_spec 0 (pre ++ s :: post)) as [_ Hs].
    apply Forall_app in Hs as [_ Hs]. apply Forall_cons in Hs as [Hs _]. lia.
  - apply suffix_of_rev_at.
    + destruct (max_len_spec 0 (pre ++ s :: post)) as [_ Hs].
      apply Forall_app in Hs as [_ Hs]. apply Forall_cons in Hs as [Hs _]. lia.
    + intros j. rewrite Hjoo, Hjo, rev_at_replicate, Z.lxor_0_l, Hj, !xsum_app. cbn [xsum foldr].
      fold (xsum j post). rewrite !Z.lxor_assoc.
      rewrite (Z.lxor_comm (xsum j post)), !Z.lxor_assoc, Z.lxor_nilpotent, Z.lxor_0_r.
      rewrite (Z.lxor_comm (rev_at s j)), <-Z.lxor_assoc, Z.lxor_nilpotent. apply Z.lxor_0_l.
Qed.

(** ** Groups *)

Definition is_run (h : list (Z * list Z)) : Prop :=
  match h with
  | [] => True
  | (first, _) :: _ => ∀ i ws bs, h !! i = Some (ws, bs) → ws = wadd32 first (Z.of_nat i)
  end.

(** [r] is the parity of the consecutive sources [h]. *)
Definition is_group (r : GroupResult) (h : list (Z * list Z)) : Prop :=
  is_run h ∧ fst <$> head h = Some r.(gr_group_first_wire_seq) ∧ Z.of_nat (length h) = r.(gr_k) ∧
  r.(gr_source_lens) = (λ s, u16 (Z.of_nat (length s))) <$> h.*2 ∧
  xor_payloads h.*2 = Ok r.(gr_parity).

(** The builder holds the run [h]. *)
Definition represents (b : GroupBuilder) (h : list (Z * list Z)) : Prop :=
  is_run h ∧ b.(gb_first_wire_seq) = fst <$> head h ∧ b.(gb_last_wire_seq) = fst <$> last h ∧
  b.(gb_sources) = h.*2 ∧ b.(gb_source_lens) = (λ s, u16 (Z.of_nat (length s))) <$> h.*2.

Lemma wadd32_add a i j : wadd32 (wadd32 a i) j = wadd32 a (i + j).
Proof.
  unfold wadd32, wrap. rewrite Z.add_mod_idemp_l by lia. f_equal. lia.
Qed.

Lemma is_run_snoc h ws bs :
  is_run h → fst <$> last h = Some (wadd32 ws (-1)) → in_width 32 ws → is_run (h ++ [(ws, bs)]).
Proof.
  intros Hr Hl Hw. destruct h as [|[f b0] h]; [done|]. cbn [app is_run].
  intros i ws' bs' Hi. change ((f, b0) :: h ++ [(ws, bs)]) with (((f, b0) :: h) ++ [(ws, bs)]) in Hi.
  apply lookup_app_Some in Hi as [Hi|[Hge Hi]]; [by apply (Hr i ws' bs')|].
  apply list_lookup_singleton_Some in Hi as [Hi Heq]. assert (ws' = ws) as -> by congruence.
  set (h' := (f, b0) :: h) in *.
  destruct (last h') as [[wl bl]|] eqn:El; [|done]. cbn in Hl. injection Hl as Hl.
  rewrite last_lookup in El. apply Hr in El. rewrite Hl in El.
  trans (wadd32 (wadd32 ws (-1)) 1).
  { rewrite wadd32_add. unfold wadd32. replace (ws + (-1 + 1)) with ws by lia. by rewrite wrap_small. }
  rewrite El, wadd32_add. f_equal. assert (length h' = S (length h)) by done. lia.
Qed.

Lemma is_run_one ws bs : in_width 32 ws → is_run [(ws, bs)].
Proof.
  intros Hw i w b Hi. destruct i; [|done]. cbn in Hi. injection Hi as <- <-.
  unfold wadd32. rewrite Z.add_0_r. by rewrite wrap_small.
Qed.

Definition extend (h : list (Z * list Z)) (ws : Z) (bs : list Z) : list (Z * list Z) :=
  match last h with
  | Some (l, _) => if ws =? wadd32 l 1 then h ++ [(ws, bs)] else [(ws, bs)]
  | None => [(ws, bs)]
  end.

Definition seqs_ok (h : list (Z * list Z)) : Prop := Forall (λ '(w, _), in_width 32 w) h.

Lemma extend_run h ws bs : is_run h → in_width 32 ws → seqs_ok h → is_run (extend h ws bs).
Proof.
  intros Hr Hw Hf. unfold extend. destruct (last h) as [[l bl]|] eqn:El; [|by apply is_run_one].
  destruct (Z.eqb_spec ws (wadd32 l 1)) as [Heq|]; [|by apply is_run_one].
  apply is_run_snoc; [done| |done]. rewrite El. cbn. f_equal. rewrite Heq, wadd32_add.
  unfold wadd32. rewrite Z.add_0_r. symmetry. apply wrap_small.
  rewrite last_lookup in El. apply (Forall_lookup_1 _ _ _ _ Hf El).
Qed.

(** One [add]: the run grows or restarts; when it is full it is emitted. *)
Lemma group_add_spec b h ws bs :
  represents b h → seqs_ok h → in_width 32 ws → (0 < b.(gb_target_k) ≤ 255)%nat →
  (length h < b.(gb_target_k))%nat →
  let h' := extend h ws bs in
  ∃ b' r, group_add b ws bs = Ok (b', r) ∧ b'.(gb_target_k) = b.(gb_target_k) ∧
    match r with
    | None => represents b' h' ∧ (length h' < b.(gb_target_k))%nat
    | Some r => is_group r h' ∧ length h' = b.(gb_target_k) ∧ represents b' []
    end.
Proof.
  intros (Hrun & Hfirst & Hlast & Hsrc & Hlens) Hok Hws Hk Hlen h'.
  assert (∃ b1, match b.(gb_last_wire_seq) with
      | Some last => if negb (ws =? wadd32 last 1) then group_reset b else b
      | None => b end = b1 ∧ b1.(gb_target_k) = b.(gb_target_k) ∧
      b1.(gb_sources) ++ [bs] = h'.*2 ∧
      b1.(gb_source_lens) ++ [u16 (Z.of_nat (length bs))] = (λ s, u16 (Z.of_nat (length s))) <$> h'.*2 ∧
      Some (default ws b1.(gb_first_wire_seq)) = fst <$> head h') as (b1 & Hb1 & Ht & Hs1 & Hl1 & Hf1).
  { rewrite Hlast. unfold h', extend. destruct (last h) as [[l bl]|] eqn:El; cbn [fmap option_fmap option_map fst].
    - destruct (ws =? wadd32 l 1); cbn [negb]; eexists; split; try done.
      rewrite !fmap_app, Hsrc, Hlens. split_and!; try done. rewrite Hfirst.
      by destruct h as [|[f b0] h].
    - apply last_None in El. subst h. eexists. split; [done|]. rewrite Hsrc, Hlens, Hfirst. done. }
  assert (is_run h') as Hrun' by (by apply extend_run).
  assert (fst <$> last h' = Some ws) as Hlast'.
  { unfold h', extend. destruct (last h) as [[l bl]|]; [|done].
    destruct (_ =? _); [|done]. by rewrite last_snoc. }
  assert (length h' ≤ b.(gb_target_k))%nat as Hlen'.
  { unfold h', extend. destruct (last h) as [[l bl]|]; cbn; [|lia].
    destruct (_ =? _); cbn; [|lia]. rewrite length_app. cbn. lia. }
  unfold group_add. rewrite Hb1. cbn [gb_target_k gb_sources gb_source_lens].
  rewrite Hs1, Ht, length_fmap. destruct (Nat.ltb_spec (length h') (gb_target_k b)) as [Hlt|Hge].
  - eexists _, _. split; [done|]. split; [done|]. split; [|done]. split_and!; try done; by symmetry.
  - destruct (xor_payloads_spec h'.*2) as (p & Hp & _). rewrite Hp, bind_Ok.
    eexists _, _. split; [done|]. split; [done|]. split_and!; [|lia|done].
    split_and!; cbn [gr_group_first_wire_seq gr_k gr_source_lens gr_parity]; try done.
    rewrite wrap_small by (widths; lia). lia.
Qed.

Fixpoint group_run (b : GroupBuilder) (adds : list (Z * list Z)) : outcome unit (list (option GroupResult)) :=
  match adds with
  | [] => Ok []
  | (ws, bs) :: adds =>
      '(b, r) ← group_add b ws bs;
      rs ← group_run b adds;
      Ok (r :: rs)
  end.

Lemma extend_suffix pre h ws bs :
  ∃ pre', pre ++ h ++ [(ws, bs)] = pre' ++ extend h ws bs.
Proof.
  unfold extend. destruct (last h) as [[l bl]|].
  - destruct (_ =? _); [by exists pre|]. exists (pre ++ h). by rewrite <-app_assoc.
  - exists (pre ++ h). by rewrite <-app_assoc.
Qed.

Lemma group_run_spec adds : ∀ b pre h,
  represents b h → seqs_ok (h ++ adds) → (0 < b.(gb_target_k) ≤ 255)%nat →
  (length h < b.(gb_target_k))%nat →
  ∃ rs, group_run b adds = Ok rs ∧
    ∀ n r, rs !! n = Some (Some r) →
      ∃ pre' g post, pre ++ h ++ take (S n) adds = pre' ++ g ∧ drop (S n) adds = post ∧
        is_group r g ∧ length g = b.(gb_target_k).
Proof.
  induction adds as [|[ws bs] adds IH]; intros b pre h Hrep Hok Hk Hlen; cbn [group_run].
  { exists []. split; [done|]. intros n r Hn. by rewrite lookup_nil in Hn. }
  apply Forall_app in Hok as [Hokh Hoka]. apply Forall_cons in Hoka as [Hws Hoka].
  destruct (group_add_spec b h ws bs Hrep Hokh Hws Hk Hlen) as (b' & r0 & -> & Ht & Hr0).
  rewrite bind_Ok. destruct (extend_suffix pre h ws bs) as (pre' & Hpre).
  assert (seqs_ok (extend h ws bs)) as Hoke.
  { unfold extend. assert (seqs_ok [(ws, bs)]) by (by apply Forall_singleton).
    destruct (last h) as [[l bl]|]; [|done]. destruct (_ =? _); [|done]. apply Forall_app. done. }
  destruct r0 as [r0|].
  - destruct Hr0 as (Hg & Hlg & Hrep').
    destruct (IH b' (pre' ++ extend h ws bs) [] Hrep') as (rs & -> & Hrs); [done|lia|cbn; lia|].
    exists (Some r0 :: rs). split; [done|]. intros [|n] r Hn; cbn in Hn.
    + injection Hn as <-. exists pre', (extend h ws bs), adds.
      split_and!; [exact Hpre|done|done|done].
    + destruct (Hrs n r Hn) as (p & g & post & Heq & Hpost & Hgr & Hlr).
      exists p, g, post. split_and!; [|done|done|by rewrite <-Ht]. rewrite <-Heq, <-Hpre.
      rewrite firstn_cons, app_nil_l, <-!app_assoc. done.
  - destruct Hr0 as (Hrep' & Hlen').
    destruct (IH b' pre' (extend h ws bs) Hrep') as (rs & -> & Hrs); [by apply Forall_app|lia|lia|].
    exists (None :: rs). split; [done|]. intros [|n] r Hn; cbn in Hn; [done|].
    destruct (Hrs n r Hn) as (p & g & post & Heq & Hpost & Hgr & Hlr).
    exists p, g, post. split_and!; [|done|done|by rewrite <-Ht].
    rewrite <-Heq, (app_assoc pre'), <-Hpre, firstn_cons, <-!app_assoc. done.
Qed.

(** Every parity the server emits is the XOR of its last [k] sources, and
    those sources carry [k] consecutive sequence numbers starting at the number
    the envelope names; gaps, restarts and wrap-around included. *)
Theorem parity_groups_are_runs k adds :
  (0 < k ≤ 255)%nat → seqs_ok adds →
  ∃ rs, group_run (group_new k) adds = Ok rs ∧
    ∀ n r, rs !! n = Some (Some r) →
      ∃ pre g, take (S n) adds = pre ++ g ∧ length g = k ∧ is_group r g.
Proof.
  intros Hk Hok. destruct (group_run_spec adds (group_new k) [] []) as (rs & Hrs & Hall);
    [done|done|done|cbn; lia|].
  exists rs. split; [done|]. intros n r Hn. destruct (Hall n r Hn) as (p & g & post & Heq & _ & Hg & Hl).
  by exists p, g.
Qed.

(** ** Recovery at the client *)

(** The window holds the sources of [h] except the [m]-th. *)
Definition window_misses (window : gmap Z (list Z)) (h : list (Z * list Z)) (m : nat) : Prop :=
  ∀ i ws bs, h !! i = Some (ws, bs) → window !! ws = if decide (i = m) then None else Some bs.

Lemma group_seqs_run r h : is_group r h → group_seqs (envelope_of r) = h.*1.
Proof.
  intros (Hrun & Hfirst & Hk & _). unfold group_seqs. cbn [envelope_of tp_k tp_group_first_wire_seq].
  apply list_eq. intros i. rewrite !list_lookup_fmap. rewrite <-Hk, Nat2Z.id.
  destruct (h !! i) as [[ws bs]|] eqn:Hi.
  - rewrite lookup_seq_lt by (by eapply lookup_lt_Some). cbn.
    destruct h as [|[f b0] h]; [done|]. injection Hfirst as <-. f_equal.
    symmetry. by apply (Hrun i ws bs).
  - rewrite lookup_ge_None_2; [done|]. rewrite length_seq. by apply lookup_ge_None_1.
Qed.

Lemma window_parts window h m :
  window_misses window h m →
  ∀ pre ws bs post, h = pre ++ (ws, bs) :: post → length pre = m →
    filter (λ w, window !! w = None) h.*1 = [ws] ∧ omap (λ w, window !! w) h.*1 = (pre ++ post).*2.
Proof.
  intros Hw pre ws bs post -> Hm.
  assert (∀ l, (∀ i w b, l !! i = Some (w, b) → window !! w = Some b) →
    filter (λ w, window !! w = None) l.*1 = [] ∧ omap (λ w, window !! w) l.*1 = l.*2) as Hpart.
  { intros l. induction l as [|[w b] l IH]; intros Hl; [done|].
    rewrite fmap_cons. cbn [fst]. destruct IH as [IH1 IH2].
    { intros i w' b' Hi. apply (Hl (S i)). done. }
    pose proof (Hl 0%nat w b eq_refl) as H0.
    rewrite filter_cons_False by (rewrite H0; done). split; [done|].
    cbn [omap list_omap]. by rewrite H0, IH2. }
  assert (window !! ws = None) as Hnone.
  { rewrite (Hw m ws bs); [by rewrite decide_True|]. by rewrite list_lookup_middle. }
  rewrite fmap_app, fmap_cons. cbn [fst].
  destruct (Hpart pre) as [F1 O1].
  { intros i w b Hi. rewrite (Hw i w b) by (by apply lookup_app_l_Some).
    rewrite decide_False; [done|]. apply lookup_lt_Some in Hi. lia. }
  destruct (Hpart post) as [F2 O2].
  { intros i w b Hi. rewrite (Hw (length pre + S i)%nat w b).
    - rewrite decide_False by lia. done.
    - rewrite lookup_app_r by lia. by replace (length pre + S i - length pre)%nat with (S i) by lia. }
  rewrite filter_app, omap_app, F1, O1. rewrite filter_cons_True by done. rewrite F2.
  split; [done|]. cbn [omap list_omap]. rewrite Hnone, fmap_app. by f_equal.
Qed.

(** A group the server built, of datagrams the server sends. *)
Definition wire_group (r : GroupResult) (h : list (Z * list Z)) : Prop :=
  is_group r h ∧ seqs_ok h ∧ (length h ≤ 255)%nat ∧
  Forall (λ '(_, s), is_tile_datagram s = true ∧ Z.of_nat (length s) < 2 ^ 16) h.

Lemma wsub_wadd f i : 0 ≤ i < 2 ^ 32 → in_width 32 f → wsub32 (wadd32 f i) f = i.
Proof.
  intros Hi Hf. unfold wsub32, wadd32, wrap. rewrite Zminus_mod_idemp_l.
  replace (f + i - f) with i by lia. by apply Z.mod_small.
Qed.

Lemma try_recover_exact window max_evicted r h m ws s :
  wire_group r h → h !! m = Some (ws, s) → window_misses window h m →
  match max_evicted with Some e => seq_le ws e = false | None => True end →
  try_recover window max_evicted (envelope_of r) = Ok (Some s).
Proof.
  intros (Hg & Hok & H255 & Htile) Hm Hw Hev. pose proof Hg as (Hrun & Hfirst & Hk & Hlens & Hpar).
  destruct (list_elem_of_split_length h m (ws, s) Hm) as (pre & post & Hh & Hpre).
  destruct (window_parts window h m Hw pre ws s post Hh (eq_sym Hpre)) as [Hmiss Hrecv].
  pose proof (Forall_lookup_1 _ _ _ _ Htile Hm) as [Ht Hl16].
  unfold try_recover, missing_in_window. rewrite (group_seqs_run r h Hg), Hmiss, Hrecv.
  cbn [envelope_of tp_parity_payload tp_group_first_wire_seq tp_source_lens].
  replace (match max_evicted with Some e => seq_le ws e | None => false end) with false
    by (destruct max_evicted; done).
  rewrite fmap_app. rewrite Hh, fmap_app, fmap_cons in Hpar. cbn [snd] in Hpar.
  destruct (xor_recovers _ _ _ _ Hpar) as (out & o & -> & Ho & Hlen & Hdrop).
  rewrite bind_Ok, Ho, bind_Ok.
  assert (Z.to_nat (wsub32 ws (gr_group_first_wire_seq r)) = m) as ->.
  { destruct h as [|[f b0] h']; [done|]. cbn in Hfirst. injection Hfirst as <-.
    rewrite (Hrun m ws s Hm). pose proof (Forall_lookup_1 _ _ 0%nat _ Hok eq_refl) as Hf. cbn in Hf.
    rewrite wsub_wadd; [lia| |done]. apply lookup_lt_Some in Hm. lia. }
  rewrite Hlens, !list_lookup_fmap, Hm. cbn [fmap option_fmap option_map snd].
  rewrite wrap_small, Nat2Z.id by (widths; lia).
  rewrite (proj2 (Nat.ltb_ge _ _)) by done. by rewrite Hdrop, Ht.
Qed.

(** Recovery is exact.  When the client holds all sources of a group the
    server built except one, and that one is newer than anything its window has
    forgotten, the group's parity returns the missing datagram byte for byte. *)
Theorem receive_parity_recovers d r h m ws s :
  wire_group r h → h !! m = Some (ws, s) → window_misses d.(pd_window) h m →
  match d.(pd_max_evicted) with Some e => seq_le ws e = false | None => True end →
  ∃ d', receive_parity d (envelope_of r) = Ok (d', Some s).
Proof.
  intros Hg Hm Hw Hev. unfold receive_parity.
  rewrite (try_recover_exact _ _ r h m ws s Hg Hm Hw Hev), bind_Ok. eauto.
Qed.

(** A parity that arrived too early is used as soon as it can be: if it is
    pending, no other pending group covers the arriving source, and after that
    arrival exactly one of its sources is still missing, [record_source]
    returns the missing datagram. *)
Theorem record_source_unlocks d r h m ws s wi si i :
  wire_group r h → h !! m = Some (ws, s) → h !! i = Some (wi, si) → i ≠ m →
  (gr_group_first_wire_seq r, envelope_of r) ∈ d.(pd_pending) →
  (∀ g e, (g, e) ∈ d.(pd_pending) → covers e wi = true → (g, e) = (gr_group_first_wire_seq r, envelope_of r)) →
  d.(pd_window) !! wi = None → (S (size d.(pd_window)) ≤ d.(pd_window_capacity))%nat →
  window_misses (<[wi := si]> d.(pd_window)) h m →
  match d.(pd_max_evicted) with Some e => seq_le ws e = false | None => True end →
  ∃ d', record_source d wi si = Ok (d', Some s).
Proof.
  intros Hg Hm Hi Hne Hpend Honly Hnew Hcap Hw Hev. unfold record_source. rewrite Hnew.
  assert (∀ order me, evict d.(pd_window_capacity) (<[wi := si]> d.(pd_window)) order me
    = (<[wi := si]> d.(pd_window), order, me)) as Hevict.
  { intros [|o order] me; [done|]. cbn [evict]. rewrite map_size_insert_None by done.
    by rewrite (proj2 (Nat.ltb_ge _ _)) by done. }
  rewrite Hevict. cbv iota.
  pose proof (try_recover_exact _ _ r h m ws s Hg Hm Hw Hev) as Hrec.
  assert (covers (envelope_of r) wi = true) as Hcov.
  { destruct Hg as ((Hrun & Hfirst & Hk & _) & Hok & H255 & _).
    unfold covers. cbn [envelope_of tp_group_first_wire_seq tp_k].
    destruct h as [|[f b0] h']; [done|]. cbn in Hfirst. injection Hfirst as <-.
    pose proof (Forall_lookup_1 _ _ 0%nat _ Hok eq_refl) as Hf. cbn in Hf.
    rewrite (Hrun i wi si Hi). apply lookup_lt_Some in Hi.
    rewrite wsub_wadd by (done || lia). apply Z.ltb_lt. lia. }
  assert (probe (<[wi := si]> d.(pd_window)) d.(pd_max_evicted) wi d.(pd_pending)
    = Ok (Some (gr_group_first_wire_seq r, s))) as ->; [|rewrite bind_Ok; eauto].
  revert Hpend Honly. induction (pd_pending d) as [|[g e] pend IH]; intros Hpend Honly.
  { by apply not_elem_of_nil in Hpend. }
  cbn [probe]. destruct (covers e wi) eqn:Ec; cbn [negb].
  - assert ((g, e) = (gr_group_first_wire_seq r, envelope_of r)) as [= -> ->].
    { apply Honly; [apply elem_of_cons; by left|done]. }
    by rewrite Hrec, bind_Ok.
  - apply IH.
    + apply elem_of_cons in Hpend as [Heq|?]; [|done]. injection Heq as <- <-. congruence.
    + intros g' e' Hin. apply Honly, elem_of_cons. by right.
Qed.

(** ** Bounded memory, and no panic on hostile envelopes *)

Record wf_decoder (d : ParityDecoder) : Prop := {
  wd_order : NoDup d.(pd_order);
  wd_dom : dom d.(pd_window) = list_to_set d.(pd_order);
  wd_window : (size d.(pd_window) ≤ d.(pd_window_capacity))%nat;
  wd_pending : (length d.(pd_pending) ≤ d.(pd_window_capacity))%nat;
}.

Lemma size_order (window : gmap Z (list Z)) order :
  NoDup order → dom window = list_to_set order → size window = length order.
Proof. intros Hn Hd. rewrite <-size_dom, Hd. by apply size_list_to_set. Qed.

Lemma evict_wf cap order : ∀ window me,
  NoDup order → dom window = list_to_set order →
  let '(window', order', _) := evict cap window order me in
  NoDup order' ∧ dom window' = list_to_set order' ∧ (size window' ≤ cap)%nat.
Proof.
  induction order as [|o order IH]; intros window me Hn Hd; cbn [evict].
  { rewrite (size_order window [] Hn Hd). split_and!; [done|done|cbn; lia]. }
  destruct (Nat.ltb_spec cap (size window)) as [Hlt|Hge]; [|done].
  apply NoDup_cons in Hn as [Hno Hn]. apply IH; [done|].
  rewrite dom_delete_L, Hd. cbn [list_to_set]. set_solver.
Qed.

Lemma try_recover_total window me env : ∃ r, try_recover window me env = Ok r.
Proof.
  unfold try_recover. destruct (missing_in_window window env) as [|ws [|]]; [eauto| |eauto].
  destruct (match me with Some m => _ | None => _ end); [eauto|].
  set (received := omap _ _). set (p := tp_parity_payload env).
  destruct (max_len_spec (length p) received) as [Hp Hr].
  destruct (xor_into_spec (replicate (max_len (length p) received) 0) p) as (out & -> & Hl & _).
  { by rewrite length_replicate. }
  rewrite bind_Ok. rewrite length_replicate in Hl.
  destruct (xor_all_spec received out) as (o & -> & _ & _); [by rewrite Hl|]. rewrite bind_Ok.
  destruct (_ !! _) as [len|]; [|eauto]. destruct (_ <? _)%nat; [eauto|]. destruct (negb _); eauto.
Qed.

Lemma probe_total window me ws pending : ∃ r, probe window me ws pending = Ok r.
Proof.
  induction pending as [|[g e] pending IH]; cbn [probe]; [eauto|].
  destruct (negb _); [done|]. destruct (try_recover_total window me e) as ([result|] & ->);
    rewrite bind_Ok; eauto.
Qed.

Lemma om_remove_length {V} (m : list (Z * V)) k : (length (om_remove m k) ≤ length m)%nat.
Proof.
  induction m as [|[k0 v0] m IH]; cbn [om_remove]; [done|]. destruct (decide _); cbn [length]; lia.
Qed.

Lemma drop_oldest_length cap m : (length (drop_oldest cap m) ≤ cap)%nat.
Proof.
  unfold drop_oldest. assert (∀ n (l : list (Z * TileParityEnvelope)),
    length (Nat.iter n om_remove_oldest l) = (length l - n)%nat) as H.
  { induction n as [|n IH]; intros l; cbn [Nat.iter nat_rect]; [lia|].
    change (length (om_remove_oldest (Nat.iter n om_remove_oldest l)) = (length l - S n)%nat).
    unfold om_remove_oldest at 1. specialize (IH l).
    destruct (Nat.iter n om_remove_oldest l); cbn [tail length] in *; lia. }
  rewrite H. lia.
Qed.

Inductive parity_step (d : ParityDecoder) : ParityDecoder → Prop :=
| parity_step_source ws bs d' r : record_source d ws bs = Ok (d', r) → parity_step d d'
| parity_step_parity env d' r : receive_parity d env = Ok (d', r) → parity_step d d'.

Lemma parity_step_wf d d' : parity_step d d' → wf_decoder d → wf_decoder d'.
Proof.
  intros Hs [Ho Hd Hw Hp]. destruct Hs as [ws bs d' r Hr|env d' r Hr].
  - unfold record_source in Hr.
    set (res := match pd_window d !! ws with Some _ => _ | None => _ end) in Hr.
    assert (let '(w, o, _) := res in NoDup o ∧ dom w = list_to_set o ∧ (size w ≤ d.(pd_window_capacity))%nat) as Hres.
    { unfold res. destruct (pd_window d !! ws) eqn:E; [done|]. apply evict_wf.
      - apply NoDup_app. split_and!; [done| |apply NoDup_singleton].
        intros x Hx ->%list_elem_of_singleton. apply not_elem_of_dom_2 in E. set_solver.
      - rewrite dom_insert_L, Hd, list_to_set_app_L. set_solver. }
    destruct res as [[w o] me]. destruct Hres as (H1 & H2 & H3).
    destruct (probe w me ws (pd_pending d)) as [rec| |]; [|done..]. rewrite bind_Ok in Hr.
    apply Ok_inj in Hr as [= <- _]. split; try done. cbn [pd_pending pd_window_capacity].
    destruct rec as [[g res]|]; [|done]. pose proof (om_remove_length (pd_pending d) g). lia.
  - unfold receive_parity in Hr. destruct (try_recover _ _ _) as [res| |]; [|done..].
    rewrite bind_Ok in Hr. apply Ok_inj in Hr as [= <- _]. split; try done.
    cbn [pd_pending pd_window_capacity]. destruct res; [done|]. destruct (_ <? _)%nat; [|done].
    unfold prune_pending. apply drop_oldest_length.
Qed.

Lemma parity_reachable_wf d d' : rtc parity_step d d' → wf_decoder d → wf_decoder d'.
Proof. induction 1 as [|a b c Hs _ IH]; [done|]. intros Hw. apply IH. by eapply parity_step_wf. Qed.

Lemma parity_capacity d d' : rtc parity_step d d' → pd_window_capacity d' = pd_window_capacity d.
Proof.
  induction 1 as [|d1 d2 d3 Hs _ IH]; [done|]. rewrite IH. destruct Hs as [ws bs d' r Hr|env d' r Hr].
  - unfold record_source in Hr. destruct (match pd_window d1 !! ws with Some _ => _ | None => _ end) as [[w o] me].
    destruct (probe _ _ _ _); [|done..]. rewrite bind_Ok in Hr. by apply Ok_inj in Hr as [= <- _].
  - unfold receive_parity in Hr. destruct (try_recover _ _ _); [|done..]. rewrite bind_Ok in Hr.
    by apply Ok_inj in Hr as [= <- _].
Qed.

Lemma parity_new_wf cap : wf_decoder (parity_new cap).
Proof. split; cbn; [constructor|by rewrite dom_empty_L|rewrite map_size_empty; lia|lia]. Qed.

(** Whatever a peer sends, the parity decoder neither panics nor grows: from
    any state it can reach, both handlers succeed on any input, and the source
    window and the set of buffered parities hold at most [window_capacity]
    entries each. *)
Theorem parity_decoder_bounded cap d ws bs env :
  rtc parity_step (parity_new cap) d →
  (size d.(pd_window) ≤ cap)%nat ∧ (length d.(pd_pending) ≤ cap)%nat ∧
  (∃ r, record_source d ws bs = Ok r) ∧ (∃ r, receive_parity d env = Ok r).
Proof.
  intros Hr. destruct (parity_reachable_wf _ _ Hr (parity_new_wf cap)) as [_ _ Hw Hp].
  rewrite (parity_capacity _ _ Hr) in Hw, Hp. cbn [parity_new pd_window_capacity] in Hw, Hp.
  split_and!; [done|done| |].
  - unfold record_source. destruct (match pd_window d !! ws with Some _ => _ | None => _ end) as [[w o] me].
    destruct (probe_total w me ws (pd_pending d)) as (r & ->). rewrite bind_Ok. eauto.
  - unfold receive_parity. destruct (try_recover_total (pd_window d) (pd_max_evicted d) env) as (r & ->).
    rewrite bind_Ok. eauto.
Qed.

(** Two tile datagrams of different lengths, and the parity the server makes of them. *)
Definition demo_run : list (Z * list Z) :=
  [(5, [0x80; 0; 0; 1; 7]); (6, [0x80; 0; 0; 2; 9; 9])].
Definition demo_group : GroupResult :=
  {| gr_group_first_wire_seq := 5; gr_k := 2; gr_source_lens := [5; 6];
     gr_parity := [0x80; 0x80; 0; 2; 8; 14] |}.

Lemma demo_wire_group : wire_group demo_group demo_run.
Proof.
  assert (seqs_ok demo_run) as Hok by (repeat constructor; wsolve).
  split_and!; [|done|cbn; lia|repeat constructor; vm_compute; done].
  split_and!; [|done|done|done|done].
  intros [|[|i]] ws bs Hi; cbn in Hi; [| |done]; injection Hi as <- _; vm_compute; reflexivity.
Qed.

Lemma parity_groups_are_runs_witness :
  ∃ rs, group_run (group_new 2) demo_run = Ok rs ∧
    ∀ n r, rs !! n = Some (Some r) → ∃ pre g, take (S n) demo_run = pre ++ g ∧ length g = 2%nat ∧ is_group r g.
Proof.
  apply (parity_groups_are_runs 2 demo_run); [lia|]. repeat constructor; wsolve.
Defined.

Definition demo_decoder (window : gmap Z (list Z)) (pending : list (Z * TileParityEnvelope)) : ParityDecoder :=
  {| pd_window := window; pd_order := (map_to_list window).*1; pd_pending := pending;
     pd_newest_wire_seq := None; pd_window_capacity := 8; pd_max_evicted := None |}.

Lemma demo_misses (window : gmap Z (list Z)) :
  window !! 5 = None → window !! 6 = Some [0x80; 0; 0; 2; 9; 9] → window_misses window demo_run 0.
Proof.
  intros H5 H6 [|[|i]] ws bs Hi; cbn in Hi; [| |done]; injection Hi as <- <-.
  - by rewrite decide_True.
  - by rewrite decide_False.
Qed.

Lemma receive_parity_recovers_witness :
  ∃ d', receive_parity (demo_decoder {[ 6 := [0x80; 0; 0; 2; 9; 9] ]} []) (envelope_of demo_group)
        = Ok (d', Some [0x80; 0; 0; 1; 7]).
Proof.
  apply (receive_parity_recovers _ demo_group demo_run 0 5); [exact demo_wire_group|reflexivity| |exact I].
  apply demo_misses; reflexivity.
Defined.

Lemma record_source_unlocks_witness :
  ∃ d', record_source (demo_decoder ∅ [(5, envelope_of demo_group)]) 6 [0x80; 0; 0; 2; 9; 9]
        = Ok (d', Some [0x80; 0; 0; 1; 7]).
Proof.
  apply (record_source_unlocks _ demo_group demo_run 0 5 _ 6 _ 1);
    [exact demo_wire_group|reflexivity|reflexivity|discriminate| | |reflexivity| | |exact I].
  - apply list_elem_of_here.
  - intros g e Hin _. apply list_elem_of_singleton in Hin. exact Hin.
  - cbn [demo_decoder pd_window pd_window_capacity]. rewrite map_size_empty. lia.
  - apply demo_misses; reflexivity.
Defined.

Lemma parity_decoder_bounded_witness :
  ∃ r, receive_parity (parity_new 4) (mkTileParityEnvelope 0 255 0 [] []) = Ok r.
Proof.
  exact (proj2 (proj2 (proj2 (parity_decoder_bounded 4 (parity_new 4) 0 []
    (mkTileParityEnvelope 0 255 0 [] []) (rtc_refl _ _))))).
Defined.
