(* ===== verification/Batchers.v ===== *)
(** * Batched client reports: acknowledgements, NACKs and decode errors

    Models [ghostframe-client-core/src/ack_batcher.rs], [nack_batcher.rs] and
    [decode_error_batcher.rs].  Both batchers queue entries and flush them at a
    count or when a deadline passes; what they have in common is stated once, as
    the interface [BatcherLaws], and every queued entry is shown to reach the
    peer exactly once as a fresh entry against that interface alone.  The
    decode-error reporter is shown to refine a rate limiter that remembers every
    report it ever let through. *)

From stdpp Require Import sorting.
From stdpp Require Import base option list numbers gmap.
From S2P Require Import Prelude Wire Control Prevalidate.

Local Open Scope Z_scope.

(** ** [ack_batcher.rs] *)

Definition FLUSH_INTERVAL_US : Z := 5000.
Definition MAX_RECENT : nat := ACK_OVERLAP_COUNT * 4.

Record AckBatcher : Type := mkAckBatcher {
  ab_entries : list AckEntry;
  ab_recent : list AckEntry;
  ab_deadline_us : option Z;
}.

Definition ack_batcher_new : AckBatcher := mkAckBatcher [] [] None.

(** The last [n] elements: [iter().rev().take(n).rev()], and what is left in a
    deque after popping its front down to [n]. *)
Definition lastn {A} (n : nat) (l : list A) : list A := drop (length l - n) l.

Definition ack_flush (b : AckBatcher) : AckBatcher * option (list Z) :=
  match b.(ab_entries) with
  | [] => (mkAckBatcher [] b.(ab_recent) None, None)
  | fresh =>
      let overlap := lastn ACK_OVERLAP_COUNT b.(ab_recent) in
      let out := ack_encode (fresh ++ overlap) in
      (mkAckBatcher [] (lastn MAX_RECENT (b.(ab_recent) ++ fresh)) None, Some out)
  end.

(** [if self.deadline_us.is_none() { .. = Some(now_us + FLUSH_INTERVAL_US) }] *)
Definition arm (deadline_us : option Z) (now_us : Z) : option Z :=
  match deadline_us with Some d => Some d | None => Some (u64 (now_us + FLUSH_INTERVAL_US)) end.

Definition ack_add (b : AckBatcher) (entry : AckEntry) (now_us : Z) : AckBatcher * option (list Z) :=
  let entries := b.(ab_entries) ++ [entry] in
  if (MAX_FRESH_ENTRIES_PER_BATCH <=? length entries)%nat
  then ack_flush (mkAckBatcher entries b.(ab_recent) b.(ab_deadline_us))
  else (mkAckBatcher entries b.(ab_recent) (arm b.(ab_deadline_us) now_us), None).

Definition ack_on_timeout (b : AckBatcher) (now_us : Z) : AckBatcher * option (list Z) :=
  match b.(ab_deadline_us) with
  | Some deadline => if deadline <=? now_us then ack_flush b else (b, None)
  | None => (b, None)
  end.

(** ** [nack_batcher.rs] *)

Definition NACK_BATCH_MAX : nat := 64.

Record NackEntry : Type := mkNackEntry {
  nk_frame_seq : Z;
  nk_tile_x : Z;
  nk_tile_y : Z;
  nk_pass_idx : Z;
}.

Record NackBatcher : Type := mkNackBatcher {
  nb_entries : list NackEntry;
  nb_deadline_us : option Z;
}.

Definition nack_batcher_new : NackBatcher := mkNackBatcher [] None.

Definition nack_to_wire (e : NackEntry) : TileNackEntry :=
  mkTileNackEntry e.(nk_frame_seq) e.(nk_tile_x) e.(nk_tile_y) e.(nk_pass_idx).

Definition nack_flush (b : NackBatcher) : NackBatcher * option (list Z) :=
  match b.(nb_entries) with
  | [] => (mkNackBatcher [] None, None)
  | entries => (mkNackBatcher [] None, Some (nack_encode (nack_to_wire <$> entries) []))
  end.

Definition nack_add (b : NackBatcher) (entry : NackEntry) (now_us : Z)
    : NackBatcher * option (list Z) :=
  let entries := b.(nb_entries) ++ [entry] in
  if (NACK_BATCH_MAX <=? length entries)%nat
  then nack_flush (mkNackBatcher entries b.(nb_deadline_us))
  else (mkNackBatcher entries (arm b.(nb_deadline_us) now_us), None).

Definition nack_on_timeout (b : NackBatcher) (now_us : Z) : NackBatcher * option (list Z) :=
  match b.(nb_deadline_us) with
  | Some deadline => if deadline <=? now_us then nack_flush b else (b, None)
  | None => (b, None)
  end.

(** ** What a batcher promises *)

(** The operations, and the view of the state the laws speak about. *)
Class Batching (B E : Type) : Type := {
  bt_pending : B → list E;
  bt_deadline : B → option Z;
  bt_add : B → E → Z → B * option (list Z);
  bt_on_timeout : B → Z → B * option (list Z);
  bt_flush : B → B * option (list Z);
}.

(** [sent] is the history of entries already flushed.  [carries sent m es]: the
    message [m] is one the peer decodes, and its fresh entries are [es]. *)
Class BatcherLaws (B E : Type) `{!Batching B E} (cap : nat) (valid : E → Prop)
    (inv : list E → B → Prop) (carries : list E → list Z → list E → Prop) : Prop := {
  law_pending sent b :
    inv sent b → Forall valid (bt_pending b) ∧ (length (bt_pending b) < cap)%nat
      ∧ (bt_deadline b = None ↔ bt_pending b = []);
  law_flush sent b b' out :
    inv sent b → bt_flush b = (b', out) →
    bt_pending b' = [] ∧ inv (sent ++ bt_pending b) b'
    ∧ match out with Some m => bt_pending b ≠ [] ∧ carries sent m (bt_pending b)
                   | None => bt_pending b = [] end;
  law_add sent b e now b' out :
    inv sent b → valid e → bt_add b e now = (b', out) →
    match out with
    | Some m => bt_pending b' = [] ∧ inv (sent ++ bt_pending b ++ [e]) b'
        ∧ carries sent m (bt_pending b ++ [e])
    | None => bt_pending b' = bt_pending b ++ [e] ∧ inv sent b'
        ∧ bt_deadline b' = arm (bt_deadline b) now
    end;
  law_on_timeout b now :
    bt_on_timeout b now = match bt_deadline b with
                          | Some d => if d <=? now then bt_flush b else (b, None)
                          | None => (b, None)
                          end;
}.

(** A history of calls, and running it: the messages emitted, in order. *)
Inductive batch_op (E : Type) : Type :=
| OpAdd (e : E) (now_us : Z)
| OpTimeout (now_us : Z)
| OpFlush.
Arguments OpAdd {E} e now_us.
Arguments OpTimeout {E} now_us.
Arguments OpFlush {E}.

Definition batch_step {B E} `{!Batching B E} (b : B) (op : batch_op E) : B * option (list Z) :=
  match op with
  | OpAdd e now => bt_add b e now
  | OpTimeout now => bt_on_timeout b now
  | OpFlush => bt_flush b
  end.

Fixpoint batch_run {B E} `{!Batching B E} (b : B) (ops : list (batch_op E)) : B * list (list Z) :=
  match ops with
  | [] => (b, [])
  | op :: ops =>
      let '(b1, out) := batch_step b op in
      let '(b2, ms) := batch_run b1 ops in
      (b2, option_list out ++ ms)
  end.

Definition queued {E} (ops : list (batch_op E)) : list E :=
  omap (λ op, match op with OpAdd e _ => Some e | _ => None end) ops.

(** The messages [ms] carry the batches [bs], one after the other. *)
Fixpoint delivers {E} (cap : nat) (carries : list E → list Z → list E → Prop)
    (sent : list E) (ms : list (list Z)) (bs : list (list E)) : Prop :=
  match ms, bs with
  | [], [] => True
  | m :: ms, es :: bs =>
      carries sent m es ∧ (0 < length es ≤ cap)%nat ∧ delivers cap carries (sent ++ es) ms bs
  | _, _ => False
  end.

Section batcher_client.
Context {B E : Type} `{!Batching B E} {cap : nat} {valid : E → Prop}
  {inv : list E → B → Prop} {carries : list E → list Z → list E → Prop}
  `{!BatcherLaws B E cap valid inv carries}.

(** One call: what it queued is either still pending, behind what was pending
    before, or in the message it emitted. *)
Lemma batch_step_spec sent b op b' out :
  inv sent b → Forall valid (queued [op]) → batch_step b op = (b', out) →
  match out with
  | Some m => inv (sent ++ bt_pending b ++ queued [op]) b' ∧ bt_pending b' = []
      ∧ carries sent m (bt_pending b ++ queued [op])
      ∧ (0 < length (bt_pending b ++ queued [op]) ≤ cap)%nat
  | None => inv sent b' ∧ bt_pending b' = bt_pending b ++ queued [op]
  end.
Proof.
  intros Hinv Hv Hstep. destruct (law_pending sent b Hinv) as (Hp & Hlen & _).
  assert (∀ b'' out'', bt_flush b = (b'', out'') →
    match out'' with
    | Some m => inv (sent ++ bt_pending b ++ []) b'' ∧ bt_pending b'' = []
        ∧ carries sent m (bt_pending b ++ []) ∧ (0 < length (bt_pending b ++ []) ≤ cap)%nat
    | None => inv sent b'' ∧ bt_pending b'' = bt_pending b ++ []
    end) as Hflush.
  { intros b'' out'' Hf. destruct (law_flush sent b b'' out'' Hinv Hf) as (He & Hi & Ho).
    rewrite app_nil_r. destruct out'' as [m|].
    - destruct Ho as [Hne Hc]. split_and!; try done; [|lia]. destruct (bt_pending b); cbn; [done|lia].
    - rewrite Ho, app_nil_r in *. done. }
  destruct op as [e now|now|]; cbn [batch_step queued omap list_omap] in *.
  - pose proof (law_add sent b e now b' out Hinv (Forall_inv Hv) Hstep) as Ha.
    destruct out as [m|]; [|naive_solver]. rewrite length_app. cbn. split_and!; try tauto; lia.
  - rewrite law_on_timeout in Hstep.
    destruct (bt_deadline b) as [d|]; [destruct (d <=? now)|]; [by apply Hflush|..];
      injection Hstep as <- <-; by rewrite app_nil_r.
  - by apply Hflush.
Qed.

(** Every entry is delivered exactly once as a fresh entry, in the order it was
    queued, or is still pending. *)
Lemma batch_run_delivers ops : ∀ sent b b' ms,
  inv sent b → Forall valid (queued ops) → batch_run b ops = (b', ms) →
  ∃ bs, delivers cap carries sent ms bs ∧ bt_pending b ++ queued ops = concat bs ++ bt_pending b'
    ∧ inv (sent ++ concat bs) b'.
Proof.
  induction ops as [|op ops IH]; intros sent b b' ms Hinv Hv Hrun; cbn [batch_run] in Hrun.
  { injection Hrun as <- <-. exists []. cbn. by rewrite !app_nil_r. }
  destruct (batch_step b op) as [b1 out] eqn:Hs.
  destruct (batch_run b1 ops) as [b2 ms'] eqn:Hr. injection Hrun as <- <-.
  assert (queued (op :: ops) = queued [op] ++ queued ops) as Hq by (by destruct op).
  rewrite Hq in *. apply Forall_app in Hv as [Hv1 Hv2].
  pose proof (batch_step_spec sent b op b1 out Hinv Hv1 Hs) as Hspec.
  destruct out as [m|]; [destruct Hspec as (Hi & Hp & Hc & Hl)|destruct Hspec as (Hi & Hp)].
  - destruct (IH _ _ _ _ Hi Hv2 Hr) as (bs & Hd & He & Hi').
    exists ((bt_pending b ++ queued [op]) :: bs). cbn [option_list option_rect app delivers concat].
    split_and!; try done; try lia.
    + rewrite Hp in He. cbn [app] in He. by rewrite He, !app_assoc.
    + by rewrite <-!app_assoc in *.
  - destruct (IH _ _ _ _ Hi Hv2 Hr) as (bs & Hd & He & Hi').
    exists bs. split_and!; [done| |done]. by rewrite app_assoc, <-Hp.
Qed.

(** A timeout at the deadline leaves nothing pending. *)
Lemma timeout_flushes sent b d now :
  inv sent b → bt_deadline b = Some d → d ≤ now → bt_pending (bt_on_timeout b now).1 = [].
Proof.
  intros Hinv Hd Hle. rewrite law_on_timeout, Hd, (proj2 (Z.leb_le _ _)) by done.
  destruct (bt_flush b) as [b' out] eqn:Hf. by destruct (law_flush sent b b' out Hinv Hf).
Qed.

Lemma batch_run_idle sent b :
  inv sent b → bt_deadline b = None ↔ bt_pending b = [].
Proof. intros Hinv. by apply (law_pending sent b). Qed.
End batcher_client.

(** ** The two batchers keep the promise *)

#[export] Instance AckBatching : Batching AckBatcher AckEntry := {
  bt_pending := ab_entries;
  bt_deadline := ab_deadline_us;
  bt_add := ack_add;
  bt_on_timeout := ack_on_timeout;
  bt_flush := ack_flush;
}.

#[export] Instance NackBatching : Batching NackBatcher NackEntry := {
  bt_pending := nb_entries;
  bt_deadline := nb_deadline_us;
  bt_add := nack_add;
  bt_on_timeout := nack_on_timeout;
  bt_flush := nack_flush;
}.

Definition queue_ok {E} (cap : nat) (valid : E → Prop) (entries : list E) (deadline : option Z) : Prop :=
  Forall valid entries ∧ (length entries < cap)%nat ∧ (deadline = None ↔ entries = []).

(** An ACK batch repeats, after its fresh entries, the last eight sent before. *)
Definition ack_carries (sent : list AckEntry) (m : list Z) (es : list AckEntry) : Prop :=
  ack_decode m = Ok (es ++ lastn ACK_OVERLAP_COUNT sent).

Definition ack_inv (sent : list AckEntry) (b : AckBatcher) : Prop :=
  Forall ae_ok sent ∧ b.(ab_recent) = lastn MAX_RECENT sent
  ∧ queue_ok MAX_FRESH_ENTRIES_PER_BATCH ae_ok b.(ab_entries) b.(ab_deadline_us).

Definition nk_ok (e : NackEntry) : Prop := ne_ok (nack_to_wire e).

Definition nack_carries (sent : list NackEntry) (m : list Z) (es : list NackEntry) : Prop :=
  nack_decode m = Ok (nack_to_wire <$> es).

Definition nack_inv (sent : list NackEntry) (b : NackBatcher) : Prop :=
  queue_ok NACK_BATCH_MAX nk_ok b.(nb_entries) b.(nb_deadline_us).

Lemma lastn_lastn {A} n m (l : list A) : (n ≤ m)%nat → lastn n (lastn m l) = lastn n l.
Proof. intros. unfold lastn. rewrite length_drop, drop_drop. f_equal. lia. Qed.

Lemma lastn_app_lastn {A} n (l k : list A) : lastn n (lastn n l ++ k) = lastn n (l ++ k).
Proof.
  unfold lastn. rewrite !length_app, length_drop, !drop_app, drop_drop, length_drop.
  f_equal; f_equal; lia.
Qed.

Lemma lastn_length {A} n (l : list A) : (length (lastn n l) ≤ n)%nat.
Proof. unfold lastn. rewrite length_drop. lia. Qed.

Lemma Forall_lastn {A} (P : A → Prop) n l : Forall P l → Forall P (lastn n l).
Proof. apply Forall_drop. Qed.

Lemma queue_ok_empty {E} cap (valid : E → Prop) : (0 < cap)%nat → queue_ok cap valid [] None.
Proof. intros. by split_and!. Qed.

Lemma queue_ok_snoc {E} cap (valid : E → Prop) es d e now :
  queue_ok cap valid es d → valid e → (length (es ++ [e]) < cap)%nat →
  queue_ok cap valid (es ++ [e]) (arm d now).
Proof.
  intros (? & ? & ?) He Hl. split_and!; [by apply Forall_app_2; [|constructor]|done|].
  unfold arm. destruct d; destruct es; done.
Qed.

(** Flushing a queue of at most [MAX_FRESH_ENTRIES_PER_BATCH] entries. *)
Lemma ack_flush_spec sent es d b' out :
  Forall ae_ok sent → Forall ae_ok es → (length es ≤ MAX_FRESH_ENTRIES_PER_BATCH)%nat →
  ack_flush (mkAckBatcher es (lastn MAX_RECENT sent) d) = (b', out) →
  ab_entries b' = [] ∧ ack_inv (sent ++ es) b'
  ∧ match out with Some m => es ≠ [] ∧ ack_carries sent m es | None => es = [] end.
Proof.
  intros Hs He Hl. unfold ack_flush. cbn [ab_entries ab_recent].
  assert (queue_ok MAX_FRESH_ENTRIES_PER_BATCH ae_ok [] None) as Hq
    by (apply queue_ok_empty; unfold MAX_FRESH_ENTRIES_PER_BATCH; lia).
  assert (∀ l : list AckEntry, (length (lastn ACK_OVERLAP_COUNT l) ≤ 8)%nat) as Hov
    by (intros; apply lastn_length).
  destruct es as [|e es]; intros [= <- <-]; cbn [ab_entries].
  - rewrite app_nil_r. split; [done|]. by split; [split_and!|].
  - split_and!; [done| |done|].
    + unfold ack_inv. cbn [ab_recent ab_entries ab_deadline_us]. rewrite lastn_app_lastn.
      split_and!; [by apply Forall_app_2|done|done].
    + unfold ack_carries. rewrite lastn_lastn by (unfold MAX_RECENT; lia).
      apply ack_batch_roundtrip.
      * specialize (Hov sent). rewrite length_app.
        unfold MAX_ACK_ENTRIES_PER_BATCH, ACK_OVERLAP_COUNT in *. cbn [length] in *. lia.
      * apply Forall_app_2; [done|by apply Forall_lastn].
Qed.

#[export] Instance ack_batcher_laws :
  BatcherLaws AckBatcher AckEntry MAX_FRESH_ENTRIES_PER_BATCH ae_ok ack_inv ack_carries.
Proof.
  split; cbn [bt_pending bt_deadline bt_flush bt_add bt_on_timeout AckBatching].
  - by intros sent b (_ & _ & H).
  - intros sent [es r d] b' out (Hs & Hr & He & Hl & _) Hf. cbn in *. subst r.
    apply (ack_flush_spec sent es d); [done|done|lia|done].
  - intros sent [es r d] e now b' out (Hs & Hr & Hq) Hv Ha. cbn in *. subst r.
    pose proof Hq as (He & Hl & _). unfold ack_add in Ha. cbn [ab_entries ab_recent ab_deadline_us] in Ha.
    destruct (Nat.leb_spec MAX_FRESH_ENTRIES_PER_BATCH (length (es ++ [e]))) as [Hge|Hlt].
    + apply ack_flush_spec in Ha as (H1 & H2 & H3);
        [|done|by apply Forall_app_2; [|constructor]|rewrite length_app; cbn; lia].
      destruct out as [m|]; [tauto|by destruct es].
    + injection Ha as <- <-. cbn. split_and!; try done. split_and!; try done. by apply queue_ok_snoc.
  - done.
Qed.

Lemma nack_flush_spec sent es d b' out :
  Forall nk_ok es → (length es ≤ NACK_BATCH_MAX)%nat →
  nack_flush (mkNackBatcher es d) = (b', out) →
  nb_entries b' = [] ∧ nack_inv (sent ++ es) b'
  ∧ match out with Some m => es ≠ [] ∧ nack_carries sent m es | None => es = [] end.
Proof.
  intros He Hl. unfold nack_flush. cbn [nb_entries].
  assert (queue_ok NACK_BATCH_MAX nk_ok [] None) as Hq
    by (apply queue_ok_empty; unfold NACK_BATCH_MAX; lia).
  destruct es as [|e es]; intros [= <- <-]; split_and!; try done.
  unfold nack_carries, nack_encode. rewrite <-(app_nil_r (nack_write _ _)).
  apply nack_decode_write.
  - rewrite length_fmap. unfold TILE_NACK_MAX_ENTRIES, NACK_BATCH_MAX in *. lia.
  - by apply Forall_fmap.
Qed.

#[export] Instance nack_batcher_laws :
  BatcherLaws NackBatcher NackEntry NACK_BATCH_MAX nk_ok nack_inv nack_carries.
Proof.
  split; cbn [bt_pending bt_deadline bt_flush bt_add bt_on_timeout NackBatching].
  - by intros sent b H.
  - intros sent [es d] b' out (He & Hl & _) Hf. cbn in *.
    apply (nack_flush_spec sent es d); [done|lia|done].
  - intros sent [es d] e now b' out Hq Hv Ha. unfold nack_inv in Hq. cbn in *.
    pose proof Hq as (He & Hl & _). unfold nack_add in Ha. cbn [nb_entries nb_deadline_us] in Ha.
    destruct (Nat.leb_spec NACK_BATCH_MAX (length (es ++ [e]))) as [Hge|Hlt].
    + apply (nack_flush_spec sent) in Ha as (H1 & H2 & H3);
        [|by apply Forall_app_2; [|constructor]|rewrite length_app; cbn; lia].
      destruct out as [m|]; [tauto|by destruct es].
    + injection Ha as <- <-. cbn. split_and!; try done. by apply queue_ok_snoc.
  - done.
Qed.

(** C39: Acknowledgements are neither lost nor duplicated by batching.  Over any
    sequence of [add], [on_timeout] and [flush] calls on a fresh batcher, the
    entries queued are, in order, the fresh entries of the messages emitted
    followed by what is still pending; every message is one the server decodes,
    carries 1 to 64 fresh entries and repeats after them the last eight entries
    sent before it; a deadline is armed exactly while entries are pending, and a
    timeout at the deadline empties the queue. *)
Theorem ack_batches_deliver ops :
  Forall ae_ok (queued ops) →
  let '(b, ms) := batch_run ack_batcher_new ops in
  ∃ bs, delivers MAX_FRESH_ENTRIES_PER_BATCH ack_carries [] ms bs
    ∧ queued ops = concat bs ++ ab_entries b
    ∧ (ab_deadline_us b = None ↔ ab_entries b = [])
    ∧ ∀ d now, ab_deadline_us b = Some d → d ≤ now → ab_entries (ack_on_timeout b now).1 = [].
Proof.
  intros Hv. destruct (batch_run ack_batcher_new ops) as [b ms] eqn:Hr.
  assert (ack_inv [] ack_batcher_new) as Hi.
  { split_and!; try done. apply queue_ok_empty. unfold MAX_FRESH_ENTRIES_PER_BATCH. lia. }
  destruct (batch_run_delivers ops [] _ _ _ Hi Hv Hr) as (bs & Hd & He & Hi').
  exists bs. split_and!; [done|done|exact (batch_run_idle _ _ Hi')|].
  intros d now. exact (timeout_flushes _ b d now Hi').
Qed.

(** NACKs are neither lost nor duplicated by batching: over any calls on a
    fresh batcher, the entries queued are, in order, those of the messages
    emitted followed by what is still pending; the server decodes every message
    to exactly its 1 to 64 entries; a timeout at the deadline, armed exactly
    while entries are pending, empties the queue. *)
Theorem nack_batches_deliver ops :
  Forall nk_ok (queued ops) →
  let '(b, ms) := batch_run nack_batcher_new ops in
  ∃ bs, delivers NACK_BATCH_MAX nack_carries [] ms bs
    ∧ queued ops = concat bs ++ nb_entries b
    ∧ (nb_deadline_us b = None ↔ nb_entries b = [])
    ∧ ∀ d now, nb_deadline_us b = Some d → d ≤ now → nb_entries (nack_on_timeout b now).1 = [].
Proof.
  intros Hv. destruct (batch_run nack_batcher_new ops) as [b ms] eqn:Hr.
  assert (nack_inv [] nack_batcher_new) as Hi
    by (apply queue_ok_empty; unfold NACK_BATCH_MAX; lia).
  destruct (batch_run_delivers ops [] _ _ _ Hi Hv Hr) as (bs & Hd & He & Hi').
  exists bs. split_and!; [done|done|exact (batch_run_idle _ _ Hi')|].
  intros d now. exact (timeout_flushes _ b d now Hi').
Qed.

Definition sample_acks : list (batch_op AckEntry) :=
  [OpAdd (mkAckEntry 1 10) 0; OpAdd (mkAckEntry 2 11) 900; OpTimeout 5000; OpAdd (mkAckEntry 3 12) 6000].

Lemma ack_batches_deliver_witness :
  let '(b, ms) := batch_run ack_batcher_new sample_acks in
  ∃ bs, delivers MAX_FRESH_ENTRIES_PER_BATCH ack_carries [] ms bs
    ∧ queued sample_acks = concat bs ++ ab_entries b
    ∧ (ab_deadline_us b = None ↔ ab_entries b = [])
    ∧ ∀ d now, ab_deadline_us b = Some d → d ≤ now → ab_entries (ack_on_timeout b now).1 = [].
Proof. apply (ack_batches_deliver sample_acks). by repeat constructor. Defined.

Definition sample_nack_ops : list (batch_op NackEntry) :=
  [OpAdd (mkNackEntry 1 2 3 0) 0; OpAdd (mkNackEntry 1 2 3 1) 900; OpFlush; OpTimeout 6000].

Lemma nack_batches_deliver_witness :
  let '(b, ms) := batch_run nack_batcher_new sample_nack_ops in
  ∃ bs, delivers NACK_BATCH_MAX nack_carries [] ms bs
    ∧ queued sample_nack_ops = concat bs ++ nb_entries b
    ∧ (nb_deadline_us b = None ↔ nb_entries b = [])
    ∧ ∀ d now, nb_deadline_us b = Some d → d ≤ now → nb_entries (nack_on_timeout b now).1 = [].
Proof. apply (nack_batches_deliver sample_nack_ops). by repeat constructor. Defined.

(** ** [decode_error_batcher.rs] *)

Definition WINDOW_US : Z := 1000000.
Definition GLOBAL_CAP : nat := 32.
Definition DECODE_ERROR_SIZE : nat := 5.

Record DecodeErrorBatcher : Type := mkDecodeErrorBatcher {
  eb_per_key : gmap (Z * Z * Z) Z;
  eb_recent_emits : list Z;
}.

Definition error_batcher_new : DecodeErrorBatcher := mkDecodeErrorBatcher ∅ [].

(** The [while let Some(&front) = self.recent_emits.front()] loop. *)
Fixpoint trim_window (now_us : Z) (recent : list Z) : list Z :=
  match recent with
  | front :: rest =>
      if (WINDOW_US <=? now_us) && (front <=? now_us - WINDOW_US)
      then trim_window now_us rest else recent
  | [] => []
  end.

Definition key_limited (last : option Z) (now_us : Z) : bool :=
  match last with
  | Some last => (last <=? now_us) && (now_us - last <? WINDOW_US)
  | None => false
  end.

Definition report (b : DecodeErrorBatcher) (codec : Codec) (tile_x tile_y : Z)
    (code : DecodeErrorCode) (now_us : Z) : DecodeErrorBatcher * option (list Z) :=
  let recent := trim_window now_us b.(eb_recent_emits) in
  let trimmed := mkDecodeErrorBatcher b.(eb_per_key) recent in
  if (GLOBAL_CAP <=? length recent)%nat then (trimmed, None) else
  let codec_byte := codec_to_u8 codec in
  let key := (codec_byte, tile_x, tile_y) in
  if key_limited (b.(eb_per_key) !! key) now_us then (trimmed, None) else
  (mkDecodeErrorBatcher (<[key := now_us]> b.(eb_per_key)) (recent ++ [now_us]),
   Some [DECODE_ERROR_MSG_TYPE; codec_byte; tile_x; tile_y; error_code code]).

(** A report as the caller makes it, and a sequence of them. *)
Record error_report : Type := mkErrorReport {
  er_codec : Codec; er_x : Z; er_y : Z; er_code : DecodeErrorCode; er_now : Z;
}.

Definition er_key (r : error_report) : Z * Z * Z := (codec_to_u8 r.(er_codec), r.(er_x), r.(er_y)).

Fixpoint report_run (b : DecodeErrorBatcher) (rs : list error_report)
    : list (error_report * option (list Z)) :=
  match rs with
  | [] => []
  | r :: rs =>
      let '(b', out) := report b r.(er_codec) r.(er_x) r.(er_y) r.(er_code) r.(er_now) in
      (r, out) :: report_run b' rs
  end.

(** The specification: a limiter that remembers everything it let through. *)
Definition in_window (now t : Z) : bool := (now - WINDOW_US <? t) && (t <=? now).

Definition recent_in (log : list error_report) (now : Z) : list error_report :=
  filter (λ r, in_window now r.(er_now) = true) log.

Definition allowed (log : list error_report) (r : error_report) : bool :=
  (length (recent_in log r.(er_now)) <? GLOBAL_CAP)%nat
  && negb (existsb (λ r', bool_decide (er_key r' = er_key r)) (recent_in log r.(er_now))).

Definition error_message (r : error_report) : list Z :=
  [DECODE_ERROR_MSG_TYPE; codec_to_u8 r.(er_codec); r.(er_x); r.(er_y); error_code r.(er_code)].

Fixpoint limiter_run (log : list error_report) (rs : list error_report)
    : list (error_report * option (list Z)) :=
  match rs with
  | [] => []
  | r :: rs =>
      if allowed log r then (r, Some (error_message r)) :: limiter_run (log ++ [r]) rs
      else (r, None) :: limiter_run log rs
  end.

(** The reports that got through. *)
Definition let_through (outs : list (error_report * option (list Z))) : list error_report :=
  omap (λ '(r, out), match out with Some _ => Some r | None => None end) outs.

(** The clock of the caller does not run backwards. *)
Fixpoint from_time (last : Z) (rs : list error_report) : Prop :=
  match rs with [] => True | r :: rs => last ≤ r.(er_now) ∧ from_time r.(er_now) rs end.

#[export] Instance from_time_dec last rs : Decision (from_time last rs).
Proof. revert last. induction rs; intros last; cbn; apply _. Defined.

(** *** The implementation remembers enough *)

Definition log_times (log : list error_report) : list Z := er_now <$> log.

Record remembers (log : list error_report) (b : DecodeErrorBatcher) (last : Z) : Prop := {
  rm_sorted : StronglySorted Z.le (log_times log);
  rm_past : Forall (λ t, 0 ≤ t ≤ last) (log_times log);
  rm_split : ∃ old, log_times log = old ++ b.(eb_recent_emits)
               ∧ Forall (λ t, t ≤ last - WINDOW_US) old;
  rm_key : ∀ k, match b.(eb_per_key) !! k with
                | Some t => (∃ r, r ∈ log ∧ er_key r = k ∧ er_now r = t)
                    ∧ ∀ r, r ∈ log → er_key r = k → er_now r ≤ t
                | None => ∀ r, r ∈ log → er_key r ≠ k
                end;
}.

Lemma filter_length_fmap {A B} (f : A → B) (P : B → bool) (l : list A) :
  length (filter (λ x, P (f x) = true) l) = length (filter (λ y, P y = true) (f <$> l)).
Proof.
  induction l as [|x l IH]; [done|]. rewrite fmap_cons, !filter_cons.
  destruct (decide (P (f x) = true)); cbn; auto.
Qed.

Lemma filter_all_false {A} (P : A → bool) (l : list A) :
  Forall (λ x, P x = false) l → filter (λ x, P x = true) l = [].
Proof.
  induction 1 as [|x l Hx _ IH]; [done|]. rewrite filter_cons. rewrite decide_False; congruence.
Qed.

Lemma filter_all {A} (P : A → bool) (l : list A) :
  Forall (λ x, P x = true) l → filter (λ x, P x = true) l = l.
Proof.
  induction 1 as [|x l Hx _ IH]; [done|]. rewrite filter_cons. rewrite decide_True; congruence.
Qed.

(** Trimming a sorted window keeps exactly the times still inside it. *)
Lemma trim_window_filter now l :
  StronglySorted Z.le l → Forall (λ t, 0 ≤ t ≤ now) l →
  ∃ old, l = old ++ trim_window now l ∧ Forall (λ t, t ≤ now - WINDOW_US) old
    ∧ Forall (λ t, in_window now t = true) (trim_window now l).
Proof.
  intros Hs Hl. revert Hl.
  induction Hs as [|t l Hs IH Ht]; intros Hl; [by exists []|].
  apply Forall_cons in Hl as [Ht0 Hl]. specialize (IH Hl) as (old & He & Ho & Hin).
  cbn [trim_window].
  destruct (Z.leb_spec WINDOW_US now), (Z.leb_spec t (now - WINDOW_US)); cbn [andb].
  1: { exists (t :: old). cbn. split_and!; [congruence| |done]. constructor; [lia|done]. }
  all: exists []; split_and!; [done|done|]; unfold in_window; constructor;
    [|apply Forall_forall; intros y Hy; rewrite Forall_forall in Ht, Hl;
      specialize (Ht y Hy); specialize (Hl y Hy)];
    apply andb_true_intro; split; apply Z.ltb_lt || apply Z.leb_le; lia.
Qed.

Lemma in_window_true now t : in_window now t = true ↔ now - WINDOW_US < t ≤ now.
Proof. unfold in_window. rewrite andb_true_iff, Z.ltb_lt, Z.leb_le. lia. Qed.

Lemma in_window_old now t : t ≤ now - WINDOW_US → in_window now t = false.
Proof. intros. apply not_true_iff_false. rewrite in_window_true. lia. Qed.

Section remembering.
Context (log : list error_report) (b : DecodeErrorBatcher) (last now : Z).
Hypothesis Hrm : remembers log b last.
Hypothesis Hnow : last ≤ now.

Lemma remembers_trim : ∃ old, log_times log = old ++ trim_window now b.(eb_recent_emits)
  ∧ Forall (λ t, t ≤ now - WINDOW_US) old
  ∧ Forall (λ t, in_window now t = true) (trim_window now b.(eb_recent_emits)).
Proof using Hrm Hnow.
  destruct Hrm as [Hs Hp (old & He & Ho) _].
  destruct (trim_window_filter now b.(eb_recent_emits)) as (old' & He' & Ho' & Hin).
  { rewrite He in Hs. by apply StronglySorted_app_1_r in Hs. }
  { rewrite He in Hp. apply Forall_app in Hp as [_ Hp].
    apply (Forall_impl _ _ _ Hp). intros; lia. }
  exists (old ++ old'). split_and!; [by rewrite He, <-app_assoc, <-He'| |done].
  apply Forall_app_2; [|done]. apply (Forall_impl _ _ _ Ho). intros; lia.
Qed.

(** The trimmed deque has one element per report still in the window. *)
Lemma trim_counts : length (trim_window now b.(eb_recent_emits)) = length (recent_in log now).
Proof using Hrm Hnow.
  destruct remembers_trim as (old & He & Ho & Hin).
  unfold recent_in. rewrite (filter_length_fmap er_now (in_window now)).
  change (er_now <$> log) with (log_times log). rewrite He, filter_app, length_app.
  rewrite (filter_all_false (in_window now) old), (filter_all (in_window now)); [done|done|].
  apply (Forall_impl _ _ _ Ho). intros t. apply in_window_old.
Qed.

(** The per-key map answers "was this key reported within the window?". *)
Lemma key_limited_spec k :
  key_limited (b.(eb_per_key) !! k) now
  = existsb (λ r, bool_decide (er_key r = k)) (recent_in log now).
Proof using Hrm Hnow.
  destruct Hrm as [_ Hp _ Hk]. specialize (Hk k). apply eq_iff_eq_true.
  rewrite existsb_exists. unfold key_limited, recent_in.
  destruct (b.(eb_per_key) !! k) as [t|].
  - destruct Hk as [(r & Hr & Hkr & Ht) Hmax]. rewrite andb_true_iff, Z.leb_le, Z.ltb_lt. split.
    + intros [? ?]. exists r. rewrite <-list_elem_of_In, list_elem_of_filter, bool_decide_eq_true.
      rewrite in_window_true. split_and!; try done; lia.
    + intros (r' & Hr' & Hk'). apply list_elem_of_In, list_elem_of_filter in Hr' as [Hw Hr'].
      apply bool_decide_eq_true in Hk'. specialize (Hmax r' Hr' Hk'). apply in_window_true in Hw.
      rewrite Forall_forall in Hp. specialize (Hp t). unfold log_times in Hp.
      rewrite list_elem_of_fmap in Hp. specialize (Hp (ex_intro _ r (conj (eq_sym Ht) Hr))). lia.
  - split; [done|]. intros (r' & Hr' & Hk'). apply list_elem_of_In, list_elem_of_filter in Hr' as [_ Hr'].
    apply bool_decide_eq_true in Hk'. by destruct (Hk r' Hr').
Qed.

Lemma remembers_quiet :
  remembers log (mkDecodeErrorBatcher b.(eb_per_key) (trim_window now b.(eb_recent_emits))) now.
Proof using Hrm Hnow.
  destruct remembers_trim as (old & He & Ho & _). destruct Hrm as [Hs Hp _ Hk].
  split; [done| |by exists old|done]. apply (Forall_impl _ _ _ Hp). intros; lia.
Qed.

Lemma remembers_emit r :
  r.(er_now) = now → 0 ≤ now →
  remembers (log ++ [r]) (mkDecodeErrorBatcher (<[er_key r := now]> b.(eb_per_key))
    (trim_window now b.(eb_recent_emits) ++ [now])) now.
Proof using Hrm Hnow.
  intros Hr H0. destruct remembers_quiet as [Hs Hp (old & He & Ho) Hk]. cbn [eb_recent_emits eb_per_key] in *.
  assert (log_times (log ++ [r]) = log_times log ++ [now]) as Hlt
    by (unfold log_times; rewrite fmap_app; cbn; by rewrite Hr).
  assert (∀ r', r' ∈ log → er_now r' ≤ now) as Hle.
  { intros r' Hr'. rewrite Forall_forall in Hp. apply (Hp (er_now r')). by apply list_elem_of_fmap_2. }
  split; rewrite ?Hlt.
  - apply StronglySorted_app_2; [|done|by repeat constructor].
    intros x1 x2 H1 ->%list_elem_of_singleton. rewrite Forall_forall in Hp. by apply Hp.
  - apply Forall_app_2; [done|]. by repeat constructor.
  - exists old. cbn [eb_recent_emits]. by rewrite He, <-app_assoc.
  - intros k. cbn [eb_per_key]. destruct (decide (k = er_key r)) as [->|Hne].
    + rewrite lookup_insert_eq. split; [exists r; by rewrite elem_of_app, list_elem_of_singleton; auto|].
      intros r' [?| ->%list_elem_of_singleton]%elem_of_app _; [by apply Hle|lia].
    + rewrite lookup_insert_ne by done. specialize (Hk k). destruct (eb_per_key b !! k) as [t|].
      * destruct Hk as [(r' & ? & ? & ?) Hmax]. split; [exists r'; by rewrite elem_of_app; auto|].
        intros r'' [?| ->%list_elem_of_singleton]%elem_of_app ?; [by apply Hmax|done].
      * intros r'' [?| ->%list_elem_of_singleton]%elem_of_app; [by apply Hk|done].
Qed.
End remembering.

Lemma report_run_limiter rs : ∀ log b last,
  remembers log b last → 0 ≤ last → from_time last rs → report_run b rs = limiter_run log rs.
Proof.
  induction rs as [|r rs IH]; intros log b last Hrm H0 Ht; [done|].
  destruct Ht as [Hle Ht]. cbn [report_run limiter_run]. unfold report, allowed.
  rewrite (trim_counts log b last (er_now r) Hrm Hle).
  change (codec_to_u8 (er_codec r), er_x r, er_y r) with (er_key r).
  rewrite (key_limited_spec log b last (er_now r) Hrm Hle (er_key r)).
  pose proof (remembers_quiet log b last (er_now r) Hrm Hle) as Hq.
  destruct (Nat.leb_spec GLOBAL_CAP (length (recent_in log (er_now r)))) as [Hge|Hlt].
  { rewrite (proj2 (Nat.ltb_ge _ _)) by done. cbn [andb]. f_equal. by apply (IH _ _ (er_now r)); [|lia|]. }
  rewrite (proj2 (Nat.ltb_lt _ _)) by done. cbn [andb].
  destruct (existsb _ _); cbn [negb]; f_equal; apply (IH _ _ (er_now r)); try done; try lia.
  apply (remembers_emit log b last); [done|done|done|lia].
Qed.

(** *** The limiter keeps its rates *)

(** At most [GLOBAL_CAP] reports in any window, and no key twice in one. *)
Definition rate_ok (log : list error_report) : Prop :=
  (∀ T, length (recent_in log T) ≤ GLOBAL_CAP)%nat
  ∧ ∀ i j ri rj, log !! i = Some ri → log !! j = Some rj → (i < j)%nat →
      er_key ri = er_key rj → er_now ri + WINDOW_US ≤ er_now rj.

Lemma recent_in_length_le (log : list error_report) now T :
  Forall (λ r, er_now r ≤ now) log → now ≤ T →
  (length (recent_in log T) ≤ length (recent_in log now))%nat.
Proof.
  intros Hl HT. induction Hl as [|r log Hr _ IH]; [done|]. unfold recent_in in *.
  rewrite !filter_cons.
  destruct (decide (in_window T (er_now r) = true)) as [H1|H1],
    (decide (in_window now (er_now r) = true)) as [H2|H2];
    rewrite in_window_true in H1; rewrite in_window_true in H2; cbn [length]; lia.
Qed.

Lemma rate_ok_snoc log r :
  rate_ok log → Forall (λ r', er_now r' ≤ er_now r) log → allowed log r = true → rate_ok (log ++ [r]).
Proof.
  intros [Hc Hk] Hl Ha. apply andb_true_iff in Ha as [Hn Hnk]. apply Nat.ltb_lt in Hn. split.
  - intros T. unfold recent_in. rewrite filter_app, length_app, filter_cons, filter_nil.
    case_decide as Hw; cbn [length].
    + apply in_window_true in Hw. pose proof (recent_in_length_le log (er_now r) T Hl).
      unfold recent_in in *. lia.
    + specialize (Hc T). unfold recent_in in Hc. lia.
  - intros i j ri rj Hi Hj Hij Hkey. apply lookup_app_Some in Hj as [Hj|[Hlen Hj]].
    { apply (Hk i j); try done. rewrite lookup_app_l in Hi; [done|].
      apply lookup_lt_Some in Hj. lia. }
    apply list_lookup_singleton_Some in Hj as [Hj0 <-].
    rewrite lookup_app_l in Hi by lia.
    destruct (Z.le_gt_cases (er_now ri + WINDOW_US) (er_now r)) as [|Hgt]; [done|].
    apply negb_true_iff, not_true_iff_false in Hnk. destruct Hnk. apply existsb_exists.
    exists ri. apply list_elem_of_lookup_2 in Hi as Hin. rewrite Forall_forall in Hl.
    specialize (Hl ri Hin). rewrite <-list_elem_of_In, bool_decide_eq_true. split; [|done].
    apply list_elem_of_filter. rewrite in_window_true. split; [lia|done].
Qed.

Lemma limiter_rate rs : ∀ log last,
  rate_ok log → Forall (λ r, er_now r ≤ last) log → from_time last rs →
  rate_ok (log ++ let_through (limiter_run log rs)).
Proof.
  induction rs as [|r rs IH]; intros log last Hok Hl Ht; [by rewrite app_nil_r|].
  destruct Ht as [Hle Ht].
  assert (Forall (λ r', er_now r' ≤ er_now r) log) as Hl'
    by (apply (Forall_impl _ _ _ Hl); intros; lia).
  cbn [limiter_run]. destruct (allowed log r) eqn:Ha.
  - cbn [let_through omap list_omap]. change (r :: ?l) with ([r] ++ l). rewrite app_assoc.
    apply (IH _ (er_now r)); [by apply rate_ok_snoc| |done].
    apply Forall_app_2; [done|]. by repeat constructor.
  - by apply (IH _ (er_now r)).
Qed.

(** Decode-error reports are rate limited exactly.  For any reports on a clock
    that does not run backwards, a fresh batcher's answers are those of the
    limiter that remembers every report it let through and allows one precisely
    when fewer than 32 were let through in the last second and none of them was
    for the same codec and tile; so no window of one second ever holds more than
    32 reports, and two reports for one key are at least a second apart. *)
Theorem decode_errors_rate_limited rs :
  from_time 0 rs →
  report_run error_batcher_new rs = limiter_run [] rs
  ∧ rate_ok (let_through (report_run error_batcher_new rs)).
Proof.
  intros Ht.
  assert (remembers [] error_batcher_new 0) as Hrm.
  { split; [constructor|constructor|by exists []|]. intros k. cbn. rewrite lookup_empty.
    intros r Hr. by apply not_elem_of_nil in Hr. }
  assert (report_run error_batcher_new rs = limiter_run [] rs) as He
    by (by apply (report_run_limiter rs [] _ 0)).
  split; [done|]. rewrite He. apply (limiter_rate rs [] 0); [|constructor|done].
  split; [|done]. intros T. cbn. lia.
Qed.

Definition sample_reports : list error_report :=
  (λ t, mkErrorReport CCdf53 (t mod 2) 0 Cdf53Truncated (t * 400000)) <$> [0; 1; 2; 3; 5; 6].

Lemma decode_errors_rate_limited_witness :
  report_run error_batcher_new sample_reports = limiter_run [] sample_reports
  ∧ rate_ok (let_through (report_run error_batcher_new sample_reports)).
Proof. apply (decode_errors_rate_limited sample_reports). by apply (bool_decide_unpack _). Defined.
