(* ===== verification/Gate.v ===== *)
(** * The H.264 reference gate and the frame-ack window

    Models [ghostframe-client-core/src/h264_gate.rs]: the gate that decides
    which completed access units reach the decoder, the reset requests it raises
    and their pacing, and the window of frame outcomes a frame ack reports.
    The theorems: what is fed since the last reset is a closed prediction chain,
    frames are fed in strictly increasing order, reset requests are paced, and
    what the server reads out of a frame ack is what the client recorded. *)

From S2P Require Import Prelude Wire Control.
From stdpp Require Import base option numbers list.

Local Open Scope Z_scope.

(** ** Constants and sequence order *)

Definition RESET_REQUEST_MIN_INTERVAL_US : Z := 2200000.
Definition ACKED_REF_STUCK_US : Z := 2200000.
Definition FRAME_ACK_MIN_INTERVAL_US : Z := 4000.
Definition FRAME_ACK_FALLBACK_US : Z := 100000.
Definition FED_CAP : nat := 128.
Definition GOOD_CAP : nat := 128.
Definition LT_SLOTS : nat := 2.
Definition SEQ_MASK : Z := 0x7FFFFFFF.

Definition seq_after (a b : Z) : bool :=
  let forward := Z.land (wsub32 a b) SEQ_MASK in
  negb (forward =? 0) && (forward <? Z.shiftl 1 30).

Inductive RefuseCause : Type := Stale | NoReference | BadSlot.

Inductive Verdict : Type :=
| Feed (reset_decoder : bool)
| Refuse (cause : RefuseCause).

Inductive H264Outcome : Type := Decoded | NotOutput | DecodeError | NoDecoderOutcome.

Inductive ResetCause : Type :=
| CauseIdrReceived | CauseResolution | CauseDecoderFailure | CauseNoDecoder.

#[export] Instance RefuseCause_eq_dec : EqDecision RefuseCause.
Proof. solve_decision. Defined.
#[export] Instance Verdict_eq_dec : EqDecision Verdict.
Proof. solve_decision. Defined.

(** ** The gate *)

Record H264Gate : Type := mkGate {
  g_good : list Z;
  g_lt : list (option Z);
  g_newest_ref : option Z;
  g_last_fed : option Z;
  g_waiting_for_idr : bool;
  g_acked_ref_stream : bool;
  g_refusing_since_us : option Z;
  g_fed : list Z;
  g_last_request_us : option Z;
  g_last_failure_request_us : option Z;
  g_no_decoder : bool;
  g_request : option (ResetReason * Z);
  g_decoder_reset_pending : bool;
}.

Definition gate_new : H264Gate :=
  mkGate [] (replicate LT_SLOTS None) None None false false None [] None None false None false.

(** The references the gate holds, replaced together. *)
Definition with_refs (g : H264Gate) good lt newest_ref : H264Gate :=
  mkGate good lt newest_ref g.(g_last_fed) g.(g_waiting_for_idr) g.(g_acked_ref_stream)
    g.(g_refusing_since_us) g.(g_fed) g.(g_last_request_us) g.(g_last_failure_request_us)
    g.(g_no_decoder) g.(g_request) g.(g_decoder_reset_pending).

Definition with_fed (g : H264Gate) last_fed fed : H264Gate :=
  mkGate g.(g_good) g.(g_lt) g.(g_newest_ref) last_fed g.(g_waiting_for_idr)
    g.(g_acked_ref_stream) g.(g_refusing_since_us) fed g.(g_last_request_us)
    g.(g_last_failure_request_us) g.(g_no_decoder) g.(g_request) g.(g_decoder_reset_pending).

Definition with_waiting (g : H264Gate) waiting : H264Gate :=
  mkGate g.(g_good) g.(g_lt) g.(g_newest_ref) g.(g_last_fed) waiting
    g.(g_acked_ref_stream) g.(g_refusing_since_us) g.(g_fed) g.(g_last_request_us)
    g.(g_last_failure_request_us) g.(g_no_decoder) g.(g_request) g.(g_decoder_reset_pending).

Definition with_acked_ref (g : H264Gate) acked : H264Gate :=
  mkGate g.(g_good) g.(g_lt) g.(g_newest_ref) g.(g_last_fed) g.(g_waiting_for_idr)
    acked g.(g_refusing_since_us) g.(g_fed) g.(g_last_request_us)
    g.(g_last_failure_request_us) g.(g_no_decoder) g.(g_request) g.(g_decoder_reset_pending).

Definition with_refusing (g : H264Gate) since : H264Gate :=
  mkGate g.(g_good) g.(g_lt) g.(g_newest_ref) g.(g_last_fed) g.(g_waiting_for_idr)
    g.(g_acked_ref_stream) since g.(g_fed) g.(g_last_request_us)
    g.(g_last_failure_request_us) g.(g_no_decoder) g.(g_request) g.(g_decoder_reset_pending).

Definition with_request (g : H264Gate) last_request last_failure no_decoder request : H264Gate :=
  mkGate g.(g_good) g.(g_lt) g.(g_newest_ref) g.(g_last_fed) g.(g_waiting_for_idr)
    g.(g_acked_ref_stream) g.(g_refusing_since_us) g.(g_fed) last_request
    last_failure no_decoder request g.(g_decoder_reset_pending).

Definition with_reset_pending (g : H264Gate) pending : H264Gate :=
  mkGate g.(g_good) g.(g_lt) g.(g_newest_ref) g.(g_last_fed) g.(g_waiting_for_idr)
    g.(g_acked_ref_stream) g.(g_refusing_since_us) g.(g_fed) g.(g_last_request_us)
    g.(g_last_failure_request_us) g.(g_no_decoder) g.(g_request) pending.

Definition take_request (g : H264Gate) : H264Gate * option (ResetReason * Z) :=
  (with_request g g.(g_last_request_us) g.(g_last_failure_request_us) g.(g_no_decoder) None,
   g.(g_request)).

(** [push_back], then [pop_front] if that made the deque longer than [cap]. *)
Definition push_capped (cap : nat) (l : list Z) (x : Z) : list Z :=
  let l' := l ++ [x] in if (cap <? length l')%nat then tail l' else l'.

Definition note_fed (g : H264Gate) (seq : Z) : H264Gate :=
  with_fed g g.(g_last_fed) (push_capped FED_CAP g.(g_fed) seq).

Definition was_fed (g : H264Gate) (seq : Z) : bool := bool_decide (seq ∈ g.(g_fed)).

Definition due (last : option Z) (now_us : Z) : bool :=
  match last with
  | None => true
  | Some t => RESET_REQUEST_MIN_INTERVAL_US <=? sat_sub now_us t
  end.

Definition paced_request (g : H264Gate) (reason : ResetReason) (seq now_us : Z) : H264Gate :=
  let send := match reason with
    | DecoderFailure => due g.(g_last_failure_request_us) now_us
    | GateReset => due g.(g_last_request_us) now_us && due g.(g_last_failure_request_us) now_us
    | Resolution | NoDecoder => due g.(g_last_request_us) now_us
    end in
  if send then
    match reason with
    | DecoderFailure =>
        with_request g g.(g_last_request_us) (Some now_us) g.(g_no_decoder) (Some (reason, seq))
    | GateReset | Resolution | NoDecoder =>
        with_request g (Some now_us) g.(g_last_failure_request_us) g.(g_no_decoder)
          (Some (reason, seq))
    end
  else g.

Definition refuse (g : H264Gate) (cause : RefuseCause) (seq now_us : Z) : H264Gate * Verdict :=
  match cause with
  | NoReference =>
      let g := with_waiting g true in
      if g.(g_no_decoder) then (g, Refuse cause) else
      let since := default now_us g.(g_refusing_since_us) in
      let g := with_refusing g (Some since) in
      let due := negb g.(g_acked_ref_stream) || (ACKED_REF_STUCK_US <=? sat_sub now_us since) in
      ((if due then paced_request g GateReset seq now_us else g), Refuse cause)
  | Stale | BadSlot => (g, Refuse cause)
  end.

Definition reset (g : H264Gate) (cause : ResetCause) (frame_seq now_us : Z) : H264Gate :=
  let g := with_reset_pending (with_refs g [] (replicate LT_SLOTS None) None) true in
  match cause with
  | CauseIdrReceived => g
  | CauseResolution => with_waiting g true
  | CauseDecoderFailure => paced_request (with_waiting g true) DecoderFailure frame_seq now_us
  | CauseNoDecoder =>
      let g := with_waiting g true in
      if g.(g_no_decoder) then g else
      with_request g (Some now_us) g.(g_last_failure_request_us) true (Some (NoDecoder, frame_seq))
  end.

(** [h.flags & bits != 0] *)
Definition has (h : FrameHeader) (bits : Z) : bool := negb (Z.land h.(fh_flags) bits =? 0).

Definition note_features (g : H264Gate) (h : FrameHeader) : H264Gate :=
  if has h (Z.lor FRAME_FLAG_NON_REF (Z.lor FRAME_FLAG_MARK_LT
              (Z.lor FRAME_FLAG_MARK_TARGET FRAME_FLAG_TARGET_IS_LT)))
  then with_acked_ref g true else g.

Definition on_idr (g : H264Gate) (seq now_us : Z) : H264Gate :=
  let g := reset g CauseIdrReceived seq now_us in
  let g := note_fed (with_fed g (Some seq) g.(g_fed)) seq in
  let g := with_refs g (g.(g_good) ++ [seq]) [Some seq; None] (Some seq) in
  with_reset_pending (with_refusing (with_waiting g false) None) false.

(** The long-term marks a frame carries. *)
Definition marks (h : FrameHeader) : bool := has h FRAME_FLAG_MARK_LT && negb (has h FRAME_FLAG_NON_REF).
Definition marks_target (h : FrameHeader) : bool :=
  has h FRAME_FLAG_MARK_TARGET && negb (has h (Z.lor FRAME_FLAG_NON_REF FRAME_FLAG_TARGET_IS_LT)).
Definition mark_slot (h : FrameHeader) : nat := Z.to_nat (Z.land h.(fh_slots) 3).
Definition target_slot (h : FrameHeader) : nat := Z.to_nat (Z.land (Z.shiftr h.(fh_slots) 2) 3).

(** Whether the picture the frame predicts from is held; [None] is a slot index
    outside the two the stream has. *)
Definition held (g : H264Gate) (h : FrameHeader) : option bool :=
  if has h FRAME_FLAG_TARGET_IS_LT then
    if (LT_SLOTS <=? target_slot h)%nat then None else
    Some (negb (h.(fh_ref_frame_seq) =? REF_FRAME_NONE)
          && bool_decide (g.(g_lt) !! target_slot h = Some (Some h.(fh_ref_frame_seq))))
  else if h.(fh_ref_frame_seq) =? REF_FRAME_NONE then Some (negb g.(g_waiting_for_idr))
  else Some (bool_decide (h.(fh_ref_frame_seq) ∈ g.(g_good))
             && bool_decide (g.(g_newest_ref) = Some h.(fh_ref_frame_seq))).

(** The bookkeeping of a P frame that is fed. *)
Definition feed_predicted (g : H264Gate) (h : FrameHeader) : H264Gate * Verdict :=
  let seq := h.(fh_frame_seq) in
  let g := note_fed (with_fed g (Some seq) g.(g_fed)) seq in
  let g := with_refs g (push_capped GOOD_CAP g.(g_good) seq) g.(g_lt) g.(g_newest_ref) in
  let g := if has h FRAME_FLAG_NON_REF then g else
    with_refs g g.(g_good)
      (if marks h then <[mark_slot h := Some seq]> g.(g_lt) else g.(g_lt)) (Some seq) in
  let g := if marks_target h && negb (h.(fh_ref_frame_seq) =? REF_FRAME_NONE)
    then with_refs g g.(g_good) (<[mark_slot h := Some h.(fh_ref_frame_seq)]> g.(g_lt)) g.(g_newest_ref)
    else g in
  let g := with_refusing g None in
  (with_reset_pending g false, Feed g.(g_decoder_reset_pending)).

Definition on_frame (g : H264Gate) (h : FrameHeader) (now_us : Z) : H264Gate * Verdict :=
  let seq := h.(fh_frame_seq) in
  let g := note_features g h in
  if match g.(g_last_fed) with Some l => negb (seq_after seq l) | None => false end
  then (g, Refuse Stale) else
  if is_keyframe h then (on_idr g seq now_us, Feed true) else
  if (marks h || marks_target h) && (LT_SLOTS <=? mark_slot h)%nat
  then refuse g BadSlot seq now_us else
  if marks h && has h FRAME_FLAG_MARK_TARGET then refuse g BadSlot seq now_us else
  match held g h with
  | None => refuse g BadSlot seq now_us
  | Some false => refuse g NoReference seq now_us
  | Some true => feed_predicted g h
  end.

(** ** The frame-ack window *)

Record FrameAckWindow : Type := mkFrameAckWindow {
  fw_newest : option Z;
  fw_decoded : Z;
  fw_refused : Z;
  fw_dirty_since_us : option Z;
  fw_last_sent_us : option Z;
}.

Definition frame_acks_new : FrameAckWindow := mkFrameAckWindow None 0 0 None None.

(** [u64] complement *)
Definition not64 (x : Z) : Z := u64 (Z.lnot x).

Definition fw_set (decoded_mask refused_mask bit : Z) (decoded : bool) : Z * Z :=
  let m := u64 (Z.shiftl 1 bit) in
  if negb decoded && negb (Z.land decoded_mask m =? 0) then (decoded_mask, refused_mask) else
  if decoded then (Z.lor decoded_mask m, Z.land refused_mask (not64 m))
  else (Z.land decoded_mask (not64 m), Z.lor refused_mask m).

(** The window with [bit] set, and the first unreported time noted. *)
Definition fw_record_at (w : FrameAckWindow) (newest d r bit : Z) (decoded : bool) (now_us : Z)
    : FrameAckWindow :=
  let '(d, r) := fw_set d r bit decoded in
  mkFrameAckWindow (Some newest) d r
    (Some (default now_us w.(fw_dirty_since_us))) w.(fw_last_sent_us).

Definition fw_record (w : FrameAckWindow) (seq : Z) (decoded : bool) (now_us : Z) : FrameAckWindow :=
  match w.(fw_newest) with
  | None => fw_record_at w seq 0 0 0 decoded now_us
  | Some newest =>
      let forward := Z.land (wsub32 seq newest) SEQ_MASK in
      if forward =? 0 then
        fw_record_at w newest w.(fw_decoded) w.(fw_refused) 0 decoded now_us
      else if forward <? Z.shiftl 1 30 then
        if 64 <=? forward then fw_record_at w seq 0 0 0 decoded now_us
        else fw_record_at w seq (u64 (Z.shiftl w.(fw_decoded) forward))
               (u64 (Z.shiftl w.(fw_refused) forward)) 0 decoded now_us
      else
        let back := Z.land (wsub32 newest seq) SEQ_MASK in
        if 64 <=? back then w
        else fw_record_at w newest w.(fw_decoded) w.(fw_refused) back decoded now_us
  end.

Definition fallback_at (w : FrameAckWindow) : option Z :=
  (λ t, u64 (t + FRAME_ACK_FALLBACK_US)) <$> w.(fw_dirty_since_us).

Definition fw_take (w : FrameAckWindow) (now_us : Z) : FrameAckWindow * option FrameAck :=
  match w.(fw_newest) with
  | None => (w, None)
  | Some newest_seq =>
      (mkFrameAckWindow w.(fw_newest) w.(fw_decoded) w.(fw_refused) None (Some now_us),
       Some (mkFrameAck newest_seq w.(fw_decoded) w.(fw_refused)))
  end.

Definition take_due (w : FrameAckWindow) (now_us : Z) : FrameAckWindow * option FrameAck :=
  match w.(fw_dirty_since_us) with
  | None => (w, None)
  | Some _ =>
      if match w.(fw_last_sent_us) with
         | Some t => sat_sub now_us t <? FRAME_ACK_MIN_INTERVAL_US | None => false end
      then (w, None) else fw_take w now_us
  end.

Definition take_overdue (w : FrameAckWindow) (now_us : Z) : FrameAckWindow * option FrameAck :=
  match fallback_at w with
  | None => (w, None)
  | Some t => if now_us <? t then (w, None) else fw_take w now_us
  end.

(** ** Histories of the gate *)

(** What the client does to its gate: [finish_frame_if_complete] asks about a
    frame, [h264_result] resets on a decoder failure (or for want of one); both
    end in [after_gate], which takes the request raised. *)
Inductive gate_event : Type :=
| GFrame (h : FrameHeader) (now_us : Z)
| GReset (cause : ResetCause) (frame_seq now_us : Z).

Definition event_time (ev : gate_event) : Z :=
  match ev with GFrame _ t | GReset _ _ t => t end.

(** The gate, the frames it ever fed, those fed since it last dropped its
    references, whether it was reset, and the requests sent with their times. *)
Record gate_trace : Type := mkTrace {
  gt_gate : H264Gate;
  gt_fed : list FrameHeader;
  gt_chain : list FrameHeader;
  gt_was_reset : bool;
  gt_requests : list (ResetReason * Z);
}.

Definition gate_apply (g : H264Gate) (ev : gate_event) : H264Gate * option Verdict :=
  match ev with
  | GFrame h now => let '(g', v) := on_frame g h now in (g', Some v)
  | GReset cause seq now => (reset g cause seq now, None)
  end.

Definition chain_after (chain : list FrameHeader) (ev : gate_event) (v : option Verdict)
    : list FrameHeader :=
  match ev, v with
  | GFrame h _, Some (Feed _) => if is_keyframe h then [h] else chain ++ [h]
  | GReset _ _ _, _ => []
  | _, _ => chain
  end.

Definition fed_by (ev : gate_event) (v : option Verdict) : list FrameHeader :=
  match ev, v with GFrame h _, Some (Feed _) => [h] | _, _ => [] end.

Definition gate_step (t : gate_trace) (ev : gate_event) : gate_trace :=
  let '(g, v) := gate_apply t.(gt_gate) ev in
  let '(g', req) := take_request g in
  mkTrace g' (t.(gt_fed) ++ fed_by ev v) (chain_after t.(gt_chain) ev v)
    (match ev with GReset _ _ _ => true | GFrame _ _ => t.(gt_was_reset) end)
    (t.(gt_requests) ++ option_list ((λ '(r, _), (r, event_time ev)) <$> req)).

Definition trace_new : gate_trace := mkTrace gate_new [] [] false [].
Definition gate_run (evs : list gate_event) : gate_trace := foldl gate_step trace_new evs.

(** The causes [h264_result] (or a consumer) resets with; an IDR resets the gate
    inside [on_frame]. *)
Definition outside_cause (ev : gate_event) : Prop :=
  match ev with GReset CauseIdrReceived _ _ => False | _ => True end.

#[export] Instance outside_cause_dec ev : Decision (outside_cause ev).
Proof. destruct ev as [|[] ? ?]; apply _. Defined.

(** ** The prediction chain *)

(** A frame later frames may predict from. *)
Definition is_reference (h : FrameHeader) : bool := is_keyframe h || negb (has h FRAME_FLAG_NON_REF).

Definition seqs (chain : list FrameHeader) : list Z := fh_frame_seq <$> chain.

Definition newest_reference (chain : list FrameHeader) : option Z :=
  fh_frame_seq <$> last (filter (λ h, is_reference h = true) chain).

(** The frame [h], decoded after [chain], finds the picture it predicts from: a
    long-term picture among those decoded, or the newest reference. *)
Definition predicts_from (chain : list FrameHeader) (h : FrameHeader) : Prop :=
  is_keyframe h = true ∨ h.(fh_ref_frame_seq) = REF_FRAME_NONE
  ∨ (has h FRAME_FLAG_TARGET_IS_LT = true ∧ h.(fh_ref_frame_seq) ∈ seqs chain)
  ∨ (has h FRAME_FLAG_TARGET_IS_LT = false ∧ newest_reference chain = Some h.(fh_ref_frame_seq)).

Definition closed_chain (chain : list FrameHeader) : Prop :=
  ∀ i h, chain !! i = Some h → predicts_from (take i chain) h.

Record gate_holds (g : H264Gate) (chain : list FrameHeader) (was_reset : bool) : Prop := {
  gh_good : ∀ s, s ∈ g.(g_good) → s ∈ seqs chain;
  gh_lt : ∀ i s, g.(g_lt) !! i = Some (Some s) → s ∈ seqs chain;
  gh_newest : ∀ s, g.(g_newest_ref) = Some s → newest_reference chain = Some s;
  gh_closed : closed_chain chain;
  gh_reset : was_reset = true →
    (chain = [] ∧ g.(g_waiting_for_idr) = true) ∨ (∃ h, head chain = Some h ∧ is_keyframe h = true);
}.

Lemma push_capped_in cap l x y : y ∈ push_capped cap l x → y ∈ l ∨ y = x.
Proof.
  unfold push_capped. rewrite <-(list_elem_of_singleton y x), <-elem_of_app.
  destruct (cap <? _)%nat; [|done]. destruct (l ++ [x]); [done|].
  intros. by apply list_elem_of_further.
Qed.

Lemma closed_chain_snoc chain h :
  closed_chain chain → predicts_from chain h → closed_chain (chain ++ [h]).
Proof.
  intros Hc Hp i h' Hi. apply lookup_app_Some in Hi as [Hi|[Hlen Hi]].
  - pose proof (lookup_lt_Some _ _ _ Hi). rewrite take_app_le by lia. by apply Hc.
  - apply list_lookup_singleton_Some in Hi as [Hi0 <-].
    replace i with (length chain) by lia. by rewrite take_app_length.
Qed.

Lemma newest_reference_snoc chain h :
  newest_reference (chain ++ [h])
  = if is_reference h then Some h.(fh_frame_seq) else newest_reference chain.
Proof.
  unfold newest_reference. rewrite filter_app, filter_cons, filter_nil.
  destruct (is_reference h); [rewrite decide_True by done|rewrite decide_False by done].
  - by rewrite last_snoc.
  - by rewrite app_nil_r.
Qed.

(** The reset requests and the refusal clock are beside the point here. *)
Definition same_refs (g g' : H264Gate) : Prop :=
  g'.(g_good) = g.(g_good) ∧ g'.(g_lt) = g.(g_lt) ∧ g'.(g_newest_ref) = g.(g_newest_ref)
  ∧ (g.(g_waiting_for_idr) = true → g'.(g_waiting_for_idr) = true)
  ∧ g'.(g_last_fed) = g.(g_last_fed).

Lemma paced_request_refs g r seq now : same_refs g (paced_request g r seq now).
Proof. unfold paced_request. destruct (match r with DecoderFailure => _ | _ => _ end), r; done. Qed.

Lemma same_refs_trans g1 g2 g3 : same_refs g1 g2 → same_refs g2 g3 → same_refs g1 g3.
Proof. unfold same_refs. intuition congruence. Qed.

Lemma refuse_refs g c seq now : same_refs g (refuse g c seq now).1.
Proof.
  unfold refuse. destruct c; try done. cbv zeta. destruct (g_no_decoder _); [done|].
  destruct (_ || _); [|done]. cbn [fst].
  eapply same_refs_trans; [|apply paced_request_refs]. done.
Qed.

Lemma note_features_refs g h : same_refs g (note_features g h).
Proof. unfold note_features. by destruct (has _ _). Qed.

Lemma gate_holds_same g g' chain b : same_refs g g' → gate_holds g chain b → gate_holds g' chain b.
Proof.
  intros (H1 & H2 & H3 & H4 & _) [Hg Hl Hn Hc Hr]. split; rewrite ?H1, ?H2, ?H3; try done.
  intros Hb. destruct (Hr Hb) as [[? ?]|]; [left|by right]. auto.
Qed.

(** How the gate decides: it refuses and keeps its references, restarts on an
    IDR, or feeds a frame whose prediction target it holds. *)
Inductive decision (g : H264Gate) (h : FrameHeader) : H264Gate → Verdict → Prop :=
| d_refuse g' c : same_refs g g' → decision g h g' (Refuse c)
| d_idr now :
    is_keyframe h = true →
    decision g h (on_idr (note_features g h) h.(fh_frame_seq) now) (Feed true)
| d_predicted :
    is_keyframe h = false →
    (marks_target h = true → has h FRAME_FLAG_TARGET_IS_LT = false) →
    held (note_features g h) h = Some true →
    decision g h (feed_predicted (note_features g h) h).1 (feed_predicted (note_features g h) h).2.

Lemma on_frame_decision g h now : decision g h (on_frame g h now).1 (on_frame g h now).2.
Proof.
  pose proof (note_features_refs g h) as Hn.
  assert (∀ c, decision g h (refuse (note_features g h) c h.(fh_frame_seq) now).1
                        (refuse (note_features g h) c h.(fh_frame_seq) now).2) as Hrefuse.
  { intros c. replace (refuse _ c _ now).2 with (Refuse c).
    - constructor. eapply same_refs_trans; [done|apply refuse_refs].
    - unfold refuse. destruct c; try done. cbv zeta. by destruct (g_no_decoder _). }
  unfold on_frame. destruct (match g_last_fed _ with Some _ => _ | None => _ end); [by constructor|].
  destruct (is_keyframe h) eqn:Hk; [by constructor|].
  destruct (_ && _); [apply Hrefuse|]. destruct (_ && _); [apply Hrefuse|].
  destruct (held _ h) as [[]|] eqn:Hh; [|apply Hrefuse..]. constructor; [done| |done].
  unfold marks_target, has. intros [_ H%negb_true_iff]%andb_prop.
  apply negb_false_iff, Z.eqb_eq in H. apply negb_false_iff, Z.eqb_eq.
  apply Z.bits_inj'. intros n Hn'. apply (f_equal (λ z, Z.testbit z n)) in H.
  rewrite Z.land_spec, Z.lor_spec, Z.bits_0 in H.
  rewrite Z.land_spec, Z.bits_0. destruct (Z.testbit (fh_flags h) n); [|done].
  cbn [andb] in *. by apply orb_false_iff in H as [_ ?].
Qed.

Lemma on_frame_fresh g h now b :
  (on_frame g h now).2 = Feed b →
  (∀ l, g.(g_last_fed) = Some l → seq_after h.(fh_frame_seq) l = true)
  ∧ (on_frame g h now).1.(g_last_fed) = Some h.(fh_frame_seq).
Proof.
  assert (g_last_fed (note_features g h) = g_last_fed g) as Hn
    by (unfold note_features; by destruct (has _ _)).
  unfold on_frame. rewrite Hn.
  destruct (g_last_fed g) as [l|]; [destruct (seq_after (fh_frame_seq h) l) eqn:Hs|];
    cbn [negb]; try done;
    (intros Hf; split; [naive_solver|]); revert Hf;
    (destruct (is_keyframe h); [done|]); unfold refuse;
    (destruct (_ && _); [done|]); (destruct (_ && _); [done|]);
    (destruct (held _ h) as [[]|]; [|cbv zeta; by destruct (g_no_decoder _)|done]);
    intros _; unfold feed_predicted; cbv zeta; by destruct (has h _), (_ && _).
Qed.

Lemma seqs_snoc chain h : seqs (chain ++ [h]) = seqs chain ++ [h.(fh_frame_seq)].
Proof. unfold seqs. by rewrite fmap_app. Qed.

Lemma lt_insert_in (lt : list (option Z)) n x i s (P : Z → Prop) :
  <[n := Some x]> lt !! i = Some (Some s) → P x →
  (∀ j t, lt !! j = Some (Some t) → P t) → P s.
Proof.
  intros Hl Hx Hlt. destruct (decide (i = n)) as [->|Hne].
  - destruct (decide (n < length lt)%nat).
    + rewrite list_lookup_insert_eq in Hl by done. by injection Hl as <-.
    + rewrite list_insert_ge in Hl by lia. by eapply Hlt.
  - rewrite list_lookup_insert_ne in Hl by done. by eapply Hlt.
Qed.

Lemma held_predicts g h chain b :
  gate_holds g chain b → is_keyframe h = false → held g h = Some true → predicts_from chain h.
Proof.
  intros [Hg Hl Hn _ _] Hk. unfold held, predicts_from.
  destruct (has h FRAME_FLAG_TARGET_IS_LT) eqn:Ht.
  - destruct (LT_SLOTS <=? _)%nat; [done|]. intros [= [_ H]%andb_prop].
    apply bool_decide_eq_true in H. right; right; left. split; [done|by eapply Hl].
  - destruct (Z.eqb_spec (fh_ref_frame_seq h) REF_FRAME_NONE); [by auto|].
    intros [= [_ H]%andb_prop]. apply bool_decide_eq_true in H. auto 6.
Qed.

(** The target of a mark is a frame of the chain. *)
Lemma held_target_in g h chain b :
  gate_holds g chain b → has h FRAME_FLAG_TARGET_IS_LT = false →
  h.(fh_ref_frame_seq) ≠ REF_FRAME_NONE → held g h = Some true → h.(fh_ref_frame_seq) ∈ seqs chain.
Proof.
  intros [Hg _ _ _ _] Ht Hr. unfold held. rewrite Ht, (proj2 (Z.eqb_neq _ _)) by done.
  intros [= [H _]%andb_prop]. apply bool_decide_eq_true in H. by apply Hg.
Qed.

Lemma held_chain_nonempty g h chain b :
  gate_holds g chain b → held g h = Some true → g.(g_waiting_for_idr) = true → chain ≠ [].
Proof.
  intros Hh Hheld Hw ->. destruct Hh as [Hg Hl _ _ _]. unfold held in Hheld.
  destruct (has h FRAME_FLAG_TARGET_IS_LT).
  - destruct (LT_SLOTS <=? _)%nat; [done|]. apply Some_inj, andb_prop in Hheld as [_ H].
    apply bool_decide_eq_true in H. by apply Hl, not_elem_of_nil in H.
  - destruct (Z.eqb_spec (fh_ref_frame_seq h) REF_FRAME_NONE); [by rewrite Hw in Hheld|].
    apply Some_inj, andb_prop in Hheld as [H _]. apply bool_decide_eq_true in H.
    by apply Hg, not_elem_of_nil in H.
Qed.

Lemma on_idr_holds g h now b :
  is_keyframe h = true → gate_holds (on_idr g h.(fh_frame_seq) now) [h] b.
Proof.
  intros Hk. split; cbn.
  - intros s. by rewrite !list_elem_of_singleton.
  - intros [|[|i]] s; cbn; try done. intros [= <-]. by apply list_elem_of_singleton.
  - intros s [= <-]. unfold newest_reference. rewrite filter_cons, filter_nil, decide_True; [done|].
    unfold is_reference. by rewrite Hk.
  - intros i h' Hi. apply list_lookup_singleton_Some in Hi as [-> <-]. by left.
  - intros _. right. by exists h.
Qed.

Lemma feed_predicted_holds g h chain b :
  gate_holds g chain b → is_keyframe h = false →
  (marks_target h = true → has h FRAME_FLAG_TARGET_IS_LT = false) → held g h = Some true →
  gate_holds (feed_predicted g h).1 (chain ++ [h]) b.
Proof.
  intros Hh Hk Hmt Hheld. pose proof Hh as [Hg Hl Hn Hc Hr].
  pose proof (held_predicts g h chain b Hh Hk Hheld) as Hp.
  assert (∀ s, s ∈ seqs chain → s ∈ seqs (chain ++ [h])) as Hweak
    by (intros; rewrite seqs_snoc, elem_of_app; auto).
  assert (h.(fh_frame_seq) ∈ seqs (chain ++ [h])) as Hself
    by (rewrite seqs_snoc, elem_of_app, list_elem_of_singleton; auto).
  assert (g_lt (feed_predicted g h).1 =
    let lt := if negb (has h FRAME_FLAG_NON_REF) && marks h
              then <[mark_slot h := Some h.(fh_frame_seq)]> g.(g_lt) else g.(g_lt) in
    if marks_target h && negb (h.(fh_ref_frame_seq) =? REF_FRAME_NONE)
    then <[mark_slot h := Some h.(fh_ref_frame_seq)]> lt else lt) as Hlt
    by (unfold feed_predicted; cbv zeta;
        by destruct (marks_target h && _), (has h FRAME_FLAG_NON_REF), (marks h)).
  split.
  - intros s. replace (g_good _) with (push_capped GOOD_CAP g.(g_good) h.(fh_frame_seq))
      by (unfold feed_predicted; cbv zeta; by destruct (marks_target h && _), (has h FRAME_FLAG_NON_REF)).
    intros [?| ->]%push_capped_in; auto.
  - intros i s. rewrite Hlt. cbv zeta. intros Hs.
    assert (∀ j t, (if negb (has h FRAME_FLAG_NON_REF) && marks h
      then <[mark_slot h := Some h.(fh_frame_seq)]> g.(g_lt) else g.(g_lt)) !! j = Some (Some t) →
      t ∈ seqs (chain ++ [h])) as Hlt'.
    { intros j t. destruct (_ && _); [|by eauto]. intros Hj.
      refine (lt_insert_in _ _ _ _ _ (λ s, s ∈ _) Hj Hself _). eauto. }
    destruct (marks_target h && _) eqn:Hm; [|by eauto].
    apply andb_prop in Hm as [Hm Hne%negb_true_iff%Z.eqb_neq].
    refine (lt_insert_in _ _ _ _ _ (λ s, s ∈ _) Hs _ Hlt'). cbn beta.
    apply Hweak, (held_target_in g h chain b); auto.
  - intros s. replace (g_newest_ref _)
      with (if has h FRAME_FLAG_NON_REF then g.(g_newest_ref) else Some h.(fh_frame_seq))
      by (unfold feed_predicted; cbv zeta; by destruct (marks_target h && _), (has h FRAME_FLAG_NON_REF)).
    rewrite newest_reference_snoc. unfold is_reference. rewrite Hk.
    destruct (has h FRAME_FLAG_NON_REF); cbn [orb negb]; auto.
  - by apply closed_chain_snoc.
  - intros Hb. right. destruct (Hr Hb) as [[-> Hw]|(h0 & Hh0 & Hk0)].
    + by destruct (held_chain_nonempty g h [] b Hh Hheld Hw).
    + exists h0. destruct chain as [|? chain]; done.
Qed.

Lemma take_request_refs g : same_refs g (take_request g).1.
Proof. done. Qed.

Lemma reset_refs g c seq now :
  c ≠ CauseIdrReceived →
  (reset g c seq now).(g_good) = [] ∧ (reset g c seq now).(g_lt) = replicate LT_SLOTS None
  ∧ (reset g c seq now).(g_newest_ref) = None ∧ (reset g c seq now).(g_waiting_for_idr) = true
  ∧ (reset g c seq now).(g_last_fed) = g.(g_last_fed).
Proof.
  intros Hc. unfold reset. cbv zeta. destruct c; [done|done| |].
  - unfold paced_request. cbv zeta. by destruct (due _ _).
  - by destruct (g_no_decoder _).
Qed.

Lemma reset_holds g c seq now b :
  c ≠ CauseIdrReceived → gate_holds (reset g c seq now) [] b.
Proof.
  intros Hc. destruct (reset_refs g c seq now Hc) as (H1 & H2 & H3 & H4 & _).
  split; rewrite ?H1, ?H2, ?H3, ?H4; try done; [|by left].
  intros i s Hi. apply lookup_replicate in Hi as [? _]. done.
Qed.

(** The trace invariant: what the gate holds, and what was fed last. *)
Record trace_ok (t : gate_trace) : Prop := {
  to_holds : gate_holds t.(gt_gate) t.(gt_chain) t.(gt_was_reset);
  to_last : t.(gt_gate).(g_last_fed) = fh_frame_seq <$> last t.(gt_fed);
  to_order : ∀ i a b, t.(gt_fed) !! i = Some a → t.(gt_fed) !! S i = Some b →
               seq_after b.(fh_frame_seq) a.(fh_frame_seq) = true;
}.

Lemma snoc_order (R : FrameHeader → FrameHeader → Prop) l x :
  (∀ i a b, l !! i = Some a → l !! S i = Some b → R a b) →
  (∀ a, last l = Some a → R a x) →
  ∀ i a b, (l ++ [x]) !! i = Some a → (l ++ [x]) !! S i = Some b → R a b.
Proof.
  intros Hl Hx i a b Ha Hb. apply lookup_app_Some in Hb as [Hb|[Hlen Hb]].
  - rewrite lookup_app_l in Ha by (apply lookup_lt_Some in Hb; lia). by eapply Hl.
  - apply list_lookup_singleton_Some in Hb as [Hi <-].
    rewrite lookup_app_l in Ha by lia. apply Hx. rewrite last_lookup, <-Ha. f_equal. lia.
Qed.

Lemma gate_step_ok t ev : outside_cause ev → trace_ok t → trace_ok (gate_step t ev).
Proof.
  intros Hev [Hh Hl Ho]. unfold gate_step. destruct ev as [h now|c seq now].
  - cbn [gate_apply]. destruct (on_frame (gt_gate t) h now) as [g' v] eqn:Hof.
    pose proof (on_frame_decision (gt_gate t) h now) as Hd.
    pose proof (λ b, on_frame_fresh (gt_gate t) h now b) as Hf. rewrite Hof in Hd, Hf.
    cbn [fst snd] in Hd, Hf. destruct v as [r|c]; cbn [take_request fed_by chain_after].
    + destruct (Hf r eq_refl) as [Hafter Hlast]. split; cbn [gt_gate gt_fed gt_chain gt_was_reset].
      * apply (gate_holds_same g'); [apply take_request_refs|].
        inversion Hd as [|now' Hk Hg Hv|Hk Hm Hheld Hg Hv]; subst; rewrite Hk.
        -- by apply on_idr_holds.
        -- apply feed_predicted_holds; try done.
           apply (gate_holds_same (gt_gate t)); [apply note_features_refs|done].
      * cbn. by rewrite Hlast, last_snoc.
      * apply snoc_order; [done|]. intros a Ha. apply Hafter. by rewrite Hl, Ha.
    + inversion Hd as [g1 c1 Hsame Hg Hc| |]; subst.
      split; cbn [gt_gate gt_fed gt_chain gt_was_reset]; rewrite ?app_nil_r; [|cbn|done].
      * apply (gate_holds_same (gt_gate t)); [|done].
        eapply same_refs_trans; [done|apply take_request_refs].
      * by destruct Hsame as (_ & _ & _ & _ & ->).
  - assert (c ≠ CauseIdrReceived) as Hc by (by intros ->).
    cbn [gate_apply take_request fed_by chain_after]. split; cbn [gt_gate gt_fed gt_chain gt_was_reset].
    + apply (gate_holds_same (reset (gt_gate t) c seq now)); [apply take_request_refs|].
      by apply reset_holds.
    + rewrite app_nil_r. cbn. by destruct (reset_refs (gt_gate t) c seq now Hc) as (_ & _ & _ & _ & ->).
    + by rewrite app_nil_r.
Qed.

Lemma foldl_invariant {A B} (f : A → B → A) (P : A → Prop) (Q : B → Prop) l : ∀ a,
  P a → Forall Q l → (∀ a b, Q b → P a → P (f a b)) → P (foldl f a l).
Proof. induction l as [|b l IH]; intros a Ha Hl Hstep; [done|]. inversion Hl; subst. cbn. auto. Qed.

(** C10: The gate feeds only what can be decoded.  After any sequence of frames and
    decoder resets, the frames fed since the references were last dropped form a
    closed prediction chain (each is an IDR, names no reference, names a
    long-term picture among the frames before it, or names the newest reference
    before it); once the decoder was reset that chain starts with an IDR; and
    each frame ever fed is newer than the one fed before it. *)
Theorem gate_feeds_decodable evs :
  Forall outside_cause evs →
  closed_chain (gate_run evs).(gt_chain)
  ∧ ((gate_run evs).(gt_was_reset) = true → (gate_run evs).(gt_chain) ≠ [] →
     ∃ h, head (gate_run evs).(gt_chain) = Some h ∧ is_keyframe h = true)
  ∧ ∀ i a b, (gate_run evs).(gt_fed) !! i = Some a → (gate_run evs).(gt_fed) !! S i = Some b →
      seq_after b.(fh_frame_seq) a.(fh_frame_seq) = true.
Proof.
  intros Hevs. assert (trace_ok (gate_run evs)) as [[_ _ _ Hc Hr] _ Ho].
  { apply (foldl_invariant gate_step trace_ok outside_cause); [|done|apply gate_step_ok].
    split; cbn; try done. split; cbn; try done. intros [|[|i]] s; done. }
  split_and!; [done| |done]. intros Hb Hne. by destruct (Hr Hb) as [[? _]|].
Qed.

Definition idr_header (seq : Z) : FrameHeader :=
  mkFrameHeader seq 0 1 NO_ACK 0 FRAME_FLAG_IDR 0 REF_FRAME_NONE.
Definition p_header (seq flags slots ref : Z) : FrameHeader :=
  mkFrameHeader seq 0 1 NO_ACK 0 flags slots ref.

(** An IDR, a P frame on it, a P frame whose reference is missing, a repair from
    the long-term slot, a decoder failure and the IDR that answers it. *)
Definition sample_session : list gate_event :=
  [GFrame (idr_header 1) 0; GFrame (p_header 2 0 0 1) 16000; GFrame (p_header 4 0 0 3) 48000;
   GFrame (p_header 5 FRAME_FLAG_TARGET_IS_LT 0 1) 64000; GReset CauseDecoderFailure 5 70000;
   GFrame (p_header 6 0 0 5) 80000; GFrame (idr_header 7) 96000].

Example sample_session_fed : seqs (gate_run sample_session).(gt_fed) = [1; 2; 5; 7].
Proof. reflexivity. Qed.

Lemma gate_feeds_decodable_witness :
  closed_chain (gate_run sample_session).(gt_chain)
  ∧ ((gate_run sample_session).(gt_was_reset) = true → (gate_run sample_session).(gt_chain) ≠ [] →
     ∃ h, head (gate_run sample_session).(gt_chain) = Some h ∧ is_keyframe h = true)
  ∧ ∀ i a b, (gate_run sample_session).(gt_fed) !! i = Some a →
      (gate_run sample_session).(gt_fed) !! S i = Some b →
      seq_after b.(fh_frame_seq) a.(fh_frame_seq) = true.
Proof. apply (gate_feeds_decodable sample_session). by apply (bool_decide_unpack _). Defined.

(** ** Pacing of reset requests *)

Definition req_clock (g : H264Gate) : option Z * option Z * bool * option (ResetReason * Z) :=
  (g.(g_last_request_us), g.(g_last_failure_request_us), g.(g_no_decoder), g.(g_request)).

(** What one event does to the request clocks of a gate whose request was taken. *)
Inductive raises (now : Z) (lr lf : option Z) :
    bool → option Z * option Z * bool * option (ResetReason * Z) → Prop :=
| r_none nd : raises now lr lf nd (lr, lf, nd, None)
| r_gate seq : due lr now = true → due lf now = true →
    raises now lr lf false (Some now, lf, false, Some (GateReset, seq))
| r_failure nd seq : due lf now = true →
    raises now lr lf nd (lr, Some now, nd, Some (DecoderFailure, seq))
| r_no_decoder seq : raises now lr lf false (Some now, lf, true, Some (NoDecoder, seq)).

Lemma req_clock_feed g h : req_clock (feed_predicted g h).1 = req_clock g.
Proof. unfold feed_predicted. cbv zeta. by destruct (has h FRAME_FLAG_NON_REF), (_ && _). Qed.

Lemma req_clock_features g h : req_clock (note_features g h) = req_clock g.
Proof. unfold note_features. by destruct (has _ _). Qed.

Lemma refuse_raises g c seq now lr lf nd :
  req_clock g = (lr, lf, nd, None) → raises now lr lf nd (req_clock (refuse g c seq now).1).
Proof.
  intros Hg. assert (raises now lr lf nd (req_clock g)) as Hsame by (rewrite Hg; constructor).
  unfold refuse. destruct c; try done. cbv zeta. cbn [g_no_decoder with_waiting].
  injection Hg as H1 H2 H3 H4. destruct (g_no_decoder g) eqn:Hnd; [done|].
  destruct (_ || _); [|done]. cbn [fst]. unfold paced_request. cbv zeta.
  cbn [g_last_request_us g_last_failure_request_us with_refusing with_waiting].
  rewrite H1, H2. destruct (due lr now) eqn:D1, (due lf now) eqn:D2; cbn [andb]; try done.
  subst nd. unfold req_clock. cbn. rewrite Hnd. by constructor.
Qed.

Lemma gate_apply_raises g ev lr lf nd :
  req_clock g = (lr, lf, nd, None) → outside_cause ev →
  raises (event_time ev) lr lf nd (req_clock (gate_apply g ev).1).
Proof.
  intros Hg Hev. assert (raises (event_time ev) lr lf nd (req_clock g)) as Hsame
    by (rewrite Hg; constructor).
  destruct ev as [h now|c seq now]; cbn [gate_apply event_time] in *.
  - pose proof (refuse_raises (note_features g h)) as Hr.
    assert (∀ c, raises now lr lf nd (req_clock (refuse (note_features g h) c h.(fh_frame_seq) now).1))
      as Hrefuse by (intros c; apply Hr; by rewrite req_clock_features).
    unfold on_frame. destruct (match g_last_fed _ with Some _ => _ | None => _ end).
    { cbn [fst]. by rewrite req_clock_features. }
    destruct (is_keyframe h). { cbn [fst]. by rewrite <-(req_clock_features g h) in Hsame. }
    assert (∀ p : H264Gate * Verdict, raises now lr lf nd (req_clock p.1) →
      raises now lr lf nd (req_clock (let '(g', v) := p in (g', Some v)).1)) as Hp by (by intros []).
    apply Hp. destruct (_ && _); [done|]. destruct (_ && _); [done|].
    destruct (held _ h) as [[]|]; [|done|done]. by rewrite req_clock_feed, req_clock_features.
  - injection Hg as H1 H2 H3 H4. cbn [fst]. unfold reset. cbv zeta. destruct c; [done|..].
    + unfold req_clock. cbn. rewrite H1, H2, H3, H4. constructor.
    + unfold paced_request. cbv zeta. cbn [g_last_failure_request_us with_waiting with_reset_pending with_refs].
      rewrite H2. destruct (due lf now) eqn:D; unfold req_clock; cbn; rewrite H1, H3, ?H2, ?H4; by constructor.
    + cbn [g_no_decoder with_waiting with_reset_pending with_refs].
      destruct (g_no_decoder g) eqn:Hnd; unfold req_clock; cbn;
        rewrite ?H1, H2, ?Hnd, ?H4; rewrite <-H3; by constructor.
Qed.

(** Two requests, the first sent before the second. *)
Definition paced_pair (a b : ResetReason * Z) : Prop :=
  match a.1, b.1 with
  | GateReset, GateReset | DecoderFailure, DecoderFailure | DecoderFailure, GateReset =>
      a.2 + RESET_REQUEST_MIN_INTERVAL_US ≤ b.2
  | NoDecoder, GateReset | NoDecoder, NoDecoder => False
  | _, _ => True
  end.

Definition requests_paced (reqs : list (ResetReason * Z)) : Prop :=
  ∀ i j a b, reqs !! i = Some a → reqs !! j = Some b → (i < j)%nat → paced_pair a b.

(** The clocks remember enough of the requests sent. *)
Definition clock_covers (t : ResetReason * Z) (lr lf : option Z) (nd : bool) : Prop :=
  match t.1 with
  | GateReset => ∃ u, lr = Some u ∧ t.2 ≤ u
  | DecoderFailure => ∃ u, lf = Some u ∧ t.2 ≤ u
  | NoDecoder => nd = true
  | Resolution => True
  end.

Record pacing_ok (t : gate_trace) (now : Z) : Prop := {
  po_taken : t.(gt_gate).(g_request) = None;
  po_paced : requests_paced t.(gt_requests);
  po_past : Forall (λ r, r.2 ≤ now) t.(gt_requests);
  po_cover : Forall (λ r, clock_covers r t.(gt_gate).(g_last_request_us)
                 t.(gt_gate).(g_last_failure_request_us) t.(gt_gate).(g_no_decoder)) t.(gt_requests);
}.

Lemma due_some u now : due (Some u) now = true → u + RESET_REQUEST_MIN_INTERVAL_US ≤ now.
Proof. unfold due, sat_sub, RESET_REQUEST_MIN_INTERVAL_US. rewrite Z.leb_le. lia. Qed.

Lemma requests_paced_snoc reqs r :
  requests_paced reqs → Forall (λ a, paced_pair a r) reqs → requests_paced (reqs ++ [r]).
Proof.
  intros Hp Hr i j a b Ha Hb Hij. apply lookup_app_Some in Hb as [Hb|[Hlen Hb]].
  - rewrite lookup_app_l in Ha by (apply lookup_lt_Some in Hb; lia). by eapply Hp.
  - apply list_lookup_singleton_Some in Hb as [Hj <-].
    rewrite lookup_app_l in Ha by lia. by eapply Forall_lookup_1 in Hr.
Qed.

(** A request raised now is paced behind everything the clocks cover, and the
    new clocks cover it and what came before. *)
Lemma raises_paced now lr lf nd lr' lf' nd' req a :
  raises now lr lf nd (lr', lf', nd', req) → clock_covers a lr lf nd → a.2 ≤ now →
  clock_covers a lr' lf' nd'
  ∧ ∀ r, req = Some r → paced_pair a (r.1, now) ∧ clock_covers (r.1, now) lr' lf' nd'.
Proof.
  intros Hr Ha Hle. destruct a as [ra ta]. unfold clock_covers, paced_pair in *. cbn [fst snd] in *.
  inversion Hr; subst; destruct ra; split; try done;
    repeat match goal with
    | H : ∃ u, _ |- _ => destruct H as (? & -> & ?)
    | H : due (Some _) _ = true |- _ => apply due_some in H
    end; eauto 6 with lia;
    intros r0 [= <-]; cbn [fst snd]; eauto 7 with lia.
Qed.

Lemma gate_step_paced t ev now :
  outside_cause ev → now ≤ event_time ev → pacing_ok t now → pacing_ok (gate_step t ev) (event_time ev).
Proof.
  intros Hev Hle [Ht Hp Hpast Hc]. unfold gate_step.
  pose proof (gate_apply_raises t.(gt_gate) ev _ _ _ (f_equal (λ r, (_, _, _, r)) Ht) Hev) as Hr.
  destruct (gate_apply (gt_gate t) ev) as [g v]. cbn [fst] in Hr. cbn [take_request].
  unfold req_clock in Hr. set (lr := g_last_request_us (gt_gate t)) in *.
  set (lf := g_last_failure_request_us (gt_gate t)) in *. set (nd := g_no_decoder (gt_gate t)) in *.
  assert (Forall (λ a, a.2 ≤ event_time ev) (gt_requests t)) as Hpast'
    by (apply (Forall_impl _ _ _ Hpast); intros; lia).
  assert (Forall (λ a, clock_covers a (g_last_request_us g) (g_last_failure_request_us g) (g_no_decoder g)
    ∧ ∀ r, g_request g = Some r → paced_pair a (r.1, event_time ev)) (gt_requests t)) as Hnew.
  { apply Forall_forall. intros a Ha. rewrite Forall_forall in Hc, Hpast'.
    destruct (raises_paced _ _ _ _ _ _ _ _ a Hr (Hc a Ha) (Hpast' a Ha)) as [H1 H2].
    split; [done|]. intros r Hr'. by apply H2. }
  destruct (g_request g) as [[r s]|] eqn:Hreq; cbn [fmap option_fmap option_map option_list option_rect];
    [|rewrite app_nil_r]; split; cbn; try done.
  - apply requests_paced_snoc; [done|]. apply (Forall_impl _ _ _ Hnew). intros a [_ H]. exact (H _ eq_refl).
  - apply Forall_app_2; [done|]. by repeat constructor.
  - apply Forall_app_2; [by apply (Forall_impl _ _ _ Hnew); intros a [? _]|].
    constructor; [|done].
    destruct (raises_paced _ _ _ _ _ _ _ _ (Resolution, event_time ev) Hr) as [_ H]; [done|cbn; lia|].
    by apply (H (r, s)).
  - by apply (Forall_impl _ _ _ Hnew); intros a [? _].
Qed.

(** The caller's clock does not run backwards. *)
Fixpoint events_from (now : Z) (evs : list gate_event) : Prop :=
  match evs with [] => True | ev :: evs => now ≤ event_time ev ∧ events_from (event_time ev) evs end.

#[export] Instance events_from_dec now evs : Decision (events_from now evs).
Proof. revert now. induction evs; intros now; cbn; apply _. Defined.

Lemma gate_steps_paced evs : ∀ t now,
  Forall outside_cause evs → events_from now evs → pacing_ok t now →
  requests_paced (foldl gate_step t evs).(gt_requests).
Proof.
  induction evs as [|ev evs IH]; intros t now Hev Ht Hp; [by destruct Hp|].
  inversion Hev; subst. destruct Ht as [Hle Ht]. cbn. by eapply IH, gate_step_paced.
Qed.

(** Reset requests are paced.  However frames and decoder failures arrive,
    two [GateReset] requests are at least 2.2 s apart, and so are two
    [DecoderFailure] requests and a [GateReset] after a [DecoderFailure];
    [NoDecoder] is sent at most once and no [GateReset] follows it. *)
Theorem reset_requests_paced evs :
  Forall outside_cause evs → events_from 0 evs → requests_paced (gate_run evs).(gt_requests).
Proof. intros Hev Ht. by apply (gate_steps_paced evs trace_new 0). Qed.

Lemma reset_requests_paced_witness : requests_paced (gate_run sample_session).(gt_requests).
Proof. apply (reset_requests_paced sample_session); by apply (bool_decide_unpack _). Defined.

(** ** What a frame ack says *)

(** Frames numbered without wrapping; on the wire the number is 31 bits wide. *)
Definition wire_seq_of (v : Z) : Z := wrap 31 v.

Lemma serial_distance a b :
  Z.land (wsub32 (wire_seq_of a) (wire_seq_of b)) SEQ_MASK = (a - b) mod 2 ^ 31.
Proof.
  change SEQ_MASK with (2 ^ 31 - 1). rewrite land_low by lia.
  unfold wsub32, wire_seq_of, wrap. rewrite Z.mod_mod_divide by (by exists 2).
  by rewrite Zminus_mod_idemp_l, Zminus_mod_idemp_r.
Qed.

(** The outcomes recorded so far: [(frame, decoded)]. *)
Definition decoded_in (hist : list (Z * bool)) (s : Z) : bool := bool_decide ((s, true) ∈ hist).
Definition refused_in (hist : list (Z * bool)) (s : Z) : bool :=
  bool_decide ((s, false) ∈ hist) && negb (decoded_in hist s).

Record window_ok (hist : list (Z * bool)) (N : Z) (w : FrameAckWindow) : Prop := {
  wo_newest : w.(fw_newest) = Some (wire_seq_of N);
  wo_past : ∀ v b, (v, b) ∈ hist → v ≤ N;
  wo_width : in_width 64 w.(fw_decoded) ∧ in_width 64 w.(fw_refused);
  wo_decoded : ∀ k, 0 ≤ k < 64 → Z.testbit w.(fw_decoded) k = decoded_in hist (N - k);
  wo_refused : ∀ k, 0 ≤ k < 64 → Z.testbit w.(fw_refused) k = refused_in hist (N - k);
  wo_dirty : is_Some w.(fw_dirty_since_us);
}.

Lemma testbit_not64 m k : 0 ≤ k < 64 → Z.testbit (not64 m) k = negb (Z.testbit m k).
Proof. intros. unfold not64. rewrite testbit_wrap, Z.lnot_spec by lia. done. Qed.

(** Setting a bit: a decode outranks a refusal. *)
Lemma fw_set_spec d r bit dec d' r' :
  in_width 64 d → in_width 64 r → 0 ≤ bit < 64 → fw_set d r bit dec = (d', r') →
  in_width 64 d' ∧ in_width 64 r'
  ∧ (∀ k, 0 ≤ k < 64 → Z.testbit d' k = Z.testbit d k || ((bit =? k) && dec))
  ∧ (∀ k, 0 ≤ k < 64 → Z.testbit r' k =
       if bit =? k then (if dec then false else if Z.testbit d k then Z.testbit r k else true)
       else Z.testbit r k).
Proof.
  intros Hd Hr Hb. unfold fw_set.
  replace (u64 (Z.shiftl 1 bit)) with (2 ^ bit).
  2: { rewrite Z.shiftl_1_l, wrap_small; [done|]. split; [lia|]. apply Z.pow_lt_mono_r; lia. }
  rewrite bit_set by lia.
  assert (∀ k, 64 ≤ k → Z.testbit (2 ^ bit) k = false) as Hm
    by (intros; rewrite testbit_pow2 by lia; apply Z.eqb_neq; lia).
  assert (∀ k, 64 ≤ k → Z.testbit d k = false) as Hd' by (intros; apply (testbit_high 64); [done|lia]).
  assert (∀ k, 64 ≤ k → Z.testbit r k = false) as Hr' by (intros; apply (testbit_high 64); [done|lia]).
  destruct dec; cbn [negb andb]; [|destruct (Z.testbit d bit) eqn:Hdb; cbn [negb]];
    intros [= <- <-]; split_and!; try done;
    try (apply in_width_bits; [lia|]; intros k Hk;
         rewrite ?Z.lor_spec, ?Z.land_spec, ?Hd', ?Hr', ?Hm by lia; done);
    intros k Hk; rewrite ?Z.lor_spec, ?Z.land_spec, ?testbit_not64, ?testbit_pow2 by lia;
    destruct (Z.eqb_spec bit k) as [->|]; rewrite ?Hdb; cbn;
    rewrite ?orb_false_r, ?orb_true_r, ?andb_true_r, ?andb_false_r; done.
Qed.

Lemma decoded_in_snoc hist v b s :
  decoded_in (hist ++ [(v, b)]) s = decoded_in hist s || ((v =? s) && b).
Proof.
  unfold decoded_in. apply eq_iff_eq_true.
  rewrite orb_true_iff, andb_true_iff, !bool_decide_eq_true, elem_of_app, list_elem_of_singleton,
    Z.eqb_eq. destruct b; naive_solver.
Qed.

Lemma refused_in_snoc hist v b s :
  refused_in (hist ++ [(v, b)]) s =
  if v =? s then (if b then false else negb (decoded_in hist s)) else refused_in hist s.
Proof.
  unfold refused_in. rewrite decoded_in_snoc.
  replace (bool_decide ((s, false) ∈ hist ++ [(v, b)]))
    with (bool_decide ((s, false) ∈ hist) || ((v =? s) && negb b)).
  - destruct (v =? s), b; cbn; rewrite ?orb_false_r, ?orb_true_r; cbn; by rewrite ?andb_false_r.
  - apply eq_iff_eq_true. rewrite orb_true_iff, andb_true_iff, negb_true_iff, !bool_decide_eq_true,
      elem_of_app, list_elem_of_singleton, Z.eqb_eq. destruct b; naive_solver.
Qed.

(** Recording keeps the window exact, whichever way the frame arrives. *)
Section record_step.
Context (hist : list (Z * bool)) (N : Z) (w : FrameAckWindow) (v : Z) (dec : bool) (now : Z).
Hypothesis Hok : window_ok hist N w.

(** A bit set in a window whose masks already read [hist], at its newest frame
    [N'], reads the history with [v] added. *)
Lemma record_at_ok N' d r :
  N ≤ N' → v ≤ N' → N' - v < 64 → in_width 64 d → in_width 64 r →
  (∀ k, 0 ≤ k < 64 → Z.testbit d k = decoded_in hist (N' - k)) →
  (∀ k, 0 ≤ k < 64 → Z.testbit r k = refused_in hist (N' - k)) →
  window_ok (hist ++ [(v, dec)]) N'
    (fw_record_at w (wire_seq_of N') d r (N' - v) dec now).
Proof using Hok.
  intros HN Hv Hk Hd Hr Hdk Hrk. unfold fw_record_at.
  destruct (fw_set d r (N' - v) dec) as [d' r'] eqn:Hset.
  destruct (fw_set_spec d r (N' - v) dec d' r' Hd Hr) as (? & ? & Hd' & Hr'); [lia|done|].
  split; cbn [fw_newest fw_decoded fw_refused fw_dirty_since_us]; try done.
  - intros u b [Hu|[= -> ->]%list_elem_of_singleton]%elem_of_app; [|done].
    pose proof (wo_past _ _ _ Hok _ _ Hu). lia.
  - intros k Hk'. rewrite Hd', decoded_in_snoc, Hdk by done.
    f_equal. f_equal. apply eq_iff_eq_true. rewrite !Z.eqb_eq. lia.
  - intros k Hk'. rewrite Hr', refused_in_snoc, Hrk, Hdk by done.
    replace (N' - v =? k) with (v =? N' - k) by (apply eq_iff_eq_true; rewrite !Z.eqb_eq; lia).
    unfold refused_in. destruct (v =? N' - k), dec, (decoded_in hist (N' - k)); try done.
    by rewrite andb_false_r.
Qed.

Lemma not_recorded s b : N < s → (s, b) ∉ hist.
Proof using Hok. intros Hs Hin. pose proof (wo_past _ _ _ Hok _ _ Hin). lia. Qed.

Lemma unrecorded s : N < s → decoded_in hist s = false ∧ refused_in hist s = false.
Proof using Hok.
  intros Hs. unfold refused_in, decoded_in.
  by rewrite !bool_decide_eq_false_2 by (by apply not_recorded).
Qed.

Lemma fw_record_ok :
  N - 2 ^ 30 < v < N + 2 ^ 30 →
  window_ok (hist ++ [(v, dec)]) (Z.max N v) (fw_record w (wire_seq_of v) dec now).
Proof using Hok.
  intros Hv. pose proof Hok as [Hn Hp [Hdw Hrw] Hdk Hrk Hdirty]. unfold fw_record. rewrite Hn.
  rewrite !serial_distance. change (Z.shiftl 1 30) with (2 ^ 30).
  destruct (Z.eqb_spec ((v - N) mod 2 ^ 31) 0) as [H0|H0].
  { assert (v = N) by dlia. rewrite Z.max_l by lia.
    replace 0 with (N - v) at 1 by lia. apply record_at_ok; done || lia. }
  destruct (Z.lt_ge_cases N v) as [Hlt|Hge].
  - rewrite Z.max_r, Z.mod_small by lia. rewrite (proj2 (Z.ltb_lt _ _)) by lia.
    destruct (Z.leb_spec 64 (v - N)).
    + replace 0 with (v - v) at 3 by lia. apply record_at_ok; try done; try lia;
        intros k Hk; rewrite Z.bits_0; symmetry; apply unrecorded; lia.
    + replace 0 with (v - v) at 1 by lia.
      apply record_at_ok; try lia; try (apply wrap_in_width; lia); intros k Hk;
        rewrite testbit_wrap, Z.shiftl_spec by lia;
        (destruct (Z.lt_ge_cases k (v - N)) as [Hb|Hb];
          [rewrite Z.testbit_neg_r by lia; symmetry; apply unrecorded; lia|]).
      * rewrite Hdk by lia. f_equal. lia.
      * rewrite Hrk by lia. f_equal. lia.
  - rewrite Z.max_l by lia.
    replace ((v - N) mod 2 ^ 31) with (v - N + 2 ^ 31) in * by dlia.
    rewrite (proj2 (Z.ltb_ge _ _)) by lia. rewrite Z.mod_small by lia.
    destruct (Z.leb_spec 64 (N - v)).
    + split; try done.
      * intros u b [Hu|[= -> ->]%list_elem_of_singleton]%elem_of_app; [by eapply Hp|done].
      * intros k Hk. rewrite decoded_in_snoc, (proj2 (Z.eqb_neq v (N - k))), orb_false_r by lia.
        by apply Hdk.
      * intros k Hk. rewrite refused_in_snoc, (proj2 (Z.eqb_neq v (N - k))) by lia. by apply Hrk.
    + apply record_at_ok; done || lia.
Qed.
End record_step.

(** The newest frame of a history, each record within serial range of it. *)
Fixpoint serial_from (N : Z) (hist : list (Z * bool)) : Prop :=
  match hist with
  | [] => True
  | (v, _) :: hist => N - 2 ^ 30 < v < N + 2 ^ 30 ∧ serial_from (Z.max N v) hist
  end.

Definition newest_of (N : Z) (hist : list (Z * bool)) : Z := foldl (λ N r, Z.max N r.1) N hist.

(** The client records each outcome as it learns it. *)
Definition record_all (w : FrameAckWindow) (hist : list (Z * bool * Z)) : FrameAckWindow :=
  foldl (λ w '(v, dec, now), fw_record w (wire_seq_of v) dec now) w hist.

Lemma record_all_ok hist : ∀ pre N w,
  window_ok pre N w → serial_from N hist.*1 →
  window_ok (pre ++ hist.*1) (newest_of N hist.*1) (record_all w hist).
Proof.
  induction hist as [|[[v dec] now] hist IH]; intros pre N w Hok Hs.
  { by rewrite app_nil_r. }
  destruct Hs as [Hv Hs]. cbn. rewrite (cons_middle (v, dec) pre), app_assoc.
  apply (IH _ (Z.max N v)); [by apply fw_record_ok|done].
Qed.

Lemma record_first v dec now : window_ok [(v, dec)] v (fw_record frame_acks_new (wire_seq_of v) dec now).
Proof.
  unfold fw_record, fw_record_at. cbn [fw_newest frame_acks_new].
  destruct (fw_set 0 0 0 dec) as [d r] eqn:Hset.
  destruct (fw_set_spec 0 0 0 dec d r) as (? & ? & Hd & Hr); [done|done|lia|done|].
  assert (∀ s, decoded_in [] s = false) as Hn
    by (intros; apply bool_decide_eq_false_2, not_elem_of_nil).
  split; try done; cbn [fw_decoded fw_refused].
  - by intros u b [= -> ->]%list_elem_of_singleton.
  - intros k Hk. rewrite Hd by done. change [(v, dec)] with ([] ++ [(v, dec)]).
    rewrite decoded_in_snoc, Hn, Z.bits_0. f_equal. f_equal. apply eq_iff_eq_true. rewrite !Z.eqb_eq. lia.
  - intros k Hk. rewrite Hr by done. change [(v, dec)] with ([] ++ [(v, dec)]).
    rewrite refused_in_snoc, Hn, Z.bits_0. unfold refused_in. rewrite bool_decide_eq_false_2
      by apply not_elem_of_nil.
    replace (v =? v - k) with (0 =? k) by (apply eq_iff_eq_true; rewrite !Z.eqb_eq; lia). done.
Qed.

Lemma fa_bit_reads N d r mask s :
  in_width 64 mask → N - 2 ^ 31 < s ≤ N →
  fa_bit (mkFrameAck (wire_seq_of N) d r) mask (wire_seq_of s) = (N - s <? 64) && Z.testbit mask (N - s).
Proof.
  intros Hm Hs. unfold fa_bit. cbn [fa_newest_seq]. change 0x7FFFFFFF with SEQ_MASK.
  rewrite serial_distance, Z.mod_small by lia. f_equal.
  rewrite land_1. rewrite <-Z.bit0_mod, Z.shiftr_spec, Z.add_0_l by lia.
  by destruct (Z.testbit mask (N - s)).
Qed.

(** A frame ack says what happened.  After any outcomes recorded within serial
    range of the newest frame, the ack taken encodes and decodes, and the server
    reads from it, for every frame up to the newest: decoded exactly if the frame
    is among the newest 64 and was recorded decoded at least once, refused
    exactly if it was recorded refused and never decoded; no frame is both. *)
Theorem frame_ack_reports v dec now hist t :
  serial_from v hist.*1 →
  let all := (v, dec) :: hist.*1 in
  let N := newest_of v hist.*1 in
  ∃ w' a, fw_take (record_all (fw_record frame_acks_new (wire_seq_of v) dec now) hist) t = (w', Some a)
    ∧ fa_decode (fa_encode a []) = Ok a
    ∧ ∀ s, N - 2 ^ 31 < s ≤ N →
        is_decoded a (wire_seq_of s) = (N - s <? 64) && decoded_in all s
        ∧ is_refused a (wire_seq_of s) = (N - s <? 64) && refused_in all s
        ∧ (is_decoded a (wire_seq_of s) && is_refused a (wire_seq_of s) = false).
Proof.
  intros Hs. cbv zeta. set (N := newest_of v hist.*1).
  destruct (record_all_ok hist [(v, dec)] v _ (record_first v dec now) Hs) as [Hn _ [Hd Hr] Hdk Hrk _].
  set (w := record_all _ hist) in *. fold N in Hn, Hdk, Hrk. unfold fw_take. rewrite Hn.
  eexists _, _. split_and!; [done| |].
  - apply frame_ack_roundtrip. split_and!; try done. cbn. unfold wire_seq_of.
    pose proof (wrap_in_width 31 N ltac:(lia)). wsolve.
  - intros s Hsr. unfold is_decoded, is_refused. cbn [fa_decoded_mask fa_refused_mask].
    rewrite !fa_bit_reads by done. destruct (Z.ltb_spec (N - s) 64); [|done]. cbn [andb].
    rewrite Hdk, Hrk by lia. replace (N - (N - s)) with s by lia.
    split_and!; [done|done|]. unfold refused_in. change ([(v, dec)] ++ hist.*1) with ((v, dec) :: hist.*1).
    destruct (decoded_in _ s); [by rewrite andb_false_r|done].
Qed.

Lemma frame_ack_reports_witness :
  let hist := [(12, false, 5); (11, true, 6); (12, true, 7); (9, false, 8)] in
  let all := (10, true) :: hist.*1 in
  ∃ w' a, fw_take (record_all (fw_record frame_acks_new (wire_seq_of 10) true 4) hist) 9 = (w', Some a)
    ∧ fa_decode (fa_encode a []) = Ok a
    ∧ ∀ s, 12 - 2 ^ 31 < s ≤ 12 →
        is_decoded a (wire_seq_of s) = (12 - s <? 64) && decoded_in all s
        ∧ is_refused a (wire_seq_of s) = (12 - s <? 64) && refused_in all s
        ∧ (is_decoded a (wire_seq_of s) && is_refused a (wire_seq_of s) = false).
Proof.
  apply (frame_ack_reports 10 true 4 [(12, false, 5); (11, true, 6); (12, true, 7); (9, false, 8)] 9).
  cbn. lia.
Defined.
