(* ===== verification/LossTracking.v ===== *)
(** * Loss and suspension measurement on the client

    Models [ghostframe-client-core/src/loss_tracker.rs] (received counts, the
    suspension detector, the feedback and HELLO messages) and
    [ghostframe-client-core/src/wire_loss.rs] (loss before error correction,
    from gaps in the wire sequence).  The theorems: a path with bounded delay
    variation never raises the suspension flag, whatever the sender's pauses;
    every feedback message reports exactly its interval; and the wire-loss
    counters refine a tracker that remembers the set of arrivals, as long as no
    gap outgrows the ring. *)

From S2P Require Import Prelude Wire Control.
From stdpp Require Import base option numbers list gmap.

Local Open Scope Z_scope.

(** ** [loss_tracker.rs] *)

Definition SUSPENSION_GAP_US : Z := 100000.

Record LossTracker : Type := mkLossTracker {
  lt_received : Z;
  lt_recovered_fec : Z;
  lt_last_timed : option (Z * Z);
  lt_suspension : bool;
}.

Definition loss_tracker_new : LossTracker := mkLossTracker 0 0 None false.

Definition on_datagram (t : LossTracker) (now_us : Z) : LossTracker :=
  mkLossTracker (u32 (t.(lt_received) + 1)) t.(lt_recovered_fec) t.(lt_last_timed) t.(lt_suspension).

Definition on_datagram_sent_at (t : LossTracker) (now_us sent_us : Z) : LossTracker :=
  let received := u32 (t.(lt_received) + 1) in
  match t.(lt_last_timed) with
  | None => mkLossTracker received t.(lt_recovered_fec) (Some (now_us, sent_us)) t.(lt_suspension)
  | Some (prev_arrival, prev_sent) =>
      let send_gap := i32 (wsub32 sent_us prev_sent) in
      if send_gap <? 0
      then mkLossTracker received t.(lt_recovered_fec) t.(lt_last_timed) t.(lt_suspension)
      else
        let arrival_gap := sat_sub now_us prev_arrival in
        mkLossTracker received t.(lt_recovered_fec) (Some (now_us, sent_us))
          ((send_gap + SUSPENSION_GAP_US <? arrival_gap) || t.(lt_suspension))
  end.

Definition on_fec_recovery (t : LossTracker) : LossTracker :=
  mkLossTracker t.(lt_received) (u32 (t.(lt_recovered_fec) + 1)) t.(lt_last_timed) t.(lt_suspension).

Definition encode_feedback (t : LossTracker) (now_us : Z) : LossTracker * list Z :=
  let fb := mkReceiverFeedback (u64 (now_us * 1000)) t.(lt_received) t.(lt_recovered_fec)
              t.(lt_suspension) in
  (mkLossTracker 0 0 t.(lt_last_timed) false, rf_encode fb []).

Definition encode_hello (indices_raw supports_h264 h264_acked_ref : bool) : list Z :=
  let caps := 0 in
  let caps := if indices_raw then Z.lor caps HELLO_CAP_INDICES_RAW else caps in
  let caps := if supports_h264 then Z.lor caps HELLO_CAP_SUPPORTS_H264 else caps in
  let caps := if h264_acked_ref then Z.lor caps HELLO_CAP_H264_ACKED_REF else caps in
  [HELLO_MSG_TYPE; caps].

Definition encode_reset_request (reason : ResetReason) (frame_seq : Z) : list Z :=
  reset_request_encode reason frame_seq [].

Definition encode_display_info (max_width max_height scale_milli mm_width mm_height : Z) : list Z :=
  [DISPLAY_INFO_MSG_TYPE] ++ be_bytes 2 max_width ++ be_bytes 2 max_height ++ be_bytes 2 scale_milli
    ++ be_bytes 2 mm_width ++ be_bytes 2 mm_height.

Definition encode_display_mode (width height : Z) : list Z :=
  [DISPLAY_MODE_MSG_TYPE] ++ be_bytes 2 width ++ be_bytes 2 height.

(** ** [wire_loss.rs] *)

Definition REORDER_WINDOW : Z := 64.
Definition RING : Z := 512.
Definition RESYNC_JUMP : Z := 4096.

Record WireLossStats : Type := mkWireLossStats {
  ws_received : Z;
  ws_lost_pre_fec : Z;
  ws_reorder_late : Z;
  ws_late_after_declared : Z;
  ws_recovered : Z;
  ws_dup_rebuilt : Z;
  ws_run_hist : list Z;
  ws_max_run : Z;
}.

Record WireLossTracker : Type := mkWireLossTracker {
  wl_stats : WireLossStats;
  wl_newest : option Z;
  wl_settled_next : Z;
  wl_ring : list bool;
  wl_cur_run : Z;
}.

Definition bucket (run : Z) : nat :=
  if (1 <=? run) && (run <=? 4) then Z.to_nat (run - 1) else
  if (5 <=? run) && (run <=? 8) then 4%nat else
  if (9 <=? run) && (run <=? 16) then 5%nat else
  if (17 <=? run) && (run <=? 32) then 6%nat else 7%nat.

Definition wire_loss_new : WireLossTracker :=
  mkWireLossTracker (mkWireLossStats 0 0 0 0 0 0 (replicate 8 0) 0) None 0
    (replicate (Z.to_nat RING) false) 0.

(** [self.ring[seq as usize % RING]]: always in range. *)
Definition slot_of (seq : Z) : nat := Z.to_nat (seq mod RING).
Definition slot (ring : list bool) (seq : Z) : bool := default false (ring !! slot_of seq).
Definition set_slot (ring : list bool) (seq : Z) (b : bool) : list bool := <[slot_of seq := b]> ring.

Definition add_received (s : WireLossStats) : WireLossStats :=
  mkWireLossStats (s.(ws_received) + 1) s.(ws_lost_pre_fec) s.(ws_reorder_late)
    s.(ws_late_after_declared) s.(ws_recovered) s.(ws_dup_rebuilt) s.(ws_run_hist) s.(ws_max_run).
Definition add_lost (s : WireLossStats) : WireLossStats :=
  mkWireLossStats s.(ws_received) (s.(ws_lost_pre_fec) + 1) s.(ws_reorder_late)
    s.(ws_late_after_declared) s.(ws_recovered) s.(ws_dup_rebuilt) s.(ws_run_hist) s.(ws_max_run).
Definition add_reordered (s : WireLossStats) : WireLossStats :=
  mkWireLossStats (s.(ws_received) + 1) s.(ws_lost_pre_fec) (s.(ws_reorder_late) + 1)
    s.(ws_late_after_declared) s.(ws_recovered) s.(ws_dup_rebuilt) s.(ws_run_hist) s.(ws_max_run).
Definition add_late (s : WireLossStats) : WireLossStats :=
  mkWireLossStats (s.(ws_received) + 1) s.(ws_lost_pre_fec) s.(ws_reorder_late)
    (s.(ws_late_after_declared) + 1) s.(ws_recovered) s.(ws_dup_rebuilt) s.(ws_run_hist) s.(ws_max_run).
Definition add_rebuilt (s : WireLossStats) (dup : bool) : WireLossStats :=
  mkWireLossStats s.(ws_received) s.(ws_lost_pre_fec) s.(ws_reorder_late) s.(ws_late_after_declared)
    (if dup then s.(ws_recovered) else s.(ws_recovered) + 1)
    (if dup then s.(ws_dup_rebuilt) + 1 else s.(ws_dup_rebuilt)) s.(ws_run_hist) s.(ws_max_run).
Definition add_run (s : WireLossStats) (run : Z) : WireLossStats :=
  mkWireLossStats s.(ws_received) s.(ws_lost_pre_fec) s.(ws_reorder_late) s.(ws_late_after_declared)
    s.(ws_recovered) s.(ws_dup_rebuilt) (alter (Z.add 1) (bucket run) s.(ws_run_hist))
    (Z.max s.(ws_max_run) run).

Definition close_run (t : WireLossTracker) : WireLossTracker :=
  if 0 <? t.(wl_cur_run)
  then mkWireLossTracker (add_run t.(wl_stats) t.(wl_cur_run)) t.(wl_newest) t.(wl_settled_next)
         t.(wl_ring) 0
  else t.

(** One turn of the [while] loop of [settle]. *)
Definition settle_one (t : WireLossTracker) : WireLossTracker :=
  let s := t.(wl_settled_next) in
  let t := if slot t.(wl_ring) s then close_run t
    else mkWireLossTracker (add_lost t.(wl_stats)) t.(wl_newest) s t.(wl_ring) (u32 (t.(wl_cur_run) + 1)) in
  mkWireLossTracker t.(wl_stats) t.(wl_newest) (wadd32 s 1) (set_slot t.(wl_ring) s false) t.(wl_cur_run).

(** Every turn moves [settled_next] one closer to [newest], so a bound on the
    distance is enough fuel. *)
Fixpoint settle_go (fuel : nat) (t : WireLossTracker) (newest : Z) : WireLossTracker :=
  match fuel with
  | O => t
  | S fuel =>
      if REORDER_WINDOW <? i32 (wsub32 newest t.(wl_settled_next))
      then settle_go fuel (settle_one t) newest else t
  end.

Definition settle (t : WireLossTracker) (newest : Z) : WireLossTracker :=
  settle_go (Z.to_nat (i32 (wsub32 newest t.(wl_settled_next)))) t newest.

Definition restart_at (t : WireLossTracker) (ring : list bool) (seq : Z) : WireLossTracker :=
  mkWireLossTracker (add_received t.(wl_stats)) (Some seq) seq (set_slot ring seq true) t.(wl_cur_run).

(** [for s in 1..d { *self.slot(newest.wrapping_add(s)) = false }] *)
Definition clear_gap (ring : list bool) (newest d : Z) : list bool :=
  foldl (λ ring s, set_slot ring (wadd32 newest (Z.of_nat s)) false) ring (seq 1 (Z.to_nat (d - 1))).

Definition on_received (t : WireLossTracker) (seq : Z) : WireLossTracker :=
  match t.(wl_newest) with
  | None => restart_at t t.(wl_ring) seq
  | Some newest =>
      let d := i32 (wsub32 seq newest) in
      if 0 <? d then
        if RESYNC_JUMP <? d
        then let t := close_run t in restart_at t (replicate (Z.to_nat RING) false) seq
        else
          let ring := set_slot (clear_gap t.(wl_ring) newest d) seq true in
          settle (mkWireLossTracker (add_received t.(wl_stats)) (Some seq) t.(wl_settled_next) ring
                    t.(wl_cur_run)) seq
      else if i32 (wsub32 seq t.(wl_settled_next)) <? 0 then
        mkWireLossTracker (add_late t.(wl_stats)) t.(wl_newest) t.(wl_settled_next) t.(wl_ring) t.(wl_cur_run)
      else if slot t.(wl_ring) seq then t
      else mkWireLossTracker (add_reordered t.(wl_stats)) t.(wl_newest) t.(wl_settled_next)
             (set_slot t.(wl_ring) seq true) t.(wl_cur_run)
  end.

Definition on_rebuilt (t : WireLossTracker) (seq : Z) : WireLossTracker * bool :=
  let settled := i32 (wsub32 seq t.(wl_settled_next)) <? 0 in
  let in_window := match t.(wl_newest) with
    | Some n => (0 <=? i32 (wsub32 n seq)) && (wsub32 n seq <? RING) | None => false end in
  let arrived := negb settled && in_window && slot t.(wl_ring) seq in
  (mkWireLossTracker (add_rebuilt t.(wl_stats) arrived) t.(wl_newest) t.(wl_settled_next) t.(wl_ring)
     t.(wl_cur_run), negb arrived).

(** ** Numbers that do not wrap *)

Lemma i32_distance a b : - 2 ^ 31 ≤ a - b < 2 ^ 31 → i32 (wsub32 (u32 a) (u32 b)) = a - b.
Proof. intros H. unfold swrap, wsub32, wrap. change (32 - 1) with 31. dlia. Qed.

Lemma wadd32_virtual a b : wadd32 (u32 a) b = u32 (a + b).
Proof. unfold wadd32, wrap. by rewrite Zplus_mod_idemp_l. Qed.

(** ** Suspension *)

(** Events between two feedback messages. *)
Inductive loss_event : Type :=
| LUntimed (now_us : Z)
| LTimed (now_us sent : Z)
| LRecovered.

#[export] Instance loss_event_eq_dec : EqDecision loss_event.
Proof. solve_decision. Defined.

(** [sent] does not wrap; the header carries its low 32 bits. *)
Definition loss_step (t : LossTracker) (ev : loss_event) : LossTracker :=
  match ev with
  | LUntimed now => on_datagram t now
  | LTimed now sent => on_datagram_sent_at t now (u32 sent)
  | LRecovered => on_fec_recovery t
  end.

Definition loss_run (t : LossTracker) (evs : list loss_event) : LossTracker := foldl loss_step t evs.

(** Deliveries through a path whose delay stays within [SUSPENSION_GAP_US] of
    [lo], the newest send time so far being [base]; the sender may pause for
    almost 2^31 us at a time. *)
Fixpoint steady (lo : Z) (base : option Z) (evs : list loss_event) : Prop :=
  match evs with
  | [] => True
  | LTimed now sent :: evs =>
      lo ≤ now - sent ≤ lo + SUSPENSION_GAP_US
      ∧ match base with
        | None => steady lo (Some sent) evs
        | Some b => - 2 ^ 31 ≤ sent - b < 2 ^ 31 ∧ steady lo (Some (Z.max b sent)) evs
        end
  | _ :: evs => steady lo base evs
  end.

Definition baseline_ok (lo : Z) (base : option Z) (t : LossTracker) : Prop :=
  match base with
  | None => t.(lt_last_timed) = None
  | Some b => ∃ now, t.(lt_last_timed) = Some (now, u32 b) ∧ lo ≤ now - b ≤ lo + SUSPENSION_GAP_US
  end.

Definition datagrams_in (evs : list loss_event) : Z :=
  Z.of_nat (length (filter (λ ev, ev ≠ LRecovered) evs)).
Definition recoveries_in (evs : list loss_event) : Z :=
  Z.of_nat (length (filter (λ ev, ev = LRecovered) evs)).

Lemma loss_step_steady lo base t ev evs :
  baseline_ok lo base t → t.(lt_suspension) = false → steady lo base (ev :: evs) →
  ∃ base', baseline_ok lo base' (loss_step t ev) ∧ (loss_step t ev).(lt_suspension) = false
    ∧ steady lo base' evs.
Proof.
  intros Hb Hs Hst. destruct ev as [now|now sent|]; [by exists base| |by exists base].
  destruct Hst as [Hd Hst]. cbn [loss_step]. unfold on_datagram_sent_at. destruct base as [b|].
  - destruct Hb as (prev & Hlt & Hdb), Hst as [Hgap Hst]. rewrite Hlt, i32_distance by done.
    destruct (Z.ltb_spec (sent - b) 0).
    + exists (Some b). split_and!; [by exists prev|done|]. by rewrite Z.max_l in Hst by lia.
    + rewrite Z.max_r in Hst by lia. exists (Some sent). split_and!; [by exists now| |done].
      cbn [lt_suspension]. rewrite Hs, orb_false_r. apply Z.ltb_ge. unfold sat_sub in *. lia.
  - rewrite Hb. exists (Some sent). split_and!; [by exists now|done|done].
Qed.

Lemma loss_run_steady lo evs : ∀ base t,
  baseline_ok lo base t → t.(lt_suspension) = false → steady lo base evs →
  (loss_run t evs).(lt_suspension) = false.
Proof.
  induction evs as [|ev evs IH]; intros base t Hb Hs Hst; [done|].
  destruct (loss_step_steady lo base t ev evs Hb Hs Hst) as (base' & Hb' & Hs' & Hst').
  exact (IH base' _ Hb' Hs' Hst').
Qed.

Lemma loss_run_received evs : ∀ t n,
  t.(lt_received) = u32 n → (loss_run t evs).(lt_received) = u32 (n + datagrams_in evs).
Proof.
  unfold datagrams_in. induction evs as [|ev evs IH]; intros t n Ht; [by rewrite Z.add_0_r|].
  rewrite filter_cons. destruct (decide (ev ≠ LRecovered)) as [Hne|He].
  - cbn [length]. rewrite Nat2Z.inj_succ, Z.add_succ_r, <-Z.add_succ_l. apply IH.
    assert (u32 (u32 n + 1) = u32 (Z.succ n)) as Hw
      by (unfold wrap; by rewrite Zplus_mod_idemp_l).
    destruct ev as [now|now sent|]; [| |done]; cbn [loss_step].
    + cbn. by rewrite Ht.
    + unfold on_datagram_sent_at. destruct (lt_last_timed t) as [[]|]; [destruct (_ <? 0)|];
        cbn; by rewrite Ht.
  - destruct ev; try (destruct He; done). by apply IH.
Qed.

Lemma loss_run_recovered evs : ∀ t n,
  t.(lt_recovered_fec) = u32 n → (loss_run t evs).(lt_recovered_fec) = u32 (n + recoveries_in evs).
Proof.
  unfold recoveries_in. induction evs as [|ev evs IH]; intros t n Ht; [by rewrite Z.add_0_r|].
  rewrite filter_cons. destruct (decide (ev = LRecovered)) as [->|Hne].
  - cbn [length]. rewrite Nat2Z.inj_succ, Z.add_succ_r, <-Z.add_succ_l. apply IH.
    cbn. rewrite Ht. unfold wrap. by rewrite Zplus_mod_idemp_l.
  - apply IH. destruct ev as [now|now sent|]; [done| |done]. cbn [loss_step]. unfold on_datagram_sent_at.
    by destruct (lt_last_timed t) as [[]|]; [destruct (_ <? 0)|].
Qed.

(** A stall, once seen, is kept until it is reported. *)
Lemma loss_run_keeps evs : ∀ t, t.(lt_suspension) = true → (loss_run t evs).(lt_suspension) = true.
Proof.
  induction evs as [|ev evs IH]; intros t Ht; [done|]. apply IH. destruct ev as [now|now sent|]; try done.
  cbn [loss_step]. unfold on_datagram_sent_at.
  destruct (lt_last_timed t) as [[]|]; [destruct (_ <? 0)|]; cbn; rewrite ?Ht, ?orb_true_r; done.
Qed.

(** A receiver's feedback is what happened.  The message sent after any events
    since the previous one decodes to the number of datagrams counted and of
    recoveries among them (modulo 2^32), and resets the counters; on a path whose
    delay varies by at most 100 ms it never reports a suspension, however long
    (up to 2^31 us) the sender pauses; and after a datagram that arrived more
    than 100 ms later than its send spacing allows, it does. *)
Theorem feedback_accounts lo evs now :
  in_width 64 now → steady lo None evs →
  let t := loss_run loss_tracker_new evs in
  let '(t', msg) := encode_feedback t now in
  rf_decode msg = Ok (Some (mkReceiverFeedback (u64 (now * 1000)) (u32 (datagrams_in evs))
                              (u32 (recoveries_in evs)) false))
  ∧ (lt_received t' = 0 ∧ lt_recovered_fec t' = 0 ∧ lt_suspension t' = false)
  ∧ ∀ prev b later sent evs', lt_last_timed t = Some (prev, u32 b) → 0 ≤ sent - b < 2 ^ 31 →
      prev + (sent - b) + SUSPENSION_GAP_US < later →
      (loss_run t (LTimed later sent :: evs')).(lt_suspension) = true.
Proof.
  intros Hnow Hst. cbv zeta. unfold encode_feedback. split_and!; try done.
  - rewrite (loss_run_received evs _ 0), (loss_run_recovered evs _ 0) by done.
    rewrite (loss_run_steady lo evs None) by done. rewrite !Z.add_0_l.
    apply rf_decode_encode. split_and!; cbn; by apply wrap_in_width.
  - intros prev b later sent evs' Hlt Hgap Hlate. cbn [loss_run foldl]. apply loss_run_keeps.
    cbn [loss_step]. unfold on_datagram_sent_at. fold (loss_run loss_tracker_new evs). rewrite Hlt, i32_distance by lia.
    rewrite (proj2 (Z.ltb_ge _ _)) by lia. cbn [lt_suspension].
    rewrite (proj2 (Z.ltb_lt _ _)); [done|]. unfold sat_sub. lia.
Qed.

(** Half an hour of silence between two datagrams, and one rebuilt. *)
Definition quiet_session : list loss_event :=
  [LTimed 1020 1000; LRecovered; LUntimed 1500; LTimed 1800001900 1800001000].

Lemma feedback_accounts_witness :
  let t := loss_run loss_tracker_new quiet_session in
  let '(t', msg) := encode_feedback t 1800002000 in
  rf_decode msg = Ok (Some (mkReceiverFeedback (u64 (1800002000 * 1000)) (u32 3) (u32 1) false))
  ∧ (lt_received t' = 0 ∧ lt_recovered_fec t' = 0 ∧ lt_suspension t' = false)
  ∧ ∀ prev b later sent evs', lt_last_timed t = Some (prev, u32 b) → 0 ≤ sent - b < 2 ^ 31 →
      prev + (sent - b) + SUSPENSION_GAP_US < later →
      (loss_run t (LTimed later sent :: evs')).(lt_suspension) = true.
Proof.
  apply (feedback_accounts 0 quiet_session 1800002000); [by apply (bool_decide_unpack _)|].
  cbn. unfold SUSPENSION_GAP_US. lia.
Defined.

(** A pause of the full period of the 32-bit stamp is beyond the detector: two
    datagrams sent 2^32 us (71.6 minutes) apart over a perfect path carry equal
    stamps, and the pause is taken for a suspension. *)
Example idle_past_the_stamp_period_suspends :
  (loss_run loss_tracker_new [LTimed 0 0; LTimed (2 ^ 32) (2 ^ 32)]).(lt_suspension) = true.
Proof. reflexivity. Qed.

(** ** Wire loss: the tracker that remembers every arrival *)

Record wire_spec : Type := mkWireSpec {
  sp_first : Z;
  sp_newest : Z;
  sp_got : list Z;       (* distinct arrivals that were on time *)
  sp_late : Z;
  sp_reordered : Z;
}.

(** Slots below this are settled. *)
Definition settled_below (s : wire_spec) : Z := Z.max s.(sp_first) (s.(sp_newest) - REORDER_WINDOW).

(** The slots of [first, S) that were never filled. *)
Definition lost_below (first : Z) (got : list Z) (S : Z) : Z :=
  Z.of_nat (length (filter (λ x, x ∉ got) (seqZ first (S - first)))).

Definition spec_start (v : Z) : wire_spec := mkWireSpec v v [v] 0 0.

Definition spec_step (s : wire_spec) (v : Z) : wire_spec :=
  if s.(sp_newest) <? v then mkWireSpec s.(sp_first) v (v :: s.(sp_got)) s.(sp_late) s.(sp_reordered)
  else if v <? settled_below s
  then mkWireSpec s.(sp_first) s.(sp_newest) s.(sp_got) (s.(sp_late) + 1) s.(sp_reordered)
  else if bool_decide (v ∈ s.(sp_got)) then s
  else mkWireSpec s.(sp_first) s.(sp_newest) (v :: s.(sp_got)) s.(sp_late) (s.(sp_reordered) + 1).

(** The tracker holds, for the window from [S], what the specification knows. *)
Record window_holds (s : wire_spec) (S : Z) (t : WireLossTracker) : Prop := {
  wh_newest : t.(wl_newest) = Some (u32 s.(sp_newest));
  wh_settled : t.(wl_settled_next) = u32 S;
  wh_range : s.(sp_first) ≤ S ≤ s.(sp_newest) ∧ s.(sp_newest) < S + RING;
  wh_past : Forall (λ x, x ≤ s.(sp_newest)) s.(sp_got);
  wh_ring_length : length t.(wl_ring) = Z.to_nat RING;
  wh_ring : ∀ x, S ≤ x < S + RING → slot t.(wl_ring) x = bool_decide (x ∈ s.(sp_got));
  wh_received : ws_received t.(wl_stats) = Z.of_nat (length s.(sp_got)) + s.(sp_late);
  wh_lost : ws_lost_pre_fec t.(wl_stats) = lost_below s.(sp_first) s.(sp_got) S;
  wh_reordered : ws_reorder_late t.(wl_stats) = s.(sp_reordered);
  wh_late : ws_late_after_declared t.(wl_stats) = s.(sp_late);
}.

Lemma slot_of_u32 x : slot_of (u32 x) = slot_of x.
Proof. unfold slot_of, RING, wrap. rewrite Z.mod_mod_divide by (by exists (2 ^ 23)). done. Qed.

Lemma slot_of_inj x y : x - RING < y < x + RING → slot_of x = slot_of y → x = y.
Proof. unfold slot_of, RING. intros H E. dlia. Qed.

Lemma slot_of_lt x : (slot_of x < Z.to_nat RING)%nat.
Proof. unfold slot_of, RING. dlia. Qed.

Lemma slot_set_eq ring x b :
  length ring = Z.to_nat RING → slot (set_slot ring x b) x = b.
Proof.
  intros Hl. unfold slot, set_slot. rewrite list_lookup_insert_eq; [done|].
  rewrite Hl. apply slot_of_lt.
Qed.

Lemma slot_set_ne ring x y b : slot_of x ≠ slot_of y → slot (set_slot ring x b) y = slot ring y.
Proof. intros. unfold slot, set_slot. by rewrite list_lookup_insert_ne. Qed.

Lemma slot_u32 ring x : slot ring (u32 x) = slot ring x.
Proof. unfold slot. by rewrite slot_of_u32. Qed.

Lemma set_slot_u32 ring x b : set_slot ring (u32 x) b = set_slot ring x b.
Proof. unfold set_slot. by rewrite slot_of_u32. Qed.

Lemma length_set_slot ring x b : length (set_slot ring x b) = length ring.
Proof. apply length_insert. Qed.

(** Reading a ring after writing one cell of the window. *)
Lemma slot_set ring S x y b :
  length ring = Z.to_nat RING → S ≤ x < S + RING → S ≤ y < S + RING →
  slot (set_slot ring x b) y = if x =? y then b else slot ring y.
Proof.
  intros Hl Hx Hy. destruct (Z.eqb_spec x y) as [->|Hne]; [by apply slot_set_eq|].
  apply slot_set_ne. intros He. apply Hne, (slot_of_inj x y); [lia|done].
Qed.

(** Clearing the gap changes nothing: those slots were never set. *)
Lemma clear_gap_spec n ring N x :
  length ring = Z.to_nat RING →
  length (foldl (λ ring s, set_slot ring (wadd32 (u32 N) (Z.of_nat s)) false) ring (seq 1 n)) = Z.to_nat RING
  ∧ (slot (foldl (λ ring s, set_slot ring (wadd32 (u32 N) (Z.of_nat s)) false) ring (seq 1 n)) x =
     slot ring x ∨
     slot (foldl (λ ring s, set_slot ring (wadd32 (u32 N) (Z.of_nat s)) false) ring (seq 1 n)) x = false
     ∧ ∃ i, (1 ≤ i ≤ n)%nat ∧ slot_of (N + Z.of_nat i) = slot_of x).
Proof.
  intros Hl. induction n as [|n IH]; [by auto|]. rewrite seq_S, foldl_app. cbn [foldl].
  destruct IH as [IHl IH]. split; [by rewrite length_set_slot|].
  rewrite wadd32_virtual, set_slot_u32.
  replace (N + Z.of_nat (1 + n)) with (N + Z.of_nat (S n)) by lia.
  destruct (decide (slot_of (N + Z.of_nat (S n)) = slot_of x)) as [He|Hne].
  - right. split; [|exists (S n); lia || (split; [lia|done])].
    unfold slot. rewrite <-He. fold (slot (set_slot (foldl (λ ring s, set_slot ring (wadd32 (u32 N) (Z.of_nat s)) false) ring (seq 1 n)) (N + Z.of_nat (S n)) false) (N + Z.of_nat (S n))).
    by apply slot_set_eq.
  - rewrite slot_set_ne by done. destruct IH as [IH|[IH (i & Hi & Hs)]]; [by left|].
    right. split; [done|]. exists i. split; [lia|done].
Qed.

Lemma not_in_future s x : Forall (λ y, y ≤ s.(sp_newest)) s.(sp_got) → s.(sp_newest) < x →
  bool_decide (x ∈ s.(sp_got)) = false.
Proof.
  intros Hp Hx. apply bool_decide_eq_false_2. intros Hin. rewrite Forall_forall in Hp.
  specialize (Hp x Hin). lia.
Qed.

Lemma lost_below_succ first got S :
  first ≤ S → lost_below first got (S + 1)
  = lost_below first got S + (if bool_decide (S ∈ got) then 0 else 1).
Proof.
  intros H. unfold lost_below. replace (S + 1 - first) with ((S - first) + 1) by lia.
  rewrite seqZ_app by lia. replace (first + (S - first)) with S by lia.
  rewrite filter_app, length_app. change (seqZ S 1) with [S].
  rewrite filter_cons, filter_nil. destruct (decide (S ∈ got)) as [Hin|Hin].
  - rewrite decide_False by tauto. rewrite bool_decide_eq_true_2 by done. cbn. lia.
  - rewrite decide_True by done. rewrite bool_decide_eq_false_2 by done. cbn. lia.
Qed.

Lemma close_run_fields t :
  let t' := close_run t in
  t'.(wl_newest) = t.(wl_newest) ∧ t'.(wl_settled_next) = t.(wl_settled_next) ∧ t'.(wl_ring) = t.(wl_ring)
  ∧ ws_received t'.(wl_stats) = ws_received t.(wl_stats)
  ∧ ws_lost_pre_fec t'.(wl_stats) = ws_lost_pre_fec t.(wl_stats)
  ∧ ws_reorder_late t'.(wl_stats) = ws_reorder_late t.(wl_stats)
  ∧ ws_late_after_declared t'.(wl_stats) = ws_late_after_declared t.(wl_stats).
Proof. unfold close_run. by destruct (0 <? _). Qed.

Lemma settle_one_holds s S t :
  window_holds s S t → S < s.(sp_newest) → window_holds s (S + 1) (settle_one t).
Proof.
  intros [H1 H2 H3 H4 H5 H6 H7 H8 H9 H10] HS. unfold settle_one. rewrite H2, slot_u32, H6 by (unfold RING; lia).
  pose proof (close_run_fields t) as (C1 & C2 & C3 & C4 & C5 & C6 & C7).
  assert (∀ ring x, ring = wl_ring t → S + 1 ≤ x < S + 1 + RING →
    slot (set_slot ring (u32 S) false) x = bool_decide (x ∈ sp_got s)) as Hring.
  { intros ring x -> Hx. rewrite set_slot_u32. destruct (decide (x = S + RING)) as [->|Hne].
    - rewrite not_in_future by (done || lia). unfold slot.
      replace (slot_of (S + RING)) with (slot_of S) by (unfold slot_of, RING; dlia).
      by apply slot_set_eq.
    - rewrite slot_set_ne; [apply H6; lia|]. intros He. apply slot_of_inj in He; lia. }
  pose proof (lost_below_succ s.(sp_first) s.(sp_got) S ltac:(lia)) as HL.
  destruct (bool_decide (S ∈ sp_got s)); split;
    cbn [wl_newest wl_settled_next wl_ring wl_stats ws_received ws_lost_pre_fec ws_reorder_late
         ws_late_after_declared add_lost];
    rewrite ?C1, ?C4, ?C5, ?C6, ?C7, ?length_set_slot, ?C3, ?wadd32_virtual; try done; try lia;
    try (intros x Hx; apply Hring; [done|lia]); rewrite HL, ?H8; lia.
Qed.

Lemma settle_go_holds fuel : ∀ s S t,
  window_holds s S t → (s.(sp_newest) - S ≤ Z.of_nat fuel) →
  window_holds s (Z.max S (s.(sp_newest) - REORDER_WINDOW)) (settle_go fuel t (u32 s.(sp_newest))).
Proof.
  induction fuel as [|fuel IH]; intros s S t Hw Hf.
  { cbn [settle_go]. rewrite Z.max_l by (unfold REORDER_WINDOW; lia). done. }
  cbn [settle_go]. pose proof Hw as [_ H2 H3 _ _ _ _ _ _ _]. rewrite H2, i32_distance by (unfold RING in *; lia).
  destruct (Z.ltb_spec REORDER_WINDOW (sp_newest s - S)).
  - replace (Z.max S _) with (Z.max (S + 1) (sp_newest s - REORDER_WINDOW)) by lia.
    apply IH; [apply settle_one_holds; [done|unfold REORDER_WINDOW in *; lia]|lia].
  - by rewrite Z.max_l by lia.
Qed.

(** A new arrival enters the window. *)
Lemma window_add s S t v ring late reord N' stats :
  window_holds s S t → v ∉ s.(sp_got) → S ≤ v < S + RING → s.(sp_newest) ≤ N' → v ≤ N' < S + RING →
  length ring = Z.to_nat RING → (∀ x, S ≤ x < S + RING → slot ring x = bool_decide (x ∈ s.(sp_got))) →
  ws_received stats = ws_received t.(wl_stats) + (late - s.(sp_late)) + 1 →
  ws_lost_pre_fec stats = ws_lost_pre_fec t.(wl_stats) →
  ws_reorder_late stats = reord → ws_late_after_declared stats = late →
  window_holds (mkWireSpec s.(sp_first) N' (v :: s.(sp_got)) late reord) S
    (mkWireLossTracker stats (Some (u32 N')) (u32 S) (set_slot ring (u32 v) true) t.(wl_cur_run)).
Proof.
  intros [H1 H2 H3 H4 H5 H6 H7 H8 H9 H10] Hv Hr HN HvN Hl Hring E1 E2 E3 E4.
  split; cbn [wl_newest wl_settled_next wl_ring wl_stats sp_first sp_newest sp_got sp_late sp_reordered];
    try done; try lia.
  - constructor; [lia|]. apply (Forall_impl _ _ _ H4). intros; lia.
  - by rewrite length_set_slot.
  - intros x Hx. rewrite set_slot_u32, (slot_set ring S) by done.
    destruct (Z.eqb_spec v x) as [->|Hne]; [by rewrite bool_decide_eq_true_2 by apply list_elem_of_here|].
    rewrite Hring by done. apply bool_decide_ext. rewrite elem_of_cons. naive_solver.
  - cbn [length]. lia.
  - rewrite E2, H8. unfold lost_below. f_equal. f_equal. apply filter_agree.
    apply Forall_forall. intros x Hx%elem_of_seqZ. rewrite elem_of_cons. naive_solver lia.
Qed.

Lemma on_received_holds s t v :
  window_holds s (settled_below s) t →
  s.(sp_newest) - 2 ^ 30 < v ≤ s.(sp_newest) + (RING - REORDER_WINDOW - 1) →
  window_holds (spec_step s v) (settled_below (spec_step s v)) (on_received t (u32 v)).
Proof.
  intros Hw Hv. pose proof Hw as [H1 H2 H3 H4 H5 H6 H7 H8 H9 H10].
  unfold on_received, spec_step. set (N := sp_newest s) in *. set (S := settled_below s) in *.
  assert (N - REORDER_WINDOW ≤ S) as HSN by (unfold S, settled_below; fold N; lia).
  rewrite H1, H2, !i32_distance by (unfold RING, REORDER_WINDOW in *; lia).
  destruct (Z.ltb_spec 0 (v - N)) as [Hgt|Hle].
  - rewrite (proj2 (Z.ltb_lt N v)) by lia.
    rewrite (proj2 (Z.ltb_ge _ _)) by (unfold RESYNC_JUMP, RING, REORDER_WINDOW in *; lia).
    pose proof (λ x, clear_gap_spec (Z.to_nat (v - N - 1)) (wl_ring t) N x H5) as Hclear.
    fold (clear_gap (wl_ring t) (u32 N) (v - N)) in Hclear.
    set (s' := mkWireSpec (sp_first s) v (v :: sp_got s) (sp_late s) (sp_reordered s)).
    assert (settled_below s' = Z.max S (sp_newest s' - REORDER_WINDOW)) as ->
      by (unfold s', S, settled_below; cbn; fold N; lia).
    unfold settle. cbn [wl_settled_next].
    apply (settle_go_holds _ s' S); cbn [sp_newest s'].
    + refine (window_add s S t v (clear_gap _ _ _) _ _ v _ Hw _ _ _ _ _ _ _ _ _ _); try done; try lia.
      * intros Hin. rewrite Forall_forall in H4. specialize (H4 v Hin). lia.
      * apply (Hclear 0).
      * intros x Hx. destruct (Hclear x) as [_ [->|[-> (i & Hi & Hs)]]]; [by apply H6|].
        symmetry. apply not_in_future; [done|]. fold N.
        apply slot_of_inj in Hs; unfold RING, REORDER_WINDOW in *; lia.
      * cbn. lia.
    + rewrite i32_distance by (unfold RING, REORDER_WINDOW in *; lia). lia.
  - rewrite (proj2 (Z.ltb_ge N v)) by lia. destruct (Z.ltb_spec (v - S) 0) as [Hlt|Hge].
    + rewrite (proj2 (Z.ltb_lt v S)) by lia. split; cbn; try done; lia.
    + rewrite (proj2 (Z.ltb_ge v S)) by lia. rewrite slot_u32, H6 by lia.
      destruct (bool_decide (v ∈ sp_got s)) eqn:Hin; [done|].
      apply bool_decide_eq_false in Hin.
      refine (window_add s S t v (wl_ring t) _ _ N _ Hw _ _ _ _ _ _ _ _ _ _); try done; try lia; cbn; lia.
Qed.

(** Arrivals within range of the newest so far; the next is at most 447 ahead. *)
Fixpoint in_range (N : Z) (vs : list Z) : Prop :=
  match vs with
  | [] => True
  | v :: vs => N - 2 ^ 30 < v ≤ N + (RING - REORDER_WINDOW - 1) ∧ in_range (Z.max N v) vs
  end.

Lemma on_received_run vs : ∀ s t,
  window_holds s (settled_below s) t → in_range s.(sp_newest) vs →
  let s' := foldl spec_step s vs in
  window_holds s' (settled_below s') (foldl (λ t v, on_received t (u32 v)) t vs).
Proof.
  induction vs as [|v vs IH]; intros s t Hw Hr; [done|]. destruct Hr as [Hv Hr]. cbn.
  apply IH; [by apply on_received_holds|].
  replace (sp_newest (spec_step s v)) with (Z.max (sp_newest s) v); [done|]. unfold spec_step.
  destruct (Z.ltb_spec (sp_newest s) v); [cbn; lia|].
  destruct (_ <? _); [cbn; lia|]. destruct (bool_decide _); cbn; lia.
Qed.

(** Wire loss is counted exactly.  For arrivals within serial range of the newest
    and at most 447 ahead of it, the tracker's counters are those of one that
    remembers every arrival: received is the number of distinct on-time arrivals
    plus the late ones, a slot is lost exactly if it is older than the reorder
    window and never arrived in time, and reordered and late arrivals are told
    apart by that window. *)
Theorem wire_loss_exact v vs :
  in_range v vs →
  let s := foldl spec_step (spec_start v) vs in
  let stats := wl_stats (foldl (λ t x, on_received t (u32 x)) (on_received wire_loss_new (u32 v)) vs) in
  ws_received stats = Z.of_nat (length s.(sp_got)) + s.(sp_late)
  ∧ ws_lost_pre_fec stats = lost_below s.(sp_first) s.(sp_got) (settled_below s)
  ∧ ws_reorder_late stats = s.(sp_reordered) ∧ ws_late_after_declared stats = s.(sp_late).
Proof.
  intros Hr. cbv zeta.
  assert (window_holds (spec_start v) (settled_below (spec_start v)) (on_received wire_loss_new (u32 v)))
    as Hw.
  { unfold settled_below. cbn [sp_first sp_newest spec_start]. rewrite Z.max_l by (unfold REORDER_WINDOW; lia).
    split; cbn [wl_newest wl_settled_next wl_ring wl_stats sp_first sp_newest sp_got sp_late sp_reordered
                spec_start on_received wire_loss_new restart_at]; try done.
    - unfold RING. lia.
    - by repeat constructor.
    - rewrite length_set_slot. apply length_replicate.
    - intros x Hx. rewrite set_slot_u32, (slot_set _ v) by (apply length_replicate || done || unfold RING; lia).
      destruct (Z.eqb_spec v x) as [->|Hne]; [by rewrite bool_decide_eq_true_2 by apply list_elem_of_here|].
      rewrite bool_decide_eq_false_2 by (rewrite list_elem_of_singleton; congruence).
      unfold slot. by rewrite lookup_replicate_2 by apply slot_of_lt.
    - unfold lost_below. by rewrite Z.sub_diag. }
  destruct (on_received_run vs _ _ Hw Hr) as [_ _ _ _ _ _ ? ? ? ?]. done.
Qed.

Definition sample_wire : list Z := [2 ^ 32 - 1; 2 ^ 32 + 1; 2 ^ 32; 2 ^ 32 + 90; 2 ^ 32 + 3].

Lemma wire_loss_exact_witness :
  let s := foldl spec_step (spec_start (2 ^ 32 - 2)) sample_wire in
  let stats := wl_stats (foldl (λ t x, on_received t (u32 x))
                           (on_received wire_loss_new (u32 (2 ^ 32 - 2))) sample_wire) in
  ws_received stats = Z.of_nat (length s.(sp_got)) + s.(sp_late)
  ∧ ws_lost_pre_fec stats = lost_below s.(sp_first) s.(sp_got) (settled_below s)
  ∧ ws_reorder_late stats = s.(sp_reordered) ∧ ws_late_after_declared stats = s.(sp_late).
Proof.
  apply (wire_loss_exact (2 ^ 32 - 2) sample_wire). cbn. unfold RING, REORDER_WINDOW. lia.
Defined.

(** The ring is smaller than the largest gap handled in place: after a gap of 511
    datagrams the marks of two that did arrive are overwritten, and one of them
    is counted lost (448 slots instead of 447). *)
Example ring_overrun_miscounts :
  let t := foldl on_received wire_loss_new [0; 1; 513] in
  ws_lost_pre_fec t.(wl_stats) = 448
  ∧ lost_below 0 [0; 1; 513] (513 - REORDER_WINDOW) = 447.
Proof. split; vm_compute; reflexivity. Qed.
