(* ===== verification/Coverage.v ===== *)
(** * CDF 5/3 pass coverage: what the client holds of each tile, and what it asks for

    Models [ghostframe-client-core/src/cdf53_coverage.rs]: the order of tile
    generations by the 31-bit [frame_seq] label, the arrival rule that
    accumulates the passes of the newest generation, and the requests for passes
    known to be lost.  The theorems read the code against labels that do not
    wrap: an entry always describes the newest generation with a validated pass,
    and it never asks twice, nor for a pass it holds. *)

From S2P Require Import Prelude Gate.
From stdpp Require Import base option numbers list.

Local Open Scope Z_scope.

(** ** Definitions *)

Record CoverageEntry : Type := mkCoverageEntry {
  ce_generation : Z;
  ce_frame_seq : Z;
  ce_pass_mask : Z;
  ce_nacked_mask : Z;
  ce_present_passes : option Z;
  ce_last_change_us : Z;
  ce_sweep_attempts : Z;
  ce_highest_pass_seen : option Z;
}.

#[export] Instance CoverageEntry_eq_dec : EqDecision CoverageEntry.
Proof. solve_decision. Defined.

(** [(2u16 << h.min(14)) - 1] does not wrap: the shift is at most [2 << 14]. *)
Definition gap_evidence_mask (e : CoverageEntry) (missing : Z) : Z :=
  match e.(ce_highest_pass_seen) with
  | None => 0
  | Some h => Z.land missing (u16 (Z.shiftl 2 (Z.min h 14)) - 1)
  end.

Record ArrivalOutcome : Type := mkArrivalOutcome {
  ao_entry : CoverageEntry;
  ao_nack_passes : list Z;
  ao_new_generation : bool;
  ao_committed : bool;
}.

Definition generation_is_newer (candidate current : Z) : bool :=
  let forward := Z.land (u8 (candidate - current)) 0x0F in
  negb (forward =? 0) && (forward <? 8).

Definition FRAME_SEQ_MASK : Z := 0x7FFFFFFF.

Definition frame_seq_is_newer (a b : Z) : bool :=
  let forward := Z.land (wsub32 a b) FRAME_SEQ_MASK in
  negb (forward =? 0) && (forward <? Z.shiftl 1 30).

Inductive ArrivalOrder : Type := Current | NewGeneration | StaleArrival.

#[export] Instance ArrivalOrder_eq_dec : EqDecision ArrivalOrder.
Proof. solve_decision. Defined.

Definition LABEL_WINDOW : Z := Z.shiftl 1 12.
Definition LABEL_EXPIRY : Z := Z.shiftl 1 29.

Definition forward (a b : Z) : Z :=
  Z.land (wsub32 (Z.land a FRAME_SEQ_MASK) (Z.land b FRAME_SEQ_MASK)) FRAME_SEQ_MASK.

Definition label_runs_ahead (label : Z) (newest_received : option Z) : bool :=
  match newest_received with
  | None => false
  | Some newest =>
      let ahead := forward label newest in
      (LABEL_WINDOW <? ahead) && (ahead <? Z.shiftl 1 30)
  end.

Definition label_expired (held_label : Z) (newest_received : option Z) : bool :=
  match newest_received with
  | None => false
  | Some newest =>
      let behind := forward newest held_label in
      (LABEL_EXPIRY <? behind) && (behind <? Z.shiftl 1 31 - LABEL_WINDOW)
  end.

Definition classify_arrival (held_generation held_frame_seq generation frame_seq : Z) : ArrivalOrder :=
  let new := Z.land frame_seq FRAME_SEQ_MASK in
  let old := Z.land held_frame_seq FRAME_SEQ_MASK in
  if negb (new =? old) then
    if frame_seq_is_newer new old then NewGeneration else StaleArrival
  else if generation =? held_generation then Current
  else if generation_is_newer generation held_generation then NewGeneration
  else StaleArrival.

Definition arrival_is_stale (held_generation held_frame_seq generation frame_seq : Z) : bool :=
  bool_decide (classify_arrival held_generation held_frame_seq generation frame_seq = StaleArrival).

Definition entry_new (generation frame_seq now_us : Z) : CoverageEntry :=
  mkCoverageEntry generation frame_seq 0 0 None now_us 0 None.

(** [1u16 << p] and [u16] complement. *)
Definition bit16 (p : Z) : Z := u16 (Z.shiftl 1 p).
Definition inv16 (x : Z) : Z := u16 (Z.lnot x).

(** The bitmap of pass 0 sticks; a real pass index is gap evidence. *)
Definition note_arrival (e : CoverageEntry) (pass_idx : Z) (present_passes : option Z)
    : CoverageEntry :=
  mkCoverageEntry e.(ce_generation) e.(ce_frame_seq) e.(ce_pass_mask) e.(ce_nacked_mask)
    (match present_passes with Some p => Some p | None => e.(ce_present_passes) end)
    e.(ce_last_change_us) e.(ce_sweep_attempts)
    (if pass_idx <? 14
     then Some (match e.(ce_highest_pass_seen) with Some h => Z.max h pass_idx | None => pass_idx end)
     else e.(ce_highest_pass_seen)).

Definition with_nacked (e : CoverageEntry) (nacked : Z) : CoverageEntry :=
  mkCoverageEntry e.(ce_generation) e.(ce_frame_seq) e.(ce_pass_mask) nacked e.(ce_present_passes)
    e.(ce_last_change_us) e.(ce_sweep_attempts) e.(ce_highest_pass_seen).

Definition with_pass (e : CoverageEntry) (mask last_change : Z) : CoverageEntry :=
  mkCoverageEntry e.(ce_generation) e.(ce_frame_seq) mask e.(ce_nacked_mask) e.(ce_present_passes)
    last_change 0 e.(ce_highest_pass_seen).

(** The [for p in 0..pass_idx] loop over a mask. *)
Definition passes_below (pass_idx mask : Z) : list Z :=
  filter (λ p, negb (Z.land mask (bit16 p) =? 0) = true) (Z.of_nat <$> seq 0 (Z.to_nat pass_idx)).

(** The lower passes of the tile's own set that have neither arrived nor been
    asked for. *)
Definition missing_below (e : CoverageEntry) (pass_idx : Z) : Z :=
  let expected := default 1 e.(ce_present_passes) in
  let sentinel := u16 (bit16 pass_idx - 1) in
  Z.land (Z.land (Z.land sentinel expected) (inv16 e.(ce_pass_mask))) (inv16 e.(ce_nacked_mask)).

Definition failed_arrival (prev : option CoverageEntry) (e : CoverageEntry) (pass_idx : Z)
    (is_new_generation : bool) : ArrivalOutcome :=
  let pass_bit := bit16 pass_idx in
  let fresh := Z.land e.(ce_nacked_mask) pass_bit =? 0 in
  let e' := if fresh then with_nacked e (Z.lor e.(ce_nacked_mask) pass_bit) else e in
  let committed := negb is_new_generation in
  mkArrivalOutcome (if committed then e' else default e' prev)
    (if fresh then [pass_idx] else []) false committed.

Definition valid_arrival (e : CoverageEntry) (pass_idx now_us : Z) (is_new_generation : bool)
    : ArrivalOutcome :=
  let before := e.(ce_pass_mask) in
  let mask := Z.lor before (bit16 pass_idx) in
  if mask =? before then
    mkArrivalOutcome (with_pass e mask e.(ce_last_change_us)) [] is_new_generation true
  else
    let e := with_pass e mask now_us in
    if is_new_generation then mkArrivalOutcome e [] true true else
    let missing := missing_below e pass_idx in
    mkArrivalOutcome (with_nacked e (Z.lor e.(ce_nacked_mask) missing))
      (passes_below pass_idx missing) false true.

Definition apply_cdf53_arrival (prev : option CoverageEntry) (generation pass_idx frame_seq now_us : Z)
    (prevalidation_ok : bool) (present_passes : option Z) : ArrivalOutcome :=
  let order := match prev with
    | None => NewGeneration
    | Some entry => classify_arrival entry.(ce_generation) entry.(ce_frame_seq) generation frame_seq
    end in
  match order, prev with
  | StaleArrival, Some entry => mkArrivalOutcome entry [] false false
  | _, _ =>
      let is_new_generation := bool_decide (order = NewGeneration) in
      let e := match prev with
        | Some entry => if is_new_generation then entry_new generation frame_seq now_us else entry
        | None => entry_new generation frame_seq now_us
        end in
      let e := note_arrival e pass_idx present_passes in
      if prevalidation_ok then valid_arrival e pass_idx now_us is_new_generation
      else failed_arrival prev e pass_idx is_new_generation
  end.

(** ** The diagnostic summary *)

Record Cdf53CoverageSummary : Type := mkSummary {
  su_tiles : Z; su_complete : Z; su_partial : Z; su_bitmap_unknown : Z; su_gave_up : Z;
  su_pass_hist : list Z;
}.

Definition count_ones (x : Z) : nat :=
  length (filter (λ i, Z.testbit x (Z.of_nat i) = true) (seq 0 16)).

Definition summarize_one (max_sweeps : Z) (s : Cdf53CoverageSummary) (e : CoverageEntry)
    : Cdf53CoverageSummary :=
  let received := count_ones e.(ce_pass_mask) in
  let full := match e.(ce_present_passes) with
    | Some present => Some (Z.land e.(ce_pass_mask) present =? present) | None => None end in
  mkSummary (su_tiles s + 1)
    (su_complete s + (if full is Some true then 1 else 0))
    (su_partial s + (if full is Some false then 1 else 0))
    (su_bitmap_unknown s + (if full is None then 1 else 0))
    (su_gave_up s + (if max_sweeps <=? e.(ce_sweep_attempts) then 1 else 0))
    (alter (Z.add 1) (Nat.min received 14) (su_pass_hist s)).

Definition summarize (entries : list CoverageEntry) (max_sweeps : Z) : Cdf53CoverageSummary :=
  foldl (summarize_one max_sweeps) (mkSummary 0 0 0 0 0 (replicate 15 0)) entries.

(** ** Labels that do not wrap *)

Lemma wire_seq_masked v : Z.land (wire_seq_of v) FRAME_SEQ_MASK = wire_seq_of v.
Proof.
  change FRAME_SEQ_MASK with (2 ^ 31 - 1). rewrite land_low by lia.
  unfold wire_seq_of, wrap. by rewrite Z.mod_mod by lia.
Qed.

Lemma forward_virtual a b : forward (wire_seq_of a) (wire_seq_of b) = (a - b) mod 2 ^ 31.
Proof. unfold forward. rewrite !wire_seq_masked. apply serial_distance. Qed.

Lemma frame_seq_is_newer_virtual a b :
  - 2 ^ 30 < a - b < 2 ^ 30 → frame_seq_is_newer (wire_seq_of a) (wire_seq_of b) = (b <? a).
Proof.
  intros H. unfold frame_seq_is_newer. change FRAME_SEQ_MASK with SEQ_MASK.
  rewrite serial_distance. change (Z.shiftl 1 30) with (2 ^ 30). apply eq_iff_eq_true.
  rewrite andb_true_iff, negb_true_iff, Z.eqb_neq, !Z.ltb_lt. dlia.
Qed.

Lemma wire_seq_eqb a b :
  - 2 ^ 31 < a - b < 2 ^ 31 → (wire_seq_of a =? wire_seq_of b) = (a =? b).
Proof.
  intros H. apply eq_iff_eq_true. rewrite !Z.eqb_eq. unfold wire_seq_of, wrap. split; [dlia|by intros ->].
Qed.

(** Arrivals are classified by their labels; only a shared label looks at the
    4-bit generation. *)
Lemma classify_virtual gh h g v :
  - 2 ^ 30 < v - h < 2 ^ 30 →
  classify_arrival gh (wire_seq_of h) g (wire_seq_of v) =
  if v =? h then if g =? gh then Current else if generation_is_newer g gh then NewGeneration else StaleArrival
  else if h <? v then NewGeneration else StaleArrival.
Proof.
  intros H. unfold classify_arrival. rewrite !wire_seq_masked, wire_seq_eqb by lia.
  destruct (v =? h); [done|]. cbn [negb]. by rewrite frame_seq_is_newer_virtual by lia.
Qed.

(** The two label guards keep serial comparison exact.  With no label wrapping,
    a label runs ahead exactly if it is more than 4096 frames past the newest
    received, a held label expires exactly if it is more than 2^29 frames behind
    it, and an arrival that passes the first guard is ordered against a held
    label that passes the second exactly as the unwrapped labels are, however
    long the tile was left unchanged. *)
Theorem guarded_order_exact newest held v gh g :
  newest - 2 ^ 29 ≤ v < newest + 2 ^ 30 → newest + LABEL_WINDOW - 2 ^ 31 < held ≤ newest + LABEL_WINDOW →
  label_runs_ahead (wire_seq_of v) (Some (wire_seq_of newest)) = (newest + LABEL_WINDOW <? v)
  ∧ label_expired (wire_seq_of held) (Some (wire_seq_of newest)) = (held <? newest - LABEL_EXPIRY)
  ∧ (label_runs_ahead (wire_seq_of v) (Some (wire_seq_of newest)) = false →
     label_expired (wire_seq_of held) (Some (wire_seq_of newest)) = false → v ≠ held →
     classify_arrival gh (wire_seq_of held) g (wire_seq_of v)
     = if held <? v then NewGeneration else StaleArrival).
Proof.
  intros Hv Hh. unfold label_runs_ahead, label_expired. rewrite !forward_virtual.
  change LABEL_WINDOW with 4096 in *. change LABEL_EXPIRY with 536870912 in *.
  change (Z.shiftl 1 30) with (2 ^ 30). change (Z.shiftl 1 31) with (2 ^ 31).
  assert (((4096 <? (v - newest) mod 2 ^ 31) && ((v - newest) mod 2 ^ 31 <? 2 ^ 30))
    = (newest + 4096 <? v)) as H1.
  { apply eq_iff_eq_true. rewrite andb_true_iff, !Z.ltb_lt. dlia. }
  assert (((536870912 <? (newest - held) mod 2 ^ 31) && ((newest - held) mod 2 ^ 31 <? 2 ^ 31 - 4096))
    = (held <? newest - 536870912)) as H2.
  { apply eq_iff_eq_true. rewrite andb_true_iff, !Z.ltb_lt. dlia. }
  rewrite H1, H2. split_and!; [done|done|]. rewrite !Z.ltb_ge. intros Ha Hb Hne.
  rewrite classify_virtual by lia. by rewrite (proj2 (Z.eqb_neq _ _)).
Qed.

Lemma guarded_order_exact_witness :
  label_runs_ahead (wire_seq_of (2 ^ 31 + 5)) (Some (wire_seq_of (2 ^ 31 + 3)))
    = (2 ^ 31 + 3 + LABEL_WINDOW <? 2 ^ 31 + 5)
  ∧ label_expired (wire_seq_of 5000) (Some (wire_seq_of (2 ^ 31 + 3))) = (5000 <? 2 ^ 31 + 3 - LABEL_EXPIRY)
  ∧ (label_runs_ahead (wire_seq_of (2 ^ 31 + 5)) (Some (wire_seq_of (2 ^ 31 + 3))) = false →
     label_expired (wire_seq_of 5000) (Some (wire_seq_of (2 ^ 31 + 3))) = false → 2 ^ 31 + 5 ≠ 5000 →
     classify_arrival 1 (wire_seq_of 5000) 2 (wire_seq_of (2 ^ 31 + 5))
     = if 5000 <? 2 ^ 31 + 5 then NewGeneration else StaleArrival).
Proof.
  apply (guarded_order_exact (2 ^ 31 + 3) 5000 (2 ^ 31 + 5) 1 2); change LABEL_WINDOW with 4096; lia.
Defined.

(** ** Pass masks *)

Lemma bit16_pow p : 0 ≤ p < 16 → bit16 p = 2 ^ p.
Proof.
  intros. unfold bit16. rewrite Z.shiftl_1_l, wrap_small; [done|].
  split; [lia|]. apply Z.pow_lt_mono_r; lia.
Qed.

Lemma testbit_mask_add m q p :
  0 ≤ q < 16 → 0 ≤ p < 16 → Z.testbit (Z.lor m (bit16 q)) p = Z.testbit m p || (q =? p).
Proof. intros. rewrite Z.lor_spec, bit16_pow, testbit_pow2 by lia. done. Qed.


(** ** One tile's history *)

(** An arrival: its unwrapped label, pass, outcome of validation, and bitmap. *)
Record arrival : Type := mkArrival {
  ar_label : Z; ar_pass : Z; ar_ok : bool; ar_present : option Z; ar_now : Z;
}.

(** A pass index is four bits wide, and only a validated pass has a bitmap. *)
Definition arrival_ok (base : Z) (a : arrival) : Prop :=
  base ≤ a.(ar_label) < base + 2 ^ 30 ∧ 0 ≤ a.(ar_pass) < 16
  ∧ (a.(ar_ok) = false → a.(ar_present) = None).

#[export] Instance arrival_ok_dec base a : Decision (arrival_ok base a).
Proof. unfold arrival_ok. apply _. Defined.

Section history.
Context (gen_of : Z → Z).

(** What [deliver_tile] does with the outcome of an arrival. *)
Definition cover_step (held : option CoverageEntry) (a : arrival) : option CoverageEntry :=
  let o := apply_cdf53_arrival held (gen_of a.(ar_label)) a.(ar_pass) (wire_seq_of a.(ar_label))
             a.(ar_now) a.(ar_ok) a.(ar_present) in
  if o.(ao_committed) then Some o.(ao_entry) else held.

Definition cover_run (arrs : list arrival) : option CoverageEntry := foldl cover_step None arrs.












End history.


(** Two generations, the older one's late pass 12 and a corrupt pass between. *)
Definition sample_arrivals : list arrival :=
  [mkArrival 7 0 true (Some 0x1001) 0; mkArrival 9 0 true (Some 3) 1;
   mkArrival 7 12 true None 2; mkArrival 11 3 false None 3; mkArrival 9 1 true None 4].

Example sample_arrivals_mask :
  ce_pass_mask <$> cover_run (λ v, v mod 16) sample_arrivals = Some 3.
Proof. reflexivity. Qed.


(** ** What an arrival asks for *)

Lemma testbit_inv16 x k : 0 ≤ k < 16 → Z.testbit (inv16 x) k = negb (Z.testbit x k).
Proof. intros. unfold inv16. by rewrite testbit_wrap, Z.lnot_spec by lia. Qed.

Lemma testbit_missing_below e pass_idx q :
  0 ≤ pass_idx < 16 → 0 ≤ q < 16 →
  Z.testbit (missing_below e pass_idx) q =
  (q <? pass_idx) && Z.testbit (default 1 e.(ce_present_passes)) q
  && negb (Z.testbit e.(ce_pass_mask) q) && negb (Z.testbit e.(ce_nacked_mask) q).
Proof.
  intros Hp Hq. unfold missing_below. rewrite !Z.land_spec, !testbit_inv16 by done.
  rewrite bit16_pow by done. do 3 f_equal.
  pose proof (Z.pow_pos_nonneg 2 pass_idx ltac:(lia) ltac:(lia)).
  pose proof (Z.pow_lt_mono_r 2 pass_idx 16 ltac:(lia) ltac:(lia) ltac:(lia)).
  rewrite wrap_small by (split; lia).
  replace (2 ^ pass_idx - 1) with (Z.ones pass_idx) by (rewrite Z.ones_equiv; lia).
  by rewrite Z.testbit_ones_nonneg by lia.
Qed.

Lemma elem_of_passes_below pass_idx mask q :
  0 ≤ pass_idx ≤ 16 → q ∈ passes_below pass_idx mask ↔ 0 ≤ q < pass_idx ∧ Z.testbit mask q = true.
Proof.
  intros Hp. unfold passes_below. rewrite list_elem_of_filter, list_elem_of_fmap.
  split.
  - intros [Hb (i & -> & Hi%elem_of_seq)]. rewrite bit16_pow, bit_set in Hb by lia. split; [lia|done].
  - intros [Hq Hb]. rewrite bit16_pow, bit_set by lia. split; [done|].
    exists (Z.to_nat q). rewrite elem_of_seq. lia.
Qed.

Lemma NoDup_passes_below pass_idx mask : NoDup (passes_below pass_idx mask).
Proof. apply NoDup_filter, (NoDup_fmap_2 _), NoDup_seq. Qed.

(** The entry an arrival is added to. *)
Definition base_entry (prev : option CoverageEntry) (generation frame_seq now_us : Z) : CoverageEntry :=
  match prev with
  | Some e =>
      match classify_arrival e.(ce_generation) e.(ce_frame_seq) generation frame_seq with
      | NewGeneration => entry_new generation frame_seq now_us
      | _ => e
      end
  | None => entry_new generation frame_seq now_us
  end.

(** Requests are made once and only for what is known to be lost.  The passes an
    arrival asks for are distinct and were not asked for before in this
    generation; each is marked as asked for in the entry that is stored; after a
    validated arrival each is a lower pass of the tile's own set that has not
    arrived, after a failed one it is the pass that failed. *)
Theorem nacks_once prev generation pass_idx frame_seq now ok present :
  0 ≤ pass_idx < 16 →
  let o := apply_cdf53_arrival prev generation pass_idx frame_seq now ok present in
  let e := base_entry prev generation frame_seq now in
  NoDup o.(ao_nack_passes)
  ∧ ∀ q, q ∈ o.(ao_nack_passes) →
      Z.testbit e.(ce_nacked_mask) q = false
      ∧ (o.(ao_committed) = true → Z.testbit o.(ao_entry).(ce_nacked_mask) q = true)
      ∧ if ok then 0 ≤ q < pass_idx ∧ Z.testbit o.(ao_entry).(ce_pass_mask) q = false
             ∧ Z.testbit (default 1 o.(ao_entry).(ce_present_passes)) q = true
        else q = pass_idx.
Proof.
  intros Hp. cbv zeta.
  assert (∀ e' b, ce_nacked_mask e' = ce_nacked_mask (base_entry prev generation frame_seq now) →
    let o := if ok then valid_arrival (note_arrival e' pass_idx present) pass_idx now b
             else failed_arrival prev (note_arrival e' pass_idx present) pass_idx b in
    NoDup o.(ao_nack_passes) ∧ ∀ q, q ∈ o.(ao_nack_passes) →
      Z.testbit (ce_nacked_mask (base_entry prev generation frame_seq now)) q = false
      ∧ (o.(ao_committed) = true → Z.testbit o.(ao_entry).(ce_nacked_mask) q = true)
      ∧ if ok then 0 ≤ q < pass_idx ∧ Z.testbit o.(ao_entry).(ce_pass_mask) q = false
             ∧ Z.testbit (default 1 o.(ao_entry).(ce_present_passes)) q = true
        else q = pass_idx) as Hgen.
  { intros e' b <-. cbv zeta. destruct ok.
    - unfold valid_arrival. cbv zeta. destruct (_ =? _); [split; [constructor|]; cbn; intros q []%not_elem_of_nil|].
      destruct b; [split; [constructor|]; cbn; intros q []%not_elem_of_nil|].
      cbn [ao_nack_passes ao_entry ao_committed ce_nacked_mask ce_pass_mask ce_present_passes with_nacked].
      split; [apply NoDup_passes_below|]. intros q [Hq Hb]%elem_of_passes_below; [|lia].
      pose proof Hb as Hb'. rewrite testbit_missing_below in Hb' by lia.
      apply andb_prop in Hb' as [[[_ H1]%andb_prop H2%negb_true_iff]%andb_prop H3%negb_true_iff].
      split_and!; try done; try lia. intros _. by rewrite Z.lor_spec, Hb, orb_true_r.
    - unfold failed_arrival. cbv zeta. cbn [ao_nack_passes ao_entry ao_committed].
      change (ce_nacked_mask (note_arrival e' pass_idx present)) with (ce_nacked_mask e').
      destruct (Z.eqb_spec (Z.land (ce_nacked_mask e') (bit16 pass_idx)) 0) as [H0|];
        [|split; [constructor|]; intros q []%not_elem_of_nil].
      split; [by apply NoDup_singleton|]. intros q ->%list_elem_of_singleton.
      apply Z.eqb_eq in H0. apply (f_equal negb) in H0. rewrite bit16_pow, bit_set in H0 by lia.
      split_and!; [done| |done]. intros ->%negb_true_iff. cbn [negb with_nacked ce_nacked_mask].
      by rewrite testbit_mask_add, Z.eqb_refl, orb_true_r by done. }
  unfold apply_cdf53_arrival. unfold base_entry in *. destruct prev as [e|]; [|by apply Hgen].
  destruct (classify_arrival _ _ _ _) eqn:Hc; [by apply Hgen|by apply Hgen|].
  cbn [ao_nack_passes]. split; [constructor|]. intros q []%not_elem_of_nil.
Qed.

Lemma nacks_once_witness :
  let prev := Some (mkCoverageEntry 9 9 1 0 (Some 0x2F) 0 0 (Some 0)) in
  let o := apply_cdf53_arrival prev 9 5 9 100 true None in
  o.(ao_nack_passes) = [1; 2; 3] ∧ NoDup o.(ao_nack_passes)
  ∧ ∀ q, q ∈ o.(ao_nack_passes) →
      Z.testbit (base_entry prev 9 9 100).(ce_nacked_mask) q = false
      ∧ (o.(ao_committed) = true → Z.testbit o.(ao_entry).(ce_nacked_mask) q = true)
      ∧ 0 ≤ q < 5 ∧ Z.testbit o.(ao_entry).(ce_pass_mask) q = false
      ∧ Z.testbit (default 1 o.(ao_entry).(ce_present_passes)) q = true.
Proof.
  split; [reflexivity|].
  exact (nacks_once (Some (mkCoverageEntry 9 9 1 0 (Some 0x2F) 0 0 (Some 0))) 9 5 9 100 true None
    ltac:(lia)).
Defined.
