(* ===== verification/Event.v ===== *)
(** * Events and outputs of the client core ([ghostframe-client-core/src/event.rs])

    The constructors carry a prefix where a codec of the same name exists. *)

From Stdlib Require Import ZArith.
From S2P Require Import Prelude Wire Control Prevalidate.

Local Open Scope Z_scope.

Inductive TileData : Type :=
| TDSolid (quad : list Z)
| TDPalRle (palette_id count : Z) (indices : list Z) (wire_flags : Z)
| TDCdf53 (pass_idx : Z) (bit_planes : list Z) (present_passes : option Z) (new_generation : bool)
| TDCdf53Wire (pass_idx : Z) (streams : list Z) (present_passes : option Z) (new_generation : bool).

Inductive Event : Type :=
| TileReady (frame_seq tile_x tile_y : Z) (rgba : list Z)
| FrameDimensions (width height : Z)
| NeedsH264 (frame_seq timestamp_us : Z) (is_key : bool) (ref_frame_seq flags slots : Z)
    (reset_decoder : bool) (payload : list Z)
| DecodeErrorEvent (codec : Codec) (tile_x tile_y : Z) (code : DecodeErrorCode)
| TilePayload (frame_seq tile_x tile_y generation : Z) (data : TileData)
| PaletteUpdated (palette_id : Z) (colors : list (list Z))
| Evicted (reason : EvictionReason).

Inductive PollOutput : Type :=
| Datagram (bytes : list Z)
| Stream (bytes : list Z).

