(* ===== verification/TileDecoder.v ===== *)
(** * The CPU pixel decode ([ghostframe-client-core/src/tile_decoder.rs])

    [TileDecoder] turns the payload events of a client core into pixels, one at a
    time ([decode_into], [decode_tile]) or in batches that draw a CDF 5/3 tile once
    however many of its passes the batch holds ([decode_batch_into],
    [decode_batch]); [decode_one] is the one implementation behind both.

    The trait [TileSink] is a class: [acquire] lends a view of a slot, [give_back]
    ends the loan with the memory as it was written.  The closure [emit] is a state
    transformer over the sink and the variables it captures, with the decision
    whether to go on.

    The theorems, in [PartSafety] and [TileBatch]: whatever the events, a decoder in a well-formed state never
    panics; and for a stream whose generations are internally consistent, what a
    consumer has painted whenever a non-tile event comes out, and at the end, is
    the same for the batched decode as for the one-at-a-time decode. *)

From Stdlib Require Import ZArith Lia.
From S2P Require Import Prelude Wire Control Cdf53Rle Cdf53Passes Cdf53 Prevalidate TileOut TileState Event.
From stdpp Require Import base option numbers list sets gmap.

Local Open Scope Z_scope.

(** ** The state *)

Record PendingTile : Type := mkPendingTile { pt_frame_seq : Z; pt_generation : Z }.

Record PendingCdf53 : Type := mkPending {
  pq_tiles : gmap (Z * Z) PendingTile;
  pq_order : list (Z * Z);
  pq_scratch : list (Z * Z);
  pq_since_tick : nat;
}.

Definition pending_default : PendingCdf53 := mkPending ∅ [] [] 0.
(** [PendingCdf53::clear] *)
Definition pending_clear (p : PendingCdf53) : PendingCdf53 := mkPending ∅ [] [] 0.

Definition TICK_EVERY : nat := 256.

Record TileDecoder : Type := mkTileDecoder {
  td_palettes : list (list (list Z));
  td_cdf53 : Cdf53TileState;
  td_pending : PendingCdf53;
  td_cdf53_coalesced : Z;
  td_cdf53_passthrough : bool;
  td_cdf53_wire_failed : Z;
}.

Definition set_palettes (d : TileDecoder) v : TileDecoder :=
  mkTileDecoder v d.(td_cdf53) d.(td_pending) d.(td_cdf53_coalesced) d.(td_cdf53_passthrough)
    d.(td_cdf53_wire_failed).
Definition set_cdf53 (d : TileDecoder) v : TileDecoder :=
  mkTileDecoder d.(td_palettes) v d.(td_pending) d.(td_cdf53_coalesced) d.(td_cdf53_passthrough)
    d.(td_cdf53_wire_failed).
Definition set_pending (d : TileDecoder) v : TileDecoder :=
  mkTileDecoder d.(td_palettes) d.(td_cdf53) v d.(td_cdf53_coalesced) d.(td_cdf53_passthrough)
    d.(td_cdf53_wire_failed).
Definition set_coalesced (d : TileDecoder) v : TileDecoder :=
  mkTileDecoder d.(td_palettes) d.(td_cdf53) d.(td_pending) v d.(td_cdf53_passthrough)
    d.(td_cdf53_wire_failed).
Definition set_wire_failed (d : TileDecoder) v : TileDecoder :=
  mkTileDecoder d.(td_palettes) d.(td_cdf53) d.(td_pending) d.(td_cdf53_coalesced)
    d.(td_cdf53_passthrough) v.

Definition decoder_new : TileDecoder :=
  mkTileDecoder (replicate 256 (replicate 16 [0; 0; 0; 0])) tiles_new pending_default 0 false 0.

Definition with_cdf53_passthrough (d : TileDecoder) (on : bool) : TileDecoder :=
  mkTileDecoder d.(td_palettes) d.(td_cdf53) d.(td_pending) d.(td_cdf53_coalesced) on
    d.(td_cdf53_wire_failed).

(** ** Sinks and results *)

Class TileSink (S P : Type) : Type := {
  acquire : S → S * option TileOut;
  give_back : S → TileOut → S;
  commit : S → Z → Z → Z → outcome unit (S * P);
}.

(** The sink with no slots: [commit] is [unreachable!()]. *)
#[export] Instance NoSlots : TileSink unit Empty_set := {
  acquire s := (s, None);
  give_back s _ := s;
  commit _ _ _ _ := Panic;
}.

Inductive Decoded (P : Type) : Type :=
| DEvent (ev : Event)
| DPlaced (frame_seq tile_x tile_y : Z) (placed : P).
Arguments DEvent {P} ev.
Arguments DPlaced {P} frame_seq tile_x tile_y placed.

Inductive BatchStep (P : Type) : Type :=
| Out (d : Decoded P)
| BeforeReconstruct
| Tick.
Arguments Out {P} d.
Arguments BeforeReconstruct {P}.
Arguments Tick {P}.

(** ** Pixels *)

Inductive TilePixels : Type :=
| PxSolid (bgra : list Z)
| PxPalRle (palette : list (list Z)) (indices : list Z)
| PxCdf53 (bgr : list Z).

(** [&[q[2], q[1], q[0], 255]] *)
Definition opaque_rgba (q : list Z) : outcome unit (list Z) :=
  r ← idx q 2; g ← idx q 1; b ← idx q 0; Ok [r; g; b; 255].

Definition solid_row (bgra : list Z) : outcome unit (list Z) :=
  px ← opaque_rgba bgra; Ok (concat (replicate TILE_SIZE px)).

Definition pair_pixels (palette : list (list Z)) (pair : Z) : outcome unit (list Z) :=
  lo ← idx palette (Z.to_nat (Z.land pair 0x0F));
  hi ← idx palette (Z.to_nat (Z.shiftr pair 4));
  lo ← opaque_rgba lo; hi ← opaque_rgba hi; Ok (lo ++ hi).

(** [row.chunks_exact_mut(8).zip(src)] over a zeroed row: what [src] does not
    reach stays black. *)
Definition pal_row (palette : list (list Z)) (indices : list Z) (y : nat) : outcome unit (list Z) :=
  let src := if ((y + 1) * 16 <=? length indices)%nat then take 16 (drop (y * 16) indices) else [] in
  px ← collect (pair_pixels palette) src;
  let row := concat px in
  Ok (row ++ replicate (TILE_ROW_BYTES - length row) 0).

(** [TilePixels::write] *)
Definition write_pixels (p : TilePixels) (out : TileOut) : outcome unit TileOut :=
  match p with
  | PxSolid bgra => row ← solid_row bgra; fill_rows (λ _, Ok row) out
  | PxPalRle palette indices => fill_rows (pal_row palette indices) out
  | PxCdf53 bgr => write_bgr_rows bgr out
  end.

(** [width.div_ceil(TILE_SIZE)] *)
Definition tiles_across (w : Z) : Z := (w + 31) / 32.

(** [for (dst, src) in slot.iter_mut().zip(colors) { *dst = src }] *)
Definition zip_over (slot colors : list (list Z)) : list (list Z) :=
  take (length slot) colors ++ drop (length colors) slot.

Definition expand_wire (d : TileDecoder) (ev : Event) : outcome unit (TileDecoder * option Event) :=
  match ev with
  | TilePayload frame_seq tile_x tile_y generation (TDCdf53Wire pass_idx streams present new_gen) =>
      match decode_cdf53_wire streams (replicate 384 0) with
      | Ok bit_planes =>
          Ok (d, Some (TilePayload frame_seq tile_x tile_y generation
                         (TDCdf53 pass_idx bit_planes present new_gen)))
      | Err _ => Ok (set_wire_failed d (u64 (d.(td_cdf53_wire_failed) + 1)), None)
      | Panic => Panic
      end
  | _ => Ok (d, Some ev)
  end.

(** ** Decoding *)

Section decoding.
Context {S P E : Type} `{TileSink S P} (emit : S → E → BatchStep P → S * E * bool).

(** The decoder, the sink and what [emit] captures; then whether to go on. *)
Abbreviation run := (TileDecoder * S * E)%type.

Definition emit_step (r : run) (step : BatchStep P) : run * bool :=
  let '(d, s, e) := r in
  let '(s, e, go) := emit s e step in (d, s, e, go).

Definition place (r : run) (frame_seq tile_x tile_y : Z) (pixels : TilePixels)
    : outcome unit (run * bool) :=
  let '(d, s, e) := r in
  match acquire s with
  | (s, Some out) =>
      out ← write_pixels pixels out;
      '(s, placed) ← commit (give_back s out) frame_seq tile_x tile_y;
      Ok (emit_step (d, s, e) (Out (DPlaced frame_seq tile_x tile_y placed)))
  | (s, None) =>
      rgba ← into_vec (write_pixels pixels);
      Ok (emit_step (d, s, e) (Out (DEvent (TileReady frame_seq tile_x tile_y rgba))))
  end.

Definition remove_pending (d : TileDecoder) (pos : Z * Z) : TileDecoder :=
  let p := d.(td_pending) in
  set_pending d (mkPending (delete pos p.(pq_tiles)) p.(pq_order) p.(pq_scratch) p.(pq_since_tick)).

Definition flush_tile (r : run) (pos : Z * Z) : outcome unit (run * bool) :=
  let '(d, s, e) := r in
  match d.(td_pending).(pq_tiles) !! pos with
  | None => Ok (r, true)
  | Some tile =>
      let '(d, s, e, go) := emit_step (remove_pending d pos, s, e) BeforeReconstruct in
      if negb go then Ok (d, s, e, false) else
      '(cdf53, pic) ← reconstruct d.(td_cdf53) pos;
      let d := set_cdf53 d cdf53 in
      match pic with
      | Some bgr => place (d, s, e) tile.(pt_frame_seq) pos.1 pos.2 (PxCdf53 bgr)
      | None => Ok (d, s, e, true)
      end
  end.

Fixpoint flush_tiles (r : run) (order : list (Z * Z)) : outcome unit (run * bool) :=
  match order with
  | [] => Ok (r, true)
  | pos :: order =>
      '(r, go) ← flush_tile r pos;
      if negb go then Ok (r, false) else flush_tiles r order
  end.

Definition flush_all (r : run) : outcome unit (run * bool) :=
  let '(d, s, e) := r in
  let p := d.(td_pending) in
  let d := set_pending d (mkPending p.(pq_tiles) [] p.(pq_order) p.(pq_since_tick)) in
  flush_tiles (d, s, e) d.(td_pending).(pq_scratch).

(** What must come out before [ev] is looked at. *)
Definition flush_before (r : run) (ev : Event) : outcome unit (run * bool) :=
  match ev with
  | TilePayload _ tile_x tile_y _ (TDSolid _ | TDPalRle _ _ _ _) => flush_tile r (tile_x, tile_y)
  | TilePayload _ tile_x tile_y generation (TDCdf53 _ _ _ new_generation) =>
      let switches := match r.1.1.(td_pending).(pq_tiles) !! (tile_x, tile_y) with
        | Some p => new_generation || negb (p.(pt_generation) =? generation)
        | None => false
        end in
      if switches then flush_tile r (tile_x, tile_y) else Ok (r, true)
  | TilePayload _ _ _ _ (TDCdf53Wire _ _ _ _) | PaletteUpdated _ _ => Ok (r, true)
  | TileReady _ _ _ _ | FrameDimensions _ _ | NeedsH264 _ _ _ _ _ _ _ _
  | DecodeErrorEvent _ _ _ _ | Evicted _ => flush_all r
  end.

Definition bump_tick (r : run) : run * bool :=
  let '(d, s, e) := r in
  let p := d.(td_pending) in
  if (TICK_EVERY <=? p.(pq_since_tick) + 1)%nat then
    emit_step (set_pending d (mkPending p.(pq_tiles) p.(pq_order) p.(pq_scratch) 0), s, e) Tick
  else (set_pending d (mkPending p.(pq_tiles) p.(pq_order) p.(pq_scratch) (p.(pq_since_tick) + 1)), s, e, true).

Definition make_pending (d : TileDecoder) (pos : Z * Z) (frame_seq generation : Z) : TileDecoder :=
  let p := d.(td_pending) in
  let tiles := <[pos := mkPendingTile frame_seq generation]> p.(pq_tiles) in
  match p.(pq_tiles) !! pos with
  | Some _ =>
      set_coalesced (set_pending d (mkPending tiles p.(pq_order) p.(pq_scratch) p.(pq_since_tick)))
        (u64 (d.(td_cdf53_coalesced) + 1))
  | None => set_pending d (mkPending tiles (p.(pq_order) ++ [pos]) p.(pq_scratch) p.(pq_since_tick))
  end.

Definition decode_cdf53 (r : run) (coalesce : bool) (frame_seq tile_x tile_y : Z) (new_generation : bool)
    (entry : PrevalidatedCdf53) : outcome unit (run * bool) :=
  let '(d, s, e) := r in
  let pos := (tile_x, tile_y) in
  let d := if new_generation then set_cdf53 d (forget_tile pos d.(td_cdf53)) else d in
  if negb coalesce then
    '(cdf53, pic) ← integrate_bgr d.(td_cdf53) pos entry;
    let d := set_cdf53 d cdf53 in
    match pic with
    | None => Ok (d, s, e, true)
    | Some bgr => place (d, s, e) frame_seq tile_x tile_y (PxCdf53 bgr)
    end
  else
    let '(d, s, e, go) := bump_tick (d, s, e) in
    if negb go then Ok (d, s, e, false) else
    let '(cdf53, grown) := accumulate d.(td_cdf53) pos entry in
    let d := set_cdf53 d cdf53 in
    Ok (if grown then make_pending d pos frame_seq entry.(pc_generation) else d, s, e, true).

Definition decode_payload (r : run) (coalesce : bool) (frame_seq tile_x tile_y generation : Z)
    (data : TileData) : outcome unit (run * bool) :=
  let '(d, s, e) := r in
  match data with
  | TDSolid bgra => place r frame_seq tile_x tile_y (PxSolid bgra)
  | TDPalRle palette_id _ indices _ =>
      palette ← idx d.(td_palettes) (Z.to_nat palette_id);
      place r frame_seq tile_x tile_y (PxPalRle palette indices)
  | TDCdf53Wire _ _ _ _ => Ok (r, true)
  | TDCdf53 pass_idx bit_planes present_passes new_generation =>
      if d.(td_cdf53_passthrough) then
        Ok (emit_step r (Out (DEvent (TilePayload frame_seq tile_x tile_y generation data))))
      else decode_cdf53 r coalesce frame_seq tile_x tile_y new_generation
             {| pc_generation := generation; pc_pass_idx := pass_idx; pc_bit_planes := bit_planes;
                pc_present_passes := present_passes |}
  end.

Definition decode_event (r : run) (coalesce : bool) (ev : Event) : outcome unit (run * bool) :=
  let '(d, s, e) := r in
  match ev with
  | TilePayload frame_seq tile_x tile_y generation data =>
      decode_payload r coalesce frame_seq tile_x tile_y generation data
  | PaletteUpdated palette_id colors =>
      slot ← idx d.(td_palettes) (Z.to_nat palette_id);
      Ok (set_palettes d (<[Z.to_nat palette_id := zip_over slot colors]> d.(td_palettes)), s, e, true)
  | FrameDimensions width height =>
      let keep x y := (x <? tiles_across width) && (y <? tiles_across height) in
      let d := set_cdf53 d (retain_tiles keep d.(td_cdf53)) in
      Ok (emit_step (d, s, e) (Out (DEvent ev)))
  | TileReady _ _ _ _ | NeedsH264 _ _ _ _ _ _ _ _ | DecodeErrorEvent _ _ _ _ | Evicted _ =>
      Ok (emit_step r (Out (DEvent ev)))
  end.

Definition decode_one (r : run) (coalesce : bool) (ev : Event) : outcome unit (run * bool) :=
  let '(d, s, e) := r in
  '(d, ev) ← expand_wire d ev;
  match ev with
  | None => Ok (d, s, e, true)
  | Some ev =>
      if coalesce then
        '(r, go) ← flush_before (d, s, e) ev;
        if negb go then Ok (r, false) else decode_event r coalesce ev
      else decode_event (d, s, e) coalesce ev
  end.

Definition clear_pending (r : run) : run :=
  let '(d, s, e) := r in (set_pending d (pending_clear d.(td_pending)), s, e).

Fixpoint decode_batch_into (r : run) (events : list Event) : outcome unit run :=
  match events with
  | ev :: events =>
      '(r, go) ← decode_one r true ev;
      if negb go then Ok (clear_pending r) else decode_batch_into r events
  | [] =>
      '(r, go) ← flush_all r;
      Ok (if negb go then clear_pending r else r)
  end.
End decoding.

(** [decode_into]: the closure keeps the last result. *)
Definition keep_result {S P} (s : S) (result : option (Decoded P)) (step : BatchStep P)
    : S * option (Decoded P) * bool :=
  (s, match step with Out d => Some d | _ => result end, true).

Definition decode_into {S P} `{TileSink S P} (d : TileDecoder) (ev : Event) (sink : S)
    : outcome unit (TileDecoder * S * option (Decoded P)) :=
  '(r, _) ← decode_one keep_result (d, sink, None) false ev; Ok r.

(** [match placed {}] *)
Definition decoded_event (d : Decoded Empty_set) : Event :=
  match d with DEvent ev => ev | DPlaced _ _ _ placed => match placed with end end.

Definition decode_tile (d : TileDecoder) (ev : Event) : outcome unit (TileDecoder * option Event) :=
  '(d, _, result) ← decode_into d ev tt;
  Ok (d, match result with Some r => Some (decoded_event r) | None => None end).

(** [decode_batch]: the closure collects the results. *)
Definition push_result (s : unit) (out : list Event) (step : BatchStep Empty_set)
    : unit * list Event * bool :=
  (s, match step with Out d => out ++ [decoded_event d] | _ => out end, true).

Definition decode_batch (d : TileDecoder) (events : list Event) : outcome unit (TileDecoder * list Event) :=
  '(d, _, out) ← decode_batch_into push_result (d, tt, []) events; Ok (d, out).

(** [events.into_iter().filter_map(|e| decoder.decode(e)).collect()] *)
Fixpoint decode_each (d : TileDecoder) (events : list Event) : outcome unit (TileDecoder * list Event) :=
  match events with
  | [] => Ok (d, [])
  | ev :: events =>
      '(d, o) ← decode_tile d ev;
      '(d, out) ← decode_each d events;
      Ok (d, option_list o ++ out)
  end.
