(* ===== verification/TileBatch.v ===== *)
(** * The batched pixel decode paints what the one-at-a-time decode paints

    Theory of [TileDecoder.v].  Events are compared through what a consumer has
    painted: [views] pairs every event that is not a picture with the screen at
    the moment it comes out, and gives the final screen. *)

From Stdlib Require Import ZArith Lia.
From S2P Require Import Prelude Wire Control Cdf53Rle Cdf53Passes Cdf53 Prevalidate TileOut TileState Event TileDecoder.
From stdpp Require Import base option numbers list sets gmap.

Local Open Scope Z_scope.

(** ** More planes never make a picture blank again *)

Lemma apply_planes_app st k a b :
  apply_planes st k (a ++ b) = apply_planes (apply_planes st k a) (k + length a) b.
Proof.
  revert st k. induction a as [|p a IH]; intros st k; cbn [app apply_planes length].
  - by rewrite Nat.add_0_r.
  - rewrite IH. f_equal. lia.
Qed.

Definition mags_ok (mags : list Z) : Prop := Forall (λ m, 0 ≤ m) mags.

Lemma apply_planes_mags st k planes :
  mags_ok st.2 →
  mags_ok (apply_planes st k planes).2
  ∧ (forallb (λ m, m =? 0) (apply_planes st k planes).2 = true → forallb (λ m, m =? 0) st.2 = true).
Proof.
  revert st k. induction planes as [|p planes IH]; intros st k Hm; cbn [apply_planes]; [done|].
  assert (mags_ok (apply_plane st k p).2
    ∧ (forallb (λ m, m =? 0) (apply_plane st k p).2 = true → forallb (λ m, m =? 0) st.2 = true)) as [H1 H2].
  { unfold apply_plane. destruct (k =? 0)%nat; cbn [snd]; [done|]. set (f := λ j m, _).
    assert (∀ j m, 0 ≤ m → 0 ≤ f j m ∧ (f j m = 0 → m = 0)) as Hf.
    { intros j m Hm0. unfold f. destruct (negb _); [|done]. split.
      - apply Z.lor_nonneg. split; [done|]. apply Z.shiftl_nonneg. lia.
      - intros E. by apply Z.lor_eq_0_iff in E as [-> _]. }
    split.
    - apply Forall_lookup. intros j m. rewrite list_lookup_imap.
      destruct (st.2 !! j) as [m0|] eqn:Ej; [|done]. cbn. intros [= <-].
      apply Hf. by apply (Forall_lookup_1 _ _ _ _ Hm Ej).
    - rewrite <-!Is_true_true, !forallb_True, !Forall_lookup. intros Hz j m Hj.
      specialize (Hz j (f j m)). rewrite list_lookup_imap, Hj in Hz. specialize (Hz eq_refl).
      apply Is_true_true, Z.eqb_eq in Hz. apply Is_true_true, Z.eqb_eq, (Hf j); [|done].
      by apply (Forall_lookup_1 _ _ _ _ Hm Hj). }
  destruct (IH (apply_plane st k p) (S k) H1) as [H3 H4]. split; [done|]. intros E. by apply H2, H4.
Qed.

Lemma finish_coeff_zero mid sign m :
  0 ≤ m → 0 ≤ mid → (finish_coeff mid sign m =? 0) = (m =? 0).
Proof.
  intros Hm Hmid. unfold finish_coeff. destruct (Z.eqb_spec m 0) as [->|Hne]; cbn [negb andb].
  - by destruct sign.
  - destruct (negb (mid =? 0)); apply Z.eqb_neq; destruct sign; lia.
Qed.

Lemma midpoint_nonneg k : 0 ≤ midpoint_of k.
Proof. unfold midpoint_of. destruct (_ && _); [|done]. apply Z.shiftl_nonneg. lia. Qed.

Definition blank (coefficients : list Z) : bool := forallb (λ c, c =? 0) coefficients.

(** The state after some planes, and whether it is blank. *)
Definition plane_state (planes : list (list Z)) : list bool * list Z :=
  apply_planes (replicate CDF53_TOTAL_COEFFS false, replicate CDF53_TOTAL_COEFFS 0) 0 planes.

Lemma plane_state_mags planes : mags_ok (plane_state planes).2.
Proof. apply apply_planes_mags. apply Forall_replicate. done. Qed.

Lemma blank_zip mid signs mags :
  length signs = length mags → mags_ok mags → 0 ≤ mid →
  blank (zip_with (finish_coeff mid) signs mags) = forallb (λ m, m =? 0) mags.
Proof.
  unfold blank. intros Hl Hm Hmid. revert signs Hl. induction Hm as [|m mags Hm _ IH]; intros [|s signs] Hl; try done.
  cbn [zip_with forallb]. rewrite finish_coeff_zero by done. f_equal. apply IH. cbn in Hl. lia.
Qed.

Lemma decode_planes_blank planes c :
  decode_planes planes = Ok c → blank c = forallb (λ m, m =? 0) (plane_state planes).2.
Proof.
  unfold decode_planes, assert_. destruct (_ <=? _)%nat; [|done]. rewrite bind_Ok.
  pose proof (plane_state_mags planes) as Hm.
  pose proof (length_apply_planes (replicate CDF53_TOTAL_COEFFS false, replicate CDF53_TOTAL_COEFFS 0) 0 planes)
    as [H1 H2]. fold (plane_state planes) in *. destruct (plane_state planes) as [signs mags].
  cbn [fst snd] in *. intros <-%Ok_inj. rewrite length_replicate in H1. rewrite length_replicate in H2. apply blank_zip; [congruence|done|].
  apply midpoint_nonneg.
Qed.

Lemma blank_monotone a b ca cb :
  decode_planes a = Ok ca → decode_planes (a ++ b) = Ok cb → blank cb = true → blank ca = true.
Proof.
  intros Ha%decode_planes_blank Hb%decode_planes_blank. rewrite Ha, Hb. unfold plane_state.
  rewrite apply_planes_app. apply apply_planes_mags. apply plane_state_mags.
Qed.

(** ** Epochs: the passes of one generation of a tile *)

Record Epoch : Type := mkEpoch {
  ep_generation : Z;
  ep_label : Z;
  ep_present : Z;
  ep_planes : list (list Z);
}.

Definition epoch_ok (E : Epoch) : Prop := length E.(ep_planes) = CDF53_PASS_COUNT.

(** A pass of the epoch, as validation reports it. *)
Definition pass_of (E : Epoch) (frame_seq : Z) (e : PrevalidatedCdf53) : Prop :=
  ∃ i, (i < CDF53_PASS_COUNT)%nat ∧ e.(pc_pass_idx) = Z.of_nat i ∧ e.(pc_generation) = E.(ep_generation)
    ∧ frame_seq = E.(ep_label) ∧ Z.testbit E.(ep_present) (Z.of_nat i) = true
    ∧ E.(ep_planes) !! i = Some e.(pc_bit_planes)
    ∧ e.(pc_present_passes) = if decide (i = 0%nat) then Some E.(ep_present) else None.

(** The plane each pass stands for: all-zero if it is never sent. *)
Definition eff_plane (E : Epoch) (i : nat) : list Z :=
  if Z.testbit E.(ep_present) (Z.of_nat i) then default ZERO_PLANE (E.(ep_planes) !! i) else ZERO_PLANE.
Definition eff_planes (E : Epoch) (k : nat) : list (list Z) := eff_plane E <$> seq 0 k.

(** The picture of the first [k] passes, if there is one to show. *)
Definition epoch_picture (E : Epoch) (k : nat) : outcome unit (option (list Z)) :=
  c ← decode_planes (eff_planes E k);
  if (k <? CDF53_PASS_COUNT)%nat && blank c then Ok None else
  bgr ← inverse c; rgba ← bgr_vec bgr; Ok (Some rgba).

(** A tile that holds passes of the epoch and nothing else. *)
Record epoch_tile (E : Epoch) (t : TileEntry) : Prop := {
  et_gen : t.(te_generation) = E.(ep_generation);
  et_set : t.(te_generation_set) = true;
  et_len : length t.(te_planes) = CDF53_PASS_COUNT;
  et_planes : ∀ i, (i < CDF53_PASS_COUNT)%nat →
    t.(te_planes) !! i = Some (if Z.testbit t.(te_received) (Z.of_nat i) then E.(ep_planes) !! i else None);
  et_received : ∀ i, Z.testbit t.(te_received) (Z.of_nat i) = true →
    (i < CDF53_PASS_COUNT)%nat ∧ Z.testbit E.(ep_present) (Z.of_nat i) = true;
  et_present : t.(te_present_passes) = if Z.testbit t.(te_received) 0 then Some E.(ep_present) else None;
}.

Lemma epoch_picture_total E k :
  (k ≤ 14)%nat → ∃ pic, epoch_picture E k = Ok pic.
Proof.
  intros Hk. unfold epoch_picture. destruct (decode_planes_total (eff_planes E k)) as (c & -> & Hc).
  { unfold eff_planes. by rewrite length_fmap, length_seq. }
  rewrite bind_Ok. destruct (_ && _); [eauto|]. destruct (inverse_total c Hc) as (bgr & -> & Hb).
  rewrite bind_Ok. destruct (bgr_vec_total bgr Hb) as (rgba & ->). rewrite bind_Ok. eauto.
Qed.

Lemma epoch_picture_monotone E k k' :
  (k ≤ k')%nat → (k' ≤ 14)%nat → epoch_picture E k' = Ok None → epoch_picture E k = Ok None.
Proof.
  intros Hk Hk' H. unfold epoch_picture in *.
  destruct (decode_planes_total (eff_planes E k)) as (c & Hc & _).
  { unfold eff_planes. rewrite length_fmap, length_seq. lia. }
  destruct (decode_planes_total (eff_planes E k')) as (c' & Hc' & Hl').
  { unfold eff_planes. by rewrite length_fmap, length_seq. }
  rewrite Hc' in H. rewrite Hc, bind_Ok. rewrite bind_Ok in H.
  destruct (Nat.ltb_spec k' CDF53_PASS_COUNT) as [Hlt|Hge]; cbn [andb] in H.
  - assert (blank c' = true) as Hb'.
    { destruct (blank c') eqn:Hb'; [done|]. destruct (inverse c'); [|done..]. rewrite bind_Ok in H.
      destruct (bgr_vec a); [|done..]. by rewrite bind_Ok in H. }
    assert (eff_planes E k' = eff_planes E k ++ (eff_plane E <$> seq k (k' - k))) as Hsplit.
    { unfold eff_planes. rewrite <-fmap_app, <-seq_app. do 2 f_equal. lia. }
    rewrite Hsplit in Hc'. rewrite (proj2 (Nat.ltb_lt _ _)) by lia. cbn [andb].
    by rewrite (blank_monotone _ _ _ _ Hc Hc' Hb').
  - destruct (inverse c'); [|done..]. rewrite bind_Ok in H. destruct (bgr_vec a); [|done..].
    by rewrite bind_Ok in H.
Qed.

(** The planes a tile of the epoch draws from are the epoch's. *)
Lemma epoch_tile_planes E t :
  epoch_ok E → epoch_tile E t →
  default ZERO_PLANE <$> take (prefix_len t) t.(te_planes) = eff_planes E (prefix_len t).
Proof.
  intros HE Ht. pose proof (prefix_len_le t) as Hk.
  destruct (resolved_prefix_spec (te_received t) (te_present_passes t)) as (_ & Hres & _).
  fold (prefix_len t) in Hres. apply list_eq. intros i. unfold eff_planes. rewrite !list_lookup_fmap.
  destruct (decide (i < prefix_len t)%nat) as [Hi|Hi].
  2: { rewrite lookup_take_ge, lookup_seq_ge by lia. done. }
  rewrite lookup_take_lt, lookup_seq_lt by lia. rewrite (et_planes E t Ht) by (unfold CDF53_PASS_COUNT; lia).
  cbn [fmap option_fmap option_map]. f_equal. specialize (Hres i Hi). unfold resolved in Hres.
  unfold eff_plane. rewrite Nat.add_0_l. destruct (Z.testbit (te_received t) (Z.of_nat i)) eqn:Hr.
  - by rewrite (proj2 (et_received E t Ht i Hr)).
  - cbn [orb] in Hres. rewrite (et_present E t Ht) in Hres.
    destruct (Z.testbit (te_received t) 0); [|done]. apply negb_true_iff in Hres. by rewrite Hres.
Qed.

Lemma draw_epoch E t pic :
  epoch_ok E → epoch_tile E t → epoch_picture E (prefix_len t) = Ok pic →
  draw t = Ok (if bool_decide (t.(te_drawn_prefix) = Some (prefix_len t)) then (t, None)
               else match pic with Some _ => (set_drawn t (prefix_len t), pic) | None => (t, None) end).
Proof.
  intros HE Ht Hpic. unfold draw. case_bool_decide; [done|].
  rewrite (epoch_tile_planes E t HE Ht). unfold epoch_picture in Hpic.
  destruct (decode_planes _) as [c| |]; [|done..]. rewrite bind_Ok in Hpic. rewrite bind_Ok. unfold blank in Hpic.
  destruct (_ && _); [by apply Ok_inj in Hpic as <-|]. destruct (inverse c) as [bgr| |]; [|done..].
  rewrite bind_Ok in Hpic. rewrite bind_Ok. destruct (bgr_vec bgr) as [rgba| |]; [|done..]. rewrite bind_Ok in Hpic. rewrite bind_Ok.
  by apply Ok_inj in Hpic as <-.
Qed.

(** ** Storing a pass *)

Lemma store_pass_epoch E frame_seq t e :
  epoch_ok E → epoch_tile E t → pass_of E frame_seq e →
  epoch_tile E (store_pass t e) ∧ (store_pass t e).(te_drawn_prefix) = t.(te_drawn_prefix)
  ∧ (prefix_len t ≤ prefix_len (store_pass t e))%nat.
Proof.
  intros HE Ht (i & Hi & Hidx & Hg & _ & Hp & Hpl & Hpr).
  assert (∀ j, Z.testbit (te_received (store_pass t e)) (Z.of_nat j)
     = Z.testbit (te_received t) (Z.of_nat j) || bool_decide (i = j)) as Hrec.
  { intros j. unfold store_pass. rewrite Hidx, Nat2Z.id, (proj2 (Nat.ltb_lt _ _)) by done.
    cbn [te_received]. rewrite Z.lor_spec, Z.shiftl_1_l, Z.pow2_bits_eqb by lia. f_equal.
    destruct (Z.eqb_spec (Z.of_nat i) (Z.of_nat j)); [rewrite bool_decide_true|rewrite bool_decide_false]; lia. }
  assert (te_present_passes (store_pass t e) = if Z.testbit (te_received (store_pass t e)) 0
            then Some (ep_present E) else None) as Hpres.
  { change 0 with (Z.of_nat 0). rewrite Hrec. unfold store_pass. destruct (if (_ <? _)%nat then _ else _).
    cbn [te_present_passes]. rewrite Hpr, (et_present E t Ht). change 0 with (Z.of_nat 0).
    destruct i as [|i]; [rewrite decide_True by done; by rewrite bool_decide_true, orb_true_r|].
    rewrite decide_False, bool_decide_false by done. by rewrite orb_false_r. }
  assert (∀ j, Z.testbit (te_received (store_pass t e)) (Z.of_nat j) = true →
    (j < CDF53_PASS_COUNT)%nat ∧ Z.testbit (ep_present E) (Z.of_nat j) = true) as Hrok.
  { intros j. rewrite Hrec, orb_true_iff, bool_decide_eq_true. intros [Hr| <-]; [|done].
    by apply (et_received E t Ht). }
  split; [split|split].
  - unfold store_pass. destruct (if (_ <? _)%nat then _ else _). apply Ht.
  - unfold store_pass. destruct (if (_ <? _)%nat then _ else _). apply Ht.
  - rewrite store_pass_len. apply Ht.
  - intros j Hj. rewrite Hrec. unfold store_pass. rewrite Hidx, Nat2Z.id, (proj2 (Nat.ltb_lt _ _)) by done.
    cbn [te_planes]. destruct (decide (i = j)) as [<-|Hne].
    + rewrite list_lookup_insert_eq by (rewrite (et_len E t Ht); done).
      by rewrite bool_decide_true, orb_true_r, Hpl by done.
    + rewrite list_lookup_insert_ne, (et_planes E t Ht) by done. by rewrite bool_decide_false, orb_false_r by done.
  - done.
  - done.
  - unfold store_pass. by destruct (if (_ <? _)%nat then _ else _).
  - apply Nat.le_ngt. intros Hlt.
    destruct (resolved_prefix_spec (te_received t) (te_present_passes t)) as (Hle & Hres & _).
    destruct (resolved_prefix_spec (te_received (store_pass t e)) (te_present_passes (store_pass t e)))
      as (_ & _ & Hstop). unfold prefix_len in Hlt. set (k' := resolved_prefix _ _) in Hlt, Hstop.
    specialize (Hstop ltac:(lia)). specialize (Hres k' Hlt). unfold resolved in Hstop, Hres.
    apply orb_false_iff in Hstop as [H1 H2]. rewrite Hrec in H1. apply orb_false_iff in H1 as [H1 _].
    rewrite H1 in Hres. cbn [orb] in Hres. rewrite (et_present E t Ht) in Hres. rewrite Hpres in H2.
    destruct (Z.testbit (te_received t) 0) eqn:H0; [|done].
    change 0 with (Z.of_nat 0) in H0, H2. rewrite Hrec, H0 in H2. cbn [orb] in H2. congruence.
Qed.

(** ** What a consumer paints *)

Abbreviation screen := (gmap (Z * Z) (Z * list Z)).

(** Every event that is not a picture, with the screen when it comes out; then
    the final screen. *)
Fixpoint views (sc : screen) (out : list Event) : list (Event * screen) * screen :=
  match out with
  | [] => ([], sc)
  | TileReady frame_seq x y rgba :: out => views (<[(x, y) := (frame_seq, rgba)]> sc) out
  | ev :: out => let '(l, sc') := views sc out in ((ev, sc) :: l, sc')
  end.

Lemma views_app sc a b :
  views sc (a ++ b) = ((views sc a).1 ++ (views (views sc a).2 b).1, (views (views sc a).2 b).2).
Proof.
  revert sc. induction a as [|ev a IH]; intros sc; cbn [app views fst snd].
  { by destruct (views sc b). }
  destruct ev; rewrite IH; try done; by destruct (views sc a).
Qed.

(** A picture, or none. *)
Definition picture_event (frame_seq : Z) (pos : Z * Z) (pic : option (list Z)) : list Event :=
  match pic with Some rgba => [TileReady frame_seq pos.1 pos.2 rgba] | None => [] end.

Lemma views_picture sc frame_seq pos pic :
  views sc (picture_event frame_seq pos pic)
  = ([], match pic with Some rgba => <[pos := (frame_seq, rgba)]> sc | None => sc end).
Proof. destruct pic; cbn; [|done]. by destruct pos. Qed.

(** ** The decoder with a sink that has no slots *)

Abbreviation log_run := (TileDecoder * unit * list Event)%type.

Lemma place_log d out frame_seq x y px rgba :
  into_vec (write_pixels px) = Ok rgba →
  place push_result (d, tt, out) frame_seq x y px
  = Ok (d, tt, out ++ [TileReady frame_seq x y rgba], true).
Proof. intros H. unfold place. cbn [acquire NoSlots]. by rewrite H, bind_Ok. Qed.

(** Reconstructing a tile and placing the result is drawing it. *)
Lemma reconstruct_log d out frame_seq pos t t' pic :
  d.(td_cdf53) !! pos = Some t → length t.(te_planes) = CDF53_PASS_COUNT → draw t = Ok (t', pic) →
  ('(cdf53, bgr) ← reconstruct d.(td_cdf53) pos;
   match bgr with
   | Some bgr => place push_result (set_cdf53 d cdf53, tt, out) frame_seq pos.1 pos.2 (PxCdf53 bgr)
   | None => Ok (set_cdf53 d cdf53, tt, out, true)
   end)
  = Ok (set_cdf53 d (<[pos := t']> d.(td_cdf53)), tt, out ++ picture_event frame_seq pos pic, true).
Proof.
  intros Ht Hlen Hd. unfold reconstruct. rewrite Ht. unfold draw in Hd.
  pose proof (prefix_len_le t). rewrite slice_ok by (rewrite ?Hlen; unfold CDF53_PASS_COUNT; lia).
  rewrite bind_Ok, Nat.sub_0_r, drop_0.
  destruct (bool_decide _).
  { apply Ok_inj in Hd as [= <- <-]. by rewrite bind_Ok, insert_id, app_nil_r by done. }
  destruct (decode_planes _) as [c| |]; [|done..]. rewrite bind_Ok in Hd. rewrite bind_Ok.
  destruct (_ && _).
  { apply Ok_inj in Hd as [= <- <-]. by rewrite bind_Ok, insert_id, app_nil_r by done. }
  destruct (inverse c) as [bgr| |]; [|done..]. rewrite bind_Ok in Hd. rewrite !bind_Ok.
  destruct (bgr_vec bgr) as [rgba| |] eqn:E; [|done..]. rewrite bind_Ok in Hd.
  apply Ok_inj in Hd as [= <- <-]. by apply place_log.
Qed.

Lemma flush_tile_log d out pos p t t' pic :
  d.(td_pending).(pq_tiles) !! pos = Some p →
  d.(td_cdf53) !! pos = Some t → length t.(te_planes) = CDF53_PASS_COUNT → draw t = Ok (t', pic) →
  flush_tile push_result (d, tt, out) pos
  = Ok (set_cdf53 (remove_pending d pos) (<[pos := t']> d.(td_cdf53)), tt,
        out ++ picture_event p.(pt_frame_seq) pos pic, true).
Proof.
  intros Hp Ht Hl Hd. unfold flush_tile. rewrite Hp. cbn [emit_step push_result negb].
  apply (reconstruct_log (remove_pending d pos) out _ pos t t' pic Ht Hl Hd).
Qed.

Lemma flush_tile_none d out pos :
  d.(td_pending).(pq_tiles) !! pos = None →
  flush_tile push_result (d, tt, out) pos = Ok (d, tt, out, true).
Proof. intros Hp. unfold flush_tile. by rewrite Hp. Qed.

(** The one-at-a-time decode of a pass. *)
Lemma decode_cdf53_each d out frame_seq x y ng e t' pic :
  let st := if ng : bool then forget_tile (x, y) d.(td_cdf53) else d.(td_cdf53) in
  wf_tiles st → draw (tile_after st (x, y) e) = Ok (t', pic) →
  decode_cdf53 push_result (d, tt, out) false frame_seq x y ng e
  = Ok (set_cdf53 d (<[(x, y) := t']> st), tt, out ++ picture_event frame_seq (x, y) pic, true).
Proof.
  intros st Hst Hd. unfold decode_cdf53. cbn [negb].
  assert (td_cdf53 (if ng then set_cdf53 d (forget_tile (x, y) (td_cdf53 d)) else d) = st) as ->
    by (unfold st; by destruct ng).
  assert (∀ v, set_cdf53 (if ng then set_cdf53 d (forget_tile (x, y) (td_cdf53 d)) else d) v = set_cdf53 d v)
    as Hset by (intros; by destruct ng).
  pose proof (integrate_draw st (x, y) e Hst) as Hi. rewrite Hd, bind_Ok in Hi. unfold integrate in Hi.
  destruct (integrate_bgr st (x, y) e) as [[st' bgr]| |]; [|done..]. rewrite bind_Ok in Hi.
  rewrite bind_Ok, Hset. destruct bgr as [bgr|].
  - destruct (bgr_vec bgr) as [rgba| |] eqn:E; [|done..]. rewrite bind_Ok in Hi.
    apply Ok_inj in Hi as [= <- <-]. by apply place_log.
  - apply Ok_inj in Hi as [= <- <-]. by rewrite app_nil_r.
Qed.

(** The batched decode of a pass. *)
Lemma decode_cdf53_batch d out frame_seq x y ng e :
  let st := if ng : bool then forget_tile (x, y) d.(td_cdf53) else d.(td_cdf53) in
  let t := tile_after st (x, y) e in
  ∃ d', decode_cdf53 push_result (d, tt, out) true frame_seq x y ng e = Ok (d', tt, out, true)
    ∧ d'.(td_palettes) = d.(td_palettes) ∧ d'.(td_cdf53_passthrough) = d.(td_cdf53_passthrough)
    ∧ d'.(td_cdf53) = <[(x, y) := t]> st
    ∧ (if bool_decide (t.(te_drawn_prefix) = Some (prefix_len t)) then
         d'.(td_pending).(pq_tiles) = d.(td_pending).(pq_tiles)
         ∧ d'.(td_pending).(pq_order) = d.(td_pending).(pq_order)
       else
         d'.(td_pending).(pq_tiles)
           = <[(x, y) := mkPendingTile frame_seq e.(pc_generation)]> d.(td_pending).(pq_tiles)
         ∧ ∀ q, q ∈ d.(td_pending).(pq_order) ∨ (q = (x, y) ∧ d.(td_pending).(pq_tiles) !! q = None) →
             q ∈ d'.(td_pending).(pq_order)).
Proof.
  intros st t. unfold decode_cdf53. cbn [negb].
  set (d0 := if ng then _ else d).
  assert (td_palettes d0 = td_palettes d ∧ td_cdf53_passthrough d0 = td_cdf53_passthrough d
    ∧ td_cdf53 d0 = st ∧ td_pending d0 = td_pending d) as (Hp & Hps & Hc & Hpe)
    by (unfold d0, st; by destruct ng).
  clearbody d0. unfold bump_tick. set (d1 := set_pending d0 _) at 1. set (d1' := set_pending d0 _) at 1.
  assert (∃ d2, (if (TICK_EVERY <=? pq_since_tick (td_pending d0) + 1)%nat
            then emit_step push_result (d1, tt, out) Tick else (d1', tt, out, true)) = (d2, tt, out, true)
    ∧ td_palettes d2 = td_palettes d ∧ td_cdf53_passthrough d2 = td_cdf53_passthrough d
    ∧ td_cdf53 d2 = st ∧ pq_tiles (td_pending d2) = pq_tiles (td_pending d)
    ∧ pq_order (td_pending d2) = pq_order (td_pending d)) as (d2 & -> & H1 & H2 & H3 & H4 & H5).
  { destruct (_ <=? _)%nat; eexists; (split; [done|]); cbn; by rewrite Hp, Hps, Hc, Hpe. }
  cbn [negb]. unfold accumulate. rewrite H3. fold (tile_after st (x, y) e). fold t.
  destruct (bool_decide (te_drawn_prefix t = Some (prefix_len t))); cbn [negb]; eexists; split_and!; try done.
  1,2,3: unfold make_pending; cbn [td_pending set_cdf53]; by destruct (_ !! _).
  - unfold make_pending. cbn [td_pending set_cdf53]. rewrite H4. by destruct (_ !! _).
  - intros q Hq. unfold make_pending. cbn [td_pending set_cdf53]. rewrite H4, H5.
    destruct (pq_tiles (td_pending d) !! (x, y)) eqn:E; cbn [td_pending set_coalesced set_pending pq_order].
    + destruct Hq as [?|[-> ?]]; [done|congruence].
    + rewrite elem_of_app, list_elem_of_singleton. tauto.
Qed.

(** ** The simulation *)

(** A drawn prefix is one that has a picture, and not a later one. *)
Definition drawn_inv (E : Epoch) (t : TileEntry) : Prop :=
  match t.(te_drawn_prefix) with
  | Some k => (k ≤ prefix_len t)%nat ∧ epoch_picture E k ≠ Ok None
  | None => True
  end.

Record holding (E : Epoch) (t : TileEntry) : Prop := {
  ho_ok : epoch_ok E;
  ho_tile : epoch_tile E t;
  ho_drawn : drawn_inv E t;
}.

(** A tile that is not waiting: both decoders agree on it. *)
Definition settled_at (ep : gmap (Z * Z) Epoch) (st1 st2 : Cdf53TileState) (sc1 sc2 : screen)
    (pos : Z * Z) : Prop :=
  st1 !! pos = st2 !! pos ∧ sc1 !! pos = sc2 !! pos
  ∧ ∀ t, st2 !! pos = Some t → ∃ E, ep !! pos = Some E ∧ holding E t.

(** A tile that is waiting: the other decoder has drawn what is there to draw. *)
Record waiting (E : Epoch) (p : PendingTile) (t1 t2 : TileEntry) (s1 s2 : option (Z * list Z)) : Prop := {
  wt_holding : holding E t2;
  wt_label : p.(pt_frame_seq) = E.(ep_label);
  wt_generation : p.(pt_generation) = E.(ep_generation);
  wt_undrawn : t2.(te_drawn_prefix) ≠ Some (prefix_len t2);
  wt_other : (epoch_picture E (prefix_len t2) = Ok None ∧ t1 = t2 ∧ s1 = s2)
    ∨ ∃ rgba, epoch_picture E (prefix_len t2) = Ok (Some rgba)
        ∧ t1 = set_drawn t2 (prefix_len t2) ∧ s1 = Some (E.(ep_label), rgba);
}.

Definition tile_related (ep : gmap (Z * Z) Epoch) (pending : gmap (Z * Z) PendingTile)
    (st1 st2 : Cdf53TileState) (sc1 sc2 : screen) (pos : Z * Z) : Prop :=
  match pending !! pos with
  | None => settled_at ep st1 st2 sc1 sc2 pos
  | Some p => ∃ E t1 t2, ep !! pos = Some E ∧ st1 !! pos = Some t1 ∧ st2 !! pos = Some t2
                ∧ waiting E p t1 t2 (sc1 !! pos) (sc2 !! pos)
  end.

Definition palettes_ok (palettes : list (list (list Z))) : Prop :=
  length palettes = 256%nat
  ∧ Forall (λ slot, length slot = 16%nat ∧ Forall (λ q, length q = 4%nat) slot) palettes.

Record sim (ep : gmap (Z * Z) Epoch) (d1 : TileDecoder) (sc1 : screen) (d2 : TileDecoder) (sc2 : screen)
    : Prop := {
  sm_palettes : d1.(td_palettes) = d2.(td_palettes);
  sm_palettes_ok : palettes_ok d1.(td_palettes);
  sm_pass1 : d1.(td_cdf53_passthrough) = false;
  sm_pass2 : d2.(td_cdf53_passthrough) = false;
  sm_tiles : ∀ pos, tile_related ep d2.(td_pending).(pq_tiles) d1.(td_cdf53) d2.(td_cdf53) sc1 sc2 pos;
}.

Definition order_ok (d : TileDecoder) : Prop :=
  ∀ pos p, d.(td_pending).(pq_tiles) !! pos = Some p → pos ∈ d.(td_pending).(pq_order).

(** Only the touched position needs looking at. *)
Lemma tile_related_other ep ep' pending pending' st1 st1' st2 st2' sc1 sc1' sc2 sc2' pos q :
  q ≠ pos → ep' !! q = ep !! q → pending' !! q = pending !! q → st1' !! q = st1 !! q →
  st2' !! q = st2 !! q → sc1' !! q = sc1 !! q → sc2' !! q = sc2 !! q →
  tile_related ep pending st1 st2 sc1 sc2 q → tile_related ep' pending' st1' st2' sc1' sc2' q.
Proof.
  intros _ H1 H2 H3 H4 H5 H6. unfold tile_related, settled_at. rewrite H1, H2, H3, H4, H5, H6. done.
Qed.

Lemma sim_wf ep d1 sc1 d2 sc2 : sim ep d1 sc1 d2 sc2 → wf_tiles d1.(td_cdf53) ∧ wf_tiles d2.(td_cdf53).
Proof.
  intros Hs. split; intros pos t Ht; pose proof (sm_tiles _ _ _ _ _ Hs pos) as Hr; unfold tile_related in Hr;
    destruct (pq_tiles _ !! pos) as [p|].
  - destruct Hr as (E & t1 & t2 & _ & Ht1 & _ & [[_ He _] _ _ _ Ho]).
    rewrite Ht in Ht1. injection Ht1 as <-. destruct Ho as [(_ & -> & _)|(rgba & _ & -> & _)]; apply He.
  - destruct Hr as (Heq & _ & Hh). rewrite Heq in Ht. destruct (Hh t Ht) as (E & _ & [_ He _]). apply He.
  - destruct Hr as (E & t1 & t2 & _ & _ & Ht2 & [[_ He _] _ _ _ _]).
    rewrite Ht in Ht2. injection Ht2 as <-. apply He.
  - destruct Hr as (_ & _ & Hh). destruct (Hh t Ht) as (E & _ & [_ He _]). apply He.
Qed.

Lemma drawn_inv_set E t rgba :
  epoch_picture E (prefix_len t) = Ok (Some rgba) → drawn_inv E (set_drawn t (prefix_len t)).
Proof. intros H. split; [done|]. by rewrite H. Qed.

Lemma holding_set_drawn E t rgba :
  holding E t → epoch_picture E (prefix_len t) = Ok (Some rgba) → holding E (set_drawn t (prefix_len t)).
Proof.
  intros [H1 H2 H3] Hp. split; [done| |by eapply drawn_inv_set].
  destruct H2. by split.
Qed.

(** Flushing a waiting tile makes the decoders agree on it. *)
Lemma flush_sim ep d1 sc1 d2 sc2 out pos :
  sim ep d1 sc1 d2 sc2 →
  ∃ d2' o, flush_tile push_result (d2, tt, out) pos = Ok (d2', tt, out ++ o, true)
    ∧ (views sc2 o).1 = [] ∧ sim ep d1 sc1 d2' (views sc2 o).2
    ∧ d2'.(td_pending).(pq_tiles) = delete pos d2.(td_pending).(pq_tiles)
    ∧ d2'.(td_pending).(pq_order) = d2.(td_pending).(pq_order).
Proof.
  intros Hs. pose proof (sm_tiles _ _ _ _ _ Hs pos) as Hr. unfold tile_related in Hr.
  destruct (pq_tiles (td_pending d2) !! pos) as [p|] eqn:Hp.
  2: { exists d2, []. rewrite app_nil_r, flush_tile_none, delete_id by done. done. }
  destruct Hr as (E & t1 & t2 & Hep & Ht1 & Ht2 & Hw). pose proof Hw as [Hh Hl Hg Hu Ho].
  pose proof Hh as [HE Het Hdi]. destruct (epoch_picture_total E (prefix_len t2)) as (pic & Hpic); [apply prefix_len_le|].
  pose proof (draw_epoch E t2 pic HE Het Hpic) as Hd. rewrite bool_decide_false in Hd by done.
  set (res := match pic with Some _ => (set_drawn t2 (prefix_len t2), pic) | None => (t2, None) end) in Hd.
  rewrite (surjective_pairing res) in Hd.
  exists (set_cdf53 (remove_pending d2 pos) (<[pos := res.1]> d2.(td_cdf53))),
    (picture_event p.(pt_frame_seq) pos res.2).
  split; [by eapply flush_tile_log; [| |apply Het|]|]. rewrite views_picture. split; [done|].
  split; [|done]. destruct Hs as [S1 S2 S3 S4 S5]. split; try done.
  cbn [td_pending set_cdf53 remove_pending set_pending pq_tiles td_cdf53 snd]. intros q.
  destruct (decide (q = pos)) as [->|Hne].
  - unfold tile_related. rewrite lookup_delete_eq. unfold settled_at. rewrite lookup_insert_eq, Ht1.
    destruct Ho as [(Hn & -> & Hsc)|(rgba & Hn & -> & Hsc)]; rewrite Hn in Hpic; apply Ok_inj in Hpic; subst pic;
      cbn [fst snd res].
    + split_and!; [done|done|]. intros t [= <-]. eauto.
    + split_and!; [done|by rewrite lookup_insert_eq, Hsc, Hl|].
      intros t [= <-]. exists E. split; [done|]. by eapply holding_set_drawn.
  - eapply tile_related_other; [exact Hne|done|by rewrite lookup_delete_ne|done|by rewrite lookup_insert_ne|done| |apply S5].
    destruct (res.2); [by rewrite lookup_insert_ne|done].
Qed.

Lemma flush_tiles_sim ep d1 sc1 order : ∀ d2 sc2 out,
  sim ep d1 sc1 d2 sc2 →
  ∃ d2' o, flush_tiles push_result (d2, tt, out) order = Ok (d2', tt, out ++ o, true)
    ∧ (views sc2 o).1 = [] ∧ sim ep d1 sc1 d2' (views sc2 o).2
    ∧ (∀ q p, d2'.(td_pending).(pq_tiles) !! q = Some p →
         d2.(td_pending).(pq_tiles) !! q = Some p ∧ q ∉ order)
    ∧ d2'.(td_pending).(pq_order) = d2.(td_pending).(pq_order).
Proof.
  induction order as [|pos order IH]; intros d2 sc2 out Hs; cbn [flush_tiles].
  { exists d2, []. rewrite app_nil_r. split_and!; try done.
    intros q p Hq. split; [done|apply not_elem_of_nil]. }
  destruct (flush_sim ep d1 sc1 d2 sc2 out pos Hs) as (d3 & o & -> & Hv & Hs3 & Ht & Hor). rewrite bind_Ok. cbn [negb].
  destruct (IH d3 (views sc2 o).2 (out ++ o) Hs3) as (d4 & o' & -> & Hv' & Hs4 & Ht4 & Hor4).
  exists d4, (o ++ o'). rewrite views_app, Hv, Hv'. cbn [fst snd]. rewrite (assoc_L (++)).
  split_and!; try done; [|congruence]. intros q p Hq. destruct (Ht4 q p Hq) as [Hq3 Hn].
  rewrite Ht in Hq3. apply lookup_delete_Some in Hq3 as [Hne Hq2]. split; [done|].
  by apply not_elem_of_cons.
Qed.

(** After [flush_all] nothing waits. *)
Lemma flush_all_sim ep d1 sc1 d2 sc2 out :
  sim ep d1 sc1 d2 sc2 → order_ok d2 →
  ∃ d2' o, flush_all push_result (d2, tt, out) = Ok (d2', tt, out ++ o, true)
    ∧ (views sc2 o).1 = [] ∧ sim ep d1 sc1 d2' (views sc2 o).2
    ∧ d2'.(td_pending).(pq_tiles) = ∅.
Proof.
  intros Hs Ho. unfold flush_all. cbn [td_pending set_pending pq_scratch].
  set (d2s := set_pending d2 _).
  assert (sim ep d1 sc1 d2s sc2) as Hs' by (destruct Hs; by split).
  destruct (flush_tiles_sim ep d1 sc1 (pq_order (td_pending d2)) d2s sc2 out Hs')
    as (d2' & o & H & Hv & Hs2 & Ht & _).
  exists d2', o. split_and!; try done. apply map_empty. intros q.
  destruct (pq_tiles (td_pending d2') !! q) as [p|] eqn:E; [|done].
  destruct (Ht q p E) as [Hq Hn]. exfalso. by apply Hn, (Ho q p).
Qed.

(** ** One pass *)

(** The epoch a pass may belong to, given what is known of its tile. *)
Definition may_be (ep : gmap (Z * Z) Epoch) (pos : Z * Z) (ng : bool) (generation : Z) (E : Epoch) : Prop :=
  ng = true ∨ ep !! pos = Some E
  ∨ match ep !! pos with Some E0 => E0.(ep_generation) ≠ generation | None => True end.

Lemma fresh_holding E :
  epoch_ok E →
  holding E {| te_generation := E.(ep_generation); te_generation_set := true;
               te_planes := replicate CDF53_PASS_COUNT None; te_received := 0;
               te_present_passes := None; te_drawn_prefix := None |}.
Proof.
  intros HE. split; [done| |done].
  split; cbn [te_generation te_generation_set te_planes te_received te_present_passes]; try done.
  - intros i Hi. rewrite Z.bits_0. by apply lookup_replicate_2.
  - intros i. by rewrite Z.bits_0.
Qed.

(** The tile a pass of [E] is stored into. *)
Lemma start_holding ep pos st ng E frame_seq e :
  (∀ t, st !! pos = Some t → ∃ E, ep !! pos = Some E ∧ holding E t) →
  epoch_ok E → pass_of E frame_seq e → may_be ep pos ng e.(pc_generation) E →
  let st' := if ng then forget_tile pos st else st in
  holding E (start_generation (default TileEntry_default (st' !! pos)) e.(pc_generation)).
Proof.
  intros Hst HE (i & _ & _ & Hg & _) Hmay. cbv zeta. unfold start_generation, forget_tile.
  destruct ng.
  { rewrite lookup_delete_eq. cbn [from_option id negb orb TileEntry_default te_generation_set].
    rewrite Hg. by apply fresh_holding. }
  destruct (st !! pos) as [t|] eqn:Et; cbn [from_option id].
  2: { cbn [negb orb TileEntry_default te_generation_set]. rewrite Hg. by apply fresh_holding. }
  destruct (Hst t eq_refl) as (E0 & HE0 & Hh). pose proof Hh as [_ Ht _].
  rewrite (et_set E0 t Ht), (et_gen E0 t Ht). cbn [negb orb].
  destruct Hmay as [?|[Hs|Hd]]; [done| |].
  - rewrite HE0 in Hs. injection Hs as ->. rewrite Hg, Z.eqb_refl. done.
  - rewrite HE0 in Hd. rewrite (proj2 (Z.eqb_neq _ _)) by done. cbn [negb]. rewrite Hg. by apply fresh_holding.
Qed.

Lemma store_holding E frame_seq t e :
  holding E t → pass_of E frame_seq e →
  holding E (store_pass t e) ∧ (prefix_len t ≤ prefix_len (store_pass t e))%nat
  ∧ te_drawn_prefix (store_pass t e) = te_drawn_prefix t.
Proof.
  intros [HE Ht Hd] Hp. destruct (store_pass_epoch E frame_seq t e HE Ht Hp) as (Ht' & Hdp & Hle).
  split_and!; try done. split; [done|done|]. unfold drawn_inv in *. rewrite Hdp.
  destruct (te_drawn_prefix t); [|done]. destruct Hd. split; [lia|done].
Qed.

(** The screen after a picture. *)
Definition painted (sc : screen) (frame_seq : Z) (pos : Z * Z) (pic : option (list Z)) : screen :=
  match pic with Some rgba => <[pos := (frame_seq, rgba)]> sc | None => sc end.

(** A tile both decoders agree on, one pass later. *)
Lemma settled_pass E frame_seq t e s :
  holding E t → pass_of E frame_seq e →
  let t' := store_pass t e in
  ∃ t1 pic, draw t' = Ok (t1, pic) ∧
    let s1 := match pic with Some rgba => Some (frame_seq, rgba) | None => s end in
    if bool_decide (t'.(te_drawn_prefix) = Some (prefix_len t')) then t1 = t' ∧ s1 = s ∧ holding E t'
    else waiting E (mkPendingTile frame_seq e.(pc_generation)) t1 t' s1 s.
Proof.
  intros Hh Hp. cbv zeta. destruct (store_holding E frame_seq t e Hh Hp) as (Hh' & _ & _).
  set (t' := store_pass t e) in *. destruct (epoch_picture_total E (prefix_len t')) as (pic & Hpic); [apply prefix_len_le|].
  pose proof Hh' as [HE Ht' _]. rewrite (draw_epoch E t' pic HE Ht' Hpic).
  destruct (bool_decide (te_drawn_prefix t' = Some (prefix_len t'))) eqn:Hb.
  { exists t', None. done. }
  apply bool_decide_eq_false in Hb. destruct Hp as (i & _ & _ & Hg & Hfs & _).
  destruct pic as [rgba|]; eexists _, _; (split; [done|]).
  - split; try done. right. exists rgba. by rewrite Hfs.
  - split; try done. left. done.
Qed.

(** A waiting tile, one pass of the same epoch later. *)
Lemma waiting_pass E p t1 t2 s1 s2 frame_seq e :
  waiting E p t1 t2 s1 s2 → pass_of E frame_seq e →
  let t2' := store_pass t2 e in
  te_drawn_prefix t2' ≠ Some (prefix_len t2') ∧
  ∃ t1' pic, draw (store_pass t1 e) = Ok (t1', pic) ∧
    waiting E (mkPendingTile frame_seq e.(pc_generation)) t1' t2'
      (match pic with Some rgba => Some (frame_seq, rgba) | None => s1 end) s2.
Proof.
  intros [Hh Hl Hg Hu Ho] Hp. cbv zeta. destruct (store_holding E frame_seq t2 e Hh Hp) as (Hh' & Hle & Hd').
  set (t2' := store_pass t2 e) in *. assert (te_drawn_prefix t2' ≠ Some (prefix_len t2')) as Hu'.
  { rewrite Hd'. pose proof Hh as [_ _ Hdi]. unfold drawn_inv in Hdi.
    destruct (te_drawn_prefix t2) as [k|]; [|done]. intros [= ->]. apply Hu. f_equal. lia. }
  split; [done|]. destruct (epoch_picture_total E (prefix_len t2')) as (pic' & Hpic'); [apply prefix_len_le|].
  pose proof Hh' as [HE Ht' _]. pose proof Hp as (i & _ & _ & Hpg & Hfs & _).
  destruct Ho as [(Hn & -> & ->)|(rgba & Hn & -> & ->)].
  - fold t2'. rewrite (draw_epoch E t2' pic' HE Ht' Hpic'), bool_decide_false by done.
    destruct pic' as [rgba'|]; eexists _, _; (split; [done|]); split; try done.
    + right. exists rgba'. by rewrite Hfs.
    + left. done.
  - assert (store_pass (set_drawn t2 (prefix_len t2)) e = set_drawn t2' (prefix_len t2)) as ->.
    { unfold t2', store_pass. by destruct (_ <? _)%nat. }
    assert (epoch_tile E (set_drawn t2' (prefix_len t2))) as Hts by (destruct Ht'; by split).
    rewrite (draw_epoch E (set_drawn t2' (prefix_len t2)) pic' HE Hts Hpic').
    change (prefix_len (set_drawn t2' (prefix_len t2))) with (prefix_len t2').
    cbn [set_drawn te_drawn_prefix]. case_bool_decide as Heq.
    + injection Heq as Heq. eexists _, _. split; [done|]. split; try done. right. exists rgba.
      rewrite <-Heq. done.
    + destruct pic' as [rgba'|].
      * eexists _, _. split; [done|]. split; try done. right. exists rgba'. by rewrite Hfs.
      * apply (epoch_picture_monotone E (prefix_len t2)) in Hpic'; [congruence|done|apply prefix_len_le].
Qed.

(** The accumulator as the pass finds it. *)
Definition after_ng (pos : Z * Z) (ng : bool) (st : Cdf53TileState) : Cdf53TileState :=
  if ng then forget_tile pos st else st.

Lemma after_ng_wf pos ng st : wf_tiles st → wf_tiles (after_ng pos ng st).
Proof.
  intros H. unfold after_ng, forget_tile. destruct ng; [|done]. intros q t [_ Hq]%lookup_delete_Some. by eapply H.
Qed.

Lemma after_ng_other pos ng st q : q ≠ pos → after_ng pos ng st !! q = st !! q.
Proof. intros Hq. unfold after_ng, forget_tile. destruct ng; [|done]. by rewrite lookup_delete_ne. Qed.

Section pass_step.
Context (ep : gmap (Z * Z) Epoch) (E : Epoch) (x y frame_seq : Z) (ng : bool) (e : PrevalidatedCdf53).
Hypothesis HE : epoch_ok E.
Hypothesis Hpass : pass_of E frame_seq e.
Hypothesis Hmay : may_be ep (x, y) ng e.(pc_generation) E.

(** What the pass does at its own position. *)
Lemma pass_at d1 sc1 d2 sc2 :
  sim ep d1 sc1 d2 sc2 →
  (∀ p, d2.(td_pending).(pq_tiles) !! (x, y) = Some p → ng = false ∧ p.(pt_generation) = e.(pc_generation)) →
  let t1 := tile_after (after_ng (x, y) ng d1.(td_cdf53)) (x, y) e in
  let t2 := tile_after (after_ng (x, y) ng d2.(td_cdf53)) (x, y) e in
  ∃ t1' pic, draw t1 = Ok (t1', pic) ∧
    let s1 := match pic with Some rgba => Some (frame_seq, rgba) | None => sc1 !! (x, y) end in
    if bool_decide (t2.(te_drawn_prefix) = Some (prefix_len t2))
    then d2.(td_pending).(pq_tiles) !! (x, y) = None ∧ t1' = t2 ∧ s1 = sc2 !! (x, y) ∧ holding E t2
    else waiting E (mkPendingTile frame_seq e.(pc_generation)) t1' t2 s1 (sc2 !! (x, y)).
Proof using HE Hpass Hmay.
  intros Hs Hno. cbv zeta. pose proof (sm_tiles _ _ _ _ _ Hs (x, y)) as Hr. unfold tile_related in Hr.
  destruct (pq_tiles (td_pending d2) !! (x, y)) as [p|] eqn:Hp.
  - destruct (Hno p eq_refl) as [-> Hg]. destruct Hr as (E0 & t1 & t2 & Hep & Ht1 & Ht2 & Hw).
    assert (E0 = E) as ->.
    { destruct Hmay as [?|[Hm|Hm]]; [done|congruence|]. rewrite Hep in Hm. destruct Hw as [_ _ Hwg _ _]. congruence. }
    unfold tile_after, after_ng. rewrite Ht1, Ht2. cbn [from_option id].
    assert (∀ t, epoch_tile E t → start_generation t (pc_generation e) = t) as Hsg.
    { intros t Ht. unfold start_generation. rewrite (et_set E t Ht), (et_gen E t Ht).
      destruct Hpass as (i & _ & _ & -> & _). by rewrite Z.eqb_refl. }
    pose proof Hw as [[_ Het _] _ _ _ Ho].
    assert (epoch_tile E t1) as Het1.
    { destruct Ho as [(_ & -> & _)|(rgba & _ & -> & _)]; [done|]. destruct Het; by split. }
    rewrite !Hsg by done. destruct (waiting_pass E p t1 t2 _ _ frame_seq e Hw Hpass) as (Hu & t1' & pic & Hd & Hw').
    exists t1', pic. split; [done|]. by rewrite bool_decide_false by done.
  - destruct Hr as (Heq & Hsc & Hh).
    assert (tile_after (after_ng (x, y) ng (td_cdf53 d1)) (x, y) e = tile_after (after_ng (x, y) ng (td_cdf53 d2)) (x, y) e) as ->.
    { unfold tile_after, after_ng, forget_tile. destruct ng; [by rewrite !lookup_delete_eq|by rewrite Heq]. }
    pose proof (start_holding ep (x, y) (td_cdf53 d2) ng E frame_seq e Hh HE Hpass Hmay) as Hst. cbv zeta in Hst.
    destruct (settled_pass E frame_seq _ e (sc1 !! (x, y)) Hst Hpass) as (t1' & pic & Hd & Hres).
    cbv zeta in Hd, Hres. exists t1', pic. split; [exact Hd|].
    fold (after_ng (x, y) ng (td_cdf53 d2)) in Hres. fold (tile_after (after_ng (x, y) ng (td_cdf53 d2)) (x, y) e) in Hres.
    rewrite <-Hsc. destruct (bool_decide _); [|done]. split; [done|]. exact Hres.
Qed.

Lemma pass_sim d1 sc1 d2 sc2 out1 out2 :
  sim ep d1 sc1 d2 sc2 → order_ok d2 →
  (∀ p, d2.(td_pending).(pq_tiles) !! (x, y) = Some p → ng = false ∧ p.(pt_generation) = e.(pc_generation)) →
  ∃ d1' o1 d2',
    decode_cdf53 push_result (d1, tt, out1) false frame_seq x y ng e = Ok (d1', tt, out1 ++ o1, true)
    ∧ decode_cdf53 push_result (d2, tt, out2) true frame_seq x y ng e = Ok (d2', tt, out2, true)
    ∧ (views sc1 o1).1 = []
    ∧ sim (<[(x, y) := E]> ep) d1' (views sc1 o1).2 d2' sc2 ∧ order_ok d2'.
Proof using HE Hpass Hmay.
  intros Hs Ho Hno. destruct (sim_wf _ _ _ _ _ Hs) as [Hw1 _].
  destruct (pass_at d1 sc1 d2 sc2 Hs Hno) as (t1' & pic & Hd & Hres). cbv zeta in Hres.
  destruct (decode_cdf53_batch d2 out2 frame_seq x y ng e) as (d2' & H2 & P1 & P2 & P3 & P4). cbv zeta in P3, P4.
  fold (after_ng (x, y) ng (td_cdf53 d2)) in P3, P4. set (t2 := tile_after (after_ng (x, y) ng (td_cdf53 d2)) (x, y) e) in *.
  eexists _, (picture_event frame_seq (x, y) pic), d2'. split.
  { apply (decode_cdf53_each d1 out1 frame_seq x y ng e t1' pic); [by apply after_ng_wf|exact Hd]. }
  split; [exact H2|]. rewrite views_picture. split; [done|]. cbn [snd].
  destruct Hs as [S1 S2 S3 S4 S5]. split.
  - split; cbn [td_palettes td_cdf53_passthrough set_cdf53]; try congruence.
    intros q. cbn [td_cdf53 set_cdf53]. fold (after_ng (x, y) ng (td_cdf53 d1)). rewrite P3.
    destruct (decide (q = (x, y))) as [->|Hne].
    + unfold tile_related, settled_at. rewrite !lookup_insert_eq.
      assert (match pic with Some rgba => <[(x, y):=(frame_seq, rgba)]> sc1 | None => sc1 end !! (x, y)
        = match pic with Some rgba => Some (frame_seq, rgba) | None => sc1 !! (x, y) end) as ->
        by (destruct pic; [by rewrite lookup_insert_eq|done]).
      destruct (bool_decide _).
      * destruct P4 as [-> _]. destruct Hres as (-> & -> & -> & Hh). split_and!; [done|done|].
        intros t [= <-]. eauto.
      * destruct P4 as [-> _]. rewrite lookup_insert_eq. eauto 10.
    + eapply tile_related_other; [exact Hne|by rewrite lookup_insert_ne| |rewrite lookup_insert_ne by done; by apply after_ng_other
        |rewrite lookup_insert_ne by done; by apply after_ng_other| |done|apply S5].
      * destruct (bool_decide _); destruct P4 as [-> _]; [done|by rewrite lookup_insert_ne].
      * destruct pic; [by rewrite lookup_insert_ne|done].
  - intros q p. destruct (bool_decide _).
    + destruct P4 as [-> ->]. apply Ho.
    + destruct P4 as [-> Hor]. intros [[<- _]|[Hne Hq]]%lookup_insert_Some; apply Hor.
      * destruct (pq_tiles (td_pending d2) !! (x, y)) as [p'|] eqn:Hp; [left; by apply (Ho (x, y) p')|by right].
      * left. by apply (Ho q p).
Qed.
End pass_step.

(** ** Pixels that are always there *)

Lemma opaque_rgba_ok q : length q = 4%nat → ∃ px, opaque_rgba q = Ok px ∧ length px = 4%nat.
Proof.
  intros H. destruct q as [|a [|b [|c [|d [|]]]]]; try done. by eexists.
Qed.

Lemma solid_total q : length q = 4%nat → ∃ rgba, into_vec (write_pixels (PxSolid q)) = Ok rgba.
Proof.
  intros H. destruct (opaque_rgba_ok q H) as (px & Hpx & Hl). unfold write_pixels, solid_row.
  rewrite Hpx, bind_Ok. eexists. apply (into_vec_rows (λ _, concat (replicate TILE_SIZE px))).
  intros y _. unfold TILE_SIZE. destruct px as [|a [|b [|c [|d [|]]]]]; done.
Qed.

Definition slot_ok (slot : list (list Z)) : Prop :=
  length slot = 16%nat ∧ Forall (λ q, length q = 4%nat) slot.

Lemma slot_idx slot i : slot_ok slot → (i < 16)%nat →
  ∃ q, idx (E:=unit) slot i = Ok q ∧ length q = 4%nat.
Proof.
  intros [Hl Hq] Hi. destruct (idx_lt (E:=unit) slot i) as (q & H & Hlk); [lia|]. exists q. split; [done|].
  by apply (Forall_lookup_1 _ _ _ _ Hq Hlk).
Qed.

Lemma pair_pixels_ok slot pair : slot_ok slot → byte pair →
  ∃ px, pair_pixels slot pair = Ok px ∧ length px = 8%nat.
Proof.
  intros Hs Hb. unfold pair_pixels.
  destruct (slot_idx slot (Z.to_nat (Z.land pair 15)) Hs) as (lo & -> & Hlo).
  { rewrite land_15. pose proof (Z.mod_pos_bound pair 16). lia. }
  destruct (slot_idx slot (Z.to_nat (Z.shiftr pair 4)) Hs) as (hi & -> & Hhi).
  { rewrite shiftr_div by lia. change (2 ^ 4) with 16. widths. dlia. }
  rewrite !bind_Ok. destruct (opaque_rgba_ok lo Hlo) as (a & -> & Ha), (opaque_rgba_ok hi Hhi) as (b & -> & Hb').
  rewrite !bind_Ok. eexists. split; [done|]. rewrite length_app. lia.
Qed.

Lemma collect_lengths {A} (f : A → outcome unit (list Z)) n l :
  (∀ a, a ∈ l → ∃ px, f a = Ok px ∧ length px = n) →
  ∃ pxs, collect f l = Ok pxs ∧ length (concat pxs) = (length l * n)%nat.
Proof.
  induction l as [|a l IH]; intros Hf; cbn [collect]; [by exists []|].
  destruct (Hf a ltac:(set_solver)) as (px & -> & Hl). destruct IH as (pxs & -> & Hc); [set_solver|].
  rewrite !bind_Ok. eexists. split; [done|]. cbn [concat length]. rewrite length_app. lia.
Qed.

Lemma pal_row_ok slot indices y : slot_ok slot → bytes indices →
  ∃ row, pal_row slot indices y = Ok row ∧ length row = TILE_ROW_BYTES.
Proof.
  intros Hs Hb. unfold pal_row. set (src := if (_ <=? _)%nat then _ else _).
  assert (bytes src ∧ (length src ≤ 16)%nat) as [Hsb Hsl].
  { unfold src. destruct (_ <=? _)%nat; [|split; [constructor|cbn; lia]].
    split; [by apply Forall_take, Forall_drop|]. rewrite length_take. lia. }
  destruct (collect_lengths (pair_pixels slot) 8 src) as (pxs & -> & Hl).
  { intros p Hp. apply pair_pixels_ok; [done|]. by apply (proj1 (Forall_forall _ _) Hsb). }
  rewrite bind_Ok. eexists. split; [done|]. rewrite length_app, length_replicate, Hl.
  unfold TILE_ROW_BYTES, TILE_SIZE. lia.
Qed.

(** Rows that are all computable are the rows of a total function. *)
Lemma rows_choice (f : nat → outcome unit (list Z)) :
  (∀ y, ∃ row, f y = Ok row ∧ length row = TILE_ROW_BYTES) →
  ∃ rgba, into_vec (fill_rows f) = Ok rgba.
Proof.
  intros Hf. set (g := λ y, match f y with Ok row => row | _ => [] end).
  assert (∀ y, f y = Ok (g y) ∧ length (g y) = TILE_ROW_BYTES) as Hg.
  { intros y. unfold g. by destruct (Hf y) as (row & -> & ?). }
  eexists. rewrite <-(into_vec_rows g) by (intros; apply Hg). unfold into_vec.
  destruct (tile_out_new _ _); [|done..]. rewrite !bind_Ok.
  rewrite (fill_rows_ext f (λ y, Ok (g y))) by (intros; apply Hg). done.
Qed.

Lemma pal_total slot indices : slot_ok slot → bytes indices →
  ∃ rgba, into_vec (write_pixels (PxPalRle slot indices)) = Ok rgba.
Proof. intros Hs Hb. apply rows_choice. intros y. by apply pal_row_ok. Qed.

(** ** Events *)

(** What the types of the payloads say. *)
Definition event_ok (ev : Event) : Prop :=
  match ev with
  | TilePayload _ _ _ _ (TDSolid quad) => length quad = 4%nat
  | TilePayload _ _ _ _ (TDPalRle palette_id _ indices _) => byte palette_id ∧ bytes indices
  | TilePayload _ _ _ _ (TDCdf53Wire _ streams _ _) => bytes streams
  | PaletteUpdated palette_id colors => byte palette_id ∧ Forall (λ q, length q = 4%nat) colors
  | _ => True
  end.

(** The event the decoder sees: a coded pass is expanded first. *)
Definition expanded (ev : Event) : option Event :=
  match ev with
  | TilePayload frame_seq tile_x tile_y generation (TDCdf53Wire pass_idx streams present new_gen) =>
      match decode_cdf53_wire streams (replicate 384 0) with
      | Ok bit_planes => Some (TilePayload frame_seq tile_x tile_y generation
                                 (TDCdf53 pass_idx bit_planes present new_gen))
      | _ => None
      end
  | _ => Some ev
  end.

Definition is_pass (ev : Event) : Prop :=
  match ev with TilePayload _ _ _ _ (TDCdf53 _ _ _ _ | TDCdf53Wire _ _ _ _) => True | _ => False end.

(** A stream in which each generation of a tile has one content: how the known
    epochs change with an event. *)
Inductive epoch_step (ep : gmap (Z * Z) Epoch) : Event → gmap (Z * Z) Epoch → Prop :=
| step_pass ev E frame_seq x y generation pass_idx bit_planes present ng :
    expanded ev = Some (TilePayload frame_seq x y generation (TDCdf53 pass_idx bit_planes present ng)) →
    epoch_ok E →
    pass_of E frame_seq {| pc_generation := generation; pc_pass_idx := pass_idx;
                           pc_bit_planes := bit_planes; pc_present_passes := present |} →
    may_be ep (x, y) ng generation E →
    epoch_step ep ev (<[(x, y) := E]> ep)
| step_dropped ev : expanded ev = None → epoch_step ep ev ep
| step_resize width height :
    epoch_step ep (FrameDimensions width height)
      (filter (λ '((x, y), _), (x <? tiles_across width) && (y <? tiles_across height) = true) ep)
| step_other ev :
    ¬ is_pass ev → (∀ w h, ev ≠ FrameDimensions w h) → epoch_step ep ev ep.

Inductive consistent (ep : gmap (Z * Z) Epoch) : list Event → Prop :=
| consistent_nil : consistent ep []
| consistent_cons ev ep' evs : epoch_step ep ev ep' → consistent ep' evs → consistent ep (ev :: evs).

Lemma expand_wire_ok d ev :
  event_ok ev → ∃ n, expand_wire d ev = Ok (set_wire_failed d n, expanded ev).
Proof.
  intros Hok. destruct ev as [| | | |fs x y g data| |]; try (exists (td_cdf53_wire_failed d); by destruct d).
  destruct data as [| | |p streams pr ng]; try (exists (td_cdf53_wire_failed d); by destruct d).
  cbn [expand_wire expanded]. pose proof (decode_cdf53_wire_no_panic streams Hok) as Hnp.
  destruct (decode_cdf53_wire _ _); [| |done].
  - exists (td_cdf53_wire_failed d). by destruct d.
  - eauto.
Qed.

Lemma sim_wire_failed ep d1 sc1 d2 sc2 n1 n2 :
  sim ep d1 sc1 d2 sc2 → sim ep (set_wire_failed d1 n1) sc1 (set_wire_failed d2 n2) sc2.
Proof. intros [S1 S2 S3 S4 S5]. by split. Qed.

(** With nothing waiting the two agree outright. *)
Lemma sim_settled ep d1 sc1 d2 sc2 :
  sim ep d1 sc1 d2 sc2 → d2.(td_pending).(pq_tiles) = ∅ →
  sc1 = sc2 ∧ d1.(td_cdf53) = d2.(td_cdf53)
  ∧ ∀ pos t, d2.(td_cdf53) !! pos = Some t → ∃ E, ep !! pos = Some E ∧ holding E t.
Proof.
  intros [_ _ _ _ Hr] He.
  assert (∀ q, settled_at ep (td_cdf53 d1) (td_cdf53 d2) sc1 sc2 q) as Ht.
  { intros q. specialize (Hr q). unfold tile_related in Hr. by rewrite He, lookup_empty in Hr. }
  split_and!.
  - apply map_eq. intros q. apply (Ht q).
  - apply map_eq. intros q. apply (Ht q).
  - intros q. apply (Ht q).
Qed.

(** The same picture on both screens. *)
Lemma sim_paint ep d1 sc1 d2 sc2 pos v :
  sim ep d1 sc1 d2 sc2 → d2.(td_pending).(pq_tiles) !! pos = None →
  sim ep d1 (<[pos := v]> sc1) d2 (<[pos := v]> sc2).
Proof.
  intros [S1 S2 S3 S4 S5] Hp. split; try done. intros q. destruct (decide (q = pos)) as [->|Hne].
  - specialize (S5 pos). unfold tile_related, settled_at in *. rewrite Hp in *. rewrite !lookup_insert_eq.
    destruct S5 as (? & _ & ?). done.
  - eapply tile_related_other; [exact Hne|done|done|done|done|by rewrite lookup_insert_ne|by rewrite lookup_insert_ne|apply S5].
Qed.

(** Both decoders took one step; what came out and where they stand. *)
Definition both_step (ep' : gmap (Z * Z) Epoch) (sc1 sc2 : screen) (out1 out2 : list Event)
    (r1 r2 : outcome unit (log_run * bool)) : Prop :=
  ∃ d1 o1 d2 o2, r1 = Ok (d1, tt, out1 ++ o1, true) ∧ r2 = Ok (d2, tt, out2 ++ o2, true)
    ∧ (views sc1 o1).1 = (views sc2 o2).1
    ∧ sim ep' d1 (views sc1 o1).2 d2 (views sc2 o2).2 ∧ order_ok d2.

(** The batched step, with what must be flushed first. *)
Definition batch_event (d : TileDecoder) (out : list Event) (ev : Event) : outcome unit (log_run * bool) :=
  '(r, go) ← flush_before push_result (d, tt, out) ev;
  if negb go then Ok (r, false) else decode_event push_result r true ev.

Lemma order_ok_delete d d' pos :
  order_ok d → d'.(td_pending).(pq_tiles) = delete pos d.(td_pending).(pq_tiles) →
  d'.(td_pending).(pq_order) = d.(td_pending).(pq_order) → order_ok d'.
Proof. intros H E1 E2 q p. rewrite E1, E2. intros [_ Hq]%lookup_delete_Some. by apply (H q p). Qed.

(** A picture that replaces the tile: flush it, then paint. *)
Lemma replace_step ep d1 sc1 d2 sc2 out1 out2 fs x y px rgba :
  sim ep d1 sc1 d2 sc2 → order_ok d2 → into_vec (write_pixels px) = Ok rgba →
  both_step ep sc1 sc2 out1 out2
    (place push_result (d1, tt, out1) fs x y px)
    ('(r, go) ← flush_tile push_result (d2, tt, out2) (x, y);
     if negb go then Ok (r, false) else place push_result r fs x y px).
Proof.
  intros Hs Ho Hpx. destruct (flush_sim ep d1 sc1 d2 sc2 out2 (x, y) Hs) as (d2' & o & -> & Hv & Hs' & Ht & Hor).
  rewrite bind_Ok. cbn [negb]. rewrite !(place_log _ _ fs x y px rgba Hpx).
  eexists _, [TileReady fs x y rgba], _, (o ++ [TileReady fs x y rgba]). rewrite (assoc_L (++)).
  split_and!; [done|done| | |by eapply order_ok_delete]; rewrite views_app; cbn [views fst snd].
  - by rewrite Hv.
  - apply (sim_paint ep d1 sc1 d2'); [done|]. by rewrite Ht, lookup_delete_eq.
Qed.

(** An event that flushes everything and passes through. *)
Lemma through_step ep ep' d1 sc1 d2 sc2 out1 out2 ev (f : TileDecoder → TileDecoder) :
  sim ep d1 sc1 d2 sc2 → order_ok d2 →
  (∀ d, (f d).(td_pending) = d.(td_pending)) →
  (∀ d2' sc, sim ep d1 sc d2' sc → d2'.(td_pending).(pq_tiles) = ∅ → sim ep' (f d1) sc (f d2') sc) →
  both_step ep' sc1 sc2 out1 out2
    (Ok (emit_step push_result (f d1, tt, out1) (Out (DEvent ev))))
    ('(r, go) ← flush_all push_result (d2, tt, out2);
     if negb go then Ok (r, false) else
     let '(d, s, e) := r in Ok (emit_step push_result (f d, s, e) (Out (DEvent ev)))).
Proof.
  intros Hs Ho Hf Hstep. destruct (flush_all_sim ep d1 sc1 d2 sc2 out2 Hs Ho) as (d2' & o & -> & Hv & Hs' & Ht).
  rewrite bind_Ok. cbn [negb emit_step push_result decoded_event].
  destruct (sim_settled _ _ _ _ _ Hs' Ht) as (Hsc & _ & _). rewrite <-Hsc in Hs'.
  pose proof (Hstep d2' sc1 Hs' Ht) as Hs2.
  eexists _, [ev], _, (o ++ [ev]). rewrite (assoc_L (++)).
  split_and!; [done|done| | |].
  - rewrite views_app, Hv, <-Hsc. by destruct (views sc1 [ev]).
  - rewrite views_app, Hv, <-Hsc. cbn [fst snd]. destruct ev; cbn [views snd]; try done.
    apply sim_paint; [done|]. by rewrite Hf, Ht, lookup_empty.
  - intros q p. rewrite Hf, Ht, lookup_empty. done.
Qed.

Lemma retain_sim ep d1 d2 sc width height :
  sim ep d1 sc d2 sc → d2.(td_pending).(pq_tiles) = ∅ →
  let keep x y := (x <? tiles_across width) && (y <? tiles_across height) in
  sim (filter (λ '((x, y), _), keep x y = true) ep)
    (set_cdf53 d1 (retain_tiles keep d1.(td_cdf53))) sc (set_cdf53 d2 (retain_tiles keep d2.(td_cdf53))) sc.
Proof.
  intros Hs He keep. destruct (sim_settled _ _ _ _ _ Hs He) as (_ & Heq & Hh).
  destruct Hs as [S1 S2 S3 S4 _]. split; try done. intros q.
  cbn [td_pending set_cdf53 td_cdf53]. unfold tile_related. rewrite He, lookup_empty, Heq.
  split_and!; [done|done|]. unfold retain_tiles. intros t [Ht Hk]%map_lookup_filter_Some.
  destruct (Hh q t Ht) as (E & HE & Hhold). exists E. split; [|done]. apply map_lookup_filter_Some. split; [done|].
  by destruct q.
Qed.

Lemma palettes_slot palettes id :
  palettes_ok palettes → byte id → ∃ slot, idx (E:=unit) palettes (Z.to_nat id) = Ok slot ∧ slot_ok slot.
Proof.
  intros [Hl Hs] Hid. destruct (idx_lt (E:=unit) palettes (Z.to_nat id)) as (slot & H & Hlk).
  { rewrite Hl. widths. lia. }
  exists slot. split; [done|]. by apply (Forall_lookup_1 _ _ _ _ Hs Hlk).
Qed.

Lemma zip_over_ok slot colors :
  slot_ok slot → Forall (λ q, length q = 4%nat) colors → slot_ok (zip_over slot colors).
Proof.
  intros [Hl Hs] Hc. unfold zip_over. split.
  - rewrite length_app, length_take, length_drop. lia.
  - apply Forall_app. split; [by apply Forall_take|by apply Forall_drop].
Qed.

Lemma event_sim ep ep' d1 sc1 d2 sc2 out1 out2 ev ev' :
  sim ep d1 sc1 d2 sc2 → order_ok d2 → event_ok ev → epoch_step ep ev ep' → expanded ev = Some ev' →
  both_step ep' sc1 sc2 out1 out2 (decode_event push_result (d1, tt, out1) false ev') (batch_event d2 out2 ev').
Proof.
  intros Hs Ho Hok Hstep Hex. unfold batch_event. destruct Hstep as [ev E fs x y g p planes pr ng Hex' HE Hpass Hmay
    |ev Hnone|w h|ev Hnp Hnd].
  - rewrite Hex' in Hex. injection Hex as <-. cbn [decode_event decode_payload flush_before fst].
    rewrite (sm_pass1 _ _ _ _ _ Hs). set (e := {| pc_generation := g |}) in *.
    assert (∃ d2' o, (if match pq_tiles (td_pending d2) !! (x, y) with
            | Some p => ng || negb (pt_generation p =? g) | None => false end
          then flush_tile push_result (d2, tt, out2) (x, y) else Ok (d2, tt, out2, true))
        = Ok (d2', tt, out2 ++ o, true) ∧ (views sc2 o).1 = [] ∧ sim ep d1 sc1 d2' (views sc2 o).2
      ∧ order_ok d2' ∧ (∀ p, pq_tiles (td_pending d2') !! (x, y) = Some p → ng = false ∧ pt_generation p = g))
      as (d2' & o & -> & Hv & Hs' & Ho' & Hno).
    { destruct (match pq_tiles (td_pending d2) !! (x, y) with
        | Some p => ng || negb (pt_generation p =? g) | None => false end) eqn:Hsw.
      - destruct (flush_sim ep d1 sc1 d2 sc2 out2 (x, y) Hs) as (d2' & o & H & Hv & Hs' & Ht & Hor).
        exists d2', o. split_and!; try done; [by eapply order_ok_delete|]. intros q. by rewrite Ht, lookup_delete_eq.
      - exists d2, []. rewrite app_nil_r. split_and!; try done. intros q Hq. rewrite Hq in Hsw.
        apply orb_false_iff in Hsw as [-> Hg%negb_false_iff%Z.eqb_eq]. done. }
    rewrite bind_Ok. cbn [negb decode_event decode_payload]. rewrite (sm_pass2 _ _ _ _ _ Hs').
    destruct (pass_sim ep E x y fs ng e HE Hpass Hmay d1 sc1 d2' (views sc2 o).2 out1 (out2 ++ o) Hs' Ho' Hno)
      as (d1' & o1 & d2'' & H1 & H2 & Hv1 & Hs'' & Ho'').
    exists d1', o1, d2'', o. split_and!; try done. by rewrite Hv1, Hv.
  - congruence.
  - injection Hex as <-. cbn [flush_before decode_event].
    apply (through_step ep _ d1 sc1 d2 sc2 out1 out2 (FrameDimensions w h)
      (λ d, set_cdf53 d (retain_tiles (λ x y, (x <? tiles_across w) && (y <? tiles_across h)) (td_cdf53 d)))); try done.
    intros d2' sc Hs' He. by apply retain_sim.
  - destruct ev as [fs x y rgba|w h| | |fs x y g data|id colors|]; cbn [expanded] in Hex;
      try by destruct (Hnd w h).
    all: try (injection Hex as <-; cbn [flush_before decode_event];
      match goal with |- context [DEvent ?ev] =>
        pose proof (through_step ep ep d1 sc1 d2 sc2 out1 out2 ev (λ d, d) Hs Ho
          (λ _, eq_refl) (λ _ _ H _, H)) as Hb end;
      destruct (flush_all push_result (d2, tt, out2)) as [[[[d s] e] go]| |]; [by destruct go|exact Hb|exact Hb]).
    + destruct data as [quad|id c indices fl| |]; try (by destruct (Hnp I)); injection Hex as <-;
        cbn [flush_before decode_event decode_payload].
      * destruct (solid_total quad Hok) as (rgba & Hpx).
        pose proof (replace_step ep d1 sc1 d2 sc2 out1 out2 fs x y _ rgba Hs Ho Hpx) as Hb.
        destruct (flush_tile push_result (d2, tt, out2) (x, y)) as [[[[d s] e] go]| |]; try done.
      * destruct Hok as [Hid Hind]. destruct (palettes_slot _ id (sm_palettes_ok _ _ _ _ _ Hs) Hid) as (slot & Hslot & Hsl).
        destruct (pal_total slot indices Hsl Hind) as (rgba & Hpx). rewrite Hslot, bind_Ok.
        pose proof (replace_step ep d1 sc1 d2 sc2 out1 out2 fs x y _ rgba Hs Ho Hpx) as Hb.
        destruct (flush_sim ep d1 sc1 d2 sc2 out2 (x, y) Hs) as (d2' & o & H & _ & Hs' & _).
        rewrite H, bind_Ok in Hb |- *. cbn [negb] in Hb |- *.
        cbn [decode_event decode_payload]. rewrite <-(sm_palettes _ _ _ _ _ Hs'), Hslot, bind_Ok. done.
    + injection Hex as <-. cbn [flush_before]. rewrite bind_Ok. cbn [negb decode_event]. destruct Hok as [Hid Hc].
      destruct (palettes_slot _ id (sm_palettes_ok _ _ _ _ _ Hs) Hid) as (slot & Hslot & Hsl).
      rewrite <-(sm_palettes _ _ _ _ _ Hs), Hslot, !bind_Ok. eexists _, [], _, []. rewrite !app_nil_r.
      split_and!; try done. destruct Hs as [S1 [P1 P2] S3 S4 S5]. split; try done; cbn [views snd].
      split; cbn [td_palettes set_palettes]; [by rewrite length_insert|]. apply Forall_insert; [done|].
      by apply zip_over_ok.
Qed.

(** ** Whole streams *)

(** [decode_tile] logs what it returns. *)
Lemma decode_logs d ev d' out out' go :
  decode_one push_result (d, tt, out) false ev = Ok (d', tt, out', go) →
  ∃ o, decode_tile d ev = Ok (d', o) ∧ out' = out ++ option_list o ∧ go = true.
Proof.
  unfold decode_tile, decode_into, decode_one.
  destruct (expand_wire d ev) as [[d0 [ev'|]]| |]; [| |done..]; rewrite !bind_Ok.
  2: { intros [= -> -> ->]. exists None. rewrite app_nil_r. by rewrite ?bind_Ok. }
  assert (∀ fs x y px d1, place push_result (d1, tt, out) fs x y px = Ok (d', tt, out', go) →
    ∃ o, (r ← place keep_result (d1, tt, None) fs x y px; let '(r, _) := r in
          let '(d, _, result) := r in
          Ok (d, match result with Some r => Some (decoded_event r) | None => None end)) = Ok (d', o)
         ∧ out' = out ++ option_list o ∧ go = true) as Hplace.
  { intros fs x y px d1. unfold place. cbn [acquire NoSlots].
    destruct (into_vec (write_pixels px)) as [rgba| |]; [|done..]. rewrite !bind_Ok.
    cbn [emit_step push_result keep_result decoded_event]. intros [= -> <- <-]. rewrite ?bind_Ok.
    by eexists. }
  assert (∀ ev d1, Ok (E:=unit) (emit_step push_result (d1, tt, out) (Out (DEvent ev))) = Ok (d', tt, out', go) →
    ∃ o, Ok (E:=unit) (d1, Some ev) = Ok (d', o) ∧ out' = out ++ option_list o ∧ go = true) as Hemit.
  { intros ev0 d1. cbn. intros [= -> <- <-]. by eexists. }
  destruct ev' as [| | | |fs x y g data|id colors|]; cbn [decode_event]; try apply Hemit.
  - destruct data as [quad|id c indices fl|p planes pr ng|]; cbn [decode_payload].
    + intros H. destruct (Hplace _ _ _ _ _ H) as (o & Ho & Hr). exists o. split; [|done]. rewrite <-Ho.
      destruct (place keep_result _ _ _ _ _) as [[[[? []] ?] ?]| |]; done.
    + destruct (idx (td_palettes d0) (Z.to_nat id)) as [slot| |]; [|done..]. rewrite !bind_Ok.
      intros H. destruct (Hplace _ _ _ _ _ H) as (o & Ho & Hr). exists o. split; [|done]. rewrite <-Ho.
      destruct (place keep_result _ _ _ _ _) as [[[[? []] ?] ?]| |]; done.
    + destruct (td_cdf53_passthrough d0); [apply Hemit|]. unfold decode_cdf53. cbn [negb].
      destruct (integrate_bgr _ _ _) as [[st [bgr|]]| |]; [| |done..]; rewrite !bind_Ok.
      * intros H. destruct (Hplace _ _ _ _ _ H) as (o & Ho & Hr). exists o. split; [|done]. rewrite <-Ho.
        destruct (place keep_result _ _ _ _ _) as [[[[? []] ?] ?]| |]; done.
      * intros [= -> <- <-]. exists None. rewrite app_nil_r. by rewrite ?bind_Ok.
    + intros [= -> <- <-]. exists None. rewrite app_nil_r. by rewrite ?bind_Ok.
  - destruct (idx (td_palettes d0) (Z.to_nat id)) as [slot| |]; [|done..]. rewrite !bind_Ok.
    intros [= -> <- <-]. exists None. rewrite app_nil_r. by rewrite ?bind_Ok.
Qed.

Lemma stream_sim evs : ∀ ep d1 sc1 d2 sc2 out2,
  sim ep d1 sc1 d2 sc2 → order_ok d2 → Forall event_ok evs → consistent ep evs →
  ∃ d1' out1 d2' o2, decode_each d1 evs = Ok (d1', out1)
    ∧ decode_batch_into push_result (d2, tt, out2) evs = Ok (d2', tt, out2 ++ o2)
    ∧ views sc1 out1 = views sc2 o2
    ∧ d1'.(td_cdf53) = d2'.(td_cdf53) ∧ d1'.(td_palettes) = d2'.(td_palettes)
    ∧ d2'.(td_pending).(pq_tiles) = ∅.
Proof.
  induction evs as [|ev evs IH]; intros ep d1 sc1 d2 sc2 out2 Hs Ho Hok Hc; cbn [decode_each decode_batch_into].
  { destruct (flush_all_sim ep d1 sc1 d2 sc2 out2 Hs Ho) as (d2' & o & -> & Hv & Hs' & Ht).
    rewrite bind_Ok. cbn [negb]. destruct (sim_settled _ _ _ _ _ Hs' Ht) as (Hsc & Hcd & _).
    exists d1, [], d2', o. split_and!; try done; [|apply Hs'].
    rewrite (surjective_pairing (views sc2 o)), Hv, <-Hsc. done. }
  apply Forall_cons in Hok as [Hev Hok]. inversion Hc as [|? ep' ? Hstep Hc']; subst.
  destruct (expand_wire_ok d1 ev Hev) as [n1 He1], (expand_wire_ok d2 ev Hev) as [n2 He2].
  assert (both_step ep' sc1 sc2 [] out2 (decode_one push_result (d1, tt, []) false ev)
            (decode_one push_result (d2, tt, out2) true ev)) as (d1' & o1 & d2' & o2 & H1 & H2 & Hv & Hs' & Ho').
  { unfold decode_one. rewrite He1, He2, !bind_Ok.
    pose proof (sim_wire_failed _ _ _ _ _ n1 n2 Hs) as Hsw. destruct (expanded ev) as [ev'|] eqn:Hex.
    - by eapply event_sim.
    - assert (ep' = ep) as -> by (destruct Hstep; try done; try congruence; by destruct ev).
      eexists _, [], _, []. rewrite !app_nil_r. done. }
  destruct (decode_logs _ _ _ _ _ _ H1) as (o & -> & Ho1 & _). cbn [app] in Ho1. rewrite H2, !bind_Ok. cbn [negb].
  destruct (IH ep' d1' (views sc1 o1).2 d2' (views sc2 o2).2 (out2 ++ o2) Hs' Ho' Hok Hc')
    as (d1'' & out1 & d2'' & o2' & -> & -> & Hvv & Hrest).
  rewrite bind_Ok. eexists _, _, _, (o2 ++ o2'). rewrite (assoc_L (++)). split_and!; try done; try apply Hrest.
  rewrite <-Ho1, !views_app, Hv. by rewrite Hvv.
Qed.

(** What a decoder may hold before a batch. *)
Record decoder_ok (ep : gmap (Z * Z) Epoch) (d : TileDecoder) : Prop := {
  dk_palettes : palettes_ok d.(td_palettes);
  dk_reconstructs : d.(td_cdf53_passthrough) = false;
  dk_idle : d.(td_pending).(pq_tiles) = ∅;
  dk_tiles : ∀ pos t, d.(td_cdf53) !! pos = Some t → ∃ E, ep !! pos = Some E ∧ holding E t;
}.

Lemma decoder_sim ep d sc : decoder_ok ep d → sim ep d sc d sc ∧ order_ok d.
Proof.
  intros [H1 H2 H3 H4]. split.
  - split; try done. intros pos. unfold tile_related. rewrite H3, lookup_empty.
    split_and!; [done|done|]. exact (H4 pos).
  - intros pos p. by rewrite H3, lookup_empty.
Qed.

(** C20: Batching changes no picture that is seen.  For any stream of events in which
    every generation of a tile has one content, decoding it as one batch and
    decoding it one event at a time both succeed; every event that is not a
    picture comes out of both in the same order, and at each of them, and at the
    end, the screen painted so far is the same, label and pixels; the two
    decoders end with the same palettes and the same accumulated tiles, and
    nothing is left waiting. *)
Theorem batch_paints_the_same ep d sc evs :
  decoder_ok ep d → Forall event_ok evs → consistent ep evs →
  ∃ d1 out1 d2 out2, decode_each d evs = Ok (d1, out1) ∧ decode_batch d evs = Ok (d2, out2)
    ∧ views sc out1 = views sc out2
    ∧ d1.(td_cdf53) = d2.(td_cdf53) ∧ d1.(td_palettes) = d2.(td_palettes)
    ∧ d2.(td_pending).(pq_tiles) = ∅.
Proof.
  intros Hd Hok Hc. destruct (decoder_sim ep d sc Hd) as [Hs Ho].
  destruct (stream_sim evs ep d sc d sc [] Hs Ho Hok Hc) as (d1 & out1 & d2 & o2 & H1 & H2 & Hrest).
  exists d1, out1, d2, o2. unfold decode_batch. by rewrite H2, bind_Ok.
Qed.

(** Two passes of one tile, a solid tile elsewhere, a resize in between, and a
    new generation that reuses the number. *)
Definition sample_epoch (label : Z) : Epoch :=
  mkEpoch 3 label 3 (replicate CDF53_PASS_COUNT (replicate 384 255)).

Definition sample_pass (label pass_idx : Z) (ng : bool) : Event :=
  TilePayload label 1 2 3 (TDCdf53 pass_idx (replicate 384 255)
    (if pass_idx =? 0 then Some 3 else None) ng).

Definition sample_stream : list Event :=
  [sample_pass 70 1 true; TilePayload 70 0 0 0 (TDSolid [1; 2; 3; 4]); sample_pass 70 0 false;
   PaletteUpdated 9 [[1; 2; 3; 4]]; FrameDimensions 640 480; sample_pass 71 0 true].

Lemma decoder_new_ok : decoder_ok ∅ decoder_new.
Proof.
  split; [split| | |]; try done.
  apply Forall_replicate. split; [done|]. by apply Forall_replicate.
Qed.

Lemma sample_pass_of label i :
  (i < 2)%nat → pass_of (sample_epoch label) label
    {| pc_generation := 3; pc_pass_idx := Z.of_nat i; pc_bit_planes := replicate 384 255;
       pc_present_passes := if Z.of_nat i =? 0 then Some 3 else None |}.
Proof.
  intros Hi. exists i. unfold CDF53_PASS_COUNT. split_and!; try done; [lia| | |];
    destruct i as [|[|i]]; try done; lia.
Qed.

Lemma sample_consistent : consistent ∅ sample_stream.
Proof.
  eapply consistent_cons; [eapply (step_pass _ _ (sample_epoch 70)); [done|done|apply (sample_pass_of 70 1); lia|by left]|].
  eapply consistent_cons; [apply step_other; [intros []|done]|].
  eapply consistent_cons; [eapply (step_pass _ _ (sample_epoch 70)); [done|done|apply (sample_pass_of 70 0); lia|]|].
  { right. left. apply lookup_insert_eq. }
  eapply consistent_cons; [apply step_other; [intros []|done]|].
  eapply consistent_cons; [apply step_resize|].
  eapply consistent_cons; [eapply (step_pass _ _ (sample_epoch 71)); [done|done|apply (sample_pass_of 71 0); lia|by left]|].
  constructor.
Qed.

Lemma batch_paints_the_same_witness :
  ∃ d1 out1 d2 out2, decode_each decoder_new sample_stream = Ok (d1, out1)
    ∧ decode_batch decoder_new sample_stream = Ok (d2, out2)
    ∧ views ∅ out1 = views ∅ out2
    ∧ d1.(td_cdf53) = d2.(td_cdf53) ∧ d1.(td_palettes) = d2.(td_palettes)
    ∧ d2.(td_pending).(pq_tiles) = ∅.
Proof.
  apply (batch_paints_the_same ∅ decoder_new ∅ sample_stream decoder_new_ok); [|exact sample_consistent].
  repeat first [done | constructor].
Defined.

(** ** Slots *)

Lemma fill_rows_from_Ok f ys out out' :
  fill_rows_from f ys out = Ok out' → ∀ y, y ∈ ys → ∃ row, f y = Ok row.
Proof.
  revert out. induction ys as [|y0 ys IH]; intros out H y Hy; [by apply not_elem_of_nil in Hy|].
  cbn [fill_rows_from] in H. destruct (f y0) as [row| |] eqn:E; [|done..]. rewrite bind_Ok in H.
  destruct (put_row out y0 row) as [out1| |]; [|done..]. rewrite bind_Ok in H.
  apply elem_of_cons in Hy as [->|Hy]; [eauto|by eapply IH].
Qed.

Lemma collect_fixed {A} (f : A → outcome unit (list Z)) n l pxs :
  (∀ a px, f a = Ok px → length px = n) → collect f l = Ok pxs → length (concat pxs) = (length l * n)%nat.
Proof.
  intros Hf. revert pxs. induction l as [|a l IH]; intros pxs; cbn [collect]; [by intros [= <-]|].
  destruct (f a) as [px| |] eqn:E; [|done..]. rewrite bind_Ok.
  destruct (collect f l) as [pxs'| |]; [|done..]. rewrite bind_Ok. intros [= <-]. cbn [concat length].
  rewrite length_app, (Hf a px E), (IH pxs') by done. lia.
Qed.

Lemma opaque_rgba_length q px : opaque_rgba q = Ok px → length px = 4%nat.
Proof.
  unfold opaque_rgba. destruct (idx q 2); [|done..]. rewrite bind_Ok. destruct (idx q 1); [|done..].
  rewrite bind_Ok. destruct (idx q 0); [|done..]. rewrite bind_Ok. by intros [= <-].
Qed.

Lemma pair_pixels_length palette pair px : pair_pixels palette pair = Ok px → length px = 8%nat.
Proof.
  unfold pair_pixels. destruct (idx palette (Z.to_nat (Z.land pair 15))) as [lo| |]; [|done..]. rewrite bind_Ok.
  destruct (idx palette (Z.to_nat (Z.shiftr pair 4))) as [hi| |]; [|done..]. rewrite bind_Ok.
  destruct (opaque_rgba lo) as [l| |] eqn:El; [|done..]. rewrite bind_Ok.
  destruct (opaque_rgba hi) as [h| |] eqn:Eh; [|done..]. rewrite bind_Ok. intros [= <-].
  by rewrite length_app, (opaque_rgba_length lo l), (opaque_rgba_length hi h).
Qed.

Lemma pal_row_length palette indices y row : pal_row palette indices y = Ok row → length row = TILE_ROW_BYTES.
Proof.
  unfold pal_row. set (src := if (_ <=? _)%nat then _ else _).
  assert (length src ≤ 16)%nat as Hs.
  { unfold src. destruct (_ <=? _)%nat; [rewrite length_take|cbn]; lia. }
  destruct (collect (pair_pixels palette) src) as [pxs| |] eqn:E; [|done..]. rewrite bind_Ok.
  intros [= <-].
  rewrite length_app, length_replicate, (collect_fixed _ 8 _ _ (pair_pixels_length palette) E).
  unfold TILE_ROW_BYTES, TILE_SIZE. lia.
Qed.

(** Whatever can be written to a vector is 32 whole rows. *)
Lemma fill_rows_vec f rgba :
  (∀ y row, f y = Ok row → length row = TILE_ROW_BYTES) → into_vec (fill_rows f) = Ok rgba →
  ∃ g, (∀ y, (y < TILE_SIZE)%nat → length (g y) = TILE_ROW_BYTES)
    ∧ (∀ out, fill_rows f out = fill_rows (λ y, Ok (g y)) out) ∧ rgba = concat (g <$> seq 0 TILE_SIZE).
Proof.
  intros Hl H. exists (λ y, match f y with Ok row => row | _ => [] end).
  assert (∀ y, (y < TILE_SIZE)%nat → ∃ row, f y = Ok row) as Hf.
  { intros y Hy. unfold into_vec in H. destruct (tile_out_new _ _) as [out| |]; [|done..]. rewrite bind_Ok in H.
    destruct (fill_rows f out) as [out'| |] eqn:E; [|done..]. apply (fill_rows_from_Ok _ _ _ _ E).
    apply elem_of_seq. lia. }
  assert (∀ out, fill_rows f out = fill_rows (λ y, Ok match f y with Ok row => row | _ => [] end) out) as He.
  { intros out. apply fill_rows_ext. intros y Hy. by destruct (Hf y Hy) as [row ->]. }
  split_and!; [|done|].
  - intros y Hy. destruct (Hf y Hy) as [row Hr]. rewrite Hr. by eapply Hl.
  - apply (Ok_inj (E:=unit)). rewrite <-H, <-into_vec_rows.
    + unfold into_vec. destruct (tile_out_new _ _); [|done..]. by rewrite !bind_Ok, He.
    + intros y Hy. destruct (Hf y Hy) as [row Hr]. rewrite Hr. by eapply Hl.
Qed.

Lemma pixels_rows px rgba :
  into_vec (write_pixels px) = Ok rgba →
  ∃ g, (∀ y, (y < TILE_SIZE)%nat → length (g y) = TILE_ROW_BYTES)
    ∧ (∀ out, write_pixels px out = fill_rows (λ y, Ok (g y)) out) ∧ rgba = concat (g <$> seq 0 TILE_SIZE).
Proof.
  intros H. destruct px as [quad|palette indices|bgr].
  - destruct (opaque_rgba quad) as [px| |] eqn:E.
    2,3: unfold into_vec in H; destruct (tile_out_new _ _); try done; rewrite bind_Ok in H;
      unfold write_pixels, solid_row in H; by rewrite E in H.
    assert (∀ out, write_pixels (PxSolid quad) out
      = fill_rows (λ _, Ok (concat (replicate TILE_SIZE px))) out) as Hw.
    { intros out. unfold write_pixels, solid_row. by rewrite E. }
    assert (length (concat (replicate TILE_SIZE px)) = TILE_ROW_BYTES) as Hl.
    { pose proof (opaque_rgba_length _ _ E) as Hl. destruct px as [|a [|b [|c [|d [|]]]]]; done. }
    destruct (fill_rows_vec (λ _, Ok (concat (replicate TILE_SIZE px))) rgba) as (g & Hg & Hgw & Hr).
    + by intros y row [= <-].
    + rewrite <-H. unfold into_vec. destruct (tile_out_new _ _); [|done..]. by rewrite !bind_Ok, Hw.
    + exists g. split_and!; [done| |done]. intros out. by rewrite Hw.
  - apply fill_rows_vec; [|exact H]. intros y row. apply pal_row_length.
  - destruct (Nat.eqb_spec (length bgr) (1024 * 3)) as [Hlen|Hne].
    2: { unfold into_vec in H. destruct (tile_out_new _ _); try done. rewrite bind_Ok in H.
         unfold write_pixels, write_bgr_rows, assert_ in H. by rewrite (proj2 (Nat.eqb_neq _ _)) in H. }
    set (f := λ y : nat, src ← slice bgr (y * 96) (y * 96 + 96); Ok (E:=unit) (rgba_of_bgr src)).
    assert (∀ out, write_pixels (PxCdf53 bgr) out = fill_rows f out) as Hw.
    { intros out. unfold write_pixels, write_bgr_rows, assert_. by rewrite Hlen, Nat.eqb_refl. }
    destruct (fill_rows_vec f rgba) as (g & Hg & Hgw & Hr).
    + intros y row. unfold f. destruct (slice bgr (y * 96) (y * 96 + 96)) as [src| |] eqn:E; [|done..].
      rewrite bind_Ok. intros [= <-]. unfold slice in E. destruct (_ && _) eqn:Hb; [|done].
      apply andb_true_iff in Hb as [_ Hb%Nat.leb_le].
      apply Ok_inj in E as <-. by rewrite (rgba_of_bgr_length 32) by lens.
    + rewrite <-H. unfold into_vec. destruct (tile_out_new _ _); [|done..]. by rewrite !bind_Ok, Hw.
    + exists g. split_and!; [done| |done]. intros out. by rewrite Hw.
Qed.

(** A tile decoded into a slot has the pixels of the tile decoded into a vector,
    row by row at the slot's stride, and no byte outside its 32 rows of 128
    changes, so neighbouring tiles in the same surface are untouched. *)
Theorem slot_pixels_exact px rgba out :
  into_vec (write_pixels px) = Ok rgba → tile_fits out →
  ∃ out', write_pixels px out = Ok out' ∧ length out'.(to_mem) = length out.(to_mem)
    ∧ (∀ y i, (y < TILE_SIZE)%nat → (i < TILE_ROW_BYTES)%nat →
         out'.(to_mem) !! (out.(to_base) + y * out.(to_stride) + i)%nat = rgba !! (y * TILE_ROW_BYTES + i)%nat)
    ∧ (∀ p, (∀ y i, (y < TILE_SIZE)%nat → (i < TILE_ROW_BYTES)%nat →
               p ≠ (out.(to_base) + y * out.(to_stride) + i)%nat) →
         out'.(to_mem) !! p = out.(to_mem) !! p).
Proof.
  intros Hv Hf. destruct (pixels_rows px rgba Hv) as (g & Hg & Hw & ->). rewrite Hw.
  destruct (fill_rows_written g out Hf Hg) as (out' & H & Hl & _ & _ & Hr & Ho). exists out'.
  split; [exact H|]. split; [exact Hl|]. split; [|exact Ho]. intros y i Hy Hi.
  rewrite (concat_rows_lookup g TILE_SIZE 0); [|intros y' Hy'; apply Hg; lia|exact Hy|exact Hi].
  rewrite Nat.add_0_l. exact (Hr y i Hy Hi).
Qed.

Lemma slot_pixels_exact_witness :
  let out := mkTileOut (replicate (64 * 128) 7) 128 256 in
  ∃ out', write_pixels (PxSolid [10; 20; 30; 40]) out = Ok out' ∧ length out'.(to_mem) = length out.(to_mem)
    ∧ (∀ y i, (y < TILE_SIZE)%nat → (i < TILE_ROW_BYTES)%nat →
         out'.(to_mem) !! (out.(to_base) + y * out.(to_stride) + i)%nat
         = concat ((λ _, concat (replicate 32 [30; 20; 10; 255])) <$> seq 0 TILE_SIZE) !! (y * TILE_ROW_BYTES + i)%nat)
    ∧ (∀ p, (∀ y i, (y < TILE_SIZE)%nat → (i < TILE_ROW_BYTES)%nat →
               p ≠ (out.(to_base) + y * out.(to_stride) + i)%nat) →
         out'.(to_mem) !! p = out.(to_mem) !! p).
Proof.
  apply (slot_pixels_exact (PxSolid [10; 20; 30; 40]) (concat ((λ _, concat (replicate 32 [30; 20; 10; 255])) <$> seq 0 TILE_SIZE))
    (mkTileOut (replicate (64 * 128) 7) 128 256)); [|].
  - exact (into_vec_rows (λ _, concat (replicate 32 [30; 20; 10; 255])) (λ _ _, eq_refl)).
  - split; apply Nat.leb_le; reflexivity.
Defined.
