(* ===== verification/Client.v ===== *)
(** * The client core: its state, its timers and its answers to the decoder

    Models [ghostframe-client-core/src/lib.rs] (the state, construction, the NACK
    debounce queue, the tail sweep, [on_timeout], [poll_timeout] and
    [h264_result]) and the event types of [event.rs].  The handlers of received
    datagrams are in [FrameAssembly] and [Reassembly].

    [HashMap]s are finite maps; the one loop over a [HashMap] ([tail_sweep])
    only updates distinct keys and inserts into the ordered NACK queue, so its
    order does not matter.  The [BTreeMap] of pending NACKs is an association
    list kept in key order.  [u64] sums of the clock wrap. *)

From S2P Require Import Prelude Wire Control Prevalidate TileState Event TileDecoder PalRle Parity Batchers Gate LossTracking Coverage.
From stdpp Require Import base option numbers list gmap.

Local Open Scope Z_scope.

(** ** Constants *)

Definition PARITY_WINDOW : nat := 40.
Definition NACK_DEBOUNCE_US : Z := 50000.
Definition TAIL_FALLBACK_US : Z := 1500000.
Definition MAX_TAIL_SWEEP_ATTEMPTS : Z := 6.
Definition TAIL_SWEEP_INTERVAL_US : Z := 500000.
Definition FEEDBACK_INTERVAL_US : Z := 100000.
Definition MAX_FRAME_DIMENSION : Z := 8192.
Definition MAX_FRAME_FRAGMENTS : Z := 16384.
Definition MAX_H264_ACCESS_UNIT_BYTES : nat := Z.to_nat (16 * 1024 * 1024).

Record PendingNack : Type := mkPendingNack {
  pn_frame_seq : Z; pn_tile_x : Z; pn_tile_y : Z; pn_pass_idx : Z;
}.

(** [frame_assembly.rs]: one in-progress access unit. *)
Record FrameAssembly : Type := mkFrameAssembly {
  as_header : FrameHeader;
  as_created_us : Z;
  as_fragments : list (option (list Z));
  as_received : nat;
  as_bytes : nat;
}.

Record ClientDisplay : Type := mkClientDisplay {
  cd_max_width : Z; cd_max_height : Z; cd_scale_milli : Z; cd_mm_width : Z; cd_mm_height : Z;
}.

Record ClientConfig : Type := mkClientConfig {
  cf_indices_raw_enabled : bool;
  cf_supports_h264 : bool;
  cf_h264_acked_ref : bool;
  cf_tile_delivery_decoded : bool;
  cf_cdf53_wire : bool;
  cf_display : option ClientDisplay;
}.

(** ** The state *)

Record ClientCore : Type := mkClientCore {
  cc_outbox : list PollOutput;
  cc_frame_dims : option (Z * Z);
  cc_parity_decoder : ParityDecoder;
  cc_wire_loss : WireLossTracker;
  cc_ack_batcher : AckBatcher;
  cc_nack_batcher : NackBatcher;
  cc_decode_error_batcher : DecodeErrorBatcher;
  cc_loss_tracker : LossTracker;
  cc_palette_shadow : PaletteShadow;
  cc_cdf53_coverage : gmap (Z * Z) CoverageEntry;
  cc_newest_received_label : option Z;
  cc_latest_frame_seq : Z;
  cc_frame_assemblies : gmap Z FrameAssembly;
  cc_latest_full_frame_seq : Z;
  cc_h264_gate : H264Gate;
  cc_frame_acks : FrameAckWindow;
  cc_send_frame_acks : bool;
  cc_decoder_broken : bool;
  cc_decoder_epoch_start : option Z;
  cc_h264_not_output_total : Z;
  cc_h264_not_output_streak : Z;
  cc_pending_nacks : list ((Z * Z * Z) * PendingNack);
  cc_pending_nack_deadline_us : option Z;
  cc_next_tail_sweep_us : Z;
  cc_next_feedback_us : Z;
  cc_decoder : option TileDecoder;
  cc_cdf53_wire : bool;
  cc_datagrams_tile : Z;
  cc_datagrams_frame : Z;
}.

(** Field updates. *)
Definition set_outbox (c : ClientCore) v : ClientCore :=
  mkClientCore v c.(cc_frame_dims) c.(cc_parity_decoder) c.(cc_wire_loss) c.(cc_ack_batcher)
    c.(cc_nack_batcher) c.(cc_decode_error_batcher) c.(cc_loss_tracker) c.(cc_palette_shadow)
    c.(cc_cdf53_coverage) c.(cc_newest_received_label) c.(cc_latest_frame_seq)
    c.(cc_frame_assemblies) c.(cc_latest_full_frame_seq) c.(cc_h264_gate) c.(cc_frame_acks)
    c.(cc_send_frame_acks) c.(cc_decoder_broken) c.(cc_decoder_epoch_start)
    c.(cc_h264_not_output_total) c.(cc_h264_not_output_streak) c.(cc_pending_nacks)
    c.(cc_pending_nack_deadline_us) c.(cc_next_tail_sweep_us) c.(cc_next_feedback_us)
    c.(cc_decoder) c.(cc_cdf53_wire) c.(cc_datagrams_tile) c.(cc_datagrams_frame).
Definition set_frame_dims (c : ClientCore) v : ClientCore :=
  mkClientCore c.(cc_outbox) v c.(cc_parity_decoder) c.(cc_wire_loss) c.(cc_ack_batcher)
    c.(cc_nack_batcher) c.(cc_decode_error_batcher) c.(cc_loss_tracker) c.(cc_palette_shadow)
    c.(cc_cdf53_coverage) c.(cc_newest_received_label) c.(cc_latest_frame_seq)
    c.(cc_frame_assemblies) c.(cc_latest_full_frame_seq) c.(cc_h264_gate) c.(cc_frame_acks)
    c.(cc_send_frame_acks) c.(cc_decoder_broken) c.(cc_decoder_epoch_start)
    c.(cc_h264_not_output_total) c.(cc_h264_not_output_streak) c.(cc_pending_nacks)
    c.(cc_pending_nack_deadline_us) c.(cc_next_tail_sweep_us) c.(cc_next_feedback_us)
    c.(cc_decoder) c.(cc_cdf53_wire) c.(cc_datagrams_tile) c.(cc_datagrams_frame).
Definition set_parity_decoder (c : ClientCore) v : ClientCore :=
  mkClientCore c.(cc_outbox) c.(cc_frame_dims) v c.(cc_wire_loss) c.(cc_ack_batcher)
    c.(cc_nack_batcher) c.(cc_decode_error_batcher) c.(cc_loss_tracker) c.(cc_palette_shadow)
    c.(cc_cdf53_coverage) c.(cc_newest_received_label) c.(cc_latest_frame_seq)
    c.(cc_frame_assemblies) c.(cc_latest_full_frame_seq) c.(cc_h264_gate) c.(cc_frame_acks)
    c.(cc_send_frame_acks) c.(cc_decoder_broken) c.(cc_decoder_epoch_start)
    c.(cc_h264_not_output_total) c.(cc_h264_not_output_streak) c.(cc_pending_nacks)
    c.(cc_pending_nack_deadline_us) c.(cc_next_tail_sweep_us) c.(cc_next_feedback_us)
    c.(cc_decoder) c.(cc_cdf53_wire) c.(cc_datagrams_tile) c.(cc_datagrams_frame).
Definition set_wire_loss (c : ClientCore) v : ClientCore :=
  mkClientCore c.(cc_outbox) c.(cc_frame_dims) c.(cc_parity_decoder) v c.(cc_ack_batcher)
    c.(cc_nack_batcher) c.(cc_decode_error_batcher) c.(cc_loss_tracker) c.(cc_palette_shadow)
    c.(cc_cdf53_coverage) c.(cc_newest_received_label) c.(cc_latest_frame_seq)
    c.(cc_frame_assemblies) c.(cc_latest_full_frame_seq) c.(cc_h264_gate) c.(cc_frame_acks)
    c.(cc_send_frame_acks) c.(cc_decoder_broken) c.(cc_decoder_epoch_start)
    c.(cc_h264_not_output_total) c.(cc_h264_not_output_streak) c.(cc_pending_nacks)
    c.(cc_pending_nack_deadline_us) c.(cc_next_tail_sweep_us) c.(cc_next_feedback_us)
    c.(cc_decoder) c.(cc_cdf53_wire) c.(cc_datagrams_tile) c.(cc_datagrams_frame).
Definition set_ack_batcher (c : ClientCore) v : ClientCore :=
  mkClientCore c.(cc_outbox) c.(cc_frame_dims) c.(cc_parity_decoder) c.(cc_wire_loss) v
    c.(cc_nack_batcher) c.(cc_decode_error_batcher) c.(cc_loss_tracker) c.(cc_palette_shadow)
    c.(cc_cdf53_coverage) c.(cc_newest_received_label) c.(cc_latest_frame_seq)
    c.(cc_frame_assemblies) c.(cc_latest_full_frame_seq) c.(cc_h264_gate) c.(cc_frame_acks)
    c.(cc_send_frame_acks) c.(cc_decoder_broken) c.(cc_decoder_epoch_start)
    c.(cc_h264_not_output_total) c.(cc_h264_not_output_streak) c.(cc_pending_nacks)
    c.(cc_pending_nack_deadline_us) c.(cc_next_tail_sweep_us) c.(cc_next_feedback_us)
    c.(cc_decoder) c.(cc_cdf53_wire) c.(cc_datagrams_tile) c.(cc_datagrams_frame).
Definition set_nack_batcher (c : ClientCore) v : ClientCore :=
  mkClientCore c.(cc_outbox) c.(cc_frame_dims) c.(cc_parity_decoder) c.(cc_wire_loss)
    c.(cc_ack_batcher) v c.(cc_decode_error_batcher) c.(cc_loss_tracker) c.(cc_palette_shadow)
    c.(cc_cdf53_coverage) c.(cc_newest_received_label) c.(cc_latest_frame_seq)
    c.(cc_frame_assemblies) c.(cc_latest_full_frame_seq) c.(cc_h264_gate) c.(cc_frame_acks)
    c.(cc_send_frame_acks) c.(cc_decoder_broken) c.(cc_decoder_epoch_start)
    c.(cc_h264_not_output_total) c.(cc_h264_not_output_streak) c.(cc_pending_nacks)
    c.(cc_pending_nack_deadline_us) c.(cc_next_tail_sweep_us) c.(cc_next_feedback_us)
    c.(cc_decoder) c.(cc_cdf53_wire) c.(cc_datagrams_tile) c.(cc_datagrams_frame).
Definition set_decode_error_batcher (c : ClientCore) v : ClientCore :=
  mkClientCore c.(cc_outbox) c.(cc_frame_dims) c.(cc_parity_decoder) c.(cc_wire_loss)
    c.(cc_ack_batcher) c.(cc_nack_batcher) v c.(cc_loss_tracker) c.(cc_palette_shadow)
    c.(cc_cdf53_coverage) c.(cc_newest_received_label) c.(cc_latest_frame_seq)
    c.(cc_frame_assemblies) c.(cc_latest_full_frame_seq) c.(cc_h264_gate) c.(cc_frame_acks)
    c.(cc_send_frame_acks) c.(cc_decoder_broken) c.(cc_decoder_epoch_start)
    c.(cc_h264_not_output_total) c.(cc_h264_not_output_streak) c.(cc_pending_nacks)
    c.(cc_pending_nack_deadline_us) c.(cc_next_tail_sweep_us) c.(cc_next_feedback_us)
    c.(cc_decoder) c.(cc_cdf53_wire) c.(cc_datagrams_tile) c.(cc_datagrams_frame).
Definition set_loss_tracker (c : ClientCore) v : ClientCore :=
  mkClientCore c.(cc_outbox) c.(cc_frame_dims) c.(cc_parity_decoder) c.(cc_wire_loss)
    c.(cc_ack_batcher) c.(cc_nack_batcher) c.(cc_decode_error_batcher) v c.(cc_palette_shadow)
    c.(cc_cdf53_coverage) c.(cc_newest_received_label) c.(cc_latest_frame_seq)
    c.(cc_frame_assemblies) c.(cc_latest_full_frame_seq) c.(cc_h264_gate) c.(cc_frame_acks)
    c.(cc_send_frame_acks) c.(cc_decoder_broken) c.(cc_decoder_epoch_start)
    c.(cc_h264_not_output_total) c.(cc_h264_not_output_streak) c.(cc_pending_nacks)
    c.(cc_pending_nack_deadline_us) c.(cc_next_tail_sweep_us) c.(cc_next_feedback_us)
    c.(cc_decoder) c.(cc_cdf53_wire) c.(cc_datagrams_tile) c.(cc_datagrams_frame).
Definition set_palette_shadow (c : ClientCore) v : ClientCore :=
  mkClientCore c.(cc_outbox) c.(cc_frame_dims) c.(cc_parity_decoder) c.(cc_wire_loss)
    c.(cc_ack_batcher) c.(cc_nack_batcher) c.(cc_decode_error_batcher) c.(cc_loss_tracker) v
    c.(cc_cdf53_coverage) c.(cc_newest_received_label) c.(cc_latest_frame_seq)
    c.(cc_frame_assemblies) c.(cc_latest_full_frame_seq) c.(cc_h264_gate) c.(cc_frame_acks)
    c.(cc_send_frame_acks) c.(cc_decoder_broken) c.(cc_decoder_epoch_start)
    c.(cc_h264_not_output_total) c.(cc_h264_not_output_streak) c.(cc_pending_nacks)
    c.(cc_pending_nack_deadline_us) c.(cc_next_tail_sweep_us) c.(cc_next_feedback_us)
    c.(cc_decoder) c.(cc_cdf53_wire) c.(cc_datagrams_tile) c.(cc_datagrams_frame).
Definition set_cdf53_coverage (c : ClientCore) v : ClientCore :=
  mkClientCore c.(cc_outbox) c.(cc_frame_dims) c.(cc_parity_decoder) c.(cc_wire_loss)
    c.(cc_ack_batcher) c.(cc_nack_batcher) c.(cc_decode_error_batcher) c.(cc_loss_tracker)
    c.(cc_palette_shadow) v c.(cc_newest_received_label) c.(cc_latest_frame_seq)
    c.(cc_frame_assemblies) c.(cc_latest_full_frame_seq) c.(cc_h264_gate) c.(cc_frame_acks)
    c.(cc_send_frame_acks) c.(cc_decoder_broken) c.(cc_decoder_epoch_start)
    c.(cc_h264_not_output_total) c.(cc_h264_not_output_streak) c.(cc_pending_nacks)
    c.(cc_pending_nack_deadline_us) c.(cc_next_tail_sweep_us) c.(cc_next_feedback_us)
    c.(cc_decoder) c.(cc_cdf53_wire) c.(cc_datagrams_tile) c.(cc_datagrams_frame).
Definition set_newest_received_label (c : ClientCore) v : ClientCore :=
  mkClientCore c.(cc_outbox) c.(cc_frame_dims) c.(cc_parity_decoder) c.(cc_wire_loss)
    c.(cc_ack_batcher) c.(cc_nack_batcher) c.(cc_decode_error_batcher) c.(cc_loss_tracker)
    c.(cc_palette_shadow) c.(cc_cdf53_coverage) v c.(cc_latest_frame_seq) c.(cc_frame_assemblies)
    c.(cc_latest_full_frame_seq) c.(cc_h264_gate) c.(cc_frame_acks) c.(cc_send_frame_acks)
    c.(cc_decoder_broken) c.(cc_decoder_epoch_start) c.(cc_h264_not_output_total)
    c.(cc_h264_not_output_streak) c.(cc_pending_nacks) c.(cc_pending_nack_deadline_us)
    c.(cc_next_tail_sweep_us) c.(cc_next_feedback_us) c.(cc_decoder) c.(cc_cdf53_wire)
    c.(cc_datagrams_tile) c.(cc_datagrams_frame).
Definition set_latest_frame_seq (c : ClientCore) v : ClientCore :=
  mkClientCore c.(cc_outbox) c.(cc_frame_dims) c.(cc_parity_decoder) c.(cc_wire_loss)
    c.(cc_ack_batcher) c.(cc_nack_batcher) c.(cc_decode_error_batcher) c.(cc_loss_tracker)
    c.(cc_palette_shadow) c.(cc_cdf53_coverage) c.(cc_newest_received_label) v
    c.(cc_frame_assemblies) c.(cc_latest_full_frame_seq) c.(cc_h264_gate) c.(cc_frame_acks)
    c.(cc_send_frame_acks) c.(cc_decoder_broken) c.(cc_decoder_epoch_start)
    c.(cc_h264_not_output_total) c.(cc_h264_not_output_streak) c.(cc_pending_nacks)
    c.(cc_pending_nack_deadline_us) c.(cc_next_tail_sweep_us) c.(cc_next_feedback_us)
    c.(cc_decoder) c.(cc_cdf53_wire) c.(cc_datagrams_tile) c.(cc_datagrams_frame).
Definition set_frame_assemblies (c : ClientCore) v : ClientCore :=
  mkClientCore c.(cc_outbox) c.(cc_frame_dims) c.(cc_parity_decoder) c.(cc_wire_loss)
    c.(cc_ack_batcher) c.(cc_nack_batcher) c.(cc_decode_error_batcher) c.(cc_loss_tracker)
    c.(cc_palette_shadow) c.(cc_cdf53_coverage) c.(cc_newest_received_label)
    c.(cc_latest_frame_seq) v c.(cc_latest_full_frame_seq) c.(cc_h264_gate) c.(cc_frame_acks)
    c.(cc_send_frame_acks) c.(cc_decoder_broken) c.(cc_decoder_epoch_start)
    c.(cc_h264_not_output_total) c.(cc_h264_not_output_streak) c.(cc_pending_nacks)
    c.(cc_pending_nack_deadline_us) c.(cc_next_tail_sweep_us) c.(cc_next_feedback_us)
    c.(cc_decoder) c.(cc_cdf53_wire) c.(cc_datagrams_tile) c.(cc_datagrams_frame).
Definition set_latest_full_frame_seq (c : ClientCore) v : ClientCore :=
  mkClientCore c.(cc_outbox) c.(cc_frame_dims) c.(cc_parity_decoder) c.(cc_wire_loss)
    c.(cc_ack_batcher) c.(cc_nack_batcher) c.(cc_decode_error_batcher) c.(cc_loss_tracker)
    c.(cc_palette_shadow) c.(cc_cdf53_coverage) c.(cc_newest_received_label)
    c.(cc_latest_frame_seq) c.(cc_frame_assemblies) v c.(cc_h264_gate) c.(cc_frame_acks)
    c.(cc_send_frame_acks) c.(cc_decoder_broken) c.(cc_decoder_epoch_start)
    c.(cc_h264_not_output_total) c.(cc_h264_not_output_streak) c.(cc_pending_nacks)
    c.(cc_pending_nack_deadline_us) c.(cc_next_tail_sweep_us) c.(cc_next_feedback_us)
    c.(cc_decoder) c.(cc_cdf53_wire) c.(cc_datagrams_tile) c.(cc_datagrams_frame).
Definition set_h264_gate (c : ClientCore) v : ClientCore :=
  mkClientCore c.(cc_outbox) c.(cc_frame_dims) c.(cc_parity_decoder) c.(cc_wire_loss)
    c.(cc_ack_batcher) c.(cc_nack_batcher) c.(cc_decode_error_batcher) c.(cc_loss_tracker)
    c.(cc_palette_shadow) c.(cc_cdf53_coverage) c.(cc_newest_received_label)
    c.(cc_latest_frame_seq) c.(cc_frame_assemblies) c.(cc_latest_full_frame_seq) v
    c.(cc_frame_acks) c.(cc_send_frame_acks) c.(cc_decoder_broken) c.(cc_decoder_epoch_start)
    c.(cc_h264_not_output_total) c.(cc_h264_not_output_streak) c.(cc_pending_nacks)
    c.(cc_pending_nack_deadline_us) c.(cc_next_tail_sweep_us) c.(cc_next_feedback_us)
    c.(cc_decoder) c.(cc_cdf53_wire) c.(cc_datagrams_tile) c.(cc_datagrams_frame).
Definition set_frame_acks (c : ClientCore) v : ClientCore :=
  mkClientCore c.(cc_outbox) c.(cc_frame_dims) c.(cc_parity_decoder) c.(cc_wire_loss)
    c.(cc_ack_batcher) c.(cc_nack_batcher) c.(cc_decode_error_batcher) c.(cc_loss_tracker)
    c.(cc_palette_shadow) c.(cc_cdf53_coverage) c.(cc_newest_received_label)
    c.(cc_latest_frame_seq) c.(cc_frame_assemblies) c.(cc_latest_full_frame_seq) c.(cc_h264_gate)
    v c.(cc_send_frame_acks) c.(cc_decoder_broken) c.(cc_decoder_epoch_start)
    c.(cc_h264_not_output_total) c.(cc_h264_not_output_streak) c.(cc_pending_nacks)
    c.(cc_pending_nack_deadline_us) c.(cc_next_tail_sweep_us) c.(cc_next_feedback_us)
    c.(cc_decoder) c.(cc_cdf53_wire) c.(cc_datagrams_tile) c.(cc_datagrams_frame).
Definition set_decoder_broken (c : ClientCore) v : ClientCore :=
  mkClientCore c.(cc_outbox) c.(cc_frame_dims) c.(cc_parity_decoder) c.(cc_wire_loss)
    c.(cc_ack_batcher) c.(cc_nack_batcher) c.(cc_decode_error_batcher) c.(cc_loss_tracker)
    c.(cc_palette_shadow) c.(cc_cdf53_coverage) c.(cc_newest_received_label)
    c.(cc_latest_frame_seq) c.(cc_frame_assemblies) c.(cc_latest_full_frame_seq) c.(cc_h264_gate)
    c.(cc_frame_acks) c.(cc_send_frame_acks) v c.(cc_decoder_epoch_start)
    c.(cc_h264_not_output_total) c.(cc_h264_not_output_streak) c.(cc_pending_nacks)
    c.(cc_pending_nack_deadline_us) c.(cc_next_tail_sweep_us) c.(cc_next_feedback_us)
    c.(cc_decoder) c.(cc_cdf53_wire) c.(cc_datagrams_tile) c.(cc_datagrams_frame).
Definition set_decoder_epoch_start (c : ClientCore) v : ClientCore :=
  mkClientCore c.(cc_outbox) c.(cc_frame_dims) c.(cc_parity_decoder) c.(cc_wire_loss)
    c.(cc_ack_batcher) c.(cc_nack_batcher) c.(cc_decode_error_batcher) c.(cc_loss_tracker)
    c.(cc_palette_shadow) c.(cc_cdf53_coverage) c.(cc_newest_received_label)
    c.(cc_latest_frame_seq) c.(cc_frame_assemblies) c.(cc_latest_full_frame_seq) c.(cc_h264_gate)
    c.(cc_frame_acks) c.(cc_send_frame_acks) c.(cc_decoder_broken) v c.(cc_h264_not_output_total)
    c.(cc_h264_not_output_streak) c.(cc_pending_nacks) c.(cc_pending_nack_deadline_us)
    c.(cc_next_tail_sweep_us) c.(cc_next_feedback_us) c.(cc_decoder) c.(cc_cdf53_wire)
    c.(cc_datagrams_tile) c.(cc_datagrams_frame).
Definition set_h264_not_output_total (c : ClientCore) v : ClientCore :=
  mkClientCore c.(cc_outbox) c.(cc_frame_dims) c.(cc_parity_decoder) c.(cc_wire_loss)
    c.(cc_ack_batcher) c.(cc_nack_batcher) c.(cc_decode_error_batcher) c.(cc_loss_tracker)
    c.(cc_palette_shadow) c.(cc_cdf53_coverage) c.(cc_newest_received_label)
    c.(cc_latest_frame_seq) c.(cc_frame_assemblies) c.(cc_latest_full_frame_seq) c.(cc_h264_gate)
    c.(cc_frame_acks) c.(cc_send_frame_acks) c.(cc_decoder_broken) c.(cc_decoder_epoch_start) v
    c.(cc_h264_not_output_streak) c.(cc_pending_nacks) c.(cc_pending_nack_deadline_us)
    c.(cc_next_tail_sweep_us) c.(cc_next_feedback_us) c.(cc_decoder) c.(cc_cdf53_wire)
    c.(cc_datagrams_tile) c.(cc_datagrams_frame).
Definition set_h264_not_output_streak (c : ClientCore) v : ClientCore :=
  mkClientCore c.(cc_outbox) c.(cc_frame_dims) c.(cc_parity_decoder) c.(cc_wire_loss)
    c.(cc_ack_batcher) c.(cc_nack_batcher) c.(cc_decode_error_batcher) c.(cc_loss_tracker)
    c.(cc_palette_shadow) c.(cc_cdf53_coverage) c.(cc_newest_received_label)
    c.(cc_latest_frame_seq) c.(cc_frame_assemblies) c.(cc_latest_full_frame_seq) c.(cc_h264_gate)
    c.(cc_frame_acks) c.(cc_send_frame_acks) c.(cc_decoder_broken) c.(cc_decoder_epoch_start)
    c.(cc_h264_not_output_total) v c.(cc_pending_nacks) c.(cc_pending_nack_deadline_us)
    c.(cc_next_tail_sweep_us) c.(cc_next_feedback_us) c.(cc_decoder) c.(cc_cdf53_wire)
    c.(cc_datagrams_tile) c.(cc_datagrams_frame).
Definition set_pending_nacks (c : ClientCore) v : ClientCore :=
  mkClientCore c.(cc_outbox) c.(cc_frame_dims) c.(cc_parity_decoder) c.(cc_wire_loss)
    c.(cc_ack_batcher) c.(cc_nack_batcher) c.(cc_decode_error_batcher) c.(cc_loss_tracker)
    c.(cc_palette_shadow) c.(cc_cdf53_coverage) c.(cc_newest_received_label)
    c.(cc_latest_frame_seq) c.(cc_frame_assemblies) c.(cc_latest_full_frame_seq) c.(cc_h264_gate)
    c.(cc_frame_acks) c.(cc_send_frame_acks) c.(cc_decoder_broken) c.(cc_decoder_epoch_start)
    c.(cc_h264_not_output_total) c.(cc_h264_not_output_streak) v c.(cc_pending_nack_deadline_us)
    c.(cc_next_tail_sweep_us) c.(cc_next_feedback_us) c.(cc_decoder) c.(cc_cdf53_wire)
    c.(cc_datagrams_tile) c.(cc_datagrams_frame).
Definition set_pending_nack_deadline_us (c : ClientCore) v : ClientCore :=
  mkClientCore c.(cc_outbox) c.(cc_frame_dims) c.(cc_parity_decoder) c.(cc_wire_loss)
    c.(cc_ack_batcher) c.(cc_nack_batcher) c.(cc_decode_error_batcher) c.(cc_loss_tracker)
    c.(cc_palette_shadow) c.(cc_cdf53_coverage) c.(cc_newest_received_label)
    c.(cc_latest_frame_seq) c.(cc_frame_assemblies) c.(cc_latest_full_frame_seq) c.(cc_h264_gate)
    c.(cc_frame_acks) c.(cc_send_frame_acks) c.(cc_decoder_broken) c.(cc_decoder_epoch_start)
    c.(cc_h264_not_output_total) c.(cc_h264_not_output_streak) c.(cc_pending_nacks) v
    c.(cc_next_tail_sweep_us) c.(cc_next_feedback_us) c.(cc_decoder) c.(cc_cdf53_wire)
    c.(cc_datagrams_tile) c.(cc_datagrams_frame).
Definition set_next_tail_sweep_us (c : ClientCore) v : ClientCore :=
  mkClientCore c.(cc_outbox) c.(cc_frame_dims) c.(cc_parity_decoder) c.(cc_wire_loss)
    c.(cc_ack_batcher) c.(cc_nack_batcher) c.(cc_decode_error_batcher) c.(cc_loss_tracker)
    c.(cc_palette_shadow) c.(cc_cdf53_coverage) c.(cc_newest_received_label)
    c.(cc_latest_frame_seq) c.(cc_frame_assemblies) c.(cc_latest_full_frame_seq) c.(cc_h264_gate)
    c.(cc_frame_acks) c.(cc_send_frame_acks) c.(cc_decoder_broken) c.(cc_decoder_epoch_start)
    c.(cc_h264_not_output_total) c.(cc_h264_not_output_streak) c.(cc_pending_nacks)
    c.(cc_pending_nack_deadline_us) v c.(cc_next_feedback_us) c.(cc_decoder)
    c.(cc_cdf53_wire) c.(cc_datagrams_tile) c.(cc_datagrams_frame).
Definition set_next_feedback_us (c : ClientCore) v : ClientCore :=
  mkClientCore c.(cc_outbox) c.(cc_frame_dims) c.(cc_parity_decoder) c.(cc_wire_loss)
    c.(cc_ack_batcher) c.(cc_nack_batcher) c.(cc_decode_error_batcher) c.(cc_loss_tracker)
    c.(cc_palette_shadow) c.(cc_cdf53_coverage) c.(cc_newest_received_label)
    c.(cc_latest_frame_seq) c.(cc_frame_assemblies) c.(cc_latest_full_frame_seq) c.(cc_h264_gate)
    c.(cc_frame_acks) c.(cc_send_frame_acks) c.(cc_decoder_broken) c.(cc_decoder_epoch_start)
    c.(cc_h264_not_output_total) c.(cc_h264_not_output_streak) c.(cc_pending_nacks)
    c.(cc_pending_nack_deadline_us) c.(cc_next_tail_sweep_us) v c.(cc_decoder)
    c.(cc_cdf53_wire) c.(cc_datagrams_tile) c.(cc_datagrams_frame).
Definition set_datagrams_tile (c : ClientCore) v : ClientCore :=
  mkClientCore c.(cc_outbox) c.(cc_frame_dims) c.(cc_parity_decoder) c.(cc_wire_loss)
    c.(cc_ack_batcher) c.(cc_nack_batcher) c.(cc_decode_error_batcher) c.(cc_loss_tracker)
    c.(cc_palette_shadow) c.(cc_cdf53_coverage) c.(cc_newest_received_label)
    c.(cc_latest_frame_seq) c.(cc_frame_assemblies) c.(cc_latest_full_frame_seq) c.(cc_h264_gate)
    c.(cc_frame_acks) c.(cc_send_frame_acks) c.(cc_decoder_broken) c.(cc_decoder_epoch_start)
    c.(cc_h264_not_output_total) c.(cc_h264_not_output_streak) c.(cc_pending_nacks)
    c.(cc_pending_nack_deadline_us) c.(cc_next_tail_sweep_us) c.(cc_next_feedback_us)
    c.(cc_decoder) c.(cc_cdf53_wire) v c.(cc_datagrams_frame).
Definition set_datagrams_frame (c : ClientCore) v : ClientCore :=
  mkClientCore c.(cc_outbox) c.(cc_frame_dims) c.(cc_parity_decoder) c.(cc_wire_loss)
    c.(cc_ack_batcher) c.(cc_nack_batcher) c.(cc_decode_error_batcher) c.(cc_loss_tracker)
    c.(cc_palette_shadow) c.(cc_cdf53_coverage) c.(cc_newest_received_label)
    c.(cc_latest_frame_seq) c.(cc_frame_assemblies) c.(cc_latest_full_frame_seq) c.(cc_h264_gate)
    c.(cc_frame_acks) c.(cc_send_frame_acks) c.(cc_decoder_broken) c.(cc_decoder_epoch_start)
    c.(cc_h264_not_output_total) c.(cc_h264_not_output_streak) c.(cc_pending_nacks)
    c.(cc_pending_nack_deadline_us) c.(cc_next_tail_sweep_us) c.(cc_next_feedback_us)
    c.(cc_decoder) c.(cc_cdf53_wire) c.(cc_datagrams_tile) v.
Definition set_decoder (c : ClientCore) v : ClientCore :=
  mkClientCore c.(cc_outbox) c.(cc_frame_dims) c.(cc_parity_decoder) c.(cc_wire_loss)
    c.(cc_ack_batcher) c.(cc_nack_batcher) c.(cc_decode_error_batcher) c.(cc_loss_tracker)
    c.(cc_palette_shadow) c.(cc_cdf53_coverage) c.(cc_newest_received_label)
    c.(cc_latest_frame_seq) c.(cc_frame_assemblies) c.(cc_latest_full_frame_seq) c.(cc_h264_gate)
    c.(cc_frame_acks) c.(cc_send_frame_acks) c.(cc_decoder_broken) c.(cc_decoder_epoch_start)
    c.(cc_h264_not_output_total) c.(cc_h264_not_output_streak) c.(cc_pending_nacks)
    c.(cc_pending_nack_deadline_us) c.(cc_next_tail_sweep_us) c.(cc_next_feedback_us)
    v c.(cc_cdf53_wire) c.(cc_datagrams_tile) c.(cc_datagrams_frame).
Definition put_cdf53_wire (c : ClientCore) v : ClientCore :=
  mkClientCore c.(cc_outbox) c.(cc_frame_dims) c.(cc_parity_decoder) c.(cc_wire_loss)
    c.(cc_ack_batcher) c.(cc_nack_batcher) c.(cc_decode_error_batcher) c.(cc_loss_tracker)
    c.(cc_palette_shadow) c.(cc_cdf53_coverage) c.(cc_newest_received_label)
    c.(cc_latest_frame_seq) c.(cc_frame_assemblies) c.(cc_latest_full_frame_seq) c.(cc_h264_gate)
    c.(cc_frame_acks) c.(cc_send_frame_acks) c.(cc_decoder_broken) c.(cc_decoder_epoch_start)
    c.(cc_h264_not_output_total) c.(cc_h264_not_output_streak) c.(cc_pending_nacks)
    c.(cc_pending_nack_deadline_us) c.(cc_next_tail_sweep_us) c.(cc_next_feedback_us)
    c.(cc_decoder) v c.(cc_datagrams_tile) c.(cc_datagrams_frame).

(** ** Construction and small operations *)

Definition push_out (c : ClientCore) (o : PollOutput) : ClientCore :=
  set_outbox c (c.(cc_outbox) ++ [o]).

(** [if let Some(dg) = ... { self.outbox.push_back(PollOutput::Datagram(dg)) }] *)
Definition push_datagram (c : ClientCore) (dg : option (list Z)) : ClientCore :=
  match dg with Some dg => push_out c (Datagram dg) | None => c end.

(** [set_tile_delivery]'s choice: [Decoded] starts a decoder from empty state. *)
Definition decoder_for (decoded : bool) : option TileDecoder :=
  if decoded then Some decoder_new else None.

Definition client_new (config : ClientConfig) (now_us : Z) : ClientCore :=
  mkClientCore
    ([Stream (encode_hello config.(cf_indices_raw_enabled) config.(cf_supports_h264)
                config.(cf_h264_acked_ref))]
     ++ match config.(cf_display) with
        | Some d => [Stream (encode_display_info d.(cd_max_width) d.(cd_max_height) d.(cd_scale_milli)
                               d.(cd_mm_width) d.(cd_mm_height))]
        | None => []
        end)
    None (parity_new PARITY_WINDOW) wire_loss_new ack_batcher_new nack_batcher_new error_batcher_new
    loss_tracker_new shadow_new ∅ None 0 ∅ 0 gate_new frame_acks_new config.(cf_h264_acked_ref)
    false None 0 0 [] None (u64 (now_us + TAIL_SWEEP_INTERVAL_US)) (u64 (now_us + FEEDBACK_INTERVAL_US))
    (decoder_for config.(cf_tile_delivery_decoded)) config.(cf_cdf53_wire) 0 0.

Definition delivers_cdf53_wire (c : ClientCore) : bool := c.(cc_cdf53_wire) && negb (bool_decide (is_Some c.(cc_decoder))).

(** [set_cdf53_wire], [set_tile_delivery] *)
Definition set_cdf53_wire (c : ClientCore) (on : bool) : ClientCore := put_cdf53_wire c on.

Definition set_tile_delivery (c : ClientCore) (decoded : bool) : ClientCore :=
  set_decoder c (decoder_for decoded).

Definition request_display_mode (c : ClientCore) (width height : Z) : ClientCore :=
  push_out c (Stream (encode_display_mode width height)).

Definition request_reset (c : ClientCore) (reason : ResetReason) (frame_seq : Z) : ClientCore :=
  push_out c (Stream (encode_reset_request reason frame_seq)).

Definition after_gate (c : ClientCore) : ClientCore :=
  let '(g, req) := take_request c.(cc_h264_gate) in
  let c := set_h264_gate c g in
  match req with Some (reason, frame_seq) => request_reset c reason frame_seq | None => c end.

Definition push_frame_ack (c : ClientCore) (ack : FrameAck) : ClientCore :=
  push_out c (Datagram (fa_encode ack [])).

Definition poll_transmit (c : ClientCore) : ClientCore * option PollOutput :=
  match c.(cc_outbox) with
  | [] => (c, None)
  | o :: rest => (set_outbox c rest, Some o)
  end.

(** ** The decoder's answers *)

Definition record_frame (c : ClientCore) (frame_seq : Z) (decoded : bool) (now_us : Z) : ClientCore :=
  set_frame_acks c (fw_record c.(cc_frame_acks) frame_seq decoded now_us).

Definition h264_result (c : ClientCore) (frame_seq : Z) (o : H264Outcome) (now_us : Z) : ClientCore :=
  let before_boundary := c.(cc_decoder_broken)
    || match c.(cc_decoder_epoch_start) with Some e => seq_after e frame_seq | None => false end in
  let not_output := λ c,
    let c := set_h264_not_output_total c (u64 (c.(cc_h264_not_output_total) + 1)) in
    let c := set_h264_not_output_streak c (u64 (c.(cc_h264_not_output_streak) + 1)) in
    record_frame c frame_seq false now_us in
  let failed := λ c cause,
    let c := set_decoder_broken c true in
    let c := set_h264_gate c (reset c.(cc_h264_gate) cause frame_seq now_us) in
    record_frame c frame_seq false now_us in
  let c := match o with
    | Decoded => if negb before_boundary
        then record_frame (set_h264_not_output_streak c 0) frame_seq true now_us else not_output c
    | NotOutput => not_output c
    | DecodeError => failed c CauseDecoderFailure
    | NoDecoderOutcome => failed c CauseNoDecoder
    end in
  after_gate c.

(** ** Coverage NACKs: the debounce queue *)

(** The order of the keys [(pass_idx, tile_y, tile_x)] of the [BTreeMap]. *)
Definition key_lt (a b : Z * Z * Z) : bool :=
  let '(a1, a2, a3) := a in let '(b1, b2, b3) := b in
  (a1 <? b1) || ((a1 =? b1) && ((a2 <? b2) || ((a2 =? b2) && (a3 <? b3)))).

Fixpoint bt_insert {V} (k : Z * Z * Z) (v : V) (m : list ((Z * Z * Z) * V)) : list ((Z * Z * Z) * V) :=
  match m with
  | [] => [(k, v)]
  | (k', v') :: m' =>
      if key_lt k k' then (k, v) :: m
      else if key_lt k' k then (k', v') :: bt_insert k v m'
      else (k, v) :: m'
  end.

Definition queue_pass_nack (c : ClientCore) (frame_seq tile_x tile_y pass_idx now_us : Z) : ClientCore :=
  let key := (pass_idx, tile_y, tile_x) in
  if bool_decide (key ∈ c.(cc_pending_nacks).*1) then c else
  let c := set_pending_nacks c
    (bt_insert key (mkPendingNack frame_seq tile_x tile_y pass_idx) c.(cc_pending_nacks)) in
  match c.(cc_pending_nack_deadline_us) with
  | None => set_pending_nack_deadline_us c (Some (u64 (now_us + NACK_DEBOUNCE_US)))
  | Some _ => c
  end.

(** Whether a pending request is moot: the pass arrived during the debounce. *)
Definition arrived_since (c : ClientCore) (p : PendingNack) : bool :=
  match c.(cc_cdf53_coverage) !! (p.(pn_tile_x), p.(pn_tile_y)) with
  | Some cov => negb (Z.land cov.(ce_pass_mask) (bit16 p.(pn_pass_idx)) =? 0)
  | None => false
  end.

Definition nack_of (p : PendingNack) : NackEntry :=
  mkNackEntry (Z.lor p.(pn_frame_seq) TILE_DATAGRAM_FLAG) p.(pn_tile_x) p.(pn_tile_y) p.(pn_pass_idx).

Definition flush_one (now_us : Z) (st : ClientCore * bool) (p : PendingNack) : ClientCore * bool :=
  let '(c, queued) := st in
  if arrived_since c p then (c, queued) else
  let '(b, out) := nack_add c.(cc_nack_batcher) (nack_of p) now_us in
  let c := set_nack_batcher c b in
  match out with
  | Some dg => (push_out c (Datagram dg), queued)
  | None => (c, true)
  end.

Definition flush_pending_nacks (c : ClientCore) (now_us : Z) : ClientCore :=
  let c := set_pending_nack_deadline_us c None in
  match c.(cc_pending_nacks) with
  | [] => c
  | _ =>
      let pending := c.(cc_pending_nacks).*2 in
      let '(c, queued) := foldl (flush_one now_us) (set_pending_nacks c [], false) pending in
      if queued then
        let '(b, out) := nack_flush c.(cc_nack_batcher) in
        push_datagram (set_nack_batcher c b) out
      else c
  end.

(** ** The tail sweep *)

(** What a stalled tile may ask for now; [0] for nothing. *)
Definition sweep_mask (e : CoverageEntry) (now_us : Z) : Z :=
  let owed := match e.(ce_present_passes) with
    | Some present => if e.(ce_pass_mask) =? present then None
                      else Some (Z.land present (inv16 e.(ce_pass_mask)))
    | None => Some 1
    end in
  match owed with
  | None => 0
  | Some missing =>
      if sat_sub now_us e.(ce_last_change_us) <? TAIL_FALLBACK_US then 0 else
      let missing := gap_evidence_mask e missing in
      if missing =? 0 then 0 else
      if MAX_TAIL_SWEEP_ATTEMPTS <=? e.(ce_sweep_attempts) then 0 else missing
  end.

Definition swept (e : CoverageEntry) (missing now_us : Z) : CoverageEntry :=
  mkCoverageEntry e.(ce_generation) e.(ce_frame_seq) e.(ce_pass_mask)
    (Z.land e.(ce_nacked_mask) (inv16 missing)) e.(ce_present_passes) now_us
    (Z.min (e.(ce_sweep_attempts) + 1) 255) e.(ce_highest_pass_seen).

Definition sweep_tile (now_us : Z) (c : ClientCore) (key : Z * Z) : ClientCore :=
  match c.(cc_cdf53_coverage) !! key with
  | None => c
  | Some e =>
      let missing := sweep_mask e now_us in
      if missing =? 0 then c else
      let c := foldl (λ c p, if negb (Z.land missing (bit16 p) =? 0)
                             then queue_pass_nack c e.(ce_frame_seq) key.1 key.2 p now_us else c)
                 c (Z.of_nat <$> seq 0 14) in
      set_cdf53_coverage c (<[key := swept e missing now_us]> c.(cc_cdf53_coverage))
  end.

Definition tail_sweep (c : ClientCore) (now_us : Z) : ClientCore :=
  if now_us <? c.(cc_next_tail_sweep_us) then c else
  let c := set_next_tail_sweep_us c (u64 (now_us + TAIL_SWEEP_INTERVAL_US)) in
  foldl (sweep_tile now_us) c (map_to_list c.(cc_cdf53_coverage)).*1.

(** ** Timers *)

Definition on_timeout (c : ClientCore) (now_us : Z) : ClientCore :=
  let '(b, dg) := ack_on_timeout c.(cc_ack_batcher) now_us in
  let c := set_ack_batcher c b in
  let c := match dg with
    | Some dg =>
        let c := push_out c (Datagram dg) in
        if c.(cc_send_frame_acks) then
          let '(w, ack) := take_due c.(cc_frame_acks) now_us in
          let c := set_frame_acks c w in
          match ack with Some ack => push_frame_ack c ack | None => c end
        else c
    | None =>
        if c.(cc_send_frame_acks) then
          let '(w, ack) := take_overdue c.(cc_frame_acks) now_us in
          let c := set_frame_acks c w in
          match ack with Some ack => push_frame_ack c ack | None => c end
        else c
    end in
  let '(nb, dg) := nack_on_timeout c.(cc_nack_batcher) now_us in
  let c := push_datagram (set_nack_batcher c nb) dg in
  let c := match c.(cc_pending_nack_deadline_us) with
    | Some deadline => if deadline <=? now_us then flush_pending_nacks c now_us else c
    | None => c
    end in
  let c := tail_sweep c now_us in
  if c.(cc_next_feedback_us) <=? now_us then
    let '(t, msg) := encode_feedback c.(cc_loss_tracker) now_us in
    let c := push_out (set_loss_tracker c t) (Stream msg) in
    set_next_feedback_us c (u64 (now_us + FEEDBACK_INTERVAL_US))
  else c.

Definition min_deadline (deadline : Z) (d : option Z) : Z :=
  match d with Some d => Z.min deadline d | None => deadline end.

Definition poll_timeout (c : ClientCore) : Z :=
  let deadline := Z.min c.(cc_next_tail_sweep_us) c.(cc_next_feedback_us) in
  let deadline := min_deadline deadline c.(cc_ack_batcher).(ab_deadline_us) in
  let deadline := min_deadline deadline c.(cc_nack_batcher).(nb_deadline_us) in
  let deadline := min_deadline deadline c.(cc_pending_nack_deadline_us) in
  if c.(cc_send_frame_acks) then min_deadline deadline (fallback_at c.(cc_frame_acks)) else deadline.

(** [ClientCore::encode_feedback] *)
Definition client_encode_feedback (c : ClientCore) (now_us : Z) : ClientCore * list Z :=
  let '(t, msg) := encode_feedback c.(cc_loss_tracker) now_us in (set_loss_tracker c t, msg).
