(* ===== verification/FrameAssembly.v ===== *)
(** * H.264 access-unit reassembly

    Models [ghostframe-client-core/src/frame_assembly.rs]: the acknowledgement of
    every fragment, the window of assemblies with its exemption for the newest
    IDR, and the completion of an access unit through the reference gate.  The
    theorems: the assembly map and every assembly in it stay within fixed bounds
    whatever arrives, and the fragments of an access unit, in any order and with
    repetitions, hand the decoder exactly the bytes the server fragmented. *)

From S2P Require Import Prelude Wire Control Prevalidate Event TileDecoder PalRle Parity Batchers Gate LossTracking Coverage Client.
From stdpp Require Import base option numbers list gmap.

Local Open Scope Z_scope.

Definition IDR_EXEMPT_US : Z := 2000000.

(** The newest (largest) key of an IDR assembly. *)
Definition newest_idr_assembly (c : ClientCore) : option Z :=
  let idrs := filter (λ '(_, a), is_keyframe a.(as_header) = true) (map_to_list c.(cc_frame_assemblies)) in
  match idrs.*1 with
  | [] => None
  | s :: rest => Some (foldl Z.max s rest)
  end.

Definition within_exemption (a : FrameAssembly) (now_us : Z) : bool :=
  sat_sub now_us a.(as_created_us) <? IDR_EXEMPT_US.

Definition evict_stale_frame_assemblies (c : ClientCore) (now_us : Z) : ClientCore :=
  let threshold := sat_sub c.(cc_latest_full_frame_seq) 2 in
  let keep := match newest_idr_assembly c with
    | Some seq => match c.(cc_frame_assemblies) !! seq with
        | Some a => if within_exemption a now_us then Some seq else None
        | None => None
        end
    | None => None
    end in
  set_frame_assemblies c
    (filter (λ p, (threshold <=? p.1) || bool_decide (Some p.1 = keep) = true) c.(cc_frame_assemblies)).

Definition idr_fragment_is_exempt (c : ClientCore) (fh : FrameHeader) (now_us : Z) : bool :=
  if negb (is_keyframe fh) then false else
  match c.(cc_frame_assemblies) !! fh.(fh_frame_seq) with
  | Some asm => within_exemption asm now_us
                && bool_decide (newest_idr_assembly c = Some fh.(fh_frame_seq))
  | None => match newest_idr_assembly c with
            | None => true
            | Some newest => newest <? fh.(fh_frame_seq)
            end
  end.

(** The arrival of a datagram, as the ACK batch reports it. *)
Definition ack_entry (wire_seq now_us : Z) : AckEntry :=
  mkAckEntry wire_seq (Z.land (now_us / 1000) 0xFFFF).

Definition acknowledge (c : ClientCore) (wire_seq now_us : Z) : ClientCore :=
  let '(b, out) := ack_add c.(cc_ack_batcher) (ack_entry wire_seq now_us) now_us in
  push_datagram (set_ack_batcher c b) out.

(** [for b in asm.fragments.iter().flatten() { out.extend_from_slice(b) }] *)
Definition joined (fragments : list (option (list Z))) : list Z :=
  concat (omap id fragments).

Definition needs_h264 (h : FrameHeader) (reset_decoder : bool) (payload : list Z) : Event :=
  NeedsH264 h.(fh_frame_seq) h.(fh_timestamp_us) (is_keyframe h) h.(fh_ref_frame_seq) h.(fh_flags)
    h.(fh_slots) reset_decoder payload.

(** The gate's verdict on a completed access unit. *)
Definition deliver_frame (c : ClientCore) (asm : FrameAssembly) (frame_seq now_us : Z)
    : ClientCore * list Event :=
  let '(g, verdict) := on_frame c.(cc_h264_gate) asm.(as_header) now_us in
  let c := set_h264_gate c g in
  match verdict with
  | Refuse cause =>
      let copy := bool_decide (cause = Stale) && was_fed g frame_seq in
      let c := if copy then c else record_frame c frame_seq false now_us in
      (after_gate c, [])
  | Feed reset_decoder =>
      let c := if reset_decoder then
          let c := if c.(cc_decoder_broken) then set_decoder_epoch_start c (Some frame_seq) else c in
          set_decoder_broken c false
        else c in
      (after_gate c, [needs_h264 asm.(as_header) reset_decoder (joined asm.(as_fragments))])
  end.

Definition finish_frame_if_complete (c : ClientCore) (frame_seq now_us : Z) : ClientCore * list Event :=
  match c.(cc_frame_assemblies) !! frame_seq with
  | Some asm =>
      if (asm.(as_received) =? length asm.(as_fragments))%nat then
        deliver_frame (set_frame_assemblies c (delete frame_seq c.(cc_frame_assemblies))) asm frame_seq now_us
      else (c, [])
  | None => (c, [])
  end.

(** Storing one fragment; [None] if the access unit outgrew its byte limit. *)
Definition store_fragment (asm : FrameAssembly) (fi : nat) (payload : list Z) : option FrameAssembly :=
  match asm.(as_fragments) !! fi with
  | Some None =>
      if (MAX_H264_ACCESS_UNIT_BYTES <? asm.(as_bytes) + length payload)%nat then None else
      Some (mkFrameAssembly asm.(as_header) asm.(as_created_us)
              (<[fi := Some payload]> asm.(as_fragments))
              (asm.(as_received) + 1) (asm.(as_bytes) + length payload))
  | _ => Some asm
  end.

(** From the creation of the assembly on. *)
Definition assemble (c : ClientCore) (fh : FrameHeader) (payload : list Z) (now_us : Z)
    : ClientCore * list Event :=
  let seq := fh.(fh_frame_seq) in
  let c := match c.(cc_frame_assemblies) !! seq with
    | Some _ => c
    | None => set_frame_assemblies c
        (<[seq := mkFrameAssembly fh now_us (replicate (Z.to_nat fh.(fh_frag_total)) None) 0 0]>
           c.(cc_frame_assemblies))
    end in
  let c := if is_keyframe fh then evict_stale_frame_assemblies c now_us else c in
  match c.(cc_frame_assemblies) !! seq with
  | None => (c, [])
  | Some asm =>
      match store_fragment asm (Z.to_nat fh.(fh_frag_idx)) payload with
      | None => (set_frame_assemblies c (delete seq c.(cc_frame_assemblies)), [])
      | Some asm => finish_frame_if_complete
                      (set_frame_assemblies c (<[seq := asm]> c.(cc_frame_assemblies))) seq now_us
      end
  end.

Definition handle_frame_datagram (c : ClientCore) (bytes : list Z) (now_us : Z)
    : outcome unit (ClientCore * list Event) :=
  match decode_frame_datagram bytes with
  | Err _ => Ok (c, [])
  | Panic => Panic
  | Ok (fh, payload) =>
      if (fh.(fh_frag_total) <=? fh.(fh_frag_idx)) || (MAX_FRAME_FRAGMENTS <? fh.(fh_frag_total))
      then Ok (c, []) else
      let c := if fh.(fh_wire_seq) =? NO_ACK then c else
        acknowledge (set_wire_loss c (on_received c.(cc_wire_loss) fh.(fh_wire_seq)))
          fh.(fh_wire_seq) now_us in
      if negb (Z.land fh.(fh_flags) FRAME_FLAG_PAD =? 0) then Ok (c, []) else
      if negb (is_keyframe fh)
         && match c.(cc_h264_gate).(g_last_fed) with
            | Some last => fh.(fh_frame_seq) <=? last | None => false end
      then Ok (c, []) else
      if (fh.(fh_frame_seq) <? sat_sub c.(cc_latest_full_frame_seq) 2)
         && negb (idr_fragment_is_exempt c fh now_us)
      then Ok (c, []) else
      let c := if c.(cc_latest_full_frame_seq) <? fh.(fh_frame_seq)
               then set_latest_full_frame_seq c fh.(fh_frame_seq) else c in
      let c := evict_stale_frame_assemblies c now_us in
      if fh.(fh_frag_total) =? 0 then Ok (c, []) else
      if MAX_FRAME_FRAGMENTS <? fh.(fh_frag_total) then Ok (c, []) else
      Ok (assemble c fh payload now_us)
  end.

(** ** Bounds *)

Record wf_assembly (seq : Z) (a : FrameAssembly) : Prop := {
  wa_seq : a.(as_header).(fh_frame_seq) = seq;
  wa_fragments : (length a.(as_fragments) ≤ Z.to_nat MAX_FRAME_FRAGMENTS)%nat;
  wa_received : a.(as_received) = length (omap id a.(as_fragments));
  wa_bytes : a.(as_bytes) = length (joined a.(as_fragments));
  wa_limit : (a.(as_bytes) ≤ MAX_H264_ACCESS_UNIT_BYTES)%nat;
}.

(** Every assembly is inside the window, or is the newest IDR's. *)
Definition in_frame_window (c : ClientCore) : Prop :=
  ∀ seq a, c.(cc_frame_assemblies) !! seq = Some a →
    seq ≤ c.(cc_latest_full_frame_seq)
    ∧ (sat_sub c.(cc_latest_full_frame_seq) 2 ≤ seq ∨ newest_idr_assembly c = Some seq).

Definition frames_ok (c : ClientCore) : Prop :=
  map_Forall wf_assembly c.(cc_frame_assemblies) ∧ in_frame_window c.

Lemma frames_bounded c : frames_ok c → (size c.(cc_frame_assemblies) ≤ 4)%nat.
Proof.
  intros [_ Hw]. set (L := cc_latest_full_frame_seq c) in *.
  set (ks := [L - 2; L - 1; L; default L (newest_idr_assembly c)]).
  rewrite <-size_dom. transitivity (size (list_to_set ks : gset Z)).
  - apply subseteq_size. intros s [a Ha]%elem_of_dom. destruct (Hw s a Ha) as [H1 H2]. fold L in H1, H2.
    apply elem_of_list_to_set. unfold ks, sat_sub in *. rewrite !elem_of_cons.
    destruct H2 as [H2| ->]; [|cbn; auto]. assert (s = L - 2 ∨ s = L - 1 ∨ s = L) by lia. tauto.
  - transitivity (length ks); [|done]. clearbody ks. induction ks as [|k ks IH]; [done|].
    cbn [list_to_set length]. rewrite size_union_alt, size_singleton.
    pose proof (subseteq_size (list_to_set ks ∖ {[k]} : gset Z) (list_to_set ks) ltac:(set_solver)). lia.
Qed.

(** The maximum found is a key of an IDR assembly, and bounds them all. *)
Lemma newest_idr_Some c s :
  newest_idr_assembly c = Some s ↔
  (∃ a, c.(cc_frame_assemblies) !! s = Some a ∧ is_keyframe a.(as_header) = true)
  ∧ ∀ s' a', c.(cc_frame_assemblies) !! s' = Some a' → is_keyframe a'.(as_header) = true → s' ≤ s.
Proof.
  unfold newest_idr_assembly. set (l := (filter _ _).*1).
  assert (∀ x, x ∈ l ↔ ∃ a, c.(cc_frame_assemblies) !! x = Some a ∧ is_keyframe a.(as_header) = true) as Hl.
  { intros x. unfold l. rewrite list_elem_of_fmap. split.
    - intros ([x' a] & -> & [Hk Hin]%list_elem_of_filter). exists a. split; [|done].
      by apply elem_of_map_to_list in Hin.
    - intros (a & Ha & Hk). exists (x, a). split; [done|]. apply list_elem_of_filter. split; [done|].
      by apply elem_of_map_to_list. }
  assert (∀ rest s0, (foldl Z.max s0 rest ∈ s0 :: rest) ∧ Forall (λ x, x ≤ foldl Z.max s0 rest) (s0 :: rest))
    as Hmax.
  { induction rest as [|y rest IH]; intros s0; cbn [foldl].
    - split; [apply list_elem_of_here|]. by repeat constructor.
    - destruct (IH (Z.max s0 y)) as [H1 H2]. apply Forall_cons in H2 as [H2 H3]. split.
      + apply elem_of_cons in H1 as [->|H1]; [|by do 2 apply list_elem_of_further].
        destruct (Z.max_spec s0 y) as [[_ ->]|[_ ->]]; [apply list_elem_of_further|]; apply list_elem_of_here.
      + constructor; [lia|]. constructor; [lia|done]. }
  destruct l as [|s0 rest] eqn:El.
  - split; [done|]. intros [(a & Ha & Hk) _]. exfalso. apply (not_elem_of_nil s), Hl. eauto.
  - destruct (Hmax rest s0) as [H1 H2]. rewrite Forall_forall in H2. split.
    + intros [= <-]. split; [by apply Hl|]. intros s' a' Ha' Hk'. apply H2, Hl. eauto.
    + intros [Hin Hub]. f_equal. apply Z.le_antisymm.
      * apply Hl in H1 as (a1 & Ha1 & Hk1). by eapply Hub.
      * apply H2, Hl. done.
Qed.

Lemma newest_idr_None c :
  newest_idr_assembly c = None ↔
  ∀ s a, c.(cc_frame_assemblies) !! s = Some a → is_keyframe a.(as_header) = false.
Proof.
  destruct (newest_idr_assembly c) as [s|] eqn:E.
  - split; [done|]. intros H. apply newest_idr_Some in E as [(a & Ha & Hk) _].
    by rewrite (H s a Ha) in Hk.
  - split; [|done]. intros _ s a Ha. destruct (is_keyframe (as_header a)) eqn:Hk; [|done].
    unfold newest_idr_assembly in E. set (l := filter _ _) in E. assert (s ∈ l.*1) as Hin.
    { apply list_elem_of_fmap. exists (s, a). split; [done|]. apply list_elem_of_filter.
      split; [done|]. by apply elem_of_map_to_list. }
    destruct (l.*1); [by apply not_elem_of_nil in Hin|done].
Qed.

Definition below_latest (c : ClientCore) : Prop :=
  ∀ seq a, c.(cc_frame_assemblies) !! seq = Some a → seq ≤ c.(cc_latest_full_frame_seq).

Lemma evict_lookup c now seq a :
  (evict_stale_frame_assemblies c now).(cc_frame_assemblies) !! seq = Some a →
  c.(cc_frame_assemblies) !! seq = Some a
  ∧ (sat_sub c.(cc_latest_full_frame_seq) 2 ≤ seq ∨ newest_idr_assembly c = Some seq).
Proof.
  unfold evict_stale_frame_assemblies. cbn [cc_frame_assemblies set_frame_assemblies].
  intros [Ha Hk]%map_lookup_filter_Some. cbn [fst] in Hk. split; [done|].
  apply orb_true_iff in Hk as [?%Z.leb_le|Hk%bool_decide_eq_true]; [by left|right].
  destruct (newest_idr_assembly c) as [s|]; [|done]. destruct (cc_frame_assemblies c !! s); [|done].
  by destruct (within_exemption _ _).
Qed.

(** What the window keeps. *)
Lemma evict_keeps c now seq a :
  c.(cc_frame_assemblies) !! seq = Some a → sat_sub c.(cc_latest_full_frame_seq) 2 ≤ seq →
  (evict_stale_frame_assemblies c now).(cc_frame_assemblies) !! seq = Some a.
Proof.
  intros Ha Hle. unfold evict_stale_frame_assemblies. cbn [cc_frame_assemblies set_frame_assemblies].
  apply map_lookup_filter_Some. split; [done|]. cbn [fst]. by rewrite (proj2 (Z.leb_le _ _)).
Qed.

Lemma evict_frames_ok c now :
  map_Forall wf_assembly c.(cc_frame_assemblies) → below_latest c →
  frames_ok (evict_stale_frame_assemblies c now).
Proof.
  intros Hwf Hlat. split.
  - intros seq a [Ha _]%evict_lookup. by apply Hwf.
  - intros seq a Ha. pose proof (evict_lookup _ _ _ _ Ha) as [Ha0 Hk].
    split; [by apply (Hlat seq a)|]. destruct Hk as [?|Hk]; [by left|right].
    apply newest_idr_Some in Hk as [(a0 & Ha0' & Hkey) Hub]. apply newest_idr_Some. split.
    + exists a. split; [done|]. congruence.
    + intros s' a' [Ha' _]%evict_lookup. eauto.
Qed.

Lemma joined_insert frags fi (p : list Z) :
  frags !! fi = Some None →
  length (omap id (<[fi := Some p]> frags)) = (length (omap id frags) + 1)%nat
  ∧ length (joined (<[fi := Some p]> frags)) = (length (joined frags) + length p)%nat.
Proof.
  intros Hf. unfold joined. revert fi Hf. induction frags as [|f frags IH]; intros fi Hf; [done|].
  destruct fi as [|fi].
  - injection Hf as ->. cbn. rewrite length_app. lia.
  - destruct (IH fi Hf) as [H1 H2].
    change (<[S fi := Some p]> (f :: frags)) with (f :: <[fi := Some p]> frags).
    destruct f as [q|]; [|done]. change (omap id (Some q :: ?l)) with (q :: omap id l).
    cbn [length concat]. rewrite !length_app. lia.
Qed.

Lemma store_fragment_wf seq a fi p a' :
  wf_assembly seq a → store_fragment a fi p = Some a' → wf_assembly seq a'.
Proof.
  intros Hw. unfold store_fragment. destruct (as_fragments a !! fi) as [[q|]|] eqn:Hf;
    [by intros [= <-]| |by intros [= <-]].
  destruct (Nat.ltb_spec MAX_H264_ACCESS_UNIT_BYTES (as_bytes a + length p)) as [|Hle]; [done|].
  intros [= <-]. destruct Hw as [H1 H2 H3 H4 H5]. destruct (joined_insert _ _ p Hf) as [J1 J2].
  split; cbn [as_header as_fragments as_received as_bytes]; try done;
    [by rewrite length_insert|lia|lia].
Qed.

Lemma omap_replicate_None {A} n : omap id (replicate n (@None A)) = [].
Proof. by induction n. Qed.

Lemma new_assembly_wf fh now :
  fh.(fh_frag_total) ≤ MAX_FRAME_FRAGMENTS →
  wf_assembly fh.(fh_frame_seq)
    (mkFrameAssembly fh now (replicate (Z.to_nat fh.(fh_frag_total)) None) 0 0).
Proof.
  intros H. split; cbn [as_header as_fragments as_received as_bytes]; try done.
  - rewrite length_replicate. lia.
  - by rewrite omap_replicate_None.
  - unfold joined. by rewrite omap_replicate_None.
  - lia.
Qed.

(** The parts of the state the frame path reads and writes beside the gate. *)
Definition same_frames (c c' : ClientCore) : Prop :=
  c'.(cc_frame_assemblies) = c.(cc_frame_assemblies)
  ∧ c'.(cc_latest_full_frame_seq) = c.(cc_latest_full_frame_seq).

Lemma after_gate_frames c : same_frames c (after_gate c).
Proof. unfold after_gate. cbn [take_request]. by destruct (g_request _) as [[]|]. Qed.

Lemma same_frames_trans c1 c2 c3 : same_frames c1 c2 → same_frames c2 c3 → same_frames c1 c3.
Proof. unfold same_frames. intuition congruence. Qed.

Lemma deliver_frame_frames c asm seq now : same_frames c (deliver_frame c asm seq now).1.
Proof.
  unfold deliver_frame. destruct (on_frame _ _ _) as [g [rd|cause]]; cbn [fst];
    (eapply same_frames_trans; [|apply after_gate_frames]).
  - destruct rd; [|done]. cbn [set_h264_gate cc_decoder_broken]. by destruct (cc_decoder_broken c).
  - by destruct (_ && _).
Qed.

Lemma acknowledge_frames c ws now : same_frames c (acknowledge c ws now).
Proof. unfold acknowledge. destruct (ack_add _ _ _) as [b [dg|]]; done. Qed.

Lemma newest_idr_same c c' : same_frames c c' → newest_idr_assembly c' = newest_idr_assembly c.
Proof. intros [H _]. unfold newest_idr_assembly. by rewrite H. Qed.

Lemma frames_ok_same c c' : same_frames c c' → frames_ok c → frames_ok c'.
Proof.
  intros Hs [H1 H2]. pose proof (newest_idr_same c c' Hs) as Hn. destruct Hs as [E1 E2]. split.
  - by rewrite E1.
  - intros seq a. rewrite E1, E2, Hn. apply H2.
Qed.

Lemma frames_ok_delete c seq :
  frames_ok c → frames_ok (set_frame_assemblies c (delete seq c.(cc_frame_assemblies))).
Proof.
  intros [Hwf Hw]. split.
  - by apply map_Forall_delete.
  - intros s a. cbn [cc_frame_assemblies set_frame_assemblies cc_latest_full_frame_seq].
    intros [Hne Ha]%lookup_delete_Some. destruct (Hw s a Ha) as [Hl [?|Hn]]; split; auto.
    right. apply newest_idr_Some in Hn as [(a0 & Ha0 & Hk) Hub]. apply newest_idr_Some.
    cbn [cc_frame_assemblies set_frame_assemblies]. split.
    + exists a0. by rewrite lookup_delete_ne.
    + intros s' a' [_ Ha']%lookup_delete_Some. eauto.
Qed.

Lemma frames_ok_update c seq a a' :
  frames_ok c → c.(cc_frame_assemblies) !! seq = Some a → wf_assembly seq a' →
  a'.(as_header) = a.(as_header) →
  frames_ok (set_frame_assemblies c (<[seq := a']> c.(cc_frame_assemblies))).
Proof.
  intros [Hwf Hw] Ha Hwf' Hh. split; [by apply map_Forall_insert_2|].
  assert (newest_idr_assembly (set_frame_assemblies c (<[seq := a']> c.(cc_frame_assemblies)))
    = newest_idr_assembly c) as Hn.
  { assert (∀ s k, (∃ b, <[seq := a']> c.(cc_frame_assemblies) !! s = Some b ∧ is_keyframe b.(as_header) = k)
      ↔ ∃ b, c.(cc_frame_assemblies) !! s = Some b ∧ is_keyframe b.(as_header) = k) as Hiff.
    { intros s k. destruct (decide (s = seq)) as [->|Hne].
      - rewrite lookup_insert_eq. split; intros (b & Hb & Hk).
        + injection Hb as <-. exists a. by rewrite <-Hh.
        + exists a'. rewrite Hh. split; [done|]. congruence.
      - by rewrite lookup_insert_ne. }
    destruct (newest_idr_assembly c) as [s|] eqn:E.
    - apply newest_idr_Some in E as [H1 H2]. apply newest_idr_Some.
      cbn [cc_frame_assemblies set_frame_assemblies]. split; [by apply Hiff|].
      intros s' b' Hb' Hk'. destruct (proj1 (Hiff s' true) (ex_intro _ b' (conj Hb' Hk'))) as (b & ? & ?). eauto.
    - rewrite newest_idr_None in E. apply newest_idr_None. cbn [cc_frame_assemblies set_frame_assemblies].
      intros s b Hb. destruct (is_keyframe (as_header b)) eqn:Hk; [|done].
      destruct (proj1 (Hiff s true) (ex_intro _ b (conj Hb Hk))) as (b' & Hb' & Hk'). by rewrite (E s b' Hb') in Hk'. }
  intros s b. rewrite Hn. cbn [cc_frame_assemblies set_frame_assemblies cc_latest_full_frame_seq].
  destruct (decide (s = seq)) as [->|Hne].
  - intros _. by apply (Hw seq a).
  - rewrite lookup_insert_ne by done. apply Hw.
Qed.

(** A fragment of a P frame never counts as the newest IDR. *)
Lemma frames_ok_new_p c fh now :
  frames_ok c → c.(cc_frame_assemblies) !! fh.(fh_frame_seq) = None → is_keyframe fh = false →
  fh.(fh_frag_total) ≤ MAX_FRAME_FRAGMENTS →
  sat_sub c.(cc_latest_full_frame_seq) 2 ≤ fh.(fh_frame_seq) ≤ c.(cc_latest_full_frame_seq) →
  frames_ok (set_frame_assemblies c (<[fh.(fh_frame_seq) :=
    mkFrameAssembly fh now (replicate (Z.to_nat fh.(fh_frag_total)) None) 0 0]> c.(cc_frame_assemblies))).
Proof.
  intros [Hwf Hw] Hnone Hk Htot Hr. set (a := mkFrameAssembly _ _ _ _ _).
  split; [apply map_Forall_insert_2; [by apply new_assembly_wf|done]|].
  intros s b. cbn [cc_frame_assemblies set_frame_assemblies cc_latest_full_frame_seq].
  destruct (decide (s = fh_frame_seq fh)) as [->|Hne]; [lia|].
  rewrite lookup_insert_ne by done. intros Hb. destruct (Hw s b Hb) as [? [?|Hn]]; split; auto.
  right. apply newest_idr_Some in Hn as [(b0 & Hb0 & Hkb) Hub]. apply newest_idr_Some.
  cbn [cc_frame_assemblies set_frame_assemblies]. split.
  - exists b0. by rewrite lookup_insert_ne.
  - intros s' b' [[<- <-]|[_ Hb']]%lookup_insert_Some Hk'; [|by eapply Hub].
    cbn [as_header a] in Hk'. congruence.
Qed.

Lemma finish_frames_ok c seq now : frames_ok c → frames_ok (finish_frame_if_complete c seq now).1.
Proof.
  intros Hok. unfold finish_frame_if_complete. destruct (cc_frame_assemblies c !! seq) as [asm|]; [|done].
  destruct (_ =? _)%nat; [|done]. eapply frames_ok_same; [apply deliver_frame_frames|].
  by apply frames_ok_delete.
Qed.

Lemma store_fragment_header a fi p a' : store_fragment a fi p = Some a' → a'.(as_header) = a.(as_header).
Proof.
  unfold store_fragment. destruct (_ !! _) as [[|]|]; [by intros [= <-]| |by intros [= <-]].
  destruct (_ <? _)%nat; [done|]. by intros [= <-].
Qed.

Lemma assemble_frames_ok c fh payload now :
  frames_ok c → fh.(fh_frag_total) ≤ MAX_FRAME_FRAGMENTS →
  fh.(fh_frame_seq) ≤ c.(cc_latest_full_frame_seq) →
  (sat_sub c.(cc_latest_full_frame_seq) 2 ≤ fh.(fh_frame_seq) ∨ is_keyframe fh = true) →
  frames_ok (assemble c fh payload now).1.
Proof.
  intros Hok Htot Hle Hwin. unfold assemble. cbv zeta.
  set (c1 := match cc_frame_assemblies c !! fh_frame_seq fh with Some _ => c | None => _ end).
  assert (frames_ok (if is_keyframe fh then evict_stale_frame_assemblies c1 now else c1)) as Hok2.
  { destruct (is_keyframe fh) eqn:Hk.
    - apply evict_frames_ok; unfold c1; destruct (cc_frame_assemblies c !! fh_frame_seq fh) as [a0|] eqn:Ha;
        destruct Hok as [Hwf Hw]; try done.
      + apply map_Forall_insert_2; [by apply new_assembly_wf|done].
      + intros s b Hb. by apply (Hw s b).
      + intros s b. cbn [cc_frame_assemblies set_frame_assemblies cc_latest_full_frame_seq].
        intros [[<- _]|[_ Hb]]%lookup_insert_Some; [done|by apply (Hw s b)].
    - unfold c1. destruct (cc_frame_assemblies c !! fh_frame_seq fh) eqn:Ha; [done|].
      destruct Hwin as [?|]; [|done]. by apply frames_ok_new_p. }
  set (c2 := if is_keyframe fh then _ else c1) in *. clearbody c2.
  destruct (cc_frame_assemblies c2 !! fh_frame_seq fh) as [asm|] eqn:Ha; [|done].
  destruct (store_fragment asm _ payload) as [asm'|] eqn:Hs; [|by apply frames_ok_delete].
  apply finish_frames_ok, (frames_ok_update c2 _ asm); try done; [|by eapply store_fragment_header].
  eapply store_fragment_wf; [|done]. destruct Hok2 as [Hwf _]. by apply (Hwf _ asm Ha).
Qed.

Lemma handle_frame_ok c bytes now :
  frames_ok c → ∃ c' evs, handle_frame_datagram c bytes now = Ok (c', evs) ∧ frames_ok c'.
Proof.
  intros Hok. unfold handle_frame_datagram.
  pose proof (decode_frame_datagram_no_panic bytes) as Hnp.
  destruct (decode_frame_datagram bytes) as [[fh payload]| |]; [|by eauto|done].
  destruct (_ || _) eqn:Hfrag; [by eauto|]. apply orb_false_iff in Hfrag as [_ Htot%Z.ltb_ge].
  set (c1 := if fh_wire_seq fh =? NO_ACK then c else _).
  assert (frames_ok c1) as Hok1.
  { unfold c1. destruct (_ =? NO_ACK); [done|].
    eapply frames_ok_same; [apply acknowledge_frames|]. done. }
  clearbody c1. destruct (negb _); [by eauto|]. destruct (_ && _); [by eauto|].
  destruct (Z.ltb_spec (fh_frame_seq fh) (sat_sub (cc_latest_full_frame_seq c1) 2)) as [Hold|Hnew];
    cbn [andb]; [destruct (idr_fragment_is_exempt c1 fh now) eqn:Hex; cbn [negb]; [|by eauto]|];
    cbv zeta; (set (c2 := if _ <? _ then _ else c1));
    (assert (frames_ok (evict_stale_frame_assemblies c2 now)) as Hok2;
      [apply evict_frames_ok; unfold c2; destruct (_ <? _) eqn:Hlt; destruct Hok1 as [Hwf Hw]; try done;
       [intros s b Hb; destruct (Hw s b Hb); cbn; apply Z.ltb_lt in Hlt; lia
       |intros s b Hb; by apply (Hw s b)]|]);
    (destruct (_ =? 0); [by eauto|]); (destruct (_ <? fh_frag_total fh); [by eauto|]);
    (rewrite (surjective_pairing (assemble _ _ _ _)); eexists _, _; split; [done|]);
    apply assemble_frames_ok; try done; unfold c2; cbn;
    destruct (Z.ltb_spec (cc_latest_full_frame_seq c1) (fh_frame_seq fh)); cbn; try lia.
  1,2: right; unfold idr_fragment_is_exempt in Hex; by destruct (is_keyframe fh).
  all: left; unfold sat_sub in *; lia.
Qed.

Lemma max_bytes_val : Z.of_nat MAX_H264_ACCESS_UNIT_BYTES = 16 * 1024 * 1024.
Proof. apply Z2Nat.id. lia. Qed.

Lemma max_fragments_val : Z.of_nat (Z.to_nat MAX_FRAME_FRAGMENTS) = 16384.
Proof. apply Z2Nat.id. unfold MAX_FRAME_FRAGMENTS. lia. Qed.

(** The frame path is safe and bounded.  From any client state whose frame
    assemblies are within bounds, any datagram on the H.264 path is handled
    without panic and leaves them within bounds: at most four assemblies, each of
    at most 16384 fragments and 16 MiB. *)
Theorem frame_assemblies_bounded c bytes now :
  frames_ok c →
  ∃ c' evs, handle_frame_datagram c bytes now = Ok (c', evs) ∧ frames_ok c'
    ∧ (size c'.(cc_frame_assemblies) ≤ 4)%nat
    ∧ ∀ seq a, c'.(cc_frame_assemblies) !! seq = Some a →
        Z.of_nat (length a.(as_fragments)) ≤ 16384
        ∧ Z.of_nat (length (joined a.(as_fragments))) ≤ 16 * 1024 * 1024.
Proof.
  intros Hok. destruct (handle_frame_ok c bytes now Hok) as (c' & evs & H & Hok').
  exists c', evs. split_and!; [done|done|by apply frames_bounded|].
  intros seq a Ha. destruct Hok' as [Hwf _]. destruct (Hwf seq a Ha) as [_ H1 _ H2 H3].
  pose proof max_fragments_val. pose proof max_bytes_val. lia.
Qed.

Lemma client_new_frames_ok config now : frames_ok (client_new config now).
Proof.
  split; cbn; [apply map_Forall_empty|]. intros s a. cbn [cc_frame_assemblies client_new].
  by rewrite lookup_empty.
Qed.

Definition sample_config : ClientConfig := mkClientConfig true true true false false None.

Lemma frame_assemblies_bounded_witness :
  ∃ c' evs, handle_frame_datagram (client_new sample_config 0)
      (frame_fragment 9 1000 FRI_IDR 2 0 [1; 2; 3]) 500 = Ok (c', evs) ∧ frames_ok c'
    ∧ (size c'.(cc_frame_assemblies) ≤ 4)%nat
    ∧ ∀ seq a, c'.(cc_frame_assemblies) !! seq = Some a →
        Z.of_nat (length a.(as_fragments)) ≤ 16384
        ∧ Z.of_nat (length (joined a.(as_fragments))) ≤ 16 * 1024 * 1024.
Proof. apply frame_assemblies_bounded, client_new_frames_ok. Defined.

(** ** Exact reassembly *)

(** The fragments received so far of an access unit cut into [chs]. *)
Definition partial (chs : list (list Z)) (seen : list nat) : list (option (list Z)) :=
  imap (λ i ch, if decide (i ∈ seen) then Some ch else None) chs.

Definition covered (n : nat) (seen : list nat) : Prop := Forall (λ i, i ∈ seen) (seq 0 n).

#[export] Instance covered_dec n seen : Decision (covered n seen).
Proof. unfold covered. apply _. Defined.

Lemma covered_spec n seen : covered n seen ↔ ∀ i, (i < n)%nat → i ∈ seen.
Proof.
  unfold covered. rewrite Forall_forall. setoid_rewrite elem_of_seq. split.
  - intros H i Hi. apply H. lia.
  - intros H i Hi. apply H. lia.
Qed.

Lemma length_partial chs seen : length (partial chs seen) = length chs.
Proof. apply length_imap. Qed.

Lemma partial_nil chs : partial chs [] = replicate (length chs) None.
Proof.
  unfold partial. apply list_eq. intros i. rewrite list_lookup_imap.
  destruct (chs !! i) as [ch|] eqn:E; cbn.
  - rewrite lookup_replicate_2 by (by eapply lookup_lt_Some). done.
  - symmetry. apply lookup_replicate_None. by apply lookup_ge_None.
Qed.

Lemma partial_insert chs seen i ch :
  chs !! i = Some ch → <[i := Some ch]> (partial chs seen) = partial chs (i :: seen).
Proof.
  intros Hi. apply list_eq. intros j. destruct (decide (j = i)) as [->|Hne].
  - rewrite list_lookup_insert_eq by (rewrite length_partial; by eapply lookup_lt_Some).
    unfold partial. rewrite list_lookup_imap, Hi. cbn.
    by rewrite decide_True by apply list_elem_of_here.
  - rewrite list_lookup_insert_ne by done. unfold partial. rewrite !list_lookup_imap.
    destruct (chs !! j); [|done]. cbn. f_equal.
    destruct (decide (j ∈ seen)) as [Hs|Hs], (decide (j ∈ i :: seen)) as [Hs'|Hs'];
      rewrite elem_of_cons in Hs'; tauto.
Qed.

(** How much of the unit the fragments carry. *)
Lemma partial_sizes chs : ∀ (f : nat → bool),
  let frags := imap (λ i ch, if f i then Some ch else None) chs in
  (length (omap id frags) ≤ length chs)%nat ∧ (length (joined frags) ≤ length (concat chs))%nat
  ∧ (length (omap id frags) = length chs ↔ ∀ i, (i < length chs)%nat → f i = true)
  ∧ ((∀ i, (i < length chs)%nat → f i = true) → joined frags = concat chs).
Proof.
  unfold joined. induction chs as [|ch chs IH]; intros f; cbv zeta.
  { cbn. split_and!; try done. split; [intros _ i Hi; lia|done]. }
  destruct (IH (f ∘ S)) as (H1 & H2 & H3 & H4). rewrite imap_cons.
  change (imap ((λ i ch0, if f i then Some ch0 else None) ∘ S) chs)
    with (imap (λ i ch0, if (f ∘ S) i then Some ch0 else None) chs).
  set (rest := imap _ chs) in *.
  assert ((∀ i, (i < length (ch :: chs))%nat → f i = true) ↔
    f 0%nat = true ∧ ∀ i, (i < length chs)%nat → (f ∘ S) i = true) as Hall.
  { cbn [length]. split.
    - intros H. split; [apply H; lia|]. intros i Hi. cbn. apply H. lia.
    - intros [H0 HS] [|i] Hi; [done|]. apply (HS i). lia. }
  destruct (f 0%nat) eqn:Hf.
  - change (omap id (Some ch :: rest)) with (ch :: omap id rest). cbn [length concat].
    rewrite !length_app. split_and!; [lia|lia| |].
    + rewrite Hall. split; [intros H; split; [done|]; apply H3; lia|]. intros [_ H]. apply H3 in H. lia.
    + intros H. apply Hall in H as [_ H]. by rewrite H4.
  - change (omap id (None :: rest)) with (omap id rest). cbn [length concat]. rewrite length_app.
    split_and!; [lia|lia| |].
    + split; [lia|]. intros H. apply Hall in H as [? _]. done.
    + intros H. apply Hall in H as [? _]. done.
Qed.

Lemma partial_as_bool chs seen :
  partial chs seen = imap (λ i ch, if bool_decide (i ∈ seen) then Some ch else None) chs.
Proof. apply imap_ext. intros i ch _. rewrite decide_bool_decide. done. Qed.

Lemma partial_complete chs seen :
  (length (omap id (partial chs seen)) = length chs ↔ covered (length chs) seen)
  ∧ (covered (length chs) seen → joined (partial chs seen) = concat chs)
  ∧ (length (joined (partial chs seen)) ≤ length (concat chs))%nat.
Proof.
  rewrite partial_as_bool, covered_spec.
  destruct (partial_sizes chs (λ i, bool_decide (i ∈ seen))) as (_ & H2 & H3 & H4).
  split_and!.
  - rewrite H3. setoid_rewrite bool_decide_eq_true. done.
  - intros H. apply H4. intros i Hi. by apply bool_decide_eq_true, H.
  - done.
Qed.

Section one_frame.
Context (seq ts : Z) (info : FrameRefInfo) (chs : list (list Z)) (c0 : ClientCore).

(** Fragment [i] as sent, stamped with a wire sequence number. *)
Definition fragment_header (i : nat) (ws : Z) : FrameHeader :=
  mkFrameHeader seq (u16 (Z.of_nat i)) (u16 (Z.of_nat (length chs))) ws ts info.(fri_flags)
    info.(fri_slots) info.(fri_ref_frame_seq).

Definition fragment_bytes (i : nat) (ws : Z) : list Z :=
  fh_encode (fragment_header i ws) [] ++ default [] (chs !! i).

(** Header fields that are the same for every fragment. *)
Definition frame_fields (h : FrameHeader) : Z * Z * Z * Z * Z :=
  (h.(fh_frame_seq), h.(fh_timestamp_us), h.(fh_flags), h.(fh_slots), h.(fh_ref_frame_seq)).

Lemma on_frame_fields g h h' now : frame_fields h = frame_fields h' → on_frame g h now = on_frame g h' now.
Proof using. destruct h, h'. unfold frame_fields. cbn. intros [= -> -> -> -> ->]. reflexivity. Qed.

Record sendable : Prop := {
  sn_seq : in_width 31 seq;
  sn_ts : in_width 32 ts;
  sn_info : fri_ok info;
  sn_pad : Z.land info.(fri_flags) FRAME_FLAG_PAD = 0;
  sn_count : 0 < Z.of_nat (length chs) ≤ MAX_FRAME_FRAGMENTS;
  sn_bytes : (length (concat chs) ≤ MAX_H264_ACCESS_UNIT_BYTES)%nat;
}.

(** The frame is inside the window, newer than the last one fed, and none of it
    has arrived. *)
Record fresh_frame : Prop := {
  fr_ok : frames_ok c0;
  fr_window : sat_sub c0.(cc_latest_full_frame_seq) 2 ≤ seq;
  fr_none : c0.(cc_frame_assemblies) !! seq = None;
  fr_after : ∀ last, c0.(cc_h264_gate).(g_last_fed) = Some last → last < seq;
}.

Record collecting (seen : list nat) (c : ClientCore) : Prop := {
  co_wf : map_Forall wf_assembly c.(cc_frame_assemblies);
  co_below : below_latest c;
  co_gate : c.(cc_h264_gate) = c0.(cc_h264_gate);
  co_window : sat_sub c.(cc_latest_full_frame_seq) 2 ≤ seq;
  co_asm : match c.(cc_frame_assemblies) !! seq with
           | Some asm => frame_fields asm.(as_header) = frame_fields (fragment_header 0 0)
               ∧ asm.(as_fragments) = partial chs seen
           | None => seen = []
           end;
}.

Hypothesis Hsend : sendable.

(** An assembly inside the window survives eviction. *)
Lemma evict_collecting seen c now :
  collecting seen c → collecting seen (evict_stale_frame_assemblies c now).
Proof using.
  intros [Hwf Hb Hg Hl Ha]. split.
  - intros s a [Hs _]%evict_lookup. by apply Hwf.
  - intros s a [Hs _]%evict_lookup. by apply (Hb s a).
  - done.
  - done.
  - destruct (cc_frame_assemblies c !! seq) as [asm|] eqn:E; [by rewrite (evict_keeps c now seq asm E)|].
    destruct (cc_frame_assemblies (evict_stale_frame_assemblies c now) !! seq) eqn:E'; [|done].
    apply evict_lookup in E' as [E' _]. congruence.
Qed.

(** The acknowledgement touches nothing the assembly depends on. *)
Lemma ack_collecting seen c ws now :
  collecting seen c → collecting seen
    (acknowledge (set_wire_loss c (on_received c.(cc_wire_loss) ws)) ws now).
Proof using.
  intros [Hwf Hb Hg Hl Ha].
  pose proof (acknowledge_frames (set_wire_loss c (on_received c.(cc_wire_loss) ws)) ws now) as [E1 E2].
  split; unfold below_latest; rewrite ?E1, ?E2; try done.
  unfold acknowledge. by destruct (ack_add _ _ _) as [b [dg|]].
Qed.

Lemma latest_collecting seen c :
  collecting seen c → collecting seen
    (if c.(cc_latest_full_frame_seq) <? seq then set_latest_full_frame_seq c seq else c).
Proof using Hsend.
  intros [Hwf Hb Hg Hl Ha]. destruct (Z.ltb_spec (cc_latest_full_frame_seq c) seq) as [Hlt|]; [|done].
  destruct Hsend as [[? _] _ _ _ _ _]. split; try done.
  - intros s a Hs. cbn. specialize (Hb s a Hs). lia.
  - cbn. unfold sat_sub. lia.
Qed.

Lemma u16_index i : (i ≤ length chs)%nat → u16 (Z.of_nat i) = Z.of_nat i.
Proof using Hsend.
  intros Hi. apply wrap_small. destruct Hsend as [_ _ _ _ Hn _]. unfold MAX_FRAME_FRAGMENTS in Hn. widths. lia.
Qed.

Lemma fragment_decodes i ws :
  in_width 32 ws → decode_frame_datagram (fragment_bytes i ws)
  = Ok (fragment_header i ws, default [] (chs !! i)).
Proof using Hsend.
  intros Hws. destruct Hsend as [H1 H2 (H3 & H4 & H5) _ _ _]. apply decode_frame_datagram_encode.
  unfold fh_ok. split_and!; cbn -[wrap in_width]; try done; try (by apply wrap_in_width). wsolve.
Qed.

(** The event of the completed access unit, by the gate's verdict. *)
Definition verdict_events (h : FrameHeader) (v : Verdict) (payload : list Z) : list Event :=
  match v with
  | Feed reset_decoder => [needs_h264 h reset_decoder payload]
  | Refuse _ => []
  end.

(** What one fragment does once it is past the guards. *)
Definition progress (seen : list nat) (now : Z) (r : ClientCore * list Event) : Prop :=
  if decide (covered (length chs) seen) then
    r.2 = verdict_events (fragment_header 0 0)
            (on_frame c0.(cc_h264_gate) (fragment_header 0 0) now).2 (concat chs)
    ∧ r.1.(cc_frame_assemblies) !! seq = None
  else r.2 = [] ∧ collecting seen r.1.

Lemma verdict_events_fields h h' v p :
  frame_fields h = frame_fields h' → verdict_events h v p = verdict_events h' v p.
Proof using. destruct h, h'. unfold frame_fields. cbn. intros [= -> -> -> -> ->]. reflexivity. Qed.

Lemma deliver_frame_events c asm now :
  (deliver_frame c asm seq now).2
  = verdict_events asm.(as_header) (on_frame c.(cc_h264_gate) asm.(as_header) now).2
      (joined asm.(as_fragments)).
Proof using. unfold deliver_frame. by destruct (on_frame _ _ _) as [g [rd|cause]]. Qed.

(** The slot of an index already seen, and of one not seen. *)
Lemma partial_lookup seen i ch :
  chs !! i = Some ch → partial chs seen !! i = Some (if decide (i ∈ seen) then Some ch else None).
Proof using. intros H. unfold partial. by rewrite list_lookup_imap, H. Qed.

Lemma store_partial seen asm i ch :
  wf_assembly seq asm → asm.(as_fragments) = partial chs seen → chs !! i = Some ch →
  ∃ asm', store_fragment asm i ch = Some asm' ∧ as_fragments asm' = partial chs (i :: seen).
Proof using Hsend.
  intros Hwa Hp Hch. pose proof (partial_insert chs seen i ch Hch) as Hins.
  pose proof (partial_lookup seen i ch Hch) as Hlk. unfold store_fragment. rewrite Hp, Hlk.
  destruct (decide (i ∈ seen)) as [Hin|Hin].
  - exists asm. split; [done|]. rewrite Hp, <-Hins. symmetry. by apply list_insert_id.
  - destruct (joined_insert _ _ ch Hlk) as [_ Hj]. rewrite Hins in Hj.
    destruct (partial_complete chs (i :: seen)) as (_ & _ & Hlen), Hsend, Hwa as [_ _ _ Hb _].
    rewrite Hp in Hb. rewrite (proj2 (Nat.ltb_ge _ _)) by lia. by eexists.
Qed.

Lemma frames_update_wf c asm' :
  map_Forall wf_assembly c.(cc_frame_assemblies) → wf_assembly seq asm' →
  map_Forall wf_assembly (<[seq := asm']> c.(cc_frame_assemblies)).
Proof using. intros. by apply map_Forall_insert_2. Qed.

(** Storing fragment [i] into an assembly that exists. *)
Lemma store_progress seen c asm i now :
  collecting seen c → c.(cc_frame_assemblies) !! seq = Some asm → (i < length chs)%nat →
  ∃ asm', store_fragment asm i (default [] (chs !! i)) = Some asm'
    ∧ progress (i :: seen) now (finish_frame_if_complete
        (set_frame_assemblies c (<[seq := asm']> c.(cc_frame_assemblies))) seq now).
Proof using Hsend.
  intros [Hwf Hb Hg Hl Hasm] Ha Hi. rewrite Ha in Hasm. destruct Hasm as [Hf Hp].
  destruct (lookup_lt_is_Some_2 chs i Hi) as [ch Hch]. rewrite Hch. cbn [default from_option id].
  pose proof (Hwf seq asm Ha) as Hwa.
  destruct (store_partial seen asm i ch Hwa Hp Hch) as (asm' & Hs & Hp').
  exists asm'. split; [done|]. pose proof (store_fragment_header _ _ _ _ Hs) as Hh.
  pose proof (store_fragment_wf seq asm i ch asm' Hwa Hs) as Hwa'.
  unfold finish_frame_if_complete, progress. cbn [cc_frame_assemblies set_frame_assemblies].
  rewrite lookup_insert_eq. pose proof Hwa' as [_ _ Hr _ _]. rewrite Hr, Hp', length_partial.
  destruct (partial_complete chs (i :: seen)) as (Hc & Hj & _).
  destruct (decide (covered (length chs) (i :: seen))) as [Hcov|Hcov].
  - rewrite (proj2 (Nat.eqb_eq _ _)) by (by apply Hc). split.
    + rewrite deliver_frame_events, Hp', Hj by done. cbn [cc_h264_gate set_frame_assemblies].
      rewrite Hg, (on_frame_fields _ _ (fragment_header 0 0)) by (by rewrite Hh).
      apply verdict_events_fields. by rewrite Hh.
    + destruct (deliver_frame_frames (set_frame_assemblies (set_frame_assemblies c
        (<[seq:=asm']> (cc_frame_assemblies c))) (delete seq (<[seq:=asm']> (cc_frame_assemblies c))))
        asm' seq now) as [E _].
      etransitivity; [apply (f_equal (lookup seq) E)|]. cbn [cc_frame_assemblies set_frame_assemblies].
      apply lookup_delete_eq.
  - rewrite (proj2 (Nat.eqb_neq _ _)) by (by rewrite Hc). split; [done|]. split; try done.
    + by apply frames_update_wf.
    + intros s a. cbn [fst cc_frame_assemblies set_frame_assemblies cc_latest_full_frame_seq].
      intros [[<- _]|[_ Hs']]%lookup_insert_Some; [by apply (Hb seq asm)|by apply (Hb s a)].
    + cbn [fst cc_frame_assemblies set_frame_assemblies]. rewrite lookup_insert_eq. by rewrite Hh.
Qed.

(** The assembly the first fragment creates. *)
Lemma create_collecting seen c i ws now :
  collecting seen c → seq ≤ c.(cc_latest_full_frame_seq) →
  let c1 := match c.(cc_frame_assemblies) !! seq with
    | Some _ => c
    | None => set_frame_assemblies c
        (<[seq := mkFrameAssembly (fragment_header i ws) now (replicate (length chs) None) 0 0]>
           c.(cc_frame_assemblies))
    end in
  collecting seen c1 ∧ is_Some (c1.(cc_frame_assemblies) !! seq).
Proof using Hsend.
  intros Hc Hle. pose proof Hc as [Hwf Hb Hg Hl Ha]. cbv zeta.
  destruct (cc_frame_assemblies c !! seq) as [a|] eqn:E; [by split; [|eexists]|].
  split; [|by cbn [cc_frame_assemblies set_frame_assemblies]; rewrite lookup_insert_eq; eexists].
  split; try done; cbn [cc_frame_assemblies set_frame_assemblies cc_latest_full_frame_seq].
  - apply frames_update_wf; [done|]. pose proof (new_assembly_wf (fragment_header i ws) now) as H.
    cbn [fh_frame_seq fh_frag_total fragment_header] in H.
    rewrite u16_index, Nat2Z.id in H by lia. apply H. by destruct Hsend as [_ _ _ _ [_ ?] _].
  - intros s b. cbn [cc_frame_assemblies set_frame_assemblies cc_latest_full_frame_seq].
    intros [[<- _]|[_ Hs]]%lookup_insert_Some; [done|by apply (Hb s b)].
  - rewrite lookup_insert_eq. split; [done|]. cbn [as_fragments]. by rewrite Ha, partial_nil.
Qed.

Lemma assemble_progress seen c i ws now :
  collecting seen c → seq ≤ c.(cc_latest_full_frame_seq) → (i < length chs)%nat →
  progress (i :: seen) now (assemble c (fragment_header i ws) (default [] (chs !! i)) now).
Proof using Hsend.
  intros Hc Hle Hi. unfold assemble. cbv zeta.
  change (fh_frame_seq (fragment_header i ws)) with seq.
  change (fh_frag_total (fragment_header i ws)) with (u16 (Z.of_nat (length chs))).
  change (fh_frag_idx (fragment_header i ws)) with (u16 (Z.of_nat i)).
  rewrite !u16_index by lia. rewrite !Nat2Z.id.
  destruct (create_collecting seen c i ws now Hc Hle) as [Hc1 Hs1].
  set (c1 := match cc_frame_assemblies c !! seq with Some _ => c | None => _ end) in *. clearbody c1.
  assert (∃ asm, (if is_keyframe (fragment_header i ws) then evict_stale_frame_assemblies c1 now else c1).(cc_frame_assemblies)
     !! seq = Some asm) as [asm Hasm].
  { destruct Hs1 as [a Ha]. exists a. destruct (is_keyframe _); [|done].
    apply evict_keeps; [done|]. by destruct Hc1. }
  assert (collecting seen (if is_keyframe (fragment_header i ws) then evict_stale_frame_assemblies c1 now else c1))
    as Hc2 by (destruct (is_keyframe _); [by apply evict_collecting|done]).
  set (c2 := if is_keyframe _ then _ else c1) in *. clearbody c2. rewrite Hasm.
  destruct (store_progress seen c2 asm i now Hc2 Hasm Hi) as (asm' & -> & Hp). done.
Qed.

(** One fragment through the whole handler. *)
Lemma handle_progress seen c i ws now :
  fresh_frame → collecting seen c → (i < length chs)%nat → in_width 32 ws →
  ∃ r, handle_frame_datagram c (fragment_bytes i ws) now = Ok r ∧ progress (i :: seen) now r.
Proof using Hsend.
  intros [_ _ _ Hafter] Hc Hi Hws. unfold handle_frame_datagram. rewrite fragment_decodes by done.
  change (fh_frame_seq (fragment_header i ws)) with seq.
  change (fh_frag_total (fragment_header i ws)) with (u16 (Z.of_nat (length chs))).
  change (fh_frag_idx (fragment_header i ws)) with (u16 (Z.of_nat i)).
  change (fh_wire_seq (fragment_header i ws)) with ws.
  change (fh_flags (fragment_header i ws)) with (fri_flags info).
  rewrite !u16_index by lia. pose proof Hsend as [_ _ _ Hpad [Hn1 Hn2] _].
  rewrite (proj2 (Z.leb_gt _ _)), (proj2 (Z.ltb_ge _ _)) by lia. cbn [orb].
  assert (collecting seen (if ws =? NO_ACK then c else
    acknowledge (set_wire_loss c (on_received c.(cc_wire_loss) ws)) ws now)) as Hc1
    by (destruct (ws =? NO_ACK); [done|by apply ack_collecting]).
  set (c1 := if ws =? NO_ACK then c else _) in *. clearbody c1. rewrite Hpad. cbn [Z.eqb negb].
  pose proof Hc1 as [_ _ Hg Hwin _]. rewrite Hg.
  assert (match g_last_fed (cc_h264_gate c0) with Some last => seq <=? last | None => false end = false) as ->.
  { destruct (g_last_fed (cc_h264_gate c0)) as [last|] eqn:E; [|done]. specialize (Hafter last eq_refl). lia. }
  rewrite andb_false_r, (proj2 (Z.ltb_ge _ _)) by done. cbn [andb]. rewrite (proj2 (Z.eqb_neq _ _)) by lia.
  eexists. split; [done|]. apply assemble_progress; [|cbn|done].
  - by apply evict_collecting, latest_collecting.
  - destruct (Z.ltb_spec (cc_latest_full_frame_seq c1) seq); cbn; lia.
Qed.
End one_frame.

(** ** Whole sequences of datagrams *)

Fixpoint handle_frame_datagrams (c : ClientCore) (dgs : list (list Z * Z))
    : outcome unit (ClientCore * list Event) :=
  match dgs with
  | [] => Ok (c, [])
  | (bytes, now_us) :: dgs =>
      '(c, evs) ← handle_frame_datagram c bytes now_us;
      '(c, evs') ← handle_frame_datagrams c dgs;
      Ok (c, evs ++ evs')
  end.

(** A fragment's arrival: its index, its wire sequence number, the time. *)
Definition arrival_datagram (seq ts : Z) (info : FrameRefInfo) (chs : list (list Z))
    (a : nat * Z * Z) : list Z * Z :=
  let '(i, ws, now) := a in (fragment_bytes seq ts info chs i ws, now).

Definition arrival_ok (chs : list (list Z)) (a : nat * Z * Z) : Prop :=
  (a.1.1 < length chs)%nat ∧ in_width 32 a.1.2.

Lemma covered_mono n seen seen' : seen ⊆ seen' → covered n seen → covered n seen'.
Proof. rewrite !covered_spec. intros Hs H i Hi. by apply Hs, H. Qed.

(** While the unit is incomplete, nothing is handed on. *)
Lemma collect_fragments seq ts info chs c0 :
  sendable seq ts info chs → fresh_frame seq c0 →
  ∀ arr seen c, collecting seq ts info chs c0 seen c → Forall (arrival_ok chs) arr →
  ¬ covered (length chs) (reverse arr.*1.*1 ++ seen) →
  ∃ c', handle_frame_datagrams c (arrival_datagram seq ts info chs <$> arr) = Ok (c', [])
    ∧ collecting seq ts info chs c0 (reverse arr.*1.*1 ++ seen) c'.
Proof.
  intros Hs Hf. induction arr as [|[[i ws] now] arr IH]; intros seen c Hc Harr Hn; [by exists c|].
  apply Forall_cons in Harr as [[Hi Hws] Harr]. cbn [fst snd] in Hi, Hws.
  destruct (handle_progress seq ts info chs c0 Hs seen c i ws now Hf Hc Hi Hws) as (r & Hr & Hp).
  cbn [fmap list_fmap fst] in *. rewrite reverse_cons, <-(assoc_L (++)) in Hn |- *. cbn [app] in *.
  unfold progress in Hp. rewrite decide_False in Hp
    by (intros Hcov; apply Hn; eapply covered_mono; [|exact Hcov]; set_solver).
  destruct r as [c1 evs], Hp as [He Hc1]. cbn [fst snd] in He, Hc1. subst evs. destruct (IH (i :: seen) c1 Hc1 Harr Hn) as (c' & H' & Hc').
  exists c'. split; [|done]. cbn [handle_frame_datagrams arrival_datagram]. rewrite Hr, bind_Ok.
  by rewrite H', bind_Ok.
Qed.

Lemma fresh_collecting seq ts info chs c0 :
  fresh_frame seq c0 → collecting seq ts info chs c0 [] c0.
Proof.
  intros [[Hwf Hw] Hwin Hn _]. split; try done.
  - intros s a Hs. by apply (Hw s a).
  - by rewrite Hn.
Qed.

(** C2: H.264 access units are reassembled exactly.  The fragments of an access
    unit arrive in any order, with any repetitions and any wire stamps, at a
    client for which the frame is inside the window and newer than the last one
    fed.  Until every fragment has arrived no event is raised; the one that
    completes the unit raises exactly one [NeedsH264] with the concatenation of
    the chunks the server cut, if the gate of the initial state feeds the frame,
    and none if the gate refuses it; the assembly is gone afterwards. *)
Theorem frame_reassembled_exactly seq ts info chs c0 arr i ws now :
  sendable seq ts info chs → fresh_frame seq c0 →
  Forall (arrival_ok chs) arr → arrival_ok chs (i, ws, now) →
  ¬ covered (length chs) (reverse arr.*1.*1) → covered (length chs) (i :: reverse arr.*1.*1) →
  ∃ c1 c2,
    handle_frame_datagrams c0 (arrival_datagram seq ts info chs <$> arr) = Ok (c1, [])
    ∧ handle_frame_datagram c1 (fragment_bytes seq ts info chs i ws) now
      = Ok (c2, match (on_frame c0.(cc_h264_gate) (fragment_header seq ts info chs 0 0) now).2 with
                | Feed reset_decoder =>
                    [NeedsH264 seq ts (is_keyframe (fragment_header seq ts info chs 0 0))
                       info.(fri_ref_frame_seq) info.(fri_flags) info.(fri_slots) reset_decoder (concat chs)]
                | Refuse _ => []
                end)
    ∧ c2.(cc_frame_assemblies) !! seq = None.
Proof.
  intros Hs Hf Harr [Hi Hws] Hn Hcov. cbn [fst snd] in Hi, Hws.
  destruct (collect_fragments seq ts info chs c0 Hs Hf arr [] c0) as (c1 & H1 & Hc1);
    [by apply fresh_collecting|done|by rewrite app_nil_r|]. rewrite app_nil_r in Hc1.
  destruct (handle_progress seq ts info chs c0 Hs _ c1 i ws now Hf Hc1 Hi Hws) as ([c2 evs] & H2 & Hp).
  unfold progress in Hp. rewrite decide_True in Hp by done. destruct Hp as [Hev Hgone]. cbn [fst snd] in *.
  exists c1, c2. split_and!; [done| |done]. rewrite H2, Hev. unfold verdict_events. by destruct (_.2).
Qed.

Definition sample_chunks : list (list Z) := [[1; 2; 3]; [4; 5; 6]; [7]].

Lemma frame_reassembled_exactly_witness :
  ∃ c1 c2,
    handle_frame_datagrams (client_new sample_config 0)
      (arrival_datagram 9 1000 FRI_IDR sample_chunks <$> [(2%nat, 50, 10); (0%nat, 48, 11); (2%nat, NO_ACK, 12)])
      = Ok (c1, [])
    ∧ handle_frame_datagram c1 (fragment_bytes 9 1000 FRI_IDR sample_chunks 1 49) 13
      = Ok (c2, [NeedsH264 9 1000 true (fri_ref_frame_seq FRI_IDR) (fri_flags FRI_IDR)
                   (fri_slots FRI_IDR) true [1; 2; 3; 4; 5; 6; 7]])
    ∧ c2.(cc_frame_assemblies) !! 9 = None.
Proof.
  refine (frame_reassembled_exactly 9 1000 FRI_IDR sample_chunks (client_new sample_config 0)
    [(2%nat, 50, 10); (0%nat, 48, 11); (2%nat, NO_ACK, 12)] 1 49 13 _ _ _ _ _ _).
  - split; try (split; lia); try done.
    apply Nat2Z.inj_le. rewrite max_bytes_val. cbn. lia.
  - split; [apply client_new_frames_ok|done|done|done].
  - repeat constructor; done.
  - repeat constructor; done.
  - apply (bool_decide_unpack _). vm_compute. done.
  - apply (bool_decide_unpack _). vm_compute. done.
Defined.
