(* ===== verification/PartSafety.v ===== *)
(** * Safety of the client core's parts on hostile input

    What the parity decoder and the pixel decoder promise to the datagram
    pipeline: they never panic, keep their state well formed, and hand on byte
    strings. *)

From S2P Require Import Prelude Wire Cdf53Rle Cdf53Passes Prevalidate TileOut TileState Event TileDecoder TileBatch Parity Client.
From stdpp Require Import base option numbers list gmap.

Local Open Scope Z_scope.

(** ** Recovered datagrams are bytes *)

Lemma lxor_byte a b : byte a → byte b → byte (Z.lxor a b).
Proof.
  intros Ha Hb. apply in_width_bits; [lia|]. intros k Hk.
  rewrite Z.lxor_spec, (testbit_high 8 a), (testbit_high 8 b) by (done || lia). done.
Qed.

Lemma xor_into_bytes out src o : bytes out → bytes src → xor_into out src = Ok o → bytes o.
Proof.
  intros Ho Hs. unfold xor_into, assert_. destruct (_ <=? _)%nat; [|done]. rewrite bind_Ok. intros [= <-].
  apply Forall_app. split; [by apply Forall_take|].
  set (l := drop _ _). assert (bytes l) as Hl by (by apply Forall_drop). clearbody l. clear Ho out.
  revert src Hs. induction Hl as [|x l Hx _ IH]; intros src Hs; [constructor|].
  destruct Hs as [|y src Hy Hs]; [constructor|]. cbn [zip_with]. constructor; [by apply lxor_byte|by apply IH].
Qed.

Lemma xor_all_bytes srcs : ∀ out o, bytes out → Forall bytes srcs → xor_all out srcs = Ok o → bytes o.
Proof.
  induction srcs as [|s srcs IH]; intros out o Ho Hs; cbn [xor_all]; [by intros [= <-]|].
  apply Forall_cons in Hs as [H1 H2]. destruct (xor_into out s) as [o'| |] eqn:E; [|done..]. rewrite bind_Ok.
  intros Hx. eapply IH; [|exact H2|exact Hx]. by apply (xor_into_bytes out s o').
Qed.

Definition window_bytes (window : gmap Z (list Z)) : Prop := map_Forall (λ _, bytes) window.
Definition pending_bytes (pending : list (Z * TileParityEnvelope)) : Prop :=
  Forall (λ p, bytes p.2.(tp_parity_payload)) pending.

Lemma try_recover_bytes window me env r :
  window_bytes window → bytes env.(tp_parity_payload) → try_recover window me env = Ok (Some r) → bytes r.
Proof.
  intros Hw He. unfold try_recover. destruct (missing_in_window window env) as [|ws [|]]; [done| |done].
  destruct (match me with Some m => _ | None => _ end); [done|]. set (received := omap _ _).
  assert (Forall bytes received) as Hr.
  { apply Forall_forall. intros s (x & _ & Hx)%list_elem_of_omap. by apply (Hw x s). }
  destruct (xor_into _ _) as [o1| |] eqn:E1; [|done..]. rewrite bind_Ok.
  destruct (xor_all _ _) as [o2| |] eqn:E2; [|done..]. rewrite bind_Ok.
  assert (bytes o2) as Ho2.
  { eapply xor_all_bytes; [|exact Hr|exact E2]. eapply xor_into_bytes; [|exact He|exact E1].
    by apply Forall_replicate. }
  destruct (tp_source_lens env !! _); [|done]. destruct (_ <? _)%nat; [done|]. destruct (negb _); [done|].
  intros [= <-]. by apply Forall_drop.
Qed.

Lemma probe_bytes window me ws pending g r :
  window_bytes window → pending_bytes pending → probe window me ws pending = Ok (Some (g, r)) → bytes r.
Proof.
  intros Hw Hp. induction Hp as [|[g0 e] pending He _ IH]; cbn [probe]; [done|].
  destruct (negb _); [done|]. destruct (try_recover window me e) as [[r0|]| |] eqn:E; [| |done..]; rewrite bind_Ok.
  - intros [= <- <-]. by eapply try_recover_bytes.
  - done.
Qed.

Lemma evict_bytes cap order : ∀ window me,
  window_bytes window → window_bytes (evict cap window order me).1.1.
Proof.
  induction order as [|o order IH]; intros window me Hw; cbn [evict]; [done|].
  destruct (_ <? _)%nat; [|done]. apply IH. by apply map_Forall_delete.
Qed.

Lemma om_remove_Forall {V} (P : Z * V → Prop) m k : Forall P m → Forall P (om_remove m k).
Proof.
  induction 1 as [|[k0 v0] m Hx Hm IH]; cbn [om_remove]; [constructor|]. destruct (decide _); [done|by constructor].
Qed.

(** ** The parity decoder of the client *)

Record parity_ok (d : ParityDecoder) : Prop := {
  pk_wf : wf_decoder d;
  pk_capacity : d.(pd_window_capacity) = PARITY_WINDOW;
  pk_window : window_bytes d.(pd_window);
  pk_pending : pending_bytes d.(pd_pending);
}.

Lemma parity_step_capacity d d' : parity_step d d' → pd_window_capacity d' = pd_window_capacity d.
Proof. intros H. apply (parity_capacity d d'). by apply rtc_once. Qed.

Lemma record_source_ok d ws bs :
  parity_ok d → bytes bs →
  ∃ d' r, record_source d ws bs = Ok (d', r) ∧ parity_ok d' ∧ (∀ s, r = Some s → bytes s).
Proof.
  intros [Hwf Hc Hw Hp] Hb.
  assert (∃ d' r, record_source d ws bs = Ok (d', r)) as (d' & r & H).
  { unfold record_source. destruct (match pd_window d !! ws with Some _ => _ | None => _ end) as [[w o] me].
    destruct (probe_total w me ws (pd_pending d)) as (r & ->). rewrite bind_Ok. eauto. }
  exists d', r. split; [done|]. pose proof (parity_step_source d ws bs d' r H) as Hstep.
  pose proof (parity_step_wf _ _ Hstep Hwf) as Hwf'. pose proof (parity_step_capacity _ _ Hstep) as Hc'.
  unfold record_source in H.
  set (res := match pd_window d !! ws with Some _ => _ | None => _ end) in H.
  assert (window_bytes res.1.1) as Hres.
  { unfold res. destruct (pd_window d !! ws); [done|]. apply evict_bytes. by apply map_Forall_insert_2. }
  destruct res as [[w o] me]. cbn [fst] in Hres.
  destruct (probe w me ws (pd_pending d)) as [pr| |] eqn:E; [|done..]. rewrite bind_Ok in H. injection H as <- <-.
  split; [split; try done|].
  - cbn [pd_pending]. destruct pr as [[g s]|]; [by apply om_remove_Forall|done].
  - intros s Hs. destruct pr as [[g s']|]; [|done]. cbn in Hs. injection Hs as ->.
    by eapply (probe_bytes w me ws).
Qed.

Lemma Forall_filter_kept {A} (P Q : A → Prop) `{∀ x, Decision (Q x)} l : Forall P l → Forall P (filter Q l).
Proof. rewrite !Forall_forall. intros Hl x [_ Hx]%list_elem_of_filter. by apply Hl. Qed.

Lemma om_set_Forall {V} (P : Z * V → Prop) m k v :
  (∀ k', k' = k → P (k', v)) → Forall P m → Forall P (om_set m k v).
Proof.
  intros Hv. induction 1 as [|[k0 v0] m Hx Hm IH]; cbn [om_set]; [by repeat constructor; apply Hv|].
  destruct (decide _); constructor; auto.
Qed.

Lemma drop_oldest_Forall (P : Z * TileParityEnvelope → Prop) cap m : Forall P m → Forall P (drop_oldest cap m).
Proof.
  intros Hm. unfold drop_oldest. induction (length m - cap)%nat as [|n IH]; [done|].
  change (Forall P (tail (Nat.iter n om_remove_oldest m))). by destruct IH; [constructor|].
Qed.

Lemma prune_pending_Forall (P : Z * TileParityEnvelope → Prop) d m : Forall P m → Forall P (prune_pending d m).
Proof.
  intros Hm. unfold prune_pending. apply drop_oldest_Forall. destruct (pd_newest_wire_seq d); [|done].
  by apply Forall_filter_kept.
Qed.

Lemma receive_parity_ok d env :
  parity_ok d → bytes env.(tp_parity_payload) →
  ∃ d' r, receive_parity d env = Ok (d', r) ∧ parity_ok d' ∧ (∀ s, r = Some s → bytes s).
Proof.
  intros [Hwf Hc Hw Hp] Hb.
  destruct (try_recover_total (pd_window d) (pd_max_evicted d) env) as (r & Hr).
  assert (∃ d', receive_parity d env = Ok (d', r)) as (d' & H).
  { unfold receive_parity. rewrite Hr, bind_Ok. eauto. }
  exists d', r. split; [done|]. pose proof (parity_step_parity d env d' r H) as Hstep.
  pose proof (parity_step_wf _ _ Hstep Hwf) as Hwf'. pose proof (parity_step_capacity _ _ Hstep) as Hc'.
  unfold receive_parity in H. rewrite Hr, bind_Ok in H. injection H as <-.
  split; [split; try done|].
  - cbn [pd_pending]. destruct r; [done|]. destruct (_ <? _)%nat; [|done].
    apply prune_pending_Forall, om_set_Forall; [done|done].
  - intros s ->. by eapply try_recover_bytes.
Qed.

(** ** The decoder of the client *)

Record decoder_safe (d : TileDecoder) : Prop := {
  ds_tiles : wf_tiles d.(td_cdf53);
  ds_palettes : palettes_ok d.(td_palettes);
}.

Lemma decode_one_total d out ev :
  decoder_safe d → event_ok ev →
  ∃ d' out' go, decode_one push_result (d, tt, out) false ev = Ok (d', tt, out', go) ∧ decoder_safe d'.
Proof.
  intros [Ht Hp] Hev. unfold decode_one. destruct (expand_wire_ok d ev Hev) as (n & ->). rewrite bind_Ok.
  assert (decoder_safe (set_wire_failed d n)) as Hd by done. revert Hd.
  generalize (set_wire_failed d n). clear d n Ht Hp. intros d Hd. destruct (expanded ev) as [ev'|] eqn:Hex; [|by eauto].
  assert (event_ok ev' ∧ ∀ fs x y g p s pr ng, ev' ≠ TilePayload fs x y g (TDCdf53Wire p s pr ng)) as [Hev' Hnw].
  { destruct ev as [| | | |fs x y g [| | |p s pr ng]| |]; cbn [expanded] in Hex; try (injection Hex as <-; by split).
    destruct (decode_cdf53_wire _ _); [|done..]. by injection Hex as <-. }
  clear Hev Hex ev. pose proof Hd as [Ht Hp].
  destruct ev' as [fs x y rgba|w h| | |fs x y g data|id colors|]; cbn [decode_event emit_step push_result];
    try (by eauto 6).
  - eexists _, _, _. split; [done|]. split; [|done]. cbn [td_cdf53 set_cdf53]. unfold retain_tiles.
    intros q t [Hq _]%map_lookup_filter_Some. by apply (Ht q t).
  - destruct data as [quad|id c indices fl|p planes pr ng|p s pr ng]; cbn [decode_payload].
    + destruct (solid_total quad Hev') as (rgba & Hpx). rewrite (place_log _ _ _ _ _ _ _ Hpx). by eauto 6.
    + destruct Hev' as [Hid Hind]. destruct (palettes_slot _ id Hp Hid) as (slot & -> & Hsl). rewrite bind_Ok.
      destruct (pal_total slot indices Hsl Hind) as (rgba & Hpx). rewrite (place_log _ _ _ _ _ _ _ Hpx). by eauto 6.
    + destruct (td_cdf53_passthrough d); [by eauto 6|]. set (e := {| pc_generation := g |}).
      pose proof (after_ng_wf (x, y) ng _ Ht) as Hst.
      pose proof (wf_accumulate _ (x, y) e Hst (x, y) (tile_after (after_ng (x, y) ng (td_cdf53 d)) (x, y) e)) as Hlen.
      cbn [accumulate fst] in Hlen. rewrite lookup_insert_eq in Hlen. specialize (Hlen eq_refl).
      destruct (draw_total _ Hlen) as (t' & pic & Hdraw & Htl).
      erewrite decode_cdf53_each; [|exact Hst|exact Hdraw]. eexists _, _, _. split; [done|]. split; [|done].
      apply wf_insert; [done|]. by rewrite Htl.
    + by destruct (Hnw fs x y g p s pr ng).
  - destruct Hev' as [Hid Hc]. destruct (palettes_slot _ id Hp Hid) as (slot & -> & Hsl). rewrite bind_Ok.
    eexists _, _, _. split; [done|]. split; [done|]. destruct Hp as [P1 P2].
    split; cbn [td_palettes set_palettes]; [by rewrite length_insert|]. apply Forall_insert; [done|].
    by apply zip_over_ok.
Qed.

Lemma decode_each_total evs : ∀ d,
  decoder_safe d → Forall event_ok evs → ∃ d' out, decode_each d evs = Ok (d', out) ∧ decoder_safe d'.
Proof.
  induction evs as [|ev evs IH]; intros d Hd Hevs; cbn [decode_each]; [by eauto|].
  apply Forall_cons in Hevs as [Hev Hevs].
  destruct (decode_one_total d [] ev Hd Hev) as (d1 & out1 & go & H1 & Hd1).
  destruct (decode_logs _ _ _ _ _ _ H1) as (o & -> & _). rewrite bind_Ok.
  destruct (IH d1 Hd1 Hevs) as (d2 & out2 & -> & Hd2). rewrite bind_Ok. eauto.
Qed.

Lemma decoder_new_safe : decoder_safe decoder_new.
Proof.
  split; [intros q t; unfold decoder_new, tiles_new; cbn [td_cdf53]; by rewrite lookup_empty|]. split; [done|]. by repeat constructor.
Qed.
