(* ===== verification/Reassembly.v ===== *)
(** * The per-datagram pipeline ([ghostframe-client-core/src/reassembly.rs])

    [handle_datagram] is the client core's only entry point for received bytes:
    it routes parity envelopes, H.264 fragments and tile datagrams, replays what
    parity recovers, accounts for loss, acknowledges, checks tile coverage and
    hands payloads up (or their pixels, when the core decodes inline).

    This file holds the definitions.  What is proved of them is in [ClientSafety]
    (no byte string makes the handler panic, and its memory stays bounded) and in
    [Delivery] (what is acknowledged, what a recovered datagram does, and which
    frames are lost to the parity envelope's marker byte). *)

From S2P Require Import Prelude Wire Control Cdf53Passes Prevalidate TileOut TileState Event TileDecoder TileBatch PalRle Parity Batchers Gate LossTracking Coverage Client FrameAssembly.
From stdpp Require Import base option numbers list gmap.

Local Open Scope Z_scope.

(** ** Definitions *)

Inductive Cdf53Pass : Type :=
| PassPlanes (bit_planes : list Z) (present_passes : option Z)
| PassWire (streams : list Z) (present_passes : option Z).

Definition pass_present (p : Cdf53Pass) : option Z :=
  match p with PassPlanes _ present | PassWire _ present => present end.

Definition TILE_MIN : nat := DATAGRAM_HEADER_SIZE + TILE_HEADER_SIZE.

Inductive Provenance : Type := Received | Rebuilt.

#[export] Instance Provenance_eq_dec : EqDecision Provenance.
Proof. solve_decision. Defined.

Definition inside_dims (dims : option (Z * Z)) (x y : Z) : bool :=
  match dims with
  | Some (w, h) => (x <? tiles_across w) && (y <? tiles_across h)
  | None => true
  end.

Definition tile_in_grid (c : ClientCore) (tile_x tile_y : Z) : bool :=
  inside_dims c.(cc_frame_dims) tile_x tile_y.

Definition purge_outside_grid (c : ClientCore) : ClientCore :=
  let inside := inside_dims c.(cc_frame_dims) in
  let c := set_cdf53_coverage c (filter (λ '((x, y), _), inside x y = true) c.(cc_cdf53_coverage)) in
  set_pending_nacks c (filter (λ '((_, y, x), _), inside x y = true) c.(cc_pending_nacks)).

Definition in_dimension_range (v : Z) : bool := (1 <=? v) && (v <=? MAX_FRAME_DIMENSION).

Definition accept_frame_dimensions (c : ClientCore) (payload : list Z)
    : outcome unit (ClientCore * list Event) :=
  if (length payload <? 8)%nat then Ok (c, []) else
  w ← slice payload 0 4;
  h ← slice payload 4 8;
  let width := from_be w in
  let height := from_be h in
  if negb (in_dimension_range width) || negb (in_dimension_range height) then Ok (c, []) else
  let changed := negb (bool_decide (c.(cc_frame_dims) = Some (width, height))) in
  let c := set_frame_dims c (Some (width, height)) in
  let c := if changed then purge_outside_grid c else c in
  Ok (c, [FrameDimensions width height]).

(** [if let Some(msg) = ... { self.outbox.push_back(PollOutput::Stream(msg)) }] *)
Definition push_stream (c : ClientCore) (msg : option (list Z)) : ClientCore :=
  match msg with Some msg => push_out c (Stream msg) | None => c end.

Definition report_error (c : ClientCore) (codec : Codec) (tx ty : Z) (code : DecodeErrorCode) (now_us : Z)
    : ClientCore * list Event :=
  let '(b, msg) := report c.(cc_decode_error_batcher) codec tx ty code now_us in
  (push_stream (set_decode_error_batcher c b) msg, [DecodeErrorEvent codec tx ty code]).

(** [upsert.chunks_exact(4).take(count)] *)
Fixpoint quads (l : list Z) : list (list Z) :=
  match l with
  | a :: b :: c :: d :: l => [a; b; c; d] :: quads l
  | _ => []
  end.

Definition deliver_pal_rle (c : ClientCore) (frame_seq : Z) (th : TileHeader) (payload : list Z) (now_us : Z)
    : outcome unit (ClientCore * list Event) :=
  let tx := th.(th_tile_x) in
  let ty := th.(th_tile_y) in
  match prevalidate_pal_rle payload c.(cc_palette_shadow) with
  | Ok v =>
      let '(c, updated) := match v.(pv_palette_upsert) with
        | Some upsert =>
            (set_palette_shadow c (shadow_put c.(cc_palette_shadow) v.(pv_palette_id) v.(pv_count)),
             [PaletteUpdated v.(pv_palette_id) (take (Z.to_nat v.(pv_count)) (quads upsert))])
        | None => (c, [])
        end in
      Ok (c, updated ++ [TilePayload frame_seq tx ty th.(th_generation)
            (TDPalRle v.(pv_palette_id) v.(pv_count) v.(pv_indices) v.(pv_wire_flags))])
  | Err code => Ok (report_error c CPalRle tx ty code now_us)
  | Panic => Panic
  end.

(** Validation, in the form the pass will be emitted. *)
Definition accept_pass (wire : bool) (payload : list Z) (th : TileHeader) : outcome DecodeErrorCode Cdf53Pass :=
  if wire then
    info ← validate_cdf53 payload th.(th_pass);
    streams ← slice payload info.(wi_streams).1 info.(wi_streams).2;
    Ok (PassWire streams info.(wi_present_passes))
  else
    pre ← prevalidate_cdf53 payload th.(th_generation) th.(th_pass);
    Ok (PassPlanes pre.(pc_bit_planes) pre.(pc_present_passes)).

Definition pass_data (pass : Z) (p : Cdf53Pass) (new_generation : bool) : TileData :=
  match p with
  | PassPlanes bit_planes present => TDCdf53 pass bit_planes present new_generation
  | PassWire streams present => TDCdf53Wire pass streams present new_generation
  end.

(** The coverage entry held for the tile, unless its label has aged out. *)
Definition held_entry (c : ClientCore) (tx ty : Z) : option CoverageEntry :=
  match c.(cc_cdf53_coverage) !! (tx, ty) with
  | Some e => if label_expired e.(ce_frame_seq) c.(cc_newest_received_label) then None else Some e
  | None => None
  end.

(** Dropped before validation: an implausible label, or a superseded generation. *)
Definition pass_refused (c : ClientCore) (frame_seq : Z) (th : TileHeader) : bool :=
  label_runs_ahead frame_seq c.(cc_newest_received_label)
  || match held_entry c th.(th_tile_x) th.(th_tile_y) with
     | Some e => arrival_is_stale e.(ce_generation) e.(ce_frame_seq) th.(th_generation) frame_seq
     | None => false
     end.

(** Coverage and the NACKs of an arrival. *)
Definition note_coverage (c : ClientCore) (frame_seq : Z) (th : TileHeader) (outcome : ArrivalOutcome) (now_us : Z)
    : ClientCore :=
  let tx := th.(th_tile_x) in
  let ty := th.(th_tile_y) in
  let c := if outcome.(ao_committed)
           then set_cdf53_coverage c (<[(tx, ty) := outcome.(ao_entry)]> c.(cc_cdf53_coverage)) else c in
  foldl (λ c p, queue_pass_nack c frame_seq tx ty p now_us) c outcome.(ao_nack_passes).

Definition deliver_cdf53 (c : ClientCore) (frame_seq : Z) (th : TileHeader) (wire_seq : Z) (payload : list Z)
    (now_us : Z) : outcome unit (ClientCore * list Event) :=
  if pass_refused c frame_seq th then Ok (c, []) else
  let tx := th.(th_tile_x) in
  let ty := th.(th_tile_y) in
  let arrival ok present := apply_cdf53_arrival (held_entry c tx ty) th.(th_generation) th.(th_pass)
                              frame_seq now_us ok present in
  match accept_pass (delivers_cdf53_wire c) payload th with
  | Ok pre =>
      let outcome := arrival true (pass_present pre) in
      let c := note_coverage c frame_seq th outcome now_us in
      Ok (acknowledge c wire_seq now_us,
          [TilePayload frame_seq tx ty th.(th_generation)
             (pass_data th.(th_pass) pre outcome.(ao_new_generation))])
  | Err code =>
      let c := note_coverage c frame_seq th (arrival false None) now_us in
      Ok (report_error c CCdf53 tx ty code now_us)
  | Panic => Panic
  end.

Definition deliver_tile (c : ClientCore) (frame_seq : Z) (th : TileHeader) (wire_seq : Z) (payload : list Z)
    (now_us : Z) : outcome unit (ClientCore * list Event) :=
  match th.(th_codec) with
  | CSolid =>
      if (length payload =? 4)%nat then
        Ok (c, [TilePayload frame_seq th.(th_tile_x) th.(th_tile_y) th.(th_generation) (TDSolid payload)])
      else Ok (c, [])
  | CPalRle => deliver_pal_rle c frame_seq th payload now_us
  | CCdf53 => deliver_cdf53 c frame_seq th wire_seq payload now_us
  | H264 | Skip => Ok (c, [])
  end.

Definition is_frame_dims_sentinel (th : TileHeader) : bool :=
  (th.(th_tile_x) =? FRAME_DIMENSIONS_SENTINEL_X) && (th.(th_tile_y) =? FRAME_DIMENSIONS_SENTINEL_Y).
Definition is_eviction_sentinel (th : TileHeader) : bool :=
  (th.(th_tile_x) =? EVICTION_SENTINEL_X) && (th.(th_tile_y) =? EVICTION_SENTINEL_Y).
Definition is_sentinel (th : TileHeader) : bool := is_frame_dims_sentinel th || is_eviction_sentinel th.

(** The two loss trackers' view of the datagram. *)
Definition account (c : ClientCore) (dh : DatagramHeader) (sentinel : bool) (provenance : Provenance)
    (now_us : Z) : ClientCore :=
  let c := set_loss_tracker c
    (if sentinel || bool_decide (provenance = Rebuilt) then on_datagram c.(cc_loss_tracker) now_us
     else on_datagram_sent_at c.(cc_loss_tracker) now_us dh.(dh_timestamp_us)) in
  if sentinel then c else
  match provenance with
  | Received => set_wire_loss c (on_received c.(cc_wire_loss) dh.(dh_wire_seq))
  | Rebuilt =>
      let '(t, lost) := on_rebuilt c.(cc_wire_loss) dh.(dh_wire_seq) in
      let c := set_wire_loss c t in
      if lost then set_loss_tracker c (on_fec_recovery c.(cc_loss_tracker)) else c
  end.

(** The newest label the wire delivered, and the newest of all. *)
Definition note_label (c : ClientCore) (frame_seq : Z) (sentinel : bool) (provenance : Provenance) : ClientCore :=
  let c := if negb sentinel && bool_decide (provenance = Received) then
      let advance := match c.(cc_newest_received_label) with
        | None => true | Some newest => frame_seq_is_newer frame_seq newest end in
      if advance then set_newest_received_label c (Some frame_seq) else c
    else c in
  if c.(cc_latest_frame_seq) <? frame_seq then set_latest_frame_seq c frame_seq else c.

(** What the wire claims is refused before it can size anything. *)
Definition claim_refused (c : ClientCore) (dh : DatagramHeader) (th : TileHeader) : bool :=
  negb (dh.(dh_frag_total) =? 1) || negb (dh.(dh_frag_idx) =? 0)
  || negb (tile_in_grid c th.(th_tile_x) th.(th_tile_y)).

Definition handle_sentinel (c : ClientCore) (th : TileHeader) (bytes payload : list Z)
    : outcome unit (ClientCore * list Event) :=
  if is_frame_dims_sentinel th then accept_frame_dimensions c payload
  else if is_eviction_sentinel th then
    Ok (c, match parse_eviction bytes with Some reason => [Evicted reason] | None => [] end)
  else Ok (c, []).

Definition handle_source_tile (c : ClientCore) (bytes : list Z) (now_us : Z) (provenance : Provenance)
    : outcome unit (ClientCore * list Event) :=
  if (length bytes <? TILE_MIN)%nat then Ok (c, []) else
  match decode_tile_datagram bytes with
  | Err _ => Ok (c, [])
  | Panic => Panic
  | Ok (dh, th, payload) =>
      let frame_seq := Z.land dh.(dh_frame_seq) (u32 (Z.lnot TILE_DATAGRAM_FLAG)) in
      let sentinel := is_sentinel th in
      let c := account c dh sentinel provenance now_us in
      if negb sentinel && claim_refused c dh th then Ok (c, []) else
      let c := if negb sentinel && negb (bool_decide (th.(th_codec) = CCdf53))
               then acknowledge c dh.(dh_wire_seq) now_us else c in
      let c := note_label c frame_seq sentinel provenance in
      if sentinel then handle_sentinel c th bytes payload else
      if bool_decide (th.(th_codec) = Skip) then Ok (c, []) else
      deliver_tile c frame_seq th dh.(dh_wire_seq) payload now_us
  end.

(** [x.saturating_add(1)] on [u64] *)
Definition sat_succ64 (x : Z) : Z := Z.min (x + 1) (2 ^ 64 - 1).

Definition handle_datagram_payloads (c : ClientCore) (bytes : list Z) (now_us : Z)
    : outcome unit (ClientCore * list Event) :=
  match bytes with
  | [] => Ok (c, [])
  | first :: _ =>
      if (first =? TILE_PARITY_ENVELOPE) && negb (is_tile_datagram bytes) then
        match tp_decode bytes with
        | Ok env =>
            '(d, recovered) ← receive_parity c.(cc_parity_decoder) env;
            let c := set_parity_decoder c d in
            match recovered with
            | Some recovered => handle_source_tile c recovered now_us Rebuilt
            | None => Ok (c, [])
            end
        | Err _ => Ok (c, [])
        | Panic => Panic
        end
      else if (length bytes <? 20)%nat then Ok (c, []) else
      if negb (is_tile_datagram bytes) then
        if (length bytes <? FRAME_HEADER_SIZE)%nat then Ok (c, []) else
        handle_frame_datagram (set_datagrams_frame c (sat_succ64 c.(cc_datagrams_frame))) bytes now_us
      else if (length bytes <? TILE_MIN)%nat then Ok (c, []) else
      let c := set_datagrams_tile c (sat_succ64 c.(cc_datagrams_tile)) in
      ws ← slice bytes 8 12;
      let wire_seq := from_be ws in
      '(d, replayed) ← record_source c.(cc_parity_decoder) wire_seq bytes;
      let c := set_parity_decoder c d in
      '(c, evs) ← match replayed with
                  | Some replayed => handle_source_tile c replayed now_us Rebuilt
                  | None => Ok (c, [])
                  end;
      '(c, evs') ← handle_source_tile c bytes now_us Received;
      Ok (c, evs ++ evs')
  end.

Definition handle_datagram (c : ClientCore) (bytes : list Z) (now_us : Z)
    : outcome unit (ClientCore * list Event) :=
  '(c, events) ← handle_datagram_payloads c bytes now_us;
  match c.(cc_decoder) with
  | Some decoder =>
      '(decoder, out) ← decode_each decoder events;
      Ok (set_decoder c (Some decoder), out)
  | None => Ok (c, events)
  end.
