(* ===== verification/ClientSafety.v ===== *)
(** * Safety of the client core on hostile input

    [reassembly.rs] promises that nothing in its path panics on malformed or
    hostile input.  Here: from any state with the invariant [client_ok], which a
    new client has and every datagram keeps, no byte string makes
    [handle_datagram] panic, and what it keeps per tile, per frame and per parity
    group stays within fixed bounds. *)

From S2P Require Import Prelude Wire Control Cdf53Rle Cdf53Passes Prevalidate TileOut TileState Event TileDecoder TileBatch PalRle Parity Batchers Gate LossTracking Coverage Client FrameAssembly PartSafety Reassembly.
From stdpp Require Import base option numbers list gmap sorting.

Local Open Scope Z_scope.

#[local] Hint Resolve Forall_nil_2 : core.

(** ** Decoded headers *)

Lemma bytes_slice {E} l a b r : slice (E:=E) l a b = Ok r → bytes l → bytes r.
Proof. unfold slice. destruct (_ && _); [|done]. intros [= <-] Hl. by apply Forall_take, Forall_drop. Qed.

Lemma bytes_idx {E} l i x : idx (E:=E) l i = Ok x → bytes l → byte x.
Proof.
  unfold idx. destruct (l !! i) as [y|] eqn:Hi; [|done]. intros [= ->] Hl. by apply (Forall_lookup_1 _ _ _ _ Hl Hi).
Qed.

Lemma bind_inv {E A B} (m : outcome E A) (f : A → outcome E B) b :
  m ≫= f = Ok b → ∃ a, m = Ok a ∧ f a = Ok b.
Proof. destruct m; [|done..]. eauto. Qed.

Record header_ok (th : TileHeader) : Prop := {
  ho_x : byte th.(th_tile_x);
  ho_y : byte th.(th_tile_y);
  ho_pass : 0 ≤ th.(th_pass) < 16;
}.

Lemma th_decode_header data th : th_decode data = Ok th → bytes data → header_ok th.
Proof.
  unfold th_decode. destruct (_ <? _)%nat; [done|]. intros H Hb.
  apply bind_inv in H as (packed & _ & H). apply bind_inv in H as (codec & _ & H).
  apply bind_inv in H as (gp & Hgp & H). apply bind_inv in H as (x & Hx & H).
  apply bind_inv in H as (y & Hy & H). apply bind_inv in H as (pl & _ & H). injection H as <-.
  split; cbn; [by apply (bytes_idx _ _ _ Hx)|by apply (bytes_idx _ _ _ Hy)|].
  rewrite land_15. apply Z.mod_pos_bound. lia.
Qed.

Lemma decode_tile_datagram_header data dh th payload :
  decode_tile_datagram data = Ok (dh, th, payload) → bytes data → header_ok th ∧ bytes payload.
Proof.
  unfold decode_tile_datagram. intros H Hb. apply bind_inv in H as (dh' & _ & H).
  apply bind_inv in H as (rest & Hr & H). apply bind_inv in H as (th' & Hth & H).
  apply bind_inv in H as (p & Hp & H). injection H as -> -> ->.
  pose proof (bytes_slice _ _ _ _ Hr Hb) as Hrb. split; [by eapply th_decode_header|by eapply bytes_slice].
Qed.

Lemma tp_decode_bytes data env : tp_decode data = Ok env → bytes data → bytes env.(tp_parity_payload).
Proof.
  unfold tp_decode. destruct (_ <? _)%nat; [done|]. intros H Hb. apply bind_inv in H as (d & _ & H).
  destruct (negb _); [done|]. apply bind_inv in H as (g & _ & H). apply bind_inv in H as (k & _ & H).
  apply bind_inv in H as (pi & _ & H). cbv zeta in H. destruct (_ <? _)%nat; [done|].
  apply bind_inv in H as (t & _ & H). apply bind_inv in H as (p & Hp & H). injection H as <-.
  by apply (bytes_slice _ _ _ _ Hp).
Qed.

(** ** The invariant *)

Definition inside (c : ClientCore) (x y : Z) : Prop := byte x ∧ byte y ∧ tile_in_grid c x y = true.

Definition keys_inside (c : ClientCore) : Prop :=
  (∀ x y e, c.(cc_cdf53_coverage) !! (x, y) = Some e → inside c x y)
  ∧ Forall (λ k, 0 ≤ k.1.1.1 < 16 ∧ inside c k.1.2 k.1.1.2) c.(cc_pending_nacks).

Definition nacks_sorted (m : list ((Z * Z * Z) * PendingNack)) : Prop :=
  StronglySorted (λ a b, key_lt a.1 b.1 = true) m.

Record client_ok (c : ClientCore) : Prop := {
  co_frames : frames_ok c;
  co_parity : parity_ok c.(cc_parity_decoder);
  co_decoder : ∀ d, c.(cc_decoder) = Some d → decoder_safe d;
  co_dims : ∀ w h, c.(cc_frame_dims) = Some (w, h) → 1 ≤ w ≤ MAX_FRAME_DIMENSION ∧ 1 ≤ h ≤ MAX_FRAME_DIMENSION;
  co_keys : keys_inside c;
  co_nacks : nacks_sorted c.(cc_pending_nacks);
}.

(** The parts of the state the invariant reads, the frame assemblies apart. *)
Definition side (c : ClientCore) :=
  (c.(cc_parity_decoder), c.(cc_decoder), c.(cc_frame_dims), c.(cc_cdf53_coverage), c.(cc_pending_nacks)).

Lemma keys_inside_side c c' : side c' = side c → keys_inside c → keys_inside c'.
Proof. unfold keys_inside, inside, tile_in_grid. intros [= _ _ -> -> ->]. done. Qed.

Lemma client_ok_side c c' : side c' = side c → frames_ok c' → client_ok c → client_ok c'.
Proof.
  intros Hs Hf [_ H2 H3 H4 H5 H6]. pose proof (keys_inside_side c c' Hs H5). injection Hs as E1 E2 E3 E4 E5.
  split; [done|..]; rewrite ?E1, ?E2, ?E3, ?E4, ?E5; done.
Qed.

(** Steps that leave all of it alone. *)
Definition quiet (c c' : ClientCore) : Prop := side c' = side c ∧ same_frames c c'.

#[export] Instance quiet_preorder : PreOrder quiet.
Proof.
  split; [by intros c|]. intros a b c [H1 H2] [H3 H4]. split; [congruence|by eapply same_frames_trans].
Qed.

Lemma client_ok_quiet c c' : quiet c c' → client_ok c → client_ok c'.
Proof.
  intros [Hs Hf] Hc. apply (client_ok_side c); [done| |done]. apply (frames_ok_same c); [done|by destruct Hc].
Qed.

Lemma acknowledge_quiet c ws now : quiet c (acknowledge c ws now).
Proof. unfold acknowledge. by destruct (ack_add _ _ _) as [b [dg|]]. Qed.

Lemma report_error_quiet c codec x y code now : quiet c (report_error c codec x y code now).1.
Proof. unfold report_error. by destruct (report _ _ _ _ _ _) as [b [dg|]]. Qed.

Lemma account_quiet c dh s p now : quiet c (account c dh s p now).
Proof. unfold account. destruct s; [done|]. destruct p; [done|]. by destruct (on_rebuilt _ _) as [t []]. Qed.

Lemma note_label_quiet c fs s p : quiet c (note_label c fs s p).
Proof.
  unfold note_label. set (c1 := if negb s && _ then _ else c).
  assert (quiet c c1) as ->.
  { unfold c1. destruct (_ && _); [|done]. by destruct (match cc_newest_received_label c with Some _ => _ | None => _ end). }
  by destruct (_ <? _).
Qed.

Lemma after_gate_quiet c : quiet c (after_gate c).
Proof. unfold after_gate. cbn [take_request]. by destruct (g_request _) as [[]|]. Qed.

Lemma deliver_frame_side c asm seq now :
  side (deliver_frame c asm seq now).1 = side c ∧ Forall event_ok (deliver_frame c asm seq now).2.
Proof.
  unfold deliver_frame. destruct (on_frame _ _ _) as [g [rd|cause]]; cbn [fst snd].
  - split; [|by repeat constructor]. rewrite (proj1 (after_gate_quiet _)). destruct rd; [|done].
    cbn [set_h264_gate cc_decoder_broken]. by destruct (cc_decoder_broken c).
  - split; [|constructor]. rewrite (proj1 (after_gate_quiet _)). by destruct (_ && _).
Qed.

Lemma finish_frame_side c seq now :
  side (finish_frame_if_complete c seq now).1 = side c ∧ Forall event_ok (finish_frame_if_complete c seq now).2.
Proof.
  unfold finish_frame_if_complete. destruct (_ !! seq) as [asm|]; [|by split].
  destruct (_ =? _)%nat; [|by split]. apply (deliver_frame_side (set_frame_assemblies _ _)).
Qed.

Lemma assemble_side c fh payload now :
  side (assemble c fh payload now).1 = side c ∧ Forall event_ok (assemble c fh payload now).2.
Proof.
  unfold assemble. cbv zeta. set (c1 := match _ !! _ with Some _ => c | None => _ end).
  assert (side (if is_keyframe fh then evict_stale_frame_assemblies c1 now else c1) = side c) as <-.
  { unfold c1. destruct (cc_frame_assemblies c !! _); by destruct (is_keyframe fh). }
  set (c2 := if is_keyframe fh then _ else c1). clearbody c2. clear c1 c. rename c2 into c. destruct (_ !! _) as [asm|]; [|by split].
  destruct (store_fragment _ _ _); [|by split]. apply (finish_frame_side (set_frame_assemblies _ _)).
Qed.

Lemma handle_frame_side c data now c' evs :
  handle_frame_datagram c data now = Ok (c', evs) → side c' = side c ∧ Forall event_ok evs.
Proof.
  unfold handle_frame_datagram. destruct (decode_frame_datagram data) as [[fh payload]| |]; [|by intros [= <- <-]|done].
  destruct (_ || _); [by intros [= <- <-]|]. set (c1 := if _ =? NO_ACK then c else _).
  assert (side c1 = side c) as <-.
  { unfold c1. destruct (_ =? NO_ACK); [done|]. by rewrite (proj1 (acknowledge_quiet _ _ _)). }
  destruct (negb _); [by intros [= <- <-]|]. destruct (negb _ && _); [by intros [= <- <-]|].
  destruct (_ && _); [by intros [= <- <-]|]. cbv zeta. set (c2 := if _ <? _ then _ else c1).
  assert (side c2 = side c1) as <- by (unfold c2; by destruct (_ <? _)).
  destruct (_ =? 0); [by intros [= <- <-]|]. destruct (MAX_FRAME_FRAGMENTS <? _); [by intros [= <- <-]|].
  intros H%Ok_inj. pose proof (assemble_side (evict_stale_frame_assemblies c2 now) fh payload now) as Ha.
  by rewrite H in Ha.
Qed.

Lemma sorted_filter {A} (R : A → A → Prop) (Q : A → Prop) `{∀ x, Decision (Q x)} l :
  StronglySorted R l → StronglySorted R (filter Q l).
Proof.
  induction 1 as [|x l Hl IH Hx]; [constructor|]. rewrite filter_cons.
  case_decide; [constructor; [done|by apply Forall_filter_kept]|done].
Qed.

(** ** The NACK queue *)

Lemma key_lt_iff a b : key_lt a b = true ↔
  a.1.1 < b.1.1 ∨ (a.1.1 = b.1.1 ∧ (a.1.2 < b.1.2 ∨ (a.1.2 = b.1.2 ∧ a.2 < b.2))).
Proof.
  destruct a as [[a1 a2] a3], b as [[b1 b2] b3]. cbn. rewrite !orb_true_iff, !andb_true_iff, orb_true_iff, andb_true_iff.
  rewrite !Z.ltb_lt, !Z.eqb_eq. lia.
Qed.

Lemma key_lt_trans a b c : key_lt a b = true → key_lt b c = true → key_lt a c = true.
Proof. rewrite !key_lt_iff. lia. Qed.

Lemma key_lt_total a b : key_lt a b = false → key_lt b a = false → a = b.
Proof.
  intros H1 H2. rewrite <-not_true_iff_false, key_lt_iff in H1, H2.
  destruct a as [[a1 a2] a3], b as [[b1 b2] b3]. cbn in *. assert (a1 = b1 ∧ a2 = b2 ∧ a3 = b3) by lia.
  naive_solver.
Qed.

Lemma bt_insert_Forall {V} (P : (Z * Z * Z) * V → Prop) k v m : P (k, v) → Forall P m → Forall P (bt_insert k v m).
Proof.
  intros Hv. induction 1 as [|[k' v'] m Hx Hm IH]; cbn [bt_insert]; [by constructor|].
  destruct (key_lt k k'); [by repeat constructor|]. by destruct (key_lt k' k); constructor.
Qed.

Lemma bt_insert_sorted k v m : nacks_sorted m → nacks_sorted (bt_insert k v m).
Proof.
  induction 1 as [|[k' v'] m Hm IH Hx]; cbn [bt_insert]; [by repeat constructor|].
  destruct (key_lt k k') eqn:E1.
  - constructor; [by constructor|]. constructor; [done|]. eapply Forall_impl; [exact Hx|].
    intros [k2 v2]. cbn. by apply key_lt_trans.
  - destruct (key_lt k' k) eqn:E2; constructor; try done; [by apply bt_insert_Forall|].
    by rewrite (key_lt_total k k') by done.
Qed.

Definition nacks_ok (c : ClientCore) : Prop := keys_inside c ∧ nacks_sorted c.(cc_pending_nacks).

Lemma queue_pass_nack_shape c fs x y p now :
  ∃ m, (m = c.(cc_pending_nacks)
        ∨ m = bt_insert (p, y, x) (mkPendingNack fs x y p) c.(cc_pending_nacks))
    ∧ side (queue_pass_nack c fs x y p now) = side (set_pending_nacks c m)
    ∧ same_frames c (queue_pass_nack c fs x y p now).
Proof.
  unfold queue_pass_nack. destruct (bool_decide _); [by eexists; split; [left|]|].
  eexists. split; [by right|]. by destruct (cc_pending_nack_deadline_us _).
Qed.

Lemma queue_pass_nack_ok c fs x y p now :
  client_ok c → inside c x y → 0 ≤ p < 16 → client_ok (queue_pass_nack c fs x y p now).
Proof.
  intros Hc Hin Hp. destruct (queue_pass_nack_shape c fs x y p now) as (m & Hm & Hs & Hf).
  apply (client_ok_side (set_pending_nacks c m)); [done|apply (frames_ok_same c); [done|by destruct Hc]|].
  destruct Hc as [H1 H2 H3 H4 [H5 H5'] H6]. destruct Hm as [->| ->]; split; try done.
  - split; [done|]. cbn [cc_pending_nacks set_pending_nacks]. by apply bt_insert_Forall.
  - by apply bt_insert_sorted.
Qed.

(** ** Delivery *)

Lemma arrival_nacks_range prev g p fs now ok present :
  0 ≤ p < 16 → Forall (λ q, 0 ≤ q < 16) (apply_cdf53_arrival prev g p fs now ok present).(ao_nack_passes).
Proof.
  intros Hp. assert (∀ mask, Forall (λ q, 0 ≤ q < 16) (passes_below p mask)) as Hbelow.
  { intros mask. apply Forall_filter_kept, Forall_fmap, Forall_forall. intros i Hi%elem_of_seq. cbn. lia. }
  unfold apply_cdf53_arrival. set (order := match prev with Some _ => _ | None => _ end).
  assert (∀ e b, Forall (λ q, 0 ≤ q < 16) (ao_nack_passes (if ok then valid_arrival e p now b else failed_arrival prev e p b)))
    as Hboth.
  { intros e b. destruct ok.
    - unfold valid_arrival. destruct (_ =? _); [constructor|]. destruct b; [constructor|apply Hbelow].
    - unfold failed_arrival. cbn [ao_nack_passes]. destruct (_ =? 0); [by apply Forall_singleton|done]. }
  destruct order, prev; try apply Hboth. constructor.
Qed.

Lemma set_coverage_ok c x y e :
  client_ok c → inside c x y → client_ok (set_cdf53_coverage c (<[(x, y) := e]> c.(cc_cdf53_coverage))).
Proof.
  intros [H1 H2 H3 H4 [H5 H5'] H6] Hin. split; try done. split; [|done].
  intros x' y' e'. cbn [cc_cdf53_coverage set_cdf53_coverage]. intros [[[= <- <-] _]|[_ He]]%lookup_insert_Some; [done|by eapply H5].
Qed.

Lemma note_coverage_ok c fs th o now :
  client_ok c → inside c th.(th_tile_x) th.(th_tile_y) → Forall (λ q, 0 ≤ q < 16) o.(ao_nack_passes) →
  client_ok (note_coverage c fs th o now).
Proof.
  intros Hc Hin Hps. unfold note_coverage. set (c1 := if ao_committed o then _ else c).
  assert (client_ok c1 ∧ inside c1 (th_tile_x th) (th_tile_y th)) as [Hc1 Hin1].
  { unfold c1. destruct (ao_committed o); [|done]. split; [by apply set_coverage_ok|done]. }
  clearbody c1. clear c Hc Hin. revert c1 Hc1 Hin1.
  induction Hps as [|p ps Hp _ IH]; intros c Hc Hin; cbn [foldl]; [done|].
  apply IH; [by apply queue_pass_nack_ok|].
  destruct (queue_pass_nack_shape c fs (th_tile_x th) (th_tile_y th) p now) as (m & _ & [= _ _ Hd _ _] & _).
  unfold inside, tile_in_grid in *. by rewrite Hd.
Qed.

Lemma accept_pass_ok wire payload th :
  bytes payload →
  match accept_pass wire payload th with
  | Ok p => ∀ fs x y g pass ng, event_ok (TilePayload fs x y g (pass_data pass p ng))
  | Err _ => True
  | Panic => False
  end.
Proof.
  intros Hb. pose proof (validate_spec payload (th_generation th) (th_pass th) (replicate 384 0) Hb (length_replicate _ _)) as H.
  unfold accept_pass. destruct wire.
  - destruct (validate_cdf53 _ _) as [info| |]; [|done..]. rewrite bind_Ok. destruct H as (s & _ & Hs & _).
    rewrite Hs, bind_Ok. cbn. intros. by eapply bytes_slice.
  - destruct (validate_cdf53 _ _) as [info|e|]; [|by rewrite H|done]. by destruct H as (s & p & _ & _ & _ & ->).
Qed.

(** What a handler promises: no panic, the invariant kept, well-typed events. *)
Definition handled (m : outcome unit (ClientCore * list Event)) : Prop :=
  ∃ c evs, m = Ok (c, evs) ∧ client_ok c ∧ Forall event_ok evs.

Lemma handled_Ok c evs : client_ok c → Forall event_ok evs → handled (Ok (c, evs)).
Proof. by exists c, evs. Qed.

Lemma handled_error c codec x y code now : client_ok c → handled (Ok (report_error c codec x y code now)).
Proof.
  intros Hc. rewrite (surjective_pairing (report_error _ _ _ _ _ _)). apply handled_Ok.
  - by eapply client_ok_quiet; [apply report_error_quiet|].
  - unfold report_error. destruct (report _ _ _ _ _ _). by repeat constructor.
Qed.

Lemma deliver_cdf53_ok c fs th ws payload now :
  client_ok c → header_ok th → tile_in_grid c th.(th_tile_x) th.(th_tile_y) = true → bytes payload →
  handled (deliver_cdf53 c fs th ws payload now).
Proof.
  intros Hc [Hx Hy Hp] Hg Hb. unfold deliver_cdf53. destruct (pass_refused c fs th); [by apply handled_Ok|].
  pose proof (accept_pass_ok (delivers_cdf53_wire c) payload th Hb) as Ha.
  destruct (accept_pass _ _ _) as [pre|code|]; [| |done].
  - apply handled_Ok; [|by repeat constructor]. eapply client_ok_quiet; [apply acknowledge_quiet|].
    by apply note_coverage_ok; [|split|apply arrival_nacks_range].
  - apply handled_error. by apply note_coverage_ok; [|split|apply arrival_nacks_range].
Qed.

Lemma quads_length l : Forall (λ q, length q = 4%nat) (quads l).
Proof.
  cut (∀ n l, (length l ≤ n)%nat → Forall (λ q, length q = 4%nat) (quads l)); [eauto|].
  intros n. induction n as [|n IH]; intros [|a [|b [|c [|d l']]]] Hl; try constructor; cbn in Hl; [lia..| |].
  - done.
  - apply IH. lia.
Qed.

Lemma deliver_pal_rle_ok c fs th payload now :
  client_ok c → bytes payload → handled (deliver_pal_rle c fs th payload now).
Proof.
  intros Hc Hb. unfold deliver_pal_rle.
  pose proof (prevalidate_pal_rle_accepts payload (cc_palette_shadow c) Hb) as Ha.
  destruct (prevalidate_pal_rle _ _) as [v|code|]; [|by apply handled_error|done].
  destruct Ha as (Hid & Hbi & _). destruct (pv_palette_upsert v).
  - apply handled_Ok; [by apply (client_ok_quiet c)|]. 
    constructor; [split; [done|apply Forall_take, quads_length]|by apply Forall_singleton].
  - apply handled_Ok; [done|]. by apply Forall_singleton.
Qed.

Lemma deliver_tile_ok c fs th ws payload now :
  client_ok c → header_ok th → tile_in_grid c th.(th_tile_x) th.(th_tile_y) = true → bytes payload →
  handled (deliver_tile c fs th ws payload now).
Proof.
  intros Hc Hh Hg Hb. unfold deliver_tile. destruct (th_codec th); try by apply handled_Ok.
  - by apply deliver_pal_rle_ok.
  - destruct (Nat.eqb_spec (length payload) 4); apply handled_Ok; try done. by apply Forall_singleton.
  - by apply deliver_cdf53_ok.
Qed.

(** ** Sentinels and tiles *)

Lemma in_dimension_range_iff v : in_dimension_range v = true ↔ 1 ≤ v ≤ MAX_FRAME_DIMENSION.
Proof. unfold in_dimension_range. rewrite andb_true_iff, !Z.leb_le. done. Qed.

Lemma purge_outside_grid_ok c dims :
  client_ok c → (∀ w h, dims = Some (w, h) → 1 ≤ w ≤ MAX_FRAME_DIMENSION ∧ 1 ≤ h ≤ MAX_FRAME_DIMENSION) →
  client_ok (purge_outside_grid (set_frame_dims c dims)).
Proof.
  intros [H1 H2 H3 _ [H5 H5'] H6] Hd. split; try done.
  - split.
    + intros x y e. cbn [purge_outside_grid cc_cdf53_coverage set_pending_nacks set_cdf53_coverage].
      intros [He Hin]%map_lookup_filter_Some. destruct (H5 x y e He) as (? & ? & _). done.
    + cbn [purge_outside_grid cc_pending_nacks set_pending_nacks set_cdf53_coverage].
      rewrite Forall_forall. intros [[[p y] x] n] [Hin Hk]%list_elem_of_filter.
      rewrite Forall_forall in H5'. destruct (H5' _ Hk) as (? & ? & ? & _). done.
  - cbn [purge_outside_grid cc_pending_nacks set_pending_nacks set_cdf53_coverage].
    by apply sorted_filter.
Qed.

Lemma accept_frame_dimensions_ok c payload : client_ok c → handled (accept_frame_dimensions c payload).
Proof.
  intros Hc. unfold accept_frame_dimensions.
  destruct (Nat.ltb_spec (length payload) 8); [by apply handled_Ok|].
  rewrite !slice_ok by lia. rewrite !bind_Ok. set (w := from_be _). set (h := from_be _).
  destruct (in_dimension_range w) eqn:Hw; [|by apply handled_Ok].
  destruct (in_dimension_range h) eqn:Hh; [|by apply handled_Ok]. cbn [negb orb].
  apply in_dimension_range_iff in Hw, Hh. apply handled_Ok; [|by repeat constructor].
  destruct (decide (cc_frame_dims c = Some (w, h))) as [E|E].
  - rewrite bool_decide_true by done. cbn [negb]. apply (client_ok_quiet c); [|done]. split; [|done].
    unfold side. cbn. by rewrite E.
  - rewrite bool_decide_false by done. cbn [negb]. apply purge_outside_grid_ok; [done|]. by intros ?? [= <- <-].
Qed.

Lemma handle_sentinel_ok c th data payload : client_ok c → handled (handle_sentinel c th data payload).
Proof.
  intros Hc. unfold handle_sentinel. destruct (is_frame_dims_sentinel th); [by apply accept_frame_dimensions_ok|].
  destruct (is_eviction_sentinel th); [|by apply handled_Ok]. apply handled_Ok; [done|].
  destruct (parse_eviction data); by repeat constructor.
Qed.

Lemma handle_source_tile_ok c data now p :
  client_ok c → bytes data → handled (handle_source_tile c data now p).
Proof.
  intros Hc Hb. unfold handle_source_tile. destruct (_ <? _)%nat; [by apply handled_Ok|].
  pose proof (decode_tile_datagram_no_panic data) as Hnp.
  destruct (decode_tile_datagram data) as [[[dh th] payload]| |] eqn:Hdec; [|by apply handled_Ok|done].
  destruct (decode_tile_datagram_header _ _ _ _ Hdec Hb) as [Hh Hpb]. cbv zeta.
  set (s := is_sentinel th). set (c1 := account c dh s p now).
  assert (client_ok c1) as Hc1 by (by eapply client_ok_quiet; [apply account_quiet|]). clearbody c1.
  destruct (negb s && claim_refused c1 dh th) eqn:Hcl; [by apply handled_Ok|].
  set (c2 := if negb s && _ then acknowledge c1 _ _ else c1).
  assert (quiet c1 c2) as Hq2 
    by (unfold c2; destruct (negb s && negb _); [apply acknowledge_quiet|done]). clearbody c2.
  pose proof (note_label_quiet c2 (Z.land (dh_frame_seq dh) (u32 (Z.lnot TILE_DATAGRAM_FLAG))) s p) as Hq3.
  set (c3 := note_label _ _ _ _) in *. clearbody c3.
  assert (quiet c1 c3) as Hq by (by transitivity c2). pose proof (client_ok_quiet _ _ Hq Hc1) as Hc3.
  destruct s; [by apply handle_sentinel_ok|]. destruct (bool_decide _); [by apply handled_Ok|].
  apply deliver_tile_ok; try done. cbn [negb andb] in Hcl. unfold claim_refused in Hcl.
  apply orb_false_iff in Hcl as [_ Hg%negb_false_iff]. destruct Hq as [[= _ _ Hd _ _] _].
  unfold tile_in_grid in *. by rewrite Hd.
Qed.

Lemma set_parity_ok c d : client_ok c → parity_ok d → client_ok (set_parity_decoder c d).
Proof. intros [H1 H2 H3 H4 H5 H6] Hd. by split. Qed.

Lemma handle_datagram_payloads_ok c data now :
  client_ok c → bytes data → handled (handle_datagram_payloads c data now).
Proof.
  intros Hc Hb. unfold handle_datagram_payloads. destruct data as [|first rest]; [by apply handled_Ok|].
  set (data := first :: rest) in *. destruct (_ && _).
  { pose proof (tp_decode_no_panic data) as Hnp. destruct (tp_decode data) as [env| |] eqn:He; [|by apply handled_Ok|done].
    pose proof (tp_decode_bytes _ _ He Hb) as Heb.
    destruct (receive_parity_ok (cc_parity_decoder c) env (co_parity _ Hc) Heb) as (d & r & -> & Hd & Hr).
    rewrite bind_Ok. pose proof (set_parity_ok c d Hc Hd) as Hc'.
    destruct r as [s|]; [|by apply handled_Ok]. apply handle_source_tile_ok; [done|by apply Hr]. }
  destruct (Nat.ltb_spec (length data) 20); [by apply handled_Ok|]. destruct (negb (is_tile_datagram data)).
  { destruct (_ <? FRAME_HEADER_SIZE)%nat; [by apply handled_Ok|].
    set (c1 := set_datagrams_frame _ _). assert (client_ok c1) as Hc1 by (by apply (client_ok_quiet c)).
    destruct (handle_frame_ok c1 data now (co_frames _ Hc1)) as (c' & evs & H' & Hf').
    destruct (handle_frame_side _ _ _ _ _ H') as [Hs Hev]. rewrite H'. apply handled_Ok; [|done].
    by apply (client_ok_side c1). }
  destruct (Nat.ltb_spec (length data) TILE_MIN) as [|Hmin]; [by apply handled_Ok|].
  rewrite slice_ok by lia. rewrite bind_Ok. set (c1 := set_datagrams_tile _ _).
  assert (client_ok c1) as Hc1 by (by apply (client_ok_quiet c)). clearbody c1. clear c Hc.
  destruct (record_source_ok (cc_parity_decoder c1) (from_be (take (12 - 8) (drop 8 data))) data (co_parity _ Hc1) Hb)
    as (d & r & Hrec & Hd & Hr). rewrite Hrec, bind_Ok. pose proof (set_parity_ok c1 d Hc1 Hd) as Hc2.
  assert (handled (match r with
    | Some replayed => handle_source_tile (set_parity_decoder c1 d) replayed now Rebuilt
    | None => Ok (set_parity_decoder c1 d, []) end)) as (c3 & evs & -> & Hc3 & Hevs).
  { destruct r as [s|]; [|by apply handled_Ok]. apply handle_source_tile_ok; [done|by apply Hr]. }
  rewrite bind_Ok. destruct (handle_source_tile_ok c3 data now Received Hc3 Hb) as (c4 & evs' & -> & Hc4 & Hevs').
  rewrite bind_Ok. apply handled_Ok; [done|]. by apply Forall_app.
Qed.

Lemma handle_datagram_ok c data now :
  client_ok c → bytes data → ∃ c' evs, handle_datagram c data now = Ok (c', evs) ∧ client_ok c'.
Proof.
  intros Hc Hb. unfold handle_datagram.
  destruct (handle_datagram_payloads_ok c data now Hc Hb) as (c1 & evs & -> & Hc1 & Hevs). rewrite bind_Ok.
  destruct (cc_decoder c1) as [d|] eqn:Hd; [|by eauto].
  destruct (decode_each_total evs d (co_decoder _ Hc1 d Hd) Hevs) as (d' & out & -> & Hd'). rewrite bind_Ok.
  eexists _, _. split; [done|]. destruct Hc1 as [H1 H2 H3 H4 H5 H6]. split; try done. by intros ? [= <-].
Qed.

(** ** Timers and the other entry points *)

Lemma h264_result_quiet c fs o now : quiet c (h264_result c fs o now).
Proof.
  unfold h264_result. cbv zeta. set (c1 := match o with Decoded => _ | _ => _ end).
  assert (quiet c c1) as ->; [|apply after_gate_quiet].
  unfold c1. destruct o; try done. by destruct (negb _).
Qed.

Lemma flush_one_quiet now p c q : quiet c (flush_one now (c, q) p).1.
Proof.
  unfold flush_one. destruct (arrived_since c p); [done|]. by destruct (nack_add _ _ _) as [b [dg|]].
Qed.

Lemma flush_fold_quiet now ps : ∀ c q, quiet c (foldl (flush_one now) (c, q) ps).1.
Proof.
  induction ps as [|p ps IH]; intros c q; cbn [foldl]; [done|].
  pose proof (flush_one_quiet now p c q) as Hq. destruct (flush_one now (c, q) p) as [c1 q1]. by rewrite Hq.
Qed.

Lemma client_ok_nacks_nil c : client_ok c → client_ok (set_pending_nacks c []).
Proof. intros [H1 H2 H3 H4 [H5 H5'] H6]. split; try done. constructor. Qed.

Lemma flush_pending_nacks_ok c now : client_ok c → client_ok (flush_pending_nacks c now).
Proof.
  intros Hc. unfold flush_pending_nacks. set (c1 := set_pending_nack_deadline_us c None).
  assert (client_ok c1) as Hc1 by (by apply (client_ok_quiet c)). clearbody c1. clear c Hc.
  destruct (cc_pending_nacks c1) as [|k m]; [done|].
  pose proof (flush_fold_quiet now (k :: m).*2 (set_pending_nacks c1 []) false) as Hq.
  destruct (foldl _ _ _) as [c2 queued]. pose proof (client_ok_quiet _ _ Hq (client_ok_nacks_nil _ Hc1)) as Hc2.
  destruct queued; [|done]. destruct (nack_flush _) as [b [dg|]]; by apply (client_ok_quiet c2).
Qed.

Lemma queue_fold_ok (f : Z → bool) fs x y now ps : ∀ c,
  client_ok c → inside c x y → Forall (λ p, 0 ≤ p < 16) ps →
  let c' := foldl (λ c p, if f p then queue_pass_nack c fs x y p now else c) c ps in
  client_ok c' ∧ inside c' x y.
Proof.
  induction ps as [|p ps IH]; intros c Hc Hin Hps; cbn [foldl]; [done|].
  apply Forall_cons in Hps as [Hp Hps]. destruct (f p); [|by apply IH]. apply IH; [by apply queue_pass_nack_ok| |done].
  destruct (queue_pass_nack_shape c fs x y p now) as (m & _ & [= _ _ Hd _ _] & _).
  unfold inside, tile_in_grid in *. by rewrite Hd.
Qed.

Lemma sweep_tile_ok now c key : client_ok c → client_ok (sweep_tile now c key).
Proof.
  intros Hc. unfold sweep_tile. destruct key as [x y]. destruct (cc_cdf53_coverage c !! (x, y)) as [e|] eqn:He; [|done].
  destruct (_ =? 0); [done|]. cbn [fst snd].
  destruct (queue_fold_ok (λ p, negb (Z.land (sweep_mask e now) (bit16 p) =? 0)) (ce_frame_seq e) x y now
    (Z.of_nat <$> seq 0 14) c Hc) as [Hc' Hin].
  - by apply (proj1 (co_keys _ Hc) x y e).
  - apply Forall_fmap, Forall_forall. intros i Hi%elem_of_seq. cbn. lia.
  - by apply set_coverage_ok.
Qed.

Lemma tail_sweep_ok c now : client_ok c → client_ok (tail_sweep c now).
Proof.
  intros Hc. unfold tail_sweep. destruct (_ <? _); [done|]. set (c1 := set_next_tail_sweep_us _ _).
  assert (client_ok c1) as Hc1 by (by apply (client_ok_quiet c)). clearbody c1.
  generalize ((map_to_list (cc_cdf53_coverage c1)).*1). intros ks. revert c1 Hc1.
  induction ks as [|k ks IH]; intros c1 Hc1; cbn [foldl]; [done|]. by apply IH, sweep_tile_ok.
Qed.

Lemma on_timeout_ok c now : client_ok c → client_ok (on_timeout c now).
Proof.
  intros Hc. unfold on_timeout. destruct (ack_on_timeout _ _) as [b dg].
  set (c1 := match dg with Some _ => _ | None => _ end).
  assert (quiet c c1) as Hq1.
  { unfold c1. destruct dg; cbn [push_out set_outbox set_ack_batcher cc_send_frame_acks]; (destruct (cc_send_frame_acks c); [|done]).
    - by destruct (take_due _ _) as [w [a|]].
    - by destruct (take_overdue _ _) as [w [a|]]. }
  pose proof (client_ok_quiet _ _ Hq1 Hc) as Hc1. clearbody c1. clear c Hc Hq1 dg b.
  destruct (nack_on_timeout _ _) as [nb dg]. set (c2 := push_datagram _ _).
  assert (client_ok c2) as Hc2 by (unfold c2; destruct dg; by apply (client_ok_quiet c1)). clearbody c2.
  set (c3 := match cc_pending_nack_deadline_us c2 with Some _ => _ | None => _ end).
  assert (client_ok c3) as Hc3.
  { unfold c3. destruct (cc_pending_nack_deadline_us c2); [|done]. destruct (_ <=? _); [|done].
    by apply flush_pending_nacks_ok. }
  clearbody c3. pose proof (tail_sweep_ok c3 now Hc3) as Hc4. set (c4 := tail_sweep c3 now) in *. clearbody c4.
  destruct (_ <=? _); [|done]. destruct (encode_feedback _ _) as [t msg]. by apply (client_ok_quiet c4).
Qed.

Lemma poll_transmit_quiet c : quiet c (poll_transmit c).1.
Proof. unfold poll_transmit. by destruct (cc_outbox c). Qed.

Lemma set_tile_delivery_ok c b : client_ok c → client_ok (set_tile_delivery c b).
Proof.
  intros [H1 H2 H3 H4 H5 H6]. split; try done. cbn [set_tile_delivery set_decoder cc_decoder].
  destruct b; [|done]. intros d [= <-]. apply decoder_new_safe.
Qed.

Lemma client_new_ok config now : client_ok (client_new config now).
Proof.
  split; [apply client_new_frames_ok|..]; try done.
  - split; [apply parity_new_wf|done|apply map_Forall_empty|constructor].
  - cbn [client_new cc_decoder]. destruct (cf_tile_delivery_decoded config); [|done].
    intros d [= <-]. apply decoder_new_safe.
  - constructor.
Qed.

(** ** Reachable states *)

(** One call of the core's public interface. *)
Inductive client_step (c : ClientCore) : ClientCore → Prop :=
| step_datagram data now c' evs :
    bytes data → handle_datagram c data now = Ok (c', evs) → client_step c c'
| step_timeout now : client_step c (on_timeout c now)
| step_h264_result frame_seq o now : client_step c (h264_result c frame_seq o now)
| step_poll_transmit : client_step c (poll_transmit c).1
| step_encode_feedback now : client_step c (client_encode_feedback c now).1
| step_set_tile_delivery decoded : client_step c (set_tile_delivery c decoded)
| step_set_cdf53_wire on : client_step c (set_cdf53_wire c on)
| step_request_display_mode w h : client_step c (request_display_mode c w h)
| step_request_reset reason frame_seq : client_step c (request_reset c reason frame_seq).

Lemma client_step_ok c c' : client_step c c' → client_ok c → client_ok c'.
Proof.
  intros Hs Hc. destruct Hs as [data now c' evs Hb H|now|fs o now| |now|b|b|w h|r fs].
  - destruct (handle_datagram_ok c data now Hc Hb) as (c2 & evs2 & H2 & Hc2). congruence.
  - by apply on_timeout_ok.
  - by eapply client_ok_quiet; [apply h264_result_quiet|].
  - by eapply client_ok_quiet; [apply poll_transmit_quiet|].
  - apply (client_ok_quiet c); [|done]. unfold client_encode_feedback. by destruct (encode_feedback _ _).
  - by apply set_tile_delivery_ok.
  - by apply (client_ok_quiet c).
  - by apply (client_ok_quiet c).
  - by apply (client_ok_quiet c).
Qed.

Lemma reachable_ok config t0 c : rtc client_step (client_new config t0) c → client_ok c.
Proof.
  intros H. cut (∀ a b, rtc client_step a b → client_ok a → client_ok b).
  { intros Hr. apply (Hr _ _ H), client_new_ok. }
  clear. induction 1 as [|a b c Hs _ IH]; [done|]. intros Ha. by apply IH, (client_step_ok a).
Qed.

(** ** Bounds *)

Definition grid (cols rows : Z) : list (Z * Z) := list_prod (seqZ 0 cols) (seqZ 0 rows).

Lemma length_grid cols rows : 0 ≤ cols → 0 ≤ rows → Z.of_nat (length (grid cols rows)) = cols * rows.
Proof. intros Hc Hr. unfold grid. rewrite length_prod, !length_seqZ. lia. Qed.

Lemma elem_of_grid cols rows x y : 0 ≤ x < cols → 0 ≤ y < rows → (x, y) ∈ grid cols rows.
Proof. intros Hx Hy. apply list_elem_of_In, in_prod_iff. rewrite <-!list_elem_of_In, !elem_of_seqZ. lia. Qed.

Lemma grid_bound cols rows (l : list (Z * Z)) :
  0 ≤ cols → 0 ≤ rows → NoDup l → Forall (λ k, 0 ≤ k.1 < cols ∧ 0 ≤ k.2 < rows) l → Z.of_nat (length l) ≤ cols * rows.
Proof.
  intros Hc Hr Hn Hl. rewrite <-(length_grid cols rows) by done. apply inj_le, submseteq_length, NoDup_submseteq; [done|].
  intros [x y] Hk. rewrite Forall_forall in Hl. destruct (Hl _ Hk) as [??]. by apply elem_of_grid.
Qed.

Lemma tiles_across_pos w : 1 ≤ w → 1 ≤ tiles_across w.
Proof. intros H. unfold tiles_across. dlia. Qed.

Lemma coverage_keys_NoDup (m : gmap (Z * Z) CoverageEntry) : NoDup (map_to_list m).*1.
Proof. apply NoDup_fst_map_to_list. Qed.

Lemma coverage_bounded c :
  client_ok c →
  Z.of_nat (size c.(cc_cdf53_coverage)) ≤ 65536
  ∧ ∀ w h, c.(cc_frame_dims) = Some (w, h) →
      Z.of_nat (size c.(cc_cdf53_coverage)) ≤ tiles_across w * tiles_across h.
Proof.
  intros [_ _ _ H4 [H5 _] _]. rewrite <-length_map_to_list, <-(length_fmap fst).
  assert (∀ k, k ∈ (map_to_list (cc_cdf53_coverage c)).*1 → inside c k.1 k.2) as Hin.
  { intros [x y] ([k e] & [= <-] & He%elem_of_map_to_list)%list_elem_of_fmap. by apply (H5 x y e). }
  split.
  - apply (grid_bound 256 256); [lia..|apply coverage_keys_NoDup|].
    apply Forall_forall. intros k (Hx & Hy & _)%Hin. widths. lia.
  - intros w h Hd. destruct (H4 w h Hd) as [[? _] [? _]].
    pose proof (tiles_across_pos w). pose proof (tiles_across_pos h).
    apply grid_bound; [lia..|apply coverage_keys_NoDup|]. apply Forall_forall.
    intros k (Hx & Hy & Hg)%Hin. unfold tile_in_grid, inside_dims in Hg. rewrite Hd in Hg.
    apply andb_true_iff in Hg as [?%Z.ltb_lt ?%Z.ltb_lt]. widths. lia.
Qed.

Lemma sorted_NoDup m : nacks_sorted m → NoDup m.*1.
Proof.
  induction 1 as [|k m Hm IH Hk]; [constructor|]. rewrite fmap_cons. constructor; [|done].
  intros (k' & Heq & Hk')%list_elem_of_fmap. rewrite Forall_forall in Hk. specialize (Hk k' Hk').
  rewrite Heq, key_lt_iff in Hk. lia.
Qed.

Lemma nacks_bounded c : client_ok c → Z.of_nat (length c.(cc_pending_nacks)) ≤ 16 * 65536.
Proof.
  intros [_ _ _ _ [_ H5] H6]. rewrite <-(length_fmap fst).
  set (f := λ k : Z * Z * Z, (k.1.1 * 256 + k.1.2, k.2)).
  assert (∀ k k', 0 ≤ k.1.2 < 256 → 0 ≤ k'.1.2 < 256 → f k = f k' → k = k') as Hinj.
  { intros [[a b] d] [[a' b'] d']. cbn. intros ?? [= ??]. assert (a = a' ∧ b = b') as [-> ->] by lia. by subst. }
  rewrite <-(length_fmap f). change (16 * 65536) with (4096 * 256). apply grid_bound; [lia..| |].
  - apply NoDup_fmap_2_strong; [|by apply sorted_NoDup]. intros k k' Hk Hk'. rewrite Forall_forall in H5.
    apply list_elem_of_fmap in Hk as (n & -> & Hn), Hk' as (n' & -> & Hn').
    destruct (H5 n Hn) as (_ & _ & Hy & _), (H5 n' Hn') as (_ & _ & Hy' & _). by apply Hinj.
  - rewrite !Forall_fmap. eapply Forall_impl; [exact H5|]. intros [[[p y] x] n] (Hp & Hx & Hy & _). cbn in *.
    widths. lia.
Qed.

(** C3: No received byte string breaks the client.  Whatever sequence of datagrams,
    timeouts, decoder answers and mode changes a client has been through, any
    further datagram is handled without panic, and afterwards the client holds at
    most four frame assemblies, forty parity sources and forty pending parities,
    coverage for at most the tiles of its grid (65536 before it knows one), and
    queued NACKs, in strict (pass, row, column) order, for such tiles only. *)
Theorem hostile_datagrams_safe config t0 c data now :
  rtc client_step (client_new config t0) c → bytes data →
  ∃ c' evs, handle_datagram c data now = Ok (c', evs)
    ∧ (size c'.(cc_frame_assemblies) ≤ 4)%nat
    ∧ (size c'.(cc_parity_decoder).(pd_window) ≤ 40)%nat
    ∧ (length c'.(cc_parity_decoder).(pd_pending) ≤ 40)%nat
    ∧ Z.of_nat (size c'.(cc_cdf53_coverage)) ≤ 65536
    ∧ (∀ w h, c'.(cc_frame_dims) = Some (w, h) → w ≤ 8192 ∧ h ≤ 8192
        ∧ Z.of_nat (size c'.(cc_cdf53_coverage)) ≤ tiles_across w * tiles_across h)
    ∧ Forall (λ k, tile_in_grid c' k.1.2 k.1.1.2 = true) c'.(cc_pending_nacks)
    ∧ nacks_sorted c'.(cc_pending_nacks)
    ∧ Z.of_nat (length c'.(cc_pending_nacks)) ≤ 16 * 65536.
Proof.
  intros Hr Hb. pose proof (reachable_ok _ _ _ Hr) as Hc.
  destruct (handle_datagram_ok c data now Hc Hb) as (c' & evs & H & Hc'). exists c', evs.
  destruct (coverage_bounded c' Hc') as [B1 B2]. pose proof (nacks_bounded c' Hc') as B3.
  destruct Hc' as [H1 [[_ _ W1 W2] Hcap _ _] H3 H4 [_ H5] H6].
  rewrite Hcap in W1, W2. split_and!; try done.
  - by apply frames_bounded.
  - intros w h Hd. destruct (H4 w h Hd) as [[_ ?] [_ ?]]. unfold MAX_FRAME_DIMENSION in *. split_and!; [done..|by apply B2].
  - eapply Forall_impl; [exact H5|]. intros k (_ & _ & _ & ?). done.
Qed.

Lemma hostile_datagrams_safe_witness :
  ∃ c' evs, handle_datagram (on_timeout (client_new sample_config 0) 700000)
      (4 :: replicate 30 255) 700100 = Ok (c', evs) ∧ (size c'.(cc_frame_assemblies) ≤ 4)%nat.
Proof.
  destruct (hostile_datagrams_safe sample_config 0 (on_timeout (client_new sample_config 0) 700000)
    (4 :: replicate 30 255) 700100) as (c' & evs & H & Hf & _).
  - apply rtc_once, step_timeout.
  - unfold bytes. constructor; [widths; lia|apply Forall_replicate; widths; lia].
  - by exists c', evs.
Defined.
