(* ===== verification/Delivery.v ===== *)
(** * What reaches the consumer

    The functional side of [reassembly.rs]: a CDF 5/3 pass is acknowledged exactly
    when it is handed up and recorded; a datagram that parity recovers has the
    effect it would have had, had it arrived; and the fragments of H.264 frames
    whose sequence number starts with the parity marker byte never reach frame
    assembly. *)

From S2P Require Import Prelude Wire Control Cdf53Passes Prevalidate TileOut TileState Event TileDecoder TileBatch PalRle Parity Batchers Gate LossTracking Coverage Client FrameAssembly PartSafety Reassembly ClientSafety.
From stdpp Require Import base option numbers list gmap.

Local Open Scope Z_scope.

(** ** Loss accounting is only accounting *)

(** The state with other parity and loss bookkeeping. *)
Definition with_accounts (d : ParityDecoder) (t : LossTracker) (w : WireLossTracker) (c : ClientCore) : ClientCore :=
  set_parity_decoder (set_loss_tracker (set_wire_loss c w) t) d.

Section accounts.
Context (d : ParityDecoder) (t : LossTracker) (w : WireLossTracker).
Abbreviation wa := (with_accounts d t w).

Lemma wa_acknowledge c ws now : acknowledge (wa c) ws now = wa (acknowledge c ws now).
Proof.
  unfold acknowledge. cbn [with_accounts set_parity_decoder set_loss_tracker set_wire_loss cc_ack_batcher].
  by destruct (ack_add _ _ _) as [b [dg|]].
Qed.

Lemma wa_note_label c fs s p : note_label (wa c) fs s p = wa (note_label c fs s p).
Proof.
  unfold note_label. destruct (_ && _).
  - cbn [with_accounts set_parity_decoder set_loss_tracker set_wire_loss cc_newest_received_label].
    destruct (match cc_newest_received_label c with Some _ => _ | None => _ end); cbn; by destruct (_ <? _).
  - cbn [with_accounts set_parity_decoder set_loss_tracker set_wire_loss cc_latest_frame_seq]. by destruct (_ <? _).
Qed.

(** A handler that reads and writes none of it. *)
Definition blind (f : ClientCore → outcome unit (ClientCore * list Event)) (c : ClientCore) : Prop :=
  f (wa c) = ('(c', evs) ← f c; Ok (wa c', evs)).

Lemma wa_report_error c codec x y code now :
  blind (λ c, Ok (report_error c codec x y code now)) c.
Proof.
  unfold blind, report_error.
  cbn [with_accounts set_parity_decoder set_loss_tracker set_wire_loss cc_decode_error_batcher].
  by destruct (report _ _ _ _ _ _) as [b [dg|]].
Qed.

Lemma wa_queue_pass_nack c fs x y p now : queue_pass_nack (wa c) fs x y p now = wa (queue_pass_nack c fs x y p now).
Proof.
  unfold queue_pass_nack. cbn [with_accounts set_parity_decoder set_loss_tracker set_wire_loss cc_pending_nacks].
  destruct (bool_decide _); [done|]. cbn. by destruct (cc_pending_nack_deadline_us c).
Qed.

Lemma wa_note_coverage c fs th o now : note_coverage (wa c) fs th o now = wa (note_coverage c fs th o now).
Proof.
  unfold note_coverage.
  assert ((if ao_committed o then set_cdf53_coverage (wa c) (<[(th_tile_x th, th_tile_y th) := ao_entry o]> (cc_cdf53_coverage (wa c))) else wa c)
    = wa (if ao_committed o then set_cdf53_coverage c (<[(th_tile_x th, th_tile_y th) := ao_entry o]> (cc_cdf53_coverage c)) else c))
    as -> by (by destruct (ao_committed o)).
  set (c1 := if ao_committed o then _ else c). generalize (ao_nack_passes o). intros ps. clearbody c1. revert c1.
  induction ps as [|p ps IH]; intros c1; cbn [foldl]; [done|]. by rewrite wa_queue_pass_nack, IH.
Qed.

Lemma wa_deliver_cdf53 c fs th ws payload now : blind (λ c, deliver_cdf53 c fs th ws payload now) c.
Proof.
  unfold blind, deliver_cdf53. change (pass_refused (wa c) fs th) with (pass_refused c fs th).
  destruct (pass_refused c fs th); [done|]. change (delivers_cdf53_wire (wa c)) with (delivers_cdf53_wire c).
  change (held_entry (wa c)) with (held_entry c).
  destruct (accept_pass _ _ _) as [pre|code|]; [| |done].
  - by rewrite wa_note_coverage, wa_acknowledge.
  - rewrite wa_note_coverage. apply wa_report_error.
Qed.

Lemma wa_deliver_tile c fs th ws payload now : blind (λ c, deliver_tile c fs th ws payload now) c.
Proof.
  unfold deliver_tile. destruct (th_codec th); try done.
  - unfold blind, deliver_pal_rle. change (cc_palette_shadow (wa c)) with (cc_palette_shadow c).
    destruct (prevalidate_pal_rle _ _) as [v|code|]; [|apply wa_report_error|done].
    by destruct (pv_palette_upsert v).
  - unfold blind. by destruct (_ =? _)%nat.
  - apply wa_deliver_cdf53.
Qed.

Lemma wa_handle_sentinel c th data payload : blind (λ c, handle_sentinel c th data payload) c.
Proof.
  unfold blind, handle_sentinel. destruct (is_frame_dims_sentinel th); [|by destruct (is_eviction_sentinel th)].
  unfold accept_frame_dimensions. destruct (_ <? _)%nat; [done|].
  destruct (slice payload 0 4); [|done..]. rewrite !bind_Ok. destruct (slice payload 4 8); [|done..]. rewrite !bind_Ok.
  destruct (_ || _); [done|]. change (cc_frame_dims (wa c)) with (cc_frame_dims c). by destruct (negb _).
Qed.
End accounts.

(** The label of a tile datagram. *)
Definition tile_label (dh : DatagramHeader) : Z := Z.land dh.(dh_frame_seq) (u32 (Z.lnot TILE_DATAGRAM_FLAG)).

(** [handle_source_tile] once the loss trackers have seen the datagram. *)
Definition process (dh : DatagramHeader) (th : TileHeader) (data payload : list Z) (now : Z) (p : Provenance)
    (c : ClientCore) : outcome unit (ClientCore * list Event) :=
  let sentinel := is_sentinel th in
  if negb sentinel && claim_refused c dh th then Ok (c, []) else
  let c := if negb sentinel && negb (bool_decide (th.(th_codec) = CCdf53))
           then acknowledge c dh.(dh_wire_seq) now else c in
  let c := note_label c (tile_label dh) sentinel p in
  if sentinel then handle_sentinel c th data payload else
  if bool_decide (th.(th_codec) = Skip) then Ok (c, []) else
  deliver_tile c (tile_label dh) th dh.(dh_wire_seq) payload now.

Lemma decode_tile_datagram_length data r : decode_tile_datagram data = Ok r → (TILE_MIN ≤ length data)%nat.
Proof.
  unfold decode_tile_datagram. intros H. apply bind_inv in H as (dh & _ & H).
  apply bind_inv in H as (rest & Hr & H). apply bind_inv in H as (th & Hth%th_decode_ok & _).
  unfold slice in Hr. destruct (_ && _) eqn:E; [|done]. injection Hr as <-.
  apply andb_true_iff in E as [E%Nat.leb_le _]. rewrite length_take, length_drop in Hth.
  unfold TILE_MIN, DATAGRAM_HEADER_SIZE, TILE_HEADER_SIZE in *. lia.
Qed.

Lemma handle_source_process c data now p dh th payload :
  decode_tile_datagram data = Ok (dh, th, payload) →
  handle_source_tile c data now p = process dh th data payload now p (account c dh (is_sentinel th) p now).
Proof.
  intros H. unfold handle_source_tile. rewrite (proj2 (Nat.ltb_ge _ _)) by (by eapply decode_tile_datagram_length).
  by rewrite H.
Qed.

Lemma process_blind d t w dh th data payload now p c : blind d t w (process dh th data payload now p) c.
Proof.
  unfold blind, process. cbv zeta. change (claim_refused (with_accounts d t w c) dh th) with (claim_refused c dh th).
  destruct (_ && claim_refused c dh th); [done|].
  assert ((if negb (is_sentinel th) && negb (bool_decide (th_codec th = CCdf53))
      then acknowledge (with_accounts d t w c) (dh_wire_seq dh) now else with_accounts d t w c)
    = with_accounts d t w (if negb (is_sentinel th) && negb (bool_decide (th_codec th = CCdf53))
      then acknowledge c (dh_wire_seq dh) now else c)) as ->
    by (destruct (_ && _); [apply wa_acknowledge|done]).
  rewrite wa_note_label. destruct (is_sentinel th); [apply wa_handle_sentinel|].
  destruct (bool_decide (th_codec th = Skip)); [done|]. apply wa_deliver_tile.
Qed.

Lemma account_shape c d dh s p now :
  ∃ t w, account (set_parity_decoder c d) dh s p now = with_accounts d t w c.
Proof.
  unfold account. destruct s; cbn [orb]; [by eexists _, _|]. destruct p; [by eexists _, _|].
  cbn [bool_decide]. destruct (on_rebuilt _ _) as [t []]; by eexists _, _.
Qed.

(** The label of the datagram is no news to the client. *)
Definition label_known (c : ClientCore) (data : list Z) : Prop :=
  ∀ dh th payload, decode_tile_datagram data = Ok (dh, th, payload) →
    ∃ newest, c.(cc_newest_received_label) = Some newest ∧ frame_seq_is_newer (tile_label dh) newest = false.

Lemma process_provenance c dh th data payload now :
  (∃ newest, c.(cc_newest_received_label) = Some newest ∧ frame_seq_is_newer (tile_label dh) newest = false) →
  process dh th data payload now Received c = process dh th data payload now Rebuilt c.
Proof.
  intros (n & Hn & Hnew). unfold process. cbv zeta. destruct (_ && claim_refused c dh th); [done|].
  set (c1 := if negb (is_sentinel th) && negb _ then _ else c).
  assert (cc_newest_received_label c1 = Some n) as Hn1.
  { unfold c1. destruct (negb (is_sentinel th) && negb _); [|done]. unfold acknowledge. by destruct (ack_add _ _ _) as [b [dg|]]. }
  assert (note_label c1 (tile_label dh) (is_sentinel th) Received
    = note_label c1 (tile_label dh) (is_sentinel th) Rebuilt) as ->; [|done].
  unfold note_label. rewrite !bool_decide_true, !bool_decide_false by done. rewrite Hn1, Hnew, andb_false_r.
  clearbody c1. by destruct (_ && _).
Qed.

(** ** Recovery by parity *)

Lemma small_first_not_tile b l : bytes (b :: l) → b < 128 → is_tile_datagram (b :: l) = false.
Proof.
  intros Hb Hlt. unfold is_tile_datagram. destruct (Nat.ltb_spec (length (b :: l)) 4) as [|Hl]; [done|].
  destruct l as [|x [|y [|z l]]]; cbn [length] in Hl; try lia. cbn [take]. repeat (apply Forall_cons in Hb as [? Hb]).
  change TILE_DATAGRAM_FLAG with (2 ^ 31). rewrite bit_set by lia. apply (testbit_high 31); [|lia].
  rewrite take_0. unfold from_be. change (reverse [b; x; y; z]) with [z; y; x; b]. cbn [from_le]. widths. lia.
Qed.

Lemma envelope_tp_ok r h : wire_group r h → tp_ok (envelope_of r).
Proof.
  intros ((_ & Hfirst & Hk & Hlens & _) & Hok & H255 & Hs). destruct h as [|[f b0] h']; [done|].
  cbn in Hfirst. injection Hfirst as Hfirst. pose proof (Forall_lookup_1 _ _ 0%nat _ Hok eq_refl) as Hf. cbn in Hf.
  unfold tp_ok, envelope_of. cbn. rewrite <-Hk, Hlens, <-Hfirst. cbn [length] in *. split_and!.
  - done.
  - widths. lia.
  - widths. lia.
  - rewrite !length_fmap. done.
  - apply Forall_fmap, Forall_forall. intros bs Hq. cbn. unfold u16, wrap, in_width. apply Z.mod_pos_bound. lia.
Qed.

Lemma tp_encode_not_tile e : is_tile_datagram (tp_encode e []) = false.
Proof.
  unfold tp_encode. rewrite app_nil_l. unfold is_tile_datagram. destruct (_ <? _)%nat; [done|].
  destruct (be4_cons (tp_group_first_wire_seq e)) as (x & y & z & u & E).
  assert (bytes [x; y; z; u]) as Hb by (rewrite <-E; apply bytes_be_bytes). rewrite E.
  cbn [app take]. change TILE_DATAGRAM_FLAG with (2 ^ 31). rewrite bit_set by lia.
  apply (testbit_high 31); [|lia]. repeat (apply Forall_cons in Hb as [? Hb]). unfold from_be.
  change (reverse [TILE_PARITY_ENVELOPE; x; y; z]) with [z; y; x; 4]. cbn [from_le]. widths. lia.
Qed.

(** C9: A lost tile datagram that parity recovers counts as received.  Let the client
    hold every datagram of a parity group but one, whose label is not newer than
    the newest it has seen.  Then the arrival of the group's parity envelope, in
    its wire form, hands up exactly the events the lost datagram itself would
    have, and leaves the client in the same state (acknowledgement, coverage,
    palettes, NACKs, everything), the loss and parity bookkeeping apart. *)
Theorem recovered_as_received c r h m ws s now :
  client_ok c → wire_group r h → h !! m = Some (ws, s) → bytes s →
  window_misses c.(cc_parity_decoder).(pd_window) h m →
  match c.(cc_parity_decoder).(pd_max_evicted) with Some e => seq_le ws e = false | None => True end →
  label_known c s →
  ∃ c1 c2 evs d t w,
    handle_datagram_payloads c (tp_encode (envelope_of r) []) now = Ok (c1, evs)
    ∧ handle_source_tile c s now Received = Ok (c2, evs)
    ∧ c1 = with_accounts d t w c2.
Proof.
  intros Hc Hg Hm Hb Hw Hev Hlab. pose proof (tile_parity_roundtrip _ (envelope_tp_ok r h Hg)) as Hrt.
  assert (∃ d, receive_parity (cc_parity_decoder c) (envelope_of r) = Ok (d, Some s)) as (d & Hrec).
  { unfold receive_parity. rewrite (try_recover_exact _ _ r h m ws s Hg Hm Hw Hev), bind_Ok. eauto. }
  assert (handle_datagram_payloads c (tp_encode (envelope_of r) []) now
    = handle_source_tile (set_parity_decoder c d) s now Rebuilt) as ->.
  { unfold handle_datagram_payloads.
    assert (is_tile_datagram (tp_encode (envelope_of r) []) = false) as Ht by apply tp_encode_not_tile.
    set (data := tp_encode _ _) in *. destruct data as [|b l] eqn:E; [done|].
    injection E as <- <-. rewrite Ht, Hrt, Hrec. done. }
  destruct (handle_source_tile_ok c s now Received Hc Hb) as (c2 & evs & H2 & _).
  destruct (decode_tile_datagram s) as [[[dh th] payload]|e|] eqn:Hdec.
  - pose proof H2 as H2'. rewrite (handle_source_process _ _ _ _ _ _ _ Hdec) in H2. rewrite (handle_source_process _ _ _ _ _ _ _ Hdec).
    destruct (account_shape c d dh (is_sentinel th) Rebuilt now) as (t1 & w1 & ->).
    destruct (account_shape c (cc_parity_decoder c) dh (is_sentinel th) Received now) as (t2 & w2 & Ha).
    assert (set_parity_decoder c (cc_parity_decoder c) = c) as Hid by (by destruct c).
    rewrite Hid in Ha. rewrite Ha in H2. rewrite process_blind in H2. rewrite process_blind.
    rewrite <-(process_provenance c) by (apply (Hlab _ _ _ Hdec)).
    destruct (process _ _ _ _ _ Received c) as [[c0 evs0]| |]; [|done..]. rewrite bind_Ok in H2. rewrite bind_Ok.
    injection H2 as <- <-.
    by exists (with_accounts d t1 w1 c0), (with_accounts (cc_parity_decoder c) t2 w2 c0), evs0, d, t1, w1.
  - pose proof H2 as H2'. unfold handle_source_tile in H2 |- * at 1. rewrite Hdec in *. destruct (_ <? _)%nat; injection H2 as <- <-;
      by exists (set_parity_decoder c d), c, [], d, (cc_loss_tracker c), (cc_wire_loss c).
  - by destruct (decode_tile_datagram_no_panic s).
Qed.

(** Two solid tiles of one frame, and the parity the server makes of them. *)
Definition solid_dg (ws x : Z) : list Z :=
  dh_encode (mkDatagramHeader (TILE_DATAGRAM_FLAG + 7) 0 1 ws 0) []
  ++ th_encode (mkTileHeader x 0 CSolid false 0 0 4) [] ++ [10; 20; x; 255].
Definition solid_run : list (Z * list Z) := [(5, solid_dg 5 3); (6, solid_dg 6 4)].
Definition solid_group : GroupResult :=
  {| gr_group_first_wire_seq := 5; gr_k := 2; gr_source_lens := [28; 28];
     gr_parity := replicate 11 0 ++ [3] ++ replicate 4 0 ++ [7] ++ replicate 9 0 ++ [7; 0] |}.

(** The client after the second of them. *)
Definition half_group_client : ClientCore :=
  set_newest_received_label (set_parity_decoder (client_new sample_config 0)
    {| pd_window := {[ 6 := solid_dg 6 4 ]}; pd_order := [6]; pd_pending := []; pd_newest_wire_seq := Some 6;
       pd_window_capacity := PARITY_WINDOW; pd_max_evicted := None |}) (Some 7).

Lemma solid_wire_group : wire_group solid_group solid_run.
Proof.
  assert (seqs_ok solid_run) as Hok by (repeat constructor; wsolve).
  split_and!; [|done|cbn; lia|repeat constructor; vm_compute; done].
  split_and!; [|done|done|done|vm_compute; reflexivity].
  intros [|[|i]] ws bs Hi; cbn in Hi; [| |done]; injection Hi as <- _; vm_compute; reflexivity.
Qed.

Lemma solid_bytes ws x : byte ws → byte x → bytes (solid_dg ws x).
Proof.
  intros Hw Hx. unfold solid_dg, dh_encode, th_encode. cbn [app dh_frame_seq dh_frag_idx dh_frag_total dh_wire_seq
    dh_timestamp_us th_tile_x th_tile_y th_payload_len].
  repeat (apply Forall_app; split); try apply bytes_be_bytes; repeat constructor; widths; try lia.
  all: vm_compute; done.
Qed.

Lemma half_group_ok : client_ok half_group_client.
Proof.
  apply (client_ok_quiet (set_parity_decoder (client_new sample_config 0) (cc_parity_decoder half_group_client))); [done|].
  apply set_parity_ok; [apply client_new_ok|]. split; [split|done|..]; cbn [half_group_client cc_parity_decoder
    set_newest_received_label set_parity_decoder pd_order pd_window pd_pending pd_window_capacity].
  - apply NoDup_singleton.
  - by rewrite dom_singleton_L, list_to_set_singleton_L.
  - rewrite map_size_singleton. unfold PARITY_WINDOW. lia.
  - cbn. lia.
  - apply map_Forall_singleton. apply solid_bytes; widths; lia.
  - constructor.
Qed.

Lemma recovered_as_received_witness :
  ∃ c1 c2 evs d t w,
    handle_datagram_payloads half_group_client (tp_encode (envelope_of solid_group) []) 9000 = Ok (c1, evs)
    ∧ handle_source_tile half_group_client (solid_dg 5 3) 9000 Received = Ok (c2, evs)
    ∧ c1 = with_accounts d t w c2.
Proof.
  apply (recovered_as_received half_group_client solid_group solid_run 0 5 (solid_dg 5 3) 9000).
  - exact half_group_ok.
  - exact solid_wire_group.
  - reflexivity.
  - apply solid_bytes; widths; lia.
  - intros [|[|i]] ws bs Hi; cbn in Hi; [| |done]; injection Hi as <- <-; reflexivity.
  - exact I.
  - intros dh th payload H. exists 7. split; [reflexivity|]. vm_compute in H. injection H as <- _ _. reflexivity.
Defined.

(** ** Acknowledgement of passes *)

Lemma bit16_testbit p q : 0 ≤ p < 16 → 0 ≤ q → Z.testbit (bit16 p) q = (p =? q).
Proof.
  intros Hp Hq. unfold bit16. rewrite Z.shiftl_1_l. rewrite wrap_small.
  - by apply testbit_pow2; lia.
  - split; [apply Z.pow_nonneg; lia|apply Z.pow_lt_mono_r; lia].
Qed.

Definition not_stale (prev : option CoverageEntry) (g fs : Z) : Prop :=
  ∀ e, prev = Some e → arrival_is_stale e.(ce_generation) e.(ce_frame_seq) g fs = false.

Lemma not_stale_order prev g fs e : not_stale prev g fs → prev = Some e →
  classify_arrival e.(ce_generation) e.(ce_frame_seq) g fs ≠ StaleArrival.
Proof. intros H He. specialize (H e He). unfold arrival_is_stale in H. by apply bool_decide_eq_false in H. Qed.

Lemma classify_current gh fh g fs : classify_arrival gh fh g fs = Current → g = gh.
Proof.
  unfold classify_arrival. destruct (negb _); [by destruct (frame_seq_is_newer _ _)|].
  destruct (Z.eqb_spec g gh); [done|]. by destruct (generation_is_newer _ _).
Qed.

Lemma valid_arrival_mask e p now b :
  0 ≤ p < 16 → let o := valid_arrival e p now b in
  o.(ao_committed) = true ∧ Z.testbit o.(ao_entry).(ce_pass_mask) p = true
  ∧ o.(ao_entry).(ce_generation) = e.(ce_generation).
Proof.
  intros Hp. unfold valid_arrival. cbv zeta.
  assert (Z.testbit (Z.lor (ce_pass_mask e) (bit16 p)) p = true) as Hbit.
  { rewrite Z.lor_spec, bit16_testbit, Z.eqb_refl by lia. apply orb_true_r. }
  destruct (_ =? _); [done|]. by destruct b.
Qed.

Lemma arrival_valid prev g p fs now present :
  not_stale prev g fs → 0 ≤ p < 16 →
  let o := apply_cdf53_arrival prev g p fs now true present in
  o.(ao_committed) = true ∧ Z.testbit o.(ao_entry).(ce_pass_mask) p = true ∧ o.(ao_entry).(ce_generation) = g.
Proof.
  intros Hs Hp. unfold apply_cdf53_arrival. cbv zeta. destruct prev as [e|].
  - pose proof (not_stale_order _ _ _ e Hs eq_refl) as Hne.
    destruct (classify_arrival _ _ _ _) eqn:Hc; [| |done].
    + destruct (valid_arrival_mask (note_arrival e p present) p now false Hp) as (? & ? & Hg).
      split_and!; [done..|]. rewrite (classify_current _ _ _ _ Hc). exact Hg.
    + apply (valid_arrival_mask (note_arrival (entry_new g fs now) p present) p now true Hp).
  - apply (valid_arrival_mask (note_arrival (entry_new g fs now) p present) p now true Hp).
Qed.

Lemma arrival_failed prev g p fs now :
  let o := apply_cdf53_arrival prev g p fs now false None in
  o.(ao_committed) = true → ∃ e, prev = Some e ∧ o.(ao_entry).(ce_pass_mask) = e.(ce_pass_mask).
Proof.
  unfold apply_cdf53_arrival. cbv zeta. destruct prev as [e|]; [|done].
  destruct (classify_arrival _ _ _ _); try done. intros _. exists e. split; [done|].
  unfold failed_arrival. cbn. by destruct (_ =? 0).
Qed.

Lemma queue_fold_coverage fs x y now ps : ∀ c,
  let c' := foldl (λ c p, queue_pass_nack c fs x y p now) c ps in
  c'.(cc_cdf53_coverage) = c.(cc_cdf53_coverage) ∧ c'.(cc_ack_batcher) = c.(cc_ack_batcher)
  ∧ c'.(cc_outbox) = c.(cc_outbox).
Proof.
  induction ps as [|p ps IH]; intros c; cbn [foldl]; [done|].
  destruct (IH (queue_pass_nack c fs x y p now)) as (-> & -> & ->). unfold queue_pass_nack.
  destruct (bool_decide _); [done|]. cbn. by destruct (cc_pending_nack_deadline_us c).
Qed.

Lemma note_coverage_coverage c fs th o now :
  let c' := note_coverage c fs th o now in
  c'.(cc_cdf53_coverage) = (if o.(ao_committed)
    then <[(th.(th_tile_x), th.(th_tile_y)) := o.(ao_entry)]> c.(cc_cdf53_coverage) else c.(cc_cdf53_coverage))
  ∧ c'.(cc_ack_batcher) = c.(cc_ack_batcher) ∧ c'.(cc_outbox) = c.(cc_outbox).
Proof.
  cbv zeta. unfold note_coverage.
  match goal with |- context [foldl _ ?c0 ?l] => destruct (queue_fold_coverage fs (th_tile_x th) (th_tile_y th) now l c0) as (-> & -> & ->) end.
  by destruct (ao_committed o).
Qed.

Lemma note_label_fields c fs s p :
  let c' := note_label c fs s p in
  c'.(cc_cdf53_coverage) = c.(cc_cdf53_coverage) ∧ c'.(cc_ack_batcher) = c.(cc_ack_batcher)
  ∧ c'.(cc_outbox) = c.(cc_outbox) ∧ delivers_cdf53_wire c' = delivers_cdf53_wire c.
Proof.
  cbv zeta. unfold note_label. destruct (_ && _).
  - destruct (match cc_newest_received_label c with Some _ => _ | None => _ end); by destruct (_ <? _).
  - by destruct (_ <? _).
Qed.

Lemma held_entry_Some c x y e : held_entry c x y = Some e → c.(cc_cdf53_coverage) !! (x, y) = Some e.
Proof. unfold held_entry. destruct (_ !! _); [|done]. by destruct (label_expired _ _). Qed.

Definition is_payload (ev : Event) : bool := match ev with TilePayload _ _ _ _ _ => true | _ => false end.

(** The pass was handed up, acknowledged and recorded. *)
Definition pass_delivered (c c' : ClientCore) (evs : list Event) (dh : DatagramHeader) (th : TileHeader)
    (payload : list Z) (now : Z) : Prop :=
  ∃ pre new_generation e,
    accept_pass (delivers_cdf53_wire c) payload th = Ok pre
    ∧ evs = [TilePayload (tile_label dh) th.(th_tile_x) th.(th_tile_y) th.(th_generation)
               (pass_data th.(th_pass) pre new_generation)]
    ∧ c'.(cc_ack_batcher) = (acknowledge c dh.(dh_wire_seq) now).(cc_ack_batcher)
    ∧ c'.(cc_outbox) = (acknowledge c dh.(dh_wire_seq) now).(cc_outbox)
    ∧ c'.(cc_cdf53_coverage) !! (th.(th_tile_x), th.(th_tile_y)) = Some e
    ∧ e.(ce_generation) = th.(th_generation) ∧ Z.testbit e.(ce_pass_mask) th.(th_pass) = true.

(** It was neither handed up nor acknowledged, and no pass counts as received. *)
Definition pass_dropped (c c' : ClientCore) (evs : list Event) (th : TileHeader) : Prop :=
  Forall (λ ev, is_payload ev = false) evs
  ∧ c'.(cc_ack_batcher) = c.(cc_ack_batcher)
  ∧ ∀ e', c'.(cc_cdf53_coverage) !! (th.(th_tile_x), th.(th_tile_y)) = Some e' →
      ∃ e, c.(cc_cdf53_coverage) !! (th.(th_tile_x), th.(th_tile_y)) = Some e
           ∧ e'.(ce_pass_mask) = e.(ce_pass_mask).

Lemma pass_dropped_same c c' evs th :
  Forall (λ ev, is_payload ev = false) evs → c'.(cc_ack_batcher) = c.(cc_ack_batcher) →
  c'.(cc_cdf53_coverage) = c.(cc_cdf53_coverage) → pass_dropped c c' evs th.
Proof. intros H1 H2 H3. split_and!; [done..|]. rewrite H3. eauto. Qed.

Lemma acknowledge_fields c1 c2 ws now :
  c1.(cc_ack_batcher) = c2.(cc_ack_batcher) → c1.(cc_outbox) = c2.(cc_outbox) →
  (acknowledge c1 ws now).(cc_ack_batcher) = (acknowledge c2 ws now).(cc_ack_batcher)
  ∧ (acknowledge c1 ws now).(cc_outbox) = (acknowledge c2 ws now).(cc_outbox)
  ∧ (acknowledge c1 ws now).(cc_cdf53_coverage) = c1.(cc_cdf53_coverage).
Proof.
  intros H1 H2. unfold acknowledge. rewrite <-H1. destruct (ack_add _ _ _) as [b [dg|]]; cbn; by rewrite <-?H2.
Qed.

Lemma deliver_cdf53_outcome c dh th payload now c' evs :
  header_ok th → deliver_cdf53 c (tile_label dh) th dh.(dh_wire_seq) payload now = Ok (c', evs) →
  pass_delivered c c' evs dh th payload now ∨ pass_dropped c c' evs th.
Proof.
  intros [_ _ Hp]. unfold deliver_cdf53. destruct (pass_refused c _ th) eqn:Hr.
  { intros [= <- <-]. right. by apply pass_dropped_same. }
  assert (not_stale (held_entry c (th_tile_x th) (th_tile_y th)) (th_generation th) (tile_label dh)) as Hns.
  { intros e He. unfold pass_refused in Hr. rewrite He in Hr. by apply orb_false_iff in Hr as [_ ?]. }
  destruct (accept_pass _ _ _) as [pre|code|] eqn:Ha; [| |done].
  - set (o := apply_cdf53_arrival _ _ _ _ _ true _). intros [= <- <-]. left.
    destruct (arrival_valid _ _ (th_pass th) (tile_label dh) now (pass_present pre) Hns Hp) as (Hcom & Hbit & Hgen).
    fold o in Hcom, Hbit, Hgen. destruct (note_coverage_coverage c (tile_label dh) th o now) as (Hcov & Hab & Hob).
    destruct (acknowledge_fields _ c (dh_wire_seq dh) now Hab Hob) as (Ea & Eo & Ec).
    exists pre, (ao_new_generation o), (ao_entry o). split_and!; try done.
    by rewrite Ec, Hcov, Hcom, lookup_insert_eq.
  - set (o := apply_cdf53_arrival _ _ _ _ _ false _). intros H%Ok_inj. right. destruct (note_coverage_coverage c (tile_label dh) th o now) as (Hcov & Hab & Hob).
    unfold report_error in H. destruct (report _ _ _ _ _ _) as [b msg]. injection H as <- <-. split_and!.
    + by apply Forall_singleton.
    + rewrite <-Hab. by destruct msg.
    + intros e'. assert (∀ cc, cc_cdf53_coverage (push_stream (set_decode_error_batcher cc b) msg) = cc_cdf53_coverage cc)
        as -> by (intros; by destruct msg). rewrite Hcov. destruct (ao_committed o) eqn:Hcom; [|by eauto].
      rewrite lookup_insert_eq. intros [= <-]. destruct (arrival_failed _ _ _ _ _ Hcom) as (e & He%held_entry_Some & Hm).
      eauto.
Qed.

(** C18: A CDF 5/3 pass is acknowledged exactly when it is handed up.  For any tile
    datagram of that codec, received or rebuilt, either its payload is validated,
    handed up as the one event, its transmission acknowledged once and the pass
    recorded in the tile's coverage under its generation; or no payload is handed
    up, nothing is acknowledged, and no pass of the tile counts as received that
    did not before, so that the server retransmits it. *)
Theorem pass_acked_iff_delivered c data now p dh th payload :
  client_ok c → bytes data → decode_tile_datagram data = Ok (dh, th, payload) →
  is_sentinel th = false → th.(th_codec) = CCdf53 →
  ∃ c' evs, handle_source_tile c data now p = Ok (c', evs)
    ∧ (pass_delivered c c' evs dh th payload now ∨ pass_dropped c c' evs th).
Proof.
  intros Hc Hb Hdec Hs Hcodec. destruct (handle_source_tile_ok c data now p Hc Hb) as (c' & evs & H & _).
  exists c', evs. split; [done|]. destruct (decode_tile_datagram_header _ _ _ _ Hdec Hb) as [Hh _].
  rewrite (handle_source_process _ _ _ _ _ _ _ Hdec) in H.
  destruct (account_shape c (cc_parity_decoder c) dh (is_sentinel th) p now) as (t & w & Ha).
  assert (set_parity_decoder c (cc_parity_decoder c) = c) as Hid by (by destruct c).
  rewrite Hid in Ha. rewrite Ha, process_blind in H. clear Ha Hid.
  unfold process in H. rewrite Hs, Hcodec in H. cbn [negb andb] in H. cbv zeta in H.
  destruct (claim_refused c dh th).
  { injection H as <- <-. right. by apply pass_dropped_same. }
  rewrite (bool_decide_true (CCdf53 = CCdf53)), (bool_decide_false (CCdf53 = Skip)) in H by done. cbn [negb] in H.
  destruct (note_label_fields c (tile_label dh) false p) as (F1 & F2 & F3 & F4).
  set (c1 := note_label _ _ _ _) in *. unfold deliver_tile in H. rewrite Hcodec in H.
  destruct (deliver_cdf53 c1 _ th _ payload now) as [[c2 evs2]| |] eqn:Hd; [|done..]. injection H as <- <-.
  destruct (deliver_cdf53_outcome _ _ _ _ _ _ _ Hh Hd) as [(pre & ng & e & H1 & H2 & H3 & H4 & H5)|(H1 & H2 & H3)].
  - left. exists pre, ng, e. destruct (acknowledge_fields c1 c (dh_wire_seq dh) now F2 F3) as (E1 & E2 & _).
    rewrite <-E1, <-E2, <-F4. by split_and!; destruct H5 as (? & ? & ?).
  - right. split_and!; [done| |].
    + cbn. by rewrite H2.
    + rewrite <-F1. exact H3.
Qed.

(** The first pass of a tile, all planes empty. *)
Definition blank_pass : list Z := [0; 1; 0; 1; 255; 0; 1; 255; 0; 1; 255].
Definition pass_dg (ws : Z) : list Z :=
  dh_encode (mkDatagramHeader (TILE_DATAGRAM_FLAG + 7) 0 1 ws 0) []
  ++ th_encode (mkTileHeader 3 0 CCdf53 false 2 0 11) [] ++ blank_pass.

Lemma pass_bytes ws : bytes (pass_dg ws).
Proof.
  unfold pass_dg, dh_encode, th_encode. cbn [app dh_frame_seq dh_frag_idx dh_frag_total dh_wire_seq
    dh_timestamp_us th_tile_x th_tile_y th_payload_len].
  repeat (apply Forall_app; split); try apply bytes_be_bytes; repeat constructor; vm_compute; done.
Qed.

Lemma pass_acked_iff_delivered_witness :
  let c := client_new sample_config 0 in
  ∃ dh th payload c' evs, handle_source_tile c (pass_dg 5) 9000 Received = Ok (c', evs)
    ∧ (pass_delivered c c' evs dh th payload 9000 ∨ pass_dropped c c' evs th).
Proof.
  exists (mkDatagramHeader (TILE_DATAGRAM_FLAG + 7) 0 1 5 0), (mkTileHeader 3 0 CCdf53 false 2 0 11), blank_pass.
  apply (pass_acked_iff_delivered (client_new sample_config 0) (pass_dg 5) 9000 Received).
  - apply client_new_ok.
  - apply pass_bytes.
  - vm_compute. reflexivity.
  - reflexivity.
  - reflexivity.
Defined.

(** ** The parity marker shadows a block of H.264 frames *)

(** What the frame path alone changes or emits. *)
Definition frame_view (c : ClientCore) :=
  (c.(cc_frame_assemblies), c.(cc_h264_gate), c.(cc_datagrams_frame), c.(cc_frame_acks)).

Definition no_h264 (ev : Event) : Prop := match ev with NeedsH264 _ _ _ _ _ _ _ _ => False | _ => True end.

Definition idle (c : ClientCore) (m : outcome unit (ClientCore * list Event)) : Prop :=
  match m with Ok (c', evs) => frame_view c' = frame_view c ∧ Forall no_h264 evs | _ => True end.

Lemma idle_view c c1 m : frame_view c1 = frame_view c → idle c1 m → idle c m.
Proof. intros H. unfold idle. by rewrite H. Qed.

Lemma acknowledge_view c ws now : frame_view (acknowledge c ws now) = frame_view c.
Proof. unfold acknowledge. by destruct (ack_add _ _ _) as [b [dg|]]. Qed.

Lemma note_label_view c fs s p : frame_view (note_label c fs s p) = frame_view c.
Proof.
  unfold note_label. destruct (_ && _); [|by destruct (_ <? _)].
  destruct (match cc_newest_received_label c with Some _ => _ | None => _ end); by destruct (_ <? _).
Qed.

Lemma note_coverage_view c fs th o now : frame_view (note_coverage c fs th o now) = frame_view c.
Proof.
  unfold note_coverage. set (c1 := if ao_committed o then _ else c).
  assert (frame_view c1 = frame_view c) as <- by (unfold c1; by destruct (ao_committed o)).
  generalize (ao_nack_passes o). intros ps. generalize c1. clear c c1.
  induction ps as [|p ps IH]; intros c; cbn [foldl]; [done|]. rewrite IH. unfold queue_pass_nack.
  destruct (bool_decide _); [done|]. cbn. by destruct (cc_pending_nack_deadline_us c).
Qed.

Lemma report_error_idle c codec x y code now : idle c (Ok (report_error c codec x y code now)).
Proof. unfold idle, report_error. destruct (report _ _ _ _ _ _) as [b [dg|]]; by split; [|apply Forall_singleton]. Qed.

Lemma deliver_tile_idle c fs th ws payload now : idle c (deliver_tile c fs th ws payload now).
Proof.
  unfold deliver_tile. destruct (th_codec th); try by split.
  - unfold deliver_pal_rle. destruct (prevalidate_pal_rle _ _) as [v|code|]; [|apply report_error_idle|done].
    destruct (pv_palette_upsert v); split; try done; by repeat constructor.
  - destruct (_ =? _)%nat; split; try done. by apply Forall_singleton.
  - unfold deliver_cdf53. destruct (pass_refused c fs th); [by split|].
    destruct (accept_pass _ _ _) as [pre|code|]; [| |done].
    + split; [by rewrite acknowledge_view, note_coverage_view|by apply Forall_singleton].
    + eapply idle_view; [apply note_coverage_view|apply report_error_idle].
Qed.

Lemma handle_sentinel_idle c th data payload : idle c (handle_sentinel c th data payload).
Proof.
  unfold handle_sentinel. destruct (is_frame_dims_sentinel th).
  - unfold accept_frame_dimensions. destruct (_ <? _)%nat; [by split|].
    destruct (slice payload 0 4); [|done..]. rewrite bind_Ok. destruct (slice payload 4 8); [|done..]. rewrite bind_Ok.
    destruct (_ || _); [by split|]. split; [by destruct (negb _)|by apply Forall_singleton].
  - destruct (is_eviction_sentinel th); [|by split]. split; [done|]. destruct (parse_eviction data); by repeat constructor.
Qed.

Lemma handle_source_tile_idle c data now p : idle c (handle_source_tile c data now p).
Proof.
  destruct (decode_tile_datagram data) as [[[dh th] payload]|e|] eqn:Hdec.
  2: { unfold handle_source_tile. rewrite Hdec. by destruct (_ <? _)%nat; split. }
  2: { unfold handle_source_tile. rewrite Hdec. by destruct (_ <? _)%nat; [split|]. }
  rewrite (handle_source_process _ _ _ _ _ _ _ Hdec).
  destruct (account_shape c (cc_parity_decoder c) dh (is_sentinel th) p now) as (t & w & Ha).
  assert (set_parity_decoder c (cc_parity_decoder c) = c) as Hid by (by destruct c). rewrite Hid in Ha. rewrite Ha.
  apply (idle_view c (with_accounts (cc_parity_decoder c) t w c)); [done|]. clear Ha Hid.
  generalize (with_accounts (cc_parity_decoder c) t w c). clear c t w. intros c. unfold process. cbv zeta.
  destruct (_ && claim_refused c dh th); [by split|].
  set (c1 := if negb (is_sentinel th) && negb _ then _ else c).
  assert (frame_view (note_label c1 (tile_label dh) (is_sentinel th) p) = frame_view c) as Hv.
  { rewrite note_label_view. unfold c1. destruct (negb (is_sentinel th) && negb _); [apply acknowledge_view|done]. }
  clearbody c1. eapply idle_view; [exact Hv|]. destruct (is_sentinel th); [apply handle_sentinel_idle|].
  destruct (bool_decide _); [by split|]. apply deliver_tile_idle.
Qed.

Lemma first_byte_frame seq ts info total n chunk :
  0x04000000 ≤ seq ≤ 0x04FFFFFF → ∃ l, frame_fragment seq ts info total n chunk = 4 :: l.
Proof.
  intros Hs. unfold frame_fragment, fh_encode. cbn [fh_frame_seq app].
  destruct (be4_cons seq) as (x & y & z & u & E). pose proof (first_byte_be4 seq) as Hf. rewrite E in Hf.
  cbn in Hf. injection Hf as ->. rewrite E. eexists. cbn [app]. f_equal. dlia.
Qed.

(** C40: Frames whose sequence number starts with the parity marker are lost.  Every
    fragment of an H.264 frame numbered 0x04000000 to 0x04FFFFFF is taken for a
    parity envelope: whatever the client's state, it leaves the frame assemblies,
    the reference gate, the frame acknowledgements and the count of frame
    datagrams as they were, and no access unit comes out. *)
Theorem parity_marker_shadows_frames c seq ts info total n chunk now :
  client_ok c → 0x04000000 ≤ seq ≤ 0x04FFFFFF →
  byte (fri_flags info) → byte (fri_slots info) → bytes chunk →
  ∃ c' evs, handle_datagram_payloads c (frame_fragment seq ts info total n chunk) now = Ok (c', evs)
    ∧ frame_view c' = frame_view c ∧ Forall no_h264 evs.
Proof.
  intros Hc Hs Hf Hsl Hch.
  assert (bytes (frame_fragment seq ts info total n chunk)) as Hb.
  { unfold frame_fragment, fh_encode. cbn [app fh_frame_seq fh_frag_idx fh_frag_total fh_wire_seq fh_timestamp_us
      fh_flags fh_slots fh_ref_frame_seq].
    repeat first [apply bytes_be_bytes | done | apply Forall_app; split | apply Forall_cons; split]. }
  destruct (handle_datagram_payloads_ok c _ now Hc Hb) as (c' & evs & H & _). exists c', evs. split; [done|].
  destruct (first_byte_frame seq ts info total n chunk Hs) as (l & Hl). rewrite Hl in H, Hb.
  unfold handle_datagram_payloads in H. rewrite (small_first_not_tile 4 l Hb ltac:(lia)) in H. cbn [negb andb] in H.
  change (4 =? TILE_PARITY_ENVELOPE) with true in H. cbn [andb] in H.
  destruct (tp_decode (4 :: l)) as [env| |]; [|by injection H as <- <-|done].
  destruct (receive_parity _ env) as [[d [r|]]| |]; [| |done..]; rewrite bind_Ok in H.
  - pose proof (handle_source_tile_idle (set_parity_decoder c d) r now Rebuilt) as Hi. rewrite H in Hi. exact Hi.
  - by injection H as <- <-.
Qed.

Lemma parity_marker_shadows_frames_witness :
  let c := client_new sample_config 0 in
  ∃ c' evs, handle_datagram_payloads c (frame_fragment 0x04000001 1000 FRI_IDR 1 0 [1; 2; 3]) 500 = Ok (c', evs)
    ∧ frame_view c' = frame_view c ∧ Forall no_h264 evs.
Proof.
  apply (parity_marker_shadows_frames (client_new sample_config 0)).
  - apply client_new_ok.
  - lia.
  - vm_compute. done.
  - vm_compute. done.
  - repeat constructor; widths; lia.
Defined.
