(* ===== verification/ClientTimers.v ===== *)
(** * The client core's clock ([ghostframe-client-core/src/lib.rs])

    Theorems about the timer-driven half of the core: what one tail sweep asks
    for and when sweeping stops; what a flush of the debounced NACK queue sends,
    and in which order; and that handling a timeout always moves the next deadline
    into the future, so a driver that sleeps until [poll_timeout] never spins. *)

From S2P Require Import Prelude Wire Control Prevalidate TileState Event TileDecoder PalRle Parity Batchers Gate LossTracking Coverage Client FrameAssembly PartSafety Reassembly ClientSafety Delivery.
From stdpp Require Import base option numbers list gmap sorting.

Local Open Scope Z_scope.

(** ** The NACK queue as a set of keys *)

Abbreviation nack_keys c := (cc_pending_nacks c).*1.

Lemma bt_insert_keys {V} k (v : V) m k' : k' ∈ (bt_insert k v m).*1 ↔ k' = k ∨ k' ∈ m.*1.
Proof.
  induction m as [|[k0 v0] m IH]; cbn [bt_insert]; [set_solver|].
  destruct (key_lt k k0) eqn:E1; [set_solver|]. destruct (key_lt k0 k) eqn:E2.
  - rewrite !fmap_cons, !elem_of_cons, IH. set_solver.
  - rewrite (key_lt_total k k0) by done. rewrite !fmap_cons. set_solver.
Qed.

Lemma queue_pass_nack_keys c fs x y p now k :
  k ∈ nack_keys (queue_pass_nack c fs x y p now) ↔ k = (p, y, x) ∨ k ∈ nack_keys c.
Proof.
  unfold queue_pass_nack. destruct (bool_decide _) eqn:E.
  - apply bool_decide_eq_true in E. naive_solver.
  - assert (cc_pending_nacks (match cc_pending_nack_deadline_us
      (set_pending_nacks c (bt_insert (p, y, x) (mkPendingNack fs x y p) (cc_pending_nacks c))) with
      | Some _ => set_pending_nacks c (bt_insert (p, y, x) (mkPendingNack fs x y p) (cc_pending_nacks c))
      | None => set_pending_nack_deadline_us (set_pending_nacks c (bt_insert (p, y, x) (mkPendingNack fs x y p)
          (cc_pending_nacks c))) (Some (u64 (now + NACK_DEBOUNCE_US))) end)
      = bt_insert (p, y, x) (mkPendingNack fs x y p) (cc_pending_nacks c)) as -> by (by destruct (cc_pending_nack_deadline_us _)).
    apply bt_insert_keys.
Qed.

Lemma queue_pass_nack_coverage c fs x y p now :
  (queue_pass_nack c fs x y p now).(cc_cdf53_coverage) = c.(cc_cdf53_coverage).
Proof. by destruct (queue_pass_nack_shape c fs x y p now) as (m & _ & [= _ _ _ ? _] & _). Qed.

Lemma queue_fold_keys (f : Z → bool) fs x y now ps k : ∀ c,
  let c' := foldl (λ c p, if f p then queue_pass_nack c fs x y p now else c) c ps in
  (k ∈ nack_keys c' ↔ k ∈ nack_keys c ∨ ∃ p, p ∈ ps ∧ f p = true ∧ k = (p, y, x))
  ∧ c'.(cc_cdf53_coverage) = c.(cc_cdf53_coverage).
Proof.
  induction ps as [|p ps IH]; intros c; cbn [foldl].
  { split; [|done]. split; [by left|]. intros [?|(p & Hp & _)]; [done|by apply not_elem_of_nil in Hp]. }
  destruct (IH (if f p then queue_pass_nack c fs x y p now else c)) as [H1 H2]. cbv zeta. rewrite H1, H2.
  assert (k ∈ nack_keys (if f p then queue_pass_nack c fs x y p now else c)
    ↔ k ∈ nack_keys c ∨ (f p = true ∧ k = (p, y, x))) as ->.
  { destruct (f p); [rewrite queue_pass_nack_keys|]; intuition congruence. }
  split; [|destruct (f p); [apply queue_pass_nack_coverage|done]].
  split.
  - intros [[?|[??]]|(q & ? & ? & ?)]; [by left|right; exists p|right; exists q]; rewrite elem_of_cons; auto.
  - intros [?|(q & [->|?]%elem_of_cons & ? & ?)]; [by left; left|by left; right|right; by exists q].
Qed.

(** ** One tail sweep *)

(** What a sweep makes of a tile's entry. *)
Definition after_sweep (now : Z) (e : CoverageEntry) : CoverageEntry :=
  if sweep_mask e now =? 0 then e else swept e (sweep_mask e now) now.

Definition asks (e : CoverageEntry) (now p : Z) : bool := negb (Z.land (sweep_mask e now) (bit16 p) =? 0).

Lemma passes_14 p : p ∈ Z.of_nat <$> seq 0 14 ↔ 0 ≤ p < 14.
Proof.
  rewrite list_elem_of_fmap. split.
  - intros (i & -> & Hi%elem_of_seq). lia.
  - intros Hp. exists (Z.to_nat p). rewrite elem_of_seq. lia.
Qed.

Lemma sweep_tile_effect now c key :
  (sweep_tile now c key).(cc_cdf53_coverage) = alter (after_sweep now) key c.(cc_cdf53_coverage)
  ∧ ∀ p y x, (p, y, x) ∈ nack_keys (sweep_tile now c key) ↔ (p, y, x) ∈ nack_keys c
      ∨ ∃ e, (x, y) = key ∧ c.(cc_cdf53_coverage) !! key = Some e ∧ 0 ≤ p < 14 ∧ asks e now p = true.
Proof.
  unfold sweep_tile. destruct (cc_cdf53_coverage c !! key) as [e|] eqn:He.
  2: { split; [|naive_solver]. apply map_eq. intros k. destruct (decide (k = key)) as [->|].
       - by rewrite lookup_alter_eq, He.
       - by rewrite lookup_alter_ne. }
  assert (alter (after_sweep now) key (cc_cdf53_coverage c) = <[key := after_sweep now e]> (cc_cdf53_coverage c)) as ->.
  { apply map_eq. intros k. destruct (decide (k = key)) as [->|].
    - by rewrite lookup_alter_eq, He, lookup_insert_eq.
    - by rewrite lookup_alter_ne, lookup_insert_ne. }
  unfold after_sweep, asks. destruct (Z.eqb_spec (sweep_mask e now) 0) as [E|E].
  - split; [by rewrite insert_id|]. intros p y x. split; [by left|].
    intros [?|(e' & _ & [= <-] & _ & Ha)]; [done|]. by rewrite E in Ha.
  - destruct key as [kx ky]. cbn [fst snd]. cbv zeta.
    pose proof (queue_fold_keys (λ p, negb (Z.land (sweep_mask e now) (bit16 p) =? 0)) (ce_frame_seq e) kx ky now
      (Z.of_nat <$> seq 0 14)) as Hq.
    split; [cbn [set_cdf53_coverage cc_cdf53_coverage]; by rewrite (proj2 (Hq (0, 0, 0) c))|].
    intros p y x. cbn [set_cdf53_coverage cc_pending_nacks]. rewrite (proj1 (Hq (p, y, x) c)).
    split; (intros [?|H]; [by left|right]).
    + destruct H as (q & Hq14%passes_14 & Ha & [= -> -> ->]). by exists e.
    + destruct H as (e' & [= -> ->] & [= <-] & Hp & Ha). exists p. by rewrite passes_14.
Qed.

Lemma sweep_fold_effect now ks : ∀ c,
  NoDup ks →
  let c' := foldl (sweep_tile now) c ks in
  (∀ k, c'.(cc_cdf53_coverage) !! k =
     if decide (k ∈ ks) then after_sweep now <$> c.(cc_cdf53_coverage) !! k else c.(cc_cdf53_coverage) !! k)
  ∧ ∀ p y x, (p, y, x) ∈ nack_keys c' ↔ (p, y, x) ∈ nack_keys c
      ∨ ∃ e, (x, y) ∈ ks ∧ c.(cc_cdf53_coverage) !! (x, y) = Some e ∧ 0 ≤ p < 14 ∧ asks e now p = true.
Proof.
  induction ks as [|key ks IH]; intros c Hn; cbn [foldl].
  { split; [intros k; by rewrite decide_False by apply not_elem_of_nil|]. intros p y x. split; [by left|].
    intros [?|(e & He & _)]; [done|by apply not_elem_of_nil in He]. }
  apply NoDup_cons in Hn as [Hnot Hn]. destruct (IH (sweep_tile now c key) Hn) as [H1 H2].
  destruct (sweep_tile_effect now c key) as [E1 E2]. cbv zeta. split.
  - intros k. rewrite H1, E1. destruct (decide (k = key)) as [->|Hne].
    + rewrite decide_False by done. rewrite decide_True by (rewrite elem_of_cons; by left). by rewrite lookup_alter_eq.
    + rewrite lookup_alter_ne by done. destruct (decide (k ∈ ks)) as [Hk|Hk].
      * by rewrite decide_True by (rewrite elem_of_cons; by right).
      * by rewrite decide_False by (rewrite elem_of_cons; intuition).
  - intros p y x. rewrite H2, E2, E1. split.
    + intros [[?|(e & <- & ? & ? & ?)]|(e & ? & He & ? & ?)]; [by left|right; exists e|right; exists e].
      * split; [apply elem_of_cons; by left|done].
      * rewrite lookup_alter_ne in He by (by intros ->). split; [apply elem_of_cons; by right|done].
    + intros [?|(e & [<-|Hk]%elem_of_cons & ? & ? & ?)]; [by left; left|left; right; by exists e|right; exists e].
      rewrite lookup_alter_ne by (by intros ->). done.
Qed.

(** What the tile is known to lack. *)
Definition owes (e : CoverageEntry) (p : Z) : bool :=
  match e.(ce_present_passes) with
  | Some present => Z.testbit present p && negb (Z.testbit e.(ce_pass_mask) p)
  | None => p =? 0
  end.

(** A pass worth asking for again: lacking, overtaken by a later pass of its
    generation, on a tile that has stalled and has requests left. *)
Definition overdue (e : CoverageEntry) (now p : Z) : Prop :=
  owes e p = true ∧ (∃ h, e.(ce_highest_pass_seen) = Some h ∧ p ≤ h)
  ∧ TAIL_FALLBACK_US ≤ now - e.(ce_last_change_us) ∧ e.(ce_sweep_attempts) < MAX_TAIL_SWEEP_ATTEMPTS.

Lemma inv16_testbit x p : 0 ≤ p < 16 → Z.testbit (inv16 x) p = negb (Z.testbit x p).
Proof. intros Hp. unfold inv16. rewrite testbit_wrap, Z.lnot_spec by lia. done. Qed.

Lemma gap_evidence_testbit e missing p :
  0 ≤ p < 14 → (∀ h, e.(ce_highest_pass_seen) = Some h → 0 ≤ h) →
  Z.testbit (gap_evidence_mask e missing) p = true ↔
  Z.testbit missing p = true ∧ ∃ h, e.(ce_highest_pass_seen) = Some h ∧ p ≤ h.
Proof.
  intros Hp Hh. unfold gap_evidence_mask. destruct (ce_highest_pass_seen e) as [h|].
  2: { rewrite Z.bits_0. split; [done|]. by intros (_ & h & ? & _). }
  specialize (Hh h eq_refl). rewrite Z.land_spec.
  assert (u16 (Z.shiftl 2 (Z.min h 14)) - 1 = Z.ones (Z.min h 14 + 1)) as ->.
  { rewrite Z.ones_equiv, <-Z.sub_1_r, Z.shiftl_mul_pow2, Z.pow_add_r by lia. f_equal. rewrite wrap_small; [lia|].
    assert (0 < 2 ^ Z.min h 14) by (apply Z.pow_pos_nonneg; lia).
    assert (2 ^ Z.min h 14 ≤ 2 ^ 14) by (apply Z.pow_le_mono_r; lia). split; lia. }
  rewrite Z.testbit_ones by lia. rewrite !andb_true_iff, Z.leb_le, Z.ltb_lt. split.
  - intros (? & _ & ?). split; [done|]. exists h. split; [done|lia].
  - intros (? & h' & [= <-] & ?). split; [done|lia].
Qed.

Lemma asks_iff e now p :
  0 ≤ p < 14 → (∀ h, e.(ce_highest_pass_seen) = Some h → 0 ≤ h) → asks e now p = true ↔ overdue e now p.
Proof.
  intros Hp Hh. unfold asks. assert (bit16 p = 2 ^ p) as ->.
  { unfold bit16. rewrite Z.shiftl_1_l. apply wrap_small. split; [apply Z.pow_nonneg; lia|apply Z.pow_lt_mono_r; lia]. }
  rewrite bit_set by lia. unfold sweep_mask, overdue. cbv zeta.
  set (owed := match ce_present_passes e with Some _ => _ | None => _ end).
  assert (∀ b, owed = b → owes e p = match b with Some m => Z.testbit m p | None => false end) as Ho.
  { intros b <-. unfold owed, owes. destruct (ce_present_passes e) as [pr|].
    - destruct (Z.eqb_spec (ce_pass_mask e) pr) as [->|]; [apply andb_negb_r|].
      by rewrite Z.land_spec, inv16_testbit by lia.
    - destruct (Z.eqb_spec p 0) as [->|]; [done|]. change 1 with (2 ^ 0). rewrite testbit_pow2 by lia.
      symmetry. apply Z.eqb_neq. lia. }
  destruct owed as [m|].
  2: { rewrite (Ho None eq_refl), Z.bits_0. split; [done|]. by intros (? & _). }
  rewrite (Ho (Some m) eq_refl). unfold sat_sub.
  destruct (Z.ltb_spec (Z.max 0 (now - ce_last_change_us e)) TAIL_FALLBACK_US) as [Hs|Hs].
  { rewrite Z.bits_0. split; [done|]. intros (_ & _ & ? & _). lia. }
  pose proof (gap_evidence_testbit e m p Hp Hh) as Hg.
  destruct (Z.eqb_spec (gap_evidence_mask e m) 0) as [E|E].
  { rewrite E, Z.bits_0 in Hg. rewrite Z.bits_0. split; [done|]. intros (H1 & H2 & _). by apply Hg. }
  unfold TAIL_FALLBACK_US, MAX_TAIL_SWEEP_ATTEMPTS in *.
  destruct (Z.leb_spec 6 (ce_sweep_attempts e)).
  { rewrite Z.bits_0. split; [done|]. intros (_ & _ & _ & ?). lia. }
  rewrite Hg. split; [intros [??]; split_and!; try done; lia|]. by intros (? & ? & _).
Qed.

(** A sweep that is due. *)
Lemma tail_sweep_due c now :
  c.(cc_next_tail_sweep_us) ≤ now →
  let c' := tail_sweep c now in
  (∀ p y x, (p, y, x) ∈ nack_keys c' ↔ (p, y, x) ∈ nack_keys c
      ∨ ∃ e, c.(cc_cdf53_coverage) !! (x, y) = Some e ∧ 0 ≤ p < 14 ∧ asks e now p = true)
  ∧ (∀ k, c'.(cc_cdf53_coverage) !! k = after_sweep now <$> c.(cc_cdf53_coverage) !! k).
Proof.
  intros Hdue. unfold tail_sweep. rewrite (proj2 (Z.ltb_ge _ _)) by done. cbv zeta.
  set (c1 := set_next_tail_sweep_us _ _). change (cc_cdf53_coverage c1) with (cc_cdf53_coverage c).
  destruct (sweep_fold_effect now (map_to_list (cc_cdf53_coverage c)).*1 c1 (coverage_keys_NoDup _)) as [H1 H2].
  assert (∀ k, k ∈ (map_to_list (cc_cdf53_coverage c)).*1 ↔ is_Some (cc_cdf53_coverage c !! k)) as Hk.
  { intros k. rewrite list_elem_of_fmap. split.
    - intros ([k' e] & -> & He%elem_of_map_to_list). cbn. eauto.
    - intros [e He]. exists (k, e). by rewrite elem_of_map_to_list. }
  split.
  - intros p y x. rewrite H2. change (cc_cdf53_coverage c1) with (cc_cdf53_coverage c).
    change (cc_pending_nacks c1) with (cc_pending_nacks c).
    split; (intros [?|(e & H)]; [by left|right; exists e]).
    + by destruct H as (_ & ?).
    + split; [apply Hk; destruct H; eauto|done].
  - intros k. rewrite H1. destruct (decide _) as [?|Hn]; [done|]. rewrite Hk in Hn.
    change (cc_cdf53_coverage c1) with (cc_cdf53_coverage c). destruct (cc_cdf53_coverage c !! k); [|done].
    destruct Hn. eauto.
Qed.

(** C35: A tail sweep asks for exactly what is overdue.  When it is due, whatever order
    the tiles are visited in, the NACK queue afterwards holds what it held and,
    for every tile, every pass of its own set that has not arrived, that a later
    pass of the generation overtook, and whose tile has stood still for 1.5 s
    with fewer than six sweeps since its last progress; each tile asked for has
    one more sweep to its account, and every other tile is untouched. *)
Theorem tail_sweep_exact c now :
  c.(cc_next_tail_sweep_us) ≤ now →
  (∀ k e h, c.(cc_cdf53_coverage) !! k = Some e → e.(ce_highest_pass_seen) = Some h → 0 ≤ h) →
  let c' := tail_sweep c now in
  (∀ p y x, (p, y, x) ∈ (cc_pending_nacks c').*1 ↔ (p, y, x) ∈ (cc_pending_nacks c).*1
      ∨ ∃ e, c.(cc_cdf53_coverage) !! (x, y) = Some e ∧ 0 ≤ p < 14 ∧ overdue e now p)
  ∧ (∀ k, c'.(cc_cdf53_coverage) !! k = after_sweep now <$> c.(cc_cdf53_coverage) !! k).
Proof.
  intros Hdue Hh. destruct (tail_sweep_due c now Hdue) as [H1 H2]. split; [|done]. intros p y x. rewrite H1.
  split; (intros [?|(e & He & Hp & Ha)]; [by left|right; exists e]); (split; [done|]; split; [done|]);
    (apply asks_iff; [done|intros h; by apply (Hh (x, y) e)|done]).
Qed.

Definition gap_entry : CoverageEntry := mkCoverageEntry 1 7 1 0 (Some 7) 1000 0 (Some 2).
Definition gap_client : ClientCore :=
  set_cdf53_coverage (client_new sample_config 0) {[ (3, 4) := gap_entry ]}.

(** Pass 1 of a tile that has 0 and was overtaken by 2: asked for, and 2 too. *)
Lemma tail_sweep_exact_witness :
  (1, 4, 3) ∈ (cc_pending_nacks (tail_sweep gap_client 2000000)).*1.
Proof.
  apply (tail_sweep_exact gap_client 2000000).
  - vm_compute. discriminate.
  - intros k e h He. cbn [gap_client set_cdf53_coverage cc_cdf53_coverage] in He.
    apply lookup_singleton_Some in He as [_ <-]. cbn. intros [= <-]. lia.
  - right. exists gap_entry. split; [reflexivity|]. split; [lia|]. split_and!.
    + reflexivity.
    + exists 2. split; [reflexivity|lia].
    + vm_compute. discriminate.
    + vm_compute. reflexivity.
Defined.

(** ** Sweeping stops *)

Definition asked (c : ClientCore) (now : Z) (key : Z * Z) : bool :=
  (c.(cc_next_tail_sweep_us) <=? now)
  && match c.(cc_cdf53_coverage) !! key with Some e => negb (sweep_mask e now =? 0) | None => false end.

(** How many of the sweeps at [ts] ask for a pass of the tile. *)
Fixpoint times_asked (c : ClientCore) (key : Z * Z) (ts : list Z) : nat :=
  match ts with
  | [] => 0
  | t :: ts => (if asked c t key then 1 else 0) + times_asked (tail_sweep c t) key ts
  end.

Lemma sweep_mask_attempts e now : sweep_mask e now ≠ 0 → e.(ce_sweep_attempts) < 6.
Proof.
  unfold sweep_mask. destruct (match ce_present_passes e with Some _ => _ | None => _ end); [|done].
  destruct (_ <? _); [done|]. cbv zeta. destruct (_ =? 0); [done|].
  destruct (Z.leb_spec MAX_TAIL_SWEEP_ATTEMPTS (ce_sweep_attempts e)); [done|]. unfold MAX_TAIL_SWEEP_ATTEMPTS in *. lia.
Qed.

Definition attempts_left (c : ClientCore) (key : Z * Z) : Z :=
  match c.(cc_cdf53_coverage) !! key with Some e => Z.max 0 (6 - e.(ce_sweep_attempts)) | None => 0 end.

Lemma times_asked_left ts : ∀ c key, Z.of_nat (times_asked c key ts) ≤ attempts_left c key.
Proof.
  induction ts as [|t ts IH]; intros c key; cbn [times_asked].
  { unfold attempts_left. destruct (_ !! _); lia. }
  specialize (IH (tail_sweep c t) key). unfold asked. destruct (Z.leb_spec (cc_next_tail_sweep_us c) t) as [Hd|Hd].
  - cbn [andb]. destruct (tail_sweep_due c t Hd) as [_ Hc]. unfold attempts_left in *. rewrite (Hc key) in IH.
    destruct (cc_cdf53_coverage c !! key) as [e|]; cbn [fmap option_fmap option_map] in IH; [|lia].
    unfold after_sweep in IH. destruct (Z.eqb_spec (sweep_mask e t) 0) as [E|E]; cbn [negb]; [lia|].
    pose proof (sweep_mask_attempts e t E). cbn [swept ce_sweep_attempts] in IH. lia.
  - cbn [andb]. unfold tail_sweep in *. rewrite (proj2 (Z.ltb_lt _ _)) in * by done. lia.
Qed.

(** Sweeping a tile that makes no progress ends.  However many tail sweeps run, at
    whatever times, while no pass of the tile arrives, at most six of them ask for
    anything of it. *)
Theorem sweeps_give_up c key e ts :
  c.(cc_cdf53_coverage) !! key = Some e → 0 ≤ e.(ce_sweep_attempts) →
  (times_asked c key ts ≤ 6)%nat.
Proof.
  intros He Ha. pose proof (times_asked_left ts c key) as H. unfold attempts_left in H. rewrite He in H. lia.
Qed.

Lemma sweeps_give_up_witness : (times_asked gap_client (3, 4)%Z [2000000; 4000000; 6000000; 8000000]%Z ≤ 6)%nat.
Proof. apply (sweeps_give_up gap_client (3, 4) gap_entry); [reflexivity|discriminate]. Defined.

(** ** Flushing the queue *)

Lemma arrived_since_coverage c c' p :
  c'.(cc_cdf53_coverage) = c.(cc_cdf53_coverage) → arrived_since c' p = arrived_since c p.
Proof. unfold arrived_since. by intros ->. Qed.

(** The requests still worth sending. *)
Definition live (c : ClientCore) (ps : list PendingNack) : list PendingNack :=
  filter (λ p, arrived_since c p = false) ps.

Definition sent_by (c : ClientCore) (b : NackBatcher) (ms : list (list Z)) : ClientCore :=
  set_outbox (set_nack_batcher c b) (c.(cc_outbox) ++ (Datagram <$> ms)).

Definition adds (now : Z) (ps : list PendingNack) : list (batch_op NackEntry) :=
  (λ p, OpAdd (nack_of p) now) <$> ps.

Lemma queued_adds now ps : queued (adds now ps) = nack_of <$> ps.
Proof. induction ps as [|p ps IH]; [done|]. cbn. by f_equal. Qed.

Lemma batch_run_app {B E} `{!Batching B E} (b : B) ops1 : ∀ ops2,
  batch_run b (ops1 ++ ops2)
  = (let '(b1, ms1) := batch_run b ops1 in let '(b2, ms2) := batch_run b1 ops2 in (b2, ms1 ++ ms2)).
Proof.
  revert b. induction ops1 as [|op ops1 IH]; intros b ops2; cbn [app batch_run].
  - by destruct (batch_run b ops2).
  - destruct (batch_step b op) as [b1 out]. rewrite IH. destruct (batch_run b1 ops1) as [b2 ms1].
    destruct (batch_run b2 ops2) as [b3 ms2]. by rewrite app_assoc.
Qed.

Lemma flush_fold_run now ps : ∀ c q,
  let '(b, ms) := batch_run c.(cc_nack_batcher) (adds now (live c ps)) in
  ∃ q', foldl (flush_one now) (c, q) ps = (sent_by c b ms, q')
    ∧ (q = true ∨ nb_entries c.(cc_nack_batcher) = [] → q' = true ∨ nb_entries b = []).
Proof.
  induction ps as [|p ps IH]; intros c q; cbn [foldl].
  { cbn. exists q. split; [|done]. unfold sent_by. cbn. rewrite app_nil_r. by destruct c. }
  unfold live. rewrite filter_cons. cbn [flush_one]. destruct (arrived_since c p) eqn:Ea.
  { rewrite decide_False by done. exact (IH c q). }
  rewrite decide_True by done. cbn [adds fmap list_fmap batch_run batch_step bt_add NackBatching].
  destruct (nack_add (cc_nack_batcher c) (nack_of p) now) as [b1 out] eqn:Hadd.
  set (c1 := match out with Some dg => push_out (set_nack_batcher c b1) (Datagram dg) | None => set_nack_batcher c b1 end).
  assert (live c1 ps = live c ps) as Hlive.
  { apply list_filter_iff. intros p'. rewrite (arrived_since_coverage c c1); [done|]. by destruct out. }
  assert (cc_nack_batcher c1 = b1) as Hb1 by (by destruct out).
  set (q1 := match out with Some _ => q | None => true end).
  specialize (IH c1 q1). rewrite Hlive, Hb1 in IH. unfold live in IH.
  change ((λ p, OpAdd (nack_of p) now) <$> filter _ ps) with (adds now (filter (λ p, arrived_since c p = false) ps)).
  destruct (batch_run b1 _) as [b2 ms]. destruct IH as (q' & Hf & Hq). exists q'. split.
  - transitivity (foldl (flush_one now) (c1, q1) ps); [by destruct out|]. rewrite Hf. f_equal.
    unfold c1, sent_by. destruct out; cbn; by rewrite <-?app_assoc.
  - intros H. apply Hq. unfold q1. destruct out as [m|]; [|by left]. right. unfold nack_add in Hadd.
    destruct (_ <=? _)%nat; [|done]. unfold nack_flush in Hadd. cbn [nb_entries] in Hadd.
    destruct (nb_entries (cc_nack_batcher c) ++ [nack_of p]); [done|]. by injection Hadd as <- _.
Qed.

Definition entry_key (e : NackEntry) : Z * Z * Z := (e.(nk_pass_idx), e.(nk_tile_y), e.(nk_tile_x)).

(** What a queue entry is: filed under its own coordinates, fit for the wire. *)
Definition nack_entry_ok (kv : (Z * Z * Z) * PendingNack) : Prop :=
  kv.1 = (kv.2.(pn_pass_idx), kv.2.(pn_tile_y), kv.2.(pn_tile_x)) ∧ nk_ok (nack_of kv.2).

Lemma Forall_live (P : PendingNack → Prop) c ps : Forall P ps → Forall P (live c ps).
Proof. apply Forall_filter_kept. Qed.

Lemma live_sorted c (m : list ((Z * Z * Z) * PendingNack)) :
  Forall nack_entry_ok m → nacks_sorted m →
  StronglySorted (λ a b, key_lt (entry_key a) (entry_key b) = true) (nack_of <$> live c m.*2).
Proof.
  intros Hok Hs. induction Hs as [|[k v] m Hm IH Hk]; [constructor|]. apply Forall_cons in Hok as [[Hkv _] Hok].
  cbn in Hkv. subst k. unfold live. rewrite fmap_cons, filter_cons. cbn [snd].
  case_decide; [|by apply IH]. rewrite fmap_cons. constructor; [by apply IH|].
  apply Forall_fmap, Forall_filter_kept, Forall_fmap. rewrite Forall_forall in Hk, Hok |- *.
  intros [k' v'] Hin. specialize (Hk _ Hin). destruct (Hok _ Hin) as [Hk' _]. cbn in Hk, Hk' |- *. by subst k'.
Qed.

(** Adding to an idle batcher and flushing it. *)
Lemma adds_then_flush now ps :
  Forall nk_ok (nack_of <$> ps) →
  let '(b, ms) := batch_run nack_batcher_new (adds now ps) in
  let '(b2, out) := nack_flush b in
  b2 = nack_batcher_new ∧ (nb_entries b = [] → b = nack_batcher_new ∧ out = None)
  ∧ ∃ bs, delivers NACK_BATCH_MAX nack_carries [] (ms ++ option_list out) bs ∧ concat bs = nack_of <$> ps.
Proof.
  intros Hv. rewrite <-(queued_adds now) in Hv.
  destruct (batch_run nack_batcher_new (adds now ps)) as [b ms] eqn:Hrun.
  destruct (nack_flush b) as [b2 out] eqn:Hfl.
  assert (nack_inv [] nack_batcher_new) as Hi by (apply queue_ok_empty; unfold NACK_BATCH_MAX; lia).
  destruct (batch_run_delivers _ [] _ _ _ Hi Hv Hrun) as (_ & _ & _ & (_ & _ & Hdl)).
  assert (queued (adds now ps ++ [OpFlush]) = queued (adds now ps)) as Hq
    by (unfold queued; rewrite omap_app; apply app_nil_r).
  assert (batch_run nack_batcher_new (adds now ps ++ [OpFlush]) = (b2, ms ++ option_list out)) as Hrun2.
  { rewrite batch_run_app, Hrun. cbn. by rewrite Hfl, app_nil_r. }
  rewrite <-Hq in Hv. destruct (batch_run_delivers _ [] _ _ _ Hi Hv Hrun2) as (bs & Hd & He & _).
  assert (b2 = nack_batcher_new) as -> by (unfold nack_flush in Hfl; destruct (nb_entries b); by injection Hfl as <- _).
  split_and!; [done| |].
  - intros Hb. unfold nack_flush in Hfl. rewrite Hb in Hfl. injection Hfl as <-. destruct b as [es d]. cbn in Hb, Hdl.
    subst es. by rewrite (proj2 Hdl eq_refl).
  - exists bs. split; [done|]. rewrite Hq, queued_adds in He. cbn in He. by rewrite app_nil_r in He.
Qed.

(** A flush of the debounced queue sends exactly the requests that are still open,
    coarse passes first.  With an idle batcher, the datagrams it appends to the
    outbox decode to the queued requests whose pass has not arrived meanwhile,
    each once, in strict (pass, row, column) order, in batches of at most 64; the
    queue, its deadline and the batcher are left empty. *)
Theorem nack_flush_exact c now :
  c.(cc_nack_batcher) = nack_batcher_new → nacks_sorted c.(cc_pending_nacks) →
  Forall nack_entry_ok c.(cc_pending_nacks) →
  let c' := flush_pending_nacks c now in
  ∃ ms bs, c'.(cc_outbox) = c.(cc_outbox) ++ (Datagram <$> ms)
    ∧ delivers NACK_BATCH_MAX nack_carries [] ms bs
    ∧ concat bs = nack_of <$> live c c.(cc_pending_nacks).*2
    ∧ StronglySorted (λ a b, key_lt (entry_key a) (entry_key b) = true) (concat bs)
    ∧ c'.(cc_pending_nacks) = [] ∧ c'.(cc_pending_nack_deadline_us) = None
    ∧ c'.(cc_nack_batcher) = nack_batcher_new.
Proof.
  intros Hb Hs Hok. cbv zeta. unfold flush_pending_nacks.
  change (cc_pending_nacks (set_pending_nack_deadline_us c None)) with (cc_pending_nacks c).
  destruct (cc_pending_nacks c) as [|kv m] eqn:Hp.
  { exists [], []. cbn. rewrite app_nil_r. split_and!; try done. constructor. }
  rewrite <-Hp in *. clear kv m Hp. set (c0 := set_pending_nacks (set_pending_nack_deadline_us c None) []).
  set (ps := (cc_pending_nacks c).*2).
  assert (Forall nk_ok (nack_of <$> live c ps)) as Hv.
  { apply Forall_fmap, Forall_live, Forall_fmap. eapply Forall_impl; [exact Hok|]. by intros ? [_ ?]. }
  pose proof (flush_fold_run now ps c0 false) as Hf. change (live c0 ps) with (live c ps) in Hf.
  change (cc_nack_batcher c0) with (cc_nack_batcher c) in Hf. rewrite Hb in Hf.
  pose proof (adds_then_flush now _ Hv) as Ha.
  destruct (batch_run nack_batcher_new (adds now (live c ps))) as [b ms].
  destruct Hf as (q' & -> & Hq). specialize (Hq (or_intror eq_refl)).
  change (cc_nack_batcher (sent_by c0 b ms)) with b. destruct (nack_flush b) as [b2 out].
  destruct Ha as (-> & Hidle & bs & Hd & Hbs). exists (ms ++ option_list out), bs.
  split; [|split; [done|split; [done|split; [rewrite Hbs; by apply live_sorted|]]]].
  - destruct q'; [destruct out; cbn; by rewrite ?fmap_app, ?app_nil_r, ?app_assoc|].
    destruct Hq as [|Hq]; [done|]. destruct (Hidle Hq) as [_ ->]. cbn. by rewrite app_nil_r.
  - destruct q'; [by destruct out|]. destruct Hq as [|Hq]; [done|]. by destruct (Hidle Hq) as [-> _].
Qed.

Definition nacked_client : ClientCore :=
  set_pending_nacks gap_client [((1, 4, 3), mkPendingNack 7 3 4 1); ((2, 4, 3), mkPendingNack 7 3 4 2)].

Lemma nack_flush_exact_witness :
  ∃ ms bs, (flush_pending_nacks nacked_client 100).(cc_outbox) = nacked_client.(cc_outbox) ++ (Datagram <$> ms)
    ∧ delivers NACK_BATCH_MAX nack_carries [] ms bs
    ∧ concat bs = nack_of <$> live nacked_client nacked_client.(cc_pending_nacks).*2.
Proof.
  destruct (nack_flush_exact nacked_client 100) as (ms & bs & H1 & H2 & H3 & _).
  - reflexivity.
  - repeat constructor.
  - repeat constructor; vm_compute; done.
  - by exists ms, bs.
Defined.

(** ** Deadlines move *)

Definition after (now : Z) (d : option Z) : Prop := match d with Some d => now < d | None => True end.

Lemma arm_after now d : 0 ≤ now < 2 ^ 63 → after now d → after now (arm d now).
Proof.
  intros Hn Hd. destruct d; [done|]. cbn. rewrite wrap_small; unfold FLUSH_INTERVAL_US, in_width in *; lia.
Qed.

Lemma ack_on_timeout_after b now : after now (ack_on_timeout b now).1.(ab_deadline_us).
Proof.
  unfold ack_on_timeout. destruct (ab_deadline_us b) as [d|] eqn:Hd; [|cbn; by rewrite Hd].
  destruct (Z.leb_spec d now); [|cbn; by rewrite Hd]. unfold ack_flush. by destruct (ab_entries b).
Qed.

Lemma nack_flush_after b now : after now (nack_flush b).1.(nb_deadline_us).
Proof. unfold nack_flush. by destruct (nb_entries b). Qed.

Lemma nack_on_timeout_after b now : after now (nack_on_timeout b now).1.(nb_deadline_us).
Proof.
  unfold nack_on_timeout. destruct (nb_deadline_us b) as [d|] eqn:Hd; [|cbn; by rewrite Hd].
  destruct (Z.leb_spec d now); [apply nack_flush_after|cbn; by rewrite Hd].
Qed.

Lemma nack_add_after b e now :
  0 ≤ now < 2 ^ 63 → after now b.(nb_deadline_us) → after now (nack_add b e now).1.(nb_deadline_us).
Proof.
  intros Hn Hb. unfold nack_add. destruct (_ <=? _)%nat; [apply nack_flush_after|]. by apply arm_after.
Qed.

(** The rest of what [poll_timeout] reads. *)
Definition clock_view (c : ClientCore) :=
  (c.(cc_ack_batcher), c.(cc_frame_acks), c.(cc_send_frame_acks), c.(cc_next_tail_sweep_us), c.(cc_next_feedback_us)).

Lemma flush_one_clock now p c q :
  0 ≤ now < 2 ^ 63 →
  let c' := (flush_one now (c, q) p).1 in
  clock_view c' = clock_view c ∧ c'.(cc_pending_nack_deadline_us) = c.(cc_pending_nack_deadline_us)
  ∧ (after now c.(cc_nack_batcher).(nb_deadline_us) → after now c'.(cc_nack_batcher).(nb_deadline_us)).
Proof.
  intros Hn. cbn [flush_one]. destruct (arrived_since c p); [done|].
  pose proof (nack_add_after (cc_nack_batcher c) (nack_of p) now Hn) as Ha.
  by destruct (nack_add _ _ _) as [b [dg|]].
Qed.

Lemma flush_fold_clock now ps : 0 ≤ now < 2 ^ 63 → ∀ c q,
  let c' := (foldl (flush_one now) (c, q) ps).1 in
  clock_view c' = clock_view c ∧ c'.(cc_pending_nack_deadline_us) = c.(cc_pending_nack_deadline_us)
  ∧ (after now c.(cc_nack_batcher).(nb_deadline_us) → after now c'.(cc_nack_batcher).(nb_deadline_us)).
Proof.
  intros Hn. induction ps as [|p ps IH]; intros c q; cbn [foldl]; [done|].
  destruct (flush_one_clock now p c q Hn) as (H1 & H2 & H3). destruct (flush_one now (c, q) p) as [c1 q1].
  destruct (IH c1 q1) as (H4 & H5 & H6). cbn [fst] in *. split_and!; [congruence..|]. auto.
Qed.

Lemma flush_pending_nacks_clock c now :
  0 ≤ now < 2 ^ 63 →
  let c' := flush_pending_nacks c now in
  clock_view c' = clock_view c ∧ c'.(cc_pending_nack_deadline_us) = None
  ∧ (after now c.(cc_nack_batcher).(nb_deadline_us) → after now c'.(cc_nack_batcher).(nb_deadline_us)).
Proof.
  intros Hn. cbv zeta. unfold flush_pending_nacks. set (c1 := set_pending_nack_deadline_us c None).
  destruct (cc_pending_nacks c1) as [|k m]; [done|].
  destruct (flush_fold_clock now (k :: m).*2 Hn (set_pending_nacks c1 []) false) as (H1 & H2 & H3).
  destruct (foldl _ _ _) as [c2 queued]. cbn [fst] in *. destruct queued; [|done].
  pose proof (nack_flush_after (cc_nack_batcher c2) now) as Hf. destruct (nack_flush (cc_nack_batcher c2)) as [b [dg|]];
    split_and!; try done; by destruct c2.
Qed.

Lemma queue_pass_nack_clock c fs x y p now :
  0 ≤ now < 2 ^ 63 →
  let c' := queue_pass_nack c fs x y p now in
  clock_view c' = clock_view c ∧ c'.(cc_nack_batcher) = c.(cc_nack_batcher)
  ∧ (after now c.(cc_pending_nack_deadline_us) → after now c'.(cc_pending_nack_deadline_us)).
Proof.
  intros Hn. cbv zeta. unfold queue_pass_nack. destruct (bool_decide _); [done|].
  cbn [set_pending_nacks cc_pending_nack_deadline_us]. destruct (cc_pending_nack_deadline_us c) eqn:Hd.
  - split_and!; try done. cbn. by rewrite Hd.
  - split_and!; try done. intros _. cbn. rewrite wrap_small; unfold NACK_DEBOUNCE_US, in_width in *; lia.
Qed.

Lemma queue_fold_clock (f : Z → bool) fs x y now ps : 0 ≤ now < 2 ^ 63 → ∀ c,
  let c' := foldl (λ c p, if f p then queue_pass_nack c fs x y p now else c) c ps in
  clock_view c' = clock_view c ∧ c'.(cc_nack_batcher) = c.(cc_nack_batcher)
  ∧ (after now c.(cc_pending_nack_deadline_us) → after now c'.(cc_pending_nack_deadline_us)).
Proof.
  intros Hn. induction ps as [|p ps IH]; intros c; cbn [foldl]; [done|]. cbv zeta in *. destruct (f p); [|apply IH].
  destruct (IH (queue_pass_nack c fs x y p now)) as (-> & -> & H3).
  destruct (queue_pass_nack_clock c fs x y p now Hn) as (-> & -> & H6). auto.
Qed.

Lemma sweep_fold_clock now ks : 0 ≤ now < 2 ^ 63 → ∀ c,
  let c' := foldl (sweep_tile now) c ks in
  clock_view c' = clock_view c ∧ c'.(cc_nack_batcher) = c.(cc_nack_batcher)
  ∧ (after now c.(cc_pending_nack_deadline_us) → after now c'.(cc_pending_nack_deadline_us)).
Proof.
  intros Hn. induction ks as [|key ks IH]; intros c; cbn [foldl]; [done|].
  destruct (IH (sweep_tile now c key)) as (H1 & H2 & H3). cbv zeta. rewrite H1, H2. clear H1 H2.
  assert (clock_view (sweep_tile now c key) = clock_view c
    ∧ cc_nack_batcher (sweep_tile now c key) = cc_nack_batcher c
    ∧ (after now c.(cc_pending_nack_deadline_us) → after now (sweep_tile now c key).(cc_pending_nack_deadline_us)))
    as (H1 & H2 & H4); [|by auto].
  unfold sweep_tile. destruct (_ !! key) as [e|]; [|done]. destruct (_ =? 0); [done|].
  apply (queue_fold_clock (λ p, negb (Z.land (sweep_mask e now) (bit16 p) =? 0)) (ce_frame_seq e) key.1 key.2 now
    (Z.of_nat <$> seq 0 14) Hn c).
Qed.

(** What the calls made up to time [t] leave in the frame-ack window. *)
Record acks_ok (w : FrameAckWindow) (t : Z) : Prop := {
  ak_newest : is_Some w.(fw_dirty_since_us) → is_Some w.(fw_newest);
  ak_dirty : ∀ d, w.(fw_dirty_since_us) = Some d → 0 ≤ d ≤ t ∧ ∀ l, w.(fw_last_sent_us) = Some l → l ≤ d;
  ak_sent : ∀ l, w.(fw_last_sent_us) = Some l → l ≤ t;
}.

Lemma acks_ok_later w t t' : acks_ok w t → t ≤ t' → acks_ok w t'.
Proof.
  intros [H1 H2 H3] Ht. split; [done|..].
  - intros d Hd. destruct (H2 d Hd) as [? ?]. split; [lia|done].
  - intros l Hl. specialize (H3 l Hl). lia.
Qed.

Lemma fw_record_at_ok w n d r b dec t : 0 ≤ t → acks_ok w t → acks_ok (fw_record_at w n d r b dec t) t.
Proof.
  intros Ht [H1 H2 H3]. unfold fw_record_at. destruct (fw_set d r b dec) as [d' r']. split; cbn; [eauto| |done].
  intros x [= <-]. destruct (fw_dirty_since_us w) as [d0|]; cbn; [by apply H2|]. split; [lia|]. apply H3.
Qed.

Lemma fw_record_armed w s dec t : 0 ≤ t → acks_ok w t → acks_ok (fw_record w s dec t) t.
Proof.
  intros Ht Hw. unfold fw_record. destruct (fw_newest w); [|by apply fw_record_at_ok]. cbv zeta.
  destruct (_ =? 0); [by apply fw_record_at_ok|]. destruct (_ <? _); [destruct (_ <=? _); by apply fw_record_at_ok|].
  destruct (_ <=? _); [done|by apply fw_record_at_ok].
Qed.

Lemma fw_take_ok w t : acks_ok w t → acks_ok (fw_take w t).1 t.
Proof.
  intros Hw. unfold fw_take. destruct (fw_newest w); [|done]. split; cbn; [by intros []|done|]. intros l [= <-]. lia.
Qed.

Lemma fw_take_after w t : acks_ok w t → after t (fallback_at (fw_take w t).1).
Proof.
  intros [H1 _ _]. unfold fw_take, fallback_at. destruct (fw_newest w) as [n|] eqn:Hn; [done|]. cbn.
  destruct (fw_dirty_since_us w) as [d|]; [|done]. destruct (H1 ltac:(eauto)) as [? ?]. congruence.
Qed.

Lemma take_due_ok w t :
  0 ≤ t < 2 ^ 63 → acks_ok w t → acks_ok (take_due w t).1 t ∧ after t (fallback_at (take_due w t).1).
Proof.
  intros Ht Hw. unfold take_due. destruct (fw_dirty_since_us w) as [d|] eqn:Hd.
  2: { split; [done|]. unfold fallback_at. cbn. by rewrite Hd. }
  set (recent := match fw_last_sent_us w with Some _ => _ | None => _ end). destruct recent eqn:Hr.
  2: { split; [by apply fw_take_ok|by apply fw_take_after]. }
  split; [done|]. unfold fallback_at. cbn [fst]. rewrite Hd. cbn [fmap option_fmap option_map after].
  destruct Hw as [_ H2 _]. destruct (H2 d Hd) as [Hd0 Hl]. unfold recent in Hr.
  destruct (fw_last_sent_us w) as [l|]; [|done]. specialize (Hl l eq_refl). apply Z.ltb_lt in Hr.
  unfold sat_sub, FRAME_ACK_MIN_INTERVAL_US in Hr. rewrite wrap_small; unfold FRAME_ACK_FALLBACK_US, in_width; lia.
Qed.

Lemma take_overdue_ok w t :
  acks_ok w t → acks_ok (take_overdue w t).1 t ∧ after t (fallback_at (take_overdue w t).1).
Proof.
  intros Hw. unfold take_overdue. destruct (fallback_at w) as [f|] eqn:Hf; [|cbn; by rewrite Hf].
  destruct (Z.ltb_spec t f); [cbn; by rewrite Hf|]. split; [by apply fw_take_ok|by apply fw_take_after].
Qed.

Definition acks_settled (c : ClientCore) (now : Z) : Prop :=
  acks_ok c.(cc_frame_acks) now ∧ after now c.(cc_ack_batcher).(ab_deadline_us)
  ∧ (c.(cc_send_frame_acks) = true → after now (fallback_at c.(cc_frame_acks))).

(** The ACK part of [on_timeout]. *)
Definition timeout_acks (c : ClientCore) (now_us : Z) : ClientCore :=
  let '(b, dg) := ack_on_timeout c.(cc_ack_batcher) now_us in
  let c := set_ack_batcher c b in
  match dg with
  | Some dg =>
      let c := push_out c (Datagram dg) in
      if c.(cc_send_frame_acks) then
        let '(w, ack) := take_due c.(cc_frame_acks) now_us in
        let c := set_frame_acks c w in
        match ack with Some ack => push_frame_ack c ack | None => c end
      else c
  | None =>
      if c.(cc_send_frame_acks) then
        let '(w, ack) := take_overdue c.(cc_frame_acks) now_us in
        let c := set_frame_acks c w in
        match ack with Some ack => push_frame_ack c ack | None => c end
      else c
  end.

Lemma timeout_acks_settled c now :
  0 ≤ now < 2 ^ 63 → acks_ok c.(cc_frame_acks) now → acks_settled (timeout_acks c now) now.
Proof.
  intros Hn Hw. unfold timeout_acks. pose proof (ack_on_timeout_after (cc_ack_batcher c) now) as Ha.
  destruct (ack_on_timeout _ _) as [b dg]. cbn [fst] in Ha.
  destruct dg; cbn [push_out set_outbox set_ack_batcher cc_send_frame_acks cc_frame_acks];
    (destruct (cc_send_frame_acks c) eqn:Hs; [|unfold acks_settled; cbn; by rewrite Hs]).
  - destruct (take_due_ok _ now Hn Hw) as [H1 H2]. by destruct (take_due _ _) as [w [a|]].
  - destruct (take_overdue_ok _ now Hw) as [H1 H2]. by destruct (take_overdue _ _) as [w [a|]].
Qed.

Lemma tail_sweep_clock c now :
  0 ≤ now < 2 ^ 63 →
  let c' := tail_sweep c now in
  c'.(cc_ack_batcher) = c.(cc_ack_batcher) ∧ c'.(cc_frame_acks) = c.(cc_frame_acks)
  ∧ c'.(cc_send_frame_acks) = c.(cc_send_frame_acks) ∧ c'.(cc_next_feedback_us) = c.(cc_next_feedback_us)
  ∧ now < c'.(cc_next_tail_sweep_us) ∧ c'.(cc_nack_batcher) = c.(cc_nack_batcher)
  ∧ (after now c.(cc_pending_nack_deadline_us) → after now c'.(cc_pending_nack_deadline_us)).
Proof.
  intros Hn. cbv zeta. unfold tail_sweep. destruct (Z.ltb_spec now (cc_next_tail_sweep_us c)); [by split_and!|]. cbv zeta.
  set (c1 := set_next_tail_sweep_us _ _).
  destruct (sweep_fold_clock now (map_to_list (cc_cdf53_coverage c1)).*1 Hn c1) as (Hv & H2 & H3).
  set (c2 := foldl (sweep_tile now) c1 _) in *. clearbody c2.
  injection Hv as -> -> -> -> ->. split_and!; try done.
  rewrite wrap_small; unfold TAIL_SWEEP_INTERVAL_US, in_width in *; lia.
Qed.

Lemma on_timeout_parts c now :
  on_timeout c now =
    (let c1 := timeout_acks c now in
    let '(nb, dg) := nack_on_timeout c1.(cc_nack_batcher) now in
    let c2 := push_datagram (set_nack_batcher c1 nb) dg in
    let c3 := match c2.(cc_pending_nack_deadline_us) with
      | Some deadline => if deadline <=? now then flush_pending_nacks c2 now else c2
      | None => c2
      end in
    let c4 := tail_sweep c3 now in
    if c4.(cc_next_feedback_us) <=? now then
      let '(t, msg) := encode_feedback c4.(cc_loss_tracker) now in
      let c := push_out (set_loss_tracker c4 t) (Stream msg) in
      set_next_feedback_us c (u64 (now + FEEDBACK_INTERVAL_US))
    else c4).
Proof. unfold on_timeout, timeout_acks. by destruct (ack_on_timeout _ _). Qed.

Lemma on_timeout_settled c now :
  0 ≤ now < 2 ^ 63 → acks_ok c.(cc_frame_acks) now →
  now < poll_timeout (on_timeout c now) ∧ acks_ok (on_timeout c now).(cc_frame_acks) now.
Proof.
  intros Hn Hw. rewrite on_timeout_parts.
  cbv zeta. destruct (timeout_acks_settled c now Hn Hw) as (A1 & A2 & A3).
  set (c1 := timeout_acks c now) in *. clearbody c1. clear c Hw.
  pose proof (nack_on_timeout_after (cc_nack_batcher c1) now) as Hnb. destruct (nack_on_timeout _ _) as [nb dg].
  set (c2 := push_datagram (set_nack_batcher c1 nb) dg).
  assert (cc_nack_batcher c2 = nb ∧ clock_view c2 = clock_view c1) as [N2 V2] by (unfold c2; by destruct dg).
  clearbody c2. cbn [fst] in Hnb. rewrite <-N2 in Hnb.
  set (c3 := match cc_pending_nack_deadline_us c2 with Some _ => _ | None => _ end).
  assert (clock_view c3 = clock_view c1 ∧ after now (cc_pending_nack_deadline_us c3)
    ∧ after now (nb_deadline_us (cc_nack_batcher c3))) as (V3 & P3 & N3).
  { unfold c3. destruct (cc_pending_nack_deadline_us c2) as [d|] eqn:Hd; [|by rewrite Hd].
    destruct (Z.leb_spec d now); [|by rewrite Hd].
    destruct (flush_pending_nacks_clock c2 now Hn) as (-> & -> & H3). split_and!; [done|done|by apply H3]. }
  clearbody c3. destruct (tail_sweep_clock c3 now Hn) as (T1 & T2 & T3 & T4 & T5 & T6 & T7).
  set (c4 := tail_sweep c3 now) in *. clearbody c4. injection V3 as E1 E2 E3 E4 E5.
  rewrite E1 in T1. rewrite E2 in T2. rewrite E3 in T3. specialize (T7 P3). rewrite <-T6 in N3.
  rewrite <-T1 in A2. rewrite <-T2 in A1, A3. rewrite <-T3 in A3. clear E1 E2 E3 E4 E5.
  assert (∀ f, now < f → now < Z.min (cc_next_tail_sweep_us c4) f →
    now < (let deadline := min_deadline (Z.min (cc_next_tail_sweep_us c4) f) (ab_deadline_us (cc_ack_batcher c4)) in
           let deadline := min_deadline deadline (nb_deadline_us (cc_nack_batcher c4)) in
           let deadline := min_deadline deadline (cc_pending_nack_deadline_us c4) in
           if cc_send_frame_acks c4 then min_deadline deadline (fallback_at (cc_frame_acks c4)) else deadline)) as Hmin.
  { intros f _ Hf. cbv zeta. assert (∀ d o, now < d → after now o → now < min_deadline d o) as Hd
      by (intros d [o|] ??; cbn in *; lia).
    destruct (cc_send_frame_acks c4); repeat apply Hd; auto. }
  destruct (Z.leb_spec (cc_next_feedback_us c4) now) as [Hf|Hf].
  - destruct (encode_feedback _ _) as [t msg]. split; [|exact A1]. unfold poll_timeout. cbn.
    apply Hmin; rewrite wrap_small; unfold FEEDBACK_INTERVAL_US, in_width in *; lia.
  - split; [|exact A1]. apply Hmin; lia.
Qed.

(** ** Runs under a monotone clock *)

Lemma deliver_frame_acks c asm seq now :
  (deliver_frame c asm seq now).1.(cc_frame_acks) = c.(cc_frame_acks)
  ∨ (deliver_frame c asm seq now).1.(cc_frame_acks) = fw_record c.(cc_frame_acks) seq false now.
Proof.
  assert (∀ c, cc_frame_acks (after_gate c) = cc_frame_acks c) as Hg
    by (intros c0; unfold after_gate; cbn [take_request]; by destruct (g_request _) as [[]|]).
  unfold deliver_frame. destruct (on_frame _ _ _) as [g [rd|cause]]; cbn [fst]; rewrite Hg.
  - left. destruct rd; [|done]. cbn [set_h264_gate cc_decoder_broken]. by destruct (cc_decoder_broken c).
  - destruct (_ && _); [by left|by right].
Qed.

Lemma assemble_acks c fh payload now :
  (assemble c fh payload now).1.(cc_frame_acks) = c.(cc_frame_acks)
  ∨ ∃ seq, (assemble c fh payload now).1.(cc_frame_acks) = fw_record c.(cc_frame_acks) seq false now.
Proof.
  unfold assemble. cbv zeta. set (c1 := match _ !! _ with Some _ => c | None => _ end).
  assert (cc_frame_acks (if is_keyframe fh then evict_stale_frame_assemblies c1 now else c1) = cc_frame_acks c) as <-.
  { unfold c1. destruct (cc_frame_assemblies c !! _); by destruct (is_keyframe fh). }
  set (c2 := if is_keyframe fh then _ else c1). clearbody c2. clear c1 c. rename c2 into c.
  destruct (_ !! _) as [asm|]; [|by left]. destruct (store_fragment _ _ _) as [asm'|]; [|by left].
  unfold finish_frame_if_complete. destruct (_ !! _) as [asm2|]; [|by left]. destruct (_ =? _)%nat; [|by left].
  match goal with |- context [deliver_frame ?c0 ?a ?s ?t] => destruct (deliver_frame_acks c0 a s t) as [->| ->] end;
    [by left|by eauto].
Qed.

Lemma handle_frame_acks c data now c' evs :
  handle_frame_datagram c data now = Ok (c', evs) →
  c'.(cc_frame_acks) = c.(cc_frame_acks) ∨ ∃ seq, c'.(cc_frame_acks) = fw_record c.(cc_frame_acks) seq false now.
Proof.
  unfold handle_frame_datagram. destruct (decode_frame_datagram data) as [[fh payload]| |]; [|by intros [= <- <-]; left|done].
  destruct (_ || _); [by intros [= <- <-]; left|]. set (c1 := if _ =? NO_ACK then c else _).
  assert (cc_frame_acks c1 = cc_frame_acks c) as <-.
  { unfold c1. destruct (_ =? NO_ACK); [done|]. unfold acknowledge. by destruct (ack_add _ _ _) as [b [dg|]]. }
  destruct (negb _); [by intros [= <- <-]; left|]. destruct (negb _ && _); [by intros [= <- <-]; left|].
  destruct (_ && _); [by intros [= <- <-]; left|]. cbv zeta. set (c2 := if _ <? _ then _ else c1).
  assert (cc_frame_acks c2 = cc_frame_acks c1) as <- by (unfold c2; by destruct (_ <? _)).
  destruct (_ =? 0); [by intros [= <- <-]; left|]. destruct (MAX_FRAME_FRAGMENTS <? _); [by intros [= <- <-]; left|].
  intros H%Ok_inj. pose proof (assemble_acks (evict_stale_frame_assemblies c2 now) fh payload now) as Ha.
  by rewrite H in Ha.
Qed.

Lemma frame_view_acks c c' : frame_view c' = frame_view c → c'.(cc_frame_acks) = c.(cc_frame_acks).
Proof. by intros [= _ _ _ ->]. Qed.

Lemma handle_datagram_acks c data now c' evs :
  handle_datagram c data now = Ok (c', evs) →
  c'.(cc_frame_acks) = c.(cc_frame_acks) ∨ ∃ seq, c'.(cc_frame_acks) = fw_record c.(cc_frame_acks) seq false now.
Proof.
  unfold handle_datagram. intros H. apply bind_inv in H as ([c1 evs1] & H1 & H).
  assert (cc_frame_acks c' = cc_frame_acks c1) as ->.
  { destruct (cc_decoder c1); [|by injection H as <- <-]. apply bind_inv in H as ([d out] & _ & H). by injection H as <- <-. }
  clear H c' evs. unfold handle_datagram_payloads in H1. destruct data as [|first rest]; [injection H1 as <- _; by left|].
  set (data := first :: rest) in *.
  assert (∀ c0 bs p r, frame_view c0 = frame_view c → handle_source_tile c0 bs now p = Ok r →
    frame_view r.1 = frame_view c) as Htile.
  { intros c0 bs p [c2 evs2] Hv Hr. pose proof (handle_source_tile_idle c0 bs now p) as Hi. rewrite Hr in Hi.
    destruct Hi as [Hi _]. by rewrite <-Hv. }
  destruct (_ && _).
  { left. apply frame_view_acks. destruct (tp_decode data) as [env| |]; [|by injection H1 as <- _|done].
    apply bind_inv in H1 as ([d [s|]] & _ & H1); [by eapply (λ e, Htile _ _ _ _ e H1)|by injection H1 as <- _]. }
  destruct (_ <? 20)%nat; [injection H1 as <- _; by left|]. destruct (negb (is_tile_datagram data)).
  { destruct (_ <? FRAME_HEADER_SIZE)%nat; [injection H1 as <- _; by left|]. by apply handle_frame_acks in H1. }
  left. apply frame_view_acks. destruct (_ <? TILE_MIN)%nat; [by injection H1 as <- _|].
  apply bind_inv in H1 as (ws & _ & H1). apply bind_inv in H1 as ([d r] & _ & H1).
  apply bind_inv in H1 as ([c2 evs2] & H2 & H1). apply bind_inv in H1 as ([c3 evs3] & H3 & H1). injection H1 as <- _.
  eapply (Htile c2 data Received (c3, evs3)); [|exact H3].
  destruct r as [s|]; [by eapply (λ e, Htile _ _ _ _ e H2)|by injection H2 as <- _].
Qed.

(** One call at a time no earlier than the last. *)
Inductive timed_step : ClientCore * Z → ClientCore * Z → Prop :=
| timed_datagram c t data now c' evs : t ≤ now → handle_datagram c data now = Ok (c', evs) → timed_step (c, t) (c', now)
| timed_timeout c t now : t ≤ now → timed_step (c, t) (on_timeout c now, now)
| timed_h264_result c t frame_seq o now : t ≤ now → timed_step (c, t) (h264_result c frame_seq o now, now)
| timed_poll_transmit c t : timed_step (c, t) ((poll_transmit c).1, t)
| timed_encode_feedback c t now : t ≤ now → timed_step (c, t) ((client_encode_feedback c now).1, now)
| timed_set_tile_delivery c t decoded : timed_step (c, t) (set_tile_delivery c decoded, t)
| timed_request_reset c t reason frame_seq : timed_step (c, t) (request_reset c reason frame_seq, t).

Lemma h264_result_acks c fs o now :
  ∃ decoded, (h264_result c fs o now).(cc_frame_acks) = fw_record c.(cc_frame_acks) fs decoded now.
Proof.
  assert (∀ c, cc_frame_acks (after_gate c) = cc_frame_acks c) as Hg
    by (intros c0; unfold after_gate; cbn [take_request]; by destruct (g_request _) as [[]|]).
  unfold h264_result. cbv zeta. rewrite Hg. destruct o; [|by eexists..]. destruct (negb _); by eexists.
Qed.

(** The clock and the frame-ack window are consistent. *)
Definition timed_ok (ct : ClientCore * Z) : Prop := 0 ≤ ct.2 ∧ acks_ok ct.1.(cc_frame_acks) ct.2.

Lemma timed_step_ok ct ct' : timed_step ct ct' → ct'.2 < 2 ^ 63 → timed_ok ct → timed_ok ct'.
Proof.
  intros Hs Hlt [H0 Hok]. destruct Hs as [c t data now c' evs Ht H|c t now Ht|c t fs o now Ht|c t|c t now Ht|c t b|c t r fs];
    cbn [fst snd] in *.
  - pose proof (acks_ok_later _ _ now Hok Ht) as Hok'. split; cbn [fst snd]; [lia|].
    destruct (handle_datagram_acks _ _ _ _ _ H) as [->|(s & ->)]; [done|]. apply fw_record_armed; [lia|done].
  - pose proof (acks_ok_later _ _ now Hok Ht) as Hok'. split; cbn [fst snd]; [lia|].
    apply on_timeout_settled; [lia|done].
  - pose proof (acks_ok_later _ _ now Hok Ht) as Hok'. split; cbn [fst snd]; [lia|]. destruct (h264_result_acks c fs o now) as (dec & ->).
    apply fw_record_armed; [lia|done].
  - split; [done|]. cbn. unfold poll_transmit. by destruct (cc_outbox c).
  - split; cbn [fst snd]; [lia|]. unfold client_encode_feedback. destruct (encode_feedback _ _).
    exact (acks_ok_later _ _ now Hok Ht).
  - done.
  - done.
Qed.

Lemma timed_step_clock ct ct' : timed_step ct ct' → ct.2 ≤ ct'.2.
Proof. by destruct 1; cbn; try lia. Qed.

Lemma timed_reachable_ok ct ct' : rtc timed_step ct ct' → ct'.2 < 2 ^ 63 → timed_ok ct → timed_ok ct'.
Proof.
  induction 1 as [|a b c Hs Hr IH]; [done|]. intros Hlt Ha. apply IH; [done|]. apply (timed_step_ok a); [done| |done].
  apply Z.le_lt_trans with c.2; [|done]. clear -Hr. induction Hr as [|x y z Hxy _ IH]; [lia|].
  pose proof (timed_step_clock _ _ Hxy). lia.
Qed.

(** C27: Handling a timeout always moves the next deadline into the future.  However
    the client got to its state, as long as its clock never ran backwards, after
    [on_timeout] at [now] the time [poll_timeout] asks for lies strictly after
    [now]: every timer that had fallen due was served and re-armed, and a driver
    that sleeps until the deadline makes progress instead of spinning. *)
Theorem timeouts_progress config t0 c t now :
  0 ≤ t0 → rtc timed_step (client_new config t0, t0) (c, t) → t ≤ now < 2 ^ 63 →
  now < poll_timeout (on_timeout c now).
Proof.
  intros H0 Hr Hnow.
  assert (timed_ok (c, t)) as [Ht Hok].
  { eapply timed_reachable_ok; [exact Hr|cbn; lia|]. split; [done|]. split; cbn; [by intros []|done|done]. }
  cbn [fst snd] in *. apply on_timeout_settled; [lia|]. eapply acks_ok_later; [exact Hok|lia].
Qed.

Lemma timeouts_progress_witness :
  600000 < poll_timeout (on_timeout (h264_result (client_new sample_config 0) 5 NotOutput 1000) 600000).
Proof.
  apply (timeouts_progress sample_config 0 _ 1000); [lia| |lia].
  apply rtc_once, timed_h264_result. lia.
Defined.
