(* ===== verification/EmitIds.v ===== *)
(** * Identities of what the server sends

    Models [ghostframe-lib/src/transport/reliable_emitter/mod.rs] (the key of a
    tile pass, the content of a transmission, the emitter's constants) and
    [wire_seq.rs], the allocator of transmission numbers.  The theorem: numbers
    handed out within one turn of the counter are all different, and none of them
    is the value that means "not tracked" on the wire. *)

From Stdlib Require Import ZArith Lia.
From S2P Require Import Prelude Wire.
From stdpp Require Import base option numbers list countable.

Local Open Scope Z_scope.

(** ** Tile passes and transmissions *)

Record EmitKey : Type := mkEmitKey {
  ek_frame_seq : Z; ek_tile_x : Z; ek_tile_y : Z; ek_pass_idx : Z;
}.

#[export] Instance EmitKey_eq_dec : EqDecision EmitKey.
Proof. solve_decision. Defined.

#[export] Program Instance EmitKey_countable : Countable EmitKey :=
  inj_countable' (λ k, (ek_frame_seq k, ek_tile_x k, ek_tile_y k, ek_pass_idx k))
    (λ t, mkEmitKey t.1.1.1 t.1.1.2 t.1.2 t.2) _.
Next Obligation. by intros []. Qed.

Inductive Content : Type :=
| CTile (k : EmitKey)
| CH264Frag (frame_seq frag_idx : Z)
| CPad (wire_seq : Z).

#[export] Instance Content_eq_dec : EqDecision Content.
Proof. solve_decision. Defined.

#[export] Program Instance Content_countable : Countable Content :=
  inj_countable' (λ c, match c with CTile k => inl k | CH264Frag f i => inr (inl (f, i)) | CPad w => inr (inr w) end)
    (λ t, match t with inl k => CTile k | inr (inl p) => CH264Frag p.1 p.2 | inr (inr w) => CPad w end) _.
Next Obligation. by intros []. Qed.

Definition content_tile (c : Content) : option EmitKey :=
  match c with CTile k => Some k | CH264Frag _ _ | CPad _ => None end.

(** [matches!(content, Content::Pad(_))] *)
Definition is_pad (c : Content) : bool := match c with CPad _ => true | _ => false end.

Definition FEC_GROUP_SIZE_K : Z := 10.
Definition PARITY_INTERLEAVE_OFFSET : Z := 2 * FEC_GROUP_SIZE_K.
(** In nanoseconds, the unit of every [Instant] and [Duration] of the server. *)
Definition END_OF_STREAM_PARITY_FLUSH : Z := 5 * 1000000.

(** ** The allocator *)

Record WireSeqAllocator : Type := mkAllocator { wa_next : Z }.

Definition wa_new : WireSeqAllocator := mkAllocator 0.

Definition wa_peek (a : WireSeqAllocator) : Z :=
  if a.(wa_next) =? NO_ACK then 0 else a.(wa_next).

Definition wa_allocate (a : WireSeqAllocator) : Z * WireSeqAllocator :=
  let v := if a.(wa_next) =? NO_ACK then 0 else a.(wa_next) in
  (v, mkAllocator (wadd32 v 1)).

(** [n] allocations in a row. *)
Fixpoint wa_run (n : nat) (a : WireSeqAllocator) : list Z :=
  match n with
  | O => []
  | S n => let '(v, a) := wa_allocate a in v :: wa_run n a
  end.

Lemma wa_allocate_next a : in_width 32 a.(wa_next) →
  let '(v, a') := wa_allocate a in
  v = a.(wa_next) mod NO_ACK ∧ in_width 32 a'.(wa_next) ∧ a'.(wa_next) mod NO_ACK = (v + 1) mod NO_ACK.
Proof.
  intros Ha. unfold wa_allocate, NO_ACK, wadd32, wrap, in_width in *.
  change (2 ^ 32) with 4294967296 in *. change 0xFFFFFFFF with 4294967295 in *.
  destruct (Z.eqb_spec a.(wa_next) 4294967295) as [->|Hne]; cbn; [done|].
  rewrite (Z.mod_small (wa_next a) 4294967295) by lia.
  rewrite (Z.mod_small (wa_next a + 1) 4294967296) by lia. lia.
Qed.

Lemma wa_run_nth n : ∀ a, in_width 32 a.(wa_next) →
  wa_run n a = (λ i, (a.(wa_next) + Z.of_nat i) mod NO_ACK) <$> seq 0 n.
Proof.
  induction n as [|n IH]; intros a Ha; [done|]. cbn [wa_run].
  pose proof (wa_allocate_next a Ha) as H. destruct (wa_allocate a) as [v a'].
  destruct H as (Hv & Hw & Hn). rewrite (IH a' Hw). cbn. f_equal.
  - rewrite Hv. f_equal. lia.
  - rewrite <-fmap_S_seq, <-list_fmap_compose. apply list_fmap_ext. intros i x _. cbn.
    rewrite <-Zplus_mod_idemp_l, Hn, Hv, Zplus_mod_idemp_l, <-Z.add_assoc, Zplus_mod_idemp_l.
    f_equal. lia.
Qed.

(** The transmission numbers of any run shorter than a turn of the counter are
    pairwise different, lie in 32 bits, are never the "not tracked" mark, and
    [peek] tells the next one without taking it. *)
Theorem wire_seqs_unique n a :
  in_width 32 a.(wa_next) → Z.of_nat n ≤ NO_ACK →
  NoDup (wa_run n a) ∧ Forall (λ v, 0 ≤ v < NO_ACK) (wa_run n a) ∧ wa_peek a = (wa_allocate a).1.
Proof.
  intros Ha Hn. rewrite (wa_run_nth n a Ha). split_and!.
  - apply NoDup_fmap_2_strong; [|apply NoDup_seq].
    intros i j Hi%elem_of_seq Hj%elem_of_seq H.
    assert (∀ x y : nat, (x < y < n)%nat →
      (wa_next a + Z.of_nat x) mod NO_ACK ≠ (wa_next a + Z.of_nat y) mod NO_ACK) as Hlt.
    { intros x y Hxy E. unfold NO_ACK in *. change 0xFFFFFFFF with 4294967295 in *. dlia. }
    destruct (Nat.lt_trichotomy i j) as [|[|]]; [|done|].
    + exfalso. apply (Hlt i j); [lia|done].
    + exfalso. apply (Hlt j i); [lia|done].
  - apply Forall_fmap, Forall_forall. intros i _. cbn. by apply Z.mod_pos_bound.
  - done.
Qed.

Lemma wire_seqs_unique_witness :
  NoDup (wa_run 4 (mkAllocator 4294967293)) ∧ wa_run 4 (mkAllocator 4294967293) = [4294967293; 4294967294; 0; 1].
Proof.
  split; [|reflexivity]. apply (wire_seqs_unique 4 (mkAllocator 4294967293)).
  - unfold in_width. cbn. lia.
  - unfold NO_ACK. lia.
Defined.
