(* ===== verification/MapTotals.v ===== *)
(** * Totals over finite maps

    The byte counters of the server's tables are the sum, over the entries of a map, of
    a quantity of each.  This file holds that sum and how the operations of a map
    change it. *)

From Stdlib Require Import ZArith Lia.
From S2P Require Import Prelude.
From stdpp Require Import base option numbers list gmap.

Section total.
  Context `{Countable K} {A : Type} (f : A → nat).
  Implicit Types m : gmap K A.

Definition map_total (m : gmap K A) : nat := map_fold (λ _ x n, (f x + n)%nat) 0%nat m.

Lemma map_total_empty : map_total ∅ = 0%nat.
Proof. done. Qed.

Lemma map_total_insert m k x : m !! k = None → map_total (<[k := x]> m) = (f x + map_total m)%nat.
Proof.
  intros Hk. unfold map_total. rewrite (map_fold_insert_L (λ _ x n, (f x + n)%nat)); [done|intros; lia|done].
Qed.

Lemma map_total_delete m k x : m !! k = Some x → map_total m = (f x + map_total (delete k m))%nat.
Proof.
  intros Hk. rewrite <-(insert_delete_id m k x Hk) at 1. by rewrite map_total_insert by apply lookup_delete_eq.
Qed.

Lemma map_total_replace m k x x' : m !! k = Some x →
  (map_total (<[k := x']> m) + f x = f x' + map_total m)%nat.
Proof.
  intros Hk. rewrite (map_total_delete m k x Hk), <-insert_delete_eq.
  rewrite map_total_insert by apply lookup_delete_eq. lia.
Qed.

Lemma map_total_union m1 m2 : m1 ##ₘ m2 → map_total (m1 ∪ m2) = (map_total m1 + map_total m2)%nat.
Proof.
  intros Hd. induction m1 as [|k x m1 Hk IH] using map_ind; [by rewrite (left_id_L _ _)|].
  apply map_disjoint_insert_l in Hd as [Hk2 Hd].
  rewrite <-insert_union_l, !map_total_insert; [rewrite IH by done; lia|done|].
  by apply lookup_union_None.
Qed.

Lemma map_total_filter (P : K * A → Prop) `{!∀ x, Decision (P x)} m :
  map_total m = (map_total (filter P m) + map_total (filter (λ kx, ¬ P kx) m))%nat.
Proof.
  rewrite <-map_total_union by apply map_disjoint_filter_complement. by rewrite map_filter_union_complement.
Qed.

Lemma map_size_filter_split (P : K * A → Prop) `{!∀ x, Decision (P x)} m :
  size m = (size (filter P m) + size (filter (λ kx, ¬ P kx) m))%nat.
Proof.
  rewrite <-map_size_disj_union by apply map_disjoint_filter_complement. by rewrite map_filter_union_complement.
Qed.

Lemma map_total_alter m k (g : A → A) : (∀ x, f (g x) = f x) → map_total (alter g k m) = map_total m.
Proof.
  intros Hg. destruct (m !! k) as [x|] eqn:Hk.
  - rewrite <-(insert_id m k x Hk) at 1. rewrite alter_insert_eq.
    pose proof (map_total_replace m k x (g x) Hk). rewrite Hg in *. lia.
  - rewrite alter_id; [done|]. intros x. by rewrite Hk.
Qed.
End total.

Lemma map_total_kmap `{Countable K, Countable L} {A} (f : A → nat) (h : K → L) `{!Inj (=) (=) h} (m : gmap K A) :
  map_total f (kmap (M2:=gmap L) h m) = map_total f m.
Proof.
  induction m as [|k x m Hk IH] using map_ind; [done|].
  rewrite kmap_insert by done. rewrite (map_total_insert _ (kmap (M2:=gmap L) h m)) by by rewrite lookup_kmap.
  by rewrite map_total_insert, IH.
Qed.

Lemma map_size_kmap_inj `{Countable K, Countable L} {A} (h : K → L) `{!Inj (=) (=) h} (m : gmap K A) :
  size (kmap (M2:=gmap L) h m) = size m.
Proof.
  induction m as [|k x m Hk IH] using map_ind; [done|].
  rewrite kmap_insert by done. rewrite (map_size_insert_None (h k)) by by rewrite lookup_kmap.
  by rewrite map_size_insert_None, IH.
Qed.
