(* ===== verification/RetxCache.v ===== *)
(** * The retransmit cache ([transport/reliable_emitter/cache.rs])

    The server keeps the datagram of every tile pass that is not acknowledged yet,
    indexed three ways: by its key, by tile (to cancel a tile's passes at the cost
    of that tile) and by content (a NACK cannot name the frame of a pass it never
    got).  The specification is a plain map of live entries with, beside it, the
    newest key ever cached for each content; the theorem is that every operation of
    the indexed cache computes what the specification does, and that its byte
    counter never underflows.

    [Instant]s and [Duration]s are nanoseconds.  The order in which
    [retire_older_than] visits a [HashMap] is the order of [map_to_list]; the
    theorems say nothing about it. *)

From Stdlib Require Import ZArith Lia.
From S2P Require Import Prelude Wire EmitIds MapTotals.
From stdpp Require Import base option numbers list gmap.

Local Open Scope Z_scope.

(** ** Definitions *)

Record ProbeTag : Type := mkProbeTag {
  pb_id : Z; pb_min_probes : Z; pb_min_bytes : Z; pb_bytes_sent_before : Z;
}.

Record CacheEntry : Type := mkCacheEntry {
  ce_datagram : list Z;
  ce_queued_at : Z; ce_first_sent_at : Z; ce_last_sent_at : Z;
  ce_attempts : Z; ce_loss_attempts : Z; ce_latest_ws : Z;
  ce_probe : option ProbeTag;
}.

Record RetransmitCache : Type := mkCache {
  rc_entries : gmap EmitKey CacheEntry;
  rc_by_content : gmap (Z * Z * Z) EmitKey;
  rc_by_tile : gmap (Z * Z) (list EmitKey);
  rc_bytes : nat;
}.

Definition cache_new : RetransmitCache := mkCache ∅ ∅ ∅ 0.

Definition tile_of (k : EmitKey) : Z * Z := (k.(ek_tile_x), k.(ek_tile_y)).
Definition slot_of_key (k : EmitKey) : Z * Z * Z := (k.(ek_tile_x), k.(ek_tile_y), k.(ek_pass_idx)).

Definition cache_len (c : RetransmitCache) : nat := size c.(rc_entries).
Definition cache_is_empty (c : RetransmitCache) : bool := bool_decide (c.(rc_entries) = ∅).
Definition bytes_outstanding (c : RetransmitCache) : nat := c.(rc_bytes).
Definition entry_bytes (e : CacheEntry) : nat := length e.(ce_datagram).

Definition forget_content (c : RetransmitCache) (key : EmitKey) : RetransmitCache :=
  if decide (c.(rc_by_content) !! slot_of_key key = Some key)
  then mkCache c.(rc_entries) (delete (slot_of_key key) c.(rc_by_content)) c.(rc_by_tile) c.(rc_bytes)
  else c.

(** [keys.retain(|k| k != key)], dropping the tile when nothing is left. *)
Definition forget_tile_key (by_tile : gmap (Z * Z) (list EmitKey)) (key : EmitKey) :
    gmap (Z * Z) (list EmitKey) :=
  match by_tile !! tile_of key with
  | None => by_tile
  | Some keys =>
      let keys := filter (λ k, k ≠ key) keys in
      if decide (keys = []) then delete (tile_of key) by_tile else <[tile_of key := keys]> by_tile
  end.

Definition evict (c : RetransmitCache) (key : EmitKey) :
    outcome () (RetransmitCache * option CacheEntry) :=
  match c.(rc_entries) !! key with
  | None => Ok (c, None)
  | Some entry =>
      bytes ← sub_usize c.(rc_bytes) (entry_bytes entry);
      let c := forget_content (mkCache (delete key c.(rc_entries)) c.(rc_by_content) c.(rc_by_tile) bytes) key in
      Ok (mkCache c.(rc_entries) c.(rc_by_content) (forget_tile_key c.(rc_by_tile) key) c.(rc_bytes), Some entry)
  end.

Definition cache_insert (c : RetransmitCache) (key : EmitKey) (entry : CacheEntry) :
    outcome () RetransmitCache :=
  let by_content := <[slot_of_key key := key]> c.(rc_by_content) in
  let bytes := (c.(rc_bytes) + entry_bytes entry)%nat in
  let entries := <[key := entry]> c.(rc_entries) in
  match c.(rc_entries) !! key with
  | Some replaced =>
      bytes ← sub_usize bytes (entry_bytes replaced);
      Ok (mkCache entries by_content c.(rc_by_tile) bytes)
  | None =>
      let keys := default [] (c.(rc_by_tile) !! tile_of key) in
      Ok (mkCache entries by_content (<[tile_of key := keys ++ [key]]> c.(rc_by_tile)) bytes)
  end.

Definition lookup_content (c : RetransmitCache) (tile_x tile_y pass_idx : Z) : option EmitKey :=
  c.(rc_by_content) !! (tile_x, tile_y, pass_idx).

Definition cache_get (c : RetransmitCache) (key : EmitKey) : option CacheEntry := c.(rc_entries) !! key.

(** [get_mut], and what the caller writes through it. *)
Definition cache_update (c : RetransmitCache) (key : EmitKey) (f : CacheEntry → CacheEntry) : RetransmitCache :=
  mkCache (alter f key c.(rc_entries)) c.(rc_by_content) c.(rc_by_tile) c.(rc_bytes).

Definition cache_remove := evict.

(** The body of [cancel_for_tile]'s loop. *)
Definition cancel_key (c : RetransmitCache) (k : EmitKey) : outcome () RetransmitCache :=
  match c.(rc_entries) !! k with
  | Some entry =>
      bytes ← sub_usize c.(rc_bytes) (entry_bytes entry);
      Ok (forget_content (mkCache (delete k c.(rc_entries)) c.(rc_by_content) c.(rc_by_tile) bytes) k)
  | None => Ok (forget_content c k)
  end.

Fixpoint cancel_keys (c : RetransmitCache) (keys : list EmitKey) : outcome () RetransmitCache :=
  match keys with
  | [] => Ok c
  | k :: keys => c ← cancel_key c k; cancel_keys c keys
  end.

Definition cancel_for_tile (c : RetransmitCache) (tile_x tile_y : Z) : outcome () RetransmitCache :=
  match c.(rc_by_tile) !! (tile_x, tile_y) with
  | None => Ok c
  | Some keys =>
      cancel_keys (mkCache c.(rc_entries) c.(rc_by_content) (delete (tile_x, tile_y) c.(rc_by_tile)) c.(rc_bytes)) keys
  end.

Fixpoint evict_all (c : RetransmitCache) (keys : list EmitKey) : outcome () RetransmitCache :=
  match keys with
  | [] => Ok c
  | k :: keys => '(c, _) ← evict c k; evict_all c keys
  end.

Definition retirable (now older_than : Z) (e : CacheEntry) : bool :=
  older_than <? sat_sub now e.(ce_first_sent_at).

Definition retire_older_than (c : RetransmitCache) (now older_than : Z) :
    outcome () (RetransmitCache * list EmitKey) :=
  let stale := (filter (λ ke, retirable now older_than ke.2) (map_to_list c.(rc_entries))).*1 in
  c ← evict_all c stale;
  Ok (c, stale).

Definition cache_clear (c : RetransmitCache) : RetransmitCache := mkCache ∅ ∅ ∅ 0.

Definition has_entries_for_tile (c : RetransmitCache) (tile_x tile_y : Z) : bool :=
  bool_decide (is_Some (c.(rc_by_tile) !! (tile_x, tile_y))).

(** ** The specification

    [cs_live]: what is cached.  [cs_newest]: the key most recently inserted for
    each content, whether or not it is still cached. *)

Record CacheSpec : Type := mkCacheSpec {
  cs_live : gmap EmitKey CacheEntry;
  cs_newest : gmap (Z * Z * Z) EmitKey;
}.

Inductive cache_op : Type :=
| OpInsert (k : EmitKey) (e : CacheEntry)
| OpUpdate (k : EmitKey) (f : CacheEntry → CacheEntry)
| OpRemove (k : EmitKey)
| OpCancel (tile_x tile_y : Z)
| OpRetire (now older_than : Z)
| OpClear.

Definition cache_step (c : RetransmitCache) (op : cache_op) : outcome () RetransmitCache :=
  match op with
  | OpInsert k e => cache_insert c k e
  | OpUpdate k f => Ok (cache_update c k f)
  | OpRemove k => '(c, _) ← cache_remove c k; Ok c
  | OpCancel x y => cancel_for_tile c x y
  | OpRetire now old => '(c, _) ← retire_older_than c now old; Ok c
  | OpClear => Ok (cache_clear c)
  end.

Fixpoint cache_run (c : RetransmitCache) (ops : list cache_op) : outcome () RetransmitCache :=
  match ops with
  | [] => Ok c
  | op :: ops => c ← cache_step c op; cache_run c ops
  end.

Definition spec_step (s : CacheSpec) (op : cache_op) : CacheSpec :=
  match op with
  | OpInsert k e => mkCacheSpec (<[k := e]> s.(cs_live)) (<[slot_of_key k := k]> s.(cs_newest))
  | OpUpdate k f => mkCacheSpec (alter f k s.(cs_live)) s.(cs_newest)
  | OpRemove k => mkCacheSpec (delete k s.(cs_live)) s.(cs_newest)
  | OpCancel x y => mkCacheSpec (filter (λ ke, tile_of ke.1 ≠ (x, y)) s.(cs_live)) s.(cs_newest)
  | OpRetire now old => mkCacheSpec (filter (λ ke, ¬ retirable now old ke.2) s.(cs_live)) s.(cs_newest)
  | OpClear => mkCacheSpec ∅ ∅
  end.

(** Callers never write the datagram of a cached entry. *)
Definition op_ok (op : cache_op) : Prop :=
  match op with OpUpdate _ f => ∀ e, ce_datagram (f e) = ce_datagram e | _ => True end.


(** ** The refinement *)

(** Entries, content index and byte count against the specification. *)
Record core_ok (c : RetransmitCache) (s : CacheSpec) : Prop := {
  co_entries : c.(rc_entries) = s.(cs_live);
  co_content : ∀ sl k, c.(rc_by_content) !! sl = Some k ↔ s.(cs_newest) !! sl = Some k ∧ is_Some (s.(cs_live) !! k);
  co_slot : ∀ sl k, s.(cs_newest) !! sl = Some k → slot_of_key k = sl;
  co_bytes : c.(rc_bytes) = map_total entry_bytes s.(cs_live);
}.

(** The tile index against the live entries. *)
Record tiles_ok (bt : gmap (Z * Z) (list EmitKey)) (live : gmap EmitKey CacheEntry) : Prop := {
  tk_nonempty : ∀ t ks, bt !! t = Some ks → ks ≠ [];
  tk_keys : ∀ t k, k ∈ default [] (bt !! t) ↔ tile_of k = t ∧ is_Some (live !! k);
}.

Definition cache_refines (c : RetransmitCache) (s : CacheSpec) : Prop :=
  core_ok c s ∧ tiles_ok c.(rc_by_tile) s.(cs_live).

Definition spec_delete (s : CacheSpec) (k : EmitKey) : CacheSpec :=
  mkCacheSpec (delete k s.(cs_live)) s.(cs_newest).

Lemma forget_content_fields c k :
  rc_entries (forget_content c k) = rc_entries c ∧ rc_by_tile (forget_content c k) = rc_by_tile c
  ∧ rc_bytes (forget_content c k) = rc_bytes c.
Proof. unfold forget_content. by case_decide. Qed.

Lemma forget_content_lookup c k sl k' :
  rc_by_content (forget_content c k) !! sl = Some k' ↔
  rc_by_content c !! sl = Some k' ∧ ¬ (sl = slot_of_key k ∧ k' = k).
Proof.
  unfold forget_content. case_decide as H; cbn.
  - rewrite lookup_delete_Some. naive_solver.
  - naive_solver.
Qed.

Lemma cancel_key_core c s k : core_ok c s →
  ∃ c', cancel_key c k = Ok c' ∧ core_ok c' (spec_delete s k) ∧ rc_by_tile c' = rc_by_tile c.
Proof.
  intros [He Hc Hsl Hb]. unfold cancel_key. rewrite He.
  assert (∀ c0, rc_by_content c0 = rc_by_content c → ∀ sl k',
    rc_by_content (forget_content c0 k) !! sl = Some k' ↔
    cs_newest s !! sl = Some k' ∧ is_Some (delete k (cs_live s) !! k')) as Hf.
  { intros c0 E sl k'. rewrite forget_content_lookup, E, Hc. split.
    - intros [[Hn Hl] Hne]. split; [done|]. rewrite lookup_delete_ne; [done|].
      intros <-. apply Hne. split; [|done]. by rewrite <-(Hsl sl k).
    - intros [Hn Hl]. destruct (decide (k = k')) as [<-|Hne].
      { rewrite lookup_delete_eq in Hl. by destruct Hl. }
      rewrite lookup_delete_ne in Hl by done. naive_solver. }
  destruct (cs_live s !! k) as [e|] eqn:Ek.
  - pose proof (map_total_delete entry_bytes _ _ _ Ek) as Hd. unfold sub_usize.
    rewrite (proj2 (Nat.leb_le _ _)) by lia. rewrite bind_Ok. eexists. split; [done|].
    destruct (forget_content_fields (mkCache (delete k (cs_live s)) (rc_by_content c) (rc_by_tile c)
      (rc_bytes c - entry_bytes e)) k) as (F1 & F2 & F3).
    split; [|by rewrite F2]. split; cbn.
    + by rewrite F1.
    + by apply Hf.
    + done.
    + rewrite F3. cbn. lia.
  - eexists. split; [done|]. destruct (forget_content_fields c k) as (F1 & F2 & F3).
    split; [|by rewrite F2]. split; cbn; rewrite ?F1, ?F3, ?delete_id by done; try done.
    intros sl k'. rewrite (Hf c eq_refl). by rewrite delete_id.
Qed.

Lemma forget_tile_key_ok bt live k : tiles_ok bt live → tiles_ok (forget_tile_key bt k) (delete k live).
Proof.
  intros [Hn Hk]. unfold forget_tile_key.
  assert (∀ t k', (tile_of k' = t ∧ is_Some (delete k live !! k')) ↔ k' ≠ k ∧ k' ∈ default [] (bt !! t)) as Hd.
  { intros t k'. rewrite Hk. destruct (decide (k' = k)) as [->|Hne].
    - rewrite lookup_delete_eq. split; [by intros [_ []]|by intros []].
    - rewrite lookup_delete_ne by done. naive_solver. }
  destruct (bt !! tile_of k) as [ks|] eqn:Et; [case_decide as Hemp|].
  - split.
    + intros t ks' [? H]%lookup_delete_Some. by eapply Hn.
    + intros t k'. rewrite Hd. destruct (decide (t = tile_of k)) as [->|Hne].
      * rewrite lookup_delete_eq, Et. cbn. split; [by intros ?%elem_of_nil|].
        intros [H1 H2]. rewrite <-Hemp. by apply list_elem_of_filter.
      * rewrite lookup_delete_ne by done. split; [|by intros []]. intros H. split; [|done].
        intros ->. apply Hk in H as [? _]. by apply Hne.
  - split.
    + intros t ks'. rewrite lookup_insert_Some. intros [[_ <-]|[_ H]]; [done|by eapply Hn].
    + intros t k'. rewrite Hd. destruct (decide (t = tile_of k)) as [->|Hne].
      * rewrite lookup_insert_eq, Et. cbn. rewrite list_elem_of_filter. done.
      * rewrite lookup_insert_ne by done. split; [|by intros []]. intros H. split; [|done].
        intros ->. apply Hk in H as [? _]. by apply Hne.
  - split; [done|]. intros t k'. rewrite Hd. split; [|by intros []]. intros H. split; [|done].
    intros ->. apply Hk in H as Ht. destruct Ht as [<- _]. rewrite Et in H. by apply elem_of_nil in H.
Qed.

Lemma evict_refines c s k : cache_refines c s →
  ∃ c', evict c k = Ok (c', cs_live s !! k) ∧ cache_refines c' (spec_delete s k).
Proof.
  intros [Hc Ht]. destruct (cancel_key_core c s k Hc) as (c' & Hck & Hc' & Htb).
  unfold evict, cancel_key in *. rewrite (co_entries _ _ Hc) in *.
  destruct (cs_live s !! k) as [e|] eqn:Ek.
  - unfold sub_usize in *. destruct (_ <=? _)%nat; [|done]. rewrite bind_Ok in Hck. rewrite bind_Ok.
    apply Ok_inj in Hck. rewrite Hck. eexists. split; [done|]. split.
    + destruct Hc'. by split.
    + cbn. rewrite Htb. by apply forget_tile_key_ok.
  - eexists. split; [done|]. unfold spec_delete. rewrite delete_id by done. destruct s. by split.
Qed.

Lemma evict_all_refines ks : ∀ c s, cache_refines c s →
  ∃ c', evict_all c ks = Ok c' ∧ cache_refines c' (foldl spec_delete s ks).
Proof.
  induction ks as [|k ks IH]; intros c s H; cbn; [eauto|].
  destruct (evict_refines c s k H) as (c1 & -> & H1). rewrite bind_Ok. by apply IH.
Qed.

Lemma cancel_keys_core ks : ∀ c s, core_ok c s →
  ∃ c', cancel_keys c ks = Ok c' ∧ core_ok c' (foldl spec_delete s ks) ∧ rc_by_tile c' = rc_by_tile c.
Proof.
  induction ks as [|k ks IH]; intros c s H; cbn; [eauto|].
  destruct (cancel_key_core c s k H) as (c1 & -> & H1 & E1). rewrite bind_Ok, <-E1. by apply IH.
Qed.

(** Deleting keys one by one is filtering. *)
Lemma spec_delete_all (P : EmitKey * CacheEntry → Prop) `{∀ x, Decision (P x)} s ks :
  (∀ k e, cs_live s !! k = Some e → (k ∈ ks ↔ ¬ P (k, e))) →
  foldl spec_delete s ks = mkCacheSpec (filter P s.(cs_live)) s.(cs_newest).
Proof.
  intros HP.
  assert (cs_newest (foldl spec_delete s ks) = cs_newest s
    ∧ ∀ k, cs_live (foldl spec_delete s ks) !! k = if decide (k ∈ ks) then None else cs_live s !! k) as [Hn Hl].
  { clear HP. revert s. induction ks as [|k0 ks IH]; intros s; cbn [foldl].
    - split; [done|]. intros k. case_decide as Hk; [by apply elem_of_nil in Hk|done].
    - destruct (IH (spec_delete s k0)) as [-> IHl]. split; [done|]. intros k. rewrite IHl. cbn.
      destruct (decide (k = k0)) as [->|Hne].
      + rewrite lookup_delete_eq. rewrite (decide_True (P:=k0 ∈ k0 :: ks)) by left. by case_decide.
      + rewrite lookup_delete_ne by done. repeat case_decide; set_solver. }
  destruct (foldl spec_delete s ks) as [live newest]. cbn in *. subst newest. f_equal.
  apply map_eq. intros k. rewrite Hl. apply option_eq. intros e. rewrite map_lookup_filter_Some.
  case_decide as Hk.
  - split; [done|]. intros [Hx HPk]. by apply (HP k e Hx) in Hk.
  - split; [|by intros []]. intros Hx. split; [done|]. apply dec_stable. intros HN. apply Hk. by apply (HP k e).
Qed.

Lemma insert_refines c s k e : cache_refines c s →
  ∃ c', cache_insert c k e = Ok c' ∧ cache_refines c' (spec_step s (OpInsert k e)).
Proof.
  intros [[He Hc Hsl Hb] [Hn Hk]]. unfold cache_insert. rewrite He.
  assert (∀ sl k', <[slot_of_key k:=k]> (rc_by_content c) !! sl = Some k' ↔
    <[slot_of_key k:=k]> (cs_newest s) !! sl = Some k' ∧ is_Some (<[k:=e]> (cs_live s) !! k')) as Hc'.
  { intros sl k'. rewrite !lookup_insert_Some, Hc, lookup_insert_is_Some'. split.
    - naive_solver.
    - intros [[[<- <-]|[? ?]] Hl]; [by left|]. right. split; [done|]. split; [done|].
      destruct Hl as [<-|Hl]; [|done]. exfalso. by apply H, Hsl. }
  assert (∀ sl k', <[slot_of_key k:=k]> (cs_newest s) !! sl = Some k' → slot_of_key k' = sl) as Hsl'.
  { intros sl k'. rewrite lookup_insert_Some. intros [[<- <-]|[_ ?]]; [done|by apply Hsl]. }
  destruct (cs_live s !! k) as [e0|] eqn:Ek.
  - pose proof (map_total_replace entry_bytes _ _ _ e Ek) as Hr. unfold sub_usize.
    rewrite (proj2 (Nat.leb_le _ _)) by lia. rewrite bind_Ok. eexists. split; [done|].
    split; split; cbn; [done|done|done|lia|done|].
    intros t k'. rewrite Hk, lookup_insert_is_Some'. split; [naive_solver|].
    intros [Ht [<-|Hl]]; [|done]. by rewrite Ek.
  - eexists. split; [done|]. split; split; cbn.
    + done.
    + done.
    + done.
    + rewrite map_total_insert by done. lia.
    + intros t ks. rewrite lookup_insert_Some. intros [[_ <-]|[_ H]]; [by destruct (default _ _)|by eapply Hn].
    + intros t k'. rewrite lookup_insert_is_Some'. destruct (decide (t = tile_of k)) as [->|Hne].
      * rewrite lookup_insert_eq. cbn. rewrite elem_of_app, Hk, list_elem_of_singleton. split.
        -- intros [[Ht Hl]| ->]; auto.
        -- intros [Ht [<-|Hl]]; auto.
      * rewrite lookup_insert_ne by done. rewrite Hk. split; [intros []; auto|].
        intros [Ht [<-|Hl]]; [by rewrite Ht in Hne|done].
Qed.

Lemma update_refines c s k f : (∀ e, ce_datagram (f e) = ce_datagram e) → cache_refines c s →
  cache_refines (cache_update c k f) (spec_step s (OpUpdate k f)).
Proof.
  intros Hf [[He Hc Hsl Hb] [Hn Hk]].
  assert (∀ k', is_Some (alter f k (cs_live s) !! k') ↔ is_Some (cs_live s !! k')) as Hs.
  { intros k'. destruct (decide (k' = k)) as [->|Hne].
    - rewrite lookup_alter_eq. apply fmap_is_Some.
    - by rewrite lookup_alter_ne. }
  split; split; cbn; [by rewrite He| | done| |done|].
  - intros sl k'. by rewrite Hc, Hs.
  - rewrite Hb. destruct (cs_live s !! k) as [e|] eqn:Ek.
    + assert (alter f k (cs_live s) = <[k := f e]> (cs_live s)) as ->.
      { apply map_eq. intros k'. rewrite lookup_alter, lookup_insert. case_decide; [|done]. subst. by rewrite Ek. }
      pose proof (map_total_replace entry_bytes _ _ _ (f e) Ek) as H.
      assert (entry_bytes (f e) = entry_bytes e) by (unfold entry_bytes; by rewrite Hf). lia.
    + by rewrite alter_id'.
  - intros t k'. by rewrite Hk, Hs.
Qed.

Lemma cancel_refines c s x y : cache_refines c s →
  ∃ c', cancel_for_tile c x y = Ok c' ∧ cache_refines c' (spec_step s (OpCancel x y)).
Proof.
  intros [Hc [Hn Hk]]. unfold cancel_for_tile.
  assert (∀ k e, cs_live s !! k = Some e →
    (k ∈ default [] (rc_by_tile c !! (x, y)) ↔ ¬ tile_of (k, e).1 ≠ (x, y))) as HP.
  { intros k e He. rewrite Hk, He. cbn. split; [naive_solver|]. intros H. split; [|eauto].
    apply dec_stable, H. }
  cbn [spec_step]. rewrite <-(spec_delete_all (λ ke, tile_of ke.1 ≠ (x, y)) s _ HP).
  destruct (rc_by_tile c !! (x, y)) as [ks|] eqn:Et;
    [change (default [] (Some ks)) with ks in *|change (default [] None) with (@nil EmitKey) in *].
  - destruct (cancel_keys_core ks (mkCache (rc_entries c) (rc_by_content c) (delete (x, y) (rc_by_tile c)) (rc_bytes c)) s)
      as (c' & -> & Hc' & E); [by destruct Hc|]. eexists. split; [done|]. split; [done|]. rewrite E. cbn.
    rewrite (spec_delete_all (λ ke, tile_of ke.1 ≠ (x, y)) s _ HP). cbn. split.
    + intros t ks' [_ H]%lookup_delete_Some. by eapply Hn.
    + intros t k. unfold is_Some. setoid_rewrite map_lookup_filter_Some. cbn.
      destruct (decide (t = (x, y))) as [->|Hne].
      * rewrite lookup_delete_eq. cbn. split; [by intros ?%elem_of_nil|]. naive_solver.
      * rewrite lookup_delete_ne by done. rewrite Hk. unfold is_Some. naive_solver.
  - eexists. split; [done|]. by split.
Qed.

Lemma stale_keys m now old k e : m !! k = Some e →
  k ∈ (filter (λ ke : EmitKey * CacheEntry, retirable now old ke.2) (map_to_list m)).*1 ↔ retirable now old e.
Proof.
  intros He. rewrite list_elem_of_fmap. split.
  - intros ([k' e'] & -> & [H1 H2%elem_of_map_to_list]%list_elem_of_filter). cbn in *. by simplify_eq.
  - intros H. exists (k, e). split; [done|]. apply list_elem_of_filter. split; [done|]. by apply elem_of_map_to_list.
Qed.

Lemma retire_refines c s now old : cache_refines c s →
  ∃ c' ks, retire_older_than c now old = Ok (c', ks) ∧ cache_refines c' (spec_step s (OpRetire now old))
    ∧ NoDup ks ∧ ∀ k, k ∈ ks ↔ ∃ e, cs_live s !! k = Some e ∧ retirable now old e.
Proof.
  intros H. unfold retire_older_than. rewrite (co_entries _ _ (proj1 H)).
  set (ks := (filter _ _).*1). destruct (evict_all_refines ks c s H) as (c' & -> & Hc').
  rewrite bind_Ok. exists c', ks. split; [done|]. split_and!.
  - rewrite (spec_delete_all (λ ke, ¬ retirable now old ke.2)) in Hc'; [done|]. intros k e He. cbn.
    unfold ks. rewrite (stale_keys _ _ _ _ _ He). split; [auto|]. apply dec_stable.
  - unfold ks. apply (NoDup_fmap_fst _).
    + intros k e1 e2 [_ H1%elem_of_map_to_list]%list_elem_of_filter [_ H2%elem_of_map_to_list]%list_elem_of_filter.
      congruence.
    + apply NoDup_filter, NoDup_map_to_list.
  - intros k. destruct (cs_live s !! k) as [e|] eqn:He.
    + unfold ks. rewrite (stale_keys _ _ _ _ _ He). naive_solver.
    + split; [|by intros (? & ? & _)]. unfold ks. intros ([k' e'] & -> & [_ Hin]%list_elem_of_filter)%list_elem_of_fmap.
      apply elem_of_map_to_list in Hin. cbn in *. congruence.
Qed.

Lemma empty_refines : cache_refines (mkCache ∅ ∅ ∅ 0) (mkCacheSpec ∅ ∅).
Proof.
  split; split; cbn; try done.
  - intros sl k. rewrite lookup_empty. split; [done|by intros []].
  - intros t k. rewrite !lookup_empty. cbn. split; [intros H; by apply elem_of_nil in H|by intros [_ []]].
Qed.

Lemma cache_step_refines c s op : op_ok op → cache_refines c s →
  ∃ c', cache_step c op = Ok c' ∧ cache_refines c' (spec_step s op).
Proof.
  intros Hop H. destruct op as [k e|k f|k|x y|now old|]; cbn [cache_step].
  - by apply insert_refines.
  - eexists. split; [done|]. by apply update_refines.
  - destruct (evict_refines c s k H) as (c' & E & H'). unfold cache_remove. rewrite E, bind_Ok. eauto.
  - by apply cancel_refines.
  - destruct (retire_refines c s now old H) as (c' & ks & -> & H' & _). rewrite bind_Ok. eauto.
  - eexists. split; [done|]. apply empty_refines.
Qed.

Definition spec_new : CacheSpec := mkCacheSpec ∅ ∅.

Lemma cache_run_refines ops : ∀ c s, Forall op_ok ops → cache_refines c s →
  ∃ c', cache_run c ops = Ok c' ∧ cache_refines c' (foldl spec_step s ops).
Proof.
  induction ops as [|op ops IH]; intros c s Hops H; cbn; [eauto|].
  apply Forall_cons in Hops as [Hop Hops].
  destruct (cache_step_refines c s op Hop H) as (c1 & -> & H1). rewrite bind_Ok. by apply IH.
Qed.

(** Whatever is cached, updated, acknowledged, cancelled, retired or cleared, and in
    whatever order, no operation of the cache panics, and its three indexes and its
    byte counter answer as the plain map of live entries does: entries are found by
    key, by tile exactly when the tile has a live entry, by content exactly when the
    newest key cached for that content is still live; the bytes outstanding are those
    of the live datagrams; removal returns the live entry; retirement returns each
    entry that is too old, once. *)
Theorem cache_refines_map ops :
  Forall op_ok ops →
  let s := foldl spec_step spec_new ops in
  ∃ c, cache_run cache_new ops = Ok c
    ∧ (∀ k, cache_get c k = cs_live s !! k)
    ∧ cache_len c = size (cs_live s)
    ∧ bytes_outstanding c = map_total entry_bytes (cs_live s)
    ∧ (∀ x y, has_entries_for_tile c x y = true ↔ ∃ k, tile_of k = (x, y) ∧ is_Some (cs_live s !! k))
    ∧ (∀ x y p k, lookup_content c x y p = Some k ↔ cs_newest s !! (x, y, p) = Some k ∧ is_Some (cs_live s !! k))
    ∧ (∀ k, ∃ c', cache_remove c k = Ok (c', cs_live s !! k))
    ∧ (∀ now old, ∃ c' ks, retire_older_than c now old = Ok (c', ks) ∧ NoDup ks
         ∧ ∀ k, k ∈ ks ↔ ∃ e, cs_live s !! k = Some e ∧ old < sat_sub now e.(ce_first_sent_at)).
Proof.
  intros Hops s. destruct (cache_run_refines ops cache_new spec_new Hops) as (c & Hrun & Hc).
  { apply empty_refines. }
  exists c. split; [done|]. fold s in Hc. destruct Hc as [[He Hco Hsl Hb] [Hn Hk]] eqn:E. clear E. split_and!.
  - intros k. unfold cache_get. by rewrite He.
  - unfold cache_len. by rewrite He.
  - done.
  - intros x y. unfold has_entries_for_tile. rewrite bool_decide_eq_true. split.
    + intros [ks Hks]. destruct ks as [|k ks]; [by apply Hn in Hks|]. exists k. apply Hk. rewrite Hks. by left.
    + intros (k & H). apply Hk in H. destruct (rc_by_tile c !! (x, y)); [eauto|]. by apply elem_of_nil in H.
  - intros x y p k. apply Hco.
  - intros k. destruct (evict_refines c s k Hc) as (c' & ? & _). eauto.
  - intros now old. destruct (retire_refines c s now old Hc) as (c' & ks & H & _ & Hnd & Hks).
    exists c', ks. split_and!; [done..|]. intros k. rewrite Hks. unfold retirable.
    by setoid_rewrite Is_true_true; setoid_rewrite Z.ltb_lt.
Qed.

Definition sample_entry (n : nat) (t : Z) : CacheEntry := mkCacheEntry (replicate n 7) 0 t t 0 0 0 None.
Definition sample_ops : list cache_op :=
  [OpInsert (mkEmitKey 1 4 4 0) (sample_entry 3 10); OpInsert (mkEmitKey 2 4 4 0) (sample_entry 5 20);
   OpInsert (mkEmitKey 1 3 3 0) (sample_entry 2 10); OpInsert (mkEmitKey 2 4 4 0) (sample_entry 4 30);
   OpRemove (mkEmitKey 1 4 4 0); OpCancel 3 3].

Lemma cache_refines_map_witness :
  ∃ c, cache_run cache_new sample_ops = Ok c ∧ bytes_outstanding c = 4%nat
    ∧ lookup_content c 4 4 0 = Some (mkEmitKey 2 4 4 0).
Proof.
  destruct (cache_refines_map sample_ops) as (c & Hrun & _ & _ & Hb & _ & Hl & _).
  { unfold sample_ops. do 6 (apply Forall_cons; split; [exact I|]). apply Forall_nil_2. }
  exists c. split; [exact Hrun|]. split; [rewrite Hb; reflexivity|]. apply Hl. split; [reflexivity|]. by eexists.
Defined.

(** The content index follows the newest emission only: once that is acknowledged, an
    older emission of the same pass that is still cached is not found by content. *)
Example older_emission_not_found :
  match cache_run cache_new [OpInsert (mkEmitKey 1 4 4 0) (sample_entry 3 10);
                             OpInsert (mkEmitKey 2 4 4 0) (sample_entry 5 20);
                             OpRemove (mkEmitKey 2 4 4 0)] with
  | Ok c => lookup_content c 4 4 0 = None ∧ is_Some (cache_get c (mkEmitKey 1 4 4 0))
  | _ => False
  end.
Proof. vm_compute. eauto. Qed.
