(* ===== verification/FrameCache.v ===== *)
(** * The probe cache of H.264 fragments ([transport/reliable_emitter/h264.rs])

    The fragments of the access units that are not fully acknowledged, by frame, and the
    ring of probe padding in flight.  The specification of the cache is one flat map
    from fragments to entries: the theorem is that every operation of the nested cache
    computes what it does on the flat map, that its two counters are exact and never
    underflow, and that the padding ring is bounded.

    The [BTreeMap] of frames is a [gmap] over the frame numbers, compared as the plain
    [u32]s they are in the source. *)

From Stdlib Require Import ZArith Lia.
From S2P Require Import Prelude Wire EmitIds MapTotals RetxCache.
From stdpp Require Import base option numbers list gmap sorting.

Local Open Scope Z_scope.

(** ** Definitions *)

Definition H264_CACHE_FRAMES : nat := 64.

Record H264Submit : Type := mkSubmit {
  hs_frame_seq : Z; hs_frag_idx : Z; hs_is_idr : bool; hs_bytes : list Z;
  hs_queued_at : Z; hs_probe : option ProbeTag;
}.

Record FrameEntries : Type := mkFrame { fe_is_idr : bool; fe_frags : gmap Z CacheEntry }.

Record H264Cache : Type := mkH264 {
  hc_frames : gmap Z FrameEntries;
  hc_entries : nat;
  hc_bytes : nat;
}.

Definition h264_new : H264Cache := mkH264 ∅ 0 0.
Definition h264_len (c : H264Cache) : nat := c.(hc_entries).
Definition h264_is_empty (c : H264Cache) : bool := (c.(hc_entries) =? 0)%nat.
Definition h264_frames (c : H264Cache) : nat := size c.(hc_frames).
Definition h264_bytes_outstanding (c : H264Cache) : nat := c.(hc_bytes).

Definition h264_get (c : H264Cache) (frame_seq frag_idx : Z) : option CacheEntry :=
  f ← c.(hc_frames) !! frame_seq; f.(fe_frags) !! frag_idx.

(** [get_mut], and what the caller writes through it. *)
Definition h264_update (c : H264Cache) (frame_seq frag_idx : Z) (g : CacheEntry → CacheEntry) : H264Cache :=
  mkH264 (alter (λ f, mkFrame f.(fe_is_idr) (alter g frag_idx f.(fe_frags))) frame_seq c.(hc_frames))
    c.(hc_entries) c.(hc_bytes).

Definition h264_is_idr (c : H264Cache) (frame_seq : Z) : option bool :=
  fe_is_idr <$> c.(hc_frames) !! frame_seq.

Definition h264_insert (c : H264Cache) (frame_seq frag_idx : Z) (is_idr : bool) (entry : CacheEntry) :
    outcome () H264Cache :=
  let frame := default (mkFrame is_idr ∅) (c.(hc_frames) !! frame_seq) in
  let bytes := (c.(hc_bytes) + entry_bytes entry)%nat in
  let frames := <[frame_seq := mkFrame frame.(fe_is_idr) (<[frag_idx := entry]> frame.(fe_frags))]> c.(hc_frames) in
  match frame.(fe_frags) !! frag_idx with
  | Some old =>
      bytes ← sub_usize bytes (entry_bytes old);
      Ok (mkH264 frames c.(hc_entries) bytes)
  | None => Ok (mkH264 frames (S c.(hc_entries)) bytes)
  end.

Definition h264_remove (c : H264Cache) (frame_seq frag_idx : Z) : outcome () (H264Cache * option CacheEntry) :=
  match c.(hc_frames) !! frame_seq with
  | None => Ok (c, None)
  | Some frame =>
      match frame.(fe_frags) !! frag_idx with
      | None => Ok (c, None)
      | Some entry =>
          entries ← sub_usize c.(hc_entries) 1;
          bytes ← sub_usize c.(hc_bytes) (entry_bytes entry);
          let frags := delete frag_idx frame.(fe_frags) in
          let frames := if decide (frags = ∅) then delete frame_seq c.(hc_frames)
                        else <[frame_seq := mkFrame frame.(fe_is_idr) frags]> c.(hc_frames) in
          Ok (mkH264 frames entries bytes, Some entry)
      end
  end.

Definition frames_entries (frames : gmap Z FrameEntries) : nat := map_total (λ f, size f.(fe_frags)) frames.
Definition frames_bytes (frames : gmap Z FrameEntries) : nat :=
  map_total (λ f, map_total entry_bytes f.(fe_frags)) frames.

(** The loops that count the fragments of the frames [gone] and take them off the
    counters. *)
Definition forget_frames (c : H264Cache) (keep gone : gmap Z FrameEntries) : outcome () (H264Cache * nat) :=
  let dropped := frames_entries gone in
  bytes ← sub_usize c.(hc_bytes) (frames_bytes gone);
  entries ← sub_usize c.(hc_entries) dropped;
  Ok (mkH264 keep entries bytes, dropped).

Definition drop_before (c : H264Cache) (frame_seq : Z) : outcome () (H264Cache * nat) :=
  forget_frames c (filter (λ kf, frame_seq ≤ kf.1) c.(hc_frames)) (filter (λ kf, ¬ frame_seq ≤ kf.1) c.(hc_frames)).

Definition drop_frame (c : H264Cache) (frame_seq : Z) : outcome () (H264Cache * nat) :=
  match c.(hc_frames) !! frame_seq with
  | None => Ok (c, 0%nat)
  | Some f => forget_frames c (delete frame_seq c.(hc_frames)) {[ frame_seq := f ]}
  end.

Definition drop_from (c : H264Cache) (frame_seq : Z) : outcome () (H264Cache * nat) :=
  forget_frames c (filter (λ kf, ¬ frame_seq ≤ kf.1) c.(hc_frames)) (filter (λ kf, frame_seq ≤ kf.1) c.(hc_frames)).

Definition h264_clear (c : H264Cache) : H264Cache := mkH264 ∅ 0 0.

(** The frame numbers, newest first. *)
Definition newest_first (frames : gmap Z FrameEntries) : list Z := merge_sort Z.ge (elements (dom frames)).

Definition trim_to (c : H264Cache) (max_frames : nat) : outcome () (H264Cache * nat) :=
  if (size c.(hc_frames) <=? max_frames)%nat then Ok (c, 0%nat)
  else if (max_frames =? 0)%nat then Ok (h264_clear c, c.(hc_entries))
  else
    cut ← idx (newest_first c.(hc_frames)) (max_frames - 1);
    drop_before c cut.

Record PadEntry : Type := mkPad { pe_probe : ProbeTag; pe_queued_at : Z; pe_len : nat }.

Record PadRing : Type := mkPads { pr_entries : gmap Z PadEntry; pr_order : list Z; pr_bytes : nat }.

Definition PAD_RING_CAP : nat := 512.
Definition PAD_ENTRY_TTL : Z := 2000000000.

Definition pads_new : PadRing := mkPads ∅ [] 0.
Definition pads_len (r : PadRing) : nat := size r.(pr_entries).
Definition pads_get (r : PadRing) (wire_seq : Z) : option PadEntry := r.(pr_entries) !! wire_seq.

Definition pads_remove (r : PadRing) (wire_seq : Z) : outcome () (PadRing * bool) :=
  match r.(pr_entries) !! wire_seq with
  | Some e =>
      bytes ← sub_usize r.(pr_bytes) e.(pe_len);
      Ok (mkPads (delete wire_seq r.(pr_entries)) r.(pr_order) bytes, true)
  | None => Ok (r, false)
  end.

(** The loop of [insert]: the oldest go until there is room. *)
Fixpoint make_room (order : list Z) (r : PadRing) : outcome () PadRing :=
  let r := mkPads r.(pr_entries) order r.(pr_bytes) in
  if (size r.(pr_entries) <? PAD_RING_CAP)%nat then Ok r
  else
    match order with
    | [] => Ok r
    | old :: order =>
        '(r, _) ← pads_remove (mkPads r.(pr_entries) order r.(pr_bytes)) old;
        make_room order r
    end.

Definition pads_insert (r : PadRing) (wire_seq : Z) (entry : PadEntry) : outcome () PadRing :=
  r ← make_room r.(pr_order) r;
  let bytes := (r.(pr_bytes) + entry.(pe_len))%nat in
  let entries := <[wire_seq := entry]> r.(pr_entries) in
  match r.(pr_entries) !! wire_seq with
  | Some old => bytes ← sub_usize bytes old.(pe_len); Ok (mkPads entries r.(pr_order) bytes)
  | None => Ok (mkPads entries (r.(pr_order) ++ [wire_seq]) bytes)
  end.

(** The loop of [expire]. *)
Fixpoint expire_loop (now : Z) (order : list Z) (r : PadRing) (n : nat) : outcome () (PadRing * nat) :=
  let r := mkPads r.(pr_entries) order r.(pr_bytes) in
  match order with
  | [] => Ok (r, n)
  | ws :: order =>
      match r.(pr_entries) !! ws with
      | None => expire_loop now order r n
      | Some e =>
          if PAD_ENTRY_TTL <? sat_sub now e.(pe_queued_at)
          then '(r, _) ← pads_remove (mkPads r.(pr_entries) order r.(pr_bytes)) ws; expire_loop now order r (S n)
          else Ok (r, n)
      end
  end.

Definition pads_expire (r : PadRing) (now : Z) : outcome () (PadRing * nat) := expire_loop now r.(pr_order) r 0.

Definition pads_clear (r : PadRing) : PadRing := mkPads ∅ [] 0.

(** ** The flat map

    What the nested cache stands for: its fragments, by frame and index. *)

Definition fragments (frames : gmap Z FrameEntries) : gmap (Z * Z) CacheEntry :=
  map_fold (λ f fe m, kmap (pair f) fe.(fe_frags) ∪ m) ∅ frames.

Definition frame_alive (live : gmap (Z * Z) CacheEntry) (f : Z) : bool :=
  bool_decide (Exists (λ ke, ke.1.1 = f) (map_to_list live)).

(** The frames with a fragment, newer than [f]. *)
Definition newer_frames (live : gmap (Z * Z) CacheEntry) (f : Z) : gset Z :=
  filter (λ g, f < g) (list_to_set ((λ ke, ke.1.1) <$> map_to_list live)).

Inductive frame_op : Type :=
| FInsert (frame_seq frag_idx : Z) (is_idr : bool) (e : CacheEntry)
| FUpdate (frame_seq frag_idx : Z) (g : CacheEntry → CacheEntry)
| FRemove (frame_seq frag_idx : Z)
| FDropBefore (frame_seq : Z)
| FDropFrame (frame_seq : Z)
| FDropFrom (frame_seq : Z)
| FTrim (max_frames : nat)
| FClear.

Definition frame_step (c : H264Cache) (op : frame_op) : outcome () H264Cache :=
  match op with
  | FInsert f i idr e => h264_insert c f i idr e
  | FUpdate f i g => Ok (h264_update c f i g)
  | FRemove f i => '(c, _) ← h264_remove c f i; Ok c
  | FDropBefore f => '(c, _) ← drop_before c f; Ok c
  | FDropFrame f => '(c, _) ← drop_frame c f; Ok c
  | FDropFrom f => '(c, _) ← drop_from c f; Ok c
  | FTrim n => '(c, _) ← trim_to c n; Ok c
  | FClear => Ok (h264_clear c)
  end.

Fixpoint frame_run (c : H264Cache) (ops : list frame_op) : outcome () H264Cache :=
  match ops with
  | [] => Ok c
  | op :: ops => c ← frame_step c op; frame_run c ops
  end.

(** The same on the flat map. *)
Definition flat_step (live : gmap (Z * Z) CacheEntry) (op : frame_op) : gmap (Z * Z) CacheEntry :=
  match op with
  | FInsert f i _ e => <[(f, i) := e]> live
  | FUpdate f i g => alter g (f, i) live
  | FRemove f i => delete (f, i) live
  | FDropBefore f => filter (λ ke, f ≤ ke.1.1) live
  | FDropFrame f => filter (λ ke, ke.1.1 ≠ f) live
  | FDropFrom f => filter (λ ke, ke.1.1 < f) live
  | FTrim n => filter (λ ke, (size (newer_frames live ke.1.1) < n)%nat) live
  | FClear => ∅
  end.

(** Whether a frame was begun as an IDR: what its first fragment said. *)
Definition kind_step (live : gmap (Z * Z) CacheEntry) (kinds : gmap Z bool) (op : frame_op) : gmap Z bool :=
  match op with
  | FInsert f _ idr _ => if frame_alive live f then kinds else <[f := idr]> kinds
  | _ => kinds
  end.

Fixpoint flat_run (live : gmap (Z * Z) CacheEntry) (kinds : gmap Z bool) (ops : list frame_op) :
    gmap (Z * Z) CacheEntry * gmap Z bool :=
  match ops with
  | [] => (live, kinds)
  | op :: ops => flat_run (flat_step live op) (kind_step live kinds op) ops
  end.

(** Callers never write the datagram of a cached entry. *)
Definition frame_op_ok (op : frame_op) : Prop :=
  match op with FUpdate _ _ g => ∀ e, ce_datagram (g e) = ce_datagram e | _ => True end.

(** ** The flat map of nested frames *)


(** ** The flat map of nested frames *)

Lemma fragments_insert frames f fe : frames !! f = None →
  fragments (<[f := fe]> frames) = kmap (pair f) fe.(fe_frags) ∪ fragments frames.
Proof.
  intros Hf. unfold fragments. rewrite (map_fold_insert_L (λ f fe m, kmap (pair f) fe.(fe_frags) ∪ m)); [done| |done].
  intros g1 g2 fe1 fe2 m Hne _ _. rewrite !(assoc_L (∪)). f_equal. apply map_union_comm. apply map_disjoint_spec.
  intros [f' i] x y (j & E1 & _)%lookup_kmap_Some (j' & E2 & _)%lookup_kmap_Some; [|apply _..].
  congruence.
Qed.

Lemma lookup_fragments frames f i :
  fragments frames !! (f, i) = f' ← frames !! f; f'.(fe_frags) !! i.
Proof.
  induction frames as [|g fe m Hg IH] using map_ind.
  { unfold fragments. by rewrite map_fold_empty, !lookup_empty. }
  rewrite fragments_insert by done. destruct (decide (f = g)) as [->|Hne].
  - rewrite lookup_insert_eq. cbn [mbind option_bind]. rewrite Hg in IH. cbn in IH.
    rewrite lookup_union_l by done. by rewrite (lookup_kmap (pair g)).
  - rewrite lookup_insert_ne by done. rewrite lookup_union_r; [done|].
    apply lookup_kmap_None; [apply _|]. by intros j [= -> _].
Qed.

Lemma fragments_totals frames :
  frames_entries frames = size (fragments frames) ∧ frames_bytes frames = map_total entry_bytes (fragments frames).
Proof.
  unfold frames_entries, frames_bytes. induction frames as [|g fe m Hg [IH1 IH2]] using map_ind.
  { unfold fragments. rewrite map_fold_empty, map_size_empty. done. }
  assert (kmap (pair g) fe.(fe_frags) ##ₘ fragments m) as Hd.
  { apply map_disjoint_spec. intros [f i] x y (j & [= -> ->] & _)%lookup_kmap_Some; [|apply _].
    rewrite lookup_fragments, Hg. done. }
  rewrite fragments_insert, !map_total_insert by done.
  rewrite (map_total_union entry_bytes _ _ Hd), (map_size_disj_union _ _ Hd).
  rewrite (map_total_kmap entry_bytes (pair g)), (map_size_kmap_inj (pair g)). lia.
Qed.

Lemma fragments_filter frames (P : Z → Prop) `{!∀ f, Decision (P f)} :
  fragments (filter (λ kf, P kf.1) frames) = filter (λ ke : Z * Z * CacheEntry, P ke.1.1) (fragments frames).
Proof.
  apply map_eq. intros [f i]. apply option_eq. intros x.
  rewrite lookup_fragments, map_lookup_filter_Some, lookup_fragments, !bind_Some.
  setoid_rewrite map_lookup_filter_Some. cbn. naive_solver.
Qed.

(** ** The refinement *)

Record flat_ok (c : H264Cache) (live : gmap (Z * Z) CacheEntry) : Prop := {
  fo_live : fragments c.(hc_frames) = live;
  fo_nonempty : ∀ f fe, c.(hc_frames) !! f = Some fe → fe.(fe_frags) ≠ ∅;
  fo_entries : c.(hc_entries) = size live;
  fo_bytes : c.(hc_bytes) = map_total entry_bytes live;
}.

Lemma flat_get c live f i : flat_ok c live → h264_get c f i = live !! (f, i).
Proof. intros [<- _ _ _]. by rewrite lookup_fragments. Qed.

Lemma insert_flat c live f i idr e : flat_ok c live →
  ∃ c', h264_insert c f i idr e = Ok c' ∧ flat_ok c' (<[(f, i) := e]> live).
Proof.
  intros H. pose proof (flat_get c live f i H) as Hg. destruct H as [<- H2 H3 H4]. unfold h264_get in Hg. unfold h264_insert.
  set (frame := default _ (hc_frames c !! f)). set (frames := <[f := _]> (hc_frames c)).
  assert (fe_frags frame !! i = fragments (hc_frames c) !! (f, i)) as Ho.
  { rewrite <-Hg. unfold frame. by destruct (hc_frames c !! f). }
  assert (fragments frames = <[(f, i) := e]> (fragments (hc_frames c))) as Hf.
  { apply map_eq. intros [f' i']. rewrite lookup_fragments. unfold frames. destruct (decide (f' = f)) as [->|Hne].
    - rewrite lookup_insert_eq. cbn. destruct (decide (i' = i)) as [->|Hni]; [by rewrite !lookup_insert_eq|].
      rewrite !lookup_insert_ne by congruence. rewrite lookup_fragments. unfold frame. by destruct (hc_frames c !! f).
    - rewrite !lookup_insert_ne by congruence. by rewrite lookup_fragments. }
  assert (∀ f' fe, frames !! f' = Some fe → fe_frags fe ≠ ∅) as Hne.
  { unfold frames. intros f' fe [[<- <-]|[_ H]]%lookup_insert_Some; [|by eapply H2]. apply insert_non_empty. }
  rewrite Ho. destruct (fragments (hc_frames c) !! (f, i)) as [old|] eqn:Eo.
  - pose proof (map_total_replace entry_bytes _ _ _ e Eo) as Ht. unfold sub_usize.
    rewrite (proj2 (Nat.leb_le _ _)) by lia. eexists. split; [done|]. split; cbn; [done|done| |lia].
    by rewrite map_size_insert_Some by eauto.
  - eexists. split; [done|]. split; cbn; [done|done| |].
    + by rewrite map_size_insert_None, H3.
    + rewrite map_total_insert by done. lia.
Qed.

Lemma remove_flat c live f i : flat_ok c live →
  ∃ c', h264_remove c f i = Ok (c', live !! (f, i)) ∧ flat_ok c' (delete (f, i) live).
Proof.
  intros H. pose proof (flat_get c live f i H) as Hg. pose proof H as H'. destruct H as [<- H2 H3 H4].
  unfold h264_get in Hg. unfold h264_remove. rewrite <-Hg.
  destruct (hc_frames c !! f) as [frame|] eqn:Ef; cbn [mbind option_bind] in *.
  2:{ eexists. split; [done|]. by rewrite delete_id. }
  destruct (fe_frags frame !! i) as [e|] eqn:Ei.
  2:{ eexists. split; [done|]. by rewrite delete_id. }
  symmetry in Hg. pose proof (map_total_delete entry_bytes _ _ _ Hg) as Ht.
  assert (size (delete (f, i) (fragments (hc_frames c))) = pred (size (fragments (hc_frames c)))) as Hs
    by (apply map_size_delete_Some; eauto).
  assert (size (fragments (hc_frames c)) ≠ 0%nat) as Hz.
  { intros E. apply map_size_empty_inv in E. rewrite E in Hg. by rewrite lookup_empty in Hg. }
  unfold sub_usize. rewrite !(proj2 (Nat.leb_le _ _)) by lia. cbn. eexists. split; [done|].
  split; cbn; [| |lia|lia].
  - apply map_eq. intros [f' i']. rewrite lookup_fragments. destruct (decide (f' = f)) as [->|Hne].
    + destruct (decide (i' = i)) as [->|Hni].
      * rewrite lookup_delete_eq. case_decide as Hd; [by rewrite lookup_delete_eq|].
        rewrite lookup_insert_eq. cbn. by rewrite lookup_delete_eq.
      * rewrite lookup_delete_ne by congruence. rewrite lookup_fragments, Ef. cbn. case_decide as Hd.
        -- rewrite lookup_delete_eq. cbn. rewrite <-(lookup_delete_ne (fe_frags frame) i i') by done. by rewrite Hd.
        -- rewrite lookup_insert_eq. cbn. by rewrite lookup_delete_ne.
    + rewrite lookup_delete_ne by congruence. rewrite lookup_fragments. f_equal. case_decide.
      * by rewrite lookup_delete_ne.
      * by rewrite lookup_insert_ne.
  - intros f' fe. case_decide as Hd.
    + intros [_ H]%lookup_delete_Some. by eapply H2.
    + intros [[<- <-]|[_ H]]%lookup_insert_Some; [done|by eapply H2].
Qed.

Lemma update_flat c live f i g : (∀ e, ce_datagram (g e) = ce_datagram e) → flat_ok c live →
  flat_ok (h264_update c f i g) (alter g (f, i) live).
Proof.
  intros Hg [<- H2 H3 H4]. split; cbn.
  - apply map_eq. intros [f' i']. rewrite lookup_fragments. destruct (decide (f' = f)) as [->|Hne].
    + rewrite lookup_alter_eq. destruct (decide (i' = i)) as [->|Hni].
      * rewrite lookup_alter_eq, lookup_fragments. destruct (hc_frames c !! f); cbn; [|done]. by rewrite lookup_alter_eq.
      * rewrite lookup_alter_ne by congruence. rewrite lookup_fragments. destruct (hc_frames c !! f); cbn; [|done].
        by rewrite lookup_alter_ne.
    + rewrite !lookup_alter_ne by congruence. by rewrite lookup_fragments.
  - intros f' fe. destruct (decide (f' = f)) as [->|Hne].
    + rewrite lookup_alter_eq. destruct (hc_frames c !! f) as [fe'|] eqn:E; [|done]. cbn. intros [= <-]. cbn.
      intros He. apply (H2 f fe' E). apply map_eq. intros j. rewrite lookup_empty.
      assert (alter g i (fe_frags fe') !! j = None) as Hn by (by rewrite He, lookup_empty).
      by apply lookup_alter_None in Hn.
    + rewrite lookup_alter_ne by done. apply H2.
  - by rewrite <-(size_dom (D:=gset (Z * Z))), dom_alter_L, size_dom.
  - rewrite H4. symmetry. apply map_total_alter. intros e. unfold entry_bytes. by rewrite Hg.
Qed.

Lemma forget_flat c live keep gone : flat_ok c live →
  fragments keep ##ₘ fragments gone → fragments keep ∪ fragments gone = live →
  (∀ f fe, keep !! f = Some fe → c.(hc_frames) !! f = Some fe) →
  ∃ c', forget_frames c keep gone = Ok (c', size (fragments gone)) ∧ flat_ok c' (fragments keep).
Proof.
  intros [H1 H2 H3 H4] Hd Hu Hk. unfold forget_frames. destruct (fragments_totals gone) as [-> ->].
  rewrite <-Hu in H3, H4. rewrite (map_size_disj_union _ _ Hd) in H3. rewrite (map_total_union _ _ _ Hd) in H4.
  unfold sub_usize. rewrite !(proj2 (Nat.leb_le _ _)) by lia. cbn. eexists. split; [done|].
  split; cbn; [done| |lia|lia]. intros f fe Hf. by eapply H2, Hk.
Qed.

Lemma drop_flat c live (P : Z → Prop) `{!∀ f, Decision (P f)} : flat_ok c live →
  ∃ c' n, forget_frames c (filter (λ kf, P kf.1) c.(hc_frames)) (filter (λ kf, ¬ P kf.1) c.(hc_frames)) = Ok (c', n)
    ∧ flat_ok c' (filter (λ ke : Z * Z * CacheEntry, P ke.1.1) live)
    ∧ (n + size (filter (λ ke : Z * Z * CacheEntry, P ke.1.1) live) = size live)%nat.
Proof.
  intros Hok. pose proof Hok as [H1 _ _ _].
  assert (fragments (filter (λ kf, P kf.1) c.(hc_frames)) = filter (λ ke : Z * Z * CacheEntry, P ke.1.1) live) as E1
    by (rewrite <-H1; apply (fragments_filter _ P)).
  assert (fragments (filter (λ kf, ¬ P kf.1) c.(hc_frames)) = filter (λ ke : Z * Z * CacheEntry, ¬ P ke.1.1) live) as E2
    by (rewrite <-H1; apply (@fragments_filter _ (λ f, ¬ P f) (λ f, @not_dec _ (H f)))).
  destruct (forget_flat c live (filter (λ kf, P kf.1) c.(hc_frames)) (filter (λ kf, ¬ P kf.1) c.(hc_frames)) Hok) as (c' & E & H').
  - rewrite E1, E2. apply map_disjoint_filter_complement.
  - rewrite E1, E2. apply map_filter_union_complement.
  - intros f fe [? _]%map_lookup_filter_Some. done.
  - exists c', (size (fragments (filter (λ kf, ¬ P kf.1) (hc_frames c)))). split; [done|].
    rewrite E1 in H'. split; [done|]. rewrite E2.
    rewrite (map_size_filter_split (λ ke : Z * Z * CacheEntry, P ke.1.1) live). lia.
Qed.

(** *** Trimming to the newest frames *)

Lemma sorted_rank (k : list Z) (n : nat) (cut f : Z) : StronglySorted Z.gt k → k !! n = Some cut → f ∈ k →
  cut ≤ f ↔ (length (filter (λ g, (f < g)%Z) k) ≤ n)%nat.
Proof.
  intros Hs. revert n. induction Hs as [|x k Hs IH Hx]; intros n Hn Hf; [by apply elem_of_nil in Hf|].
  rewrite Forall_forall in Hx. rewrite filter_cons.
  assert (∀ y, y ∈ k → x > y) as Hgt by (intros y Hy; by apply Hx).
  assert (filter (λ g, x < g) k = []) as Hnil.
  { destruct (filter (λ g, x < g) k) as [|y k'] eqn:E; [done|].
    assert (y ∈ filter (λ g, x < g) k) as [Hy1 Hy2]%list_elem_of_filter by (rewrite E; left). apply Hgt in Hy2. lia. }
  apply elem_of_cons in Hf as [->|Hf].
  - rewrite decide_False by lia. rewrite Hnil. cbn. split; [lia|]. intros _.
    destruct n as [|n]; [by injection Hn as <-|]. cbn in Hn. apply list_elem_of_lookup_2, Hgt in Hn. lia.
  - pose proof (Hgt f Hf). rewrite decide_True by lia. destruct n as [|n]; cbn in *.
    + injection Hn as <-. lia.
    + rewrite (IH n Hn Hf). lia.
Qed.

Lemma sorted_keep (k : list Z) (m : nat) (cut : Z) : StronglySorted Z.gt k → k !! m = Some cut →
  length (filter (λ g, cut ≤ g) k) = S m.
Proof.
  intros Hs. revert m. induction Hs as [|x k Hs IH Hx]; intros m Hm; [done|]. rewrite Forall_forall in Hx.
  rewrite filter_cons. destruct m as [|m]; cbn in Hm.
  - injection Hm as ->. rewrite decide_True by lia. cbn. f_equal.
    destruct (filter (λ g, cut ≤ g) k) as [|y k'] eqn:E; [done|].
    assert (y ∈ filter (λ g, cut ≤ g) k) as [Hy1 Hy2]%list_elem_of_filter by (rewrite E; left). apply Hx in Hy2. lia.
  - rewrite decide_True by (apply list_elem_of_lookup_2, Hx in Hm; lia). cbn. by rewrite (IH m).
Qed.

Lemma sorted_gt_NoDup (k : list Z) : StronglySorted Z.gt k → NoDup k.
Proof.
  induction 1 as [|x k Hs IH Hx]; constructor; [|done]. rewrite Forall_forall in Hx. intros Hk. apply Hx in Hk. lia.
Qed.

Lemma newest_first_spec frames : StronglySorted Z.gt (newest_first frames)
  ∧ (∀ f, f ∈ newest_first frames ↔ is_Some (frames !! f)) ∧ length (newest_first frames) = size frames.
Proof.
  unfold newest_first. set (k := elements (dom frames)).
  assert (merge_sort Z.ge k ≡ₚ k) as Hp by apply merge_sort_Permutation.
  assert (NoDup (merge_sort Z.ge k)) as Hnd by (rewrite Hp; apply NoDup_elements).
  assert (StronglySorted Z.ge (merge_sort Z.ge k)) as Hs.
  { apply StronglySorted_merge_sort; [intros ???; lia|intros ??; lia]. }
  split_and!.
  - revert Hnd Hs. generalize (merge_sort Z.ge k). clear. induction l as [|x l IH]; intros Hnd Hs; [constructor|].
    apply NoDup_cons in Hnd as [Hx Hnd]. inversion Hs as [|? ? Hs' Ha]; subst. constructor; [by apply IH|].
    rewrite Forall_forall in *. intros y Hy. pose proof (Ha y Hy). assert (x ≠ y) by (by intros ->). lia.
  - intros f. rewrite Hp. unfold k. by rewrite elem_of_elements, elem_of_dom.
  - rewrite Hp. unfold k. change (length (elements (dom frames))) with (size (dom frames)). apply size_dom.
Qed.

Lemma newer_frames_count c live f : flat_ok c live →
  size (newer_frames live f) = length (filter (λ g, f < g) (newest_first c.(hc_frames))).
Proof.
  intros [H1 H2 _ _]. destruct (newest_first_spec c.(hc_frames)) as (Hs & Hin & _).
  set (k := newest_first (hc_frames c)) in *.
  assert (newer_frames live f = list_to_set (filter (λ g, f < g) k)) as ->.
  { apply set_eq. intros g. unfold newer_frames. rewrite elem_of_filter, !elem_of_list_to_set, list_elem_of_filter.
    apply and_iff_compat_l. rewrite Hin, list_elem_of_fmap. split.
    - intros ([[g' i] e] & -> & Hg%elem_of_map_to_list). cbn. rewrite <-H1, lookup_fragments in Hg.
      destruct (hc_frames c !! g'); [by eexists|done].
    - intros [fe Hfe]. destruct (map_choose (fe_frags fe)) as (i & e & Hi); [by eapply H2|].
      exists ((g, i), e). split; [done|]. apply elem_of_map_to_list. rewrite <-H1, lookup_fragments, Hfe. done. }
  by apply size_list_to_set, NoDup_filter, sorted_gt_NoDup.
Qed.

Lemma alive_frame c live f i e : flat_ok c live → live !! (f, i) = Some e → is_Some (c.(hc_frames) !! f).
Proof. intros [<- _ _ _]. rewrite lookup_fragments. destruct (hc_frames c !! f); [by eexists|done]. Qed.

Lemma forget_frames_inv c keep gone c' n : forget_frames c keep gone = Ok (c', n) → c'.(hc_frames) = keep.
Proof. unfold forget_frames, sub_usize. destruct (_ <=? _)%nat, (_ <=? _)%nat; try done. by intros [= <- <-]. Qed.

Lemma trim_flat c live n : flat_ok c live →
  ∃ c' d, trim_to c n = Ok (c', d) ∧ flat_ok c' (flat_step live (FTrim n))
    ∧ (d + size (flat_step live (FTrim n)) = size live)%nat ∧ (size c'.(hc_frames) ≤ n)%nat.
Proof.
  intros H. destruct (newest_first_spec c.(hc_frames)) as (Hs & Hin & Hlen). cbn [flat_step]. unfold trim_to.
  assert (∀ f i e, live !! (f, i) = Some e → (size (newer_frames live f) < size c.(hc_frames))%nat) as Hlt.
  { intros f i e Hf. rewrite (newer_frames_count c live f H), <-Hlen. apply length_filter_lt with f; [|lia].
    apply Hin. by eapply alive_frame. }
  destruct (Nat.leb_spec (size c.(hc_frames)) n) as [Hle|Hgt].
  { exists c, 0%nat. split; [done|]. rewrite (map_filter_id _ live) by (intros [f i] e Hf; apply Hlt in Hf; cbn; lia). done. }
  destruct (Nat.eqb_spec n 0) as [->|Hn].
  { exists (h264_clear c), c.(hc_entries). split; [done|].
    assert (filter (λ ke : Z * Z * CacheEntry, (size (newer_frames live ke.1.1) < 0)%nat) live = ∅) as ->
      by (apply map_empty; intros k; apply map_lookup_filter_None; right; intros ? _ Hx; cbn in Hx; lia).
    split_and!; cbn; [by split|rewrite map_size_empty, (fo_entries _ _ H); lia|done]. }
  destruct (lookup_lt_is_Some_2 (newest_first c.(hc_frames)) (n - 1)) as [cut Hcut]; [lia|].
  rewrite (idx_Some _ _ cut Hcut), bind_Ok.
  destruct (drop_flat c live (λ f, cut ≤ f) H) as (c' & d & E & H' & Hsz). exists c', d.
  assert (filter (λ ke : Z * Z * CacheEntry, (size (newer_frames live ke.1.1) < n)%nat) live
          = filter (λ ke : Z * Z * CacheEntry, cut ≤ ke.1.1) live) as ->.
  { apply map_filter_ext. intros [f i] e Hf. cbn.
    rewrite (newer_frames_count c live f H), (sorted_rank _ (n - 1) cut f Hs Hcut); [lia|].
    apply Hin. by eapply alive_frame. }
  split_and!; [exact E|exact H'|exact Hsz|].
  rewrite (forget_frames_inv _ _ _ _ _ E).
  replace n with (S (n - 1)) by lia. rewrite <-(sorted_keep _ (n - 1) cut Hs Hcut), <-(size_dom (D:=gset Z)).
  rewrite <-(size_list_to_set (C:=gset Z)) by (by apply NoDup_filter, sorted_gt_NoDup).
  apply subseteq_size. intros f [fe [Hf Hc]%map_lookup_filter_Some]%elem_of_dom.
  apply elem_of_list_to_set, list_elem_of_filter. split; [done|]. apply Hin. by eexists.
Qed.

(** Frames keep their kind; a new frame has the kind its first fragment said. *)
Lemma step_kinds c op c' f fe' : frame_step c op = Ok c' → c'.(hc_frames) !! f = Some fe' →
  (∃ fe, c.(hc_frames) !! f = Some fe ∧ fe'.(fe_is_idr) = fe.(fe_is_idr))
  ∨ ∃ i b e, op = FInsert f i b e ∧ c.(hc_frames) !! f = None ∧ fe'.(fe_is_idr) = b.
Proof.
  destruct op as [f0 i b e|f0 i g|f0 i|f0|f0|f0|n|]; cbn [frame_step]; intros H Hf.
  - unfold h264_insert in H. set (frame := default _ _) in H.
    assert (c'.(hc_frames) = <[f0 := mkFrame (fe_is_idr frame) (<[i := e]> (fe_frags frame))]> (hc_frames c)) as E.
    { destruct (fe_frags frame !! i); [|by injection H as <-]. by destruct (sub_usize _ _); [injection H as <-|done..]. }
    rewrite E in Hf. apply lookup_insert_Some in Hf as [[<- <-]|[_ Hf]]; [|left; by exists fe'].
    unfold frame. cbn. destruct (hc_frames c !! f0) as [fe|]; [left; by exists fe|]. right. by exists i, b, e.
  - left. injection H as <-. cbn in Hf. destruct (decide (f = f0)) as [->|Hne].
    + rewrite lookup_alter_eq in Hf. destruct (hc_frames c !! f0) as [fe|]; [|done]. injection Hf as <-. by exists fe.
    + rewrite lookup_alter_ne in Hf by done. by exists fe'.
  - left. unfold h264_remove in H. destruct (hc_frames c !! f0) as [frame|] eqn:E0; [|injection H as <-; by exists fe'].
    destruct (fe_frags frame !! i); [|injection H as <-; by exists fe'].
    unfold sub_usize in H. destruct (_ <=? _)%nat, (_ <=? _)%nat; try done. injection H as <-. cbn in Hf.
    case_decide.
    + apply lookup_delete_Some in Hf as [_ Hf]. by exists fe'.
    + apply lookup_insert_Some in Hf as [[<- <-]|[_ Hf]]; [by exists frame|by exists fe'].
  - left. destruct (drop_before c f0) as [[c1 n1]| |] eqn:E; [|done..]. injection H as <-. apply forget_frames_inv in E.
    rewrite E in Hf. apply map_lookup_filter_Some in Hf as [Hf _]. by exists fe'.
  - left. unfold drop_frame in H. destruct (hc_frames c !! f0) as [frame|] eqn:E0; [|injection H as <-; by exists fe'].
    destruct (forget_frames _ _ _) as [[c1 n1]| |] eqn:E; [|done..]. injection H as <-. apply forget_frames_inv in E.
    rewrite E in Hf. apply lookup_delete_Some in Hf as [_ Hf]. by exists fe'.
  - left. destruct (drop_from c f0) as [[c1 n1]| |] eqn:E; [|done..]. injection H as <-. apply forget_frames_inv in E.
    rewrite E in Hf. apply map_lookup_filter_Some in Hf as [Hf _]. by exists fe'.
  - left. unfold trim_to in H. destruct (_ <=? _)%nat; [injection H as <-; by exists fe'|].
    destruct (_ =? _)%nat; [by injection H as <-|]. destruct (idx _ _) as [cut| |]; [|done..]. cbn in H.
    destruct (drop_before c cut) as [[c1 n1]| |] eqn:E; [|done..]. injection H as <-. apply forget_frames_inv in E.
    rewrite E in Hf. apply map_lookup_filter_Some in Hf as [Hf _]. by exists fe'.
  - injection H as <-. done.
Qed.

Lemma frame_step_flat c live op : frame_op_ok op → flat_ok c live →
  ∃ c', frame_step c op = Ok c' ∧ flat_ok c' (flat_step live op).
Proof.
  intros Hop H. destruct op as [f0 i b e|f0 i g|f0 i|f0|f0|f0|n|]; cbn [frame_step].
  - by apply insert_flat.
  - eexists. split; [done|]. by apply update_flat.
  - destruct (remove_flat c live f0 i H) as (c' & -> & H'). by exists c'.
  - destruct (drop_flat c live (λ f, f0 ≤ f) H) as (c' & n & E & H' & _). unfold drop_before. rewrite E. by exists c'.
  - unfold drop_frame. destruct (hc_frames c !! f0) as [fe|] eqn:Ef; cbn [flat_step].
    + destruct (forget_flat c live (delete f0 (hc_frames c)) {[f0 := fe]} H) as (c' & -> & H').
      * apply map_disjoint_spec. intros [f i] x y. rewrite !lookup_fragments. destruct (decide (f = f0)) as [->|Hne].
        -- by rewrite lookup_delete_eq.
        -- by rewrite lookup_singleton_ne.
      * rewrite <-(fo_live _ _ H). apply map_eq. intros [f i]. destruct (decide (f = f0)) as [->|Hne].
        -- rewrite lookup_union_r by (by rewrite lookup_fragments, lookup_delete_eq).
           by rewrite !lookup_fragments, lookup_singleton_eq, Ef.
        -- rewrite lookup_union_l by (by rewrite lookup_fragments, lookup_singleton_ne).
           by rewrite !lookup_fragments, lookup_delete_ne.
      * intros f fe' [_ Hf]%lookup_delete_Some. done.
      * exists c'. split; [done|]. replace (filter _ live) with (fragments (delete f0 (hc_frames c))); [done|].
        rewrite <-(fo_live _ _ H). apply map_eq. intros [f i]. apply option_eq. intros x.
        rewrite map_lookup_filter_Some, !lookup_fragments. cbn. destruct (decide (f = f0)) as [->|Hne].
        -- rewrite lookup_delete_eq. naive_solver.
        -- rewrite lookup_delete_ne by done. naive_solver.
    + exists c. split; [done|]. rewrite map_filter_id; [done|]. intros [f i] e Hf. cbn. intros ->.
      destruct (alive_frame _ _ _ _ _ H Hf) as [? E]. by rewrite Ef in E.
  - destruct (drop_flat c live (λ f, ¬ f0 ≤ f) H) as (c' & n & E & H' & _). unfold drop_from.
    assert (filter (λ kf, ¬ ¬ f0 ≤ kf.1) (hc_frames c) = filter (λ kf, f0 ≤ kf.1) (hc_frames c)) as Eg.
    { apply map_filter_ext. intros f fe _. cbn. lia. }
    rewrite Eg in E. rewrite E. exists c'. split; [done|]. cbn.
    replace (filter (λ ke, ke.1.1 < f0) live) with (filter (λ ke : Z * Z * CacheEntry, ¬ f0 ≤ ke.1.1) live); [done|].
    apply map_filter_ext. intros [f i] e _. cbn. lia.
  - destruct (trim_flat c live n H) as (c' & d & -> & H' & _). by exists c'.
  - eexists. split; [done|]. by split.
Qed.

Lemma frame_alive_spec c live f : flat_ok c live → frame_alive live f ↔ is_Some (c.(hc_frames) !! f).
Proof.
  intros H. unfold frame_alive. rewrite bool_decide_spec, Exists_exists. split.
  - intros ([[f' i] e] & Hin%elem_of_map_to_list & Hf). cbn in Hf. subst f'. by eapply alive_frame.
  - intros [fe Hfe]. destruct (map_choose (fe_frags fe)) as (i & e & Hi); [by eapply (fo_nonempty _ _ H)|].
    exists ((f, i), e). split; [|done]. apply elem_of_map_to_list. by rewrite <-(fo_live _ _ H), lookup_fragments, Hfe.
Qed.

Definition kinds_ok (c : H264Cache) (kinds : gmap Z bool) : Prop :=
  ∀ f fe, c.(hc_frames) !! f = Some fe → kinds !! f = Some fe.(fe_is_idr).

Lemma kinds_step c c' live kinds op : flat_ok c live → kinds_ok c kinds → frame_step c op = Ok c' →
  kinds_ok c' (kind_step live kinds op).
Proof.
  intros H Hk E f fe' Hf. destruct (step_kinds c op c' f fe' E Hf) as [(fe & Hfe & ->)|(i & b & e & -> & Hn & ->)].
  - pose proof (Hk f fe Hfe) as Hk'. destruct op as [f0 i b e| | | | | | |]; try done. cbn.
    destruct (frame_alive live f0) eqn:Ea; [done|]. rewrite lookup_insert_ne; [done|]. intros ->.
    assert (frame_alive live f) as Ha by (apply (frame_alive_spec c live f H); by eexists). by rewrite Ea in Ha.
  - cbn. destruct (frame_alive live f) eqn:Ea; [|by rewrite lookup_insert_eq].
    apply Is_true_true, (frame_alive_spec c live f H) in Ea as [fe E']. by rewrite E' in Hn.
Qed.

Lemma frame_run_flat ops : ∀ c live kinds, Forall frame_op_ok ops → flat_ok c live → kinds_ok c kinds →
  ∃ c', frame_run c ops = Ok c' ∧ flat_ok c' (flat_run live kinds ops).1 ∧ kinds_ok c' (flat_run live kinds ops).2.
Proof.
  induction ops as [|op ops IH]; intros c live kinds Hops H Hk; [by exists c|].
  apply Forall_cons_1 in Hops as [Hop Hops]. cbn [frame_run flat_run].
  destruct (frame_step_flat c live op Hop H) as (c1 & E & H1). rewrite E, bind_Ok.
  apply IH; [done|done|]. by eapply kinds_step.
Qed.

Lemma h264_new_flat : flat_ok h264_new ∅.
Proof. by split. Qed.

(** C31: The probe cache of H.264 fragments never panics and is a map from fragments to
    entries: after any operations it holds a fragment exactly when the flat map does, its
    two counters are the number of fragments held and their bytes, and a frame is known,
    as an IDR or not as its first fragment said, exactly as long as one of its
    fragments is held. *)
Theorem frame_cache_refines_map ops : Forall frame_op_ok ops →
  ∃ c, frame_run h264_new ops = Ok c ∧
    let '(live, kinds) := flat_run ∅ ∅ ops in
    (∀ f i, h264_get c f i = live !! (f, i))
    ∧ h264_len c = size live ∧ h264_bytes_outstanding c = map_total entry_bytes live
    ∧ ∀ f, h264_is_idr c f = if frame_alive live f then kinds !! f else None.
Proof.
  intros Hops. destruct (frame_run_flat ops h264_new ∅ ∅ Hops h264_new_flat) as (c & E & H & Hk); [done|].
  exists c. split; [done|]. destruct (flat_run ∅ ∅ ops) as [live kinds]. cbn in H, Hk. split_and!.
  - intros f i. by apply flat_get.
  - apply (fo_entries _ _ H).
  - apply (fo_bytes _ _ H).
  - intros f. pose proof (frame_alive_spec c live f H) as Ha. unfold h264_is_idr.
    destruct (hc_frames c !! f) as [fe|] eqn:Ef.
    + assert (frame_alive live f = true) as -> by (apply Is_true_true, Ha; by eexists). symmetry. by apply Hk.
    + destruct (frame_alive live f); [|done]. by destruct (proj1 Ha I).
Qed.

Definition sample_frag (n : nat) : CacheEntry := mkCacheEntry (replicate n 7) 0 0 0 0 0 0 None.
Definition sample_frame_ops : list frame_op :=
  [FInsert 1 0 true (sample_frag 30); FInsert 1 1 true (sample_frag 20); FInsert 2 0 false (sample_frag 10);
   FInsert 3 0 false (sample_frag 5); FRemove 1 1; FTrim 2].

Lemma frame_cache_refines_map_witness :
  ∃ c, frame_run h264_new sample_frame_ops = Ok c ∧ h264_len c = 2%nat ∧ h264_bytes_outstanding c = 15%nat
    ∧ h264_is_idr c 1 = None ∧ h264_is_idr c 2 = Some false.
Proof.
  destruct (frame_cache_refines_map sample_frame_ops) as (c & E & H).
  - repeat constructor.
  - exists c. split; [exact E|]. vm_compute in E. injection E as <-. by vm_compute.
Defined.

(** ** The padding ring *)

Record pads_ok (r : PadRing) : Prop := {
  po_bytes : r.(pr_bytes) = map_total pe_len r.(pr_entries);
  po_order : ∀ ws, is_Some (r.(pr_entries) !! ws) → ws ∈ r.(pr_order);
}.

Inductive pad_op : Type := PInsert (ws : Z) (e : PadEntry) | PRemove (ws : Z) | PExpire (now : Z) | PClear.

Definition pad_step (r : PadRing) (op : pad_op) : outcome () PadRing :=
  match op with
  | PInsert ws e => pads_insert r ws e
  | PRemove ws => '(r, _) ← pads_remove r ws; Ok r
  | PExpire now => '(r, _) ← pads_expire r now; Ok r
  | PClear => Ok (pads_clear r)
  end.

Fixpoint pad_run (r : PadRing) (ops : list pad_op) : outcome () PadRing :=
  match ops with
  | [] => Ok r
  | op :: ops => r ← pad_step r op; pad_run r ops
  end.

Lemma pads_remove_ok r ws : r.(pr_bytes) = map_total pe_len r.(pr_entries) →
  ∃ r' b, pads_remove r ws = Ok (r', b) ∧ r'.(pr_entries) = delete ws r.(pr_entries)
    ∧ r'.(pr_order) = r.(pr_order) ∧ r'.(pr_bytes) = map_total pe_len r'.(pr_entries).
Proof.
  intros Hb. unfold pads_remove. destruct (pr_entries r !! ws) as [e|] eqn:Ee.
  - pose proof (map_total_delete pe_len _ _ _ Ee) as Ht. unfold sub_usize. rewrite (proj2 (Nat.leb_le _ _)) by lia.
    eexists _, _. split; [done|]. cbn. split_and!; [done|done|lia].
  - exists r, false. by rewrite delete_id.
Qed.

Lemma make_room_ok order : ∀ r, r.(pr_bytes) = map_total pe_len r.(pr_entries) →
  (∀ ws, is_Some (r.(pr_entries) !! ws) → ws ∈ order) →
  ∃ r', make_room order r = Ok r' ∧ pads_ok r' ∧ (size r'.(pr_entries) < PAD_RING_CAP)%nat.
Proof.
  induction order as [|old order IH]; intros r Hb Ho; cbn [make_room pr_entries pr_bytes].
  - assert (pr_entries r = ∅) as E.
    { apply map_empty. intros ws. destruct (pr_entries r !! ws) eqn:E; [|done].
      destruct (not_elem_of_nil ws). apply Ho. by eexists. }
    rewrite E, map_size_empty. cbn. eexists. split; [done|]. cbn.
    split; [|by rewrite map_size_empty; unfold PAD_RING_CAP; lia].
    split; cbn; [by rewrite Hb, E|]. intros ws [? H]. by rewrite lookup_empty in H.
  - destruct (Nat.ltb_spec (size (pr_entries r)) PAD_RING_CAP) as [Hlt|Hge].
    { eexists. split; [done|]. by split. }
    destruct (pads_remove_ok (mkPads (pr_entries r) order (pr_bytes r)) old Hb) as (r' & b & -> & E1 & E2 & E3).
    rewrite bind_Ok. apply IH; [done|]. rewrite E1. intros ws [e [Hne He]%lookup_delete_Some].
    assert (ws ∈ old :: order) as [->|?]%elem_of_cons by (apply Ho; by eexists); done.
Qed.

Lemma pads_insert_ok r ws e : pads_ok r →
  ∃ r', pads_insert r ws e = Ok r' ∧ pads_ok r' ∧ (size r'.(pr_entries) ≤ PAD_RING_CAP)%nat.
Proof.
  intros [Hb Ho]. unfold pads_insert. destruct (make_room_ok _ r Hb Ho) as (r1 & -> & [Hb1 Ho1] & Hlt). rewrite bind_Ok.
  destruct (pr_entries r1 !! ws) as [old|] eqn:Eo.
  - pose proof (map_total_replace pe_len _ _ _ e Eo) as Ht. unfold sub_usize. rewrite (proj2 (Nat.leb_le _ _)) by lia.
    eexists. split; [done|]. cbn. rewrite map_size_insert_Some by eauto. split; [|lia]. split; cbn; [lia|].
    intros w [x [[<- _]|[_ Hx]]%lookup_insert_Some]; apply Ho1; by eexists.
  - eexists. split; [done|]. cbn. rewrite map_size_insert_None by done. split; [|lia]. split; cbn.
    + rewrite map_total_insert by done. lia.
    + intros w [x [[<- _]|[_ Hx]]%lookup_insert_Some]; apply elem_of_app; [right; by left|left; apply Ho1; by eexists].
Qed.

Lemma expire_loop_ok now order : ∀ r n, r.(pr_bytes) = map_total pe_len r.(pr_entries) →
  (∀ ws, is_Some (r.(pr_entries) !! ws) → ws ∈ order) →
  ∃ r' n', expire_loop now order r n = Ok (r', n') ∧ pads_ok r' ∧ r'.(pr_entries) ⊆ r.(pr_entries)
    ∧ match r'.(pr_order) with
      | [] => True
      | ws :: _ => ∃ e, r'.(pr_entries) !! ws = Some e ∧ sat_sub now e.(pe_queued_at) ≤ PAD_ENTRY_TTL
      end.
Proof.
  induction order as [|ws order IH]; intros r n Hb Ho; cbn [expire_loop pr_entries pr_bytes].
  - eexists _, _. split; [done|]. by split.
  - destruct (pr_entries r !! ws) as [e|] eqn:Ee.
    + destruct (Z.ltb_spec PAD_ENTRY_TTL (sat_sub now (pe_queued_at e))) as [Hlt|Hge].
      * destruct (pads_remove_ok (mkPads (pr_entries r) order (pr_bytes r)) ws Hb) as (r' & b & -> & E1 & E2 & E3).
        rewrite bind_Ok. destruct (IH r' (S n) E3) as (r2 & n2 & -> & Hok & Hsub & Hh).
        { rewrite E1. intros w [x [Hne Hx]%lookup_delete_Some].
          assert (w ∈ ws :: order) as [->|?]%elem_of_cons by (apply Ho; by eexists); done. }
        eexists _, _. split; [done|]. split_and!; [done| |done]. etrans; [exact Hsub|]. rewrite E1. apply delete_subseteq.
      * eexists _, _. split; [done|]. split_and!; [by split|done|]. cbn. eauto.
    + apply (IH (mkPads (pr_entries r) (ws :: order) (pr_bytes r)) n Hb). intros w Hw. assert (w ∈ ws :: order) as [->|?]%elem_of_cons by (by apply Ho); [|done].
      cbn in Hw; rewrite Ee in Hw. by destruct Hw.
Qed.

(** The padding ring never panics and stays bounded: after any operations it holds at
    most [PAD_RING_CAP] datagrams, its byte counter is exactly theirs, and expiry stops
    only at a datagram that is still young enough. *)
Theorem pad_ring_bounded ops now :
  ∃ r, pad_run pads_new ops = Ok r
    ∧ (pads_len r ≤ PAD_RING_CAP)%nat ∧ r.(pr_bytes) = map_total pe_len r.(pr_entries)
    ∧ ∃ r' n, pads_expire r now = Ok (r', n)
        ∧ match r'.(pr_order) with
          | [] => r'.(pr_entries) = ∅
          | ws :: _ => ∃ e, pads_get r' ws = Some e ∧ sat_sub now e.(pe_queued_at) ≤ PAD_ENTRY_TTL
          end.
Proof.
  assert (∀ r, pads_ok r → (size r.(pr_entries) ≤ PAD_RING_CAP)%nat →
    ∃ r', pad_run r ops = Ok r' ∧ pads_ok r' ∧ (size r'.(pr_entries) ≤ PAD_RING_CAP)%nat) as Hrun.
  { induction ops as [|op ops IH]; intros r Hr Hs; [by exists r|]. cbn [pad_run].
    assert (∃ r', pad_step r op = Ok r' ∧ pads_ok r' ∧ (size r'.(pr_entries) ≤ PAD_RING_CAP)%nat) as (r1 & -> & H1 & H2).
    { destruct op as [ws e|ws|t|]; cbn [pad_step].
      - by apply pads_insert_ok.
      - destruct (pads_remove_ok r ws (po_bytes _ Hr)) as (r1 & b & -> & E1 & E2 & E3). exists r1. split; [done|]. split.
        + split; [done|]. rewrite E1, E2. intros w Hw. apply lookup_delete_is_Some in Hw as [_ Hw]. by apply (po_order _ Hr).
        + rewrite E1. etrans; [apply map_subseteq_size, delete_subseteq|done].
      - destruct (expire_loop_ok t (pr_order r) r 0 (po_bytes _ Hr) (po_order _ Hr)) as (r1 & n & E & H1 & H2 & _).
        unfold pads_expire. rewrite E. exists r1. split_and!; [done|done|]. apply map_subseteq_size in H2. lia.
      - eexists. split; [done|]. split; [split; cbn; [done|]|cbn; rewrite map_size_empty; lia].
        intros w [x Hx]. by rewrite lookup_empty in Hx. }
    rewrite bind_Ok. by apply IH. }
  destruct (Hrun pads_new) as (r & E & Hr & Hs).
  { split; cbn; [done|]. intros w [x Hx]. by rewrite lookup_empty in Hx. }
  { cbn. rewrite map_size_empty. unfold PAD_RING_CAP. lia. }
  exists r. split_and!; [done|done|apply (po_bytes _ Hr)|].
  destruct (expire_loop_ok now (pr_order r) r 0 (po_bytes _ Hr) (po_order _ Hr)) as (r' & n & E' & Hr' & _ & Hh).
  exists r', n. split; [done|]. destruct (pr_order r') as [|ws order] eqn:Eo; [|done].
  apply map_empty. intros ws. destruct (pr_entries r' !! ws) eqn:Ew; [|done].
  destruct (not_elem_of_nil ws). rewrite <-Eo. apply (po_order _ Hr'). by eexists.
Qed.
