(* ===== verification/FragmentCoverage.v ===== *)
(** * What each emission covered ([transport/fragment_coverage.rs])

    The server remembers, for every emitted tile pass, what acknowledging it means
    ([FragmentCoverage]), until it is acknowledged, superseded, or pushed out by
    newer ones.  The map is stored by tile, with a queue of insertion stamps beside
    it that is cleaned lazily; the specification is a plain list, oldest first, of
    at most [capacity] keys.  The theorem: every sequence of operations gives the
    answers of the list, never panics, and the queue never holds more than twice
    the live records plus 64.

    The [u64] stamp is a [nat]: a session would have to record 2^64 emissions to
    tell the difference. *)

From Stdlib Require Import ZArith Lia.
From S2P Require Import Prelude Wire.
From stdpp Require Import base option numbers list gmap.

Local Open Scope Z_scope.

(** ** Definitions *)

Record FragmentCoverage : Type := mkFragmentCoverage {
  fc_tile_x : Z; fc_tile_y : Z; fc_generation : Z; fc_pass_idx : Z;
  fc_codec : Codec; fc_palette_id : option Z;
  fc_palette_bundled : bool; fc_palette_held : bool;
}.

Abbreviation CoverageList := (list FragmentCoverage).

(** [(frame_seq, tile_x, tile_y, pass_idx)] *)
Abbreviation CoverageKey := (Z * (Z * Z) * Z)%type.

Definition FRAGMENT_COVERAGE_CAPACITY : nat := Z.to_nat 60000.

Record Recorded : Type := mkRecorded {
  rd_frame_seq : Z; rd_pass_idx : Z; rd_stamp : nat; rd_coverage : CoverageList;
}.

Record FragmentCoverageMap : Type := mkCoverageMap {
  fm_capacity : nat;
  fm_len : nat;
  fm_next_stamp : nat;
  fm_order : list (CoverageKey * nat);
  fm_tiles : gmap (Z * Z) (list Recorded);
}.

Definition coverage_map_new (capacity : nat) : outcome () FragmentCoverageMap :=
  _ ← assert_ (0 <? capacity)%nat;
  Ok (mkCoverageMap capacity 0 0 [] ∅).

(** [r.frame_seq == frame_seq && r.pass_idx == pass_idx] *)
Definition rd_matches (key : CoverageKey) (r : Recorded) : bool :=
  (r.(rd_frame_seq) =? key.1.1) && (r.(rd_pass_idx) =? key.2).

(** [Vec::swap_remove]: the last element takes the place of the removed one. *)
Definition swap_remove {A} (l : list A) (i : nat) : list A :=
  match last l with
  | Some x => take (length l - 1) (<[i := x]> l)
  | None => l
  end.

(** A tile with nothing left is dropped from the map. *)
Definition set_tile (tiles : gmap (Z * Z) (list Recorded)) (t : Z * Z) (records : list Recorded) :
    gmap (Z * Z) (list Recorded) :=
  if decide (records = []) then delete t tiles else <[t := records]> tiles.

Definition remove_where (m : FragmentCoverageMap) (key : CoverageKey) (matches : Recorded → bool) :
    outcome () (FragmentCoverageMap * option CoverageList) :=
  match m.(fm_tiles) !! key.1.2 with
  | None => Ok (m, None)
  | Some records =>
      match list_find (λ r, rd_matches key r && matches r) records with
      | None => Ok (m, None)
      | Some (pos, taken) =>
          len ← sub_usize m.(fm_len) 1;
          Ok (mkCoverageMap m.(fm_capacity) len m.(fm_next_stamp) m.(fm_order)
                (set_tile m.(fm_tiles) key.1.2 (swap_remove records pos)),
              Some taken.(rd_coverage))
      end
  end.

(** Whether an [order] entry still has its record. *)
Definition order_live (tiles : gmap (Z * Z) (list Recorded)) (o : CoverageKey * nat) : bool :=
  match tiles !! o.1.1.2 with
  | None => false
  | Some records => existsb (λ r, (r.(rd_stamp) =? o.2)%nat && rd_matches o.1 r) records
  end.

Definition compact_order (m : FragmentCoverageMap) : FragmentCoverageMap :=
  if (length m.(fm_order) <=? 2 * m.(fm_len) + 64)%nat then m
  else mkCoverageMap m.(fm_capacity) m.(fm_len) m.(fm_next_stamp)
         (filter (λ o, order_live m.(fm_tiles) o) m.(fm_order)) m.(fm_tiles).

(** The loop [while self.len > self.capacity], popping [order] from the front. *)
Fixpoint evict_oldest (order : list (CoverageKey * nat)) (m : FragmentCoverageMap) :
    outcome () FragmentCoverageMap :=
  let m := mkCoverageMap m.(fm_capacity) m.(fm_len) m.(fm_next_stamp) order m.(fm_tiles) in
  if (m.(fm_len) <=? m.(fm_capacity))%nat then Ok m
  else match order with
       | [] => Ok m
       | (oldest, stamp) :: order =>
           '(m, _) ← remove_where m oldest (λ r, (r.(rd_stamp) =? stamp)%nat);
           evict_oldest order m
       end.

Definition fm_record (m : FragmentCoverageMap) (key : CoverageKey) (coverage : CoverageList) :
    outcome () FragmentCoverageMap :=
  let t := key.1.2 in
  let records := default [] (m.(fm_tiles) !! t) in
  match list_find (λ r, rd_matches key r) records with
  | Some (i, r) =>
      Ok (mkCoverageMap m.(fm_capacity) m.(fm_len) m.(fm_next_stamp) m.(fm_order)
            (<[t := <[i := mkRecorded r.(rd_frame_seq) r.(rd_pass_idx) r.(rd_stamp) coverage]> records]> m.(fm_tiles)))
  | None =>
      let stamp := m.(fm_next_stamp) in
      m ← evict_oldest (m.(fm_order) ++ [(key, stamp)])
            (mkCoverageMap m.(fm_capacity) (m.(fm_len) + 1) (stamp + 1) m.(fm_order)
               (<[t := records ++ [mkRecorded key.1.1 key.2 stamp coverage]]> m.(fm_tiles)));
      Ok (compact_order m)
  end.

Definition fm_take (m : FragmentCoverageMap) (key : CoverageKey) :
    outcome () (FragmentCoverageMap * option CoverageList) :=
  '(m, taken) ← remove_where m key (λ _, true);
  Ok (match taken with Some _ => compact_order m | None => m end, taken).

Definition covers_cdf53 (c : CoverageList) : bool :=
  existsb (λ f, bool_decide (f.(fc_codec) = CCdf53)) c.

Definition drop_cdf53_for_tile (m : FragmentCoverageMap) (tile_x tile_y : Z) :
    outcome () FragmentCoverageMap :=
  match m.(fm_tiles) !! (tile_x, tile_y) with
  | None => Ok m
  | Some records =>
      let kept := filter (λ r, ¬ covers_cdf53 r.(rd_coverage)) records in
      removed ← sub_usize (length records) (length kept);
      len ← sub_usize m.(fm_len) removed;
      Ok (compact_order (mkCoverageMap m.(fm_capacity) len m.(fm_next_stamp) m.(fm_order)
                           (set_tile m.(fm_tiles) (tile_x, tile_y) kept)))
  end.

Definition unbundle (f : FragmentCoverage) : FragmentCoverage :=
  if decide (f.(fc_codec) = CPalRle)
  then mkFragmentCoverage f.(fc_tile_x) f.(fc_tile_y) f.(fc_generation) f.(fc_pass_idx)
         f.(fc_codec) f.(fc_palette_id) false false
  else f.

Definition unbundle_palrle_for_tile (m : FragmentCoverageMap) (tile_x tile_y : Z) : FragmentCoverageMap :=
  match m.(fm_tiles) !! (tile_x, tile_y) with
  | None => m
  | Some records =>
      mkCoverageMap m.(fm_capacity) m.(fm_len) m.(fm_next_stamp) m.(fm_order)
        (<[(tile_x, tile_y) :=
             (λ r, mkRecorded r.(rd_frame_seq) r.(rd_pass_idx) r.(rd_stamp) (unbundle <$> r.(rd_coverage))) <$> records]>
           m.(fm_tiles))
  end.

(** ** The specification: a bounded list of keys, oldest first *)

Abbreviation Live := (list (CoverageKey * CoverageList)).

Definition spec_find (live : Live) (key : CoverageKey) : option CoverageList :=
  snd <$> head (filter (λ e, e.1 = key) live).

Definition spec_record (capacity : nat) (live : Live) (key : CoverageKey) (c : CoverageList) : Live :=
  if decide (key ∈ live.*1) then (λ e, if decide (e.1 = key) then (key, c) else e) <$> live
  else let live := live ++ [(key, c)] in drop (length live - capacity) live.

Definition spec_take (live : Live) (key : CoverageKey) : Live := filter (λ e, e.1 ≠ key) live.

Definition spec_drop (live : Live) (t : Z * Z) : Live :=
  filter (λ e, ¬ (e.1.1.2 = t ∧ covers_cdf53 e.2)) live.

Definition spec_unbundle (live : Live) (t : Z * Z) : Live :=
  (λ e : CoverageKey * CoverageList, if decide (e.1.1.2 = t) then (e.1, unbundle <$> e.2) else e) <$> live.

(** The operations a session performs; [take] is the one that answers. *)
Inductive cov_op : Type :=
| CRecord (key : CoverageKey) (c : CoverageList)
| CTake (key : CoverageKey)
| CDrop (tile_x tile_y : Z)
| CUnbundle (tile_x tile_y : Z).

Definition cov_step (m : FragmentCoverageMap) (op : cov_op) :
    outcome () (FragmentCoverageMap * list (option CoverageList)) :=
  match op with
  | CRecord key c => m ← fm_record m key c; Ok (m, [])
  | CTake key => '(m, a) ← fm_take m key; Ok (m, [a])
  | CDrop x y => m ← drop_cdf53_for_tile m x y; Ok (m, [])
  | CUnbundle x y => Ok (unbundle_palrle_for_tile m x y, [])
  end.

Fixpoint cov_run (m : FragmentCoverageMap) (ops : list cov_op) :
    outcome () (FragmentCoverageMap * list (option CoverageList)) :=
  match ops with
  | [] => Ok (m, [])
  | op :: ops =>
      '(m, a) ← cov_step m op;
      '(m, b) ← cov_run m ops;
      Ok (m, a ++ b)
  end.

Definition spec_cov_step (capacity : nat) (live : Live) (op : cov_op) : Live * list (option CoverageList) :=
  match op with
  | CRecord key c => (spec_record capacity live key c, [])
  | CTake key => (spec_take live key, [spec_find live key])
  | CDrop x y => (spec_drop live (x, y), [])
  | CUnbundle x y => (spec_unbundle live (x, y), [])
  end.

Fixpoint spec_cov_run (capacity : nat) (live : Live) (ops : list cov_op) : Live * list (option CoverageList) :=
  match ops with
  | [] => (live, [])
  | op :: ops =>
      let '(live, a) := spec_cov_step capacity live op in
      let '(live, b) := spec_cov_run capacity live ops in
      (live, a ++ b)
  end.

(** ** The refinement

    [recs] lists the live records with their tiles, oldest first. *)

Definition key_of (x : Z * Z * Recorded) : CoverageKey := (x.2.(rd_frame_seq), x.1, x.2.(rd_pass_idx)).
Definition tag_of (x : Z * Z * Recorded) : CoverageKey * nat := (key_of x, x.2.(rd_stamp)).
Definition entry_of (x : Z * Z * Recorded) : CoverageKey * CoverageList := (key_of x, x.2.(rd_coverage)).

Record stored (m : FragmentCoverageMap) (recs : list (Z * Z * Recorded)) : Prop := {
  cv_len : m.(fm_len) = length recs;
  cv_tiles : ∀ t, default [] (m.(fm_tiles) !! t) ≡ₚ (filter (λ x, x.1 = t) recs).*2;
  cv_nonempty : ∀ t l, m.(fm_tiles) !! t = Some l → l ≠ [];
  cv_keys : NoDup (key_of <$> recs);
}.

Record queued (order : list (CoverageKey * nat)) (next_stamp : nat) (recs : list (Z * Z * Recorded)) : Prop := {
  cv_order : (tag_of <$> recs) `sublist_of` order;
  cv_nodup : NoDup order;
  cv_stamps : Forall (λ o, (o.2 < next_stamp)%nat) order;
}.

Definition covers (m : FragmentCoverageMap) (recs : list (Z * Z * Recorded)) : Prop :=
  stored m recs ∧ queued m.(fm_order) m.(fm_next_stamp) recs.

Lemma swap_remove_Permutation {A} (l : list A) i x :
  l !! i = Some x → l ≡ₚ x :: swap_remove l i.
Proof.
  intros Hi. unfold swap_remove. destruct l as [|y l] using rev_ind; [done|]. clear IHl.
  rewrite last_snoc, length_app. cbn [length]. replace (length l + 1 - 1)%nat with (length l) by lia.
  destruct (decide (i = length l)) as [->|Hne].
  - rewrite list_lookup_middle in Hi by done. injection Hi as <-.
    rewrite list_insert_id by (by apply list_lookup_middle). rewrite take_app_length.
    by rewrite Permutation_app_comm.
  - assert (i < length l)%nat by (apply lookup_lt_Some in Hi; rewrite length_app in Hi; cbn in Hi; lia).
    rewrite lookup_app_l in Hi by done. rewrite insert_app_l, take_app_le by (rewrite ?length_insert; lia).
    rewrite take_ge by (rewrite length_insert; lia).
    rewrite (Permutation_app_comm l [y]). cbn. rewrite <-(take_drop_middle l i x Hi) at 1.
    rewrite insert_take_drop by done. rewrite <-!Permutation_middle. constructor.
Qed.

(** A record found in its tile is a live record, and the other way round. *)
Lemma stored_find m recs key r : stored m recs →
  rd_matches key r → (r ∈ default [] (m.(fm_tiles) !! key.1.2) ↔ (key.1.2, r) ∈ recs).
Proof.
  intros [_ Ht _ _] Hr. rewrite (Ht key.1.2), list_elem_of_fmap. split.
  - intros ([t r'] & -> & [Hx1 Hx2]%list_elem_of_filter). cbn in *. by subst.
  - intros H. exists (key.1.2, r). split; [done|]. by apply list_elem_of_filter.
Qed.

Lemma set_tile_lookup tiles t l t' :
  default [] (set_tile tiles t l !! t') = if decide (t' = t) then l else default [] (tiles !! t').
Proof.
  unfold set_tile. case_decide as Hl; case_decide as Ht; subst.
  - by rewrite lookup_delete_eq.
  - by rewrite lookup_delete_ne.
  - by rewrite lookup_insert_eq.
  - by rewrite lookup_insert_ne.
Qed.

Lemma set_tile_nonempty tiles t l :
  (∀ t' l', tiles !! t' = Some l' → l' ≠ []) → ∀ t' l', set_tile tiles t l !! t' = Some l' → l' ≠ [].
Proof.
  intros H t' l'. unfold set_tile. case_decide.
  - intros [_ ?]%lookup_delete_Some. by eapply H.
  - rewrite lookup_insert_Some. intros [[_ <-]|[_ ?]]; [done|by eapply H].
Qed.

Lemma NoDup_fmap_inj {A B} (f : A → B) l x y :
  NoDup (f <$> l) → x ∈ l → y ∈ l → f x = f y → x = y.
Proof.
  intros Hnd [i Hi]%list_elem_of_lookup [j Hj]%list_elem_of_lookup E.
  assert (i = j) as ->; [|congruence].
  apply (NoDup_lookup (f <$> l) i j (f x)); [done|by rewrite list_lookup_fmap, Hi|by rewrite list_lookup_fmap, Hj, E].
Qed.

Lemma rd_matches_key key r : rd_matches key r ↔ key_of (key.1.2, r) = key.
Proof.
  destruct key as [[f t] p]. unfold rd_matches, key_of. cbn.
  rewrite Is_true_true, andb_true_iff, !Z.eqb_eq. naive_solver.
Qed.

Lemma filter_other_keys (recs : list (Z * Z * Recorded)) k :
  k ∉ key_of <$> recs → filter (λ y, key_of y ≠ k) recs = recs.
Proof.
  intros H. apply filter_every, Forall_forall. intros x Hx <-. by apply H, list_elem_of_fmap_2.
Qed.

Lemma recs_split recs x : NoDup (key_of <$> recs) → x ∈ recs →
  recs ≡ₚ x :: filter (λ y, key_of y ≠ key_of x) recs.
Proof.
  induction recs as [|z recs IH]; intros Hnd Hx; [by apply elem_of_nil in Hx|].
  cbn in Hnd. apply NoDup_cons in Hnd as [Hz Hnd]. rewrite filter_cons.
  apply elem_of_cons in Hx as [->|Hx].
  - rewrite decide_False by auto. by rewrite filter_other_keys.
  - rewrite decide_True by (intros E; apply Hz; rewrite E; by apply list_elem_of_fmap_2).
    rewrite (IH Hnd Hx) at 1. constructor.
Qed.

(** Deleting live records, whichever. *)
Lemma stored_filter (P : Z * Z * Recorded → Prop) `{∀ x, Decision (P x)} m recs len tiles :
  stored m recs → len = length (filter P recs) →
  (∀ t, default [] (tiles !! t) ≡ₚ (filter (λ x, x.1 = t) (filter P recs)).*2) →
  (∀ t l, tiles !! t = Some l → l ≠ []) →
  stored (mkCoverageMap m.(fm_capacity) len m.(fm_next_stamp) m.(fm_order) tiles) (filter P recs).
Proof.
  intros [Hl Ht Hne Hk] Hlen Htl Hn. split; cbn; try done.
  apply (sublist_NoDup _ (key_of <$> recs)); [exact Hk|]. apply fmap_sublist, sublist_filter.
Qed.

Lemma queued_sublist order next recs recs' :
  recs' `sublist_of` recs → queued order next recs → queued order next recs'.
Proof. intros Hs [Ho Hn Hst]. split; [|done|done]. etrans; [by apply fmap_sublist|exact Ho]. Qed.

Definition frame_of (m : FragmentCoverageMap) := (m.(fm_capacity), m.(fm_next_stamp), m.(fm_order)).

Lemma remove_where_hit m recs x (matches : Recorded → bool) : stored m recs → x ∈ recs → matches x.2 →
  ∃ m', remove_where m (key_of x) matches = Ok (m', Some x.2.(rd_coverage))
    ∧ stored m' (filter (λ y, key_of y ≠ key_of x) recs) ∧ frame_of m' = frame_of m
    ∧ m.(fm_len) = S m'.(fm_len).
Proof.
  intros Hc Hx Hm. pose proof Hc as [Hl Ht Hne Hk]. unfold remove_where. cbn [key_of fst snd].
  pose proof (recs_split recs x Hk Hx) as Hsp. destruct x as [t r]. cbn [fst snd] in *.
  assert (rd_matches (key_of (t, r)) r) as Hr by by apply rd_matches_key.
  pose proof (proj2 (stored_find m recs (key_of (t, r)) r Hc Hr) Hx) as Hin. cbn [key_of fst snd] in Hin.
  destruct (fm_tiles m !! t) as [records|] eqn:Et; [|by apply elem_of_nil in Hin]. cbn in Hin.
  destruct (list_find _ records) as [[pos taken]|] eqn:Ef.
  2:{ apply list_find_None in Ef. rewrite Forall_forall in Ef. exfalso. apply (Ef r Hin). naive_solver. }
  apply list_find_Some in Ef as (Hpos & Htk & _).
  assert (taken = r) as ->.
  { apply andb_prop_elim in Htk as [Htk _].
    assert ((t, taken) ∈ recs) as Hin'.
    { apply (stored_find m recs (key_of (t, r)) taken Hc Htk). cbn. rewrite Et. cbn. by eapply list_elem_of_lookup_2. }
    apply rd_matches_key in Htk. cbn in Htk.
    by pose proof (NoDup_fmap_inj key_of recs _ _ Hk Hin' Hx Htk) as [= ->]. }
  pose proof (Permutation_length Hsp) as Hlen. cbn in Hlen.
  unfold sub_usize. rewrite (proj2 (Nat.leb_le _ _)) by lia. rewrite bind_Ok. eexists. split; [done|]. split; [|split; [done|cbn; lia]].
  apply (stored_filter (λ y, key_of y ≠ key_of (t, r))); [done|lia| |by apply set_tile_nonempty].
  intros t'. rewrite set_tile_lookup. case_decide as E; subst.
  - apply (Permutation_cons_inv (a:=r)). rewrite <-(swap_remove_Permutation _ _ _ Hpos).
    pose proof (Ht t) as H'. rewrite Et in H'. cbn in H'. rewrite H'. rewrite Hsp at 1.
    by rewrite filter_cons, decide_True.
  - rewrite Ht. rewrite Hsp at 1. by rewrite filter_cons, decide_False by (cbn; congruence).
Qed.

Lemma remove_where_miss m recs key (matches : Recorded → bool) : stored m recs →
  (∀ x, x ∈ recs → key_of x = key → ¬ matches x.2) → remove_where m key matches = Ok (m, None).
Proof.
  intros Hc Hx. unfold remove_where. destruct (fm_tiles m !! key.1.2) as [records|] eqn:Et; [|done].
  destruct (list_find _ records) as [[pos taken]|] eqn:Ef; [|done]. exfalso.
  apply list_find_Some in Ef as (Hpos & Htk & _). apply andb_prop_elim in Htk as [Htk Hm].
  apply (Hx (key.1.2, taken)); [|by apply rd_matches_key|done].
  apply (stored_find m recs key taken Hc Htk). rewrite Et. by eapply list_elem_of_lookup_2.
Qed.

(** ** The insertion queue *)

Lemma sublist_filter_members {A} `{EqDecision A} (l k : list A) :
  l `sublist_of` k → NoDup k → filter (λ x, x ∈ l) k = l.
Proof.
  induction 1 as [|x l k Hs IH|x l k Hs IH]; intros Hnd; [done| |];
    apply NoDup_cons in Hnd as [Hx Hnd]; rewrite filter_cons.
  - rewrite decide_True by left. f_equal. etrans; [|exact (IH Hnd)]. apply filter_agree, Forall_forall.
    intros y Hy. rewrite elem_of_cons. split; [|auto]. intros [->|?]; [by exfalso; apply Hx|done].
  - rewrite decide_False; [by apply IH|]. intros Hin. apply Hx. by eapply elem_of_sublist.
Qed.

Lemma order_live_tags m recs o : stored m recs → order_live m.(fm_tiles) o ↔ o ∈ tag_of <$> recs.
Proof.
  intros Hc. unfold order_live. rewrite list_elem_of_fmap.
  assert ((∃ r, r ∈ default [] (fm_tiles m !! o.1.1.2) ∧ rd_stamp r = o.2 ∧ rd_matches o.1 r) ↔
          ∃ x, o = tag_of x ∧ x ∈ recs) as <-.
  { split.
    - intros (r & Hin & Hs & Hm). exists (o.1.1.2, r). split; [|by apply (stored_find m recs o.1 r)].
      apply rd_matches_key in Hm. unfold tag_of. rewrite Hm. cbn. rewrite Hs. by destruct o.
    - intros ([t r] & -> & Hin). exists r. cbn. assert (rd_matches (key_of (t, r)) r) by by apply rd_matches_key.
      split; [|done]. by apply (stored_find m recs (key_of (t, r)) r). }
  destruct (fm_tiles m !! o.1.1.2) as [records|]; cbn.
  - rewrite Is_true_true, existsb_exists. setoid_rewrite andb_true_iff. setoid_rewrite Nat.eqb_eq.
    setoid_rewrite <-Is_true_true. by setoid_rewrite list_elem_of_In.
  - split; [done|]. intros (r & Hr & _). by apply elem_of_nil in Hr.
Qed.

Lemma compact_covers m recs : covers m recs →
  covers (compact_order m) recs ∧ fm_capacity (compact_order m) = fm_capacity m
  ∧ fm_len (compact_order m) = fm_len m ∧ (length (fm_order (compact_order m)) ≤ 2 * fm_len m + 64)%nat.
Proof.
  intros [Hs [Ho Hn Hst]]. unfold compact_order. destruct (Nat.leb_spec (length (fm_order m)) (2 * fm_len m + 64)).
  { done. }
  assert (filter (λ o, order_live (fm_tiles m) o) (fm_order m) = tag_of <$> recs) as E.
  { rewrite <-(sublist_filter_members _ _ Ho Hn). apply list_filter_iff. intros o. by apply order_live_tags. }
  rewrite E. cbn. split_and!; [|done|done|].
  - split; [by destruct Hs|]. split; cbn; [done|by eapply sublist_NoDup|].
    rewrite Forall_forall in *. intros o Hin. apply Hst. by eapply elem_of_sublist.
  - rewrite length_fmap, (cv_len _ _ Hs). lia.
Qed.

Lemma evict_oldest_covers order : ∀ m recs, stored m recs → queued order m.(fm_next_stamp) recs →
  ∃ m', evict_oldest order m = Ok m' ∧ covers m' (drop (length recs - m.(fm_capacity)) recs)
    ∧ fm_capacity m' = fm_capacity m.
Proof.
  induction order as [|[key st] order IH]; intros m recs Hs Hq; pose proof (cv_len _ _ Hs) as Hlen;
    cbn [evict_oldest fm_len fm_capacity].
  - destruct Hq as [Ho Hn Hst]. apply sublist_nil_r, fmap_nil_inv in Ho as ->. cbn in Hlen. rewrite Hlen. cbn.
    eexists. split; [done|]. split; [|done]. split; [by destruct Hs|]. split; cbn; by constructor.
  - destruct (Nat.leb_spec (fm_len m) (fm_capacity m)).
    { replace (length recs - fm_capacity m)%nat with 0%nat by lia. rewrite drop_0.
      eexists. split; [done|]. split; [|done]. split; [by destruct Hs|done]. }
    set (m0 := mkCoverageMap _ _ _ _ _). assert (stored m0 recs) as Hs0 by by destruct Hs.
    destruct Hq as [Ho Hn Hst]. apply NoDup_cons in Hn as [Hk Hn]. apply Forall_cons in Hst as [_ Hst].
    apply sublist_cons_r in Ho as [Ho|(tags & Et & Ho)].
    + rewrite (remove_where_miss m0 recs); [|done|].
      * rewrite bind_Ok. apply (IH m0 recs Hs0). by split.
      * intros x Hx Ex. rewrite Is_true_true, Nat.eqb_eq. intros Es. apply Hk. eapply elem_of_sublist; [|exact Ho].
        rewrite list_elem_of_fmap. exists x. unfold tag_of. by rewrite Ex, Es.
    + destruct recs as [|x recs]; [done|]. cbn in Et. injection Et as Ex Es <-.
      destruct (remove_where_hit m0 (x :: recs) x (λ r, (rd_stamp r =? st)%nat)) as (m1 & Hr & Hm1 & Hf & Hl1);
        [done|left|by rewrite Is_true_true, Nat.eqb_eq|].
      rewrite <-Ex, Hr, bind_Ok. injection Hf as Hcap Hnext _.
      assert (filter (λ y, key_of y ≠ key_of x) (x :: recs) = recs) as E.
      { rewrite filter_cons, decide_False by auto. pose proof (cv_keys _ _ Hs) as Hkk. cbn in Hkk.
        apply NoDup_cons in Hkk as [Hkk _]. by apply filter_other_keys. }
      rewrite E in Hm1. cbn [length]. cbn in Hlen.
      replace (S (length recs) - fm_capacity m)%nat with (S (length recs - fm_capacity m)) by lia. cbn [drop].
      destruct (IH m1 recs Hm1) as (m' & ? & ? & ?); [rewrite Hnext; by split|]. exists m'.
      cbn in Hcap. rewrite Hcap in *. done.
Qed.

(** ** The operations *)

Definition cov_ok (m : FragmentCoverageMap) (live : Live) : Prop :=
  ∃ recs, covers m recs ∧ live = entry_of <$> recs
    ∧ (length m.(fm_order) ≤ 2 * m.(fm_len) + 64)%nat ∧ (m.(fm_len) ≤ m.(fm_capacity))%nat.

(** Rewriting the coverage of live records, whichever. *)
Lemma covers_map (g : Z * Z * Recorded → Z * Z * Recorded) m recs tiles :
  covers m recs → (∀ x, (g x).1 = x.1 ∧ tag_of (g x) = tag_of x) →
  (∀ t, default [] (tiles !! t) ≡ₚ (λ r, (g (t, r)).2) <$> default [] (m.(fm_tiles) !! t)) →
  (∀ t l, tiles !! t = Some l → l ≠ []) →
  covers (mkCoverageMap m.(fm_capacity) m.(fm_len) m.(fm_next_stamp) m.(fm_order) tiles) (g <$> recs).
Proof.
  intros [[Hl Ht Hne Hk] [Ho Hn Hst]] Hg Htl Hnn.
  assert (tag_of <$> (g <$> recs) = tag_of <$> recs) as Et.
  { rewrite <-list_fmap_compose. apply list_fmap_ext. intros i x _. apply Hg. }
  split; split; cbn; try done.
  - by rewrite length_fmap.
  - intros t. rewrite Htl, (Ht t). rewrite list_filter_fmap, <-!list_fmap_compose. apply Permutation_refl'.
    assert (filter (λ x, (g x).1 = t) recs = filter (λ x, x.1 = t) recs) as ->.
    { apply list_filter_iff. intros x. cbn. by rewrite (proj1 (Hg x)). }
    apply list_fmap_ext. intros i [t' r] Hx. cbn.
    apply list_elem_of_lookup_2, list_elem_of_filter in Hx as [E _]. cbn in E. by subst.
  - replace (key_of <$> (g <$> recs)) with (key_of <$> recs); [done|].
    rewrite <-list_fmap_compose. apply list_fmap_ext. intros i x _. cbn.
    symmetry. exact (f_equal fst (proj2 (Hg x))).
  - by rewrite Et.
Qed.

Lemma entry_keys recs : (entry_of <$> recs).*1 = key_of <$> recs.
Proof. by rewrite <-list_fmap_compose. Qed.

Lemma tile_NoDup m recs t : stored m recs → NoDup (default [] (m.(fm_tiles) !! t)).
Proof.
  intros [Hl Ht Hne Hk]. rewrite (Ht t). apply NoDup_fmap_1 in Hk as Hr.
  apply NoDup_fmap_2_strong; [|by apply NoDup_filter].
  intros [t1 r1] [t2 r2] [E1 _]%list_elem_of_filter [E2 _]%list_elem_of_filter E. cbn in *. congruence.
Qed.

Lemma insert_as_fmap {A} (f : A → A) (l : list A) i y : is_Some (l !! i) →
  (∀ j x, l !! j = Some x → (j = i → f x = y) ∧ (j ≠ i → f x = x)) → <[i := y]> l = f <$> l.
Proof.
  intros [x0 Hx0] H. apply list_eq. intros j. rewrite list_lookup_fmap.
  destruct (decide (j = i)) as [->|Hj].
  - rewrite list_lookup_insert_eq by (by eapply lookup_lt_Some). rewrite Hx0. cbn. by rewrite (proj1 (H i x0 Hx0) eq_refl).
  - rewrite list_lookup_insert_ne by done. destruct (l !! j) as [x|] eqn:E; [|done]. cbn.
    by rewrite (proj2 (H j x E) Hj).
Qed.

Lemma record_again_ok m recs key c i r : covers m recs →
  default [] (m.(fm_tiles) !! key.1.2) !! i = Some r → rd_matches key r →
  covers (mkCoverageMap m.(fm_capacity) m.(fm_len) m.(fm_next_stamp) m.(fm_order)
            (<[key.1.2 := <[i := mkRecorded r.(rd_frame_seq) r.(rd_pass_idx) r.(rd_stamp) c]>
                            (default [] (m.(fm_tiles) !! key.1.2))]> m.(fm_tiles)))
    ((λ x, if decide (key_of x = key)
           then (x.1, mkRecorded (rd_frame_seq x.2) (rd_pass_idx x.2) (rd_stamp x.2) c) else x) <$> recs)
  ∧ key ∈ key_of <$> recs.
Proof.
  intros Hc Hi Hm. pose proof Hc as [Hs Hq].
  assert ((key.1.2, r) ∈ recs) as Hin by (apply (stored_find m recs key r Hs Hm); by eapply list_elem_of_lookup_2).
  assert (key_of (key.1.2, r) = key) as Ek by by apply rd_matches_key.
  split; [|by rewrite list_elem_of_fmap; eauto].
  apply covers_map; [done|intros x; case_decide; by destruct x| |].
  + intros t. destruct (decide (t = key.1.2)) as [->|Hne].
    * rewrite lookup_insert_eq, default_Some_eq. apply Permutation_refl', insert_as_fmap; [by eexists|].
      intros j r' Ej. split.
      -- intros ->. rewrite Hi in Ej. injection Ej as <-. cbn. by rewrite decide_True.
      -- intros Hj. rewrite decide_False; [done|]. intros E. apply Hj.
         assert ((key.1.2, r') ∈ recs) as Hin'.
         { apply (stored_find m recs key r' Hs); [by apply rd_matches_key|by eapply list_elem_of_lookup_2]. }
         assert ((key.1.2, r') = (key.1.2, r)) as [= ->].
         { apply (NoDup_fmap_inj key_of recs _ _ (cv_keys _ _ Hs) Hin' Hin). congruence. }
         by eapply (NoDup_lookup _ _ _ _ (tile_NoDup m recs key.1.2 Hs)).
    * rewrite lookup_insert_ne by done. apply Permutation_refl'. symmetry.
      transitivity (id <$> default [] (fm_tiles m !! t)); [|apply list_fmap_id]. apply list_fmap_ext. intros j r' _. cbn.
      rewrite decide_False; [done|]. unfold key_of. cbn. destruct key as [[? ?] ?]. cbn in *. congruence.
  + intros t l. rewrite lookup_insert_Some. intros [[_ <-]|[_ H]]; [|by eapply (cv_nonempty _ _ Hs)].
    intros E. apply (f_equal length) in E. rewrite length_insert in E. apply lookup_lt_Some in Hi. cbn in E. lia.
Qed.

Lemma record_new_ok m recs key c : covers m recs → key ∉ key_of <$> recs →
  let x := (key.1.2, mkRecorded key.1.1 key.2 m.(fm_next_stamp) c) in
  let m1 := mkCoverageMap m.(fm_capacity) (m.(fm_len) + 1) (m.(fm_next_stamp) + 1) m.(fm_order)
              (<[key.1.2 := default [] (m.(fm_tiles) !! key.1.2) ++ [x.2]]> m.(fm_tiles)) in
  key_of x = key ∧ stored m1 (recs ++ [x])
  ∧ queued (m.(fm_order) ++ [(key, m.(fm_next_stamp))]) m1.(fm_next_stamp) (recs ++ [x]).
Proof.
  intros [Hs Hq] Hnew x m1. assert (key_of x = key) as Ex by (by destruct key as [[? ?] ?]).
  split; [done|]. split.
  - destruct Hs as [Hl Ht Hne Hk]. split; cbn.
    + rewrite length_app. cbn. lia.
    + intros t. rewrite filter_app, fmap_app, filter_cons, filter_nil. cbn.
      destruct (decide (t = key.1.2)) as [->|Hne'].
      * rewrite lookup_insert_eq, decide_True by done. cbn. by rewrite (Ht key.1.2).
      * rewrite lookup_insert_ne, decide_False by done. cbn. by rewrite app_nil_r.
    + intros t l. rewrite lookup_insert_Some. intros [[_ <-]|[_ ?]]; [by destruct (default _ _)|by eapply Hne].
    + rewrite fmap_app. apply NoDup_app. split_and!; [done| |apply NoDup_singleton].
      intros k Hk' ->%list_elem_of_singleton. cbn in Hk'. by rewrite Ex in Hk'.
  - destruct Hq as [Ho Hn Hst]. split; cbn.
    + rewrite fmap_app. apply sublist_app; [done|]. cbn. unfold tag_of. by rewrite Ex.
    + apply NoDup_app. split_and!; [done| |apply NoDup_singleton].
      intros o Hin ->%list_elem_of_singleton. rewrite Forall_forall in Hst. apply Hst in Hin. cbn in Hin. lia.
    + apply Forall_app. split; [|apply Forall_singleton; cbn; lia].
      eapply Forall_impl; [exact Hst|]. cbn. intros; lia.
Qed.

Lemma record_ok m live key c : cov_ok m live →
  ∃ m', fm_record m key c = Ok m' ∧ cov_ok m' (spec_record m.(fm_capacity) live key c)
    ∧ fm_capacity m' = fm_capacity m.
Proof.
  intros (recs & Hc & -> & Hsl & Hcap). unfold fm_record, spec_record.
  rewrite entry_keys. destruct (list_find _ _) as [[i r]|] eqn:Ef.
  - apply list_find_Some in Ef as (Hi & Hm & _).
    destruct (record_again_ok m recs key c i r Hc Hi Hm) as [Hc' Hin]. rewrite decide_True by done.
    eexists. split; [done|]. split; [|done]. eexists. split_and!; [exact Hc'| |done|done].
    rewrite <-!list_fmap_compose. apply list_fmap_ext. intros j x _. cbn. unfold entry_of. cbn.
    repeat case_decide; try done. by subst.
  - apply list_find_None in Ef. rewrite Forall_forall in Ef.
    assert (key ∉ key_of <$> recs) as Hnew.
    { intros ([t r] & -> & Hin)%list_elem_of_fmap. apply (Ef r); [|by apply rd_matches_key].
      apply (stored_find m recs (key_of (t, r)) r (proj1 Hc)); [by apply rd_matches_key|done]. }
    rewrite decide_False by done. destruct (record_new_ok m recs key c Hc Hnew) as (Ex & Hs1 & Hq1).
    cbn [snd] in Hs1. destruct (evict_oldest_covers _ _ _ Hs1 Hq1) as (m' & E & Hm' & Hcap'). rewrite E, bind_Ok.
    destruct (compact_covers m' _ Hm') as (Hm'' & Hcap'' & Hlen & Hord).
    eexists. split; [done|]. split; [|by rewrite Hcap'', Hcap'].
    eexists. split; [exact Hm''|]. rewrite Hlen, Hcap'', Hcap'. cbn [fm_capacity] in *. split_and!; [|done|].
    + rewrite fmap_drop, fmap_app, !length_app, length_fmap. cbn [fmap list_fmap length].
      by unfold entry_of at 3; rewrite Ex.
    + rewrite (cv_len _ _ (proj1 Hm')), length_drop. lia.
Qed.

Lemma take_ok m live key : cov_ok m live →
  ∃ m', fm_take m key = Ok (m', spec_find live key) ∧ cov_ok m' (spec_take live key)
    ∧ fm_capacity m' = fm_capacity m.
Proof.
  intros (recs & [Hs Hq] & -> & Hsl & Hcap). unfold fm_take, spec_find, spec_take. rewrite !list_filter_fmap. cbn.
  destruct (decide (key ∈ key_of <$> recs)) as [Hin|Hin].
  - apply list_elem_of_fmap in Hin as (x & -> & Hx).
    destruct (remove_where_hit m recs x (λ _, true) Hs Hx I) as (m1 & -> & Hm1 & Hf & Hl). rewrite bind_Ok.
    injection Hf as Hc1 Hn1 Ho1.
    assert (filter (λ y, key_of y = key_of x) recs = [x]) as ->.
    { apply Permutation_singleton_r. rewrite (recs_split recs x (cv_keys _ _ Hs) Hx) at 1.
      rewrite filter_cons, decide_True by done. apply perm_skip. rewrite list_filter_filter.
      rewrite filter_none; [done|tauto]. }
    cbn. destruct (compact_covers m1 (filter (λ y, key_of y ≠ key_of x) recs)) as (Hm2 & Hc2 & Hl2 & Ho2).
    { split; [done|]. rewrite Ho1, Hn1. eapply queued_sublist; [apply sublist_filter|done]. }
    eexists. split; [done|]. split; [|by rewrite Hc2]. eexists. split; [exact Hm2|].
    rewrite Hl2, Hc2, Hc1. split_and!; [done|done|lia].
  - rewrite (remove_where_miss m recs); [|done|intros x Hx <-; exfalso; apply Hin; by apply list_elem_of_fmap_2].
    rewrite bind_Ok. rewrite (filter_other_keys recs key Hin).
    assert (filter (λ y, key_of y = key) recs = []) as ->.
    { rewrite <-(filter_other_keys recs key Hin), list_filter_filter.
      apply filter_none. tauto. }
    eexists. split; [done|]. split; [|done]. by exists recs.
Qed.

Lemma drop_ok m live x y : cov_ok m live →
  ∃ m', drop_cdf53_for_tile m x y = Ok m' ∧ cov_ok m' (spec_drop live (x, y))
    ∧ fm_capacity m' = fm_capacity m.
Proof.
  intros (recs & [Hs Hq] & -> & Hsl & Hcap). unfold drop_cdf53_for_tile, spec_drop. rewrite list_filter_fmap. cbn.
  set (P := λ z : Z * Z * Recorded, ¬ (z.1 = (x, y) ∧ covers_cdf53 z.2.(rd_coverage))).
  pose proof Hs as [Hl Ht Hne Hk]. pose proof (Ht (x, y)) as Hxy.
  pose proof (filter_app_complement (λ z : Z * Z * Recorded, z.1 = (x, y) ∧ covers_cdf53 z.2.(rd_coverage)) recs) as Hcp.
  apply Permutation_length in Hcp. rewrite length_app in Hcp. fold P in Hcp.
  destruct (fm_tiles m !! (x, y)) as [records|] eqn:Et; cbn in Hxy.
  - pose proof (filter_app_complement (λ r, covers_cdf53 r.(rd_coverage)) records) as Hcr.
    apply Permutation_length in Hcr. rewrite length_app in Hcr.
    assert (length (filter (λ r, covers_cdf53 r.(rd_coverage)) records)
      = length (filter (λ z : Z * Z * Recorded, z.1 = (x, y) ∧ covers_cdf53 z.2.(rd_coverage)) recs)) as Hsame.
    { rewrite Hxy, list_filter_fmap, length_fmap, list_filter_filter.
      f_equal. apply list_filter_iff. intros z. tauto. }
    unfold sub_usize. rewrite (proj2 (Nat.leb_le _ _)) by lia. rewrite bind_Ok.
    rewrite (proj2 (Nat.leb_le _ _)) by lia. rewrite bind_Ok.
    set (m1 := mkCoverageMap _ _ _ _ _).
    destruct (compact_covers m1 (filter P recs)) as (Hm2 & Hc2 & Hl2 & Ho2).
    { split; [|eapply queued_sublist; [apply sublist_filter|done]].
      apply stored_filter; [done|lia| |by apply set_tile_nonempty].
      intros t. rewrite set_tile_lookup, list_filter_filter. case_decide as E; subst.
      - rewrite Hxy, list_filter_fmap, list_filter_filter. apply fmap_Permutation, Permutation_refl'.
        apply list_filter_iff. intros z. unfold P. tauto.
      - rewrite Ht. apply fmap_Permutation, Permutation_refl', list_filter_iff. intros z. unfold P.
        split; [|tauto]. intros Hz. split; [done|]. rewrite Hz. tauto. }
    eexists. split; [done|]. split; [|by rewrite Hc2]. eexists. split; [exact Hm2|].
    rewrite Hl2, Hc2. cbn [m1 fm_len fm_capacity]. split_and!; [done|exact Ho2|lia].
  - eexists. split; [done|]. split; [|done]. exists recs. split_and!; [done| |done|done].
    f_equal. apply filter_every, Forall_forall. intros z Hz [E _].
    assert (z.2 ∈ (filter (λ z, z.1 = (x, y)) recs).*2) as Hin.
    { apply list_elem_of_fmap_2. by apply list_elem_of_filter. }
    rewrite <-Hxy in Hin. by apply elem_of_nil in Hin.
Qed.

Lemma unbundle_ok m live x y : cov_ok m live →
  cov_ok (unbundle_palrle_for_tile m x y) (spec_unbundle live (x, y))
  ∧ fm_capacity (unbundle_palrle_for_tile m x y) = fm_capacity m.
Proof.
  intros (recs & Hc & -> & Hsl & Hcap).
  set (g := λ z : Z * Z * Recorded, if decide (z.1 = (x, y))
     then (z.1, mkRecorded (rd_frame_seq z.2) (rd_pass_idx z.2) (rd_stamp z.2) (unbundle <$> rd_coverage z.2)) else z).
  assert (spec_unbundle (entry_of <$> recs) (x, y) = entry_of <$> (g <$> recs)) as ->.
  { unfold spec_unbundle. rewrite <-!list_fmap_compose. apply list_fmap_ext. intros j z _. unfold g. cbn. by case_decide. }
  assert (∀ z, (g z).1 = z.1 ∧ tag_of (g z) = tag_of z) as Hg.
  { intros z. unfold g. case_decide; by destruct z. }
  unfold unbundle_palrle_for_tile. destruct (fm_tiles m !! (x, y)) as [records|] eqn:Et.
  - split; [|done]. exists (g <$> recs). split_and!; [|done|done|done]. apply covers_map; [done|done| |].
    + intros t. apply Permutation_refl'. destruct (decide (t = (x, y))) as [->|Hne].
      * rewrite lookup_insert_eq, Et, !default_Some_eq. apply list_fmap_ext. intros j r _. unfold g. cbn.
        by rewrite decide_True.
      * rewrite lookup_insert_ne by done. symmetry. etrans; [|apply list_fmap_id]. apply list_fmap_ext.
        intros j r _. unfold g. cbn. by rewrite decide_False.
    + intros t l. rewrite lookup_insert_Some. intros [[_ <-]|[_ H]]; [|by eapply (cv_nonempty _ _ (proj1 Hc))].
      intros E. apply fmap_nil_inv in E. by eapply (cv_nonempty _ _ (proj1 Hc)).
  - split; [|done]. exists (g <$> recs). split_and!; [|done|done|done].
    cut (covers (mkCoverageMap m.(fm_capacity) m.(fm_len) m.(fm_next_stamp) m.(fm_order) m.(fm_tiles)) (g <$> recs)).
    { by destruct m. }
    apply covers_map; [done|done| |].
    + intros t. apply Permutation_refl'. symmetry. destruct (decide (t = (x, y))) as [->|Hne].
      * cbn in *. by rewrite Et.
      * etrans; [|apply list_fmap_id]. apply list_fmap_ext. intros j r _. unfold g. cbn. by rewrite decide_False.
    + apply (cv_nonempty _ _ (proj1 Hc)).
Qed.

Lemma cov_step_ok m live op : cov_ok m live →
  ∃ m', cov_step m op = Ok (m', (spec_cov_step m.(fm_capacity) live op).2)
    ∧ cov_ok m' (spec_cov_step m.(fm_capacity) live op).1 ∧ fm_capacity m' = fm_capacity m.
Proof.
  intros H. destruct op as [key c|key|x y|x y]; cbn [cov_step spec_cov_step fst snd].
  - destruct (record_ok m live key c H) as (m' & -> & ?). rewrite bind_Ok. eauto.
  - destruct (take_ok m live key H) as (m' & -> & ?). rewrite bind_Ok. eauto.
  - destruct (drop_ok m live x y H) as (m' & -> & ?). rewrite bind_Ok. eauto.
  - eexists. split; [done|]. by apply unbundle_ok.
Qed.

Lemma cov_run_ok ops : ∀ m live, cov_ok m live →
  ∃ m', cov_run m ops = Ok (m', (spec_cov_run m.(fm_capacity) live ops).2)
    ∧ cov_ok m' (spec_cov_run m.(fm_capacity) live ops).1 ∧ fm_capacity m' = fm_capacity m.
Proof.
  induction ops as [|op ops IH]; intros m live H; cbn [cov_run spec_cov_run]; [by exists m|].
  destruct (cov_step_ok m live op H) as (m1 & -> & H1 & E1). rewrite bind_Ok.
  destruct (spec_cov_step _ live op) as [live1 a]. cbn [fst snd] in *.
  destruct (IH m1 live1 H1) as (m2 & -> & H2 & E2). rewrite bind_Ok, E1 in *.
  destruct (spec_cov_run _ live1 ops) as [live2 b]. cbn in *. eexists. split_and!; [done|done|congruence].
Qed.

(** Every sequence of records, acknowledgements and supersessions gives the answers
    of a plain list of at most [capacity] keys, oldest first: an acknowledgement
    finds exactly what its emission covered unless [capacity] newer emissions
    displaced it, a tile's wavelet passes are dropped together, its palette passes
    stop holding palettes.  No operation panics, and the lazily cleaned queue stays
    within twice the live records plus 64. *)
Theorem coverage_map_refines_list capacity ops :
  (0 < capacity)%nat →
  let '(live, answers) := spec_cov_run capacity [] ops in
  ∃ m0 m, coverage_map_new capacity = Ok m0 ∧ cov_run m0 ops = Ok (m, answers)
    ∧ m.(fm_len) = length live ∧ (length live ≤ capacity)%nat
    ∧ (length m.(fm_order) ≤ 2 * length live + 64)%nat
    ∧ (∀ key, ∃ m', fm_take m key = Ok (m', spec_find live key)).
Proof.
  intros Hcap. unfold coverage_map_new, assert_. rewrite (proj2 (Nat.ltb_lt _ _) Hcap), bind_Ok.
  set (m0 := mkCoverageMap capacity 0 0 [] ∅).
  destruct (cov_run_ok ops m0 []) as (m & Hrun & Hok & Hc).
  { exists []. split_and!; cbn; [|done|lia|lia]. split; split; cbn; try by constructor.
    intros t. by rewrite lookup_empty. }
  cbn [m0 fm_capacity] in *. destruct (spec_cov_run capacity [] ops) as [live answers]. cbn in *.
  exists m0, m. split; [done|]. split; [done|]. pose proof Hok as (recs & Hm & -> & Hsl & Hle).
  pose proof (cv_len _ _ (proj1 Hm)) as Hlen. rewrite length_fmap. split_and!; [done|lia|lia|].
  intros key. destruct (take_ok m _ key Hok) as (m' & ? & _). eauto.
Qed.

Definition sample_coverage (codec : Codec) : CoverageList :=
  [mkFragmentCoverage 1 1 0 0 codec None true true].
Definition sample_cov_ops : list cov_op :=
  [CRecord (1, (1, 1), 0) (sample_coverage CCdf53); CRecord (1, (2, 2), 0) (sample_coverage CPalRle);
   CRecord (1, (3, 3), 0) (sample_coverage CSolid); CTake (1, (1, 1), 0);
   CUnbundle 2 2; CTake (1, (2, 2), 0); CDrop 3 3; CTake (1, (3, 3), 0)].

Lemma coverage_map_refines_list_witness :
  ∃ m0 m, coverage_map_new 2 = Ok m0
    ∧ cov_run m0 sample_cov_ops = Ok (m, [None; Some [mkFragmentCoverage 1 1 0 0 CPalRle None false false];
                                          Some (sample_coverage CSolid)]).
Proof.
  destruct (coverage_map_refines_list 2 sample_cov_ops ltac:(lia)) as (m0 & m & H0 & H & _).
  exists m0, m. split; [exact H0|exact H].
Defined.
