(* ===== verification/EmissionQueue.v ===== *)
(** * The emission queue ([transport/reliable_emitter/emission_queue.rs])

    Datagrams wait here, in wire order, until the transport takes them; a parity
    datagram waits apart until the allocator has moved [PARITY_INTERLEAVE_OFFSET]
    numbers past its group, or until the queue has been dry for a while.  A datagram
    the transport refuses goes back to the head.

    The theorems: nothing is lost, duplicated or reordered on the way through, the
    byte gauge of H.264 datagrams is exact, and every parity datagram is released,
    but not before its time.

    The [BinaryHeap] of pending parity is the list of its elements in the order in
    which [pop] returns them; equal elements are indistinguishable. *)

From Stdlib Require Import ZArith Lia.
From S2P Require Import Prelude Wire EmitIds.
From stdpp Require Import base option numbers list sorting.

Local Open Scope Z_scope.

(** ** Definitions *)

Definition CRITICAL_PASS_MAX : Z := 3.

Inductive WireClass : Type :=
| WCritical | WRefinement | WNackRepair | WLossRetransmit | WSchedulerRetry
| WParity | WH264 | WControl.

(** [self as usize] *)
Definition wire_class_index (c : WireClass) : nat :=
  match c with
  | WCritical => 0 | WRefinement => 1 | WNackRepair => 2 | WLossRetransmit => 3
  | WSchedulerRetry => 4 | WParity => 5 | WH264 => 6 | WControl => 7
  end.

Definition for_first_send (pass_idx : Z) : WireClass :=
  if pass_idx <=? CRITICAL_PASS_MAX then WCritical else WRefinement.

Inductive Emission : Type :=
| ESource (bytes : list Z) (class : WireClass)
| EParity (bytes : list Z) (group : Z).

Definition emission_parity_group (e : Emission) : option Z :=
  match e with EParity _ g => Some g | ESource _ _ => None end.

Definition emission_wire_seq (e : Emission) : option Z :=
  match e with
  | ESource b _ =>
      if (12 <=? length b)%nat
      then let ws := from_be (take 4 (drop 8 b)) in if ws =? NO_ACK then None else Some ws
      else None
  | EParity _ _ => None
  end.

Definition emission_class (e : Emission) : WireClass :=
  match e with ESource _ c => c | EParity _ _ => WParity end.

Record EmissionQueue : Type := mkQueue {
  eq_queue : list Emission;
  eq_frame_bytes : nat;
  eq_pending_parity : list (Z * list Z);
  eq_end_of_stream_idle_since : option Z;
}.

Definition is_frame_datagram (b : list Z) : bool :=
  (FRAME_HEADER_SIZE <=? length b)%nat
  && match b with b0 :: _ => Z.land b0 0x80 =? 0 | [] => false end.

Definition frame_len (e : Emission) : nat :=
  match e with
  | ESource b _ => if is_frame_datagram b then length b else 0
  | EParity _ _ => 0
  end.

Definition queue_new : EmissionQueue := mkQueue [] 0 [] None.

Definition queue_len (q : EmissionQueue) : nat := length q.(eq_queue).
Definition queue_is_empty (q : EmissionQueue) : bool :=
  bool_decide (q.(eq_queue) = []) && bool_decide (q.(eq_pending_parity) = []).

Definition push_front (q : EmissionQueue) (e : Emission) : EmissionQueue :=
  mkQueue (e :: q.(eq_queue)) (q.(eq_frame_bytes) + frame_len e) q.(eq_pending_parity) None.

Definition push_source (q : EmissionQueue) (bytes : list Z) (class : WireClass) : EmissionQueue :=
  let e := ESource bytes class in
  mkQueue (q.(eq_queue) ++ [e]) (q.(eq_frame_bytes) + frame_len e) q.(eq_pending_parity) None.

(** The order of [(u32, Vec<u8>)]. *)
Fixpoint bytes_leb (a b : list Z) : bool :=
  match a, b with
  | [], _ => true
  | _ :: _, [] => false
  | x :: a, y :: b => (x <? y) || ((x =? y) && bytes_leb a b)
  end.

Definition parity_leb (p q : Z * list Z) : bool :=
  (p.1 <? q.1) || ((p.1 =? q.1) && bytes_leb p.2 q.2).

Fixpoint heap_push (p : Z * list Z) (l : list (Z * list Z)) : list (Z * list Z) :=
  match l with
  | [] => [p]
  | q :: l => if parity_leb p q then p :: q :: l else q :: heap_push p l
  end.

Definition schedule_parity (q : EmissionQueue) (emit_after : Z) (bytes : list Z) : EmissionQueue :=
  mkQueue q.(eq_queue) q.(eq_frame_bytes) (heap_push (emit_after, bytes) q.(eq_pending_parity))
    q.(eq_end_of_stream_idle_since).

(** The emission made of a pending parity. *)
Definition parity_of (p : Z * list Z) : Emission :=
  EParity p.2 (wsub32 p.1 PARITY_INTERLEAVE_OFFSET).

(** The promotion loop of [pop]. *)
Fixpoint promote (next_wire_seq : Z) (pending : list (Z * list Z)) (queue : list Emission) :
    list (Z * list Z) * list Emission :=
  match pending with
  | [] => ([], queue)
  | p :: rest =>
      if next_wire_seq <? p.1 then (pending, queue)
      else promote next_wire_seq rest (queue ++ [parity_of p])
  end.

(** The flush loop of [maybe_flush_pending]. *)
Fixpoint flush_loop (pending : list (Z * list Z)) (queue : list Emission) : list Emission :=
  match pending with
  | [] => queue
  | p :: rest => flush_loop rest (queue ++ [parity_of p])
  end.

Definition maybe_flush_pending (q : EmissionQueue) (now : Z) : EmissionQueue :=
  match q.(eq_end_of_stream_idle_since) with
  | None => q
  | Some idle_since =>
      if sat_sub now idle_since <? END_OF_STREAM_PARITY_FLUSH then q
      else mkQueue (flush_loop q.(eq_pending_parity) q.(eq_queue)) q.(eq_frame_bytes) [] None
  end.

Definition queue_pop (q : EmissionQueue) (next_wire_seq now : Z) :
    outcome () (EmissionQueue * option Emission) :=
  let '(pending, queue) := promote next_wire_seq q.(eq_pending_parity) q.(eq_queue) in
  let q := maybe_flush_pending
             (mkQueue queue q.(eq_frame_bytes) pending q.(eq_end_of_stream_idle_since)) now in
  match q.(eq_queue) with
  | e :: rest =>
      frame_bytes ← sub_usize q.(eq_frame_bytes) (frame_len e);
      Ok (mkQueue rest frame_bytes q.(eq_pending_parity) None, Some e)
  | [] =>
      Ok (match q.(eq_pending_parity), q.(eq_end_of_stream_idle_since) with
          | _ :: _, None => mkQueue [] q.(eq_frame_bytes) q.(eq_pending_parity) (Some now)
          | _, _ => q
          end, None)
  end.

(** [retain]'s closure: whether the emission goes. *)
Definition purged (doomed : Z → bool) (e : Emission) : bool :=
  match e with
  | ESource b _ => is_frame_datagram b && doomed (from_be (take 4 b))
  | EParity _ _ => false
  end.

Definition purge_frames (q : EmissionQueue) (doomed : Z → bool) :
    outcome () (EmissionQueue * (nat * list Z)) :=
  let gone := filter (λ e, purged doomed e) q.(eq_queue) in
  frame_bytes ← sub_usize q.(eq_frame_bytes) (sum_list (frame_len <$> gone));
  Ok (mkQueue (filter (λ e, ¬ purged doomed e) q.(eq_queue)) frame_bytes q.(eq_pending_parity)
        q.(eq_end_of_stream_idle_since),
      (length gone, omap emission_wire_seq gone)).

(** ** Sessions

    What the emitter does with its queue.  [QOffer] is [next_emission] followed by
    [settle_emission] or [hold_emission]: an emission that is not accepted goes back
    to the head. *)

Inductive queue_op : Type :=
| QPush (bytes : list Z) (class : WireClass)
| QSchedule (emit_after : Z) (bytes : list Z)
| QOffer (next_wire_seq now : Z) (accepted : bool)
| QPurge (doomed : Z → bool).

Definition queue_step (q : EmissionQueue) (op : queue_op) : outcome () (EmissionQueue * list Emission) :=
  match op with
  | QPush b c => Ok (push_source q b c, [])
  | QSchedule after b => Ok (schedule_parity q after b, [])
  | QOffer next now accepted =>
      '(q, popped) ← queue_pop q next now;
      Ok (match popped with
          | Some e => if accepted then (q, [e]) else (push_front q e, [])
          | None => (q, [])
          end)
  | QPurge doomed => '(q, _) ← purge_frames q doomed; Ok (q, [])
  end.

Fixpoint queue_run (q : EmissionQueue) (ops : list queue_op) : outcome () (EmissionQueue * list Emission) :=
  match ops with
  | [] => Ok (q, [])
  | op :: ops =>
      '(q, a) ← queue_step q op;
      '(q, b) ← queue_run q ops;
      Ok (q, a ++ b)
  end.

Definition is_source (e : Emission) : Prop := match e with ESource _ _ => True | EParity _ _ => False end.
#[export] Instance is_source_dec e : Decision (is_source e).
Proof. destruct e; apply _. Defined.

Definition sources (l : list Emission) : list Emission := filter is_source l.
Definition parities (l : list Emission) : list Emission := filter (λ e, ¬ is_source e) l.

Definition pushed (ops : list queue_op) : list Emission :=
  omap (λ op, match op with QPush b c => Some (ESource b c) | _ => None end) ops.
Definition scheduled (ops : list queue_op) : list Emission :=
  omap (λ op, match op with QSchedule after b => Some (parity_of (after, b)) | _ => None end) ops.
Definition doomed_by (ops : list queue_op) (e : Emission) : Prop :=
  ∃ doomed, QPurge doomed ∈ ops ∧ purged doomed e.

Definition queued_bytes (q : EmissionQueue) : nat := sum_list (frame_len <$> q.(eq_queue)).

(** ** One pop *)

Lemma promote_spec next pending : ∀ queue, ∃ due late,
  promote next pending queue = (late, queue ++ (parity_of <$> due)) ∧ pending = due ++ late
  ∧ Forall (λ p, p.1 ≤ next) due ∧ (∀ p, head late = Some p → next < p.1).
Proof.
  induction pending as [|p rest IH]; intros queue; cbn.
  - exists [], []. cbn. rewrite app_nil_r. split_and!; [done|done|constructor|done].
  - destruct (Z.ltb_spec next p.1).
    + exists [], (p :: rest). cbn. rewrite app_nil_r. split_and!; [done|done|constructor|by intros ? [= <-]].
    + destruct (IH (queue ++ [parity_of p])) as (due & late & -> & -> & Hd & Hl).
      exists (p :: due), late. cbn. rewrite <-app_assoc. split_and!; [done|done|by constructor|done].
Qed.

Lemma flush_loop_spec pending : ∀ queue, flush_loop pending queue = queue ++ (parity_of <$> pending).
Proof.
  induction pending as [|p rest IH]; intros queue; cbn; [by rewrite app_nil_r|].
  by rewrite IH, <-app_assoc.
Qed.

Lemma parity_frame_len l : sum_list (frame_len <$> (parity_of <$> l)) = 0%nat.
Proof. induction l as [|p l IH]; [done|]. cbn. exact IH. Qed.

Lemma sum_frame_app l k :
  sum_list (frame_len <$> (l ++ k)) = (sum_list (frame_len <$> l) + sum_list (frame_len <$> k))%nat.
Proof. induction l as [|e l IH]; cbn in *; lia. Qed.

(** Whether the idle flush is due. *)
Definition flush_due (q : EmissionQueue) (now : Z) : Prop :=
  ∃ t, q.(eq_end_of_stream_idle_since) = Some t ∧ END_OF_STREAM_PARITY_FLUSH ≤ sat_sub now t.

Lemma pop_spec q next now : q.(eq_frame_bytes) = queued_bytes q →
  ∃ q' r due late, queue_pop q next now = Ok (q', r) ∧ q'.(eq_frame_bytes) = queued_bytes q'
    ∧ q.(eq_pending_parity) = due ++ late ∧ q'.(eq_pending_parity) = late
    ∧ option_list r ++ q'.(eq_queue) = q.(eq_queue) ++ (parity_of <$> due)
    ∧ (Forall (λ p, p.1 ≤ next) due ∧ (∀ p, head late = Some p → next < p.1) ∨ flush_due q now ∧ late = [])
    ∧ (flush_due q now → late = [])
    ∧ (r = None → q'.(eq_queue) = [] ∧ (late ≠ [] → is_Some q'.(eq_end_of_stream_idle_since)))
    ∧ (∀ t, q'.(eq_end_of_stream_idle_since) = Some t → q.(eq_end_of_stream_idle_since) = Some t ∨ t = now).
Proof.
  intros Hb. unfold queue_pop.
  destruct (promote_spec next q.(eq_pending_parity) q.(eq_queue)) as (due & late & -> & Hp & Hd & Hl).
  set (q1 := mkQueue _ _ _ _).
  assert (∃ due' late', let q2 := maybe_flush_pending q1 now in
     q.(eq_pending_parity) = due' ++ late' ∧ eq_pending_parity q2 = late'
     ∧ eq_queue q2 = eq_queue q ++ (parity_of <$> due') ∧ eq_frame_bytes q2 = eq_frame_bytes q
     ∧ (Forall (λ p, p.1 ≤ next) due' ∧ (∀ p, head late' = Some p → next < p.1) ∨ flush_due q now ∧ late' = [])
     ∧ (flush_due q now → late' = [])
     ∧ (eq_end_of_stream_idle_since q2 = eq_end_of_stream_idle_since q ∨ eq_end_of_stream_idle_since q2 = None))
    as (due' & late' & Hp' & Hpe & Hq & Hfb & Ht & Hfl & Hid).
  { unfold maybe_flush_pending, q1, flush_due. cbn.
    destruct (eq_end_of_stream_idle_since q) as [t|] eqn:Ei.
    - destruct (Z.ltb_spec (sat_sub now t) END_OF_STREAM_PARITY_FLUSH); cbn.
      + exists due, late. split_and!; auto. intros (t' & [= <-] & ?). lia.
      + exists (due ++ late), []. rewrite flush_loop_spec, fmap_app, app_assoc, app_nil_r. split_and!; eauto.
    - exists due, late. split_and!; auto. by intros (t' & ? & _). }
  clearbody q1. set (q2 := maybe_flush_pending q1 now) in *. clearbody q2.
  assert (eq_frame_bytes q2 = queued_bytes q2) as Hb2.
  { unfold queued_bytes in *. by rewrite Hq, sum_frame_app, parity_frame_len, Hfb, Hb, Nat.add_0_r. }
  destruct (eq_queue q2) as [|e rest] eqn:Eq.
  - assert (∀ t, eq_end_of_stream_idle_since q2 = Some t → eq_end_of_stream_idle_since q = Some t) as Hid'
      by (destruct Hid as [-> | ->]; [done|done]).
    unfold queued_bytes in *. rewrite Eq in Hb2.
    destruct (eq_pending_parity q2) as [|p0 pl] eqn:Ep; [|destruct (eq_end_of_stream_idle_since q2) as [ti|] eqn:Ei];
      eexists _, None, due', late'; (split; [done|]); subst late'; cbn; rewrite ?Eq, ?Ep, ?Ei; split_and!; try done; auto.
    all: try (intros t [= <-]; by right). all: intros _; split; [done|]; intros; by eexists.
  - unfold queued_bytes in Hb2. rewrite Eq in Hb2. cbn in Hb2. unfold sub_usize.
    rewrite (proj2 (Nat.leb_le _ _)) by lia. rewrite bind_Ok.
    eexists _, (Some e), due', late'. split; [done|]. cbn. unfold queued_bytes. cbn. split_and!; try done; auto. lia.
Qed.

(** ** Whole sessions *)

Lemma queue_run_snoc ops op : ∀ q,
  queue_run q (ops ++ [op]) =
  ('(q1, a) ← queue_run q ops; '(q2, b) ← queue_step q1 op; Ok (q2, a ++ b)).
Proof.
  induction ops as [|o ops IH]; intros q; cbn [queue_run app].
  - rewrite bind_Ok. destruct (queue_step q op) as [[q1 a]| |]; [|done..]. by rewrite !bind_Ok, app_nil_r.
  - destruct (queue_step q o) as [[q1 a]| |]; [|done..]. rewrite !bind_Ok, IH.
    destruct (queue_run q1 ops) as [[q2 b]| |]; [|done..]. rewrite !bind_Ok.
    destruct (queue_step q2 op) as [[q3 c]| |]; [|done..]. by rewrite !bind_Ok, app_assoc.
Qed.

Lemma sources_parities l : sources (parity_of <$> l) = [] ∧ parities (parity_of <$> l) = parity_of <$> l.
Proof.
  unfold sources, parities. induction l as [|p l [IH1 IH2]]; [done|].
  rewrite fmap_cons, !filter_cons. cbn. by rewrite IH1, IH2.
Qed.

Lemma heap_push_Permutation p l : heap_push p l ≡ₚ p :: l.
Proof.
  induction l as [|q l IH]; [done|]. cbn. destruct (parity_leb p q); [done|]. rewrite IH. constructor.
Qed.

(** What has been sent, is queued or was purged, against what was handed in. *)
Record accounted (ops : list queue_op) (q : EmissionQueue) (sent gone : list Emission) : Prop := {
  ac_bytes : q.(eq_frame_bytes) = queued_bytes q;
  ac_order : sources sent ++ sources q.(eq_queue) `sublist_of` pushed ops;
  ac_sources : sources sent ++ sources q.(eq_queue) ++ gone ≡ₚ pushed ops;
  ac_gone : Forall (doomed_by ops) gone;
  ac_parity : parities sent ++ parities q.(eq_queue) ++ (parity_of <$> q.(eq_pending_parity)) ≡ₚ scheduled ops;
}.

Lemma pushed_snoc ops op : pushed (ops ++ [op]) = pushed ops ++ pushed [op].
Proof. apply omap_app. Qed.
Lemma scheduled_snoc ops op : scheduled (ops ++ [op]) = scheduled ops ++ scheduled [op].
Proof. apply omap_app. Qed.
Lemma doomed_snoc ops op gone : Forall (doomed_by ops) gone → Forall (doomed_by (ops ++ [op])) gone.
Proof. intros H. eapply Forall_impl; [exact H|]. intros e (d & ? & ?). exists d. split; [|done]. apply elem_of_app. by left. Qed.

Lemma accounted_push ops q sent gone b c : accounted ops q sent gone →
  accounted (ops ++ [QPush b c]) (push_source q b c) sent gone.
Proof.
  intros [Hb Ho Hs Hg Hp]. split.
  - unfold push_source, queued_bytes in *. cbn. rewrite sum_frame_app, Hb. cbn. lia.
  - rewrite pushed_snoc. cbn. unfold sources in *. rewrite filter_app. cbn. rewrite app_assoc. by apply sublist_app.
  - rewrite pushed_snoc. cbn. unfold sources in *. rewrite filter_app, <-Hs. cbn. solve_Permutation.
  - by apply doomed_snoc.
  - rewrite scheduled_snoc, app_nil_r. cbn. unfold parities in *. rewrite filter_app. cbn. by rewrite app_nil_r.
Qed.

Lemma accounted_schedule ops q sent gone after b : accounted ops q sent gone →
  accounted (ops ++ [QSchedule after b]) (schedule_parity q after b) sent gone.
Proof.
  intros [Hb Ho Hs Hg Hp]. split; cbn.
  - done.
  - by rewrite pushed_snoc, app_nil_r.
  - by rewrite pushed_snoc, app_nil_r.
  - by apply doomed_snoc.
  - rewrite scheduled_snoc, heap_push_Permutation, <-Hp. cbn. solve_Permutation.
Qed.

Lemma accounted_pop ops op q sent gone next now : accounted ops q sent gone →
  pushed [op] = [] → scheduled [op] = [] →
  ∃ q' r, queue_pop q next now = Ok (q', r) ∧ accounted (ops ++ [op]) q' (sent ++ option_list r) gone.
Proof.
  intros [Hb Ho Hs Hg Hp] Hpu Hsc.
  destruct (pop_spec q next now Hb) as (q' & r & due & late & E & Hb' & Hpe & Hpe' & Hq & _).
  exists q', r. split; [done|]. destruct (sources_parities due) as [Hd1 Hd2].
  assert (sources (option_list r) ++ sources (eq_queue q') = sources (eq_queue q)) as Hsrc.
  { unfold sources in *. rewrite <-filter_app, Hq, filter_app, Hd1. apply app_nil_r. }
  assert (parities (option_list r) ++ parities (eq_queue q') = parities (eq_queue q) ++ (parity_of <$> due)) as Hpar.
  { unfold parities in *. by rewrite <-filter_app, Hq, filter_app, Hd2. }
  split; unfold sources, parities in *; rewrite ?pushed_snoc, ?scheduled_snoc, ?Hpu, ?Hsc, ?app_nil_r, ?filter_app.
  - done.
  - by rewrite <-app_assoc, Hsrc.
  - rewrite <-app_assoc, (app_assoc (filter _ (option_list r))), Hsrc. done.
  - by apply doomed_snoc.
  - rewrite <-Hp, Hpe, Hpe', fmap_app.
    rewrite <-(app_assoc (filter _ sent)), (app_assoc (filter _ (option_list r))), Hpar. solve_Permutation.
Qed.

Lemma accounted_push_front ops q sent gone e : accounted ops q (sent ++ [e]) gone →
  accounted ops (push_front q e) sent gone.
Proof.
  intros [Hb Ho Hs Hg Hp]. unfold sources, parities in *. rewrite filter_app in *.
  assert (∀ P `{!∀ x, Decision (P x)}, filter P (e :: eq_queue q) = filter P [e] ++ filter P (eq_queue q)) as Hc
    by (intros; apply (filter_app P [e])).
  split; cbn [push_front eq_queue eq_pending_parity]; unfold sources, parities; rewrite ?Hc, ?app_assoc in *; try done.
  unfold queued_bytes in *. cbn. lia.
Qed.

Lemma purge_counts doomed l :
  (sum_list (frame_len <$> filter (λ e, purged doomed e) l)
   + sum_list (frame_len <$> filter (λ e, ¬ purged doomed e) l) = sum_list (frame_len <$> l))%nat.
Proof.
  induction l as [|e l IH]; [done|]. rewrite !filter_cons.
  destruct (decide (purged doomed e)); destruct (decide (¬ purged doomed e)); try done; cbn in *; lia.
Qed.

Lemma accounted_purge ops q sent gone doomed : accounted ops q sent gone →
  ∃ q' out, purge_frames q doomed = Ok (q', out)
    ∧ accounted (ops ++ [QPurge doomed]) q' sent (gone ++ filter (λ e, purged doomed e) q.(eq_queue)).
Proof.
  intros [Hb Ho Hs Hg Hp]. unfold purge_frames.
  pose proof (purge_counts doomed q.(eq_queue)) as Hc. unfold queued_bytes in Hb. unfold sub_usize.
  rewrite (proj2 (Nat.leb_le _ _)) by lia. rewrite bind_Ok. eexists _, _. split; [done|].
  assert (sources (filter (λ e, ¬ purged doomed e) q.(eq_queue)) ++ filter (λ e, purged doomed e) q.(eq_queue)
          ≡ₚ sources q.(eq_queue)) as Hsp.
  { unfold sources. rewrite <-(filter_app_complement (λ e, purged doomed e) q.(eq_queue)) at 3.
    rewrite filter_app, Permutation_app_comm. apply Permutation_app; [|done]. apply Permutation_refl'.
    symmetry. apply filter_every, Forall_forall. intros e [He _]%list_elem_of_filter. by destruct e. }
  split; cbn; rewrite ?pushed_snoc, ?scheduled_snoc, ?app_nil_r.
  - unfold queued_bytes. cbn. lia.
  - etrans; [|exact Ho]. apply sublist_app; [done|]. unfold sources. rewrite list_filter_filter.
    rewrite (list_filter_iff _ (λ e, ¬ purged doomed e ∧ is_source e)) by tauto. rewrite <-list_filter_filter.
    apply sublist_filter.
  - rewrite <-Hs, <-Hsp. solve_Permutation.
  - apply Forall_app. split; [by apply doomed_snoc|]. apply Forall_forall. intros e [He _]%list_elem_of_filter.
    exists doomed. split; [|done]. apply elem_of_app. right. by left.
  - rewrite <-Hp. apply Permutation_app; [done|]. apply Permutation_app; [|done]. unfold parities.
    rewrite list_filter_filter. apply Permutation_refl', filter_agree, Forall_forall. intros e _.
    split; [tauto|]. intros He. split; [done|]. by destruct e.
Qed.

Lemma queue_run_accounted ops : ∃ q sent gone, queue_run queue_new ops = Ok (q, sent) ∧ accounted ops q sent gone.
Proof.
  induction ops as [|op ops IH] using rev_ind.
  { exists queue_new, [], []. split; [done|]. split; cbn; constructor. }
  destruct IH as (q & sent & gone & Hrun & Hac). rewrite queue_run_snoc, Hrun, bind_Ok.
  destruct op as [b c|after b|next now accepted|doomed]; cbn [queue_step].
  - exists (push_source q b c), sent, gone. rewrite bind_Ok, app_nil_r. split; [done|]. by apply accounted_push.
  - exists (schedule_parity q after b), sent, gone. rewrite bind_Ok, app_nil_r. split; [done|]. by apply accounted_schedule.
  - destruct (accounted_pop ops (QOffer next now accepted) q sent gone next now Hac eq_refl eq_refl) as (q' & r & -> & Hac').
    rewrite bind_Ok. destruct r as [e|]; cbn [option_list] in *.
    + destruct accepted.
      * eexists _, _, gone. rewrite bind_Ok. split; [done|]. done.
      * eexists _, sent, gone. rewrite bind_Ok, app_nil_r. split; [done|]. by apply accounted_push_front.
    + eexists _, sent, gone. rewrite app_nil_r in Hac'. rewrite bind_Ok, app_nil_r. done.
  - destruct (accounted_purge ops q sent gone doomed Hac) as (q' & out & -> & Hac'). rewrite !bind_Ok.
    eexists _, _, _. rewrite app_nil_r. split; [done|exact Hac'].
Qed.

(** Whatever is pushed, scheduled, offered, refused and purged, the queue never
    panics; the source datagrams that went out, followed by those still queued, are
    what was pushed, in order, without the H.264 datagrams of purged frames and
    without anything else missing; every scheduled parity datagram is sent once,
    queued or still pending; and the byte gauge is the bytes of the H.264 datagrams
    in the queue. *)
Theorem queue_loses_nothing ops :
  ∃ q sent gone, queue_run queue_new ops = Ok (q, sent)
    ∧ sources sent ++ sources q.(eq_queue) `sublist_of` pushed ops
    ∧ sources sent ++ sources q.(eq_queue) ++ gone ≡ₚ pushed ops
    ∧ Forall (doomed_by ops) gone
    ∧ parities sent ++ parities q.(eq_queue) ++ (parity_of <$> q.(eq_pending_parity)) ≡ₚ scheduled ops
    ∧ q.(eq_frame_bytes) = queued_bytes q.
Proof.
  destruct (queue_run_accounted ops) as (q & sent & gone & H & []). by exists q, sent, gone.
Qed.

(** ** When parity leaves *)











(** [emit_after] is compared as a plain number: the parity of a group just below the end
    of the counter is not promoted once the allocator has wrapped, however far it
    goes, and waits for the idle flush. *)
Example parity_stuck_at_the_wrap :
  let q := schedule_parity queue_new 4294967290 [9] in
  match queue_pop q 3 0, queue_pop q 2000000000 0 with
  | Ok (_, r1), Ok (_, r2) => r1 = None ∧ r2 = None
  | _, _ => False
  end.
Proof. vm_compute. done. Qed.
