(* ===== verification/Rtt.v ===== *)
(** * Round-trip estimation and the probe timeout

    Models [transport/rtt_estimator.rs] (RFC 9002 section 5.3 and 6.2) and
    [transport/reliable_emitter/pto.rs].  A [Duration] is a number of nanoseconds;
    dividing one truncates.  [Duration] arithmetic panics past 2^64 seconds; the
    bounds proved here keep every intermediate value within eight times the largest
    sample. *)

From Stdlib Require Import ZArith Lia.
From S2P Require Import Prelude.
From stdpp Require Import base option numbers list.

Local Open Scope Z_scope.

(** ** Definitions *)

Definition MILLI : Z := 1000000.
Definition MAX_ACK_DELAY : Z := 5 * MILLI.
Definition GRANULARITY : Z := 1 * MILLI.
Definition INITIAL_RTT : Z := 333 * MILLI.
Definition MAX_BACKOFF_EXP : Z := 16.
Definition RTO_BACKOFF_MAX : Z := 5000 * MILLI.
Definition DURATION_MAX : Z := 2 ^ 64 * 1000000000 - 1.

Record RttEstimator : Type := mkRtt {
  re_min_rtt : option Z; re_srtt : Z; re_rttvar : Z; re_latest_rtt : Z;
  re_sampled : bool; re_samples : Z; re_max_ack_delay : Z;
  re_pto_count : Z; re_next_count_at : option Z;
}.

Definition rtt_new : RttEstimator :=
  mkRtt None INITIAL_RTT (INITIAL_RTT / 2) 0 false 0 MAX_ACK_DELAY 0 None.

Definition on_ack (e : RttEstimator) : RttEstimator :=
  mkRtt e.(re_min_rtt) e.(re_srtt) e.(re_rttvar) e.(re_latest_rtt) e.(re_sampled) e.(re_samples)
    e.(re_max_ack_delay) 0 None.

Definition on_sample (e : RttEstimator) (rtt : Z) : RttEstimator :=
  let min_rtt := Some (match e.(re_min_rtt) with None => rtt | Some m => Z.min m rtt end) in
  let '(srtt, rttvar) :=
    if e.(re_sampled)
    then let dev := Z.abs (e.(re_srtt) - rtt) in
         ((e.(re_srtt) * 7 + rtt) / 8, (e.(re_rttvar) * 3 + dev) / 4)
    else (rtt, rtt / 2) in
  on_ack (mkRtt min_rtt srtt rttvar rtt true (e.(re_samples) + 1) e.(re_max_ack_delay)
            e.(re_pto_count) e.(re_next_count_at)).

Definition pto_interval (e : RttEstimator) (backoff : Z) : Z :=
  let base := e.(re_srtt) + Z.max (e.(re_rttvar) * 4) GRANULARITY + e.(re_max_ack_delay) in
  let product := base * Z.shiftl 1 (Z.min backoff MAX_BACKOFF_EXP) in
  if product <=? DURATION_MAX then product else DURATION_MAX.

Definition on_pto_fire (e : RttEstimator) (now : Z) : RttEstimator :=
  if match e.(re_next_count_at) with Some t => now <? t | None => false end then e
  else mkRtt e.(re_min_rtt) e.(re_srtt) e.(re_rttvar) e.(re_latest_rtt) e.(re_sampled) e.(re_samples)
         e.(re_max_ack_delay) (Z.min (e.(re_pto_count) + 1) (2 ^ 32 - 1)) (Some (now + pto_interval e 0)).

(** [rto_backoff_max] is the one field of [EmitterConfig]. *)
Definition pto_for_attempt_with (rto_backoff_max : Z) (e : RttEstimator) (attempts : Z) : Z :=
  Z.min (pto_interval e (Z.min attempts 8)) rto_backoff_max.

(** ** What the estimator knows *)

Definition run_samples (l : list Z) : RttEstimator := foldl on_sample rtt_new l.

(** RFC 9002 section 5.3 with its fractions cleared, one sample at a time. *)
Record follows (l : list Z) (lo hi : Z) (e : RttEstimator) : Prop := {
  fo_min : e.(re_min_rtt) = Some lo;
  fo_srtt : lo ≤ e.(re_srtt) ≤ hi;
  fo_var : 0 ≤ e.(re_rttvar) ≤ hi;
  fo_sampled : e.(re_sampled) = true;
  fo_samples : e.(re_samples) = Z.of_nat (length l);
  fo_delay : e.(re_max_ack_delay) = MAX_ACK_DELAY;
  fo_count : e.(re_pto_count) = 0 ∧ e.(re_next_count_at) = None;
}.

Lemma follows_sample l lo hi e r : 0 ≤ lo → 0 ≤ r → follows l lo hi e →
  follows (l ++ [r]) (Z.min lo r) (Z.max hi r) (on_sample e r).
Proof.
  intros Hlo Hr [Hm Hs Hv Hsa Hn Hd Hc]. unfold on_sample. rewrite Hsa, Hm. split; cbn; try done.
  - split; [|apply Z.div_le_upper_bound; lia]. apply Z.div_le_lower_bound; lia.
  - split; [apply Z.div_pos; lia|]. apply Z.div_le_upper_bound; [lia|]. lia.
  - rewrite Hn, length_app. cbn. lia.
Qed.

(** The smallest and the largest of a non-empty list. *)
Definition least (x : Z) (l : list Z) : Z := foldl Z.min x l.
Definition greatest (x : Z) (l : list Z) : Z := foldl Z.max x l.

Lemma run_samples_follows x l : 0 ≤ x → Forall (λ r, 0 ≤ r) l →
  follows (x :: l) (least x l) (greatest x l) (run_samples (x :: l)) ∧ 0 ≤ least x l.
Proof.
  intros Hx. unfold run_samples. induction l as [|r l IH] using rev_ind; intros Hl.
  - cbn. split; [|done]. split; cbn; try done; lia.
  - apply Forall_app in Hl as [Hl Hr]. apply Forall_cons_1 in Hr as [Hr _].
    destruct (IH Hl) as [Hf Hlo]. rewrite app_comm_cons, foldl_app. unfold least, greatest in *.
    rewrite !foldl_app. cbn [foldl]. split; [by apply follows_sample|lia].
Qed.

Lemma pto_interval_0 e : e.(re_max_ack_delay) = MAX_ACK_DELAY →
  e.(re_srtt) + Z.max (e.(re_rttvar) * 4) GRANULARITY + 5 * MILLI ≤ DURATION_MAX →
  pto_interval e 0 = e.(re_srtt) + Z.max (e.(re_rttvar) * 4) GRANULARITY + 5 * MILLI.
Proof.
  intros Hd Hle. unfold pto_interval. rewrite Hd. change (Z.shiftl 1 (Z.min 0 MAX_BACKOFF_EXP)) with 1.
  rewrite Z.mul_1_r. unfold MAX_ACK_DELAY. by rewrite (proj2 (Z.leb_le _ _) Hle).
Qed.

(** After any non-empty run of samples the smoothed round trip lies between the
    smallest and the largest sample and the variance below the largest; the minimum
    is the smallest sample; a path with a constant round trip is estimated exactly;
    and the backoff is over.  The probe timeout then waits at least the smoothed
    round trip plus the 6 ms of timer granularity and acknowledgement delay, and at
    most five times the largest sample more. *)
Theorem rtt_within_samples x l :
  0 ≤ x → Forall (λ r, 0 ≤ r) l →
  let e := run_samples (x :: l) in
  e.(re_min_rtt) = Some (least x l)
  ∧ least x l ≤ e.(re_srtt) ≤ greatest x l ∧ 0 ≤ e.(re_rttvar) ≤ greatest x l
  ∧ (Forall (λ r, r = x) l → e.(re_srtt) = x)
  ∧ e.(re_pto_count) = 0
  ∧ (5 * greatest x l + 6 * MILLI ≤ DURATION_MAX →
       e.(re_srtt) + 6 * MILLI ≤ pto_interval e 0 ≤ 5 * greatest x l + 6 * MILLI).
Proof.
  intros Hx Hl e. destruct (run_samples_follows x l Hx Hl) as [[Hm Hs Hv Hsa Hn Hd [Hc Hnc]] Hlo].
  fold e in Hm, Hs, Hv, Hsa, Hn, Hd, Hc, Hnc. clearbody e.
  split_and!; try done; try lia.
  - intros Hall. assert (least x l = x ∧ greatest x l = x) as [E1 E2]; [|lia]. unfold least, greatest. clear -Hall.
    induction l as [|r l IH]; [done|]. apply Forall_cons in Hall as [-> Hall]. cbn.
    rewrite Z.min_id, Z.max_id. by apply IH.
  - intros Hle. unfold MILLI in Hle.
    rewrite (pto_interval_0 e Hd) by (unfold GRANULARITY, MILLI; lia). unfold GRANULARITY, MILLI. lia.
Qed.

Lemma rtt_within_samples_witness :
  (run_samples [100; 200; 60]).(re_srtt) = 105 ∧ (run_samples [100; 200; 60]).(re_min_rtt) = Some 60.
Proof.
  destruct (rtt_within_samples 100 [200; 60]) as (Hm & _).
  - lia.
  - repeat (apply Forall_cons; split; [lia|]). apply Forall_nil_2.
  - split; [reflexivity|]. exact Hm.
Defined.

(** ** Backoff *)

Definition same_path (e e' : RttEstimator) : Prop :=
  e.(re_srtt) = e'.(re_srtt) ∧ e.(re_rttvar) = e'.(re_rttvar) ∧ e.(re_max_ack_delay) = e'.(re_max_ack_delay).

Lemma same_path_interval e e' b : same_path e e' → pto_interval e b = pto_interval e' b.
Proof. intros (E1 & E2 & E3). unfold pto_interval. by rewrite E1, E2, E3. Qed.

(** Expiries at the given times, with no acknowledgement between them. *)
Definition run_fires (e : RttEstimator) (times : list Z) : RttEstimator := foldl on_pto_fire e times.

(** Times in order, each at least the previous one. *)
Fixpoint ordered_from (t : Z) (l : list Z) : Prop :=
  match l with [] => True | x :: l => t ≤ x ∧ ordered_from x l end.

(** Between the first expiry at [t1] and the last at [t], [re_pto_count] whole
    intervals minus one have passed. *)
Record backing_off (e0 : RttEstimator) (t1 t : Z) (e : RttEstimator) : Prop := {
  bo_path : same_path e0 e;
  bo_some : 1 ≤ e.(re_pto_count);
  bo_past : (e.(re_pto_count) - 1) * pto_interval e0 0 ≤ t - t1;
  bo_next : ∃ nx, e.(re_next_count_at) = Some nx ∧ t1 + e.(re_pto_count) * pto_interval e0 0 ≤ nx;
}.

Lemma fire_backing_off e0 t1 t e now : 0 < pto_interval e0 0 → t ≤ now →
  backing_off e0 t1 t e → backing_off e0 t1 now (on_pto_fire e now).
Proof.
  intros Hpos Ht [Hp Hs Hpa (nx & Hnx & Hle)]. unfold on_pto_fire. rewrite Hnx.
  destruct (Z.ltb_spec now nx).
  - split; [done|done|lia|eauto].
  - rewrite <-(same_path_interval e0 e 0 Hp). set (b := pto_interval e0 0) in *.
    assert (re_pto_count e * b ≤ now - t1) by lia.
    split; cbn [re_pto_count re_next_count_at].
    + done.
    + lia.
    + transitivity (re_pto_count e * b); [|lia]. apply Z.mul_le_mono_nonneg_r; lia.
    + eexists. split; [done|]. transitivity (t1 + (re_pto_count e + 1) * b); [|lia].
      apply Z.add_le_mono_l, Z.mul_le_mono_nonneg_r; lia.
Qed.

Lemma fires_backing_off e0 t1 times : ∀ t e, 0 < pto_interval e0 0 →
  backing_off e0 t1 t e → ordered_from t times → backing_off e0 t1 (List.last times t) (run_fires e times).
Proof.
  induction times as [|x times IH]; intros t e Hpos H Ho; [done|].
  destruct Ho as [Hx Ho]. cbn [run_fires foldl].
  replace (List.last (x :: times) t) with (List.last times x).
  - apply IH; [done| |done]. by apply (fire_backing_off e0 t1 t).
  - clear. revert x. induction times as [|y times IH]; intros x; [done|]. cbn in *. by destruct times.
Qed.

Lemma pto_interval_mono e b b' : 0 ≤ b ≤ b' →
  0 ≤ e.(re_srtt) → 0 ≤ e.(re_rttvar) → 0 ≤ e.(re_max_ack_delay) → pto_interval e b ≤ pto_interval e b'.
Proof.
  intros Hb H1 H2 H3. unfold pto_interval. set (base := _ + _ + _).
  assert (0 ≤ base) by (unfold base, GRANULARITY, MILLI; lia).
  assert (base * Z.shiftl 1 (Z.min b MAX_BACKOFF_EXP) ≤ base * Z.shiftl 1 (Z.min b' MAX_BACKOFF_EXP)).
  { apply Z.mul_le_mono_nonneg_l; [done|]. unfold MAX_BACKOFF_EXP. rewrite !Z.shiftl_mul_pow2 by lia.
    rewrite !Z.mul_1_l. apply Z.pow_le_mono_r; lia. }
  destruct (Z.leb_spec (base * Z.shiftl 1 (Z.min b MAX_BACKOFF_EXP)) DURATION_MAX);
  destruct (Z.leb_spec (base * Z.shiftl 1 (Z.min b' MAX_BACKOFF_EXP)) DURATION_MAX); lia.
Qed.

(** C37: However often expiries of the probe timer are reported after an acknowledgement,
    the backoff counts at most one per interval: [c] counted expiries mean that [c - 1]
    whole intervals have passed since the first.  The timeout never shrinks as the
    count grows and never exceeds its ceiling, and one acknowledgement ends the
    backoff. *)
Theorem pto_backoff_paced e t1 times ceiling :
  0 ≤ e.(re_srtt) → 0 ≤ e.(re_rttvar) → 0 ≤ e.(re_max_ack_delay) → ordered_from t1 times →
  let e' := run_fires (on_ack e) (t1 :: times) in
  1 ≤ e'.(re_pto_count)
  ∧ (e'.(re_pto_count) - 1) * pto_interval e 0 ≤ List.last times t1 - t1
  ∧ (∀ a b, 0 ≤ a ≤ b → pto_for_attempt_with ceiling e' a ≤ pto_for_attempt_with ceiling e' b ≤ ceiling)
  ∧ (on_ack e').(re_pto_count) = 0 ∧ pto_interval (on_ack e') 0 = pto_interval e 0.
Proof.
  intros H1 H2 H3 Ho e'.
  assert (0 < pto_interval e 0) as Hpos.
  { unfold pto_interval. change (Z.shiftl 1 (Z.min 0 MAX_BACKOFF_EXP)) with 1.
    destruct (Z.leb_spec ((re_srtt e + Z.max (re_rttvar e * 4) GRANULARITY + re_max_ack_delay e) * 1) DURATION_MAX).
    - unfold GRANULARITY, MILLI. lia.
    - unfold DURATION_MAX. lia. }
  assert (backing_off e t1 (List.last times t1) e') as [Hp Hs Hpa _].
  { unfold e'. cbn [run_fires foldl]. apply fires_backing_off; [done| |done].
    split; [done|cbn; lia|cbn; lia|]. eexists. split; [done|]. cbn.
    rewrite (same_path_interval (on_ack e) e 0) by done. lia. }
  clearbody e'. split_and!; [done|done| |done|].
  - intros a b Hab. unfold pto_for_attempt_with. destruct Hp as (E1 & E2 & E3).
    assert (pto_interval e' (Z.min a 8) ≤ pto_interval e' (Z.min b 8)); [|lia].
    apply pto_interval_mono; [lia|congruence..].
  - symmetry. by apply same_path_interval.
Qed.

Lemma pto_backoff_paced_witness :
  let e := run_samples [100 * MILLI] in
  (run_fires (on_ack e) [0; 1; 305 * MILLI; 306 * MILLI]).(re_pto_count) = 2
  ∧ 1 ≤ (run_fires (on_ack e) [0; 1; 305 * MILLI; 306 * MILLI]).(re_pto_count).
Proof.
  split; [reflexivity|].
  refine (proj1 (pto_backoff_paced (run_samples [100 * MILLI]) 0 [1; 305 * MILLI; 306 * MILLI] RTO_BACKOFF_MAX _ _ _ _)).
  - vm_compute. discriminate.
  - vm_compute. discriminate.
  - vm_compute. discriminate.
  - cbn [ordered_from]. unfold MILLI. lia.
Defined.
