(* ===== verification/Emitter.v ===== *)
(** * The reliable emitter ([transport/reliable_emitter/emitter.rs])

    One per session: it numbers every transmission, caches what may have to be sent
    again, feeds the parity groups, queues what goes on the wire, and turns the
    client's NACKs, the ledger's loss verdicts and the probe timeout into
    retransmissions.  It composes [RetxCache], [FrameCache], [EmissionQueue], [EmitIds],
    [Parity] and [Rtt].  The theory is in [EmitterTheory].

    [Instant]s and [Duration]s are nanoseconds, emit stamps are microseconds.  The
    counters of [EmitterStats] are not bounded here.  The heap of deferred passes is
    the list of its elements in the order [pop] returns them (elements with equal
    deadline and transmission, which [Ord] does not order, stay in arrival order).
    Tracing output is left out.  [env_no_rto] is [config::no_rto()], which is [false] in a
    release build. *)

From Stdlib Require Import ZArith Lia.
From S2P Require Import Prelude Wire EmitIds Parity MapTotals RetxCache FrameCache EmissionQueue Rtt.
From stdpp Require Import base option numbers list gmap sets.

Local Open Scope Z_scope.

(** ** Data *)

Inductive SendOutcome : Type := Sent | Rejected.

Record EmittedDatagram : Type := mkEmitted {
  ed_wire_seq : Z; ed_emit_us : Z; ed_wire_bytes : nat; ed_content : Content;
}.

Record ResendOrigin : Type := mkOrigin {
  rg_first_retx_ws : Z; rg_fires : Z; rg_counted_spurious : bool; rg_original_first : bool; rg_by_pto : bool;
}.

Inductive RetxCause : Type := RLoss | RProbe.
#[export] Instance RetxCause_eq_dec : EqDecision RetxCause.
Proof. solve_decision. Defined.

Definition LOSS_RETX_MAX_ATTEMPTS : Z := 3.
Definition RESEND_ORIGIN_CAP : nat := Z.to_nat 16384.

Record DeferredPass : Type := mkDeferred { df_key : Content; df_judged_ws : Z; df_due : Z }.

Inductive RetxRequest : Type :=
| Queued | ContentGone | NewerInFlight | AlreadyQueued | Disabled | NotRetransmitted | Deferred.

(** The counters of [EmitterStats]. *)
Inductive EmitStat : Type :=
| source_emitted | parity_emitted | loss_path_resends | ack_hit | ack_miss | nack_hit | nack_miss
| nack_resolved_by_content | stuck_entries_retired | send_rejected | emission_queue_peak
| retransmit_attempts_total | nack_deduped | retransmit_by_nack
| loss_path_resends_spurious | loss_path_resends_original_first | loss_path_resends_useful
| loss_retransmits | pto_probe_retransmits | pto_fires
| verdict_content_gone | h264_fragments_submitted | h264_idr_resends | h264_probe_resends | h264_pad_datagrams
| h264_p_verdicts_not_resent | h264_ack_hits | h264_ack_misses | h264_cache_dropped | h264_queue_purged
| verdict_newer_in_flight | verdict_already_queued | verdict_deferred_to_pto
| spurious_loss | spurious_pto | resend_origin_resets | generation_replacements | loss_path_resends_superseded.
#[export] Instance EmitStat_eq_dec : EqDecision EmitStat.
Proof. solve_decision. Defined.

Definition EmitterStats : Type := EmitStat → Z.
Definition emitter_stats_zero : EmitterStats := λ _, 0.

Record EmitterEnv : Type := mkEnv { env_rto_backoff_max : Z; env_no_rto : bool }.

Record ReliableTileEmitter : Type := mkEmitter {
  em_cache : RetransmitCache;
  em_h264 : H264Cache;
  em_pads : PadRing;
  em_alloc : WireSeqAllocator;
  em_queue : EmissionQueue;
  em_group : GroupBuilder;
  em_tile_fec : bool;
  em_resend_origin : gmap EmitKey ResendOrigin;
  em_latest_tile_generation : gmap (Z * Z) Z;
  em_rtt : RttEstimator;
  em_last_ack_at : option Z;
  em_latest_departure_at : option Z;
  em_last_pto_fire_at : option Z;
  em_time_base : Z;
  em_transmissions : list EmittedDatagram;
  em_pending_nacks : list EmitKey;
  em_pending_nack_set : gset EmitKey;
  em_pending_loss : list (Content * RetxCause * Z);
  em_pending_loss_set : gset Content;
  em_deferred : list DeferredPass;
  em_wire_overhead : nat;
  em_stats : EmitterStats;
}.

Definition with_cache (x : RetransmitCache) (e : ReliableTileEmitter) : ReliableTileEmitter :=
  mkEmitter x e.(em_h264) e.(em_pads) e.(em_alloc) e.(em_queue) e.(em_group) e.(em_tile_fec)
    e.(em_resend_origin) e.(em_latest_tile_generation) e.(em_rtt) e.(em_last_ack_at)
    e.(em_latest_departure_at) e.(em_last_pto_fire_at) e.(em_time_base) e.(em_transmissions)
    e.(em_pending_nacks) e.(em_pending_nack_set) e.(em_pending_loss) e.(em_pending_loss_set) e.(em_deferred)
    e.(em_wire_overhead) e.(em_stats).
Definition with_h264 (x : H264Cache) (e : ReliableTileEmitter) : ReliableTileEmitter :=
  mkEmitter e.(em_cache) x e.(em_pads) e.(em_alloc) e.(em_queue) e.(em_group) e.(em_tile_fec)
    e.(em_resend_origin) e.(em_latest_tile_generation) e.(em_rtt) e.(em_last_ack_at)
    e.(em_latest_departure_at) e.(em_last_pto_fire_at) e.(em_time_base) e.(em_transmissions)
    e.(em_pending_nacks) e.(em_pending_nack_set) e.(em_pending_loss) e.(em_pending_loss_set) e.(em_deferred)
    e.(em_wire_overhead) e.(em_stats).
Definition with_pads (x : PadRing) (e : ReliableTileEmitter) : ReliableTileEmitter :=
  mkEmitter e.(em_cache) e.(em_h264) x e.(em_alloc) e.(em_queue) e.(em_group) e.(em_tile_fec)
    e.(em_resend_origin) e.(em_latest_tile_generation) e.(em_rtt) e.(em_last_ack_at)
    e.(em_latest_departure_at) e.(em_last_pto_fire_at) e.(em_time_base) e.(em_transmissions)
    e.(em_pending_nacks) e.(em_pending_nack_set) e.(em_pending_loss) e.(em_pending_loss_set) e.(em_deferred)
    e.(em_wire_overhead) e.(em_stats).
Definition with_alloc (x : WireSeqAllocator) (e : ReliableTileEmitter) : ReliableTileEmitter :=
  mkEmitter e.(em_cache) e.(em_h264) e.(em_pads) x e.(em_queue) e.(em_group) e.(em_tile_fec)
    e.(em_resend_origin) e.(em_latest_tile_generation) e.(em_rtt) e.(em_last_ack_at)
    e.(em_latest_departure_at) e.(em_last_pto_fire_at) e.(em_time_base) e.(em_transmissions)
    e.(em_pending_nacks) e.(em_pending_nack_set) e.(em_pending_loss) e.(em_pending_loss_set) e.(em_deferred)
    e.(em_wire_overhead) e.(em_stats).
Definition with_queue (x : EmissionQueue) (e : ReliableTileEmitter) : ReliableTileEmitter :=
  mkEmitter e.(em_cache) e.(em_h264) e.(em_pads) e.(em_alloc) x e.(em_group) e.(em_tile_fec)
    e.(em_resend_origin) e.(em_latest_tile_generation) e.(em_rtt) e.(em_last_ack_at)
    e.(em_latest_departure_at) e.(em_last_pto_fire_at) e.(em_time_base) e.(em_transmissions)
    e.(em_pending_nacks) e.(em_pending_nack_set) e.(em_pending_loss) e.(em_pending_loss_set) e.(em_deferred)
    e.(em_wire_overhead) e.(em_stats).
Definition with_group (x : GroupBuilder) (e : ReliableTileEmitter) : ReliableTileEmitter :=
  mkEmitter e.(em_cache) e.(em_h264) e.(em_pads) e.(em_alloc) e.(em_queue) x e.(em_tile_fec)
    e.(em_resend_origin) e.(em_latest_tile_generation) e.(em_rtt) e.(em_last_ack_at)
    e.(em_latest_departure_at) e.(em_last_pto_fire_at) e.(em_time_base) e.(em_transmissions)
    e.(em_pending_nacks) e.(em_pending_nack_set) e.(em_pending_loss) e.(em_pending_loss_set) e.(em_deferred)
    e.(em_wire_overhead) e.(em_stats).
Definition with_tile_fec (x : bool) (e : ReliableTileEmitter) : ReliableTileEmitter :=
  mkEmitter e.(em_cache) e.(em_h264) e.(em_pads) e.(em_alloc) e.(em_queue) e.(em_group) x e.(em_resend_origin)
    e.(em_latest_tile_generation) e.(em_rtt) e.(em_last_ack_at) e.(em_latest_departure_at)
    e.(em_last_pto_fire_at) e.(em_time_base) e.(em_transmissions) e.(em_pending_nacks) e.(em_pending_nack_set)
    e.(em_pending_loss) e.(em_pending_loss_set) e.(em_deferred) e.(em_wire_overhead) e.(em_stats).
Definition with_resend_origin (x : gmap EmitKey ResendOrigin) (e : ReliableTileEmitter) : ReliableTileEmitter :=
  mkEmitter e.(em_cache) e.(em_h264) e.(em_pads) e.(em_alloc) e.(em_queue) e.(em_group) e.(em_tile_fec) x
    e.(em_latest_tile_generation) e.(em_rtt) e.(em_last_ack_at) e.(em_latest_departure_at)
    e.(em_last_pto_fire_at) e.(em_time_base) e.(em_transmissions) e.(em_pending_nacks) e.(em_pending_nack_set)
    e.(em_pending_loss) e.(em_pending_loss_set) e.(em_deferred) e.(em_wire_overhead) e.(em_stats).
Definition with_latest_tile_generation (x : gmap (Z * Z) Z) (e : ReliableTileEmitter) : ReliableTileEmitter :=
  mkEmitter e.(em_cache) e.(em_h264) e.(em_pads) e.(em_alloc) e.(em_queue) e.(em_group) e.(em_tile_fec)
    e.(em_resend_origin) x e.(em_rtt) e.(em_last_ack_at) e.(em_latest_departure_at) e.(em_last_pto_fire_at)
    e.(em_time_base) e.(em_transmissions) e.(em_pending_nacks) e.(em_pending_nack_set) e.(em_pending_loss)
    e.(em_pending_loss_set) e.(em_deferred) e.(em_wire_overhead) e.(em_stats).
Definition with_rtt (x : RttEstimator) (e : ReliableTileEmitter) : ReliableTileEmitter :=
  mkEmitter e.(em_cache) e.(em_h264) e.(em_pads) e.(em_alloc) e.(em_queue) e.(em_group) e.(em_tile_fec)
    e.(em_resend_origin) e.(em_latest_tile_generation) x e.(em_last_ack_at) e.(em_latest_departure_at)
    e.(em_last_pto_fire_at) e.(em_time_base) e.(em_transmissions) e.(em_pending_nacks) e.(em_pending_nack_set)
    e.(em_pending_loss) e.(em_pending_loss_set) e.(em_deferred) e.(em_wire_overhead) e.(em_stats).
Definition with_last_ack_at (x : option Z) (e : ReliableTileEmitter) : ReliableTileEmitter :=
  mkEmitter e.(em_cache) e.(em_h264) e.(em_pads) e.(em_alloc) e.(em_queue) e.(em_group) e.(em_tile_fec)
    e.(em_resend_origin) e.(em_latest_tile_generation) e.(em_rtt) x e.(em_latest_departure_at)
    e.(em_last_pto_fire_at) e.(em_time_base) e.(em_transmissions) e.(em_pending_nacks) e.(em_pending_nack_set)
    e.(em_pending_loss) e.(em_pending_loss_set) e.(em_deferred) e.(em_wire_overhead) e.(em_stats).
Definition with_latest_departure_at (x : option Z) (e : ReliableTileEmitter) : ReliableTileEmitter :=
  mkEmitter e.(em_cache) e.(em_h264) e.(em_pads) e.(em_alloc) e.(em_queue) e.(em_group) e.(em_tile_fec)
    e.(em_resend_origin) e.(em_latest_tile_generation) e.(em_rtt) e.(em_last_ack_at) x e.(em_last_pto_fire_at)
    e.(em_time_base) e.(em_transmissions) e.(em_pending_nacks) e.(em_pending_nack_set) e.(em_pending_loss)
    e.(em_pending_loss_set) e.(em_deferred) e.(em_wire_overhead) e.(em_stats).
Definition with_last_pto_fire_at (x : option Z) (e : ReliableTileEmitter) : ReliableTileEmitter :=
  mkEmitter e.(em_cache) e.(em_h264) e.(em_pads) e.(em_alloc) e.(em_queue) e.(em_group) e.(em_tile_fec)
    e.(em_resend_origin) e.(em_latest_tile_generation) e.(em_rtt) e.(em_last_ack_at)
    e.(em_latest_departure_at) x e.(em_time_base) e.(em_transmissions) e.(em_pending_nacks)
    e.(em_pending_nack_set) e.(em_pending_loss) e.(em_pending_loss_set) e.(em_deferred) e.(em_wire_overhead)
    e.(em_stats).
Definition with_transmissions (x : list EmittedDatagram) (e : ReliableTileEmitter) : ReliableTileEmitter :=
  mkEmitter e.(em_cache) e.(em_h264) e.(em_pads) e.(em_alloc) e.(em_queue) e.(em_group) e.(em_tile_fec)
    e.(em_resend_origin) e.(em_latest_tile_generation) e.(em_rtt) e.(em_last_ack_at)
    e.(em_latest_departure_at) e.(em_last_pto_fire_at) e.(em_time_base) x e.(em_pending_nacks)
    e.(em_pending_nack_set) e.(em_pending_loss) e.(em_pending_loss_set) e.(em_deferred) e.(em_wire_overhead)
    e.(em_stats).
Definition with_pending_nacks (x : list EmitKey) (e : ReliableTileEmitter) : ReliableTileEmitter :=
  mkEmitter e.(em_cache) e.(em_h264) e.(em_pads) e.(em_alloc) e.(em_queue) e.(em_group) e.(em_tile_fec)
    e.(em_resend_origin) e.(em_latest_tile_generation) e.(em_rtt) e.(em_last_ack_at)
    e.(em_latest_departure_at) e.(em_last_pto_fire_at) e.(em_time_base) e.(em_transmissions) x
    e.(em_pending_nack_set) e.(em_pending_loss) e.(em_pending_loss_set) e.(em_deferred) e.(em_wire_overhead)
    e.(em_stats).
Definition with_pending_nack_set (x : gset EmitKey) (e : ReliableTileEmitter) : ReliableTileEmitter :=
  mkEmitter e.(em_cache) e.(em_h264) e.(em_pads) e.(em_alloc) e.(em_queue) e.(em_group) e.(em_tile_fec)
    e.(em_resend_origin) e.(em_latest_tile_generation) e.(em_rtt) e.(em_last_ack_at)
    e.(em_latest_departure_at) e.(em_last_pto_fire_at) e.(em_time_base) e.(em_transmissions)
    e.(em_pending_nacks) x e.(em_pending_loss) e.(em_pending_loss_set) e.(em_deferred) e.(em_wire_overhead)
    e.(em_stats).
Definition with_pending_loss (x : list (Content * RetxCause * Z)) (e : ReliableTileEmitter) : ReliableTileEmitter :=
  mkEmitter e.(em_cache) e.(em_h264) e.(em_pads) e.(em_alloc) e.(em_queue) e.(em_group) e.(em_tile_fec)
    e.(em_resend_origin) e.(em_latest_tile_generation) e.(em_rtt) e.(em_last_ack_at)
    e.(em_latest_departure_at) e.(em_last_pto_fire_at) e.(em_time_base) e.(em_transmissions)
    e.(em_pending_nacks) e.(em_pending_nack_set) x e.(em_pending_loss_set) e.(em_deferred)
    e.(em_wire_overhead) e.(em_stats).
Definition with_pending_loss_set (x : gset Content) (e : ReliableTileEmitter) : ReliableTileEmitter :=
  mkEmitter e.(em_cache) e.(em_h264) e.(em_pads) e.(em_alloc) e.(em_queue) e.(em_group) e.(em_tile_fec)
    e.(em_resend_origin) e.(em_latest_tile_generation) e.(em_rtt) e.(em_last_ack_at)
    e.(em_latest_departure_at) e.(em_last_pto_fire_at) e.(em_time_base) e.(em_transmissions)
    e.(em_pending_nacks) e.(em_pending_nack_set) e.(em_pending_loss) x e.(em_deferred) e.(em_wire_overhead)
    e.(em_stats).
Definition with_deferred (x : list DeferredPass) (e : ReliableTileEmitter) : ReliableTileEmitter :=
  mkEmitter e.(em_cache) e.(em_h264) e.(em_pads) e.(em_alloc) e.(em_queue) e.(em_group) e.(em_tile_fec)
    e.(em_resend_origin) e.(em_latest_tile_generation) e.(em_rtt) e.(em_last_ack_at)
    e.(em_latest_departure_at) e.(em_last_pto_fire_at) e.(em_time_base) e.(em_transmissions)
    e.(em_pending_nacks) e.(em_pending_nack_set) e.(em_pending_loss) e.(em_pending_loss_set) x
    e.(em_wire_overhead) e.(em_stats).
Definition with_wire_overhead (x : nat) (e : ReliableTileEmitter) : ReliableTileEmitter :=
  mkEmitter e.(em_cache) e.(em_h264) e.(em_pads) e.(em_alloc) e.(em_queue) e.(em_group) e.(em_tile_fec)
    e.(em_resend_origin) e.(em_latest_tile_generation) e.(em_rtt) e.(em_last_ack_at)
    e.(em_latest_departure_at) e.(em_last_pto_fire_at) e.(em_time_base) e.(em_transmissions)
    e.(em_pending_nacks) e.(em_pending_nack_set) e.(em_pending_loss) e.(em_pending_loss_set) e.(em_deferred) x
    e.(em_stats).
Definition with_stats (x : EmitterStats) (e : ReliableTileEmitter) : ReliableTileEmitter :=
  mkEmitter e.(em_cache) e.(em_h264) e.(em_pads) e.(em_alloc) e.(em_queue) e.(em_group) e.(em_tile_fec)
    e.(em_resend_origin) e.(em_latest_tile_generation) e.(em_rtt) e.(em_last_ack_at)
    e.(em_latest_departure_at) e.(em_last_pto_fire_at) e.(em_time_base) e.(em_transmissions)
    e.(em_pending_nacks) e.(em_pending_nack_set) e.(em_pending_loss) e.(em_pending_loss_set) e.(em_deferred)
    e.(em_wire_overhead) x.

Definition add_stat (s : EmitStat) (n : Z) (e : ReliableTileEmitter) : ReliableTileEmitter :=
  with_stats (λ s', if decide (s' = s) then e.(em_stats) s + n else e.(em_stats) s') e.
Definition count (s : EmitStat) : ReliableTileEmitter → ReliableTileEmitter := add_stat s 1.

Definition emitter_new (now : Z) : ReliableTileEmitter :=
  mkEmitter cache_new h264_new pads_new wa_new queue_new (group_new (Z.to_nat FEC_GROUP_SIZE_K)) false ∅ ∅ rtt_new
    None None None now [] [] ∅ [] ∅ [] 0%nat emitter_stats_zero.

(** ** Stamps *)

(** [bytes[at..at + n].copy_from_slice(..)] *)
Definition stamp (at_ : nat) (v b : list Z) : list Z := take at_ b ++ v ++ drop (at_ + length v) b.

Definition stamp_wire_seq (wire_seq : Z) (b : list Z) : list Z :=
  if (12 <=? length b)%nat then stamp 8 (be_bytes 4 wire_seq) b else b.

(** The datagram is stamped with the time it is emitted at. *)
Definition takes_time (b : list Z) : bool :=
  (16 <=? length b)%nat && negb (Z.land (default 0 (head b)) 0x80 =? 0).

Definition stamp_emit_us (emit_us : Z) (b : list Z) : list Z :=
  if takes_time b then stamp 12 (be_bytes 4 (u32 emit_us)) b else b.

Definition tile_datagram_generation (b : list Z) : option Z :=
  if (length b <=? 19)%nat || (Z.land (default 0 (head b)) 0x80 =? 0) || negb (bool_decide (take 2 (drop 4 b) = [0; 0]))
  then None
  else Some (Z.shiftr (default 0 (b !! 19%nat)) 4).

Definition emit_us64 (e : ReliableTileEmitter) (now : Z) : Z := sat_sub now e.(em_time_base) / 1000.

Definition note_emission_queue_depth (e : ReliableTileEmitter) : ReliableTileEmitter :=
  let d := Z.of_nat (queue_len e.(em_queue)) in
  if e.(em_stats) emission_queue_peak <? d
  then with_stats (λ s, if decide (s = emission_queue_peak) then d else e.(em_stats) s) e else e.

Definition push_transmission (t : EmittedDatagram) (e : ReliableTileEmitter) : ReliableTileEmitter :=
  with_transmissions (e.(em_transmissions) ++ [t]) e.

Definition enqueue (b : list Z) (c : WireClass) (e : ReliableTileEmitter) : ReliableTileEmitter :=
  with_queue (push_source e.(em_queue) b c) e.

(** [self.alloc.allocate()] *)
Definition allocate (e : ReliableTileEmitter) : Z * ReliableTileEmitter :=
  let '(ws, a) := wa_allocate e.(em_alloc) in (ws, with_alloc a e).

Definition feed_group (wire_seq : Z) (b : list Z) (e : ReliableTileEmitter) : outcome () ReliableTileEmitter :=
  if negb e.(em_tile_fec) then Ok e
  else
    '(g, r) ← group_add e.(em_group) wire_seq b;
    let e := with_group g e in
    Ok (match r with
        | None => e
        | Some r =>
            with_queue (schedule_parity e.(em_queue) (wadd32 r.(gr_group_first_wire_seq) PARITY_INTERLEAVE_OFFSET)
                          (tp_encode (envelope_of r) [])) e
        end).

(** ** Submitting *)

Definition fresh_entry (b : list Z) (queued_at now wire_seq : Z) (probe : option ProbeTag) : CacheEntry :=
  mkCacheEntry b queued_at now now 0 0 wire_seq probe.

Definition submit_one_as (key : EmitKey) (source : list Z) (queued_at : Z) (probe : option ProbeTag) (now : Z)
    (scheduler_retry : bool) (e : ReliableTileEmitter) : outcome () ReliableTileEmitter :=
  let '(wire_seq, e) := allocate e in
  let b := stamp_wire_seq wire_seq source in
  let stamped_emit_us := if takes_time b then emit_us64 e now else 0 in
  let b := stamp_emit_us (emit_us64 e now) b in
  let e := match tile_datagram_generation b with
           | None => e
           | Some g =>
               let prev := e.(em_latest_tile_generation) !! (key.(ek_tile_x), key.(ek_tile_y)) in
               let e := with_latest_tile_generation
                          (<[(key.(ek_tile_x), key.(ek_tile_y)) := g]> e.(em_latest_tile_generation)) e in
               match prev with
               | Some p => if negb (p =? g) then count generation_replacements e else e
               | None => e
               end
           end in
  let e := push_transmission (mkEmitted wire_seq stamped_emit_us (length b) (CTile key)) e in
  cache ← cache_insert e.(em_cache) key (fresh_entry b queued_at now wire_seq probe);
  let e := with_cache cache e in
  e ← feed_group wire_seq b e;
  let e := note_emission_queue_depth e in
  let class := if scheduler_retry then WSchedulerRetry else for_first_send key.(ek_pass_idx) in
  Ok (count source_emitted (enqueue b class e)).

Definition submit_one key source queued_at probe now (e : ReliableTileEmitter) : outcome () ReliableTileEmitter :=
  submit_one_as key source queued_at probe now false e.

Fixpoint submit_batch_go (items : list (EmitKey * list Z * Z * option ProbeTag)) (retry : list bool) (i : nat) (now : Z)
    (e : ReliableTileEmitter) : outcome () ReliableTileEmitter :=
  match items with
  | [] => Ok e
  | (key, b, queued_at, probe) :: items =>
      e ← submit_one_as key b queued_at probe now (default false (retry !! i)) e;
      submit_batch_go items retry (S i) now e
  end.

Definition submit_batch_marking_retries items retry now (e : ReliableTileEmitter) : outcome () ReliableTileEmitter :=
  submit_batch_go items retry 0 now e.

Definition submit_h264_fragment (frag : H264Submit) (now : Z) (e : ReliableTileEmitter) :
    outcome () ReliableTileEmitter :=
  let '(wire_seq, e) := allocate e in
  let b := stamp_wire_seq wire_seq frag.(hs_bytes) in
  let e := push_transmission
             (mkEmitted wire_seq (emit_us64 e now) (length b) (CH264Frag frag.(hs_frame_seq) frag.(hs_frag_idx))) e in
  h264 ← h264_insert e.(em_h264) frag.(hs_frame_seq) frag.(hs_frag_idx) frag.(hs_is_idr)
           (fresh_entry b frag.(hs_queued_at) now wire_seq frag.(hs_probe));
  let e := note_emission_queue_depth (with_h264 h264 e) in
  Ok (count h264_fragments_submitted (enqueue b WH264 e)).

(** [buf[16] |= FRAME_FLAG_PAD], after the [wire_seq]. *)
Definition pad_bytes (wire_seq : Z) (template : list Z) : list Z :=
  if (16 <? length template)%nat
  then alter (λ x, Z.lor x FRAME_FLAG_PAD) 16%nat (stamp 8 (be_bytes 4 wire_seq) template)
  else template.

Definition submit_h264_pad (template : list Z) (probe : ProbeTag) (now : Z) (e : ReliableTileEmitter) :
    outcome () (ReliableTileEmitter * nat) :=
  let '(wire_seq, e) := allocate e in
  let b := pad_bytes wire_seq template in
  let e := push_transmission (mkEmitted wire_seq (emit_us64 e now) (length b) (CPad wire_seq)) e in
  pads ← pads_insert e.(em_pads) wire_seq (mkPad probe now (length b));
  let e := note_emission_queue_depth (with_pads pads e) in
  Ok (count h264_pad_datagrams (enqueue b WH264 e), length b).

Definition expire_h264_pad (now : Z) (e : ReliableTileEmitter) : outcome () ReliableTileEmitter :=
  '(pads, _) ← pads_expire e.(em_pads) now; Ok (with_pads pads e).

(** ** H.264 fragments *)

(** What a retransmission writes on a cached entry. *)
Definition mark_resent (now ws : Z) (by_loss : bool) (e : CacheEntry) : CacheEntry :=
  mkCacheEntry e.(ce_datagram) e.(ce_queued_at) e.(ce_first_sent_at) now (Z.min (e.(ce_attempts) + 1) 255)
    (if by_loss then Z.min (e.(ce_loss_attempts) + 1) 255 else e.(ce_loss_attempts)) ws None.

Definition resend_h264_fragment (frame_seq frag_idx : Z) (cause : RetxCause) (judged_ws now : Z)
    (e : ReliableTileEmitter) : outcome () (ReliableTileEmitter * option Z) :=
  let emit_us := emit_us64 e now in
  let ws := wa_peek e.(em_alloc) in
  match h264_get e.(em_h264) frame_seq frag_idx with
  | None => Ok (e, None)
  | Some entry =>
      if negb (entry.(ce_latest_ws) =? judged_ws) then Ok (count verdict_newer_in_flight e, None)
      else
        let '(_, e) := allocate e in
        let e := with_h264 (h264_update e.(em_h264) frame_seq frag_idx (mark_resent now ws true)) e in
        _ ← assert_ (12 <=? length entry.(ce_datagram))%nat;
        let b := stamp 8 (be_bytes 4 ws) entry.(ce_datagram) in
        let e := push_transmission (mkEmitted ws emit_us (length b) (CH264Frag frame_seq frag_idx)) e in
        let e := enqueue b WLossRetransmit e in
        let e := count retransmit_attempts_total (count loss_path_resends e) in
        let e := match cause with
                 | RLoss => count h264_idr_resends (count loss_retransmits e)
                 | RProbe => count h264_probe_resends (count pto_probe_retransmits e)
                 end in
        Ok (e, Some (Z.of_nat (length b + e.(em_wire_overhead))))
  end.

Definition on_h264_ack (frame_seq frag_idx : Z) (e : ReliableTileEmitter) :
    outcome () (ReliableTileEmitter * bool) :=
  '(h264, removed) ← h264_remove e.(em_h264) frame_seq frag_idx;
  let e := with_h264 h264 e in
  Ok (match removed with
      | Some _ => (count h264_ack_hits e, true)
      | None => (count h264_ack_misses e, false)
      end).

Definition dropped (r : outcome () (H264Cache * nat)) (e : ReliableTileEmitter) : outcome () ReliableTileEmitter :=
  '(h264, n) ← r; Ok (add_stat h264_cache_dropped (Z.of_nat n) (with_h264 h264 e)).

Definition purge_queued_h264 (doomed : Z → bool) (e : ReliableTileEmitter) :
    outcome () (ReliableTileEmitter * list Z) :=
  '(q, r) ← purge_frames e.(em_queue) doomed;
  Ok (add_stat h264_queue_purged (Z.of_nat r.1) (with_queue q e), r.2).

Definition supersede_h264_before (frame_seq : Z) (e : ReliableTileEmitter) :
    outcome () (ReliableTileEmitter * list Z) :=
  e ← dropped (drop_before e.(em_h264) frame_seq) e;
  purge_queued_h264 (λ f, f <? frame_seq) e.

Definition drop_h264_from (frame_seq : Z) (e : ReliableTileEmitter) : outcome () ReliableTileEmitter :=
  dropped (drop_from e.(em_h264) frame_seq) e.
Definition drop_h264_frame (frame_seq : Z) (e : ReliableTileEmitter) : outcome () ReliableTileEmitter :=
  dropped (drop_frame e.(em_h264) frame_seq) e.
Definition trim_h264_cache (e : ReliableTileEmitter) : outcome () ReliableTileEmitter :=
  dropped (trim_to e.(em_h264) H264_CACHE_FRAMES) e.

Definition queued_h264_bytes (e : ReliableTileEmitter) : nat := e.(em_queue).(eq_frame_bytes).

(** ** Attribution of resends *)

Definition note_loss_path_resend (key : EmitKey) (first_ws : option Z) (by_pto : bool) (e : ReliableTileEmitter) :
    ReliableTileEmitter :=
  match first_ws with
  | None => e
  | Some ws =>
      match e.(em_resend_origin) !! key with
      | Some o =>
          let e := with_resend_origin
                     (<[key := mkOrigin o.(rg_first_retx_ws) (o.(rg_fires) + 1) o.(rg_counted_spurious)
                                 o.(rg_original_first) o.(rg_by_pto)]> e.(em_resend_origin)) e in
          let e := if o.(rg_counted_spurious) then count loss_path_resends_spurious e else e in
          if o.(rg_original_first)
          then count (if o.(rg_by_pto) then spurious_pto else spurious_loss) (count loss_path_resends_original_first e)
          else e
      | None =>
          let e := if (RESEND_ORIGIN_CAP <=? size e.(em_resend_origin))%nat
                   then count resend_origin_resets (with_resend_origin ∅ e) else e in
          with_resend_origin (<[key := mkOrigin ws 1 false false by_pto]> e.(em_resend_origin)) e
      end
  end.

(** [(wire_seq.wrapping_sub(first) as i32) < 0] *)
Definition sent_before (wire_seq first : Z) : bool := swrap 32 (wsub32 wire_seq first) <? 0.

Definition note_ack_origin (key : EmitKey) (wire_seq : Z) (e : ReliableTileEmitter) : outcome () ReliableTileEmitter :=
  match e.(em_resend_origin) !! key with
  | None => Ok e
  | Some o =>
      let fires := o.(rg_fires) in
      if sent_before wire_seq o.(rg_first_retx_ws) then
        let e := if negb o.(rg_counted_spurious) then add_stat loss_path_resends_spurious fires e else e in
        let e := if negb o.(rg_original_first)
                 then add_stat (if o.(rg_by_pto) then spurious_pto else spurious_loss) fires
                        (add_stat loss_path_resends_original_first fires e)
                 else e in
        Ok (with_resend_origin
              (<[key := mkOrigin o.(rg_first_retx_ws) fires true true o.(rg_by_pto)]> e.(em_resend_origin)) e)
      else
        e ← (if o.(rg_counted_spurious)
             then _ ← assert_ (fires <=? e.(em_stats) loss_path_resends_spurious);
                  Ok (add_stat loss_path_resends_spurious (- fires) e)
             else Ok e);
        let e := add_stat loss_path_resends_useful fires e in
        Ok (with_resend_origin (delete key e.(em_resend_origin)) e)
  end.

(** ** Acknowledgements *)

Fixpoint emitter_on_ack (keys : list EmitKey) (e : ReliableTileEmitter) : outcome () ReliableTileEmitter :=
  match keys with
  | [] => Ok e
  | key :: keys =>
      '(cache, removed) ← cache_remove e.(em_cache) key;
      let e := with_cache cache e in
      emitter_on_ack keys (match removed with Some _ => count ack_hit e | None => count ack_miss e end)
  end.

Definition note_ack (received_at : Z) (e : ReliableTileEmitter) : ReliableTileEmitter :=
  let e := with_rtt (on_ack e.(em_rtt)) e in
  with_last_ack_at (Some (match e.(em_last_ack_at) with None => received_at | Some t => Z.max t received_at end)) e.

(** ** Retransmitting *)

(** One turn of the loop of [tick_nacks_budgeted], on the request [key] it has popped: the
    bytes it queued, if it sent anything. *)
Definition serve_nack (now : Z) (key : EmitKey) (e : ReliableTileEmitter) :
    outcome () (ReliableTileEmitter * option Z) :=
  let emit_us_now := emit_us64 e now in
  let e := with_pending_nack_set (e.(em_pending_nack_set) ∖ {[ key ]}) e in
  match cache_get e.(em_cache) key with
  | None => Ok (e, None)
  | Some entry =>
      let b := entry.(ce_datagram) in
      let '(ws, e) := if (12 <=? length b)%nat then allocate e else (0, e) in
      let b := stamp_emit_us emit_us_now (stamp_wire_seq ws b) in
      let e := with_cache (cache_update e.(em_cache) key (mark_resent now ws false)) e in
      let e := push_transmission (mkEmitted ws emit_us_now (length b) (CTile key)) e in
      e ← (if (12 <=? length b)%nat then feed_group ws b e else Ok e);
      let e := enqueue b WNackRepair e in
      let e := count retransmit_by_nack (count retransmit_attempts_total e) in
      Ok (e, Some (Z.of_nat (length b + e.(em_wire_overhead))))
  end.

(** The loop: [spent] bytes queued and [n] retransmissions made so far. *)
Fixpoint tick_nacks_go (now max_retransmits max_bytes : Z) (pending : list EmitKey) (spent n : Z)
    (e : ReliableTileEmitter) : outcome () (ReliableTileEmitter * Z * Z) :=
  if negb ((n <? max_retransmits) && (spent <? max_bytes)) then Ok (with_pending_nacks pending e, spent, n)
  else
    match pending with
    | [] => Ok (with_pending_nacks [] e, spent, n)
    | key :: pending =>
        '(e, sent) ← serve_nack now key e;
        match sent with
        | Some s => tick_nacks_go now max_retransmits max_bytes pending (spent + s) (n + 1) e
        | None => tick_nacks_go now max_retransmits max_bytes pending spent n e
        end
    end.

Definition tick_nacks_budgeted (now max_retransmits max_bytes n : Z) (e : ReliableTileEmitter) :
    outcome () (ReliableTileEmitter * Z * Z) :=
  tick_nacks_go now max_retransmits max_bytes e.(em_pending_nacks) 0 n e.

(** The same for one request of the loss path. *)
Definition serve_loss (now : Z) (content : Content) (cause : RetxCause) (judged_ws : Z) (e : ReliableTileEmitter) :
    outcome () (ReliableTileEmitter * option Z) :=
  let emit_us_now := emit_us64 e now in
  let e := with_pending_loss_set (e.(em_pending_loss_set) ∖ {[ content ]}) e in
  match content with
  | CPad _ => Ok (e, None)
  | CH264Frag frame_seq frag_idx => resend_h264_fragment frame_seq frag_idx cause judged_ws now e
  | CTile key =>
      match cache_get e.(em_cache) key with
      | None => Ok (e, None)
      | Some entry =>
          if negb (entry.(ce_latest_ws) =? judged_ws) then Ok (count verdict_newer_in_flight e, None)
          else
            let b := entry.(ce_datagram) in
            let '(ws, e) := if (12 <=? length b)%nat then allocate e else (0, e) in
            let first_ws := if (12 <=? length b)%nat then Some ws else None in
            let b := stamp_wire_seq ws b in
            let stamped := if takes_time b then emit_us_now else 0 in
            let b := stamp_emit_us emit_us_now b in
            let e := match tile_datagram_generation b with
                     | Some g =>
                         match e.(em_latest_tile_generation) !! (key.(ek_tile_x), key.(ek_tile_y)) with
                         | Some latest => if negb (latest =? g) then count loss_path_resends_superseded e else e
                         | None => e
                         end
                     | None => e
                     end in
            let e := with_cache (cache_update e.(em_cache) key (mark_resent now ws true)) e in
            let e := push_transmission (mkEmitted ws stamped (length b) (CTile key)) e in
            e ← (if (12 <=? length b)%nat then feed_group ws b e else Ok e);
            let e := count loss_path_resends (enqueue b WLossRetransmit e) in
            let e := count (match cause with RLoss => loss_retransmits | RProbe => pto_probe_retransmits end) e in
            let e := note_loss_path_resend key first_ws (bool_decide (cause = RProbe)) e in
            let e := count retransmit_attempts_total e in
            Ok (e, Some (Z.of_nat (length b + e.(em_wire_overhead))))
      end
  end.

Fixpoint tick_loss_go (now max_retransmits max_bytes : Z) (pending : list (Content * RetxCause * Z)) (spent n : Z)
    (e : ReliableTileEmitter) : outcome () (ReliableTileEmitter * Z * Z) :=
  if negb ((n <? max_retransmits) && (spent <? max_bytes)) then Ok (with_pending_loss pending e, spent, n)
  else
    match pending with
    | [] => Ok (with_pending_loss [] e, spent, n)
    | (content, cause, judged_ws) :: pending =>
        '(e, sent) ← serve_loss now content cause judged_ws e;
        match sent with
        | Some s => tick_loss_go now max_retransmits max_bytes pending (spent + s) (n + 1) e
        | None => tick_loss_go now max_retransmits max_bytes pending spent n e
        end
    end.

Definition tick_loss_budgeted (now max_retransmits max_bytes n : Z) (e : ReliableTileEmitter) :
    outcome () (ReliableTileEmitter * Z * Z) :=
  tick_loss_go now max_retransmits max_bytes e.(em_pending_loss) 0 n e.

Definition tick_budgeted (now max_retransmits max_bytes : Z) (e : ReliableTileEmitter) :
    outcome () (ReliableTileEmitter * Z) :=
  '(e, nacks, n) ← tick_nacks_budgeted now max_retransmits max_bytes 0 e;
  '(e, loss, _) ← tick_loss_budgeted now max_retransmits (sat_sub max_bytes nacks) n e;
  Ok (e, nacks + loss).

(** [tick], with [usize::MAX] bytes *)
Definition tick (now max_retransmits : Z) (e : ReliableTileEmitter) : outcome () (ReliableTileEmitter * Z) :=
  tick_budgeted now max_retransmits (2 ^ 64 - 1) e.

Definition retire_stuck (now older_than : Z) (e : ReliableTileEmitter) :
    outcome () (ReliableTileEmitter * list EmitKey) :=
  '(cache, retired) ← retire_older_than e.(em_cache) now older_than;
  let e := add_stat stuck_entries_retired (Z.of_nat (length retired)) (with_cache cache e) in
  Ok (with_resend_origin (foldl (λ m k, delete k m) e.(em_resend_origin) retired) e, retired).

Definition pending_cache_entries (e : ReliableTileEmitter) : nat := cache_len e.(em_cache).
Definition emitter_bytes_in_flight (e : ReliableTileEmitter) : nat :=
  bytes_outstanding e.(em_cache) + h264_bytes_outstanding e.(em_h264) + e.(em_pads).(pr_bytes).

(** ** Requests *)

Definition nack_key (nacked : EmitKey) (e : ReliableTileEmitter) : EmitKey * ReliableTileEmitter :=
  match cache_get e.(em_cache) nacked with
  | Some _ => (nacked, e)
  | None =>
      match lookup_content e.(em_cache) nacked.(ek_tile_x) nacked.(ek_tile_y) nacked.(ek_pass_idx) with
      | Some found => (found, count nack_resolved_by_content e)
      | None => (nacked, e)
      end
  end.

Definition on_nack_one (nacked : EmitKey) (e : ReliableTileEmitter) : ReliableTileEmitter :=
  let '(key, e) := nack_key nacked e in
  match cache_get e.(em_cache) key with
  | None => count nack_miss e
  | Some _ =>
      if decide (key ∈ e.(em_pending_nack_set)) then count nack_deduped e
      else
        let e := with_pending_nack_set ({[ key ]} ∪ e.(em_pending_nack_set)) e in
        count nack_hit (with_pending_nacks (e.(em_pending_nacks) ++ [key]) e)
  end.

Definition on_nack (entries : list EmitKey) (e : ReliableTileEmitter) : ReliableTileEmitter :=
  foldl (λ e k, on_nack_one k e) e entries.

Definition emitter_cancel_for_tile (tile_x tile_y : Z) (e : ReliableTileEmitter) : outcome () ReliableTileEmitter :=
  cache ← cancel_for_tile e.(em_cache) tile_x tile_y; Ok (with_cache cache e).

Definition reset_connection_state (e : ReliableTileEmitter) : ReliableTileEmitter :=
  with_last_pto_fire_at None (with_latest_departure_at None (with_last_ack_at None (with_rtt rtt_new e))).

Definition clear_cache (e : ReliableTileEmitter) : ReliableTileEmitter :=
  let e := with_pads (pads_clear e.(em_pads)) (with_h264 (h264_clear e.(em_h264)) (with_cache (cache_clear e.(em_cache)) e)) in
  let e := with_latest_tile_generation ∅ (with_resend_origin ∅ e) in
  reset_connection_state (with_deferred [] (with_pending_loss_set ∅ (with_pending_loss [] e))).

Definition has_cache_entries_for_tile (e : ReliableTileEmitter) (tile_x tile_y : Z) : bool :=
  has_entries_for_tile e.(em_cache) tile_x tile_y.
Definition holds_pass (e : ReliableTileEmitter) (tile_x tile_y pass_idx : Z) : bool :=
  bool_decide (is_Some (lookup_content e.(em_cache) tile_x tile_y pass_idx)).

Definition on_departed (at_ : Z) (e : ReliableTileEmitter) : ReliableTileEmitter :=
  with_latest_departure_at (Some (match e.(em_latest_departure_at) with None => at_ | Some t => Z.max t at_ end)) e.

(** [entry_view]: [(latest_ws, loss_attempts, last_sent_at)] of the entry that holds the
    content. *)
Definition held_entry_of (e : ReliableTileEmitter) (content : Content) : option CacheEntry :=
  match content with
  | CTile key => cache_get e.(em_cache) key
  | CPad _ => None
  | CH264Frag frame_seq frag_idx => h264_get e.(em_h264) frame_seq frag_idx
  end.

Definition entry_view (e : ReliableTileEmitter) (content : Content) : option (Z * Z * Z) :=
  (λ c, (c.(ce_latest_ws), c.(ce_loss_attempts), c.(ce_last_sent_at))) <$> held_entry_of e content.

Definition is_p_frame (e : ReliableTileEmitter) (content : Content) : bool :=
  match content with
  | CH264Frag frame_seq _ => bool_decide (h264_is_idr e.(em_h264) frame_seq = Some false)
  | _ => false
  end.

Definition classify_retx (e : ReliableTileEmitter) (content : Content) (wire_seq : Z) (cause : RetxCause) : RetxRequest :=
  match entry_view e content with
  | None => ContentGone
  | Some (latest_ws, loss_attempts, _) =>
      if negb (latest_ws =? wire_seq) then NewerInFlight
      else if bool_decide (content ∈ e.(em_pending_loss_set))
              || match content_tile content with Some k => bool_decide (k ∈ e.(em_pending_nack_set)) | None => false end
      then AlreadyQueued
      else if is_p_frame e content && bool_decide (cause = RLoss) then NotRetransmitted
      else if bool_decide (cause = RLoss) && (LOSS_RETX_MAX_ATTEMPTS <=? loss_attempts) then Deferred
      else Queued
  end.

Fixpoint defer_insert (d : DeferredPass) (l : list DeferredPass) : list DeferredPass :=
  match l with
  | [] => [d]
  | x :: l =>
      if (d.(df_due) <? x.(df_due)) || ((d.(df_due) =? x.(df_due)) && (d.(df_judged_ws) <? x.(df_judged_ws)))
      then d :: x :: l else x :: defer_insert d l
  end.

Definition defer (env : EmitterEnv) (content : Content) (judged_ws : Z) (e : ReliableTileEmitter) : ReliableTileEmitter :=
  match entry_view e content with
  | None => e
  | Some (_, loss_attempts, last_sent_at) =>
      let due := last_sent_at + pto_for_attempt_with env.(env_rto_backoff_max) e.(em_rtt) loss_attempts in
      with_deferred (defer_insert (mkDeferred content judged_ws due) e.(em_deferred)) e
  end.

(** The loop of [take_due_deferred] on the heap; [out] is what it took so far. *)
Fixpoint due_go (e : ReliableTileEmitter) (now : Z) (n : nat) (heap : list DeferredPass) (out : list (Content * Z)) :
    list DeferredPass * list (Content * Z) :=
  if negb (length out <? n)%nat then (heap, out)
  else
    match heap with
    | [] => ([], out)
    | d :: rest =>
        if now <? d.(df_due) then (heap, out)
        else
          match entry_view e d.(df_key) with
          | Some (latest_ws, _, _) =>
              due_go e now n rest (if latest_ws =? d.(df_judged_ws) then out ++ [(d.(df_key), d.(df_judged_ws))] else out)
          | None => due_go e now n rest out
          end
    end.

Definition take_due_deferred (now : Z) (n : nat) (e : ReliableTileEmitter) : ReliableTileEmitter * list (Content * Z) :=
  let '(heap, out) := due_go e now n e.(em_deferred) [] in (with_deferred heap e, out).

Definition next_deferred_due (e : ReliableTileEmitter) : option Z := df_due <$> head e.(em_deferred).

Definition request_retransmit (env : EmitterEnv) (content : Content) (wire_seq : Z) (cause : RetxCause)
    (e : ReliableTileEmitter) : ReliableTileEmitter * RetxRequest :=
  if env.(env_no_rto) then (e, Disabled)
  else
    let r := classify_retx e content wire_seq cause in
    (match r with
     | Queued => with_pending_loss_set ({[ content ]} ∪ e.(em_pending_loss_set))
                   (with_pending_loss (e.(em_pending_loss) ++ [(content, cause, wire_seq)]) e)
     | ContentGone => count verdict_content_gone e
     | NewerInFlight => count verdict_newer_in_flight e
     | AlreadyQueued => count verdict_already_queued e
     | Deferred => defer env content wire_seq (count verdict_deferred_to_pto e)
     | NotRetransmitted => count h264_p_verdicts_not_resent e
     | Disabled => e
     end, r).

(** ** The probe timeout *)

Definition pto_deadline (env : EmitterEnv) (e : ReliableTileEmitter) : option Z :=
  if (pending_cache_entries e =? 0)%nat && h264_is_empty e.(em_h264) then None
  else
    match e.(em_latest_departure_at) with
    | None => None
    | Some departed =>
        let base := foldl Z.max departed (omap id [e.(em_last_ack_at); e.(em_last_pto_fire_at)]) in
        Some (base + pto_for_attempt_with env.(env_rto_backoff_max) e.(em_rtt) (Z.min e.(em_rtt).(re_pto_count) 8))
    end.

Definition pto_due (env : EmitterEnv) (now : Z) (e : ReliableTileEmitter) : bool :=
  match pto_deadline env e with Some d => d <=? now | None => false end.

Definition note_pto_fire (now : Z) (e : ReliableTileEmitter) : ReliableTileEmitter :=
  count pto_fires (with_last_pto_fire_at (Some now) (with_rtt (on_pto_fire e.(em_rtt) now) e)).

Definition pto (env : EmitterEnv) (e : ReliableTileEmitter) : Z := pto_for_attempt_with env.(env_rto_backoff_max) e.(em_rtt) 0.

(** ** Draining *)

Definition take_transmissions (e : ReliableTileEmitter) : ReliableTileEmitter * list EmittedDatagram :=
  (with_transmissions [] e, e.(em_transmissions)).

Definition next_emission (now : Z) (e : ReliableTileEmitter) : outcome () (ReliableTileEmitter * option Emission) :=
  let next := wa_peek e.(em_alloc) in
  '(q, popped) ← queue_pop e.(em_queue) next now;
  Ok (with_queue q e, popped).

Definition hold_emission (emission : Emission) (e : ReliableTileEmitter) : ReliableTileEmitter :=
  with_queue (push_front e.(em_queue) emission) e.

Definition settle_emission (emission : Emission) (outcome : SendOutcome) (e : ReliableTileEmitter) :
    ReliableTileEmitter * bool :=
  match outcome with
  | Sent => (match emission with EParity _ _ => count parity_emitted e | ESource _ _ => e end, true)
  | Rejected =>
      (note_emission_queue_depth (count send_rejected (with_queue (push_front e.(em_queue) emission) e)), false)
  end.

Definition emission_bytes (em : Emission) : list Z := match em with ESource b _ | EParity b _ => b end.

(** [drain], with [send] and its state [s] for the sender; [fuel] bounds the emissions that can be
    waiting. *)
Fixpoint drain_go {S} (send : S → list Z → S * SendOutcome) (now : Z) (fuel : nat) (s : S) (e : ReliableTileEmitter) :
    outcome () (ReliableTileEmitter * S) :=
  match fuel with
  | O => Ok (e, s)
  | S fuel =>
      '(e, popped) ← next_emission now e;
      match popped with
      | None => Ok (e, s)
      | Some emission =>
          let '(s, sent) := send s (emission_bytes emission) in
          let departed := match emission, sent with
                          | ESource b _, Sent => (12 <=? length b)%nat
                          | _, _ => false
                          end in
          let '(e, go_on) := settle_emission emission sent e in
          if negb go_on then Ok (e, s)
          else drain_go send now fuel s (if departed then on_departed now e else e)
      end
  end.

Definition waiting_emissions (e : ReliableTileEmitter) : nat :=
  (length e.(em_queue).(eq_queue) + length e.(em_queue).(eq_pending_parity))%nat.

Definition drain {S} (send : S → list Z → S * SendOutcome) (now : Z) (s : S) (e : ReliableTileEmitter) :
    outcome () (ReliableTileEmitter * S) :=
  drain_go send now (waiting_emissions e + 1) s e.
