(* ===== verification/EmitterSession.v ===== *)
(** * Sessions of the reliable emitter

    Any sequence of the operations of [Emitter], with the transmissions the transport has
    collected and the emissions it has taken off the queue.  The invariant ties the four
    things that have to agree: what was reported to the ledger, what was put on the
    queue, the numbers the allocator gave, and the parity groups.

    The theorems: a session never panics; the reports are the pushed datagrams, one for
    one and in order, numbered by the allocator; every datagram is the submission it
    stands for with only its stamps rewritten; and every parity datagram that leaves
    gives the client back any one datagram of its group. *)

From Stdlib Require Import ZArith Lia.
From S2P Require Import Prelude Wire EmitIds Parity MapTotals RetxCache FrameCache EmissionQueue Rtt Emitter.
From stdpp Require Import base option numbers list gmap sets sorting.

Local Open Scope Z_scope.

(** ** Operations *)

(** What becomes of an emission: sent, refused by the transport, held by the admission
    gate, or retired as too large. *)
Inductive fate : Type := FSent | FRejected | FHeld | FRetired.

Inductive emit_op : Type :=
| ESubmit (items : list (EmitKey * list Z * Z * option ProbeTag)) (retry : list bool) (now : Z)
| ESubmitFragment (frag : H264Submit) (now : Z)
| ESubmitPad (template : list Z) (probe : ProbeTag) (now : Z)
| EExpirePad (now : Z)
| EPadAck (wire_seq : Z)
| EPadsClear
| EFragmentAck (frame_seq frag_idx : Z)
| ESupersede (frame_seq : Z)
| EPurge (doomed : Z → bool)
| EDropFrom (frame_seq : Z)
| EDropFrame (frame_seq : Z)
| ETrim
| EAck (keys : list EmitKey)
| ENoteAck (received_at : Z)
| EAckOrigin (key : EmitKey) (wire_seq : Z)
| ETickNacks (now max_retransmits max_bytes n : Z)
| ETickLoss (now max_retransmits max_bytes n : Z)
| ERetire (now older_than : Z)
| ENack (entries : list EmitKey)
| ECancel (tile_x tile_y : Z)
| EClear
| EReset
| EDeparted (at_ : Z)
| ERequest (content : Content) (wire_seq : Z) (cause : RetxCause)
| ETakeDue (now : Z) (n : nat)
| EPtoFire (now : Z)
| ESample (rtt : Z)
| ESetFec (on : bool)
| ESetOverhead (bytes : nat)
| ETake
| EOffer (now : Z) (f : fate).

(** What a step hands to the transport: reports collected, emissions gone. *)
Definition emitted : Type := list EmittedDatagram * list Emission.

Definition quiet (r : outcome () ReliableTileEmitter) : outcome () (ReliableTileEmitter * emitted) :=
  e ← r; Ok (e, ([], [])).

Definition offer (now : Z) (f : fate) (e : ReliableTileEmitter) : outcome () (ReliableTileEmitter * emitted) :=
  '(e, popped) ← next_emission now e;
  Ok (match popped with
      | None => (e, ([], []))
      | Some em =>
          match f with
          | FSent => ((settle_emission em Sent e).1, ([], [em]))
          | FRejected => ((settle_emission em Rejected e).1, ([], []))
          | FHeld => (hold_emission em e, ([], []))
          | FRetired => (e, ([], [em]))
          end
      end).

Definition emit_step (env : EmitterEnv) (e : ReliableTileEmitter) (op : emit_op) :
    outcome () (ReliableTileEmitter * emitted) :=
  match op with
  | ESubmit items retry now => quiet (submit_batch_marking_retries items retry now e)
  | ESubmitFragment frag now => quiet (submit_h264_fragment frag now e)
  | ESubmitPad template probe now => quiet ('(e, _) ← submit_h264_pad template probe now e; Ok e)
  | EExpirePad now => quiet (expire_h264_pad now e)
  | EPadAck ws => quiet ('(pads, _) ← pads_remove e.(em_pads) ws; Ok (with_pads pads e))
  | EPadsClear => quiet (Ok (with_pads (pads_clear e.(em_pads)) e))
  | EFragmentAck f i => quiet ('(e, _) ← on_h264_ack f i e; Ok e)
  | ESupersede f => quiet ('(e, _) ← supersede_h264_before f e; Ok e)
  | EPurge doomed => quiet ('(e, _) ← purge_queued_h264 doomed e; Ok e)
  | EDropFrom f => quiet (drop_h264_from f e)
  | EDropFrame f => quiet (drop_h264_frame f e)
  | ETrim => quiet (trim_h264_cache e)
  | EAck keys => quiet (emitter_on_ack keys e)
  | ENoteAck at_ => quiet (Ok (note_ack at_ e))
  | EAckOrigin key ws => quiet (note_ack_origin key ws e)
  | ETickNacks now mr mb n => quiet ('(e, _, _) ← tick_nacks_budgeted now mr mb n e; Ok e)
  | ETickLoss now mr mb n => quiet ('(e, _, _) ← tick_loss_budgeted now mr mb n e; Ok e)
  | ERetire now older => quiet ('(e, _) ← retire_stuck now older e; Ok e)
  | ENack entries => quiet (Ok (on_nack entries e))
  | ECancel x y => quiet (emitter_cancel_for_tile x y e)
  | EClear => quiet (Ok (clear_cache e))
  | EReset => quiet (Ok (reset_connection_state e))
  | EDeparted at_ => quiet (Ok (on_departed at_ e))
  | ERequest content ws cause => quiet (Ok (request_retransmit env content ws cause e).1)
  | ETakeDue now n => quiet (Ok (take_due_deferred now n e).1)
  | EPtoFire now => quiet (Ok (note_pto_fire now e))
  | ESample rtt => quiet (Ok (with_rtt (on_sample e.(em_rtt) rtt) e))
  | ESetFec on => quiet (Ok (with_tile_fec on e))
  | ESetOverhead b => quiet (Ok (with_wire_overhead b e))
  | ETake => let '(e, l) := take_transmissions e in Ok (e, (l, []))
  | EOffer now f => offer now f e
  end.

Fixpoint emit_run (env : EmitterEnv) (e : ReliableTileEmitter) (ops : list emit_op) :
    outcome () (ReliableTileEmitter * emitted) :=
  match ops with
  | [] => Ok (e, ([], []))
  | op :: ops =>
      '(e, a) ← emit_step env e op;
      '(e, b) ← emit_run env e ops;
      Ok (e, (a.1 ++ b.1, a.2 ++ b.2))
  end.

(** What the callers hand in: the fragmenters of the protocol crate build the datagrams. *)
Definition tile_source (b : list Z) : Prop := is_tile_datagram b = true ∧ (16 ≤ length b)%nat ∧ Z.of_nat (length b) < 2 ^ 16.

Definition emit_op_ok (op : emit_op) : Prop :=
  match op with
  | ESubmit items _ _ => Forall (λ it, tile_source it.1.1.2) items
  | ESubmitFragment frag _ => (FRAME_HEADER_SIZE ≤ length frag.(hs_bytes))%nat
  | ESubmitPad template _ _ => (FRAME_HEADER_SIZE ≤ length template)%nat
  | _ => True
  end.
#[export] Instance tile_source_dec b : Decision (tile_source b).
Proof. unfold tile_source. apply _. Defined.
#[export] Instance emit_op_ok_dec op : Decision (emit_op_ok op).
Proof. destruct op; apply _. Defined.

(** The submissions of a session; padding has no content but its own number, so its
    template is recorded apart. *)
Inductive submission : Type :=
| SubTile (key : EmitKey) (b : list Z)
| SubFragment (frame_seq frag_idx : Z) (b : list Z)
| SubPad (template : list Z).

Definition op_submissions (op : emit_op) : list submission :=
  match op with
  | ESubmit items _ _ => (λ it, SubTile it.1.1.1 it.1.1.2) <$> items
  | ESubmitFragment frag _ => [SubFragment frag.(hs_frame_seq) frag.(hs_frag_idx) frag.(hs_bytes)]
  | ESubmitPad template _ _ => [SubPad template]
  | _ => []
  end.
Definition submissions (ops : list emit_op) : list submission := ops ≫= op_submissions.

(** [b] is [src] with bytes [8..n] rewritten. *)
Definition restamped (n : nat) (src b : list Z) : Prop := take 8 b = take 8 src ∧ drop n b = drop n src.

(** [b] carries the content: it is a submission of it, with the transmission number (and
    the emission time, for a tile; the padding mark, for padding) written over. *)
Definition carries_content (subs : list submission) (c : Content) (b : list Z) : Prop :=
  match c with
  | CTile k => ∃ src, SubTile k src ∈ subs ∧ restamped 16 src b
  | CH264Frag f i => ∃ src, SubFragment f i src ∈ subs ∧ restamped 12 src b
  | CPad _ => ∃ src, SubPad src ∈ subs ∧ restamped 17 src b ∧ FRAME_FLAG_PAD = Z.land FRAME_FLAG_PAD (default 0 (b !! 16%nat))
  end.

(** The report [t] is about the pushed datagram [em]. *)
Definition reports (subs : list submission) (em : Emission) (t : EmittedDatagram) : Prop :=
  ∃ b c, em = ESource b c ∧ t.(ed_wire_bytes) = length b ∧ take 4 (drop 8 b) = be_bytes 4 t.(ed_wire_seq)
    ∧ (content_tile t.(ed_content) ≠ None → takes_time b = true → take 4 (drop 12 b) = be_bytes 4 (u32 t.(ed_emit_us)))
    ∧ carries_content subs t.(ed_content) b.

(** ** Stamps *)

Section stamps.
Context (at_ : nat) (v b : list Z) (Hfit : (at_ + length v ≤ length b)%nat).

Lemma length_stamp : length (stamp at_ v b) = length b.
Proof. unfold stamp. lens. Qed.

Lemma take_stamp n : (n ≤ at_)%nat → take n (stamp at_ v b) = take n b.
Proof. intros Hn. unfold stamp. rewrite take_app_le by lens. rewrite take_take. f_equal. lia. Qed.

Lemma drop_stamp n : (at_ + length v ≤ n)%nat → drop n (stamp at_ v b) = drop n b.
Proof.
  intros Hn. unfold stamp. rewrite drop_app_ge, drop_app_ge by lens. rewrite drop_drop. f_equal. lens.
Qed.

Lemma read_stamp : take (length v) (drop at_ (stamp at_ v b)) = v.
Proof.
  unfold stamp. rewrite drop_app_ge by lens. rewrite length_take_le, Nat.sub_diag by lia. apply take_app_length.
Qed.

Lemma read_stamp_off n k : (k + n ≤ at_)%nat → take n (drop k (stamp at_ v b)) = take n (drop k b).
Proof.
  intros Hn. by rewrite !take_drop_commute, take_stamp by lia.
Qed.
End stamps.

Lemma head_take {A} n (l l' : list A) : (0 < n)%nat → take n l = take n l' → head l = head l'.
Proof. destruct n, l, l'; cbn; intros; try lia; congruence. Qed.

Lemma takes_time_agree b b' : length b = length b' → take 8 b = take 8 b' → takes_time b = takes_time b'.
Proof. intros Hl Ht. unfold takes_time. by rewrite Hl, (head_take 8 b b') by (done || lia). Qed.

Lemma is_tile_agree b b' : length b = length b' → take 8 b = take 8 b' → is_tile_datagram b = is_tile_datagram b'.
Proof.
  intros Hl Ht. unfold is_tile_datagram. rewrite Hl. replace (take 4 b) with (take 4 b'); [done|].
  pose proof (f_equal (take 4) Ht) as H. by rewrite !take_take in H.
Qed.

(** A tile datagram stamped for transmission. *)
Definition stamped_tile (ws emit_us : Z) (b : list Z) : list Z := stamp_emit_us emit_us (stamp_wire_seq ws b).

Lemma stamped_tile_spec ws t b : (16 ≤ length b)%nat →
  let b' := stamped_tile ws t b in
  length b' = length b ∧ restamped 16 b b' ∧ take 4 (drop 8 b') = be_bytes 4 ws
  ∧ takes_time b' = takes_time b ∧ (takes_time b' = true → take 4 (drop 12 b') = be_bytes 4 (u32 t))
  ∧ is_tile_datagram b' = is_tile_datagram b.
Proof.
  intros Hl. unfold stamped_tile. set (b1 := stamp_wire_seq ws b).
  assert (length b1 = length b ∧ take 8 b1 = take 8 b ∧ drop 12 b1 = drop 12 b ∧ take 4 (drop 8 b1) = be_bytes 4 ws)
    as (Hl1 & Ht1 & Hd1 & Hw1).
  { unfold b1, stamp_wire_seq. rewrite (proj2 (Nat.leb_le _ _)) by lia.
    assert (8 + length (be_bytes 4 ws) ≤ length b)%nat as Hf by (rewrite length_be_bytes; lia).
    split_and!.
    - by apply length_stamp.
    - by apply take_stamp.
    - apply drop_stamp; rewrite ?length_be_bytes; lia.
    - rewrite <-(length_be_bytes 4 ws) at 1. by apply read_stamp. }
  clearbody b1. assert (drop 16 b1 = drop 16 b) as Hd16.
  { change 16%nat with (12 + 4)%nat. by rewrite <-!drop_drop, Hd1. }
  assert (takes_time b1 = takes_time b) as Htt by (by apply takes_time_agree).
  assert (is_tile_datagram b1 = is_tile_datagram b) as Hti by (by apply is_tile_agree).
  unfold restamped, stamp_emit_us. destruct (takes_time b1) eqn:Et.
  2:{ split_and!; try done; congruence. }
  assert (12 + length (be_bytes 4 (u32 t)) ≤ length b1)%nat as Hf by (rewrite length_be_bytes; lia).
  set (b2 := stamp 12 _ b1).
  assert (length b2 = length b) as Hl2 by (unfold b2; rewrite length_stamp; done).
  assert (take 8 b2 = take 8 b) as Ht2 by (unfold b2; rewrite take_stamp by lia; done).
  split_and!.
  - done.
  - done.
  - rewrite <-Hd16. apply drop_stamp; rewrite ?length_be_bytes; lia.
  - unfold b2. rewrite read_stamp_off by lia. done.
  - by apply takes_time_agree.
  - intros _. rewrite <-(length_be_bytes 4 (u32 t)) at 1. by apply read_stamp.
  - by apply is_tile_agree.
Qed.

Lemma restamped_trans n a b c : restamped n a b → restamped n b c → restamped n a c.
Proof. intros [? ?] [? ?]. split; congruence. Qed.

(** An H.264 datagram stamped for transmission. *)
Lemma stamped_fragment_spec ws b : (12 ≤ length b)%nat →
  let b' := stamp 8 (be_bytes 4 ws) b in
  length b' = length b ∧ restamped 12 b b' ∧ take 4 (drop 8 b') = be_bytes 4 ws ∧ takes_time b' = takes_time b.
Proof.
  intros Hl. assert (8 + length (be_bytes 4 ws) ≤ length b)%nat as Hf by (rewrite length_be_bytes; lia).
  cbn zeta. split_and!.
  - by apply length_stamp.
  - split; [by apply take_stamp|]. apply drop_stamp; rewrite ?length_be_bytes; lia.
  - rewrite <-(length_be_bytes 4 ws) at 1. by apply read_stamp.
  - apply takes_time_agree; [by apply length_stamp|by apply take_stamp].
Qed.

Lemma pad_bytes_spec ws b : (17 ≤ length b)%nat →
  let b' := pad_bytes ws b in
  length b' = length b ∧ restamped 17 b b' ∧ take 4 (drop 8 b') = be_bytes 4 ws
  ∧ FRAME_FLAG_PAD = Z.land FRAME_FLAG_PAD (default 0 (b' !! 16%nat)).
Proof.
  intros Hl. unfold pad_bytes. rewrite (proj2 (Nat.ltb_lt _ _)) by lia.
  destruct (stamped_fragment_spec ws b) as (L & [Rt Rd] & W & _); [lia|]. set (b1 := stamp 8 _ b) in *. clearbody b1.
  split_and!.
  - by rewrite length_alter.
  - split.
    + rewrite <-Rt. apply list_eq. intros i. destruct (decide (i < 8)%nat).
      * rewrite !lookup_take_lt by done. by rewrite list_lookup_alter_ne by lia.
      * by rewrite !lookup_take_ge by lia.
    + apply list_eq. intros i. rewrite !lookup_drop, list_lookup_alter_ne by lia.
      replace (17 + i)%nat with (12 + (5 + i))%nat by lia. by rewrite <-!lookup_drop, Rd.
  - rewrite <-W. apply list_eq. intros i. destruct (decide (i < 4)%nat).
    + rewrite !lookup_take_lt, !lookup_drop by done. by rewrite list_lookup_alter_ne by lia.
    + by rewrite !lookup_take_ge by lia.
  - rewrite list_lookup_alter_eq. destruct (b1 !! 16%nat) as [x|] eqn:E; cbn.
    + rewrite Z.land_lor_distr_r, Z.land_diag. symmetry. apply Z.bits_inj'. intros n _.
      rewrite Z.lor_spec, Z.land_spec. destruct (Z.testbit FRAME_FLAG_PAD n), (Z.testbit x n); done.
    + apply lookup_ge_None_1 in E. lia.
Qed.

(** ** The wire *)

Definition wa_after (n : nat) (a : WireSeqAllocator) : WireSeqAllocator := Nat.iter n (λ a, (wa_allocate a).2) a.

Lemma wa_run_snoc n : ∀ a, wa_run (S n) a = wa_run n a ++ [(wa_allocate (wa_after n a)).1].
Proof.
  induction n as [|n IH]; intros a.
  - cbn. by destruct (wa_allocate a).
  - cbn [wa_run]. destruct (wa_allocate a) as [v a'] eqn:E. rewrite <-app_comm_cons. f_equal.
    change (let '(v, a) := wa_allocate a' in v :: wa_run n a) with (wa_run (S n) a'). rewrite IH.
    unfold wa_after. rewrite Nat.iter_succ_r, E. done.
Qed.

Lemma wa_after_width n : in_width 32 (wa_after n wa_new).(wa_next).
Proof.
  destruct n as [|n]; [done|]. cbn. unfold wa_allocate. destruct (_ =? _); cbn; by apply wrap_in_width.
Qed.

Lemma wa_allocate_width a : in_width 32 a.(wa_next) → in_width 32 (wa_allocate a).1.
Proof. intros H. unfold wa_allocate. by destruct (_ =? _). Qed.

(** A datagram of a parity group: a tile datagram that was pushed under its number. *)
Definition member (pushes : list Emission) (m : Z * list Z) : Prop :=
  in_width 32 m.1 ∧ tile_source m.2 ∧ take 4 (drop 8 m.2) = be_bytes 4 m.1 ∧ ∃ c, ESource m.2 c ∈ pushes.

(** A parity datagram: the envelope of a group of pushed datagrams. *)
Definition group_parity (pushes : list Emission) (em : Emission) : Prop :=
  ∃ r g, em = EParity (tp_encode (envelope_of r) []) r.(gr_group_first_wire_seq)
    ∧ wire_group r g ∧ Z.of_nat (length g) = FEC_GROUP_SIZE_K ∧ Forall (member pushes) g.

(** [qops]: what was done to the queue; [h]: the run the group builder holds; [rp]: every
    report of the session; [left]: every emission gone. *)
Record wire_ok (qops : list queue_op) (h : list (Z * list Z)) (rp : list EmittedDatagram) (left : list Emission)
    (subs : list submission) (al : WireSeqAllocator) (q : EmissionQueue) (g : GroupBuilder) : Prop := {
  wk_run : queue_run queue_new qops = Ok (q, left);
  wk_reports : Forall2 (reports subs) (pushed qops) rp;
  wk_seqs : ed_wire_seq <$> rp = wa_run (length rp) wa_new;
  wk_alloc : al = wa_after (length rp) wa_new;
  wk_group : represents g h ∧ Z.of_nat g.(gb_target_k) = FEC_GROUP_SIZE_K ∧ (length h < g.(gb_target_k))%nat;
  wk_members : Forall (member (pushed qops)) h;
  wk_parity : Forall (group_parity (pushed qops)) (scheduled qops);
}.

Lemma member_mono l l' m : l ⊆ l' → member l m → member l' m.
Proof. intros H (? & ? & ? & c & ?). split_and!; try done. exists c. by apply H. Qed.

Lemma group_parity_mono l l' em : l ⊆ l' → group_parity l em → group_parity l' em.
Proof.
  intros H (r & g & ? & ? & ? & Hg). exists r, g. split_and!; try done.
  eapply Forall_impl; [exact Hg|]. intros m. by apply member_mono.
Qed.

Lemma carries_content_mono subs subs' c b : subs ⊆ subs' → carries_content subs c b → carries_content subs' c b.
Proof. intros H. destruct c; cbn; intros (src & ? & ?); exists src; (split; [by apply H|done]). Qed.

Lemma reports_mono subs subs' em t : subs ⊆ subs' → reports subs em t → reports subs' em t.
Proof.
  intros H (b & c & ? & ? & ? & ? & ?). exists b, c. split_and!; try done. by eapply carries_content_mono.
Qed.

Lemma wire_subs qops h rp left subs subs' al q g : subs ⊆ subs' →
  wire_ok qops h rp left subs al q g → wire_ok qops h rp left subs' al q g.
Proof.
  intros H [? Hr ? ? ? ? ?]. split; try done. eapply Forall2_impl; [exact Hr|]. intros em t. by apply reports_mono.
Qed.

Lemma incl_app_l' {A} (l k : list A) : l ⊆ l ++ k.
Proof. intros x Hx. apply elem_of_app. by left. Qed.

Lemma queue_run_step qops q left op q' out : queue_run queue_new qops = Ok (q, left) →
  queue_step q op = Ok (q', out) → queue_run queue_new (qops ++ [op]) = Ok (q', left ++ out).
Proof. intros H1 H2. by rewrite queue_run_snoc, H1, bind_Ok, H2, bind_Ok. Qed.

(** A numbered datagram is reported and pushed. *)
Lemma push_wire qops h rp left subs al q g b c t : wire_ok qops h rp left subs al q g →
  reports subs (ESource b c) t → t.(ed_wire_seq) = (wa_allocate al).1 →
  wire_ok (qops ++ [QPush b c]) h (rp ++ [t]) left subs (wa_allocate al).2 (push_source q b c) g.
Proof.
  intros [Hrun Hrep Hseq Hal Hg Hm Hp] Ht Hws.
  assert (pushed qops ⊆ pushed (qops ++ [QPush b c])) as Hsub by (rewrite pushed_snoc; apply incl_app_l').
  split.
  - rewrite <-(app_nil_r left). by eapply queue_run_step.
  - rewrite pushed_snoc. apply Forall2_app; [done|]. by constructor.
  - rewrite fmap_app, length_app. cbn [length]. rewrite Nat.add_1_r, wa_run_snoc, Hseq. cbn. by rewrite Hws, Hal.
  - rewrite length_app. cbn [length]. rewrite Nat.add_1_r. cbn. by rewrite Hal.
  - done.
  - eapply Forall_impl; [exact Hm|]. intros m. by apply member_mono.
  - rewrite scheduled_snoc, app_nil_r. eapply Forall_impl; [exact Hp|]. intros em. by apply group_parity_mono.
Qed.

Lemma member_seqs pushes h : Forall (member pushes) h → seqs_ok h.
Proof. intros H. eapply Forall_impl; [exact H|]. by intros [w b] (? & _). Qed.

Lemma member_wire pushes r g : is_group r g → Z.of_nat (length g) = FEC_GROUP_SIZE_K → Forall (member pushes) g →
  wire_group r g ∧ in_width 32 r.(gr_group_first_wire_seq).
Proof.
  intros Hr Hl Hg. unfold FEC_GROUP_SIZE_K in Hl. split.
  - split_and!; [done|by eapply member_seqs|lia|]. eapply Forall_impl; [exact Hg|].
    intros [w b] (_ & (? & _ & ?) & _). done.
  - destruct Hr as (_ & Hf & _). destruct g as [|[w b] g]; [done|]. injection Hf as <-.
    by apply Forall_cons in Hg as [(? & _) _].
Qed.

Lemma wsub_wadd_any f i : in_width 32 f → wsub32 (wadd32 f i) i = f.
Proof.
  intros Hf. unfold wsub32, wadd32, wrap. rewrite Zminus_mod_idemp_l. replace (f + i - i) with f by lia.
  by apply Z.mod_small.
Qed.

Lemma extend_members pushes h ws b : Forall (member pushes) h → member pushes (ws, b) →
  Forall (member pushes) (extend h ws b).
Proof.
  intros Hh Hm. unfold extend. assert (Forall (member pushes) [(ws, b)]) by (by apply Forall_singleton).
  destruct (last h) as [[l bl]|]; [|done]. destruct (_ =? _); [by apply Forall_app|done].
Qed.

(** A tile datagram is numbered, fed to the parity groups, and pushed. *)
Lemma feed_group_wire qops h rp left subs al e b c t :
  wire_ok qops h rp left subs al e.(em_queue) e.(em_group) →
  reports subs (ESource b c) t → t.(ed_wire_seq) = (wa_allocate al).1 → tile_source b →
  take 4 (drop 8 b) = be_bytes 4 t.(ed_wire_seq) →
  ∃ g' q', feed_group t.(ed_wire_seq) b e = Ok (with_queue q' (with_group g' e))
    ∧ ∃ qops' h', wire_ok qops' h' (rp ++ [t]) left subs (wa_allocate al).2 (push_source q' b c) g'.
Proof.
  intros Hwk Ht Hws Hb Hn. unfold feed_group. destruct (em_tile_fec e); cbn [negb].
  2:{ exists (em_group e), (em_queue e). split; [by destruct e|]. eexists _, _. by apply push_wire. }
  pose proof (push_wire _ _ _ _ _ _ _ _ b c t Hwk Ht Hws) as [Hrun' Hrep Hseq Hal Hg Hm Hp].
  pose proof Hwk as [Hrun _ _ Hal0 _ _ _]. destruct Hg as (Hr & Hk & Hlen).
  assert (in_width 32 t.(ed_wire_seq)) as Hw by (rewrite Hws, Hal0; apply wa_allocate_width, wa_after_width).
  set (pushes := pushed (qops ++ [QPush b c])) in *.
  assert (member pushes (t.(ed_wire_seq), b)) as Hmem.
  { split_and!; try done. exists c. unfold pushes. rewrite pushed_snoc. apply elem_of_app. right. by left. }
  destruct (group_add_spec (em_group e) h t.(ed_wire_seq) b Hr (member_seqs _ _ Hm) Hw) as (g' & r & -> & Hk' & Hres);
    [unfold FEC_GROUP_SIZE_K in Hk; lia|done|]. rewrite bind_Ok.
  pose proof (extend_members _ _ _ _ Hm Hmem) as Hext. set (h' := extend h (ed_wire_seq t) b) in *.
  destruct r as [r|].
  - destruct Hres as (Hgr & Hl & Hr0). destruct (member_wire pushes r h' Hgr) as [Hwg Hfirst]; [by rewrite Hl|done|].
    set (after := wadd32 _ _). set (par := tp_encode _ _).
    exists g', (schedule_parity (em_queue e) after par). split; [done|].
    exists (qops ++ [QSchedule after par] ++ [QPush b c]), [].
    assert (pushed (qops ++ [QSchedule after par] ++ [QPush b c]) = pushes) as Ep
      by (unfold pushes; by rewrite app_assoc, !pushed_snoc, app_nil_r).
    split; rewrite ?Ep; try done.
    + rewrite app_assoc, <-(app_nil_r left). eapply queue_run_step; [|done]. rewrite <-(app_nil_r left).
      by eapply queue_run_step.
    + cbn. split_and!; [done|by rewrite Hk'|]. unfold FEC_GROUP_SIZE_K in Hk. lia.
    + rewrite app_assoc, !scheduled_snoc, app_nil_r. apply Forall_app. split; [by rewrite scheduled_snoc, app_nil_r in Hp|].
      apply Forall_singleton. exists r, h'. split_and!; try done.
      * unfold parity_of, par, after. cbn. by rewrite wsub_wadd_any.
      * by rewrite Hl.
  - destruct Hres as (Hr' & Hl). exists g', (em_queue e). split; [by destruct e|].
    exists (qops ++ [QPush b c]), h'. split; try done. by rewrite Hk'.
Qed.

Lemma queue_wire qops h rp left subs al q g op q' out : wire_ok qops h rp left subs al q g →
  pushed [op] = [] → scheduled [op] = [] → queue_step q op = Ok (q', out) →
  wire_ok (qops ++ [op]) h rp (left ++ out) subs al q' g.
Proof.
  intros [Hrun Hrep Hseq Hal Hg Hm Hp] E1 E2 Hs. split; rewrite ?pushed_snoc, ?scheduled_snoc, ?E1, ?E2, ?app_nil_r; try done.
  by eapply queue_run_step.
Qed.

(** ** The caches and the attribution of resends *)

(** A cached datagram is one of its content, of the kind the wire takes. *)
Definition held_tile (subs : list submission) (k : EmitKey) (en : CacheEntry) : Prop :=
  tile_source en.(ce_datagram) ∧ carries_content subs (CTile k) en.(ce_datagram).
Definition held_fragment (subs : list submission) (fi : Z * Z) (en : CacheEntry) : Prop :=
  (12 ≤ length en.(ce_datagram))%nat ∧ carries_content subs (CH264Frag fi.1 fi.2) en.(ce_datagram).

Definition tiles_held (subs : list submission) (c : RetransmitCache) : Prop :=
  ∃ s, cache_refines c s ∧ map_Forall (held_tile subs) s.(cs_live).
Definition fragments_held (subs : list submission) (c : H264Cache) : Prop :=
  ∃ live, flat_ok c live ∧ map_Forall (held_fragment subs) live.

Definition spurious_fires (o : ResendOrigin) : nat := if o.(rg_counted_spurious) then Z.to_nat o.(rg_fires) else 0.

(** The fires counted as spurious are not more than the counter they can be taken off of. *)
Definition origins_ok (m : gmap EmitKey ResendOrigin) (spurious : Z) : Prop :=
  map_Forall (λ _ o, 0 ≤ o.(rg_fires)) m ∧ Z.of_nat (map_total spurious_fires m) ≤ spurious.

(** The pending requests: the sets are those of the lists, nothing waits twice, and the
    deferred passes are in the order they fall due. *)
Record requests_ok (nacks : list EmitKey) (nack_set : gset EmitKey) (loss : list (Content * RetxCause * Z))
    (loss_set : gset Content) (deferred : list DeferredPass) : Prop := {
  rq_nacks : NoDup nacks;
  rq_nack_set : nack_set = list_to_set nacks;
  rq_loss : NoDup loss.*1.*1;
  rq_loss_set : loss_set = list_to_set loss.*1.*1;
  rq_deferred : StronglySorted (λ d d', df_due d ≤ df_due d') deferred;
}.

Record session_ok (subs : list submission) (taken : list EmittedDatagram) (left : list Emission)
    (e : ReliableTileEmitter) : Prop := {
  so_wire : ∃ qops h, wire_ok qops h (taken ++ e.(em_transmissions)) left subs e.(em_alloc) e.(em_queue) e.(em_group);
  so_tiles : tiles_held subs e.(em_cache);
  so_frags : fragments_held subs e.(em_h264);
  so_pads : pads_ok e.(em_pads);
  so_origins : origins_ok e.(em_resend_origin) (e.(em_stats) loss_path_resends_spurious);
  so_requests : requests_ok e.(em_pending_nacks) e.(em_pending_nack_set) e.(em_pending_loss) e.(em_pending_loss_set)
                  e.(em_deferred);
}.

Lemma map_Forall_alter_if {K A} `{Countable K} (P : K → A → Prop) (f : A → A) (k : K) (m : gmap K A) :
  (∀ x, m !! k = Some x → P k x → P k (f x)) → map_Forall P m → map_Forall P (alter f k m).
Proof.
  intros Hf Hm i x. destruct (decide (i = k)) as [->|Hne].
  - rewrite lookup_alter_eq. intros (y & Hy & ->)%fmap_Some. apply Hf; [done|by apply Hm].
  - rewrite lookup_alter_ne by done. apply Hm.
Qed.

Lemma tiles_step subs c op : op_ok op → tiles_held subs c →
  match op with OpInsert k en => held_tile subs k en | _ => True end →
  ∃ c', cache_step c op = Ok c' ∧ tiles_held subs c'.
Proof.
  intros Hop (s & Hs & Hm) Hin. destruct (cache_step_refines c s op Hop Hs) as (c' & E & H').
  exists c'. split; [done|]. eexists. split; [exact H'|]. destruct op as [k en|k f|k|x y|now old|]; cbn.
  - by apply map_Forall_insert_2.
  - apply map_Forall_alter_if; [|done]. intros en _. unfold held_tile. cbn in Hop. by rewrite !Hop.
  - by apply map_Forall_delete.
  - intros k en [H _]%map_lookup_filter_Some. by apply Hm.
  - intros k en [H _]%map_lookup_filter_Some. by apply Hm.
  - apply map_Forall_empty.
Qed.

Lemma fragments_step subs c op : frame_op_ok op → fragments_held subs c →
  match op with FInsert f i _ en => held_fragment subs (f, i) en | _ => True end →
  ∃ c', frame_step c op = Ok c' ∧ fragments_held subs c'.
Proof.
  intros Hop (s & Hs & Hm) Hin. destruct (frame_step_flat c s op Hop Hs) as (c' & E & H').
  exists c'. split; [done|]. eexists. split; [exact H'|]. destruct op as [f i b en|f i g|f i|f|f|f|n|]; cbn.
  - by apply map_Forall_insert_2.
  - apply map_Forall_alter_if; [|done]. intros en _. unfold held_fragment. cbn in Hop. by rewrite !Hop.
  - by apply map_Forall_delete.
  - intros k en [H _]%map_lookup_filter_Some. by apply Hm.
  - intros k en [H _]%map_lookup_filter_Some. by apply Hm.
  - intros k en [H _]%map_lookup_filter_Some. by apply Hm.
  - intros k en [H _]%map_lookup_filter_Some. by apply Hm.
  - apply map_Forall_empty.
Qed.

Lemma tiles_get subs c k en : tiles_held subs c → cache_get c k = Some en → held_tile subs k en.
Proof. intros (s & [Hs _] & Hm) H. unfold cache_get in H. rewrite (co_entries _ _ Hs) in H. by apply Hm. Qed.

Lemma fragments_get subs c f i en : fragments_held subs c → h264_get c f i = Some en → held_fragment subs (f, i) en.
Proof. intros (s & Hs & Hm) H. rewrite (flat_get _ _ _ _ Hs) in H. by apply Hm. Qed.

Lemma session_subs subs subs' taken left e : subs ⊆ subs' → session_ok subs taken left e → session_ok subs' taken left e.
Proof.
  intros Hsub [(qops & h & Hw) (s & Hs & Hm) (l & Hl & Hf) Hp Ho Hq]. split; [| | |done|done|done].
  - exists qops, h. by eapply wire_subs.
  - exists s. split; [done|]. eapply map_Forall_impl; [exact Hm|]. intros k en [? ?]. split; [done|].
    by eapply carries_content_mono.
  - exists l. split; [done|]. eapply map_Forall_impl; [exact Hf|]. intros k en [? ?]. split; [done|].
    by eapply carries_content_mono.
Qed.

(** *** What the small steps leave alone *)

Lemma note_depth_frame e : ∃ s, note_emission_queue_depth e = with_stats s e
  ∧ ∀ x, x ≠ emission_queue_peak → s x = e.(em_stats) x.
Proof.
  unfold note_emission_queue_depth. destruct (_ <? _).
  - eexists. split; [done|]. intros x Hx. cbn. by rewrite decide_False.
  - exists (em_stats e). by destruct e.
Qed.

Lemma spurious_add x n e : x ≠ loss_path_resends_spurious →
  em_stats (add_stat x n e) loss_path_resends_spurious = em_stats e loss_path_resends_spurious.
Proof. intros Hx. cbn. rewrite decide_False; [done|]. by intros <-. Qed.
Lemma spurious_count x e : x ≠ loss_path_resends_spurious →
  em_stats (count x e) loss_path_resends_spurious = em_stats e loss_path_resends_spurious.
Proof. apply spurious_add. Qed.

Definition spurious_of (e : ReliableTileEmitter) : Z := e.(em_stats) loss_path_resends_spurious.

(** The tile's generation is noted: only the generations and the counters change. *)
Lemma note_generation_frame key b e : ∃ m s,
  match tile_datagram_generation b with
  | None => e
  | Some g =>
      let prev := e.(em_latest_tile_generation) !! (key.(ek_tile_x), key.(ek_tile_y)) in
      let e := with_latest_tile_generation
                 (<[(key.(ek_tile_x), key.(ek_tile_y)) := g]> e.(em_latest_tile_generation)) e in
      match prev with
      | Some p => if negb (p =? g) then count generation_replacements e else e
      | None => e
      end
  end = with_stats s (with_latest_tile_generation m e) ∧ s loss_path_resends_spurious = spurious_of e.
Proof.
  destruct (tile_datagram_generation b) as [g|]; cbn zeta.
  2:{ exists (em_latest_tile_generation e), (em_stats e). by destruct e. }
  set (m := <[_ := g]> _). exists m. destruct (_ !! _) as [p|]; [destruct (negb _)|].
  - eexists. split; reflexivity.
  - by exists (em_stats e).
  - by exists (em_stats e).
Qed.

(** ** Every operation keeps the session *)

Section keeps.
Context (subs : list submission) (taken : list EmittedDatagram) (left : list Emission).
Implicit Types (e : ReliableTileEmitter).

Local Abbreviation ok := (session_ok subs taken left).

(** The operation returns, and the session goes on. *)
Definition keeps (m : outcome () ReliableTileEmitter) : Prop := ∃ e, m = Ok e ∧ ok e.

Lemma keeps_bind m f : keeps m → (∀ e, ok e → keeps (f e)) → keeps (e ← m; f e).
Proof. intros (e & -> & He) Hf. rewrite bind_Ok. by apply Hf. Qed.

Lemma keeps_ok e : ok e → keeps (Ok e).
Proof. intros H. by exists e. Qed.

(** A tile datagram goes out: stamped with the next number, reported, fed to the groups
    and queued. *)
Lemma send_tile e ws al key src t b c :
  ok e → wa_allocate e.(em_alloc) = (ws, al) → tile_source src → carries_content subs (CTile key) src →
  b = stamped_tile ws t src →
  let tx us := mkEmitted ws us (length b) (CTile key) in
  held_tile subs key (mkCacheEntry b 0 0 0 0 0 0 None)
  ∧ ∀ us e1, (takes_time b = true → us = t) →
      em_queue e1 = em_queue e → em_group e1 = em_group e →
      ∃ g' q', feed_group ws b e1 = Ok (with_queue q' (with_group g' e1))
        ∧ ∃ qops h, wire_ok qops h (taken ++ em_transmissions e ++ [tx us]) left subs al (push_source q' b c) g'.
Proof.
  intros He Ea (Ht & H16 & H64) Hc -> tx.
  destruct (stamped_tile_spec ws t src H16) as (Hl & Hr & Hn & Htt & Htime & Htile).
  set (b := stamped_tile ws t src) in *.
  assert (tile_source b) as Hb by (unfold tile_source; rewrite Htile, Hl; done).
  assert (carries_content subs (CTile key) b) as Hcb.
  { destruct Hc as (s0 & Hin & Hr0). exists s0. split; [done|]. by eapply restamped_trans. }
  split; [by split|]. intros us e1 Hus Eq Eg. destruct (so_wire _ _ _ _ He) as (qops & h & Hw).
  rewrite <-Eq, <-Eg in Hw.
  assert (ed_wire_seq (tx us) = (wa_allocate (em_alloc e)).1) as Hws by (by rewrite Ea).
  destruct (feed_group_wire _ _ _ _ _ _ e1 b c (tx us) Hw) as (g' & q' & E & qops' & h' & Hw'); [|done|done|done|].
  - exists b, c. split_and!; try done. intros _ Htk. rewrite Htime by done. cbn. by rewrite Hus by done.
  - exists g', q'. split; [done|]. exists qops', h'. rewrite Ea in Hw'. by rewrite app_assoc.
Qed.

Lemma submit_one_ok e key source queued_at probe now retry :
  ok e → tile_source source → SubTile key source ∈ subs →
  keeps (submit_one_as key source queued_at probe now retry e).
Proof.
  intros He Hsrc Hin. unfold submit_one_as, allocate. destruct (wa_allocate (em_alloc e)) as [ws al] eqn:Ea.
  set (e0 := with_alloc al e). fold (stamped_tile ws (emit_us64 e0 now) source).
  set (us := if takes_time _ then _ else _). set (b := stamped_tile _ _ _).
  destruct (note_generation_frame key b e0) as (mg & s & Eg & Hs). cbn zeta in Eg |- *. rewrite Eg. clear Eg.
  set (e1 := push_transmission _ _).
  set (c := if retry then WSchedulerRetry else for_first_send (ek_pass_idx key)).
  destruct (send_tile e ws al key source (emit_us64 e0 now) b c He Ea Hsrc) as [Hheld Hsend]; [by exists source|done|].
  destruct (tiles_step subs e1.(em_cache) (OpInsert key (fresh_entry b queued_at now ws probe)) I (so_tiles _ _ _ _ He) Hheld)
    as (cache' & Ec & Hc').
  cbn [cache_step] in Ec. rewrite Ec, bind_Ok.
  destruct (Hsend us (with_cache cache' e1)) as (g' & q' & -> & Hw); try done.
  { unfold us, b, stamped_tile. intros Ht. destruct (stamped_tile_spec ws (emit_us64 e0 now) source) as (_ & _ & _ & Htt & _).
    { apply Hsrc. }
    assert (takes_time (stamp_wire_seq ws source) = takes_time source) as ->; [|by rewrite (eq_trans (eq_sym Htt) Ht)].
    unfold stamp_wire_seq. destruct Hsrc as (_ & H16 & _). rewrite (proj2 (Nat.leb_le _ _)) by lia.
    apply stamped_fragment_spec. lia. }
  rewrite bind_Ok. destruct (note_depth_frame (with_queue q' (with_group g' (with_cache cache' e1)))) as (s' & -> & Hs').
  apply keeps_ok. destruct He as [_ _ Hf Hp Ho Hq]. split; [exact Hw|exact Hc'|exact Hf|exact Hp| |exact Hq].
  rewrite spurious_count by done. change (origins_ok (em_resend_origin e) (s' loss_path_resends_spurious)).
  rewrite Hs' by done. change (origins_ok (em_resend_origin e) (s loss_path_resends_spurious)). by rewrite Hs.
Qed.

Lemma submit_batch_ok items : ∀ retry i now e,
  ok e → Forall (λ it, tile_source it.1.1.2) items → (∀ it, it ∈ items → SubTile it.1.1.1 it.1.1.2 ∈ subs) →
  keeps (submit_batch_go items retry i now e).
Proof.
  induction items as [|[[[key b] qat] probe] items IH]; intros retry i now e He Hsrc Hin; cbn [submit_batch_go].
  { by apply keeps_ok. }
  apply Forall_cons in Hsrc as [Hb Hsrc]. apply keeps_bind.
  - apply submit_one_ok; [done|done|]. apply (Hin (key, b, qat, probe)). left.
  - intros e' He'. apply IH; [done|done|]. intros it Hit. apply Hin. by right.
Qed.

(** *** H.264 fragments and padding *)

Lemma send_frame e ws al b c t :
  ok e → wa_allocate e.(em_alloc) = (ws, al) → reports subs (ESource b c) t → t.(ed_wire_seq) = ws →
  ∃ qops h, wire_ok qops h (taken ++ em_transmissions e ++ [t]) left subs al (push_source e.(em_queue) b c) e.(em_group).
Proof.
  intros He Ea Ht Hws. destruct (so_wire _ _ _ _ He) as (qops & h & Hw).
  eexists _, h. rewrite app_assoc. rewrite <-(f_equal snd Ea : _ = al). apply push_wire; [done|done|]. by rewrite Ea.
Qed.

Lemma submit_fragment_ok e frag now :
  ok e → (FRAME_HEADER_SIZE ≤ length frag.(hs_bytes))%nat →
  SubFragment frag.(hs_frame_seq) frag.(hs_frag_idx) frag.(hs_bytes) ∈ subs →
  keeps (submit_h264_fragment frag now e).
Proof.
  intros He Hl Hin. unfold FRAME_HEADER_SIZE in Hl. unfold submit_h264_fragment, allocate.
  destruct (wa_allocate (em_alloc e)) as [ws al] eqn:Ea. set (e0 := with_alloc al e).
  unfold stamp_wire_seq. rewrite (proj2 (Nat.leb_le _ _)) by lia.
  destruct (stamped_fragment_spec ws (hs_bytes frag)) as (L & R & W & T); [lia|]. set (b := stamp _ _ _) in *.
  set (t := mkEmitted _ _ _ _).
  assert (carries_content subs (CH264Frag (hs_frame_seq frag) (hs_frag_idx frag)) b) as Hc by (by exists (hs_bytes frag)).
  destruct (send_frame e ws al b WH264 t He Ea) as (qops & h & Hw); [by exists b, WH264|done|].
  destruct (fragments_step subs e.(em_h264)
    (FInsert (hs_frame_seq frag) (hs_frag_idx frag) (hs_is_idr frag) (fresh_entry b (hs_queued_at frag) now ws (hs_probe frag))) I
    (so_frags _ _ _ _ He)) as (c' & Ec & Hc'); [split; [cbn; lia|done]|].
  cbn [frame_step] in Ec. change (em_h264 (push_transmission t e0)) with (em_h264 e). rewrite Ec, bind_Ok.
  destruct (note_depth_frame (with_h264 c' (push_transmission t e0))) as (s & -> & Hs).
  apply keeps_ok. destruct He as [_ Hti _ Hp Ho Hq]. split; [by exists qops, h|exact Hti|exact Hc'|exact Hp| |exact Hq].
  rewrite spurious_count by done. change (origins_ok (em_resend_origin e) (s loss_path_resends_spurious)). by rewrite Hs.
Qed.

Lemma submit_pad_ok e template probe now :
  ok e → (FRAME_HEADER_SIZE ≤ length template)%nat → SubPad template ∈ subs →
  keeps ('(e, _) ← submit_h264_pad template probe now e; Ok e).
Proof.
  intros He Hl Hin. unfold FRAME_HEADER_SIZE in Hl. unfold submit_h264_pad, allocate.
  destruct (wa_allocate (em_alloc e)) as [ws al] eqn:Ea. set (e0 := with_alloc al e).
  destruct (pad_bytes_spec ws template) as (L & R & W & M); [lia|]. set (b := pad_bytes _ _) in *. set (t := mkEmitted _ _ _ _).
  destruct (send_frame e ws al b WH264 t He Ea) as (qops & h & Hw); [|done|].
  { exists b, WH264. split_and!; try done. by exists template. }
  destruct (pads_insert_ok e.(em_pads) ws (mkPad probe now (length b)) (so_pads _ _ _ _ He)) as (r & Er & Hr & _).
  change (em_pads (push_transmission t e0)) with (em_pads e). rewrite Er, bind_Ok.
  destruct (note_depth_frame (with_pads r (push_transmission t e0))) as (s & -> & Hs). rewrite bind_Ok.
  apply keeps_ok. destruct He as [_ Hti Hf _ Ho Hq]. split; [by exists qops, h|exact Hti|exact Hf|exact Hr| |exact Hq].
  rewrite spurious_count by done. change (origins_ok (em_resend_origin e) (s loss_path_resends_spurious)). by rewrite Hs.
Qed.

Lemma expire_pad_ok e now : ok e → keeps (expire_h264_pad now e).
Proof.
  intros He. unfold expire_h264_pad, pads_expire. destruct (so_pads _ _ _ _ He) as [Hb Ho].
  destruct (expire_loop_ok now _ _ 0 Hb Ho) as (r & n & -> & Hr & _). rewrite bind_Ok. apply keeps_ok. by destruct He.
Qed.

Lemma pad_ack_ok e ws : ok e → keeps ('(pads, _) ← pads_remove e.(em_pads) ws; Ok (with_pads pads e)).
Proof.
  intros He. destruct (so_pads _ _ _ _ He) as [Hb Ho].
  destruct (pads_remove_ok (em_pads e) ws Hb) as (r & b & -> & E1 & E2 & E3). rewrite bind_Ok. apply keeps_ok.
  destruct He as [? ? ? _ ? ?]. split; try done. split; [done|]. cbn. rewrite E1, E2. intros w Hw.
  apply lookup_delete_is_Some in Hw as [_ Hw]. by apply Ho.
Qed.

Lemma with_h264_ok e c : ok e → fragments_held subs c → ok (with_h264 c e).
Proof. by intros [? ? _ ? ? ?]. Qed.
Lemma with_cache_ok e c : ok e → tiles_held subs c → ok (with_cache c e).
Proof. by intros [? _ ? ? ? ?]. Qed.
Lemma add_stat_ok e x n : x ≠ loss_path_resends_spurious → ok e → ok (add_stat x n e).
Proof.
  intros Hx [? ? ? ? ?]. split; try done. by rewrite spurious_add.
Qed.
Lemma count_ok e x : x ≠ loss_path_resends_spurious → ok e → ok (count x e).
Proof. apply add_stat_ok. Qed.

Lemma on_h264_ack_ok e f i : ok e → keeps ('(e, _) ← on_h264_ack f i e; Ok e).
Proof.
  intros He. unfold on_h264_ack.
  destruct (fragments_step subs e.(em_h264) (FRemove f i) I (so_frags _ _ _ _ He) I) as (c' & Ec & Hc').
  cbn [frame_step] in Ec. destruct (h264_remove _ _ _) as [[c r]| |]; [|done..]. rewrite bind_Ok in Ec. injection Ec as ->.
  rewrite bind_Ok. pose proof (with_h264_ok _ _ He Hc'). destruct r; by apply keeps_ok, count_ok.
Qed.

(** The four ways frames leave the cache. *)
Lemma dropped_ok e r : ok e → (∃ c n, r = Ok (c, n) ∧ fragments_held subs c) → keeps (dropped r e).
Proof.
  intros He (c & n & -> & Hc). unfold dropped. rewrite bind_Ok. by apply keeps_ok, add_stat_ok, with_h264_ok.
Qed.

Lemma frames_drop (op : frame_op) (m : outcome () (H264Cache * nat)) c :
  fragments_held subs c → frame_op_ok op → match op with FInsert _ _ _ _ => False | _ => True end →
  frame_step c op = ('(c, _) ← m; Ok c) → ∃ c' n, m = Ok (c', n) ∧ fragments_held subs c'.
Proof.
  intros Hc Hop Hni E. destruct (fragments_step subs c op Hop Hc) as (c' & E' & Hc'); [by destruct op|].
  rewrite E in E'. destruct m as [[c1 n]| |]; [|done..]. rewrite bind_Ok in E'. injection E' as ->. eauto.
Qed.

Lemma drop_from_ok e f : ok e → keeps (drop_h264_from f e).
Proof. intros He. apply dropped_ok; [done|]. by apply (frames_drop (FDropFrom f) _ _ (so_frags _ _ _ _ He)). Qed.
Lemma drop_frame_ok e f : ok e → keeps (drop_h264_frame f e).
Proof. intros He. apply dropped_ok; [done|]. by apply (frames_drop (FDropFrame f) _ _ (so_frags _ _ _ _ He)). Qed.
Lemma trim_cache_ok e : ok e → keeps (trim_h264_cache e).
Proof. intros He. apply dropped_ok; [done|]. by apply (frames_drop (FTrim H264_CACHE_FRAMES) _ _ (so_frags _ _ _ _ He)). Qed.

Lemma queue_bytes_ok e : ok e → e.(em_queue).(eq_frame_bytes) = queued_bytes e.(em_queue).
Proof.
  intros [(qops & h & Hw) _ _ _ _ _]. destruct (queue_run_accounted qops) as (q & sent & gone & E & Hac).
  rewrite (wk_run _ _ _ _ _ _ _ _ Hw) in E. injection E as <- _. by apply (ac_bytes _ _ _ _ Hac).
Qed.

Lemma purge_ok e doomed : ok e → keeps ('(e, _) ← purge_queued_h264 doomed e; Ok e).
Proof.
  intros He. unfold purge_queued_h264. pose proof (queue_bytes_ok e He) as Hb.
  destruct (so_wire _ _ _ _ He) as (qops & h & Hw).
  destruct (purge_frames (em_queue e) doomed) as [[q r]| |] eqn:E.
  - rewrite !bind_Ok. apply keeps_ok, add_stat_ok; [done|]. destruct He as [_ ? ? ? ? ?]. split; try done.
    exists (qops ++ [QPurge doomed]), h. rewrite <-(app_nil_r left). eapply queue_wire; [exact Hw|done|done|].
    cbn [queue_step]. rewrite E, bind_Ok. done.
  - unfold purge_frames, sub_usize in E. by destruct (_ <=? _)%nat.
  - exfalso. unfold purge_frames, sub_usize in E. pose proof (purge_counts doomed (eq_queue (em_queue e))) as Hc.
    unfold queued_bytes in Hb. by rewrite (proj2 (Nat.leb_le _ _)) in E by lia.
Qed.

Lemma supersede_ok e f : ok e → keeps ('(e, _) ← supersede_h264_before f e; Ok e).
Proof.
  intros He. unfold supersede_h264_before.
  destruct (dropped_ok e (drop_before (em_h264 e) f) He) as (e1 & -> & He1).
  { by apply (frames_drop (FDropBefore f) _ _ (so_frags _ _ _ _ He)). }
  rewrite bind_Ok. by apply purge_ok.
Qed.

(** *** Acknowledgements *)

Lemma on_ack_ok keys : ∀ e, ok e → keeps (emitter_on_ack keys e).
Proof.
  induction keys as [|k keys IH]; intros e He; cbn [emitter_on_ack]; [by apply keeps_ok|].
  destruct (tiles_step subs e.(em_cache) (OpRemove k) I (so_tiles _ _ _ _ He) I) as (c' & Ec & Hc').
  cbn [cache_step] in Ec. destruct (cache_remove _ _) as [[c r]| |]; [|done..]. rewrite bind_Ok in Ec. injection Ec as ->.
  rewrite bind_Ok. apply IH. pose proof (with_cache_ok _ _ He Hc'). destruct r; by apply count_ok.
Qed.

Lemma with_origins_ok e m : ok e → origins_ok m (spurious_of e) → ok (with_resend_origin m e).
Proof. by intros [? ? ? ? ? ?]. Qed.

Lemma spurious_added_ok e m n : ok e → origins_ok m (spurious_of e + n) →
  ok (with_resend_origin m (add_stat loss_path_resends_spurious n e)).
Proof.
  intros [? ? ? ? ? ?] Hm. split; try done.
Qed.

Lemma origins_insert m k o n n' : origins_ok m n → 0 ≤ o.(rg_fires) →
  Z.of_nat (spurious_fires o) - Z.of_nat (from_option spurious_fires 0%nat (m !! k)) ≤ n' - n → origins_ok (<[k := o]> m) n'.
Proof.
  intros [Hf Ht] Ho Hn. split; [by apply map_Forall_insert_2|]. destruct (m !! k) as [o'|] eqn:E; cbn in Hn.
  - pose proof (map_total_replace spurious_fires _ _ _ o E). lia.
  - rewrite map_total_insert by done. lia.
Qed.

Lemma origins_delete m k n n' : origins_ok m n →
  n - n' ≤ Z.of_nat (from_option spurious_fires 0%nat (m !! k)) → origins_ok (delete k m) n'.
Proof.
  intros [Hf Ht] Hn. split; [by apply map_Forall_delete|]. destruct (m !! k) as [o'|] eqn:E; cbn in Hn.
  - pose proof (map_total_delete spurious_fires _ _ _ E). lia.
  - rewrite delete_id by done. lia.
Qed.

Lemma note_ack_origin_ok e key ws : ok e → keeps (note_ack_origin key ws e).
Proof.
  intros He. unfold note_ack_origin. destruct (em_resend_origin e !! key) as [o|] eqn:Eo; [|by apply keeps_ok].
  pose proof (so_origins _ _ _ _ He) as Hor. pose proof Hor as [Hfs Htot]. pose proof (Hfs _ _ Eo) as Hf. cbn in Hf.
  pose proof (map_total_delete spurious_fires _ _ _ Eo) as Hd. unfold spurious_fires at 2 in Hd.
  set (kind := if rg_by_pto o then spurious_pto else spurious_loss).
  assert (kind ≠ loss_path_resends_spurious) as Hk by (unfold kind; by destruct (rg_by_pto o)).
  destruct (sent_before _ _).
  - apply keeps_ok. set (o' := mkOrigin _ _ _ _ _). set (e1 := if negb (rg_counted_spurious o) then _ else e).
    assert (em_resend_origin e1 = em_resend_origin e) as Ee by (unfold e1; by destruct (negb _)).
    assert (ok (with_resend_origin (<[key := o']> (em_resend_origin e)) e1)) as H1.
    { unfold e1. assert (spurious_fires o' = Z.to_nat (rg_fires o)) as Es by done.
      destruct (rg_counted_spurious o) eqn:Ec; cbn [negb].
      - apply with_origins_ok; [done|]. eapply origins_insert; [exact Hor|done|].
        rewrite Eo, Es. cbn. unfold spurious_fires. rewrite Ec. unfold spurious_of. lia.
      - apply spurious_added_ok; [done|]. eapply origins_insert; [exact Hor|done|].
        rewrite Eo, Es. cbn. unfold spurious_fires. rewrite Ec. unfold spurious_of. lia. }
    clearbody e1. rewrite <-Ee in H1. destruct (rg_original_first o); cbn [negb]; [done|].
    assert (∀ x n e2, x ≠ loss_path_resends_spurious → ok (with_resend_origin (<[key := o']> (em_resend_origin e2)) e2) →
      ok (with_resend_origin (<[key := o']> (em_resend_origin (add_stat x n e2))) (add_stat x n e2))) as Hadd.
    { intros x n e2 Hx H2. by apply (add_stat_ok _ x n Hx) in H2. }
    by apply Hadd, Hadd.
  - destruct (rg_counted_spurious o) eqn:Ec.
    + unfold assert_. rewrite (proj2 (Z.leb_le _ _)) by lia. rewrite !bind_Ok. apply keeps_ok.
      assert (ok (with_resend_origin (delete key (em_resend_origin e))
                 (add_stat loss_path_resends_spurious (- rg_fires o) e))) as H1.
      { apply spurious_added_ok; [done|]. eapply origins_delete; [exact Hor|]. rewrite Eo. cbn.
        unfold spurious_fires. rewrite Ec. unfold spurious_of. lia. }
      destruct H1 as [? ? ? ? H1 ?]. split; try done.
    + rewrite bind_Ok. apply keeps_ok. apply with_origins_ok; [by apply add_stat_ok|].
      eapply origins_delete; [exact Hor|]. unfold spurious_of. rewrite spurious_add by done. lia.
Qed.

Lemma note_loss_path_resend_ok e key first_ws by_pto : ok e → ok (note_loss_path_resend key first_ws by_pto e).
Proof.
  intros He. unfold note_loss_path_resend. destruct first_ws as [ws|]; [|done].
  pose proof (so_origins _ _ _ _ He) as Hor. destruct (em_resend_origin e !! key) as [o|] eqn:Eo.
  - set (o' := mkOrigin _ _ _ _ _). pose proof (proj1 Hor _ _ Eo) as Hf. cbn in Hf.
    set (kind := if rg_by_pto o then spurious_pto else spurious_loss).
    assert (kind ≠ loss_path_resends_spurious) as Hk by (unfold kind; by destruct (rg_by_pto o)).
    set (e0 := with_resend_origin _ e). set (e1 := if rg_counted_spurious o then _ else _).
    assert (ok e1) as H1.
    { unfold e1, count. assert (spurious_fires o' = if rg_counted_spurious o then Z.to_nat (rg_fires o + 1) else 0%nat) as Es by done.
      destruct (rg_counted_spurious o) eqn:Ec.
      - assert (ok (with_resend_origin (<[key := o']> (em_resend_origin e)) (add_stat loss_path_resends_spurious 1 e))) as H.
        { apply spurious_added_ok; [done|]. eapply origins_insert; [exact Hor|cbn; lia|].
          rewrite Eo, Es. cbn. unfold spurious_fires. rewrite Ec. unfold spurious_of. lia. }
        destruct H. by split.
      - apply with_origins_ok; [done|]. eapply origins_insert; [exact Hor|cbn; lia|].
        rewrite Eo, Es. cbn. unfold spurious_of. lia. }
    clearbody e1. destruct (rg_original_first o); [|done]. by apply count_ok, count_ok.
  - set (o' := mkOrigin _ _ _ _ _).
    assert (∀ e1, ok e1 → ok (with_resend_origin (<[key := o']> (em_resend_origin e1)) e1)) as Hins.
    { intros e1 H1. apply with_origins_ok; [done|]. eapply origins_insert; [apply (so_origins _ _ _ _ H1)|done|].
      unfold spurious_of. assert (spurious_fires o' = 0%nat) as -> by done. lia. }
    destruct (_ <=? _)%nat; [|by apply Hins]. apply Hins, count_ok; [done|]. apply with_origins_ok; [done|].
    split; [apply map_Forall_empty|]. rewrite map_total_empty. destruct Hor as [_ ?]. unfold spurious_of. lia.
Qed.

(** *** Retransmissions *)

(** The judged transmission is still the newest of a pass that is held. *)
Definition current (e : ReliableTileEmitter) (content : Content) (judged_ws : Z) : bool :=
  match entry_view e content with Some (latest_ws, _, _) => latest_ws =? judged_ws | None => false end.

(** [e'] is [e] with the held datagram [b] of [content] sent once more: [sent] bytes. *)
Definition resent (content : Content) (b : list Z) (e e' : ReliableTileEmitter) (sent : option Z) : Prop :=
  ∃ t, em_transmissions e' = em_transmissions e ++ [t] ∧ ed_content t = content ∧ ed_wire_bytes t = length b
    ∧ sent = Some (Z.of_nat (length b + em_wire_overhead e)).
Definition not_resent (e e' : ReliableTileEmitter) (sent : option Z) : Prop :=
  em_transmissions e' = em_transmissions e ∧ sent = None.

(** What one turn of the NACK loop does. *)
Record repaired (key : EmitKey) (e e' : ReliableTileEmitter) (sent : option Z) : Prop := {
  rp_wire_overhead : em_wire_overhead e' = em_wire_overhead e;
  rp_loss : em_pending_loss e' = em_pending_loss e;
  rp_held : ∀ k, ce_datagram <$> cache_get (em_cache e') k = ce_datagram <$> cache_get (em_cache e) k;
  rp_sent : match cache_get (em_cache e) key with
            | None => not_resent e e' sent
            | Some en => resent (CTile key) en.(ce_datagram) e e' sent
            end;
}.

Lemma requests_pop_nack key pending ns l ls d : requests_ok (key :: pending) ns l ls d →
  requests_ok pending (ns ∖ {[ key ]}) l ls d.
Proof.
  intros [[Hk Hn]%NoDup_cons -> ? ? ?]. split; try done. cbn. clear -Hk. set_solver.
Qed.

Lemma cache_update_get c key f k : cache_get (cache_update c key f) k = (if decide (k = key) then f else id) <$> cache_get c k.
Proof.
  unfold cache_get, cache_update. cbn. case_decide as Hk.
  - subst. by rewrite lookup_alter_eq.
  - rewrite lookup_alter_ne by done. by destruct (_ !! _).
Qed.

Lemma serve_nack_spec now key pending e : ok (with_pending_nacks (key :: pending) e) →
  ∃ e' r, serve_nack now key e = Ok (e', r) ∧ ok (with_pending_nacks pending e') ∧ repaired key e e' r.
Proof.
  intros He. unfold serve_nack. set (us := emit_us64 e now). set (e1 := with_pending_nack_set _ e).
  assert (ok (with_pending_nacks pending e1)) as He1.
  { destruct He as [? ? ? ? ? Hq]. split; try done. by apply requests_pop_nack. }
  destruct (cache_get (em_cache e1) key) as [en|] eqn:Eg.
  2:{ eexists _, _. split; [done|]. split; [exact He1|]. split; try done. unfold e1 in Eg. cbn in Eg. by rewrite Eg. }
  destruct (tiles_get _ _ _ _ (so_tiles _ _ _ _ He1) Eg) as [Hsrc Hc]. pose proof Hsrc as (_ & H16 & _).
  rewrite (proj2 (Nat.leb_le _ _)) by lia. unfold allocate. destruct (wa_allocate (em_alloc e1)) as [ws al] eqn:Ea.
  fold (stamped_tile ws us (ce_datagram en)). set (b := stamped_tile _ _ _).
  destruct (send_tile _ ws al key _ us b WNackRepair He1 Ea Hsrc Hc eq_refl) as [_ Hsend].
  destruct (stamped_tile_spec ws us (ce_datagram en) H16) as (Hl & _). fold b in Hl.
  destruct (tiles_step subs e1.(em_cache) (OpUpdate key (mark_resent now ws false))) as (c' & Ec & Hc'); [done|apply He1|done|].
  injection Ec as Ec.
  set (e2 := push_transmission _ _). destruct (Hsend us e2) as (g' & q' & Ef & Hw); try done.
  rewrite Hl, (proj2 (Nat.leb_le _ _)) by lia. rewrite Ef, bind_Ok. eexists _, _. split; [done|]. split.
  - match goal with |- ok (with_pending_nacks _ (count ?x (count ?y ?e3))) =>
      change (ok (count x (count y (with_pending_nacks pending e3)))) end.
    apply count_ok; [done|]. apply count_ok; [done|]. destruct He1 as [_ _ Hf Hp Ho Hq].
    split; [exact Hw| |exact Hf|exact Hp|exact Ho|exact Hq]. cbn. by rewrite Ec.
  - split; try done.
    + intros k. change (ce_datagram <$> cache_get (cache_update (em_cache e) key (mark_resent now ws false)) k
                        = ce_datagram <$> cache_get (em_cache e) k).
      rewrite cache_update_get. by destruct (decide _), (cache_get (em_cache e) k).
    + change (cache_get (em_cache e) key = Some en) in Eg. rewrite Eg. eexists. split; [done|]. by rewrite Hl.
Qed.

(** The bytes a list of reports stands for on the wire. *)
Definition wire_cost (overhead : nat) (l : list EmittedDatagram) : Z :=
  foldr (λ t s, Z.of_nat (t.(ed_wire_bytes) + overhead) + s) 0 l.

(** A loop under a budget of [mr] retransmissions and [mb] bytes, which it left with [n]
    and [spent] after sending [sent]: within the budget but for the last datagram. *)
Definition within_budget (mr mb : Z) (overhead : nat) (spent0 n0 spent n : Z) (sent : list EmittedDatagram) : Prop :=
  n = n0 + Z.of_nat (length sent) ∧ spent = spent0 + wire_cost overhead sent
  ∧ ∀ pre t post, sent = pre ++ t :: post → n0 + Z.of_nat (length pre) < mr ∧ spent0 + wire_cost overhead pre < mb.

Lemma within_budget_nil mr mb o s n : within_budget mr mb o s n s n [].
Proof. split_and!; cbn; [lia|lia|]. intros [] ? ? [=]. Qed.

Lemma within_budget_cons mr mb o s0 n0 s n t l : n0 < mr → s0 < mb →
  within_budget mr mb o (s0 + Z.of_nat (t.(ed_wire_bytes) + o)) (n0 + 1) s n l → within_budget mr mb o s0 n0 s n (t :: l).
Proof.
  intros Hn Hs (-> & -> & H). split_and!; cbn [length wire_cost foldr]; [lia|fold (wire_cost o l); lia|].
  intros [|x pre] t' post; cbn.
  - intros _. lia.
  - intros [= <- ->]. specialize (H pre t' post eq_refl). unfold wire_cost in *. cbn. lia.
Qed.

Definition cached (e : ReliableTileEmitter) (k : EmitKey) : Prop := is_Some (cache_get (em_cache e) k).
#[local] Instance cached_dec e k : Decision (cached e k).
Proof. unfold cached. apply _. Defined.

(** The whole NACK loop: the requests served are a prefix of those pending, and each of
    them whose pass is still cached is answered by one transmission. *)
Lemma tick_nacks_spec now mr mb pending : ∀ e spent0 n0, ok (with_pending_nacks pending e) →
  ∃ e' spent n, tick_nacks_go now mr mb pending spent0 n0 e = Ok (e', spent, n) ∧ ok e'
    ∧ em_wire_overhead e' = em_wire_overhead e ∧ em_pending_loss e' = em_pending_loss e
    ∧ ∃ served sent, pending = served ++ em_pending_nacks e' ∧ em_transmissions e' = em_transmissions e ++ sent
        ∧ ed_content <$> sent = CTile <$> filter (cached e) served
        ∧ within_budget mr mb (em_wire_overhead e) spent0 n0 spent n sent
        ∧ (em_pending_nacks e' = [] ∨ mr ≤ n ∨ mb ≤ spent).
Proof.
  induction pending as [|key pending IH]; intros e spent0 n0 He; cbn [tick_nacks_go].
  - assert (∃ e', (if negb ((n0 <? mr) && (spent0 <? mb)) then Ok (with_pending_nacks [] e, spent0, n0)
             else Ok (with_pending_nacks [] e, spent0, n0)) = Ok (E:=unit) (e', spent0, n0) ∧ e' = with_pending_nacks [] e)
      as (e' & -> & ->) by (destruct (negb _); by eexists).
    eexists _, _, _. split; [done|]. split_and!; [done|done|done|]. exists [], []. cbn. rewrite app_nil_r.
    split_and!; try done; [apply within_budget_nil|by left].
  - destruct (Z.ltb_spec n0 mr) as [Hn|Hn], (Z.ltb_spec spent0 mb) as [Hs|Hs]; cbn [negb andb].
    2-4: eexists _, _, _; (split; [done|]); split_and!; [done|done|done|]; exists [], []; cbn; rewrite app_nil_r;
      (split_and!; try done; [apply within_budget_nil|lia || (right; lia)]).
    destruct (serve_nack_spec now key pending e He) as (e1 & r & -> & He1 & [Ho Hl Hh Hr]). rewrite bind_Ok.
    assert (∀ l : list EmitKey, filter (cached e1) l = filter (cached e) l) as Hf.
    { intros l. apply list_filter_iff. intros k. unfold cached. specialize (Hh k).
      rewrite <-!(fmap_is_Some ce_datagram). by rewrite Hh. }
    destruct (cache_get (em_cache e) key) as [en|] eqn:Eg.
    + destruct Hr as (t & Ht & Hc & Hb & ->).
      destruct (IH e1 (spent0 + Z.of_nat (length (ce_datagram en) + em_wire_overhead e)) (n0 + 1) He1)
        as (e' & s & n & -> & H1 & H2 & H3 & served & sent & -> & H4 & H5 & H6 & H7).
      eexists _, _, _. split; [done|]. split_and!; [done|congruence|congruence|]. exists (key :: served), (t :: sent).
      split_and!; [done| | | |done].
      * by rewrite H4, Ht, <-app_assoc.
      * rewrite filter_cons_True by (unfold cached; rewrite Eg; by eexists). rewrite !fmap_cons, H5, Hf, Hc. done.
      * apply within_budget_cons; [done|done|]. rewrite Ho in H6. by rewrite Hb.
    + destruct Hr as [Ht ->]. destruct (IH e1 spent0 n0 He1) as (e' & s & n & -> & H1 & H2 & H3 & served & sent & -> & H4 & H5 & H6 & H7).
      eexists _, _, _. split; [done|]. split_and!; [done|congruence|congruence|]. exists (key :: served), sent.
      split_and!; [done|by rewrite H4, Ht| |by rewrite Ho in H6|done].
      rewrite filter_cons_False; [by rewrite H5, Hf|]. unfold cached. rewrite Eg. by intros [].
Qed.

(** What one turn of the loss loop does. *)
Record answered (content : Content) (judged : Z) (e e' : ReliableTileEmitter) (sent : option Z) : Prop := {
  an_wire_overhead : em_wire_overhead e' = em_wire_overhead e;
  an_nacks : em_pending_nacks e' = em_pending_nacks e;
  an_held : ∀ c, c ≠ content → held_entry_of e' c = held_entry_of e c;
  an_sent : if current e content judged
            then ∃ en, held_entry_of e content = Some en ∧ resent content en.(ce_datagram) e e' sent
            else not_resent e e' sent;
}.

Lemma h264_update_get_ne c f i g f' i' : (f', i') ≠ (f, i) → h264_get (h264_update c f i g) f' i' = h264_get c f' i'.
Proof.
  intros Hne. unfold h264_get, h264_update. cbn. destruct (decide (f' = f)) as [->|Hf].
  - rewrite lookup_alter_eq. destruct (hc_frames c !! f) as [fe|]; [|done]. cbn. rewrite lookup_alter_ne; congruence.
  - by rewrite lookup_alter_ne.
Qed.

Lemma resend_fragment_spec f i cause judged now pending e : ok (with_pending_loss pending e) →
  ∃ e' r, resend_h264_fragment f i cause judged now e = Ok (e', r) ∧ ok (with_pending_loss pending e')
    ∧ answered (CH264Frag f i) judged e e' r.
Proof.
  intros He. unfold resend_h264_fragment. destruct (h264_get (em_h264 e) f i) as [en|] eqn:Eg.
  2:{ eexists _, _. split; [done|]. split; [done|]. split; try done. unfold current, entry_view. cbn. by rewrite Eg. }
  assert (current e (CH264Frag f i) judged = (ce_latest_ws en =? judged)) as Ecur
    by (unfold current, entry_view; cbn; by rewrite Eg).
  destruct (Z.eqb_spec (ce_latest_ws en) judged) as [Hj|Hj]; cbn [negb].
  2:{ eexists _, _. split; [done|]. split; [by apply (count_ok (with_pending_loss pending e))|]. split; try done. by rewrite Ecur. }
  destruct (fragments_get _ _ _ _ _ (so_frags _ _ _ _ He) Eg) as [H12 Hc].
  unfold allocate. destruct (wa_allocate (em_alloc e)) as [ws al] eqn:Ea.
  assert (wa_peek (em_alloc e) = ws) as -> by (unfold wa_peek, wa_allocate in *; by injection Ea).
  unfold assert_. rewrite (proj2 (Nat.leb_le _ _)) by lia. rewrite bind_Ok.
  destruct (stamped_fragment_spec ws (ce_datagram en) H12) as (L & R & W & T). set (b := stamp _ _ _) in *.
  set (t := mkEmitted _ _ _ _).
  assert (carries_content subs (CH264Frag f i) b) as Hcb.
  { destruct Hc as (s0 & Hin & Hr0). exists s0. split; [done|]. by eapply restamped_trans. }
  destruct (send_frame _ ws al b WLossRetransmit t He Ea) as (qops & h & Hw); [by exists b, WLossRetransmit|done|].
  destruct (fragments_step subs e.(em_h264) (FUpdate f i (mark_resent now ws true))) as (c' & Ec & Hc'); [done|apply He|done|].
  injection Ec as Ec. eexists _, _. split; [done|]. split.
  - set (e3 := enqueue b WLossRetransmit (push_transmission t (with_h264 (h264_update (em_h264 e) f i (mark_resent now ws true))
                 (with_alloc al e)))).
    assert (ok (with_pending_loss pending e3)) as H1.
    { destruct He as [_ Hti _ Hp Ho Hq]. split; [by exists qops, h|exact Hti|cbn; by rewrite Ec|exact Hp|exact Ho|exact Hq]. }
    destruct cause; match goal with |- ok (with_pending_loss ?l (count ?x1 (count ?x2 (count ?x3 (count ?x4 _))))) =>
      change (ok (count x1 (count x2 (count x3 (count x4 (with_pending_loss l e3)))))) end; by do 4 (apply count_ok; [done|]).
  - split; [by destruct cause|by destruct cause| |].
    + intros c Hne. destruct c as [k|f' i'|w]; [by destruct cause| |done]. cbn [held_entry_of].
      rewrite <-(h264_update_get_ne (em_h264 e) f i (mark_resent now ws true) f' i') by congruence. by destruct cause.
    + rewrite Ecur. exists en. split; [done|]. exists t. rewrite L. by destruct cause.
Qed.

Lemma requests_pop_loss c cause j pending n ns ls d : requests_ok n ns ((c, cause, j) :: pending) ls d →
  requests_ok n ns pending (ls ∖ {[ c ]}) d.
Proof.
  intros [? ? Hl -> ?]. rewrite !fmap_cons in Hl. cbn in Hl. apply NoDup_cons in Hl as [Hc Hl]. split; try done. cbn.
  clear -Hc. set_solver.
Qed.

(** The generation check of the loss path only counts. *)
Lemma superseded_frame key b e : ∃ s,
  match tile_datagram_generation b with
  | Some g =>
      match e.(em_latest_tile_generation) !! (key.(ek_tile_x), key.(ek_tile_y)) with
      | Some latest => if negb (latest =? g) then count loss_path_resends_superseded e else e
      | None => e
      end
  | None => e
  end = with_stats s e ∧ s loss_path_resends_spurious = spurious_of e.
Proof.
  destruct (tile_datagram_generation b); [destruct (_ !! _); [destruct (negb _)|]|]; eexists; (split; [|]); try reflexivity;
    by destruct e.
Qed.

Lemma note_resend_frame key ws by_pto e : ∃ m s,
  note_loss_path_resend key ws by_pto e = with_stats s (with_resend_origin m e)
  ∧ ∀ l, note_loss_path_resend key ws by_pto (with_pending_loss l e) = with_pending_loss l (with_stats s (with_resend_origin m e)).
Proof.
  unfold note_loss_path_resend. destruct ws as [ws|].
  2:{ exists (em_resend_origin e), (em_stats e). by destruct e. }
  cbn [em_resend_origin with_pending_loss]. destruct (em_resend_origin e !! key) as [o|].
  - destruct (rg_counted_spurious o), (rg_original_first o); eexists _, _; split; reflexivity.
  - destruct (_ <=? _)%nat; [eexists _, _; split; reflexivity|]. eexists _, (em_stats e). split; reflexivity.
Qed.

Lemma serve_loss_spec now content cause judged pending e : ok (with_pending_loss ((content, cause, judged) :: pending) e) →
  ∃ e' r, serve_loss now content cause judged e = Ok (e', r) ∧ ok (with_pending_loss pending e') ∧ answered content judged e e' r.
Proof.
  intros He. unfold serve_loss. set (us := emit_us64 e now). set (e1 := with_pending_loss_set _ e).
  assert (ok (with_pending_loss pending e1)) as He1.
  { destruct He as [? ? ? ? ? Hq]. split; try done. by apply (requests_pop_loss _ _ _ _ _ _ _ _ Hq). }
  destruct content as [key|f i|ws].
  2:{ destruct (resend_fragment_spec f i cause judged now pending e1 He1) as (e' & r & E & H1 & [Ha1 Ha2 Ha3 Ha4]).
      exists e', r. split; [done|]. split; [done|]. by split. }
  2:{ eexists _, _. split; [done|]. split; [exact He1|]. by split. }
  destruct (cache_get (em_cache e1) key) as [en|] eqn:Eg.
  2:{ eexists _, _. split; [done|]. split; [exact He1|]. split; try done. unfold current, entry_view.
      change (cache_get (em_cache e) key = None) in Eg. cbn. by rewrite Eg. }
  assert (held_entry_of e (CTile key) = Some en) as Eh by exact Eg.
  assert (current e (CTile key) judged = (ce_latest_ws en =? judged)) as Ecur by (unfold current, entry_view; by rewrite Eh).
  destruct (Z.eqb_spec (ce_latest_ws en) judged) as [Hj|Hj]; cbn [negb].
  2:{ eexists _, _. split; [done|]. split; [by apply (count_ok (with_pending_loss pending e1))|]. split; try done. by rewrite Ecur. }
  destruct (tiles_get _ _ _ _ (so_tiles _ _ _ _ He1) Eg) as [Hsrc Hc]. pose proof Hsrc as (_ & H16 & _).
  rewrite (proj2 (Nat.leb_le _ _)) by lia. unfold allocate. destruct (wa_allocate (em_alloc e1)) as [ws al] eqn:Ea.
  fold (stamped_tile ws us (ce_datagram en)). set (stamped := if takes_time _ then us else 0). set (b := stamped_tile _ _ _).
  destruct (send_tile _ ws al key _ us b WLossRetransmit He1 Ea Hsrc Hc eq_refl) as [_ Hsend].
  destruct (stamped_tile_spec ws us (ce_datagram en) H16) as (Hl & _ & _ & Htt & _). fold b in Hl, Htt.
  destruct (tiles_step subs e1.(em_cache) (OpUpdate key (mark_resent now ws true))) as (c' & Ec & Hc'); [done|apply He1|done|].
  injection Ec as Ec. destruct (superseded_frame key b (with_alloc al e1)) as (s & -> & Hs).
  set (e2 := push_transmission _ _). destruct (Hsend stamped e2) as (g' & q' & Ef & Hw); try done.
  { intros Ht. unfold stamped. assert (takes_time (stamp_wire_seq ws (ce_datagram en)) = takes_time (ce_datagram en)) as ->.
    - unfold stamp_wire_seq. rewrite (proj2 (Nat.leb_le _ _)) by lia. apply stamped_fragment_spec. lia.
    - by rewrite (eq_trans (eq_sym Htt) Ht). }
  rewrite Hl, (proj2 (Nat.leb_le _ _)) by lia. rewrite Ef, bind_Ok. set (e3 := count _ (count _ _)).
  assert (ok (with_pending_loss pending e3)) as He3.
  { unfold e3. match goal with |- ok (with_pending_loss _ (count ?x (count ?y ?e4))) =>
      change (ok (count x (count y (with_pending_loss pending e4)))) end.
    apply count_ok; [by destruct cause|]. apply count_ok; [done|]. destruct He1 as [_ _ Hf Hp Ho Hq].
    split; [exact Hw|cbn; by rewrite Ec|exact Hf|exact Hp| |exact Hq].
    change (origins_ok (em_resend_origin e) (s loss_path_resends_spurious)). by rewrite Hs. }
  apply (note_loss_path_resend_ok _ key (Some ws) (bool_decide (cause = RProbe))) in He3.
  destruct (note_resend_frame key (Some ws) (bool_decide (cause = RProbe)) e3) as (m & s' & En & Enl).
  rewrite Enl in He3. eexists _, _. split; [done|]. rewrite En. split.
  - match goal with |- ok (with_pending_loss ?l (count ?x ?e4)) => change (ok (count x (with_pending_loss l e4))) end.
    by apply count_ok.
  - split; [by destruct cause|by destruct cause| |].
    + intros c Hne. destruct c as [k|f' i'|w]; [|by destruct cause|done]. cbn [held_entry_of].
      trans (cache_get (cache_update (em_cache e) key (mark_resent now ws true)) k); [by destruct cause|].
      rewrite cache_update_get, decide_False by congruence. apply option_fmap_id.
    + rewrite Ecur. exists en. split; [done|]. exists (mkEmitted ws stamped (length b) (CTile key)).
      split_and!; [by destruct cause|done|exact Hl|by destruct cause].
Qed.

(** The whole loss loop: the requests served are a prefix of those pending, and each of them
    whose judged transmission is still the newest of a held pass is answered by one. *)
Lemma tick_loss_spec now mr mb pending : ∀ e spent0 n0, ok (with_pending_loss pending e) →
  ∃ e' spent n, tick_loss_go now mr mb pending spent0 n0 e = Ok (e', spent, n) ∧ ok e'
    ∧ em_wire_overhead e' = em_wire_overhead e ∧ em_pending_nacks e' = em_pending_nacks e
    ∧ ∃ served sent, pending = served ++ em_pending_loss e' ∧ em_transmissions e' = em_transmissions e ++ sent
        ∧ ed_content <$> sent = (filter (λ r, current e r.1.1 r.2) served).*1.*1
        ∧ within_budget mr mb (em_wire_overhead e) spent0 n0 spent n sent
        ∧ (em_pending_loss e' = [] ∨ mr ≤ n ∨ mb ≤ spent).
Proof.
  induction pending as [|[[c cause] judged] pending IH]; intros e spent0 n0 He; cbn [tick_loss_go].
  - assert (∃ e', (if negb ((n0 <? mr) && (spent0 <? mb)) then Ok (with_pending_loss [] e, spent0, n0)
             else Ok (with_pending_loss [] e, spent0, n0)) = Ok (E:=unit) (e', spent0, n0) ∧ e' = with_pending_loss [] e)
      as (e' & -> & ->) by (destruct (negb _); by eexists).
    eexists _, _, _. split; [done|]. split_and!; [done|done|done|]. exists [], []. cbn. rewrite app_nil_r.
    split_and!; try done; [apply within_budget_nil|by left].
  - destruct (Z.ltb_spec n0 mr) as [Hn|Hn], (Z.ltb_spec spent0 mb) as [Hs|Hs]; cbn [negb andb].
    2-4: eexists _, _, _; (split; [done|]); split_and!; [done|done|done|]; exists [], []; cbn; rewrite app_nil_r;
      (split_and!; try done; [apply within_budget_nil|lia || (right; lia)]).
    destruct (serve_loss_spec now c cause judged pending e He) as (e1 & r & -> & He1 & [Ho Hnk Hh Hr]). rewrite bind_Ok.
    pose proof (rq_loss _ _ _ _ _ (so_requests _ _ _ _ He)) as Hnd. cbn in Hnd. apply NoDup_cons in Hnd as [Hc _].
    assert (∀ served rest, pending = served ++ rest →
      filter (λ r : Content * RetxCause * Z, current e1 r.1.1 r.2) served = filter (λ r, current e r.1.1 r.2) served) as Hf.
    { intros served rest ->. apply filter_agree, Forall_forall. intros [[c' x] j] Hin. cbn. unfold current, entry_view.
      rewrite Hh; [done|]. intros ->. apply Hc. rewrite !fmap_app. apply elem_of_app. left.
      apply list_elem_of_fmap. exists (c, x). split; [done|]. apply list_elem_of_fmap. by exists (c, x, j). }
    destruct (current e c judged) eqn:Ecur.
    + destruct Hr as (en & Een & t & Ht & Htc & Hb & ->).
      destruct (IH e1 (spent0 + Z.of_nat (length (ce_datagram en) + em_wire_overhead e)) (n0 + 1) He1)
        as (e' & s & n & -> & H1 & H2 & H3 & served & sent & -> & H4 & H5 & H6 & H7).
      eexists _, _, _. split; [done|]. split_and!; [done|congruence|congruence|]. exists ((c, cause, judged) :: served), (t :: sent).
      split_and!; [done| | | |done].
      * by rewrite H4, Ht, <-app_assoc.
      * rewrite filter_cons_True by (cbn; by rewrite Ecur). rewrite !fmap_cons, H5, (Hf _ _ eq_refl), Htc. done.
      * apply within_budget_cons; [done|done|]. rewrite Ho in H6. by rewrite Hb.
    + destruct Hr as [Ht ->]. destruct (IH e1 spent0 n0 He1) as (e' & s & n & -> & H1 & H2 & H3 & served & sent & -> & H4 & H5 & H6 & H7).
      eexists _, _, _. split; [done|]. split_and!; [done|congruence|congruence|]. exists ((c, cause, judged) :: served), sent.
      split_and!; [done|by rewrite H4, Ht| |by rewrite Ho in H6|done].
      rewrite filter_cons_False by (cbn; rewrite Ecur; by intros []). by rewrite H5, (Hf _ _ eq_refl).
Qed.

(** *** The rest *)

Lemma delete_all_ok l : ∀ m n, origins_ok m n → origins_ok (foldl (λ (m : gmap EmitKey ResendOrigin) k, delete k m) m l) n.
Proof.
  induction l as [|k l IH]; intros m n Hm; [done|]. apply IH. eapply origins_delete; [exact Hm|]. lia.
Qed.

Lemma retire_ok e now older : ok e → keeps ('(e, _) ← retire_stuck now older e; Ok e).
Proof.
  intros He. unfold retire_stuck.
  destruct (tiles_step subs e.(em_cache) (OpRetire now older) I (so_tiles _ _ _ _ He) I) as (c' & Ec & Hc').
  cbn [cache_step] in Ec. destruct (retire_older_than _ _ _) as [[c l]| |]; [|done..]. rewrite bind_Ok in Ec. injection Ec as ->.
  rewrite !bind_Ok. apply keeps_ok, with_origins_ok; [by apply add_stat_ok, with_cache_ok|].
  apply delete_all_ok. apply (so_origins _ _ _ _ He).
Qed.

Lemma on_nack_ok l : ∀ e, ok e → ok (on_nack l e).
Proof.
  unfold on_nack. induction l as [|k l IH]; intros e He; [done|]. cbn [foldl]. apply IH. unfold on_nack_one.
  assert (∃ k' e', nack_key k e = (k', e') ∧ ok e') as (k' & e' & -> & He').
  { unfold nack_key. destruct (cache_get _ _); [by eexists _, _|]. destruct (lookup_content _ _ _ _); [|by eexists _, _].
    eexists _, _. split; [done|]. by apply count_ok. }
  destruct (cache_get _ _); [|by apply count_ok]. case_decide as Hk; [by apply count_ok|]. apply count_ok; [done|].
  destruct He' as [? ? ? ? ? [Hn Hns ? ? ?]]. split; try done. cbn. rewrite Hns, elem_of_list_to_set in Hk. split; try done.
  - apply NoDup_app. split_and!; [done| |apply NoDup_singleton]. intros x Hx ->%list_elem_of_singleton. done.
  - rewrite Hns, list_to_set_app_L. set_solver.
Qed.

Lemma cancel_ok e x y : ok e → keeps (emitter_cancel_for_tile x y e).
Proof.
  intros He. unfold emitter_cancel_for_tile.
  destruct (tiles_step subs e.(em_cache) (OpCancel x y) I (so_tiles _ _ _ _ He) I) as (c' & Ec & Hc').
  cbn [cache_step] in Ec. rewrite Ec, bind_Ok. by apply keeps_ok, with_cache_ok.
Qed.

Lemma clear_ok e : ok e → ok (clear_cache e).
Proof.
  intros [Hw Ht Hf Hp [_ Ho] [? ? _ _ _]]. split; cbn.
  - exact Hw.
  - destruct (tiles_step subs e.(em_cache) OpClear I Ht I) as (c' & [= <-] & ?). done.
  - destruct (fragments_step subs e.(em_h264) FClear I Hf I) as (c' & [= <-] & ?). done.
  - split; cbn; [done|]. intros ws [? H]. by rewrite lookup_empty in H.
  - split; [apply map_Forall_empty|]. rewrite map_total_empty. lia.
  - split; try done; constructor.
Qed.

Lemma defer_insert_ordered d l : StronglySorted (λ d d', df_due d ≤ df_due d') l →
  StronglySorted (λ d d', df_due d ≤ df_due d') (defer_insert d l) ∧ defer_insert d l ≡ₚ d :: l.
Proof.
  induction 1 as [|x l Hl [IH1 IH2] Hx]; cbn [defer_insert]; [by split; [repeat constructor|]|].
  destruct (_ || _) eqn:E.
  - split; [|done]. apply orb_true_iff in E. rewrite andb_true_iff, Z.ltb_lt, Z.eqb_eq in E.
    constructor; [by constructor|]. constructor; [lia|]. eapply Forall_impl; [exact Hx|]. cbn. lia.
  - apply orb_false_iff in E as [E%Z.ltb_ge _]. split; [|rewrite IH2; constructor].
    constructor; [done|]. rewrite IH2. by constructor.
Qed.

Lemma classify_queued e content ws cause : classify_retx e content ws cause = Queued → content ∉ em_pending_loss_set e.
Proof.
  unfold classify_retx. destruct (entry_view _ _) as [[[? ?] ?]|]; [|done]. destruct (negb _); [done|].
  case_bool_decide; [done|]. done.
Qed.

Lemma request_ok env content ws cause e : ok e → ok (request_retransmit env content ws cause e).1.
Proof.
  intros He. unfold request_retransmit. destruct (env_no_rto env); [done|]. cbn [fst].
  destruct (classify_retx _ _ _ _) eqn:Ec; try (by apply count_ok); [|done|].
  - apply classify_queued in Ec. destruct He as [? ? ? ? ? [? ? Hl Hls ?]]. split; try done. cbn.
    rewrite Hls, elem_of_list_to_set in Ec. split; try done; rewrite !fmap_app; cbn.
    + apply NoDup_app. split_and!; [done| |apply NoDup_singleton]. intros x Hx ->%list_elem_of_singleton. done.
    + rewrite Hls, list_to_set_app_L. set_solver.
  - unfold defer. assert (ok (count verdict_deferred_to_pto e)) as H1 by (by apply count_ok).
    destruct (entry_view _ _) as [[[? ?] ?]|]; [|done]. destruct H1 as [? ? ? ? ? [? ? ? ? Hd]]. split; try done.
    split; try done. by apply defer_insert_ordered.
Qed.

Lemma due_go_spec e now n heap : ∀ out, ∃ due_, let '(rest, out') := due_go e now n heap out in
  heap = due_ ++ rest ∧ Forall (λ d, df_due d ≤ now) due_
  ∧ out' = out ++ ((λ d, (df_key d, df_judged_ws d)) <$> filter (λ d, current e (df_key d) (df_judged_ws d)) due_)
  ∧ (length out ≤ n → length out' ≤ n)%nat
  ∧ (rest = [] ∨ (n ≤ length out')%nat ∨ ∃ d, head rest = Some d ∧ now < df_due d).
Proof.
  induction heap as [|d heap IH]; intros out; cbn [due_go].
  - exists []. destruct (negb _); cbn; rewrite app_nil_r; split_and!; try done; by left.
  - destruct (Nat.ltb_spec (length out) n) as [Hlt|Hge]; cbn [negb].
    2:{ exists []. cbn. rewrite app_nil_r. split_and!; try done. by right; left. }
    destruct (Z.ltb_spec now (df_due d)) as [Hlt'|Hge'].
    { exists []. cbn. rewrite app_nil_r. split_and!; try done. right; right. eauto. }
    set (out1 := if current e (df_key d) (df_judged_ws d) then out ++ [(df_key d, df_judged_ws d)] else out).
    assert (match entry_view e (df_key d) with
      | Some (latest_ws, _, _) =>
          due_go e now n heap (if latest_ws =? df_judged_ws d then out ++ [(df_key d, df_judged_ws d)] else out)
      | None => due_go e now n heap out
      end = due_go e now n heap out1) as ->.
    { unfold out1, current. by destruct (entry_view _ _) as [[[? ?] ?]|]. }
    destruct (IH out1) as [due_ H]. exists (d :: due_). destruct (due_go e now n heap out1) as [rest out'].
    destruct H as (-> & Hd & -> & Hlen & Hstop). split_and!; try done.
    + by constructor.
    + unfold out1. rewrite filter_cons. destruct (current e (df_key d) (df_judged_ws d)); cbn; [by rewrite <-app_assoc|done].
    + intros _. apply Hlen. unfold out1. destruct (current _ _ _); [|lia]. rewrite length_app. cbn. lia.
Qed.

Lemma take_deferred_ok e now n : ok e → ok (take_due_deferred now n e).1.
Proof.
  intros He. unfold take_due_deferred. destruct (due_go_spec e now n (em_deferred e) []) as [due_ H].
  destruct (due_go _ _ _ _ _) as [rest out]. destruct H as (Hh & _). destruct He as [? ? ? ? ? [? ? ? ? Hd]].
  split; try done. split; try done. cbn. rewrite Hh in Hd. by apply StronglySorted_app in Hd as (_ & _ & ?).
Qed.

Lemma note_depth_ok e : ok e → ok (note_emission_queue_depth e).
Proof.
  intros He. destruct (note_depth_frame e) as (s & -> & Hs). destruct He as [? ? ? ? ? ?]. split; try done.
  cbn. by rewrite Hs.
Qed.
End keeps.

(** One step of a session: [taken] and [left] grow by what the step hands out. *)
Lemma offer_ok subs taken left e now f : session_ok subs taken left e →
  ∃ e' out, offer now f e = Ok (e', ([], out)) ∧ session_ok subs taken (left ++ out) e'.
Proof.
  intros He. unfold offer, next_emission. pose proof (queue_bytes_ok _ _ _ e He) as Hb.
  destruct (pop_spec (em_queue e) (wa_peek (em_alloc e)) now Hb) as (q & r & ? & ? & E & _). rewrite E, !bind_Ok.
  assert (∀ acc : bool, session_ok subs taken
    (left ++ match r with Some em => if acc then [em] else [] | None => [] end)
    (with_queue (match r with Some em => if acc then q else push_front q em | None => q end) e)) as Hq.
  { intros acc. destruct He as [(qops & h & Hw) ? ? ? ? ?]. split; try done. cbn.
    exists (qops ++ [QOffer (wa_peek (em_alloc e)) now acc]), h. eapply queue_wire; [exact Hw|done|done|].
    cbn [queue_step]. rewrite E, bind_Ok. destruct r; [by destruct acc|done]. }
  destruct r as [em|].
  2:{ eexists _, []. split; [done|]. apply (Hq true). }
  pose proof (Hq true) as Ht. pose proof (Hq false) as Hf. cbn in Ht, Hf.
  destruct f; eexists _, _; (split; [done|]); cbn [fst settle_emission].
  - destruct em; [done|]. by apply count_ok.
  - apply note_depth_ok, count_ok; [done|]. destruct Hf. by split.
  - destruct Hf. by split.
  - done.
Qed.

Lemma quiet_ok subs taken left m : keeps subs taken left m →
  ∃ e' tx out, quiet m = Ok (e', (tx, out)) ∧ session_ok subs (taken ++ tx) (left ++ out) e'.
Proof.
  intros (e' & -> & H). exists e', [], []. unfold quiet. rewrite bind_Ok, !app_nil_r. done.
Qed.

Lemma emit_step_ok env subs taken left e op :
  session_ok subs taken left e → emit_op_ok op → op_submissions op ⊆ subs →
  ∃ e' tx out, emit_step env e op = Ok (e', (tx, out)) ∧ session_ok subs (taken ++ tx) (left ++ out) e'.
Proof.
  intros He Hop Hsub. pose proof (keeps_ok subs taken left) as K.
  destruct op as [items retry now|frag now|template probe now|now|ws| |f i|f|doomed|f|f| |keys|at_|key ws|now mr mb n
    |now mr mb n|now older|entries|x y| | |at_|content ws cause|now n|now|rtt|on|b| |now f];
    cbn [emit_step]; try (apply quiet_ok).
  - apply submit_batch_ok; [done|done|]. intros it Hit. apply Hsub. cbn. apply list_elem_of_fmap. by exists it.
  - apply submit_fragment_ok; [done|done|]. apply Hsub. by left.
  - apply submit_pad_ok; [done|done|]. apply Hsub. by left.
  - by apply expire_pad_ok.
  - by apply pad_ack_ok.
  - apply K. destruct He as [? ? ? _ ? ?]. split; try done. split; cbn; [done|]. intros w [? H]. by rewrite lookup_empty in H.
  - by apply on_h264_ack_ok.
  - by apply supersede_ok.
  - by apply purge_ok.
  - by apply drop_from_ok.
  - by apply drop_frame_ok.
  - by apply trim_cache_ok.
  - by apply on_ack_ok.
  - apply K. by destruct He.
  - by apply note_ack_origin_ok.
  - unfold tick_nacks_budgeted. destruct (tick_nacks_spec subs taken left now mr mb (em_pending_nacks e) e 0 n) as (e' & s & k & -> & H & _);
      [by destruct He|]. rewrite bind_Ok. by apply K.
  - unfold tick_loss_budgeted. destruct (tick_loss_spec subs taken left now mr mb (em_pending_loss e) e 0 n) as (e' & s & k & -> & H & _);
      [by destruct He|]. rewrite bind_Ok. by apply K.
  - by apply retire_ok.
  - by apply K, on_nack_ok.
  - by apply cancel_ok.
  - by apply K, clear_ok.
  - apply K. by destruct He.
  - apply K. by destruct He.
  - by apply K, request_ok.
  - by apply K, take_deferred_ok.
  - apply K, count_ok; [done|]. by destruct He.
  - apply K. by destruct He.
  - apply K. by destruct He.
  - apply K. by destruct He.
  - eexists _, _, []. split; [done|]. rewrite app_nil_r. destruct He as [(qops & h & Hw) ? ? ? ? ?]. split; try done.
    exists qops, h. cbn. by rewrite app_nil_r.
  - destruct (offer_ok subs taken left e now f He) as (e' & out & -> & H). eexists _, [], out. by rewrite app_nil_r.
Qed.

Lemma emit_run_ok env subs ops : ∀ taken left e,
  session_ok subs taken left e → Forall emit_op_ok ops → submissions ops ⊆ subs →
  ∃ e' tx out, emit_run env e ops = Ok (e', (tx, out)) ∧ session_ok subs (taken ++ tx) (left ++ out) e'.
Proof.
  induction ops as [|op ops IH]; intros taken left e He Hops Hsub; cbn [emit_run].
  { exists e, [], []. rewrite !app_nil_r. done. }
  apply Forall_cons in Hops as [Hop Hops]. unfold submissions in Hsub. cbn in Hsub.
  destruct (emit_step_ok env subs taken left e op He Hop) as (e1 & t1 & o1 & -> & H1).
  { intros x Hx. apply Hsub, elem_of_app. by left. }
  rewrite bind_Ok. destruct (IH _ _ e1 H1 Hops) as (e2 & t2 & o2 & -> & H2).
  { intros x Hx. apply Hsub, elem_of_app. by right. }
  rewrite bind_Ok. eexists _, _, _. split; [done|]. cbn. by rewrite !app_assoc.
Qed.

Lemma session_new subs now : session_ok subs [] [] (emitter_new now).
Proof.
  split; cbn.
  - exists [], []. split; try done. split_and!; [done|done|by apply Nat.ltb_lt].
  - exists spec_new. split; [apply empty_refines|apply map_Forall_empty].
  - exists ∅. split; [apply h264_new_flat|apply map_Forall_empty].
  - split; cbn; [done|]. intros ws [? H]. by rewrite lookup_empty in H.
  - split; [apply map_Forall_empty|]. by rewrite map_total_empty.
  - split; cbn; try done; constructor.
Qed.

(** ** What a session guarantees *)

(** C4: Whatever the session does to it, the reliable emitter never panics; what it
    reported to the ledger is, one for one and in order, what it put on its queue, each
    datagram being the submission of its content with only the transmission number, the
    emission time and the padding mark written over; the numbers reported are those of
    the allocator, none skipped or used twice; and the queued datagrams leave in that
    order, all of them but the H.264 ones of purged frames. *)
Theorem emitter_session_sound env now ops : Forall emit_op_ok ops →
  ∃ e tx out pushes gone, emit_run env (emitter_new now) ops = Ok (e, (tx, out))
    ∧ Forall2 (reports (submissions ops)) pushes (tx ++ e.(em_transmissions))
    ∧ ed_wire_seq <$> (tx ++ e.(em_transmissions)) = wa_run (length pushes) wa_new
    ∧ sources out ++ sources e.(em_queue).(eq_queue) `sublist_of` pushes
    ∧ sources out ++ sources e.(em_queue).(eq_queue) ++ gone ≡ₚ pushes
    ∧ Forall (λ em, ∃ b c, em = ESource b c ∧ is_frame_datagram b = true) gone.
Proof.
  intros Hops. destruct (emit_run_ok env (submissions ops) ops [] [] _ (session_new _ now) Hops) as (e & tx & out & E & He);
    [done|].
  destruct (so_wire _ _ _ _ He) as (qops & h & [Hrun Hrep Hseq _ _ _ _]).
  destruct (queue_run_accounted qops) as (q & sent & gone & E' & [_ Ho Hs Hg _]).
  rewrite Hrun in E'. injection E' as <- <-. exists e, tx, out, (pushed qops), gone. split_and!; try done.
  - by rewrite (Forall2_length _ _ _ Hrep).
  - eapply Forall_impl; [exact Hg|]. intros em (d & _ & Hd). destruct em as [b c|]; [|done]. exists b, c. split; [done|].
    unfold purged in Hd. by apply Is_true_true, andb_prop in Hd as [? _].
Qed.

Definition a_tile (n : nat) : list Z := [128; 0; 0; 1; 0; 0; 0; Z.of_nat n; 0; 0; 0; 0; 0; 0; 0; 0; 0; 0; 0; 16; Z.of_nat n].
Definition tile_key (n : nat) : EmitKey := mkEmitKey 1 (Z.of_nat n) 0 0.
Definition sample_env : EmitterEnv := mkEnv RTO_BACKOFF_MAX false.
Definition sample_session : list emit_op :=
  [ESetFec true; ESubmit ((λ n, (tile_key n, a_tile n, 0, None)) <$> seq 0 12) [] 5000000; ENack [tile_key 3];
   ERequest (CTile (tile_key 4)) 4 RLoss; ETickNacks 9000000 8 100000 0; ETickLoss 9000000 8 100000 0]
  ++ replicate 14 (EOffer 9000000 FSent) ++ [EOffer 14000000 FSent; EOffer 19000000 FSent; ETake].

Lemma sample_session_ok : Forall emit_op_ok sample_session.
Proof. by apply (bool_decide_unpack (Forall emit_op_ok sample_session)); vm_compute. Qed.

Lemma emitter_session_sound_witness : ∃ e tx out pushes gone,
  emit_run sample_env (emitter_new 0) sample_session = Ok (e, (tx, out))
  ∧ Forall2 (reports (submissions sample_session)) pushes (tx ++ e.(em_transmissions))
  ∧ sources out ++ sources e.(em_queue).(eq_queue) ++ gone ≡ₚ pushes.
Proof.
  destruct (emitter_session_sound sample_env 0 sample_session sample_session_ok) as (e & tx & out & pushes & gone & H1 & H2 & _ & _ & H3 & _).
  exists e, tx, out, pushes, gone. split; [exact H1|]. split; [exact H2|exact H3].
Defined.







(** Turning parity on in mid-stream costs nothing: the group starts at the next datagram
    and completes. *)
Example parity_from_mid_stream :
  let batch from := ESubmit ((λ n, (tile_key n, a_tile n, 0, None)) <$> seq from 10) [] 5000000 in
  match emit_run sample_env (emitter_new 0) [batch 0%nat; ESetFec true; batch 20%nat] with
  | Ok (e, _) => (λ p, (tp_decode p.2 ≫= λ env, Ok (tp_group_first_wire_seq env))) <$> eq_pending_parity (em_queue e) = [Ok 10]
  | _ => False
  end.
Proof. vm_compute. reflexivity. Qed.
