(* ===== verification/Ledger.v ===== *)
(** * The transmission ledger ([transport/transmission_ledger.rs])

    One entry per datagram sent, whether or not its content is still wanted: when it
    was built, when it left the host, and what became of it.  An acknowledgement
    resolves an entry; the loss detector (RFC 9002 section 6.1, with the reordering
    window of RFC 8985) declares entries lost and keeps tombstones, so that an
    acknowledgement that comes after the verdict is still recognised and teaches the
    detector how far the path reorders.

    This file holds the definitions; [LedgerTheory] and [LossDetection] the theorems.
    [Instant]s and [Duration]s are nanoseconds.  The counters of [LedgerStats] are a
    function of the counter's name.  A loop over a deque that is cleaned as it is
    walked is a recursion over the deque with the entries kept so far. *)

From Stdlib Require Import ZArith Lia.
From S2P Require Import Prelude Wire EmitIds Rtt.
From stdpp Require Import base option numbers list gmap.

Local Open Scope Z_scope.

(** ** Data *)

Record RateSamplePacketState : Type := mkRateState {
  rp_delivered : Z; rp_delivered_time : option Z; rp_first_sent_time : option Z;
  rp_is_app_limited : bool; rp_tx_in_flight : Z; rp_lost : Z;
}.

Record RateMark : Type := mkRateMark {
  rm_pkt_num : Z; rm_state : RateSamplePacketState; rm_pacer_limited : bool;
}.

Record Transmission : Type := mkTx {
  tx_emit_us : Z; tx_wire_bytes : Z; tx_content : Content;
  tx_depart_us : option Z; tx_dep_idx : option Z;
}.

Inductive ReoBranch : Type := BOpen | BDepth | BQuiet.

Inductive LossReason : Type := LPacket | LTime | LPto.
#[export] Instance LossReason_eq_dec : EqDecision LossReason.
Proof. solve_decision. Defined.

Definition K_PKT_INITIAL : Z := 3.
Definition K_PKT_MAX : Z := 8.
Definition ADAPT_WINDOW : Z := 64.
Definition ADAPT_MIN_VERDICTS : Z := 32.
Definition ADAPT_SPURIOUS_PERCENT : Z := 10.
Definition REO_STEP_DIVISOR : Z := 8.
Definition REO_DEPTH_MAX : Z := 64.
Definition REO_STEP_FALLBACK : Z := 5 * MILLI.
Definition REO_CAP_FALLBACK : Z := 50 * MILLI.
Definition REO_CAP_DIVISOR : Z := 2.
Definition REO_PERSIST : Z := 16.
Definition REO_QUIET_SPAN : Z := 30000 * MILLI.
Definition PARITY_RING_CAP : nat := Z.to_nat 16384.
Definition SCAN_DEAD_BUDGET : nat := Z.to_nat 4096.
Definition BURST_REORDER_FACTOR : Z := 3.
Definition MAX_PROBE_BURSTS : nat := 16.
Definition PATIENT_SCAN_LIMIT : nat := Z.to_nat 2048.

Inductive Resolution : Type :=
| RLive (tx : Transmission)
| RLate (tx : Transmission) (fec_possible : bool).

Record Tombstone : Type := mkTombstone {
  tb_tx : Transmission;
  tb_packet_verdict_no : option Z;
  tb_reason : LossReason;
  tb_largest_idx_at_verdict : option Z;
  tb_largest_at_at_verdict : option Z;
  tb_largest_arrival_at_verdict : option Z;
  tb_departed : option Z;
  tb_rate : option RateMark;
}.

(** The counters of [LedgerStats] ([k_pkt], [reo_wnd_us] and [reo_depth] are read off the
    ledger when the counters are reported). *)
Inductive Stat : Type :=
| unknown_acks | capacity_evictions | acked_after_declared_lost | tombstone_evictions
| expired_before_departure | departures_stamped | evicted_before_departure
| forgotten_before_departure | forgotten_without_verdict
| lost_packet_threshold | lost_time_threshold | lost_pto
| spurious_losses | late_acks_fec_possible | k_pkt_raises | reo_wnd_raises
| reo_learned_packet | reo_learned_time | spurious_disp_max | spurious_gap_us_max
| reo_stall_skips | reo_judged_depth | reo_judged_quiet.
#[export] Instance Stat_eq_dec : EqDecision Stat.
Proof. solve_decision. Defined.

Definition LedgerStats : Type := Stat → Z.
Definition stats_zero : LedgerStats := λ _, 0.
Definition stat_set (s : Stat) (v : Z) (st : LedgerStats) : LedgerStats :=
  λ s', if decide (s' = s) then v else st s'.

Record LRecord : Type := mkRecord {
  lr_recorded_at : Z; lr_departed : option Z; lr_rate : option RateMark; lr_tx : Transmission;
}.

(** [largest_acked], [largest_acked_at], [largest_acked_arrival] *)
Record AckReference : Type := mkAckRef { la_idx : option Z; la_at : option Z; la_arrival : option Z }.

(** What the ledger has learned about reordering. *)
Record Reordering : Type := mkReo {
  ro_wnd : Z; ro_freeze : bool; ro_recoveries : Z; ro_recovery_point : Z; ro_depth : Z;
  ro_last_time_threshold : option Z; ro_last_raise : option Z; ro_last_spurious_ack : option Z;
}.

(** The packet threshold and what it adapts from. *)
Record Adaptation : Type := mkAdapt {
  ad_k_pkt : Z; ad_freeze : bool; ad_verdicts : Z; ad_spurious_bits : Z;
}.

Record TransmissionLedger : Type := mkLedger {
  lg_records : gmap Z LRecord;
  lg_order : list Z;
  lg_departed_order : list Z;
  lg_capacity : nat;
  lg_stats : LedgerStats;
  lg_tombstones : gmap Z Tombstone;
  lg_tombstone_order : list Z;
  lg_next_dep_idx : Z;
  lg_probe_bursts : list (Z * Z);
  lg_ack : AckReference;
  lg_reo : Reordering;
  lg_parity_departed : gmap Z Z;
  lg_parity_order : list (Z * Z);
  lg_adapt : Adaptation;
  lg_departed_bytes : Z;
}.

(** Field updates. *)
Definition set_records x (l : TransmissionLedger) : TransmissionLedger :=
  mkLedger x l.(lg_order) l.(lg_departed_order) l.(lg_capacity) l.(lg_stats) l.(lg_tombstones)
    l.(lg_tombstone_order) l.(lg_next_dep_idx) l.(lg_probe_bursts) l.(lg_ack) l.(lg_reo)
    l.(lg_parity_departed) l.(lg_parity_order) l.(lg_adapt) l.(lg_departed_bytes).
Definition set_order x (l : TransmissionLedger) : TransmissionLedger :=
  mkLedger l.(lg_records) x l.(lg_departed_order) l.(lg_capacity) l.(lg_stats) l.(lg_tombstones)
    l.(lg_tombstone_order) l.(lg_next_dep_idx) l.(lg_probe_bursts) l.(lg_ack) l.(lg_reo)
    l.(lg_parity_departed) l.(lg_parity_order) l.(lg_adapt) l.(lg_departed_bytes).
Definition set_departed_order x (l : TransmissionLedger) : TransmissionLedger :=
  mkLedger l.(lg_records) l.(lg_order) x l.(lg_capacity) l.(lg_stats) l.(lg_tombstones)
    l.(lg_tombstone_order) l.(lg_next_dep_idx) l.(lg_probe_bursts) l.(lg_ack) l.(lg_reo)
    l.(lg_parity_departed) l.(lg_parity_order) l.(lg_adapt) l.(lg_departed_bytes).
Definition set_stats x (l : TransmissionLedger) : TransmissionLedger :=
  mkLedger l.(lg_records) l.(lg_order) l.(lg_departed_order) l.(lg_capacity) x l.(lg_tombstones)
    l.(lg_tombstone_order) l.(lg_next_dep_idx) l.(lg_probe_bursts) l.(lg_ack) l.(lg_reo)
    l.(lg_parity_departed) l.(lg_parity_order) l.(lg_adapt) l.(lg_departed_bytes).
Definition set_tombstones x (l : TransmissionLedger) : TransmissionLedger :=
  mkLedger l.(lg_records) l.(lg_order) l.(lg_departed_order) l.(lg_capacity) l.(lg_stats) x
    l.(lg_tombstone_order) l.(lg_next_dep_idx) l.(lg_probe_bursts) l.(lg_ack) l.(lg_reo)
    l.(lg_parity_departed) l.(lg_parity_order) l.(lg_adapt) l.(lg_departed_bytes).
Definition set_tombstone_order x (l : TransmissionLedger) : TransmissionLedger :=
  mkLedger l.(lg_records) l.(lg_order) l.(lg_departed_order) l.(lg_capacity) l.(lg_stats) l.(lg_tombstones)
    x l.(lg_next_dep_idx) l.(lg_probe_bursts) l.(lg_ack) l.(lg_reo) l.(lg_parity_departed)
    l.(lg_parity_order) l.(lg_adapt) l.(lg_departed_bytes).
Definition set_next_dep_idx x (l : TransmissionLedger) : TransmissionLedger :=
  mkLedger l.(lg_records) l.(lg_order) l.(lg_departed_order) l.(lg_capacity) l.(lg_stats) l.(lg_tombstones)
    l.(lg_tombstone_order) x l.(lg_probe_bursts) l.(lg_ack) l.(lg_reo) l.(lg_parity_departed)
    l.(lg_parity_order) l.(lg_adapt) l.(lg_departed_bytes).
Definition set_probe_bursts x (l : TransmissionLedger) : TransmissionLedger :=
  mkLedger l.(lg_records) l.(lg_order) l.(lg_departed_order) l.(lg_capacity) l.(lg_stats) l.(lg_tombstones)
    l.(lg_tombstone_order) l.(lg_next_dep_idx) x l.(lg_ack) l.(lg_reo) l.(lg_parity_departed)
    l.(lg_parity_order) l.(lg_adapt) l.(lg_departed_bytes).
Definition set_ack x (l : TransmissionLedger) : TransmissionLedger :=
  mkLedger l.(lg_records) l.(lg_order) l.(lg_departed_order) l.(lg_capacity) l.(lg_stats) l.(lg_tombstones)
    l.(lg_tombstone_order) l.(lg_next_dep_idx) l.(lg_probe_bursts) x l.(lg_reo) l.(lg_parity_departed)
    l.(lg_parity_order) l.(lg_adapt) l.(lg_departed_bytes).
Definition set_reo x (l : TransmissionLedger) : TransmissionLedger :=
  mkLedger l.(lg_records) l.(lg_order) l.(lg_departed_order) l.(lg_capacity) l.(lg_stats) l.(lg_tombstones)
    l.(lg_tombstone_order) l.(lg_next_dep_idx) l.(lg_probe_bursts) l.(lg_ack) x l.(lg_parity_departed)
    l.(lg_parity_order) l.(lg_adapt) l.(lg_departed_bytes).
Definition set_parity_departed x (l : TransmissionLedger) : TransmissionLedger :=
  mkLedger l.(lg_records) l.(lg_order) l.(lg_departed_order) l.(lg_capacity) l.(lg_stats) l.(lg_tombstones)
    l.(lg_tombstone_order) l.(lg_next_dep_idx) l.(lg_probe_bursts) l.(lg_ack) l.(lg_reo) x
    l.(lg_parity_order) l.(lg_adapt) l.(lg_departed_bytes).
Definition set_parity_order x (l : TransmissionLedger) : TransmissionLedger :=
  mkLedger l.(lg_records) l.(lg_order) l.(lg_departed_order) l.(lg_capacity) l.(lg_stats) l.(lg_tombstones)
    l.(lg_tombstone_order) l.(lg_next_dep_idx) l.(lg_probe_bursts) l.(lg_ack) l.(lg_reo)
    l.(lg_parity_departed) x l.(lg_adapt) l.(lg_departed_bytes).
Definition set_adapt x (l : TransmissionLedger) : TransmissionLedger :=
  mkLedger l.(lg_records) l.(lg_order) l.(lg_departed_order) l.(lg_capacity) l.(lg_stats) l.(lg_tombstones)
    l.(lg_tombstone_order) l.(lg_next_dep_idx) l.(lg_probe_bursts) l.(lg_ack) l.(lg_reo)
    l.(lg_parity_departed) l.(lg_parity_order) x l.(lg_departed_bytes).
Definition set_departed_bytes x (l : TransmissionLedger) : TransmissionLedger :=
  mkLedger l.(lg_records) l.(lg_order) l.(lg_departed_order) l.(lg_capacity) l.(lg_stats) l.(lg_tombstones)
    l.(lg_tombstone_order) l.(lg_next_dep_idx) l.(lg_probe_bursts) l.(lg_ack) l.(lg_reo)
    l.(lg_parity_departed) l.(lg_parity_order) l.(lg_adapt) x.

Definition set_stat (s : Stat) (v : Z) (l : TransmissionLedger) : TransmissionLedger :=
  set_stats (stat_set s v l.(lg_stats)) l.
(** [self.stats.s += 1] *)
Definition bump (s : Stat) (l : TransmissionLedger) : TransmissionLedger :=
  set_stat s (l.(lg_stats) s + 1) l.

Definition reo_fresh (freeze : bool) : Reordering := mkReo 0 freeze 0 0 0 None None None.
Definition adapt_fresh (freeze : bool) : Adaptation := mkAdapt K_PKT_INITIAL freeze 0 0.

Definition ledger_new (capacity : nat) : TransmissionLedger :=
  mkLedger ∅ [] [] capacity stats_zero ∅ [] 0 [] (mkAckRef None None None) (reo_fresh false) ∅ []
    (adapt_fresh false) 0.

(** ** Reference and learning *)

Definition advance_largest_acked (idx at_ : Z) (arrival : option Z) (l : TransmissionLedger) : TransmissionLedger :=
  if match l.(lg_ack).(la_idx) with None => true | Some x => x <? idx end
  then set_ack (mkAckRef (Some idx) (Some at_) arrival) l
  else l.

Definition learn_reordering (now min_rtt : option Z) (extent disp : Z) (l : TransmissionLedger) : TransmissionLedger :=
  let r := l.(lg_reo) in
  let r := mkReo r.(ro_wnd) r.(ro_freeze) 0 r.(ro_recovery_point) r.(ro_depth)
             r.(ro_last_time_threshold) r.(ro_last_raise) now in
  if r.(ro_freeze) then set_reo r l
  else
    let depth := Z.max r.(ro_depth) (Z.min (disp + 1) REO_DEPTH_MAX) in
    let step := match min_rtt with None => REO_STEP_FALLBACK | Some m => m / REO_STEP_DIVISOR end in
    let cap := match min_rtt with None => REO_CAP_FALLBACK
               | Some m => Z.min (m / REO_CAP_DIVISOR) REO_CAP_FALLBACK end in
    let target := Z.min (Z.max extent step) cap in
    let round := match min_rtt with Some m => m | None => step * REO_STEP_DIVISOR end in
    let due := match r.(ro_last_raise), now with
               | Some prev, Some n => round <=? sat_sub n prev
               | _, _ => true
               end in
    let next := Z.min (r.(ro_wnd) + step) cap in
    if (r.(ro_wnd) + step / 2 <=? target) && due
    then bump reo_wnd_raises
           (set_reo (mkReo next r.(ro_freeze) r.(ro_recoveries) r.(ro_recovery_point) depth
                       r.(ro_last_time_threshold) now r.(ro_last_spurious_ack)) l)
    else set_reo (mkReo r.(ro_wnd) r.(ro_freeze) r.(ro_recoveries) r.(ro_recovery_point) depth
                    r.(ro_last_time_threshold) r.(ro_last_raise) r.(ro_last_spurious_ack)) l.

(** [u64::count_ones] *)
Definition count_ones (bits : Z) : Z := Z.of_nat (length (filter (λ i, Z.testbit bits i) (seqZ 0 64))).

Definition note_spurious (verdict_no : Z) (l : TransmissionLedger) : TransmissionLedger :=
  let a := l.(lg_adapt) in
  if ADAPT_WINDOW <=? a.(ad_verdicts) - verdict_no then l
  else
    let bits := Z.lor a.(ad_spurious_bits) (Z.shiftl 1 (verdict_no mod ADAPT_WINDOW)) in
    let in_window := Z.min a.(ad_verdicts) ADAPT_WINDOW in
    if (ADAPT_MIN_VERDICTS <=? in_window) && (in_window * ADAPT_SPURIOUS_PERCENT <? count_ones bits * 100)
    then if negb a.(ad_freeze) && (a.(ad_k_pkt) <? K_PKT_MAX)
         then bump k_pkt_raises (set_adapt (mkAdapt (a.(ad_k_pkt) + 1) a.(ad_freeze) a.(ad_verdicts) 0) l)
         else set_adapt (mkAdapt a.(ad_k_pkt) a.(ad_freeze) a.(ad_verdicts) 0) l
    else set_adapt (mkAdapt a.(ad_k_pkt) a.(ad_freeze) a.(ad_verdicts) bits) l.

(** ** Parity departures *)

(** The pruning loop of [note_parity_departed]. *)
Fixpoint prune_parity (at_ retain : Z) (order : list (Z * Z)) (departed : gmap Z Z) : list (Z * Z) * gmap Z Z :=
  match order with
  | [] => ([], departed)
  | (g, t) :: rest =>
      if (length order <=? PARITY_RING_CAP)%nat && (sat_sub at_ t <=? retain) then (order, departed)
      else prune_parity at_ retain rest (if decide (departed !! g = Some t) then delete g departed else departed)
  end.

Definition note_parity_departed (group_first at_ retain : Z) (l : TransmissionLedger) : TransmissionLedger :=
  let '(order, departed) := prune_parity at_ retain l.(lg_parity_order) l.(lg_parity_departed) in
  set_parity_order (order ++ [(group_first, at_)]) (set_parity_departed (<[group_first := at_]> departed) l).

(** [find_map] over the possible first numbers of the group of [wire_seq]. *)
Fixpoint find_group (departed : gmap Z Z) (firsts : list Z) : option (Z * Z) :=
  match firsts with
  | [] => None
  | f :: firsts => match departed !! f with Some t => Some (f, t) | None => find_group departed firsts end
  end.

Definition fec_possible (l : TransmissionLedger) (wire_seq : Z) (ack : option (Z * Z)) : bool :=
  match find_group l.(lg_parity_departed) ((λ i, wsub32 wire_seq i) <$> seqZ 0 FEC_GROUP_SIZE_K) with
  | None => false
  | Some (first, left_at) =>
      if match ack with Some (now, min_rtt) => sat_sub now left_at <? min_rtt | None => false end then false
      else forallb (λ m, bool_decide (l.(lg_records) !! m = None) && bool_decide (l.(lg_tombstones) !! m = None))
             (filter (λ m, m ≠ wire_seq) ((λ i, wadd32 first i) <$> seqZ 0 FEC_GROUP_SIZE_K))
  end.

(** ** Recording and departure *)

Definition leave (r : LRecord) (l : TransmissionLedger) : TransmissionLedger :=
  match r.(lr_departed) with
  | Some _ => set_departed_bytes (sat_sub l.(lg_departed_bytes) r.(lr_tx).(tx_wire_bytes)) l
  | None => l
  end.

Definition is_departed (r : LRecord) : bool := match r.(lr_departed) with Some _ => true | None => false end.

(** An entry of a departure order that still stands for a departed record. *)
Definition live_departed (records : gmap Z LRecord) (ws : Z) : bool :=
  match records !! ws with Some r => is_departed r | None => false end.

Definition compact_if_sparse (l : TransmissionLedger) : TransmissionLedger :=
  let live := size l.(lg_records) in
  let slack := (2 * l.(lg_capacity) + 64)%nat in
  let l := if (live + slack <? length l.(lg_order))%nat
           then set_order (filter (λ w, is_Some (l.(lg_records) !! w)) l.(lg_order)) l else l in
  if (live + slack <? length l.(lg_departed_order))%nat
  then set_departed_order (filter (λ w, live_departed l.(lg_records) w) l.(lg_departed_order)) l else l.

(** The capacity loop of [record], popping [order] from the front. *)
Fixpoint evict_records (order : list Z) (l : TransmissionLedger) : TransmissionLedger :=
  let l := set_order order l in
  if (size l.(lg_records) <=? l.(lg_capacity))%nat then l
  else match order with
       | [] => l
       | oldest :: order =>
           evict_records order
             (match l.(lg_records) !! oldest with
              | None => l
              | Some r =>
                  let l := bump capacity_evictions (leave r (set_records (delete oldest l.(lg_records)) l)) in
                  if is_departed r then l else bump evicted_before_departure l
              end)
       end.

Definition ledger_record (wire_seq at_ : Z) (tx : Transmission) (l : TransmissionLedger) : TransmissionLedger :=
  let rec := mkRecord at_ None None (mkTx tx.(tx_emit_us) tx.(tx_wire_bytes) tx.(tx_content) None None) in
  let old := l.(lg_records) !! wire_seq in
  let l := set_records (<[wire_seq := rec]> l.(lg_records)) l in
  let l := match old with
           | Some old => let l := bump capacity_evictions (leave old l) in
                         set_order (filter (λ w, w ≠ wire_seq) l.(lg_order)) l
           | None => l
           end in
  compact_if_sparse (evict_records (l.(lg_order) ++ [wire_seq]) l).

Definition mark_departed (wire_seq at_ depart_us : Z) (l : TransmissionLedger) : TransmissionLedger * bool :=
  match l.(lg_records) !! wire_seq with
  | None => (l, false)
  | Some r =>
      if is_departed r then (l, false)
      else
        let tx := r.(lr_tx) in
        let r' := mkRecord r.(lr_recorded_at) (Some at_) r.(lr_rate)
                    (mkTx tx.(tx_emit_us) tx.(tx_wire_bytes) tx.(tx_content) (Some depart_us) (Some l.(lg_next_dep_idx))) in
        (bump departures_stamped
           (set_departed_order (l.(lg_departed_order) ++ [wire_seq])
              (set_departed_bytes (l.(lg_departed_bytes) + tx.(tx_wire_bytes))
                 (set_next_dep_idx (l.(lg_next_dep_idx) + 1)
                    (set_records (<[wire_seq := r']> l.(lg_records)) l)))), true)
  end.

Definition mark_rate (wire_seq : Z) (make : Z → Z → Z → RateMark) (l : TransmissionLedger) : TransmissionLedger :=
  match l.(lg_records) !! wire_seq with
  | None => l
  | Some r =>
      match r.(lr_departed), r.(lr_rate), r.(lr_tx).(tx_dep_idx) with
      | Some _, None, Some dep_idx =>
          let bytes := r.(lr_tx).(tx_wire_bytes) in
          let before := sat_sub l.(lg_departed_bytes) bytes in
          set_records (<[wire_seq := mkRecord r.(lr_recorded_at) r.(lr_departed) (Some (make bytes before dep_idx)) r.(lr_tx)]>
                         l.(lg_records)) l
      | _, _, _ => l
      end
  end.

Definition rate_mark (l : TransmissionLedger) (wire_seq : Z) : option (RateMark * Z) :=
  match l.(lg_records) !! wire_seq with
  | Some r => match r.(lr_rate), r.(lr_departed) with Some m, Some d => Some (m, d) | _, _ => None end
  | None =>
      match l.(lg_tombstones) !! wire_seq with
      | Some t => match t.(tb_rate), t.(tb_departed) with Some m, Some d => Some (m, d) | _, _ => None end
      | None => None
      end
  end.

Definition ledger_departed (l : TransmissionLedger) (wire_seq : Z) : option bool :=
  is_departed <$> l.(lg_records) !! wire_seq.

(** [forget_undeparted] is [take_undeparted] with the answer reduced to whether there was one. *)
Definition take_undeparted (wire_seq : Z) (l : TransmissionLedger) : TransmissionLedger * option Transmission :=
  match l.(lg_records) !! wire_seq with
  | None => (l, None)
  | Some r =>
      if is_departed r then (l, None)
      else (bump forgotten_before_departure (set_records (delete wire_seq l.(lg_records)) l), Some r.(lr_tx))
  end.

Definition forget_undeparted (wire_seq : Z) (l : TransmissionLedger) : TransmissionLedger * bool :=
  match l.(lg_records) !! wire_seq with
  | None => (l, false)
  | Some r =>
      if is_departed r then (l, false)
      else (bump forgotten_before_departure (set_records (delete wire_seq l.(lg_records)) l), true)
  end.

Definition forget_outstanding (wire_seq : Z) (l : TransmissionLedger) : TransmissionLedger * option Transmission :=
  match l.(lg_records) !! wire_seq with
  | None => (l, None)
  | Some r =>
      (bump forgotten_without_verdict (leave r (set_records (delete wire_seq l.(lg_records)) l)), Some r.(lr_tx))
  end.

Definition discard_undeparted (l : TransmissionLedger) : TransmissionLedger * nat :=
  let kept := filter (λ wr : Z * LRecord, is_departed wr.2) l.(lg_records) in
  (set_records kept l, (size l.(lg_records) - size kept)%nat).

(** ** Probe bursts *)

Definition mark_probe_burst (start end_ : Z) (l : TransmissionLedger) : TransmissionLedger :=
  let bursts := l.(lg_probe_bursts) in
  match last bursts with
  | Some (s, e) =>
      if start <=? e
      then set_probe_bursts (take (length bursts - 1) bursts ++ [(Z.min s start, Z.max e end_)]) l
      else set_probe_bursts ((if (MAX_PROBE_BURSTS <=? length bursts)%nat then drop 1 bursts else bursts)
                               ++ [(start, end_)]) l
  | None => set_probe_bursts (bursts ++ [(start, end_)]) l
  end.

Definition in_probe_burst (l : TransmissionLedger) (at_ : Z) : bool :=
  existsb (λ b, (b.1 <=? at_) && (at_ <=? b.2)) l.(lg_probe_bursts).

Definition is_patient (l : TransmissionLedger) (tx : Transmission) (departed : Z) : bool :=
  match tx.(tx_content) with CTile _ => false | _ => in_probe_burst l departed end.

Definition declared_lost_in_burst (l : TransmissionLedger) (wire_seq : Z) : bool :=
  match l.(lg_tombstones) !! wire_seq with
  | Some t => match t.(tb_departed) with Some d => is_patient l t.(tb_tx) d | None => false end
  | None => false
  end.

Definition reset_session (l : TransmissionLedger) : TransmissionLedger :=
  mkLedger ∅ [] [] l.(lg_capacity) l.(lg_stats) ∅ [] 0 [] (mkAckRef None None None)
    (reo_fresh l.(lg_reo).(ro_freeze)) ∅ [] (adapt_fresh l.(lg_adapt).(ad_freeze)) 0.

(** ** Verdicts *)

(** The tombstone capacity loop, popping [tombstone_order] from the front. *)
Fixpoint evict_tombstones (order : list Z) (l : TransmissionLedger) : TransmissionLedger :=
  let l := set_tombstone_order order l in
  if (size l.(lg_tombstones) <=? l.(lg_capacity))%nat then l
  else match order with
       | [] => l
       | oldest :: order =>
           evict_tombstones order
             (match l.(lg_tombstones) !! oldest with
              | None => l
              | Some _ => bump tombstone_evictions (set_tombstones (delete oldest l.(lg_tombstones)) l)
              end)
       end.

Definition reason_stat (r : LossReason) : Stat :=
  match r with LPacket => lost_packet_threshold | LTime => lost_time_threshold | LPto => lost_pto end.

Definition declare_lost (wire_seq : Z) (reason : LossReason) (l : TransmissionLedger)
    (lost : list (Z * Transmission * LossReason)) : TransmissionLedger * list (Z * Transmission * LossReason) :=
  match l.(lg_records) !! wire_seq with
  | None => (l, lost)
  | Some r =>
      let l := leave r (set_records (delete wire_seq l.(lg_records)) l) in
      let l := if is_departed r then l else bump expired_before_departure l in
      let l := bump (reason_stat reason) l in
      let a := l.(lg_adapt) in
      let '(no, a) :=
        match reason with
        | LPacket =>
            let v := a.(ad_verdicts) + 1 in
            (Some v, mkAdapt a.(ad_k_pkt) a.(ad_freeze) v
                       (Z.ldiff a.(ad_spurious_bits) (Z.shiftl 1 (v mod ADAPT_WINDOW))))
        | _ => (None, a)
        end in
      let l := set_adapt a l in
      let t := mkTombstone r.(lr_tx) no reason l.(lg_ack).(la_idx) l.(lg_ack).(la_at) l.(lg_ack).(la_arrival)
                 r.(lr_departed) r.(lr_rate) in
      let l := set_tombstones (<[wire_seq := t]> l.(lg_tombstones)) l in
      (evict_tombstones (l.(lg_tombstone_order) ++ [wire_seq]) l, lost ++ [(wire_seq, r.(lr_tx), reason)])
  end.

Definition declare_lost_by_pto (wire_seq : Z) (l : TransmissionLedger) : TransmissionLedger * option Transmission :=
  let '(l, lost) := declare_lost wire_seq LPto l [] in
  (l, (λ x, x.1.2) <$> last lost).

(** [tx.dep_idx.unwrap_or(u64::MAX)] *)
Definition idx_of (tx : Transmission) : Z := default (2 ^ 64 - 1) tx.(tx_dep_idx).

(** The reordering window in force: never more than half the time threshold. *)
Definition reo_in_force (l : TransmissionLedger) (time_threshold : Z) : Z :=
  Z.min l.(lg_reo).(ro_wnd) (time_threshold / 2).

Definition stream_quiet (l : TransmissionLedger) (now reo : Z) : bool :=
  match l.(lg_ack).(la_arrival) with None => true | Some a => reo <=? sat_sub now a end.

Definition time_limit (l : TransmissionLedger) (tx : Transmission) (at_ time_threshold : Z) : Z :=
  if is_patient l tx at_ then time_threshold * BURST_REORDER_FACTOR else time_threshold.

Definition inside_window (l : TransmissionLedger) (reo at_ : Z) : bool :=
  negb (reo =? 0) && match l.(lg_ack).(la_at) with None => true | Some la => sat_sub la at_ <? reo end.

(** The count rule: the branch that judges the transmission, if one does. *)
Definition count_rule (l : TransmissionLedger) (now reo largest_idx idx at_ : Z) : option ReoBranch :=
  let k := l.(lg_adapt).(ad_k_pkt) in
  if negb (inside_window l reo at_) then if idx + k <=? largest_idx then Some BOpen else None
  else if Z.min (idx + Z.max k l.(lg_reo).(ro_depth)) (2 ^ 64 - 1) <=? largest_idx then Some BDepth
  else if (idx + k <=? largest_idx) && stream_quiet l now reo then Some BQuiet
  else None.

(** The verdict on a departed record, with the counter its branch bumps. *)
Definition judge (l : TransmissionLedger) (now time_threshold largest_idx : Z) (tx : Transmission) (at_ : Z) :
    option (LossReason * option Stat) :=
  let reo := reo_in_force l time_threshold in
  match count_rule l now reo largest_idx (idx_of tx) at_ with
  | Some BOpen => Some (LPacket, None)
  | Some BDepth => Some (LPacket, Some reo_judged_depth)
  | Some BQuiet => Some (LPacket, Some reo_judged_quiet)
  | None => if at_ + time_limit l tx at_ time_threshold + reo <=? now then Some (LTime, None) else None
  end.

(** An entry that leaves the deque when it is at its front, and is stepped over otherwise. *)
Definition pass_over (kept : list Z) (ws : Z) : list Z :=
  match kept with [] => [] | _ => kept ++ [ws] end.

(** The walk of [detect_losses_at]: [kept] are the entries before index [i], [rest] those
    from it on. *)
Fixpoint detect_walk (now time_threshold largest_idx : Z) (kept : list Z) (stepped : nat) (rest : list Z)
    (l : TransmissionLedger) (lost : list (Z * Transmission * LossReason)) :
    TransmissionLedger * list (Z * Transmission * LossReason) :=
  match rest with
  | [] => (set_departed_order kept l, lost)
  | ws :: rest' =>
      match l.(lg_records) !! ws with
      | Some (mkRecord _ (Some at_) _ tx) =>
          if largest_idx <=? idx_of tx then (set_departed_order (kept ++ rest) l, lost)
          else
            match judge l now time_threshold largest_idx tx at_ with
            | Some (reason, stat) =>
                let l := match stat with Some s => bump s l | None => l end in
                let '(l, lost) := declare_lost ws reason l lost in
                detect_walk now time_threshold largest_idx (pass_over kept ws) stepped rest' l lost
            | None =>
                if is_patient l tx at_ && (stepped <? PATIENT_SCAN_LIMIT)%nat
                then detect_walk now time_threshold largest_idx (kept ++ [ws]) (S stepped) rest' l lost
                else (set_departed_order (kept ++ rest) l, lost)
            end
      | _ => detect_walk now time_threshold largest_idx (pass_over kept ws) stepped rest' l lost
      end
  end.

Definition set_time_threshold (thr : Z) (l : TransmissionLedger) : TransmissionLedger :=
  let r := l.(lg_reo) in
  set_reo (mkReo r.(ro_wnd) r.(ro_freeze) r.(ro_recoveries) r.(ro_recovery_point) r.(ro_depth) (Some thr)
             r.(ro_last_raise) r.(ro_last_spurious_ack)) l.

(** The loss-episode accounting that closes the window again. *)
Definition note_episode (now time_threshold : Z) (lost : list (Z * Transmission * LossReason))
    (l : TransmissionLedger) : TransmissionLedger :=
  let r := l.(lg_reo) in
  if r.(ro_wnd) =? 0 then l
  else
    let past := existsb (λ x, match x.1.2.(tx_dep_idx) with Some i => r.(ro_recovery_point) <=? i | None => false end) lost in
    let quiet := match r.(ro_last_spurious_ack) with
                 | None => true
                 | Some t => Z.max REO_QUIET_SPAN (time_threshold * 2) <=? sat_sub now t
                 end in
    if past && quiet then
      if REO_PERSIST <=? r.(ro_recoveries) + 1
      then set_reo (mkReo 0 r.(ro_freeze) 0 l.(lg_next_dep_idx) 0 r.(ro_last_time_threshold) None r.(ro_last_spurious_ack)) l
      else set_reo (mkReo r.(ro_wnd) r.(ro_freeze) (r.(ro_recoveries) + 1) l.(lg_next_dep_idx) r.(ro_depth)
                      r.(ro_last_time_threshold) r.(ro_last_raise) r.(ro_last_spurious_ack)) l
    else l.

Definition detect_losses_at (now time_threshold : Z) (l : TransmissionLedger) :
    TransmissionLedger * list (Z * Transmission * LossReason) :=
  let l := set_time_threshold time_threshold l in
  match l.(lg_ack).(la_idx) with
  | None => (l, [])
  | Some largest_idx =>
      let '(l, lost) := detect_walk now time_threshold largest_idx [] 0 l.(lg_departed_order) l [] in
      (compact_if_sparse (note_episode now time_threshold lost l), lost)
  end.

(** The walk of [next_loss_time]. *)
Fixpoint next_loss_walk (time_threshold largest_idx : Z) (kept : list Z) (stepped : nat) (rest : list Z)
    (l : TransmissionLedger) (best : option Z) : TransmissionLedger * option Z :=
  match rest with
  | [] => (set_departed_order kept l, best)
  | ws :: rest' =>
      match l.(lg_records) !! ws with
      | Some (mkRecord _ (Some at_) _ tx) =>
          if largest_idx <=? idx_of tx then (set_departed_order (kept ++ rest) l, best)
          else
            let reo := reo_in_force l time_threshold in
            let due := at_ + time_limit l tx at_ time_threshold + reo in
            let due := if idx_of tx + l.(lg_adapt).(ad_k_pkt) <=? largest_idx
                       then match l.(lg_ack).(la_arrival) with
                            | Some a => if reo =? 0 then due else Z.min due (a + reo)
                            | None => due
                            end
                       else due in
            let best := Some (match best with None => due | Some b => Z.min b due end) in
            if negb (is_patient l tx at_) || (PATIENT_SCAN_LIMIT <=? stepped)%nat
            then (set_departed_order (kept ++ rest) l, best)
            else next_loss_walk time_threshold largest_idx (kept ++ [ws]) (S stepped) rest' l best
      | _ => next_loss_walk time_threshold largest_idx (pass_over kept ws) stepped rest' l best
      end
  end.

Definition next_loss_time (time_threshold : Z) (l : TransmissionLedger) : TransmissionLedger * option Z :=
  let l := set_time_threshold time_threshold l in
  match l.(lg_ack).(la_idx) with
  | None => (l, None)
  | Some largest_idx => next_loss_walk time_threshold largest_idx [] 0 l.(lg_departed_order) l None
  end.

(** ** Acknowledgements *)

Definition since (a b : option Z) : option Z :=
  match a, b with Some x, Some y => Some (sat_sub x y) | _, _ => None end.

Definition resolve_at (wire_seq : Z) (ack : option (Z * Z)) (l : TransmissionLedger) :
    TransmissionLedger * option Resolution :=
  match l.(lg_records) !! wire_seq with
  | Some r =>
      let l := set_records (delete wire_seq l.(lg_records)) l in
      let tx := r.(lr_tx) in
      let l := match tx.(tx_dep_idx), r.(lr_departed), is_pad tx.(tx_content) with
               | Some idx, Some at_, false => advance_largest_acked idx at_ (fst <$> ack) l
               | _, _, _ => l
               end in
      (leave r l, Some (RLive tx))
  | None =>
      match l.(lg_tombstones) !! wire_seq with
      | Some t =>
          let l := set_tombstones (delete wire_seq l.(lg_tombstones)) l in
          let l := bump spurious_losses (bump acked_after_declared_lost l) in
          let tx := t.(tb_tx) in
          let pad := is_pad tx.(tx_content) in
          let '(disp, extent) :=
            match t.(tb_largest_idx_at_verdict), tx.(tx_dep_idx), t.(tb_largest_at_at_verdict), t.(tb_departed) with
            | Some x, Some i, Some la, Some d => (sat_sub x i, sat_sub la d)
            | _, _, _, _ => (0, 0)
            end in
          let lag := default 0 (since (fst <$> ack) t.(tb_largest_arrival_at_verdict)) in
          let stalled :=
            bool_decide (l.(lg_ack).(la_idx) = t.(tb_largest_idx_at_verdict))
            && match l.(lg_reo).(ro_last_time_threshold) with
               | Some thr => negb (thr =? 0) && (thr <=? lag)
               | None => false
               end in
          let l := match tx.(tx_dep_idx), t.(tb_departed), pad with
                   | Some idx, Some at_, false => advance_largest_acked idx at_ (fst <$> ack) l
                   | _, _, _ => l
                   end in
          let fec := fec_possible l wire_seq ack in
          let l :=
            if fec then bump late_acks_fec_possible l
            else
              let l := set_stat spurious_disp_max (Z.max (l.(lg_stats) spurious_disp_max) disp) l in
              let l := set_stat spurious_gap_us_max (Z.max (l.(lg_stats) spurious_gap_us_max) (extent / 1000)) l in
              let min_rtt := snd <$> ack in
              let known := match min_rtt with None => true | Some m => negb (m =? 0) end in
              let l :=
                if negb pad && negb (bool_decide (t.(tb_reason) = LPto)) && known
                then if stalled then bump reo_stall_skips l
                     else learn_reordering (fst <$> ack) min_rtt (Z.max extent lag) disp
                            (bump (if bool_decide (t.(tb_reason) = LPacket) then reo_learned_packet
                                   else reo_learned_time) l)
                else l in
              match t.(tb_packet_verdict_no) with Some n => note_spurious n l | None => l end in
          (l, Some (RLate tx fec))
      | None => (bump unknown_acks l, None)
      end
  end.

Definition resolve (wire_seq : Z) (l : TransmissionLedger) : TransmissionLedger * option Resolution :=
  resolve_at wire_seq None l.

(** ** What the probe timer looks at *)

(** [pop_back] while the last entry is resolved. *)
Fixpoint trim_front (records : gmap Z LRecord) (rev_order : list Z) : list Z :=
  match rev_order with
  | [] => []
  | ws :: rest => if live_departed records ws then rev_order else trim_front records rest
  end.
Definition trim_back (records : gmap Z LRecord) (order : list Z) : list Z :=
  reverse (trim_front records (reverse order)).

(** The loop of [scan_outstanding] over the order from the back, past the cursor. *)
Fixpoint scan_walk (records : gmap Z LRecord) (n max_scan : nat) (entries : list Z) (cursor live_seen dead_seen : nat)
    (out : list (Z * Transmission)) : nat * list (Z * Transmission) :=
  match entries with
  | [] => (cursor, out)
  | ws :: entries =>
      if (n <=? length out)%nat || (max_scan <=? live_seen)%nat || (SCAN_DEAD_BUDGET <=? dead_seen)%nat
      then (cursor, out)
      else match records !! ws with
           | Some (mkRecord _ (Some _) _ tx) =>
               scan_walk records n max_scan entries (S cursor) (S live_seen) dead_seen (out ++ [(ws, tx)])
           | _ => scan_walk records n max_scan entries (S cursor) live_seen (S dead_seen) out
           end
  end.

Definition scan_outstanding (cursor n max_scan : nat) (l : TransmissionLedger) :
    TransmissionLedger * nat * list (Z * Transmission) :=
  let l := if (cursor =? 0)%nat
           then set_departed_order (trim_back l.(lg_records) l.(lg_departed_order)) l else l in
  let '(cursor, out) :=
    scan_walk l.(lg_records) n max_scan (drop cursor (reverse l.(lg_departed_order))) cursor 0 0 [] in
  (l, cursor, out).

Definition newest_outstanding (n max_scan : nat) (l : TransmissionLedger) :
    TransmissionLedger * list (Z * Transmission) :=
  let '(l, _, out) := scan_outstanding 0 n max_scan l in (l, out).

Definition latest_outstanding_departure (l : TransmissionLedger) : TransmissionLedger * option Z :=
  let l := set_departed_order (trim_back l.(lg_records) l.(lg_departed_order)) l in
  (l, match last l.(lg_departed_order) with
      | Some ws => l.(lg_records) !! ws ≫= lr_departed
      | None => None
      end).
