(* ===== verification/LedgerTheory.v ===== *)
(** * Invariants of the transmission ledger

    Theory of [Ledger.v], for the operations of one session: every wire sequence
    number recorded once, departures stamped by a clock that does not run backwards.
    The theorems: memory stays bounded, the bytes in flight are those of the departed
    records, the learned thresholds stay within their limits, and every recorded
    transmission has exactly one fate. *)

From Stdlib Require Import ZArith Lia.
From S2P Require Import Prelude Wire EmitIds Rtt Ledger.
From stdpp Require Import base option numbers list gmap sorting.

Local Open Scope Z_scope.

(** ** The records and their two orders *)

(** When a departed record left: its index and the time. *)
Definition dep_of (r : LRecord) : option (Z * Z) :=
  match r.(lr_tx).(tx_dep_idx), r.(lr_departed) with Some i, Some at_ => Some (i, at_) | _, _ => None end.

(** The departures that are still outstanding, along a departure order. *)
Definition along (records : gmap Z LRecord) (dorder : list Z) : list (Z * Z) :=
  omap (λ ws, records !! ws ≫= dep_of) dorder.

Definition departs_before (p q : Z * Z) : Prop := p.1 < q.1 ∧ p.2 ≤ q.2.

Definition flight_bytes (r : LRecord) : Z := if is_departed r then r.(lr_tx).(tx_wire_bytes) else 0.
Definition bytes_in_flight (records : gmap Z LRecord) : Z :=
  map_fold (λ _ r n, flight_bytes r + n) 0 records.

Definition record_ok (clock next : Z) (r : LRecord) : Prop :=
  0 ≤ r.(lr_tx).(tx_wire_bytes) ∧
  match r.(lr_departed) with
  | None => r.(lr_tx).(tx_dep_idx) = None
  | Some at_ => at_ ≤ clock ∧ ∃ i, r.(lr_tx).(tx_dep_idx) = Some i ∧ 0 ≤ i < next
  end.

Record recs_ok (used : gset Z) (clock next : Z) (records : gmap Z LRecord) (order dorder : list Z) (bytes : Z) : Prop := {
  rk_rec : ∀ ws r, records !! ws = Some r → ws ∈ used ∧ record_ok clock next r;
  rk_order : ∀ ws, is_Some (records !! ws) → ws ∈ order;
  rk_order_once : NoDup order ∧ ∀ ws, ws ∈ order → ws ∈ used;
  rk_departed : ∀ ws r, records !! ws = Some r → is_departed r → ws ∈ dorder;
  rk_dorder : ∀ ws r, ws ∈ dorder → records !! ws = Some r → is_departed r;
  rk_nodup : NoDup dorder;
  rk_used : ∀ ws, ws ∈ dorder → ws ∈ used;
  rk_sorted : StronglySorted departs_before (along records dorder);
  rk_bytes : bytes = bytes_in_flight records;
}.

Lemma bytes_in_flight_insert records ws r : records !! ws = None →
  bytes_in_flight (<[ws := r]> records) = flight_bytes r + bytes_in_flight records.
Proof.
  intros H. unfold bytes_in_flight.
  rewrite (map_fold_insert_L (λ _ r n, flight_bytes r + n)); [done|intros; lia|done].
Qed.

Lemma bytes_in_flight_delete records ws r : records !! ws = Some r →
  bytes_in_flight records = flight_bytes r + bytes_in_flight (delete ws records).
Proof.
  intros H. rewrite <-(insert_delete_id records ws r H) at 1.
  by rewrite bytes_in_flight_insert by apply lookup_delete_eq.
Qed.

Lemma flight_bytes_nonneg clock next r : record_ok clock next r → 0 ≤ flight_bytes r.
Proof. intros [H _]. unfold flight_bytes. destruct (is_departed r); lia. Qed.

Lemma bytes_in_flight_nonneg clock next records :
  (∀ ws r, records !! ws = Some r → record_ok clock next r) → 0 ≤ bytes_in_flight records.
Proof.
  induction records as [|ws r m Hn IH] using map_ind; intros H; [done|].
  rewrite bytes_in_flight_insert by done.
  assert (record_ok clock next r) as Hr by (apply (H ws); by rewrite lookup_insert_eq).
  apply flight_bytes_nonneg in Hr. assert (0 ≤ bytes_in_flight m); [|lia].
  apply IH. intros ws' r' H'. apply (H ws'). rewrite lookup_insert_ne; [done|]. intros ->. congruence.
Qed.

Lemma along_delete records ws dorder : along (delete ws records) dorder `sublist_of` along records dorder.
Proof.
  unfold along. induction dorder as [|w dorder IH]; [done|]. cbn.
  destruct (decide (w = ws)) as [->|Hne].
  - rewrite lookup_delete_eq. cbn. destruct (records !! ws ≫= dep_of); [by constructor|done].
  - rewrite lookup_delete_ne by done. destruct (records !! w ≫= dep_of); [by constructor|done].
Qed.

Lemma along_sublist records dorder dorder' :
  dorder' `sublist_of` dorder → along records dorder' `sublist_of` along records dorder.
Proof.
  unfold along. induction 1 as [|w k1 k2 _ IH|w k1 k2 _ IH]; cbn; [done| |];
    destruct (records !! w ≫= dep_of); by try constructor.
Qed.

Lemma sorted_sublist (l k : list (Z * Z)) :
  l `sublist_of` k → StronglySorted departs_before k → StronglySorted departs_before l.
Proof.
  induction 1 as [|x l k Hs IH|x l k Hs IH]; intros H; [done| |]; inversion H as [|? ? H1 H2]; subst; [|auto].
  constructor; [auto|]. rewrite Forall_forall in *. intros y Hy. apply H2. by eapply elem_of_sublist.
Qed.

(** ** Steps that keep the records in order *)

Definition ledger_recs_ok (used : gset Z) (clock : Z) (l : TransmissionLedger) : Prop :=
  recs_ok used clock l.(lg_next_dep_idx) l.(lg_records) l.(lg_order) l.(lg_departed_order) l.(lg_departed_bytes).

(** A record taken out, with the in-flight tally kept. *)
Definition taken_out (ws : Z) (r : LRecord) (l : TransmissionLedger) : TransmissionLedger :=
  leave r (set_records (delete ws l.(lg_records)) l).

Lemma recs_ok_delete used clock next records order dorder bytes ws r :
  recs_ok used clock next records order dorder bytes → records !! ws = Some r →
  recs_ok used clock next (delete ws records) order dorder (bytes - flight_bytes r).
Proof.
  intros [H1 H2 H2' H3 H4 H5 H6 H7 H8] Hr. split.
  - intros w r' [_ H]%lookup_delete_Some. by apply H1.
  - intros w Hw. rewrite lookup_delete_is_Some in Hw. apply H2, Hw.
  - done.
  - intros w r' [_ H]%lookup_delete_Some. by apply H3.
  - intros w r' Hw [_ H]%lookup_delete_Some. by eapply H4.
  - done.
  - done.
  - eapply sorted_sublist; [apply along_delete|done].
  - rewrite H8, (bytes_in_flight_delete records ws r Hr). lia.
Qed.

Lemma taken_out_bytes used clock l ws r : ledger_recs_ok used clock l → l.(lg_records) !! ws = Some r →
  (taken_out ws r l).(lg_departed_bytes) = l.(lg_departed_bytes) - flight_bytes r.
Proof.
  intros H Hr. unfold taken_out, leave, flight_bytes, is_departed.
  destruct (lr_departed r) as [d|] eqn:Ed; cbn; [|lia]. unfold sat_sub.
  rewrite (rk_bytes _ _ _ _ _ _ _ H), (bytes_in_flight_delete _ _ _ Hr).
  unfold flight_bytes, is_departed. rewrite Ed.
  assert (0 ≤ bytes_in_flight (delete ws (lg_records l))); [|lia].
  eapply bytes_in_flight_nonneg. intros w r' [_ H']%lookup_delete_Some. exact (proj2 (rk_rec _ _ _ _ _ _ _ H w r' H')).
Qed.

Lemma taken_out_ok used clock l ws r : ledger_recs_ok used clock l → l.(lg_records) !! ws = Some r →
  ledger_recs_ok used clock (taken_out ws r l).
Proof.
  intros H Hr. pose proof (taken_out_bytes _ _ _ _ _ H Hr) as Hb.
  pose proof (recs_ok_delete _ _ _ _ _ _ _ _ _ H Hr) as Hd. unfold ledger_recs_ok. rewrite Hb.
  unfold taken_out, leave. by destruct (lr_departed r).
Qed.

Lemma taken_out_records ws r l : (taken_out ws r l).(lg_records) = delete ws l.(lg_records).
Proof. unfold taken_out, leave. by destruct (lr_departed r). Qed.

Lemma recs_ok_order used clock next records order order' dorder bytes :
  recs_ok used clock next records order dorder bytes → (∀ ws, is_Some (records !! ws) → ws ∈ order') →
  order' `sublist_of` order → recs_ok used clock next records order' dorder bytes.
Proof.
  intros [H1 H2 [H2' H2''] H3 H4 H5 H6 H7 H8] H Hs. split; try done. split; [exact (sublist_NoDup _ _ H2' Hs)|].
  intros ws Hw. apply H2''. by eapply elem_of_sublist.
Qed.

Lemma recs_ok_dorder used clock next records order dorder dorder' bytes :
  recs_ok used clock next records order dorder bytes → dorder' `sublist_of` dorder →
  (∀ ws, ws ∈ dorder → live_departed records ws → ws ∈ dorder') →
  recs_ok used clock next records order dorder' bytes.
Proof.
  intros [H1 H2 H2' H3 H4 H5 H6 H7 H8] Hs Hl. split; try done.
  - intros ws r Hr Hd. apply Hl; [by eapply H3|]. unfold live_departed. by rewrite Hr.
  - intros ws r Hw. apply H4. by eapply elem_of_sublist.
  - by eapply sublist_NoDup.
  - intros ws Hw. apply H6. by eapply elem_of_sublist.
  - eapply sorted_sublist; [by apply along_sublist|done].
Qed.

Lemma compact_if_sparse_fields l :
  let l' := compact_if_sparse l in
  lg_records l' = lg_records l ∧ lg_capacity l' = lg_capacity l ∧ lg_stats l' = lg_stats l
  ∧ lg_tombstones l' = lg_tombstones l ∧ lg_tombstone_order l' = lg_tombstone_order l
  ∧ lg_next_dep_idx l' = lg_next_dep_idx l ∧ lg_probe_bursts l' = lg_probe_bursts l
  ∧ lg_ack l' = lg_ack l ∧ lg_reo l' = lg_reo l ∧ lg_adapt l' = lg_adapt l
  ∧ lg_departed_bytes l' = lg_departed_bytes l.
Proof. unfold compact_if_sparse. repeat case_match; done. Qed.

Lemma compact_if_sparse_ok used clock l : ledger_recs_ok used clock l → ledger_recs_ok used clock (compact_if_sparse l).
Proof.
  intros H. unfold compact_if_sparse.
  set (l1 := if (_ <? length (lg_order l))%nat then _ else _).
  assert (ledger_recs_ok used clock l1 ∧ lg_records l1 = lg_records l ∧ lg_departed_order l1 = lg_departed_order l) as (H1 & E1 & E2).
  { unfold l1. destruct (_ <? _)%nat; [|done]. split; [|done]. unfold ledger_recs_ok. cbn.
    eapply recs_ok_order; [exact H| |apply sublist_filter]. intros ws Hws. apply list_elem_of_filter. split; [done|]. by apply (rk_order _ _ _ _ _ _ _ H). }
  clearbody l1. rewrite E2. destruct (_ <? _)%nat; [|done]. unfold ledger_recs_ok. cbn.
  eapply recs_ok_dorder; [exact H1| |].
  - rewrite E2. apply sublist_filter.
  - intros ws Hw Hl. rewrite E2 in Hw. apply list_elem_of_filter. done.
Qed.

Lemma live_length (records : gmap Z LRecord) (k : list Z) :
  NoDup k → (∀ ws, ws ∈ k → is_Some (records !! ws)) → (length k ≤ size records)%nat.
Proof.
  intros Hn Hk. rewrite <-(size_list_to_set (C:=gset Z) k Hn), <-size_dom. apply subseteq_size.
  intros ws Hw%elem_of_list_to_set. by apply elem_of_dom, Hk.
Qed.

Lemma compact_if_sparse_lengths used clock l : ledger_recs_ok used clock l →
  let l' := compact_if_sparse l in let bound := (size (lg_records l) + (2 * lg_capacity l + 64))%nat in
  (length (lg_order l') ≤ bound ∧ length (lg_departed_order l') ≤ bound)%nat.
Proof.
  intros H. cbv zeta.
  assert (length (filter (λ w, is_Some (lg_records l !! w)) (lg_order l)) ≤ size (lg_records l))%nat as L1.
  { apply live_length; [apply NoDup_filter, (rk_order_once _ _ _ _ _ _ _ H)|]. by intros ws [? _]%list_elem_of_filter. }
  assert (length (filter (λ w, live_departed (lg_records l) w) (lg_departed_order l)) ≤ size (lg_records l))%nat as L2.
  { apply live_length; [apply NoDup_filter, (rk_nodup _ _ _ _ _ _ _ H)|].
    intros ws [Hl _]%list_elem_of_filter. unfold live_departed in Hl. by destruct (lg_records l !! ws). }
  unfold compact_if_sparse. set (bound := (size (lg_records l) + (2 * lg_capacity l + 64))%nat) in *.
  destruct (Nat.ltb_spec bound (length (lg_order l))) as [Ho|Ho];
    (change (lg_departed_order (set_order _ l)) with (lg_departed_order l) || idtac);
    destruct (Nat.ltb_spec bound (length (lg_departed_order l))) as [Hd|Hd];
    cbn [set_order set_departed_order lg_order lg_departed_order lg_records]; lia.
Qed.

(** ** Fates *)

(** The counters that say how a record left the ledger without an acknowledgement. *)
Definition fates (l : TransmissionLedger) : Z :=
  l.(lg_stats) lost_packet_threshold + l.(lg_stats) lost_time_threshold + l.(lg_stats) lost_pto
  + l.(lg_stats) forgotten_before_departure + l.(lg_stats) forgotten_without_verdict
  + l.(lg_stats) capacity_evictions.

(** Those that are verdicts. *)
Definition verdicts (l : TransmissionLedger) : Z :=
  l.(lg_stats) lost_packet_threshold + l.(lg_stats) lost_time_threshold + l.(lg_stats) lost_pto.

Definition is_verdict_stat (s : Stat) : bool :=
  match s with lost_packet_threshold | lost_time_threshold | lost_pto => true | _ => false end.
Definition is_fate_stat (s : Stat) : bool :=
  match s with
  | forgotten_before_departure | forgotten_without_verdict | capacity_evictions => true
  | _ => is_verdict_stat s
  end.

Lemma bump_eq s l : lg_stats (bump s l) s = lg_stats l s + 1.
Proof. unfold bump, set_stat, stat_set. cbn. by rewrite decide_True. Qed.
Lemma bump_ne s s' l : s' ≠ s → lg_stats (bump s l) s' = lg_stats l s'.
Proof. intros H. unfold bump, set_stat, stat_set. cbn. by rewrite decide_False. Qed.

Lemma fates_bump s l : fates (bump s l) = fates l + if is_fate_stat s then 1 else 0.
Proof. unfold fates. destruct s; rewrite ?bump_eq, ?bump_ne by done; cbn; lia. Qed.
Lemma verdicts_bump s l : verdicts (bump s l) = verdicts l + if is_verdict_stat s then 1 else 0.
Proof. unfold verdicts. destruct s; rewrite ?bump_eq, ?bump_ne by done; cbn; lia. Qed.

Lemma taken_out_stats ws r l : lg_stats (taken_out ws r l) = lg_stats l.
Proof. unfold taken_out, leave. by destruct (lr_departed r). Qed.
Lemma taken_out_size ws r l : l.(lg_records) !! ws = Some r →
  Z.of_nat (size (lg_records l)) = Z.of_nat (size (lg_records (taken_out ws r l))) + 1.
Proof.
  intros H. rewrite taken_out_records, <-(insert_delete_id (lg_records l) ws r H) at 1.
  rewrite map_size_insert_None by apply lookup_delete_eq. lia.
Qed.

(** The fields that operations on the records leave alone. *)
Definition other_fields (l : TransmissionLedger) :=
  (l.(lg_capacity), l.(lg_tombstones), l.(lg_tombstone_order), l.(lg_next_dep_idx), l.(lg_probe_bursts),
   l.(lg_ack), l.(lg_reo), l.(lg_adapt)).

Lemma taken_out_others ws r l : other_fields (taken_out ws r l) = other_fields l
  ∧ lg_order (taken_out ws r l) = lg_order l ∧ lg_departed_order (taken_out ws r l) = lg_departed_order l.
Proof. unfold taken_out, leave. by destruct (lr_departed r). Qed.

(** What making room keeps and gives. *)
Record evicted_from (l l' : TransmissionLedger) : Prop := {
  ev_size : (size (lg_records l') ≤ lg_capacity l)%nat;
  ev_sub : lg_records l' ⊆ lg_records l;
  ev_dorder : lg_departed_order l' = lg_departed_order l;
  ev_fates : fates l' + Z.of_nat (size (lg_records l')) = fates l + Z.of_nat (size (lg_records l));
  ev_verdicts : verdicts l' = verdicts l;
  ev_late : lg_stats l' acked_after_declared_lost = lg_stats l acked_after_declared_lost
            ∧ lg_stats l' tombstone_evictions = lg_stats l tombstone_evictions;
  ev_others : other_fields l' = other_fields l;
}.

Lemma evict_one_ok used clock oldest order l : ledger_recs_ok used clock l → lg_order l = oldest :: order →
  let l1 := match l.(lg_records) !! oldest with
            | None => l
            | Some r =>
                let l := bump capacity_evictions (leave r (set_records (delete oldest l.(lg_records)) l)) in
                if is_departed r then l else bump evicted_before_departure l
            end in
  ledger_recs_ok used clock (set_order order l1) ∧ lg_records l1 ⊆ lg_records l
  ∧ lg_departed_order l1 = lg_departed_order l
  ∧ fates l1 + Z.of_nat (size (lg_records l1)) = fates l + Z.of_nat (size (lg_records l))
  ∧ verdicts l1 = verdicts l
  ∧ (lg_stats l1 acked_after_declared_lost = lg_stats l acked_after_declared_lost
     ∧ lg_stats l1 tombstone_evictions = lg_stats l tombstone_evictions)
  ∧ other_fields l1 = other_fields l.
Proof.
  intros H Ho. destruct (lg_records l !! oldest) as [r|] eqn:Er; cbv zeta.
  - fold (taken_out oldest r l). pose proof (taken_out_ok _ _ _ _ _ H Er) as Ht.
    destruct (taken_out_others oldest r l) as (E1 & E2 & E3). pose proof (taken_out_size oldest r l Er) as Hs.
    set (l0 := taken_out oldest r l) in *.
    assert (ledger_recs_ok used clock (set_order order l0)) as H0.
    { unfold ledger_recs_ok in *. cbn. eapply recs_ok_order; [exact Ht| |rewrite E2, Ho; by constructor].
      intros ws Hw. pose proof (rk_order _ _ _ _ _ _ _ Ht ws Hw) as Hin. rewrite E2, Ho in Hin.
      apply elem_of_cons in Hin as [->|Hin]; [|done]. unfold l0 in Hw. rewrite taken_out_records, lookup_delete_eq in Hw.
      by destruct Hw. }
    assert (lg_records l0 ⊆ lg_records l) as Hsub by (unfold l0; rewrite taken_out_records; apply delete_subseteq).
    assert (fates l0 = fates l ∧ verdicts l0 = verdicts l ∧ lg_stats l0 = lg_stats l) as (Hf & Hv & Hst).
    { unfold l0, fates, verdicts. by rewrite !taken_out_stats. }
    destruct (is_departed r); (split_and!; [exact H0|exact Hsub|exact E3|..|exact E1]);
      rewrite ?fates_bump, ?verdicts_bump, ?bump_ne, ?Hst by done; cbn [lg_records bump set_stat set_stats is_fate_stat is_verdict_stat]; try done; lia.
  - split_and!; try done. unfold ledger_recs_ok in *. cbn. eapply recs_ok_order; [exact H| |rewrite Ho; by constructor].
    intros ws Hw. pose proof (rk_order _ _ _ _ _ _ _ H ws Hw) as Hin. rewrite Ho in Hin.
    apply elem_of_cons in Hin as [->|Hin]; [|done]. rewrite Er in Hw. by destruct Hw.
Qed.

Lemma evict_records_ok used clock order : ∀ l, ledger_recs_ok used clock (set_order order l) →
  ledger_recs_ok used clock (evict_records order l) ∧ evicted_from l (evict_records order l).
Proof.
  induction order as [|oldest order IH]; intros l H; cbn [evict_records]; cbv zeta.
  - assert (size (lg_records (set_order [] l)) ≤ lg_capacity (set_order [] l))%nat as Hs.
    { cbn. assert (lg_records l = ∅) as ->; [|rewrite map_size_empty; lia].
      apply map_empty. intros ws. destruct (lg_records l !! ws) eqn:E; [|done].
      pose proof (rk_order _ _ _ _ _ _ _ H ws) as Hin. cbn in Hin. rewrite E in Hin.
      exfalso. eapply not_elem_of_nil, Hin. by eexists. }
    rewrite (proj2 (Nat.leb_le _ _) Hs). split; [done|]. by split.
  - destruct (Nat.leb_spec (size (lg_records (set_order (oldest :: order) l))) (lg_capacity (set_order (oldest :: order) l))) as [Hle|Hgt].
    { split; [done|]. by split. }
    destruct (evict_one_ok used clock oldest order _ H eq_refl) as (H1 & Hsub & Hd & Hf & Hv & Hl & Hoth).
    set (l1 := match lg_records (set_order (oldest :: order) l) !! oldest with None => _ | Some r => _ end) in *.
    destruct (IH l1 H1) as (H2 & [G1 G2 G3 G4 G5 G6 G7]). split; [done|].
    assert (lg_capacity l1 = lg_capacity l) as Hc by (by injection Hoth).
    split; [by rewrite <-Hc|by etrans|by rewrite G3|by rewrite G4|by rewrite G5|by rewrite (proj1 G6), (proj2 G6)|by rewrite G7].
Qed.

(** ** Recording, departing, rating, discarding *)

Lemma record_ok_mono clock clock' next next' r :
  clock ≤ clock' → next ≤ next' → record_ok clock next r → record_ok clock' next' r.
Proof.
  intros Hc Hn [Hb H]. split; [done|]. destruct (lr_departed r); [|done].
  destruct H as (? & i & ? & ?). split; [lia|]. exists i. split; [done|lia].
Qed.

Lemma along_agree (records records' : gmap Z LRecord) dorder :
  (∀ ws, ws ∈ dorder → records !! ws ≫= dep_of = records' !! ws ≫= dep_of) → along records dorder = along records' dorder.
Proof.
  intros H. unfold along. induction dorder as [|w dorder IH]; [done|]. cbn.
  rewrite (H w) by left. rewrite IH; [done|]. intros ws Hw. apply H. by right.
Qed.

Lemma recs_ok_insert used clock next records order dorder bytes ws r :
  recs_ok used clock next records order dorder bytes → ws ∉ used → record_ok clock next r → lr_departed r = None →
  recs_ok ({[ws]} ∪ used) clock next (<[ws := r]> records) (order ++ [ws]) dorder bytes.
Proof.
  intros [H1 H2 [H2' H2''] H3 H4 H5 H6 H7 H8] Hf Hr Hd.
  assert (records !! ws = None) as Hn by (destruct (records !! ws) eqn:E; [by apply H1 in E as [? _]|done]).
  assert (ws ∉ dorder) as Hnd by (intros ?; by apply Hf, H6).
  split.
  - intros w r'. rewrite lookup_insert_Some. intros [[<- <-]|[_ H]]; [set_solver|].
    apply H1 in H as [? ?]. set_solver.
  - intros w. rewrite lookup_insert_is_Some', elem_of_app, list_elem_of_singleton. intros [->|Hw]; [by right|left; by apply H2].
  - split.
    + apply NoDup_app. split_and!; [done| |apply NoDup_singleton]. intros w Hw ->%list_elem_of_singleton. by apply Hf, H2''.
    + intros w. rewrite elem_of_app, list_elem_of_singleton. intros [Hw| ->]; [apply H2'' in Hw|]; set_solver.
  - intros w r'. rewrite lookup_insert_Some. intros [[<- <-]|[_ H]]; [|by eapply H3].
    unfold is_departed. by rewrite Hd.
  - intros w r' Hw. rewrite lookup_insert_Some. intros [[<- <-]|[_ H]]; [done|by eapply H4].
  - done.
  - intros w Hw. apply H6 in Hw. set_solver.
  - rewrite (along_agree _ records); [done|]. intros w Hw. rewrite lookup_insert_ne; [done|]. by intros ->.
  - rewrite bytes_in_flight_insert by done. unfold flight_bytes, is_departed. rewrite Hd. lia.
Qed.

(** A record replaced by one that departs now, with the next index. *)
Lemma recs_ok_depart used clock next records order dorder bytes ws r r' at_ :
  recs_ok used clock next records order dorder bytes → records !! ws = Some r → is_departed r = false →
  clock ≤ at_ → 0 ≤ next → lr_departed r' = Some at_ → tx_dep_idx (lr_tx r') = Some next →
  tx_wire_bytes (lr_tx r') = tx_wire_bytes (lr_tx r) →
  recs_ok used at_ (next + 1) (<[ws := r']> records) order (dorder ++ [ws]) (bytes + tx_wire_bytes (lr_tx r)).
Proof.
  intros [H1 H2 H2' H3 H4 H5 H6 H7 H8] Hr Hnd Hc Hnx Hd Hi Hw.
  assert (ws ∉ dorder) as Hno by (intros Hin; pose proof (H4 ws r Hin Hr) as E; by rewrite Hnd in E).
  destruct (H1 ws r Hr) as [Hu [Hb _]].
  assert (is_departed r' = true) as Hd' by (unfold is_departed; by rewrite Hd).
  split.
  - intros w r0. rewrite lookup_insert_Some. intros [[<- <-]|[_ H]].
    + split; [done|]. split; [by rewrite Hw|]. rewrite Hd. split; [lia|]. exists next. split; [done|lia].
    + apply H1 in H as [? ?]. split; [done|]. eapply record_ok_mono; [| |done]; lia.
  - intros w. rewrite lookup_insert_is_Some'. intros [<-|Hx]; [|by apply H2]. apply H2. by eexists.
  - done.
  - intros w r0. rewrite lookup_insert_Some, elem_of_app, list_elem_of_singleton. intros [[<- <-]|[_ H]] ?; [by right|left; by eapply H3].
  - intros w r0. rewrite lookup_insert_Some, elem_of_app, list_elem_of_singleton.
    intros Hin [[<- <-]|[Hne H]]; [by rewrite Hd'|]. destruct Hin as [Hin| ->]; [by eapply H4|done].
  - apply NoDup_app. split_and!; [done| |apply NoDup_singleton]. by intros w Hin ->%list_elem_of_singleton.
  - intros w. rewrite elem_of_app, list_elem_of_singleton. intros [?| ->]; [by apply H6|done].
  - unfold along. rewrite omap_app. fold (along (<[ws := r']> records) dorder).
    rewrite (along_agree _ records) by (intros w Hin; rewrite lookup_insert_ne; [done|by intros ->]).
    assert (dep_of r' = Some (next, at_)) as Hdep by (unfold dep_of; by rewrite Hd, Hi).
    cbn. rewrite lookup_insert_eq. cbn. rewrite Hdep.
    apply StronglySorted_app. split_and!; [|done|by repeat constructor].
    intros p q Hp ->%list_elem_of_singleton. unfold along in Hp. apply list_elem_of_omap in Hp as (w & Hin & E).
    destruct (records !! w) as [r0|] eqn:Er0; [|done]. cbn in E. destruct (H1 w r0 Er0) as [_ [_ Hok]].
    unfold dep_of in E. destruct (tx_dep_idx (lr_tx r0)) as [i|] eqn:Ei; [|done]. destruct (lr_departed r0); [|done].
    injection E as <-. destruct Hok as (? & i' & [= <-] & ?). split; cbn; lia.
  - rewrite <-insert_delete_eq, bytes_in_flight_insert by apply lookup_delete_eq.
    rewrite H8, (bytes_in_flight_delete records ws r Hr). unfold flight_bytes. rewrite Hd', Hnd. lia.
Qed.

(** A record replaced by one with the same transmission and departure. *)
Lemma recs_ok_same used clock next records order dorder bytes ws r r' :
  recs_ok used clock next records order dorder bytes → records !! ws = Some r →
  lr_departed r' = lr_departed r → lr_tx r' = lr_tx r →
  recs_ok used clock next (<[ws := r']> records) order dorder bytes.
Proof.
  intros [H1 H2 H2' H3 H4 H5 H6 H7 H8] Hr Hd Ht.
  assert (is_departed r' = is_departed r) as Hid by (unfold is_departed; by rewrite Hd).
  assert (record_ok clock next r → record_ok clock next r') as Hok by (unfold record_ok; by rewrite Hd, Ht).
  split; try done.
  - intros w r0. rewrite lookup_insert_Some. intros [[<- <-]|[_ H]]; [|by apply H1].
    destruct (H1 ws r Hr). auto.
  - intros w. rewrite lookup_insert_is_Some'. intros [<-|Hx]; [|by apply H2]. apply H2. by eexists.
  - intros w r0. rewrite lookup_insert_Some. intros [[<- <-]|[_ H]] Hdep; [|by eapply H3].
    rewrite Hid in Hdep. by eapply H3.
  - intros w r0 Hin. rewrite lookup_insert_Some. intros [[<- <-]|[_ H]]; [|by eapply H4].
    rewrite Hid. by eapply H4.
  - rewrite (along_agree _ records); [done|]. intros w _. destruct (decide (w = ws)) as [->|Hne].
    + rewrite lookup_insert_eq, Hr. cbn. unfold dep_of. by rewrite Hd, Ht.
    + by rewrite lookup_insert_ne.
  - rewrite <-insert_delete_eq, bytes_in_flight_insert by apply lookup_delete_eq.
    rewrite H8, (bytes_in_flight_delete records ws r Hr). unfold flight_bytes. by rewrite Hid, Ht.
Qed.

Lemma bytes_in_flight_departed (records : gmap Z LRecord) :
  bytes_in_flight (filter (λ wr : Z * LRecord, is_departed wr.2) records) = bytes_in_flight records.
Proof.
  induction records as [|ws r m Hn IH] using map_ind; [by rewrite map_filter_empty|].
  rewrite (bytes_in_flight_insert m ws r Hn). destruct (is_departed r) eqn:E.
  - rewrite map_filter_insert_True by (cbn; by rewrite E). rewrite bytes_in_flight_insert, IH; [done|].
    apply map_lookup_filter_None. by left.
  - rewrite map_filter_insert_False by (cbn; rewrite E; tauto). rewrite delete_id by done. rewrite IH.
    unfold flight_bytes. rewrite E. lia.
Qed.

Lemma recs_ok_discard used clock next records order dorder bytes :
  recs_ok used clock next records order dorder bytes →
  recs_ok used clock next (filter (λ wr : Z * LRecord, is_departed wr.2) records) order dorder bytes.
Proof.
  intros [H1 H2 H2' H3 H4 H5 H6 H7 H8]. split; try done.
  - intros w r [H _]%map_lookup_filter_Some. by apply H1.
  - intros w [r [H _]%map_lookup_filter_Some]. apply H2. by eexists.
  - intros w r [H _]%map_lookup_filter_Some. exact (H3 w r H).
  - by intros w r _ [_ H]%map_lookup_filter_Some.
  - rewrite (along_agree _ records); [done|]. intros w Hw. destruct (records !! w) as [r|] eqn:E.
    + rewrite (proj2 (map_lookup_filter_Some _ records w r)); [done|]. split; [done|]. cbn. by eapply H4.
    + by rewrite (proj2 (map_lookup_filter_None _ records w)); [|left].
  - by rewrite bytes_in_flight_departed.
Qed.

(** ** Tombstones *)

Definition tombstone_ok (clock next verdicts : Z) (t : Tombstone) : Prop :=
  (∀ i, t.(tb_tx).(tx_dep_idx) = Some i → 0 ≤ i < next)
  ∧ (∀ d, t.(tb_departed) = Some d → d ≤ clock)
  ∧ (∀ n, t.(tb_packet_verdict_no) = Some n → 0 ≤ n ≤ verdicts).

Record tombs_ok (used : gset Z) (clock next verdicts : Z) (records : gmap Z LRecord) (tombs : gmap Z Tombstone)
    (order : list Z) : Prop := {
  to_tomb : ∀ ws t, tombs !! ws = Some t →
    ws ∈ used ∧ records !! ws = None ∧ ws ∈ order ∧ tombstone_ok clock next verdicts t;
}.

Definition ledger_tombs_ok (used : gset Z) (clock : Z) (l : TransmissionLedger) : Prop :=
  tombs_ok used clock l.(lg_next_dep_idx) l.(lg_adapt).(ad_verdicts) l.(lg_records) l.(lg_tombstones) l.(lg_tombstone_order).

Lemma tombs_ok_mono used clock next verdicts records tombs order used' clock' next' verdicts' records' :
  tombs_ok used clock next verdicts records tombs order →
  used ⊆ used' → clock ≤ clock' → next ≤ next' → verdicts ≤ verdicts' →
  (∀ ws, is_Some (tombs !! ws) → records !! ws = None → ws ∈ used → records' !! ws = None) →
  tombs_ok used' clock' next' verdicts' records' tombs order.
Proof.
  intros [H] Hu Hc Hn Hv Hr. split. intros ws t Ht. destruct (H ws t Ht) as (? & ? & ? & Hi & Hd & Hno).
  split; [set_solver|]. split; [apply Hr; [by eexists|done|done]|]. split; [done|]. split_and!.
  - intros i E. apply Hi in E. lia.
  - intros d E. apply Hd in E. lia.
  - intros n E. apply Hno in E. lia.
Qed.

(** What the tombstone bound keeps and gives. *)
Record tombs_evicted_from (l l' : TransmissionLedger) : Prop := {
  tv_size : (size (lg_tombstones l') ≤ lg_capacity l)%nat;
  tv_sub : lg_tombstones l' ⊆ lg_tombstones l;
  tv_count : lg_stats l' tombstone_evictions + Z.of_nat (size (lg_tombstones l'))
             = lg_stats l tombstone_evictions + Z.of_nat (size (lg_tombstones l));
  tv_stats : fates l' = fates l ∧ verdicts l' = verdicts l
             ∧ lg_stats l' acked_after_declared_lost = lg_stats l acked_after_declared_lost;
  tv_others : (lg_records l', lg_order l', lg_departed_order l', lg_capacity l', lg_next_dep_idx l', lg_probe_bursts l',
               lg_ack l', lg_reo l', lg_adapt l', lg_departed_bytes l')
            = (lg_records l, lg_order l, lg_departed_order l, lg_capacity l, lg_next_dep_idx l, lg_probe_bursts l,
               lg_ack l, lg_reo l, lg_adapt l, lg_departed_bytes l);
}.

Lemma evict_tombstones_ok used clock order : ∀ l, ledger_tombs_ok used clock (set_tombstone_order order l) →
  ledger_tombs_ok used clock (evict_tombstones order l) ∧ tombs_evicted_from l (evict_tombstones order l).
Proof.
  induction order as [|oldest order IH]; intros l [H]; cbn [evict_tombstones]; cbv zeta.
  - assert (size (lg_tombstones (set_tombstone_order [] l)) ≤ lg_capacity (set_tombstone_order [] l))%nat as Hs.
    { cbn. assert (lg_tombstones l = ∅) as ->; [|rewrite map_size_empty; lia].
      apply map_empty. intros ws. destruct (lg_tombstones l !! ws) eqn:E; [|done].
      destruct (H ws _ E) as (_ & _ & Hin & _). cbn in Hin. by apply elem_of_nil in Hin. }
    rewrite (proj2 (Nat.leb_le _ _) Hs). split; [by split|]. by split.
  - destruct (Nat.leb_spec (size (lg_tombstones (set_tombstone_order (oldest :: order) l)))
      (lg_capacity (set_tombstone_order (oldest :: order) l))) as [Hle|Hgt].
    { split; [by split|]. by split. }
    cbn [lg_tombstones set_tombstone_order]. cbn in H.
    destruct (lg_tombstones l !! oldest) as [t|] eqn:Et.
    + set (l1 := bump _ _). destruct (IH l1) as (H2 & [G1 G2 G3 G4 G5]).
      { split. cbn. intros ws t' [Hne Ht']%lookup_delete_Some. destruct (H ws t' Ht') as (? & ? & Hin & ?).
        split_and!; try done. apply elem_of_cons in Hin as [->|?]; done. }
      split; [done|]. assert (size (lg_tombstones l) = S (size (lg_tombstones l1))) as Hsz.
      { cbn. rewrite <-(insert_delete_id (lg_tombstones l) oldest t Et) at 1.
        by rewrite map_size_insert_None by apply lookup_delete_eq. }
      split; [exact G1|etrans; [exact G2|apply delete_subseteq]| | |exact G5].
      * rewrite G3. unfold l1. rewrite bump_eq. cbn. cbn in Hsz. lia.
      * destruct G4 as (-> & -> & ->). unfold l1. rewrite fates_bump, verdicts_bump, bump_ne by done. cbn.
        rewrite !Z.add_0_r. done.
    + destruct (IH (set_tombstone_order (oldest :: order) l)) as (H2 & [G1 G2 G3 G4 G5]).
      { split. cbn. intros ws t' Ht'. destruct (H ws t' Ht') as (? & ? & Hin & ?).
        split_and!; try done. apply elem_of_cons in Hin as [->|?]; [congruence|done]. }
      split; [done|]. by split.
Qed.

(** ** The session invariant *)

(** What has happened in the session so far. *)
Record Past : Type := mkPast {
  pa_used : gset Z;      (** wire sequence numbers recorded *)
  pa_clock : Z;          (** time of the last departure *)
  pa_recorded : Z;       (** transmissions recorded *)
  pa_acked : Z;          (** acknowledged while outstanding *)
  pa_discarded : Z;      (** discarded before departure *)
}.

Definition undeparted (records : gmap Z LRecord) : nat :=
  size (filter (λ wr : Z * LRecord, ¬ is_departed wr.2) records).

Definition learn_ok (r : Reordering) (a : Adaptation) : Prop :=
  K_PKT_INITIAL ≤ a.(ad_k_pkt) ≤ K_PKT_MAX ∧ 0 ≤ r.(ro_wnd) ≤ REO_CAP_FALLBACK
  ∧ 0 ≤ r.(ro_depth) ≤ REO_DEPTH_MAX ∧ 0 ≤ a.(ad_verdicts).

Definition ack_ok (clock next : Z) (a : AckReference) : Prop :=
  match a.(la_idx) with
  | None => True
  | Some i => 0 ≤ i < next ∧ ∃ at_, a.(la_at) = Some at_ ∧ at_ ≤ clock
  end.

Record session_ok (p : Past) (l : TransmissionLedger) : Prop := {
  so_recs : ledger_recs_ok p.(pa_used) p.(pa_clock) l;
  so_tombs : ledger_tombs_ok p.(pa_used) p.(pa_clock) l;
  so_next : 0 ≤ l.(lg_next_dep_idx);
  so_size : (size l.(lg_records) ≤ l.(lg_capacity))%nat;
  so_tsize : (size l.(lg_tombstones) ≤ l.(lg_capacity))%nat;
  so_order : (length l.(lg_order) ≤ 3 * l.(lg_capacity) + 64)%nat;
  so_dorder : (length l.(lg_departed_order) + undeparted l.(lg_records) ≤ 4 * l.(lg_capacity) + 64)%nat;
  so_count : p.(pa_recorded) = p.(pa_acked) + p.(pa_discarded) + fates l + Z.of_nat (size l.(lg_records));
  so_verdicts : verdicts l = l.(lg_stats) acked_after_declared_lost + l.(lg_stats) tombstone_evictions
                             + Z.of_nat (size l.(lg_tombstones));
  so_learn : learn_ok l.(lg_reo) l.(lg_adapt);
  so_ack : ack_ok p.(pa_clock) l.(lg_next_dep_idx) l.(lg_ack);
}.

Lemma undeparted_subseteq (m m' : gmap Z LRecord) : m' ⊆ m → (undeparted m' ≤ undeparted m)%nat.
Proof.
  intros H. by apply map_subseteq_size, map_filter_subseteq_mono.
Qed.

Lemma undeparted_le_size (m : gmap Z LRecord) : (undeparted m ≤ size m)%nat.
Proof. apply map_subseteq_size, map_filter_subseteq. Qed.

(** Goals about [Is_true] of a known flag. *)
Ltac flag := cbn; solve [exact I | intros []; exact I | let H := fresh in intros H; first [exact (H I)|by apply H]].

Lemma undeparted_insert (m : gmap Z LRecord) ws r : m !! ws = None → (undeparted (<[ws := r]> m) ≤ undeparted m + 1)%nat.
Proof.
  intros Hn. unfold undeparted. destruct (is_departed r) eqn:E.
  - rewrite map_filter_insert_False by (cbn; rewrite E; flag). rewrite delete_id by done. lia.
  - rewrite map_filter_insert_True by (cbn; rewrite E; flag).
    rewrite map_size_insert_None; [lia|]. apply map_lookup_filter_None. by left.
Qed.

Lemma undeparted_depart (m : gmap Z LRecord) ws r r' : m !! ws = Some r → is_departed r = false → is_departed r' = true →
  (undeparted m = undeparted (<[ws := r']> m) + 1)%nat.
Proof.
  intros Hr E E'. unfold undeparted. rewrite map_filter_insert_False by (cbn; rewrite E'; flag).
  rewrite map_filter_delete. rewrite <-(insert_delete_id (filter _ m) ws r) at 1.
  - rewrite map_size_insert_None by apply lookup_delete_eq. lia.
  - apply map_lookup_filter_Some. split; [done|]. cbn. rewrite E. flag.
Qed.

Lemma undeparted_same (m : gmap Z LRecord) ws r r' : m !! ws = Some r → is_departed r' = is_departed r →
  undeparted (<[ws := r']> m) = undeparted m.
Proof.
  intros Hr E. unfold undeparted. destruct (is_departed r) eqn:Ed.
  - rewrite map_filter_insert_False by (cbn; rewrite E; flag). rewrite map_filter_delete, delete_id; [done|].
    apply map_lookup_filter_None. right. intros r0 Hr0. cbn. rewrite Hr in Hr0. injection Hr0 as <-. rewrite Ed. flag.
  - rewrite map_filter_insert_True by (cbn; rewrite E; flag). rewrite map_size_insert_Some; [done|].
    exists r. apply map_lookup_filter_Some. split; [done|]. cbn. rewrite Ed. flag.
Qed.

(** *** Removal of a record: acknowledged, forgotten or lost

    [fate]: whether it counts as a fate or as an acknowledgement. *)

Lemma taken_out_session p l ws r : session_ok p l → l.(lg_records) !! ws = Some r →
  let l' := taken_out ws r l in
  session_ok (mkPast p.(pa_used) p.(pa_clock) (p.(pa_recorded) - 1) p.(pa_acked) p.(pa_discarded)) l'.
Proof.
  intros [H1 H2 H3 H4 H5 H6 H7 H8 H9 H10 H11] Hr l'.
  destruct (taken_out_others ws r l) as (E & E2 & E3). fold l' in E, E2, E3. unfold other_fields in E.
  injection E as Ec Et Eto En Ep Ea Er Ead.
  pose proof (taken_out_size ws r l Hr) as Hs. fold l' in Hs.
  assert (lg_records l' ⊆ lg_records l) as Hsub by (unfold l'; rewrite taken_out_records; apply delete_subseteq).
  assert (lg_stats l' = lg_stats l) as Est by apply taken_out_stats.
  assert (fates l' = fates l ∧ verdicts l' = verdicts l) as [Ef Ev] by (unfold fates, verdicts; by rewrite Est).
  split; rewrite ?Ec, ?Et, ?En, ?Ea, ?Er, ?Ead, ?E2, ?E3, ?Ef, ?Ev, ?Est; cbn [pa_used pa_clock pa_recorded pa_acked pa_discarded]; try done.
  - by apply taken_out_ok.
  - unfold ledger_tombs_ok. rewrite En, Ead, Et, Eto. eapply tombs_ok_mono; [exact H2|done|lia..|].
    intros w _ Hw _. unfold l'. rewrite taken_out_records. by rewrite lookup_delete_None; right.
  - lia.
  - pose proof (undeparted_subseteq _ _ Hsub). lia.
  - lia.
Qed.

(** Counters other than fates and verdicts may change freely. *)
Lemma bump_session p l s : session_ok p l → is_fate_stat s = false →
  s ≠ acked_after_declared_lost → s ≠ tombstone_evictions → session_ok p (bump s l).
Proof.
  intros [H1 H2 H3 H4 H5 H6 H7 H8 H9 H10 H11] Hs Ha Ht.
  assert (is_verdict_stat s = false) as Hv by by destruct s.
  split; try done.
  - rewrite fates_bump, Hs. cbn [lg_records bump set_stat set_stats]. lia.
  - rewrite verdicts_bump, Hv, !bump_ne by done. cbn [lg_tombstones bump set_stat set_stats]. lia.
Qed.

Lemma set_stat_session p l s v : session_ok p l → is_fate_stat s = false →
  s ≠ acked_after_declared_lost → s ≠ tombstone_evictions → session_ok p (set_stat s v l).
Proof.
  intros [H1 H2 H3 H4 H5 H6 H7 H8 H9 H10 H11] Hs Ha Ht.
  assert (∀ s', s' ≠ s → lg_stats (set_stat s v l) s' = lg_stats l s') as Hne
    by (intros s' Hn; unfold set_stat, stat_set; cbn; by rewrite decide_False).
  split; try done.
  - unfold fates in *. destruct s; rewrite ?Hne by done; done.
  - unfold verdicts in *. destruct s; rewrite ?Hne by done; done.
Qed.

(** One more fate for a record already taken out. *)
Lemma fate_session p l s : session_ok (mkPast p.(pa_used) p.(pa_clock) (p.(pa_recorded) - 1) p.(pa_acked) p.(pa_discarded)) l →
  is_fate_stat s = true → is_verdict_stat s = false → session_ok p (bump s l).
Proof.
  intros [H1 H2 H3 H4 H5 H6 H7 H8 H9 H10 H11] Hs Hv. cbn in *.
  assert (s ≠ acked_after_declared_lost ∧ s ≠ tombstone_evictions) as [Ha Ht] by (by destruct s).
  split; try done.
  - rewrite fates_bump, Hs. cbn [lg_records bump set_stat set_stats]. lia.
  - rewrite verdicts_bump, Hv, !bump_ne by done. cbn [lg_tombstones bump set_stat set_stats]. lia.
Qed.

(** A verdict on a record already taken out: the counter, the tombstone, the bound. *)
Lemma bury_session p l ws t a stat :
  session_ok (mkPast p.(pa_used) p.(pa_clock) (p.(pa_recorded) - 1) p.(pa_acked) p.(pa_discarded)) l →
  is_verdict_stat stat = true → ws ∈ p.(pa_used) → l.(lg_records) !! ws = None → l.(lg_tombstones) !! ws = None →
  ad_k_pkt a = ad_k_pkt l.(lg_adapt) → ad_verdicts l.(lg_adapt) ≤ ad_verdicts a →
  tombstone_ok p.(pa_clock) l.(lg_next_dep_idx) (ad_verdicts a) t →
  let l1 := set_adapt a (bump stat l) in
  let l2 := set_tombstones (<[ws := t]> l1.(lg_tombstones)) l1 in
  session_ok p (evict_tombstones (l2.(lg_tombstone_order) ++ [ws]) l2).
Proof.
  intros [H1 H2 H3 H4 H5 H6 H7 H8 H9 H10 H11] Hst Hu Hn Hnt Hk Hv Ht. cbn in H1, H2, H8, H11. intros l1 l2.
  assert (is_fate_stat stat = true ∧ stat ≠ acked_after_declared_lost ∧ stat ≠ tombstone_evictions) as (Hf & Ha & Htv)
    by by destruct stat.
  destruct (evict_tombstones_ok p.(pa_used) p.(pa_clock) (l2.(lg_tombstone_order) ++ [ws]) l2) as [G0 [G1 G2 G3 (G4 & G5 & G6) G7]].
  { split. cbn. intros w t'. rewrite lookup_insert_Some. intros [[<- <-]|[_ Hw]].
    - split_and!; [done|done|apply elem_of_app; right; by left|exact Ht].
    - destruct H2 as [H2]. destruct (H2 w t' Hw) as (? & ? & ? & Hi & Hd & Hno). split; [done|]. split; [done|].
      split; [apply elem_of_app; by left|]. split; [done|]. split; [done|]. intros n E. apply Hno in E. lia. }
  injection G7 as E1 E2 E3 E4 E5 E6 E7 E8 E9 E10.
  set (l' := evict_tombstones _ _) in *. clearbody l'.
  cbn in E1, E2, E3, E4, E5, E6, E7, E8, E9, E10, G1.
  assert (Z.of_nat (size (<[ws := t]> (lg_tombstones l))) = Z.of_nat (size (lg_tombstones l)) + 1) as Hsz.
  { rewrite map_size_insert_None by done. lia. }
  assert (fates l2 = fates l + 1) as F2 by (change (fates l2) with (fates (bump stat l)); rewrite fates_bump, Hf; done).
  assert (verdicts l2 = verdicts l + 1) as V2 by (change (verdicts l2) with (verdicts (bump stat l)); rewrite verdicts_bump, Hst; done).
  assert (lg_stats l2 acked_after_declared_lost = lg_stats l acked_after_declared_lost
    ∧ lg_stats l2 tombstone_evictions = lg_stats l tombstone_evictions) as [S1 S2].
  { change (lg_stats l2) with (lg_stats (bump stat l)). by rewrite !bump_ne. }
  split; unfold ledger_recs_ok; rewrite ?E1, ?E2, ?E3, ?E4, ?E5, ?E7, ?E8, ?E9, ?E10; try done.
  - rewrite G4, F2. lia.
  - rewrite G5, G6, V2, S1. change (lg_tombstones l2) with (<[ws := t]> (lg_tombstones l)) in G3. rewrite S2 in G3. lia.
  - destruct H10 as (? & ? & ? & ?). unfold learn_ok. rewrite Hk. split_and!; try done; lia.
Qed.

Lemma declare_lost_session p l ws reason lost : session_ok p l →
  session_ok p (declare_lost ws reason l lost).1.
Proof.
  intros H. unfold declare_lost. destruct (lg_records l !! ws) as [r|] eqn:Er; [|done].
  fold (taken_out ws r l). pose proof (taken_out_session p l ws r H Er) as Ht. cbv zeta in Ht.
  destruct (rk_rec _ _ _ _ _ _ _ (so_recs _ _ H) ws r Er) as [Hu [_ Hrok]].
  assert (lg_records (taken_out ws r l) !! ws = None) as Hnone by (rewrite taken_out_records; apply lookup_delete_eq).
  destruct (taken_out_others ws r l) as (E & _). injection E as _ Et _ En _ _ _ _.
  assert (lg_tombstones l !! ws = None) as Hnt.
  { destruct (lg_tombstones l !! ws) eqn:Etw; [|done]. destruct (so_tombs _ _ H) as [Htb].
    destruct (Htb ws _ Etw) as (_ & ? & _). congruence. }
  rewrite <-Et in Hnt. rewrite <-En in Hrok. set (l0 := taken_out ws r l) in *. clearbody l0.
  set (l1 := if is_departed r then l0 else _).
  assert (session_ok (mkPast p.(pa_used) p.(pa_clock) (p.(pa_recorded) - 1) p.(pa_acked) p.(pa_discarded)) l1
    ∧ lg_records l1 = lg_records l0 ∧ lg_next_dep_idx l1 = lg_next_dep_idx l0
    ∧ lg_tombstones l1 = lg_tombstones l0) as (H1 & E1 & E2 & E3).
  { unfold l1. destruct (is_departed r); [done|]. split; [|done]. by apply bump_session. }
  clearbody l1. pose proof (so_learn _ _ H1) as (_ & _ & _ & Hv).
  destruct reason; cbn [reason_stat fst];
    (apply bury_session; [done|done|done|by rewrite E1|by rewrite E3|done|cbn; lia|]).
  all: split_and!; cbn; rewrite ?E2.
  all: try (intros i Hi; destruct (lr_departed r); [destruct Hrok as (_ & i' & Hi' & ?); congruence|congruence]).
  all: try (intros d Hd; rewrite Hd in Hrok; by destruct Hrok).
  all: try (intros n [= <-]; lia).
  all: done.
Qed.

(** *** Acknowledgements *)

Lemma advance_session p l idx at_ arrival : session_ok p l →
  0 ≤ idx < l.(lg_next_dep_idx) → at_ ≤ p.(pa_clock) → session_ok p (advance_largest_acked idx at_ arrival l).
Proof.
  intros H Hi Ha. unfold advance_largest_acked. destruct (match la_idx _ with None => _ | Some x => _ end); [|done].
  destruct H as [H1 H2 H3 H4 H5 H6 H7 H8 H9 H10 H11]. split; try done. split; [done|]. by exists at_.
Qed.

Lemma set_reo_session p l r : session_ok p l → 0 ≤ r.(ro_wnd) ≤ REO_CAP_FALLBACK →
  0 ≤ r.(ro_depth) ≤ REO_DEPTH_MAX → session_ok p (set_reo r l).
Proof.
  intros [H1 H2 H3 H4 H5 H6 H7 H8 H9 (H10 & _ & _ & H10') H11] Hw Hd. by split.
Qed.

Lemma learn_reordering_session p l now min_rtt extent disp : session_ok p l → (∀ m, min_rtt = Some m → 0 ≤ m) →
  session_ok p (learn_reordering now min_rtt extent disp l).
Proof.
  intros H Hm. pose proof (so_learn _ _ H) as (_ & Hw & Hd & _). unfold learn_reordering. cbn [ro_freeze ro_wnd ro_depth ro_last_raise].
  set (step := match min_rtt with None => REO_STEP_FALLBACK | Some m => m / REO_STEP_DIVISOR end).
  set (cap := match min_rtt with None => REO_CAP_FALLBACK | Some m => _ end).
  assert (0 ≤ step ∧ 0 ≤ cap ≤ REO_CAP_FALLBACK) as [Hst Hcap].
  { unfold step, cap, REO_STEP_DIVISOR, REO_CAP_DIVISOR, REO_STEP_FALLBACK, REO_CAP_FALLBACK, MILLI.
    destruct min_rtt as [m|]; [|lia]. specialize (Hm m eq_refl).
    assert (0 ≤ m / 8 ∧ 0 ≤ m / 2) by (split; apply Z.div_pos; lia). lia. }
  destruct (ro_freeze (lg_reo l)); [by apply set_reo_session|].
  match goal with |- context [if ?b then _ else _] => destruct b end.
  - apply bump_session; [|done..]. apply set_reo_session; [done|cbn; lia|cbn; unfold REO_DEPTH_MAX in *; lia].
  - apply set_reo_session; [done|done|cbn; unfold REO_DEPTH_MAX in *; lia].
Qed.

Lemma set_adapt_session p l a : session_ok p l → K_PKT_INITIAL ≤ a.(ad_k_pkt) ≤ K_PKT_MAX →
  a.(ad_verdicts) = ad_verdicts l.(lg_adapt) → session_ok p (set_adapt a l).
Proof.
  intros [H1 H2 H3 H4 H5 H6 H7 H8 H9 (H10 & Hw & Hd & H10') H11] Hk Hv. split; try done.
  - unfold ledger_tombs_ok. cbn. by rewrite Hv.
  - unfold learn_ok. cbn. by rewrite Hv.
Qed.

Lemma note_spurious_session p l n : session_ok p l → session_ok p (note_spurious n l).
Proof.
  intros H. pose proof (so_learn _ _ H) as (Hk & _). unfold note_spurious.
  destruct (_ <=? _); [done|]. destruct (_ && _); [|by apply set_adapt_session].
  destruct (negb _ && _) eqn:E; [|by apply set_adapt_session].
  apply andb_true_iff in E as [_ E%Z.ltb_lt].
  apply bump_session; [|done..]. apply set_adapt_session; [done|cbn; lia|done].
Qed.

Lemma untomb_session p l ws t : session_ok p l → l.(lg_tombstones) !! ws = Some t →
  session_ok p (bump acked_after_declared_lost (set_tombstones (delete ws l.(lg_tombstones)) l)).
Proof.
  intros [H1 [H2] H3 H4 H5 H6 H7 H8 H9 H10 H11] Ht.
  assert (size (lg_tombstones l) = S (size (delete ws (lg_tombstones l)))) as Hs.
  { rewrite <-(insert_delete_id (lg_tombstones l) ws t Ht) at 1. by rewrite map_size_insert_None by apply lookup_delete_eq. }
  split; try done.
  - split. cbn. intros w t' [_ Hw]%lookup_delete_Some. by apply H2.
  - cbn. lia.
  - rewrite verdicts_bump, bump_eq, bump_ne by done. unfold verdicts in *. cbn. lia.
Qed.

Lemma leave_advance r idx at_ arrival l :
  leave r (advance_largest_acked idx at_ arrival l) = advance_largest_acked idx at_ arrival (leave r l).
Proof.
  unfold leave, advance_largest_acked. destruct (lr_departed r); [|done]. cbn.
  by destruct (match la_idx _ with None => _ | Some x => _ end).
Qed.

(** The past after an acknowledgement of [ws]. *)
Definition acked_past (l : TransmissionLedger) (ws : Z) (p : Past) : Past :=
  match l.(lg_records) !! ws with
  | Some _ => mkPast p.(pa_used) p.(pa_clock) p.(pa_recorded) (p.(pa_acked) + 1) p.(pa_discarded)
  | None => p
  end.

Lemma move_count p l : session_ok (mkPast p.(pa_used) p.(pa_clock) (p.(pa_recorded) - 1) p.(pa_acked) p.(pa_discarded)) l →
  session_ok (mkPast p.(pa_used) p.(pa_clock) p.(pa_recorded) (p.(pa_acked) + 1) p.(pa_discarded)) l.
Proof. intros [H1 H2 H3 H4 H5 H6 H7 H8 H9 H10 H11]. split; try done. cbn in *. lia. Qed.

Lemma resolve_live_session p l ws ack r : session_ok p l → l.(lg_records) !! ws = Some r →
  session_ok (acked_past l ws p) (resolve_at ws ack l).1.
Proof.
  intros H Hr. unfold resolve_at, acked_past. rewrite Hr. cbn [fst].
  pose proof (taken_out_session p l ws r H Hr) as Ht. cbv zeta in Ht. apply move_count in Ht.
  destruct (rk_rec _ _ _ _ _ _ _ (so_recs _ _ H) ws r Hr) as [Hu [_ Hrok]].
  destruct (tx_dep_idx (lr_tx r)) as [i|] eqn:Ei; [|exact Ht].
  destruct (lr_departed r) as [d|] eqn:Ed; [|exact Ht].
  destruct (is_pad _); [exact Ht|]. rewrite leave_advance. fold (taken_out ws r l).
  destruct Hrok as (Hd & i' & [= <-] & Hi). destruct (taken_out_others ws r l) as (E & _). injection E as _ _ _ En _ _ _ _.
  apply advance_session; [exact Ht|by rewrite En|done].
Qed.

Lemma resolve_session p l ws ack : session_ok p l → (∀ a, ack = Some a → 0 ≤ a.2) →
  session_ok (acked_past l ws p) (resolve_at ws ack l).1.
Proof.
  intros H Ha. destruct (lg_records l !! ws) as [r|] eqn:Er; [by apply (resolve_live_session p l ws ack r)|].
  unfold resolve_at, acked_past. rewrite Er. destruct (lg_tombstones l !! ws) as [t|] eqn:Et.
  2:{ cbn [fst]. by apply bump_session. }
  pose proof (untomb_session p l ws t H Et) as H1. destruct (so_tombs _ _ H) as [Htb].
  destruct (Htb ws t Et) as (_ & _ & _ & Hi & Hd & _).
  apply (bump_session p _ spurious_losses) in H1; [|done..].
  set (l1 := bump spurious_losses _) in *. assert (lg_next_dep_idx l1 = lg_next_dep_idx l) as En by done. clearbody l1.
  set (known := _ && _). clearbody known.
  destruct (match tb_largest_idx_at_verdict t with Some x => _ | None => _ end) as [disp extent].
  set (l2 := match tx_dep_idx _ with Some idx => _ | None => l1 end).
  assert (session_ok p l2) as H2.
  { unfold l2. destruct (tx_dep_idx (tb_tx t)) as [i|] eqn:Ei; [|done]. destruct (tb_departed t) as [d|] eqn:Ed; [|done].
    destruct (is_pad _); [done|]. apply advance_session; [done|rewrite En; by apply Hi|by apply Hd]. }
  clearbody l2. destruct (fec_possible l2 ws ack); cbn [fst].
  { by apply bump_session. }
  set (l3 := set_stat spurious_gap_us_max _ _).
  assert (session_ok p l3) as H3 by (apply set_stat_session; [apply set_stat_session|..]; done). clearbody l3.
  assert (∀ l4, session_ok p l4 →
    session_ok p (match tb_packet_verdict_no t with Some n => note_spurious n l4 | None => l4 end)) as Hns.
  { intros l4 H4. destruct (tb_packet_verdict_no t); [by apply note_spurious_session|done]. }
  apply Hns. destruct known; [|done]. destruct (_ && _); [by apply bump_session|].
  apply learn_reordering_session.
  - by apply bump_session; [|destruct (bool_decide _)..].
  - intros m. destruct ack as [[now mr]|]; [|done]. intros [= <-]. exact (Ha _ eq_refl).
Qed.

(** *** The other operations *)

Lemma set_dorder_session p l d : session_ok p l → d `sublist_of` l.(lg_departed_order) →
  (∀ ws, ws ∈ l.(lg_departed_order) → live_departed l.(lg_records) ws → ws ∈ d) → session_ok p (set_departed_order d l).
Proof.
  intros [H1 H2 H3 H4 H5 H6 H7 H8 H9 H10 H11] Hs Hl. split; try done.
  - by eapply recs_ok_dorder.
  - cbn. apply sublist_length in Hs. lia.
Qed.

Lemma compact_session p l : ledger_recs_ok p.(pa_used) p.(pa_clock) l →
  (size l.(lg_records) ≤ l.(lg_capacity))%nat →
  (length (lg_order (compact_if_sparse l)) ≤ 3 * l.(lg_capacity) + 64
   ∧ length (lg_departed_order (compact_if_sparse l)) + undeparted l.(lg_records) ≤ 4 * l.(lg_capacity) + 64)%nat.
Proof.
  intros H Hs. pose proof (compact_if_sparse_lengths _ _ _ H) as [L1 L2].
  pose proof (undeparted_le_size l.(lg_records)). lia.
Qed.

Definition recorded_past (ws : Z) (p : Past) : Past :=
  mkPast ({[ws]} ∪ p.(pa_used)) p.(pa_clock) (p.(pa_recorded) + 1) p.(pa_acked) p.(pa_discarded).

Lemma record_session p l ws at_ tx : session_ok p l → ws ∉ p.(pa_used) → 0 ≤ tx.(tx_wire_bytes) →
  session_ok (recorded_past ws p) (ledger_record ws at_ tx l).
Proof.
  intros [H1 H2 H3 H4 H5 H6 H7 H8 H9 H10 H11] Hf Hb. unfold ledger_record.
  assert (lg_records l !! ws = None) as Hn.
  { destruct (lg_records l !! ws) eqn:E; [|done]. by destruct (rk_rec _ _ _ _ _ _ _ H1 ws _ E) as [? _]. }
  rewrite Hn. set (r := mkRecord _ _ _ _). set (l0 := set_records _ l).
  destruct (evict_records_ok ({[ws]} ∪ p.(pa_used)) p.(pa_clock) (lg_order l0 ++ [ws]) l0) as [G0 [G1 G2 G3 G4 G5 (G6 & G6') G7]].
  { unfold ledger_recs_ok. cbn. by apply recs_ok_insert. }
  set (l1 := evict_records _ _) in *. clearbody l1. unfold other_fields in G7. injection G7 as E1 E2 E3 E4 E5 E6 E7 E8.
  cbn in E1, E2, E3, E4, E5, E6, E7, E8, G1, G2. pose proof (compact_session (recorded_past ws p) l1 G0) as L.
  rewrite E1 in L. destruct (L G1) as [L1 L2]. destruct (compact_if_sparse_fields l1) as (F1 & F2 & F3 & F4 & F5 & F6 & F7 & F8 & F9 & F10 & F11).
  assert (Z.of_nat (size (lg_records l0)) = Z.of_nat (size (lg_records l)) + 1) as Hsz.
  { cbn. rewrite map_size_insert_None by done. lia. }
  assert (fates (compact_if_sparse l1) = fates l1 ∧ verdicts (compact_if_sparse l1) = verdicts l1) as [Ff Fv]
    by (unfold fates, verdicts; by rewrite F3).
  split; rewrite ?F1, ?F2, ?F3, ?F4, ?F6, ?F8, ?F9, ?F10, ?Ff, ?Fv, ?E1, ?E2, ?E4, ?E6, ?E7, ?E8, ?G5, ?G6, ?G6'; try done.
  - by apply compact_if_sparse_ok.
  - unfold ledger_tombs_ok. rewrite F1, F4, F5, F6, F10, E2, E3, E4, E8.
    eapply tombs_ok_mono; [exact H2|cbn; set_solver|cbn; lia..|]. intros w Hw Hnw Huw.
    assert (w ≠ ws) by (intros ->; done).
    destruct (lg_records l1 !! w) eqn:E; [|done]. eapply lookup_weaken in E; [|exact G2]. cbn in E.
    rewrite lookup_insert_ne in E by done. congruence.
  - change (fates l0) with (fates l) in G4. cbn. lia.
Qed.

Lemma depart_session p l ws at_ us : session_ok p l → p.(pa_clock) ≤ at_ →
  let p' := mkPast p.(pa_used) at_ p.(pa_recorded) p.(pa_acked) p.(pa_discarded) in
  session_ok p' (mark_departed ws at_ us l).1.
Proof.
  intros [H1 H2 H3 H4 H5 H6 H7 H8 H9 H10 H11] Hc p'.
  assert (∀ n, lg_next_dep_idx l ≤ n → ack_ok at_ n (lg_ack l)) as Hack.
  { intros n Hn. unfold ack_ok in *. destruct (la_idx (lg_ack l)); [|done].
    destruct H11 as (? & x & ? & ?). split; [lia|]. exists x. split; [done|lia]. }
  assert (recs_ok p.(pa_used) at_ (lg_next_dep_idx l) (lg_records l) (lg_order l) (lg_departed_order l) (lg_departed_bytes l)) as Hm.
  { destruct H1 as [R1 R2 R3 R4 R5 R6 R7 R8 R9]. split; try done. intros w r Hw. destruct (R1 w r Hw). split; [done|].
    eapply record_ok_mono; [| |done]; lia. }
  assert (session_ok p' l) as Hsame.
  { split; try done; [|by apply Hack]. eapply tombs_ok_mono; [exact H2|done|cbn; lia|lia|lia|done]. }
  unfold mark_departed. destruct (lg_records l !! ws) as [r|] eqn:Er; [|done].
  destruct (is_departed r) eqn:Ed; [done|]. cbn [fst]. set (r' := mkRecord _ _ _ _).
  pose proof (recs_ok_depart _ _ _ _ _ _ _ ws r r' at_ H1 Er Ed Hc H3 eq_refl eq_refl eq_refl) as Hd.
  assert (size (<[ws := r']> (lg_records l)) = size (lg_records l)) as Hsz by (rewrite map_size_insert_Some; [done|by eexists]).
  pose proof (undeparted_depart (lg_records l) ws r r' Er Ed eq_refl) as Hun.
  apply bump_session; [|done..].
  split; cbn; rewrite ?Hsz, ?length_app; try done.
  - eapply tombs_ok_mono; [exact H2|done|cbn; lia|cbn; lia|cbn; lia|]. intros w _ Hw _. cbn.
    rewrite lookup_insert_ne; [done|]. intros ->. congruence.
  - lia.
  - cbn. lia.
  - apply Hack. lia.
Qed.

Lemma rate_session p l ws make : session_ok p l → session_ok p (mark_rate ws make l).
Proof.
  intros H. unfold mark_rate. destruct (lg_records l !! ws) as [r|] eqn:Er; [|done].
  destruct (lr_departed r) as [d|] eqn:Ed; [|done]. destruct (lr_rate r); [done|].
  destruct (tx_dep_idx (lr_tx r)) as [i|] eqn:Ei; [|done].
  destruct H as [H1 H2 H3 H4 H5 H6 H7 H8 H9 H10 H11]. set (r' := mkRecord _ _ _ _).
  assert (is_departed r' = is_departed r) as Hid by (unfold is_departed; cbn; by rewrite Ed).
  assert (size (<[ws := r']> (lg_records l)) = size (lg_records l)) as Hsz by (rewrite map_size_insert_Some; [done|by eexists]).
  split; cbn; rewrite ?Hsz, ?(undeparted_same _ _ _ _ Er Hid); try done.
  - by apply (recs_ok_same _ _ _ _ _ _ _ ws r r').
  - eapply tombs_ok_mono; [exact H2|done|cbn; lia..|]. intros w _ Hw _. cbn. rewrite lookup_insert_ne; [done|]. intros ->. congruence.
Qed.

Lemma forget_outstanding_session p l ws : session_ok p l → session_ok p (forget_outstanding ws l).1.
Proof.
  intros H. unfold forget_outstanding. destruct (lg_records l !! ws) as [r|] eqn:Er; [|done]. cbn [fst].
  apply fate_session; [|done..]. by apply taken_out_session.
Qed.

Lemma take_undeparted_session p l ws : session_ok p l → session_ok p (take_undeparted ws l).1.
Proof.
  intros H. unfold take_undeparted. destruct (lg_records l !! ws) as [r|] eqn:Er; [|done].
  destruct (is_departed r) eqn:Ed; [done|]. cbn [fst]. apply fate_session; [|done..].
  pose proof (taken_out_session p l ws r H Er) as Ht. unfold taken_out, leave in Ht.
  unfold is_departed in Ed. by destruct (lr_departed r).
Qed.

Lemma forget_undeparted_take l ws : (forget_undeparted ws l).1 = (take_undeparted ws l).1.
Proof. unfold forget_undeparted, take_undeparted. destruct (lg_records l !! ws); [|done]. by destruct (is_departed _). Qed.

Definition discarded_past (l : TransmissionLedger) (p : Past) : Past :=
  mkPast p.(pa_used) p.(pa_clock) p.(pa_recorded) p.(pa_acked)
    (p.(pa_discarded) + Z.of_nat (discard_undeparted l).2).

Lemma discard_session p l : session_ok p l → session_ok (discarded_past l p) (discard_undeparted l).1.
Proof.
  intros [H1 H2 H3 H4 H5 H6 H7 H8 H9 H10 H11]. unfold discarded_past, discard_undeparted. cbn [fst snd].
  set (kept := filter _ (lg_records l)).
  assert (kept ⊆ lg_records l) as Hsub by apply map_filter_subseteq.
  pose proof (map_subseteq_size _ _ Hsub). pose proof (undeparted_subseteq _ _ Hsub).
  split; cbn; try done.
  - by apply recs_ok_discard.
  - eapply tombs_ok_mono; [exact H2|done|cbn; lia..|]. intros w _ Hw _. cbn.
    destruct (kept !! w) eqn:E; [|done]. eapply lookup_weaken in E; [|exact Hsub]. congruence.
  - lia.
  - lia.
  - unfold fates in *. cbn in *. lia.
Qed.

Lemma parity_session p l g at_ retain : session_ok p l → session_ok p (note_parity_departed g at_ retain l).
Proof. intros []. unfold note_parity_departed. destruct (prune_parity _ _ _ _). by split. Qed.

Lemma burst_session p l s e : session_ok p l → session_ok p (mark_probe_burst s e l).
Proof. intros []. unfold mark_probe_burst. destruct (last _) as [[? ?]|]; [destruct (_ <=? _)|]; by split. Qed.

Lemma threshold_session p l thr : session_ok p l → session_ok p (set_time_threshold thr l).
Proof. intros H. pose proof (so_learn _ _ H) as (_ & ? & ? & _). by apply set_reo_session. Qed.

Lemma trim_front_suffix records k : ∃ dead, k = dead ++ trim_front records k ∧ Forall (λ ws, live_departed records ws = false) dead.
Proof.
  induction k as [|ws k (dead & E & Hd)]; cbn; [by exists []|].
  destruct (live_departed records ws) eqn:El; [by exists []|].
  exists (ws :: dead). cbn. split; [by f_equal|by constructor].
Qed.

Lemma trim_back_session p l : session_ok p l →
  session_ok p (set_departed_order (trim_back l.(lg_records) l.(lg_departed_order)) l).
Proof.
  intros H. unfold trim_back.
  destruct (trim_front_suffix l.(lg_records) (reverse l.(lg_departed_order))) as (dead & E & Hd).
  apply (f_equal reverse) in E. rewrite reverse_involutive, reverse_app in E.
  apply set_dorder_session; [done| |].
  - rewrite E at 2. apply sublist_inserts_r. done.
  - intros ws Hw Hl. rewrite E in Hw. apply elem_of_app in Hw as [?|Hw]; [done|].
    rewrite elem_of_reverse in Hw. rewrite Forall_forall in Hd. rewrite (Hd ws Hw) in Hl. by destruct Hl.
Qed.

(** *** The two walks *)

(** Entries [kept] and [rest] of a walk still hold everything live. *)
Definition walk_holds (l : TransmissionLedger) (kept rest : list Z) : Prop :=
  (kept ++ rest) `sublist_of` l.(lg_departed_order)
  ∧ ∀ ws, ws ∈ l.(lg_departed_order) → live_departed l.(lg_records) ws → ws ∈ kept ++ rest.

Lemma walk_step l kept ws rest : walk_holds l kept (ws :: rest) → walk_holds l (kept ++ [ws]) rest.
Proof. intros [Hs Hl]. unfold walk_holds. by rewrite <-app_assoc. Qed.

Lemma walk_pass l kept ws rest : walk_holds l kept (ws :: rest) → live_departed l.(lg_records) ws = false →
  walk_holds l (pass_over kept ws) rest.
Proof.
  intros Hw Hd. unfold pass_over. destruct kept as [|k kept]; [|by apply walk_step]. destruct Hw as [Hs Hl].
  cbn in *. split; [etrans; [|exact Hs]; by constructor|]. intros w Hw Hlw.
  destruct (proj1 (elem_of_cons _ _ _) (Hl w Hw Hlw)) as [->|?]; [|done].
  rewrite Hd in Hlw. by destruct Hlw.
Qed.

Lemma walk_end p l kept rest : session_ok p l → walk_holds l kept rest → session_ok p (set_departed_order (kept ++ rest) l).
Proof. intros H [Hs Hl]. by apply set_dorder_session. Qed.

(** Fewer records: what was held still is. *)
Lemma walk_fewer l l' kept rest : walk_holds l kept rest → lg_departed_order l' = lg_departed_order l →
  lg_records l' ⊆ lg_records l → walk_holds l' kept rest.
Proof.
  intros [Hs Hl] E Hsub. unfold walk_holds. rewrite E. split; [done|]. intros ws Hw Hlw. apply Hl; [done|].
  unfold live_departed in *. destruct (lg_records l' !! ws) as [r|] eqn:Er; [|done].
  by rewrite (lookup_weaken _ _ _ _ Er Hsub).
Qed.

Lemma evict_tombstones_fields order : ∀ l,
  let l' := evict_tombstones order l in
  lg_records l' = lg_records l ∧ lg_departed_order l' = lg_departed_order l
  ∧ lg_probe_bursts l' = lg_probe_bursts l ∧ lg_ack l' = lg_ack l ∧ lg_reo l' = lg_reo l
  ∧ lg_adapt l' = lg_adapt l ∧ lg_next_dep_idx l' = lg_next_dep_idx l ∧ lg_capacity l' = lg_capacity l.
Proof.
  induction order as [|o order IH]; intros l; cbn [evict_tombstones]; cbv zeta; (destruct (_ <=? _)%nat; [done|]); [done|].
  cbn [lg_tombstones set_tombstone_order]. destruct (lg_tombstones l !! o).
  - match goal with |- context [evict_tombstones order ?x] => destruct (IH x) as (-> & -> & -> & -> & -> & -> & -> & ->) end. done.
  - match goal with |- context [evict_tombstones order ?x] => destruct (IH x) as (-> & -> & -> & -> & -> & -> & -> & ->) end. done.
Qed.

Lemma declare_lost_fields ws reason l lost :
  let l' := (declare_lost ws reason l lost).1 in
  lg_records l' = delete ws l.(lg_records) ∧ lg_departed_order l' = lg_departed_order l
  ∧ lg_probe_bursts l' = lg_probe_bursts l ∧ lg_ack l' = lg_ack l ∧ lg_reo l' = lg_reo l
  ∧ ad_k_pkt (lg_adapt l') = ad_k_pkt (lg_adapt l) ∧ lg_next_dep_idx l' = lg_next_dep_idx l
  ∧ lg_capacity l' = lg_capacity l.
Proof.
  unfold declare_lost. destruct (lg_records l !! ws) as [r|] eqn:Er; [|cbn; by rewrite delete_id].
  destruct reason; cbv zeta; cbn [fst];
    match goal with |- context [evict_tombstones ?o ?x] =>
      pose proof (evict_tombstones_fields o x) as (E1 & E2 & E3 & E4 & E5 & E6 & E7 & E8);
      set (e := evict_tombstones o x) in *; clearbody e end;
    rewrite E1, E2, E3, E4, E5, E6, E7, E8; clear;
    unfold leave; destruct (is_departed r); destruct (lr_departed r); done.
Qed.

Lemma judge_stat l now thr largest tx at_ reason s :
  judge l now thr largest tx at_ = Some (reason, Some s) → s = reo_judged_depth ∨ s = reo_judged_quiet.
Proof.
  unfold judge. destruct (count_rule _ _ _ _ _ _) as [[]|]; [naive_solver..|]. by destruct (_ <=? now).
Qed.

Lemma detect_walk_session p now thr largest rest : ∀ l kept stepped lost, session_ok p l → walk_holds l kept rest →
  session_ok p (detect_walk now thr largest kept stepped rest l lost).1.
Proof.
  induction rest as [|ws rest IH]; intros l kept stepped lost H Hw; cbn [detect_walk].
  { cbn. rewrite <-(app_nil_r kept). by apply walk_end. }
  destruct (lg_records l !! ws) as [[ra [at_|] rate tx]|] eqn:Er.
  - destruct (largest <=? idx_of tx); [by apply walk_end|].
    destruct (judge l now thr largest tx at_) as [[reason stat]|] eqn:Ej.
    + set (l1 := match stat with Some s => bump s l | None => l end).
      assert (session_ok p l1 ∧ lg_records l1 = lg_records l ∧ lg_departed_order l1 = lg_departed_order l) as (H1 & E1 & E2).
      { unfold l1. destruct stat as [s|]; [|done]. split; [|done].
        apply judge_stat in Ej as [-> | ->]; by apply bump_session. }
      pose proof (declare_lost_session p l1 ws reason lost H1) as H2.
      destruct (declare_lost_fields ws reason l1 lost) as (F1 & F2 & _).
      destruct (declare_lost ws reason l1 lost) as [l2 lost2]. cbn [fst] in *. apply IH; [done|].
      apply walk_pass; [|unfold live_departed; by rewrite F1, lookup_delete_eq].
      apply (walk_fewer l); [done|by rewrite F2|rewrite F1, E1; apply delete_subseteq].
    + destruct (_ && _); [|by apply walk_end]. apply IH; [done|]. by apply walk_step.
  - apply IH; [done|]. apply walk_pass; [done|]. unfold live_departed. by rewrite Er.
  - apply IH; [done|]. apply walk_pass; [done|]. unfold live_departed. by rewrite Er.
Qed.

Lemma next_loss_walk_session p thr largest rest : ∀ l kept stepped best, session_ok p l → walk_holds l kept rest →
  session_ok p (next_loss_walk thr largest kept stepped rest l best).1.
Proof.
  induction rest as [|ws rest IH]; intros l kept stepped best H Hw; cbn [next_loss_walk].
  { cbn. rewrite <-(app_nil_r kept). by apply walk_end. }
  destruct (lg_records l !! ws) as [[ra [at_|] rate tx]|] eqn:Er.
  - destruct (largest <=? idx_of tx); [by apply walk_end|].
    destruct (negb _ || _); [by apply walk_end|]. apply IH; [done|]. by apply walk_step.
  - apply IH; [done|]. apply walk_pass; [done|]. unfold live_departed. by rewrite Er.
  - apply IH; [done|]. apply walk_pass; [done|]. unfold live_departed. by rewrite Er.
Qed.

Lemma walk_holds_all l : walk_holds l [] l.(lg_departed_order).
Proof. split; [done|]. intros ws Hw _. exact Hw. Qed.

Lemma episode_session p l now thr lost : session_ok p l → session_ok p (note_episode now thr lost l).
Proof.
  intros H. pose proof (so_learn _ _ H) as (_ & ? & ? & _). unfold note_episode.
  destruct (_ =? _); [done|]. destruct (_ && _); [|done].
  destruct (_ <=? _); apply set_reo_session; try done; cbn; unfold REO_CAP_FALLBACK, REO_DEPTH_MAX, MILLI; lia.
Qed.

Lemma compacted_session p l : session_ok p l → session_ok p (compact_if_sparse l).
Proof.
  intros [H1 H2 H3 H4 H5 H6 H7 H8 H9 H10 H11]. destruct (compact_session p l H1 H4) as [L1 L2].
  destruct (compact_if_sparse_fields l) as (F1 & F2 & F3 & F4 & F5 & F6 & F7 & F8 & F9 & F10 & F11).
  assert (fates (compact_if_sparse l) = fates l ∧ verdicts (compact_if_sparse l) = verdicts l) as [Ff Fv]
    by (unfold fates, verdicts; by rewrite F3).
  split; rewrite ?F1, ?F2, ?F3, ?F4, ?F6, ?F8, ?F9, ?F10, ?Ff, ?Fv; try done.
  - by apply compact_if_sparse_ok.
  - unfold ledger_tombs_ok. by rewrite F1, F4, F5, F6, F10.
Qed.

Lemma detect_session p l now thr : session_ok p l → session_ok p (detect_losses_at now thr l).1.
Proof.
  intros H. unfold detect_losses_at. apply (threshold_session p l thr) in H.
  set (l0 := set_time_threshold thr l) in *. clearbody l0. destruct (la_idx (lg_ack l0)) as [i|]; [|done].
  pose proof (detect_walk_session p now thr i _ l0 [] 0 [] H (walk_holds_all l0)) as H1.
  destruct (detect_walk _ _ _ _ _ _ _ _) as [l1 lost]. cbn [fst] in *. by apply compacted_session, episode_session.
Qed.

Lemma next_loss_session p l thr : session_ok p l → session_ok p (next_loss_time thr l).1.
Proof.
  intros H. unfold next_loss_time. apply (threshold_session p l thr) in H.
  set (l0 := set_time_threshold thr l) in *. clearbody l0. destruct (la_idx (lg_ack l0)) as [i|]; [|done].
  apply next_loss_walk_session; [done|apply walk_holds_all].
Qed.

(** ** Sessions *)

Inductive ledger_op : Type :=
| ORecord (ws at_ : Z) (tx : Transmission)
| ODepart (ws at_ us : Z)
| ORate (ws : Z) (make : Z → Z → Z → RateMark)
| OAck (ws : Z) (ack : option (Z * Z))
| ODetect (now thr : Z)
| ONextLoss (thr : Z)
| OPto (ws : Z)
| OForget (ws : Z)
| OForgetUndeparted (ws : Z)
| OTake (ws : Z)
| ODiscard
| OParity (group_first at_ retain : Z)
| OBurst (start end_ : Z)
| OScan (cursor n max_scan : nat)
| OLatest.

Definition ledger_step (op : ledger_op) (l : TransmissionLedger) : TransmissionLedger :=
  match op with
  | ORecord ws at_ tx => ledger_record ws at_ tx l
  | ODepart ws at_ us => (mark_departed ws at_ us l).1
  | ORate ws make => mark_rate ws make l
  | OAck ws ack => (resolve_at ws ack l).1
  | ODetect now thr => (detect_losses_at now thr l).1
  | ONextLoss thr => (next_loss_time thr l).1
  | OPto ws => (declare_lost_by_pto ws l).1
  | OForget ws => (forget_outstanding ws l).1
  | OForgetUndeparted ws => (forget_undeparted ws l).1
  | OTake ws => (take_undeparted ws l).1
  | ODiscard => (discard_undeparted l).1
  | OParity g at_ retain => note_parity_departed g at_ retain l
  | OBurst s e => mark_probe_burst s e l
  | OScan cursor n m => (scan_outstanding cursor n m l).1.1
  | OLatest => (latest_outstanding_departure l).1
  end.

(** The past after an operation on [l]. *)
Definition past_step (op : ledger_op) (l : TransmissionLedger) (p : Past) : Past :=
  match op with
  | ORecord ws _ _ => recorded_past ws p
  | ODepart _ at_ _ => mkPast p.(pa_used) at_ p.(pa_recorded) p.(pa_acked) p.(pa_discarded)
  | OAck ws _ => acked_past l ws p
  | ODiscard => discarded_past l p
  | _ => p
  end.

(** A number is recorded once, departures follow the clock, round trips are not negative. *)
Definition op_allowed (p : Past) (op : ledger_op) : Prop :=
  match op with
  | ORecord ws _ tx => (ws ∉ p.(pa_used)) ∧ 0 ≤ tx.(tx_wire_bytes)
  | ODepart _ at_ _ => p.(pa_clock) ≤ at_
  | OAck _ ack => (∀ a, ack = Some a → 0 ≤ a.2)
  | _ => True
  end.

Inductive ledger_session (capacity : nat) : Past → TransmissionLedger → Prop :=
| ls_start clock : ledger_session capacity (mkPast ∅ clock 0 0 0) (ledger_new capacity)
| ls_step p l op : ledger_session capacity p l → op_allowed p op →
    ledger_session capacity (past_step op l p) (ledger_step op l).

Lemma ledger_new_session clock capacity : session_ok (mkPast ∅ clock 0 0 0) (ledger_new capacity).
Proof.
  split; cbn; try done; try lia.
  - split; cbn; try done; try by constructor.
    + by intros ws [].
    + split; [constructor|]. intros ws Hw. by apply elem_of_nil in Hw.
    + intros ws Hw. by apply elem_of_nil in Hw.
  - rewrite map_size_empty. lia.
  - rewrite map_size_empty. lia.
  - unfold undeparted. rewrite map_filter_empty, map_size_empty. lia.
Qed.

Lemma ledger_step_session p l op : session_ok p l → op_allowed p op → session_ok (past_step op l p) (ledger_step op l).
Proof.
  intros H Ho. destruct op; cbn [ledger_step past_step] in *.
  - destruct Ho. by apply record_session.
  - by apply depart_session.
  - by apply rate_session.
  - by apply resolve_session.
  - by apply detect_session.
  - by apply next_loss_session.
  - unfold declare_lost_by_pto. pose proof (declare_lost_session p l ws LPto [] H) as H'. by destruct (declare_lost _ _ _ _).
  - by apply forget_outstanding_session.
  - rewrite forget_undeparted_take. by apply take_undeparted_session.
  - by apply take_undeparted_session.
  - by apply discard_session.
  - by apply parity_session.
  - by apply burst_session.
  - unfold scan_outstanding. set (l1 := if (_ =? 0)%nat then _ else l).
    assert (session_ok p l1) as H1 by (unfold l1; destruct (_ =? 0)%nat; [by apply trim_back_session|done]).
    by destruct (scan_walk _ _ _ _ _ _ _ _).
  - by apply trim_back_session.
Qed.

Lemma ledger_session_ok capacity p l : ledger_session capacity p l → session_ok p l.
Proof. induction 1; [apply ledger_new_session|by apply ledger_step_session]. Qed.

Lemma evict_records_capacity order : ∀ l, lg_capacity (evict_records order l) = lg_capacity l.
Proof.
  induction order as [|o order IH]; intros l; cbn [evict_records]; cbv zeta; (destruct (_ <=? _)%nat; [done|]); [done|].
  rewrite IH. destruct (lg_records (set_order (o :: order) l) !! o) as [r|]; [|done]. unfold leave.
  by destruct (lr_departed r), (is_departed r).
Qed.

Lemma detect_walk_capacity now thr largest rest : ∀ l kept stepped lost,
  lg_capacity (detect_walk now thr largest kept stepped rest l lost).1 = lg_capacity l.
Proof.
  induction rest as [|ws rest IH]; intros l kept stepped lost; cbn [detect_walk]; [done|].
  destruct (lg_records l !! ws) as [[ra [at_|] rate tx]|]; [|apply IH..].
  destruct (largest <=? idx_of tx); [done|]. destruct (judge _ _ _ _ _ _) as [[reason stat]|].
  - destruct (declare_lost_fields ws reason (match stat with Some s => bump s l | None => l end) lost)
      as (_ & _ & _ & _ & _ & _ & _ & E).
    destruct (declare_lost _ _ _ _) as [l2 lost2]. cbn [fst] in *. rewrite IH, E. by destruct stat.
  - destruct (_ && _); [apply IH|done].
Qed.

Lemma next_loss_walk_capacity thr largest rest : ∀ l kept stepped best,
  lg_capacity (next_loss_walk thr largest kept stepped rest l best).1 = lg_capacity l.
Proof.
  induction rest as [|ws rest IH]; intros l kept stepped best; cbn [next_loss_walk]; [done|].
  destruct (lg_records l !! ws) as [[ra [at_|] rate tx]|]; [|apply IH..].
  destruct (largest <=? idx_of tx); [done|]. destruct (negb _ || _); [done|apply IH].
Qed.

Lemma advance_capacity i a arr l : lg_capacity (advance_largest_acked i a arr l) = lg_capacity l.
Proof. unfold advance_largest_acked. by destruct (match la_idx _ with None => _ | Some x => _ end). Qed.

Lemma learn_capacity now m e d l : lg_capacity (learn_reordering now m e d l) = lg_capacity l.
Proof. unfold learn_reordering. cbn [ro_freeze]. destruct (ro_freeze _); [done|]. by destruct (_ && _). Qed.

Lemma note_spurious_capacity n l : lg_capacity (note_spurious n l) = lg_capacity l.
Proof. unfold note_spurious. destruct (_ <=? _); [done|]. destruct (_ && _); [|done]. by destruct (negb _ && _). Qed.

Lemma resolve_capacity ws ack l : lg_capacity (resolve_at ws ack l).1 = lg_capacity l.
Proof.
  unfold resolve_at. destruct (lg_records l !! ws) as [r|].
  - cbn [fst]. unfold leave. destruct (lr_departed r) eqn:Ed; destruct (tx_dep_idx _); try done;
      destruct (is_pad _); cbn; rewrite ?advance_capacity; done.
  - destruct (lg_tombstones l !! ws) as [t|]; [|done].
    destruct (match tb_largest_idx_at_verdict t with Some x => _ | None => _ end) as [disp extent].
    set (l2 := match tx_dep_idx _ with Some idx => _ | None => _ end).
    assert (lg_capacity l2 = lg_capacity l) as <-.
    { unfold l2. destruct (tx_dep_idx _); [|done]. destruct (tb_departed t); [|done].
      destruct (is_pad _); [done|]. by rewrite advance_capacity. }
    clearbody l2. destruct (fec_possible l2 ws ack); [done|].
    destruct (_ && _); [destruct (_ && _)|]; destruct (tb_packet_verdict_no t); cbn [fst];
      rewrite ?note_spurious_capacity, ?learn_capacity; done.
Qed.

Lemma ledger_step_capacity l op : lg_capacity (ledger_step op l) = lg_capacity l.
Proof.
  destruct op; cbn [ledger_step].
  - unfold ledger_record. cbv zeta.
    match goal with |- lg_capacity (compact_if_sparse ?x) = _ => destruct (compact_if_sparse_fields x) as (_ & -> & _) end.
    rewrite evict_records_capacity. destruct (lg_records l !! ws) as [old|]; [|done].
    cbn. unfold leave. by destruct (lr_departed old).
  - unfold mark_departed. destruct (lg_records l !! ws); [|done]. by destruct (is_departed _).
  - unfold mark_rate. repeat case_match; done.
  - apply resolve_capacity.
  - unfold detect_losses_at. destruct (la_idx _) as [i|]; [|done].
    pose proof (detect_walk_capacity now thr i (lg_departed_order (set_time_threshold thr l)) (set_time_threshold thr l) [] 0 []) as E.
    destruct (detect_walk _ _ _ _ _ _ _ _) as [l1 lost]. cbn [fst] in *.
    destruct (compact_if_sparse_fields (note_episode now thr lost l1)) as (_ & -> & _).
    transitivity (lg_capacity l1); [|exact E]. unfold note_episode. destruct (_ =? _); [done|]. destruct (_ && _); [|done]. by destruct (_ <=? _).
  - unfold next_loss_time. destruct (la_idx _) as [i|]; [|done]. by rewrite next_loss_walk_capacity.
  - unfold declare_lost_by_pto. destruct (declare_lost_fields ws LPto l []) as (_ & _ & _ & _ & _ & _ & _ & E).
    by destruct (declare_lost _ _ _ _).
  - unfold forget_outstanding, leave. destruct (lg_records l !! ws) as [r|]; [|done]. by destruct (lr_departed r).
  - unfold forget_undeparted. destruct (lg_records l !! ws); [|done]. by destruct (is_departed _).
  - unfold take_undeparted. destruct (lg_records l !! ws); [|done]. by destruct (is_departed _).
  - done.
  - unfold note_parity_departed. by destruct (prune_parity _ _ _ _).
  - unfold mark_probe_burst. destruct (last _) as [[? ?]|]; [by destruct (_ <=? _)|done].
  - unfold scan_outstanding. destruct (_ =? 0)%nat; by destruct (scan_walk _ _ _ _ _ _ _ _).
  - done.
Qed.

Lemma ledger_session_capacity capacity p l : ledger_session capacity p l → lg_capacity l = capacity.
Proof. induction 1 as [|p l op _ IH _]; [done|]. by rewrite ledger_step_capacity. Qed.

(** C5: At every moment of every session: each transmission recorded was acknowledged
    while outstanding, or is counted under exactly one fate (a verdict, forgotten,
    evicted, discarded), or is still outstanding; each verdict was contradicted by a late
    acknowledgement, or its tombstone was evicted, or is still there; the bytes in
    flight are those of the outstanding departed records; the ledger holds at most
    [capacity] records and [capacity] tombstones, and its two walking orders at most
    [3 * capacity + 64] and [4 * capacity + 64] entries; and what it has learned stays
    within bounds: a packet threshold of 3 to 8, a reordering window of at most 50 ms,
    a depth of at most 64. *)
Theorem ledger_accounts_for_everything capacity p l :
  ledger_session capacity p l →
  p.(pa_recorded) = p.(pa_acked) + p.(pa_discarded)
    + (l.(lg_stats) lost_packet_threshold + l.(lg_stats) lost_time_threshold + l.(lg_stats) lost_pto)
    + (l.(lg_stats) forgotten_before_departure + l.(lg_stats) forgotten_without_verdict)
    + l.(lg_stats) capacity_evictions + Z.of_nat (size l.(lg_records))
  ∧ l.(lg_stats) lost_packet_threshold + l.(lg_stats) lost_time_threshold + l.(lg_stats) lost_pto
    = l.(lg_stats) acked_after_declared_lost + l.(lg_stats) tombstone_evictions + Z.of_nat (size l.(lg_tombstones))
  ∧ l.(lg_departed_bytes) = bytes_in_flight l.(lg_records)
  ∧ (size l.(lg_records) ≤ capacity ∧ size l.(lg_tombstones) ≤ capacity
     ∧ length l.(lg_order) ≤ 3 * capacity + 64 ∧ length l.(lg_departed_order) ≤ 4 * capacity + 64)%nat
  ∧ 3 ≤ l.(lg_adapt).(ad_k_pkt) ≤ 8 ∧ 0 ≤ l.(lg_reo).(ro_wnd) ≤ 50 * MILLI ∧ 0 ≤ l.(lg_reo).(ro_depth) ≤ 64.
Proof.
  intros H. pose proof (ledger_session_capacity _ _ _ H) as Hc. apply ledger_session_ok in H.
  destruct H as [H1 H2 H3 H4 H5 H6 H7 H8 H9 (H10 & H10' & H10'' & _) H11]. rewrite Hc in *.
  unfold fates in H8. unfold verdicts in H9. split; [lia|]. split; [done|]. split; [apply (rk_bytes _ _ _ _ _ _ _ H1)|].
  split; [lia|]. done.
Qed.

(** ** Running sessions *)

Fixpoint ledger_run (ops : list ledger_op) (p : Past) (l : TransmissionLedger) : Past * TransmissionLedger :=
  match ops with
  | [] => (p, l)
  | op :: ops => ledger_run ops (past_step op l p) (ledger_step op l)
  end.

Fixpoint all_allowed (ops : list ledger_op) (p : Past) (l : TransmissionLedger) : Prop :=
  match ops with
  | [] => True
  | op :: ops => op_allowed p op ∧ all_allowed ops (past_step op l p) (ledger_step op l)
  end.

Lemma ledger_run_session capacity ops : ∀ p l, ledger_session capacity p l → all_allowed ops p l →
  ledger_session capacity (ledger_run ops p l).1 (ledger_run ops p l).2.
Proof.
  induction ops as [|op ops IH]; intros p l H Ha; cbn; [done|]. destruct Ha as [Ho Ha]. apply IH; [|done]. by constructor.
Qed.

Definition sample_tx : Transmission := mkTx 0 1200 (CTile (mkEmitKey 1 0 0 0)) None None.

(** Four datagrams leave; the last three are acknowledged and the first is declared lost. *)
Definition sample_loss : list ledger_op :=
  [ORecord 1 0 sample_tx; ORecord 2 0 sample_tx; ORecord 3 0 sample_tx; ORecord 4 0 sample_tx;
   ODepart 1 10 0; ODepart 2 10 0; ODepart 3 10 0; ODepart 4 10 0;
   OAck 2 None; OAck 3 None; OAck 4 None; ODetect 20 1000].

Lemma ledger_accounts_for_everything_witness :
  let '(p, l) := ledger_run sample_loss (mkPast ∅ 0 0 0 0) (ledger_new 8) in
  p.(pa_recorded) = 4 ∧ p.(pa_acked) = 3 ∧ l.(lg_stats) lost_packet_threshold = 1
  ∧ l.(lg_departed_bytes) = bytes_in_flight l.(lg_records).
Proof.
  destruct (ledger_accounts_for_everything 8 (ledger_run sample_loss (mkPast ∅ 0 0 0 0) (ledger_new 8)).1
    (ledger_run sample_loss (mkPast ∅ 0 0 0 0) (ledger_new 8)).2) as (_ & _ & Hb & _).
  - apply ledger_run_session; [constructor|]. cbn. set_solver by lia.
  - vm_compute in Hb. vm_compute. done.
Defined.

(** A late acknowledgement removes its tombstone but leaves the entry in the order of
    tombstones, which is only shortened when the tombstones exceed the capacity: on a
    path that reorders, it grows with every contradicted verdict. *)
Example tombstone_order_keeps_resolved_entries :
  let '(_, l) := ledger_run (sample_loss ++ [OAck 1 None]) (mkPast ∅ 0 0 0 0) (ledger_new 8) in
  lg_tombstones l = ∅ ∧ lg_tombstone_order l = [1].
Proof. vm_compute. done. Qed.
