(* ===== verification/LossDetection.v ===== *)
(** * The loss detector ([transport/transmission_ledger.rs]: [detect_losses_at],
      [next_loss_time])

    The detector walks the departures oldest first and stops at the first one it does
    not condemn.  The theorems: what it returns is exactly what its rules condemn, so
    stopping early misses nothing; a path that does not reorder never produces a
    verdict, however long its queue; and the wake-up time it asks for is the first
    moment at which it has a verdict to give. *)

From Stdlib Require Import ZArith Lia.
From S2P Require Import Prelude Wire EmitIds Rtt Ledger LedgerTheory.
From stdpp Require Import base option numbers list gmap sorting.

Local Open Scope Z_scope.

(** ** The rules

    The reasons of RFC 9002 section 6.1 with the window of RFC 8985, for a datagram
    that left at [at_] with index [idx], against the newest acknowledged index
    [largest]. *)

Definition packet_rule (l : TransmissionLedger) (now reo largest idx at_ : Z) : Prop :=
  idx + l.(lg_adapt).(ad_k_pkt) ≤ largest
  ∧ (inside_window l reo at_ = false
     ∨ idx + l.(lg_reo).(ro_depth) ≤ largest
     ∨ stream_quiet l now reo = true).

Definition time_rule (l : TransmissionLedger) (now thr reo : Z) (tx : Transmission) (at_ : Z) : Prop :=
  at_ + time_limit l tx at_ thr + reo ≤ now.

(** The verdict the rules give on an outstanding transmission. *)
Definition condemned (l : TransmissionLedger) (now thr largest ws : Z) (tx : Transmission) (reason : LossReason) : Prop :=
  ∃ r at_ idx, l.(lg_records) !! ws = Some r ∧ r.(lr_tx) = tx ∧ r.(lr_departed) = Some at_
    ∧ tx.(tx_dep_idx) = Some idx ∧ idx < largest
    ∧ let reo := reo_in_force l thr in
      match reason with
      | LPacket => packet_rule l now reo largest idx at_
      | LTime => ¬ packet_rule l now reo largest idx at_ ∧ time_rule l now thr reo tx at_
      | LPto => False
      end.

Definition is_verdict (x : option ReoBranch) : bool := match x with Some _ => true | None => false end.

Lemma count_rule_spec l now reo largest idx at_ : largest < 2 ^ 64 - 1 →
  is_verdict (count_rule l now reo largest idx at_) = true ↔ packet_rule l now reo largest idx at_.
Proof.
  intros HL. unfold count_rule, packet_rule. cbv zeta.
  set (k := ad_k_pkt (lg_adapt l)). set (d := ro_depth (lg_reo l)).
  destruct (inside_window l reo at_); cbn [negb].
  - destruct (Z.leb_spec (Z.min (idx + Z.max k d) (2 ^ 64 - 1)) largest); cbn.
    + split; [|done]. intros _. split; [lia|]. right. left. lia.
    + destruct (Z.leb_spec (idx + k) largest); cbn; [|split; [done|lia]].
      destruct (stream_quiet l now reo); cbn; [split; auto|]. split; [done|]. intros [_ [?|[?|?]]]; [done|lia|done].
  - destruct (Z.leb_spec (idx + k) largest); cbn; [split; auto|]. split; [done|lia].
Qed.

Lemma judge_spec l now thr largest tx at_ : largest < 2 ^ 64 - 1 →
  match judge l now thr largest tx at_ with
  | Some (LPacket, _) => packet_rule l now (reo_in_force l thr) largest (idx_of tx) at_
  | Some (LTime, _) => ¬ packet_rule l now (reo_in_force l thr) largest (idx_of tx) at_
                       ∧ time_rule l now thr (reo_in_force l thr) tx at_
  | Some (LPto, _) => False
  | None => ¬ packet_rule l now (reo_in_force l thr) largest (idx_of tx) at_
            ∧ ¬ time_rule l now thr (reo_in_force l thr) tx at_
  end.
Proof.
  intros HL. unfold judge. cbv zeta.
  pose proof (count_rule_spec l now (reo_in_force l thr) largest (idx_of tx) at_ HL) as H.
  destruct (count_rule _ _ _ _ _ _) as [[]|]; cbn in H; try (by apply H).
  unfold time_rule. destruct (Z.leb_spec (at_ + time_limit l tx at_ thr + reo_in_force l thr) now).
  - split; [|done]. intros Hp. by apply H in Hp.
  - split; [|lia]. intros Hp. by apply H in Hp.
Qed.

(** ** Stopping early misses nothing *)

(** Later departures are judged no more harshly: an earlier one that is spared, and is
    not probe material, spares everything behind it. *)
Lemma inside_window_later l reo at_ at' : at_ ≤ at' → inside_window l reo at_ = true → inside_window l reo at' = true.
Proof.
  intros Ha. unfold inside_window. rewrite !andb_true_iff. intros [? H]. split; [done|].
  destruct (la_at (lg_ack l)); [|done]. unfold sat_sub in *. rewrite Z.ltb_lt in *. lia.
Qed.

Lemma packet_rule_later l now reo largest idx at_ idx' at' : idx < idx' → at_ ≤ at' →
  packet_rule l now reo largest idx' at' → packet_rule l now reo largest idx at_.
Proof.
  intros Hi Ha [H1 H2]. split; [lia|]. destruct H2 as [H2|[H2|H2]]; [|right; left; lia|by right; right].
  left. destruct (inside_window l reo at_) eqn:E; [|done].
  by rewrite (inside_window_later l reo at_ at' Ha E) in H2.
Qed.

Lemma time_limit_ge l tx at_ thr : 0 ≤ thr → thr ≤ time_limit l tx at_ thr.
Proof. intros H. unfold time_limit, BURST_REORDER_FACTOR. destruct (is_patient l tx at_); lia. Qed.

Lemma time_rule_later l now thr reo tx at_ tx' at' : 0 ≤ thr → is_patient l tx at_ = false → at_ ≤ at' →
  time_rule l now thr reo tx' at' → time_rule l now thr reo tx at_.
Proof.
  intros Ht Hp Ha. unfold time_rule. pose proof (time_limit_ge l tx' at' thr Ht). unfold time_limit at 2. rewrite Hp. lia.
Qed.

(** The verdict on one entry of the departure order, in the state before the walk. *)
Definition verdict_of (l : TransmissionLedger) (now thr largest ws : Z) : option (Z * Transmission * LossReason) :=
  match l.(lg_records) !! ws with
  | Some (mkRecord _ (Some at_) _ tx) =>
      if largest <=? idx_of tx then None
      else match judge l now thr largest tx at_ with Some (reason, _) => Some (ws, tx, reason) | None => None end
  | _ => None
  end.

(** What [judge] looks at. *)
Definition judge_view (l : TransmissionLedger) :=
  (l.(lg_probe_bursts), l.(lg_ack), l.(lg_reo), ad_k_pkt l.(lg_adapt)).

Lemma judge_same l l' now thr largest tx at_ : judge_view l' = judge_view l →
  judge l' now thr largest tx at_ = judge l now thr largest tx at_ ∧ is_patient l' tx at_ = is_patient l tx at_.
Proof.
  intros E. injection E as E1 E2 E3 E4.
  unfold judge, count_rule, reo_in_force, time_limit, inside_window, stream_quiet, is_patient, in_probe_burst.
  by rewrite E1, E2, E3, E4.
Qed.

(** Probe material among the entries. *)
Definition patient_at (l : TransmissionLedger) (ws : Z) : bool :=
  match l.(lg_records) !! ws with
  | Some (mkRecord _ (Some at_) _ tx) => is_patient l tx at_
  | _ => false
  end.
Fixpoint patients (l : TransmissionLedger) (k : list Z) : nat :=
  match k with [] => 0 | ws :: k => (if patient_at l ws then 1 else 0) + patients l k end.

Lemma along_cons records ws k d : records !! ws ≫= dep_of = Some d → along records (ws :: k) = d :: along records k.
Proof. intros H. unfold along. cbn. by rewrite H. Qed.

Lemma along_skip records ws k : records !! ws ≫= dep_of = None → along records (ws :: k) = along records k.
Proof. intros H. unfold along. cbn. by rewrite H. Qed.

Lemma sorted_tail records ws k : StronglySorted departs_before (along records (ws :: k)) →
  StronglySorted departs_before (along records k).
Proof.
  destruct (records !! ws ≫= dep_of) as [d|] eqn:E.
  - rewrite (along_cons _ _ _ _ E). by inversion 1.
  - by rewrite (along_skip _ _ _ E).
Qed.

Lemma omap_none {A B} (f : A → option B) k : (∀ x, x ∈ k → f x = None) → omap f k = [].
Proof.
  induction k as [|x k IH]; intros H; [done|]. cbn. rewrite (H x) by left. apply IH. intros y Hy. apply H. by right.
Qed.

Lemma omap_cons_None {A B} (f : A → option B) x k : f x = None → omap f (x :: k) = omap f k.
Proof. intros H. cbn. by rewrite H. Qed.
Lemma omap_cons_Some {A B} (f : A → option B) x k y : f x = Some y → omap f (x :: k) = y :: omap f k.
Proof. intros H. cbn. by rewrite H. Qed.

(** An outstanding departure behind another one left later. *)
Lemma departs_behind p l ws ra at_ rate tx rest w ra' at' rate' tx' : session_ok p l →
  l.(lg_records) !! ws = Some (mkRecord ra (Some at_) rate tx) →
  StronglySorted departs_before (along l.(lg_records) (ws :: rest)) →
  w ∈ rest → l.(lg_records) !! w = Some (mkRecord ra' (Some at') rate' tx') →
  idx_of tx < idx_of tx' ∧ at_ ≤ at'.
Proof.
  intros Hok Hr Hs Hw Er.
  destruct (rk_rec _ _ _ _ _ _ _ (so_recs _ _ Hok) ws _ Hr) as [_ [_ (_ & idx & Hidx & _)]]. cbn in Hidx.
  destruct (rk_rec _ _ _ _ _ _ _ (so_recs _ _ Hok) w _ Er) as [_ [_ (_ & idx' & Hidx' & _)]]. cbn in Hidx'.
  rewrite (along_cons _ ws rest (idx, at_)) in Hs by (rewrite Hr; cbn; unfold dep_of; cbn; by rewrite Hidx).
  inversion Hs as [|? ? _ Hall]; subst. rewrite Forall_forall in Hall. unfold idx_of. rewrite Hidx, Hidx'.
  apply (Hall (idx', at')). unfold along. apply list_elem_of_omap. exists w. split; [done|].
  rewrite Er. cbn. unfold dep_of. cbn. by rewrite Hidx'.
Qed.

(** Behind a spared departure that is no probe material, or one that is not older than the
    newest acknowledged, everything is spared. *)
Lemma spared_behind p l now thr largest ws ra at_ rate tx rest : session_ok p l → largest < 2 ^ 64 - 1 → 0 ≤ thr →
  l.(lg_records) !! ws = Some (mkRecord ra (Some at_) rate tx) →
  StronglySorted departs_before (along l.(lg_records) (ws :: rest)) →
  (largest ≤ idx_of tx ∨ judge l now thr largest tx at_ = None ∧ is_patient l tx at_ = false) →
  omap (verdict_of l now thr largest) rest = [].
Proof.
  intros Hok HL Ht Hr Hs Hsp. apply omap_none. intros w Hw. unfold verdict_of.
  destruct (lg_records l !! w) as [[ra' [at'|] rate' tx']|] eqn:Er; [|done..].
  destruct (departs_behind p l ws ra at_ rate tx rest w ra' at' rate' tx' Hok Hr Hs Hw Er) as [Hlt Hle].
  destruct (Z.leb_spec largest (idx_of tx')) as [|Hlt']; [done|].
  destruct Hsp as [Hsp|[Hj Hp]]; [lia|].
  pose proof (judge_spec l now thr largest tx at_ HL) as J. rewrite Hj in J. destruct J as [J1 J2].
  pose proof (judge_spec l now thr largest tx' at' HL) as J'.
  destruct (judge l now thr largest tx' at') as [[[] ?]|]; [|..|done]; exfalso.
  - apply J1. by apply (packet_rule_later _ _ _ _ _ _ (idx_of tx') at').
  - destruct J' as [_ J']. apply J2. by apply (time_rule_later _ _ _ _ tx at_ tx' at').
  - done.
Qed.

Lemma declare_lost_verdict ws reason l lost r : l.(lg_records) !! ws = Some r →
  (declare_lost ws reason l lost).2 = lost ++ [(ws, lr_tx r, reason)].
Proof. intros H. unfold declare_lost. rewrite H. by destruct reason. Qed.

Lemma detect_walk_exact p l0 now thr largest rest : session_ok p l0 → largest < 2 ^ 64 - 1 → 0 ≤ thr →
  ∀ l kept stepped lost, judge_view l = judge_view l0 → NoDup rest →
  (∀ ws, ws ∈ rest → l.(lg_records) !! ws = l0.(lg_records) !! ws) →
  StronglySorted departs_before (along l0.(lg_records) rest) →
  (stepped + patients l0 rest ≤ PATIENT_SCAN_LIMIT)%nat →
  (detect_walk now thr largest kept stepped rest l lost).2 = lost ++ omap (verdict_of l0 now thr largest) rest.
Proof.
  intros Hok HL Ht. induction rest as [|ws rest IH]; intros l kept stepped lost Hv Hnd Hrec Hs Hp; cbn [detect_walk].
  { cbn. by rewrite app_nil_r. }
  apply NoDup_cons in Hnd as [Hws Hnd]. pose proof (sorted_tail _ _ _ Hs) as Hs'.
  assert (∀ w, w ∈ rest → lg_records l !! w = lg_records l0 !! w) as Hrec' by (intros w Hw; apply Hrec; by right).
  cbn [patients] in Hp. unfold patient_at in Hp.
  rewrite (Hrec ws) by left. destruct (lg_records l0 !! ws) as [[ra [at_|] rate tx]|] eqn:Er.
  - destruct (judge_same l l0 now thr largest tx at_) as [Ej Ep]; [done|].
    destruct (Z.leb_spec largest (idx_of tx)) as [Hle|Hlt].
    { cbn [snd]. rewrite omap_cons_None by (unfold verdict_of; by rewrite Er, (proj2 (Z.leb_le _ _) Hle)).
      by rewrite (spared_behind p l0 now thr largest ws ra at_ rate tx rest), app_nil_r by auto. }
    rewrite <-Ej. destruct (judge l0 now thr largest tx at_) as [[reason stat]|] eqn:Ejj.
    + set (l1 := match stat with Some s => bump s l | None => l end).
      assert (judge_view l1 = judge_view l ∧ lg_records l1 = lg_records l) as [V1 R1] by (unfold l1; by destruct stat).
      destruct (declare_lost_fields ws reason l1 lost) as (F1 & _ & F3 & F4 & F5 & F6 & _).
      pose proof (declare_lost_verdict ws reason l1 lost (mkRecord ra (Some at_) rate tx)) as F.
      rewrite R1, (Hrec ws) in F by left. specialize (F Er).
      destruct (declare_lost ws reason l1 lost) as [l2 lost2]. cbn [fst snd] in *. subst lost2.
      rewrite IH; [|..].
      * rewrite (omap_cons_Some _ ws rest (ws, tx, reason))
          by (unfold verdict_of; by rewrite Er, (proj2 (Z.leb_gt _ _) Hlt), Ejj). by rewrite <-app_assoc.
      * unfold judge_view in *. rewrite F3, F4, F5, F6. by rewrite V1.
      * done.
      * intros w Hw. rewrite F1, R1, lookup_delete_ne; [by apply Hrec'|]. by intros ->.
      * done.
      * lia.
    + rewrite <-Ep. destruct (is_patient l0 tx at_) eqn:Epat; cbn [andb].
      * rewrite (proj2 (Nat.ltb_lt _ _)) by lia. rewrite IH; try done; [|lia].
        by rewrite omap_cons_None by (unfold verdict_of; by rewrite Er, (proj2 (Z.leb_gt _ _) Hlt), Ejj).
      * cbn [snd]. rewrite omap_cons_None by (unfold verdict_of; by rewrite Er, (proj2 (Z.leb_gt _ _) Hlt), Ejj).
        by rewrite (spared_behind p l0 now thr largest ws ra at_ rate tx rest), app_nil_r by auto.
  - rewrite IH; try done.
    by rewrite omap_cons_None by (unfold verdict_of; by rewrite Er).
  - rewrite IH; try done.
    by rewrite omap_cons_None by (unfold verdict_of; by rewrite Er).
Qed.

(** ** What the detector returns *)

Lemma verdict_of_condemned p l now thr largest ws tx reason : session_ok p l → largest < 2 ^ 64 - 1 →
  verdict_of l now thr largest ws = Some (ws, tx, reason) ↔ condemned l now thr largest ws tx reason.
Proof.
  intros Hok HL. unfold verdict_of, condemned. destruct (lg_records l !! ws) as [[ra [at_|] rate tx0]|] eqn:Er.
  2,3: naive_solver.
  destruct (rk_rec _ _ _ _ _ _ _ (so_recs _ _ Hok) ws _ Er) as [_ [_ Hx]]. destruct Hx as (_ & idx & Hidx & _). cbn in Hidx.
  assert (idx_of tx0 = idx) as Eidx by (unfold idx_of; by rewrite Hidx).
  pose proof (judge_spec l now thr largest tx0 at_ HL) as J. rewrite Eidx in *. split.
  - destruct (Z.leb_spec largest idx); [done|]. intros H'.
    exists (mkRecord ra (Some at_) rate tx0), at_, idx. cbn.
    destruct (judge l now thr largest tx0 at_) as [[rs st]|]; [|done]. injection H' as <- <-.
    by split_and!.
  - intros (r & at' & idx' & [= <-] & <- & [= <-] & Hi & Hlt & Hr). cbn in Hi. rewrite Hidx in Hi. injection Hi as <-.
    rewrite (proj2 (Z.leb_gt _ _) Hlt). cbn [lr_tx] in *.
    destruct (judge l now thr largest tx0 at_) as [[[] st]|], reason; try done; tauto.
Qed.

Lemma detect_walk_records now thr largest rest : ∀ l kept stepped lost, ∃ new,
  (detect_walk now thr largest kept stepped rest l lost).2 = lost ++ new
  ∧ lg_records (detect_walk now thr largest kept stepped rest l lost).1 = foldl (λ m x, delete x.1.1 m) l.(lg_records) new.
Proof.
  induction rest as [|ws rest IH]; intros l kept stepped lost; cbn [detect_walk].
  { exists []. by rewrite app_nil_r. }
  destruct (lg_records l !! ws) as [[ra [at_|] rate tx]|] eqn:Er; [|apply IH..].
  destruct (largest <=? idx_of tx); [exists []; by rewrite app_nil_r|].
  destruct (judge _ _ _ _ _ _) as [[reason stat]|].
  - set (l1 := match stat with Some s => bump s l | None => l end).
    assert (lg_records l1 = lg_records l) as R1 by (unfold l1; by destruct stat).
    destruct (declare_lost_fields ws reason l1 lost) as (F1 & _).
    pose proof (declare_lost_verdict ws reason l1 lost (mkRecord ra (Some at_) rate tx)) as F.
    rewrite R1 in F. specialize (F Er). destruct (declare_lost ws reason l1 lost) as [l2 lost2]. cbn [fst snd lr_tx] in *. subst lost2.
    destruct (IH l2 (pass_over kept ws) stepped (lost ++ [(ws, tx, reason)])) as (new & E1 & E2).
    exists ((ws, tx, reason) :: new). rewrite E1, E2, <-app_assoc. split; [done|]. cbn. by rewrite F1, R1.
  - destruct (_ && _); [apply IH|]. exists []. by rewrite app_nil_r.
Qed.

Lemma foldl_delete_lookup (new : list (Z * Transmission * LossReason)) : ∀ (m : gmap Z LRecord) ws,
  foldl (λ m x, delete x.1.1 m) m new !! ws = if decide (ws ∈ new.*1.*1) then None else m !! ws.
Proof.
  induction new as [|x new IH]; intros m ws; cbn [foldl].
  { by rewrite decide_False by (intros H; by apply elem_of_nil in H). }
  rewrite IH, !fmap_cons. destruct (decide (ws = x.1.1)) as [->|Hne].
  - rewrite lookup_delete_eq. rewrite (decide_True (P:=x.1.1 ∈ _ :: _)) by left. by case_decide.
  - rewrite lookup_delete_ne by done. repeat case_decide; try done; set_solver.
Qed.

Lemma patients_threshold thr l k : patients (set_time_threshold thr l) k = patients l k.
Proof. induction k as [|w k IH]; cbn; [done|by rewrite IH]. Qed.

Lemma detect_is_walk p l now thr largest : session_ok p l → la_idx l.(lg_ack) = Some largest →
  largest < 2 ^ 64 - 1 → 0 ≤ thr → (patients l l.(lg_departed_order) ≤ PATIENT_SCAN_LIMIT)%nat →
  (detect_losses_at now thr l).2 = omap (verdict_of l now thr largest) l.(lg_departed_order)
  ∧ ∀ ws, lg_records (detect_losses_at now thr l).1 !! ws
          = if decide (ws ∈ ((detect_losses_at now thr l).2).*1.*1) then None else l.(lg_records) !! ws.
Proof.
  intros Hok Hla HL Ht Hp. unfold detect_losses_at. set (l0 := set_time_threshold thr l).
  pose proof (threshold_session p l thr Hok) as Hok0. fold l0 in Hok0.
  change (la_idx (lg_ack l0)) with (la_idx (lg_ack l)). rewrite Hla.
  rewrite <-(patients_threshold thr) in Hp. fold l0 in Hp.
  pose proof (detect_walk_exact p l0 now thr largest (lg_departed_order l0) Hok0 HL Ht l0 [] 0 [] eq_refl
    (rk_nodup _ _ _ _ _ _ _ (so_recs _ _ Hok0)) (λ _ _, eq_refl) (rk_sorted _ _ _ _ _ _ _ (so_recs _ _ Hok0)) Hp) as Hx.
  destruct (detect_walk_records now thr largest (lg_departed_order l0) l0 [] 0 []) as (new & Hn & Hr).
  destruct (detect_walk _ _ _ _ _ _ _ _) as [l1 lost]. cbn [fst snd] in *. split; [exact Hx|]. intros ws.
  destruct (compact_if_sparse_fields (note_episode now thr lost l1)) as (-> & _).
  assert (lg_records (note_episode now thr lost l1) = lg_records l1) as ->.
  { unfold note_episode. destruct (_ =? _); [done|]. destruct (_ && _); [|done]. by destruct (_ <=? _). }
  rewrite Hr, foldl_delete_lookup, Hn. done.
Qed.

(** C14: The detector declares lost exactly the outstanding departed transmissions that its
    rules condemn, each once: those older than the newest acknowledged departure by the
    packet threshold (outside the reordering window, or past the learned depth, or
    once the stream of acknowledgements is quiet), and otherwise those that left at
    least the time threshold ago.  Stopping at the first transmission that is spared
    misses nothing; every condemned transmission leaves the ledger, and no other
    does. *)
Theorem detect_condemns_exactly capacity p l now thr largest :
  ledger_session capacity p l → la_idx l.(lg_ack) = Some largest →
  l.(lg_next_dep_idx) < 2 ^ 64 → 0 ≤ thr → (patients l l.(lg_departed_order) ≤ PATIENT_SCAN_LIMIT)%nat →
  let '(l', lost) := detect_losses_at now thr l in
  NoDup (lost.*1.*1)
  ∧ (∀ ws tx reason, (ws, tx, reason) ∈ lost ↔ condemned l now thr largest ws tx reason)
  ∧ (∀ ws, l'.(lg_records) !! ws = if decide (ws ∈ lost.*1.*1) then None else l.(lg_records) !! ws).
Proof.
  intros H%ledger_session_ok Hla Hn Ht Hp.
  assert (largest < 2 ^ 64 - 1) as HL.
  { pose proof (so_ack _ _ H) as Ha. unfold ack_ok in Ha. rewrite Hla in Ha. lia. }
  destruct (detect_is_walk p l now thr largest H Hla HL Ht Hp) as [E Er].
  destruct (detect_losses_at now thr l) as [l' lost]. cbn [fst snd] in *. subst lost.
  assert (∀ ws x, verdict_of l now thr largest ws = Some x → x.1.1 = ws) as Hws.
  { intros ws x. unfold verdict_of. destruct (lg_records l !! ws) as [[? [?|] ? ?]|]; [|done..].
    destruct (_ <=? _); [done|]. destruct (judge _ _ _ _ _ _) as [[? ?]|]; [|done]. by intros [= <-]. }
  split_and!; [|intros ws tx reason|exact Er].
  - pose proof (rk_nodup _ _ _ _ _ _ _ (so_recs _ _ H)) as Hnd. revert Hnd. generalize (lg_departed_order l). intros k Hnd.
    induction Hnd as [|ws k Hws' Hnd IH]; [constructor|]. destruct (verdict_of l now thr largest ws) as [x|] eqn:Ex.
    + rewrite (omap_cons_Some _ _ _ _ Ex), !fmap_cons. constructor; [|done]. rewrite (Hws _ _ Ex).
      intros (y & Ey & (z & -> & (w & Hw & Hz)%list_elem_of_omap)%list_elem_of_fmap)%list_elem_of_fmap.
      apply Hws in Hz. congruence.
    + by rewrite (omap_cons_None _ _ _ Ex).
  - rewrite <-(verdict_of_condemned p l now thr largest ws tx reason H HL), list_elem_of_omap. split.
    + intros (w & Hw & Hv). pose proof (Hws _ _ Hv) as E. cbn in E. by subst.
    + intros Hv. exists ws. split; [|done]. unfold verdict_of in Hv.
      destruct (lg_records l !! ws) as [[? [?|] ? ?]|] eqn:Ew; [|done..].
      by apply (rk_departed _ _ _ _ _ _ _ (so_recs _ _ H) ws _ Ew).
Qed.

Definition before_detection : list ledger_op := take 11 sample_loss.

Lemma detect_condemns_exactly_witness :
  let l := (ledger_run before_detection (mkPast ∅ 0 0 0 0) (ledger_new 8)).2 in
  condemned l 20 1000 3 1 (mkTx 0 1200 (CTile (mkEmitKey 1 0 0 0)) (Some 0) (Some 0)) LPacket.
Proof.
  set (s := ledger_run before_detection (mkPast ∅ 0 0 0 0) (ledger_new 8)). cbv zeta.
  assert ((detect_losses_at 20 1000 s.2).2 = [(1, mkTx 0 1200 (CTile (mkEmitKey 1 0 0 0)) (Some 0) (Some 0), LPacket)]) as E
    by by vm_compute.
  pose proof (detect_condemns_exactly 8 s.1 s.2 20 1000 3) as H.
  destruct (detect_losses_at 20 1000 s.2) as [l' lost]. cbn in E. subst lost. apply H.
  - apply ledger_run_session; [constructor|]. clear. cbn. set_solver by lia.
  - by vm_compute.
  - by vm_compute.
  - done.
  - vm_compute. lia.
  - by left.
Defined.

(** ** The wake-up time *)

(** When an outstanding departure older than the newest acknowledged one is due, if
    nothing else is acknowledged. *)
Definition due_of (l : TransmissionLedger) (thr largest ws : Z) : option Z :=
  match l.(lg_records) !! ws with
  | Some (mkRecord _ (Some at_) _ tx) =>
      if largest <=? idx_of tx then None
      else
        let reo := reo_in_force l thr in
        let due := at_ + time_limit l tx at_ thr + reo in
        Some (if idx_of tx + l.(lg_adapt).(ad_k_pkt) <=? largest
              then match l.(lg_ack).(la_arrival) with
                   | Some a => if reo =? 0 then due else Z.min due (a + reo)
                   | None => due
                   end
              else due)
  | _ => None
  end.

Definition earlier (best : option Z) (d : Z) : option Z :=
  Some (match best with None => d | Some b => Z.min b d end).

Lemma foldl_earlier_keep ds : ∀ b, Forall (λ d, b ≤ d) ds → foldl earlier (Some b) ds = Some b.
Proof.
  induction ds as [|d ds IH]; intros b H; [done|]. apply Forall_cons_1 in H as [Hd H]. cbn.
  unfold earlier. rewrite Z.min_l by done. by apply IH.
Qed.

Lemma foldl_earlier ds : ∀ best, match foldl earlier best ds with
  | None => best = None ∧ ds = []
  | Some t => (best = Some t ∨ t ∈ ds) ∧ Forall (λ d, t ≤ d) ds ∧ (∀ b, best = Some b → t ≤ b)
  end.
Proof.
  induction ds as [|d ds IH]; intros best; cbn.
  { destruct best; [|done]. split_and!; [by left|done|]. intros ? [= <-]. lia. }
  specialize (IH (earlier best d)). unfold earlier in *. destruct (foldl _ _ ds) as [t|]; [|by destruct IH].
  destruct IH as (H1 & H2 & H3). specialize (H3 _ eq_refl). split_and!.
  - destruct H1 as [[= <-]|H1]; [|by right; right]. destruct best as [b|]; [|right; left].
    destruct (Z.min_spec b d) as [[_ ->]|[_ ->]]; [by left|by right; left].
  - constructor; [destruct best; lia|done].
  - intros b ->. lia.
Qed.

(** Behind a departure that is no probe material, everything is due later. *)
Lemma due_later p l thr largest ws ra at_ rate tx rest d : session_ok p l → 0 ≤ thr →
  l.(lg_records) !! ws = Some (mkRecord ra (Some at_) rate tx) →
  StronglySorted departs_before (along l.(lg_records) (ws :: rest)) →
  is_patient l tx at_ = false → due_of l thr largest ws = Some d →
  Forall (λ d', d ≤ d') (omap (due_of l thr largest) rest).
Proof.
  intros Hok Ht Hr Hs Hp Hd. apply Forall_forall. intros d' (w & Hw & Hd')%list_elem_of_omap.
  unfold due_of in Hd, Hd'. rewrite Hr in Hd.
  destruct (lg_records l !! w) as [[ra' [at'|] rate' tx']|] eqn:Er; [|done..].
  destruct (departs_behind p l ws ra at_ rate tx rest w ra' at' rate' tx' Hok Hr Hs Hw Er) as [Hlt Hle].
  pose proof (time_limit_ge l tx' at' thr Ht) as Hge.
  assert (time_limit l tx at_ thr = thr) as El by (unfold time_limit; by rewrite Hp). rewrite El in Hd.
  destruct (Z.leb_spec largest (idx_of tx)); [done|]. destruct (Z.leb_spec largest (idx_of tx')); [done|].
  set (reo := reo_in_force l thr) in *. injection Hd as <-. injection Hd' as <-.
  destruct (Z.leb_spec (idx_of tx + ad_k_pkt (lg_adapt l)) largest), (Z.leb_spec (idx_of tx' + ad_k_pkt (lg_adapt l)) largest);
    destruct (la_arrival (lg_ack l)); try destruct (reo =? 0); lia.
Qed.

Lemma next_loss_walk_least p l thr largest rest : session_ok p l → 0 ≤ thr →
  ∀ kept stepped best, StronglySorted departs_before (along l.(lg_records) rest) →
  (stepped + patients l rest ≤ PATIENT_SCAN_LIMIT)%nat →
  (next_loss_walk thr largest kept stepped rest l best).2 = foldl earlier best (omap (due_of l thr largest) rest).
Proof.
  intros Hok Ht. induction rest as [|ws rest IH]; intros kept stepped best Hs Hp; cbn [next_loss_walk]; [done|].
  pose proof (sorted_tail _ _ _ Hs) as Hs'. cbn [patients] in Hp. unfold patient_at in Hp.
  destruct (lg_records l !! ws) as [[ra [at_|] rate tx]|] eqn:Er.
  2,3: rewrite omap_cons_None by (unfold due_of; by rewrite Er); by apply IH.
  destruct (Z.leb_spec largest (idx_of tx)) as [Hle|Hlt].
  - cbn [snd]. rewrite omap_cons_None by (unfold due_of; by rewrite Er, (proj2 (Z.leb_le _ _) Hle)).
    rewrite omap_none; [done|]. intros w Hw. unfold due_of.
    destruct (lg_records l !! w) as [[ra' [at'|] rate' tx']|] eqn:Ew; [|done..].
    destruct (departs_behind p l ws ra at_ rate tx rest w ra' at' rate' tx' Hok Er Hs Hw Ew).
    by rewrite (proj2 (Z.leb_le _ _)) by lia.
  - destruct (due_of l thr largest ws) as [d|] eqn:Ed.
    2:{ unfold due_of in Ed. by rewrite Er, (proj2 (Z.leb_gt _ _) Hlt) in Ed. }
    rewrite (omap_cons_Some _ _ _ _ Ed). cbn [foldl].
    pose proof (due_later p l thr largest ws ra at_ rate tx rest d Hok Ht Er Hs) as Hl.
    set (best' := Some _). assert (best' = earlier best d) as ->.
    { unfold best', earlier. do 2 f_equal. unfold due_of in Ed. rewrite Er, (proj2 (Z.leb_gt _ _) Hlt) in Ed.
      injection Ed as <-. done. }
    destruct (is_patient l tx at_) eqn:Epat; cbn [negb orb].
    + rewrite (proj2 (Nat.leb_gt _ _)) by lia. apply IH; [done|lia].
    + cbn [snd]. unfold earlier at 1 2. symmetry. apply foldl_earlier_keep.
      eapply Forall_impl; [by apply Hl|]. intros d' ?. cbn in *. destruct best; lia.
Qed.

(** A departure that is spared now is condemned from the moment it is due on. *)
Lemma verdict_due l now0 now thr largest ws : largest < 2 ^ 64 - 1 →
  verdict_of l now0 thr largest ws = None → now0 ≤ now →
  verdict_of l now thr largest ws = None ↔ ∀ d, due_of l thr largest ws = Some d → now < d.
Proof.
  intros HL. unfold verdict_of, due_of. destruct (lg_records l !! ws) as [[ra [at_|] rate tx]|]; [|done..].
  destruct (Z.leb_spec largest (idx_of tx)) as [|Hlt]; [done|]. cbv zeta. intros H0 Hnow.
  pose proof (judge_spec l now0 thr largest tx at_ HL) as J0. destruct (judge l now0 _ _ _ _) as [[]|]; [done|].
  pose proof (judge_spec l now thr largest tx at_ HL) as J. set (reo := reo_in_force l thr) in *.
  set (d := if _ <=? _ then _ else _). destruct J0 as [P0 T0].
  assert (d ≤ now ↔ packet_rule l now reo largest (idx_of tx) at_ ∨ time_rule l now thr reo tx at_) as Hd.
  { unfold packet_rule, time_rule, stream_quiet, sat_sub in *. unfold d.
    destruct (Z.leb_spec (idx_of tx + ad_k_pkt (lg_adapt l)) largest) as [Hk|Hk]; [|split; [auto|lia]].
    destruct (inside_window l reo at_) eqn:Ew; [|tauto].
    destruct (la_arrival (lg_ack l)) as [a|]; [|tauto]. rewrite Z.leb_le in *.
    destruct (Z.eqb_spec reo 0) as [Ez|Ez]; [unfold inside_window in Ew; by rewrite Ez in Ew|].
    split; [|lia]. intros Hx. destruct (Z.min_spec (at_ + time_limit l tx at_ thr + reo) (a + reo)) as [[_ E]|[_ E]]; lia. }
  split.
  - destruct (judge l now _ _ _ _) as [[? ?]|]; [done|]. intros _ ? [= <-]. apply Z.lt_nge. tauto.
  - intros H. specialize (H _ eq_refl). apply Z.lt_nge in H.
    destruct (judge l now _ _ _ _) as [[[] ?]|]; tauto.
Qed.

Lemma omap_nil_iff {A B} (f : A → option B) k : omap f k = [] ↔ ∀ x, x ∈ k → f x = None.
Proof.
  split; [|apply omap_none]. intros H x Hx. destruct (f x) as [y|] eqn:E; [|done].
  assert (y ∈ omap f k) as Hy by (apply list_elem_of_omap; eauto). rewrite H in Hy. by apply elem_of_nil in Hy.
Qed.

(** C29: The wake-up time is exact: when the detector has nothing to declare now, then as long
    as nothing else is sent or acknowledged it has nothing to declare before the time that
    [next_loss_time] returns, and has something to declare at that time and ever after;
    when it returns none, there is nothing to wait for. *)
Theorem next_loss_time_exact capacity p l now0 now thr :
  ledger_session capacity p l → l.(lg_next_dep_idx) < 2 ^ 64 → 0 ≤ thr →
  (patients l l.(lg_departed_order) ≤ PATIENT_SCAN_LIMIT)%nat →
  (detect_losses_at now0 thr l).2 = [] → now0 ≤ now →
  (detect_losses_at now thr l).2 = [] ↔
  match (next_loss_time thr l).2 with None => True | Some t => now < t end.
Proof.
  intros H%ledger_session_ok Hn Ht Hp H0 Hnow. unfold next_loss_time.
  change (lg_ack (set_time_threshold thr l)) with (lg_ack l). destruct (la_idx (lg_ack l)) as [largest|] eqn:Hla.
  2:{ unfold detect_losses_at. change (lg_ack (set_time_threshold thr l)) with (lg_ack l). by rewrite Hla. }
  assert (largest < 2 ^ 64 - 1) as HL.
  { pose proof (so_ack _ _ H) as Ha. unfold ack_ok in Ha. rewrite Hla in Ha. lia. }
  rewrite (proj1 (detect_is_walk p l now thr largest H Hla HL Ht Hp)).
  rewrite (proj1 (detect_is_walk p l now0 thr largest H Hla HL Ht Hp)) in H0.
  rewrite (next_loss_walk_least p) by (rewrite ?patients_threshold; auto using threshold_session; apply (so_recs _ _ H)).
  change (due_of (set_time_threshold thr l)) with (due_of l).
  change (lg_departed_order (set_time_threshold thr l)) with (lg_departed_order l).
  rewrite omap_nil_iff in *.
  pose proof (foldl_earlier (omap (due_of l thr largest) (lg_departed_order l)) None) as Hf.
  destruct (foldl _ _ _) as [t|].
  - destruct Hf as ([?|(w & Hw & Hd)%list_elem_of_omap] & Hall & _); [done|]. split.
    + intros Hno. by apply (verdict_due l now0 now thr largest w); auto.
    + intros Hlt ws Hws. apply (verdict_due l now0); [auto..|]. intros d Hd'.
      rewrite Forall_forall in Hall. assert (t ≤ d); [|lia]. apply Hall, list_elem_of_omap. eauto.
  - destruct Hf as [_ Hf]. rewrite omap_nil_iff in Hf. split; [done|]. intros _ ws Hws.
    apply (verdict_due l now0); [auto..|]. intros d Hd. by rewrite (Hf ws Hws) in Hd.
Qed.

Lemma next_loss_time_exact_witness :
  let l := (ledger_run [ORecord 1 0 sample_tx; ORecord 2 0 sample_tx; ODepart 1 10 0; ODepart 2 12 0; OAck 2 None]
              (mkPast ∅ 0 0 0 0) (ledger_new 8)).2 in
  (next_loss_time 1000 l).2 = Some 1010 ∧ ((detect_losses_at 1009 1000 l).2 = [] ↔ 1009 < 1010).
Proof.
  set (s := ledger_run _ _ _). cbv zeta. assert ((next_loss_time 1000 s.2).2 = Some 1010) as E by by vm_compute.
  split; [exact E|]. pose proof (next_loss_time_exact 8 s.1 s.2 20 1009 1000) as H. rewrite E in H. apply H.
  - apply ledger_run_session; [constructor|]. clear. cbn. set_solver by lia.
  - by vm_compute.
  - done.
  - vm_compute. lia.
  - by vm_compute.
  - done.
Defined.

(** ** A path that keeps the order *)

(** The departure index of a transmission the ledger still knows. *)
Definition sent_index (l : TransmissionLedger) (ws : Z) : option Z :=
  match l.(lg_records) !! ws with
  | Some r => r.(lr_tx).(tx_dep_idx)
  | None => l.(lg_tombstones) !! ws ≫= λ t, t.(tb_tx).(tx_dep_idx)
  end.

(** What is acknowledged left no later than anything still outstanding. *)
Definition in_order_op (l : TransmissionLedger) (op : ledger_op) : Prop :=
  match op with
  | OAck ws _ => ∀ i w r d, sent_index l ws = Some i → l.(lg_records) !! w = Some r → dep_of r = Some d → i ≤ d.1
  | _ => True
  end.

Inductive in_order_session (capacity : nat) : Past → TransmissionLedger → Prop :=
| io_start clock : in_order_session capacity (mkPast ∅ clock 0 0 0) (ledger_new capacity)
| io_step p l op : in_order_session capacity p l → op_allowed p op → in_order_op l op →
    in_order_session capacity (past_step op l p) (ledger_step op l).

Lemma in_order_is_session capacity p l : in_order_session capacity p l → ledger_session capacity p l.
Proof. induction 1; by constructor. Qed.

Definition nothing_overtaken (l : TransmissionLedger) : Prop :=
  ∀ x ws r d, l.(lg_ack).(la_idx) = Some x → l.(lg_records) !! ws = Some r → dep_of r = Some d → x ≤ d.1.

(** An operation that moves no reference and departs nothing but new indices. *)
Definition keeps_pace (l l' : TransmissionLedger) : Prop :=
  lg_ack l' = lg_ack l ∧ ∀ ws r' d, l'.(lg_records) !! ws = Some r' → dep_of r' = Some d →
    (∃ r, l.(lg_records) !! ws = Some r ∧ dep_of r = Some d) ∨ l.(lg_next_dep_idx) ≤ d.1.

Lemma keeps_pace_sub l l' : lg_ack l' = lg_ack l → lg_records l' ⊆ lg_records l → keeps_pace l l'.
Proof. intros Ha Hs. split; [done|]. intros ws r' d Hr Hd. left. exists r'. split; [|done]. by eapply lookup_weaken. Qed.

Lemma overtaken_pace p l l' : session_ok p l → nothing_overtaken l → keeps_pace l l' → nothing_overtaken l'.
Proof.
  intros H Hn [Ha Hr] x ws r' d Hx Hw Hd. rewrite Ha in Hx. destruct (Hr ws r' d Hw Hd) as [(r & Er & Ed)|Hge].
  - by eapply Hn.
  - pose proof (so_ack _ _ H) as Hok. unfold ack_ok in Hok. rewrite Hx in Hok. lia.
Qed.

Lemma detect_walk_spares now thr largest rest : ∀ l kept stepped lost,
  (∀ ws ra at_ rate tx, l.(lg_records) !! ws = Some (mkRecord ra (Some at_) rate tx) → largest ≤ idx_of tx) →
  (detect_walk now thr largest kept stepped rest l lost).2 = lost
  ∧ lg_ack (detect_walk now thr largest kept stepped rest l lost).1 = lg_ack l
  ∧ lg_records (detect_walk now thr largest kept stepped rest l lost).1 = lg_records l.
Proof.
  induction rest as [|ws rest IH]; intros l kept stepped lost H; cbn [detect_walk]; [done|].
  destruct (lg_records l !! ws) as [[ra [at_|] rate tx]|] eqn:Er; [|by apply IH..].
  by rewrite (proj2 (Z.leb_le _ _) (H ws ra at_ rate tx Er)).
Qed.

Lemma next_loss_walk_fields thr largest rest : ∀ l kept stepped best,
  lg_ack (next_loss_walk thr largest kept stepped rest l best).1 = lg_ack l
  ∧ lg_records (next_loss_walk thr largest kept stepped rest l best).1 = lg_records l.
Proof.
  induction rest as [|ws rest IH]; intros l kept stepped best; cbn [next_loss_walk]; [done|].
  destruct (lg_records l !! ws) as [[ra [at_|] rate tx]|]; [|apply IH..].
  destruct (largest <=? idx_of tx); [done|]. destruct (negb _ || _); [done|apply IH].
Qed.

Lemma evict_records_sub order : ∀ l,
  lg_ack (evict_records order l) = lg_ack l ∧ lg_records (evict_records order l) ⊆ lg_records l.
Proof.
  induction order as [|o order IH]; intros l; cbn [evict_records]; cbv zeta; (destruct (_ <=? _)%nat; [done|]); [done|].
  cbn [lg_records set_order]. destruct (lg_records l !! o) as [r|] eqn:Er.
  - match goal with |- context [evict_records order ?x] => destruct (IH x) as [-> Hs]; set (e := evict_records order x) in *; clearbody e end.
    unfold leave in *. split; [by destruct (is_departed r), (lr_departed r)|]. etrans; [exact Hs|].
    destruct (is_departed r), (lr_departed r); apply delete_subseteq.
  - destruct (IH (set_order (o :: order) l)) as [-> Hs]. done.
Qed.

Lemma note_spurious_ack n l : lg_ack (note_spurious n l) = lg_ack l ∧ lg_records (note_spurious n l) = lg_records l.
Proof. unfold note_spurious. destruct (_ <=? _); [done|]. destruct (_ && _); [|done]. by destruct (negb _ && _). Qed.

Lemma learn_ack now m e d l : lg_ack (learn_reordering now m e d l) = lg_ack l
  ∧ lg_records (learn_reordering now m e d l) = lg_records l.
Proof. unfold learn_reordering. cbn [ro_freeze]. destruct (ro_freeze _); [done|]. by destruct (_ && _). Qed.

Lemma advance_ack i at_ arr l : lg_records (advance_largest_acked i at_ arr l) = lg_records l
  ∧ (la_idx (lg_ack (advance_largest_acked i at_ arr l)) = la_idx (lg_ack l)
     ∨ la_idx (lg_ack (advance_largest_acked i at_ arr l)) = Some i).
Proof. unfold advance_largest_acked. destruct (match la_idx _ with None => _ | Some x => _ end); auto. Qed.

(** An acknowledgement moves the reference at most to what it acknowledges. *)
Lemma resolve_reference ws ack l : lg_records (resolve_at ws ack l).1 ⊆ lg_records l
  ∧ (la_idx (lg_ack (resolve_at ws ack l).1) = la_idx (lg_ack l)
     ∨ la_idx (lg_ack (resolve_at ws ack l).1) = sent_index l ws).
Proof.
  unfold resolve_at, sent_index. destruct (lg_records l !! ws) as [r|] eqn:Er.
  - cbn [fst]. set (l0 := set_records _ l). set (l1 := match tx_dep_idx _ with Some _ => _ | None => _ end).
    assert (lg_records l1 = lg_records l0 ∧ (la_idx (lg_ack l1) = la_idx (lg_ack l0) ∨ la_idx (lg_ack l1) = tx_dep_idx (lr_tx r)))
      as [E1 E2].
    { unfold l1. destruct (tx_dep_idx (lr_tx r)) as [i|]; [|auto]. destruct (lr_departed r) as [d|]; [|auto].
      destruct (is_pad _); [auto|]. apply advance_ack. }
    split.
    + assert (lg_records (leave r l1) = lg_records l1) as -> by (unfold leave; by destruct (lr_departed r)).
      rewrite E1. apply delete_subseteq.
    + assert (lg_ack (leave r l1) = lg_ack l1) as -> by (unfold leave; by destruct (lr_departed r)). exact E2.
  - destruct (lg_tombstones l !! ws) as [t|] eqn:Et; [|cbn; auto]. cbn [mbind option_bind].
    destruct (match tb_largest_idx_at_verdict t with Some x => _ | None => _ end) as [disp extent].
    set (l1 := bump spurious_losses _). assert (lg_records l1 = lg_records l ∧ lg_ack l1 = lg_ack l) as [<- <-] by done.
    set (known := _ && _). clearbody known. clearbody l1.
    set (l2 := match tx_dep_idx _ with Some idx => _ | None => l1 end).
    assert (lg_records l2 = lg_records l1 ∧ (la_idx (lg_ack l2) = la_idx (lg_ack l1) ∨ la_idx (lg_ack l2) = tx_dep_idx (tb_tx t)))
      as [<- E2].
    { unfold l2. destruct (tx_dep_idx (tb_tx t)) as [i|]; [|auto]. destruct (tb_departed t) as [d|]; [|auto].
      destruct (is_pad _); [auto|]. apply advance_ack. }
    clearbody l2. destruct (fec_possible l2 ws ack); [done|]. set (l3 := set_stat spurious_gap_us_max _ _).
    assert (lg_records l3 = lg_records l2 ∧ lg_ack l3 = lg_ack l2) as [<- E3] by done. rewrite <-E3 in E2. clearbody l3.
    cbn [fst]. set (l4 := if known then _ else l3).
    assert (lg_records l4 = lg_records l3 ∧ lg_ack l4 = lg_ack l3) as [<- E4].
    { unfold l4. destruct known; [|done]. destruct (_ && _); [done|]. rewrite !(proj1 (learn_ack _ _ _ _ _)), !(proj2 (learn_ack _ _ _ _ _)). done. }
    rewrite <-E4 in E2. destruct (tb_packet_verdict_no t) as [n|]; [|done].
    destruct (note_spurious_ack n l4) as [-> ->]. done.
Qed.

Lemma record_pace ws at_ tx l : l.(lg_records) !! ws = None → keeps_pace l (ledger_record ws at_ tx l).
Proof.
  intros Hn. unfold ledger_record. rewrite Hn. cbv zeta. set (l0 := set_records _ l).
  destruct (evict_records_sub (lg_order l0 ++ [ws]) l0) as [Ea Hs]. set (l1 := evict_records _ _) in *. clearbody l1.
  destruct (compact_if_sparse_fields l1) as (Er & _ & _ & _ & _ & _ & _ & Eb & _). cbn in Ea.
  split; [by rewrite Eb, Ea|]. rewrite Er.
  intros w r' d Hw Hd. eapply lookup_weaken in Hw; [|exact Hs]. cbn in Hw.
  apply lookup_insert_Some in Hw as [[-> <-]|[_ Hw]]; [done|]. left. eauto.
Qed.

Lemma depart_pace ws at_ us l : keeps_pace l (mark_departed ws at_ us l).1.
Proof.
  unfold mark_departed. destruct (lg_records l !! ws) as [r|] eqn:Er; [|by apply keeps_pace_sub].
  destruct (is_departed r); [by apply keeps_pace_sub|]. cbn [fst]. split; [done|]. intros w r' d Hw Hd. cbn in Hw.
  apply lookup_insert_Some in Hw as [[-> <-]|[_ Hw]]; [|left; eauto]. right. cbn in Hd. injection Hd as <-. done.
Qed.

Lemma rate_pace ws make l : keeps_pace l (mark_rate ws make l).
Proof.
  unfold mark_rate. destruct (lg_records l !! ws) as [r|] eqn:Er; [|by apply keeps_pace_sub].
  destruct (lr_departed r) eqn:Ed, (lr_rate r), (tx_dep_idx (lr_tx r)) eqn:Ei; try by apply keeps_pace_sub.
  split; [done|]. intros w r' d Hw Hd. cbn in Hw. apply lookup_insert_Some in Hw as [[-> <-]|[_ Hw]]; left; [|eauto].
  exists r. split; [done|]. rewrite <-Hd. unfold dep_of. cbn. by rewrite Ed.
Qed.

Lemma overtaken_walks p l x : session_ok p l → nothing_overtaken l → la_idx (lg_ack l) = Some x →
  ∀ ws ra at_ rate tx, l.(lg_records) !! ws = Some (mkRecord ra (Some at_) rate tx) → x ≤ idx_of tx.
Proof.
  intros H Hn Hx ws ra at_ rate tx Hr. destruct (rk_rec _ _ _ _ _ _ _ (so_recs _ _ H) ws _ Hr) as [_ [_ (_ & i & Hi & _)]].
  cbn in Hi. unfold idx_of. rewrite Hi. apply (Hn x ws _ (i, at_) Hx Hr). unfold dep_of. cbn. by rewrite Hi.
Qed.

Lemma detect_spares p l now thr : session_ok p l → nothing_overtaken l →
  (detect_losses_at now thr l).2 = [] ∧ keeps_pace l (detect_losses_at now thr l).1.
Proof.
  intros H Hn. unfold detect_losses_at. change (lg_ack (set_time_threshold thr l)) with (lg_ack l).
  destruct (la_idx (lg_ack l)) as [x|] eqn:Hx; [|by split; [|apply keeps_pace_sub]].
  destruct (detect_walk_spares now thr x (lg_departed_order (set_time_threshold thr l)) (set_time_threshold thr l) [] 0 [])
    as (E1 & E2 & E3); [by eapply (overtaken_walks p l)|].
  destruct (detect_walk _ _ _ _ _ _ _ _) as [l1 lost]. cbn [fst snd] in *. split; [done|].
  destruct (compact_if_sparse_fields (note_episode now thr lost l1)) as (F1 & _ & _ & _ & _ & _ & _ & F2 & _).
  assert (lg_records (note_episode now thr lost l1) = lg_records l1 ∧ lg_ack (note_episode now thr lost l1) = lg_ack l1) as [F3 F4].
  { unfold note_episode. destruct (_ =? _); [done|]. destruct (_ && _); [|done]. by destruct (_ <=? _). }
  apply keeps_pace_sub; [by rewrite F2, F4, E2|by rewrite F1, F3, E3].
Qed.

Lemma step_overtakes_nothing p l op : session_ok p l → op_allowed p op → in_order_op l op →
  nothing_overtaken l → nothing_overtaken (ledger_step op l).
Proof.
  intros H Ha Hi Hn. destruct op; cbn [ledger_step]; cbn in Hi.
  4:{ destruct (resolve_reference ws ack l) as [Hs [E|E]]; intros x w r d Hx Hw Hd;
        (eapply lookup_weaken in Hw; [|exact Hs]); rewrite E in Hx; [by eapply Hn|by eapply Hi]. }
  all: apply (overtaken_pace p l); [done..|].
  - apply record_pace. destruct (lg_records l !! ws) as [r|] eqn:E; [|done].
    destruct Ha as [Ha _]. by destruct (rk_rec _ _ _ _ _ _ _ (so_recs _ _ H) ws r E).
  - apply depart_pace.
  - apply rate_pace.
  - by apply (detect_spares p).
  - unfold next_loss_time. destruct (la_idx _); [|by apply keeps_pace_sub]. apply keeps_pace_sub; by rewrite
      ?(proj1 (next_loss_walk_fields _ _ _ _ _ _ _)), ?(proj2 (next_loss_walk_fields _ _ _ _ _ _ _)).
  - unfold declare_lost_by_pto. destruct (declare_lost_fields ws LPto l []) as (E1 & _ & _ & E2 & _).
    destruct (declare_lost _ _ _ _). apply keeps_pace_sub; [done|]. cbn in *. rewrite E1. apply delete_subseteq.
  - unfold forget_outstanding, leave. destruct (lg_records l !! ws) as [r|]; [|by apply keeps_pace_sub].
    destruct (lr_departed r); (apply keeps_pace_sub; [done|apply delete_subseteq]).
  - rewrite forget_undeparted_take. unfold take_undeparted. destruct (lg_records l !! ws) as [r|]; [|by apply keeps_pace_sub].
    destruct (is_departed r); [by apply keeps_pace_sub|]. apply keeps_pace_sub; [done|apply delete_subseteq].
  - unfold take_undeparted. destruct (lg_records l !! ws) as [r|]; [|by apply keeps_pace_sub].
    destruct (is_departed r); [by apply keeps_pace_sub|]. apply keeps_pace_sub; [done|apply delete_subseteq].
  - apply keeps_pace_sub; [done|]. apply map_filter_subseteq.
  - unfold note_parity_departed. destruct (prune_parity _ _ _ _). by apply keeps_pace_sub.
  - unfold mark_probe_burst. destruct (last _) as [[? ?]|]; [destruct (_ <=? _)|]; by apply keeps_pace_sub.
  - unfold scan_outstanding. destruct (_ =? 0)%nat; destruct (scan_walk _ _ _ _ _ _ _ _); by apply keeps_pace_sub.
  - by apply keeps_pace_sub.
Qed.

(** C21: On a path that keeps the order -- what is acknowledged left no later than anything
    still outstanding -- the detector never gives a verdict, whatever the thresholds and
    however late the acknowledgements, and never asks to be woken. *)
Theorem in_order_never_lost capacity p l now thr : in_order_session capacity p l →
  (detect_losses_at now thr l).2 = [] ∧ (next_loss_time thr l).2 = None.
Proof.
  intros H. assert (session_ok p l ∧ nothing_overtaken l) as [Hok Hn].
  { split; [by eapply ledger_session_ok, in_order_is_session|]. induction H as [|p l op H IH Ho Hi]; [done|].
    eapply step_overtakes_nothing; [by eapply ledger_session_ok, in_order_is_session|done..]. }
  split; [by apply (detect_spares p)|]. unfold next_loss_time.
  change (lg_ack (set_time_threshold thr l)) with (lg_ack l). destruct (la_idx (lg_ack l)) as [x|] eqn:Hx; [|done].
  pose proof (overtaken_walks p l x Hok Hn Hx) as Hall. set (l0 := set_time_threshold thr l).
  generalize (lg_departed_order l0). generalize (@nil Z) as kept. intros kept k. revert kept.
  induction k as [|ws k IH]; intros kept; cbn [next_loss_walk]; [done|].
  change (lg_records l0) with (lg_records l). destruct (lg_records l !! ws) as [[ra [at_|] rate tx]|] eqn:Er; [|apply IH..].
  by rewrite (proj2 (Z.leb_le _ _) (Hall ws ra at_ rate tx Er)).
Qed.

Lemma in_order_never_lost_witness :
  let l := (ledger_run [ORecord 1 0 sample_tx; ORecord 2 0 sample_tx; ODepart 1 10 0; ODepart 2 12 0; OAck 1 None]
              (mkPast ∅ 0 0 0 0) (ledger_new 8)).2 in
  (detect_losses_at (10 ^ 18) 1000 l).2 = [] ∧ size l.(lg_records) = 1%nat.
Proof.
  cbv zeta. split; [|by vm_compute]. set (s := ledger_run _ _ _).
  refine (proj1 (in_order_never_lost 8 s.1 s.2 (10 ^ 18) 1000 _)). unfold s. clear s. cbn [ledger_run fst snd].
  apply io_step; [repeat (apply io_step; [| |done])|done|]; [apply io_start|cbn; set_solver by lia..|].
  intros i w r d Hi Hr Hd. vm_compute in Hi. injection Hi as <-.
  set (s := ledger_run [ORecord 1 0 sample_tx; ORecord 2 0 sample_tx; ODepart 1 10 0; ODepart 2 12 0]
              (mkPast ∅ 0 0 0 0) (ledger_new 8)).
  assert (ledger_session 8 s.1 s.2) as Hs.
  { apply ledger_run_session; [constructor|]. clear. cbn. set_solver by lia. }
  destruct (rk_rec _ _ _ _ _ _ _ (so_recs _ _ (ledger_session_ok 8 _ _ Hs)) w r Hr) as [_ [_ Hk]].
  unfold dep_of in Hd. destruct (lr_departed r); [|by destruct (tx_dep_idx (lr_tx r))].
  destruct Hk as (_ & j & Hj & Hk & _). rewrite Hj in Hd. by injection Hd as <-.
Defined.
