(* ===== verification/EmitterRequests.v ===== *)
(** * What the reliable emitter does with requests

    On any state a session ([EmitterSession]) reaches: the NACK and loss loops under their
    budget, the deferred passes, the drain; and the one request that is lost. *)

From Stdlib Require Import ZArith Lia.
From S2P Require Import Prelude Wire EmitIds RetxCache FrameCache EmissionQueue Rtt Emitter EmitterSession.
From stdpp Require Import base option numbers list gmap sets sorting.

Local Open Scope Z_scope.

(** ** The state of a session *)

(** [e] is what some session made of a new emitter. *)
Definition reached (env : EmitterEnv) (t0 : Z) (ops : list emit_op) (e : ReliableTileEmitter) : Prop :=
  ∃ out, emit_run env (emitter_new t0) ops = Ok (e, out).

Lemma reached_ok env t0 ops : Forall emit_op_ok ops →
  ∃ e tx out, emit_run env (emitter_new t0) ops = Ok (e, (tx, out)) ∧ session_ok (submissions ops) tx out e.
Proof. intros Hops. by apply (emit_run_ok env (submissions ops) ops [] [] _ (session_new _ t0) Hops). Qed.

Lemma reached_session env t0 ops e : Forall emit_op_ok ops → reached env t0 ops e →
  ∃ tx out, session_ok (submissions ops) tx out e.
Proof.
  intros Hops [o E]. destruct (reached_ok env t0 ops Hops) as (e' & tx & out & E' & H). rewrite E in E'.
  injection E' as <- _. by exists tx, out.
Qed.

(** ** Retransmitting under a budget *)

Lemma wire_cost_app o l k : wire_cost o (l ++ k) = wire_cost o l + wire_cost o k.
Proof. induction l as [|t l IH]; cbn in *; [done|]. unfold wire_cost in *. cbn. lia. Qed.

Lemma wire_cost_nonneg o l : 0 ≤ wire_cost o l.
Proof. induction l as [|t l IH]; unfold wire_cost in *; cbn in *; lia. Qed.

Lemma NoDup_fmap_filter {A B} (f : A → B) (P : A → Prop) `{!∀ x, Decision (P x)} (l : list A) :
  NoDup (f <$> l) → NoDup (f <$> filter P l).
Proof.
  induction l as [|x l IH]; [done|]. rewrite fmap_cons. intros [Hx Hl]%NoDup_cons. rewrite filter_cons.
  case_decide; [|by apply IH]. rewrite fmap_cons. constructor; [|by apply IH].
  intros (y & Hy & [_ Hin]%list_elem_of_filter)%list_elem_of_fmap. apply Hx, list_elem_of_fmap. by exists y.
Qed.

(** One budget over the two loops: the loss loop has what the NACK loop left. *)
Lemma budget_app mr mb o n1 s1 n2 s2 l k : within_budget mr mb o 0 0 s1 n1 l →
  within_budget mr (sat_sub mb s1) o 0 n1 s2 n2 k → within_budget mr mb o 0 0 (s1 + s2) n2 (l ++ k).
Proof.
  intros (-> & -> & Hl) (-> & -> & Hk). unfold within_budget. rewrite length_app, wire_cost_app. split_and!; [lia|lia|].
  intros pre t post E. apply app_eq_inv in E as [(k1 & -> & E)|(k1 & -> & Hkk)].
  - destruct k1 as [|x k1].
    + rewrite app_nil_r in *. destruct (Hk [] t post (eq_sym E)) as [H1 H2]. unfold sat_sub in H2. cbn in *. lia.
    + injection E as <- E. by apply (Hl pre t k1).
  - destruct (Hk k1 t post Hkk) as [H1 H2]. rewrite length_app, wire_cost_app. unfold sat_sub in H2.
    pose proof (wire_cost_nonneg o k1). lia.
Qed.

(** C11: Whatever the session was, a tick serves the NACKs first and the loss path with what
    they left of the budget, each in the order of the requests; every pass asked for
    and still cached goes out once for its NACK, and once for the loss path if the
    judged transmission is still its newest; nothing else goes out; only the last
    datagram can go over the budget of bytes, none over that of retransmissions; and
    a tick that leaves a request waiting has used its budget up. *)
Theorem tick_serves_requests env t0 ops e now mr mb : Forall emit_op_ok ops → reached env t0 ops e →
  ∃ e1 e' total n1 s1 nacked asked repairs resends,
    tick_nacks_budgeted now mr mb 0 e = Ok (e1, s1, n1) ∧ tick_budgeted now mr mb e = Ok (e', total)
    ∧ em_pending_nacks e = nacked ++ em_pending_nacks e' ∧ em_pending_loss e = asked ++ em_pending_loss e'
    ∧ em_transmissions e' = em_transmissions e ++ repairs ++ resends
    ∧ ed_content <$> repairs = CTile <$> filter (cached e) nacked ∧ NoDup (ed_content <$> repairs)
    ∧ ed_content <$> resends = (filter (λ r, current e1 r.1.1 r.2) asked).*1.*1 ∧ NoDup (ed_content <$> resends)
    ∧ total = wire_cost (em_wire_overhead e) (repairs ++ resends)
    ∧ (∀ pre t post, repairs ++ resends = pre ++ t :: post →
         Z.of_nat (length pre) < mr ∧ wire_cost (em_wire_overhead e) pre < mb)
    ∧ (Z.of_nat (length (repairs ++ resends)) < mr → total < mb → em_pending_nacks e' = [] ∧ em_pending_loss e' = []).
Proof.
  intros Hops Hr. destruct (reached_session _ _ _ _ Hops Hr) as (tx & out & He).
  destruct (tick_nacks_spec (submissions ops) tx out now mr mb (em_pending_nacks e) e 0 0) as
    (e1 & s1 & n1 & E1 & He1 & Ho1 & Hl1 & nacked & repairs & Hp1 & Ht1 & Hc1 & Hb1 & Hx1); [by destruct He|].
  destruct (tick_loss_spec (submissions ops) tx out now mr (sat_sub mb s1) (em_pending_loss e1) e1 0 n1) as
    (e' & s2 & n2 & E2 & He' & Ho2 & Hn2 & asked & resends & Hp2 & Ht2 & Hc2 & Hb2 & Hx2); [by destruct He1|].
  rewrite Ho1 in Hb2. pose proof (budget_app _ _ _ _ _ _ _ _ _ Hb1 Hb2) as (Hn & Htot & Hbud).
  exists e1, e', (s1 + s2), n1, s1, nacked, asked, repairs, resends. split_and!.
  - exact E1.
  - unfold tick_budgeted, tick_nacks_budgeted, tick_loss_budgeted. rewrite E1, bind_Ok, E2, bind_Ok. done.
  - by rewrite Hn2.
  - by rewrite <-Hl1.
  - by rewrite Ht2, Ht1, <-app_assoc.
  - exact Hc1.
  - rewrite Hc1. apply NoDup_fmap_2_strong; [by intros ? ? _ _ [= ->]|]. apply NoDup_filter.
    pose proof (rq_nacks _ _ _ _ _ (so_requests _ _ _ _ He)) as H. rewrite Hp1 in H. by apply NoDup_app in H as (? & _).
  - exact Hc2.
  - rewrite Hc2. pose proof (rq_loss _ _ _ _ _ (so_requests _ _ _ _ He1)) as H. rewrite Hp2, !fmap_app in H.
    apply NoDup_app in H as (H & _). rewrite <-list_fmap_compose in *. by apply NoDup_fmap_filter.
  - lia.
  - intros pre t post E. apply Hbud in E. lia.
  - intros Hlt Hs. assert (n2 < mr) as Hlt2 by lia. destruct Hb2 as (Hn2' & Hs2 & _). rewrite Hn2.
    pose proof (wire_cost_nonneg (em_wire_overhead e) resends). unfold sat_sub in Hx2.
    destruct Hx1 as [Hx1|Hx1]; [|lia]. destruct Hx2 as [Hx2|Hx2]; [done|lia].
Qed.

Lemma tick_serves_requests_witness :
  ∃ ops e e' total, Forall emit_op_ok ops ∧ reached sample_env 0 ops e ∧ tick_budgeted 9000000 8 30 e = Ok (e', total)
    ∧ total ≤ 42.
Proof.
  set (ops := take 4 sample_session).
  assert (Forall emit_op_ok ops) as Hops by (apply Forall_take, sample_session_ok).
  destruct (reached_ok sample_env 0 ops Hops) as (e & tx & out & E & _).
  assert (reached sample_env 0 ops e) as Hr by (by eexists).
  destruct (tick_serves_requests sample_env 0 ops e 9000000 8 30 Hops Hr) as (e1 & e' & total & n1 & s1 & H1 & H2 & H3 & H4 & _ & H5 & H6 & H7 & _).
  exists ops, e, e', total. split; [exact Hops|]. split; [exact Hr|]. split; [exact H5|].
  assert (match emit_run sample_env (emitter_new 0) ops with
          | Ok (e, _) => match tick_budgeted 9000000 8 30 e with Ok (_, t) => t <=? 42 | _ => false end
          | _ => false end = true) as Ht by (vm_compute; reflexivity).
  rewrite E, H5 in Ht. by apply Z.leb_le in Ht.
Defined.

(** ** Deferred passes *)

(** The passes a verdict deferred come back by deadline: of those due, the earliest
    first and at most [n] still current ones, those that something else has resent or
    that are gone being dropped on the way; and unless [n] were returned, none that is
    due is left behind. *)
Theorem deferred_passes_return env t0 ops e now n : Forall emit_op_ok ops → reached env t0 ops e →
  ∃ due_ e' out, take_due_deferred now n e = (e', out)
    ∧ em_deferred e = due_ ++ em_deferred e' ∧ Forall (λ d, df_due d ≤ now) due_
    ∧ StronglySorted (λ d d', df_due d ≤ df_due d') due_
    ∧ out = (λ d, (df_key d, df_judged_ws d)) <$> filter (λ d, current e (df_key d) (df_judged_ws d)) due_
    ∧ (length out ≤ n)%nat ∧ (length out = n ∨ Forall (λ d, now < df_due d) (em_deferred e'))
    ∧ next_deferred_due e' = df_due <$> head (em_deferred e').
Proof.
  intros Hops Hr. destruct (reached_session _ _ _ _ Hops Hr) as (tx & out0 & He).
  pose proof (rq_deferred _ _ _ _ _ (so_requests _ _ _ _ He)) as Hs.
  unfold take_due_deferred. destruct (due_go_spec e now n (em_deferred e) []) as [due_ H].
  destruct (due_go _ _ _ _ _) as [rest out]. destruct H as (Hh & Hd & -> & Hlen & Hstop). rewrite Hh in Hs.
  apply StronglySorted_app in Hs as (Hx & Hs1 & Hs2).
  exists due_, (with_deferred rest e). eexists. split; [done|]. cbn. split_and!; try done.
  - apply Hlen. cbn. lia.
  - destruct Hstop as [->|[Hge|(d & Hd0 & Hlt)]]; [by right|left|right].
    + pose proof (Hlen ltac:(cbn; lia)) as Hle. cbn in *. lia.
    + destruct rest as [|d0 rest]; [done|]. injection Hd0 as ->. inversion Hs2 as [|? ? _ Ha]; subst.
      constructor; [done|]. eapply Forall_impl; [exact Ha|]. cbn. lia.
Qed.

(** A pass lost four times running. *)
Definition lost_again (now ws : Z) : list emit_op := [ERequest (CTile (tile_key 0)) ws RLoss; ETickLoss now 8 100000 0].
Definition unlucky_session : list emit_op :=
  [ESubmit [(tile_key 0, a_tile 0, 0, None)] [] 1000000] ++ lost_again 2000000 0 ++ lost_again 3000000 1
  ++ lost_again 4000000 2 ++ [ERequest (CTile (tile_key 0)) 3 RLoss].

Lemma deferred_passes_return_witness :
  ∃ e due_ e' out, reached sample_env 0 unlucky_session e ∧ take_due_deferred 9000000000 2 e = (e', out)
    ∧ em_deferred e = due_ ++ em_deferred e' ∧ out = [(CTile (tile_key 0), 3)].
Proof.
  assert (Forall emit_op_ok unlucky_session) as Hops
    by (by apply (bool_decide_unpack (Forall emit_op_ok unlucky_session)); vm_compute).
  destruct (reached_ok sample_env 0 unlucky_session Hops) as (e & tx & out0 & E & _).
  assert (reached sample_env 0 unlucky_session e) as Hr by (by eexists).
  destruct (deferred_passes_return sample_env 0 unlucky_session e 9000000000 2 Hops Hr)
    as (due_ & e' & out & H1 & H2 & _).
  exists e, due_, e', out. split; [exact Hr|]. split; [exact H1|]. split; [exact H2|].
  assert (match emit_run sample_env (emitter_new 0) unlucky_session with
          | Ok (e, _) => bool_decide ((take_due_deferred 9000000000 2 e).2 = [(CTile (tile_key 0), 3)])
          | _ => false end = true) as Ht by (vm_compute; reflexivity).
  rewrite E, H1 in Ht. by apply bool_decide_eq_true in Ht.
Defined.

(** ** Draining *)

Lemma settle_queue em e : em_queue (settle_emission em Sent e).1 = em_queue e ∧ (settle_emission em Sent e).2 = true.
Proof. by destruct em. Qed.

Lemma drain_go_spec {S} (send : S → list Z → S * SendOutcome) now fuel : ∀ (s : S) e,
  e.(em_queue).(eq_frame_bytes) = queued_bytes e.(em_queue) → (waiting_emissions e < fuel)%nat →
  ∃ e' s', drain_go send now fuel s e = Ok (e', s')
    ∧ (eq_queue (em_queue e') = []
       ∨ ∃ em rest s1, eq_queue (em_queue e') = em :: rest ∧ send s1 (emission_bytes em) = (s', Rejected)).
Proof.
  induction fuel as [|fuel IH]; intros s e Hb Hw; [lia|]. cbn [drain_go]. unfold next_emission.
  destruct (pop_spec (em_queue e) (wa_peek (em_alloc e)) now Hb) as
    (q & r & due & late & E & Hb' & Hp & Hp' & Hq & _ & _ & Hnone & _).
  rewrite E, !bind_Ok. destruct r as [em|].
  - assert (waiting_emissions (with_queue q e) < fuel)%nat as Hw'.
    { unfold waiting_emissions in *. cbn. apply (f_equal length) in Hq. rewrite Hp in Hw. rewrite Hp'. cbn in Hq. lens. }
    destruct (send s (emission_bytes em)) as [s1 sent] eqn:Es. destruct sent.
    + destruct (settle_queue em (with_queue q e)) as [Hq2 Hgo]. destruct (settle_emission em Sent (with_queue q e)) as [e1 go] eqn:Ese.
      cbn in Hq2, Hgo. subst go. cbn [negb]. set (departed := match em with ESource b _ => _ | EParity _ _ => _ end).
      assert (∀ e2, em_queue e2 = q → (waiting_emissions e2 < fuel)%nat) as Hw2.
      { intros e2 E2. unfold waiting_emissions in *. by rewrite E2. }
      destruct departed; apply IH; cbn [em_queue on_departed with_latest_departure_at]; try (apply Hw2); by rewrite ?Hq2.
    + cbn [settle_emission negb]. eexists _, _. split; [by destruct em|]. right.
      destruct (note_depth_frame (count send_rejected (with_queue (push_front (em_queue (with_queue q e)) em) (with_queue q e))))
        as (s' & -> & _). exists em, (eq_queue q), s. by split.
  - eexists _, _. split; [done|]. left. apply (Hnone eq_refl).
Qed.

(** C38: Draining ends: whatever the session was and whatever the transport answers, [drain]
    leaves the queue empty, or stops at the datagram the transport refused, which is
    back at the head. *)
Theorem drain_finishes {S} (send : S → list Z → S * SendOutcome) env t0 ops e now (s : S) :
  Forall emit_op_ok ops → reached env t0 ops e →
  ∃ e' s', drain send now s e = Ok (e', s')
    ∧ (queue_len (em_queue e') = 0%nat
       ∨ ∃ em rest s1, eq_queue (em_queue e') = em :: rest ∧ send s1 (emission_bytes em) = (s', Rejected)).
Proof.
  intros Hops Hr. destruct (reached_session _ _ _ _ Hops Hr) as (tx & out & He).
  destruct (drain_go_spec send now (waiting_emissions e + 1) s e (queue_bytes_ok _ _ _ _ He) ltac:(lia)) as (e' & s' & E & H).
  exists e', s'. split; [exact E|]. destruct H as [H|H]; [left|by right]. unfold queue_len. by rewrite H.
Qed.

(** A transport that takes five datagrams. *)
Definition five_only (n : nat) (_ : list Z) : nat * SendOutcome := if (n <? 5)%nat then (S n, Sent) else (n, Rejected).

Lemma drain_finishes_witness :
  ∃ ops e e' n, reached sample_env 0 ops e ∧ drain five_only 9000000 0%nat e = Ok (e', n)
    ∧ (queue_len (em_queue e') = 0%nat ∨ n = 5%nat).
Proof.
  set (ops := take 2 sample_session).
  assert (Forall emit_op_ok ops) as Hops by (apply Forall_take, sample_session_ok).
  destruct (reached_ok sample_env 0 ops Hops) as (e & tx & out & E & _).
  assert (reached sample_env 0 ops e) as Hr by (by eexists).
  destruct (drain_finishes five_only sample_env 0 ops e 9000000 0%nat Hops Hr) as (e' & n & H1 & H2).
  exists ops, e, e', n. split; [exact Hr|]. split; [exact H1|]. destruct H2 as [H2|(em & rest & s1 & _ & H2)]; [by left|right].
  unfold five_only in H2. destruct (s1 <? 5)%nat eqn:Es; [done|]. injection H2 as <-.
  assert (match emit_run sample_env (emitter_new 0) ops with
          | Ok (e, _) => match drain five_only 9000000 0%nat e with Ok (_, n) => (n =? 5)%nat | _ => false end
          | _ => false end = true) as Ht by (vm_compute; reflexivity).
  rewrite E, H1 in Ht. by apply Nat.eqb_eq in Ht.
Defined.

(** ** A verdict nobody answers

    A loss verdict on transmission 0 waits for budget when a NACK has the pass sent again as
    transmission 1; the verdict on 1 finds the request of 0 still waiting and is answered
    [AlreadyQueued], which the loss path takes for an answer; the waiting request is
    dropped as overtaken when its turn comes.  The pass is then held, its newest
    transmission was declared lost, and nothing is queued, pending or deferred for it. *)
Definition stranded_session : list emit_op :=
  [ESubmit [(tile_key 0, a_tile 0, 0, None)] [] 1000000; ERequest (CTile (tile_key 0)) 0 RLoss; ENack [tile_key 0];
   ETickNacks 2000000 8 100000 0].

Example stranded_verdict :
  match emit_run sample_env (emitter_new 0) stranded_session with
  | Ok (e, _) =>
      let '(e, verdict) := request_retransmit sample_env (CTile (tile_key 0)) 1 RLoss e in
      match tick_loss_budgeted 3000000 8 100000 0 e with
      | Ok (e', sent, _) =>
          verdict = AlreadyQueued ∧ sent = 0 ∧ em_pending_loss e' = [] ∧ em_pending_nacks e' = [] ∧ em_deferred e' = []
          ∧ ed_wire_seq <$> em_transmissions e' = [0; 1] ∧ current e' (CTile (tile_key 0)) 1 = true
      | _ => False
      end
  | _ => False
  end.
Proof. vm_compute. split_and!; reflexivity. Qed.
