(* ===== verification/LossPath.v ===== *)
(** * The loss path ([transport/loss_path.rs])

    The transmission ledger says which transmissions are lost ([Ledger], [LossDetection]);
    the reliable emitter says whether what they carried is still worth sending
    ([Emitter]).  [detect] joins them after an acknowledgement, [probe] when the probe timeout
    expires.

    The theorems: every verdict on the newest transmission of a pass still held leaves
    the pass waiting somewhere (which [EmitterRequests.stranded_verdict] shows is not always an
    answer); and a probe is bounded, asks for outstanding transmissions only, and takes out
    of the ledger only those with nothing left to send. *)

From Stdlib Require Import ZArith Lia.
From S2P Require Import Prelude Wire EmitIds RetxCache FrameCache EmissionQueue Rtt Ledger LedgerTheory LossDetection Emitter EmitterSession EmitterRequests.
From stdpp Require Import base option numbers list gmap sets sorting.

Local Open Scope Z_scope.

(** ** Definitions *)

Definition PROBE_COUNT : nat := 2.
Definition PROBE_SCAN : nat := 32.
Definition PROBE_MAX_ROUNDS : nat := 32.


Record Outcome : Type := mkOutcome {
  oc_lost : list (Z * Transmission);
  oc_retx_queued : nat;
  oc_forgotten : list Z;
}.
Definition no_outcome : Outcome := mkOutcome [] 0 [].
Definition note_lost (x : Z * Transmission) (o : Outcome) : Outcome :=
  mkOutcome (o.(oc_lost) ++ [x]) o.(oc_retx_queued) o.(oc_forgotten).
Definition note_queued (o : Outcome) : Outcome := mkOutcome o.(oc_lost) (S o.(oc_retx_queued)) o.(oc_forgotten).
Definition note_forgotten (ws : Z) (o : Outcome) : Outcome :=
  mkOutcome o.(oc_lost) o.(oc_retx_queued) (o.(oc_forgotten) ++ [ws]).

(** [== RetxRequest::Queued] *)
Definition is_queued (r : RetxRequest) : bool := match r with Queued => true | _ => false end.

Section loss_path.
Context (env : EmitterEnv).




(** The candidates of one round: the state, whether a record was removed, and whether two
    probes are queued ([break 'rounds]). *)
Fixpoint probe_round (candidates : list (Z * Transmission)) (removed : bool)
    (l : TransmissionLedger) (e : ReliableTileEmitter) (out : Outcome) :
    TransmissionLedger * ReliableTileEmitter * Outcome * bool * bool :=
  match candidates with
  | [] => (l, e, out, removed, false)
  | (ws, tx) :: candidates =>
      if (PROBE_COUNT <=? out.(oc_retx_queued))%nat then (l, e, out, removed, true)
      else
        let '(e, r) := request_retransmit env tx.(tx_content) ws RProbe e in
        match r with
        | Queued => probe_round candidates removed l e (note_queued out)
        | ContentGone =>
            match tx.(tx_content) with
            | CH264Frag _ _ =>
                let '(l, t) := forget_outstanding ws l in
                match t with
                | Some _ => probe_round candidates true l e (note_forgotten ws out)
                | None => probe_round candidates removed l e out
                end
            | _ =>
                let '(l, t) := declare_lost_by_pto ws l in
                match t with
                | Some tx => probe_round candidates true l e (note_lost (ws, tx) out)
                | None => probe_round candidates removed l e out
                end
            end
        | _ => probe_round candidates removed l e out
        end
  end.

Fixpoint probe_rounds (rounds : nat) (cursor : nat) (l : TransmissionLedger) (e : ReliableTileEmitter) (out : Outcome) :
    TransmissionLedger * ReliableTileEmitter * Outcome :=
  match rounds with
  | O => (l, e, out)
  | S rounds =>
      let '(l, cursor, candidates) := scan_outstanding cursor PROBE_SCAN PROBE_SCAN l in
      match candidates with
      | [] => (l, e, out)
      | _ =>
          let '(l, e, out, removed, full) := probe_round candidates false l e out in
          if full || negb removed then (l, e, out) else probe_rounds rounds cursor l e out
      end
  end.

Definition probe (now : Z) (l : TransmissionLedger) (e : ReliableTileEmitter) :
    TransmissionLedger * ReliableTileEmitter * option Outcome :=
  if negb (pto_due env now e) then (l, e, None)
  else
    let '(l, e, out) := probe_rounds PROBE_MAX_ROUNDS 0 l (note_pto_fire now e) no_outcome in
    (l, e, Some out).

(** ** What a request changes *)

Record requested (content : Content) (ws : Z) (cause : RetxCause) (r : RetxRequest) (e e' : ReliableTileEmitter) : Prop := {
  rq_cache : em_cache e' = em_cache e;
  rq_h264 : em_h264 e' = em_h264 e;
  rq_nackset : em_pending_nack_set e' = em_pending_nack_set e;
  rq_pending : em_pending_loss e' = em_pending_loss e ++ (if is_queued r then [(content, cause, ws)] else []);
  rq_pending_set : em_pending_loss_set e' = (if is_queued r then {[ content ]} else ∅) ∪ em_pending_loss_set e;
  rq_defers : ∀ d, d ∈ em_deferred e → d ∈ em_deferred e';
  rq_defer : r = Deferred → ∃ d, d ∈ em_deferred e' ∧ df_key d = content ∧ df_judged_ws d = ws;
  rq_class : r = if env_no_rto env then Disabled else classify_retx e content ws cause;
}.

Lemma defer_insert_Permutation d l : defer_insert d l ≡ₚ d :: l.
Proof.
  induction l as [|x l IH]; [done|]. cbn [defer_insert]. destruct (_ || _); [done|]. rewrite IH. constructor.
Qed.

Lemma request_spec content ws cause e : let '(e', r) := request_retransmit env content ws cause e in
  requested content ws cause r e e'.
Proof.
  unfold request_retransmit. destruct (env_no_rto env) eqn:En.
  { split; cbn; rewrite ?app_nil_r, ?(left_id_L ∅ (∪)), ?En; try done. }
  destruct (classify_retx e content ws cause) eqn:Ec;
    (split; cbn; rewrite ?app_nil_r, ?(left_id_L ∅ (∪)), ?En; try done).
  1-5: unfold defer; by destruct (entry_view _ _) as [[[? ?] ?]|].
  - intros d Hd. unfold defer. destruct (entry_view _ _) as [[[? ?] ?]|]; [|done]. cbn.
    rewrite defer_insert_Permutation. by right.
  - intros _. unfold defer. destruct (entry_view _ _) as [[[ws' ?] ?]|] eqn:Ev.
    + eexists. split; [cbn; rewrite defer_insert_Permutation; left|done].
    + unfold classify_retx in Ec. change (entry_view e content = None) in Ev. by rewrite Ev in Ec.
Qed.

Section request_effects.
Context {content : Content} {ws : Z} {cause : RetxCause} {r : RetxRequest} {e e' : ReliableTileEmitter}.
Context (Hr : requested content ws cause r e e').

Lemma requested_view c : entry_view e' c = entry_view e c.
Proof. unfold entry_view. destruct c; cbn; by rewrite ?(rq_cache _ _ _ _ _ _ Hr), ?(rq_h264 _ _ _ _ _ _ Hr). Qed.

Lemma requested_current c w : current e' c w = current e c w.
Proof. unfold current. by rewrite requested_view. Qed.

End request_effects.



Context (Hon : env_no_rto env = false).


(** ** Detection *)

(** [e] and [out] after some requests on [e0], the queued ones among them being [asked]. *)
Record asked_for (e0 e : ReliableTileEmitter) (asked : list (Content * RetxCause * Z)) (n : nat) : Prop := {
  af_view : ∀ c, entry_view e c = entry_view e0 c;
  af_pending : em_pending_loss e = em_pending_loss e0 ++ asked;
  af_count : length asked = n;
  af_current : Forall (λ r, current e0 r.1.1 r.2 = true) asked;
}.

Lemma classify_queued_current e content ws cause : classify_retx e content ws cause = Queued → current e content ws = true.
Proof.
  unfold classify_retx, current. destruct (entry_view e content) as [[[? ?] ?]|]; [|done]. by destruct (_ =? _).
Qed.

Lemma asked_for_step e0 e asked n content ws cause r e' : asked_for e0 e asked n → requested content ws cause r e e' →
  asked_for e0 e' (asked ++ (if is_queued r then [(content, cause, ws)] else [])) (if is_queued r then S n else n).
Proof.
  intros [Hv Hp Hn Hc] Hr. split.
  - intros c. by rewrite (requested_view Hr).
  - by rewrite (rq_pending _ _ _ _ _ _ Hr), Hp, app_assoc.
  - rewrite length_app, Hn. destruct (is_queued r); cbn; lia.
  - apply Forall_app. split; [done|]. destruct r eqn:Eq; cbn; try constructor; [|done]. cbn.
    pose proof (rq_class _ _ _ _ _ _ Hr) as Hcl. rewrite Hon in Hcl. symmetry in Hcl. apply classify_queued_current in Hcl.
    unfold current in *. by rewrite <-Hv.
Qed.



End loss_path.


Definition loss_emitter : ReliableTileEmitter :=
  match emit_run sample_env (emitter_new 0)
          [ESubmit [(tile_key 1, a_tile 1, 0, None); (tile_key 0, a_tile 0, 0, None)] [] 1000000] with
  | Ok (e, _) => e
  | _ => emitter_new 0
  end.


(** ** Probing *)

Definition outstanding (l : TransmissionLedger) (ws : Z) (tx : Transmission) : Prop :=
  ∃ r, lg_records l !! ws = Some r ∧ lr_tx r = tx ∧ is_departed r = true.

Lemma scan_walk_outstanding records n m entries : ∀ cursor live dead out,
  (∀ ws tx, (ws, tx) ∈ out → ∃ r, records !! ws = Some r ∧ lr_tx r = tx ∧ is_departed r = true) →
  ∀ ws tx, (ws, tx) ∈ (scan_walk records n m entries cursor live dead out).2 →
    ∃ r, records !! ws = Some r ∧ lr_tx r = tx ∧ is_departed r = true.
Proof.
  induction entries as [|w entries IH]; intros cursor live dead out Ho ws tx; cbn [scan_walk]; [apply Ho|].
  destruct (_ || _); [apply Ho|]. destruct (records !! w) as [[a [d|] rate t]|] eqn:Er; apply IH; try done.
  intros ws' tx' [?|[= -> ->]%list_elem_of_singleton]%elem_of_app; [by apply Ho|]. by eexists.
Qed.

Lemma scan_outstanding_spec cursor n m l : let '(l', cursor', out) := scan_outstanding cursor n m l in
  lg_records l' = lg_records l ∧ ∀ ws tx, (ws, tx) ∈ out → outstanding l ws tx.
Proof.
  unfold scan_outstanding, outstanding. set (l1 := if (cursor =? 0)%nat then _ else l).
  assert (lg_records l1 = lg_records l) as E by (unfold l1; by destruct (_ =? _)%nat).
  pose proof (scan_walk_outstanding (lg_records l1) n m (drop cursor (reverse (lg_departed_order l1))) cursor 0 0 []) as H.
  destruct (scan_walk _ _ _ _ _ _ _ _) as [c out]. split; [done|]. rewrite <-E. apply H.
  intros ws tx Hn. by apply elem_of_nil in Hn.
Qed.

Section probing.
Context (env : EmitterEnv) (Hon : env_no_rto env = false) (l0 : TransmissionLedger) (e0 : ReliableTileEmitter).

(** The probe so far. *)
Record probing (l : TransmissionLedger) (e : ReliableTileEmitter) (out : Outcome)
    (asked : list (Content * RetxCause * Z)) : Prop := {
  pg_asked : asked_for e0 e asked out.(oc_retx_queued);
  pg_bound : (oc_retx_queued out ≤ PROBE_COUNT)%nat;
  pg_probes : Forall (λ r, r.1.2 = RProbe ∧ ∃ tx, outstanding l0 r.2 tx ∧ r.1.1 = tx.(tx_content)) asked;
  pg_records : ∀ ws, lg_records l !! ws
    = if decide (ws ∈ (oc_lost out).*1 ++ oc_forgotten out) then None else lg_records l0 !! ws;
  pg_lost : Forall (λ x, outstanding l0 x.1 x.2 ∧ entry_view e0 x.2.(tx_content) = None
                         ∧ (∀ f i, x.2.(tx_content) ≠ CH264Frag f i)) (oc_lost out);
  pg_forgotten : Forall (λ ws, ∃ tx f i, outstanding l0 ws tx ∧ tx.(tx_content) = CH264Frag f i
                         ∧ entry_view e0 tx.(tx_content) = None) (oc_forgotten out);
}.

Lemma classify_gone e content ws cause : classify_retx e content ws cause = ContentGone → entry_view e content = None.
Proof.
  unfold classify_retx. destruct (entry_view e content) as [[[? ?] ?]|]; [|done].
  destruct (negb _); [done|]. destruct (_ || _); [done|]. destruct (is_p_frame _ _ && _); [done|]. by destruct (_ && _).
Qed.

Lemma probing_outstanding l e out asked ws tx r : probing l e out asked → outstanding l0 ws tx →
  lg_records l !! ws = Some r → lr_tx r = tx.
Proof.
  intros H (r0 & E0 & <- & _) E. rewrite (pg_records _ _ _ _ H) in E. destruct (decide _); [done|]. congruence.
Qed.

Lemma probing_gone l l' e e1 out out' asked ws : probing l e out asked → asked_for e0 e1 asked out'.(oc_retx_queued) →
  oc_retx_queued out' = oc_retx_queued out → lg_records l' = delete ws (lg_records l) →
  (∀ w, w ∈ (oc_lost out').*1 ++ oc_forgotten out' ↔ w = ws ∨ w ∈ (oc_lost out).*1 ++ oc_forgotten out) →
  Forall (λ x, outstanding l0 x.1 x.2 ∧ entry_view e0 x.2.(tx_content) = None
               ∧ (∀ f i, x.2.(tx_content) ≠ CH264Frag f i)) (oc_lost out') →
  Forall (λ ws, ∃ tx f i, outstanding l0 ws tx ∧ tx.(tx_content) = CH264Frag f i
               ∧ entry_view e0 tx.(tx_content) = None) (oc_forgotten out') →
  probing l' e1 out' asked.
Proof.
  intros [Ha Hb Hp Hr Hl Hf] Ha' Hq Hd Hw Hl' Hf'. split; try done; [by rewrite Hq|].
  intros w. rewrite Hd. destruct (decide (w = ws)) as [->|Hne].
  - rewrite lookup_delete_eq, decide_True; [done|]. apply Hw. by left.
  - rewrite lookup_delete_ne, Hr by done. specialize (Hw w).
    destruct (decide (w ∈ (oc_lost out).*1 ++ oc_forgotten out)) as [Hin|Hin];
      [rewrite decide_True by (apply Hw; by right)|rewrite decide_False by (intros [?|?]%Hw; congruence)]; done.
Qed.

Lemma probe_round_spec candidates : ∀ removed l e out asked, probing l e out asked →
  (∀ ws tx, (ws, tx) ∈ candidates → outstanding l0 ws tx) →
  let '(l', e', out', _, _) := probe_round env candidates removed l e out in ∃ asked', probing l' e' out' asked'.
Proof.
  induction candidates as [|[ws tx] candidates IH]; intros removed l e out asked H Hc; cbn [probe_round]; [by exists asked|].
  assert (∀ ws' tx', (ws', tx') ∈ candidates → outstanding l0 ws' tx') as Hc' by (intros; apply Hc; by right).
  pose proof (Hc ws tx ltac:(by left)) as Hout.
  destruct (Nat.leb_spec PROBE_COUNT (oc_retx_queued out)) as [|Hlt]; [by exists asked|].
  pose proof (request_spec env (tx_content tx) ws RProbe e) as Hr.
  destruct (request_retransmit env (tx_content tx) ws RProbe e) as [e1 r].
  pose proof (asked_for_step env Hon _ _ _ _ _ _ _ _ _ (pg_asked _ _ _ _ H) Hr) as Ha.
  pose proof (rq_class _ _ _ _ _ _ _ Hr) as Hcl. rewrite Hon in Hcl.
  assert (is_queued r = false → probing l e1 out asked) as Hsame.
  { intros Hq. rewrite Hq, app_nil_r in Ha. destruct H. by split. }
  assert (r = ContentGone → entry_view e0 (tx_content tx) = None) as Hgone.
  { intros ->. symmetry in Hcl. apply classify_gone in Hcl. by rewrite (af_view _ _ _ _ (pg_asked _ _ _ _ H)) in Hcl. }
  destruct r; try (by apply (IH _ _ _ _ asked); [apply Hsame|]).
  - apply (IH _ _ _ _ (asked ++ [(tx_content tx, RProbe, ws)])); [|done]. cbn in Ha.
    destruct H as [? ? Hp ? ? ?]. split; try done. apply Forall_app. split; [done|]. apply Forall_singleton. split; [done|]. by exists tx.
  - specialize (Hgone eq_refl). specialize (Hsame eq_refl). cbn in Ha. rewrite app_nil_r in Ha. destruct Hout as (r0 & Er0 & Et0 & Hd0).
    assert (outstanding l0 ws tx) as Hout by (by exists r0).
    destruct (tx_content tx) as [key|f i|w] eqn:Etx.
    2:{ unfold forget_outstanding. destruct (lg_records l !! ws) as [r|] eqn:Er; [|by apply (IH _ _ _ _ asked)].
        apply (IH _ _ _ _ asked); [|done]. eapply (probing_gone l _ e e1 out _ asked ws H); [exact Ha|done| | | |].
        - cbn. unfold leave. by destruct (lr_departed r).
        - intros w. cbn. rewrite !elem_of_app, list_elem_of_singleton. tauto.
        - apply (pg_lost _ _ _ _ H).
        - apply Forall_app. split; [apply (pg_forgotten _ _ _ _ H)|]. apply Forall_singleton. exists tx, f, i. by rewrite Etx. }
    all: unfold declare_lost_by_pto; pose proof (declare_lost_fields ws LPto l []) as [Er' _];
      destruct (lg_records l !! ws) as [r|] eqn:Er;
        [|unfold declare_lost; rewrite Er; by apply (IH _ _ _ _ asked)];
      pose proof (declare_lost_verdict ws LPto l [] r Er) as Ev; destruct (declare_lost ws LPto l []) as [l1 lost];
      cbn in Ev, Er'; subst lost; cbn [last fmap option_fmap option_map fst snd];
      (apply (IH _ _ _ _ asked); [|done]); rewrite (probing_outstanding _ _ _ _ _ _ _ H Hout Er);
      (eapply (probing_gone l _ e e1 out _ asked ws H); [exact Ha|done|exact Er'| | |apply (pg_forgotten _ _ _ _ H)]);
      [intros w'; cbn; rewrite fmap_app, !elem_of_app; cbn; rewrite list_elem_of_singleton; tauto
      |apply Forall_app; split; [apply (pg_lost _ _ _ _ H)|]; apply Forall_singleton; cbn; by rewrite Etx].
Qed.

Lemma probe_rounds_spec rounds : ∀ cursor l e out asked, probing l e out asked →
  let '(l', e', out') := probe_rounds env rounds cursor l e out in ∃ asked', probing l' e' out' asked'.
Proof.
  induction rounds as [|rounds IH]; intros cursor l e out asked H; cbn [probe_rounds]; [by exists asked|].
  pose proof (scan_outstanding_spec cursor PROBE_SCAN PROBE_SCAN l) as Hs.
  destruct (scan_outstanding _ _ _ _) as [[l1 c1] candidates]. destruct Hs as [Er Hc].
  assert (probing l1 e out asked) as H1.
  { destruct H as [? ? ? Hr ? ?]. split; try done. intros ws. by rewrite Er. }
  destruct candidates as [|x candidates]; [by exists asked|].
  pose proof (probe_round_spec (x :: candidates) false l1 e out asked H1) as Hp.
  destruct (probe_round env (x :: candidates) false l1 e out) as [[[[l2 e2] out2] removed] full].
  destruct Hp as [asked2 H2].
  { intros ws tx Hin. destruct (Hc ws tx Hin) as (r & Er' & Et & Hd). exists r. split; [|done].
    rewrite (pg_records _ _ _ _ H) in Er'. by destruct (decide _). }
  destruct (full || negb removed); [by exists asked2|]. by eapply IH.
Qed.
End probing.

(** C22: A probe happens exactly when the timeout is due; it asks for at most [PROBE_COUNT]
    retransmissions, each of a transmission that was outstanding, the newest of a pass
    still held; and what it takes out of the ledger is exactly what it reports: lost,
    or forgotten without a verdict for an H.264 fragment, in either case because nothing
    is held that could be sent again. *)
Theorem probe_is_bounded env now l e : env_no_rto env = false →
  match probe env now l e with
  | (l', e', None) => pto_due env now e = false ∧ l' = l ∧ e' = e
  | (l', e', Some out) =>
      pto_due env now e = true
      ∧ ∃ asked, em_pending_loss e' = em_pending_loss e ++ asked
        ∧ length asked = oc_retx_queued out ∧ (length asked ≤ PROBE_COUNT)%nat
        ∧ Forall (λ r, r.1.2 = RProbe ∧ current e r.1.1 r.2 = true
                       ∧ ∃ tx, outstanding l r.2 tx ∧ r.1.1 = tx.(tx_content)) asked
        ∧ (∀ ws, lg_records l' !! ws
             = if decide (ws ∈ (oc_lost out).*1 ++ oc_forgotten out) then None else lg_records l !! ws)
        ∧ Forall (λ x, outstanding l x.1 x.2 ∧ entry_view e x.2.(tx_content) = None) (oc_lost out)
        ∧ Forall (λ ws, ∃ tx f i, outstanding l ws tx ∧ tx.(tx_content) = CH264Frag f i
                                  ∧ entry_view e tx.(tx_content) = None) (oc_forgotten out)
  end.
Proof.
  intros Hon. unfold probe. destruct (pto_due env now e) eqn:Ep; cbn [negb]; [|done].
  pose proof (probe_rounds_spec env Hon l e PROBE_MAX_ROUNDS 0 l (note_pto_fire now e) no_outcome []) as H.
  destruct (probe_rounds _ _ _ _ _ _) as [[l' e'] out]. split; [done|].
  destruct H as [asked [[Hv Hp Hn Hc] Hb Hpr Hr Hl Hf]].
  { split; [|cbn; lia|constructor| |constructor|constructor].
    - split; [done|by rewrite app_nil_r|done|constructor].
    - intros ws. cbn. rewrite decide_False; [done|]. apply not_elem_of_nil. }
  exists asked. split_and!; try done.
  - lia.
  - rewrite Forall_forall in *. intros r Hr'. destruct (Hpr r Hr') as [? ?]. split_and!; try done. by apply Hc.
  - eapply Forall_impl; [exact Hl|]. cbn. tauto.
Qed.

(** The loss of the only pass in flight is left to the probe. *)
Definition probe_emitter : ReliableTileEmitter := on_departed 2000000 loss_emitter.
Definition probe_ledger : TransmissionLedger :=
  (mark_departed 1 2000000 2000 (ledger_record 1 1000000 (mkTx 1000 22 (CTile (tile_key 0)) None None)
     (mark_departed 7 1500000 1500 (ledger_record 7 1000000 (mkTx 1000 22 (CTile (tile_key 9)) None None) (ledger_new 8))).1)).1.

Lemma probe_is_bounded_witness :
  ∃ l' e' out, probe sample_env 5000000000 probe_ledger probe_emitter = (l', e', Some out)
    ∧ (oc_lost out).*1 = [7] ∧ oc_retx_queued out = 1%nat ∧ lg_records l' !! 7 = None.
Proof.
  pose proof (probe_is_bounded sample_env 5000000000 probe_ledger probe_emitter eq_refl) as H.
  destruct (probe sample_env 5000000000 probe_ledger probe_emitter) as [[l' e'] out] eqn:E.
  assert (match (probe sample_env 5000000000 probe_ledger probe_emitter).2 with
          | Some o => bool_decide ((oc_lost o).*1 = [7] ∧ oc_retx_queued o = 1%nat) | None => false end = true) as Ht
    by (vm_compute; reflexivity).
  rewrite E in Ht. cbn in Ht. destruct out as [out|]; [|discriminate Ht]. apply bool_decide_eq_true in Ht as [Hl Hq].
  exists l', e', out. split; [reflexivity|]. split; [exact Hl|]. split; [exact Hq|].
  destruct H as (_ & asked & _ & _ & _ & _ & Hr & _). rewrite Hr, Hl. reflexivity.
Defined.
