(* ===== verification/F32.v ===== *)
(** * Single-precision floats

    The [f32] arithmetic the server uses, as the IEEE 754 binary32 operations of the
    Standard Library's specification floats: 24 bits of significand, round to nearest
    even.  Everything is computable. *)

From Stdlib Require Import ZArith Lia SpecFloat.
From S2P Require Import Prelude.
From stdpp Require Import base option numbers list.

Local Open Scope Z_scope.

(** ** Definitions *)

Definition f32 : Type := spec_float.
Definition f32_prec : Z := 24.
Definition f32_emax : Z := 128.

(** [n as f32], for an integer. *)
Definition f32_of_Z (n : Z) : f32 := binary_normalize f32_prec f32_emax n 0 false.
Definition f32_mul (a b : f32) : f32 := SFmul f32_prec f32_emax a b.
Definition f32_div (a b : f32) : f32 := SFdiv f32_prec f32_emax a b.
Definition f32_add (a b : f32) : f32 := SFadd f32_prec f32_emax a b.
Definition f32_lt (a b : f32) : bool := SFltb a b.
Definition f32_le (a b : f32) : bool := SFleb a b.
(** [f32::max] and [f32::min], of which neither argument is a NaN here. *)
Definition f32_max (a b : f32) : f32 := if f32_lt a b then b else a.
Definition f32_min (a b : f32) : f32 := if f32_lt b a then b else a.

(** The literals: the nearest [f32] to a quotient of small integers. *)
Definition f32_lit (num den : Z) : f32 := f32_div (f32_of_Z num) (f32_of_Z den).

Definition USIZE_MAX : Z := 2 ^ 64 - 1.
(** [x as usize], or [as u64], of an [f32] or an [f64]: towards zero, saturating. *)
Definition f32_to_usize (x : f32) : Z :=
  match x with
  | S754_finite false m e =>
      Z.min USIZE_MAX (if 0 <=? e then Z.pos m * 2 ^ e else Z.pos m / 2 ^ (- e))
  | S754_infinity false => USIZE_MAX
  | _ => 0
  end.

(** [f64::from(x)]: the same number, in double precision.  The product by a constant is all
    that is computed there. *)
Definition f64 : Type := spec_float.
Definition f64_of_f32 (x : f32) : f64 :=
  match x with S754_finite s m e => binary_normalize 53 1024 (if s then Z.neg m else Z.pos m) e s | _ => x end.
Definition f64_of_Z (n : Z) : f64 := binary_normalize 53 1024 n 0 false.
Definition f64_mul (a b : f64) : f64 := SFmul 53 1024 a b.
(** [.sum::<f32>()], from the left; the sign of a zero sum is not observable in what follows. *)
Definition f32_sum (l : list f32) : f32 := foldl f32_add (f32_of_Z 0) l.

Lemma f32_to_usize_range x : 0 ≤ f32_to_usize x ≤ USIZE_MAX.
Proof.
  unfold f32_to_usize, USIZE_MAX. destruct x as [|[]| |[] m e]; try lia.
  destruct (Z.leb_spec 0 e).
  - pose proof (Z.pow_nonneg 2 e). lia.
  - pose proof (Z.div_pos (Z.pos m) (2 ^ (- e))). pose proof (Z.pow_pos_nonneg 2 (- e)). lia.
Qed.

Example f32_fifth : f32_lit 1 5 = S754_finite false 13421773 (-26).
Proof. by vm_compute. Qed.
Example f32_quarters : f32_mul (f32_mul (f32_lit 1 5) (f32_lit 1 2)) (f32_lit 1 2) = f32_lit 1 20.
Proof. by vm_compute. Qed.
