(* ===== verification/Slab.v ===== *)
(** * The versioned slab of the send scheduler ([transport/scheduler/slab.rs])

    Stable handles into a vector, with reuse detection.  A slot's version is odd while
    it is occupied and counts every insertion and removal, wrapping at 32 bits; a
    handle names a slot and the version it was issued at.

    The specification is a finite map from handles to values.  The theorems: every
    operation keeps the slab well formed and computes what it does on the map, an
    insertion taking a handle that was not in use; and a handle whose value was removed
    resolves to nothing until its slot's version has gone round, which takes more
    operations than there are versions. *)

From Stdlib Require Import ZArith Lia.
From S2P Require Import Prelude MapTotals.
From stdpp Require Import base option numbers list gmap.

Local Open Scope Z_scope.

(** ** Definitions *)

(** [index as usize] is what the code computes with, so it is a [nat] here. *)
Record Handle : Type := mkHandle { h_index : nat; h_version : Z }.
#[export] Instance handle_eq_dec : EqDecision Handle.
Proof. solve_decision. Defined.
#[export] Instance handle_countable : Countable Handle.
Proof. by apply (inj_countable' (λ h, (h_index h, h_version h)) (λ p, mkHandle p.1 p.2)); intros []. Defined.

Definition handle_eqb (a b : Handle) : bool := bool_decide (a = b).

Record Entry (T : Type) : Type := mkEntry { en_version : Z; en_value : option T }.
Arguments mkEntry {T}.
Arguments en_version {T}.
Arguments en_value {T}.

(** [free] is a stack: its head is the end of the vector. *)
Record Slab (T : Type) : Type := mkSlab {
  sl_entries : list (Entry T);
  sl_free : list nat;
  sl_live : nat;
}.
Arguments mkSlab {T}.
Arguments sl_entries {T}.
Arguments sl_free {T}.
Arguments sl_live {T}.

(** [entries.len() as u32], as an index. *)
Definition as_index (n : nat) : nat := Z.to_nat (u32 (Z.of_nat n)).

Section slab.
  Context {T : Type}.
  Implicit Types (s : Slab T) (h : Handle) (v : T).

Definition slab_new : Slab T := mkSlab [] [] 0.

Definition slab_insert {E} (v : T) (s : Slab T) : outcome E (Slab T * Handle) :=
  match s.(sl_free) with
  | i :: free =>
      e ← idx s.(sl_entries) i;
      let version := u32 (e.(en_version) + 1) in
      mret (mkSlab (<[i := mkEntry version (Some v)]> s.(sl_entries)) free (S s.(sl_live)), mkHandle i version)
  | [] =>
      mret (mkSlab (s.(sl_entries) ++ [mkEntry 1 (Some v)]) [] (S s.(sl_live)),
            mkHandle (as_index (length s.(sl_entries))) 1)
  end.

Definition slab_entry (s : Slab T) (h : Handle) : option (Entry T) :=
  e ← s.(sl_entries) !! h.(h_index);
  if e.(en_version) =? h.(h_version) then Some e else None.

Definition slab_get (s : Slab T) (h : Handle) : option T := slab_entry s h ≫= en_value.

(** Writing through [get_mut]: nothing happens where it returns [None]. *)
Definition slab_modify (f : T → T) (h : Handle) (s : Slab T) : Slab T :=
  match slab_entry s h with
  | Some e =>
      mkSlab (<[h.(h_index) := mkEntry e.(en_version) (f <$> e.(en_value))]> s.(sl_entries)) s.(sl_free) s.(sl_live)
  | None => s
  end.

Definition slab_remove {E} (h : Handle) (s : Slab T) : outcome E (Slab T * option T) :=
  match slab_entry s h with
  | Some (mkEntry version (Some v)) =>
      live ← sub_usize s.(sl_live) 1;
      mret (mkSlab (<[h.(h_index) := mkEntry (u32 (version + 1)) None]> s.(sl_entries))
              (h.(h_index) :: s.(sl_free)) live, Some v)
  | _ => mret (s, None)
  end.

Definition slab_len (s : Slab T) : nat := s.(sl_live).
Definition slab_is_empty (s : Slab T) : bool := (s.(sl_live) =? 0)%nat.

(** One entry of [clear], at position [i]. *)
Definition clear_entry (e : Entry T) : Entry T :=
  match e.(en_value) with
  | Some _ => mkEntry (u32 (e.(en_version) + 1)) None
  | None => e
  end.
Fixpoint clear_free (i : nat) (es : list (Entry T)) (free : list nat) : list nat :=
  match es with
  | [] => free
  | e :: es => clear_free (S i) es (match e.(en_value) with Some _ => i :: free | None => free end)
  end.
Definition slab_clear (s : Slab T) : Slab T :=
  mkSlab (clear_entry <$> s.(sl_entries)) (clear_free 0 s.(sl_entries) s.(sl_free)) 0.

(** ** Specification: a map from handles to values *)

Definition entry_binding (i : nat) (e : Entry T) : option (Handle * T) :=
  v ← e.(en_value); Some (mkHandle i e.(en_version), v).

Definition slab_view (s : Slab T) : gmap Handle T := list_to_map (omap (λ x, x) (imap entry_binding s.(sl_entries))).

Record slab_wf (s : Slab T) : Prop := {
  sw_len : Z.of_nat (length s.(sl_entries)) ≤ 2 ^ 32;
  sw_version : Forall (λ e, in_width 32 e.(en_version)) s.(sl_entries);
  sw_parity : Forall (λ e, Z.odd e.(en_version) = bool_decide (is_Some e.(en_value))) s.(sl_entries);
  sw_nodup : NoDup s.(sl_free);
  sw_free : ∀ i, i ∈ s.(sl_free) ↔ ∃ e, s.(sl_entries) !! i = Some e ∧ e.(en_value) = None;
  sw_live : s.(sl_live) = size (slab_view s);
}.

(** There is room for one more: a free slot, or an index left to give. *)
Definition slab_room (s : Slab T) : Prop := s.(sl_free) ≠ [] ∨ Z.of_nat (length s.(sl_entries)) < 2 ^ 32.

End slab.

(** ** The map *)

Section theory.
  Context {T : Type}.
  Implicit Types (s : Slab T) (h : Handle) (v : T).

Lemma view_bindings_elem es h v :
  (h, v) ∈ omap (λ x, x) (imap (entry_binding (T:=T)) es) ↔
  ∃ e, es !! h.(h_index) = Some e ∧ e.(en_version) = h.(h_version) ∧ e.(en_value) = Some v.
Proof.
  rewrite list_elem_of_omap. split.
  - intros (x & Hx & ->). apply list_elem_of_lookup in Hx as (i & Hi).
    rewrite list_lookup_imap in Hi. destruct (es !! i) as [e|] eqn:He; [|done]. cbn in Hi.
    unfold entry_binding in Hi. destruct (en_value e) as [v'|] eqn:Hv; [|done]. cbn in Hi. simplify_eq. by exists e.
  - intros (e & He & Hv & Hval). exists (Some (h, v)). split; [|done].
    apply list_elem_of_lookup. exists h.(h_index). rewrite list_lookup_imap, He. cbn. unfold entry_binding.
    rewrite Hval. cbn. rewrite Hv. by destruct h.
Qed.

Lemma view_bindings_nodup es : NoDup (omap (λ x, x) (imap (entry_binding (T:=T)) es)).*1.
Proof.
  assert (∀ k, NoDup (omap (λ x, x) (imap (λ i, entry_binding (T:=T) (k + i)) es)).*1) as H; [|by apply (H 0%nat)].
  induction es as [|e es IH]; intros k; [constructor|].
  rewrite imap_cons. cbn [omap list_omap].
  assert (imap ((λ i, entry_binding (T:=T) (k + i)) ∘ S) es = imap (λ i, entry_binding (S k + i)) es) as E.
  { apply imap_ext. intros i x _. cbn. f_equal. lia. }
  rewrite E. unfold entry_binding at 1. destruct (en_value e) as [v|] eqn:Hv; cbn; [|apply (IH (S k))].
  constructor; [|apply (IH (S k))]. intros Hin. apply list_elem_of_fmap in Hin as ((h' & v') & Hh & Hin). cbn in Hh. subst h'.
  apply list_elem_of_omap in Hin as (x & Hx & Hid). apply list_elem_of_lookup in Hx as (i & Hi).
  rewrite list_lookup_imap in Hi. destruct (es !! i) as [e'|]; [|done]. cbn in Hi.
  unfold entry_binding in Hi. destruct (en_value e'); cbn in Hi; simplify_eq; simplify_eq. lia.
Qed.

Lemma view_lookup_Some s h v :
  slab_view s !! h = Some v ↔
  ∃ e, s.(sl_entries) !! h.(h_index) = Some e ∧ e.(en_version) = h.(h_version) ∧ e.(en_value) = Some v.
Proof.
  unfold slab_view. rewrite <-elem_of_list_to_map by apply view_bindings_nodup. apply view_bindings_elem.
Qed.

Lemma slab_get_Some s h v :
  slab_get s h = Some v ↔
  ∃ e, s.(sl_entries) !! h.(h_index) = Some e ∧ e.(en_version) = h.(h_version) ∧ e.(en_value) = Some v.
Proof.
  unfold slab_get, slab_entry. destruct (sl_entries s !! h_index h) as [e|]; cbn.
  - destruct (Z.eqb_spec (en_version e) (h_version h)) as [Hv|Hv]; cbn; naive_solver.
  - naive_solver.
Qed.

(** [get] reads the map. *)
Lemma slab_get_view s h : slab_get s h = slab_view s !! h.
Proof. apply option_eq. intros v. by rewrite slab_get_Some, view_lookup_Some. Qed.

Lemma view_lookup_ne s i e h v :
  slab_view s !! h = Some v → s.(sl_entries) !! i = Some e →
  e.(en_value) = None → h.(h_index) ≠ i.
Proof. intros (e' & He & _ & Hv)%view_lookup_Some Hi Hn <-. naive_solver. Qed.

(** Replacing the entry at [i]. *)
Lemma view_write s i e0 e h v free live :
  s.(sl_entries) !! i = Some e0 →
  slab_view (mkSlab (<[i := e]> s.(sl_entries)) free live) !! h = Some v ↔
  if decide (h.(h_index) = i) then e.(en_version) = h.(h_version) ∧ e.(en_value) = Some v
  else slab_view s !! h = Some v.
Proof.
  intros Hi. rewrite view_lookup_Some. cbn. destruct (decide _) as [->|Hne].
  - rewrite list_lookup_insert_eq by by eapply lookup_lt_Some. naive_solver.
  - by rewrite list_lookup_insert_ne, view_lookup_Some by done.
Qed.

Lemma same_slot s h h' : is_Some (slab_view s !! h) → is_Some (slab_view s !! h') →
  h.(h_index) = h'.(h_index) → h = h'.
Proof.
  intros (v & (e & He & Hv & _)%view_lookup_Some) (v' & (e' & He' & Hv' & _)%view_lookup_Some) Hi.
  rewrite Hi in He. destruct h, h'. cbn in *. naive_solver.
Qed.

Lemma slab_new_wf : slab_wf (T:=T) slab_new.
Proof.
  split; cbn; [lia|by constructor..| |done].
  intros i. split; [by intros ?%elem_of_nil|]. by intros (? & ? & _).
Qed.

Lemma odd_bump x : Z.odd (u32 (x + 1)) = negb (Z.odd x).
Proof.
  rewrite <-!Z.bit0_odd. assert (Z.testbit (u32 (x + 1)) 0 = Z.testbit (x + 1) 0) as -> by (apply testbit_wrap; lia).
  rewrite !Z.bit0_odd, Z.odd_add. by destruct (Z.odd x).
Qed.

Lemma free_lookup s i : slab_wf s → i ∈ s.(sl_free) →
  ∃ e, s.(sl_entries) !! i = Some e ∧ e.(en_value) = None ∧ Z.odd e.(en_version) = false ∧ in_width 32 e.(en_version).
Proof.
  intros [_ Hv Hp _ Hf _] (e & He & Hn)%Hf. exists e. split; [done|]. split; [done|].
  rewrite Forall_lookup in Hv, Hp. split; [|by eapply Hv]. rewrite (Hp _ _ He), Hn. by apply bool_decide_eq_false.
Qed.

Lemma slab_insert_grow {E} s v : slab_wf s → s.(sl_free) = [] → Z.of_nat (length s.(sl_entries)) < 2 ^ 32 →
  ∃ s' h, slab_insert (E:=E) v s = Ok (s', h) ∧ slab_wf s' ∧
    slab_view s !! h = None ∧ slab_view s' = <[h := v]> (slab_view s).
Proof.
  intros Hwf Hfree Hroom. unfold slab_insert. rewrite Hfree.
  eexists _, _. split; [done|].
  assert (as_index (length (sl_entries s)) = length (sl_entries s)) as ->.
  { unfold as_index. rewrite wrap_small by wsolve. lia. }
  set (s' := mkSlab _ _ _).
  assert (∀ h w, slab_view s' !! h = Some w ↔
    slab_view s !! h = Some w ∨ h = mkHandle (length (sl_entries s)) 1 ∧ w = v) as Hview.
  { intros h w. rewrite !view_lookup_Some. cbn. destruct (decide (h_index h < length (sl_entries s))%nat) as [Hlt|Hge].
    - rewrite lookup_app_l by done. split; [naive_solver|]. intros [?|[-> ?]]; [done|]. cbn in Hlt. lia.
    - rewrite lookup_app_r by lia. rewrite (lookup_ge_None_2 (sl_entries s)) by lia.
      destruct (h_index h - length (sl_entries s))%nat as [|k] eqn:Hk; cbn.
      + split.
        * intros (e & [= <-] & Hver & [= ->]). right. split; [|done]. destruct h as [i ver]. cbn in *. subst ver. f_equal. lia.
        * intros [(? & ? & _)|[-> ->]]; [done|]. by eexists.
      + split; [by intros (? & ? & _)|]. intros [(? & ? & _)|[-> _]]; [done|]. cbn in Hk. lia. }
  assert (slab_view s !! mkHandle (length (sl_entries s)) 1 = None) as Hnew.
  { apply eq_None_not_Some. intros (w & (e & He & _)%view_lookup_Some). cbn in He. apply lookup_lt_Some in He. lia. }
  assert (slab_view s' = <[mkHandle (length (sl_entries s)) 1 := v]> (slab_view s)) as Heq.
  { apply map_eq. intros h. apply option_eq. intros w. rewrite Hview, lookup_insert_Some. split.
    - intros [Hw|[-> ->]]; [right; split; [by intros <-; rewrite Hnew in Hw|done]|by left].
    - intros [[<- <-]|[_ ?]]; tauto. }
  split; [|by split]. destruct Hwf as [Hlen Hver Hpar Hnd Hf Hlive]. split; cbn.
  + rewrite length_app. cbn. lia.
  + apply Forall_app. split; [done|]. apply Forall_singleton. cbn. unfold in_width. lia.
  + apply Forall_app. split; [done|]. apply Forall_singleton. done.
  + constructor.
  + intros j. rewrite <-Hfree, Hf. split.
    * intros (e & He & Hn). exists e. split; [by apply lookup_app_l_Some|done].
    * intros (e & He & Hn). apply lookup_app_Some in He as [He|[_ He]]; [by exists e|].
      destruct (j - _)%nat; cbn in He; by simplify_eq.
  + change (S (sl_live s) = size (slab_view s')). rewrite Heq, map_size_insert_None by done. by rewrite <-Hlive.
Qed.

Lemma slab_insert_reuse {E} s v i free : slab_wf s → s.(sl_free) = i :: free →
  ∃ s' h, slab_insert (E:=E) v s = Ok (s', h) ∧ slab_wf s' ∧
    slab_view s !! h = None ∧ slab_view s' = <[h := v]> (slab_view s).
Proof.
  intros Hwf Hfree. unfold slab_insert. rewrite Hfree.
  assert (i ∈ sl_free s) as Hi by (rewrite Hfree; left).
  destruct (free_lookup s i Hwf Hi) as (e & He & Hn & Hodd & Hw).
  rewrite (idx_Some _ _ _ He), bind_Ok. eexists _, _. split; [done|].
  set (ver := u32 _). set (s' := mkSlab _ _ _).
  assert (slab_view s !! mkHandle i ver = None) as Hnew.
  { apply eq_None_not_Some. intros (w & (e' & He' & _ & Hv')%view_lookup_Some). cbn in He'. naive_solver. }
  assert (slab_view s' = <[mkHandle i ver := v]> (slab_view s)) as Heq.
  { apply map_eq. intros h. apply option_eq. intros w. unfold s'. rewrite (view_write s i e) by done.
    rewrite lookup_insert_Some. cbn. destruct (decide (h_index h = i)) as [Hhi|Hne].
    - split; [intros [Hv [= ->]]; left; split; [destruct h; cbn in *; by subst|done]|].
      intros [[<- <-]|[_ Hw']]; [done|]. by apply (view_lookup_ne s i e) in Hw'.
    - split; [intros ?; right; split; [by intros <-|done]|]. intros [[<- _]|[_ ?]]; done. }
  split; [|by split]. destruct Hwf as [Hlen Hver Hpar Hnd Hf Hlive]. split; cbn.
  + by rewrite length_insert.
  + apply Forall_insert; [done|]. cbn. by apply wrap_in_width.
  + apply Forall_insert; [done|]. cbn. unfold ver. by rewrite odd_bump, Hodd.
  + rewrite Hfree in Hnd. by inversion Hnd.
  + rewrite Hfree in Hnd. inversion Hnd as [|? ? Hni Hnd']; subst. intros j. split.
    * intros Hj. assert (j ≠ i) by congruence. rewrite list_lookup_insert_ne by done. apply Hf. rewrite Hfree. by right.
    * intros (e' & He' & Hn'). destruct (decide (j = i)) as [->|Hne].
      -- rewrite list_lookup_insert_eq in He' by by eapply lookup_lt_Some. by simplify_eq.
      -- rewrite list_lookup_insert_ne in He' by done.
         assert (j ∈ sl_free s) as Hin by (apply Hf; by exists e'). rewrite Hfree in Hin.
         by apply elem_of_cons in Hin as [?|?].
  + change (S (sl_live s) = size (slab_view s')). rewrite Heq, map_size_insert_None by done. by rewrite <-Hlive.
Qed.

(** [insert] takes a handle that was not in use. *)
Lemma slab_insert_spec {E} s v : slab_wf s → slab_room s →
  ∃ s' h, slab_insert (E:=E) v s = Ok (s', h) ∧ slab_wf s' ∧
    slab_view s !! h = None ∧ slab_view s' = <[h := v]> (slab_view s).
Proof.
  intros Hwf Hroom. destruct (sl_free s) as [|i free] eqn:Hfree; [|by eapply slab_insert_reuse].
  apply slab_insert_grow; [done..|]. by destruct Hroom.
Qed.

(** Writing through [get_mut] changes the value of that handle only. *)
Lemma slab_modify_spec s f h : slab_wf s →
  slab_wf (slab_modify f h s) ∧ slab_view (slab_modify f h s) = alter f h (slab_view s) ∧
  (slab_room s → slab_room (slab_modify f h s)).
Proof.
  intros Hwf. unfold slab_modify, slab_entry.
  destruct (sl_entries s !! h_index h) as [e|] eqn:He; cbn; last first.
  { split; [done|]. split; [|done]. symmetry. apply alter_id'. rewrite <-slab_get_view.
    unfold slab_get, slab_entry. by rewrite He. }
  destruct (Z.eqb_spec (en_version e) (h_version h)) as [Hver|Hver]; last first.
  { split; [done|]. split; [|done]. symmetry. apply alter_id'. rewrite <-slab_get_view.
    unfold slab_get, slab_entry. rewrite He. cbn. by apply Z.eqb_neq in Hver as ->. }
  set (s' := mkSlab _ _ _).
  assert (slab_view s' = alter f h (slab_view s)) as Heq.
  { apply map_eq. intros k. apply option_eq. intros w. unfold s'. rewrite (view_write s _ e) by done. cbn.
    rewrite lookup_alter_Some. destruct (decide (h_index k = h_index h)) as [Hk|Hk].
    - rewrite Hver. split.
      + intros [Hkv Hf]. left. split; [destruct k, h; cbn in *; congruence|].
        apply fmap_Some in Hf as (x & Hx & ->). exists x. split; [|done]. apply view_lookup_Some.
        exists e. rewrite Hk. split; [done|]. split; [congruence|done].
      + intros [[<- (x & Hx0 & ->)]|[Hne Hw]].
        * apply view_lookup_Some in Hx0 as (e' & He' & _ & Hx). rewrite He in He'. simplify_eq.
          split; [done|]. by rewrite Hx.
        * destruct (Hne). apply view_lookup_Some in Hw as (e' & He' & Hv' & _). rewrite Hk, He in He'. simplify_eq.
          destruct k, h. cbn in *. congruence.
    - split; [intros Hw; right; split; [by intros ->|done]|]. by intros [[<- _]|[_ Hw]]. }
  split; [|split; [done|]].
  - destruct Hwf as [Hlen Hv Hpar Hnd Hf Hlive]. split; cbn.
    + by rewrite length_insert.
    + apply Forall_insert; [done|]. cbn. rewrite Forall_lookup in Hv. by apply (Hv _ _ He).
    + apply Forall_insert; [done|]. cbn. rewrite Forall_lookup in Hpar. rewrite (Hpar _ _ He).
      apply bool_decide_ext. by rewrite fmap_is_Some.
    + done.
    + intros j. rewrite Hf. destruct (decide (j = h_index h)) as [->|Hne].
      * rewrite list_lookup_insert_eq by by eapply lookup_lt_Some. rewrite He. split.
        -- intros (? & [= <-] & Hn). eexists. split; [done|]. cbn. by rewrite Hn.
        -- intros (? & [= <-] & Hn). eexists. split; [done|]. by apply fmap_None in Hn.
      * by rewrite list_lookup_insert_ne by done.
    + change (sl_live s = size (slab_view s')). by rewrite Heq, Hlive, <-!(size_dom (D:=gset Handle)), dom_alter_L.
  - intros [?|?]; [by left|right]. cbn. by rewrite length_insert.
Qed.

(** [remove] frees the entry, or does nothing where the handle resolves to nothing. *)
Lemma slab_remove_none {E} s h : slab_wf s → slab_view s !! h = None → slab_remove (E:=E) h s = Ok (s, None).
Proof.
  intros _ Hn. rewrite <-slab_get_view in Hn. unfold slab_remove. unfold slab_get in Hn.
  by destruct (slab_entry s h) as [[ver [v|]]|]; cbn in *.
Qed.

Lemma slab_remove_spec {E} s h v : slab_wf s → slab_view s !! h = Some v →
  ∃ s', slab_remove (E:=E) h s = Ok (s', Some v) ∧ slab_wf s' ∧ slab_view s' = delete h (slab_view s) ∧ slab_room s'.
Proof.
  intros Hwf Hh. pose proof Hh as (e & He & Hver & Hval)%view_lookup_Some.
  unfold slab_remove, slab_entry. rewrite He. cbn. rewrite Hver, Z.eqb_refl. destruct e as [ver ov]. cbn in *. subst.
  assert (size (slab_view s) = S (size (delete h (slab_view s)))) as Hsize.
  { rewrite <-(insert_delete_id (slab_view s) h v) at 1 by done. by rewrite map_size_insert_None by apply lookup_delete_eq. }
  pose proof (sw_live s Hwf) as Hlive. unfold sub_usize. rewrite (proj2 (Nat.leb_le _ _)) by lia. rewrite bind_Ok.
  eexists. split; [done|]. set (s' := mkSlab _ _ _).
  assert (slab_view s' = delete h (slab_view s)) as Heq.
  { apply map_eq. intros k. apply option_eq. intros w. unfold s'. rewrite (view_write s _ (mkEntry _ (Some v))) by done. cbn.
    rewrite lookup_delete_Some. destruct (decide (h_index k = h_index h)) as [Hk|Hk].
    - split; [by intros [_ ?]|]. intros [Hne Hw]. destruct Hne. apply (same_slot s); [by eexists..|done].
    - split; [intros Hw; split; [by intros ->|done]|]. by intros [_ Hw]. }
  split; [|by split; [done|left]].
  destruct Hwf as [Hlen Hv Hpar Hnd Hf _]. rewrite Forall_lookup in Hv, Hpar.
  split; cbn.
  - by rewrite length_insert.
  - apply Forall_insert; [by apply Forall_lookup|]. by apply wrap_in_width.
  - apply Forall_insert; [by apply Forall_lookup|]. cbn. rewrite odd_bump. specialize (Hpar _ _ He). cbn in Hpar. by rewrite Hpar.
  - constructor; [|done]. intros (e' & He' & Hn)%Hf. by simplify_eq.
  - intros j. rewrite elem_of_cons. destruct (decide (j = h_index h)) as [->|Hne].
    + rewrite list_lookup_insert_eq by by eapply lookup_lt_Some. split; [|by left]. intros _. by eexists.
    + rewrite list_lookup_insert_ne, Hf by done. naive_solver.
  - change ((sl_live s - 1)%nat = size (slab_view s')). rewrite Heq, Hlive. lia.
Qed.

Lemma clear_free_elem es i free j : j ∈ clear_free (T:=T) i es free ↔
  j ∈ free ∨ ∃ k e, es !! k = Some e ∧ j = (i + k)%nat ∧ is_Some e.(en_value).
Proof.
  induction es as [|e es IH] in i, free |- *; cbn.
  - split; [by left|]. by intros [?|(? & ? & ? & _)].
  - rewrite IH. split.
    + intros [Hj|(k & e' & Hk & -> & Hs)].
      * destruct (en_value e) as [v|] eqn:Hv; [|by left]. apply elem_of_cons in Hj as [->|Hj]; [|by left].
        right. exists 0%nat, e. rewrite Hv. split; [done|]. split; [lia|done].
      * right. exists (S k), e'. split; [done|]. split; [lia|done].
    + intros [Hj|([|k] & e' & Hk & -> & Hs)].
      * left. destruct (en_value e); [by right|done].
      * cbn in Hk. simplify_eq. left. destruct Hs as [v ->]. rewrite Nat.add_0_r. left.
      * right. exists k, e'. split; [done|]. split; [lia|done].
Qed.

Lemma clear_free_nodup es i free : NoDup free → (∀ j e, j ∈ free → es !! (j - i)%nat = Some e → (i ≤ j)%nat → e.(en_value) = None) →
  NoDup (clear_free (T:=T) i es free).
Proof.
  induction es as [|e es IH] in i, free |- *; intros Hnd Hf; cbn; [done|]. apply IH.
  - destruct (en_value e) as [v|] eqn:Hv; [|done]. constructor; [|done]. intros Hin.
    specialize (Hf i e Hin). rewrite Nat.sub_diag in Hf. rewrite Hf in Hv by (done || lia). done.
  - intros j e' Hin He' Hle. apply (Hf j e'); [|by replace (j - i)%nat with (S (j - S i)) by lia|lia].
    destruct (en_value e); [|done]. apply elem_of_cons in Hin as [->|Hin]; [lia|done].
Qed.

(** [clear] drops everything. *)
Lemma slab_clear_spec s : slab_wf s →
  slab_wf (slab_clear s) ∧ slab_view (slab_clear s) = ∅ ∧ (slab_room s → slab_room (slab_clear s)).
Proof.
  intros [Hlen Hv Hpar Hnd Hf Hlive].
  assert (∀ j e, sl_entries (slab_clear s) !! j = Some e → en_value e = None) as Hnone.
  { intros j e He. cbn in He. rewrite list_lookup_fmap in He. destruct (sl_entries s !! j) as [e0|]; [|done].
    cbn in He. simplify_eq. unfold clear_entry. by destruct (en_value e0) eqn:?. }
  assert (slab_view (slab_clear s) = ∅) as Heq.
  { apply map_eq. intros k. apply option_eq. intros w. rewrite view_lookup_Some, lookup_empty.
    split; [|done]. intros (e & He & _ & Hw). apply Hnone in He. congruence. }
  split; [|split; [done|]].
  - split.
    + cbn. by rewrite length_fmap.
    + apply Forall_fmap. eapply Forall_impl; [apply Hv|]. intros e He. cbn. unfold clear_entry.
      destruct (en_value e); [by apply wrap_in_width|done].
    + apply Forall_fmap. eapply Forall_impl; [apply Hpar|]. intros e He. cbn in *. unfold clear_entry.
      destruct (en_value e) eqn:Hn; cbn; [by rewrite odd_bump, He|by rewrite Hn, He].
    + cbn. apply clear_free_nodup; [done|]. intros j e Hj He _. rewrite Nat.sub_0_r in He.
      apply Hf in Hj as (e' & He' & Hn). by simplify_eq.
    + intros j. cbn [slab_clear sl_free]. rewrite clear_free_elem. split.
      * intros Hj. assert (is_Some (sl_entries s !! j)) as [e He].
        { destruct Hj as [(e & He & _)%Hf|(k & e & He & -> & _)]; by eexists. }
        exists (clear_entry e). split; [cbn; by rewrite list_lookup_fmap, He|]. apply (Hnone j). cbn. by rewrite list_lookup_fmap, He.
      * intros (e & He & _). cbn in He. rewrite list_lookup_fmap in He. destruct (sl_entries s !! j) as [e0|] eqn:He0; [|done].
        destruct (en_value e0) as [v|] eqn:Hv0; [right|left].
        -- exists j, e0. by rewrite Hv0.
        -- apply Hf. by exists e0.
    + change (0%nat = size (slab_view (slab_clear s))). by rewrite Heq.
  - unfold slab_room. cbn. rewrite length_fmap. intros [Hfree|?]; [left|by right].
    destruct (sl_free s) as [|i free] eqn:E; [done|]. intros Hn.
    assert (i ∈ clear_free 0 (sl_entries s) (i :: free)) as Hin by (apply clear_free_elem; left; left).
    rewrite Hn in Hin. by apply elem_of_nil in Hin.
Qed.
End theory.

(** ** Sessions *)

Inductive slab_op (T : Type) : Type :=
| Op_insert (v : T)
| Op_remove (h : Handle)
| Op_write (h : Handle) (v : T)
| Op_clear.
Arguments Op_insert {T}.
Arguments Op_remove {T}.
Arguments Op_write {T}.
Arguments Op_clear {T}.

(** What an operation answers: the handle it issued, or the value it took out. *)
Inductive slab_answer (T : Type) : Type :=
| Answer_handle (h : Handle)
| Answer_value (v : option T)
| Answer_unit.
Arguments Answer_handle {T}.
Arguments Answer_value {T}.
Arguments Answer_unit {T}.

Section sessions.
  Context {T : Type}.
  Implicit Types (s : Slab T) (h : Handle) (v : T) (ops : list (slab_op T)).

Definition slab_step {E} (op : slab_op T) (s : Slab T) : outcome E (Slab T * slab_answer T) :=
  match op with
  | Op_insert v => r ← slab_insert v s; mret (r.1, Answer_handle r.2)
  | Op_remove h => r ← slab_remove h s; mret (r.1, Answer_value r.2)
  | Op_write h v => mret (slab_modify (λ _, v) h s, Answer_unit)
  | Op_clear => mret (slab_clear s, Answer_unit)
  end.

Fixpoint slab_run {E} (ops : list (slab_op T)) (s : Slab T) : outcome E (Slab T * list (slab_answer T)) :=
  match ops with
  | [] => mret (s, [])
  | op :: ops => r ← slab_step op s; r' ← slab_run ops r.1; mret (r'.1, r.2 :: r'.2)
  end.

(** The same session on a map, an insertion taking any handle that is not in use. *)
Inductive map_step : slab_op T → slab_answer T → gmap Handle T → gmap Handle T → Prop :=
| Map_insert m v h : m !! h = None → map_step (Op_insert v) (Answer_handle h) m (<[h := v]> m)
| Map_remove m h : map_step (Op_remove h) (Answer_value (m !! h)) m (delete h m)
| Map_write m h v : map_step (Op_write h v) Answer_unit m (alter (λ _, v) h m)
| Map_clear m : map_step Op_clear Answer_unit m ∅.

Inductive map_run : list (slab_op T) → list (slab_answer T) → gmap Handle T → gmap Handle T → Prop :=
| Map_run_nil m : map_run [] [] m m
| Map_run_cons op a ops ans m m' m'' : map_step op a m m' → map_run ops ans m' m'' → map_run (op :: ops) (a :: ans) m m''.

Lemma slab_step_grows {E} op s s' a : slab_step (E:=E) op s = Ok (s', a) →
  (length s'.(sl_entries) ≤ S (length s.(sl_entries)))%nat.
Proof.
  destruct op as [v|h|h v|]; cbn.
  - unfold slab_insert. destruct (sl_free s) as [|i free]; cbn; [intros [= <- _]; cbn; rewrite length_app; cbn; lia|].
    unfold idx. destruct (sl_entries s !! i); cbn; [|done]. intros [= <- _]. cbn. rewrite length_insert. lia.
  - unfold slab_remove, sub_usize. destruct (slab_entry s h) as [[ver [v|]]|]; cbn; [|intros [= <- _]; lia..].
    destruct (sl_live s); cbn; [done|]. intros [= <- _]. cbn. rewrite length_insert. lia.
  - intros [= <- _]. unfold slab_modify. destruct (slab_entry s h); cbn; rewrite ?length_insert; lia.
  - intros [= <- _]. cbn. rewrite length_fmap. lia.
Qed.

Lemma slab_step_spec {E} op s : slab_wf s → slab_room s →
  ∃ s' a, slab_step (E:=E) op s = Ok (s', a) ∧ slab_wf s' ∧ map_step op a (slab_view s) (slab_view s').
Proof.
  intros Hwf Hroom. destruct op as [v|h|h v|]; cbn [slab_step].
  - destruct (slab_insert_spec (E:=E) s v Hwf Hroom) as (s' & h & -> & Hwf' & Hn & Hview).
    eexists _, _. split; [done|]. split; [done|]. cbn. rewrite Hview. by constructor.
  - destruct (slab_view s !! h) as [v|] eqn:Hh.
    + destruct (slab_remove_spec (E:=E) s h v Hwf Hh) as (s' & Hs & Hwf' & Hview & _). rewrite Hs.
      eexists _, _. split; [done|]. split; [done|]. cbn. rewrite Hview, <-Hh. constructor.
    + rewrite slab_remove_none by done. eexists _, _. split; [done|]. split; [done|]. cbn.
      pose proof (Map_remove (slab_view s) h) as Hm. by rewrite (delete_id _ _ Hh), Hh in Hm.
  - destruct (slab_modify_spec s (λ _, v) h Hwf) as (Hwf' & Hview & _).
    eexists _, _. split; [done|]. split; [done|]. rewrite Hview. constructor.
  - destruct (slab_clear_spec s Hwf) as (Hwf' & Hview & _).
    eexists _, _. split; [done|]. split; [done|]. rewrite Hview. constructor.
Qed.

(** C32: A slab is a map from the handles it has issued to their values.  From any well-formed slab, and
    as long as 32-bit indices last, a session of insertions, removals, writes through
    [get_mut] and clears never panics, keeps the slab well formed (its free list is
    exactly the vacant entries, its live count the number of occupied ones), and its answers are
    those of the same session on the map, every insertion taking a handle that is not
    in use. *)
Theorem slab_refines_map {E} s ops : slab_wf s →
  Z.of_nat (length s.(sl_entries)) + Z.of_nat (length ops) ≤ 2 ^ 32 →
  ∃ s' ans, slab_run (E:=E) ops s = Ok (s', ans) ∧ slab_wf s' ∧
    map_run ops ans (slab_view s) (slab_view s') ∧
    slab_len s' = size (slab_view s') ∧ ∀ h, slab_get s' h = slab_view s' !! h.
Proof.
  induction ops as [|op ops IH] in s |- *; intros Hwf Hlen; cbn [slab_run].
  - exists s, []. split; [done|]. split; [done|]. split; [constructor|]. split; [apply Hwf|apply slab_get_view].
  - cbn [length] in Hlen. destruct (slab_step_spec (E:=E) op s Hwf) as (s1 & a & Hs & Hwf1 & Hm); [right; lia|].
    pose proof (slab_step_grows _ _ _ _ Hs).
    destruct (IH s1 Hwf1) as (s2 & ans & Hr & Hwf2 & Hm2 & Hrest); [lia|].
    exists s2, (a :: ans). rewrite Hs, bind_Ok. cbn. rewrite Hr. split; [done|]. split; [done|].
    split; [by econstructor|done].
Qed.

(** The version at a slot never goes back, short of the wrap. *)
Lemma slab_step_version {E} op s s' a i e : slab_step (E:=E) op s = Ok (s', a) →
  s.(sl_entries) !! i = Some e → 0 ≤ e.(en_version) < 2 ^ 32 - 1 →
  ∃ e', s'.(sl_entries) !! i = Some e' ∧ e.(en_version) ≤ e'.(en_version) ≤ e.(en_version) + 1.
Proof.
  intros Hs He Hv. assert (u32 (en_version e + 1) = en_version e + 1) as Hu by (apply wrap_small; wsolve).
  assert (∀ j x, (j = i → en_version e ≤ en_version x ≤ en_version e + 1) →
    ∃ e', <[j := x]> (sl_entries s) !! i = Some e' ∧ en_version e ≤ en_version e' ≤ en_version e + 1) as Hwrite.
  { intros j x Hx. destruct (decide (j = i)) as [->|Hne].
    - exists x. rewrite list_lookup_insert_eq by by eapply lookup_lt_Some. auto.
    - exists e. rewrite list_lookup_insert_ne by done. split; [done|lia]. }
  unfold slab_step, slab_insert, slab_remove, mret, outcome_ret in Hs. destruct op as [v|h|h v|].
  - destruct (sl_free s) as [|j free]; cbn in Hs.
    + simplify_eq. exists e. cbn. split; [by apply lookup_app_l_Some|lia].
    + unfold idx in Hs. destruct (sl_entries s !! j) as [x|] eqn:Hj; cbn in Hs; simplify_eq. cbn.
      apply Hwrite. intros ->. simplify_eq. cbn. rewrite Hu. lia.
  - unfold slab_entry, sub_usize in Hs. destruct (sl_entries s !! h_index h) as [x|] eqn:Hj; cbn in Hs;
      [|simplify_eq; exists e; split; [done|lia]].
    destruct (en_version x =? h_version h); cbn in Hs; [|simplify_eq; exists e; split; [done|lia]].
    destruct x as [ver [v|]]; cbn in Hs; [|simplify_eq; exists e; split; [done|lia]].
    destruct (sl_live s); cbn in Hs; simplify_eq. cbn. apply Hwrite. intros <-. simplify_eq. cbn in *. rewrite Hu. lia.
  - simplify_eq. unfold slab_modify, slab_entry. destruct (sl_entries s !! h_index h) as [x|] eqn:Hj; cbn;
      [|exists e; split; [done|lia]].
    destruct (en_version x =? h_version h); cbn; [|exists e; split; [done|lia]].
    apply Hwrite. intros <-. simplify_eq. cbn. lia.
  - simplify_eq. exists (clear_entry e). cbn. rewrite list_lookup_fmap, He. split; [done|].
    unfold clear_entry. destruct (en_value e); cbn; rewrite ?Hu; lia.
Qed.

Lemma stale_stays {E} ops s s' ans h e : slab_run (E:=E) ops s = Ok (s', ans) →
  s.(sl_entries) !! h.(h_index) = Some e → 0 ≤ h.(h_version) < e.(en_version) →
  e.(en_version) + Z.of_nat (length ops) < 2 ^ 32 → slab_get s' h = None.
Proof.
  induction ops as [|op ops IH] in s, e, ans |- *; intros Hr He Hv Hn; cbn [slab_run] in Hr; unfold mret, outcome_ret in Hr.
  - simplify_eq. unfold slab_get, slab_entry. rewrite He. cbn. by rewrite (proj2 (Z.eqb_neq _ _)) by lia.
  - cbn [length] in Hn. destruct (slab_step op s) as [[s1 a]| |] eqn:Hs; cbn in Hr; [|done..].
    destruct (slab_run ops s1) as [[s2 an]| |] eqn:Hr1; cbn in Hr; simplify_eq.
    destruct (slab_step_version _ _ _ _ _ _ Hs He) as (e' & He' & Hv'); [lia|].
    apply (IH s1 an e'); [done..|lia|lia].
Qed.

(** C33: A handle whose value was removed never resolves again to whatever came to occupy its slot:
    after the removal, any session of fewer operations than it takes the slot's 32-bit
    version to go round leaves the handle resolving to nothing. *)
Theorem stale_handle_never_resolves {E} s h v s1 ops s2 ans : slab_wf s → slab_get s h = Some v →
  slab_remove (E:=E) h s = Ok (s1, Some v) → slab_run (E:=E) ops s1 = Ok (s2, ans) →
  h.(h_version) + 1 + Z.of_nat (length ops) < 2 ^ 32 →
  slab_get s2 h = None.
Proof.
  intros Hwf Hg Hr Hrun Hn. pose proof Hg as (e & He & Hver & Hval)%slab_get_Some.
  assert (0 ≤ h_version h < 2 ^ 32) as Hb.
  { rewrite <-Hver. pose proof (sw_version s Hwf) as Hw. rewrite Forall_lookup in Hw. exact (Hw _ _ He). }
  unfold slab_remove, slab_entry, sub_usize, mret, outcome_ret in Hr. rewrite He in Hr. cbn in Hr. rewrite Hver, Z.eqb_refl in Hr.
  destruct e as [ver ov]. cbn in *. subst. destruct (sl_live s); cbn in Hr; simplify_eq.
  apply (stale_stays _ _ _ _ _ (mkEntry (u32 (h_version h + 1)) None) Hrun); cbn.
  - by rewrite list_lookup_insert_eq by by eapply lookup_lt_Some.
  - rewrite wrap_small by wsolve. lia.
  - rewrite wrap_small by wsolve. lia.
Qed.
End sessions.

Example slab_refines_map_witness :
  ∃ s' ans, slab_run (E:=Empty_set) [Op_insert 7; Op_insert 8; Op_remove (mkHandle 0 1); Op_insert 9] slab_new = Ok (s', ans) ∧
    slab_wf s' ∧
    map_run [Op_insert 7; Op_insert 8; Op_remove (mkHandle 0 1); Op_insert 9] ans (slab_view slab_new) (slab_view s') ∧
    slab_len s' = size (slab_view s') ∧ ∀ h, slab_get s' h = slab_view s' !! h.
Proof. apply slab_refines_map; [apply slab_new_wf|cbn; lia]. Defined.

(** The slot of a removed value is reused at once, and the old handle misses it. *)
Example stale_handle_never_resolves_witness :
  slab_get (mkSlab [mkEntry 3 (Some 9)] [] 1) (mkHandle 0 1) = None.
Proof.
  assert (slab_wf (mkSlab [mkEntry 1 (Some 7)] [] 1)) as Hwf.
  { destruct (slab_insert_spec (E:=Empty_set) slab_new 7 slab_new_wf) as (s' & h & Hs & Hwf & _); [by right|].
    vm_compute in Hs. by simplify_eq. }
  apply (stale_handle_never_resolves (E:=Empty_set) (mkSlab [mkEntry 1 (Some 7)] [] 1) (mkHandle 0 1) 7
    (mkSlab [mkEntry 2 None] [0%nat] 0) [Op_insert 9] _ [Answer_handle (mkHandle 0 3)]); [done|vm_compute; reflexivity..].
Defined.
