(* ===== verification/SlotMap.v ===== *)
(** * Per-tile delivery state ([transport/scheduler/slots.rs])

    The generation, frame label, acknowledgement mask and work handles of every tile of
    the grid, row-major.  A tile outside the grid is tracked by nothing: every
    operation on it is a no-op.

    The theorem: what the readers answer about a tile is decided by the acknowledgements
    recorded since its generation was last advanced, whatever was recorded for other
    tiles, other generations or before. *)

From Stdlib Require Import ZArith Lia.
From S2P Require Import Prelude Slab.
From stdpp Require Import base option numbers list gmap.

Local Open Scope Z_scope.

(** ** Definitions *)

Definition PASS_SLOTS : nat := 14.
Definition GENERATION_MASK : Z := 0x0F.

Record TileSlot : Type := mkSlot {
  ts_current_gen : Z;
  ts_label : option Z;
  ts_acked_mask : Z;
  ts_passes : list (option Handle);
}.

Definition slot_default : TileSlot := mkSlot 0 None 0 (replicate PASS_SLOTS None).

Record SlotMap : Type := mkSlots { sm_cols : Z; sm_rows : Z; sm_slots : list TileSlot }.

Definition slots_new (cols rows : Z) : SlotMap :=
  mkSlots cols rows (replicate (Z.to_nat cols * Z.to_nat rows) slot_default).
Definition slots_resize (cols rows : Z) (_ : SlotMap) : SlotMap := slots_new cols rows.

Definition slot_index (m : SlotMap) (tile_x tile_y : Z) : option nat :=
  if (m.(sm_cols) <=? tile_x) || (m.(sm_rows) <=? tile_y) then None
  else Some (Z.to_nat tile_y * Z.to_nat m.(sm_cols) + Z.to_nat tile_x)%nat.

Definition slot_at (m : SlotMap) (tile_x tile_y : Z) : option TileSlot :=
  i ← slot_index m tile_x tile_y; m.(sm_slots) !! i.

(** Writing through [slot_mut]. *)
Definition slot_update (f : TileSlot → TileSlot) (tile_x tile_y : Z) (m : SlotMap) : SlotMap :=
  match slot_index m tile_x tile_y with
  | Some i => mkSlots m.(sm_cols) m.(sm_rows) (alter f i m.(sm_slots))
  | None => m
  end.

Definition slot_generation (m : SlotMap) (tile_x tile_y : Z) : Z :=
  match slot_at m tile_x tile_y with Some s => s.(ts_current_gen) | None => 0 end.

Definition next_gen (g : Z) : Z := Z.land (u8 (g + 1)) GENERATION_MASK.
Definition advance_gen (s : TileSlot) : TileSlot := mkSlot (next_gen s.(ts_current_gen)) None 0 s.(ts_passes).
Definition slot_bump_generation (tile_x tile_y : Z) (m : SlotMap) : SlotMap * Z :=
  let m' := slot_update advance_gen tile_x tile_y m in (m', slot_generation m' tile_x tile_y).

Definition label_or_assign (tile_x tile_y seq : Z) (m : SlotMap) : SlotMap * Z :=
  match slot_at m tile_x tile_y with
  | Some s =>
      let l := default seq s.(ts_label) in
      (slot_update (λ s, mkSlot s.(ts_current_gen) (Some l) s.(ts_acked_mask) s.(ts_passes)) tile_x tile_y m, l)
  | None => (m, seq)
  end.

Definition clear_label (tile_x tile_y : Z) (m : SlotMap) : SlotMap :=
  slot_update (λ s, mkSlot s.(ts_current_gen) None s.(ts_acked_mask) s.(ts_passes)) tile_x tile_y m.

(** [1u16 << (pass_idx & 0x0F)] *)
Definition pass_bit (pass_idx : Z) : Z := Z.shiftl 1 (Z.land pass_idx 0x0F).

Definition record_pass (generation pass_idx : Z) (s : TileSlot) : TileSlot :=
  if s.(ts_current_gen) =? generation
  then mkSlot s.(ts_current_gen) s.(ts_label) (Z.lor s.(ts_acked_mask) (pass_bit pass_idx)) s.(ts_passes)
  else s.
Definition record_ack {E} (tile_x tile_y generation pass_idx : Z) (m : SlotMap) : outcome E SlotMap :=
  _ ← assert_ (pass_idx <? 16); mret (slot_update (record_pass generation pass_idx) tile_x tile_y m).

Definition acked_mask (m : SlotMap) (tile_x tile_y generation : Z) : Z :=
  match slot_at m tile_x tile_y with
  | Some s => if s.(ts_current_gen) =? generation then s.(ts_acked_mask) else 0
  | None => 0
  end.

Definition is_new_ack (m : SlotMap) (tile_x tile_y generation pass_idx : Z) : bool :=
  match slot_at m tile_x tile_y with
  | Some s => if s.(ts_current_gen) =? generation then Z.land s.(ts_acked_mask) (pass_bit pass_idx) =? 0 else false
  | None => false
  end.

(** [u16::count_ones] *)
Definition count_ones16 (x : Z) : Z :=
  Z.of_nat (length (filter (λ b : nat, Z.testbit x (Z.of_nat b) = true) (seq 0 16))).
Definition acked_count (m : SlotMap) (tile_x tile_y generation : Z) : Z := count_ones16 (acked_mask m tile_x tile_y generation).

Definition fully_acked (m : SlotMap) (tile_x tile_y generation present_mask : Z) : bool :=
  Z.land (acked_mask m tile_x tile_y generation) present_mask =? present_mask.
Definition unacked_mask (m : SlotMap) (tile_x tile_y generation present_mask : Z) : Z :=
  Z.ldiff present_mask (acked_mask m tile_x tile_y generation).

Definition slot_handle (m : SlotMap) (tile_x tile_y : Z) (pass_idx : nat) : option Handle :=
  s ← slot_at m tile_x tile_y; h ← s.(ts_passes) !! pass_idx; h.

Definition set_handle (tile_x tile_y : Z) (pass_idx : nat) (h : option Handle) (m : SlotMap) : SlotMap :=
  slot_update (λ s, mkSlot s.(ts_current_gen) s.(ts_label) s.(ts_acked_mask) (<[pass_idx := h]> s.(ts_passes)))
    tile_x tile_y m.

Definition clear_handles (m : SlotMap) : SlotMap :=
  mkSlots m.(sm_cols) m.(sm_rows)
    ((λ s, mkSlot s.(ts_current_gen) s.(ts_label) s.(ts_acked_mask) (replicate PASS_SLOTS None)) <$> m.(sm_slots)).

(** ** The grid *)

Record slots_wf (m : SlotMap) : Prop := {
  mw_len : length m.(sm_slots) = (Z.to_nat m.(sm_cols) * Z.to_nat m.(sm_rows))%nat;
  mw_gen : Forall (λ s, 0 ≤ s.(ts_current_gen) < 16) m.(sm_slots);
  mw_mask : Forall (λ s, in_width 16 s.(ts_acked_mask)) m.(sm_slots);
  mw_passes : Forall (λ s, length s.(ts_passes) = PASS_SLOTS) m.(sm_slots);
}.

(** A tile of the grid; a [u8] coordinate is not negative. *)
Definition in_grid (cols rows : Z) (t : Z * Z) : bool := (0 <=? t.1) && (t.1 <? cols) && (0 <=? t.2) && (t.2 <? rows).
Definition u8_tile (t : Z * Z) : Prop := 0 ≤ t.1 ∧ 0 ≤ t.2.

Lemma slot_index_inj m x y x' y' i : u8_tile (x, y) → u8_tile (x', y') →
  slot_index m x y = Some i → slot_index m x' y' = Some i → (x, y) = (x', y').
Proof.
  unfold slot_index, u8_tile. cbn. intros Hu Hu'.
  destruct (Z.leb_spec (sm_cols m) x), (Z.leb_spec (sm_rows m) y); cbn; try done.
  destruct (Z.leb_spec (sm_cols m) x'), (Z.leb_spec (sm_rows m) y'); cbn; try done.
  intros [= <-] [= Heq].
  assert (Z.to_nat y' = Z.to_nat y) as Hy by nia. rewrite Hy in Heq. f_equal; lia.
Qed.

Lemma slot_index_lt m x y : slots_wf m → u8_tile (x, y) → in_grid m.(sm_cols) m.(sm_rows) (x, y) = true →
  ∃ i, slot_index m x y = Some i ∧ (i < length m.(sm_slots))%nat.
Proof.
  intros [Hlen _ _ _] _ Hin. unfold in_grid in Hin. cbn in Hin. unfold slot_index.
  rewrite (proj2 (Z.leb_gt _ _)), (proj2 (Z.leb_gt _ _)) by lia. eexists. split; [done|]. rewrite Hlen. nia.
Qed.

Lemma slot_index_grid m x y i : u8_tile (x, y) → slot_index m x y = Some i →
  in_grid m.(sm_cols) m.(sm_rows) (x, y) = true.
Proof. unfold slot_index, in_grid, u8_tile. cbn. destruct (_ || _) eqn:?; [done|]. lia. Qed.

Lemma slot_at_update f x y x' y' m : u8_tile (x, y) → u8_tile (x', y') →
  slot_at (slot_update f x y m) x' y' = if decide ((x, y) = (x', y')) then f <$> slot_at m x y else slot_at m x' y'.
Proof.
  intros Hu Hu'. unfold slot_update. destruct (slot_index m x y) as [i|] eqn:Hi; last first.
  { destruct (decide _) as [[= <- <-]|]; [|done]. unfold slot_at. by rewrite Hi. }
  unfold slot_at. change (slot_index (mkSlots _ _ _) x' y') with (slot_index m x' y').
  destruct (slot_index m x' y') as [j|] eqn:Hj; cbn; last first.
  { destruct (decide _) as [[= <- <-]|]; [|done]. congruence. }
  destruct (decide _) as [[= <- <-]|Hne].
  - assert (i = j) as <- by congruence. rewrite Hi. cbn. apply list_lookup_alter_eq.
  - rewrite list_lookup_alter_ne; [done|]. intros <-. destruct Hne. by eapply slot_index_inj.
Qed.

Lemma slot_update_wf f x y m : slots_wf m →
  (∀ s, s ∈ m.(sm_slots) → 0 ≤ (f s).(ts_current_gen) < 16 ∧ in_width 16 (f s).(ts_acked_mask) ∧ length (f s).(ts_passes) = PASS_SLOTS) →
  slots_wf (slot_update f x y m).
Proof.
  intros [Hlen Hg Hm Hp] Hf. unfold slot_update. destruct (slot_index m x y) as [i|]; [|done].
  split; cbn; [by rewrite length_alter|apply Forall_alter; [done|]..].
  all: intros s Hs _; apply list_elem_of_lookup_2 in Hs; apply Hf in Hs; tauto.
Qed.

Lemma slot_update_cols f x y m : (slot_update f x y m).(sm_cols) = m.(sm_cols).
Proof. unfold slot_update. by destruct (slot_index _ _ _). Qed.
Lemma slot_update_rows f x y m : (slot_update f x y m).(sm_rows) = m.(sm_rows).
Proof. unfold slot_update. by destruct (slot_index _ _ _). Qed.

Lemma next_gen_range g : 0 ≤ next_gen g < 16.
Proof. unfold next_gen, GENERATION_MASK. rewrite land_15. lia. Qed.

Lemma next_gen_ne g : 0 ≤ g < 16 → next_gen g ≠ g.
Proof. intros Hg. unfold next_gen, GENERATION_MASK. rewrite wrap_small by wsolve. rewrite land_15. dlia. Qed.

(** ** Handles *)

Lemma slot_handle_update f x y x' y' p m : u8_tile (x, y) → u8_tile (x', y') →
  (∀ s, (f s).(ts_passes) = s.(ts_passes)) →
  slot_handle (slot_update f x y m) x' y' p = slot_handle m x' y' p.
Proof.
  intros Hu Hu' Hf. unfold slot_handle. rewrite slot_at_update by done.
  destruct (decide _) as [[= <- <-]|]; [|done]. destruct (slot_at m x y); cbn; [by rewrite Hf|done].
Qed.

Lemma slot_at_elem m x y s : slot_at m x y = Some s → s ∈ m.(sm_slots).
Proof. unfold slot_at. destruct (slot_index m x y); cbn; [apply list_elem_of_lookup_2|done]. Qed.

Lemma slot_at_grid m x y : slots_wf m → u8_tile (x, y) →
  is_Some (slot_at m x y) ↔ in_grid m.(sm_cols) m.(sm_rows) (x, y) = true.
Proof.
  intros Hwf Hu. split.
  - intros [s Hs]. unfold slot_at in Hs. destruct (slot_index m x y) as [i|] eqn:Hi; [|done]. by eapply slot_index_grid.
  - intros Hg. destruct (slot_index_lt m x y Hwf Hu Hg) as (i & Hi & Hlt). unfold slot_at. rewrite Hi. by apply lookup_lt_is_Some.
Qed.

Lemma slot_handle_set x y p h x' y' p' m : slots_wf m → u8_tile (x, y) → u8_tile (x', y') →
  slot_handle (set_handle x y p h m) x' y' p' =
  if decide ((x, y) = (x', y') ∧ p = p' ∧ (p < PASS_SLOTS)%nat ∧ in_grid m.(sm_cols) m.(sm_rows) (x, y) = true)
  then h else slot_handle m x' y' p'.
Proof.
  intros Hwf Hu Hu'. unfold slot_handle, set_handle. rewrite slot_at_update by done.
  destruct (decide ((x, y) = (x', y'))) as [[= <- <-]|Hne]; last first.
  { by rewrite decide_False by naive_solver. }
  destruct (slot_at m x y) as [s|] eqn:Hs; cbn; last first.
  { rewrite decide_False; [done|]. intros (_ & _ & _ & Hg). apply (slot_at_grid m x y Hwf Hu) in Hg. rewrite Hs in Hg. by destruct Hg. }
  assert (in_grid (sm_cols m) (sm_rows m) (x, y) = true) as Hg by (apply slot_at_grid; [done..|by rewrite Hs]).
  assert (length (ts_passes s) = PASS_SLOTS) as Hp.
  { destruct Hwf as [_ _ _ Hp]. rewrite Forall_forall in Hp. apply Hp. by eapply slot_at_elem. }
  destruct (decide (p = p')) as [<-|Hpp].
  - destruct (decide (p < PASS_SLOTS)%nat) as [Hlt|Hge].
    + rewrite decide_True by done. by rewrite list_lookup_insert_eq by lia.
    + rewrite decide_False by tauto. by rewrite list_insert_ge by lia.
  - rewrite decide_False by tauto. by rewrite list_lookup_insert_ne by done.
Qed.

Lemma slot_handle_range m x y p h : slots_wf m → u8_tile (x, y) → slot_handle m x y p = Some h →
  in_grid m.(sm_cols) m.(sm_rows) (x, y) = true ∧ (p < PASS_SLOTS)%nat.
Proof.
  intros Hwf Hu Hh. unfold slot_handle in Hh. destruct (slot_at m x y) as [s|] eqn:Hs; cbn in Hh; [|done].
  split; [apply slot_at_grid; [done..|by rewrite Hs]|].
  destruct Hwf as [_ _ _ Hp]. rewrite Forall_forall in Hp. rewrite <-(Hp s) by by eapply slot_at_elem.
  destruct (ts_passes s !! p) eqn:E; [|done]. by eapply lookup_lt_Some.
Qed.

Lemma slots_new_wf cols rows : slots_wf (slots_new cols rows).
Proof.
  split; cbn; [by rewrite length_replicate|apply Forall_replicate; cbn..]; [lia|unfold in_width; lia|done].
Qed.

Lemma set_handle_wf x y p h m : slots_wf m → slots_wf (set_handle x y p h m).
Proof.
  intros Hwf. apply slot_update_wf; [done|]. intros s Hs. destruct Hwf as [_ Hg Hm Hp].
  rewrite Forall_forall in Hg, Hm, Hp. cbn. rewrite length_insert. auto.
Qed.

Lemma advance_wf x y m : slots_wf m → slots_wf (slot_update advance_gen x y m).
Proof.
  intros Hwf. apply slot_update_wf; [done|]. intros s Hs. destruct Hwf as [_ _ _ Hp].
  rewrite Forall_forall in Hp. cbn. split; [apply next_gen_range|]. split; [unfold in_width; lia|auto].
Qed.

Lemma relabel_wf l x y m : slots_wf m →
  slots_wf (slot_update (λ s, mkSlot s.(ts_current_gen) l s.(ts_acked_mask) s.(ts_passes)) x y m).
Proof.
  intros Hwf. apply slot_update_wf; [done|]. intros s Hs. destruct Hwf as [_ Hg Hm Hp].
  rewrite Forall_forall in Hg, Hm, Hp. cbn. auto.
Qed.

Lemma pass_bit_pow p : 0 ≤ p < 16 → pass_bit p = 2 ^ p.
Proof. intros Hp. unfold pass_bit. rewrite land_15, Z.mod_small, Z.shiftl_mul_pow2 by lia. lia. Qed.

Lemma pass_bit_width p : in_width 16 (pass_bit p).
Proof.
  unfold pass_bit. rewrite land_15, Z.shiftl_mul_pow2 by dlia.
  pose proof (Z.pow_lt_mono_r 2 (p mod 16) 16). unfold in_width. pose proof (Z.pow_pos_nonneg 2 (p mod 16)). dlia.
Qed.

Lemma lor_in_width w a b : 0 ≤ w → in_width w a → in_width w b → in_width w (Z.lor a b).
Proof.
  intros Hw Ha Hb. apply in_width_bits; [done|]. intros k Hk. rewrite Z.lor_spec. by rewrite (testbit_high w a), (testbit_high w b) by (done || lia).
Qed.

Lemma record_wf g p x y m : slots_wf m → slots_wf (slot_update (record_pass g p) x y m).
Proof.
  intros Hwf. apply slot_update_wf; [done|]. intros s Hs. destruct Hwf as [_ Hg Hm Hp].
  rewrite Forall_forall in Hg, Hm, Hp. unfold record_pass. destruct (_ =? _); cbn; [|auto].
  split; [auto|]. split; [|auto]. apply lor_in_width; [lia|auto|apply pass_bit_width].
Qed.

Lemma clear_handles_wf m : slots_wf m → slots_wf (clear_handles m).
Proof.
  intros [Hlen Hg Hm Hp]. split; cbn; [by rewrite length_fmap|apply Forall_fmap..]; [done|done|].
  by apply Forall_true.
Qed.

(** ** Specification: every tile on its own *)

(** What is known of a tile: its generation, the passes acknowledged since it was
    advanced, and the label its datagrams carry. *)
Record TileSpec : Type := mkSpec { sp_gen : Z; sp_acked : gset Z; sp_label : option Z }.
Definition spec_new : TileSpec := mkSpec 0 ∅ None.

Inductive slot_event : Type :=
| Ev_bump (t : Z * Z)
| Ev_ack (t : Z * Z) (generation pass_idx : Z)
| Ev_label (t : Z * Z) (seq : Z)
| Ev_clear_label (t : Z * Z)
| Ev_handle (t : Z * Z) (pass_idx : nat) (h : option Handle)
| Ev_clear_handles.

Definition event_ok (ev : slot_event) : Prop :=
  match ev with
  | Ev_bump t | Ev_label t _ | Ev_clear_label t | Ev_handle t _ _ => u8_tile t
  | Ev_ack t _ p => u8_tile t ∧ 0 ≤ p < 16
  | Ev_clear_handles => True
  end.

Definition slot_step {E} (ev : slot_event) (m : SlotMap) : outcome E SlotMap :=
  match ev with
  | Ev_bump t => mret (slot_bump_generation t.1 t.2 m).1
  | Ev_ack t g p => record_ack t.1 t.2 g p m
  | Ev_label t seq => mret (label_or_assign t.1 t.2 seq m).1
  | Ev_clear_label t => mret (clear_label t.1 t.2 m)
  | Ev_handle t p h => mret (set_handle t.1 t.2 p h m)
  | Ev_clear_handles => mret (clear_handles m)
  end.

Fixpoint slot_run {E} (evs : list slot_event) (m : SlotMap) : outcome E SlotMap :=
  match evs with
  | [] => mret m
  | ev :: evs => m' ← slot_step ev m; slot_run evs m'
  end.

(** The same event, as tile [t] sees it. *)
Definition spec_step (t : Z * Z) (ev : slot_event) (s : TileSpec) : TileSpec :=
  match ev with
  | Ev_bump u => if decide (u = t) then mkSpec (next_gen s.(sp_gen)) ∅ None else s
  | Ev_ack u g p =>
      if decide (u = t ∧ g = s.(sp_gen)) then mkSpec s.(sp_gen) ({[ p ]} ∪ s.(sp_acked)) s.(sp_label) else s
  | Ev_label u seq => if decide (u = t) then mkSpec s.(sp_gen) s.(sp_acked) (Some (default seq s.(sp_label))) else s
  | Ev_clear_label u => if decide (u = t) then mkSpec s.(sp_gen) s.(sp_acked) None else s
  | Ev_handle _ _ _ | Ev_clear_handles => s
  end.
Definition spec_run (t : Z * Z) (evs : list slot_event) (s : TileSpec) : TileSpec :=
  foldl (λ s ev, spec_step t ev s) s evs.

Record slot_meets (s : TileSlot) (sp : TileSpec) : Prop := {
  sm_gen_is : s.(ts_current_gen) = sp.(sp_gen);
  sm_label_is : s.(ts_label) = sp.(sp_label);
  sm_acked_is : ∀ b, 0 ≤ b → Z.testbit s.(ts_acked_mask) b = bool_decide (b ∈ sp.(sp_acked));
}.

Definition tile_meets (m : SlotMap) (t : Z * Z) (sp : TileSpec) : Prop :=
  ∃ s, slot_at m t.1 t.2 = Some s ∧ slot_meets s sp.

Lemma record_pass_meets s sp g p : 0 ≤ p < 16 → slot_meets s sp →
  slot_meets (record_pass g p s)
    (if decide (g = sp.(sp_gen)) then mkSpec sp.(sp_gen) ({[ p ]} ∪ sp.(sp_acked)) sp.(sp_label) else sp).
Proof.
  intros Hp [Hg Hl Ha]. unfold record_pass. rewrite Hg. destruct (Z.eqb_spec (sp_gen sp) g) as [<-|Hne].
  - rewrite decide_True by done. split; cbn; [done..|]. intros b Hb.
    rewrite Z.lor_spec, Ha, pass_bit_pow, testbit_pow2 by lia.
    destruct (Z.eqb_spec p b) as [<-|Hpb]; [rewrite orb_true_r, bool_decide_eq_true_2; [done|set_solver]|].
    rewrite orb_false_r. apply bool_decide_ext. set_solver.
  - rewrite decide_False by done. by split.
Qed.

Lemma slot_step_spec {E} ev m : slots_wf m → event_ok ev →
  ∃ m', slot_step (E:=E) ev m = Ok m' ∧ slots_wf m' ∧ m'.(sm_cols) = m.(sm_cols) ∧ m'.(sm_rows) = m.(sm_rows) ∧
    ∀ t sp, u8_tile t → tile_meets m t sp → tile_meets m' t (spec_step t ev sp).
Proof.
  assert (∀ f u m t sp sp', u8_tile u → u8_tile t → tile_meets m t sp →
    (∀ s, slot_at m u.1 u.2 = Some s → slot_meets s sp → slot_meets (f s) sp') →
    tile_meets (slot_update f u.1 u.2 m) t (if decide (u = t) then sp' else sp)) as Hupd.
  { intros f [x y] m0 [x' y'] sp sp' Hu Ht (s & Hs & Hm) Hf. unfold tile_meets. cbn in *. rewrite slot_at_update by done.
    destruct (decide _) as [[= <- <-]|Hne]; [|by exists s]. rewrite Hs. cbn. eauto. }
  intros Hwf Hok. destruct ev as [u|u g p|u seq|u|u p h|]; cbn [slot_step].
  - eexists. split; [done|]. cbn. split; [by apply advance_wf|].
    split; [apply slot_update_cols|]. split; [apply slot_update_rows|].
    intros t sp Ht Hm. cbn. apply Hupd; [done..|]. intros s _ [Hg _ _]. split; cbn; [by rewrite Hg|done|].
    intros b _. by rewrite Z.bits_0, bool_decide_eq_false_2 by set_solver.
  - destruct Hok as [Hu Hp]. unfold record_ack, assert_. rewrite (proj2 (Z.ltb_lt _ _)) by lia. rewrite bind_Ok.
    eexists. split; [done|]. cbn. split; [by apply record_wf|].
    split; [apply slot_update_cols|]. split; [apply slot_update_rows|].
    intros t sp Ht Hm. cbn. eapply (Hupd (record_pass g p) u) in Hm; [|done|done|by intros; apply record_pass_meets].
    repeat case_decide; done || tauto.
  - eexists. split; [done|]. unfold label_or_assign. destruct (slot_at m u.1 u.2) as [s0|] eqn:Hs0; cbn; last first.
    { split; [done|]. split; [done|]. split; [done|]. intros t sp Ht Hm. destruct (decide (u = t)) as [->|]; [|done].
      destruct Hm as (s & Hs & _). congruence. }
    split; [by apply relabel_wf|].
    split; [apply slot_update_cols|]. split; [apply slot_update_rows|].
    intros t sp Ht Hm. cbn. apply Hupd; [done..|]. intros s Hs [Hg Hl Ha].
    rewrite Hs0 in Hs. simplify_eq. by split; cbn; [|rewrite Hl|].
  - eexists. split; [done|]. cbn. split; [by apply relabel_wf|].
    split; [apply slot_update_cols|]. split; [apply slot_update_rows|].
    intros t sp Ht Hm. cbn. apply Hupd; [done..|]. intros s _ [Hg _ Ha]. by split.
  - eexists. split; [done|]. cbn. split; [by apply set_handle_wf|].
    split; [apply slot_update_cols|]. split; [apply slot_update_rows|].
    intros t sp Ht Hm. cbn. assert (sp = if decide (u = t) then sp else sp) as -> by by destruct (decide _).
    apply Hupd; [done..|]. intros s _ [Hg Hl Ha]. by split.
  - eexists. split; [done|]. cbn. split; [by apply clear_handles_wf|]. split; [done|]. split; [done|].
    intros t sp Ht (s & Hs & [Hg Hl Ha]). unfold tile_meets, slot_at in *.
    change (slot_index (clear_handles m)) with (slot_index m). destruct (slot_index m t.1 t.2) as [i|]; [|done].
    cbn in *. rewrite list_lookup_fmap, Hs. eexists. split; [done|]. by split.
Qed.

Lemma slot_run_spec {E} evs m : slots_wf m → Forall event_ok evs →
  ∃ m', slot_run (E:=E) evs m = Ok m' ∧ slots_wf m' ∧ m'.(sm_cols) = m.(sm_cols) ∧ m'.(sm_rows) = m.(sm_rows) ∧
    ∀ t sp, u8_tile t → tile_meets m t sp → tile_meets m' t (spec_run t evs sp).
Proof.
  induction evs as [|ev evs IH] in m |- *; intros Hwf Hok; cbn [slot_run]; [by exists m|].
  inversion Hok as [|? ? Hev Hevs]; subst.
  destruct (slot_step_spec (E:=E) ev m Hwf Hev) as (m1 & -> & Hwf1 & Hc & Hr & Hm1). rewrite bind_Ok.
  destruct (IH m1 Hwf1 Hevs) as (m2 & -> & Hwf2 & Hc2 & Hr2 & Hm2). exists m2.
  split; [done|]. split; [done|]. split; [congruence|]. split; [congruence|]. intros t sp Ht Hm. cbn. eauto.
Qed.

Lemma land_eq_r a b : (Z.land a b =? b) = true ↔ ∀ k, 0 ≤ k → Z.testbit b k = true → Z.testbit a k = true.
Proof.
  rewrite Z.eqb_eq. split.
  - intros <- k Hk. rewrite Z.land_spec. by intros [? _]%andb_prop.
  - intros H. apply Z.bits_inj'. intros k Hk. rewrite Z.land_spec. destruct (Z.testbit b k) eqn:E; [|by rewrite andb_false_r].
    by rewrite H.
Qed.

(** C34: Every tile of the grid is tracked on its own, and only its live generation counts.  After any
    sequence of bumps, acknowledgements, labellings and handle updates on a new grid,
    starting from no knowledge of the tile: its generation and label are those of the
    events that name it, and every reader answers from the passes acknowledged at the
    live generation since it was advanced: which are missing, whether all the passes
    present have arrived, whether an acknowledgement is new. *)
Theorem slot_map_tracks_tiles {E} cols rows evs t g present : Forall event_ok evs → u8_tile t →
  in_grid cols rows t = true →
  ∃ m, slot_run (E:=E) evs (slots_new cols rows) = Ok m ∧
    let sp := spec_run t evs spec_new in
    slot_generation m t.1 t.2 = sp.(sp_gen) ∧ 0 ≤ sp.(sp_gen) < 16 ∧
    (∀ seq, (label_or_assign t.1 t.2 seq m).2 = default seq sp.(sp_label)) ∧
    (∀ p, 0 ≤ p < 16 → is_new_ack m t.1 t.2 g p = bool_decide (g = sp.(sp_gen) ∧ p ∉ sp.(sp_acked))) ∧
    (∀ p, 0 ≤ p → Z.testbit (unacked_mask m t.1 t.2 g present) p =
       Z.testbit present p && negb (bool_decide (g = sp.(sp_gen) ∧ p ∈ sp.(sp_acked)))) ∧
    (fully_acked m t.1 t.2 g present = true ↔
       ∀ p, 0 ≤ p → Z.testbit present p = true → g = sp.(sp_gen) ∧ p ∈ sp.(sp_acked)).
Proof.
  intros Hok Ht Hg. destruct (slot_run_spec (E:=E) evs _ (slots_new_wf cols rows) Hok) as (m & Hr & Hwf & Hc & Hro & Hm).
  exists m. split; [done|]. cbv zeta. specialize (Hm t spec_new Ht). destruct t as [x y].
  destruct Hm as (s & Hs & [Hsg Hl Ha]).
  { destruct (slot_index_lt (slots_new cols rows) x y (slots_new_wf _ _) Ht Hg) as (i & Hi & Hlt).
    exists slot_default. split; [|split; cbn; [done..|]; intros b Hb; by rewrite Z.bits_0, bool_decide_eq_false_2 by set_solver].
    unfold slot_at. cbn [fst snd]. rewrite Hi. cbn in *. rewrite length_replicate in Hlt. by apply lookup_replicate. }
  set (sp := spec_run _ _ _) in *. cbn [fst snd] in *.
  assert (∀ p, 0 ≤ p → Z.testbit (acked_mask m x y g) p = bool_decide (g = sp_gen sp ∧ p ∈ sp_acked sp)) as Hmask.
  { intros p Hp. unfold acked_mask. rewrite Hs, Hsg. destruct (Z.eqb_spec (sp_gen sp) g) as [<-|Hne].
    - rewrite Ha by done. apply bool_decide_ext. tauto.
    - rewrite Z.bits_0. symmetry. apply bool_decide_eq_false. intros [-> _]. done. }
  split; [unfold slot_generation; by rewrite Hs|]. split.
  { rewrite <-Hsg. destruct Hwf as [_ Hgen _ _]. rewrite Forall_forall in Hgen. apply Hgen. by eapply slot_at_elem. }
  split; [intros seq; unfold label_or_assign; rewrite Hs; cbn; by rewrite Hl|]. split; [|split].
  - intros p Hp. unfold is_new_ack. rewrite Hs, Hsg. destruct (Z.eqb_spec (sp_gen sp) g) as [<-|Hne].
    + rewrite pass_bit_pow by done. rewrite <-(negb_involutive (_ =? 0)), bit_set, Ha by lia.
      rewrite <-bool_decide_not. apply bool_decide_ext. tauto.
    + symmetry. apply bool_decide_eq_false. intros [-> _]. done.
  - intros p Hp. unfold unacked_mask. by rewrite Z.ldiff_spec, Hmask.
  - unfold fully_acked. rewrite land_eq_r. split; intros H p Hp Hb; specialize (H p Hp Hb).
    + rewrite Hmask in H by done. by apply bool_decide_eq_true in H.
    + rewrite Hmask by done. by apply bool_decide_eq_true.
Qed.

Example slot_map_tracks_tiles_witness :
  let evs := [Ev_bump (1, 1); Ev_ack (1, 1) 1 3; Ev_ack (0, 1) 0 2; Ev_ack (1, 1) 0 5; Ev_label (1, 1) 9] in
  ∃ m, slot_run (E:=Empty_set) evs (slots_new 2 2) = Ok m ∧
    let sp := spec_run (1, 1) evs spec_new in
    slot_generation m 1 1 = sp.(sp_gen) ∧ 0 ≤ sp.(sp_gen) < 16 ∧
    (∀ seq, (label_or_assign 1 1 seq m).2 = default seq sp.(sp_label)) ∧
    (∀ p, 0 ≤ p < 16 → is_new_ack m 1 1 1 p = bool_decide (1 = sp.(sp_gen) ∧ p ∉ sp.(sp_acked))) ∧
    (∀ p, 0 ≤ p → Z.testbit (unacked_mask m 1 1 1 0x3FFF) p =
       Z.testbit 0x3FFF p && negb (bool_decide (1 = sp.(sp_gen) ∧ p ∈ sp.(sp_acked)))) ∧
    (fully_acked m 1 1 1 0x3FFF = true ↔
       ∀ p, 0 ≤ p → Z.testbit 0x3FFF p = true → 1 = sp.(sp_gen) ∧ p ∈ sp.(sp_acked)).
Proof.
  apply (slot_map_tracks_tiles 2 2 _ (1, 1) 1 0x3FFF); [|by vm_compute|done].
  repeat constructor; cbn; unfold u8_tile; cbn; lia.
Defined.
