(* ===== verification/Deficit.v ===== *)
(** * Tiles with refinement work queued ([RefinementDeficit] of [transport/scheduler.rs])

    The incremental count that replaced a walk over the refinement queue: per tile, how many
    entries are queued, and how many tiles have any.

    Specification: the list of the tiles of the queued entries.  The counter of every tile
    is its multiplicity in that list, and the total is the number of different tiles of
    the grid in it. *)

From Stdlib Require Import ZArith Lia.
From S2P Require Import Prelude SlotMap.
From stdpp Require Import base option numbers list gmap.

Local Open Scope Z_scope.

(** ** Definitions *)

(** The [u32] counters count entries of the slab, of which there are at most [2^32], so
    they are [nat]s. *)
Record RefinementDeficit : Type := mkDeficit { rd_cols : Z; rd_per_tile : list nat; rd_tiles : nat }.

Definition deficit_new (cols rows : Z) : RefinementDeficit :=
  mkDeficit cols (replicate (Z.to_nat cols * Z.to_nat rows) 0%nat) 0.
Definition deficit_reset (cols rows : Z) (_ : RefinementDeficit) : RefinementDeficit := deficit_new cols rows.

Definition deficit_index (d : RefinementDeficit) (tile_x tile_y : Z) : option nat :=
  if d.(rd_cols) <=? tile_x then None
  else let i := (Z.to_nat tile_y * Z.to_nat d.(rd_cols) + Z.to_nat tile_x)%nat in
       if (i <? length d.(rd_per_tile))%nat then Some i else None.

Definition deficit_push (tile_x tile_y : Z) (d : RefinementDeficit) : RefinementDeficit :=
  match deficit_index d tile_x tile_y with
  | Some i =>
      let n := default 0%nat (d.(rd_per_tile) !! i) in
      mkDeficit d.(rd_cols) (<[i := S n]> d.(rd_per_tile)) (if (n =? 0)%nat then S d.(rd_tiles) else d.(rd_tiles))
  | None => d
  end.

Definition deficit_pop {E} (tile_x tile_y : Z) (d : RefinementDeficit) : outcome E RefinementDeficit :=
  match deficit_index d tile_x tile_y with
  | Some i =>
      let n := default 0%nat (d.(rd_per_tile) !! i) in
      _ ← assert_ (0 <? n)%nat;
      mret (mkDeficit d.(rd_cols) (<[i := pred n]> d.(rd_per_tile))
              (if (pred n =? 0)%nat then pred d.(rd_tiles) else d.(rd_tiles)))
  | None => mret d
  end.

(** ** Specification *)

Definition tile_at (d : RefinementDeficit) (i : nat) (t : Z * Z) : bool :=
  match deficit_index d t.1 t.2 with Some j => (j =? i)%nat | None => false end.

Definition tally (d : RefinementDeficit) (i : nat) (ts : list (Z * Z)) : nat :=
  length (filter (λ t, tile_at d i t = true) ts).

Definition nonzero (l : list nat) : nat := length (filter (λ n, n ≠ 0%nat) l).

(** [rows] is how many rows the counters were made for. *)
Record deficit_meets (rows : Z) (ts : list (Z * Z)) (d : RefinementDeficit) : Prop := {
  dm_len : length d.(rd_per_tile) = (Z.to_nat d.(rd_cols) * Z.to_nat rows)%nat;
  dm_count : ∀ i, (i < length d.(rd_per_tile))%nat → d.(rd_per_tile) !! i = Some (tally d i ts);
  dm_tiles : d.(rd_tiles) = nonzero d.(rd_per_tile);
}.

Lemma deficit_new_meets cols rows : deficit_meets rows [] (deficit_new cols rows).
Proof.
  split; cbn.
  - by rewrite length_replicate.
  - intros i Hi. rewrite length_replicate in Hi. by apply lookup_replicate.
  - unfold nonzero. induction (_ * _)%nat; [done|]. cbn. by rewrite decide_False by lia.
Qed.

Lemma tile_at_same d d' i t : d'.(rd_cols) = d.(rd_cols) → length d'.(rd_per_tile) = length d.(rd_per_tile) →
  tile_at d' i t = tile_at d i t.
Proof. intros Hc Hl. unfold tile_at, deficit_index. by rewrite Hc, Hl. Qed.

Lemma tally_same d d' i ts : d'.(rd_cols) = d.(rd_cols) → length d'.(rd_per_tile) = length d.(rd_per_tile) →
  tally d' i ts = tally d i ts.
Proof.
  intros Hc Hl. unfold tally. f_equal. apply filter_agree. apply Forall_true. intros t. by rewrite (tile_at_same d).
Qed.

Lemma tally_perm d i ts ts' : ts ≡ₚ ts' → tally d i ts = tally d i ts'.
Proof. intros Hp. unfold tally. by rewrite Hp. Qed.

Lemma deficit_meets_perm rows ts ts' d : ts ≡ₚ ts' → deficit_meets rows ts d → deficit_meets rows ts' d.
Proof. intros Hp [Hl Hc Ht]. split; [done| |done]. intros i Hi. by rewrite <-(tally_perm d i ts ts'), Hc. Qed.

Lemma tally_cons d i t ts : tally d i (t :: ts) = ((if tile_at d i t then 1 else 0) + tally d i ts)%nat.
Proof. unfold tally. cbn. destruct (tile_at d i t); [by rewrite decide_True|by rewrite decide_False]. Qed.

Lemma nonzero_insert l i y x : l !! i = Some y →
  (nonzero (<[i := x]> l) + (if (y =? 0)%nat then 0 else 1) = nonzero l + (if (x =? 0)%nat then 0 else 1))%nat.
Proof.
  unfold nonzero. revert i. induction l as [|z l IH]; intros [|i] Hi; [done..| |].
  - cbn in Hi. simplify_eq. change (<[0%nat:=x]> (y :: l)) with (x :: l). rewrite !filter_cons.
    destruct (Nat.eqb_spec y 0), (Nat.eqb_spec x 0); repeat case_decide; cbn [length]; lia.
  - change (<[S i:=x]> (z :: l)) with (z :: <[i:=x]> l). rewrite !filter_cons. specialize (IH i Hi).
    destruct (decide (z ≠ 0%nat)); cbn [length]; lia.
Qed.

Lemma deficit_index_lt d x y i : deficit_index d x y = Some i → (i < length d.(rd_per_tile))%nat.
Proof.
  unfold deficit_index. destruct (_ <=? _); [done|]. cbv zeta. destruct (Nat.ltb_spec (Z.to_nat y * Z.to_nat (rd_cols d) + Z.to_nat x) (length (rd_per_tile d))); [|done].
  by intros [= <-].
Qed.

Lemma deficit_push_meets rows x y ts d : deficit_meets rows ts d → deficit_meets rows ((x, y) :: ts) (deficit_push x y d).
Proof.
  intros [Hl Hc Ht]. unfold deficit_push. destruct (deficit_index d x y) as [i|] eqn:Hi; last first.
  { split; [done| |done]. intros j Hj. rewrite Hc, tally_cons by done. unfold tile_at. cbn. by rewrite Hi. }
  pose proof (deficit_index_lt _ _ _ _ Hi) as Hlt. rewrite (Hc i Hlt). cbn [default from_option id]. split; cbn [rd_cols rd_per_tile rd_tiles]; [by rewrite length_insert| |].
  - intros j. rewrite length_insert. intros Hj. rewrite (tally_same d (mkDeficit _ _ _)) by (cbn [rd_cols rd_per_tile]; rewrite ?length_insert; done).
    rewrite tally_cons. unfold tile_at. cbn. rewrite Hi. destruct (Nat.eqb_spec i j) as [->|Hne].
    + by rewrite list_lookup_insert_eq by done.
    + by rewrite list_lookup_insert_ne, Hc by done.
  - pose proof (nonzero_insert _ i _ (S (tally d i ts)) (Hc i Hlt)) as Hn. cbn in Hn.
    destruct (tally d i ts =? 0)%nat; lia.
Qed.

Lemma deficit_pop_meets {E} rows x y ts d : deficit_meets rows ((x, y) :: ts) d →
  ∃ d', deficit_pop (E:=E) x y d = Ok d' ∧ deficit_meets rows ts d' ∧ d'.(rd_cols) = d.(rd_cols).
Proof.
  intros [Hl Hc Ht]. unfold deficit_pop. destruct (deficit_index d x y) as [i|] eqn:Hi; last first.
  { eexists. split; [done|]. split; [|done]. split; [done| |done]. intros j Hj. rewrite Hc, tally_cons by done. unfold tile_at. cbn. by rewrite Hi. }
  pose proof (deficit_index_lt _ _ _ _ Hi) as Hlt.
  assert (tally d i ((x, y) :: ts) = S (tally d i ts)) as Hcnt.
  { rewrite tally_cons. unfold tile_at. cbn. by rewrite Hi, Nat.eqb_refl. }
  rewrite (Hc i Hlt). cbn [default from_option id]. rewrite Hcnt. cbn [Nat.ltb Nat.leb assert_ pred]. rewrite bind_Ok.
  eexists. split; [done|]. split; [|done]. split; cbn [rd_cols rd_per_tile rd_tiles]; [by rewrite length_insert| |].
  - intros j. rewrite length_insert. intros Hj. rewrite (tally_same d (mkDeficit _ _ _)) by (cbn [rd_cols rd_per_tile]; rewrite ?length_insert; done).
    destruct (decide (i = j)) as [->|Hne]; [by rewrite list_lookup_insert_eq by done|].
    rewrite list_lookup_insert_ne, Hc, tally_cons by done. unfold tile_at. cbn. rewrite Hi.
    by destruct (Nat.eqb_spec i j).
  - pose proof (nonzero_insert _ i _ (tally d i ts) (Hc i Hlt)) as Hn. rewrite Hcnt in Hn. cbn in Hn.
    destruct (tally d i ts =? 0)%nat; lia.
Qed.

(** ** The count of tiles *)

Lemma tile_at_grid d rows i x y : length d.(rd_per_tile) = (Z.to_nat d.(rd_cols) * Z.to_nat rows)%nat → u8_tile (x, y) →
  deficit_index d x y = Some i → in_grid d.(rd_cols) rows (x, y) = true.
Proof.
  intros Hl [Hx Hy] Hi. cbn in *. unfold deficit_index, in_grid in *. cbn.
  destruct (Z.leb_spec (rd_cols d) x); [done|]. cbv zeta in Hi. rewrite Hl in Hi.
  destruct (Nat.ltb_spec (Z.to_nat y * Z.to_nat (rd_cols d) + Z.to_nat x) (Z.to_nat (rd_cols d) * Z.to_nat rows)); [|done]. nia.
Qed.

Lemma grid_index d rows x y : length d.(rd_per_tile) = (Z.to_nat d.(rd_cols) * Z.to_nat rows)%nat →
  in_grid d.(rd_cols) rows (x, y) = true → is_Some (deficit_index d x y).
Proof.
  intros Hl Hg. unfold in_grid in Hg. cbn in Hg. unfold deficit_index. rewrite (proj2 (Z.leb_gt _ _)) by lia. cbv zeta.
  rewrite Hl, (proj2 (Nat.ltb_lt _ _)) by nia. done.
Qed.

Lemma deficit_index_inj d x y x' y' i : u8_tile (x, y) → u8_tile (x', y') →
  deficit_index d x y = Some i → deficit_index d x' y' = Some i → (x, y) = (x', y').
Proof.
  unfold deficit_index, u8_tile. cbn. intros Hu Hu'.
  destruct (Z.leb_spec (rd_cols d) x), (Z.leb_spec (rd_cols d) x'); try done.
  cbv zeta. repeat match goal with |- context [if ?b then _ else _] => destruct b; [|done] end. intros [= <-] [= Heq].
  assert (Z.to_nat y' = Z.to_nat y) as Hy by nia. rewrite Hy in Heq. f_equal; lia.
Qed.

Lemma nonzero_positions l : nonzero l = length (filter (λ i, default 0%nat (l !! i) ≠ 0%nat) (seq 0 (length l))).
Proof.
  unfold nonzero. induction l as [|n l IH] using rev_ind; [done|].
  rewrite length_app, Nat.add_1_r, seq_S, !filter_app, !length_app, IH. f_equal.
  - f_equal. apply filter_agree. apply Forall_forall. intros i Hi%elem_of_seq. by rewrite lookup_app_l by lia.
  - cbn. rewrite lookup_app_r, Nat.sub_diag by lia. cbn. repeat case_decide; done.
Qed.

(** The total is the number of tiles of the grid with an entry queued. *)
Lemma deficit_tiles_distinct rows ts d : deficit_meets rows ts d → Forall u8_tile ts →
  d.(rd_tiles) = size (list_to_set (filter (λ t, in_grid d.(rd_cols) rows t = true) ts) : gset (Z * Z)).
Proof.
  intros [Hl Hc Ht] Hu. rewrite Ht, nonzero_positions. set (grid := filter _ ts).
  set (X := list_to_set grid : gset (Z * Z)).
  rewrite Forall_forall in Hu.
  assert (∀ t, t ∈ elements X ↔ t ∈ ts ∧ in_grid d.(rd_cols) rows t = true) as HX.
  { intros t. unfold X, grid. rewrite elem_of_elements, elem_of_list_to_set, list_elem_of_filter. tauto. }
  assert (∀ l, NoDup l → (∀ t, t ∈ l → t ∈ ts ∧ in_grid d.(rd_cols) rows t = true) →
    NoDup (omap (λ t, deficit_index d t.1 t.2) l) ∧ length (omap (λ t, deficit_index d t.1 t.2) l) = length l) as Hmap.
  { induction l as [|[x y] l IH]; intros Hnd Hin; [by split; [constructor|]|].
    inversion Hnd as [|? ? Hni Hnd']; subst. destruct IH as [IHn IHl]; [done|intros t Ht'; apply Hin; by right|].
    destruct (Hin (x, y)) as [Hts Hg]; [left|]. destruct (grid_index d rows x y Hl Hg) as [i Hi]. cbn. rewrite Hi. cbn.
    split; [|by rewrite IHl]. constructor; [|done]. intros (t & Htl & Hti)%list_elem_of_omap. destruct t as [x' y'].
    destruct (Hin (x', y')) as [Hts' _]; [by right|]. cbn in Hti.
    assert ((x, y) = (x', y')) as [= <- <-] by (eapply deficit_index_inj; eauto). done. }
  destruct (Hmap (elements X)) as [Hnd Hlen]; [apply NoDup_elements|apply HX|].
  unfold size, set_size. cbn. rewrite <-Hlen. apply Permutation_length, NoDup_Permutation; [|done|].
  { apply NoDup_filter, NoDup_seq. }
  intros i. rewrite list_elem_of_filter, elem_of_seq, list_elem_of_omap. split.
  - intros [Hne [_ Hlt]]. cbn in Hlt. rewrite Hc in Hne by done. cbn in Hne. unfold tally in Hne.
    destruct (filter (λ t, tile_at d i t = true) ts) as [|[x y] rest] eqn:Hf; [done|].
    assert ((x, y) ∈ filter (λ t, tile_at d i t = true) ts) as Hin by (rewrite Hf; left).
    apply list_elem_of_filter in Hin as [Hat Hts]. unfold tile_at in Hat. cbn in Hat.
    destruct (deficit_index d x y) as [j|] eqn:Hj; [|done]. apply Nat.eqb_eq in Hat as ->.
    exists (x, y). split; [|done]. apply HX. split; [done|]. eapply tile_at_grid; eauto.
  - intros ([x y] & [Hts Hg]%HX & Hi). pose proof (deficit_index_lt _ _ _ _ Hi) as Hlt. rewrite Hc by done. cbn.
    split; [|lia]. unfold tally. intros Hz%length_zero_iff_nil.
    assert ((x, y) ∈ filter (λ t, tile_at d i t = true) ts) as Hin.
    { apply list_elem_of_filter. split; [|done]. unfold tile_at. rewrite Hi. apply Nat.eqb_refl. }
    rewrite Hz in Hin. by apply elem_of_nil in Hin.
Qed.
