(* ===== verification/Scheduler.v ===== *)
(** * The send scheduler ([transport/scheduler.rs])

    Every tile-codec emission goes through it: single-pass tiles wait in a FIFO with
    acknowledgement-driven retry, progressive passes in one bucket per pass drained in
    pass-major order, and every tick splits a byte budget between the two.

    The work items are in the slab ([Slab]); the queues hold handles; [SlotMap]
    files the handle of the live item of every tile and pass; [Deficit] counts the tiles
    with progressive work queued.  [debug_assert!] panics here as it does in a debug
    build.  Times are nanoseconds, sizes are unbounded integers except where the source
    saturates.  The theorems are in [SchedulerTheory]. *)

From Stdlib Require Import ZArith Lia SpecFloat.
From S2P Require Import Prelude Wire Cdf53Passes Slab SlotMap Deficit F32.
From stdpp Require Import base option numbers list gmap.

Local Open Scope Z_scope.

(** ** Data *)

Inductive WorkState : Type := Pending | InFlight | Acked | Superseded.
#[export] Instance work_state_eq_dec : EqDecision WorkState.
Proof. solve_decision. Defined.

Definition is_pending (s : WorkState) : bool := match s with Pending => true | _ => false end.
(** [matches!(s, Pending | InFlight)] and its complement. *)
Definition is_live (s : WorkState) : bool := match s with Pending | InFlight => true | Acked | Superseded => false end.
Definition is_terminal (s : WorkState) : bool := negb (is_live s).

Record TileWork : Type := mkWork {
  tw_tile_x : Z; tw_tile_y : Z; tw_generation : Z; tw_pass_idx : Z; tw_total_passes : Z;
  tw_codec : Codec; tw_payload : list Z; tw_queued_at : Z; tw_last_sent_at : option Z; tw_state : WorkState;
}.
Definition tw_tile (w : TileWork) : Z * Z := (w.(tw_tile_x), w.(tw_tile_y)).
Definition set_state (st : WorkState) (w : TileWork) : TileWork :=
  mkWork w.(tw_tile_x) w.(tw_tile_y) w.(tw_generation) w.(tw_pass_idx) w.(tw_total_passes) w.(tw_codec)
    w.(tw_payload) w.(tw_queued_at) w.(tw_last_sent_at) st.
(** [queued_at = now; last_sent_at = None; state = Pending] *)
Definition stamp_queued (now : Z) (w : TileWork) : TileWork :=
  mkWork w.(tw_tile_x) w.(tw_tile_y) w.(tw_generation) w.(tw_pass_idx) w.(tw_total_passes) w.(tw_codec)
    w.(tw_payload) now None Pending.
(** [state = InFlight; last_sent_at = Some(now)] *)
Definition stamp_sent (now : Z) (w : TileWork) : TileWork :=
  mkWork w.(tw_tile_x) w.(tw_tile_y) w.(tw_generation) w.(tw_pass_idx) w.(tw_total_passes) w.(tw_codec)
    w.(tw_payload) w.(tw_queued_at) (Some now) InFlight.

Record ResolvedTileWork : Type := mkResolved {
  rw_tile_x : Z; rw_tile_y : Z; rw_generation : Z; rw_pass : Z; rw_codec : Codec;
  rw_palette_id : option Z; rw_palette_bundled : bool; rw_via_ack : bool;
}.

Record FreshRun : Type := mkFresh { fr_start : option nat; fr_cursor_pushed : bool }.
Definition fresh_default : FreshRun := mkFresh None false.

Record Scheduler : Type := mkSched {
  sc_cols : Z; sc_rows : Z;
  sc_work : Slab TileWork;
  sc_priority_order : list Handle;
  sc_refinement_order : list (list Handle);
  sc_refinement_cursor : list (option (Z * Z));
  sc_refinement_fresh : list FreshRun;
  sc_pending_items : nat;
  sc_deficit : RefinementDeficit;
  sc_retry_after : Z;
  sc_item_overhead : Z;
  sc_fraction : f32;
  sc_last_refinement_budget : Z;
  sc_last_tick_retries : list nat;
  sc_window_emitted : Z; sc_window_acked : Z;
  sc_low_rounds : Z; sc_high_rounds : Z;
  sc_slots : SlotMap;
}.

Definition millis (n : Z) : Z := n * 1000000.

Definition sched_new (cols rows : Z) : Scheduler :=
  mkSched cols rows slab_new [] (replicate PASS_SLOTS []) (replicate PASS_SLOTS None) (replicate PASS_SLOTS fresh_default)
    0 (deficit_new cols rows) (millis 40) 0 (f32_lit 1 5) 0 [] 0 0 0 0 (slots_new cols rows).

(** The queue state, replaced together. *)
Definition with_queues (work : Slab TileWork) (pending : nat) (slots : SlotMap) (s : Scheduler) : Scheduler :=
  mkSched s.(sc_cols) s.(sc_rows) work s.(sc_priority_order) s.(sc_refinement_order) s.(sc_refinement_cursor)
    s.(sc_refinement_fresh) pending s.(sc_deficit) s.(sc_retry_after) s.(sc_item_overhead) s.(sc_fraction)
    s.(sc_last_refinement_budget) s.(sc_last_tick_retries) s.(sc_window_emitted) s.(sc_window_acked)
    s.(sc_low_rounds) s.(sc_high_rounds) slots.
Definition with_slots (slots : SlotMap) (s : Scheduler) : Scheduler :=
  with_queues s.(sc_work) s.(sc_pending_items) slots s.
Definition with_priority (order : list Handle) (s : Scheduler) : Scheduler :=
  mkSched s.(sc_cols) s.(sc_rows) s.(sc_work) order s.(sc_refinement_order) s.(sc_refinement_cursor)
    s.(sc_refinement_fresh) s.(sc_pending_items) s.(sc_deficit) s.(sc_retry_after) s.(sc_item_overhead) s.(sc_fraction)
    s.(sc_last_refinement_budget) s.(sc_last_tick_retries) s.(sc_window_emitted) s.(sc_window_acked)
    s.(sc_low_rounds) s.(sc_high_rounds) s.(sc_slots).
Definition with_refinement (order : list (list Handle)) (cursor : list (option (Z * Z))) (fresh : list FreshRun)
    (deficit : RefinementDeficit) (s : Scheduler) : Scheduler :=
  mkSched s.(sc_cols) s.(sc_rows) s.(sc_work) s.(sc_priority_order) order cursor fresh s.(sc_pending_items) deficit
    s.(sc_retry_after) s.(sc_item_overhead) s.(sc_fraction)
    s.(sc_last_refinement_budget) s.(sc_last_tick_retries) s.(sc_window_emitted) s.(sc_window_acked)
    s.(sc_low_rounds) s.(sc_high_rounds) s.(sc_slots).
Definition with_window (emitted acked low high : Z) (fraction : f32) (s : Scheduler) : Scheduler :=
  mkSched s.(sc_cols) s.(sc_rows) s.(sc_work) s.(sc_priority_order) s.(sc_refinement_order) s.(sc_refinement_cursor)
    s.(sc_refinement_fresh) s.(sc_pending_items) s.(sc_deficit) s.(sc_retry_after) s.(sc_item_overhead) fraction
    s.(sc_last_refinement_budget) s.(sc_last_tick_retries) emitted acked low high s.(sc_slots).
Definition with_tick_report (budget : Z) (retries : list nat) (s : Scheduler) : Scheduler :=
  mkSched s.(sc_cols) s.(sc_rows) s.(sc_work) s.(sc_priority_order) s.(sc_refinement_order) s.(sc_refinement_cursor)
    s.(sc_refinement_fresh) s.(sc_pending_items) s.(sc_deficit) s.(sc_retry_after) s.(sc_item_overhead) s.(sc_fraction)
    budget retries s.(sc_window_emitted) s.(sc_window_acked) s.(sc_low_rounds) s.(sc_high_rounds) s.(sc_slots).
Definition with_settings (retry_after item_overhead : Z) (s : Scheduler) : Scheduler :=
  mkSched s.(sc_cols) s.(sc_rows) s.(sc_work) s.(sc_priority_order) s.(sc_refinement_order) s.(sc_refinement_cursor)
    s.(sc_refinement_fresh) s.(sc_pending_items) s.(sc_deficit) retry_after item_overhead s.(sc_fraction)
    s.(sc_last_refinement_budget) s.(sc_last_tick_retries) s.(sc_window_emitted) s.(sc_window_acked)
    s.(sc_low_rounds) s.(sc_high_rounds) s.(sc_slots).

Definition set_retry_after (retry_after : Z) (s : Scheduler) : Scheduler := with_settings retry_after s.(sc_item_overhead) s.
Definition set_item_overhead (bytes : Z) (s : Scheduler) : Scheduler := with_settings s.(sc_retry_after) bytes s.

(** What [resize] and [clear] have in common. *)
Definition drop_queues (cols rows : Z) (slots : SlotMap) (s : Scheduler) : Scheduler :=
  mkSched cols rows (slab_clear s.(sc_work)) [] (replicate (length s.(sc_refinement_order)) []) (replicate PASS_SLOTS None)
    (replicate PASS_SLOTS fresh_default) 0 (deficit_reset cols rows s.(sc_deficit)) s.(sc_retry_after) s.(sc_item_overhead)
    s.(sc_fraction) s.(sc_last_refinement_budget) s.(sc_last_tick_retries) s.(sc_window_emitted) s.(sc_window_acked)
    s.(sc_low_rounds) s.(sc_high_rounds) slots.
Definition sched_resize (cols rows : Z) (s : Scheduler) : Scheduler :=
  drop_queues cols rows (slots_resize cols rows s.(sc_slots)) s.
Definition sched_clear (s : Scheduler) : Scheduler := drop_queues s.(sc_cols) s.(sc_rows) (clear_handles s.(sc_slots)) s.

Definition queue_len (s : Scheduler) : nat := length s.(sc_priority_order).
Definition refinement_queue_len (s : Scheduler) : nat := sum_list (length <$> s.(sc_refinement_order)).
Definition has_pending_work (s : Scheduler) : bool := (0 <? refinement_queue_len s)%nat || (0 <? s.(sc_pending_items))%nat.
Definition refinement_deficit_tiles (s : Scheduler) : nat := s.(sc_deficit).(rd_tiles).
Definition frame_label (tile_x tile_y seq : Z) (s : Scheduler) : Scheduler * Z :=
  let '(slots, l) := label_or_assign tile_x tile_y seq s.(sc_slots) in (with_slots slots s, l).
Definition generation_for (s : Scheduler) (tile_x tile_y : Z) : Z := slot_generation s.(sc_slots) tile_x tile_y.

(** The scans the counters replaced, kept in the source as test oracles. *)
Definition all_handles (s : Scheduler) : list Handle := s.(sc_priority_order) ++ concat s.(sc_refinement_order).
Definition pending_at (s : Scheduler) (h : Handle) : bool :=
  match slab_get s.(sc_work) h with Some w => is_pending w.(tw_state) | None => false end.
Definition pending_items_recomputed (s : Scheduler) : nat := length (filter (λ h, pending_at s h = true) (all_handles s)).
Definition unacked_tile (s : Scheduler) (h : Handle) : option (Z * Z) :=
  w ← slab_get s.(sc_work) h; match w.(tw_state) with Acked => None | _ => Some (tw_tile w) end.
Definition refinement_deficit_tiles_recomputed (s : Scheduler) : nat :=
  size (list_to_set (omap (unacked_tile s) (concat s.(sc_refinement_order))) : gset (Z * Z)).

(** ** Enqueueing *)

(** Retire the item behind a handle, if it is live. *)
Definition retire {E} (h : Handle) (s : Scheduler) : outcome E Scheduler :=
  match slab_get s.(sc_work) h with
  | Some w =>
      if is_live w.(tw_state) then
        pending ← (if is_pending w.(tw_state) then sub_usize s.(sc_pending_items) 1 else mret s.(sc_pending_items));
        mret (with_queues (slab_modify (set_state Superseded) h s.(sc_work)) pending s.(sc_slots) s)
      else mret s
  | None => mret s
  end.

Definition supersede_live_handle {E} (tile_x tile_y pass_idx : Z) (s : Scheduler) : outcome E Scheduler :=
  match slot_handle s.(sc_slots) tile_x tile_y (Z.to_nat pass_idx) with
  | Some h => retire h s
  | None => mret s
  end.

(** Insert an item and file its handle: the steps every enqueue shares. *)
Definition file_work {E} (w : TileWork) (s : Scheduler) : outcome E (Scheduler * Handle) :=
  let '(tx, ty, pass) := (w.(tw_tile_x), w.(tw_tile_y), w.(tw_pass_idx)) in
  s ← supersede_live_handle tx ty pass s;
  '(work, h) ← slab_insert w s.(sc_work);
  mret (with_queues work (S s.(sc_pending_items)) (set_handle tx ty (Z.to_nat pass) (Some h) s.(sc_slots)) s, h).

Definition assert_in_grid {E} (w : TileWork) (s : Scheduler) : outcome E unit :=
  _ ← assert_ (w.(tw_tile_x) <? s.(sc_cols)); assert_ (w.(tw_tile_y) <? s.(sc_rows)).

Definition enqueue_at {E} (w : TileWork) (now : Z) (s : Scheduler) : outcome E Scheduler :=
  _ ← assert_in_grid w s;
  '(s, h) ← file_work (stamp_queued now w) s;
  mret (with_priority (s.(sc_priority_order) ++ [h]) s).

Definition bucket_of (pass : Z) : nat := Nat.min (Z.to_nat pass) (PASS_SLOTS - 1).

Definition push_fresh (len : nat) (at_cursor : bool) (f : FreshRun) : FreshRun :=
  mkFresh (Some (default len f.(fr_start))) (f.(fr_cursor_pushed) || at_cursor).

Definition push_refinement (pass : Z) (h : Handle) (tile_x tile_y : Z) (s : Scheduler) : Scheduler :=
  let b := bucket_of pass in
  let len := length (default [] (s.(sc_refinement_order) !! b)) in
  let at_cursor := bool_decide (s.(sc_refinement_cursor) !! b = Some (Some (tile_x, tile_y))) in
  with_refinement (alter (λ q, q ++ [h]) b s.(sc_refinement_order)) s.(sc_refinement_cursor)
    (alter (push_fresh len at_cursor) b s.(sc_refinement_fresh)) s.(sc_deficit) s.

Definition push_deficit (tile_x tile_y : Z) (s : Scheduler) : Scheduler :=
  with_refinement s.(sc_refinement_order) s.(sc_refinement_cursor) s.(sc_refinement_fresh)
    (deficit_push tile_x tile_y s.(sc_deficit)) s.

(** One already stamped item into its bucket. *)
Definition queue_refinement {E} (w : TileWork) (s : Scheduler) : outcome E Scheduler :=
  '(s, h) ← file_work w s;
  mret (push_deficit w.(tw_tile_x) w.(tw_tile_y) (push_refinement w.(tw_pass_idx) h w.(tw_tile_x) w.(tw_tile_y) s)).

Definition enqueue_refinement_work_at {E} (w : TileWork) (now : Z) (s : Scheduler) : outcome E Scheduler :=
  _ ← assert_in_grid w s; queue_refinement (stamp_queued now w) s.

Fixpoint enqueue_passes {E} (tile_x tile_y gen total now : Z) (i : nat) (passes : list (list Z)) (s : Scheduler)
    : outcome E Scheduler :=
  match passes with
  | [] => mret s
  | payload :: passes =>
      s ← queue_refinement (mkWork tile_x tile_y gen (u8 (Z.of_nat i)) total CCdf53 payload now None Pending) s;
      enqueue_passes tile_x tile_y gen total now (S i) passes s
  end.
Definition enqueue_refinement_at {E} (tile_x tile_y gen : Z) (passes : list (list Z)) (now : Z) (s : Scheduler)
    : outcome E Scheduler :=
  enqueue_passes tile_x tile_y gen (u8 (Z.of_nat (length passes))) now 0 passes s.

(** [for pass_idx in 0..16u8], with the payloads in an iterator. *)
Fixpoint enqueue_subset {E} (tile_x tile_y gen pass_mask now : Z) (ps : list nat) (payloads : list (list Z)) (s : Scheduler)
    : outcome E Scheduler :=
  match ps with
  | [] => mret s
  | p :: ps =>
      if Z.land pass_mask (Z.shiftl 1 (Z.of_nat p)) =? 0
      then enqueue_subset tile_x tile_y gen pass_mask now ps payloads s
      else match payloads with
           | [] => mret s
           | payload :: payloads =>
               s ← queue_refinement
                 (mkWork tile_x tile_y gen (Z.of_nat p) (u8 (Z.of_nat CDF53_PASS_COUNT)) CCdf53 payload now None Pending) s;
               enqueue_subset tile_x tile_y gen pass_mask now ps payloads s
           end
  end.
Definition enqueue_refinement_subset_at {E} (tile_x tile_y gen pass_mask : Z) (payloads : list (list Z)) (now : Z)
    (s : Scheduler) : outcome E Scheduler :=
  _ ← assert_ (count_ones16 pass_mask =? Z.of_nat (length payloads));
  enqueue_subset tile_x tile_y gen pass_mask now (seq 0 16) payloads s.

(** ** Supersession *)

Fixpoint supersede_passes {E} (tile_x tile_y : Z) (ps : list nat) (s : Scheduler) : outcome E Scheduler :=
  match ps with
  | [] => mret s
  | p :: ps =>
      s ← match slot_handle s.(sc_slots) tile_x tile_y p with Some h => retire h s | None => mret s end;
      supersede_passes tile_x tile_y ps s
  end.
Definition supersede_pending_for_tile {E} (tile_x tile_y : Z) (s : Scheduler) : outcome E Scheduler :=
  supersede_passes tile_x tile_y (seq 0 PASS_SLOTS) (with_slots (clear_label tile_x tile_y s.(sc_slots)) s).

Definition bump_slot (tile_x tile_y : Z) (s : Scheduler) : Scheduler * Z :=
  let '(slots, g) := slot_bump_generation tile_x tile_y s.(sc_slots) in (with_slots slots s, g).
Definition bump_generation {E} (tile_x tile_y : Z) (s : Scheduler) : outcome E (Scheduler * Z) :=
  s ← supersede_pending_for_tile tile_x tile_y s; mret (bump_slot tile_x tile_y s).

(** [debug_assert!(payload.len() >= 2)], of a PalRle item. *)
Definition resolve_work {E} (tile_x tile_y : Z) (w : TileWork) : outcome E ResolvedTileWork :=
  let palette := bool_decide (w.(tw_codec) = CPalRle) in
  _ ← assert_ (negb palette || (2 <=? length w.(tw_payload))%nat);
  mret (mkResolved tile_x tile_y w.(tw_generation) w.(tw_pass_idx) w.(tw_codec)
    (if palette then w.(tw_payload) !! 1%nat else None)
    (palette && match w.(tw_payload) !! 0%nat with Some f => negb (Z.land f 1 =? 0) | None => false end)
    false).

Fixpoint collect_superseded {E} (tile_x tile_y : Z) (ps : list nat) (s : Scheduler)
    : outcome E (Scheduler * list ResolvedTileWork) :=
  match ps with
  | [] => mret (s, [])
  | p :: ps =>
      match slot_handle s.(sc_slots) tile_x tile_y p ≫= (λ h, w ← slab_get s.(sc_work) h; Some (h, w)) with
      | Some (h, w) =>
          if is_live w.(tw_state) then
            r ← resolve_work tile_x tile_y w;
            s ← retire h s;
            '(s, rs) ← collect_superseded tile_x tile_y ps s;
            mret (s, r :: rs)
          else collect_superseded tile_x tile_y ps s
      | None => collect_superseded tile_x tile_y ps s
      end
  end.
Definition bump_generation_collecting {E} (tile_x tile_y : Z) (s : Scheduler)
    : outcome E (Scheduler * Z * list ResolvedTileWork) :=
  '(s, rs) ← collect_superseded tile_x tile_y (seq 0 PASS_SLOTS) s;
  mret (bump_slot tile_x tile_y s, rs).

(** ** Acknowledgements *)

Definition U32_MAX : Z := 2 ^ 32 - 1.
Definition record_cdf53_ack {E} (tile_x tile_y generation pass_idx : Z) (s : Scheduler) : outcome E Scheduler :=
  _ ← assert_ (pass_idx <? 16);
  let s := with_window s.(sc_window_emitted) (Z.min U32_MAX (s.(sc_window_acked) + 1)) s.(sc_low_rounds) s.(sc_high_rounds)
             s.(sc_fraction) s in
  slots ← record_ack tile_x tile_y generation pass_idx s.(sc_slots);
  mret (with_slots slots s).

Definition mark_acked (tile_x tile_y generation pass_idx : Z) (s : Scheduler) : Scheduler :=
  match slot_handle s.(sc_slots) tile_x tile_y (Z.to_nat pass_idx)
          ≫= (λ h, w ← slab_get s.(sc_work) h; Some (h, w)) with
  | Some (h, w) =>
      if (w.(tw_generation) =? generation) && bool_decide (w.(tw_state) = InFlight)
      then with_queues (slab_modify (set_state Acked) h s.(sc_work)) s.(sc_pending_items) s.(sc_slots) s
      else s
  | None => s
  end.

Definition tile_fully_acked (s : Scheduler) := fully_acked s.(sc_slots).
Definition cdf53_passes_acked_count (s : Scheduler) := acked_count s.(sc_slots).
Definition cdf53_unacked_pass_mask (s : Scheduler) := unacked_mask s.(sc_slots).
Definition cdf53_unacked_tiles_for_gen (s : Scheduler) (candidates : list ((Z * Z) * Z * Z)) : list (Z * Z) :=
  omap (λ c, let '(t, gen, present) := c in
             if fully_acked s.(sc_slots) t.1 t.2 gen present then None else Some t) candidates.
Definition refinement_queue_holds_tile (s : Scheduler) (tile_x tile_y : Z) : bool :=
  existsb (λ p, match slot_handle s.(sc_slots) tile_x tile_y p ≫= slab_get s.(sc_work) with
                | Some w => (w.(tw_tile_x) =? tile_x) && (w.(tw_tile_y) =? tile_y) && is_live w.(tw_state)
                | None => false
                end) (seq 0 PASS_SLOTS).

(** ** The priority drain *)

Section drain.
  Context (now retry_after item_overhead : Z) (recovery_owned : Z → Z → Z → bool).

(** [order.retain(..)]: drop the terminal items, freeing their slab slot. *)
Fixpoint retain_live {E} (order : list Handle) (work : Slab TileWork) : outcome E (Slab TileWork * list Handle) :=
  match order with
  | [] => mret (work, [])
  | h :: order =>
      match slab_get work h with
      | Some w =>
          if is_terminal w.(tw_state) then
            '(work, _) ← slab_remove h work; retain_live order work
          else '(work, kept) ← retain_live order work; mret (work, h :: kept)
      | None => retain_live order work
      end
  end.

Definition overdue (w : TileWork) : bool :=
  match w.(tw_last_sent_at) with Some t => retry_after <=? sat_sub now t | None => true end.
Definition eligible (w : TileWork) : bool :=
  match w.(tw_state) with
  | Pending => true
  | InFlight => overdue w && negb (recovery_owned w.(tw_tile_x) w.(tw_tile_y) w.(tw_pass_idx))
  | Acked | Superseded => false
  end.

Definition item_cost (w : TileWork) : Z := Z.of_nat (length w.(tw_payload)) + item_overhead.

Record PriorityDrain : Type := mkPD {
  pd_work : Slab TileWork; pd_pending : nat; pd_out : list TileWork; pd_retries : list nat;
}.

Fixpoint drain_priority_go {E} (budget : Z) (order : list Handle) (spent : Z) (d : PriorityDrain) : outcome E PriorityDrain :=
  match order with
  | [] => mret d
  | h :: order =>
      match slab_get d.(pd_work) h with
      | None => drain_priority_go budget order spent d
      | Some w =>
          if negb (eligible w) then drain_priority_go budget order spent d
          else if budget <=? spent then mret d
          else
            '(pending, retries) ← match w.(tw_state) with
                                  | InFlight => mret (d.(pd_pending), d.(pd_retries) ++ [length d.(pd_out)])
                                  | _ => p ← sub_usize d.(pd_pending) 1; mret (p, d.(pd_retries))
                                  end;
            let w' := stamp_sent now w in
            drain_priority_go budget order (Z.min USIZE_MAX (spent + item_cost w))
              (mkPD (slab_modify (λ _, w') h d.(pd_work)) pending (d.(pd_out) ++ [w']) retries)
      end
  end.

Definition drain_priority_queue {E} (budget : Z) (s : Scheduler) : outcome E (Scheduler * list TileWork) :=
  '(work, order) ← retain_live s.(sc_priority_order) s.(sc_work);
  d ← drain_priority_go budget order 0 (mkPD work s.(sc_pending_items) [] []);
  mret (with_tick_report s.(sc_last_refinement_budget) d.(pd_retries)
          (with_priority order (with_queues d.(pd_work) d.(pd_pending) s.(sc_slots) s)), d.(pd_out)).

(** ** The refinement drain *)

(** The [retain] of [prune_and_rotate], counting what it removes before [start]. *)
Record Pruned : Type := mkPruned { pr_work : Slab TileWork; pr_deficit : RefinementDeficit; pr_bucket : list Handle; pr_removed : nat }.
Fixpoint prune_go {E} (start : option nat) (i : nat) (bucket : list Handle) (work : Slab TileWork) (deficit : RefinementDeficit)
    : outcome E Pruned :=
  match bucket with
  | [] => mret (mkPruned work deficit [] 0)
  | h :: bucket =>
      match slab_get work h with
      | Some w =>
          if is_terminal w.(tw_state) then
            deficit ← deficit_pop w.(tw_tile_x) w.(tw_tile_y) deficit;
            '(work, _) ← slab_remove h work;
            p ← prune_go start (S i) bucket work deficit;
            mret (mkPruned p.(pr_work) p.(pr_deficit) p.(pr_bucket)
              (match start with Some f => if (i <? f)%nat then S p.(pr_removed) else p.(pr_removed) | None => p.(pr_removed) end))
          else
            p ← prune_go start (S i) bucket work deficit;
            mret (mkPruned p.(pr_work) p.(pr_deficit) (h :: p.(pr_bucket)) p.(pr_removed))
      | None => Panic
      end
  end.

Definition rotate_left {A} (n : nat) (l : list A) : list A := drop n l ++ take n l.

Definition handle_is_tile (work : Slab TileWork) (t : Z * Z) (h : Handle) : bool :=
  match slab_get work h with Some w => (w.(tw_tile_x) =? t.1) && (w.(tw_tile_y) =? t.2) | None => false end.

(** [iter().position(..)] *)
Fixpoint position {A} (p : A → bool) (l : list A) : option nat :=
  match l with
  | [] => None
  | x :: l => if p x then Some 0%nat else S <$> position p l
  end.

Definition rotate_run (work : Slab TileWork) (t : Z * Z) (run : list Handle) : list Handle :=
  match position (handle_is_tile work t) run with
  | Some i => rotate_left (S i) run
  | None => run
  end.

Definition prune_and_rotate {E} (bucket : list Handle) (cursor : option (Z * Z)) (fresh : FreshRun)
    (work : Slab TileWork) (deficit : RefinementDeficit) : outcome E Pruned :=
  p ← prune_go fresh.(fr_start) 0 bucket work deficit;
  match fresh.(fr_start), fresh.(fr_cursor_pushed), cursor with
  | Some start, true, Some t =>
      from ← sub_usize start p.(pr_removed);
      _ ← assert_ (from <=? length p.(pr_bucket))%nat;
      mret (mkPruned p.(pr_work) p.(pr_deficit)
        (take from p.(pr_bucket) ++ rotate_run p.(pr_work) t (drop from p.(pr_bucket))) p.(pr_removed))
  | _, _, _ => mret p
  end.

Fixpoint prune_buckets {E} (order : list (list Handle)) (cursors : list (option (Z * Z))) (freshes : list FreshRun)
    (work : Slab TileWork) (deficit : RefinementDeficit)
    : outcome E (list (list Handle) * Slab TileWork * RefinementDeficit) :=
  match order, cursors, freshes with
  | bucket :: order, cursor :: cursors, fresh :: freshes =>
      p ← prune_and_rotate bucket cursor fresh work deficit;
      '(order, work, deficit) ← prune_buckets order cursors freshes p.(pr_work) p.(pr_deficit);
      mret (p.(pr_bucket) :: order, work, deficit)
  | _, _, _ => mret (order, work, deficit)
  end.

Record RefinementDrain : Type := mkRD {
  dr_work : Slab TileWork; dr_deficit : RefinementDeficit; dr_spent : Z; dr_left : nat; dr_out : list TileWork;
}.

(** One bucket: what is left of it, its cursor, and whether the budget stopped the drain. *)
Fixpoint drain_bucket {E} (budget : Z) (bucket : list Handle) (cursor : option (Z * Z)) (d : RefinementDrain)
    : outcome E (list Handle * option (Z * Z) * bool * RefinementDrain) :=
  match bucket with
  | [] => mret ([], cursor, false, d)
  | h :: rest =>
      match slab_get d.(dr_work) h with
      | None => Panic
      | Some w =>
          let cost := item_cost w in
          if (budget =? 0) || ((0 <? d.(dr_spent)) && (budget <? d.(dr_spent) + cost)) then mret (bucket, cursor, true, d)
          else
            '(work, taken) ← slab_remove h d.(dr_work);
            match taken with
            | Some w =>
                deficit ← deficit_pop w.(tw_tile_x) w.(tw_tile_y) d.(dr_deficit);
                drain_bucket budget rest (Some (tw_tile w))
                  (mkRD work deficit (d.(dr_spent) + cost) (if is_pending w.(tw_state) then S d.(dr_left) else d.(dr_left))
                     (d.(dr_out) ++ [stamp_sent now w]))
            | None => drain_bucket budget rest cursor (mkRD work d.(dr_deficit) d.(dr_spent) d.(dr_left) d.(dr_out))
            end
      end
  end.

Fixpoint drain_buckets {E} (budget : Z) (order : list (list Handle)) (cursors : list (option (Z * Z))) (d : RefinementDrain)
    : outcome E (list (list Handle) * list (option (Z * Z)) * RefinementDrain) :=
  match order, cursors with
  | bucket :: order, cursor :: cursors =>
      '(bucket, cursor, stop, d) ← drain_bucket budget bucket cursor d;
      if (stop : bool) then mret (bucket :: order, cursor :: cursors, d)
      else '(order, cursors, d) ← drain_buckets budget order cursors d;
           mret (bucket :: order, cursor :: cursors, d)
  | _, _ => mret (order, cursors, d)
  end.

(** [drain_refinement_pass_major], with [pending_items -= left_pending]. *)
Definition drain_refinement_pass_major {E} (budget : Z) (s : Scheduler) : outcome E (Scheduler * list TileWork) :=
  '(order, work, deficit) ← prune_buckets s.(sc_refinement_order) s.(sc_refinement_cursor) s.(sc_refinement_fresh)
                              s.(sc_work) s.(sc_deficit);
  '(order, cursor, d) ← drain_buckets budget order s.(sc_refinement_cursor) (mkRD work deficit 0 0 []);
  pending ← sub_usize s.(sc_pending_items) d.(dr_left);
  mret (with_refinement order cursor (replicate (length s.(sc_refinement_fresh)) fresh_default) d.(dr_deficit)
          (with_queues d.(dr_work) pending s.(sc_slots) s), d.(dr_out)).

End drain.

(** ** The tick *)

Definition ADJUST_AFTER_ROUNDS : Z := 10.
Definition LOW_DELIVERY : f32 := f32_lit 1 2.
Definition HIGH_DELIVERY : f32 := f32_lit 4 5.
Definition MIN_FRACTION : f32 := f32_lit 1 20.
Definition MAX_FRACTION : f32 := f32_lit 1 5.

Definition maybe_adjust_refinement_fraction (s : Scheduler) : Scheduler :=
  if s.(sc_window_emitted) =? 0 then s
  else
    let rate := f32_div (f32_of_Z s.(sc_window_acked)) (f32_of_Z s.(sc_window_emitted)) in
    if f32_lt rate LOW_DELIVERY then
      let low := s.(sc_low_rounds) + 1 in
      if ADJUST_AFTER_ROUNDS <=? low
      then with_window 0 0 0 0 (f32_max (f32_mul s.(sc_fraction) (f32_lit 1 2)) MIN_FRACTION) s
      else with_window 0 0 low 0 s.(sc_fraction) s
    else if f32_le HIGH_DELIVERY rate then
      let high := s.(sc_high_rounds) + 1 in
      if ADJUST_AFTER_ROUNDS <=? high
      then with_window 0 0 0 0 (f32_min (f32_mul s.(sc_fraction) (f32_of_Z 2)) MAX_FRACTION) s
      else with_window 0 0 0 high s.(sc_fraction) s
    else with_window 0 0 (sat_sub s.(sc_low_rounds) 1) (sat_sub s.(sc_high_rounds) 1) s.(sc_fraction) s.

(** The share of a tick's budget each queue gets: priority, refinement. *)
Definition share (budget_bytes : Z) (s : Scheduler) : Z :=
  f32_to_usize (f32_mul (f32_of_Z budget_bytes) s.(sc_fraction)).
Definition split_budget (budget_bytes : Z) (s : Scheduler) : Z * Z :=
  if forallb (λ q : list Handle, (length q =? 0)%nat) s.(sc_refinement_order) then (budget_bytes, 0)
  else if (queue_len s =? 0)%nat then (0, budget_bytes)
  else (sat_sub budget_bytes (share budget_bytes s), share budget_bytes s).

Definition tick_at_with {E} (budget_bytes now : Z) (recovery_owned : Z → Z → Z → bool) (s : Scheduler)
    : outcome E (Scheduler * list TileWork) :=
  let '(priority_budget, refinement_budget) := split_budget budget_bytes s in
  let s := with_tick_report (share budget_bytes s) [] s in
  '(s, sent) ← drain_priority_queue now s.(sc_retry_after) s.(sc_item_overhead) recovery_owned priority_budget s;
  '(s, refined) ← drain_refinement_pass_major now s.(sc_item_overhead) refinement_budget s;
  let emitted := sent ++ refined in
  mret (maybe_adjust_refinement_fraction
          (with_window (Z.min U32_MAX (s.(sc_window_emitted) + u32 (Z.of_nat (length emitted)))) s.(sc_window_acked)
             s.(sc_low_rounds) s.(sc_high_rounds) s.(sc_fraction) s), emitted).

Definition tick_at {E} (budget_bytes now : Z) (s : Scheduler) : outcome E (Scheduler * list TileWork) :=
  tick_at_with budget_bytes now (λ _ _ _, false) s.
