(* ===== verification/SchedulerTheory.v ===== *)
(** * The send scheduler's invariant

    One record says what ties the slab, the queues, the counters and the slots of a
    [Scheduler] together; three lemmas say what keeps it: changing an item's state,
    taking items out, and adding one.  [SchedulerSession] applies them to every operation. *)

From Stdlib Require Import ZArith Lia.
From S2P Require Import Prelude Wire MapTotals Slab SlotMap Deficit F32 Scheduler.
From stdpp Require Import base option numbers list gmap.

Local Open Scope Z_scope.

(** ** The invariant *)

Definition pend (w : TileWork) : nat := if is_pending w.(tw_state) then 1 else 0.

Definition queue_tiles (V : gmap Handle TileWork) (q : list Handle) : list (Z * Z) := omap (λ h, tw_tile <$> V !! h) q.

(** What the callers put in a work item: [u8] coordinates and pass, and a PalRle payload
    with its two header bytes. *)
Definition work_ok (w : TileWork) : Prop :=
  u8_tile (tw_tile w) ∧ 0 ≤ w.(tw_pass_idx) ∧ (w.(tw_codec) = CPalRle → (2 ≤ length w.(tw_payload))%nat).

(** A refinement entry is [Pending] or [Superseded]: it leaves the queue as it is sent. *)
Definition waits (w : TileWork) : Prop := w.(tw_state) = Pending ∨ w.(tw_state) = Superseded.

(** The tile-passes the slots track. *)
Definition tracked (cols rows : Z) (w : TileWork) : Prop :=
  in_grid cols rows (tw_tile w) = true ∧ (Z.to_nat w.(tw_pass_idx) < PASS_SLOTS)%nat.

Record queues_inv (rows : Z) (V : gmap Handle TileWork) (prio : list Handle) (ro : list (list Handle)) (pending : nat)
    (d : RefinementDeficit) (slots : SlotMap) : Prop := {
  qi_nodup : NoDup (prio ++ concat ro);
  qi_live : ∀ h, h ∈ prio ++ concat ro ↔ is_Some (V !! h);
  qi_ok : ∀ h w, V !! h = Some w → work_ok w;
  qi_pending : pending = map_total pend V;
  qi_bucket : ∀ b q h w, ro !! b = Some q → h ∈ q → V !! h = Some w → bucket_of w.(tw_pass_idx) = b ∧ waits w;
  qi_deficit : deficit_meets rows (queue_tiles V (concat ro)) d;
  qi_filed : ∀ h w, V !! h = Some w → is_live w.(tw_state) = true → tracked slots.(sm_cols) slots.(sm_rows) w →
    slot_handle slots w.(tw_tile_x) w.(tw_tile_y) (Z.to_nat w.(tw_pass_idx)) = Some h;
}.

Definition fraction_ok (s : Scheduler) : Prop :=
  s.(sc_fraction) ∈ [f32_lit 1 5; f32_lit 1 10; f32_lit 1 20] ∧
  0 ≤ s.(sc_low_rounds) < ADJUST_AFTER_ROUNDS ∧ 0 ≤ s.(sc_high_rounds) < ADJUST_AFTER_ROUNDS.

Record sched_inv (s : Scheduler) : Prop := {
  si_slab : slab_wf s.(sc_work);
  si_slots : slots_wf s.(sc_slots);
  si_dims : s.(sc_slots).(sm_cols) = s.(sc_cols) ∧ s.(sc_slots).(sm_rows) = s.(sc_rows) ∧
            s.(sc_deficit).(rd_cols) = s.(sc_cols);
  si_lens : length s.(sc_refinement_order) = PASS_SLOTS ∧ length s.(sc_refinement_cursor) = PASS_SLOTS ∧
            length s.(sc_refinement_fresh) = PASS_SLOTS;
  si_fresh : ∀ b f q n, s.(sc_refinement_fresh) !! b = Some f → s.(sc_refinement_order) !! b = Some q →
    f.(fr_start) = Some n → (n ≤ length q)%nat;
  si_fraction : fraction_ok s;
  si_queues : queues_inv s.(sc_rows) (slab_view s.(sc_work)) s.(sc_priority_order) s.(sc_refinement_order)
    s.(sc_pending_items) s.(sc_deficit) s.(sc_slots);
}.

(** ** Changing an item's state *)

Lemma queue_tiles_agree V V' q : (∀ h, h ∈ q → tw_tile <$> V' !! h = tw_tile <$> V !! h) → queue_tiles V' q = queue_tiles V q.
Proof.
  intros Ha. unfold queue_tiles. induction q as [|h q IH]; [done|]. cbn. rewrite (Ha h) by left.
  rewrite IH; [done|]. intros h' Hh'. apply Ha. by right.
Qed.

Lemma queue_tiles_app V a b : queue_tiles V (a ++ b) = queue_tiles V a ++ queue_tiles V b.
Proof. apply omap_app. Qed.

#[export] Instance queue_tiles_perm V : Proper ((≡ₚ) ==> (≡ₚ)) (queue_tiles V).
Proof. intros a b Hab. unfold queue_tiles. by rewrite Hab. Qed.

(** A write that keeps what the work item is about. *)
Definition keeps_work (f : TileWork → TileWork) : Prop :=
  ∀ w, tw_tile (f w) = tw_tile w ∧ (f w).(tw_pass_idx) = w.(tw_pass_idx) ∧ (f w).(tw_codec) = w.(tw_codec) ∧
       (f w).(tw_payload) = w.(tw_payload) ∧ (f w).(tw_generation) = w.(tw_generation).

Lemma keeps_set_state st : keeps_work (set_state st).
Proof. by intros []. Qed.
Lemma keeps_stamp_sent now : keeps_work (stamp_sent now).
Proof. by intros []. Qed.
#[export] Hint Resolve keeps_set_state keeps_stamp_sent : ghost.

Lemma queues_rework rows V prio ro pending pending' d slots f h w : keeps_work f →
  queues_inv rows V prio ro pending d slots → V !! h = Some w →
  (is_live (f w).(tw_state) = true → is_live w.(tw_state) = true) →
  (h ∈ concat ro → waits (f w)) →
  (pending' + pend w = pend (f w) + pending)%nat →
  queues_inv rows (alter f h V) prio ro pending' d slots.
Proof.
  intros Hf [Hnd Hlive Hok Hp Hb Hd Hfiled] Hw Hst Hq Hpend.
  assert (∀ k x, alter f h V !! k = Some x → ∃ x0, V !! k = Some x0 ∧ (x = x0 ∨ h = k ∧ x0 = w ∧ x = f w)) as Hlk.
  { intros k x Hx. rewrite lookup_alter_Some in Hx. destruct Hx as [[<- (x0 & Hx0 & ->)]|[Hne Hx]]; [|by exists x; auto].
    exists x0. split; [done|]. right. by simplify_eq. }
  destruct (Hf w) as (Ft & Fp & Fc & Fpl & _).
  split; [done|..].
  - intros k. by rewrite lookup_alter_is_Some.
  - intros k x (x0 & Hx0 & [->|(<- & -> & ->)])%Hlk; [by eapply Hok|].
    unfold work_ok. rewrite Ft, Fp, Fc, Fpl. by eapply Hok.
  - rewrite <-(insert_id V h w) by done. rewrite alter_insert_eq.
    pose proof (map_total_replace pend V h w (f w) Hw). lia.
  - intros b q k x Hbq Hkq (x0 & Hx0 & [->|(<- & -> & ->)])%Hlk; [by eapply Hb|].
    split; [rewrite Fp; by eapply Hb|]. apply Hq. apply list_elem_of_In, in_concat.
    exists q. split; apply list_elem_of_In; [by eapply list_elem_of_lookup_2|done].
  - erewrite queue_tiles_agree; [done|]. intros k _. destruct (decide (h = k)) as [<-|Hne].
    + rewrite lookup_alter_eq, Hw. cbn. by rewrite Ft.
    + by rewrite lookup_alter_ne.
  - intros k x (x0 & Hx0 & [->|(<- & -> & ->)])%Hlk Hl Ht; [by eapply Hfiled|].
    unfold tracked in Ht. rewrite Ft, Fp in Ht. unfold tw_tile in Ft.
    injection Ft as Fx Fy. rewrite Fx, Fy, Fp. apply Hfiled; auto.
Qed.

(** ** Taking items out *)

Definition keep_out (D : gset Handle) (q : list Handle) : list Handle := filter (λ h, h ∉ D) q.
Definition without (D : gset Handle) (V : gmap Handle TileWork) : gmap Handle TileWork := filter (λ hw, hw.1 ∉ D) V.

Lemma without_lookup D V h : without D V !! h = if decide (h ∈ D) then None else V !! h.
Proof.
  unfold without. destruct (decide (h ∈ D)) as [Hin|Hni].
  - apply map_lookup_filter_None. right. intros x _ Hx. by apply Hx.
  - destruct (V !! h) as [w|] eqn:Hw.
    + by apply map_lookup_filter_Some.
    + apply map_lookup_filter_None. by left.
Qed.

Lemma concat_perm (a b : list (list Handle)) : Forall2 (≡ₚ) a b → concat a ≡ₚ concat b.
Proof. induction 1 as [|x y a b Hxy _ IH]; cbn; [done|]. by rewrite Hxy, IH. Qed.

Lemma concat_keep_out D ro : concat (keep_out D <$> ro) = keep_out D (concat ro).
Proof.
  induction ro as [|q ro IH]; cbn; [done|]. rewrite IH. unfold keep_out. by rewrite filter_app.
Qed.

Lemma queues_shrink rows V prio prio' ro ro' pending pending' d d' slots D :
  queues_inv rows V prio ro pending d slots →
  prio' ≡ₚ keep_out D prio → Forall2 (≡ₚ) ro' (keep_out D <$> ro) →
  (pending' + map_total pend (filter (λ hw, hw.1 ∈ D) V) = pending)%nat →
  deficit_meets rows (queue_tiles V (concat ro')) d' →
  queues_inv rows (without D V) prio' ro' pending' d' slots.
Proof.
  intros [Hnd Hlive Hok Hp Hb Hd Hfiled] Hprio Hro Hpend Hd'.
  assert (prio' ++ concat ro' ≡ₚ keep_out D (prio ++ concat ro)) as Hall.
  { unfold keep_out at 1. rewrite filter_app. rewrite Hprio, (concat_perm _ _ Hro). by rewrite concat_keep_out. }
  assert (∀ h w, without D V !! h = Some w → V !! h = Some w ∧ h ∉ D) as Hsub.
  { intros h w Hw. rewrite without_lookup in Hw. by destruct (decide (h ∈ D)). }
  split.
  - rewrite Hall. by apply NoDup_filter.
  - intros h. rewrite Hall. unfold keep_out. rewrite list_elem_of_filter, Hlive, without_lookup.
    destruct (decide (h ∈ D)); [split; [tauto|by intros []]|tauto].
  - intros h w [Hw _]%Hsub. by eapply Hok.
  - rewrite (map_total_filter pend (λ hw, hw.1 ∈ D) V) in Hp. unfold without. lia.
  - intros b q h w Hq Hh [Hw Hni]%Hsub.
    destruct (Forall2_lookup_l _ _ _ _ _ Hro Hq) as (q2 & Hq2 & Hperm). rewrite list_lookup_fmap in Hq2.
    destruct (ro !! b) as [q0|] eqn:Hq0; [|done]. cbn in Hq2. simplify_eq.
    apply (Hb b q0 h w Hq0); [|done]. rewrite Hperm in Hh. by apply list_elem_of_filter in Hh as [_ ?].
  - erewrite queue_tiles_agree; [done|]. intros h Hh. rewrite without_lookup.
    destruct (decide (h ∈ D)) as [Hin|]; [|done]. exfalso.
    rewrite (concat_perm _ _ Hro), concat_keep_out in Hh. by apply list_elem_of_filter in Hh as [? _].
  - intros h w [Hw _]%Hsub. by apply Hfiled.
Qed.

(** ** Adding an item *)

Lemma queues_add rows V prio prio' ro ro' pending d d' slots h w :
  queues_inv rows V prio ro pending d slots → slots_wf slots → V !! h = None → work_ok w → w.(tw_state) = Pending →
  (∀ h' w', V !! h' = Some w' → is_live w'.(tw_state) = true → tracked slots.(sm_cols) slots.(sm_rows) w →
     tw_tile w' = tw_tile w → Z.to_nat w'.(tw_pass_idx) ≠ Z.to_nat w.(tw_pass_idx)) →
  prio' ++ concat ro' ≡ₚ h :: (prio ++ concat ro) →
  (∀ b q h', ro' !! b = Some q → h' ∈ q → h' = h ∧ bucket_of w.(tw_pass_idx) = b ∨ ∃ q0, ro !! b = Some q0 ∧ h' ∈ q0) →
  deficit_meets rows (queue_tiles (<[h := w]> V) (concat ro')) d' →
  queues_inv rows (<[h := w]> V) prio' ro' (S pending) d'
    (set_handle w.(tw_tile_x) w.(tw_tile_y) (Z.to_nat w.(tw_pass_idx)) (Some h) slots).
Proof.
  intros [Hnd Hlive Hok Hp Hb Hd Hfiled] Hwf Hnew Hw Hst Hfree Hall Hro Hd'.
  assert (h ∉ prio ++ concat ro) as Hnh by (rewrite Hlive, Hnew; by intros []).
  split.
  - rewrite Hall. by constructor.
  - intros k. rewrite Hall, elem_of_cons, Hlive. destruct (decide (k = h)) as [->|Hne].
    + rewrite lookup_insert_eq. split; [by eexists|by left].
    + rewrite lookup_insert_ne by done. split; [by intros [?|?]|by right].
  - intros k x [[<- <-]|[_ Hx]]%lookup_insert_Some; [done|by eapply Hok].
  - rewrite map_total_insert, <-Hp by done. unfold pend. by rewrite Hst.
  - intros b q k x Hq Hk Hx. destruct (Hro b q k Hq Hk) as [[-> <-]|(q0 & Hq0 & Hk0)].
    + rewrite lookup_insert_eq in Hx. simplify_eq. split; [done|by left].
    + apply lookup_insert_Some in Hx as [[<- <-]|[_ Hx]]; [|by eapply Hb].
      destruct Hnh. apply elem_of_app. right. apply list_elem_of_In, in_concat. exists q0.
      split; apply list_elem_of_In; [by eapply list_elem_of_lookup_2|done].
  - done.
  - intros k x Hx Hl Ht. unfold set_handle in Ht. rewrite slot_update_cols, slot_update_rows in Ht.
    destruct w as [wx wy wg wp wt wc wpl wq wl ws]. destruct (Hw) as (Huw & _ & _).
    assert (u8_tile (tw_tile x)) as Hux.
    { apply lookup_insert_Some in Hx as [[<- <-]|[_ Hx]]; [done|]. by apply (Hok k x). }
    unfold tw_tile in *. cbn in *. rewrite slot_handle_set by done.
    apply lookup_insert_Some in Hx as [[<- <-]|[Hne Hx]]; cbn.
    + destruct Ht as [Hg Hp14]. cbn in *. by rewrite decide_True.
    + destruct (decide _) as [([= -> ->] & Hpp & Hlt & Hg)|]; [|by apply Hfiled].
      destruct (Hfree k x Hx Hl); [by split|done|done].
Qed.

(** ** Superseding *)

Definition supersede (w : TileWork) : TileWork := if is_live w.(tw_state) then set_state Superseded w else w.

Lemma keeps_supersede : keeps_work supersede.
Proof. intros w. unfold supersede. destruct (is_live _); [apply keeps_set_state|done]. Qed.
Lemma supersede_not_live w : is_live (supersede w).(tw_state) = false.
Proof. unfold supersede. by destruct (is_live (tw_state w)) eqn:E. Qed.
#[export] Hint Resolve keeps_supersede supersede_not_live : ghost.

(** What [retire] and what follows leave alone. *)
Record same_shape (s s' : Scheduler) : Prop := {
  ss_dims : s'.(sc_cols) = s.(sc_cols) ∧ s'.(sc_rows) = s.(sc_rows);
  ss_prio : s'.(sc_priority_order) = s.(sc_priority_order);
  ss_ro : s'.(sc_refinement_order) = s.(sc_refinement_order);
  ss_cursor : s'.(sc_refinement_cursor) = s.(sc_refinement_cursor);
  ss_fresh : s'.(sc_refinement_fresh) = s.(sc_refinement_fresh);
  ss_deficit : s'.(sc_deficit) = s.(sc_deficit);
  ss_room : slab_room s.(sc_work) → slab_room s'.(sc_work);
  ss_len : length s'.(sc_work).(sl_entries) = length s.(sc_work).(sl_entries);
}.

#[export] Instance same_shape_preorder : PreOrder same_shape.
Proof.
  split; [by split|]. intros a b c [[Ha1 Ha2] ? ? ? ? ? Har ?] [[Hb1 Hb2] ? ? ? ? ? Hbr ?].
  split; [split|..]; try congruence. auto.
Qed.

Lemma slab_modify_len {T} (f : T → T) h s : length (slab_modify f h s).(sl_entries) = length s.(sl_entries).
Proof. unfold slab_modify. destruct (slab_entry s h); cbn; by rewrite ?length_insert. Qed.

Lemma with_queues_shape work p slots s : (slab_room s.(sc_work) → slab_room work) →
  length work.(sl_entries) = length s.(sc_work).(sl_entries) → same_shape s (with_queues work p slots s).
Proof. intros ? ?. by split. Qed.

Lemma sched_rework s f h w pending' : sched_inv s → keeps_work f → slab_view s.(sc_work) !! h = Some w →
  (is_live (f w).(tw_state) = true → is_live w.(tw_state) = true) →
  (h ∈ concat s.(sc_refinement_order) → waits (f w)) →
  (pending' + pend w = pend (f w) + s.(sc_pending_items))%nat →
  let s' := with_queues (slab_modify f h s.(sc_work)) pending' s.(sc_slots) s in
  sched_inv s' ∧ slab_view s'.(sc_work) = alter f h (slab_view s.(sc_work)) ∧ same_shape s s'.
Proof.
  intros Hi Hf Hw Hst Hq Hp s'. destruct (slab_modify_spec s.(sc_work) f h (si_slab s Hi)) as (Hwf & Hview & Hroom).
  split; [|split; [done|apply with_queues_shape; [done|apply slab_modify_len]]].
  destruct Hi as [_ Hslots Hdims Hlens Hfresh Hfrac Hqueues]. split; try done.
  cbn. rewrite Hview. by eapply queues_rework.
Qed.

Lemma alter_same {A} (f : A → A) (h : Handle) (V : gmap Handle A) w : V !! h = Some w → f w = w → alter f h V = V.
Proof. intros Hw Hf. apply alter_id. intros x Hx. by simplify_eq. Qed.

Lemma retire_spec {E} h s : sched_inv s →
  ∃ s', retire (E:=E) h s = Ok s' ∧ sched_inv s' ∧ same_shape s s' ∧ s'.(sc_slots) = s.(sc_slots) ∧
    slab_view s'.(sc_work) = alter supersede h (slab_view s.(sc_work)).
Proof.
  intros Hi. unfold retire. rewrite slab_get_view. destruct (slab_view (sc_work s) !! h) as [w|] eqn:Hw; last first.
  { exists s. split; [done|]. split; [done|]. split; [done|]. split; [done|]. symmetry. by apply alter_id'. }
  destruct (is_live (tw_state w)) eqn:Hl; last first.
  { exists s. split; [done|]. split; [done|]. split; [done|]. split; [done|]. symmetry. eapply alter_same; [done|].
    unfold supersede. by rewrite Hl. }
  assert (∃ p, (if is_pending (tw_state w) then sub_usize (E:=E) (sc_pending_items s) 1 else mret (sc_pending_items s)) = Ok p ∧
    (p + pend w = sc_pending_items s)%nat) as (p & -> & Hp).
  { unfold pend. destruct (is_pending (tw_state w)) eqn:Hpend; [|by eexists; split; [done|lia]].
    pose proof (qi_pending _ _ _ _ _ _ _ (si_queues s Hi)) as Htot. rewrite (map_total_delete pend _ h w Hw) in Htot.
    unfold pend at 1 in Htot. rewrite Hpend in Htot. unfold sub_usize. rewrite (proj2 (Nat.leb_le _ _)) by lia.
    eexists. split; [done|lia]. }
  rewrite bind_Ok. eexists. split; [done|].
  destruct (sched_rework s (set_state Superseded) h w p Hi) as (Hi' & Hview & Hshape); [auto with ghost|done|done|by right|done|].
  split; [done|]. split; [done|]. split; [done|]. rewrite Hview. apply alter_ext. intros x Hx. simplify_eq.
  unfold supersede. by rewrite Hl.
Qed.

Lemma supersede_live_spec {E} x y p s : sched_inv s →
  ∃ s', supersede_live_handle (E:=E) x y p s = Ok s' ∧ sched_inv s' ∧ same_shape s s' ∧ s'.(sc_slots) = s.(sc_slots) ∧
    slab_view s'.(sc_work) = match slot_handle s.(sc_slots) x y (Z.to_nat p) with
                             | Some h => alter supersede h (slab_view s.(sc_work))
                             | None => slab_view s.(sc_work)
                             end.
Proof.
  intros Hi. unfold supersede_live_handle. destruct (slot_handle _ _ _ _) as [h|]; [by apply retire_spec|]. by exists s.
Qed.

(** ** Filing *)

(** [n] more items fit the slab's 32-bit indices. *)
Definition sched_room (n : nat) (s : Scheduler) : Prop := Z.of_nat (length s.(sc_work).(sl_entries)) + Z.of_nat n ≤ 2 ^ 32.

Lemma slab_insert_len {E} (v : TileWork) s s' h : slab_insert (E:=E) v s = Ok (s', h) →
  (length s'.(sl_entries) ≤ S (length s.(sl_entries)))%nat.
Proof. intros Hs. apply (slab_step_grows (E:=E) (Op_insert v) s s' (Answer_handle h)). cbn. by rewrite Hs. Qed.

(** After the slot's item was superseded, nothing live is left at its tile-pass. *)
Lemma superseded_free s1 V x y p : sched_inv s1 →
  slab_view s1.(sc_work) = match slot_handle s1.(sc_slots) x y p with Some h => alter supersede h V | None => V end →
  ∀ h' w', slab_view s1.(sc_work) !! h' = Some w' → is_live w'.(tw_state) = true →
    tracked s1.(sc_slots).(sm_cols) s1.(sc_slots).(sm_rows) w' → tw_tile w' = (x, y) → Z.to_nat w'.(tw_pass_idx) ≠ p.
Proof.
  intros Hi HV h' w' Hw' Hl Ht Htile Hp.
  pose proof (qi_filed _ _ _ _ _ _ _ (si_queues s1 Hi) h' w' Hw' Hl Ht) as Hh. unfold tw_tile in Htile. simplify_eq.
  rewrite Hh in HV. rewrite HV, lookup_alter_eq in Hw'. destruct (V !! h'); cbn in Hw'; simplify_eq.
  by rewrite supersede_not_live in Hl.
Qed.

(** The items after the slot's item was superseded and [w] inserted as [h]. *)
Definition filed_view (s : Scheduler) (h : Handle) (w : TileWork) : gmap Handle TileWork :=
  <[h := w]> (match slot_handle s.(sc_slots) w.(tw_tile_x) w.(tw_tile_y) (Z.to_nat w.(tw_pass_idx)) with
              | Some h0 => alter supersede h0 (slab_view s.(sc_work))
              | None => slab_view s.(sc_work)
              end).

Lemma file_work_spec {E} w s : sched_inv s → sched_room 1 s →
  ∃ s1 work h, file_work (E:=E) w s =
      Ok (with_queues work (S s1.(sc_pending_items))
            (set_handle w.(tw_tile_x) w.(tw_tile_y) (Z.to_nat w.(tw_pass_idx)) (Some h) s1.(sc_slots)) s1, h) ∧
    sched_inv s1 ∧ same_shape s s1 ∧ s1.(sc_slots) = s.(sc_slots) ∧
    slab_wf work ∧ slab_view s1.(sc_work) !! h = None ∧
    slab_view work = <[h := w]> (slab_view s1.(sc_work)) ∧ slab_view work = filed_view s h w ∧
    (length work.(sl_entries) ≤ S (length s.(sc_work).(sl_entries)))%nat ∧
    (∀ h' w', slab_view s1.(sc_work) !! h' = Some w' → is_live w'.(tw_state) = true →
       tracked s1.(sc_slots).(sm_cols) s1.(sc_slots).(sm_rows) w → tw_tile w' = tw_tile w →
       Z.to_nat w'.(tw_pass_idx) ≠ Z.to_nat w.(tw_pass_idx)).
Proof.
  intros Hi Hroom. destruct (supersede_live_spec (E:=E) w.(tw_tile_x) w.(tw_tile_y) w.(tw_pass_idx) s Hi)
    as (s1 & Hs1 & Hi1 & Hsh & Hslots & Hview).
  destruct (slab_insert_spec (E:=E) s1.(sc_work) w (si_slab s1 Hi1)) as (work & h & Hins & Hwf & Hnew & Hw).
  { right. rewrite (ss_len _ _ Hsh). unfold sched_room in Hroom. lia. }
  exists s1, work, h. unfold file_work. rewrite Hs1, bind_Ok. cbn. rewrite Hins, bind_Ok. split; [done|].
  split; [done|]. split; [done|]. split; [done|]. split; [done|]. split; [done|]. split; [done|].
  split; [unfold filed_view; by rewrite Hw, Hview|]. apply slab_insert_len in Hins.
  split; [by rewrite (ss_len _ _ Hsh) in Hins|]. intros h' w' Hw' Hl Ht Htile Hp.
  rewrite <-Hslots in Hview. eapply (superseded_free s1); [done|exact Hview|done|done| |done|done].
  unfold tracked in *. by rewrite Htile, Hp.
Qed.

Lemma concat_alter_snoc (ro : list (list Handle)) b h : (b < length ro)%nat →
  concat (alter (λ q, q ++ [h]) b ro) ≡ₚ h :: concat ro.
Proof.
  revert b. induction ro as [|q ro IH]; intros [|b] Hb; cbn in *; [lia..| |].
  - rewrite <-app_assoc. cbn. by rewrite <-Permutation_middle.
  - change (alter (λ q, q ++ [h]) (S b) (q :: ro)) with (q :: alter (λ q, q ++ [h]) b ro). cbn.
    rewrite IH by lia. by rewrite Permutation_middle.
Qed.

Lemma bucket_of_lt p : (bucket_of p < PASS_SLOTS)%nat.
Proof. unfold bucket_of, PASS_SLOTS. lia. Qed.

(** What an enqueue does: the tile-pass's live item is superseded, and the new one waits. *)
Record enqueued (s : Scheduler) (w : TileWork) (s' : Scheduler) : Prop := {
  eq_inv : sched_inv s';
  eq_dims : s'.(sc_cols) = s.(sc_cols) ∧ s'.(sc_rows) = s.(sc_rows);
  eq_len : (length s'.(sc_work).(sl_entries) ≤ S (length s.(sc_work).(sl_entries)))%nat;
  eq_view : ∃ h, (h ∉ all_handles s) ∧ slab_view s'.(sc_work) = filed_view s h w ∧
    all_handles s' ≡ₚ h :: all_handles s;
}.

Lemma live_handles s h : sched_inv s → h ∈ all_handles s ↔ is_Some (slab_view s.(sc_work) !! h).
Proof. intros Hi. apply (qi_live _ _ _ _ _ _ _ (si_queues s Hi)). Qed.

Lemma queue_tiles_insert V h w q : h ∉ q → queue_tiles (<[h := w]> V) q = queue_tiles V q.
Proof. intros Hni. apply queue_tiles_agree. intros k Hk. by rewrite lookup_insert_ne by (intros ->; done). Qed.

Lemma ro_not_prio s h : sched_inv s → h ∉ all_handles s → h ∉ concat s.(sc_refinement_order).
Proof. intros _ Hn Hin. apply Hn. unfold all_handles. apply elem_of_app. by right. Qed.

Lemma assert_in_grid_ok {E} w s : in_grid s.(sc_cols) s.(sc_rows) (tw_tile w) = true → assert_in_grid (E:=E) w s = Ok tt.
Proof.
  unfold in_grid, assert_in_grid, assert_. cbn. intros Hg.
  assert ((tw_tile_x w <? sc_cols s) = true) as -> by lia. rewrite bind_Ok.
  by assert ((tw_tile_y w <? sc_rows s) = true) as -> by lia.
Qed.

Lemma enqueue_at_spec {E} w now s : sched_inv s → sched_room 1 s → work_ok w → in_grid s.(sc_cols) s.(sc_rows) (tw_tile w) = true →
  ∃ s', enqueue_at (E:=E) w now s = Ok s' ∧ enqueued s (stamp_queued now w) s'.
Proof.
  intros Hi Hroom Hok Hg. unfold enqueue_at. rewrite assert_in_grid_ok by done. rewrite bind_Ok.
  set (w' := stamp_queued now w).
  destruct (file_work_spec (E:=E) w' s Hi Hroom) as (s1 & work & h & -> & Hi1 & Hsh & Hslots & Hwf & Hnew & Hview & Hfv & Hlen & Hfree).
  rewrite bind_Ok. eexists. split; [done|]. destruct Hsh as [Hdims Hprio Hro Hcur Hfr Hdef Hrm Hl].
  assert (h ∉ all_handles s1) as Hnh by (rewrite live_handles, Hnew by done; by intros []).
  assert ((sc_priority_order s1 ++ [h]) ++ concat (sc_refinement_order s1) ≡ₚ h :: all_handles s1) as Hperm.
  { rewrite <-app_assoc. cbn. by rewrite <-Permutation_middle. }
  split; [|done|done|].
  - destruct Hi1 as [Hslab1 Hslots1 Hdims1 Hlens1 Hfresh1 Hfrac1 Hq1]. split; cbn; try done.
    + by apply set_handle_wf.
    + unfold set_handle. by rewrite slot_update_cols, slot_update_rows.
    + rewrite Hview. apply (queues_add _ _ _ _ _ _ _ _ _ _ h w' Hq1); try done.
      * intros b q h' Hq Hh'. right. by exists q.
      * rewrite queue_tiles_insert by (intros ?; apply Hnh, elem_of_app; by right). apply Hq1.
  - exists h. unfold all_handles in *. cbn. rewrite <-Hprio, <-Hro. done.
Qed.

Lemma queue_refinement_spec {E} w s : sched_inv s → sched_room 1 s → work_ok w → w.(tw_state) = Pending →
  ∃ s', queue_refinement (E:=E) w s = Ok s' ∧ enqueued s w s'.
Proof.
  intros Hi Hroom Hok Hst. unfold queue_refinement.
  destruct (file_work_spec (E:=E) w s Hi Hroom) as (s1 & work & h & -> & Hi1 & Hsh & Hslots & Hwf & Hnew & Hview & Hfv & Hlen & Hfree).
  rewrite bind_Ok. eexists. split; [done|]. destruct Hsh as [Hdims Hprio Hro Hcur Hfr Hdef Hrm Hl].
  assert (h ∉ all_handles s1) as Hnh by (rewrite live_handles, Hnew by done; by intros []).
  set (b := bucket_of (tw_pass_idx w)). pose proof (bucket_of_lt (tw_pass_idx w)) as Hb. fold b in Hb.
  assert (concat (alter (λ q, q ++ [h]) b (sc_refinement_order s1)) ≡ₚ h :: concat (sc_refinement_order s1)) as Hcat.
  { apply concat_alter_snoc. by rewrite (proj1 (si_lens s1 Hi1)). }
  assert (sc_priority_order s1 ++ concat (alter (λ q, q ++ [h]) b (sc_refinement_order s1)) ≡ₚ h :: all_handles s1) as Hperm.
  { rewrite Hcat. by rewrite <-Permutation_middle. }
  split; [|done|done|].
  - destruct Hi1 as [Hslab1 Hslots1 Hdims1 (Hl1 & Hl2 & Hl3) Hfresh1 Hfrac1 Hq1]. split; cbn; fold b; try done.
    + by apply set_handle_wf.
    + unfold set_handle. rewrite slot_update_cols, slot_update_rows. unfold deficit_push.
      by destruct (deficit_index _ _ _).
    + by rewrite !length_alter.
    + intros b' f q n Hf Hq Hn. destruct (decide (b' = b)) as [->|Hne].
      * rewrite list_lookup_alter_eq in Hf. rewrite list_lookup_alter_eq in Hq. destruct (sc_refinement_fresh s1 !! b) as [f0|] eqn:Hf0; [|done].
        destruct (sc_refinement_order s1 !! b) as [q0|] eqn:Hq0; [|done]. cbn in Hf, Hq. simplify_eq. cbn in Hn. simplify_eq.
        rewrite length_app. cbn. destruct (fr_start f0) as [n0|] eqn:Hn0; cbn; [|lia].
        specialize (Hfresh1 b f0 q0 n0 Hf0 Hq0 Hn0). lia.
      * rewrite list_lookup_alter_ne in Hf by done. rewrite list_lookup_alter_ne in Hq by done. by eapply Hfresh1.
    + rewrite Hview. apply (queues_add _ _ _ _ _ _ _ _ _ _ h w Hq1); try done.
      * intros b' q h' Hq Hh'. destruct (decide (b' = b)) as [->|Hne].
        -- rewrite list_lookup_alter_eq in Hq. destruct (sc_refinement_order s1 !! b) as [q0|] eqn:Hq0; [|done].
           cbn in Hq. simplify_eq. apply elem_of_app in Hh' as [Hh'| ->%list_elem_of_singleton]; [right; by exists q0|by left].
        -- rewrite list_lookup_alter_ne in Hq by done. right. by exists q.
      * eapply deficit_meets_perm; [by rewrite Hcat|].
        unfold queue_tiles at 1. cbn [omap list_omap]. rewrite lookup_insert_eq. cbn.
        apply deficit_push_meets. change (omap _ (concat (sc_refinement_order s1))) with (queue_tiles (<[h:=w]> (slab_view (sc_work s1))) (concat (sc_refinement_order s1))).
        rewrite queue_tiles_insert by (intros ?; apply Hnh, elem_of_app; by right). apply Hq1.
  - exists h. unfold all_handles in *. cbn. rewrite <-Hprio, <-Hro. done.
Qed.
