(* ===== verification/SchedulerDrain.v ===== *)
(** * What a scheduler tick sends

    Pure descriptions of the two drains on the items a queue holds: which eligible
    items the priority drain picks, which items the refinement drain takes, and how a
    bucket is pruned and rotated first.  The drains of [Scheduler] compute
    them, and keep the invariant of [SchedulerTheory]. *)

From Stdlib Require Import ZArith Lia.
From S2P Require Import Prelude Wire MapTotals Slab SlotMap Deficit F32 Scheduler SchedulerTheory.
From stdpp Require Import base option numbers list gmap.

Local Open Scope Z_scope.

(** ** Definitions *)

(** The items of a queue, in order, each with its handle. *)
Definition queue_items (V : gmap Handle TileWork) (q : list Handle) : list (Handle * TileWork) :=
  omap (λ h, pair h <$> V !! h) q.

Definition live_at (V : gmap Handle TileWork) (h : Handle) : bool :=
  match V !! h with Some w => is_live w.(tw_state) | None => false end.
Definition survivors (V : gmap Handle TileWork) (q : list Handle) : list Handle := filter (λ h, live_at V h = true) q.
Definition dead (V : gmap Handle TileWork) (q : list Handle) : gset Handle :=
  list_to_set (filter (λ h, live_at V h = false) q).

Section spec.
  Context (now retry_after item_overhead : Z) (recovery_owned : Z → Z → Z → bool).

(** The priority drain: eligible items until the budget is spent, the one that crosses it
    included. *)
Fixpoint picks (budget spent : Z) (l : list (Handle * TileWork)) : list (Handle * TileWork) :=
  match l with
  | [] => []
  | (h, w) :: l =>
      if negb (eligible now retry_after recovery_owned w) then picks budget spent l
      else if budget <=? spent then []
      else (h, w) :: picks budget (Z.min USIZE_MAX (spent + item_cost item_overhead w)) l
  end.

Definition send_all (V : gmap Handle TileWork) (l : list (Handle * TileWork)) : gmap Handle TileWork :=
  foldl (λ V p, alter (stamp_sent now) p.1 V) V l.

(** Where in the output the re-sends are. *)
Fixpoint retry_positions (i : nat) (ws : list TileWork) : list nat :=
  match ws with
  | [] => []
  | w :: ws => (if is_pending w.(tw_state) then [] else [i]) ++ retry_positions (S i) ws
  end.

(** The refinement drain: items while they fit, the first whatever it costs. *)
Fixpoint takes (budget spent : Z) (l : list (Handle * TileWork)) : list (Handle * TileWork) :=
  match l with
  | [] => []
  | (h, w) :: l =>
      if (budget =? 0) || ((0 <? spent) && (budget <? spent + item_cost item_overhead w)) then []
      else (h, w) :: takes budget (spent + item_cost item_overhead w) l
  end.

Definition cost_of (l : list (Handle * TileWork)) : Z := foldr (λ p n, item_cost item_overhead p.2 + n) 0 l.

End spec.

(** ** Slabs under removal *)

Lemma live_at_delete V h k : h ≠ k → live_at (delete h V) k = live_at V k.
Proof. intros Hne. unfold live_at. by rewrite lookup_delete_ne. Qed.

Lemma without_delete D V h : without D (delete h V) = without ({[ h ]} ∪ D) V.
Proof.
  apply map_eq. intros k. rewrite !without_lookup. destruct (decide (k = h)) as [->|Hne].
  - rewrite (decide_True (P:=h ∈ {[h]} ∪ D)) by set_solver. rewrite lookup_delete_eq. by destruct (decide _).
  - rewrite lookup_delete_ne by done. destruct (decide (k ∈ D)).
    + by rewrite decide_True by set_solver.
    + by rewrite decide_False by set_solver.
Qed.

Lemma without_empty V : without ∅ V = V.
Proof. apply map_eq. intros k. rewrite without_lookup. by rewrite decide_False by set_solver. Qed.

Lemma survivors_agree V V' q : (∀ h, h ∈ q → live_at V' h = live_at V h) → survivors V' q = survivors V q.
Proof. intros Ha. apply filter_agree, Forall_forall. intros h Hh. by rewrite Ha. Qed.
Lemma dead_agree V V' q : (∀ h, h ∈ q → live_at V' h = live_at V h) → dead V' q = dead V q.
Proof. intros Ha. unfold dead. f_equal. apply filter_agree, Forall_forall. intros h Hh. by rewrite Ha. Qed.

Lemma queue_items_agree V V' q : (∀ h, h ∈ q → V' !! h = V !! h) → queue_items V' q = queue_items V q.
Proof.
  intros Ha. unfold queue_items. induction q as [|h q IH]; [done|]. cbn. rewrite (Ha h) by left.
  rewrite IH; [done|]. intros k Hk. apply Ha. by right.
Qed.

(** Everything resolves. *)
Definition resolves (V : gmap Handle TileWork) (q : list Handle) : Prop := ∀ h, h ∈ q → is_Some (V !! h).

Lemma resolves_delete V h q : h ∉ q → resolves V q → resolves (delete h V) q.
Proof. intros Hn Hr k Hk. rewrite lookup_delete_ne by (intros ->; done). auto. Qed.

Lemma slab_remove_len {E} h (s s' : Slab TileWork) v : slab_remove (E:=E) h s = Ok (s', v) →
  length s'.(sl_entries) = length s.(sl_entries).
Proof.
  unfold slab_remove, sub_usize, mret, outcome_ret. destruct (slab_entry s h) as [[ver [x|]]|]; cbn; [|intros; by simplify_eq..].
  destruct (sl_live s); cbn; [done|]. intros. simplify_eq. cbn. apply length_insert.
Qed.

Lemma retain_live_spec {E} order : ∀ work, slab_wf work → NoDup order → resolves (slab_view work) order →
  ∃ work', retain_live (E:=E) order work = Ok (work', survivors (slab_view work) order) ∧ slab_wf work' ∧
    slab_view work' = without (dead (slab_view work) order) (slab_view work) ∧
    length work'.(sl_entries) = length work.(sl_entries).
Proof.
  induction order as [|h order IH]; intros work Hwf Hnd Hres; cbn [retain_live].
  { exists work. unfold dead. cbn. by rewrite without_empty. }
  inversion Hnd as [|? ? Hni Hnd']; subst.
  assert (is_Some (slab_view work !! h)) as [w Hw] by (apply Hres; left).
  rewrite slab_get_view, Hw. unfold survivors, dead. rewrite !filter_cons.
  assert (live_at (slab_view work) h = is_live (tw_state w)) as Hl by (unfold live_at; by rewrite Hw).
  unfold is_terminal. destruct (is_live (tw_state w)) eqn:Hlw; cbn [negb].
  - destruct (IH work Hwf Hnd') as (work' & -> & Hwf' & Hv & Hlen); [intros k Hk; apply Hres; by right|].
    exists work'. rewrite bind_Ok. rewrite decide_True, decide_False by congruence. done.
  - destruct (slab_remove_spec (E:=E) work h w Hwf Hw) as (w1 & Hrem & Hwf1 & Hv1 & _). rewrite Hrem, bind_Ok.
    assert (∀ k, k ∈ order → live_at (slab_view w1) k = live_at (slab_view work) k) as Hagree.
    { intros k Hk. rewrite Hv1. apply live_at_delete. by intros ->. }
    destruct (IH w1 Hwf1 Hnd') as (work' & Hr & Hwf' & Hv & Hlen).
    { rewrite Hv1. apply resolves_delete; [done|]. intros k Hk. apply Hres. by right. }
    exists work'. rewrite Hr. rewrite (survivors_agree _ _ _ Hagree). rewrite decide_False, decide_True by congruence.
    split; [done|]. split; [done|]. split; [|rewrite Hlen; by eapply slab_remove_len].
    rewrite Hv, (dead_agree _ _ _ Hagree), Hv1, without_delete. done.
Qed.

(** ** The priority drain *)

Section priority.
  Context (now retry_after item_overhead : Z) (recovery_owned : Z → Z → Z → bool).
  Local Abbreviation picks := (picks now retry_after item_overhead recovery_owned).
  Local Abbreviation send_all := (send_all now).

Lemma send_one_inv s h w : sched_inv s → h ∈ s.(sc_priority_order) → slab_view s.(sc_work) !! h = Some w → is_live w.(tw_state) = true →
  ∃ p, (p + pend w = s.(sc_pending_items))%nat ∧
    let s' := with_queues (slab_modify (λ _, stamp_sent now w) h s.(sc_work)) p s.(sc_slots) s in
    sched_inv s' ∧ slab_view s'.(sc_work) = alter (stamp_sent now) h (slab_view s.(sc_work)) ∧ same_shape s s'.
Proof.
  intros Hi Hh Hw Hl. pose proof (qi_pending _ _ _ _ _ _ _ (si_queues s Hi)) as Htot.
  rewrite (map_total_delete pend _ h w Hw) in Htot. exists (sc_pending_items s - pend w)%nat. split; [lia|].
  assert (slab_modify (λ _, stamp_sent now w) h (sc_work s) = slab_modify (stamp_sent now) h (sc_work s)) as ->.
  { pose proof Hw as Hg. rewrite <-slab_get_view in Hg. unfold slab_get in Hg. unfold slab_modify.
    destruct (slab_entry (sc_work s) h) as [e|]; [|done]. cbn in Hg. by rewrite Hg. }
  apply (sched_rework s (stamp_sent now) h w); auto with ghost; [|change (pend (stamp_sent now w)) with 0%nat; lia].
  intros Hin. pose proof (qi_nodup _ _ _ _ _ _ _ (si_queues s Hi)) as H. apply NoDup_app in H as (_ & Hdisj & _).
  by destruct (Hdisj h Hh).
Qed.

Lemma alter_lookup_ne (V : gmap Handle TileWork) (f : TileWork → TileWork) h k : k ≠ h → alter f h V !! k = V !! k.
Proof. intros Hne. by rewrite lookup_alter_ne. Qed.

Lemma drain_priority_go_spec {E} budget order : ∀ spent s d, sched_inv s → NoDup order →
  (∀ h, h ∈ order → h ∈ s.(sc_priority_order)) → d.(pd_work) = s.(sc_work) → d.(pd_pending) = s.(sc_pending_items) →
  let picked := picks budget spent (queue_items (slab_view s.(sc_work)) order) in
  ∃ d', drain_priority_go (E:=E) now retry_after item_overhead recovery_owned budget order spent d = Ok d' ∧
    let s' := with_queues d'.(pd_work) d'.(pd_pending) s.(sc_slots) s in
    sched_inv s' ∧ same_shape s s' ∧
    slab_view d'.(pd_work) = send_all (slab_view s.(sc_work)) picked ∧
    d'.(pd_out) = d.(pd_out) ++ (stamp_sent now <$> picked.*2) ∧
    d'.(pd_retries) = d.(pd_retries) ++ retry_positions (length d.(pd_out)) picked.*2.
Proof.
  induction order as [|h order IH]; intros spent s d Hi Hnd Hsub Hdw Hdp picked; cbn [drain_priority_go].
  { exists d. split; [done|]. cbn in picked. unfold picked. cbn. rewrite !app_nil_r, Hdw, Hdp. destruct s. cbn in *.
    split; [done|]. split; [by split|]. done. }
  inversion Hnd as [|? ? Hni Hnd']; subst.
  assert (∀ k, k ∈ order → k ∈ sc_priority_order s) as Hsub' by (intros k Hk; apply Hsub; by right).
  assert (h ∈ sc_priority_order s) as Hh by (apply Hsub; left).
  assert (is_Some (slab_view (sc_work s) !! h)) as [w Hw].
  { apply (live_handles s h Hi). unfold all_handles. apply elem_of_app. by left. }
  rewrite Hdw, slab_get_view, Hw. unfold picked. unfold queue_items. cbn [omap list_omap]. rewrite Hw. cbn [fmap option_fmap option_map picks].
  change (omap (λ h0, pair h0 <$> slab_view (sc_work s) !! h0) order) with (queue_items (slab_view (sc_work s)) order).
  destruct (eligible now retry_after recovery_owned w) eqn:Hel; cbn [negb]; [|by apply (IH spent s d)].
  destruct (budget <=? spent).
  { exists d. split; [done|]. cbn. rewrite !app_nil_r, Hdw, Hdp. destruct s. cbn in *. split; [done|]. split; [by split|]. done. }
  assert (is_live (tw_state w) = true) as Hl by (unfold eligible in Hel; by destruct (tw_state w)).
  destruct (send_one_inv s h w Hi Hh Hw Hl) as (p & Hp & Hi1 & Hv1 & Hsh1).
  set (s1 := with_queues _ _ _ _) in *.
  assert ((match tw_state w with
           | InFlight => mret (pd_pending d, pd_retries d ++ [length (pd_out d)])
           | _ => p0 ← sub_usize (pd_pending d) 1; mret (p0, pd_retries d)
           end : outcome E _) = Ok (p, pd_retries d ++ (if is_pending (tw_state w) then [] else [length (pd_out d)]))) as Hm.
  { rewrite Hdp. unfold pend in Hp. destruct (tw_state w); cbn in Hp; try done.
    - unfold sub_usize. rewrite (proj2 (Nat.leb_le _ _)) by lia. cbn. rewrite app_nil_r. repeat f_equal. lia.
    - cbn. repeat f_equal. lia. }
  rewrite Hm, bind_Ok. cbv beta iota zeta.
  destruct (IH (Z.min USIZE_MAX (spent + item_cost item_overhead w)) s1
    (mkPD (slab_modify (λ _, stamp_sent now w) h (sc_work s)) p (pd_out d ++ [stamp_sent now w])
      (pd_retries d ++ (if is_pending (tw_state w) then [] else [length (pd_out d)]))) Hi1 Hnd' Hsub' eq_refl eq_refl)
    as (d' & Hd' & Hi' & Hsh' & Hv' & Hout & Hret).
  exists d'. split; [exact Hd'|]. rewrite Hv1 in Hv', Hout, Hret.
  rewrite (queue_items_agree (slab_view (sc_work s)) (alter (stamp_sent now) h (slab_view (sc_work s)))) in Hv', Hout, Hret
    by (intros k Hk; apply alter_lookup_ne; by intros ->).
  cbn zeta. split; [exact Hi'|]. split; [by etransitivity|]. split; [exact Hv'|]. split.
  - rewrite Hout. cbn. by rewrite <-app_assoc.
  - rewrite Hret. cbn [pd_retries pd_out fmap list_fmap snd retry_positions]. rewrite length_app, Nat.add_1_r, <-app_assoc. done.
Qed.

End priority.

Lemma elem_dead V q h : h ∈ dead V q ↔ h ∈ q ∧ live_at V h = false.
Proof. unfold dead. rewrite elem_of_list_to_set, list_elem_of_filter. tauto. Qed.

Lemma keep_out_dead V q : keep_out (dead V q) q = survivors V q.
Proof.
  apply filter_agree, Forall_forall. intros h Hh. rewrite elem_dead. destruct (live_at V h); [|naive_solver].
  split; [done|]. by intros _ [_ ?].
Qed.

Lemma keep_out_disjoint D q : (∀ h, h ∈ q → h ∉ D) → keep_out D q = q.
Proof. intros Hd. apply filter_every, Forall_forall. exact Hd. Qed.

Lemma dead_not_pending V q : map_total pend (filter (λ hw, hw.1 ∈ dead V q) V) = 0%nat.
Proof.
  assert (∀ m : gmap Handle TileWork, (∀ h w, m !! h = Some w → is_live w.(tw_state) = false) → map_total pend m = 0%nat) as H.
  { intros m. induction m as [|h w m Hm IH] using map_ind; [done|]. intros Hd. rewrite map_total_insert by done.
    rewrite IH; [|intros k x Hx; apply (Hd k x); rewrite lookup_insert_ne; [done|congruence]].
    specialize (Hd h w (lookup_insert_eq m h w)). unfold pend. by destruct (tw_state w). }
  apply H. intros h w [Hw Hin]%map_lookup_filter_Some. apply elem_dead in Hin as [_ Hl]. unfold live_at in Hl. cbn in Hl. by rewrite Hw in Hl.
Qed.

Lemma ro_in_concat (ro : list (list Handle)) b q h : ro !! b = Some q → h ∈ q → h ∈ concat ro.
Proof.
  intros Hq Hh. apply list_elem_of_In, in_concat. exists q. split; apply list_elem_of_In; [by eapply list_elem_of_lookup_2|done].
Qed.

Lemma in_concat_ro (ro : list (list Handle)) h : h ∈ concat ro → ∃ b q, ro !! b = Some q ∧ h ∈ q.
Proof.
  intros Hh. apply list_elem_of_In, in_concat in Hh as (q & Hq & Hin). apply list_elem_of_In in Hq, Hin.
  apply list_elem_of_lookup in Hq as (b & Hb). by exists b, q.
Qed.

Lemma retain_inv s work : sched_inv s → slab_wf work →
  slab_view work = without (dead (slab_view s.(sc_work)) s.(sc_priority_order)) (slab_view s.(sc_work)) →
  sched_inv (with_priority (survivors (slab_view s.(sc_work)) s.(sc_priority_order))
    (with_queues work s.(sc_pending_items) s.(sc_slots) s)).
Proof.
  intros [Hslab Hslots Hdims Hlens Hfresh Hfrac Hq] Hwf Hv. split; cbn; try done. rewrite Hv.
  pose proof (qi_nodup _ _ _ _ _ _ _ Hq) as Hnd. apply NoDup_app in Hnd as (_ & Hdisj & _).
  apply (queues_shrink _ _ _ _ _ _ _ _ _ _ _ _ Hq).
  - by rewrite keep_out_dead.
  - apply Forall2_same_length_lookup_2; [by rewrite length_fmap|]. intros b q q' Hb Hb'.
    rewrite list_lookup_fmap, Hb in Hb'. cbn in Hb'. simplify_eq. rewrite keep_out_disjoint; [done|].
    intros h Hh [Hin _]%elem_dead. apply (Hdisj h Hin). by eapply ro_in_concat.
  - rewrite dead_not_pending. lia.
  - apply Hq.
Qed.

Section priority_queue.
  Context (now retry_after item_overhead : Z) (recovery_owned : Z → Z → Z → bool).
  Local Abbreviation picks := (picks now retry_after item_overhead recovery_owned).
  Local Abbreviation send_all := (send_all now).

Lemma picks_sub budget spent l h w : (h, w) ∈ picks budget spent l → (h, w) ∈ l ∧ eligible now retry_after recovery_owned w = true.
Proof.
  induction l as [|[k x] l IH] in spent |- *; cbn; [by intros ?%elem_of_nil|].
  destruct (eligible now retry_after recovery_owned x) eqn:He; cbn [negb].
  - destruct (budget <=? spent); [by intros ?%elem_of_nil|]. rewrite !elem_of_cons. intros [[= <- <-]|Hp]; [by split; [left|]|].
    apply IH in Hp as [? ?]. by split; [right|].
  - intros Hp%IH. rewrite elem_of_cons. tauto.
Qed.

Lemma send_all_lookup V l h : NoDup l.*1 → send_all V l !! h = if decide (h ∈ l.*1) then stamp_sent now <$> V !! h else V !! h.
Proof.
  induction l as [|[k w] l IH] in V |- *; intros Hnd; [done|].
  cbn [fmap list_fmap fst] in Hnd. inversion Hnd as [|? ? Hni Hnd']; subst.
  change (send_all V ((k, w) :: l)) with (send_all (alter (stamp_sent now) k V) l). rewrite IH by done.
  cbn [fmap list_fmap fst]. destruct (decide (h = k)) as [->|Hne].
  - rewrite decide_False by done. rewrite decide_True by left. apply lookup_alter_eq.
  - rewrite !lookup_alter_ne by done. destruct (decide (h ∈ l.*1)).
    + by rewrite decide_True by by right.
    + rewrite decide_False; [done|]. by intros [?|?]%elem_of_cons.
Qed.

Definition priority_picks (budget : Z) (s : Scheduler) : list (Handle * TileWork) :=
  picks budget 0 (queue_items (slab_view s.(sc_work)) (survivors (slab_view s.(sc_work)) s.(sc_priority_order))).

Lemma drain_priority_queue_spec {E} budget s : sched_inv s →
  let V := slab_view s.(sc_work) in
  ∃ s', drain_priority_queue (E:=E) now retry_after item_overhead recovery_owned budget s =
      Ok (s', stamp_sent now <$> (priority_picks budget s).*2) ∧
    sched_inv s' ∧ s'.(sc_cols) = s.(sc_cols) ∧ s'.(sc_rows) = s.(sc_rows) ∧
    s'.(sc_priority_order) = survivors V s.(sc_priority_order) ∧
    s'.(sc_refinement_order) = s.(sc_refinement_order) ∧ s'.(sc_refinement_cursor) = s.(sc_refinement_cursor) ∧
    s'.(sc_refinement_fresh) = s.(sc_refinement_fresh) ∧ s'.(sc_item_overhead) = s.(sc_item_overhead) ∧
    slab_view s'.(sc_work) = send_all (without (dead V s.(sc_priority_order)) V) (priority_picks budget s) ∧
    s'.(sc_last_tick_retries) = retry_positions 0 (priority_picks budget s).*2 ∧
    s'.(sc_slots) = s.(sc_slots) ∧
    length s'.(sc_work).(sl_entries) = length s.(sc_work).(sl_entries).
Proof.
  intros Hi V. unfold drain_priority_queue.
  pose proof (qi_nodup _ _ _ _ _ _ _ (si_queues s Hi)) as Hnd. apply NoDup_app in Hnd as (Hnd & Hdisj & _).
  destruct (retain_live_spec (E:=E) s.(sc_priority_order) s.(sc_work) (si_slab s Hi) Hnd) as (work & -> & Hwf & Hv & Hlen).
  { intros h Hh. apply (live_handles s h Hi). apply elem_of_app. by left. }
  fold V in Hv |- *. rewrite bind_Ok. pose proof (retain_inv s work Hi Hwf Hv) as Hi1. fold V in Hi1.
  set (s1 := with_priority _ _) in *.
  destruct (drain_priority_go_spec (E:=E) now retry_after item_overhead recovery_owned budget (survivors V (sc_priority_order s)) 0 s1 (mkPD work s.(sc_pending_items) [] []) Hi1)
    as (d & -> & Hi2 & Hsh & Hview & Hout & Hret); [by apply NoDup_filter|done|done|done|].
  rewrite bind_Ok. cbn [sc_work s1 with_priority with_queues] in *.
  assert (queue_items (slab_view work) (survivors V (sc_priority_order s)) = queue_items V (survivors V (sc_priority_order s))) as Hqi.
  { apply queue_items_agree. intros h Hh. rewrite Hv, without_lookup. rewrite decide_False; [done|].
    intros [_ Hd]%elem_dead. apply list_elem_of_filter in Hh as [Hl _]. congruence. }
  cbn in Hview, Hout, Hret. rewrite Hqi in Hview, Hout, Hret. cbn in Hout, Hret. rewrite Hout.
  fold V in Hv. unfold priority_picks. fold V. rewrite Hv in Hview.
  eexists. split; [done|]. cbn. destruct Hsh as [_ _ _ _ _ _ _ Hl]. cbn in Hl.
  split; [|repeat (split; [done|]); congruence].
  destruct Hi2 as [? ? ? ? ? ? ?]. by split.
Qed.

End priority_queue.

(** ** Pruning and rotating a bucket *)

Lemma queue_tiles_cons V h w q : V !! h = Some w → queue_tiles V (h :: q) = tw_tile w :: queue_tiles V q.
Proof. intros Hw. unfold queue_tiles. cbn. by rewrite Hw. Qed.

Definition removed_before (V : gmap Handle TileWork) (start : option nat) (i : nat) (bucket : list Handle) : nat :=
  match start with
  | Some f => length (filter (λ h, live_at V h = false) (take (f - i) bucket))
  | None => 0
  end.

Lemma removed_before_agree V V' start i q : (∀ h, h ∈ q → live_at V' h = live_at V h) →
  removed_before V' start i q = removed_before V start i q.
Proof.
  intros Ha. unfold removed_before. destruct start as [f|]; [|done]. f_equal. apply filter_agree, Forall_forall.
  intros h Hh. rewrite Ha; [done|]. rewrite <-(take_drop (f - i) q). apply elem_of_app. by left.
Qed.

Lemma prune_go_spec {E} rows start bucket : ∀ i work d rest, slab_wf work → NoDup bucket → resolves (slab_view work) bucket →
  deficit_meets rows (queue_tiles (slab_view work) bucket ++ rest) d →
  let V := slab_view work in
  ∃ p, prune_go (E:=E) start i bucket work d = Ok p ∧ slab_wf p.(pr_work) ∧
    slab_view p.(pr_work) = without (dead V bucket) V ∧ p.(pr_bucket) = survivors V bucket ∧
    deficit_meets rows (queue_tiles V (survivors V bucket) ++ rest) p.(pr_deficit) ∧
    p.(pr_deficit).(rd_cols) = d.(rd_cols) ∧ length p.(pr_work).(sl_entries) = length work.(sl_entries) ∧
    p.(pr_removed) = removed_before V start i bucket.
Proof.
  induction bucket as [|h bucket IH]; intros i work d rest Hwf Hnd Hres Hd V; cbn [prune_go].
  { exists (mkPruned work d [] 0). split; [done|]. cbn. unfold dead. cbn. rewrite without_empty.
    repeat (split; [done|]). destruct start; cbn; by rewrite ?take_nil. }
  inversion Hnd as [|? ? Hni Hnd']; subst.
  assert (is_Some (slab_view work !! h)) as [w Hw] by (apply Hres; left).
  rewrite (queue_tiles_cons _ _ _ _ Hw) in Hd. cbn [app] in Hd.
  rewrite slab_get_view, Hw. unfold survivors, dead. rewrite !filter_cons.
  assert (live_at V h = is_live (tw_state w)) as Hl by (unfold live_at, V; by rewrite Hw).
  assert (resolves V bucket) as Hres' by (intros k Hk; apply Hres; by right).
  unfold is_terminal. destruct (is_live (tw_state w)) eqn:Hlw; cbn [negb].
  - destruct (IH (S i) work d (tw_tile w :: rest) Hwf Hnd' Hres') as (p & -> & Hwf' & Hv & Hb & Hdd & Hc & Hlen & Hr).
    { eapply deficit_meets_perm; [|exact Hd]. by rewrite Permutation_middle. }
    rewrite bind_Ok. eexists. split; [done|]. cbn [pr_work pr_deficit pr_bucket pr_removed].
    rewrite (decide_True (P:=live_at V h = true)), (decide_False (P:=live_at V h = false)) by congruence. fold V in Hv, Hb, Hdd, Hr. rewrite Hb.
    repeat (split; [done|]). split; [|repeat (split; [done|])].
    + eapply deficit_meets_perm; [|exact Hdd]. fold (survivors V bucket). rewrite (queue_tiles_cons _ _ _ _ Hw). cbn.
      by rewrite Permutation_middle.
    + rewrite Hr. unfold removed_before. destruct start as [f|]; [|done].
      destruct (f - i)%nat as [|k] eqn:Hk; [by replace (f - S i)%nat with 0%nat by lia|].
      replace (f - S i)%nat with k by lia. cbn [take]. rewrite filter_cons, decide_False by congruence. done.
  - destruct (deficit_pop_meets (E:=E) rows (tw_tile_x w) (tw_tile_y w) _ d Hd) as (d1 & -> & Hd1 & Hc1). rewrite bind_Ok.
    destruct (slab_remove_spec (E:=E) work h w Hwf Hw) as (w1 & Hrem & Hwf1 & Hv1 & _). rewrite Hrem, bind_Ok.
    assert (∀ k, k ∈ bucket → live_at (slab_view w1) k = live_at V k) as Hagree.
    { intros k Hk. rewrite Hv1. apply live_at_delete. by intros ->. }
    assert (∀ q, (∀ k, k ∈ q → k ∈ bucket) → queue_tiles (slab_view w1) q = queue_tiles V q) as Hqt.
    { intros q Hq. apply queue_tiles_agree. intros k Hk. rewrite Hv1, lookup_delete_ne; [done|]. intros ->. auto. }
    destruct (IH (S i) w1 d1 rest Hwf1 Hnd') as (p & -> & Hwf' & Hv & Hb & Hdd & Hc & Hlen & Hr).
    { rewrite Hv1. by apply resolves_delete. }
    { by rewrite Hqt. }
    rewrite bind_Ok. eexists. split; [done|]. cbn [pr_work pr_deficit pr_bucket pr_removed].
    rewrite (survivors_agree _ _ _ Hagree) in Hb, Hdd. rewrite (removed_before_agree _ _ _ _ _ Hagree) in Hr.
    rewrite (decide_False (P:=live_at V h = true)), (decide_True (P:=live_at V h = false)) by congruence. fold (survivors V bucket).
    rewrite Hqt in Hdd by (intros k Hk; by apply list_elem_of_filter in Hk as [_ ?]).
    split; [done|]. split; [|split; [done|]; split; [done|]; split; [congruence|]; split].
    + rewrite Hv, (dead_agree _ _ _ Hagree), Hv1, without_delete. done.
    + rewrite Hlen. by eapply slab_remove_len.
    + rewrite Hr. unfold removed_before. destruct start as [f|]; [|done].
      destruct (Nat.ltb_spec i f) as [Hlt|Hge].
      * replace (f - i)%nat with (S (f - S i)) by lia. cbn [take]. rewrite filter_cons, decide_True by congruence. done.
      * replace (f - i)%nat with 0%nat by lia. replace (f - S i)%nat with 0%nat by lia. done.
Qed.

(** A bucket after pruning and rotation. *)
Definition rotated (V : gmap Handle TileWork) (bucket : list Handle) (cursor : option (Z * Z)) (fresh : FreshRun) : list Handle :=
  match fresh.(fr_start), fresh.(fr_cursor_pushed), cursor with
  | Some start, true, Some t =>
      let run := survivors V (drop start bucket) in
      survivors V (take start bucket) ++
      match position (λ h, match V !! h with Some w => (w.(tw_tile_x) =? t.1) && (w.(tw_tile_y) =? t.2) | None => false end) run with
      | Some i => rotate_left (S i) run
      | None => run
      end
  | _, _, _ => survivors V bucket
  end.

Lemma rotate_left_perm {A} n (l : list A) : rotate_left n l ≡ₚ l.
Proof. unfold rotate_left. rewrite Permutation_app_comm. by rewrite take_drop. Qed.

Lemma rotated_perm V bucket cursor fresh : rotated V bucket cursor fresh ≡ₚ survivors V bucket.
Proof.
  unfold rotated. destruct (fr_start fresh) as [n|]; [|done]. destruct (fr_cursor_pushed fresh); [|done].
  destruct cursor as [t|]; [|done]. cbv zeta.
  assert (survivors V bucket = survivors V (take n bucket) ++ survivors V (drop n bucket)) as ->.
  { unfold survivors. by rewrite <-filter_app, take_drop. }
  apply Permutation_app; [done|]. destruct (position _ _); [apply rotate_left_perm|done].
Qed.

Lemma position_ext {A} (p q : A → bool) l : (∀ x, x ∈ l → p x = q x) → position p l = position q l.
Proof.
  induction l as [|x l IH]; [done|]. intros Hx. cbn. rewrite Hx by left. rewrite IH; [done|]. intros y Hy. apply Hx. by right.
Qed.

Lemma removed_complement V (start : nat) bucket :
  (length (survivors V (take start bucket)) + removed_before V (Some start) 0 bucket = Nat.min start (length bucket))%nat.
Proof.
  unfold survivors, removed_before. rewrite Nat.sub_0_r, <-length_take. generalize (take start bucket) as l.
  induction l as [|h l IH]; [done|]. rewrite !filter_cons. cbn [length]. rewrite <-IH.
  destruct (live_at V h); [rewrite decide_True, decide_False by done|rewrite decide_False, decide_True by done]; cbn [length]; lia.
Qed.

Lemma prune_and_rotate_spec {E} rows bucket cursor fresh work d rest : slab_wf work → NoDup bucket →
  resolves (slab_view work) bucket → deficit_meets rows (queue_tiles (slab_view work) bucket ++ rest) d →
  (∀ n, fresh.(fr_start) = Some n → (n ≤ length bucket)%nat) →
  let V := slab_view work in
  ∃ p, prune_and_rotate (E:=E) bucket cursor fresh work d = Ok p ∧ slab_wf p.(pr_work) ∧
    slab_view p.(pr_work) = without (dead V bucket) V ∧ p.(pr_bucket) = rotated V bucket cursor fresh ∧
    deficit_meets rows (queue_tiles V (rotated V bucket cursor fresh) ++ rest) p.(pr_deficit) ∧
    p.(pr_deficit).(rd_cols) = d.(rd_cols) ∧ length p.(pr_work).(sl_entries) = length work.(sl_entries).
Proof.
  intros Hwf Hnd Hres Hd Hfr V. unfold prune_and_rotate.
  destruct (prune_go_spec (E:=E) rows fresh.(fr_start) bucket 0 work d rest Hwf Hnd Hres Hd) as (p & -> & Hwf' & Hv & Hb & Hdd & Hc & Hlen & Hr).
  rewrite bind_Ok. fold V in Hv, Hb, Hdd, Hr.
  assert (deficit_meets rows (queue_tiles V (rotated V bucket cursor fresh) ++ rest) p.(pr_deficit)) as Hdd'.
  { eapply deficit_meets_perm; [|exact Hdd]. by rewrite rotated_perm. }
  unfold rotated in *. destruct (fr_start fresh) as [n|] eqn:Hn; [|by exists p].
  destruct (fr_cursor_pushed fresh); [|by exists p]. destruct cursor as [t|]; [|by exists p]. cbv zeta in *.
  specialize (Hfr n eq_refl). pose proof (removed_complement V n bucket) as Hrc. rewrite <-Hr in Hrc.
  unfold sub_usize. rewrite (proj2 (Nat.leb_le _ _)) by lia. rewrite bind_Ok.
  assert (n - pr_removed p = length (survivors V (take n bucket)))%nat as -> by lia.
  assert (pr_bucket p = survivors V (take n bucket) ++ survivors V (drop n bucket)) as Hsplit.
  { rewrite Hb. unfold survivors. by rewrite <-filter_app, take_drop. }
  unfold assert_. rewrite Hsplit. rewrite (proj2 (Nat.leb_le _ _)) by (rewrite length_app; lia). rewrite bind_Ok.
  rewrite take_app_length, drop_app_length. eexists. split; [done|]. cbn [pr_work pr_deficit pr_bucket].
  split; [done|]. split; [done|]. split; [|done]. f_equal. unfold rotate_run.
  rewrite (position_ext _ (λ h, match V !! h with Some w => (w.(tw_tile_x) =? t.1) && (w.(tw_tile_y) =? t.2) | None => false end)); [done|].
  intros h Hh. unfold handle_is_tile. rewrite slab_get_view, Hv, without_lookup. rewrite decide_False; [done|].
  intros [_ Hdd2]%elem_dead. apply list_elem_of_filter in Hh as [Hlv _]. congruence.
Qed.

Lemma without_without D1 D2 V : without D1 (without D2 V) = without (D2 ∪ D1) V.
Proof.
  apply map_eq. intros k. rewrite !without_lookup. destruct (decide (k ∈ D1)), (decide (k ∈ D2)).
  all: first [rewrite decide_True by set_solver; done | rewrite decide_False by set_solver; done].
Qed.

Lemma dead_app V a b : dead V (a ++ b) = dead V a ∪ dead V b.
Proof. apply set_eq. intros h. rewrite elem_of_union, !elem_dead, elem_of_app. tauto. Qed.

Lemma live_at_without D V h : h ∉ D → live_at (without D V) h = live_at V h.
Proof. intros Hn. unfold live_at. by rewrite without_lookup, decide_False. Qed.

Fixpoint rotated_all (V : gmap Handle TileWork) (order : list (list Handle)) (cursors : list (option (Z * Z)))
    (freshes : list FreshRun) : list (list Handle) :=
  match order, cursors, freshes with
  | q :: order, c :: cursors, f :: freshes => rotated V q c f :: rotated_all V order cursors freshes
  | _, _, _ => order
  end.

Lemma rotated_agree V V' q c f : (∀ h, h ∈ q → V' !! h = V !! h) → rotated V' q c f = rotated V q c f.
Proof.
  intros Ha. assert (∀ r, (∀ h, h ∈ r → h ∈ q) → survivors V' r = survivors V r) as Hs.
  { intros r Hr. apply survivors_agree. intros h Hh. unfold live_at. by rewrite Ha by auto. }
  unfold rotated. destruct (fr_start f) as [n|]; [|by apply Hs]. destruct (fr_cursor_pushed f); [|by apply Hs].
  destruct c as [t|]; [|by apply Hs]. cbv zeta.
  assert (∀ h, h ∈ take n q → h ∈ q) as Ht by (intros h Hh; rewrite <-(take_drop n q); apply elem_of_app; by left).
  assert (∀ h, h ∈ drop n q → h ∈ q) as Hdr by (intros h Hh; rewrite <-(take_drop n q); apply elem_of_app; by right).
  rewrite (Hs _ Ht), (Hs _ Hdr). f_equal. erewrite position_ext; [done|]. intros h Hh.
  apply list_elem_of_filter in Hh as [_ Hh]. cbn. by rewrite Ha by auto.
Qed.

Lemma rotated_all_agree V V' order : ∀ cs fs, (∀ h, h ∈ concat order → V' !! h = V !! h) →
  rotated_all V' order cs fs = rotated_all V order cs fs.
Proof.
  induction order as [|q order IH]; intros cs fs Ha; [done|]. destruct cs as [|c cs]; [done|]. destruct fs as [|f fs]; [done|].
  cbn. rewrite (rotated_agree V V'); [|intros h Hh; apply Ha; cbn; apply elem_of_app; by left].
  rewrite IH; [done|]. intros h Hh. apply Ha. cbn. apply elem_of_app. by right.
Qed.

Lemma rotated_all_perm V order : ∀ cs fs, length cs = length order → length fs = length order →
  Forall2 (≡ₚ) (rotated_all V order cs fs) (survivors V <$> order).
Proof.
  induction order as [|q order IH]; intros cs fs Hc Hf; [constructor|].
  destruct cs as [|c cs]; [done|]. destruct fs as [|f fs]; [done|]. cbn in *.
  constructor; [apply rotated_perm|]. apply IH; lia.
Qed.

Lemma prune_buckets_spec {E} rows order : ∀ cs fs work d rest, slab_wf work → NoDup (concat order) →
  resolves (slab_view work) (concat order) → length cs = length order → length fs = length order →
  (∀ b f q n, fs !! b = Some f → order !! b = Some q → f.(fr_start) = Some n → (n ≤ length q)%nat) →
  deficit_meets rows (queue_tiles (slab_view work) (concat order) ++ rest) d →
  let V := slab_view work in
  ∃ work' d', prune_buckets (E:=E) order cs fs work d = Ok (rotated_all V order cs fs, work', d') ∧ slab_wf work' ∧
    slab_view work' = without (dead V (concat order)) V ∧
    deficit_meets rows (queue_tiles V (concat (rotated_all V order cs fs)) ++ rest) d' ∧
    d'.(rd_cols) = d.(rd_cols) ∧ length work'.(sl_entries) = length work.(sl_entries).
Proof.
  induction order as [|q order IH]; intros cs fs work d rest Hwf Hnd Hres Hlc Hlf Hfr Hd V.
  { exists work, d. cbn. unfold dead. cbn. by rewrite without_empty. }
  destruct cs as [|c cs]; [done|]. destruct fs as [|f fs]; [done|]. cbn [prune_buckets rotated_all concat] in *.
  apply NoDup_app in Hnd as (Hndq & Hdisj & Hnd). fold V in Hres, Hd.
  assert (resolves V q) as Hresq by (intros h Hh; apply Hres, elem_of_app; by left).
  assert (resolves V (concat order)) as Hreso by (intros h Hh; apply Hres, elem_of_app; by right).
  rewrite queue_tiles_app, <-app_assoc in Hd.
  destruct (prune_and_rotate_spec (E:=E) rows q c f work d _ Hwf Hndq Hresq Hd) as (p & -> & Hwf1 & Hv1 & Hb & Hd1 & Hc1 & Hl1).
  { intros n. by apply (Hfr 0%nat f q n). }
  rewrite bind_Ok. fold V in Hv1, Hb, Hd1.
  assert (∀ h, h ∈ concat order → slab_view p.(pr_work) !! h = V !! h) as Hag.
  { intros h Hh. rewrite Hv1, without_lookup, decide_False; [done|]. intros [Hq _]%elem_dead. by apply (Hdisj h Hq). }
  destruct (IH cs fs p.(pr_work) p.(pr_deficit) (queue_tiles V (rotated V q c f) ++ rest) Hwf1 Hnd) as (w2 & d2 & Hp2 & Hwf2 & Hv2 & Hd2 & Hc2 & Hl2).
  { intros h Hh. rewrite Hag by done. by apply Hreso. }
  { by injection Hlc. } { by injection Hlf. }
  { intros b. apply (Hfr (S b)). }
  { rewrite (queue_tiles_agree V (slab_view p.(pr_work))) by (intros h Hh; by rewrite Hag).
    eapply deficit_meets_perm; [|exact Hd1]. rewrite !app_assoc. apply Permutation_app; [|done]. apply Permutation_app_comm. }
  rewrite Hp2, bind_Ok. rewrite (rotated_all_agree V) in Hd2 |- * by done. rewrite Hb. exists w2, d2. split; [done|].
  split; [done|]. split; [|split; [|split; [congruence|congruence]]].
  - rewrite Hv2, Hv1, without_without, dead_app. f_equal. f_equal. rewrite <-Hv1. apply dead_agree.
    intros h Hh. unfold live_at. by rewrite Hag.
  - rewrite queue_tiles_app, <-app_assoc. eapply deficit_meets_perm; [|exact Hd2].
    rewrite (queue_tiles_agree V (slab_view p.(pr_work))).
    + rewrite !app_assoc. apply Permutation_app; [|done]. apply Permutation_app_comm.
    + intros h Hh. rewrite Hag; [done|]. rewrite (concat_perm _ _ (rotated_all_perm V order cs fs ltac:(by injection Hlc) ltac:(by injection Hlf))) in Hh.
      apply in_concat_ro in Hh as (b & r & Hr & Hh). rewrite list_lookup_fmap in Hr.
      destruct (order !! b) as [q0|] eqn:Hq0; [|done]. cbn in Hr. simplify_eq. apply list_elem_of_filter in Hh as [_ Hh].
      by eapply ro_in_concat.
Qed.

Lemma keep_out_inside D q : (∀ h, h ∈ q → h ∈ D) → keep_out D q = [].
Proof.
  induction q as [|h q IH]; intros Ha; [done|]. unfold keep_out. rewrite filter_cons, decide_False.
  - apply IH. intros k Hk. apply Ha. by right.
  - intros Hn. apply Hn, Ha. left.
Qed.

Lemma keep_out_prefix (a b : list Handle) D : NoDup (a ++ b) → (∀ h, h ∈ a → h ∈ D) → (∀ h, h ∈ b → h ∉ D) →
  keep_out D (a ++ b) = b.
Proof.
  intros _ Ha Hb. unfold keep_out. rewrite filter_app. fold (keep_out D a) (keep_out D b).
  by rewrite keep_out_inside, keep_out_disjoint.
Qed.

Lemma keep_out_union_disjoint D1 D2 q : (∀ h, h ∈ q → h ∉ D1) → keep_out (D1 ∪ D2) q = keep_out D2 q.
Proof. intros Hd. apply filter_agree, Forall_forall. intros h Hh. specialize (Hd h Hh). set_solver. Qed.

(** ** The refinement drain *)

Definition last_tile (cursor : option (Z * Z)) (l : list (Handle * TileWork)) : option (Z * Z) :=
  match last l with Some p => Some (tw_tile p.2) | None => cursor end.

Definition handle_set (l : list (Handle * TileWork)) : gset Handle := list_to_set l.*1.

Lemma handle_set_app a b : handle_set (a ++ b) = handle_set a ∪ handle_set b.
Proof. unfold handle_set. by rewrite fmap_app, list_to_set_app_L. Qed.

Lemma elem_handle_set l h : h ∈ handle_set l ↔ h ∈ l.*1.
Proof. apply elem_of_list_to_set. Qed.

Lemma queue_items_cons V h w q : V !! h = Some w → queue_items V (h :: q) = (h, w) :: queue_items V q.
Proof. intros Hw. unfold queue_items. cbn. by rewrite Hw. Qed.

Lemma queue_items_app V a b : queue_items V (a ++ b) = queue_items V a ++ queue_items V b.
Proof. apply omap_app. Qed.

Lemma queue_items_fst V q : resolves V q → (queue_items V q).*1 = q.
Proof.
  induction q as [|h q IH]; intros Hr; [done|]. destruct (Hr h) as [w Hw]; [left|].
  rewrite (queue_items_cons _ _ _ _ Hw). cbn. rewrite IH; [done|]. intros k Hk. apply Hr. by right.
Qed.

Lemma last_tile_cons c h w l : last_tile c ((h, w) :: l) = last_tile (Some (tw_tile w)) l.
Proof. unfold last_tile. destruct l as [|p l]; [done|]. rewrite last_cons_cons. by destruct (last (p :: l)) eqn:E; [|apply last_None in E]. Qed.

Lemma queue_items_elem V q h w : (h, w) ∈ queue_items V q ↔ h ∈ q ∧ V !! h = Some w.
Proof.
  unfold queue_items. rewrite list_elem_of_omap. split.
  - intros (k & Hk & Hv). destruct (V !! k) as [x|] eqn:Hx; cbn in Hv; [|done]. by simplify_eq.
  - intros [Hh Hw]. exists h. by rewrite Hw.
Qed.

Lemma map_total_handles l : ∀ V, NoDup l.*1 → (∀ h w, (h, w) ∈ l → V !! h = Some w) →
  map_total pend (filter (λ hw, hw.1 ∈ handle_set l) V) = sum_list (pend <$> l.*2).
Proof.
  induction l as [|[h w] l IH]; intros V Hnd Hin.
  - assert (∀ D : gset Handle, D = ∅ → map_total pend (filter (λ hw : Handle * TileWork, hw.1 ∈ D) V) = 0%nat) as H; [|by apply H].
    intros D HD. assert (filter (λ hw : Handle * TileWork, hw.1 ∈ D) V = ∅) as ->; [|done].
    apply map_empty. intros k. apply map_lookup_filter_None. right. intros x _. cbn. set_solver.
  - cbn [fmap list_fmap fst snd] in Hnd |- *. inversion Hnd as [|? ? Hni Hnd']; subst.
    assert (filter (λ hw : Handle * TileWork, hw.1 ∈ handle_set ((h, w) :: l)) V =
            <[h := w]> (filter (λ hw : Handle * TileWork, hw.1 ∈ handle_set l) V)) as ->.
    { apply map_eq. intros k. apply option_eq. intros x. rewrite map_lookup_filter_Some, lookup_insert_Some, map_lookup_filter_Some.
      rewrite !elem_handle_set. cbn [fmap list_fmap fst]. rewrite elem_of_cons.
      assert (V !! h = Some w) as Hw by (apply Hin; left). split.
      - intros [Hx [->|Hk]]; [left; split; congruence|right]. split; [by intros ->|done].
      - intros [[<- <-]|[_ [Hx Hk]]]; [by split; [|left]|by split; [|right]]. }
    rewrite map_total_insert.
    + rewrite IH; [done|done|]. intros k x Hk. apply Hin. by right.
    + apply map_lookup_filter_None. right. intros x _. by rewrite elem_handle_set.
Qed.

Lemma resolves_live V q : (∀ h, h ∈ q → live_at V h = true) → resolves V q.
Proof. intros Hl h Hh. specialize (Hl h Hh). unfold live_at in Hl. destruct (V !! h); [by eexists|done]. Qed.

(** Pruning every bucket keeps the invariant. *)
Lemma prune_inv s work d : sched_inv s → slab_wf work →
  let V := slab_view s.(sc_work) in
  let ro := rotated_all V s.(sc_refinement_order) s.(sc_refinement_cursor) s.(sc_refinement_fresh) in
  slab_view work = without (dead V (concat s.(sc_refinement_order))) V →
  deficit_meets s.(sc_rows) (queue_tiles V (concat ro)) d → d.(rd_cols) = s.(sc_deficit).(rd_cols) →
  sched_inv (with_refinement ro s.(sc_refinement_cursor) (replicate (length s.(sc_refinement_fresh)) fresh_default) d
    (with_queues work s.(sc_pending_items) s.(sc_slots) s)).
Proof.
  intros [Hslab Hslots Hdims (Hl1 & Hl2 & Hl3) Hfresh Hfrac Hq] Hwf V ro Hv Hd Hc.
  assert (Forall2 (≡ₚ) ro (survivors V <$> s.(sc_refinement_order))) as Hperm by (apply rotated_all_perm; congruence).
  split; cbn; try done.
  - destruct Hdims as (? & ? & ?). repeat split; congruence.
  - split; [|split; [done|by rewrite length_replicate]]. by rewrite (Forall2_length _ _ _ Hperm), length_fmap.
  - intros b f q n Hf. apply lookup_replicate in Hf as [-> _]. done.
  - rewrite Hv. pose proof (qi_nodup _ _ _ _ _ _ _ Hq) as Hnd. apply NoDup_app in Hnd as (_ & Hdisj & _).
    apply (queues_shrink _ _ _ _ _ _ _ _ _ _ _ _ Hq).
    + rewrite keep_out_disjoint; [done|]. intros h Hh [Hin _]%elem_dead. by apply (Hdisj h).
    + erewrite (list_fmap_ext (keep_out _)); [exact Hperm|]. intros b q Hb. rewrite <-keep_out_dead.
      apply filter_agree, Forall_forall. intros h Hh. rewrite !elem_dead.
      assert (h ∈ concat (sc_refinement_order s)) by by eapply ro_in_concat. tauto.
    + rewrite dead_not_pending. lia.
    + done.
Qed.

Section refinement.
  Context (now item_overhead : Z).
  Local Abbreviation takes := (takes item_overhead).

(** What one bucket's drain did, and what it leaves to the buckets after it. *)
Record bucket_drained (rows : Z) (budget : Z) (rest : list (Z * Z)) (bucket : list Handle) (cursor : option (Z * Z)) (d : RefinementDrain)
    (taken : list (Handle * TileWork)) (bucket' : list Handle) (cursor' : option (Z * Z)) (stop : bool) (d' : RefinementDrain) : Prop := {
  bd_split : bucket = taken.*1 ++ bucket';
  bd_stop : stop = false → bucket' = [];
  bd_more : ∀ more, takes budget d.(dr_spent) (queue_items (slab_view d.(dr_work)) bucket ++ more) =
                    taken ++ (if stop then [] else takes budget d'.(dr_spent) more);
  bd_cursor : cursor' = last_tile cursor taken;
  bd_slab : slab_wf d'.(dr_work);
  bd_view : slab_view d'.(dr_work) = without (handle_set taken) (slab_view d.(dr_work));
  bd_deficit : deficit_meets rows (queue_tiles (slab_view d.(dr_work)) bucket' ++ rest) d'.(dr_deficit);
  bd_cols : d'.(dr_deficit).(rd_cols) = d.(dr_deficit).(rd_cols);
  bd_left : d'.(dr_left) = (d.(dr_left) + sum_list (pend <$> taken.*2))%nat;
  bd_out : d'.(dr_out) = d.(dr_out) ++ (stamp_sent now <$> taken.*2);
  bd_len : length d'.(dr_work).(sl_entries) = length d.(dr_work).(sl_entries);
}.

Lemma drain_bucket_spec {E} rows budget bucket : ∀ cursor d rest, slab_wf d.(dr_work) → NoDup bucket →
  resolves (slab_view d.(dr_work)) bucket →
  deficit_meets rows (queue_tiles (slab_view d.(dr_work)) bucket ++ rest) d.(dr_deficit) →
  ∃ taken bucket' cursor' stop d', drain_bucket (E:=E) now item_overhead budget bucket cursor d = Ok (bucket', cursor', stop, d') ∧
    bucket_drained rows budget rest bucket cursor d taken bucket' cursor' stop d'.
Proof.
  induction bucket as [|h bucket IH]; intros cursor d rest Hwf Hnd Hres Hd; cbn [drain_bucket].
  { exists [], [], cursor, false, d. split; [done|].
    split; try done; first [by rewrite without_empty|by rewrite app_nil_r|cbn; lia]. }
  inversion Hnd as [|? ? Hni Hnd']; subst. set (V := slab_view (dr_work d)) in *.
  assert (is_Some (V !! h)) as [w Hw] by (apply Hres; left).
  assert (resolves V bucket) as Hres' by (intros k Hk; apply Hres; by right).
  rewrite slab_get_view. fold V. rewrite Hw. cbv zeta.
  destruct (_ || _) eqn:Hstop.
  { exists [], (h :: bucket), cursor, true, d. split; [done|].
    split; try done; [|first [by rewrite without_empty|by rewrite app_nil_r|cbn; lia]..].
    intros more. fold V. rewrite (queue_items_cons _ _ _ _ Hw). cbn. by rewrite Hstop. }
  destruct (slab_remove_spec (E:=E) d.(dr_work) h w Hwf Hw) as (w1 & Hrem & Hwf1 & Hv1 & _). rewrite Hrem, bind_Ok.
  rewrite (queue_tiles_cons _ _ _ _ Hw) in Hd.
  destruct (deficit_pop_meets (E:=E) rows (tw_tile_x w) (tw_tile_y w) _ _ Hd) as (d1 & -> & Hd1 & Hc1). rewrite bind_Ok.
  set (dd := mkRD _ _ _ _ _).
  assert (∀ k, k ∈ bucket → slab_view w1 !! k = V !! k) as Hag.
  { intros k Hk. rewrite Hv1, lookup_delete_ne; [done|]. by intros ->. }
  destruct (IH (Some (tw_tile w)) dd rest Hwf1 Hnd') as (taken & bucket' & cursor' & stop & d' & Hgo & Hspec).
  { cbn. intros k Hk. rewrite Hag by done. by apply Hres'. }
  { cbn. rewrite (queue_tiles_agree V (slab_view w1)) by (intros k Hk; by rewrite Hag). exact Hd1. }
  exists ((h, w) :: taken), bucket', cursor', stop, d'. split; [exact Hgo|].
  destruct Hspec as [Hs1 Hs2 Hs3 Hs4 Hs5 Hs6 Hs7 Hs8 Hs9 Hs10 Hs11]. cbn [dr_work dr_spent dr_deficit dr_left dr_out dd] in *.
  split.
  - cbn. by rewrite Hs1.
  - done.
  - intros more. fold V. rewrite (queue_items_cons _ _ _ _ Hw). cbn [app takes]. rewrite Hstop. f_equal.
    rewrite <-Hs3. f_equal. f_equal. symmetry. by apply queue_items_agree.
  - by rewrite last_tile_cons.
  - done.
  - rewrite Hs6, Hv1, without_delete. done.
  - fold V. rewrite (queue_tiles_agree V (slab_view w1)) in Hs7; [done|]. intros k Hk. rewrite Hag; [done|].
    rewrite Hs1. apply elem_of_app. by right.
  - congruence.
  - rewrite Hs9. cbn. unfold pend at 2. destruct (is_pending (tw_state w)); lia.
  - rewrite Hs10. cbn. by rewrite <-app_assoc.
  - rewrite Hs11. by eapply slab_remove_len.
Qed.

Record buckets_drained (rows budget : Z) (order : list (list Handle)) (cs : list (option (Z * Z))) (d : RefinementDrain)
    (rest : list (Z * Z)) (taken : list (Handle * TileWork)) (order' : list (list Handle)) (cs' : list (option (Z * Z))) (d' : RefinementDrain) : Prop := {
  bs_taken : taken = takes budget d.(dr_spent) (queue_items (slab_view d.(dr_work)) (concat order));
  bs_split : concat order = taken.*1 ++ concat order';
  bs_keep : order' = keep_out (handle_set taken) <$> order;
  bs_lens : length cs' = length cs;
  bs_slab : slab_wf d'.(dr_work);
  bs_view : slab_view d'.(dr_work) = without (handle_set taken) (slab_view d.(dr_work));
  bs_deficit : deficit_meets rows (queue_tiles (slab_view d.(dr_work)) (concat order') ++ rest) d'.(dr_deficit);
  bs_cols : d'.(dr_deficit).(rd_cols) = d.(dr_deficit).(rd_cols);
  bs_left : d'.(dr_left) = (d.(dr_left) + sum_list (pend <$> taken.*2))%nat;
  bs_out : d'.(dr_out) = d.(dr_out) ++ (stamp_sent now <$> taken.*2);
  bs_len : length d'.(dr_work).(sl_entries) = length d.(dr_work).(sl_entries);
}.


Lemma drain_buckets_spec {E} rows budget order : ∀ cs d rest, slab_wf d.(dr_work) → NoDup (concat order) →
  resolves (slab_view d.(dr_work)) (concat order) → length cs = length order →
  deficit_meets rows (queue_tiles (slab_view d.(dr_work)) (concat order) ++ rest) d.(dr_deficit) →
  ∃ taken order' cs' d', drain_buckets (E:=E) now item_overhead budget order cs d = Ok (order', cs', d') ∧
    buckets_drained rows budget order cs d rest taken order' cs' d'.
Proof.
  induction order as [|q order IH]; intros cs d rest Hwf Hnd Hres Hlc Hd.
  { exists [], [], cs, d. split; [by destruct cs|]. split; try done; first [by rewrite without_empty|by rewrite app_nil_r|cbn; lia]. }
  destruct cs as [|c cs]; [done|]. cbn [drain_buckets concat] in *.
  apply NoDup_app in Hnd as (Hndq & Hdisj & Hnd). set (V := slab_view (dr_work d)) in *.
  rewrite queue_tiles_app, <-app_assoc in Hd.
  destruct (drain_bucket_spec (E:=E) rows budget q c d (queue_tiles V (concat order) ++ rest) Hwf Hndq) as (t1 & q' & c' & stop & d1 & -> & H1); [|exact Hd|].
  { intros h Hh. apply Hres, elem_of_app. by left. }
  rewrite bind_Ok. destruct H1 as [Hsplit Hstop Hmore _ Hwf1 Hv1 Hd1 Hc1 Hl1 Ho1 Hn1]. fold V in Hmore, Hv1, Hd1.
  assert (∀ h, h ∈ t1.*1 → h ∈ q) as Ht1 by (intros h Hh; rewrite Hsplit; apply elem_of_app; by left).
  assert (∀ h, h ∈ concat order → h ∉ handle_set t1) as Hoff.
  { intros h Hh Hin. apply elem_handle_set in Hin. by apply (Hdisj h); [apply Ht1|]. }
  assert (keep_out (handle_set t1) q = q') as Hkq.
  { rewrite Hsplit. rewrite Hsplit in Hndq. apply keep_out_prefix; [done|intros h; apply elem_handle_set|].
    intros h Hh Hin. apply elem_handle_set in Hin. apply NoDup_app in Hndq as (_ & Hx & _). by apply (Hx h). }
  destruct stop.
  - exists t1, (q' :: order), (c' :: cs), d1. split; [done|]. split; try done.
    + fold V. cbn [concat]. rewrite queue_items_app, Hmore. by rewrite app_nil_r.
    + cbn. by rewrite app_assoc, <-Hsplit.
    + cbn. rewrite Hkq. f_equal. symmetry. rewrite <-(list_fmap_id order) at 2. apply list_fmap_ext.
      intros b r Hr. apply keep_out_disjoint. intros h Hh. apply Hoff. by eapply ro_in_concat.
    + cbn [concat]. fold V. by rewrite queue_tiles_app, <-app_assoc.
  - assert (∀ h, h ∈ concat order → slab_view d1.(dr_work) !! h = V !! h) as Hag.
    { intros h Hh. rewrite Hv1, without_lookup, decide_False; [done|]. by apply Hoff. }
    rewrite Hstop in * by done.
    destruct (IH cs d1 rest Hwf1 Hnd) as (t2 & order' & cs' & d2 & -> & H2).
    { intros h Hh. rewrite Hag by done. apply Hres, elem_of_app. by right. }
    { by injection Hlc. }
    { rewrite (queue_tiles_agree V) by (intros h Hh; by rewrite Hag). exact Hd1. }
    rewrite bind_Ok. destruct H2 as [Htk Hsp Hke Hlen Hwf2 Hv2 Hd2 Hc2 Hl2 Ho2 Hn2].
    exists (t1 ++ t2), ([] :: order'), (c' :: cs'), d2. split; [done|]. split.
    + fold V. cbn [concat]. rewrite queue_items_app, Hmore. rewrite Htk. do 2 f_equal. by apply queue_items_agree.
    + cbn. rewrite fmap_app, <-app_assoc, <-Hsp, Hsplit, app_nil_r. done.
    + cbn. rewrite handle_set_app. f_equal.
      * symmetry. rewrite <-Hkq. transitivity (keep_out (handle_set t2 ∪ handle_set t1) q); [by rewrite (union_comm_L (handle_set t1))|].
        apply keep_out_union_disjoint. intros h Hh Hin. apply elem_handle_set in Hin. apply (Hdisj h Hh).
        rewrite Hsp. apply elem_of_app. by left.
      * rewrite Hke. apply list_fmap_ext. intros b r Hr. symmetry. apply keep_out_union_disjoint.
        intros h Hh. apply Hoff. by eapply ro_in_concat.
    + cbn. by rewrite Hlen.
    + done.
    + rewrite Hv2, Hv1, without_without, handle_set_app. done.
    + cbn [concat app]. fold V. rewrite (queue_tiles_agree V) in Hd2; [exact Hd2|]. intros h Hh.
      rewrite Hag; [done|]. rewrite Hsp. apply elem_of_app. by right.
    + congruence.
    + rewrite Hl2, Hl1, !fmap_app, sum_list_with_app. lia.
    + rewrite Ho2, Ho1, !fmap_app. by rewrite app_assoc.
    + congruence.
Qed.

Lemma takes_sub budget spent l p : p ∈ takes budget spent l → p ∈ l.
Proof.
  induction l as [|[h w] l IH] in spent |- *; cbn; [done|]. destruct (_ || _); [by intros ?%elem_of_nil|].
  rewrite !elem_of_cons. intros [->|Hp]; [by left|]. right. by eapply IH.
Qed.






Definition refinement_takes (budget : Z) (s : Scheduler) : list (Handle * TileWork) :=
  let V := slab_view s.(sc_work) in
  takes budget 0 (queue_items V (concat (rotated_all V s.(sc_refinement_order) s.(sc_refinement_cursor) s.(sc_refinement_fresh)))).

Lemma drain_refinement_spec {E} budget s : sched_inv s →
  let V := slab_view s.(sc_work) in
  let ro := rotated_all V s.(sc_refinement_order) s.(sc_refinement_cursor) s.(sc_refinement_fresh) in
  let taken := refinement_takes budget s in
  ∃ s', drain_refinement_pass_major (E:=E) now item_overhead budget s = Ok (s', stamp_sent now <$> taken.*2) ∧
    sched_inv s' ∧ s'.(sc_cols) = s.(sc_cols) ∧ s'.(sc_rows) = s.(sc_rows) ∧
    s'.(sc_priority_order) = s.(sc_priority_order) ∧
    s'.(sc_refinement_order) = keep_out (handle_set taken) <$> ro ∧
    concat ro = taken.*1 ++ concat s'.(sc_refinement_order) ∧
    slab_view s'.(sc_work) = without (handle_set taken) (without (dead V (concat s.(sc_refinement_order))) V) ∧
    s'.(sc_slots) = s.(sc_slots) ∧ s'.(sc_last_tick_retries) = s.(sc_last_tick_retries) ∧
    length s'.(sc_work).(sl_entries) = length s.(sc_work).(sl_entries).
Proof.
  intros Hi V ro taken. pose proof (si_queues s Hi) as Hq. pose proof (si_lens s Hi) as (Hl1 & Hl2 & Hl3).
  pose proof (qi_nodup _ _ _ _ _ _ _ Hq) as Hnd. apply NoDup_app in Hnd as (_ & _ & Hnd).
  assert (resolves V (concat (sc_refinement_order s))) as Hres.
  { intros h Hh. apply (live_handles s h Hi). apply elem_of_app. by right. }
  unfold drain_refinement_pass_major.
  destruct (prune_buckets_spec (E:=E) s.(sc_rows) s.(sc_refinement_order) s.(sc_refinement_cursor) s.(sc_refinement_fresh)
    s.(sc_work) s.(sc_deficit) [] (si_slab s Hi) Hnd Hres) as (work & d1 & -> & Hwf1 & Hv1 & Hd1 & Hc1 & Hn1); [congruence|congruence|apply Hi| |].
  { rewrite app_nil_r. apply Hq. }
  rewrite bind_Ok. fold V ro in Hd1, Hv1 |- *. rewrite app_nil_r in Hd1.
  pose proof (prune_inv s work d1 Hi Hwf1 Hv1 Hd1 Hc1) as Hi1. fold V ro in Hi1. set (s1 := with_refinement _ _ _ _ _) in Hi1.
  pose proof (si_queues s1 Hi1) as Hq1. cbn [s1 sc_work sc_rows sc_priority_order sc_refinement_order sc_pending_items sc_deficit sc_slots with_refinement with_queues] in Hq1.
  pose proof (qi_nodup _ _ _ _ _ _ _ Hq1) as Hnd1. apply NoDup_app in Hnd1 as (_ & Hdisj1 & Hnd1).
  assert (resolves (slab_view work) (concat ro)) as Hres1.
  { intros h Hh. apply (live_handles s1 h Hi1). apply elem_of_app. by right. }
  destruct (drain_buckets_spec (E:=E) s.(sc_rows) budget ro s.(sc_refinement_cursor) (mkRD work d1 0 0 []) [] Hwf1 Hnd1 Hres1)
    as (tk & ro2 & cs & d2 & -> & Hb).
  { pose proof (proj1 (si_lens s1 Hi1)) as Hlro. cbn in Hlro. congruence. }
  { rewrite app_nil_r. apply Hq1. }
  rewrite bind_Ok. destruct Hb as [Htk Hsp Hke Hlc Hwf2 Hv2 Hd2 Hc2 Hl2' Ho2 Hn2]. cbn in Htk, Hv2, Hd2, Hl2', Ho2, Hc2, Hn2.
  assert (queue_items (slab_view work) (concat ro) = queue_items V (concat ro)) as Hqi.
  { apply queue_items_agree. intros h Hh. destruct (Hres1 h Hh) as [w Hw]. rewrite Hw. rewrite Hv1, without_lookup in Hw.
    by destruct (decide _). }
  assert (tk = taken) as -> by (rewrite Htk, Hqi; done). clear Htk.
  assert (NoDup taken.*1) as Hndt by (rewrite Hsp in Hnd1; by apply NoDup_app in Hnd1 as (? & _ & _)).
  assert (∀ h w, (h, w) ∈ taken → slab_view work !! h = Some w) as Htw.
  { intros h w Hin%takes_sub. fold V ro in Hin. rewrite <-Hqi in Hin. by apply queue_items_elem in Hin as [_ ?]. }
  pose proof (map_total_handles taken (slab_view work) Hndt Htw) as Htot.
  pose proof (qi_pending _ _ _ _ _ _ _ Hq1) as Hpe. rewrite (map_total_filter pend (λ hw, hw.1 ∈ handle_set taken)), Htot in Hpe.
  rewrite Hl2'. unfold sub_usize. rewrite (proj2 (Nat.leb_le _ _)) by lia. rewrite bind_Ok, Ho2.
  eexists. split; [done|]. cbn. split; [|repeat (split; [done|]); split; [by rewrite Hv2, Hv1|]; repeat (split; [done|]); congruence].
  destruct Hi1 as [Hs1 Hsl1 Hdm1 Hln1 Hfr1 Hfc1 _]. cbn in *. split; cbn; try done.
  - destruct Hdm1 as (? & ? & ?). repeat split; congruence.
  - rewrite Hke, length_fmap. split; [apply Hln1|]. split; [congruence|apply Hln1].
  - intros b f q n Hf. apply lookup_replicate in Hf as [-> _]. done.
  - rewrite Hv2. apply (queues_shrink _ _ _ _ _ _ _ _ _ _ _ _ Hq1).
    + rewrite keep_out_disjoint; [done|]. intros h Hh Hin. apply elem_handle_set in Hin. apply (Hdisj1 h Hh).
      rewrite Hsp. apply elem_of_app. by left.
    + by rewrite Hke.
    + rewrite Htot. lia.
    + by rewrite app_nil_r in Hd2.
Qed.

End refinement.

(** ** The tick *)

(** What the refinement drain sends, from the state before the tick. *)
Definition tick_picks (budget now : Z) (owned : Z → Z → Z → bool) (s : Scheduler) : list (Handle * TileWork) :=
  priority_picks now s.(sc_retry_after) s.(sc_item_overhead) owned (split_budget budget s).1 s.
Definition tick_takes (budget : Z) (s : Scheduler) : list (Handle * TileWork) :=
  refinement_takes s.(sc_item_overhead) (split_budget budget s).2 s.

Lemma fraction_halved x : x ∈ [f32_lit 1 5; f32_lit 1 10; f32_lit 1 20] →
  f32_max (f32_mul x (f32_lit 1 2)) MIN_FRACTION ∈ [f32_lit 1 5; f32_lit 1 10; f32_lit 1 20].
Proof.
  rewrite !elem_of_cons, elem_of_nil. intros [->|[->|[->|[]]]].
  - right. left. by vm_compute.
  - right. right. left. by vm_compute.
  - right. right. left. by vm_compute.
Qed.

Lemma fraction_doubled x : x ∈ [f32_lit 1 5; f32_lit 1 10; f32_lit 1 20] →
  f32_min (f32_mul x (f32_of_Z 2)) MAX_FRACTION ∈ [f32_lit 1 5; f32_lit 1 10; f32_lit 1 20].
Proof.
  rewrite !elem_of_cons, elem_of_nil. intros [->|[->|[->|[]]]].
  - left. by vm_compute.
  - left. by vm_compute.
  - right. left. by vm_compute.
Qed.

(** Nothing but the delivery window and the settings changed. *)
Record window_only (s s' : Scheduler) : Prop := {
  wo_queues : s'.(sc_work) = s.(sc_work) ∧ s'.(sc_priority_order) = s.(sc_priority_order) ∧
    s'.(sc_refinement_order) = s.(sc_refinement_order) ∧ s'.(sc_refinement_cursor) = s.(sc_refinement_cursor) ∧
    s'.(sc_refinement_fresh) = s.(sc_refinement_fresh) ∧ s'.(sc_pending_items) = s.(sc_pending_items) ∧
    s'.(sc_deficit) = s.(sc_deficit) ∧ s'.(sc_slots) = s.(sc_slots) ∧ s'.(sc_cols) = s.(sc_cols) ∧ s'.(sc_rows) = s.(sc_rows);
}.

Lemma window_only_inv s s' : window_only s s' → fraction_ok s' → sched_inv s → sched_inv s'.
Proof.
  intros [(Hw & Hp & Hr & Hc & Hf & Hpe & Hd & Hsl & Hco & Hro)] Hfr [H1 H2 H3 H4 H5 _ H7].
  split; rewrite ?Hw, ?Hp, ?Hr, ?Hc, ?Hf, ?Hpe, ?Hd, ?Hsl, ?Hco, ?Hro; done.
Qed.

Lemma adjust_window s : window_only s (maybe_adjust_refinement_fraction s).
Proof.
  unfold maybe_adjust_refinement_fraction. repeat case_match; by split.
Qed.

Lemma adjust_fraction s : fraction_ok s → fraction_ok (maybe_adjust_refinement_fraction s).
Proof.
  intros (Hf & Hl & Hh). unfold maybe_adjust_refinement_fraction.
  destruct (_ =? 0); [done|]. cbv zeta. destruct (f32_lt _ _).
  - destruct (Z.leb_spec ADJUST_AFTER_ROUNDS (sc_low_rounds s + 1)); split; cbn; [by apply fraction_halved|done|done|lia].
  - destruct (f32_le _ _).
    + destruct (Z.leb_spec ADJUST_AFTER_ROUNDS (sc_high_rounds s + 1)); split; cbn; [by apply fraction_doubled|done|done|lia].
    + split; cbn; [done|]. unfold sat_sub. lia.
Qed.

Lemma send_all_off now V l h : h ∉ l.*1 → send_all now V l !! h = V !! h.
Proof.
  induction l as [|[k w] l IH] in V |- *; intros Hn; [done|]. cbn [fmap list_fmap fst] in Hn.
  rewrite not_elem_of_cons in Hn. destruct Hn as [Hne Hn].
  change (send_all now V ((k, w) :: l)) with (send_all now (alter (stamp_sent now) k V) l). rewrite IH by done.
  by apply lookup_alter_ne.
Qed.

Lemma picks_handles now retry overhead owned b sp l h : h ∈ (picks now retry overhead owned b sp l).*1 → h ∈ l.*1.
Proof.
  intros ([k w] & -> & Hin)%list_elem_of_fmap. apply picks_sub in Hin as [Hin _]. apply list_elem_of_fmap. by exists (k, w).
Qed.

(** Whatever is live afterwards was live before, at the same tile-pass. *)
Definition sub_view (V V' : gmap Handle TileWork) : Prop :=
  ∀ h w', V' !! h = Some w' → is_live w'.(tw_state) = true →
    ∃ w, V !! h = Some w ∧ is_live w.(tw_state) = true ∧ tw_tile w = tw_tile w' ∧ w.(tw_pass_idx) = w'.(tw_pass_idx).

Lemma sub_view_trans V V' V'' : sub_view V V' → sub_view V' V'' → sub_view V V''.
Proof.
  intros H1 H2 h w Hw Hl. destruct (H2 h w Hw Hl) as (w1 & Hw1 & Hl1 & Ht1 & Hp1).
  destruct (H1 h w1 Hw1 Hl1) as (w2 & Hw2 & Hl2 & Ht2 & Hp2). exists w2. repeat split; congruence.
Qed.

Lemma sub_view_without D V : sub_view V (without D V).
Proof. intros h w Hw Hl. rewrite without_lookup in Hw. destruct (decide _); [done|]. by exists w. Qed.

Lemma sub_view_send now V l : (∀ h w, (h, w) ∈ l → live_at V h = true) → sub_view V (send_all now V l).
Proof.
  induction l as [|[h w] l IH] in V |- *; intros Hl; [by intros k x Hx Hxl; exists x|].
  assert (live_at V h = true) as Hh by (apply (Hl h w); left).
  change (send_all now V ((h, w) :: l)) with (send_all now (alter (stamp_sent now) h V) l).
  apply (sub_view_trans _ (alter (stamp_sent now) h V)).
  - intros k x Hx Hxl. destruct (decide (h = k)) as [<-|Hne].
    + rewrite lookup_alter_eq in Hx. unfold live_at in Hh. destruct (V !! h) as [w0|] eqn:Hw0; [|done]. cbn in Hx. simplify_eq.
      by exists w0.
    + rewrite lookup_alter_ne in Hx by done. by exists x.
  - apply IH. intros k x Hk. assert (live_at V k = true) as Hlk by (apply (Hl k x); by right). unfold live_at in *.
    destruct (decide (h = k)) as [<-|Hne]; [|by rewrite lookup_alter_ne].
    rewrite lookup_alter_eq. by destruct (V !! h).
Qed.

Lemma survivors_live V q h : h ∈ survivors V q → h ∈ q ∧ live_at V h = true.
Proof. intros Hh. by apply list_elem_of_filter in Hh as [? ?]. Qed.

Lemma picks_sub_view now retry overhead owned b sp V q :
  sub_view (without (dead V q) V)
    (send_all now (without (dead V q) V) (picks now retry overhead owned b sp (queue_items V (survivors V q)))).
Proof.
  apply sub_view_send. intros h w Hin. apply picks_sub in Hin as [Hin _]. apply queue_items_elem in Hin as [Hin _].
  apply survivors_live in Hin as [_ Hl]. rewrite live_at_without; [done|]. intros [_ Hd]%elem_dead. congruence.
Qed.

(** What a tick sends was live. *)
Lemma rotated_all_live s h : sched_inv s →
  h ∈ concat (rotated_all (slab_view s.(sc_work)) s.(sc_refinement_order) s.(sc_refinement_cursor) s.(sc_refinement_fresh)) →
  h ∈ concat s.(sc_refinement_order) ∧ live_at (slab_view s.(sc_work)) h = true.
Proof.
  intros Hi Hh. destruct (si_lens s Hi) as (Hl1 & Hl2 & Hl3).
  rewrite (concat_perm _ _ (rotated_all_perm (slab_view (sc_work s)) (sc_refinement_order s) (sc_refinement_cursor s) (sc_refinement_fresh s)
    ltac:(congruence) ltac:(congruence))) in Hh.
  apply in_concat_ro in Hh as (b & r & Hr & Hh). rewrite list_lookup_fmap in Hr.
  destruct (sc_refinement_order s !! b) as [q|] eqn:Hq; [|done]. cbn in Hr. simplify_eq.
  apply survivors_live in Hh as [Hh Hl]. split; [by eapply ro_in_concat|done].
Qed.

Lemma eligible_live now retry owned w : eligible now retry owned w = true → is_live w.(tw_state) = true.
Proof. unfold eligible. by destruct (tw_state w). Qed.

Lemma tick_sends_live budget now owned s h w : sched_inv s →
  (h, w) ∈ tick_picks budget now owned s ++ tick_takes budget s →
  slab_view s.(sc_work) !! h = Some w ∧ is_live w.(tw_state) = true.
Proof.
  intros Hi [Hin|Hin]%elem_of_app.
  - apply picks_sub in Hin as [Hin Hel]. apply queue_items_elem in Hin as [_ Hw]. split; [done|]. by eapply eligible_live.
  - apply takes_sub, queue_items_elem in Hin as [Hin Hw]. split; [done|].
    apply rotated_all_live in Hin as [_ Hl]; [|done]. unfold live_at in Hl. by rewrite Hw in Hl.
Qed.

Lemma tick_spec {E} budget now owned s : sched_inv s →
  ∃ s', tick_at_with (E:=E) budget now owned s =
      Ok (s', stamp_sent now <$> ((tick_picks budget now owned s).*2 ++ (tick_takes budget s).*2)) ∧
    sched_inv s' ∧ s'.(sc_cols) = s.(sc_cols) ∧ s'.(sc_rows) = s.(sc_rows) ∧
    s'.(sc_last_tick_retries) = retry_positions 0 (tick_picks budget now owned s).*2 ∧
    s'.(sc_priority_order) = survivors (slab_view s.(sc_work)) s.(sc_priority_order) ∧
    length s'.(sc_work).(sl_entries) = length s.(sc_work).(sl_entries) ∧
    sub_view (slab_view s.(sc_work)) (slab_view s'.(sc_work)).
Proof.
  intros Hi. unfold tick_at_with, tick_picks, tick_takes. destruct (split_budget budget s) as [pb rb]. cbn [fst snd].
  set (s0 := with_tick_report _ _ s).
  assert (sched_inv s0) as Hi0 by (destruct Hi; by split).
  destruct (drain_priority_queue_spec (E:=E) now s.(sc_retry_after) s.(sc_item_overhead) owned pb s0 Hi0)
    as (s1 & H1 & Hi1 & Hc1 & Hr1 & Hp1 & Hro1 & Hcu1 & Hfr1 & Hov1 & Hv1 & Hre1 & Hsl1 & Hn1).
  change (sc_retry_after s0) with (sc_retry_after s). change (sc_item_overhead s0) with (sc_item_overhead s).
  rewrite H1, bind_Ok. rewrite Hov1. change (sc_item_overhead s0) with (sc_item_overhead s).
  destruct (drain_refinement_spec (E:=E) now s.(sc_item_overhead) rb s1 Hi1)
    as (s2 & H2 & Hi2 & Hc2 & Hr2 & Hp2 & Hro2 & Hsp2 & Hv2 & Hsl2 & Hre2 & Hn2).
  rewrite H2, bind_Ok.
  assert (refinement_takes (sc_item_overhead s) rb s1 = refinement_takes (sc_item_overhead s) rb s) as Htk.
  { assert (∀ h, h ∈ concat (sc_refinement_order s) → slab_view (sc_work s1) !! h = slab_view (sc_work s) !! h) as Hag.
    { intros h Hh. pose proof (qi_nodup _ _ _ _ _ _ _ (si_queues s Hi)) as Hnd. apply NoDup_app in Hnd as (_ & Hdisj & _).
      assert (h ∉ sc_priority_order s) as Hnp by (intros Hin; by apply (Hdisj h)).
      rewrite Hv1, send_all_off.
      - rewrite without_lookup, decide_False; [done|]. by intros [? _]%elem_dead.
      - intros Hin%picks_handles. apply list_elem_of_fmap in Hin as ([k w] & -> & Hin). apply queue_items_elem in Hin as [Hin _].
        by apply list_elem_of_filter in Hin as [_ ?]. }
    unfold refinement_takes. rewrite Hro1, Hcu1, Hfr1. change (sc_refinement_order s0) with (sc_refinement_order s).
    change (sc_refinement_cursor s0) with (sc_refinement_cursor s). change (sc_refinement_fresh s0) with (sc_refinement_fresh s).
    rewrite (rotated_all_agree (slab_view (sc_work s))) by done. f_equal. apply queue_items_agree. intros h Hh. apply Hag.
    by apply rotated_all_live in Hh as [Hh _]. }
  rewrite Htk. set (s3 := with_window _ _ _ _ _ s2).
  assert (sched_inv s3) as Hi3 by (destruct Hi2; by split).
  eexists. split; [by rewrite <-fmap_app|]. pose proof (adjust_window s3) as Hwo.
  split; [apply (window_only_inv s3); [done|apply adjust_fraction, Hi3|done]|].
  destruct Hwo as [(Hw & Hp & _ & _ & _ & _ & _ & _ & Hco & Hrw)].
  split; [by rewrite Hco; cbn; rewrite Hc2, Hc1|]. split; [by rewrite Hrw; cbn; rewrite Hr2, Hr1|].
  split; [|split; [by rewrite Hp; cbn; rewrite Hp2, Hp1|split; [by rewrite Hw; cbn; rewrite Hn2, Hn1|]]].
  - assert (sc_last_tick_retries (maybe_adjust_refinement_fraction s3) = sc_last_tick_retries s3) as ->.
    { unfold maybe_adjust_refinement_fraction. by repeat case_match. }
    cbn. by rewrite Hre2, Hre1.
  - rewrite Hw. cbn. rewrite Hv2, Hv1. eapply sub_view_trans; [|eapply sub_view_trans; apply sub_view_without].
    eapply sub_view_trans; [apply (sub_view_without (dead (slab_view (sc_work s)) (sc_priority_order s)))|].
    apply picks_sub_view.
Qed.
