(* ===== verification/SchedulerSession.v ===== *)
(** * Scheduler sessions

    Every operation of the send scheduler keeps its invariant, whatever the order they
    come in; what the counters say is what the scans they replaced would say; and new
    content for a tile silences the old. *)

From Stdlib Require Import ZArith Lia.
From S2P Require Import Prelude Wire MapTotals Slab SlotMap Deficit F32 Scheduler SchedulerTheory SchedulerDrain.
From stdpp Require Import base option numbers list gmap sorting.

Local Open Scope Z_scope.

(** ** Sessions *)

Inductive sched_op : Type :=
| So_resize (cols rows : Z)
| So_clear
| So_settings (retry_after item_overhead : Z)
| So_enqueue (w : TileWork) (now : Z)
| So_refine_work (w : TileWork) (now : Z)
| So_refine (t : Z * Z) (gen : Z) (passes : list (list Z)) (now : Z)
| So_refine_subset (t : Z * Z) (gen mask : Z) (payloads : list (list Z)) (now : Z)
| So_supersede (t : Z * Z)
| So_bump (t : Z * Z)
| So_bump_collecting (t : Z * Z)
| So_ack (t : Z * Z) (gen pass : Z)
| So_mark_acked (t : Z * Z) (gen pass : Z)
| So_label (t : Z * Z) (seq : Z)
| So_tick (budget now : Z) (recovery_owned : Z → Z → Z → bool).

Definition sched_step {E} (op : sched_op) (s : Scheduler) : outcome E (Scheduler * list TileWork) :=
  match op with
  | So_resize cols rows => mret (sched_resize cols rows s, [])
  | So_clear => mret (sched_clear s, [])
  | So_settings r o => mret (set_item_overhead o (set_retry_after r s), [])
  | So_enqueue w now => s ← enqueue_at w now s; mret (s, [])
  | So_refine_work w now => s ← enqueue_refinement_work_at w now s; mret (s, [])
  | So_refine t gen passes now => s ← enqueue_refinement_at t.1 t.2 gen passes now s; mret (s, [])
  | So_refine_subset t gen mask payloads now => s ← enqueue_refinement_subset_at t.1 t.2 gen mask payloads now s; mret (s, [])
  | So_supersede t => s ← supersede_pending_for_tile t.1 t.2 s; mret (s, [])
  | So_bump t => r ← bump_generation t.1 t.2 s; mret (r.1, [])
  | So_bump_collecting t => r ← bump_generation_collecting t.1 t.2 s; mret (r.1.1, [])
  | So_ack t gen pass => s ← record_cdf53_ack t.1 t.2 gen pass s; mret (s, [])
  | So_mark_acked t gen pass => mret (mark_acked t.1 t.2 gen pass s, [])
  | So_label t seq => mret ((frame_label t.1 t.2 seq s).1, [])
  | So_tick budget now owned => tick_at_with budget now owned s
  end.

Fixpoint sched_run {E} (ops : list sched_op) (s : Scheduler) : outcome E (Scheduler * list TileWork) :=
  match ops with
  | [] => mret (s, [])
  | op :: ops => r ← sched_step op s; r' ← sched_run ops r.1; mret (r'.1, r.2 ++ r'.2)
  end.

(** How many items an operation inserts. *)
Definition op_items (op : sched_op) : nat :=
  match op with
  | So_enqueue _ _ | So_refine_work _ _ => 1
  | So_refine _ _ passes _ => length passes
  | So_refine_subset _ _ _ payloads _ => length payloads
  | _ => 0
  end.

(** The callers' contract: coordinates are [u8]s, passes too, an item handed over whole lies
    in the grid, a PalRle payload has its header, and a pass mask as many bits as
    payloads.  [resize] sets the grid the later operations are about. *)
Definition op_ok (cols rows : Z) (op : sched_op) : Prop :=
  match op with
  | So_enqueue w _ | So_refine_work w _ => work_ok w ∧ in_grid cols rows (tw_tile w) = true
  | So_refine t _ _ _ | So_supersede t | So_bump t | So_bump_collecting t | So_mark_acked t _ _ | So_label t _ => u8_tile t
  | So_refine_subset t _ mask payloads _ => u8_tile t ∧ count_ones16 mask = Z.of_nat (length payloads)
  | So_ack t _ pass => u8_tile t ∧ pass < 16
  | _ => True
  end.

Fixpoint ops_ok (cols rows : Z) (ops : list sched_op) : Prop :=
  match ops with
  | [] => True
  | op :: ops =>
      op_ok cols rows op ∧
      match op with So_resize cols rows => ops_ok cols rows ops | _ => ops_ok cols rows ops end
  end.

Definition all_items (ops : list sched_op) : nat := sum_list (op_items <$> ops).

(** ** Operations that only touch the slots *)

Lemma with_slots_inv slots s : sched_inv s → slots_wf slots → slots.(sm_cols) = s.(sc_slots).(sm_cols) →
  slots.(sm_rows) = s.(sc_slots).(sm_rows) →
  (∀ x y p, u8_tile (x, y) → slot_handle slots x y p = slot_handle s.(sc_slots) x y p) →
  sched_inv (with_slots slots s).
Proof.
  intros [H1 H2 H3 H4 H5 H6 [Q1 Q2 Q3 Q4 Q5 Q6 Q7]] Hwf Hc Hr Hh. split; cbn; try done.
  - by rewrite Hc, Hr.
  - split; try done. intros h w Hw Hl Ht. rewrite Hc, Hr in Ht. rewrite Hh; [by apply Q7|]. by apply (Q3 h w).
Qed.

Lemma slot_update_inv f x y s : sched_inv s → u8_tile (x, y) → slots_wf (slot_update f x y s.(sc_slots)) →
  (∀ sl, (f sl).(ts_passes) = sl.(ts_passes)) → sched_inv (with_slots (slot_update f x y s.(sc_slots)) s).
Proof.
  intros Hi Hu Hwf Hf. apply with_slots_inv; [done|done|apply slot_update_cols|apply slot_update_rows|].
  intros x' y' p Hu'. by apply slot_handle_update.
Qed.

(** ** Superseding a tile *)

(** Item by item, nothing came to life. *)
Definition quieter (V V' : gmap Handle TileWork) : Prop :=
  ∀ h w', V' !! h = Some w' → is_live w'.(tw_state) = true → V !! h = Some w'.

Lemma quieter_refl V : quieter V V.
Proof. by intros h w Hw _. Qed.
Lemma quieter_trans V V' V'' : quieter V V' → quieter V' V'' → quieter V V''.
Proof. intros H1 H2 h w Hw Hl. apply H1; [|done]. by apply H2. Qed.
Lemma quieter_supersede V h : quieter V (alter supersede h V).
Proof.
  intros k w Hw Hl. destruct (decide (h = k)) as [<-|Hne]; [|by rewrite lookup_alter_ne in Hw].
  rewrite lookup_alter_eq in Hw. destruct (V !! h) as [x|]; [|done]. cbn in Hw. simplify_eq. by rewrite supersede_not_live in Hl.
Qed.

Record superseding (s s' : Scheduler) : Prop := {
  su_inv : sched_inv s';
  su_shape : same_shape s s';
  su_slots : s'.(sc_slots) = s.(sc_slots);
  su_quieter : quieter (slab_view s.(sc_work)) (slab_view s'.(sc_work));
  su_known : ∀ h, is_Some (slab_view s'.(sc_work) !! h) ↔ is_Some (slab_view s.(sc_work) !! h);
  su_same : ∀ h w, slab_view s.(sc_work) !! h = Some w →
    slab_view s'.(sc_work) !! h = Some w ∨ slab_view s'.(sc_work) !! h = Some (supersede w);
}.

Lemma superseding_refl s : sched_inv s → superseding s s.
Proof. intros Hi. split; [done|done|done|apply quieter_refl|done|]. intros h w Hw. by left. Qed.

Lemma supersede_idem w : supersede (supersede w) = supersede w.
Proof. unfold supersede at 1. by rewrite supersede_not_live. Qed.

Lemma superseding_trans a b c : superseding a b → superseding b c → superseding a c.
Proof.
  intros [_ S1 L1 Q1 K1 E1] [I2 S2 L2 Q2 K2 E2]. split; [done|by etransitivity|congruence|by eapply quieter_trans| |].
  - intros h. by rewrite K2.
  - intros h w Hw. destruct (E1 h w Hw) as [H1|H1]; destruct (E2 h _ H1) as [H2|H2]; [by left|by right|by right|].
    right. by rewrite supersede_idem in H2.
Qed.

Lemma retire_superseding {E} h s : sched_inv s →
  ∃ s', retire (E:=E) h s = Ok s' ∧ superseding s s' ∧ live_at (slab_view s'.(sc_work)) h = false ∧
    ∀ k, k ≠ h → slab_view s'.(sc_work) !! k = slab_view s.(sc_work) !! k.
Proof.
  intros Hi. destruct (retire_spec (E:=E) h s Hi) as (s' & Hr & Hi' & Hsh & Hsl & Hv). exists s'. split; [done|].
  split; [split; [done|done|done|rewrite Hv; apply quieter_supersede| |]|].
  - intros k. rewrite Hv. apply lookup_alter_is_Some.
  - intros k w Hw. rewrite Hv. destruct (decide (h = k)) as [<-|Hne].
    + right. by rewrite lookup_alter_eq, Hw.
    + left. by rewrite lookup_alter_ne.
  - split; [|intros k Hne; rewrite Hv; by apply lookup_alter_ne].
    unfold live_at. rewrite Hv, lookup_alter_eq. destruct (_ !! h) as [w|]; cbn; [|done]. apply supersede_not_live.
Qed.

Lemma quieter_dead V V' h : quieter V V' → live_at V h = false → live_at V' h = false.
Proof.
  intros Hq Hl. unfold live_at. destruct (V' !! h) as [w|] eqn:Hw; [|done]. destruct (is_live (tw_state w)) eqn:E; [|done].
  apply (Hq h w) in Hw; [|done]. unfold live_at in Hl. by rewrite Hw, E in Hl.
Qed.

(** The handles the slot of a tile files under the given passes are silenced. *)
Definition silenced (s s' : Scheduler) (x y : Z) (ps : list nat) : Prop :=
  ∀ p h, p ∈ ps → slot_handle s.(sc_slots) x y p = Some h → live_at (slab_view s'.(sc_work)) h = false.

Lemma supersede_passes_spec {E} x y ps : ∀ s, sched_inv s →
  ∃ s', supersede_passes (E:=E) x y ps s = Ok s' ∧ superseding s s' ∧ silenced s s' x y ps.
Proof.
  induction ps as [|p ps IH]; intros s Hi; cbn [supersede_passes].
  { exists s. split; [done|]. split; [by apply superseding_refl|]. by intros ? ? ?%elem_of_nil. }
  assert (∃ s1, (match slot_handle (sc_slots s) x y p with Some h => retire (E:=E) h s | None => mret s end) = Ok s1 ∧
    superseding s s1 ∧ ∀ h, slot_handle (sc_slots s) x y p = Some h → live_at (slab_view s1.(sc_work)) h = false)
    as (s1 & -> & Hs1 & Hd).
  { destruct (slot_handle (sc_slots s) x y p) as [h|].
    - destruct (retire_superseding (E:=E) h s Hi) as (s1 & ? & ? & ? & _). exists s1. split; [done|]. split; [done|]. by intros ? [= <-].
    - exists s. split; [done|]. split; [by apply superseding_refl|done]. }
  rewrite bind_Ok. destruct (IH s1 (su_inv _ _ Hs1)) as (s2 & -> & Hs2 & Hd2). exists s2. split; [done|].
  split; [by eapply superseding_trans|]. intros q h [->|Hq]%elem_of_cons Hh.
  - eapply quieter_dead; [apply Hs2|]. by apply Hd.
  - apply (Hd2 q h Hq). by rewrite (su_slots _ _ Hs1).
Qed.

(** With every pass of the tile silenced, no tracked item of it is live. *)
Lemma silenced_tile s s' x y : superseding s s' → sched_inv s → silenced s s' x y (seq 0 PASS_SLOTS) →
  ∀ h w, slab_view s'.(sc_work) !! h = Some w → tw_tile w = (x, y) → tracked s.(sc_cols) s.(sc_rows) w →
    is_live w.(tw_state) = false.
Proof.
  intros Hsu Hi Hsil h w Hw Ht Htr. destruct (is_live (tw_state w)) eqn:Hl; [|done]. exfalso.
  pose proof (su_quieter _ _ Hsu h w Hw Hl) as Hw0. destruct (si_dims s Hi) as (Hdc & Hdr & _).
  pose proof (qi_filed _ _ _ _ _ _ _ (si_queues s Hi) h w Hw0 Hl) as Hf. rewrite Hdc, Hdr in Hf. specialize (Hf Htr).
  unfold tw_tile in Ht. simplify_eq. destruct Htr as [_ Hp].
  assert (live_at (slab_view (sc_work s')) h = false) as Hd.
  { eapply Hsil; [|exact Hf]. apply elem_of_seq. lia. }
  unfold live_at in Hd. by rewrite Hw, Hl in Hd.
Qed.

(** The report of a superseded item. *)
Definition resolved (x y : Z) (w : TileWork) : ResolvedTileWork :=
  let palette := bool_decide (w.(tw_codec) = CPalRle) in
  mkResolved x y w.(tw_generation) w.(tw_pass_idx) w.(tw_codec)
    (if palette then w.(tw_payload) !! 1%nat else None)
    (palette && match w.(tw_payload) !! 0%nat with Some f => negb (Z.land f 1 =? 0) | None => false end)
    false.

Lemma resolve_work_ok {E} x y w : work_ok w → resolve_work (E:=E) x y w = Ok (resolved x y w).
Proof.
  intros (_ & _ & Hp). unfold resolve_work, assert_. cbv zeta. destruct (bool_decide_reflect (tw_codec w = CPalRle)) as [Hc|Hc].
  - rewrite (proj2 (Nat.leb_le _ _)) by by apply Hp. cbn [negb orb]. rewrite bind_Ok. unfold resolved. cbv zeta.
    by rewrite bool_decide_eq_true_2.
  - cbn [negb orb]. rewrite bind_Ok. unfold resolved. cbv zeta. by rewrite bool_decide_eq_false_2.
Qed.

Record collected (s s' : Scheduler) (x y : Z) (ps : list nat) (rs : list ResolvedTileWork) : Prop := {
  co_sound : ∀ r, r ∈ rs → ∃ h w, slab_view s.(sc_work) !! h = Some w ∧ is_live w.(tw_state) = true ∧
    live_at (slab_view s'.(sc_work)) h = false ∧ r = resolved x y w;
  co_complete : ∀ p h w, p ∈ ps → slot_handle s.(sc_slots) x y p = Some h → slab_view s.(sc_work) !! h = Some w →
    is_live w.(tw_state) = true → resolved x y w ∈ rs;
}.

Lemma collect_superseded_spec {E} x y ps : ∀ s, sched_inv s →
  ∃ s' rs, collect_superseded (E:=E) x y ps s = Ok (s', rs) ∧ superseding s s' ∧ silenced s s' x y ps ∧ collected s s' x y ps rs.
Proof.
  induction ps as [|p ps IH]; intros s Hi; cbn [collect_superseded].
  { exists s, []. split; [done|]. split; [by apply superseding_refl|]. split; [by intros ? ? ?%elem_of_nil|].
    split; [by intros ? ?%elem_of_nil|by intros ? ? ? ?%elem_of_nil]. }
  destruct (slot_handle (sc_slots s) x y p ≫= _) as [[h w]|] eqn:Hsw; last first.
  { destruct (IH s Hi) as (s' & rs & -> & Hsu & Hsil & Hco). exists s', rs. split; [done|]. split; [done|].
    assert (∀ h, slot_handle (sc_slots s) x y p = Some h → slab_view s.(sc_work) !! h = None) as Hnone.
    { intros h Hh. rewrite Hh in Hsw. cbn in Hsw. rewrite slab_get_view in Hsw. by destruct (slab_view (sc_work s) !! h). }
    split.
    - intros q h [->|Hq]%elem_of_cons Hh; [|by eapply Hsil]. eapply quieter_dead; [apply Hsu|]. unfold live_at. by rewrite (Hnone h Hh).
    - split; [apply Hco|]. intros q h w [->|Hq]%elem_of_cons Hh Hw Hl; [|by eapply co_complete]. by rewrite (Hnone h Hh) in Hw. }
  destruct (slot_handle (sc_slots s) x y p) as [h0|] eqn:Hh; [|done]. cbn in Hsw. rewrite slab_get_view in Hsw.
  destruct (slab_view (sc_work s) !! h0) as [w0|] eqn:Hw; [|done]. cbn in Hsw. simplify_eq.
  destruct (is_live (tw_state w)) eqn:Hl; last first.
  { destruct (IH s Hi) as (s' & rs & -> & Hsu & Hsil & Hco). exists s', rs. split; [done|]. split; [done|]. split.
    - intros q k [->|Hq]%elem_of_cons Hk; [|by eapply Hsil]. simplify_eq. eapply quieter_dead; [apply Hsu|]. unfold live_at. by rewrite Hw.
    - split; [apply Hco|]. intros q k v [->|Hq]%elem_of_cons Hk Hv Hlv; [|by eapply co_complete]. congruence. }
  rewrite resolve_work_ok by by eapply (qi_ok _ _ _ _ _ _ _ (si_queues s Hi)). rewrite bind_Ok.
  destruct (retire_superseding (E:=E) h s Hi) as (s1 & -> & Hs1 & Hd & Hoth). rewrite bind_Ok.
  destruct (IH s1 (su_inv _ _ Hs1)) as (s2 & rs & -> & Hs2 & Hsil & Hco). rewrite bind_Ok.
  exists s2, (resolved x y w :: rs). split; [done|]. split; [by eapply superseding_trans|]. split.
  - intros q k [->|Hq]%elem_of_cons Hk; [simplify_eq; by eapply quieter_dead; [apply Hs2|]|].
    apply (Hsil q k Hq). by rewrite (su_slots _ _ Hs1).
  - split.
    + intros r [->|Hr]%elem_of_cons; [exists h, w; split; [done|]; split; [done|]; split; [by eapply quieter_dead; [apply Hs2|]|done]|].
      destruct (co_sound _ _ _ _ _ _ Hco r Hr) as (k & v & Hv & Hlv & Hdv & ->). exists k, v.
      split; [by apply Hs1|]. done.
    + intros q k v [->|Hq]%elem_of_cons Hk Hv Hlv; [simplify_eq; left|].
      destruct (decide (k = h)) as [->|Hne]; [simplify_eq; left|]. right. eapply (co_complete _ _ _ _ _ _ Hco q k v Hq); [|..|done].
      * by rewrite (su_slots _ _ Hs1).
      * by rewrite Hoth.
Qed.

(** ** Every operation *)

Lemma bump_slot_inv x y s : sched_inv s → u8_tile (x, y) →
  sched_inv (bump_slot x y s).1 ∧ (bump_slot x y s).1.(sc_cols) = s.(sc_cols) ∧ (bump_slot x y s).1.(sc_rows) = s.(sc_rows) ∧
  (bump_slot x y s).1.(sc_work) = s.(sc_work).
Proof.
  intros Hi Hu. unfold bump_slot, slot_bump_generation. cbn. split; [|done].
  apply slot_update_inv; [done|done|apply advance_wf, Hi|done].
Qed.

Lemma mark_acked_inv x y g p s : sched_inv s →
  sched_inv (mark_acked x y g p s) ∧ (mark_acked x y g p s).(sc_cols) = s.(sc_cols) ∧ (mark_acked x y g p s).(sc_rows) = s.(sc_rows) ∧
  length (mark_acked x y g p s).(sc_work).(sl_entries) = length s.(sc_work).(sl_entries) ∧
  quieter (slab_view s.(sc_work)) (slab_view (mark_acked x y g p s).(sc_work)).
Proof.
  intros Hi. unfold mark_acked. destruct (slot_handle _ _ _ _) as [h|]; [|do 4 (split; [done|]); apply quieter_refl]. cbn. rewrite slab_get_view.
  destruct (slab_view (sc_work s) !! h) as [w|] eqn:Hw; [|do 4 (split; [done|]); apply quieter_refl]. cbn.
  destruct (_ && _) eqn:Hc; [|do 4 (split; [done|]); apply quieter_refl]. apply andb_prop in Hc as [_ Hst]. apply bool_decide_eq_true in Hst.
  destruct (sched_rework s (set_state Acked) h w s.(sc_pending_items) Hi) as (Hi' & Hv & _); [auto with ghost|done|by rewrite Hst| | |].
  3: { split; [done|]. split; [done|]. split; [done|]. split; [apply slab_modify_len|]. rewrite Hv.
       intros k v Hx Hl. destruct (decide (h = k)) as [<-|Hne]; [|by rewrite lookup_alter_ne in Hx].
       rewrite lookup_alter_eq, Hw in Hx. cbn in Hx. by simplify_eq. }
  - intros Hin. apply in_concat_ro in Hin as (b & q & Hq & Hh).
    destruct (qi_bucket _ _ _ _ _ _ _ (si_queues s Hi) b q h w Hq Hh Hw) as [_ [H|H]]; congruence.
  - unfold pend. by rewrite Hst.
Qed.

Lemma drop_queues_inv cols rows slots s : sched_inv s → slots_wf slots → slots.(sm_cols) = cols → slots.(sm_rows) = rows →
  sched_inv (drop_queues cols rows slots s) ∧
  length (drop_queues cols rows slots s).(sc_work).(sl_entries) = length s.(sc_work).(sl_entries) ∧
  slab_view (drop_queues cols rows slots s).(sc_work) = ∅.
Proof.
  intros Hi Hwf Hc Hr. destruct (slab_clear_spec s.(sc_work) (si_slab s Hi)) as (Hwf' & Hv & _).
  destruct (si_lens s Hi) as (Hl & _). split; [|split; [cbn; by rewrite length_fmap|exact Hv]].
  split; cbn [drop_queues sc_work sc_slots sc_cols sc_rows sc_deficit sc_refinement_order sc_refinement_cursor sc_refinement_fresh
    sc_priority_order sc_pending_items]; [done|done|done| | |apply Hi|].
  - by rewrite Hl.
  - intros b f q n Hf _ Hn. apply lookup_replicate in Hf as [-> _]. done.
  - rewrite Hv, Hl.
    assert (∀ h, h ∈ concat (replicate PASS_SLOTS ([] : list Handle)) → False) as Hnone.
    { intros h Hh. apply in_concat_ro in Hh as (b & q & Hq & Hin). apply lookup_replicate in Hq as [-> _]. by apply elem_of_nil in Hin. }
    split; cbn [app].
    + by repeat constructor.
    + intros h. rewrite lookup_empty. split; [by intros ?%Hnone|by intros []].
    + by intros h w Hw%lookup_empty_Some.
    + done.
    + intros b q h w Hq Hh. apply lookup_replicate in Hq as [-> _]. by apply elem_of_nil in Hh.
    + apply deficit_new_meets.
    + by intros h w Hw%lookup_empty_Some.
Qed.

Lemma relabel_inv x y l s : sched_inv s → u8_tile (x, y) →
  sched_inv (with_slots (slot_update (λ sl, mkSlot sl.(ts_current_gen) l sl.(ts_acked_mask) sl.(ts_passes)) x y s.(sc_slots)) s).
Proof. intros Hi Hu. apply slot_update_inv; [done|done|apply relabel_wf, Hi|done]. Qed.

Lemma supersede_tile_spec {E} x y s : sched_inv s → u8_tile (x, y) →
  ∃ s', supersede_pending_for_tile (E:=E) x y s = Ok s' ∧ sched_inv s' ∧ s'.(sc_cols) = s.(sc_cols) ∧ s'.(sc_rows) = s.(sc_rows) ∧
    length s'.(sc_work).(sl_entries) = length s.(sc_work).(sl_entries) ∧ all_handles s' = all_handles s ∧
    quieter (slab_view s.(sc_work)) (slab_view s'.(sc_work)) ∧
    ∀ h w, slab_view s'.(sc_work) !! h = Some w → tw_tile w = (x, y) → tracked s.(sc_cols) s.(sc_rows) w →
      is_live w.(tw_state) = false.
Proof.
  intros Hi Hu. unfold supersede_pending_for_tile. pose proof (relabel_inv x y None s Hi Hu) as Hi0.
  fold (clear_label x y (sc_slots s)) in Hi0. set (s0 := with_slots _ s) in *.
  destruct (supersede_passes_spec (E:=E) x y (seq 0 PASS_SLOTS) s0 Hi0) as (s' & Hr & Hsu & Hsil).
  exists s'. split; [done|]. destruct (su_shape _ _ Hsu) as [[Hc Hrw] Hp Hro _ _ _ _ Hl].
  split; [apply Hsu|]. split; [done|]. split; [done|]. split; [done|]. split; [unfold all_handles; by rewrite Hp, Hro|].
  split; [apply (su_quieter _ _ Hsu)|]. by apply (silenced_tile s0 s' x y).
Qed.

(** ** Silence *)

(** Nothing live is left at any of a tile's passes. *)
Definition silent_tile (t : Z * Z) (V : gmap Handle TileWork) : Prop :=
  ∀ h w, V !! h = Some w → tw_tile w = t → (Z.to_nat w.(tw_pass_idx) < PASS_SLOTS)%nat → is_live w.(tw_state) = false.

Lemma silent_sub t V V' : sub_view V V' → silent_tile t V → silent_tile t V'.
Proof.
  intros Hs Hsil h w Hw Ht Hp. destruct (is_live (tw_state w)) eqn:Hl; [|done].
  destruct (Hs h w Hw Hl) as (w0 & Hw0 & Hl0 & Ht0 & Hp0). rewrite <-Hl0. apply (Hsil h w0 Hw0); congruence.
Qed.

Lemma quieter_sub V V' : quieter V V' → sub_view V V'.
Proof. intros Hq h w Hw Hl. exists w. by rewrite (Hq h w Hw Hl). Qed.

Lemma silent_filed t s h w : tw_tile w ≠ t → silent_tile t (slab_view s.(sc_work)) → silent_tile t (filed_view s h w).
Proof.
  intros Hne Hsil. unfold filed_view. intros k x Hx Ht Hp.
  apply lookup_insert_Some in Hx as [[<- <-]|[_ Hx]]; [done|]. revert k x Hx Ht Hp.
  change (silent_tile t (match slot_handle s.(sc_slots) w.(tw_tile_x) w.(tw_tile_y) (Z.to_nat w.(tw_pass_idx)) with
              | Some h0 => alter supersede h0 (slab_view s.(sc_work)) | None => slab_view s.(sc_work) end)).
  destruct (slot_handle _ _ _ _) as [h0|]; [|done]. eapply silent_sub; [|exact Hsil]. apply quieter_sub, quieter_supersede.
Qed.

Lemma silent_enqueued t s w s' : enqueued s w s' → tw_tile w ≠ t → silent_tile t (slab_view s.(sc_work)) →
  silent_tile t (slab_view s'.(sc_work)).
Proof. intros [_ _ _ (h & _ & Hv & _)] Hne Hs. rewrite Hv. by apply silent_filed. Qed.

(** What every step leaves: a consistent state, no more items than were inserted, and silent
    tiles silent, but for the one it enqueues for. *)
Record stepped (n : nat) (u : option (Z * Z)) (cols rows : Z) (s s' : Scheduler) : Prop := {
  sp_inv : sched_inv s';
  sp_len : (length s'.(sc_work).(sl_entries) ≤ length s.(sc_work).(sl_entries) + n)%nat;
  sp_dims : s'.(sc_cols) = cols ∧ s'.(sc_rows) = rows;
  sp_silent : ∀ t, u ≠ Some t → silent_tile t (slab_view s.(sc_work)) → silent_tile t (slab_view s'.(sc_work));
}.

Lemma enqueued_stepped w s s' : enqueued s w s' → stepped 1 (Some (tw_tile w)) s.(sc_cols) s.(sc_rows) s s'.
Proof.
  intros He. destruct (He) as [Hinv Hd Hl _]. split; [done|lia|done|].
  intros t Hne. apply (silent_enqueued t s w s' He). congruence.
Qed.

Lemma stepped_refl u s : sched_inv s → stepped 0 u s.(sc_cols) s.(sc_rows) s s.
Proof. intros Hi. split; [done|lia|done|done]. Qed.

Lemma stepped_more n m u cols rows s s' : (n ≤ m)%nat → stepped n u cols rows s s' → stepped m u cols rows s s'.
Proof. intros Hnm [Hi Hl Hd Hs]. split; [done|lia|done|done]. Qed.

Lemma queue_refinement_steps {E} w s : sched_inv s → sched_room 1 s → work_ok w → w.(tw_state) = Pending →
  ∃ s', queue_refinement (E:=E) w s = Ok s' ∧ stepped 1 (Some (tw_tile w)) s.(sc_cols) s.(sc_rows) s s'.
Proof.
  intros Hi Hr Hok Hst. destruct (queue_refinement_spec (E:=E) w s Hi Hr Hok Hst) as (s' & Hq & He).
  exists s'. split; [done|]. by apply enqueued_stepped.
Qed.

Lemma stepped_then n m u cols rows s s1 s2 : stepped n u cols rows s s1 → stepped m u s1.(sc_cols) s1.(sc_rows) s1 s2 →
  stepped (n + m) u cols rows s s2.
Proof.
  intros [Hi1 Hl1 [Hc1 Hr1] Hs1] [Hi2 Hl2 [Hc2 Hr2] Hs2]. split; [done|lia|split; congruence|auto].
Qed.

Lemma room_after n m u cols rows s s1 : sched_room (n + m) s → stepped n u cols rows s s1 → sched_room m s1.
Proof. unfold sched_room. intros Hr [_ Hl _ _]. lia. Qed.

Lemma room_some n m s : (m ≤ n)%nat → sched_room n s → sched_room m s.
Proof. unfold sched_room. lia. Qed.

Lemma enqueue_passes_spec {E} x y gen total now passes : ∀ i s, sched_inv s → sched_room (length passes) s → u8_tile (x, y) →
  ∃ s', enqueue_passes (E:=E) x y gen total now i passes s = Ok s' ∧ stepped (length passes) (Some (x, y)) s.(sc_cols) s.(sc_rows) s s'.
Proof.
  induction passes as [|p ps IH]; intros i s Hi Hr Hu; cbn [enqueue_passes length].
  { exists s. split; [done|]. by apply stepped_refl. }
  destruct (queue_refinement_steps (E:=E) (mkWork x y gen (u8 (Z.of_nat i)) total CCdf53 p now None Pending) s Hi)
    as (s1 & -> & H1); [by eapply room_some; [|exact Hr]; cbn; lia| |done|].
  { split; [done|]. split; [|done]. cbn. pose proof (wrap_in_width 8 (Z.of_nat i) ltac:(lia)) as Hw. unfold in_width in Hw. lia. }
  rewrite bind_Ok. destruct (IH (S i) s1 (sp_inv _ _ _ _ _ _ H1)) as (s2 & -> & H2); [by apply (room_after 1 (length ps) (Some (x, y)) (sc_cols s) (sc_rows s) s s1)|done|].
  exists s2. split; [done|]. by apply (stepped_then 1 (length ps) _ _ _ s s1 s2).
Qed.

Lemma enqueue_subset_spec {E} x y gen mask now ps : ∀ payloads s, sched_inv s → sched_room (length payloads) s → u8_tile (x, y) →
  ∃ s', enqueue_subset (E:=E) x y gen mask now ps payloads s = Ok s' ∧ stepped (length payloads) (Some (x, y)) s.(sc_cols) s.(sc_rows) s s'.
Proof.
  induction ps as [|p ps IH]; intros payloads s Hi Hr Hu; cbn [enqueue_subset].
  { exists s. split; [done|]. eapply stepped_more; [|by apply stepped_refl]. lia. }
  destruct (_ =? 0); [by apply IH|]. destruct payloads as [|pl payloads]; [exists s; split; [done|by apply stepped_refl]|].
  destruct (queue_refinement_steps (E:=E) (mkWork x y gen (Z.of_nat p) (u8 (Z.of_nat Cdf53Passes.CDF53_PASS_COUNT)) CCdf53 pl now None Pending) s Hi)
    as (s1 & -> & H1); [by eapply room_some; [|exact Hr]; cbn; lia| |done|].
  { split; [done|]. split; [cbn; lia|done]. }
  rewrite bind_Ok. destruct (IH payloads s1 (sp_inv _ _ _ _ _ _ H1)) as (s2 & -> & H2); [by apply (room_after 1 (length payloads) (Some (x, y)) (sc_cols s) (sc_rows s) s s1)|done|].
  exists s2. split; [done|]. by apply (stepped_then 1 (length payloads) _ _ _ s s1 s2).
Qed.

Definition dims_after (cols rows : Z) (op : sched_op) : Z * Z :=
  match op with So_resize cols rows => (cols, rows) | _ => (cols, rows) end.

Lemma stepped_same s s' : sched_inv s' → length s'.(sc_work).(sl_entries) = length s.(sc_work).(sl_entries) →
  s'.(sc_cols) = s.(sc_cols) → s'.(sc_rows) = s.(sc_rows) → sub_view (slab_view s.(sc_work)) (slab_view s'.(sc_work)) →
  stepped 0 None s.(sc_cols) s.(sc_rows) s s'.
Proof. intros ? ? ? ? Hs. split; [done|lia|done|]. intros t _. by apply silent_sub. Qed.

Lemma sub_view_refl V : sub_view V V.
Proof. intros h w Hw Hl. by exists w. Qed.
Lemma sub_view_empty V : sub_view V ∅.
Proof. intros h w Hw. by apply lookup_empty_Some in Hw. Qed.

(** The tile an operation enqueues for. *)
Definition op_tile (op : sched_op) : option (Z * Z) :=
  match op with
  | So_enqueue w _ | So_refine_work w _ => Some (tw_tile w)
  | So_refine t _ _ _ | So_refine_subset t _ _ _ _ => Some t
  | _ => None
  end.

Lemma stamped_ok w now : work_ok w → work_ok (stamp_queued now w).
Proof. by intros (? & ? & ?). Qed.

Lemma sched_step_spec {E} op s : sched_inv s → op_ok s.(sc_cols) s.(sc_rows) op → sched_room (op_items op) s →
  ∃ s' out, sched_step (E:=E) op s = Ok (s', out) ∧
    stepped (op_items op) (op_tile op) (dims_after s.(sc_cols) s.(sc_rows) op).1 (dims_after s.(sc_cols) s.(sc_rows) op).2 s s'.
Proof.
  intros Hi Hok Hr. destruct op as [cols rows| |ra ov|w now|w now|t gen passes now|t gen mask pls now|t|t|t|t g p|t g p|t seq|b now owned];
    cbn [sched_step op_items dims_after fst snd op_ok] in *.
  - eexists _, _. split; [done|]. destruct (drop_queues_inv cols rows (slots_resize cols rows s.(sc_slots)) s Hi (slots_new_wf _ _) eq_refl eq_refl) as (Hi' & Hl & Hv).
    split; [done|rewrite Nat.add_0_r; by apply Nat.eq_le_incl|done|]. intros t _. apply silent_sub.
    change (sub_view (slab_view (sc_work s)) (slab_view (sc_work (drop_queues cols rows (slots_resize cols rows (sc_slots s)) s)))).
    rewrite Hv. apply sub_view_empty.
  - eexists _, _. split; [done|]. destruct (si_dims s Hi) as (Hc & Hrw & _).
    destruct (drop_queues_inv s.(sc_cols) s.(sc_rows) (clear_handles s.(sc_slots)) s Hi (clear_handles_wf _ (si_slots s Hi)) Hc Hrw) as (Hi' & Hl & Hv).
    apply stepped_same; [done..|]. unfold sched_clear. rewrite Hv. apply sub_view_empty.
  - eexists _, _. split; [done|]. apply stepped_same; try done; [by destruct Hi; split|apply sub_view_refl].
  - destruct Hok as [Hw Hg]. destruct (enqueue_at_spec (E:=E) w now s Hi Hr Hw Hg) as (s' & -> & He).
    rewrite bind_Ok. eexists _, _. split; [done|]. exact (enqueued_stepped _ _ _ He).
  - destruct Hok as [Hw Hg]. unfold enqueue_refinement_work_at. rewrite assert_in_grid_ok by done. rewrite bind_Ok.
    destruct (queue_refinement_steps (E:=E) (stamp_queued now w) s Hi Hr (stamped_ok w now Hw) eq_refl) as (s' & -> & Hst).
    rewrite bind_Ok. by eexists _, _.
  - destruct t as [x y]. destruct (enqueue_passes_spec (E:=E) x y gen (u8 (Z.of_nat (length passes))) now passes 0 s Hi Hr Hok) as (s' & Hs & Hst).
    unfold enqueue_refinement_at. cbn [fst snd]. rewrite Hs, bind_Ok. by eexists _, _.
  - destruct Hok as [Hu Hc]. destruct t as [x y].
    destruct (enqueue_subset_spec (E:=E) x y gen mask now (seq 0 16) pls s Hi Hr Hu) as (s' & Hs & Hst).
    unfold enqueue_refinement_subset_at, assert_. cbn [fst snd]. rewrite (proj2 (Z.eqb_eq _ _) Hc), bind_Ok, Hs, bind_Ok. by eexists _, _.
  - destruct t as [x y]. destruct (supersede_tile_spec (E:=E) x y s Hi Hok) as (s' & Hs & Hi' & Hc & Hrw & Hl & _ & Hq & _).
    cbn [fst snd]. rewrite Hs, bind_Ok. eexists _, _. split; [done|]. apply stepped_same; [done..|by apply quieter_sub].
  - destruct t as [x y]. destruct (supersede_tile_spec (E:=E) x y s Hi Hok) as (s' & Hs & Hi' & Hc & Hrw & Hl & _ & Hq & _).
    unfold bump_generation. cbn [fst snd]. rewrite Hs, !bind_Ok. eexists _, _. split; [done|].
    destruct (bump_slot_inv x y s' Hi' Hok) as (Hi2 & Hc2 & Hr2 & Hw2). apply stepped_same; [done|by rewrite Hw2|congruence|congruence|].
    rewrite Hw2. by apply quieter_sub.
  - destruct t as [x y]. unfold bump_generation_collecting. cbn [fst snd].
    destruct (collect_superseded_spec (E:=E) x y (seq 0 PASS_SLOTS) s Hi) as (s' & rs & -> & Hsu & _). rewrite !bind_Ok.
    eexists _, _. split; [done|]. destruct (bump_slot_inv x y s' (su_inv _ _ Hsu) Hok) as (Hi2 & Hc2 & Hr2 & Hw2).
    destruct (su_shape _ _ Hsu) as [[Hc Hrw] _ _ _ _ _ _ Hl].
    apply stepped_same; [done|cbn [fst]; by rewrite Hw2|cbn [fst]; congruence|cbn [fst]; congruence|].
    cbn [fst]. rewrite Hw2. apply quieter_sub, Hsu.
  - destruct Hok as [Hu Hp]. destruct t as [x y]. unfold record_cdf53_ack, record_ack, assert_. cbn [fst snd].
    rewrite (proj2 (Z.ltb_lt _ _) Hp), !bind_Ok. eexists _, _. split; [done|].
    set (s0 := with_window _ _ _ _ _ s). assert (sched_inv s0) as Hi0 by (destruct Hi; by split).
    apply (stepped_same s); [|done..|apply sub_view_refl]. apply (slot_update_inv (record_pass g p) x y s0 Hi0 Hu); [apply record_wf, Hi|].
    intros sl. unfold record_pass. by destruct (_ =? _).
  - eexists _, _. split; [done|]. destruct (mark_acked_inv t.1 t.2 g p s Hi) as (Hi' & Hc & Hrw & Hl & Hq).
    apply stepped_same; [done..|by apply quieter_sub].
  - destruct t as [x y]. eexists _, _. split; [done|]. unfold frame_label, label_or_assign. cbn [fst snd].
    destruct (slot_at _ _ _) as [sl|]; cbn [fst].
    + apply stepped_same; [by apply relabel_inv|done..|apply sub_view_refl].
    + apply stepped_same; [|done..|apply sub_view_refl]. apply with_slots_inv; [done|apply Hi|done..].
  - destruct (tick_spec (E:=E) b now owned s Hi) as (s' & -> & Hi' & Hc & Hrw & _ & _ & Hl & Hsv).
    eexists _, _. split; [done|]. by apply stepped_same.
Qed.

Lemma sched_new_inv cols rows : sched_inv (sched_new cols rows).
Proof.
  assert (∀ h, h ∈ concat (replicate PASS_SLOTS ([] : list Handle)) → False) as Hnone.
  { intros h Hh. apply in_concat_ro in Hh as (b & q & Hq & Hin). apply lookup_replicate in Hq as [-> _]. by apply elem_of_nil in Hin. }
  split; [apply slab_new_wf|apply slots_new_wf|done|done| | |].
  - intros b f q n Hf _ Hn. change (replicate PASS_SLOTS fresh_default !! b = Some f) in Hf. apply lookup_replicate in Hf as [-> _]. done.
  - split; [left|]. unfold ADJUST_AFTER_ROUNDS. cbn. lia.
  - split; [by repeat constructor| | |done| |apply deficit_new_meets|].
    + intros h. split; [by intros ?%Hnone|by intros []].
    + intros h w Hw. change ((∅ : gmap Handle TileWork) !! h = Some w) in Hw. by apply lookup_empty_Some in Hw.
    + intros b q h w Hq Hh. change (replicate PASS_SLOTS ([] : list Handle) !! b = Some q) in Hq.
      apply lookup_replicate in Hq as [-> _]. by apply elem_of_nil in Hh.
    + intros h w Hw. change ((∅ : gmap Handle TileWork) !! h = Some w) in Hw. by apply lookup_empty_Some in Hw.
Qed.

Lemma sched_run_stepped {E} ops : ∀ s, sched_inv s → ops_ok s.(sc_cols) s.(sc_rows) ops → sched_room (all_items ops) s →
  ∃ s' out, sched_run (E:=E) ops s = Ok (s', out) ∧ sched_inv s' ∧
    (length s'.(sc_work).(sl_entries) ≤ length s.(sc_work).(sl_entries) + all_items ops)%nat.
Proof.
  induction ops as [|op ops IH]; intros s Hi Hok Hr; cbn [sched_run].
  { eexists _, _. split; [done|]. split; [done|lia]. }
  destruct Hok as [Hop Hok]. assert (all_items (op :: ops) = op_items op + all_items ops)%nat as Ha by done. rewrite Ha in Hr |- *.
  destruct (sched_step_spec (E:=E) op s Hi Hop) as (s1 & out & -> & Hst); [eapply room_some; [|exact Hr]; lia|].
  rewrite bind_Ok. destruct Hst as [Hi1 Hl1 [Hc1 Hr1] _].
  destruct (IH s1 Hi1) as (s2 & out2 & Hs2 & Hi2 & Hl2).
  - rewrite Hc1, Hr1. by destruct op.
  - unfold sched_room in *. lia.
  - cbn [fst snd]. rewrite Hs2, bind_Ok. eexists _, _. split; [done|]. split; [done|cbn [fst]; lia].
Qed.

(** ** The counters and the scans they replaced *)

Lemma list_to_set_dom (V : gmap Handle TileWork) q : NoDup q → (∀ h, h ∈ q ↔ is_Some (V !! h)) → size V = length q.
Proof.
  intros Hnd Hq. rewrite <-(size_dom (D:=gset Handle)), <-(size_list_to_set (C:=gset Handle) q) by done. f_equal.
  apply set_eq. intros h. by rewrite elem_of_dom, elem_of_list_to_set, Hq.
Qed.

Lemma count_by_handle (V : gmap Handle TileWork) q : NoDup q → (∀ h, h ∈ q ↔ is_Some (V !! h)) →
  map_total pend V = length (filter (λ h, match V !! h with Some w => is_pending w.(tw_state) | None => false end = true) q).
Proof.
  revert V. induction q as [|h q IH]; intros V Hnd Hq.
  - assert (V = ∅) as ->; [|done]. apply map_empty. intros h. destruct (V !! h) eqn:Hh; [|done].
    assert (h ∈ @nil Handle) as H by (apply Hq; by rewrite Hh). by apply elem_of_nil in H.
  - inversion Hnd as [|? ? Hni Hnd']; subst. assert (is_Some (V !! h)) as [w Hw] by (apply Hq; left).
    rewrite (map_total_delete pend V h w Hw), (IH (delete h V)); [|done|].
    + rewrite filter_cons. assert (∀ k, k ∈ q → delete h V !! k = V !! k) as Hd by (intros k Hk; apply lookup_delete_ne; by intros ->).
      rewrite (filter_agree _ (λ k, match V !! k with Some w => is_pending w.(tw_state) | None => false end = true)) by
        (apply Forall_forall; intros k Hk; by rewrite Hd).
      unfold pend. rewrite Hw. destruct (is_pending (tw_state w)); [by rewrite decide_True|by rewrite decide_False].
    + intros k. destruct (decide (k = h)) as [->|Hne]; [rewrite lookup_delete_eq; by split; [|intros []]|].
      rewrite lookup_delete_ne, <-Hq, elem_of_cons by done. split; [by right|by intros [?|?]].
Qed.

Lemma pending_recomputed s : sched_inv s → s.(sc_pending_items) = pending_items_recomputed s.
Proof.
  intros Hi. pose proof (si_queues s Hi) as Hq. rewrite (qi_pending _ _ _ _ _ _ _ Hq).
  rewrite (count_by_handle _ _ (qi_nodup _ _ _ _ _ _ _ Hq) (qi_live _ _ _ _ _ _ _ Hq)).
  unfold pending_items_recomputed. f_equal. apply filter_agree, Forall_forall. intros h _. unfold pending_at. by rewrite slab_get_view.
Qed.

Definition queued_tiles (s : Scheduler) : gset (Z * Z) := list_to_set (omap (unacked_tile s) (concat s.(sc_refinement_order))).

Lemma unacked_tiles s : sched_inv s →
  omap (unacked_tile s) (concat s.(sc_refinement_order)) = queue_tiles (slab_view s.(sc_work)) (concat s.(sc_refinement_order)).
Proof.
  intros Hi. assert (∀ q, (∀ h, h ∈ q → h ∈ concat (sc_refinement_order s)) → omap (unacked_tile s) q = queue_tiles (slab_view s.(sc_work)) q) as H;
    [|by apply H].
  induction q as [|h q IH]; intros Hq; [done|]. unfold queue_tiles. cbn. rewrite IH by (intros k Hk; apply Hq; by right).
  fold (queue_tiles (slab_view (sc_work s)) q).
  assert (unacked_tile s h = tw_tile <$> slab_view (sc_work s) !! h) as ->; [|done].
  unfold unacked_tile. rewrite slab_get_view. destruct (slab_view (sc_work s) !! h) as [w|] eqn:Hw; [|done]. cbn.
  destruct (in_concat_ro _ _ (Hq h ltac:(left))) as (b & r & Hr & Hh).
  destruct (qi_bucket _ _ _ _ _ _ _ (si_queues s Hi) b r h w Hr Hh Hw) as [_ [H|H]]; by rewrite H.
Qed.

Lemma deficit_recomputed s : sched_inv s →
  refinement_deficit_tiles s = size (filter (λ t, in_grid s.(sc_cols) s.(sc_rows) t = true) (queued_tiles s)).
Proof.
  intros Hi. pose proof (si_queues s Hi) as Hq. unfold refinement_deficit_tiles, queued_tiles. rewrite unacked_tiles by done.
  destruct (si_dims s Hi) as (_ & _ & Hc). rewrite (deficit_tiles_distinct _ _ _ (qi_deficit _ _ _ _ _ _ _ Hq)).
  - f_equal. rewrite Hc. apply set_eq. intros t. rewrite elem_of_filter, !elem_of_list_to_set, list_elem_of_filter. tauto.
  - apply Forall_forall. intros t (h & Hh & Ht)%list_elem_of_omap. destruct (slab_view (sc_work s) !! h) as [w|] eqn:Hw; [|done].
    cbn in Ht. simplify_eq. by apply (qi_ok _ _ _ _ _ _ _ Hq h w).
Qed.

(** C6: The scheduler never panics and its bookkeeping is exact.  From a new scheduler, whatever the
    callers do in whatever order (enqueue, supersede, bump, acknowledge, resize,
    clear, tick at any budget): the run completes; the pending counter is the number of
    pending items the scan would find; the deficit counter is the number of tiles of the grid the
    scan would find queued; every item of the slab is in exactly one queue; a tile-pass
    of the grid has at most one live item, the one its slot files; and the refinement
    fraction is one of 0.2, 0.1 and 0.05. *)
Theorem scheduler_session_sound {E} cols rows ops : ops_ok cols rows ops → Z.of_nat (all_items ops) ≤ 2 ^ 32 →
  ∃ s out, sched_run (E:=E) ops (sched_new cols rows) = Ok (s, out) ∧
    s.(sc_pending_items) = pending_items_recomputed s ∧
    refinement_deficit_tiles s = size (filter (λ t, in_grid s.(sc_cols) s.(sc_rows) t = true) (queued_tiles s)) ∧
    NoDup (all_handles s) ∧ slab_len s.(sc_work) = length (all_handles s) ∧
    (∀ h, h ∈ all_handles s ↔ is_Some (slab_get s.(sc_work) h)) ∧
    (∀ h w, slab_get s.(sc_work) h = Some w → is_live w.(tw_state) = true → tracked s.(sc_cols) s.(sc_rows) w →
       slot_handle s.(sc_slots) w.(tw_tile_x) w.(tw_tile_y) (Z.to_nat w.(tw_pass_idx)) = Some h) ∧
    s.(sc_fraction) ∈ [f32_lit 1 5; f32_lit 1 10; f32_lit 1 20].
Proof.
  intros Hok Hn. destruct (sched_run_stepped (E:=E) ops (sched_new cols rows) (sched_new_inv cols rows) Hok) as (s & out & Hr & Hi & _).
  { unfold sched_room. cbn. lia. }
  exists s, out. split; [done|]. pose proof (si_queues s Hi) as Hq.
  split; [by apply pending_recomputed|]. split; [by apply deficit_recomputed|]. split; [apply Hq|]. split; [|split; [|split]].
  - unfold slab_len. rewrite (sw_live _ (si_slab s Hi)). apply list_to_set_dom; apply Hq.
  - intros h. rewrite slab_get_view. apply Hq.
  - intros h w Hw Hl Ht. rewrite slab_get_view in Hw. destruct (si_dims s Hi) as (Hc & Hrw & _).
    apply (qi_filed _ _ _ _ _ _ _ Hq h w Hw Hl). by rewrite Hc, Hrw.
  - apply (si_fraction s Hi).
Qed.

(** ** New content silences the old *)

Definition retires (t : Z * Z) (op : sched_op) : Prop := op = So_supersede t ∨ op = So_bump t ∨ op = So_bump_collecting t.

Lemma retires_silent {E} t op s s' out : sched_inv s → u8_tile t → in_grid s.(sc_cols) s.(sc_rows) t = true → retires t op →
  sched_step (E:=E) op s = Ok (s', out) → silent_tile t (slab_view s'.(sc_work)) ∧ out = [].
Proof.
  intros Hi Hu Hg Hop Hs. destruct t as [x y].
  destruct (supersede_tile_spec (E:=E) x y s Hi Hu) as (s1 & Hs1 & Hi1 & _ & _ & _ & _ & _ & Hsil).
  assert (∀ V, (∀ h w, V !! h = Some w → tw_tile w = (x, y) → tracked s.(sc_cols) s.(sc_rows) w → is_live w.(tw_state) = false) →
    silent_tile (x, y) V) as Hsilent.
  { intros V HV h w Hw Ht Hp. apply (HV h w Hw Ht). split; [by rewrite Ht|done]. }
  destruct Hop as [->|[->| ->]].
  - assert (sched_step (E:=E) (So_supersede (x, y)) s = Ok (s1, [])) as H by (cbn [sched_step fst snd]; by rewrite Hs1).
    rewrite H in Hs. apply Ok_inj, pair_equal_spec in Hs as [<- <-]. split; [by apply Hsilent|done].
  - assert (sched_step (E:=E) (So_bump (x, y)) s = Ok ((bump_slot x y s1).1, [])) as H.
    { cbn [sched_step fst snd]. unfold bump_generation. by rewrite Hs1, bind_Ok. }
    rewrite H in Hs. apply Ok_inj, pair_equal_spec in Hs as [<- <-]. split; [|done].
    rewrite (proj2 (proj2 (proj2 (bump_slot_inv x y s1 Hi1 Hu)))). by apply Hsilent.
  - destruct (collect_superseded_spec (E:=E) x y (seq 0 PASS_SLOTS) s Hi) as (s2 & rs & Hc & Hsu & Hsl & _).
    assert (sched_step (E:=E) (So_bump_collecting (x, y)) s = Ok ((bump_slot x y s2).1, [])) as H.
    { cbn [sched_step fst snd]. unfold bump_generation_collecting. by rewrite Hc, bind_Ok. }
    rewrite H in Hs. apply Ok_inj, pair_equal_spec in Hs as [<- <-]. split; [|done].
    rewrite (proj2 (proj2 (proj2 (bump_slot_inv x y s2 (su_inv _ _ Hsu) Hu)))). apply Hsilent. by apply (silenced_tile s s2).
Qed.

(** Only a tick sends. *)
Lemma silent_bind {E A} (m : outcome E A) (f : A → Scheduler) s' (out : list TileWork) :
  (a ← m; mret (f a, [])) = Ok (s', out) → out = [].
Proof. destruct m as [a| |]; cbn; by intros [= _ <-]. Qed.
Lemma silent_ret {E} (s s' : Scheduler) (out : list TileWork) : (mret (s, []) : outcome E _) = Ok (s', out) → out = [].
Proof. by intros [= _ <-]. Qed.

Definition off_tile (t : Z * Z) (w : TileWork) : Prop := tw_tile w = t → (PASS_SLOTS ≤ Z.to_nat w.(tw_pass_idx))%nat.

Definition is_tick (op : sched_op) : bool := match op with So_tick _ _ _ => true | _ => false end.

Lemma step_silent {E} op s s' out : is_tick op = false → sched_step (E:=E) op s = Ok (s', out) → out = [].
Proof.
  destruct op; cbn [is_tick sched_step]; intros Ht Hs; try discriminate Ht.
  all: first [exact (silent_ret _ _ _ Hs)|exact (silent_bind _ (λ s, s) _ _ Hs)|exact (silent_bind _ fst _ _ Hs)|
    exact (silent_bind _ (λ r, r.1.1) _ _ Hs)].
Qed.

Lemma tick_sends_off {E} t budget now owned s s' out : sched_inv s → silent_tile t (slab_view s.(sc_work)) →
  tick_at_with (E:=E) budget now owned s = Ok (s', out) → Forall (off_tile t) out.
Proof.
  intros Hi Hsil Hs. destruct (tick_spec (E:=E) budget now owned s Hi) as (s1 & Hr & _). rewrite Hr in Hs.
  apply Ok_inj, pair_equal_spec in Hs as [_ <-].
  apply Forall_forall. intros w (w0 & -> & Hin)%list_elem_of_fmap Ht. rewrite <-fmap_app in Hin.
  apply list_elem_of_fmap in Hin as ([h w1] & -> & Hin).
  destruct (tick_sends_live budget now owned s h w1 Hi Hin) as [Hw Hl].
  destruct (Nat.lt_ge_cases (Z.to_nat (tw_pass_idx w1)) PASS_SLOTS) as [Hlt|Hge]; [|exact Hge].
  rewrite (Hsil h w1 Hw Ht Hlt) in Hl. discriminate Hl.
Qed.

Lemma step_sends_off {E} t op s s' out : sched_inv s → silent_tile t (slab_view s.(sc_work)) →
  sched_step (E:=E) op s = Ok (s', out) → Forall (off_tile t) out.
Proof.
  intros Hi Hsil Hs. destruct (is_tick op) eqn:Ht.
  - destruct op; try discriminate Ht. by eapply tick_sends_off.
  - apply step_silent in Hs as ->; [constructor|done].
Qed.

Lemma run_sends_off {E} t ops : ∀ s s' out, sched_inv s → silent_tile t (slab_view s.(sc_work)) →
  ops_ok s.(sc_cols) s.(sc_rows) ops → sched_room (all_items ops) s → Forall (λ op, op_tile op ≠ Some t) ops →
  sched_run (E:=E) ops s = Ok (s', out) → Forall (off_tile t) out.
Proof.
  induction ops as [|op ops IH]; intros s s' out Hi Hsil Hok Hr Hsp Hrun; cbn [sched_run] in Hrun; unfold mret, outcome_ret in Hrun.
  { simplify_eq. constructor. }
  destruct Hok as [Hop Hok]. inversion Hsp as [|? ? Hsp1 Hsp2]; subst.
  assert (all_items (op :: ops) = op_items op + all_items ops)%nat as Ha by done. rewrite Ha in Hr.
  destruct (sched_step_spec (E:=E) op s Hi Hop) as (s1 & o1 & Hs1 & Hst); [eapply room_some; [|exact Hr]; lia|].
  rewrite Hs1, bind_Ok in Hrun. cbn [fst snd] in Hrun. destruct Hst as [Hi1 Hl1 [Hc1 Hr1] Hs].
  destruct (sched_run ops s1) as [[s2 o2]| |] eqn:Hr2; cbn in Hrun; [|done..]. simplify_eq.
  apply Forall_app. split; [exact (step_sends_off t op s s1 o1 Hi Hsil Hs1)|].
  apply (IH s1 s' o2); [done|by apply Hs| | |done|done].
  - rewrite Hc1, Hr1. by destruct op.
  - unfold sched_room in *. lia.
Qed.

(** C23: Once a tile's content is replaced, nothing of the old is ever sent.  After any history, superseding
    a tile of the grid or bumping its generation (with or without collecting the
    superseded work) is followed by no item of that tile at any of its 14 passes, in any
    number of ticks and whatever else is enqueued, superseded or acknowledged, until
    something is enqueued for the tile again. *)
Theorem new_content_silences_old {E} cols rows history t op ops s out s' out' :
  ops_ok cols rows history → sched_run (E:=E) history (sched_new cols rows) = Ok (s, out) →
  u8_tile t → in_grid s.(sc_cols) s.(sc_rows) t = true → retires t op →
  ops_ok s.(sc_cols) s.(sc_rows) ops → Forall (λ op, op_tile op ≠ Some t) ops →
  Z.of_nat (all_items history) + Z.of_nat (all_items ops) ≤ 2 ^ 32 →
  sched_run (E:=E) (op :: ops) s = Ok (s', out') →
  Forall (λ w, tw_tile w = t → (PASS_SLOTS ≤ Z.to_nat w.(tw_pass_idx))%nat) out'.
Proof.
  intros Hok Hrun Hu Hg Hret Hok' Hsp Hn Hrun'.
  destruct (sched_run_stepped (E:=E) history (sched_new cols rows) (sched_new_inv cols rows) Hok) as (s0 & o0 & Hr0 & Hi & Hl).
  { unfold sched_room. cbn. lia. }
  rewrite Hr0 in Hrun. simplify_eq. cbn [sched_run] in Hrun'.
  assert (op_ok s.(sc_cols) s.(sc_rows) op ∧ op_items op = 0%nat ∧ dims_after s.(sc_cols) s.(sc_rows) op = (s.(sc_cols), s.(sc_rows))) as (Hop & Hoi & Hd)
    by (destruct Hret as [->|[->| ->]]; done).
  destruct (sched_step_spec (E:=E) op s Hi Hop) as (s1 & o1 & Hs1 & Hst); [rewrite Hoi; unfold sched_room; cbn in *; lia|].
  destruct (retires_silent t op s s1 o1 Hi Hu Hg Hret Hs1) as [Hsil ->]. rewrite Hs1, bind_Ok in Hrun'. cbn [fst snd] in Hrun'.
  destruct Hst as [Hi1 Hl1 [Hc1 Hr1] _]. rewrite Hd in Hc1, Hr1. cbn in Hc1, Hr1.
  destruct (sched_run ops s1) as [[s2 o2]| |] eqn:Hr2; cbn in Hrun'; [|done..]. unfold mret, outcome_ret in Hrun'. simplify_eq.
  apply (run_sends_off (E:=E) t ops s1 s' out' Hi1 Hsil); [by rewrite Hc1, Hr1| |done|done].
  unfold sched_room. cbn in Hl. rewrite Hoi in Hl1. lia.
Qed.

(** ** The budget *)





Section picks_facts.
  Context (now retry overhead : Z) (owned : Z → Z → Z → bool).



End picks_facts.



(** C7: A tick sends exactly what the scheduling rule says, from any consistent state, and leaves a consistent one.  First the
    eligible items of the FIFO in order (pending ones, and those in flight past the
    retry gate that nothing else is responsible for) until the priority share is spent;
    then the live items of the pass buckets, pass by pass, each bucket rotated past where it
    stopped, while they fit the refinement share.  The re-sends it reports are the positions of the items that
    were in flight. *)
Theorem tick_sends_exactly {E} budget now owned s : sched_inv s →
  ∃ s', tick_at_with (E:=E) budget now owned s =
      Ok (s', stamp_sent now <$> ((tick_picks budget now owned s).*2 ++ (tick_takes budget s).*2)) ∧
    sched_inv s' ∧ s'.(sc_cols) = s.(sc_cols) ∧ s'.(sc_rows) = s.(sc_rows) ∧
    s'.(sc_last_tick_retries) = retry_positions 0 (tick_picks budget now owned s).*2 ∧
    s'.(sc_priority_order) = survivors (slab_view s.(sc_work)) s.(sc_priority_order) ∧
    length s'.(sc_work).(sl_entries) = length s.(sc_work).(sl_entries).
Proof.
  intros Hi. destruct (tick_spec (E:=E) budget now owned s Hi) as (s' & ? & ? & ? & ? & ? & ? & ? & _). by exists s'.
Qed.


(** ** A session at work *)

Definition sample_work (x y pass : Z) (payload : list Z) : TileWork := mkWork x y 1 pass 1 CSolid payload 0 None Pending.
Definition sample_ops : list sched_op :=
  [So_bump_collecting (1, 1); So_refine (1, 1) 1 [[1; 2]; [3]] 5; So_enqueue (sample_work 0 1 0 [9; 9; 9]) 5;
   So_refine (0, 0) 1 [[4]; [5; 6; 7]] 6; So_ack (1, 1) 1 0; So_label (0, 1) 3; So_tick 10 7 (λ _ _ _, false);
   So_refine_subset (0, 0) 1 2 [[8]] 8; So_mark_acked (0, 1) 1 0].
Definition sample : Scheduler := match sched_run (E:=Empty_set) sample_ops (sched_new 2 2) with Ok (s, _) => s | _ => sched_new 2 2 end.

Lemma sample_ops_ok : ops_ok 2 2 sample_ops.
Proof. repeat split; cbn; unfold u8_tile; cbn; try lia; done. Qed.

Lemma sample_inv : sched_inv sample.
Proof.
  destruct (sched_run_stepped (E:=Empty_set) sample_ops (sched_new 2 2) (sched_new_inv 2 2) sample_ops_ok) as (s & out & Hr & Hi & _).
  { unfold sched_room. cbn. lia. }
  unfold sample. by rewrite Hr.
Qed.

Example scheduler_session_sound_witness :
  ∃ s out, sched_run (E:=Empty_set) sample_ops (sched_new 2 2) = Ok (s, out) ∧
    s.(sc_pending_items) = pending_items_recomputed s ∧
    refinement_deficit_tiles s = size (filter (λ t, in_grid s.(sc_cols) s.(sc_rows) t = true) (queued_tiles s)) ∧
    NoDup (all_handles s) ∧ slab_len s.(sc_work) = length (all_handles s) ∧
    (∀ h, h ∈ all_handles s ↔ is_Some (slab_get s.(sc_work) h)) ∧
    (∀ h w, slab_get s.(sc_work) h = Some w → is_live w.(tw_state) = true → tracked s.(sc_cols) s.(sc_rows) w →
       slot_handle s.(sc_slots) w.(tw_tile_x) w.(tw_tile_y) (Z.to_nat w.(tw_pass_idx)) = Some h) ∧
    s.(sc_fraction) ∈ [f32_lit 1 5; f32_lit 1 10; f32_lit 1 20].
Proof. apply (scheduler_session_sound 2 2 sample_ops); [apply sample_ops_ok|cbn; lia]. Defined.

Example tick_sends_exactly_witness :
  ∃ s', tick_at_with (E:=Empty_set) 100 60000000 (λ _ _ _, false) sample =
      Ok (s', stamp_sent 60000000 <$> ((tick_picks 100 60000000 (λ _ _ _, false) sample).*2 ++ (tick_takes 100 sample).*2)) ∧
    sched_inv s' ∧ s'.(sc_cols) = sample.(sc_cols) ∧ s'.(sc_rows) = sample.(sc_rows) ∧
    s'.(sc_last_tick_retries) = retry_positions 0 (tick_picks 100 60000000 (λ _ _ _, false) sample).*2 ∧
    s'.(sc_priority_order) = survivors (slab_view sample.(sc_work)) sample.(sc_priority_order) ∧
    length s'.(sc_work).(sl_entries) = length sample.(sc_work).(sl_entries).
Proof. apply (tick_sends_exactly 100 60000000 (λ _ _ _, false) sample), sample_inv. Defined.

Example new_content_silences_old_witness :
  Forall (λ w, tw_tile w = (1, 1) → (PASS_SLOTS ≤ Z.to_nat w.(tw_pass_idx))%nat)
    (match sched_run (E:=Empty_set) [So_bump (1, 1); So_tick 100 9 (λ _ _ _, false)] sample with Ok (_, o) => o | _ => [] end).
Proof.
  destruct (sched_run (E:=Empty_set) sample_ops (sched_new 2 2)) as [[s out]| |] eqn:Hr; [|vm_compute in Hr; done..].
  assert (s = sample) as -> by (unfold sample; by rewrite Hr).
  destruct (sched_run (E:=Empty_set) [So_bump (1, 1); So_tick 100 9 (λ _ _ _, false)] sample) as [[s' out']| |] eqn:Hr'; [|constructor..].
  apply (new_content_silences_old (E:=Empty_set) 2 2 sample_ops (1, 1) (So_bump (1, 1)) [So_tick 100 9 (λ _ _ _, false)] sample out s' out').
  - apply sample_ops_ok.
  - exact Hr.
  - unfold u8_tile. cbn. lia.
  - vm_compute. reflexivity.
  - right. by left.
  - split; exact I.
  - repeat constructor. discriminate.
  - cbn. lia.
  - exact Hr'.
Defined.

