(* ===== verification/TileMetrics.v ===== *)
(** * Per-tile metrics and codec assignment

    The server's [tile/metrics_tracker.rs], [tile/escalation.rs], the data types of
    [tile/mod.rs] and the per-tile rules of [tile/classifier.rs] ([classify_tile]):
    how often and how much each tile changes, which codec that calls for, and which
    idle tiles are owed a lossless refinement.  Rates are binary32 floats. *)

From Stdlib Require Import ZArith Lia SpecFloat FunctionalExtensionality Sorted.
From S2P Require Import Prelude F32.
From stdpp Require Import base option numbers list sets.

Local Open Scope Z_scope.

(** ** Definitions *)

(** The codec assigned to a tile. *)
Inductive CodecState : Type :=
  | CsSkip
  | CsH264 (frames_in_h264 : Z)
  | CsPalRle (palette_id : Z)
  | CsSolid
  | CsCdf53 (passes_sent present_passes : Z)
  | CsPixelPerfect.
#[export] Instance codec_state_eq_dec : EqDecision CodecState.
Proof. solve_decision. Defined.

Inductive FrameMode : Type := FmH264 | FmTileCodec.
#[export] Instance frame_mode_eq_dec : EqDecision FrameMode.
Proof. solve_decision. Defined.

Definition UNIQUE_COLORS_UNKNOWN : Z := 2 ^ 16 - 1.
Definition EDGE_DENSITY_UNKNOWN : f32 := S754_nan.

Record TileMetrics : Type := mkMetrics {
  tm_change_freq_hz : f32;
  tm_change_magnitude : f32;
  tm_unique_colors : Z;
  tm_edge_density : f32;
  tm_idle_frames : Z;
  tm_codec_state : CodecState;
  tm_already_escalated : bool;
}.
Definition metrics_default : TileMetrics :=
  mkMetrics (f32_of_Z 0) (f32_of_Z 0) UNIQUE_COLORS_UNKNOWN EDGE_DENSITY_UNKNOWN 0 CsSkip false.

(** *** The tracker *)

Record MetricsTracker : Type := mkTracker { mt_cols : Z; mt_rows : Z; mt_metrics : list TileMetrics }.

(** [(cols * rows) as usize] *)
Definition tile_total (cols rows : Z) : nat := Z.to_nat (u32 (cols * rows)).
Definition tracker_new (cols rows : Z) : MetricsTracker :=
  mkTracker cols rows (replicate (tile_total cols rows) metrics_default).
Definition tracker_resize (cols rows : Z) (_ : MetricsTracker) : MetricsTracker := tracker_new cols rows.
Definition tracker_reset (t : MetricsTracker) : MetricsTracker :=
  mkTracker t.(mt_cols) t.(mt_rows) ((λ _, metrics_default) <$> t.(mt_metrics)).
Definition tracker_idx (t : MetricsTracker) (tile_x tile_y : Z) : nat := Z.to_nat (u32 (tile_y * t.(mt_cols) + tile_x)).

(** [get], and [get_mut] with what the caller does through it. *)
Definition tracker_get {E} (t : MetricsTracker) (tile_x tile_y : Z) : outcome E TileMetrics :=
  _ ← assert_ ((tile_x <? t.(mt_cols)) && (tile_y <? t.(mt_rows)));
  idx t.(mt_metrics) (tracker_idx t tile_x tile_y).
Definition tracker_modify {E} (f : TileMetrics → TileMetrics) (tile_x tile_y : Z) (t : MetricsTracker)
    : outcome E MetricsTracker :=
  m ← tracker_get t tile_x tile_y;
  mret (mkTracker t.(mt_cols) t.(mt_rows) (<[tracker_idx t tile_x tile_y := f m]> t.(mt_metrics))).

(** The marks [record_frame] makes for the dirty tiles. *)
Fixpoint mark_dirty {E} (t : MetricsTracker) (dirty : list (Z * Z)) (marks : list bool) : outcome E (list bool) :=
  match dirty with
  | [] => mret marks
  | (tx, ty) :: dirty =>
      if (tx <? t.(mt_cols)) && (ty <? t.(mt_rows)) then
        _ ← idx marks (tracker_idx t tx ty);
        mark_dirty t dirty (<[tracker_idx t tx ty := true]> marks)
      else mark_dirty t dirty marks
  end.

Definition U32_SAT : Z := 2 ^ 32 - 1.
(** One tile's frame: the moving average of its change rate, and how long it has been idle. *)
Definition record_tile (dirty_now : bool) (m : TileMetrics) : TileMetrics :=
  let target := if dirty_now then f32_of_Z 60 else f32_of_Z 0 in
  mkMetrics (f32_add (f32_mul m.(tm_change_freq_hz) (f32_lit 9 10)) (f32_mul target (f32_lit 1 10)))
    m.(tm_change_magnitude) m.(tm_unique_colors) m.(tm_edge_density)
    (if dirty_now then 0 else Z.min U32_SAT (m.(tm_idle_frames) + 1)) m.(tm_codec_state) m.(tm_already_escalated).
Definition record_frame {E} (dirty : list (Z * Z)) (t : MetricsTracker) : outcome E MetricsTracker :=
  marks ← mark_dirty t dirty (replicate (length t.(mt_metrics)) false);
  mret (mkTracker t.(mt_cols) t.(mt_rows) (zip_with record_tile marks t.(mt_metrics))).

(** *** Escalation *)

Definition IDLE_THRESHOLD : Z := 30.
Definition is_eligible (m : TileMetrics) : bool :=
  if m.(tm_idle_frames) <=? IDLE_THRESHOLD then false
  else if m.(tm_already_escalated) then false
  else match m.(tm_codec_state) with CsH264 _ => true | _ => false end.

Fixpoint candidates_go (k_max : nat) (i : nat) (ms : list TileMetrics) (out : list Z) : list Z :=
  match ms with
  | [] => out
  | m :: ms =>
      if (k_max <=? length out)%nat then out
      else candidates_go k_max (S i) ms (if is_eligible m then out ++ [u32 (Z.of_nat i)] else out)
  end.
Definition detect_escalation_candidates (t : MetricsTracker) (k_max : nat) : list Z :=
  candidates_go k_max 0 t.(mt_metrics) [].

(** *** Classification *)

Definition FULL_PASSES : Z := 0x3FFF.
(** The codecs of a tile whose colours are known to be few, or CDF 5/3. *)
Definition by_colors (m : TileMetrics) : CodecState :=
  let uc_known := negb (m.(tm_unique_colors) =? UNIQUE_COLORS_UNKNOWN) in
  if uc_known && (m.(tm_unique_colors) <=? 1) then CsSolid
  else if uc_known && (m.(tm_unique_colors) <=? 16) then CsPalRle 0
  else CsCdf53 0 FULL_PASSES.

Definition classify_tile (m : TileMetrics) (prev : CodecState) : CodecState :=
  if bool_decide (prev = CsPixelPerfect) && (0 <? m.(tm_idle_frames)) then CsSkip
  else if 0 <? m.(tm_idle_frames) then CsSkip
  else
    let freq := m.(tm_change_freq_hz) in
    let mag := m.(tm_change_magnitude) in
    if f32_lt (f32_of_Z 15) freq && f32_lt (f32_lit 3 10) mag then
      CsH264 (match prev with
              | CsH264 frames => Z.min U32_SAT (frames + 1)
              | CsPalRle _ | CsSolid | CsCdf53 _ _ | CsPixelPerfect | CsSkip => 1
              end)
    else if f32_lt (f32_of_Z 15) freq && f32_le mag (f32_lit 3 10) then by_colors m
    else if f32_le (f32_of_Z 5) freq && f32_le freq (f32_of_Z 15) then
      match prev with
      | CsH264 frames => CsH264 (Z.min U32_SAT (frames + 1))
      | _ => by_colors m
      end
    else by_colors m.

(** *** What a tile's colours allow *)

Definition colors_known (m : TileMetrics) : Prop := m.(tm_unique_colors) ≠ UNIQUE_COLORS_UNKNOWN.
(** Tiles that change fast and by much, or keep changing while in H.264. *)
Definition moving (m : TileMetrics) (prev : CodecState) : bool :=
  (f32_lt (f32_of_Z 15) m.(tm_change_freq_hz) && f32_lt (f32_lit 3 10) m.(tm_change_magnitude))
  || (f32_le (f32_of_Z 5) m.(tm_change_freq_hz) && f32_le m.(tm_change_freq_hz) (f32_of_Z 15)
      && match prev with CsH264 _ => true | _ => false end).
Definition run_length (prev : CodecState) : Z := match prev with CsH264 n => n | _ => 0 end.

(** ** Classification *)

Lemma compare_antisym a b : SFcompare b a = option_map CompOpp (SFcompare a b).
Proof.
  destruct a as [[]|[]| |[] ma ea], b as [[]|[]| |[] mb eb]; try done; cbn [SFcompare option_map];
    rewrite (Z.compare_antisym ea eb); destruct (ea ?= eb) eqn:He; cbn [CompOpp option_map]; try done;
    change Pos.compare_cont with Pos.compare_cont; fold (Pos.compare ma mb); fold (Pos.compare mb ma);
    rewrite (Pos.compare_antisym ma mb); by destruct (ma ?= mb)%positive.
Qed.

Lemma f32_lt_not_le a b : f32_lt a b = true → f32_le b a = false.
Proof.
  unfold f32_lt, f32_le, SFltb, SFleb. rewrite (compare_antisym a b). by destruct (SFcompare a b) as [[]|].
Qed.

Lemma by_colors_fits m :
  match by_colors m with
  | CsSolid => colors_known m ∧ m.(tm_unique_colors) ≤ 1
  | CsPalRle id => id = 0 ∧ colors_known m ∧ 1 < m.(tm_unique_colors) ≤ 16
  | CsCdf53 sent present => sent = 0 ∧ present = FULL_PASSES ∧ (¬ colors_known m ∨ 16 < m.(tm_unique_colors))
  | _ => False
  end.
Proof.
  unfold by_colors, colors_known. destruct (Z.eqb_spec (tm_unique_colors m) UNIQUE_COLORS_UNKNOWN); cbn; [by split_and!; [..|left; intros []]|].
  destruct (Z.leb_spec (tm_unique_colors m) 1); cbn; [done|].
  destruct (Z.leb_spec (tm_unique_colors m) 16); cbn; [done|]. split_and!; auto.
Qed.

(** C28: A tile's codec fits its content.  A tile is skipped exactly when it is idle; it is in
    H.264 exactly when it is moving, and then the counter says for how many frames in a row;
    otherwise its colours decide, when they are known: one colour is a solid tile, two to sixteen a
    palette tile (with the slot still to be allocated), more, or unknown, the
    lossless wavelet.  No other answer is possible, so a palette or solid tile never drops a colour. *)
Theorem tile_codec_fits_content m prev : 0 ≤ m.(tm_idle_frames) →
  match classify_tile m prev with
  | CsSkip => 0 < m.(tm_idle_frames)
  | CsH264 n => m.(tm_idle_frames) = 0 ∧ moving m prev = true ∧ n = Z.min U32_SAT (run_length prev + 1)
  | CsSolid => m.(tm_idle_frames) = 0 ∧ moving m prev = false ∧ colors_known m ∧ m.(tm_unique_colors) ≤ 1
  | CsPalRle id => m.(tm_idle_frames) = 0 ∧ moving m prev = false ∧ id = 0 ∧ colors_known m ∧ 1 < m.(tm_unique_colors) ≤ 16
  | CsCdf53 sent present =>
      m.(tm_idle_frames) = 0 ∧ moving m prev = false ∧ sent = 0 ∧ present = FULL_PASSES ∧
      (¬ colors_known m ∨ 16 < m.(tm_unique_colors))
  | CsPixelPerfect => False
  end.
Proof.
  intros Hi. unfold classify_tile. destruct (Z.ltb_spec 0 (tm_idle_frames m)) as [Hlt|Hge]; rewrite ?andb_false_r, ?andb_true_r.
  { by destruct (bool_decide _). }
  assert (tm_idle_frames m = 0) as H0 by lia.
  pose proof (by_colors_fits m) as Hc. pose proof (f32_lt_not_le (f32_of_Z 15) (tm_change_freq_hz m)) as Hnle.
  assert (moving m prev = false → match by_colors m with
    | CsSkip => 0 < m.(tm_idle_frames)
    | CsH264 n => m.(tm_idle_frames) = 0 ∧ moving m prev = true ∧ n = Z.min U32_SAT (run_length prev + 1)
    | CsSolid => m.(tm_idle_frames) = 0 ∧ moving m prev = false ∧ colors_known m ∧ m.(tm_unique_colors) ≤ 1
    | CsPalRle id => m.(tm_idle_frames) = 0 ∧ moving m prev = false ∧ id = 0 ∧ colors_known m ∧ 1 < m.(tm_unique_colors) ≤ 16
    | CsCdf53 sent present => m.(tm_idle_frames) = 0 ∧ moving m prev = false ∧ sent = 0 ∧ present = FULL_PASSES ∧
        (¬ colors_known m ∨ 16 < m.(tm_unique_colors))
    | CsPixelPerfect => False end) as Hby.
  { intros Hm. destruct (by_colors m); try done; auto. }
  revert Hby. unfold moving.
  destruct (f32_lt (f32_of_Z 15) (tm_change_freq_hz m)) eqn:Hf; cbn [andb].
  - rewrite (Hnle eq_refl), andb_false_r. cbn [orb andb]. clear Hnle.
    destruct (f32_lt (f32_lit 3 10) (tm_change_magnitude m)) eqn:Hm; cbn [orb andb].
    + intros _. repeat split; [done|]. by destruct prev.
    + intros Hby. by destruct (f32_le (tm_change_magnitude m) (f32_lit 3 10)); apply Hby.
  - cbn [orb]. destruct (f32_le (f32_of_Z 5) _ && f32_le _ (f32_of_Z 15)) eqn:Hmid; cbn [andb].
    + destruct prev; try (intros Hby; by apply Hby). by intros _.
    + intros Hby. by apply Hby.
Qed.

Example tile_codec_fits_content_witness :
  let m := mkMetrics (f32_of_Z 40) (f32_lit 1 10) 7 EDGE_DENSITY_UNKNOWN 0 CsSkip false in
  classify_tile m CsSolid = CsPalRle 0 ∧ 1 < m.(tm_unique_colors) ≤ 16.
Proof.
  cbv zeta. split; [by vm_compute|].
  pose proof (tile_codec_fits_content (mkMetrics (f32_of_Z 40) (f32_lit 1 10) 7 EDGE_DENSITY_UNKNOWN 0 CsSkip false) CsSolid ltac:(done)) as H.
  vm_compute in H. destruct H as (_ & _ & _ & _ & H). split; [done|]. vm_compute. done.
Defined.

(** ** Idle time and escalation *)

Definition eligible_at (ms : list TileMetrics) (i : nat) : bool :=
  match ms !! i with Some m => is_eligible m | None => false end.
Definition eligible_tiles (ms : list TileMetrics) : list nat :=
  filter (λ i, eligible_at ms i = true) (seq 0 (length ms)).

Lemma filter_seq_shift (P : nat → bool) i n :
  filter (λ j, P j = true) (seq (S i) n) = S <$> filter (λ j, P (S j) = true) (seq i n).
Proof.
  induction n as [|n IH] in i |- *; [done|]. cbn [seq]. rewrite !filter_cons. rewrite IH.
  by destruct (decide (P (S i) = true)); cbn.
Qed.

Lemma eligible_tiles_cons m ms :
  eligible_tiles (m :: ms) = (if is_eligible m then [0%nat] else []) ++ (S <$> eligible_tiles ms).
Proof.
  unfold eligible_tiles. cbn [length seq]. rewrite filter_cons, filter_seq_shift.
  change (eligible_at (m :: ms) 0) with (is_eligible m).
  destruct (is_eligible m) eqn:?; case_decide; done.
Qed.

Lemma candidates_go_spec k ms i out : (length out ≤ k)%nat →
  candidates_go k i ms out = take k (out ++ ((λ j, u32 (Z.of_nat (i + j))) <$> eligible_tiles ms)).
Proof.
  revert i out. induction ms as [|m ms IH]; intros i out Hk; cbn [candidates_go].
  { by rewrite app_nil_r, take_ge. }
  destruct (Nat.leb_spec k (length out)).
  { by rewrite take_app_le, take_ge by lia. }
  rewrite IH by (destruct (is_eligible m); rewrite ?length_app; cbn; lia).
  rewrite eligible_tiles_cons, fmap_app, <-list_fmap_compose. f_equal.
  assert (((λ j, u32 (Z.of_nat (S i + j))) <$> eligible_tiles ms) =
          (((λ j, u32 (Z.of_nat (i + j))) ∘ S) <$> eligible_tiles ms)) as ->.
  { apply list_fmap_ext. intros ? j _. cbn. do 2 f_equal. lia. }
  destruct (is_eligible m); cbn; [|done]. by rewrite <-app_assoc, Nat.add_0_r.
Qed.

(** *** Sessions: what callers do to a tracker *)

Inductive tracker_event : Type :=
  | TmFrame (dirty : list (Z * Z))
  | TmAssign (tile : Z * Z) (state : CodecState)
  | TmEscalated (tile : Z * Z) (flag : bool)
  | TmReset.

Definition assign_state (st : CodecState) (m : TileMetrics) : TileMetrics :=
  mkMetrics m.(tm_change_freq_hz) m.(tm_change_magnitude) m.(tm_unique_colors) m.(tm_edge_density) m.(tm_idle_frames) st
    m.(tm_already_escalated).
Definition assign_flag (b : bool) (m : TileMetrics) : TileMetrics :=
  mkMetrics m.(tm_change_freq_hz) m.(tm_change_magnitude) m.(tm_unique_colors) m.(tm_edge_density) m.(tm_idle_frames)
    m.(tm_codec_state) b.

Definition tracker_step {E} (ev : tracker_event) (t : MetricsTracker) : outcome E MetricsTracker :=
  match ev with
  | TmFrame dirty => record_frame dirty t
  | TmAssign tile st => tracker_modify (assign_state st) tile.1 tile.2 t
  | TmEscalated tile b => tracker_modify (assign_flag b) tile.1 tile.2 t
  | TmReset => mret (tracker_reset t)
  end.
Fixpoint tracker_run {E} (evs : list tracker_event) (t : MetricsTracker) : outcome E MetricsTracker :=
  match evs with
  | [] => mret t
  | ev :: evs => t ← tracker_step ev t; tracker_run evs t
  end.

(** What one tile is owed: frames since it last changed, its codec, whether it was escalated. *)
Record IdleSpec : Type := mkIdle { is_idle : Z; is_state : CodecState; is_escalated : bool }.
Definition idle_new : IdleSpec := mkIdle 0 CsSkip false.
Definition idle_step (tile : Z * Z) (s : IdleSpec) (ev : tracker_event) : IdleSpec :=
  match ev with
  | TmFrame dirty => mkIdle (if bool_decide (tile ∈ dirty) then 0 else Z.min U32_SAT (s.(is_idle) + 1)) s.(is_state) s.(is_escalated)
  | TmAssign t st => if bool_decide (t = tile) then mkIdle s.(is_idle) st s.(is_escalated) else s
  | TmEscalated t b => if bool_decide (t = tile) then mkIdle s.(is_idle) s.(is_state) b else s
  | TmReset => idle_new
  end.
Definition idle_run (tile : Z * Z) (evs : list tracker_event) : IdleSpec := foldl (idle_step tile) idle_new evs.
Definition idle_due (s : IdleSpec) : Prop :=
  30 < s.(is_idle) ∧ s.(is_escalated) = false ∧ ∃ n, s.(is_state) = CsH264 n.

Record tracker_wf (t : MetricsTracker) : Prop := {
  tw_cols : 0 ≤ t.(mt_cols);
  tw_rows : 0 ≤ t.(mt_rows);
  tw_area : t.(mt_cols) * t.(mt_rows) < 2 ^ 32;
  tw_len : length t.(mt_metrics) = Z.to_nat (t.(mt_cols) * t.(mt_rows));
}.
Definition tile_inside (t : MetricsTracker) (tile : Z * Z) : Prop :=
  0 ≤ tile.1 < t.(mt_cols) ∧ 0 ≤ tile.2 < t.(mt_rows).
Definition tiles_u32 (dirty : list (Z * Z)) : Prop := Forall (λ t, 0 ≤ t.1 ∧ 0 ≤ t.2) dirty.

Lemma tracker_new_wf cols rows : 0 ≤ cols → 0 ≤ rows → cols * rows < 2 ^ 32 → tracker_wf (tracker_new cols rows).
Proof.
  intros. constructor; cbn; [done..|]. rewrite length_replicate. unfold tile_total, wrap.
  rewrite Z.mod_small; [done|]. split; [by apply Z.mul_nonneg_nonneg|done].
Qed.

Lemma tracker_idx_inside t tile : tracker_wf t → tile_inside t tile →
  tracker_idx t tile.1 tile.2 = Z.to_nat (tile.2 * t.(mt_cols) + tile.1) ∧
  (tracker_idx t tile.1 tile.2 < length t.(mt_metrics))%nat.
Proof.
  intros [? ? ? Hl] [? ?]. rewrite Hl. unfold tracker_idx, wrap.
  assert (tile.2 * mt_cols t + tile.1 < mt_cols t * mt_rows t) by nia.
  assert (0 ≤ tile.2 * mt_cols t + tile.1) by nia.
  rewrite Z.mod_small by lia. split; [done|lia].
Qed.

Lemma tracker_idx_inj t a b : tracker_wf t → tile_inside t a → tile_inside t b →
  tracker_idx t a.1 a.2 = tracker_idx t b.1 b.2 → a = b.
Proof.
  intros Hw Ha Hb Heq. destruct (tracker_idx_inside t a Hw Ha) as [Ea _], (tracker_idx_inside t b Hw Hb) as [Eb _].
  destruct Ha as [? ?], Hb as [? ?], a as [ax ay], b as [bx by_]; cbn [fst snd] in *.
  assert (ay * mt_cols t + ax = by_ * mt_cols t + bx) as Hz by nia.
  assert (ay = by_) by nia. f_equal; nia.
Qed.

Lemma mark_dirty_spec {E} t dirty marks : tracker_wf t → tiles_u32 dirty → length marks = length t.(mt_metrics) →
  ∃ marks', mark_dirty (E:=E) t dirty marks = Ok marks' ∧ length marks' = length marks ∧
    ∀ tile, tile_inside t tile → marks' !! tracker_idx t tile.1 tile.2 =
      (λ b : bool, b || bool_decide (tile ∈ dirty)) <$> marks !! tracker_idx t tile.1 tile.2.
Proof.
  intros Hw. revert marks. induction dirty as [|[tx ty] dirty IH]; intros marks Hd Hl; cbn [mark_dirty].
  { exists marks. split; [done|]. split; [done|]. intros tile _. rewrite bool_decide_false by apply not_elem_of_nil.
    destruct (marks !! _) as [[]|]; done. }
  apply Forall_cons in Hd as [[Hx Hy] Hd]. cbn [fst snd] in *.
  destruct (Z.ltb_spec tx (mt_cols t)), (Z.ltb_spec ty (mt_rows t)); cbn [andb].
  2-4: destruct (IH marks Hd Hl) as (m' & -> & Hl' & Hm'); exists m'; split; [done|]; split; [done|];
    intros tile Ht; rewrite (Hm' _ Ht); f_equal; apply functional_extensionality; intros b; f_equal;
    apply bool_decide_ext; rewrite elem_of_cons; destruct Ht as [? ?];
    (split; [auto|]; intros [->|?]; [cbn [fst snd] in *; lia|done]).
  assert (tile_inside t (tx, ty)) as Hin by (split; cbn; lia).
  destruct (tracker_idx_inside t (tx, ty) Hw Hin) as [_ Hlt]. cbn [fst snd] in Hlt.
  unfold idx at 1. destruct (lookup_lt_is_Some_2 marks (tracker_idx t tx ty)) as [b0 Hb0]; [lia|]. rewrite Hb0. cbn.
  destruct (IH (<[tracker_idx t tx ty:=true]> marks) Hd) as (m' & -> & Hl' & Hm'); [by rewrite length_insert|].
  exists m'. split; [done|]. rewrite length_insert in Hl'. split; [done|].
  intros tile Ht. rewrite (Hm' _ Ht). destruct (decide (tile = (tx, ty))) as [->|Hne]; cbn [fst snd].
  - rewrite list_lookup_insert_eq by lia. rewrite Hb0. cbn.
    rewrite (bool_decide_true (_ ∈ _ :: _)) by set_solver. by rewrite orb_true_r.
  - rewrite list_lookup_insert_ne by (intros He; apply Hne; by apply (tracker_idx_inj t)).
    f_equal. apply functional_extensionality; intros c; f_equal; apply bool_decide_ext. set_solver.
Qed.

Definition meets_idle (m : TileMetrics) (s : IdleSpec) : Prop :=
  m.(tm_idle_frames) = s.(is_idle) ∧ m.(tm_codec_state) = s.(is_state) ∧ m.(tm_already_escalated) = s.(is_escalated).

Definition event_inside (cols rows : Z) (ev : tracker_event) : Prop :=
  match ev with
  | TmFrame dirty => tiles_u32 dirty
  | TmAssign t _ | TmEscalated t _ => 0 ≤ t.1 < cols ∧ 0 ≤ t.2 < rows
  | TmReset => True
  end.

(** Every tile of the grid meets its specification. *)
Definition tracker_meets (spec : Z * Z → IdleSpec) (t : MetricsTracker) : Prop :=
  ∀ tile, tile_inside t tile → ∃ m, t.(mt_metrics) !! tracker_idx t tile.1 tile.2 = Some m ∧ meets_idle m (spec tile).

Definition same_grid (t t' : MetricsTracker) : Prop :=
  t'.(mt_cols) = t.(mt_cols) ∧ t'.(mt_rows) = t.(mt_rows) ∧ length t'.(mt_metrics) = length t.(mt_metrics).
Lemma same_grid_wf t t' : same_grid t t' → tracker_wf t → tracker_wf t'.
Proof. intros (Hc & Hr & Hl) []. constructor; rewrite ?Hc, ?Hr, ?Hl; done. Qed.

Lemma tracker_modify_spec {E} f tile t : tracker_wf t → tile_inside t tile →
  ∃ m, t.(mt_metrics) !! tracker_idx t tile.1 tile.2 = Some m ∧
    tracker_modify (E:=E) f tile.1 tile.2 t =
      Ok (mkTracker t.(mt_cols) t.(mt_rows) (<[tracker_idx t tile.1 tile.2 := f m]> t.(mt_metrics))).
Proof.
  intros Hw Hin. destruct (tracker_idx_inside t tile Hw Hin) as [_ Hlt].
  destruct (lookup_lt_is_Some_2 _ _ Hlt) as [m Hm]. exists m. split; [done|].
  unfold tracker_modify, tracker_get, idx. destruct Hin as [[_ Hx] [_ Hy]].
  apply Z.ltb_lt in Hx as ->. apply Z.ltb_lt in Hy as ->. cbn. by rewrite Hm.
Qed.

Lemma tracker_modify_meets {E} f g tile spec t : tracker_wf t → tile_inside t tile → tracker_meets spec t →
  (∀ m s, meets_idle m s → meets_idle (f m) (g s)) →
  ∃ t', tracker_modify (E:=E) f tile.1 tile.2 t = Ok t' ∧ same_grid t t' ∧
    tracker_meets (λ x, if bool_decide (tile = x) then g (spec x) else spec x) t'.
Proof.
  intros Hw Hin Hm Hf. destruct (tracker_modify_spec (E:=E) f tile t Hw Hin) as (m & Hm0 & ->).
  eexists. split; [done|]. split. { split; [done|]. split; [done|]. cbn. by rewrite length_insert. }
  intros x Hx. cbn [mt_metrics]. change (tile_inside _ x) with (tile_inside t x) in Hx.
  change (tracker_idx (mkTracker _ _ _) x.1 x.2) with (tracker_idx t x.1 x.2).
  destruct (Hm x Hx) as (mx & Hmx & Hme). case_bool_decide as Heq.
  - subst x. rewrite list_lookup_insert_eq by (by eapply lookup_lt_Some). exists (f m). split; [done|].
    rewrite Hm0 in Hmx. simplify_eq. auto.
  - rewrite list_lookup_insert_ne by (intros ?; apply Heq; by apply (tracker_idx_inj t)). by exists mx.
Qed.

Lemma record_frame_meets {E} dirty spec t : tracker_wf t → tiles_u32 dirty → tracker_meets spec t →
  ∃ t', record_frame (E:=E) dirty t = Ok t' ∧ same_grid t t' ∧ tracker_meets (λ x, idle_step x (spec x) (TmFrame dirty)) t'.
Proof.
  intros Hw Hd Hm. unfold record_frame.
  destruct (mark_dirty_spec (E:=E) t dirty (replicate (length (mt_metrics t)) false) Hw Hd) as (marks & -> & Hl & Hmk).
  { by rewrite length_replicate. }
  rewrite length_replicate in Hl. cbn. eexists. split; [done|]. split.
  { split; [done|]. split; [done|]. cbn. rewrite length_zip_with. lia. }
  intros x Hx. cbn [mt_metrics]. change (tile_inside _ x) with (tile_inside t x) in Hx.
  change (tracker_idx (mkTracker _ _ _) x.1 x.2) with (tracker_idx t x.1 x.2).
  destruct (Hm x Hx) as (m & Hmx & Hi & Hs & He). rewrite lookup_zip_with, (Hmk x Hx), Hmx.
  rewrite lookup_replicate_2 by (by eapply lookup_lt_Some). cbn.
  eexists. split; [done|]. unfold meets_idle. cbn. rewrite Hi. by case_bool_decide.
Qed.

Lemma tracker_reset_meets t : tracker_wf t → same_grid t (tracker_reset t) ∧ tracker_meets (λ _, idle_new) (tracker_reset t).
Proof.
  intros Hw. split. { split; [done|]. split; [done|]. cbn. by rewrite length_fmap. }
  intros x Hx. change (tile_inside _ x) with (tile_inside t x) in Hx. cbn [mt_metrics tracker_reset].
  change (tracker_idx (tracker_reset t) x.1 x.2) with (tracker_idx t x.1 x.2).
  destruct (tracker_idx_inside t x Hw Hx) as [_ Hlt]. destruct (lookup_lt_is_Some_2 _ _ Hlt) as [m Hm].
  rewrite list_lookup_fmap, Hm. by exists metrics_default.
Qed.

Lemma tracker_step_meets {E} ev spec t : tracker_wf t → event_inside t.(mt_cols) t.(mt_rows) ev → tracker_meets spec t →
  ∃ t', tracker_step (E:=E) ev t = Ok t' ∧ same_grid t t' ∧ tracker_meets (λ x, idle_step x (spec x) ev) t'.
Proof.
  intros Hw Hev Hm. destruct ev as [dirty|tile st|tile b|]; cbn [tracker_step event_inside idle_step] in *.
  - by apply record_frame_meets.
  - apply (tracker_modify_meets _ (λ s, mkIdle s.(is_idle) st s.(is_escalated))); [done..|]. by intros m s (? & ? & ?).
  - apply (tracker_modify_meets _ (λ s, mkIdle s.(is_idle) s.(is_state) b)); [done..|]. by intros m s (? & ? & ?).
  - exists (tracker_reset t). split; [done|]. by apply tracker_reset_meets.
Qed.

Lemma tracker_run_meets {E} evs spec t : tracker_wf t → Forall (event_inside t.(mt_cols) t.(mt_rows)) evs → tracker_meets spec t →
  ∃ t', tracker_run (E:=E) evs t = Ok t' ∧ same_grid t t' ∧ tracker_meets (λ x, foldl (idle_step x) (spec x) evs) t'.
Proof.
  induction evs as [|ev evs IH] in spec, t |- *; intros Hw Hevs Hm; cbn [tracker_run foldl].
  { by exists t. }
  apply Forall_cons in Hevs as [Hev Hevs].
  destruct (tracker_step_meets (E:=E) ev spec t Hw Hev Hm) as (t1 & -> & Hg & Hm1). cbn.
  pose proof Hg as (Hc & Hr & Hl).
  rewrite <-Hc, <-Hr in Hevs.
  destruct (IH (λ x, idle_step x (spec x) ev) t1 (same_grid_wf _ _ Hg Hw) Hevs Hm1) as (t2 & -> & (Hc2 & Hr2 & Hl2) & Hm2).
  exists t2. split; [done|]. split; [|done]. unfold same_grid. by rewrite Hc2, Hr2, Hl2.
Qed.

Lemma eligible_due t spec tile : tracker_wf t → tile_inside t tile →
  (∃ m, t.(mt_metrics) !! tracker_idx t tile.1 tile.2 = Some m ∧ meets_idle m spec) →
  eligible_at t.(mt_metrics) (tracker_idx t tile.1 tile.2) = true ↔ idle_due spec.
Proof.
  intros _ _ (m & Hm & Hi & Hs & He). unfold eligible_at, is_eligible, idle_due. rewrite Hm, Hi, Hs, He.
  change IDLE_THRESHOLD with 30. destruct (Z.leb_spec (is_idle spec) 30); [split; [done|lia]|].
  destruct (is_escalated spec); [split; [done|by intros (_ & ? & _)]|].
  destruct (is_state spec); split; try done; try (by intros (_ & _ & ? & ?)). eauto.
Qed.

Lemma sorted_seq i n : StronglySorted lt (seq i n).
Proof.
  induction n as [|n IH] in i |- *; constructor; [apply IH|]. apply Forall_forall. intros j Hj%elem_of_seq. lia.
Qed.
Lemma increasing_filter {A} (R : A → A → Prop) (P : A → Prop) `{!∀ x, Decision (P x)} l :
  StronglySorted R l → StronglySorted R (filter P l).
Proof.
  induction 1 as [|x l Hl IH Hx]; [constructor|]. rewrite filter_cons. case_decide; [|done].
  constructor; [done|]. rewrite Forall_forall in *. intros y [_ Hy]%list_elem_of_filter. by apply Hx.
Qed.
Lemma sorted_fmap_mono {A B} (R : A → A → Prop) (R' : B → B → Prop) (f : A → B) l :
  (∀ x y, x ∈ l → y ∈ l → R x y → R' (f x) (f y)) → StronglySorted R l → StronglySorted R' (f <$> l).
Proof.
  intros Hf Hl. induction Hl as [|x l Hl IH Hx]; cbn; constructor.
  - apply IH. intros ????. by apply Hf; right.
  - apply Forall_fmap, Forall_forall. intros y Hy. apply Hf; [by left|by right|]. rewrite Forall_forall in Hx. by apply Hx.
Qed.

(** Idle H.264 tiles are escalated once, oldest position first.  After any session on a new tracker, a
    tile is a candidate for lossless refinement exactly when it has been idle for more than 30
    frames, its codec is still H.264 and it has not been escalated; the sweep
    returns the first [k] of them in row-major order, and nothing else. *)
Theorem escalation_sweep_exact {E} cols rows evs k : 0 ≤ cols → 0 ≤ rows → cols * rows < 2 ^ 32 →
  Forall (event_inside cols rows) evs →
  ∃ t due, tracker_run (E:=E) evs (tracker_new cols rows) = Ok t ∧
    detect_escalation_candidates t k = take k ((λ tile, tile.2 * cols + tile.1) <$> due) ∧
    StronglySorted (λ a b, a.2 * cols + a.1 < b.2 * cols + b.1) due ∧
    (∀ tile, tile ∈ due ↔ 0 ≤ tile.1 < cols ∧ 0 ≤ tile.2 < rows ∧ idle_due (idle_run tile evs)).
Proof.
  intros Hc Hr Ha Hevs. pose proof (tracker_new_wf cols rows Hc Hr Ha) as Hw.
  destruct (tracker_run_meets (E:=E) evs (λ _, idle_new) (tracker_new cols rows) Hw) as (t & Ht & Hg & Hm).
  { done. }
  { intros x Hx. destruct (tracker_idx_inside _ x Hw Hx) as [_ Hlt]. destruct (lookup_lt_is_Some_2 _ _ Hlt) as [m Hmm].
    exists m. split; [done|]. cbn in Hmm. apply lookup_replicate in Hmm as [-> _]. done. }
  pose proof (same_grid_wf _ _ Hg Hw) as Hwt. destruct Hg as (Hct & Hrt & Hlt). cbn in Hct, Hrt.
  set (tile_of := λ i : nat, (Z.of_nat i mod cols, Z.of_nat i / cols)).
  exists t, (tile_of <$> eligible_tiles t.(mt_metrics)). split; [done|].
  assert (∀ i, i ∈ eligible_tiles t.(mt_metrics) → 0 < cols ∧ (i < length t.(mt_metrics))%nat ∧ Z.of_nat i < cols * rows) as Hbound.
  { intros i Hi. apply list_elem_of_filter in Hi as [_ Hi]. apply elem_of_seq in Hi as [_ Hi]. cbn in Hi.
    rewrite (tw_len t Hwt), Hct, Hrt in Hi. pose proof (tw_len t Hwt) as Hl. rewrite Hct, Hrt in Hl. nia. }
  assert (∀ i, 0 < cols → (tile_of i).2 * cols + (tile_of i).1 = Z.of_nat i) as Hround.
  { intros i Hpos. unfold tile_of. cbn [fst snd]. pose proof (Z.div_mod (Z.of_nat i) cols). lia. }
  split; [|split].
  - unfold detect_escalation_candidates. rewrite candidates_go_spec by (cbn; lia). cbn [app]. f_equal.
    rewrite <-list_fmap_compose. apply list_fmap_ext. intros j i Hi. apply list_elem_of_lookup_2 in Hi.
    destruct (Hbound i Hi) as (? & ? & ?). cbn [Nat.add compose]. rewrite Hround by done.
    unfold wrap. rewrite Z.mod_small; [done|lia].
  - apply (sorted_fmap_mono (λ i j : nat, (i < j)%nat)); [|apply increasing_filter, sorted_seq].
    intros i j Hi Hj Hij. destruct (Hbound i Hi) as (? & _), (Hbound j Hj) as (? & _). rewrite !Hround by done. lia.
  - intros tile. rewrite list_elem_of_fmap. split.
    + intros (i & -> & Hi). pose proof (Hbound i Hi) as (Hpos & Hlt' & Hlz).
      assert (tile_inside t (tile_of i)) as Hin.
      { unfold tile_inside, tile_of. cbn [fst snd]. rewrite Hct, Hrt. pose proof (Z.mod_pos_bound (Z.of_nat i) cols).
        split; [lia|]. split; [apply Z.div_pos; lia|]. apply Z.div_lt_upper_bound; lia. }
      pose proof Hin as [Hx Hy]. rewrite Hct in Hx. rewrite Hrt in Hy. split; [done|]. split; [done|].
      apply (eligible_due t _ _ Hwt Hin (Hm _ Hin)). destruct (tracker_idx_inside t _ Hwt Hin) as [-> _].
      rewrite Hct, Hround, Nat2Z.id by done. by apply list_elem_of_filter in Hi as [? _].
    + intros (Hx & Hy & Hdue).
      assert (tile_inside t tile) as Hin by (unfold tile_inside; by rewrite Hct, Hrt).
      apply (eligible_due t _ _ Hwt Hin (Hm _ Hin)) in Hdue. destruct (tracker_idx_inside t _ Hwt Hin) as [Hidx Hl].
      exists (tracker_idx t tile.1 tile.2). split.
      * rewrite Hidx, Hct. unfold tile_of. destruct tile as [x y]; cbn [fst snd] in *. rewrite Z2Nat.id by nia.
        rewrite Z.add_comm, Z.mod_add, Z.div_add, Z.mod_small, Z.div_small by lia. f_equal; lia.
      * apply list_elem_of_filter. split; [done|]. apply elem_of_seq. cbn. lia.
Qed.

Example escalation_sweep_exact_witness :
  let evs := [TmAssign (1, 0) (CsH264 3); TmAssign (0, 1) (CsH264 9); TmAssign (1, 1) (CsH264 1); TmEscalated (1, 1) true] ++
             replicate 20 (TmFrame []) ++ [TmFrame [(0, 1); (9, 9)]] ++ replicate 11 (TmFrame []) in
  ∃ t (due : list (Z * Z)), tracker_run (E:=Empty_set) evs (tracker_new 2 2) = Ok t ∧ ((1, 0) ∈ due) ∧ ¬ ((0, 1) ∈ due) ∧ ¬ ((1, 1) ∈ due).
Proof.
  cbv zeta.
  assert (Forall (event_inside 2 2) ([TmAssign (1, 0) (CsH264 3); TmAssign (0, 1) (CsH264 9); TmAssign (1, 1) (CsH264 1); TmEscalated (1, 1) true] ++
             replicate 20 (TmFrame []) ++ [TmFrame [(0, 1); (9, 9)]] ++ replicate 11 (TmFrame []))) as Hok.
  { repeat constructor; cbn; lia. }
  destruct (escalation_sweep_exact (E:=Empty_set) 2 2 _ 5 ltac:(lia) ltac:(lia) ltac:(lia) Hok) as (t & due & Ht & _ & _ & Hd).
  exists t, due. split; [exact Ht|]. split; [|split].
  - apply Hd. split; [cbn; lia|]. split; [cbn; lia|]. split; [by vm_compute|]. split; [by vm_compute|]. by exists 3.
  - intros (_ & _ & H & _)%Hd. vm_compute in H. discriminate.
  - intros (_ & _ & _ & H & _)%Hd. vm_compute in H. discriminate.
Defined.
