(* ===== verification/DirtyTiles.v ===== *)
(** * Tiles of a frame, and which of them changed

    The server's [tile/mod.rs]: the grid of 32x32 tiles of a frame, the extraction of
    one tile's pixels (zero-padded at the edges), and the tracker that compares each
    tile with the content it last committed to.

    The theorems: an extracted tile is the picture under it; the shortcut for solid
    tiles reads the same pixel; and a viewer who repaints the tiles each update reports
    always holds the frame just captured. *)

From Stdlib Require Import ZArith Lia.
From S2P Require Import Prelude TileOut.
From stdpp Require Import base option numbers list sets gmap.

Local Open Scope Z_scope.

(** ** Definitions *)

Definition BPP : Z := 4.
Definition SIDE : Z := Z.of_nat TILE_SIZE.

Record TileGrid : Type := mkGrid { gr_width : Z; gr_height : Z; gr_cols : Z; gr_rows : Z }.

(** [width.div_ceil(TILE_SIZE)] *)
Definition tiles_across (size : Z) : Z := (size + SIDE - 1) / SIDE.
Definition grid_new (width height : Z) : TileGrid := mkGrid width height (tiles_across width) (tiles_across height).
Definition tile_count (g : TileGrid) : Z := u32 (g.(gr_cols) * g.(gr_rows)).

(** [dst[at..at + src.len()].copy_from_slice(src)] *)
Definition copy_into {E} (src : list Z) (at_ : nat) (dst : list Z) : outcome E (list Z) :=
  _ ← assert_ (at_ + length src <=? length dst)%nat;
  mret (take at_ dst ++ src ++ drop (at_ + length src) dst).

(** Where a tile starts, and how much of it the frame covers. *)
Definition origin (tile : Z) : Z := u32 (tile * SIDE).
Definition covered (size tile : Z) : Z := Z.min SIDE (sat_sub size (origin tile)).
Definition src_offset (stride tile_x tile_y row : Z) : nat :=
  Z.to_nat (u32 ((origin tile_y + row) * stride + origin tile_x * BPP)).

Fixpoint extract_rows {E} (pixels : list Z) (stride tile_x tile_y copy_w : Z) (rows : list nat) (out : list Z)
    : outcome E (list Z) :=
  match rows with
  | [] => mret out
  | row :: rows =>
      let src := src_offset stride tile_x tile_y (Z.of_nat row) in
      let row_bytes := Z.to_nat (copy_w * BPP) in
      if (src + row_bytes <=? length pixels)%nat then
        bytes ← slice pixels src (src + row_bytes);
        out ← copy_into bytes (row * TILE_ROW_BYTES) out;
        extract_rows pixels stride tile_x tile_y copy_w rows out
      else extract_rows pixels stride tile_x tile_y copy_w rows out
  end.
Definition extract_tile {E} (g : TileGrid) (pixels : list Z) (stride tile_x tile_y : Z) : outcome E (list Z) :=
  extract_rows pixels stride tile_x tile_y (covered g.(gr_width) tile_x)
    (seq 0 (Z.to_nat (covered g.(gr_height) tile_y))) (replicate TILE_BYTES 0).

Definition first_pixel {E} (g : TileGrid) (pixels : list Z) (stride tile_x tile_y : Z) : outcome E (list Z) :=
  let copy_w := covered g.(gr_width) tile_x in
  let copy_h := covered g.(gr_height) tile_y in
  let offset := src_offset stride tile_x tile_y 0 in
  if (copy_w =? 0) || (copy_h =? 0) || (length pixels <? offset + Z.to_nat (copy_w * BPP))%nat
  then mret [0; 0; 0; 0]
  else
    a ← idx pixels offset; b ← idx pixels (offset + 1); c ← idx pixels (offset + 2); d ← idx pixels (offset + 3);
    mret [a; b; c; d].

(** Row-major. *)
Definition iter_coords (g : TileGrid) : list (Z * Z) :=
  row ← Z.of_nat <$> seq 0 (Z.to_nat g.(gr_rows)); (λ col, (Z.of_nat col, row)) <$> seq 0 (Z.to_nat g.(gr_cols)).

(** *** The tracker *)

Record DirtyTracker : Type := mkDirty { dt_cols : Z; dt_rows : Z; dt_prev_tiles : list Z; dt_committed : bool }.
Definition dirty_new (cols rows : Z) : DirtyTracker := mkDirty cols rows [] false.
Definition dirty_resize (cols rows : Z) (_ : DirtyTracker) : DirtyTracker := mkDirty cols rows [] false.
Definition dirty_reset (t : DirtyTracker) : DirtyTracker := mkDirty t.(dt_cols) t.(dt_rows) [] false.

(** A captured frame, as the callers pass it. *)
Record Frame : Type := mkFrame { fm_pixels : list Z; fm_stride : Z; fm_width : Z; fm_height : Z }.
Definition frame_grid (f : Frame) : TileGrid := grid_new f.(fm_width) f.(fm_height).
Definition tile_of {E} (f : Frame) (t : Z * Z) : outcome E (list Z) :=
  extract_tile (frame_grid f) f.(fm_pixels) f.(fm_stride) t.1 t.2.

(** The loop of [update_inner] and [update_with_hints_inner] over the tiles to look at. *)
Fixpoint compare_tiles {E} (f : Frame) (cols : Z) (first_frame commit : bool) (tiles : list (Z * Z)) (prev : list Z)
    (dirty : list (Z * Z)) : outcome E (list Z * list (Z * Z)) :=
  match tiles with
  | [] => mret (prev, dirty)
  | t :: tiles =>
      let i := Z.to_nat (u32 (t.2 * cols + t.1)) in
      current ← tile_of f t;
      before ← slice prev (i * TILE_BYTES) ((i + 1) * TILE_BYTES);
      if first_frame || negb (bool_decide (before = current)) then
        prev ← (if commit then copy_into current (i * TILE_BYTES) prev else mret prev);
        compare_tiles f cols first_frame commit tiles prev (dirty ++ [t])
      else compare_tiles f cols first_frame commit tiles prev dirty
  end.

(** The start of both: follow the grid, and lay out the buffer on the first frame. *)
Definition follow_grid (f : Frame) (t : DirtyTracker) : DirtyTracker :=
  let g := frame_grid f in
  if (g.(gr_cols) =? t.(dt_cols)) && (g.(gr_rows) =? t.(dt_rows)) then t else dirty_resize g.(gr_cols) g.(gr_rows) t.
Definition is_first (t : DirtyTracker) : bool := bool_decide (t.(dt_prev_tiles) = []).
Definition lay_out (t : DirtyTracker) : list Z :=
  if is_first t then replicate (Z.to_nat (u32 (t.(dt_cols) * t.(dt_rows))) * TILE_BYTES) 0 else t.(dt_prev_tiles).

Definition look_at {E} (f : Frame) (commit : bool) (tiles : DirtyTracker → list (Z * Z)) (t : DirtyTracker)
    : outcome E (DirtyTracker * list (Z * Z)) :=
  let t := follow_grid f t in
  '(prev, dirty) ← compare_tiles f t.(dt_cols) (is_first t) commit (tiles t) (lay_out t) [];
  mret (mkDirty t.(dt_cols) t.(dt_rows) prev (t.(dt_committed) || commit), dirty).

Definition update_inner {E} (commit : bool) (f : Frame) (t : DirtyTracker) : outcome E (DirtyTracker * list (Z * Z)) :=
  look_at f commit (λ _, iter_coords (frame_grid f)) t.
Definition update {E} (f : Frame) (t : DirtyTracker) := update_inner (E:=E) true f t.
Definition update_no_commit {E} (f : Frame) (t : DirtyTracker) := update_inner (E:=E) false f t.
Definition update_with_hints {E} (f : Frame) (hints : list (Z * Z)) (t : DirtyTracker)
    : outcome E (DirtyTracker * list (Z * Z)) :=
  look_at f true (λ t, filter (λ h, (h.1 <? t.(dt_cols)) && (h.2 <? t.(dt_rows)) = true) hints) t.

(** *** What a tile holds *)

(** Byte [j] of a tile: byte [b] of its row [y], where the frame has it, and zero elsewhere. *)
Definition row_fits (f : Frame) (t : Z * Z) (y : nat) : bool :=
  (y <? Z.to_nat (covered f.(fm_height) t.2))%nat &&
  (src_offset f.(fm_stride) t.1 t.2 (Z.of_nat y) + Z.to_nat (covered f.(fm_width) t.1 * BPP) <=? length f.(fm_pixels))%nat.
Definition tile_byte (f : Frame) (t : Z * Z) (j : nat) : Z :=
  let y := (j / TILE_ROW_BYTES)%nat in
  let b := (j mod TILE_ROW_BYTES)%nat in
  if row_fits f t y && (b <? Z.to_nat (covered f.(fm_width) t.1 * BPP))%nat
  then default 0 (f.(fm_pixels) !! (src_offset f.(fm_stride) t.1 t.2 (Z.of_nat y) + b)%nat)
  else 0.
Definition tile_view (f : Frame) (t : Z * Z) : list Z := tile_byte f t <$> seq 0 TILE_BYTES.

(** The reference a tracker holds for the tile at index [i]. *)
Definition ref_at (prev : list Z) (i : nat) : list Z := take TILE_BYTES (drop (i * TILE_BYTES) prev).

(** A viewer repaints the tiles an update reports. *)
Definition paint (f : Frame) (dirty : list (Z * Z)) (canvas : gmap (Z * Z) (list Z)) : gmap (Z * Z) (list Z) :=
  foldl (λ c t, <[t := tile_view f t]> c) canvas dirty.

(** One committing update: of the whole frame, or of the tiles the capture hints at. *)
Inductive look : Type := LkFull (f : Frame) | LkHints (f : Frame) (hints : list (Z * Z)).
Definition look_frame (l : look) : Frame := match l with LkFull f | LkHints f _ => f end.
Definition look_step {E : Type} (l : look) (t : DirtyTracker) : outcome E (DirtyTracker * list (Z * Z)) :=
  match l with LkFull f => update f t | LkHints f hints => update_with_hints f hints t end.
Fixpoint watch {E : Type} (ls : list look) (t : DirtyTracker) (canvas : gmap (Z * Z) (list Z))
    : outcome E (DirtyTracker * gmap (Z * Z) (list Z)) :=
  match ls with
  | [] => mret (t, canvas)
  | l :: ls => '(t, dirty) ← look_step (E:=E) l t; watch ls t (paint (look_frame l) dirty canvas)
  end.

Definition in_frame (f : Frame) (t : Z * Z) : Prop :=
  0 ≤ t.1 < tiles_across f.(fm_width) ∧ 0 ≤ t.2 < tiles_across f.(fm_height).
Definition frame_ok (f : Frame) : Prop :=
  0 ≤ f.(fm_width) ∧ 0 ≤ f.(fm_height) ∧ tiles_across f.(fm_width) * tiles_across f.(fm_height) < 2 ^ 32.
Definition same_dims (f g : Frame) : Prop :=
  tiles_across f.(fm_width) = tiles_across g.(fm_width) ∧ tiles_across f.(fm_height) = tiles_across g.(fm_height).

(** Hints name every tile that changed since the frame before, and every tile when there is none. *)
Definition hints_cover (before : option Frame) (l : look) : Prop :=
  match l with
  | LkFull _ => True
  | LkHints f hints => Forall (λ t, 0 ≤ t.1 ∧ 0 ≤ t.2) hints ∧
      ∀ t, in_frame f t → t ∈ hints ∨ ∃ f0, before = Some f0 ∧ same_dims f0 f ∧ tile_view f0 t = tile_view f t
  end.
Fixpoint looks_ok (before : option Frame) (ls : list look) : Prop :=
  match ls with
  | [] => True
  | l :: ls => frame_ok (look_frame l) ∧ hints_cover before l ∧ looks_ok (Some (look_frame l)) ls
  end.

(** ** Extraction *)

Lemma copy_into_ok {E} src i dst : (i + length src ≤ length dst)%nat →
  ∃ out, copy_into (E:=E) src i dst = Ok out ∧ length out = length dst ∧
    (∀ j, (j < i)%nat → out !! j = dst !! j) ∧
    (∀ j, (j < length src)%nat → out !! (i + j)%nat = src !! j) ∧
    (∀ j, (i + length src ≤ j)%nat → out !! j = dst !! j).
Proof.
  intros Hfit. unfold copy_into. apply Nat.leb_le in Hfit as Hb. rewrite Hb. cbn.
  eexists. split; [done|]. rewrite !length_app, length_take, length_drop. split; [lia|].
  split; [|split]; intros j Hj.
  - rewrite lookup_app_l by (rewrite length_take; lia). by rewrite lookup_take_lt.
  - rewrite lookup_app_r by (rewrite length_take; lia). rewrite length_take, lookup_app_l by lia. f_equal. lia.
  - rewrite lookup_app_r by (rewrite length_take; lia). rewrite length_take, lookup_app_r by lia.
    rewrite lookup_drop. f_equal. lia.
Qed.

Lemma covered_range size t : 0 ≤ covered size t ≤ SIDE.
Proof. unfold covered, sat_sub, SIDE. lia. Qed.
Lemma row_bytes_le size t : (Z.to_nat (covered size t * BPP) ≤ TILE_ROW_BYTES)%nat.
Proof. pose proof (covered_range size t). unfold SIDE, TILE_ROW_BYTES, BPP in *. lia. Qed.
Lemma tile_bytes_eq : TILE_BYTES = (TILE_SIZE * TILE_ROW_BYTES)%nat.
Proof. unfold TILE_BYTES. lia. Qed.
Lemma length_tile_view f t : length (tile_view f t) = TILE_BYTES.
Proof. unfold tile_view. by rewrite length_fmap, length_seq. Qed.

Lemma row_bytes_eq : TILE_ROW_BYTES = (4 * TILE_SIZE)%nat.
Proof. unfold TILE_ROW_BYTES. lia. Qed.
Lemma row_bytes_pos : (4 ≤ TILE_ROW_BYTES)%nat.
Proof. unfold TILE_ROW_BYTES, TILE_SIZE. lia. Qed.
#[local] Opaque TILE_ROW_BYTES TILE_BYTES.

Lemma leb_S_ne k y : y ≠ k → (S k <=? y)%nat = (k <=? y)%nat.
Proof. intros. destruct (Nat.leb_spec (S k) y), (Nat.leb_spec k y); [done|lia|lia|done]. Qed.

Lemma extract_rows_spec {E} f t k n out : (k + n ≤ Z.to_nat (covered f.(fm_height) t.2))%nat → length out = TILE_BYTES →
  ∃ out', extract_rows (E:=E) f.(fm_pixels) f.(fm_stride) t.1 t.2 (covered f.(fm_width) t.1) (seq k n) out = Ok out' ∧
    length out' = TILE_BYTES ∧
    ∀ j, (j < TILE_BYTES)%nat → out' !! j =
      if (k <=? j / TILE_ROW_BYTES)%nat && (j / TILE_ROW_BYTES <? k + n)%nat && row_fits f t (j / TILE_ROW_BYTES)
         && (j mod TILE_ROW_BYTES <? Z.to_nat (covered f.(fm_width) t.1 * BPP))%nat
      then Some (tile_byte f t j) else out !! j.
Proof.
  revert k out. induction n as [|n IH]; intros k out Hk Hl; cbn [seq extract_rows].
  { exists out. split; [done|]. split; [done|]. intros j _.
    destruct (Nat.leb_spec k (j / TILE_ROW_BYTES)), (Nat.ltb_spec (j / TILE_ROW_BYTES) (k + 0)); try done. lia. }
  set (rb := Z.to_nat (covered f.(fm_width) t.1 * BPP)) in *.
  pose proof (row_bytes_le f.(fm_width) t.1) as Hrb. fold rb in Hrb. pose proof row_bytes_pos as Hpos.
  pose proof (covered_range f.(fm_height) t.2) as Hh. unfold SIDE in Hh.
  assert (row_fits f t k = (src_offset (fm_stride f) t.1 t.2 (Z.of_nat k) + rb <=? length (fm_pixels f))%nat) as Hfit.
  { unfold row_fits. destruct (Nat.ltb_spec k (Z.to_nat (covered (fm_height f) t.2))); [done|lia]. }
  destruct (Nat.leb_spec (src_offset (fm_stride f) t.1 t.2 (Z.of_nat k) + rb) (length (fm_pixels f))) as [Hf|Hf].
  2:{ destruct (IH (S k) out) as (out' & -> & Hl' & Ho); [lia|done|]. exists out'. split; [done|]. split; [done|].
      intros j Hj. rewrite (Ho j Hj). destruct (decide ((j / TILE_ROW_BYTES)%nat = k)) as [->|Hne].
      - rewrite Hfit, !andb_false_r. cbn. done.
      - rewrite leb_S_ne by done. by rewrite Nat.add_succ_comm. }
  unfold slice. destruct (Nat.leb_spec (src_offset (fm_stride f) t.1 t.2 (Z.of_nat k)) (src_offset (fm_stride f) t.1 t.2 (Z.of_nat k) + rb)); [|lia].
  apply Nat.leb_le in Hf as Hfb. rewrite Hfb. cbn [andb mbind outcome_bind].
  set (src := src_offset (fm_stride f) t.1 t.2 (Z.of_nat k)) in *. rewrite Nat.add_comm, Nat.add_sub.
  set (row := take rb (drop src (fm_pixels f))).
  assert (length row = rb) as Hrow by (unfold row; rewrite length_take, length_drop; lia).
  destruct (copy_into_ok (E:=E) row (k * TILE_ROW_BYTES) out) as (out1 & -> & Hl1 & Hlo & Hmid & Hhi).
  { rewrite Hl, tile_bytes_eq, Hrow. assert (k + 1 ≤ TILE_SIZE)%nat as Hk1 by lia.
    pose proof (Nat.mul_le_mono_r _ _ TILE_ROW_BYTES Hk1). lia. }
  cbn [mbind outcome_bind]. destruct (IH (S k) out1) as (out' & -> & Hl' & Ho); [lia|by rewrite Hl1|].
  exists out'. split; [done|]. split; [done|]. intros j Hj. rewrite (Ho j Hj).
  pose proof (Nat.div_mod_eq j TILE_ROW_BYTES) as Hdm. pose proof (Nat.mod_upper_bound j TILE_ROW_BYTES ltac:(lia)) as Hmod.
  set (y := (j / TILE_ROW_BYTES)%nat) in *. set (b := (j mod TILE_ROW_BYTES)%nat) in *.
  destruct (decide (y = k)) as [Hy|Hne].
  - destruct (Nat.leb_spec (S k) y); [lia|]. destruct (Nat.leb_spec k y); [|lia]. destruct (Nat.ltb_spec y (k + S n)); [|lia].
    cbn [andb]. rewrite Hy, Hfit. cbn [andb]. destruct (Nat.ltb_spec b rb) as [Hbr|Hbr].
    + clear H H0 H1. replace j with (k * TILE_ROW_BYTES + b)%nat by nia. rewrite Hmid by lia.
      unfold row. rewrite lookup_take_lt, lookup_drop by lia.
      unfold tile_byte. replace (k * TILE_ROW_BYTES + b)%nat with j by nia. fold y b. rewrite Hy, Hfit. fold rb.
      apply Nat.ltb_lt in Hbr as Hbt. rewrite Hbt. cbn [andb]. fold src.
      destruct (fm_pixels f !! (src + b)%nat) eqn:Hp; [done|]. apply lookup_ge_None in Hp. lia.
    + apply Hhi. rewrite Hrow. nia.
  - assert (out1 !! j = out !! j) as ->.
    { destruct (decide (y < k)%nat); [apply Hlo; nia|]. apply Hhi. rewrite Hrow. nia. }
    rewrite leb_S_ne by done. by rewrite Nat.add_succ_comm.
Qed.

Lemma tile_of_view {E} f t : tile_of (E:=E) f t = Ok (tile_view f t).
Proof.
  unfold tile_of, extract_tile. cbn [frame_grid grid_new gr_width gr_height].
  destruct (extract_rows_spec (E:=E) f t 0 (Z.to_nat (covered (fm_height f) t.2)) (replicate TILE_BYTES 0)) as (out & -> & Hl & Ho).
  { lia. } { by rewrite length_replicate. }
  f_equal. apply list_eq_same_length with TILE_BYTES; [by rewrite length_tile_view|done|].
  intros j x y Hj Hx Hy. unfold tile_view in Hy. rewrite list_lookup_fmap, lookup_seq_lt in Hy by done. cbn in Hy. simplify_eq.
  rewrite (Ho j Hj) in Hx. rewrite lookup_replicate_2 in Hx by done. revert Hx. unfold tile_byte.
  set (y := (j / TILE_ROW_BYTES)%nat). cbn [Nat.leb andb Nat.add].
  destruct (row_fits f t y) eqn:Hf; rewrite ?andb_false_r; cbn [andb]; [|congruence].
  unfold row_fits in Hf. apply andb_true_iff in Hf as [-> _]. cbn [andb].
  destruct (_ <? _)%nat; congruence.
Qed.

Lemma tile_view_lookup f t j : (j < TILE_BYTES)%nat → tile_view f t !! j = Some (tile_byte f t j).
Proof. intros. unfold tile_view. by rewrite list_lookup_fmap, lookup_seq_lt. Qed.

Lemma tile_bytes_row : (TILE_ROW_BYTES ≤ TILE_BYTES)%nat.
Proof. rewrite tile_bytes_eq. unfold TILE_SIZE. lia. Qed.

Lemma tile_view_head f t : take 4 (tile_view f t) = (tile_byte f t <$> seq 0 4).
Proof.
  unfold tile_view. by rewrite <-fmap_take.
Qed.

Lemma tile_byte_head f t c : (c < 4)%nat → tile_byte f t c =
  if row_fits f t 0 && (c <? Z.to_nat (covered f.(fm_width) t.1 * BPP))%nat
  then default 0 (f.(fm_pixels) !! (src_offset f.(fm_stride) t.1 t.2 0 + c)%nat) else 0.
Proof.
  intros Hc. unfold tile_byte. pose proof row_bytes_pos.
  by rewrite (Nat.div_small c), (Nat.mod_small c) by lia.
Qed.

(** The solid shortcut reads the tile's first pixel.  For any frame, stride and tile, in the frame or not,
    the four bytes [first_pixel] reads in place are those [encode_solid] takes from the extracted
    tile; neither ever panics, whatever the size of the buffer. *)
Theorem first_pixel_is_solid (f : Frame) t :
  first_pixel (E:=Empty_set) (frame_grid f) f.(fm_pixels) f.(fm_stride) t.1 t.2 =
    (tile ← tile_of f t; slice tile 0 4) ∧
  first_pixel (E:=Empty_set) (frame_grid f) f.(fm_pixels) f.(fm_stride) t.1 t.2 ≠ Panic.
Proof.
  rewrite tile_of_view. cbn [mbind outcome_bind]. unfold slice. rewrite length_tile_view.
  pose proof row_bytes_pos. pose proof tile_bytes_row.
  destruct (Nat.leb_spec 4 TILE_BYTES); [|lia]. cbn [Nat.leb andb]. change (4 - 0)%nat with 4%nat. rewrite drop_0, tile_view_head.
  cbn [seq fmap list_fmap]. rewrite !tile_byte_head by lia.
  unfold first_pixel, row_fits. cbn [frame_grid grid_new gr_width gr_height].
  pose proof (covered_range f.(fm_width) t.1) as Hw. pose proof (covered_range f.(fm_height) t.2) as Hh.
  set (cw := covered _ t.1) in *. set (ch := covered _ t.2) in *. change (Z.of_nat 0) with 0.
  set (off := src_offset _ _ _ 0). unfold BPP in *.
  destruct (Z.eqb_spec cw 0) as [->|Hcw].
  { change (Z.to_nat (0 * 4)) with 0%nat. rewrite !andb_false_r. done. }
  destruct (Z.eqb_spec ch 0) as [->|Hch]; [done|]. cbn [orb].
  destruct (Nat.ltb_spec (length (fm_pixels f)) (off + Z.to_nat (cw * 4))) as [Hshort|Hlong].
  { destruct (Nat.leb_spec (off + Z.to_nat (cw * 4)) (length (fm_pixels f))); [lia|]. rewrite andb_false_r. done. }
  apply Nat.leb_le in Hlong as Hb. rewrite Hb. destruct (Nat.ltb_spec 0 (Z.to_nat ch)); [|lia]. cbn [andb].
  assert (∀ c, (c < 4)%nat → (c <? Z.to_nat (cw * 4))%nat = true) as Hlt by (intros c Hc; apply Nat.ltb_lt; lia).
  rewrite !Hlt by lia. rewrite Nat.add_0_r. unfold idx.
  destruct (lookup_lt_is_Some_2 (fm_pixels f) off) as [a ->]; [lia|].
  destruct (lookup_lt_is_Some_2 (fm_pixels f) (off + 1)) as [b ->]; [lia|].
  destruct (lookup_lt_is_Some_2 (fm_pixels f) (off + 2)) as [c ->]; [lia|].
  destruct (lookup_lt_is_Some_2 (fm_pixels f) (off + 3)) as [d ->]; [lia|]. done.
Qed.

(** The buffer holds the frame: rows of [stride] bytes, the last of which may be short. *)
Definition holds_frame (f : Frame) : Prop :=
  0 ≤ f.(fm_width) ∧ f.(fm_width) * BPP ≤ f.(fm_stride) ∧ f.(fm_height) * f.(fm_stride) < 2 ^ 32 ∧
  f.(fm_height) * SIDE < 2 ^ 32 ∧ f.(fm_width) * SIDE < 2 ^ 32 ∧
  (f.(fm_height) - 1) * f.(fm_stride) + f.(fm_width) * BPP ≤ Z.of_nat (length f.(fm_pixels)).

Lemma origin_small size tile : 0 ≤ tile < tiles_across size → 0 ≤ size → size * SIDE < 2 ^ 32 →
  origin tile = tile * SIDE ∧ tile * SIDE < size.
Proof.
  intros Ht Hs Hb. unfold origin, wrap, tiles_across, SIDE in *. change (Z.of_nat TILE_SIZE) with 32 in *.
  assert (tile * 32 < size) by (revert Ht; dlia). rewrite Z.mod_small by lia. done.
Qed.

(** A tile is the picture under it.  For every tile of a frame whose buffer holds it and every
    pixel of the tile, the extracted bytes are those of the frame's pixel at that place, and zero to
    the right of and below the picture. *)
Theorem tile_is_the_picture {E} f t : holds_frame f → in_frame f t →
  ∃ tile, tile_of (E:=E) f t = Ok tile ∧ length tile = TILE_BYTES ∧
  ∀ x y c : nat, (x < TILE_SIZE)%nat → (y < TILE_SIZE)%nat → (c < 4)%nat →
    let X := t.1 * SIDE + Z.of_nat x in
    let Y := t.2 * SIDE + Z.of_nat y in
    tile !! (y * TILE_ROW_BYTES + x * 4 + c)%nat =
      if (X <? f.(fm_width)) && (Y <? f.(fm_height))
      then f.(fm_pixels) !! Z.to_nat (Y * f.(fm_stride) + X * BPP + Z.of_nat c) else Some 0.
Proof.
  intros (Hw & Hst & Hhs & Hh32 & Hw32 & Hlen) [Htx Hty]. exists (tile_view f t). split; [apply tile_of_view|].
  split; [apply length_tile_view|]. intros x y c Hx Hy Hc X Y.
  assert (0 ≤ f.(fm_height)) as Hh.
  { destruct (Z.le_gt_cases 0 (fm_height f)); [done|]. unfold tiles_across, SIDE in Hty. change (Z.of_nat TILE_SIZE) with 32 in Hty. exfalso. revert Hty. dlia. }
  destruct (origin_small _ _ Htx Hw Hw32) as [Hox Hltx]. destruct (origin_small _ _ Hty Hh Hh32) as [Hoy Hlty].
  pose proof row_bytes_eq as Hrow.
  assert (x * 4 + c < TILE_ROW_BYTES)%nat as Hb by lia.
  assert (y * TILE_ROW_BYTES + x * 4 + c < TILE_BYTES)%nat as Hj.
  { rewrite tile_bytes_eq. assert (y + 1 ≤ TILE_SIZE)%nat as H1 by lia. pose proof (Nat.mul_le_mono_r _ _ TILE_ROW_BYTES H1). lia. }
  rewrite tile_view_lookup by done. unfold tile_byte.
  assert ((y * TILE_ROW_BYTES + x * 4 + c) / TILE_ROW_BYTES = y)%nat as ->.
  { rewrite <-Nat.add_assoc, Nat.div_add_l by lia. rewrite Nat.div_small; lia. }
  assert ((y * TILE_ROW_BYTES + x * 4 + c) mod TILE_ROW_BYTES = x * 4 + c)%nat as ->.
  { rewrite <-Nat.add_assoc, Nat.add_comm, Nat.Div0.mod_add. apply Nat.mod_small. lia. }
  assert (covered (fm_width f) t.1 = Z.min SIDE (fm_width f - t.1 * SIDE)) as Hcw by (unfold covered, sat_sub; rewrite Hox; lia).
  assert (covered (fm_height f) t.2 = Z.min SIDE (fm_height f - t.2 * SIDE)) as Hch by (unfold covered, sat_sub; rewrite Hoy; lia).
  assert (Z.of_nat TILE_SIZE = SIDE) as HS by done. unfold BPP in *.
  assert (0 ≤ SIDE) by (unfold SIDE; lia).
  destruct (Z.ltb_spec Y (fm_height f)) as [HY|HY].
  2:{ rewrite andb_false_r. unfold row_fits. destruct (Nat.ltb_spec y (Z.to_nat (covered (fm_height f) t.2))); [unfold Y in *; lia|]. done. }
  assert (0 ≤ Y * fm_stride f) by (unfold Y; nia).
  assert (Y * fm_stride f ≤ (fm_height f - 1) * fm_stride f) by (apply Z.mul_le_mono_nonneg_r; lia).
  assert ((fm_height f - 1) * fm_stride f = fm_height f * fm_stride f - fm_stride f) by ring.
  assert (0 ≤ t.1 * SIDE) by (apply Z.mul_nonneg_nonneg; lia).
  assert (src_offset (fm_stride f) t.1 t.2 (Z.of_nat y) = Z.to_nat (Y * fm_stride f + t.1 * SIDE * 4)) as Hsrc.
  { unfold src_offset, wrap, BPP. rewrite Hox, Hoy. fold Y. rewrite Z.mod_small; [done|]. lia. }
  assert (row_fits f t y = true) as ->.
  { unfold row_fits. rewrite Hsrc. apply andb_true_iff. split; [apply Nat.ltb_lt; unfold Y in *; lia|].
    apply Nat.leb_le. unfold BPP. lia. }
  cbn [andb]. rewrite Hsrc, Hcw.
  destruct (Z.ltb_spec X (fm_width f)) as [HX|HX]; unfold X, BPP in *; cbn [andb].
  - destruct (Nat.ltb_spec (x * 4 + c) (Z.to_nat (Z.min SIDE (fm_width f - t.1 * SIDE) * 4))); [|lia].
    replace (Z.to_nat (Y * fm_stride f + t.1 * SIDE * 4) + (x * 4 + c))%nat
      with (Z.to_nat (Y * fm_stride f + (t.1 * SIDE + Z.of_nat x) * 4 + Z.of_nat c)) by lia.
    destruct (fm_pixels f !! _) eqn:Hp; [done|]. apply lookup_ge_None in Hp. lia.
  - destruct (Nat.ltb_spec (x * 4 + c) (Z.to_nat (Z.min SIDE (fm_width f - t.1 * SIDE) * 4))); [lia|done].
Qed.

(** ** The tracker *)

Definition tile_index (cols : Z) (t : Z * Z) : nat := Z.to_nat (u32 (t.2 * cols + t.1)).
Definition in_cells (cols rows : Z) (t : Z * Z) : Prop := 0 ≤ t.1 < cols ∧ 0 ≤ t.2 < rows.
Definition grid_small (cols rows : Z) : Prop := 0 ≤ cols ∧ 0 ≤ rows ∧ cols * rows < 2 ^ 32.

Lemma tile_index_inside cols rows t : grid_small cols rows → in_cells cols rows t →
  Z.of_nat (tile_index cols t) = t.2 * cols + t.1 ∧ (tile_index cols t < Z.to_nat (cols * rows))%nat.
Proof.
  intros (? & ? & ?) [? ?]. unfold tile_index, wrap. assert (t.2 * cols + t.1 < cols * rows) by nia.
  assert (0 ≤ t.2 * cols + t.1) by nia. rewrite Z.mod_small by lia. lia.
Qed.

Lemma tile_index_inj cols rows a b : grid_small cols rows → in_cells cols rows a → in_cells cols rows b →
  tile_index cols a = tile_index cols b → a = b.
Proof.
  intros Hg Ha Hb He. destruct (tile_index_inside cols rows a Hg Ha) as [Ea _], (tile_index_inside cols rows b Hg Hb) as [Eb _].
  rewrite He in Ea. destruct Ha as [? ?], Hb as [? ?], a as [ax ay], b as [bx by_]; cbn [fst snd] in *.
  assert (ay = by_) by nia. f_equal; nia.
Qed.

Lemma ref_at_lookup prev i j : (j < TILE_BYTES)%nat → ref_at prev i !! j = prev !! (i * TILE_BYTES + j)%nat.
Proof. intros. unfold ref_at. by rewrite lookup_take_lt, lookup_drop. Qed.

Lemma length_ref_at prev i n : length prev = (n * TILE_BYTES)%nat → (i < n)%nat → length (ref_at prev i) = TILE_BYTES.
Proof.
  intros Hl Hi. unfold ref_at. rewrite length_take, length_drop, Hl.
  pose proof (Nat.mul_le_mono_r (i + 1) n TILE_BYTES). lia.
Qed.

Lemma slice_ref {E} prev i n : length prev = (n * TILE_BYTES)%nat → (i < n)%nat →
  slice (E:=E) prev (i * TILE_BYTES) ((i + 1) * TILE_BYTES) = Ok (ref_at prev i).
Proof.
  intros Hl Hi. unfold slice, ref_at. pose proof (Nat.mul_le_mono_r (i + 1) n TILE_BYTES ltac:(lia)).
  destruct (Nat.leb_spec (i * TILE_BYTES) ((i + 1) * TILE_BYTES)); [|lia].
  destruct (Nat.leb_spec ((i + 1) * TILE_BYTES) (length prev)); [|lia]. cbn [andb]. do 2 f_equal. lia.
Qed.

Lemma commit_ref {E} prev i n cur : length prev = (n * TILE_BYTES)%nat → (i < n)%nat → length cur = TILE_BYTES →
  ∃ prev', copy_into (E:=E) cur (i * TILE_BYTES) prev = Ok prev' ∧ length prev' = length prev ∧
    ∀ k, ref_at prev' k = if bool_decide (k = i) then cur else ref_at prev k.
Proof.
  intros Hl Hi Hc. pose proof (Nat.mul_le_mono_r (i + 1) n TILE_BYTES ltac:(lia)) as Hm.
  destruct (copy_into_ok (E:=E) cur (i * TILE_BYTES) prev) as (prev' & -> & Hl' & Hlo & Hmid & Hhi); [lia|].
  exists prev'. split; [done|]. split; [done|]. intros k. apply list_eq. intros j.
  destruct (decide (j < TILE_BYTES)%nat) as [Hj|Hj].
  - rewrite ref_at_lookup by done. case_bool_decide as Hk; [subst k; apply Hmid; lia|]. rewrite ref_at_lookup by done.
    destruct (decide (k < i)%nat).
    + apply Hlo. pose proof (Nat.mul_le_mono_r (k + 1) i TILE_BYTES). lia.
    + apply Hhi. pose proof (Nat.mul_le_mono_r (i + 1) k TILE_BYTES). lia.
  - rewrite (lookup_ge_None_2 (ref_at prev' k)) by (unfold ref_at; rewrite length_take; lia).
    symmetry. apply lookup_ge_None_2. case_bool_decide; [lia|]. unfold ref_at. rewrite length_take. lia.
Qed.

(** What one pass over a list of tiles does: it reports those whose content differs from the reference
    (all of them on the first frame), and when it commits, the references it looked at are up to date. *)
Lemma compare_tiles_spec {E} f cols rows first commit tiles prev dirty : grid_small cols rows →
  length prev = (Z.to_nat (cols * rows) * TILE_BYTES)%nat → Forall (in_cells cols rows) tiles →
  ∃ prev' d, compare_tiles (E:=E) f cols first commit tiles prev dirty = Ok (prev', dirty ++ d) ∧
    length prev' = length prev ∧ d `sublist_of` tiles ∧
    (∀ t, t ∈ tiles → t ∈ d ↔ first = true ∨ ref_at prev (tile_index cols t) ≠ tile_view f t) ∧
    (commit = false → prev' = prev) ∧
    (∀ t, in_cells cols rows t → ref_at prev' (tile_index cols t) =
       if commit && bool_decide (t ∈ tiles) then tile_view f t else ref_at prev (tile_index cols t)).
Proof.
  intros Hg. revert prev dirty. induction tiles as [|u tiles IH]; intros prev dirty Hl Ht; cbn [compare_tiles].
  { exists prev, []. rewrite app_nil_r. split; [done|]. split; [done|]. split; [done|]. split; [set_solver|]. split; [done|].
    intros t _. by rewrite bool_decide_false, andb_false_r by set_solver. }
  apply Forall_cons in Ht as [Hu Ht]. destruct (tile_index_inside cols rows u Hg Hu) as [_ Hi].
  rewrite tile_of_view. cbn [mbind outcome_bind]. fold (tile_index cols u).
  rewrite (slice_ref prev _ _ Hl Hi). cbn [mbind outcome_bind].
  assert (∀ t, in_cells cols rows t → tile_index cols t = tile_index cols u → t = u) as Hinj.
  { intros t Hin. by apply (tile_index_inj cols rows). }
  destruct (first || negb (bool_decide (ref_at prev (tile_index cols u) = tile_view f u))) eqn:Hd.
  - assert (first = true ∨ ref_at prev (tile_index cols u) ≠ tile_view f u) as Hdp.
    { apply orb_true_iff in Hd as [?|Hn]; [by left|right]. by apply negb_true_iff, bool_decide_eq_false in Hn. }
    assert (∃ prev1, (if commit then copy_into (E:=E) (tile_view f u) (tile_index cols u * TILE_BYTES) prev else mret prev) = Ok prev1 ∧
      length prev1 = length prev ∧ (commit = false → prev1 = prev) ∧
      ∀ k, ref_at prev1 k = if commit && bool_decide (k = tile_index cols u) then tile_view f u else ref_at prev k)
      as (prev1 & -> & Hl1 & Hc1 & Hr1).
    { destruct commit; [|by exists prev]. destruct (commit_ref (E:=E) prev _ _ (tile_view f u) Hl Hi) as (p & ? & ? & ?);
        [apply length_tile_view|]. by exists p. }
    cbn [mbind outcome_bind].
    destruct (IH prev1 (dirty ++ [u])) as (prev' & d & -> & Hl' & Hsub & Hin & Hc & Hr); [by rewrite Hl1|done|].
    exists prev', (u :: d). split; [by rewrite <-app_assoc|]. split; [by rewrite Hl', Hl1|]. split; [by constructor|].
    split; [|split].
    + intros t Htt. destruct (decide (t = u)) as [->|Hne]; [split; [by intros|by left]|].
      assert (t ∈ tiles) as Hti by set_solver. rewrite elem_of_cons, (Hin t Hti), Hr1.
      rewrite (bool_decide_false (_ = tile_index cols u)).
      2:{ intros He. apply Hne, Hinj; [|done]. rewrite Forall_forall in Ht. by apply Ht. }
      rewrite andb_false_r. naive_solver.
    + intros ->. by rewrite Hc, Hc1.
    + intros t Hti. rewrite (Hr t Hti), Hr1. destruct commit; cbn [andb]; [|done].
      destruct (decide (t = u)) as [->|Hne].
      * rewrite (bool_decide_true (u ∈ u :: tiles)) by set_solver. rewrite (bool_decide_true (tile_index cols u = _)) by done.
        by destruct (bool_decide (u ∈ tiles)).
      * rewrite (bool_decide_false (_ = tile_index cols u)) by (intros He; by apply Hne, Hinj).
        erewrite bool_decide_ext; [done|]. set_solver.
  - apply orb_false_iff in Hd as [-> Hn]. apply negb_false_iff, bool_decide_eq_true in Hn.
    destruct (IH prev dirty Hl Ht) as (prev' & d & -> & Hl' & Hsub & Hin & Hc & Hr).
    exists prev', d. split; [done|]. split; [done|]. split; [by constructor|]. split; [|split].
    + intros t Htt. destruct (decide (t ∈ tiles)) as [Hti|Hti]; [by apply Hin|].
      assert (t = u) as -> by set_solver. split.
      * intros Hx. exfalso. apply Hti. by eapply elem_of_sublist.
      * intros [?|?]; done.
    + done.
    + intros t Hti. rewrite (Hr t Hti). destruct commit; cbn [andb]; [|done].
      destruct (decide (t = u)) as [->|Hne].
      * rewrite (bool_decide_true (u ∈ u :: tiles)) by set_solver. by destruct (bool_decide (u ∈ tiles)).
      * erewrite bool_decide_ext; [done|]. set_solver.
Qed.

Lemma iter_coords_in g t : t ∈ iter_coords g ↔ in_cells g.(gr_cols) g.(gr_rows) t.
Proof.
  unfold iter_coords, in_cells. rewrite list_elem_of_bind. destruct t as [x y]; cbn [fst snd]. split.
  - intros (row & Hx & Hr). apply list_elem_of_fmap in Hr as (r & -> & Hr%elem_of_seq).
    apply list_elem_of_fmap in Hx as (c & [= -> ->] & Hc%elem_of_seq). lia.
  - intros [Hx Hy]. exists y. split.
    + apply list_elem_of_fmap. exists (Z.to_nat x). split; [f_equal; lia|]. apply elem_of_seq. lia.
    + apply list_elem_of_fmap. exists (Z.to_nat y). split; [lia|]. apply elem_of_seq. lia.
Qed.

(** A tracker between updates: either nothing laid out, or one reference per tile. *)
Definition dirty_wf (t : DirtyTracker) : Prop :=
  grid_small t.(dt_cols) t.(dt_rows) ∧
  (t.(dt_prev_tiles) = [] ∨ length t.(dt_prev_tiles) = (Z.to_nat (t.(dt_cols) * t.(dt_rows)) * TILE_BYTES)%nat).

Lemma length_lay_out t : dirty_wf t → length (lay_out t) = (Z.to_nat (t.(dt_cols) * t.(dt_rows)) * TILE_BYTES)%nat.
Proof.
  intros ((? & ? & ?) & [He|Hl]); unfold lay_out, is_first.
  - rewrite He, bool_decide_true by done. rewrite length_replicate. unfold wrap. rewrite Z.mod_small; [done|]. nia.
  - case_bool_decide as Hn; [|done]. rewrite Hn in Hl. cbn [length] in Hl. rewrite length_replicate. unfold wrap.
    rewrite Z.mod_small by nia. done.
Qed.

Lemma follow_grid_wf f t : frame_ok f → dirty_wf t → dirty_wf (follow_grid f t) ∧
  (follow_grid f t).(dt_cols) = tiles_across f.(fm_width) ∧ (follow_grid f t).(dt_rows) = tiles_across f.(fm_height).
Proof.
  intros (Hw & Hh & Ha) Ht. unfold follow_grid. cbn [frame_grid grid_new gr_cols gr_rows].
  assert (∀ n, 0 ≤ n → 0 ≤ tiles_across n) as Hp.
  { intros n Hn. unfold tiles_across, SIDE. change (Z.of_nat TILE_SIZE) with 32. apply Z.div_pos; lia. }
  destruct (Z.eqb_spec (tiles_across (fm_width f)) (dt_cols t)) as [Ec|]; cbn [andb].
  - destruct (Z.eqb_spec (tiles_across (fm_height f)) (dt_rows t)) as [Er|]; [by rewrite Ec, Er|].
    split; [|done]. split; [|by left]. cbn. split; auto.
  - split; [|done]. split; [|by left]. cbn. split; auto.
Qed.

(** The tiles an update of either kind looks at. *)
Definition looked_at (l : look) : list (Z * Z) :=
  match l with
  | LkFull f => iter_coords (frame_grid f)
  | LkHints f hints => filter (λ h, (h.1 <? tiles_across f.(fm_width)) && (h.2 <? tiles_across f.(fm_height)) = true) hints
  end.
Definition hints_u32 (l : look) : Prop :=
  match l with LkFull _ => True | LkHints _ hints => Forall (λ t, 0 ≤ t.1 ∧ 0 ≤ t.2) hints end.

Lemma looked_at_in l t : hints_u32 l → t ∈ looked_at l → in_frame (look_frame l) t.
Proof.
  destruct l as [f|f hints]; cbn; intros Hu Ht.
  - by apply iter_coords_in in Ht.
  - apply list_elem_of_filter in Ht as [Hb Ht]. rewrite Forall_forall in Hu. destruct (Hu t Ht).
    apply andb_true_iff in Hb as [?%Z.ltb_lt ?%Z.ltb_lt]. unfold in_frame. lia.
Qed.

Lemma look_at_spec {E} f commit tiles t : frame_ok f → dirty_wf t →
  Forall (in_frame f) (tiles (follow_grid f t)) →
  ∃ t' d, look_at (E:=E) f commit tiles t = Ok (t', d) ∧ dirty_wf t' ∧
    t'.(dt_cols) = tiles_across f.(fm_width) ∧ t'.(dt_rows) = tiles_across f.(fm_height) ∧
    d `sublist_of` tiles (follow_grid f t) ∧
    (∀ x, x ∈ tiles (follow_grid f t) → x ∈ d ↔ is_first (follow_grid f t) = true ∨
       ref_at (lay_out (follow_grid f t)) (tile_index t'.(dt_cols) x) ≠ tile_view f x) ∧
    (commit = false → t'.(dt_prev_tiles) = lay_out (follow_grid f t)) ∧
    (∀ x, in_frame f x → ref_at t'.(dt_prev_tiles) (tile_index t'.(dt_cols) x) =
       if commit && bool_decide (x ∈ tiles (follow_grid f t)) then tile_view f x
       else ref_at (lay_out (follow_grid f t)) (tile_index t'.(dt_cols) x)) ∧
    length t'.(dt_prev_tiles) = (Z.to_nat (t'.(dt_cols) * t'.(dt_rows)) * TILE_BYTES)%nat.
Proof.
  intros Hf Ht Htiles. destruct (follow_grid_wf f t Hf Ht) as (Hw & Hc & Hr). unfold look_at.
  set (u := follow_grid f t) in *. pose proof (length_lay_out u Hw) as Hl. pose proof Hw as [Hg _].
  destruct (compare_tiles_spec (E:=E) f (dt_cols u) (dt_rows u) (is_first u) commit (tiles u) (lay_out u) [] Hg Hl)
    as (prev' & d & -> & Hl' & Hsub & Hd & Hnc & Href).
  { rewrite Hc, Hr. exact Htiles. }
  cbn [mbind outcome_bind app]. eexists _, d. split; [done|]. cbn [dt_cols dt_rows dt_prev_tiles].
  split; [split; [done|right; cbn; by rewrite Hl', Hl]|]. split; [done|]. split; [done|]. split; [done|].
  split; [exact Hd|]. split; [exact Hnc|]. split; [|by rewrite Hl', Hl].
  intros x Hx. apply Href. unfold in_cells. by rewrite Hc, Hr.
Qed.

Lemma paint_lookup f d c x : paint f d c !! x = if bool_decide (x ∈ d) then Some (tile_view f x) else c !! x.
Proof.
  unfold paint. revert c. induction d as [|t d IH]; intros c; cbn [foldl]; [by rewrite bool_decide_false by set_solver|].
  rewrite IH. destruct (decide (x ∈ d)); [by rewrite !bool_decide_true by set_solver|].
  rewrite (bool_decide_false (x ∈ d)) by done. destruct (decide (x = t)) as [->|].
  - rewrite bool_decide_true by set_solver. by rewrite lookup_insert_eq.
  - rewrite bool_decide_false by set_solver. by rewrite lookup_insert_ne.
Qed.

(** Between looks: the references and the viewer's canvas both hold the last frame. *)
Definition in_step (before : option Frame) (t : DirtyTracker) (canvas : gmap (Z * Z) (list Z)) : Prop :=
  dirty_wf t ∧
  match before with
  | None => t.(dt_prev_tiles) = []
  | Some f => t.(dt_cols) = tiles_across f.(fm_width) ∧ t.(dt_rows) = tiles_across f.(fm_height) ∧
      ∀ x, in_frame f x → canvas !! x = Some (tile_view f x) ∧
        (t.(dt_prev_tiles) ≠ [] ∧ ref_at t.(dt_prev_tiles) (tile_index t.(dt_cols) x) = tile_view f x)
  end.

Lemma look_step_look_at {E} l t : frame_ok (look_frame l) → dirty_wf t →
  look_step (E:=E) l t = look_at (look_frame l) true (λ _, looked_at l) t.
Proof.
  intros Hf Ht. destruct l as [f|f hints]; [done|]. cbn [look_step look_frame]. unfold update_with_hints, look_at.
  destruct (follow_grid_wf f t Hf Ht) as (_ & -> & ->). done.
Qed.

(** A tracker that follows the grid of a frame either starts over or keeps the references of the frame before. *)
Lemma follow_first before t canvas f : frame_ok f → in_step before t canvas →
  (is_first (follow_grid f t) = true ∧ ∀ x f0, before = Some f0 → same_dims f0 f → ¬ in_frame f x) ∨
  (∃ f0, before = Some f0 ∧ same_dims f0 f ∧ is_first (follow_grid f t) = false ∧
     ∀ x, in_frame f x → canvas !! x = Some (tile_view f0 x) ∧
       ref_at (lay_out (follow_grid f t)) (tile_index (tiles_across f.(fm_width)) x) = tile_view f0 x).
Proof.
  intros Hf [Hw Hb]. destruct (is_first (follow_grid f t)) eqn:Hfi.
  - left. split; [done|]. intros x f0 -> [Hdw Hdh] Hx. destruct Hb as (Hc & Hr & Hb).
    assert (follow_grid f t = t) as Heq.
    { unfold follow_grid. cbn [frame_grid grid_new gr_cols gr_rows]. by rewrite Hc, Hr, Hdw, Hdh, !Z.eqb_refl. }
    rewrite Heq in Hfi. apply bool_decide_eq_true in Hfi. destruct (Hb x) as (_ & Hne & _); [|done].
    unfold in_frame. by rewrite Hdw, Hdh.
  - right. unfold follow_grid in *. cbn [frame_grid grid_new gr_cols gr_rows] in *.
    destruct (Z.eqb_spec (tiles_across (fm_width f)) (dt_cols t)) as [Ec|]; cbn [andb] in *; [|done].
    destruct (Z.eqb_spec (tiles_across (fm_height f)) (dt_rows t)) as [Er|]; [|done].
    destruct before as [f0|]; [|unfold is_first in Hfi; by rewrite Hb, bool_decide_true in Hfi].
    destruct Hb as (Hc & Hr & Hb). exists f0. split; [done|]. split; [split; congruence|]. split; [done|].
    intros x Hx. destruct (Hb x) as (Hcv & _ & Href); [unfold in_frame in *; congruence|]. split; [done|].
    unfold lay_out. by rewrite Hfi, Ec.
Qed.

Lemma look_in_step {E} before l t canvas : frame_ok (look_frame l) → hints_cover before l → in_step before t canvas →
  ∃ t' d, look_step (E:=E) l t = Ok (t', d) ∧ in_step (Some (look_frame l)) t' (paint (look_frame l) d canvas).
Proof.
  intros Hf Hcov Hin. pose proof Hin as [Hw _]. rewrite look_step_look_at by done. set (f := look_frame l) in *.
  assert (hints_u32 l) as Hu by (destruct l; [done|apply Hcov]).
  assert (∀ x, in_frame f x → x ∈ looked_at l ∨ ∃ f0, before = Some f0 ∧ same_dims f0 f ∧ tile_view f0 x = tile_view f x) as Hall.
  { intros x Hx. destruct l as [g|g hints]; cbn [look_frame looked_at] in *; [left; by apply iter_coords_in|].
    destruct Hcov as [_ Hcov]. destruct (Hcov x Hx) as [Hh|?]; [left|by right]. apply list_elem_of_filter. split; [|done].
    destruct Hx as [[_ Hx] [_ Hy]]. apply andb_true_iff. split; apply Z.ltb_lt; [exact Hx|exact Hy]. }
  destruct (look_at_spec (E:=E) f true (λ _, looked_at l) t Hf Hw) as (t' & d & -> & Hw' & Hc & Hr & Hsub & Hd & _ & Href & Hlen).
  { apply Forall_forall. intros x. by apply looked_at_in. }
  exists t', d. split; [done|]. split; [done|]. split; [done|]. split; [done|]. intros x Hx. rewrite paint_lookup, Href by done.
  cbn [andb]. rewrite Hc in *. assert (dt_prev_tiles t' ≠ []) as Hne.
  { intros He. rewrite He in Hlen. cbn [length] in Hlen. pose proof row_bytes_pos. pose proof tile_bytes_row.
    destruct Hx as [? ?]. rewrite Hr in Hlen. assert (0 < tiles_across (fm_width f) * tiles_across (fm_height f)) by nia.
    symmetry in Hlen. apply Nat.eq_mul_0 in Hlen. lia. }
  destruct (follow_first before t canvas f Hf Hin) as [[Hfi Hno]|(f0 & Hb & Hs & Hfi & Hold)].
  - destruct (Hall x Hx) as [Hl|(f0 & Hb & Hs & _)]; [|by edestruct Hno].
    rewrite !bool_decide_true; [done|done|]. apply Hd; auto.
  - destruct (Hold x Hx) as [Hcv Hrf]. destruct (decide (x ∈ looked_at l)) as [Hl|Hl].
    + rewrite (bool_decide_true (x ∈ looked_at l)) by done. split; [|done]. case_bool_decide as Hxd; [done|].
      rewrite (Hd x Hl), Hrf in Hxd. rewrite Hcv. f_equal. apply dec_stable. intros Hne2. apply Hxd. right. exact Hne2.
    + assert (x ∉ d) as Hxd by (intros Hxd; exact (Hl (elem_of_sublist _ _ _ Hxd Hsub))).
      rewrite (bool_decide_false _ Hxd), (bool_decide_false _ Hl).
      destruct (Hall x Hx) as [?|(f1 & Hb1 & _ & Hv)]; [done|].
      rewrite Hb in Hb1. injection Hb1 as <-. rewrite Hcv, Hrf, Hv. split; [reflexivity|]. split; [exact Hne|reflexivity].
Qed.

Lemma watch_in_step {E} before ls t canvas : looks_ok before ls → in_step before t canvas →
  ∃ t' c, watch (E:=E) ls t canvas = Ok (t', c) ∧ in_step (from_option (λ l, Some (look_frame l)) before (last ls)) t' c.
Proof.
  induction ls as [|l ls IH] in before, t, canvas |- *; intros Hok Hin; cbn [watch].
  { by exists t, canvas. }
  destruct Hok as (Hf & Hcov & Hok). destruct (look_in_step (E:=E) before l t canvas Hf Hcov Hin) as (t1 & d & -> & Hin1).
  cbn [mbind outcome_bind]. destruct (IH _ _ _ Hok Hin1) as (t' & c & -> & Hin'). exists t', c. split; [done|].
  destruct ls as [|l' ls]; [exact Hin'|]. change (last (l :: l' :: ls)) with (last (l' :: ls)).
  destruct (last (l' :: ls)) eqn:Hla; [exact Hin'|]. apply last_None in Hla. done.
Qed.

(** C13: Whoever repaints the tiles each update reports holds the frame just captured.  From a new tracker
    and any canvas, through any sequence of committing updates (of the whole frame, or of hints that name
    at least the tiles that changed since the frame before), with the picture changing size
    or not: no update panics, and afterwards every tile of the canvas shows the last frame.  Nor is more
    reported than needed: the next full update reports exactly the tiles whose content
    changed, in row-major order, or all of them when the grid changed. *)
Theorem viewer_holds_the_frame {E : Type} cols rows ls canvas : grid_small cols rows → looks_ok None ls →
  ∃ t c, watch (E:=E) ls (dirty_new cols rows) canvas = Ok (t, c) ∧
    ∀ l, last ls = Some l → let f := look_frame l in
      (∀ x, in_frame f x → c !! x = Some (tile_view f x)) ∧
      ∀ f', frame_ok f' → ∃ t' d, update (E:=E) f' t = Ok (t', d) ∧ d `sublist_of` iter_coords (frame_grid f') ∧
        ∀ x, x ∈ d ↔ in_frame f' x ∧ (¬ same_dims f f' ∨ tile_view f x ≠ tile_view f' x).
Proof.
  intros Hg Hok. assert (in_step None (dirty_new cols rows) canvas) as Hin by (split; [split; [done|by left]|done]).
  destruct (watch_in_step (E:=E) None ls _ canvas Hok Hin) as (t & c & Hrun & Hin').
  exists t, c. split; [done|]. intros l Hl f. rewrite Hl in Hin'. cbn [from_option] in Hin'. pose proof Hin' as [Hw Hin2]. fold f in Hin2.
  split; [intros x Hx; by apply Hin2|]. intros f' Hf'.
  destruct (look_at_spec (E:=E) f' true (λ _, iter_coords (frame_grid f')) t Hf' Hw) as (t' & d & Hup & _ & Hc & _ & Hsub & Hd & _).
  { apply Forall_forall. intros x Hx. by apply iter_coords_in in Hx. }
  exists t', d. split; [exact Hup|]. split; [done|]. intros x. split.
  - intros Hx. assert (x ∈ iter_coords (frame_grid f')) as Hxi by by eapply elem_of_sublist.
    split; [by apply iter_coords_in in Hxi|]. apply (Hd x Hxi) in Hx. apply iter_coords_in in Hxi. rewrite Hc in Hx.
    destruct (follow_first _ _ _ _ Hf' Hin') as [[Hfi Hno]|(f0 & [= <-] & Hs & Hfi & Hold)].
    + left. intros Hs. by eapply Hno.
    + right. destruct (Hold x Hxi) as [_ Hrf]. rewrite Hrf, Hfi in Hx. destruct Hx as [Hx|Hx]; [discriminate Hx|exact Hx].
  - intros [Hx Hch]. assert (x ∈ iter_coords (frame_grid f')) as Hxi by by apply iter_coords_in.
    apply (Hd x Hxi). rewrite Hc. destruct (follow_first _ _ _ _ Hf' Hin') as [[Hfi _]|(f0 & [= <-] & Hs & Hfi & Hold)]; [by left|].
    right. destruct (Hold x Hx) as [_ Hrf]. rewrite Hrf. destruct Hch as [Hch|Hch]; [destruct (Hch Hs)|exact Hch].
Qed.

(** ** Concrete frames *)

Definition strip (bytes : list Z) : Frame := mkFrame bytes (Z.of_nat (length bytes)) (Z.of_nat (length bytes) / 4) 1.
Definition wide_strip : Frame := strip (replicate 160 7).
Definition right_end_changed : Frame := strip (replicate 128 7 ++ replicate 32 9).

Lemma strips_cover : looks_ok None [LkFull wide_strip; LkHints right_end_changed [(1, 0)]].
Proof.
  cbn [looks_ok look_frame hints_cover]. split; [split; [done|split; [done|by vm_compute]]|]. split; [done|].
  split; [split; [done|split; [done|by vm_compute]]|]. split; [|done]. split; [repeat constructor; cbn; lia|].
  intros [x y] [Hx Hy]. change (tiles_across (fm_width right_end_changed)) with 2 in Hx.
  change (tiles_across (fm_height right_end_changed)) with 1 in Hy. cbn [fst snd] in *.
  assert (y = 0) as -> by lia. destruct (decide (x = 1)) as [->|]; [left; set_solver|]. assert (x = 0) as -> by lia.
  right. exists wide_strip. split; [done|]. split; [by split|]. vm_compute. reflexivity.
Qed.

Example viewer_holds_the_frame_witness :
  ∃ t c, watch (E:=Empty_set) [LkFull wide_strip; LkHints right_end_changed [(1, 0)]] (dirty_new 0 0) ∅ = Ok (t, c) ∧
    c !! (1, 0) = Some (tile_view right_end_changed (1, 0)) ∧ c !! (0, 0) = Some (tile_view right_end_changed (0, 0)).
Proof.
  destruct (viewer_holds_the_frame (E:=Empty_set) 0 0 _ ∅ ltac:(split; [|split]; lia) strips_cover) as (t & c & Hrun & Hl).
  exists t, c. split; [exact Hrun|]. destruct (Hl _ eq_refl) as [Hc _]. split.
  - apply Hc. split; vm_compute; split; congruence.
  - apply Hc. split; vm_compute; split; congruence.
Defined.

Example tile_is_the_picture_witness :
  ∃ tile, tile_of (E:=Empty_set) right_end_changed (1, 0) = Ok tile ∧ tile !! 29%nat = Some 9 ∧ tile !! 33%nat = Some 0.
Proof.
  destruct (tile_is_the_picture (E:=Empty_set) right_end_changed (1, 0)) as (tile & Ht & _ & Hp).
  { unfold holds_frame. vm_compute. repeat split; congruence. }
  { split; vm_compute; split; congruence. }
  exists tile. split; [exact Ht|]. split.
  - pose proof (Hp 7 0 1 ltac:(unfold TILE_SIZE; lia) ltac:(unfold TILE_SIZE; lia) ltac:(lia))%nat as H. vm_compute in H. exact H.
  - pose proof (Hp 8 0 1 ltac:(unfold TILE_SIZE; lia) ltac:(unfold TILE_SIZE; lia) ltac:(lia))%nat as H. vm_compute in H. exact H.
Defined.

(** The buffer of zeros laid out before the first commit doubles as a reference: a tile that
    turns black while nothing has been committed is never reported, although the viewer was sent
    its earlier content. *)
Example black_tile_missed :
  let white := strip (replicate 4 255) in
  let black := strip (replicate 4 0) in
  ∃ t t', update_no_commit (E:=Empty_set) white (dirty_new 1 1) = Ok (t, [(0, 0)]) ∧
    update (E:=Empty_set) black t = Ok (t', []) ∧ tile_view white (0, 0) ≠ tile_view black (0, 0).
Proof.
  cbv zeta. eexists _, _. split; [vm_compute; reflexivity|]. split; [vm_compute; reflexivity|].
  vm_compute. discriminate.
Qed.
