(* ===== verification/Classifier.v ===== *)
(** * The frame-mode classifier

    The server's [tile/classifier.rs]: the cost model, the signals the transport feeds it,
    the headroom guard, the stall holdoff, and the decision, once per frame, between
    sending tiles and sending the whole frame as H.264.  What is proved of it is in
    [ClassifierTheory].  The configuration record is that of [config.rs]. *)

From Stdlib Require Import ZArith Lia SpecFloat.
From S2P Require Import Prelude F32 TileMetrics.
From stdpp Require Import base option numbers list.

Local Open Scope Z_scope.

(** ** The cost model *)

Record CostModelConfig : Type := mkCostConfig {
  cf_solid_us : option f32; cf_palrle_us : option f32; cf_cdf53_us : option f32; cf_h264_frame_us : option f32;
  cf_h264_frame_bytes : option Z; cf_bytes_per_us : option f32;
}.
Record CostModel : Type := mkCost {
  cm_solid_us : f32; cm_palrle_us : f32; cm_cdf53_us : f32; cm_h264_frame_us : f32;
  cm_h264_frame_bytes : Z; cm_bytes_per_us : f32;
}.
Definition cost_default : CostModel :=
  mkCost (f32_lit 1 20) (f32_of_Z 8) (f32_of_Z 90) (f32_of_Z 3000) 12000 (f32_lit 25 2).
Definition cost_from_config (c : CostModelConfig) : CostModel :=
  let base := cost_default in
  mkCost (default base.(cm_solid_us) c.(cf_solid_us)) (default base.(cm_palrle_us) c.(cf_palrle_us))
    (default base.(cm_cdf53_us) c.(cf_cdf53_us)) (default base.(cm_h264_frame_us) c.(cf_h264_frame_us))
    (default base.(cm_h264_frame_bytes) c.(cf_h264_frame_bytes)) (default base.(cm_bytes_per_us) c.(cf_bytes_per_us)).
Definition set_bytes_per_us (value : f32) (c : CostModel) : CostModel :=
  mkCost c.(cm_solid_us) c.(cm_palrle_us) c.(cm_cdf53_us) c.(cm_h264_frame_us) c.(cm_h264_frame_bytes) value.
Definition estimated_tile_bytes (st : CodecState) : Z :=
  match st with
  | CsSkip => 0 | CsSolid => 4 | CsPalRle _ => 200 | CsCdf53 _ _ => 1300 | CsPixelPerfect => 0 | CsH264 _ => 4096
  end.
Definition estimated_tile_us (c : CostModel) (st : CodecState) : f32 :=
  match st with
  | CsSkip | CsPixelPerfect => f32_of_Z 0
  | CsSolid => c.(cm_solid_us) | CsPalRle _ => c.(cm_palrle_us) | CsCdf53 _ _ => c.(cm_cdf53_us)
  | CsH264 _ => c.(cm_h264_frame_us)
  end.

(** ** What the transport reports *)

Record AdaptationContext : Type := mkContext {
  ac_bytes_per_us : f32; ac_smoothed_rtt_us : f32; ac_loss_rate : f32; ac_suspended : bool; ac_last_update_seq : Z;
  ac_supports_h264 : bool; ac_bwe_estimate_bps : Z; ac_h264_stalled : bool; ac_h264_encoder_unavailable : bool;
}.
Definition context_default : AdaptationContext :=
  mkContext (f32_of_Z 0) (f32_of_Z 0) (f32_of_Z 0) false 0 true 0 false false.

(** ** State *)

Definition REFINEMENT_BIAS_PER_TILE_US : f32 := f32_of_Z 5.
Definition HEADROOM_ENTER_BPS : Z := 2000000.
Definition HEADROOM_EXIT_BPS : Z := 3000000.
Definition HEADROOM_ENTER_HOLD_US : Z := 500000.
Definition HEADROOM_EXIT_HOLD_US : Z := 1000000.
Definition HEADROOM_MIN_EVALUATIONS : Z := 3.
Definition H264_STALL_REENTRY_US : Z := 2000000.
Definition H264_STALL_REENTRY_MAX_US : Z := 30000000.
Definition H264_STALL_HEALTHY_RESET_US : Z := 10000000.
Definition HEADROOM_IDLE_RELEASE_US : Z := 2000000.
Definition LOSS_OVERRIDE_THRESHOLD : f32 := f32_lit 1 10.

(** A condition that has held since some time, for some number of evaluations: the source's pairs
    [below_since_us]/[below_evals], [above_since_us]/[above_evals],
    [enter_started_us]/[enter_streak] and [exit_started_us]/[exit_streak]. *)
Record Hold : Type := mkHold { hd_since : option Z; hd_evals : Z }.
Definition hold_off : Hold := mkHold None 0.
(** [get_or_insert(now_us)] and [saturating_add(1)] *)
Definition hold_on (now_us : Z) (h : Hold) : Hold :=
  mkHold (Some (default now_us h.(hd_since))) (Z.min U32_SAT (h.(hd_evals) + 1)).
Definition hold_due (now_us dwell min_evals : Z) (h : Hold) : bool :=
  match h.(hd_since) with
  | Some since => (dwell <=? sat_sub now_us since) && (min_evals <=? h.(hd_evals))
  | None => false
  end.

Record GuardState : Type := mkGuard {
  gs_headroom_active : bool;
  gs_below : Hold;
  gs_above : Hold;
  gs_stalled_at_us : option Z;
  gs_stall_level : Z;
  gs_holdoff_us : Z;
  gs_healthy_since_us : option Z;
  gs_idle_since_us : option Z;
}.
Definition guard_default : GuardState := mkGuard false hold_off hold_off None 0 0 None None.
Definition set_headroom (active : bool) (below above : Hold) (g : GuardState) : GuardState :=
  mkGuard active below above g.(gs_stalled_at_us) g.(gs_stall_level) g.(gs_holdoff_us) g.(gs_healthy_since_us)
    g.(gs_idle_since_us).
Definition set_stall (at_us : option Z) (level holdoff : Z) (g : GuardState) : GuardState :=
  mkGuard g.(gs_headroom_active) g.(gs_below) g.(gs_above) at_us level holdoff g.(gs_healthy_since_us) g.(gs_idle_since_us).
Definition set_healthy (since : option Z) (level : Z) (g : GuardState) : GuardState :=
  mkGuard g.(gs_headroom_active) g.(gs_below) g.(gs_above) g.(gs_stalled_at_us) level g.(gs_holdoff_us) since
    g.(gs_idle_since_us).
Definition set_idle (since : option Z) (g : GuardState) : GuardState :=
  mkGuard g.(gs_headroom_active) g.(gs_below) g.(gs_above) g.(gs_stalled_at_us) g.(gs_stall_level) g.(gs_holdoff_us)
    g.(gs_healthy_since_us) since.

Record ClassifierHysteresis : Type := mkHyst { hy_enter : Hold; hy_exit : Hold }.
Definition hyst_default : ClassifierHysteresis := mkHyst hold_off hold_off.

Record ClassifierConfig : Type := mkClassifierConfig {
  cc_force_frame_mode : option FrameMode;
  cc_refinement_bias_us : option f32;
  cc_headroom_min_bpus : option f32;
  cc_loss_override_threshold : option f32;
  cc_loss_override_enabled : bool;
  cc_cost : CostModelConfig;
}.

Record Classifier : Type := mkClassifier {
  cl_cost : CostModel;
  cl_enter_factor : f32;
  cl_exit_factor : f32;
  cl_motion_tile_threshold : f32;
  cl_motion_tile_min_absolute : Z;
  cl_enter_sustain_micros : Z;
  cl_exit_sustain_micros : Z;
  cl_enter_sustain_frames_min : Z;
  cl_exit_sustain_frames_min : Z;
  cl_state : ClassifierHysteresis;
  cl_guard : GuardState;
  cl_context : AdaptationContext;
  cl_refinement_deficit_tiles : Z;
  cl_config : ClassifierConfig;
  cl_last_emitted_mode : option FrameMode;
}.

Definition with_cost (cost : CostModel) (c : Classifier) : Classifier :=
  mkClassifier cost c.(cl_enter_factor) c.(cl_exit_factor) c.(cl_motion_tile_threshold) c.(cl_motion_tile_min_absolute)
    c.(cl_enter_sustain_micros) c.(cl_exit_sustain_micros) c.(cl_enter_sustain_frames_min) c.(cl_exit_sustain_frames_min)
    c.(cl_state) c.(cl_guard) c.(cl_context) c.(cl_refinement_deficit_tiles) c.(cl_config) c.(cl_last_emitted_mode).
Definition with_state (st : ClassifierHysteresis) (g : GuardState) (c : Classifier) : Classifier :=
  mkClassifier c.(cl_cost) c.(cl_enter_factor) c.(cl_exit_factor) c.(cl_motion_tile_threshold) c.(cl_motion_tile_min_absolute)
    c.(cl_enter_sustain_micros) c.(cl_exit_sustain_micros) c.(cl_enter_sustain_frames_min) c.(cl_exit_sustain_frames_min)
    st g c.(cl_context) c.(cl_refinement_deficit_tiles) c.(cl_config) c.(cl_last_emitted_mode).
Definition with_signals (ctx : AdaptationContext) (deficit : Z) (last : option FrameMode) (c : Classifier) : Classifier :=
  mkClassifier c.(cl_cost) c.(cl_enter_factor) c.(cl_exit_factor) c.(cl_motion_tile_threshold) c.(cl_motion_tile_min_absolute)
    c.(cl_enter_sustain_micros) c.(cl_exit_sustain_micros) c.(cl_enter_sustain_frames_min) c.(cl_exit_sustain_frames_min)
    c.(cl_state) c.(cl_guard) ctx deficit c.(cl_config) last.

Definition classifier_new (config : ClassifierConfig) : Classifier :=
  mkClassifier (cost_from_config config.(cc_cost)) (f32_lit 13 10) (f32_lit 3 5) (f32_lit 1 5) 8 50000 500000 3 30
    hyst_default guard_default context_default 0 config None.
Definition classifier_reset (c : Classifier) : Classifier := with_state hyst_default guard_default c.

Definition set_adaptation_context (ctx : AdaptationContext) (c : Classifier) : Classifier :=
  let c := with_signals ctx c.(cl_refinement_deficit_tiles) c.(cl_last_emitted_mode) c in
  if f32_lt (f32_of_Z 0) ctx.(ac_bytes_per_us) then with_cost (set_bytes_per_us ctx.(ac_bytes_per_us) c.(cl_cost)) c else c.
Definition set_refinement_deficit_tiles (count : Z) (c : Classifier) : Classifier :=
  with_signals c.(cl_context) count c.(cl_last_emitted_mode) c.

(** ** The headroom guard *)

(** The thresholds; an overridden one brings the other along. *)
Definition headroom_thresholds (config : ClassifierConfig) : Z * Z :=
  match config.(cc_headroom_min_bpus) with
  | Some bpus =>
      let enter := f32_to_usize (f64_mul (f64_of_f32 bpus) (f64_of_Z 8000000)) in
      (enter, Z.min USIZE_MAX (enter + enter / 2))
  | None => (HEADROOM_ENTER_BPS, HEADROOM_EXIT_BPS)
  end.

Definition headroom_guard_engaged (config : ClassifierConfig) (now_us estimate_bps idle_us : Z) (g : GuardState)
    : GuardState * bool :=
  let '(enter_bps, exit_bps) := headroom_thresholds config in
  let known := 0 <? estimate_bps in
  if g.(gs_headroom_active) && known && (enter_bps <=? estimate_bps) && (HEADROOM_IDLE_RELEASE_US <=? idle_us)
  then (set_headroom false hold_off hold_off g, false)
  else
    let g :=
      if known && (estimate_bps <? enter_bps) then
        if g.(gs_headroom_active) then set_headroom true g.(gs_below) hold_off g
        else
          let below := hold_on now_us g.(gs_below) in
          if hold_due now_us HEADROOM_ENTER_HOLD_US HEADROOM_MIN_EVALUATIONS below
          then set_headroom true hold_off hold_off g
          else set_headroom false below hold_off g
      else if known && (exit_bps <? estimate_bps) then
        if g.(gs_headroom_active) then
          let above := hold_on now_us g.(gs_above) in
          if hold_due now_us HEADROOM_EXIT_HOLD_US HEADROOM_MIN_EVALUATIONS above
          then set_headroom false hold_off hold_off g
          else set_headroom true hold_off above g
        else set_headroom false hold_off g.(gs_above) g
      else set_headroom g.(gs_headroom_active) hold_off hold_off g in
    (g, g.(gs_headroom_active)).

(** ** The decision *)

Inductive Reason : Type :=
  | RsEncoderUnavailable | RsTestForce | RsUnsupported | RsStalled | RsStalledHoldoff | RsHeadroomGuard | RsLossOverride
  | RsSuspension | RsCostComparison | RsHysteresisClamp.
#[export] Instance reason_eq_dec : EqDecision Reason.
Proof. solve_decision. Defined.

Definition is_h264_state (st : CodecState) : bool := match st with CsH264 _ => true | _ => false end.

(** The cost path's two conditions.  (A frame has at most 2^16 tiles of at most 4096 bytes, so the
    [u32] sum does not overflow.) *)
Definition tile_codec_cost (c : Classifier) (tiles : list CodecState) : f32 :=
  let non_h264_us := f32_sum (estimated_tile_us c.(cl_cost) <$> filter (λ st, is_h264_state st = false) tiles) in
  let all_tile_bytes := foldr Z.add 0 (estimated_tile_bytes <$> tiles) in
  f32_add non_h264_us (f32_div (f32_of_Z all_tile_bytes) c.(cl_cost).(cm_bytes_per_us)).
Definition h264_cost (c : Classifier) : f32 :=
  let per_tile_bias := default REFINEMENT_BIAS_PER_TILE_US c.(cl_config).(cc_refinement_bias_us) in
  let refinement_bias_us := f32_mul (f32_of_Z c.(cl_refinement_deficit_tiles)) per_tile_bias in
  f32_add (f32_add c.(cl_cost).(cm_h264_frame_us)
             (f32_div (f32_of_Z c.(cl_cost).(cm_h264_frame_bytes)) c.(cl_cost).(cm_bytes_per_us))) refinement_bias_us.
Definition h264_tile_count (tiles : list CodecState) : Z := u32 (Z.of_nat (length (filter (λ st, is_h264_state st = true) tiles))).
Definition enter_now (c : Classifier) (tiles : list CodecState) : bool :=
  let dirty_count := u32 (Z.of_nat (length tiles)) in
  let motion_fraction := f32_div (f32_of_Z (h264_tile_count tiles)) (f32_of_Z (Z.max dirty_count 1)) in
  f32_lt (f32_mul (h264_cost c) c.(cl_enter_factor)) (tile_codec_cost c tiles)
  || ((c.(cl_motion_tile_min_absolute) <=? h264_tile_count tiles) && f32_lt c.(cl_motion_tile_threshold) motion_fraction).
Definition exit_now (c : Classifier) (tiles : list CodecState) : bool :=
  f32_lt (tile_codec_cost c tiles) (f32_mul (h264_cost c) c.(cl_exit_factor)).

(** The hysteresis of the cost path. *)
Definition cost_path (now_us : Z) (tiles : list CodecState) (prev_mode : FrameMode) (c : Classifier)
    : ClassifierHysteresis * (FrameMode * Reason) :=
  let st := c.(cl_state) in
  match prev_mode with
  | FmTileCodec =>
      if enter_now c tiles then
        let enter := hold_on now_us st.(hy_enter) in
        if hold_due now_us c.(cl_enter_sustain_micros) c.(cl_enter_sustain_frames_min) enter
        then (mkHyst hold_off hold_off, (FmH264, RsCostComparison))
        else (mkHyst enter hold_off, (FmTileCodec, RsHysteresisClamp))
      else (mkHyst hold_off st.(hy_exit), (FmTileCodec, RsHysteresisClamp))
  | FmH264 =>
      if exit_now c tiles then
        let exit := hold_on now_us st.(hy_exit) in
        if hold_due now_us c.(cl_exit_sustain_micros) c.(cl_exit_sustain_frames_min) exit
        then (mkHyst hold_off hold_off, (FmTileCodec, RsCostComparison))
        else (mkHyst hold_off exit, (FmH264, RsHysteresisClamp))
      else (mkHyst st.(hy_enter) hold_off, (FmH264, RsHysteresisClamp))
  end.

(** What a stall reported now does to the holdoff: one that ends a stretch of H.264 doubles it. *)
Definition note_stall (now_us : Z) (prev_mode : FrameMode) (g : GuardState) : GuardState :=
  match prev_mode with
  | FmH264 =>
      let level := Z.min U32_SAT (g.(gs_stall_level) + 1) in
      set_stall (Some now_us) level
        (Z.min H264_STALL_REENTRY_MAX_US (Z.min USIZE_MAX (H264_STALL_REENTRY_US * Z.shiftl 1 (Z.min (level - 1) 16)))) g
  | FmTileCodec =>
      set_stall (Some now_us) g.(gs_stall_level) (if g.(gs_holdoff_us) =? 0 then H264_STALL_REENTRY_US else g.(gs_holdoff_us)) g
  end.

Definition decide_core (now_us : Z) (tiles : list CodecState) (prev_mode : FrameMode) (c : Classifier)
    : Classifier * (FrameMode * Reason) :=
  let ctx := c.(cl_context) in
  if ctx.(ac_h264_encoder_unavailable) then (with_state hyst_default c.(cl_guard) c, (FmTileCodec, RsEncoderUnavailable))
  else match c.(cl_config).(cc_force_frame_mode) with
  | Some forced => (with_state hyst_default c.(cl_guard) c, (forced, RsTestForce))
  | None =>
  if negb ctx.(ac_supports_h264) then (with_state hyst_default c.(cl_guard) c, (FmTileCodec, RsUnsupported))
  else
    let idle_since := match tiles with [] => Some (default now_us c.(cl_guard).(gs_idle_since_us)) | _ => None end in
    let idle_us := match idle_since with Some t => sat_sub now_us t | None => 0 end in
    let '(g, guard_engaged) :=
      headroom_guard_engaged c.(cl_config) now_us ctx.(ac_bwe_estimate_bps) idle_us (set_idle idle_since c.(cl_guard)) in
    if ctx.(ac_h264_stalled) then (with_state hyst_default (note_stall now_us prev_mode g) c, (FmTileCodec, RsStalled))
    else if match g.(gs_stalled_at_us) with Some t => sat_sub now_us t <? g.(gs_holdoff_us) | None => false end
    then (with_state hyst_default g c, (FmTileCodec, RsStalledHoldoff))
    else if guard_engaged then (with_state c.(cl_state) g c, (FmH264, RsHeadroomGuard))
    else if c.(cl_config).(cc_loss_override_enabled)
            && f32_lt (default LOSS_OVERRIDE_THRESHOLD c.(cl_config).(cc_loss_override_threshold)) ctx.(ac_loss_rate)
    then (with_state hyst_default g c, (FmH264, RsLossOverride))
    else if ctx.(ac_suspended) then (with_state hyst_default g c, (FmH264, RsSuspension))
    else let '(st, out) := cost_path now_us tiles prev_mode c in (with_state st g c, out)
  end.

Definition decide_inner (now_us : Z) (tiles : list CodecState) (prev_mode : FrameMode) (c : Classifier)
    : Classifier * (FrameMode * Reason) :=
  let '(c, out) := decide_core now_us tiles prev_mode c in
  let g := c.(cl_guard) in
  if bool_decide (out.1 = FmH264) && negb (bool_decide (out.2 = RsStalled)) then
    let since := default now_us g.(gs_healthy_since_us) in
    (with_state c.(cl_state)
       (set_healthy (Some since) (if H264_STALL_HEALTHY_RESET_US <=? sat_sub now_us since then 0 else g.(gs_stall_level)) g) c, out)
  else (with_state c.(cl_state) (set_healthy None g.(gs_stall_level) g) c, out).

Definition decide_frame_mode_at (now_us : Z) (tiles : list CodecState) (prev_mode : FrameMode) (c : Classifier)
    : Classifier * FrameMode :=
  let '(c, out) := decide_inner now_us tiles prev_mode c in
  (if bool_decide (c.(cl_last_emitted_mode) = Some out.1) then c
   else with_signals c.(cl_context) c.(cl_refinement_deficit_tiles) (Some out.1) c, out.1).
