(* ===== verification/ClassifierTheory.v ===== *)
(** * Theory of the frame-mode classifier

    Sessions of the classifier of [Classifier]: the transport pushes its signals, the bridge
    asks once per frame.  The decision history determines the state: each pair of a
    start time and a counter stands for a run of decisions.  From that: H.264 is never
    chosen when nobody can decode or carry it, a change of mode is earned by a
    run of decisions that lasted, the headroom guard latches on its thresholds, and a
    quiet screen returns to lossless tiles. *)

From Stdlib Require Import ZArith Lia SpecFloat.
From S2P Require Import Prelude F32 TileMetrics Classifier.
From stdpp Require Import base option numbers list sets.

Local Open Scope Z_scope.

(** ** Sessions *)

Inductive cl_event : Type :=
  | EvContext (ctx : AdaptationContext)
  | EvDeficit (count : Z)
  | EvReset
  | EvDecide (now_us : Z) (tiles : list CodecState) (prev_mode : FrameMode).

(** One decision as it was made: what was asked, under which signals, and what was answered. *)
Record Ruling : Type := mkRuling {
  dc_now : Z; dc_idle : bool; dc_prev : FrameMode; dc_ctx : AdaptationContext; dc_enter : bool; dc_exit : bool;
  dc_mode : FrameMode; dc_reason : Reason; dc_guard : bool;
}.

Definition decision_of (now : Z) (tiles : list CodecState) (prev : FrameMode) (c : Classifier) : Ruling :=
  let '(c', out) := decide_inner now tiles prev c in
  mkRuling now (bool_decide (tiles = [])) prev c.(cl_context) (enter_now c tiles) (exit_now c tiles) out.1 out.2 c'.(cl_guard).(gs_headroom_active).

(** The decisions since the last reset, newest first. *)
Fixpoint cl_run (evs : list cl_event) (c : Classifier) (h : list Ruling) : Classifier * list Ruling :=
  match evs with
  | [] => (c, h)
  | EvContext ctx :: evs => cl_run evs (set_adaptation_context ctx c) h
  | EvDeficit n :: evs => cl_run evs (set_refinement_deficit_tiles n c) h
  | EvReset :: evs => cl_run evs (classifier_reset c) []
  | EvDecide now tiles prev :: evs =>
      cl_run evs (decide_frame_mode_at now tiles prev c).1 (decision_of now tiles prev c :: h)
  end.

Lemma decide_mode now tiles prev c :
  (decide_frame_mode_at now tiles prev c).2 = (decide_inner now tiles prev c).2.1.
Proof. unfold decide_frame_mode_at. destruct (decide_inner now tiles prev c). by case_bool_decide. Qed.

(** ** What the history says *)

(** How a decision bears on the runs of the cost path. *)
Inductive bearing : Type := BrRestart | BrAside | BrCost.
#[export] Instance bearing_eq_dec : EqDecision bearing.
Proof. solve_decision. Defined.
Definition bears (d : Ruling) : bearing :=
  match d.(dc_reason) with
  | RsHeadroomGuard => BrAside
  | RsCostComparison | RsHysteresisClamp => BrCost
  | _ => BrRestart
  end.

(** The decisions counted towards entering H.264, and towards leaving it, newest first. *)
Fixpoint enter_run (h : list Ruling) : list Ruling :=
  match h with
  | [] => []
  | d :: h =>
      match bears d, d.(dc_prev) with
      | BrRestart, _ => []
      | BrAside, _ => enter_run h
      | BrCost, FmTileCodec =>
          if d.(dc_enter) then if bool_decide (d.(dc_reason) = RsCostComparison) then [] else d :: enter_run h else []
      | BrCost, FmH264 => if d.(dc_exit) then [] else enter_run h
      end
  end.
Fixpoint exit_run (h : list Ruling) : list Ruling :=
  match h with
  | [] => []
  | d :: h =>
      match bears d, d.(dc_prev) with
      | BrRestart, _ => []
      | BrAside, _ => exit_run h
      | BrCost, FmTileCodec => if d.(dc_enter) then [] else exit_run h
      | BrCost, FmH264 =>
          if d.(dc_exit) then if bool_decide (d.(dc_reason) = RsCostComparison) then [] else d :: exit_run h else []
      end
  end.

Definition hold_of (run : list Ruling) : Hold :=
  match last run with Some d => mkHold (Some d.(dc_now)) (Z.min U32_SAT (Z.of_nat (length run))) | None => hold_off end.

(** A run has lasted: enough decisions, over enough time. *)
Definition lasted (now dwell min_evals : Z) (run : list Ruling) : Prop :=
  ∃ d, last run = Some d ∧ dwell ≤ now - d.(dc_now) ∧ min_evals ≤ Z.of_nat (length run).

(** The guard looks at the estimate only when H.264 is an option at all. *)
Definition evaluated (config : ClassifierConfig) (d : Ruling) : bool :=
  negb d.(dc_ctx).(ac_h264_encoder_unavailable) && bool_decide (config.(cc_force_frame_mode) = None)
  && d.(dc_ctx).(ac_supports_h264).
Definition estimate (d : Ruling) : Z := d.(dc_ctx).(ac_bwe_estimate_bps).

(** The guard's flag after a history. *)
Definition guard_was (h : list Ruling) : bool := match h with d :: _ => d.(dc_guard) | [] => false end.
(** Whether a decision pushes the guard away from where it stood. *)
Definition pushes (config : ClassifierConfig) (was : bool) (d : Ruling) : bool :=
  let '(enter_bps, exit_bps) := headroom_thresholds config in
  (0 <? estimate d) && (if was then exit_bps <? estimate d else estimate d <? enter_bps).
(** The evaluations that pushed, without interruption, since the guard last changed. *)
Fixpoint guard_run (config : ClassifierConfig) (h : list Ruling) : list Ruling :=
  match h with
  | [] => []
  | d :: h =>
      if evaluated config d then
        if eqb d.(dc_guard) (guard_was h) && pushes config (guard_was h) d then d :: guard_run config h else []
      else guard_run config h
  end.
(** Since when every evaluation has found a screen without changes. *)
Fixpoint idle_start (config : ClassifierConfig) (h : list Ruling) : option Z :=
  match h with
  | [] => None
  | d :: h => if evaluated config d then if d.(dc_idle) then Some (default d.(dc_now) (idle_start config h)) else None
              else idle_start config h
  end.

(** The last stall in the history, and how long it keeps H.264 out. *)
Fixpoint last_stall (h : list Ruling) : option Z :=
  match h with
  | [] => None
  | d :: h => if bool_decide (d.(dc_reason) = RsStalled) then Some d.(dc_now) else last_stall h
  end.
(** When the newest stretch of H.264 decisions began. *)
Fixpoint stretch_start (h : list Ruling) : option Z :=
  match h with
  | [] => None
  | d :: h => if bool_decide (d.(dc_mode) = FmH264) then Some (default d.(dc_now) (stretch_start h)) else None
  end.
(** Stalls that ended a stretch of H.264, since one lasted for ten seconds. *)
Fixpoint stall_level (h : list Ruling) : Z :=
  match h with
  | [] => 0
  | d :: h =>
      if bool_decide (d.(dc_reason) = RsStalled) then
        if bool_decide (d.(dc_prev) = FmH264) then Z.min U32_SAT (stall_level h + 1) else stall_level h
      else if bool_decide (d.(dc_mode) = FmH264)
              && (H264_STALL_HEALTHY_RESET_US <=? sat_sub d.(dc_now) (default d.(dc_now) (stretch_start h)))
      then 0 else stall_level h
  end.
(** Two seconds, doubled by each of them, at most thirty. *)
Definition backoff (level : Z) : Z := Z.min 30000000 (2000000 * 2 ^ (level - 1)).
Fixpoint holdoff (h : list Ruling) : Z :=
  match h with
  | [] => 0
  | d :: h' =>
      if bool_decide (d.(dc_reason) = RsStalled) then
        match d.(dc_prev) with
        | FmH264 => backoff (stall_level h)
        | FmTileCodec => if holdoff h' =? 0 then 2000000 else holdoff h'
        end
      else holdoff h'
  end.

(** ** The state stands for the history *)

Record cl_inv (config : ClassifierConfig) (c : Classifier) (h : list Ruling) : Prop := {
  ci_config : c.(cl_config) = config;
  ci_enter_micros : c.(cl_enter_sustain_micros) = 50000;
  ci_exit_micros : c.(cl_exit_sustain_micros) = 500000;
  ci_enter_frames : c.(cl_enter_sustain_frames_min) = 3;
  ci_exit_frames : c.(cl_exit_sustain_frames_min) = 30;
  ci_state : c.(cl_state) = mkHyst (hold_of (enter_run h)) (hold_of (exit_run h));
  ci_stalled : c.(cl_guard).(gs_stalled_at_us) = last_stall h;
  ci_level : c.(cl_guard).(gs_stall_level) = stall_level h;
  ci_holdoff : c.(cl_guard).(gs_holdoff_us) = holdoff h;
  ci_healthy : c.(cl_guard).(gs_healthy_since_us) = stretch_start h;
  ci_idle : c.(cl_guard).(gs_idle_since_us) = idle_start config h;
  ci_active : c.(cl_guard).(gs_headroom_active) = guard_was h;
  ci_below : c.(cl_guard).(gs_below) = (if guard_was h then hold_off else hold_of (guard_run config h));
  ci_above : c.(cl_guard).(gs_above) = (if guard_was h then hold_of (guard_run config h) else hold_off);
}.

Lemma length_pos_last {A} (l : list A) : l ≠ [] → ∃ x, last l = Some x.
Proof. destruct (last l) eqn:Hl; [eauto|]. by apply last_None in Hl. Qed.

Lemma hold_on_of d run : hold_on d.(dc_now) (hold_of run) = hold_of (d :: run).
Proof.
  unfold hold_on, hold_of, U32_SAT. destruct run as [|d' run]; [done|].
  change (last (d :: d' :: run)) with (last (d' :: run)). destruct (length_pos_last (d' :: run)) as [x Hx]; [done|]. rewrite Hx.
  cbn [hd_since hd_evals default]. f_equal. cbn [length]. lia.
Qed.

Lemma hold_due_of now dwell m run : 0 < dwell → m ≤ U32_SAT →
  hold_due now dwell m (hold_of run) = true ↔ lasted now dwell m run.
Proof.
  intros Hd Hm. unfold hold_due, hold_of, lasted. destruct (last run) as [x|]; cbn [hd_since hd_evals].
  - rewrite andb_true_iff, !Z.leb_le. unfold sat_sub. split.
    + intros [? ?]. exists x. split; [done|]. lia.
    + intros (? & [= <-] & ? & ?). lia.
  - split; [done|by intros (? & ? & _)].
Qed.

Lemma headroom_guard_keeps config now est idle g :
  let g' := (headroom_guard_engaged config now est idle g).1 in
  g'.(gs_stalled_at_us) = g.(gs_stalled_at_us) ∧ g'.(gs_stall_level) = g.(gs_stall_level) ∧
  g'.(gs_holdoff_us) = g.(gs_holdoff_us) ∧ g'.(gs_healthy_since_us) = g.(gs_healthy_since_us) ∧
  g'.(gs_idle_since_us) = g.(gs_idle_since_us).
Proof.
  unfold headroom_guard_engaged. destruct (headroom_thresholds config). cbv zeta. repeat case_match; done.
Qed.

Lemma headroom_guard_answer config now est idle g g' b :
  headroom_guard_engaged config now est idle g = (g', b) → b = g'.(gs_headroom_active).
Proof. unfold headroom_guard_engaged. destruct (headroom_thresholds config). cbv zeta. case_match; by intros [= <- <-]. Qed.

Definition idle_since (now : Z) (tiles : list CodecState) (g : GuardState) : option Z :=
  match tiles with [] => Some (default now g.(gs_idle_since_us)) | _ => None end.
Definition guard_update (now : Z) (tiles : list CodecState) (c : Classifier) : GuardState * bool :=
  let since := idle_since now tiles c.(cl_guard) in
  headroom_guard_engaged c.(cl_config) now c.(cl_context).(ac_bwe_estimate_bps)
    (match since with Some t => sat_sub now t | None => 0 end) (set_idle since c.(cl_guard)).
Definition in_holdoff (now : Z) (g : GuardState) : bool :=
  match g.(gs_stalled_at_us) with Some t => sat_sub now t <? g.(gs_holdoff_us) | None => false end.
Definition loss_forced (c : Classifier) : bool :=
  c.(cl_config).(cc_loss_override_enabled)
  && f32_lt (default LOSS_OVERRIDE_THRESHOLD c.(cl_config).(cc_loss_override_threshold)) c.(cl_context).(ac_loss_rate).

(** What each reason says of the decision. *)
Definition explains (now : Z) (tiles : list CodecState) (prev : FrameMode) (c : Classifier)
    (st : ClassifierHysteresis) (g : GuardState) (m : FrameMode) (r : Reason) : Prop :=
  let ctx := c.(cl_context) in
  match r with
  | RsEncoderUnavailable => ctx.(ac_h264_encoder_unavailable) = true ∧ m = FmTileCodec ∧ st = hyst_default ∧ g = c.(cl_guard)
  | RsTestForce => ctx.(ac_h264_encoder_unavailable) = false ∧ c.(cl_config).(cc_force_frame_mode) = Some m ∧
      st = hyst_default ∧ g = c.(cl_guard)
  | RsUnsupported => ctx.(ac_h264_encoder_unavailable) = false ∧ c.(cl_config).(cc_force_frame_mode) = None ∧
      ctx.(ac_supports_h264) = false ∧ m = FmTileCodec ∧ st = hyst_default ∧ g = c.(cl_guard)
  | _ => ctx.(ac_h264_encoder_unavailable) = false ∧ c.(cl_config).(cc_force_frame_mode) = None ∧ ctx.(ac_supports_h264) = true ∧
      ∃ g1 engaged, guard_update now tiles c = (g1, engaged) ∧
      match r with
      | RsStalled => ctx.(ac_h264_stalled) = true ∧ m = FmTileCodec ∧ st = hyst_default ∧ g = note_stall now prev g1
      | RsStalledHoldoff => ctx.(ac_h264_stalled) = false ∧ in_holdoff now g1 = true ∧ m = FmTileCodec ∧ st = hyst_default ∧ g = g1
      | _ => ctx.(ac_h264_stalled) = false ∧ in_holdoff now g1 = false ∧ g = g1 ∧
          match r with
          | RsHeadroomGuard => engaged = true ∧ m = FmH264 ∧ st = c.(cl_state)
          | RsLossOverride => engaged = false ∧ loss_forced c = true ∧ m = FmH264 ∧ st = hyst_default
          | RsSuspension => engaged = false ∧ ctx.(ac_suspended) = true ∧ m = FmH264 ∧ st = hyst_default
          | _ => engaged = false ∧ loss_forced c = false ∧ ctx.(ac_suspended) = false ∧ cost_path now tiles prev c = (st, (m, r))
          end
      end
  end.

Lemma cost_path_reason now tiles prev c st m r : cost_path now tiles prev c = (st, (m, r)) →
  r = RsCostComparison ∨ r = RsHysteresisClamp.
Proof. unfold cost_path. repeat case_match; intros [= <- <- <-]; auto. Qed.

#[local] Ltac explain :=
  cbn [explains]; do 3 (split; [assumption|]); eexists _, _; split; [eassumption|]; split_and!; first [assumption | reflexivity].

Lemma decide_core_explained now tiles prev c :
  ∃ st g m r, decide_core now tiles prev c = (with_state st g c, (m, r)) ∧ explains now tiles prev c st g m r.
Proof.
  unfold decide_core. destruct (ac_h264_encoder_unavailable _) eqn:Hu.
  { eexists _, _, _, _. split; [reflexivity|]. by cbn. }
  destruct (cc_force_frame_mode _) as [forced|] eqn:Hp.
  { eexists _, _, _, _. split; [reflexivity|]. by cbn. }
  destruct (ac_supports_h264 _) eqn:Hs; cbn [negb].
  2:{ eexists _, _, _, _. split; [reflexivity|]. by cbn. }
  fold (idle_since now tiles (cl_guard c)). fold (guard_update now tiles c).
  destruct (guard_update now tiles c) as [g1 engaged] eqn:Hg. fold (in_holdoff now g1). fold (loss_forced c).
  destruct (ac_h264_stalled _) eqn:Hst.
  { eexists _, _, _, _. split; [reflexivity|]. explain. }
  destruct (in_holdoff now g1) eqn:Hh.
  { eexists _, _, _, _. split; [reflexivity|]. explain. }
  destruct engaged.
  { eexists _, _, _, _. split; [reflexivity|]. explain. }
  destruct (loss_forced c) eqn:Hl.
  { eexists _, _, _, _. split; [reflexivity|]. explain. }
  destruct (ac_suspended _) eqn:Hsu.
  { eexists _, _, _, _. split; [reflexivity|]. explain. }
  destruct (cost_path now tiles prev c) as [st [m r]] eqn:Hc. exists st, g1, m, r. split; [reflexivity|].
  destruct (cost_path_reason _ _ _ _ _ _ _ Hc) as [-> | ->]; explain.
Qed.

(** The state a decision leaves, in one piece. *)
Lemma decide_shape now tiles prev c :
  ∃ st g m r, explains now tiles prev c st g m r ∧
    decide_inner now tiles prev c =
      (with_state st (set_healthy (if bool_decide (m = FmH264) then Some (default now g.(gs_healthy_since_us)) else None)
         (if bool_decide (m = FmH264) && (H264_STALL_HEALTHY_RESET_US <=? sat_sub now (default now g.(gs_healthy_since_us)))
          then 0 else g.(gs_stall_level)) g) c, (m, r)).
Proof.
  destruct (decide_core_explained now tiles prev c) as (st & g & m & r & Hc & He). exists st, g, m, r. split; [done|].
  unfold decide_inner. rewrite Hc. cbn [fst snd].
  assert (m = FmH264 → r ≠ RsStalled) as Hns.
  { intros -> ->. cbn in He. by destruct He as (_ & _ & _ & ? & ? & _ & _ & ? & _). }
  destruct m; cbn [bool_decide decide_rel]; [|done].
  rewrite (bool_decide_true (FmH264 = FmH264)) by done. rewrite (bool_decide_false (r = RsStalled)) by auto. done.
Qed.

Lemma cost_path_runs config c h now tiles prev st m r d : cl_inv config c h → cost_path now tiles prev c = (st, (m, r)) →
  d.(dc_now) = now → d.(dc_prev) = prev → d.(dc_enter) = enter_now c tiles → d.(dc_exit) = exit_now c tiles →
  d.(dc_reason) = r → st = mkHyst (hold_of (enter_run (d :: h))) (hold_of (exit_run (d :: h))).
Proof.
  intros Hi Hc Hn Hp He Hx Hr. pose proof (ci_state _ _ _ Hi) as Hst. unfold cost_path in Hc. rewrite Hst in Hc.
  cbn [enter_run exit_run hy_enter hy_exit] in *. unfold bears. rewrite Hp, He, Hx, Hr.
  destruct prev.
  - destruct (exit_now c tiles); [|by injection Hc as <- <- <-].
    rewrite <-Hn, hold_on_of in Hc. by destruct (hold_due _ _ _ _); injection Hc as <- <- <-.
  - destruct (enter_now c tiles); [|by injection Hc as <- <- <-].
    rewrite <-Hn, hold_on_of in Hc. by destruct (hold_due _ _ _ _); injection Hc as <- <- <-.
Qed.

Lemma backoff_code level : 1 ≤ level →
  Z.min H264_STALL_REENTRY_MAX_US (Z.min USIZE_MAX (H264_STALL_REENTRY_US * Z.shiftl 1 (Z.min (level - 1) 16))) = backoff level.
Proof.
  intros Hl. unfold backoff, H264_STALL_REENTRY_MAX_US, USIZE_MAX, H264_STALL_REENTRY_US. rewrite Z.shiftl_1_l.
  destruct (Z.le_gt_cases (level - 1) 16).
  - rewrite (Z.min_l (level - 1) 16) by lia. pose proof (Z.pow_le_mono_r 2 (level - 1) 16 ltac:(lia) ltac:(lia)). change (2 ^ 16) with 65536 in *. lia.
  - rewrite (Z.min_r _ 16) by lia. pose proof (Z.pow_le_mono_r 2 16 (level - 1) ltac:(lia) ltac:(lia)). change (2 ^ 16) with 65536 in *. lia.
Qed.

Lemma stall_level_nonneg h : 0 ≤ stall_level h.
Proof. induction h as [|d h IH]; cbn [stall_level]; [done|]. unfold U32_SAT. repeat case_match; lia. Qed.

(** The guard after a decision keeps what only a stall changes. *)
Lemma explains_guard config c h now tiles prev st g m r d : cl_inv config c h → explains now tiles prev c st g m r →
  d.(dc_now) = now → d.(dc_prev) = prev → d.(dc_mode) = m → d.(dc_reason) = r →
  g.(gs_stalled_at_us) = last_stall (d :: h) ∧ g.(gs_holdoff_us) = holdoff (d :: h) ∧
  g.(gs_healthy_since_us) = stretch_start h ∧
  g.(gs_stall_level) = (if bool_decide (r = RsStalled) && bool_decide (prev = FmH264) then Z.min U32_SAT (stall_level h + 1) else stall_level h).
Proof.
  intros Hi He Hn Hp Hm Hr. pose proof (ci_stalled _ _ _ Hi) as I1. pose proof (ci_level _ _ _ Hi) as I2.
  pose proof (ci_holdoff _ _ _ Hi) as I3. pose proof (ci_healthy _ _ _ Hi) as I4.
  assert (∀ g1 b, guard_update now tiles c = (g1, b) → g1.(gs_stalled_at_us) = last_stall h ∧ g1.(gs_stall_level) = stall_level h ∧
    g1.(gs_holdoff_us) = holdoff h ∧ g1.(gs_healthy_since_us) = stretch_start h) as Hup.
  { intros g1 b Hg. unfold guard_update in Hg. pose proof (headroom_guard_keeps (cl_config c) now (ac_bwe_estimate_bps (cl_context c))
      (match idle_since now tiles (cl_guard c) with Some t => sat_sub now t | None => 0 end)
      (set_idle (idle_since now tiles (cl_guard c)) (cl_guard c))) as Hk. rewrite Hg in Hk. cbn in Hk. destruct Hk as (-> & -> & -> & -> & _). auto. }
  cbn [last_stall holdoff]. rewrite Hr.
  destruct r; cbn [explains] in He;
    rewrite ?(bool_decide_false (_ = RsStalled)) by done; cbn [andb];
    try (destruct He as (_ & _ & _ & ->); by auto);
    try (destruct He as (_ & _ & _ & _ & _ & ->); by auto).
  1:{ rewrite (bool_decide_true (RsStalled = RsStalled)) by done. cbn [andb].
      destruct He as (_ & _ & _ & g1 & b & Hg & _ & Hmt & _ & ->). destruct (Hup _ _ Hg) as (_ & Hl & Hh & Hs).
      rewrite Hp. unfold note_stall. destruct prev; cbn [gs_stalled_at_us gs_holdoff_us gs_healthy_since_us gs_stall_level set_stall].
      - rewrite (bool_decide_true (FmH264 = FmH264)) by done. rewrite Hl, Hn. split; [done|]. split; [|done].
        cbn [stall_level]. rewrite Hr, Hp. rewrite !bool_decide_true by done.
        apply backoff_code. pose proof (stall_level_nonneg h). unfold U32_SAT. lia.
      - rewrite (bool_decide_false (FmTileCodec = FmH264)) by done. rewrite Hl, Hn, Hh. done. }
  1:{ destruct He as (_ & _ & _ & g1 & b & Hg & _ & _ & _ & _ & ->). destruct (Hup _ _ Hg) as (? & ? & ? & ?). auto. }
  all: destruct He as (_ & _ & _ & g1 & b & Hg & _ & _ & -> & _); destruct (Hup _ _ Hg) as (? & ? & ? & ?); auto.
Qed.

Lemma explains_state config c h now tiles prev st g m r d : cl_inv config c h → explains now tiles prev c st g m r →
  d.(dc_now) = now → d.(dc_prev) = prev → d.(dc_enter) = enter_now c tiles → d.(dc_exit) = exit_now c tiles →
  d.(dc_reason) = r → st = mkHyst (hold_of (enter_run (d :: h))) (hold_of (exit_run (d :: h))).
Proof.
  intros Hi He Hn Hp Hen Hex Hr. pose proof (ci_state _ _ _ Hi) as Hst.
  destruct r; cbn [explains] in He; cbn [enter_run exit_run]; unfold bears; rewrite Hr.
  1-3: naive_solver.
  1: by destruct He as (_ & _ & _ & g1 & b & _ & _ & _ & -> & _).
  1: by destruct He as (_ & _ & _ & g1 & b & _ & _ & _ & _ & -> & _).
  1: by destruct He as (_ & _ & _ & g1 & b & _ & _ & _ & _ & _ & _ & ->).
  1-2: by destruct He as (_ & _ & _ & g1 & b & _ & _ & _ & _ & _ & _ & _ & ->).
  all: destruct He as (_ & _ & _ & g1 & b & _ & _ & _ & _ & _ & _ & _ & Hc).
  all: pose proof (cost_path_runs config c h now tiles prev st m _ d Hi Hc Hn Hp Hen Hex Hr) as ->.
  all: cbn [enter_run exit_run]; unfold bears; by rewrite Hr.
Qed.

Lemma with_emitted config c h last : cl_inv config c h → cl_inv config (with_signals c.(cl_context) c.(cl_refinement_deficit_tiles) last c) h.
Proof. by intros []; constructor. Qed.

(** *** The guard *)

(** When an evaluated decision changes the guard's flag. *)
Definition guard_flips (config : ClassifierConfig) (d : Ruling) (h : list Ruling) : Prop :=
  let enter_bps := (headroom_thresholds config).1 in
  (guard_was h = true ∧ 0 < estimate d ∧ enter_bps ≤ estimate d ∧
     (∃ t, idle_start config (d :: h) = Some t ∧ 2000000 ≤ d.(dc_now) - t)) ∨
  (pushes config (guard_was h) d = true ∧
     lasted d.(dc_now) (if guard_was h then 1000000 else 500000) 3 (d :: guard_run config h)).

Lemma thresholds_ordered config : (headroom_thresholds config).1 ≤ (headroom_thresholds config).2.
Proof.
  unfold headroom_thresholds. destruct (cc_headroom_min_bpus config) as [b|]; cbn [fst snd]; [|done].
  pose proof (f32_to_usize_range (f64_mul (f64_of_f32 b) (f64_of_Z 8000000))) as Hr. revert Hr.
  generalize (f32_to_usize (f64_mul (f64_of_f32 b) (f64_of_Z 8000000))) as n. intros n Hr. pose proof (Z.div_pos n 2). lia.
Qed.

(** One evaluation, in terms of the history. *)
Lemma headroom_guard_history config g d h idle g' b :
  evaluated config d = true → g.(gs_headroom_active) = guard_was h →
  g.(gs_below) = (if guard_was h then hold_off else hold_of (guard_run config h)) →
  g.(gs_above) = (if guard_was h then hold_of (guard_run config h) else hold_off) →
  idle = match idle_start config (d :: h) with Some t => sat_sub d.(dc_now) t | None => 0 end →
  headroom_guard_engaged config d.(dc_now) (estimate d) idle g = (g', b) → d.(dc_guard) = b →
  g'.(gs_headroom_active) = b ∧
  g'.(gs_below) = (if b then hold_off else hold_of (guard_run config (d :: h))) ∧
  g'.(gs_above) = (if b then hold_of (guard_run config (d :: h)) else hold_off) ∧
  (b ≠ guard_was h ↔ guard_flips config d h).
Proof.
  intros Hev Ha Hb Hab Hidle Hg Hd. pose proof (headroom_guard_answer _ _ _ _ _ _ _ Hg) as Hbg.
  unfold guard_flips. cbn [guard_run]. rewrite Hev, Hd. unfold pushes. unfold headroom_guard_engaged in Hg.
  destruct (headroom_thresholds config) as [enter_bps exit_bps] eqn:Hth. cbn [fst].
  rewrite Ha in Hg. set (run := guard_run config h) in *.
  assert (∀ dwell, 0 < dwell → hold_due (dc_now d) dwell HEADROOM_MIN_EVALUATIONS (hold_on (dc_now d) (hold_of run)) = true ↔
            lasted (dc_now d) dwell 3 (d :: run)) as Hdue.
  { intros dwell Hp. rewrite hold_on_of. by apply hold_due_of. }
  assert ((HEADROOM_IDLE_RELEASE_US <=? idle) = true ↔ ∃ t, idle_start config (d :: h) = Some t ∧ 2000000 ≤ d.(dc_now) - t) as Hidl.
  { rewrite Z.leb_le, Hidle. unfold HEADROOM_IDLE_RELEASE_US, sat_sub. destruct (idle_start config (d :: h)) as [t|].
    - split; [intros; exists t; split; [done|lia]|intros (? & [= <-] & ?); lia].
    - split; [lia|by intros (? & ? & _)]. }
  destruct (Z.ltb_spec 0 (estimate d)) as [Hk|Hk]; cbn [andb] in Hg |- *.
  2:{ rewrite andb_false_r in Hg. cbn [andb] in Hg. injection Hg as <- <-. cbn [gs_headroom_active set_headroom gs_below gs_above]. rewrite andb_false_r.
      split; [done|]. split; [by destruct (guard_was h)|]. split; [by destruct (guard_was h)|]. split; [done|].
      intros [(_ & ? & _)|[? _]]; [lia|done]. }
  rewrite andb_true_r in Hg.
  destruct (guard_was h) eqn:Hw; cbn [andb] in Hg.
  - destruct (Z.leb_spec enter_bps (estimate d)) as [He|He]; cbn [andb] in Hg.
    + destruct (HEADROOM_IDLE_RELEASE_US <=? idle) eqn:Hi.
      { injection Hg as <- <-. cbn. split; [done|]. split; [done|]. split; [done|]. split; [|done]. intros _. left.
        split; [done|]. split; [done|]. split; [done|]. by apply Hidl. }
      destruct (Z.ltb_spec (estimate d) enter_bps); [lia|]. cbn [andb] in Hg.
      destruct (Z.ltb_spec exit_bps (estimate d)) as [Hx|Hx].
      * rewrite Hab in Hg. destruct (hold_due _ _ _ _) eqn:Hdu; injection Hg as <- <-; cbn.
        -- split; [done|]. split; [done|]. split; [done|]. split; [|done]. intros _. right. split; [done|]. by apply Hdue in Hdu.
        -- split; [done|]. split; [done|]. split; [by rewrite hold_on_of|]. split; [done|]. intros [(_ & _ & _ & Hr)|[_ Hl]].
           ++ by apply Hidl in Hr.
           ++ change 1000000 with HEADROOM_EXIT_HOLD_US in Hl. apply Hdue in Hl; [|done]. by rewrite Hdu in Hl.
      * injection Hg as <- <-. cbn. split; [done|]. split; [done|]. split; [done|]. split; [done|].
        intros [(_ & _ & _ & Hr)|[? _]]; [by apply Hidl in Hr|done].
    + destruct (Z.ltb_spec (estimate d) enter_bps); [|lia]. injection Hg as <- <-. cbn. split; [done|]. split; [done|].
      pose proof (thresholds_ordered config) as Hord. rewrite Hth in Hord. cbn [fst snd] in Hord.
      destruct (Z.ltb_spec exit_bps (estimate d)); [lia|]. split; [done|]. split; [done|].
      intros [(_ & _ & ? & _)|[? _]]; [lia|done].
  - destruct (Z.ltb_spec (estimate d) enter_bps) as [He|He]; cbn [andb] in Hg.
    + rewrite Hb in Hg. destruct (hold_due _ _ _ _) eqn:Hdu; injection Hg as <- <-; cbn.
      * split; [done|]. split; [done|]. split; [done|]. split; [|done]. intros _. right. split; [done|]. by apply Hdue in Hdu.
      * split; [done|]. split; [by rewrite hold_on_of|]. split; [done|]. split; [done|]. intros [(? & _)|[_ Hl]]; [done|].
        change 500000 with HEADROOM_ENTER_HOLD_US in Hl. apply Hdue in Hl; [|done]. by rewrite Hdu in Hl.
    + assert (g' = set_headroom false hold_off (gs_above g) g ∨ g' = set_headroom false hold_off hold_off g ∨ g' = set_headroom false hold_off hold_off g) as Hg'.
      { destruct (exit_bps <? estimate d); injection Hg as <- _; auto. }
      assert (b = false) as -> by (rewrite Hbg; by destruct Hg' as [->|[->| ->]]).
      cbn. split; [by destruct Hg' as [->|[->| ->]]|]. split; [by destruct Hg' as [->|[->| ->]]|].
      split; [destruct Hg' as [->|[->| ->]]; cbn; by rewrite ?Hab|]. split; [done|]. intros [(? & _)|[? _]]; done.
Qed.

(** The guard's part of the state after any decision. *)
Lemma explains_headroom config c h now tiles prev st g m r d : cl_inv config c h → explains now tiles prev c st g m r →
  d.(dc_now) = now → d.(dc_ctx) = c.(cl_context) → d.(dc_idle) = bool_decide (tiles = []) → d.(dc_guard) = g.(gs_headroom_active) →
  g.(gs_idle_since_us) = idle_start config (d :: h) ∧
  g.(gs_headroom_active) = guard_was (d :: h) ∧
  g.(gs_below) = (if guard_was (d :: h) then hold_off else hold_of (guard_run config (d :: h))) ∧
  g.(gs_above) = (if guard_was (d :: h) then hold_of (guard_run config (d :: h)) else hold_off) ∧
  (d.(dc_guard) ≠ guard_was h ↔ evaluated config d = true ∧ guard_flips config d h).
Proof.
  intros Hi He Hn Hc Hid Hd. pose proof (ci_config _ _ _ Hi) as Hcfg.
  assert (evaluated config d = false → g = c.(cl_guard) →
    g.(gs_idle_since_us) = idle_start config (d :: h) ∧ g.(gs_headroom_active) = guard_was (d :: h) ∧
    g.(gs_below) = (if guard_was (d :: h) then hold_off else hold_of (guard_run config (d :: h))) ∧
    g.(gs_above) = (if guard_was (d :: h) then hold_of (guard_run config (d :: h)) else hold_off) ∧
    (d.(dc_guard) ≠ guard_was h ↔ evaluated config d = true ∧ guard_flips config d h)) as Hskip.
  { intros Hev Hg. cbn [idle_start guard_was guard_run]. rewrite Hev, Hd, Hg.
    rewrite (ci_idle _ _ _ Hi), (ci_active _ _ _ Hi), (ci_below _ _ _ Hi), (ci_above _ _ _ Hi).
    do 4 (split; [done|]). split; [done|by intros []]. }
  assert (∀ g1 b, evaluated config d = true → guard_update now tiles c = (g1, b) → g.(gs_headroom_active) = g1.(gs_headroom_active) →
    g.(gs_below) = g1.(gs_below) → g.(gs_above) = g1.(gs_above) → g.(gs_idle_since_us) = g1.(gs_idle_since_us) →
    g.(gs_idle_since_us) = idle_start config (d :: h) ∧ g.(gs_headroom_active) = guard_was (d :: h) ∧
    g.(gs_below) = (if guard_was (d :: h) then hold_off else hold_of (guard_run config (d :: h))) ∧
    g.(gs_above) = (if guard_was (d :: h) then hold_of (guard_run config (d :: h)) else hold_off) ∧
    (d.(dc_guard) ≠ guard_was h ↔ evaluated config d = true ∧ guard_flips config d h)) as Hlook.
  { intros g1 b Hev Hg E1 E2 E3 E4. unfold guard_update in Hg.
    assert (idle_since now tiles (cl_guard c) = idle_start config (d :: h)) as His.
    { cbn [idle_start]. rewrite Hev, Hid, Hn. unfold idle_since. rewrite (ci_idle _ _ _ Hi). by destruct tiles. }
    pose proof (headroom_guard_keeps (cl_config c) now (ac_bwe_estimate_bps (cl_context c))
      (match idle_since now tiles (cl_guard c) with Some t => sat_sub now t | None => 0 end)
      (set_idle (idle_since now tiles (cl_guard c)) (cl_guard c))) as Hk. rewrite Hg in Hk. cbn in Hk. destruct Hk as (_ & _ & _ & _ & Hk).
    pose proof (headroom_guard_answer _ _ _ _ _ _ _ Hg) as Hb.
    rewrite Hcfg, <-Hn in Hg. replace (ac_bwe_estimate_bps (cl_context c)) with (estimate d) in Hg by (unfold estimate; by rewrite Hc).
    assert (dc_guard d = b) as Hdb by (by rewrite Hd, E1, Hb).
    destruct (headroom_guard_history config (set_idle (idle_since (dc_now d) tiles (cl_guard c)) (cl_guard c)) d h
      (match idle_since (dc_now d) tiles (cl_guard c) with Some t => sat_sub (dc_now d) t | None => 0 end) g1 b Hev
      (ci_active _ _ _ Hi) (ci_below _ _ _ Hi) (ci_above _ _ _ Hi) ltac:(rewrite <-His, Hn; reflexivity) Hg Hdb) as (H1 & H2 & H3 & H4).
    cbn [guard_was]. rewrite E4, Hk, His, E1, E2, E3, Hd, E1, H2, H3, <-Hb.
    split; [done|]. split; [done|]. split; [done|]. split; [done|]. rewrite H4. naive_solver. }
  assert (∀ r', match r' with RsEncoderUnavailable | RsTestForce | RsUnsupported => False | _ => r = r' end →
    evaluated config d = true) as Hevd.
  { intros r' Hr'. unfold evaluated. rewrite Hc, <-Hcfg.
    destruct r'; try done; subst r; cbn [explains] in He; destruct He as (-> & -> & -> & _); done. }
  destruct r; cbn [explains] in He.
  1: apply Hskip; [unfold evaluated; rewrite Hc; by destruct He as (-> & _)|by destruct He as (_ & _ & _ & ->)].
  1: apply Hskip; [unfold evaluated; rewrite Hc, <-Hcfg; destruct He as (-> & -> & _); done|by destruct He as (_ & _ & _ & ->)].
  1: apply Hskip; [unfold evaluated; rewrite Hc, <-Hcfg; destruct He as (-> & -> & -> & _); done|by destruct He as (_ & _ & _ & _ & _ & ->)].
  1: destruct He as (_ & _ & _ & g1 & b & Hg & _ & _ & _ & ->); apply (Hlook g1 b (Hevd RsStalled eq_refl) Hg); by destruct prev.
  1: destruct He as (_ & _ & _ & g1 & b & Hg & _ & _ & _ & _ & ->); by apply (Hlook g1 b (Hevd RsStalledHoldoff eq_refl) Hg).
  all: destruct He as (_ & _ & _ & g1 & b & Hg & _ & _ & -> & _).
  all: apply (Hlook g1 b); [|exact Hg|done..].
  - exact (Hevd RsHeadroomGuard eq_refl).
  - exact (Hevd RsLossOverride eq_refl).
  - exact (Hevd RsSuspension eq_refl).
  - exact (Hevd RsCostComparison eq_refl).
  - exact (Hevd RsHysteresisClamp eq_refl).
Qed.

Lemma cl_decide_inv config c h now tiles prev : cl_inv config c h →
  cl_inv config (decide_frame_mode_at now tiles prev c).1 (decision_of now tiles prev c :: h).
Proof.
  intros Hi. destruct (decide_shape now tiles prev c) as (st & g & m & r & He & Hd).
  unfold decide_frame_mode_at, decision_of. rewrite Hd. cbn [fst snd].
  set (d := mkRuling _ _ _ _ _ _ _ _ _).
  assert (cl_inv config (with_state st (set_healthy (if bool_decide (m = FmH264) then Some (default now g.(gs_healthy_since_us)) else None)
         (if bool_decide (m = FmH264) && (H264_STALL_HEALTHY_RESET_US <=? sat_sub now (default now g.(gs_healthy_since_us)))
          then 0 else g.(gs_stall_level)) g) c) (d :: h)) as Hinv.
  { destruct (explains_guard config c h now tiles prev st g m r d Hi He) as (G1 & G2 & G3 & G4); [done..|].
    constructor; cbn [with_state cl_config cl_enter_sustain_micros cl_exit_sustain_micros cl_enter_sustain_frames_min
      cl_exit_sustain_frames_min cl_state cl_guard set_healthy gs_stalled_at_us gs_stall_level gs_holdoff_us gs_healthy_since_us
      gs_idle_since_us gs_headroom_active gs_below gs_above]; try apply Hi.
    - by apply (explains_state config c h now tiles prev st g m r d).
    - done.
    - cbn [stall_level]. rewrite G3, G4. cbn [d dc_mode dc_now dc_reason dc_prev].
      destruct (bool_decide (r = RsStalled)) eqn:Hrs; [|done]. apply bool_decide_eq_true in Hrs. subst r.
      destruct He as (_ & _ & _ & ? & ? & _ & _ & -> & _). rewrite (bool_decide_false (FmTileCodec = FmH264)) by done.
      cbn [andb]. by destruct (bool_decide (prev = FmH264)).
    - done.
    - cbn [stretch_start]. rewrite G3. cbn [d dc_mode dc_now]. done.
    - apply (explains_headroom config c h now tiles prev st g m r d Hi He); done.
    - apply (explains_headroom config c h now tiles prev st g m r d Hi He); done.
    - apply (explains_headroom config c h now tiles prev st g m r d Hi He); done.
    - apply (explains_headroom config c h now tiles prev st g m r d Hi He); done. }
  destruct (bool_decide (cl_last_emitted_mode _ = _)); [exact Hinv|]. exact (with_emitted _ _ _ _ Hinv).
Qed.

Lemma classifier_new_inv config : cl_inv config (classifier_new config) [].
Proof. by constructor. Qed.

Lemma cl_run_inv config evs c h c' h' : cl_inv config c h → cl_run evs c h = (c', h') → cl_inv config c' h'.
Proof.
  induction evs as [|ev evs IH] in c, h |- *; intros Hi Hr; cbn [cl_run] in Hr; [by simplify_eq|].
  destruct ev as [ctx|n| |now tiles prev]; eapply IH, Hr.
  - unfold set_adaptation_context. case_match; by destruct Hi; constructor.
  - by destruct Hi; constructor.
  - destruct Hi. by constructor.
  - by apply cl_decide_inv.
Qed.

Lemma session_inv config evs c h : cl_run evs (classifier_new config) [] = (c, h) → cl_inv config c h.
Proof. apply cl_run_inv, classifier_new_inv. Qed.

(** ** H.264 only where it works *)

Lemma holdoff_range h : holdoff h = 0 ∧ last_stall h = None ∨ 2000000 ≤ holdoff h ≤ 30000000.
Proof.
  induction h as [|d h IH]; [by left|]. cbn [holdoff last_stall]. case_bool_decide as Hr; [|done]. right.
  destruct (dc_prev d) eqn:Hp.
  - cbn [stall_level]. rewrite !bool_decide_true by done. unfold backoff. pose proof (stall_level_nonneg h) as Hl.
    assert (0 ≤ U32_SAT `min` (stall_level h + 1) - 1) as Hl1 by (unfold U32_SAT; lia).
    pose proof (Z.pow_le_mono_r 2 0 _ ltac:(lia) Hl1). change (2 ^ 0) with 1 in *. lia.
  - destruct (Z.eqb_spec (holdoff h) 0); lia.
Qed.

(** C12: H.264 is chosen only where it can be encoded, carried and shown.  After any session, a frame decided as
    H.264 means that an encoder is available; and, unless the mode is pinned, that the client decodes
    H.264, the transport is not stalled, and since the last stall its holdoff has passed: two seconds, doubled by
    each stall that ended a stretch of H.264 since one lasted ten seconds, and never more than thirty. *)
Theorem h264_only_where_it_works config evs c h now tiles prev :
  cl_run evs (classifier_new config) [] = (c, h) → (decide_frame_mode_at now tiles prev c).2 = FmH264 →
  c.(cl_context).(ac_h264_encoder_unavailable) = false ∧
  (config.(cc_force_frame_mode) = Some FmH264 ∨
   config.(cc_force_frame_mode) = None ∧ c.(cl_context).(ac_supports_h264) = true ∧ c.(cl_context).(ac_h264_stalled) = false ∧
   ∀ t, last_stall h = Some t → 2000000 ≤ holdoff h ≤ 30000000 ∧ t + holdoff h ≤ now).
Proof.
  intros Hrun Hm. pose proof (session_inv _ _ _ _ Hrun) as Hi. rewrite decide_mode in Hm.
  destruct (decide_shape now tiles prev c) as (st & g & m & r & He & Hd). rewrite Hd in Hm. cbn in Hm. subst m.
  pose proof (ci_config _ _ _ Hi) as Hcfg. rewrite <-Hcfg.
  assert (∀ g1 b, guard_update now tiles c = (g1, b) → in_holdoff now g1 = false →
    ∀ t, last_stall h = Some t → 2000000 ≤ holdoff h ≤ 30000000 ∧ t + holdoff h ≤ now) as Hhold.
  { intros g1 b Hg Hin t Ht. unfold guard_update in Hg.
    pose proof (headroom_guard_keeps (cl_config c) now (ac_bwe_estimate_bps (cl_context c))
      (match idle_since now tiles (cl_guard c) with Some t => sat_sub now t | None => 0 end)
      (set_idle (idle_since now tiles (cl_guard c)) (cl_guard c))) as Hk. rewrite Hg in Hk. cbn in Hk. destruct Hk as (Hs & _ & Hh & _).
    unfold in_holdoff in Hin. rewrite Hs, Hh, (ci_stalled _ _ _ Hi), (ci_holdoff _ _ _ Hi), Ht in Hin. apply Z.ltb_ge in Hin.
    destruct (holdoff_range h) as [[_ Hn]|Hr]; [congruence|]. split; [done|]. unfold sat_sub in Hin. lia. }
  destruct r; cbn [explains] in He.
  - by destruct He as (_ & ? & _).
  - destruct He as (? & ? & _). auto.
  - by destruct He as (_ & _ & _ & ? & _).
  - by destruct He as (_ & _ & _ & g1 & b & _ & _ & ? & _).
  - by destruct He as (_ & _ & _ & g1 & b & _ & _ & _ & ? & _).
  - destruct He as (-> & ? & ? & g1 & b & Hg & ? & Hin & _). split; [done|]. right. eauto 10.
  - destruct He as (-> & ? & ? & g1 & b & Hg & ? & Hin & _). split; [done|]. right. eauto 10.
  - destruct He as (-> & ? & ? & g1 & b & Hg & ? & Hin & _). split; [done|]. right. eauto 10.
  - destruct He as (-> & ? & ? & g1 & b & Hg & ? & Hin & _). split; [done|]. right. eauto 10.
  - destruct He as (-> & ? & ? & g1 & b & Hg & ? & Hin & _). split; [done|]. right. eauto 10.
Qed.

(** ** Changes of mode are earned *)

Definition other (m : FrameMode) : FrameMode := match m with FmH264 => FmTileCodec | FmTileCodec => FmH264 end.
(** The condition for leaving a mode, and how long it must hold. *)
Definition wants_out (from : FrameMode) (d : Ruling) : bool := match from with FmTileCodec => d.(dc_enter) | FmH264 => d.(dc_exit) end.
Definition dwell_us (from : FrameMode) : Z := match from with FmTileCodec => 50000 | FmH264 => 500000 end.
Definition dwell_frames (from : FrameMode) : Z := match from with FmTileCodec => 3 | FmH264 => 30 end.
Definition run_from (from : FrameMode) (h : list Ruling) : list Ruling :=
  match from with FmTileCodec => enter_run h | FmH264 => exit_run h end.

(** A decision that counts: the costs were compared in that mode, and spoke for leaving it. *)
Definition counts (from : FrameMode) (d : Ruling) : bool :=
  bool_decide (bears d = BrCost) && bool_decide (d.(dc_prev) = from) && wants_out from d.
(** One that does not end a run: it counts, or the guard forced it, or the costs were compared in the other
    mode and spoke for staying there. *)
Definition steady (from : FrameMode) (d : Ruling) : bool :=
  bool_decide (bears d = BrAside)
  || counts from d && negb (bool_decide (d.(dc_reason) = RsCostComparison))
  || bool_decide (bears d = BrCost) && bool_decide (d.(dc_prev) = other from) && negb (wants_out (other from) d).

Lemma run_from_step from d h :
  run_from from (d :: h) =
    if steady from d then (if counts from d then d :: run_from from h else run_from from h) else [].
Proof.
  unfold steady, counts, wants_out, run_from, other.
  destruct from; cbn [enter_run exit_run]; destruct (bears d); destruct (dc_prev d); cbn;
    destruct (dc_enter d), (dc_exit d); cbn; try done; by destruct (bool_decide (dc_reason d = RsCostComparison)).
Qed.

Lemma run_from_meaning from h : ∃ pre post, h = pre ++ post ∧ Forall (λ x, steady from x = true) pre ∧
  run_from from h = filter (λ x, counts from x = true) pre.
Proof.
  induction h as [|d h (pre & post & -> & Hst & Hr)]; [by exists [], []; destruct from|].
  rewrite run_from_step. destruct (steady from d) eqn:Hs.
  - exists (d :: pre), post. split; [done|]. split; [by constructor|]. rewrite filter_cons, Hr.
    destruct (counts from d); case_decide; done.
  - by exists [], (d :: pre ++ post).
Qed.

(** What the cost path decides, in terms of the history. *)
Lemma cost_decision config c h now tiles prev :
  cl_inv config c h → let d := decision_of now tiles prev c in bears d = BrCost →
  (wants_out prev d = true ∧ lasted now (dwell_us prev) (dwell_frames prev) (d :: run_from prev h) ∧
     dc_mode d = other prev ∧ dc_reason d = RsCostComparison) ∨
  (¬ (wants_out prev d = true ∧ lasted now (dwell_us prev) (dwell_frames prev) (d :: run_from prev h)) ∧
     dc_mode d = prev ∧ dc_reason d = RsHysteresisClamp).
Proof.
  intros Hi d Hb. destruct (decide_shape now tiles prev c) as (st & g & m & r & He & Hd).
  assert (dc_mode d = m ∧ dc_reason d = r) as [Hm Hr] by (unfold d, decision_of; by rewrite Hd).
  assert (dc_now d = now ∧ dc_prev d = prev ∧ dc_enter d = enter_now c tiles ∧ dc_exit d = exit_now c tiles)
    as (Hn & Hp & Hen & Hex) by (unfold d, decision_of; by rewrite Hd).
  rewrite Hm, Hr. unfold bears in Hb. rewrite Hr in Hb.
  assert (cost_path now tiles prev c = (st, (m, r))) as Hc.
  { destruct r; try done; cbn [explains] in He; destruct He as (_ & _ & _ & g1 & b & _ & _ & _ & _ & _ & _ & _ & Hc); exact Hc. }
  pose proof (ci_state _ _ _ Hi) as Hst. unfold cost_path in Hc. rewrite Hst in Hc. cbn [hy_enter hy_exit] in Hc.
  rewrite (ci_enter_micros _ _ _ Hi), (ci_exit_micros _ _ _ Hi), (ci_enter_frames _ _ _ Hi), (ci_exit_frames _ _ _ Hi) in Hc.
  unfold wants_out, run_from, dwell_us, dwell_frames. rewrite Hen, Hex. destruct prev.
  - destruct (exit_now c tiles); [|injection Hc as <- <- <-; right; split; [by intros []|done]].
    rewrite <-Hn, hold_on_of in Hc. pose proof (hold_due_of (dc_now d) 500000 30 (d :: exit_run h) ltac:(lia) ltac:(done)) as Hdue.
    rewrite <-Hn. destruct (hold_due _ _ _ _); injection Hc as <- <- <-.
    + left. split; [done|]. split; [by apply Hdue|done].
    + right. split; [|done]. by intros [_ ?%Hdue].
  - destruct (enter_now c tiles); [|injection Hc as <- <- <-; right; split; [by intros []|done]].
    rewrite <-Hn, hold_on_of in Hc. pose proof (hold_due_of (dc_now d) 50000 3 (d :: enter_run h) ltac:(lia) ltac:(done)) as Hdue.
    rewrite <-Hn. destruct (hold_due _ _ _ _); injection Hc as <- <- <-.
    + left. split; [done|]. split; [by apply Hdue|done].
    + right. split; [|done]. by intros [_ ?%Hdue].
Qed.

(** C19: A change of mode is earned.  After any session, when the cost comparison changes the mode, there is a
    stretch of decisions up to this one, none of which ended the run, in which the comparison spoke
    for the change at least three times over at least 50 ms (to enter H.264), or thirty times over
    half a second (to leave it); decisions forced by the headroom guard may lie between them.  And when
    it keeps the mode, that is because there is no such run yet. *)
Theorem mode_changes_are_earned config evs c h now tiles prev :
  cl_run evs (classifier_new config) [] = (c, h) → let d := decision_of now tiles prev c in
  bears d = BrCost →
  (dc_mode d = other prev ↔ counts prev d = true ∧ lasted now (dwell_us prev) (dwell_frames prev) (d :: run_from prev h)) ∧
  ∃ pre post, h = pre ++ post ∧ Forall (λ x, steady prev x = true) pre ∧ run_from prev h = filter (λ x, counts prev x = true) pre.
Proof.
  intros Hrun d Hb. pose proof (session_inv _ _ _ _ Hrun) as Hi. split; [|apply run_from_meaning].
  assert (counts prev d = wants_out prev d) as ->.
  { unfold counts. rewrite (bool_decide_true (bears d = BrCost)) by done.
    assert (dc_prev d = prev) as -> by (unfold d, decision_of; by destruct (decide_inner now tiles prev c)).
    by rewrite bool_decide_true. }
  destruct (cost_decision config c h now tiles prev Hi Hb) as [(Hw & Hl & Hm & _)|(Hn & Hm & _)]; fold d in Hm; rewrite Hm.
  - done.
  - split; [by destruct prev|]. intros Hc. by destruct Hn.
Qed.

(** C25: The headroom guard is a latch on the bandwidth estimate.  After any session, a decision changes the
    guard exactly when it looked at the estimate and: the guard was released and at least three such decisions in a row,
    over at least half a second, found a known estimate below the enter threshold; or it was
    engaged and three in a row over a second found it above the exit threshold, or the estimate is
    not below the enter threshold and the screen has not changed for two seconds.  Without a stall, an
    engaged guard decides for H.264. *)
Theorem guard_latches config evs c h now tiles prev :
  cl_run evs (classifier_new config) [] = (c, h) → let d := decision_of now tiles prev c in
  (dc_guard d ≠ guard_was h ↔ evaluated config d = true ∧ guard_flips config d h) ∧
  (evaluated config d = true → dc_guard d = true → dc_reason d ≠ RsStalled → dc_reason d ≠ RsStalledHoldoff → dc_mode d = FmH264).
Proof.
  intros Hrun d. pose proof (session_inv _ _ _ _ Hrun) as Hi.
  destruct (decide_shape now tiles prev c) as (st & g & m & r & He & Hd).
  assert (dc_now d = now ∧ dc_ctx d = cl_context c ∧ dc_idle d = bool_decide (tiles = []) ∧ dc_guard d = gs_headroom_active g
          ∧ dc_mode d = m ∧ dc_reason d = r) as (Hn & Hc & Hid & Hg & Hm & Hr).
  { unfold d, decision_of. by rewrite Hd. }
  split.
  { by apply (explains_headroom config c h now tiles prev st g m r d Hi He). }
  rewrite Hm, Hr, Hg. unfold evaluated. rewrite Hc, <-(ci_config _ _ _ Hi).
  assert (∀ g1 b, guard_update now tiles c = (g1, b) → b = gs_headroom_active g1) as Hans.
  { intros g1 b Hu. by apply headroom_guard_answer in Hu. }
  intros Hev Ha Hs Hh. destruct r; cbn [explains] in He; try done.
  - destruct He as (Hu & _). by rewrite Hu in Hev.
  - destruct He as (_ & Hf & _). rewrite Hf in Hev. by rewrite (bool_decide_false (Some m = None)), andb_false_r in Hev.
  - destruct He as (_ & _ & Hu & _). by rewrite Hu, andb_false_r in Hev.
  - by destruct He as (_ & _ & _ & g1 & b & _ & _ & _ & _ & _ & ? & _).
  - by destruct He as (_ & _ & _ & g1 & b & _ & _ & _ & _ & _ & _ & ? & _).
  - by destruct He as (_ & _ & _ & g1 & b & _ & _ & _ & _ & _ & _ & ? & _).
  - destruct He as (_ & _ & _ & g1 & b & Hu & _ & _ & -> & Hb & _). apply Hans in Hu. congruence.
  - destruct He as (_ & _ & _ & g1 & b & Hu & _ & _ & -> & Hb & _). apply Hans in Hu. congruence.
Qed.

(** ** Sustained pressure changes the mode *)

(** The bridge asks with the mode it was last given. *)
Fixpoint frames (l : list (Z * list CodecState)) (mode : FrameMode) (c : Classifier) : list FrameMode :=
  match l with
  | [] => []
  | (now, tiles) :: l => let '(c, mode) := decide_frame_mode_at now tiles mode c in mode :: frames l mode c
  end.

(** Nothing overrides the cost comparison. *)
Record calm (c : Classifier) : Prop := {
  ca_available : c.(cl_context).(ac_h264_encoder_unavailable) = false;
  ca_unpinned : c.(cl_config).(cc_force_frame_mode) = None;
  ca_supported : c.(cl_context).(ac_supports_h264) = true;
  ca_flowing : c.(cl_context).(ac_h264_stalled) = false;
  ca_lossless : loss_forced c = false;
  ca_awake : c.(cl_context).(ac_suspended) = false;
  ca_released : c.(cl_guard).(gs_headroom_active) = false;
  ca_headroom : c.(cl_context).(ac_bwe_estimate_bps) ≤ 0 ∨
                (headroom_thresholds c.(cl_config)).1 ≤ c.(cl_context).(ac_bwe_estimate_bps);
}.
Definition presses (from : FrameMode) (c : Classifier) (tiles : list CodecState) : bool :=
  match from with FmTileCodec => enter_now c tiles | FmH264 => exit_now c tiles end.

Lemma calm_guard c now tiles g b : calm c → guard_update now tiles c = (g, b) → b = false ∧ g.(gs_headroom_active) = false.
Proof.
  intros [_ _ _ _ _ _ Ha Hh]. unfold guard_update, headroom_guard_engaged.
  destruct (headroom_thresholds (cl_config c)) as [enter_bps exit_bps]. cbn [fst] in Hh. cbn [set_idle gs_headroom_active]. rewrite Ha.
  cbn [andb]. assert ((0 <? ac_bwe_estimate_bps (cl_context c)) && (ac_bwe_estimate_bps (cl_context c) <? enter_bps) = false) as ->.
  { destruct (Z.ltb_spec 0 (ac_bwe_estimate_bps (cl_context c))), (Z.ltb_spec (ac_bwe_estimate_bps (cl_context c)) enter_bps); try done. lia. }
  destruct ((0 <? _) && (exit_bps <? _)); by intros [= <- <-].
Qed.

Lemma calm_decision config c h now tiles prev : cl_inv config c h → calm c →
  (∀ t, last_stall h = Some t → t + holdoff h ≤ now) →
  bears (decision_of now tiles prev c) = BrCost ∧ calm (decide_frame_mode_at now tiles prev c).1 ∧
  ∀ from tl, presses from (decide_frame_mode_at now tiles prev c).1 tl = presses from c tl.
Proof.
  intros Hi Hca Hho. destruct (decide_shape now tiles prev c) as (st & g & m & r & He & Hd).
  destruct (guard_update now tiles c) as [g1 b] eqn:Hg. destruct (calm_guard _ _ _ _ _ Hca Hg) as [-> Hg1].
  assert (in_holdoff now g1 = false) as Hin.
  { unfold guard_update in Hg. pose proof (headroom_guard_keeps (cl_config c) now (ac_bwe_estimate_bps (cl_context c))
      (match idle_since now tiles (cl_guard c) with Some t => sat_sub now t | None => 0 end)
      (set_idle (idle_since now tiles (cl_guard c)) (cl_guard c))) as Hk. rewrite Hg in Hk. cbn in Hk. destruct Hk as (Hs & _ & Hh & _).
    unfold in_holdoff. rewrite Hs, Hh, (ci_stalled _ _ _ Hi), (ci_holdoff _ _ _ Hi). destruct (last_stall h) as [t|] eqn:Ht; [|done].
    apply Z.ltb_ge. unfold sat_sub. specialize (Hho t eq_refl). lia. }
  pose proof Hca as [Hu Hp Hs Hst Hl Hsu Hre Hhe].
  assert (bears (decision_of now tiles prev c) = BrCost ∧ g = g1) as [Hb ->].
  { unfold decision_of, bears. rewrite Hd. cbn [dc_reason fst snd].
    destruct r; cbn [explains] in He; try (exfalso; destruct He as (? & ? & ? & ?); congruence).
    - destruct He as (_ & _ & _ & g2 & b & Hg2 & Hx & _). congruence.
    - destruct He as (_ & _ & _ & g2 & b & Hg2 & _ & Hx & _). rewrite Hg in Hg2. simplify_eq. congruence.
    - destruct He as (_ & _ & _ & g2 & b & Hg2 & _ & _ & _ & Hx & _). rewrite Hg in Hg2. simplify_eq.
    - destruct He as (_ & _ & _ & g2 & b & Hg2 & _ & _ & _ & _ & Hx & _). congruence.
    - destruct He as (_ & _ & _ & g2 & b & Hg2 & _ & _ & _ & _ & Hx & _). congruence.
    - destruct He as (_ & _ & _ & g2 & b & Hg2 & _ & _ & -> & _). rewrite Hg in Hg2. by simplify_eq.
    - destruct He as (_ & _ & _ & g2 & b & Hg2 & _ & _ & -> & _). rewrite Hg in Hg2. by simplify_eq. }
  split; [done|]. unfold decide_frame_mode_at. rewrite Hd. cbn [fst snd].
  destruct (bool_decide (cl_last_emitted_mode _ = _)); (split; [by constructor|]); intros [] tl; reflexivity.
Qed.

Lemma pressure_accumulates config from l c h : cl_inv config c h → calm c →
  (∀ t, last_stall h = Some t → Forall (λ f, t + holdoff h ≤ f.1) l) →
  Forall (λ f, presses from c f.2 = true) l → other from ∉ frames l from c →
  ∀ f last_now, head l = Some f → last l.*1 = Some last_now →
  ∃ run, ¬ lasted last_now (dwell_us from) (dwell_frames from) run ∧
    length run = (length l + length (run_from from h))%nat ∧
    dc_now <$> last run = Some (match last (run_from from h) with Some x => x.(dc_now) | None => f.1 end).
Proof.
  induction l as [|[now tiles] l IH] in c, h |- *; [done|]. intros Hi Hca Hho Hpr Hno f last_now Hf Hlast.
  cbn [head] in Hf. injection Hf as <-. cbn [fst]. apply Forall_cons in Hpr as [Hpr Hprs]. cbn [snd] in Hpr.
  destruct (calm_decision config c h now tiles from Hi Hca) as (Hb & Hca' & Hsame).
  { intros t Ht. specialize (Hho t Ht). apply Forall_cons in Hho as [? _]. done. }
  pose proof (cl_decide_inv config c h now tiles from Hi) as Hi'.
  cbn [frames] in Hno. pose proof (decide_mode now tiles from c) as Hmode.
  destruct (decide_frame_mode_at now tiles from c) as [c' mode] eqn:Hdec. cbn [fst snd] in *.
  set (d := decision_of now tiles from c) in *.
  assert (dc_now d = now ∧ dc_prev d = from ∧ dc_mode d = mode ∧ wants_out from d = true) as (Hn & Hp & Hm & Hw).
  { unfold d, decision_of. rewrite Hmode. destruct (decide_inner now tiles from c) as [c2 out]. cbn. done. }
  destruct (cost_decision config c h now tiles from Hi Hb) as [(_ & _ & Hmo & _)|(Hnl & Hmo & Hrs)]; fold d in Hmo.
  { exfalso. apply Hno. rewrite <-Hm, Hmo. left. }
  assert (mode = from) as -> by congruence. fold d in Hnl, Hrs.
  assert (run_from from (d :: h) = d :: run_from from h) as Hrun.
  { assert (counts from d = true) as Hcn. { unfold counts. rewrite Hw, (bool_decide_eq_true_2 _ Hb), (bool_decide_eq_true_2 _ Hp). done. }
    rewrite run_from_step, Hcn. unfold steady. rewrite Hcn, Hrs. cbn. by rewrite orb_true_r. }
  assert (¬ lasted now (dwell_us from) (dwell_frames from) (d :: run_from from h)) as Hnl' by (intros ?; by apply Hnl).
  assert (dc_now <$> last (d :: run_from from h)
          = Some (match last (run_from from h) with Some x => dc_now x | None => now end)) as Hx.
  { rewrite last_cons. destruct (last (run_from from h)); cbn; [done|by rewrite Hn]. }
  destruct l as [|f2 l2].
  { cbn in Hlast. injection Hlast as <-. exists (d :: run_from from h). done. }
  destruct (IH c' (d :: h) Hi' Hca') with (f := f2) (last_now := last_now) as (run & Hnr & Hlen & Hy).
  - intros t. assert (bool_decide (dc_reason d = RsStalled) = false) as Hns by (by rewrite Hrs).
    cbn [last_stall holdoff]. rewrite Hns. intros Ht. specialize (Hho t Ht). by apply Forall_cons in Hho as [_ ?].
  - eapply Forall_impl; [exact Hprs|]. intros g. cbn. by rewrite Hsame.
  - intros Hin. apply Hno. by right.
  - done.
  - exact Hlast.
  - exists run. split; [done|]. rewrite Hrun in Hlen, Hy. split; [cbn [length] in *; lia|].
    rewrite Hy, <-Hx. destruct (last (d :: _)) eqn:Hl; [done|]. by rewrite last_cons in Hl; destruct (last _).
Qed.

(** C17: Sustained pressure changes the mode.  After any session, while nothing overrides the cost comparison
    (the encoder runs, the client can decode, no stall is reported or remembered, no loss, no suspension, no
    headroom guard), if the bridge asks frame after frame, each time with the mode it was last given, for
    at least three frames over 50 ms (to enter H.264) or thirty over half a second (to leave
    it), and the comparison of every one of them speaks for the change, then the mode does
    change on one of them: the streak is never lost on the way. *)
Theorem sustained_pressure_switches config evs c h from l first last_now :
  cl_run evs (classifier_new config) [] = (c, h) → calm c →
  (∀ t, last_stall h = Some t → Forall (λ f, t + holdoff h ≤ f.1) l) →
  Forall (λ d, d.(dc_now) ≤ first) h →
  Forall (λ f, presses from c f.2 = true) l →
  head l.*1 = Some first → last l.*1 = Some last_now →
  dwell_us from ≤ last_now - first → dwell_frames from ≤ Z.of_nat (length l) →
  other from ∈ frames l from c.
Proof.
  intros Hrun Hca Hho Hold Hpr Hhd Hlast Hus Hfr. pose proof (session_inv _ _ _ _ Hrun) as Hi.
  destruct (decide (other from ∈ frames l from c)) as [?|Hno]; [done|exfalso].
  destruct (head l) as [f|] eqn:Hf; [|by destruct l].
  assert (f.1 = first) as Hff by (destruct l; cbn in *; congruence).
  destruct (pressure_accumulates config from l c h Hi Hca Hho Hpr Hno f last_now Hf Hlast) as (run & Hnl & Hlen & Hx).
  apply Hnl. destruct (last run) as [x|] eqn:Hlr; [|done]. cbn in Hx. injection Hx as Hx. exists x.
  split; [done|]. split; [|lia]. destruct (run_from_meaning from h) as (pre & post & -> & _ & Hrf).
  destruct (last (run_from from (pre ++ post))) as [y|] eqn:Hl; [|lia].
  rewrite Hrf in Hl. apply last_Some_elem_of, list_elem_of_filter in Hl as [_ Hin].
  rewrite Forall_forall in Hold. specialize (Hold y ltac:(apply elem_of_app; by left)). lia.
Qed.

(** ** Examples *)

Definition ex_config : ClassifierConfig := mkClassifierConfig None None None None true (mkCostConfig None None None None None None).
Definition ex_context (estimate_bps : Z) (stalled suspended : bool) : AdaptationContext :=
  mkContext (f32_of_Z 0) (f32_of_Z 0) (f32_of_Z 0) suspended 0 true estimate_bps stalled false.
Definition ex_motion : list CodecState := replicate 10 (CsH264 0).
Definition after (evs : list cl_event) : Classifier * list Ruling := cl_run evs (classifier_new ex_config) [].

(** A stall at one second closes H.264 until three seconds; at four, with the session suspended, it is back. *)
Definition ex_stall : list cl_event :=
  [EvContext (ex_context 0 true false); EvDecide 1000000 ex_motion FmH264; EvContext (ex_context 0 false true)].
Lemma h264_only_where_it_works_witness :
  (decide_frame_mode_at 2999999 [] FmTileCodec (after ex_stall).1).2 = FmTileCodec ∧
  (decide_frame_mode_at 4000000 [] FmTileCodec (after ex_stall).1).2 = FmH264 ∧ 1000000 + holdoff (after ex_stall).2 ≤ 4000000.
Proof.
  assert ((decide_frame_mode_at 4000000 [] FmTileCodec (after ex_stall).1).2 = FmH264) as Hm by (vm_compute; reflexivity).
  split; [vm_compute; reflexivity|]. split; [exact Hm|].
  destruct (h264_only_where_it_works ex_config ex_stall (after ex_stall).1 (after ex_stall).2 4000000 [] FmTileCodec
    (surjective_pairing _) Hm) as [_ [Hf|(_ & _ & _ & Hh)]]; [discriminate Hf|].
  apply (Hh 1000000). vm_compute. reflexivity.
Defined.

(** Motion over ten tiles, seen at 0 and 30 ms: the mode changes at 60 ms and not at 45. *)
Definition ex_pressure : list cl_event := [EvDecide 0 ex_motion FmTileCodec; EvDecide 30000 ex_motion FmTileCodec].
Lemma mode_changes_are_earned_witness :
  (decide_frame_mode_at 45000 ex_motion FmTileCodec (after ex_pressure).1).2 = FmTileCodec ∧
  lasted 60000 50000 3 (decision_of 60000 ex_motion FmTileCodec (after ex_pressure).1 :: enter_run (after ex_pressure).2).
Proof.
  split; [vm_compute; reflexivity|].
  destruct (mode_changes_are_earned ex_config ex_pressure (after ex_pressure).1 (after ex_pressure).2 60000 ex_motion FmTileCodec
    (surjective_pairing _)) as [Hm _]; [vm_compute; reflexivity|].
  apply Hm. vm_compute. reflexivity.
Defined.

(** An estimate of one megabit per second, seen at 0 and 300 ms: the guard engages at 600 ms. *)
Definition ex_scarce : list cl_event :=
  [EvContext (ex_context 1000000 false false); EvDecide 0 [] FmTileCodec; EvDecide 300000 [] FmTileCodec].
Lemma guard_latches_witness :
  guard_flips ex_config (decision_of 600000 [] FmTileCodec (after ex_scarce).1) (after ex_scarce).2 ∧
  dc_mode (decision_of 600000 [] FmTileCodec (after ex_scarce).1) = FmH264.
Proof.
  destruct (guard_latches ex_config ex_scarce (after ex_scarce).1 (after ex_scarce).2 600000 [] FmTileCodec
    (surjective_pairing _)) as [Hf Hm].
  split; [apply Hf; vm_compute; discriminate|]. apply Hm; vm_compute; congruence.
Defined.

(** The same motion, as three frames of the bridge. *)
Lemma sustained_pressure_switches_witness :
  FmH264 ∈ frames [(0, ex_motion); (30000, ex_motion); (60000, ex_motion)] FmTileCodec (after []).1.
Proof.
  apply (sustained_pressure_switches ex_config [] (after []).1 (after []).2 FmTileCodec
    [(0, ex_motion); (30000, ex_motion); (60000, ex_motion)] 0 60000 eq_refl).
  - constructor; try (vm_compute; reflexivity). left. vm_compute. discriminate.
  - intros t Ht. discriminate Ht.
  - constructor.
  - repeat constructor.
  - reflexivity.
  - reflexivity.
  - vm_compute. discriminate.
  - vm_compute. discriminate.
Defined.

(** The ten healthy seconds clear the count of stalls but not the holdoff they had grown to: a stall reported
    afterwards while tiles are being sent reuses it. *)
Definition ex_healthy : list cl_event :=
  [EvContext (ex_context 0 true false); EvDecide 0 [] FmH264; EvContext (ex_context 0 false true);
   EvDecide 2000000 [] FmTileCodec;
   EvContext (ex_context 0 true false); EvDecide 3000000 [] FmH264; EvContext (ex_context 0 false true);
   EvDecide 7000000 [] FmTileCodec; EvDecide 18000000 [] FmH264;
   EvContext (ex_context 0 true false); EvDecide 19000000 [] FmTileCodec].
Example stale_holdoff_after_health :
  (after ex_healthy).1.(cl_guard).(gs_stall_level) = 0 ∧ (after ex_healthy).1.(cl_guard).(gs_holdoff_us) = 4000000.
Proof. vm_compute. split; reflexivity. Qed.

(** A streak of "consecutive calls" continues through the calls the headroom guard decided: 29 calls speak for
    leaving H.264, then the guard forces it for four calls in which the condition does not hold, and
    the first call after its release leaves. *)
Definition ex_interrupted : list cl_event :=
  ((λ i, EvDecide (10000 * Z.of_nat i) [] FmH264) <$> seq 0 27) ++
  [EvContext (ex_context 1000000 false false); EvDecide 300000 [] FmH264; EvDecide 600000 [] FmH264;
   EvDecide 900000 ex_motion FmH264; EvDecide 1900000 ex_motion FmH264;
   EvContext (ex_context 5000000 false false); EvDecide 2000000 ex_motion FmH264; EvDecide 2500000 ex_motion FmH264].
Example streak_survives_the_guard :
  exit_now (after ex_interrupted).1 ex_motion = false ∧
  (decide_frame_mode_at 3000000 [] FmH264 (after ex_interrupted).1).2 = FmTileCodec ∧
  length (exit_run (after ex_interrupted).2) = 29%nat ∧
  Forall (λ d, dc_reason d = RsHeadroomGuard) (take 4 (after ex_interrupted).2).
Proof. vm_compute. repeat split; by repeat constructor. Qed.
