(* ===== verification/DeliveryRate.v ===== *)
(** * Delivery-rate samples

    The server's [transport/delivery_rate.rs] (the estimator of
    draft-cheng-iccrg-delivery-rate-estimation) and [transport/delivery_sampler.rs] (what feeds
    it: departures, acknowledgements in batches, and the windowed maximum of its samples).

    The theorems: the windowed maximum is the maximum of what was pushed within the
    window; a batch of acknowledgements gives the same sample in any order; and a sample is the
    bytes acknowledged during the newest transmission's flight over the longer of its two
    intervals.  [Instant]s and [Duration]s are nanoseconds, as in [Ledger]. *)

From Stdlib Require Import ZArith Lia.
From S2P Require Import Prelude Ledger.
From stdpp Require Import base option numbers list sorting.

Local Open Scope Z_scope.

(** ** The estimator *)

Definition U64_SAT : Z := 2 ^ 64 - 1.
Definition sat_add64 (a b : Z) : Z := Z.min U64_SAT (a + b).
Definition sat_mul64 (a b : Z) : Z := Z.min U64_SAT (a * b).

Record SentPacket : Type := mkSent {
  sp_pkt_num : Z; sp_time_sent : Z; sp_time_acked : option Z; sp_sent_size : Z; sp_state : RateSamplePacketState;
}.
Definition rate_state_default : RateSamplePacketState := mkRateState 0 None None false 0 0.

(** [delivery_rate::RateSample] *)
Record EstSample : Type := mkEstSample {
  es_delivery_rate : Z; es_is_app_limited : bool; es_interval : Z; es_delivered : Z; es_prior_delivered : Z;
  es_prior_time : option Z; es_send_elapsed : Z; es_ack_elapsed : Z; es_rtt : Z;
}.
Definition est_sample_default : EstSample := mkEstSample 0 false 0 0 0 None 0 0 0.

Record DeliveryRateEstimator : Type := mkEst {
  dr_delivered : Z; dr_delivered_time : Z; dr_first_sent_time : Z; dr_last_app_limited : Z; dr_largest_acked : Z;
  dr_last_sent : Z; dr_sample : EstSample;
}.
Definition est_new (now : Z) : DeliveryRateEstimator := mkEst 0 now now 0 0 0 est_sample_default.

Definition is_app_limited (e : DeliveryRateEstimator) : bool := negb (e.(dr_last_app_limited) =? 0).
Definition set_app_limited (b : bool) (e : DeliveryRateEstimator) : DeliveryRateEstimator :=
  mkEst e.(dr_delivered) e.(dr_delivered_time) e.(dr_first_sent_time) (if b then Z.max e.(dr_last_sent) 1 else 0)
    e.(dr_largest_acked) e.(dr_last_sent) e.(dr_sample).

Definition on_packet_sent (bytes_in_flight bytes_lost : Z) (p : SentPacket) (e : DeliveryRateEstimator)
    : DeliveryRateEstimator * SentPacket :=
  let delivered_time := if bytes_in_flight =? 0 then p.(sp_time_sent) else e.(dr_delivered_time) in
  let first_sent_time := if bytes_in_flight =? 0 then p.(sp_time_sent) else e.(dr_first_sent_time) in
  (mkEst e.(dr_delivered) delivered_time first_sent_time e.(dr_last_app_limited) e.(dr_largest_acked) p.(sp_pkt_num)
     e.(dr_sample),
   mkSent p.(sp_pkt_num) p.(sp_time_sent) p.(sp_time_acked) p.(sp_sent_size)
     (mkRateState e.(dr_delivered) (Some delivered_time) (Some first_sent_time) (is_app_limited e) bytes_in_flight bytes_lost)).

Definition update_rate_sample (p : SentPacket) (e : DeliveryRateEstimator) : DeliveryRateEstimator * SentPacket :=
  let st := p.(sp_state) in
  match st.(rp_delivered_time), p.(sp_time_acked) with
  | Some p_delivered_time, Some acked =>
      let delivered := sat_add64 e.(dr_delivered) p.(sp_sent_size) in
      let rs := e.(dr_sample) in
      let newest := bool_decide (rs.(es_prior_time) = None) || (rs.(es_prior_delivered) <? st.(rp_delivered)) in
      let prior_delivered := if newest then st.(rp_delivered) else rs.(es_prior_delivered) in
      let rs' := mkEstSample rs.(es_delivery_rate) (if newest then st.(rp_is_app_limited) else rs.(es_is_app_limited))
        rs.(es_interval) (sat_sub delivered prior_delivered) prior_delivered
        (if newest then st.(rp_delivered_time) else rs.(es_prior_time))
        (sat_sub p.(sp_time_sent) (default p.(sp_time_sent) st.(rp_first_sent_time)))
        (sat_sub acked p_delivered_time) (sat_sub acked p.(sp_time_sent)) in
      (mkEst delivered acked (if newest then p.(sp_time_sent) else e.(dr_first_sent_time)) e.(dr_last_app_limited)
         (Z.max p.(sp_pkt_num) e.(dr_largest_acked)) e.(dr_last_sent) rs',
       mkSent p.(sp_pkt_num) p.(sp_time_sent) p.(sp_time_acked) p.(sp_sent_size)
         (mkRateState st.(rp_delivered) None st.(rp_first_sent_time) st.(rp_is_app_limited) st.(rp_tx_in_flight) st.(rp_lost)))
  | _, _ => (e, p)
  end.

(** The division is by the interval in whole microseconds, which can be zero when the interval is not. *)
Definition generate_rate_sample {E} (e : DeliveryRateEstimator) : outcome E DeliveryRateEstimator :=
  let e := if is_app_limited e && (e.(dr_last_app_limited) <? e.(dr_largest_acked)) then set_app_limited false e else e in
  let rs := e.(dr_sample) in
  let with_sample rs := mkEst e.(dr_delivered) e.(dr_delivered_time) e.(dr_first_sent_time) e.(dr_last_app_limited)
    e.(dr_largest_acked) e.(dr_last_sent) rs in
  match rs.(es_prior_time) with
  | None => mret e
  | Some _ =>
      let interval := Z.max rs.(es_send_elapsed) rs.(es_ack_elapsed) in
      let delivered := sat_sub e.(dr_delivered) rs.(es_prior_delivered) in
      let filled rate := mkEstSample rate rs.(es_is_app_limited) interval delivered rs.(es_prior_delivered)
        rs.(es_prior_time) rs.(es_send_elapsed) rs.(es_ack_elapsed) rs.(es_rtt) in
      if interval =? 0 then mret (with_sample (filled rs.(es_delivery_rate)))
      else
        let micros := u64 (interval / 1000) in
        _ ← assert_ (negb (micros =? 0));
        mret (with_sample (filled (u64 (delivered * 1000000) / micros)))
  end.

(** ** The windowed maximum *)

Definition MAX_FILTER_WINDOW : Z := 1000000000.
Fixpoint drop_while {A} (f : A → bool) (l : list A) : list A :=
  match l with [] => [] | x :: l' => if f x then drop_while f l' else l end.

(** Entries of time and value, the front of the deque first. *)
Definition WindowedMax : Type := list (Z * Z).
Definition stale (now : Z) (e : Z * Z) : bool := MAX_FILTER_WINDOW <? sat_sub now e.1.
Definition wm_expire (now : Z) (q : WindowedMax) : WindowedMax := drop_while (stale now) q.
Definition wm_push (at_ v : Z) (q : WindowedMax) : WindowedMax :=
  wm_expire at_ (reverse (drop_while (λ e, e.2 <=? v) (reverse q)) ++ [(at_, v)]).
Definition wm_get (now : Z) (q : WindowedMax) : Z :=
  match List.find (λ e, negb (stale now e)) q with Some e => e.2 | None => 0 end.

(** A sample enters the maximum unless it is application-limited and smaller. *)
Definition max_step (now bps : Z) (app_limited : bool) (q : WindowedMax) : WindowedMax :=
  if negb app_limited || (wm_get now q <=? bps) then wm_push now bps q else q.

(** ** The sampler *)

(** [delivery_sampler::RateSample] *)
Record RateSample : Type := mkRateSample {
  rs_bytes_per_sec : Z; rs_is_app_limited : bool; rs_pacer_limited : bool; rs_rtt : Z;
}.
Record DeliveryRateStats : Type := mkDrStats {
  dt_marked : Z; dt_app_limited_marks : Z; dt_acked : Z; dt_samples : Z; dt_app_limited_samples : Z; dt_latest_bps : Z;
  dt_latest_app_limited : bool; dt_pacer_limited_samples : Z; dt_max_unpaced_bps : Z; dt_delivered_bytes : Z; dt_max_bps : Z;
}.
Definition dr_stats_default : DeliveryRateStats := mkDrStats 0 0 0 0 0 0 false 0 0 0 0.

Record DeliverySampler : Type := mkSampler {
  ds_est : DeliveryRateEstimator;
  ds_pending : list SentPacket;
  ds_pacer_flags : list (Z * bool);
  ds_last_sent_at : option Z;
  ds_max : WindowedMax;
  ds_max_unpaced : WindowedMax;
  ds_batch_pacer_limited : bool;
  ds_stats : DeliveryRateStats;
}.
Definition sampler_new (now : Z) : DeliverySampler := mkSampler (est_new now) [] [] None [] [] false dr_stats_default.

Definition on_departure (at_ wire_bytes bytes_in_flight : Z) (pacer_limited : bool) (dep_idx : Z) (s : DeliverySampler)
    : DeliverySampler * RateMark :=
  let p := mkSent (dep_idx + 1) at_ None wire_bytes rate_state_default in
  let '(est, p) := on_packet_sent bytes_in_flight 0 p s.(ds_est) in
  let t := s.(ds_stats) in
  (mkSampler est s.(ds_pending) s.(ds_pacer_flags) (Some at_) s.(ds_max) s.(ds_max_unpaced) s.(ds_batch_pacer_limited)
     (mkDrStats (t.(dt_marked) + 1) (t.(dt_app_limited_marks) + Z.b2z p.(sp_state).(rp_is_app_limited)) t.(dt_acked) t.(dt_samples)
        t.(dt_app_limited_samples) t.(dt_latest_bps) t.(dt_latest_app_limited) t.(dt_pacer_limited_samples)
        t.(dt_max_unpaced_bps) t.(dt_delivered_bytes) t.(dt_max_bps)),
   mkRateMark p.(sp_pkt_num) p.(sp_state) pacer_limited).

Definition note_no_backlog (s : DeliverySampler) : DeliverySampler :=
  mkSampler (set_app_limited true s.(ds_est)) s.(ds_pending) s.(ds_pacer_flags) s.(ds_last_sent_at) s.(ds_max)
    s.(ds_max_unpaced) s.(ds_batch_pacer_limited) s.(ds_stats).

Definition on_acked (m : RateMark) (departed_at wire_bytes acked_at : Z) (s : DeliverySampler) : DeliverySampler :=
  let t := s.(ds_stats) in
  mkSampler s.(ds_est)
    (s.(ds_pending) ++ [mkSent m.(rm_pkt_num) departed_at (Some acked_at) wire_bytes m.(rm_state)])
    (s.(ds_pacer_flags) ++ [(m.(rm_pkt_num), m.(rm_pacer_limited))]) s.(ds_last_sent_at) s.(ds_max) s.(ds_max_unpaced)
    s.(ds_batch_pacer_limited)
    (mkDrStats t.(dt_marked) t.(dt_app_limited_marks) (t.(dt_acked) + 1) t.(dt_samples) t.(dt_app_limited_samples)
       t.(dt_latest_bps) t.(dt_latest_app_limited) t.(dt_pacer_limited_samples) t.(dt_max_unpaced_bps)
       t.(dt_delivered_bytes) t.(dt_max_bps)).

(** [sort_by_key(fold_order)], which is stable. *)
Definition fold_order (p : SentPacket) : Z := p.(sp_pkt_num).
Fixpoint insert_packet (p : SentPacket) (l : list SentPacket) : list SentPacket :=
  match l with
  | [] => [p]
  | q :: l' => if fold_order p <=? fold_order q then p :: l else q :: insert_packet p l'
  end.
Definition sort_packets (l : list SentPacket) : list SentPacket := foldr insert_packet [] l.
(** [max_by_key], which keeps the last of equal ones. *)
Definition newest_flag (l : list (Z * bool)) : bool :=
  match foldl (λ best x, match best with Some b => if x.1 <? b.1 then Some b else Some x | None => Some x end) None l with
  | Some x => x.2 | None => false
  end.

Definition end_ack {E} (now : Z) (s : DeliverySampler) : outcome E (DeliverySampler * option RateSample) :=
  match s.(ds_pending) with
  | [] => mret (s, None)
  | _ =>
      let est := foldl (λ e p, (update_rate_sample p e).1) s.(ds_est) (sort_packets s.(ds_pending)) in
      let pacer := newest_flag s.(ds_pacer_flags) in
      est ← generate_rate_sample est;
      let t := s.(ds_stats) in
      let rs := est.(dr_sample) in
      if rs.(es_interval) =? 0 then
        mret (mkSampler est [] [] s.(ds_last_sent_at) s.(ds_max) s.(ds_max_unpaced) pacer
          (mkDrStats t.(dt_marked) t.(dt_app_limited_marks) t.(dt_acked) t.(dt_samples) t.(dt_app_limited_samples)
             t.(dt_latest_bps) t.(dt_latest_app_limited) t.(dt_pacer_limited_samples) t.(dt_max_unpaced_bps)
             est.(dr_delivered) t.(dt_max_bps)), None)
      else
        let app := rs.(es_is_app_limited) in
        let bps := sat_mul64 rs.(es_delivery_rate) 8 in
        mret (mkSampler est [] [] s.(ds_last_sent_at) (max_step now bps app s.(ds_max))
          (if pacer then s.(ds_max_unpaced) else max_step now bps app s.(ds_max_unpaced)) pacer
          (mkDrStats t.(dt_marked) t.(dt_app_limited_marks) t.(dt_acked) (t.(dt_samples) + 1)
             (t.(dt_app_limited_samples) + Z.b2z app) bps app (t.(dt_pacer_limited_samples) + Z.b2z pacer)
             t.(dt_max_unpaced_bps) est.(dr_delivered) t.(dt_max_bps)),
          Some (mkRateSample rs.(es_delivery_rate) app pacer rs.(es_rtt)))
  end.

Definition sampler_stats (now : Z) (s : DeliverySampler) : DeliveryRateStats :=
  let t := s.(ds_stats) in
  mkDrStats t.(dt_marked) t.(dt_app_limited_marks) t.(dt_acked) t.(dt_samples) t.(dt_app_limited_samples) t.(dt_latest_bps)
    t.(dt_latest_app_limited) t.(dt_pacer_limited_samples) (wm_get now s.(ds_max_unpaced)) t.(dt_delivered_bytes)
    (wm_get now s.(ds_max)).

(** ** The windowed maximum is the maximum over the window *)

Definition window_max (now : Z) (l : list (Z * Z)) : Z :=
  foldr Z.max 0 (snd <$> filter (λ e, stale now e = false) l).

(** What the deque keeps of the pushes [l], the last of them at [now]: entries that fall in value as they
    get newer, and for every push not yet stale an entry at least as new and as large. *)
Record wm_inv (now : Z) (l q : list (Z * Z)) : Prop := {
  wi_sub : ∀ e, e ∈ q → e ∈ l;
  wi_falls : StronglySorted (λ a b, b.2 < a.2) q;
  wi_covers : ∀ e, e ∈ l → stale now e = false → ∃ d, d ∈ q ∧ e.1 ≤ d.1 ∧ e.2 ≤ d.2;
}.

Lemma drop_while_sub {A} (f : A → bool) l x : x ∈ drop_while f l → x ∈ l.
Proof. induction l as [|y l IH]; [done|]. cbn. destruct (f y); [|done]. intros ?. right. by apply IH. Qed.
Lemma drop_while_keeps {A} (f : A → bool) l x : x ∈ l → f x = false → x ∈ drop_while f l.
Proof.
  induction l as [|y l IH]; [done|]. intros [->|Hx]%elem_of_cons Hf; cbn; [rewrite Hf; left|].
  destruct (f y); [by apply IH|by right].
Qed.
Lemma drop_while_suffix {A} (f : A → bool) l : ∃ pre, l = pre ++ drop_while f l ∧ Forall (λ x, f x = true) pre.
Proof.
  induction l as [|y l (pre & Hp & Hf)]; [by exists []|]. cbn. destruct (f y) eqn:Hy; [|by exists []].
  exists (y :: pre). split; [by cbn; rewrite Hp at 1|]. by constructor.
Qed.
Lemma drop_while_head {A} (f : A → bool) l x l' : drop_while f l = x :: l' → f x = false.
Proof. induction l as [|y l IH]; [done|]. cbn. destruct (f y) eqn:Hy; [done|]. intros ?. by simplify_eq. Qed.
Lemma sorted_before_last {A} (R : A → A → Prop) l y : StronglySorted R (l ++ [y]) → ∀ x, x ∈ l → R x y.
Proof.
  induction l as [|z l IH]; [by intros _ x ?%not_elem_of_nil|]. cbn. intros [Hs Hf]%StronglySorted_inv x [->|Hx]%elem_of_cons; [|by apply IH].
  apply Forall_app in Hf as [_ Hf]. by apply Forall_cons in Hf as [? _].
Qed.
Lemma sorted_app_r {A} (R : A → A → Prop) l1 l2 : StronglySorted R (l1 ++ l2) → StronglySorted R l2.
Proof. induction l1 as [|x l1 IH]; [done|]. cbn. by intros [? _]%StronglySorted_inv; apply IH. Qed.
Lemma sorted_app_l {A} (R : A → A → Prop) l1 l2 : StronglySorted R (l1 ++ l2) → StronglySorted R l1.
Proof.
  induction l1 as [|x l1 IH]; [constructor|]. cbn. intros [Hs Hf]%StronglySorted_inv. constructor; [by apply IH|].
  by apply Forall_app in Hf as [? _].
Qed.
Lemma sorted_snoc {A} (R : A → A → Prop) l x : StronglySorted R l → Forall (λ y, R y x) l → StronglySorted R (l ++ [x]).
Proof.
  induction l as [|y l IH]; [repeat constructor|]. intros [Hs Hf]%StronglySorted_inv [Hy Hl]%Forall_cons. cbn.
  constructor; [by apply IH|]. apply Forall_app. split; [done|]. by constructor.
Qed.

Lemma stale_older now now' e : now ≤ now' → stale now e = true → stale now' e = true.
Proof. unfold stale, sat_sub. rewrite !Z.ltb_lt. lia. Qed.
Lemma stale_newer now e d : e.1 ≤ d.1 → stale now e = false → stale now d = false.
Proof. unfold stale, sat_sub. rewrite !Z.ltb_ge. lia. Qed.

Lemma wm_push_inv now now' v l q :
  wm_inv now l q → now ≤ now' → Forall (λ e, e.1 ≤ now') l → wm_inv now' (l ++ [(now', v)]) (wm_push now' v q).
Proof.
  intros [Hsub Hfalls Hcov] Hnow Hl. unfold wm_push, wm_expire.
  destruct (drop_while_suffix (λ e, e.2 <=? v) (reverse q)) as (pre & Hq & Hpre).
  set (k := drop_while (λ e, e.2 <=? v) (reverse q)) in *.
  assert (q = reverse k ++ reverse pre) as Hq'. { rewrite <-reverse_app, <-Hq. by rewrite reverse_involutive. }
  assert (Forall (λ x, v < x.2) (reverse k)) as Hk.
  { destruct k as [|y k'] eqn:Hkk; [constructor|]. rewrite reverse_cons.
    assert (v < y.2) as Hy. { unfold k in Hkk. by apply drop_while_head in Hkk; apply Z.leb_gt in Hkk. }
    rewrite Hq', reverse_cons in Hfalls. apply sorted_app_l in Hfalls.
    apply Forall_app. split; [|by constructor]. apply Forall_forall. intros x Hx.
    pose proof (sorted_before_last _ _ _ Hfalls x Hx) as H. cbn in H. lia. }
  split.
  - intros e He%drop_while_sub. apply elem_of_app in He as [He|He]; apply elem_of_app; [left|by right].
    apply Hsub. rewrite Hq'. apply elem_of_app. by left.
  - destruct (drop_while_suffix (stale now') (reverse k ++ [(now', v)])) as (p & Hp & _). eapply sorted_app_r. rewrite <-Hp.
    apply sorted_snoc; [|exact Hk]. eapply sorted_app_l. by rewrite <-Hq'.
  - assert (stale now' (now', v) = false) as Hnew by (unfold stale, sat_sub, MAX_FILTER_WINDOW; apply Z.ltb_ge; cbn; lia).
    intros e [He|He]%elem_of_app Hs.
    + assert (stale now e = false) as Hs0. { destruct (stale now e) eqn:H; [|done]. by rewrite (stale_older _ _ _ Hnow H) in Hs. }
      destruct (Hcov e He Hs0) as (d & Hd & Ht & Hv). rewrite Hq' in Hd. apply elem_of_app in Hd as [Hd|Hd].
      * exists d. split; [|done]. apply drop_while_keeps; [by apply elem_of_app; left|]. by eapply stale_newer.
      * exists (now', v). rewrite Forall_forall in Hl. specialize (Hl e He).
        split; [apply drop_while_keeps; [by apply elem_of_app; right; left|done]|]. split; [done|]. cbn.
        rewrite elem_of_reverse in Hd. rewrite Forall_forall in Hpre. apply Hpre, Z.leb_le in Hd. lia.
    + apply list_elem_of_singleton in He as ->. exists (now', v).
      split; [|done]. apply drop_while_keeps; [by apply elem_of_app; right; left|done].
Qed.

Lemma window_max_eq now l m : 0 ≤ m → (m = 0 ∨ ∃ e, e ∈ l ∧ stale now e = false ∧ e.2 = m) →
  (∀ e, e ∈ l → stale now e = false → e.2 ≤ m) → window_max now l = m.
Proof.
  intros Hm Hin Hall. unfold window_max. apply Z.le_antisymm.
  - clear Hin. induction l as [|e l IH]; [done|]. rewrite filter_cons. destruct (decide (stale now e = false)) as [Hs|Hs].
    + cbn. apply Z.max_lub; [by apply Hall; [left|]|]. apply IH. intros x Hx. apply Hall. by right.
    + apply IH. intros x Hx. apply Hall. by right.
  - destruct Hin as [->|(e & He & Hs & <-)].
    + clear. induction (snd <$> _) as [|x xs IH]; cbn; lia.
    + clear Hall Hm. induction l as [|x l IH]; [by apply not_elem_of_nil in He|]. rewrite filter_cons.
      apply elem_of_cons in He as [<-|He].
      * rewrite decide_True by done. cbn. lia.
      * specialize (IH He). destruct (decide _); cbn; lia.
Qed.

Lemma wm_get_first now q e : StronglySorted (λ a b, b.2 < a.2) q → List.find (λ x, negb (stale now x)) q = Some e →
  ∀ d, d ∈ q → stale now d = false → d.2 ≤ e.2.
Proof.
  induction q as [|x q IH]; [done|]. intros [Hs Hf]%StronglySorted_inv Hfind d [->|Hd]%elem_of_cons Hst; cbn in Hfind.
  - rewrite Hst in Hfind. cbn in Hfind. by simplify_eq.
  - destruct (stale now x); cbn in Hfind; [by apply IH|]. simplify_eq. rewrite Forall_forall in Hf. specialize (Hf d Hd). cbn in Hf. lia.
Qed.
Lemma wm_get_spec now now' l q : wm_inv now l q → now ≤ now' → Forall (λ e, 0 ≤ e.2) l →
  wm_get now' q = window_max now' l.
Proof.
  intros [Hsub Hfalls Hcov] Hnow Hpos. symmetry. unfold wm_get. rewrite Forall_forall in Hpos.
  assert (∀ e, e ∈ l → stale now' e = false → ∃ d, d ∈ q ∧ stale now' d = false ∧ e.2 ≤ d.2) as Hc.
  { intros e He Hs. assert (stale now e = false) as Hs0. { destruct (stale now e) eqn:H; [|done]. by rewrite (stale_older _ _ _ Hnow H) in Hs. }
    destruct (Hcov e He Hs0) as (d & Hd & Ht & Hv). exists d. split; [done|]. split; [by eapply stale_newer|done]. }
  destruct (List.find _ q) as [e|] eqn:Hf.
  - pose proof (wm_get_first _ _ _ Hfalls Hf) as Hfirst. apply List.find_some in Hf as [Hin Hs].
    apply list_elem_of_In in Hin. apply negb_true_iff in Hs. apply window_max_eq; [by apply Hpos, Hsub| |].
    + right. exists e. split; [by apply Hsub|]. done.
    + intros x Hx Hxs. destruct (Hc x Hx Hxs) as (d & Hd & Hds & Hle). specialize (Hfirst d Hd Hds). lia.
  - apply window_max_eq; [done|by left|]. intros x Hx Hxs. destruct (Hc x Hx Hxs) as (d & Hd & Hds & _).
    apply List.find_none with (x := d) in Hf; [|by apply list_elem_of_In]. by rewrite Hds in Hf.
Qed.

(** What the samples that entered the maximum are, by the rule and the list of those before: *)
Fixpoint admitted (samples : list (Z * Z * bool)) (l : list (Z * Z)) : list (Z * Z) :=
  match samples with
  | [] => l
  | (now, bps, app) :: samples => admitted samples (if negb app || (window_max now l <=? bps) then l ++ [(now, bps)] else l)
  end.
Definition max_run (samples : list (Z * Z * bool)) (q : WindowedMax) : WindowedMax :=
  foldl (λ q s, max_step s.1.1 s.1.2 s.2 q) q samples.

Lemma max_run_spec samples now l q :
  wm_inv now l q → Forall (λ e, e.1 ≤ now ∧ 0 ≤ e.2) l →
  StronglySorted Z.le (now :: (samples.*1).*1) → Forall (λ s, 0 ≤ s.1.2) samples →
  ∀ now', Forall (λ s, s.1.1 ≤ now') samples → now ≤ now' → wm_get now' (max_run samples q) = window_max now' (admitted samples l).
Proof.
  induction samples as [|[[t bps] app] samples IH] in now, l, q |- *; intros Hi Hl Hs Hp now' Hn Hnow; cbn [max_run foldl admitted].
  - eapply wm_get_spec; [done..|]. eapply Forall_impl; [exact Hl|]. by intros e [].
  - cbn in Hs. apply StronglySorted_inv in Hs as [Hs Hle]. apply Forall_cons in Hle as [Ht Hle], Hp as [Hb Hp], Hn as [Hn0 Hn]. cbn in *.
    change (wm_get now' (max_run samples (max_step t bps app q)) =
            window_max now' (admitted samples (if negb app || (window_max t l <=? bps) then l ++ [(t, bps)] else l))).
    unfold max_step. rewrite (wm_get_spec now t l q Hi Ht) by (eapply Forall_impl; [exact Hl|]; by intros e []).
    destruct (negb app || (window_max t l <=? bps)).
    + apply (IH t); [|apply Forall_app; split|done..].
      * apply (wm_push_inv now); [done..|]. eapply Forall_impl; [exact Hl|]. intros e []. lia.
      * eapply Forall_impl; [exact Hl|]. intros e []. lia.
      * by constructor.
    + apply (IH now); [done..| |done|done|done]. apply StronglySorted_inv in Hs as [Hs Hf]. constructor; [done|].
      eapply Forall_impl; [exact Hf|]. intros x ?. cbn in *. lia.
Qed.

(** C0: The deque's reading is the maximum over the window.  After any samples in the order of their times, a
    reading at any later time is the largest, within the last second, of the samples that were not
    application-limited and of those that were but were no smaller than the maximum when they came; and it
    is zero when there is none. *)
Theorem windowed_max_is_the_max samples now :
  StronglySorted Z.le ((samples.*1).*1) → Forall (λ s, 0 ≤ s.1.2 ∧ s.1.1 ≤ now) samples →
  wm_get now (max_run samples []) = window_max now (admitted samples []).
Proof.
  intros Hs Hp. destruct samples as [|[[t bps] app] samples]; [done|].
  apply (max_run_spec _ t).
  - split; [by intros e ?%not_elem_of_nil|constructor|by intros e ?%not_elem_of_nil].
  - constructor.
  - constructor; [done|]. cbn in *. apply StronglySorted_inv in Hs as [_ Hf]. by constructor.
  - eapply Forall_impl; [exact Hp|]. by intros s [].
  - eapply Forall_impl; [exact Hp|]. by intros s [].
  - apply Forall_cons in Hp as [[_ H] _]. exact H.
Qed.

(** ** A batch in any order *)

(** One acknowledgement: the mark, when it departed, its bytes, when it was acknowledged. *)
Record Acked : Type := mkAcked { ak_mark : RateMark; ak_departed_at : Z; ak_bytes : Z; ak_at : Z }.
Definition ack_all (l : list Acked) (s : DeliverySampler) : DeliverySampler :=
  foldl (λ s a, on_acked a.(ak_mark) a.(ak_departed_at) a.(ak_bytes) a.(ak_at) s) s l.
Definition packet_of (a : Acked) : SentPacket :=
  mkSent a.(ak_mark).(rm_pkt_num) a.(ak_departed_at) (Some a.(ak_at)) a.(ak_bytes) a.(ak_mark).(rm_state).
Definition flag_of (a : Acked) : Z * bool := (a.(ak_mark).(rm_pkt_num), a.(ak_mark).(rm_pacer_limited)).
Definition count_acked (n : Z) (t : DeliveryRateStats) : DeliveryRateStats :=
  mkDrStats t.(dt_marked) t.(dt_app_limited_marks) (t.(dt_acked) + n) t.(dt_samples) t.(dt_app_limited_samples)
    t.(dt_latest_bps) t.(dt_latest_app_limited) t.(dt_pacer_limited_samples) t.(dt_max_unpaced_bps)
    t.(dt_delivered_bytes) t.(dt_max_bps).

Lemma ack_all_eq l s :
  ack_all l s = mkSampler s.(ds_est) (s.(ds_pending) ++ (packet_of <$> l)) (s.(ds_pacer_flags) ++ (flag_of <$> l)) s.(ds_last_sent_at)
    s.(ds_max) s.(ds_max_unpaced) s.(ds_batch_pacer_limited) (count_acked (Z.of_nat (length l)) s.(ds_stats)).
Proof.
  induction l as [|a l IH] in s |- *.
  - cbn [ack_all foldl fmap list_fmap length]. rewrite !app_nil_r. destruct s as [? ? ? ? ? ? ? []]. unfold count_acked. cbn. by rewrite Z.add_0_r.
  - change (ack_all (a :: l) s) with (ack_all l (on_acked (ak_mark a) (ak_departed_at a) (ak_bytes a) (ak_at a) s)).
    rewrite IH. unfold on_acked, count_acked. cbn [ds_est ds_pending ds_pacer_flags ds_last_sent_at ds_max ds_max_unpaced ds_batch_pacer_limited
      ds_stats dt_marked dt_app_limited_marks dt_acked dt_samples dt_app_limited_samples dt_latest_bps dt_latest_app_limited
      dt_pacer_limited_samples dt_max_unpaced_bps dt_delivered_bytes dt_max_bps].
    rewrite !fmap_cons, <-!app_assoc. cbn [app length]. f_equal. f_equal. lia.
Qed.

Lemma insert_packet_perm p l : insert_packet p l ≡ₚ p :: l.
Proof. induction l as [|q l IH]; [done|]. cbn. destruct (_ <=? _); [done|]. rewrite IH. by constructor. Qed.
Lemma sort_packets_perm l : sort_packets l ≡ₚ l.
Proof. induction l as [|p l IH]; [done|]. cbn. rewrite insert_packet_perm. by rewrite IH. Qed.
Definition by_number (p q : SentPacket) : Prop := p.(sp_pkt_num) ≤ q.(sp_pkt_num).
Lemma insert_packet_sorted p l : StronglySorted by_number l → StronglySorted by_number (insert_packet p l).
Proof.
  induction l as [|q l IH]; [repeat constructor|]. intros Hs. pose proof Hs as [Hs0 Hf]%StronglySorted_inv. cbn.
  destruct (Z.leb_spec (fold_order p) (fold_order q)) as [Hle|Hgt]; unfold fold_order in *.
  - constructor; [done|]. constructor; [done|]. eapply Forall_impl; [exact Hf|]. unfold by_number. intros x ?. lia.
  - constructor; [by apply IH|]. rewrite insert_packet_perm. constructor; [unfold by_number; lia|done].
Qed.
Lemma sort_packets_sorted l : StronglySorted by_number (sort_packets l).
Proof. induction l as [|p l IH]; [constructor|]. by apply insert_packet_sorted. Qed.

Lemma NoDup_key_inj {A B} (f : A → B) (l : list A) x y : NoDup (f <$> l) → x ∈ l → y ∈ l → f x = f y → x = y.
Proof.
  induction l as [|z l IH]; [by intros _ ?%not_elem_of_nil|]. cbn. intros [Hz Hn]%NoDup_cons [->|Hx]%elem_of_cons [->|Hy]%elem_of_cons Hf.
  - done.
  - destruct Hz. rewrite Hf. by apply list_elem_of_fmap_2.
  - destruct Hz. rewrite <-Hf. by apply list_elem_of_fmap_2.
  - by apply IH.
Qed.
Lemma sort_packets_canonical l l' : l ≡ₚ l' → NoDup (sp_pkt_num <$> l) → sort_packets l = sort_packets l'.
Proof.
  intros Hp Hn. apply (StronglySorted_unique_strong by_number); [|apply sort_packets_sorted..|by rewrite !sort_packets_perm].
  intros x y Hx Hy H1 H2. rewrite sort_packets_perm in Hx, Hy. rewrite <-Hp in Hy.
  apply (NoDup_key_inj sp_pkt_num l); [done..|]. unfold by_number in *. lia.
Qed.

Definition newest_step (best : option (Z * bool)) (x : Z * bool) : option (Z * bool) :=
  match best with Some b => if x.1 <? b.1 then Some b else Some x | None => Some x end.
Lemma newest_fold l best : ∀ x, foldl newest_step best l = Some x →
  (x ∈ l ∨ best = Some x) ∧ (∀ y, y ∈ l ∨ best = Some y → y.1 ≤ x.1).
Proof.
  induction l as [|y l IH] in best |- *; intros x Hx; cbn in Hx.
  - subst best. split; [by right|]. intros y [?%not_elem_of_nil|?]; [done|]. by simplify_eq.
  - destruct (IH _ _ Hx) as [Hin Hmax]. destruct best as [b|]; cbn [newest_step] in *.
    + destruct (Z.ltb_spec y.1 b.1).
      * split; [destruct Hin as [?|?]; [by left; right|by right]|]. pose proof (Hmax b (or_intror eq_refl)).
        intros z [[->|Hz]%elem_of_cons|Hz]; [lia|by apply Hmax; left|]. by apply Hmax; right.
      * split; [destruct Hin as [?|?]; [by left; right|left; simplify_eq; left]|]. pose proof (Hmax y (or_intror eq_refl)).
        intros z [[->|Hz]%elem_of_cons|Hz]; [done|by apply Hmax; left|]. simplify_eq. lia.
    + split; [destruct Hin as [?|?]; [by left; right|left; simplify_eq; left]|].
      intros z [[->|Hz]%elem_of_cons|Hz]; [by apply Hmax; right|by apply Hmax; left|done].
Qed.
Lemma newest_flag_eq l : newest_flag l = match foldl newest_step None l with Some x => x.2 | None => false end.
Proof. done. Qed.
Lemma newest_flag_canonical l l' : l ≡ₚ l' → NoDup l.*1 → newest_flag l = newest_flag l'.
Proof.
  intros Hp Hn. rewrite !newest_flag_eq.
  assert (∀ k, foldl newest_step None k = None → k = []) as Hnil.
  { intros [|x k]; [done|]. cbn. assert (∀ k b, foldl newest_step (Some b) k ≠ None) as H.
    { clear. induction k as [|x k IH]; intros b; [done|]. cbn. destruct (_ <? _); apply IH. }
    intros ?. by destruct (H k x). }
  destruct (foldl newest_step None l) as [x|] eqn:Hx, (foldl newest_step None l') as [y|] eqn:Hy; try done.
  - apply newest_fold in Hx as [[Hx|?] Hxm], Hy as [[Hy|?] Hym]; [|done..].
    assert (x = y) as ->; [|done]. apply (NoDup_key_inj fst l); [done..|by rewrite Hp|].
    assert (y ∈ l) as Hyl by (by rewrite Hp). assert (x ∈ l') as Hxl by (by rewrite <-Hp).
    pose proof (Hxm y (or_introl Hyl)). pose proof (Hym x (or_introl Hxl)). lia.
  - apply Hnil in Hy as ->. apply Permutation_nil_r in Hp as ->. done.
  - apply Hnil in Hx as ->. symmetry in Hp. apply Permutation_nil_r in Hp as ->. done.
Qed.

(** C0: The order of an acknowledgement batch does not matter.  With no batch begun, two lists of the same
    acknowledgements, of transmissions with different numbers, leave the sampler in the same
    state and give the same sample. *)
Theorem batch_order_irrelevant {E} now acks acks' s :
  s.(ds_pending) = [] → s.(ds_pacer_flags) = [] → acks ≡ₚ acks' → NoDup ((λ a, a.(ak_mark).(rm_pkt_num)) <$> acks) →
  end_ack (E:=E) now (ack_all acks s) = end_ack now (ack_all acks' s).
Proof.
  intros Hp Hf Hperm Hn. rewrite !ack_all_eq, Hp, Hf. cbn [app].
  assert (sort_packets (packet_of <$> acks) = sort_packets (packet_of <$> acks')) as Hs.
  { apply sort_packets_canonical; [by rewrite Hperm|]. by rewrite <-list_fmap_compose. }
  assert (newest_flag (flag_of <$> acks) = newest_flag (flag_of <$> acks')) as Hfl.
  { apply newest_flag_canonical; [by rewrite Hperm|]. by rewrite <-list_fmap_compose. }
  assert (length acks = length acks') as Hlen by (by rewrite Hperm).
  unfold end_ack. cbn [ds_pending ds_est ds_pacer_flags ds_last_sent_at ds_max ds_max_unpaced ds_stats]. rewrite Hs, Hfl, Hlen.
  destruct acks as [|a acks], acks' as [|a' acks']; try done.
Qed.

(** ** Sessions *)

Inductive sampling_event : Type :=
  | DvDepart (at_ bytes in_flight : Z) (pacer : bool)
  | DvNoBacklog
  | DvAck (i : nat) (at_ : Z)
  | DvEnd (now : Z).

(** A transmission: its mark, when it left, its size, which transmissions had been acknowledged by then, and the
    last [note_no_backlog]. *)
Record Flight : Type := mkFlight { fl_mark : RateMark; fl_at : Z; fl_bytes : Z; fl_before : list nat; fl_note : option Z }.
(** The sampler with what happened to it: the transmissions so far, those acknowledged in ended batches, the
    batch being gathered, and how many had left at the last [note_no_backlog]. *)
Record Sampling : Type := mkSampling {
  sg_sampler : DeliverySampler; sg_flights : list Flight; sg_folded : list nat; sg_batch : list (nat * Z); sg_note : option Z;
}.
Definition sampling_new (now : Z) : Sampling := mkSampling (sampler_new now) [] [] [] None.
Definition acked_of (f : Flight) (at_ : Z) : Acked := mkAcked f.(fl_mark) f.(fl_at) f.(fl_bytes) at_.

(** The ledger numbers departures in order and reports each acknowledgement once. *)
Definition sampling_step {E} (ev : sampling_event) (g : Sampling) : outcome E Sampling :=
  match ev with
  | DvDepart at_ bytes in_flight pacer =>
      let '(s, m) := on_departure at_ bytes in_flight pacer (Z.of_nat (length g.(sg_flights))) g.(sg_sampler) in
      mret (mkSampling s (g.(sg_flights) ++ [mkFlight m at_ bytes g.(sg_folded) g.(sg_note)]) g.(sg_folded) g.(sg_batch) g.(sg_note))
  | DvNoBacklog =>
      mret (mkSampling (note_no_backlog g.(sg_sampler)) g.(sg_flights) g.(sg_folded) g.(sg_batch)
              (Some (Z.max (Z.of_nat (length g.(sg_flights))) 1)))
  | DvAck i at_ =>
      match g.(sg_flights) !! i with
      | Some f =>
          if bool_decide (i ∈ g.(sg_folded) ++ g.(sg_batch).*1) then mret g
          else mret (mkSampling (on_acked f.(fl_mark) f.(fl_at) f.(fl_bytes) at_ g.(sg_sampler)) g.(sg_flights) g.(sg_folded)
                       (g.(sg_batch) ++ [(i, at_)]) g.(sg_note))
      | None => mret g
      end
  | DvEnd now =>
      '(s, _) ← end_ack now g.(sg_sampler);
      mret (mkSampling s g.(sg_flights) (g.(sg_folded) ++ g.(sg_batch).*1) [] g.(sg_note))
  end.
Fixpoint sampling_run {E} (evs : list sampling_event) (g : Sampling) : outcome E Sampling :=
  match evs with [] => mret g | ev :: evs => g ← sampling_step ev g; sampling_run evs g end.
Definition sizes_ok (evs : list sampling_event) : Prop :=
  Forall (λ ev, match ev with DvDepart _ bytes _ _ => 0 ≤ bytes | _ => True end) evs.

Definition size_at (fs : list Flight) (i : nat) : Z := match fs !! i with Some f => f.(fl_bytes) | None => 0 end.
(** The bytes of some transmissions. *)
Definition volume (fs : list Flight) (l : list nat) : Z := foldr Z.add 0 (size_at fs <$> l).
Definition marked_at (fs : list Flight) (i : nat) : Z :=
  match fs !! i with Some f => f.(fl_mark).(rm_state).(rp_delivered) | None => 0 end.
Definition max_of (d : Z) (l : list Z) : Z := foldr Z.max d l.
(** The last note still stands: nothing sent after it has been acknowledged. *)
Definition note_stands (note : option Z) (folded : list nat) : bool :=
  match note with Some n => forallb (λ i, Z.of_nat i + 1 <=? n) folded | None => false end.

Record flight_ok (g : Sampling) (i : nat) (f : Flight) : Prop := {
  fo_num : f.(fl_mark).(rm_pkt_num) = Z.of_nat i + 1;
  fo_delivered : f.(fl_mark).(rm_state).(rp_delivered) = Z.min U64_SAT (volume g.(sg_flights) f.(fl_before));
  fo_time : f.(fl_mark).(rm_state).(rp_delivered_time) ≠ None;
  fo_app : f.(fl_mark).(rm_state).(rp_is_app_limited) = note_stands f.(fl_note) f.(fl_before);
  fo_bytes : 0 ≤ f.(fl_bytes);
  fo_before : f.(fl_before) `prefix_of` g.(sg_folded);
}.
Record sampling_inv (g : Sampling) : Prop := {
  sv_flights : ∀ i f, g.(sg_flights) !! i = Some f → flight_ok g i f;
  sv_order : ∀ i j f k, g.(sg_flights) !! i = Some f → g.(sg_flights) !! j = Some k → (i ≤ j)%nat → f.(fl_before) `prefix_of` k.(fl_before);
  sv_known : Forall (λ i, (i < length g.(sg_flights))%nat) (g.(sg_folded) ++ g.(sg_batch).*1);
  sv_once : NoDup (g.(sg_folded) ++ g.(sg_batch).*1);
  sv_delivered : g.(sg_sampler).(ds_est).(dr_delivered) = Z.min U64_SAT (volume g.(sg_flights) g.(sg_folded));
  sv_prior : g.(sg_sampler).(ds_est).(dr_sample).(es_prior_delivered) = max_of 0 (marked_at g.(sg_flights) <$> g.(sg_folded));
  sv_prior_time : g.(sg_sampler).(ds_est).(dr_sample).(es_prior_time) = None ↔ g.(sg_folded) = [];
  sv_largest : g.(sg_sampler).(ds_est).(dr_largest_acked) = max_of 0 ((λ i : nat, Z.of_nat i + 1) <$> g.(sg_folded));
  sv_last_sent : g.(sg_sampler).(ds_est).(dr_last_sent) = Z.of_nat (length g.(sg_flights));
  sv_bubble : g.(sg_sampler).(ds_est).(dr_last_app_limited) = (if note_stands g.(sg_note) g.(sg_folded) then default 0 g.(sg_note) else 0);
  sv_note : ∀ n, g.(sg_note) = Some n → 1 ≤ n ≤ Z.max 1 (Z.of_nat (length g.(sg_flights)));
  sv_batch : ∃ l, Forall2 (λ it a, ∃ f, g.(sg_flights) !! it.1 = Some f ∧ a = acked_of f it.2) g.(sg_batch) l ∧
    g.(sg_sampler).(ds_pending) = packet_of <$> l ∧ g.(sg_sampler).(ds_pacer_flags) = flag_of <$> l;
}.

(** *** Folding a batch *)

Lemma max_of_app d l k : max_of d (l ++ k) = max_of (max_of d k) l.
Proof. unfold max_of. by rewrite foldr_app. Qed.
Lemma max_of_perm d l k : l ≡ₚ k → max_of d l = max_of d k.
Proof. unfold max_of. induction 1; cbn; lia. Qed.
Lemma max_of_le d l m : max_of d l ≤ m ↔ d ≤ m ∧ Forall (λ x, x ≤ m) l.
Proof.
  induction l as [|x l IH]; cbn; [by split; [|intros []]|]. rewrite Forall_cons. split.
  - intros ?. assert (foldr Z.max d l ≤ m) as []%IH by (unfold max_of in *; lia). split; [done|]. split; [lia|done].
  - intros (? & ? & ?). assert (foldr Z.max d l ≤ m) by (by apply IH). lia.
Qed.
Lemma max_of_cons d x l : max_of d (x :: l) = max_of (Z.max d x) l.
Proof. unfold max_of. cbn. induction l as [|y l IH]; cbn; lia. Qed.

Definition foldable (p : SentPacket) : Prop :=
  p.(sp_state).(rp_delivered_time) ≠ None ∧ p.(sp_time_acked) ≠ None ∧ 0 ≤ p.(sp_sent_size) ∧ 0 ≤ p.(sp_state).(rp_delivered).
Definition volume_of (l : list SentPacket) : Z := foldr Z.add 0 (sp_sent_size <$> l).
Lemma volume_of_cons p l : volume_of (p :: l) = p.(sp_sent_size) + volume_of l.
Proof. done. Qed.
Lemma volume_of_nonneg l : Forall foldable l → 0 ≤ volume_of l.
Proof. induction 1 as [|q l (_ & _ & ? & _) _ IH]; [done|]. rewrite volume_of_cons. lia. Qed.
Lemma volume_of_perm l k : l ≡ₚ k → volume_of l = volume_of k.
Proof. induction 1; rewrite ?volume_of_cons in *; lia. Qed.
Definition fold_batch (l : list SentPacket) (e : DeliveryRateEstimator) : DeliveryRateEstimator :=
  foldl (λ e p, (update_rate_sample p e).1) e l.

Record folded_to (l : list SentPacket) (e e' : DeliveryRateEstimator) : Prop := {
  ft_delivered : e'.(dr_delivered) = Z.min U64_SAT (e.(dr_delivered) + volume_of l);
  ft_prior : e'.(dr_sample).(es_prior_delivered) = max_of e.(dr_sample).(es_prior_delivered) ((λ p, p.(sp_state).(rp_delivered)) <$> l);
  ft_prior_time : e'.(dr_sample).(es_prior_time) = None ↔ e.(dr_sample).(es_prior_time) = None ∧ l = [];
  ft_largest : e'.(dr_largest_acked) = max_of e.(dr_largest_acked) (sp_pkt_num <$> l);
  ft_bubble : e'.(dr_last_app_limited) = e.(dr_last_app_limited);
  ft_last_sent : e'.(dr_last_sent) = e.(dr_last_sent);
}.
Lemma fold_batch_spec l e : Forall foldable l → e.(dr_delivered) ≤ U64_SAT →
  (e.(dr_sample).(es_prior_time) = None → e.(dr_sample).(es_prior_delivered) = 0) → folded_to l e (fold_batch l e).
Proof.
  induction l as [|p l IH] in e |- *; intros Hl Hd Hp.
  - constructor; cbn; try done. + unfold volume_of. cbn. lia. + by split; [|intros []].
  - apply Forall_cons in Hl as [(Ht & Ha & Hs & Hm) Hl]. unfold fold_batch. cbn [foldl]. fold (fold_batch l (update_rate_sample p e).1).
    unfold update_rate_sample. destruct (rp_delivered_time (sp_state p)) as [pt|] eqn:Hpt; [|done].
    destruct (sp_time_acked p) as [acked|]; [|done]. cbn [fst].
    set (newest := bool_decide _ || _). match goal with |- folded_to _ _ (fold_batch _ ?x) => set (e1 := x) end.
    assert (es_prior_delivered (dr_sample e1) = Z.max (es_prior_delivered (dr_sample e)) (rp_delivered (sp_state p))) as He1.
    { subst e1. cbn. unfold newest. case_bool_decide as Hn; cbn [orb]; [rewrite (Hp Hn); lia|].
      destruct (Z.ltb_spec (es_prior_delivered (dr_sample e)) (rp_delivered (sp_state p))); lia. }
    assert (es_prior_time (dr_sample e1) ≠ None) as Hpt1.
    { subst e1. cbn. unfold newest. case_bool_decide as Hn; cbn [orb]; [done|]. by destruct (_ <? _). }
    destruct (IH e1 Hl) as [Hdel Hpr Hti Hla Hbu Hse].
    { subst e1. cbn. unfold sat_add64. lia. } { by intros ?%Hpt1. }
    constructor.
    + rewrite Hdel, volume_of_cons. subst e1. cbn [dr_delivered]. unfold sat_add64. pose proof (volume_of_nonneg l Hl). lia.
    + rewrite Hpr, He1, fmap_cons. symmetry. apply max_of_cons.
    + rewrite Hti. split; [by intros [?%Hpt1]|]. by intros [].
    + rewrite Hla, fmap_cons, max_of_cons. subst e1. cbn. f_equal. lia.
    + by rewrite Hbu.
    + by rewrite Hse.
Qed.

Lemma generate_keeps {E} e e' : generate_rate_sample (E:=E) e = Ok e' →
  e'.(dr_delivered) = e.(dr_delivered) ∧ e'.(dr_sample).(es_prior_delivered) = e.(dr_sample).(es_prior_delivered) ∧
  e'.(dr_sample).(es_prior_time) = e.(dr_sample).(es_prior_time) ∧ e'.(dr_largest_acked) = e.(dr_largest_acked) ∧
  e'.(dr_last_sent) = e.(dr_last_sent) ∧
  e'.(dr_last_app_limited) = (if is_app_limited e && (e.(dr_last_app_limited) <? e.(dr_largest_acked)) then 0 else e.(dr_last_app_limited)).
Proof.
  unfold generate_rate_sample. cbv zeta. set (e1 := if is_app_limited e && _ then _ else _).
  assert (dr_sample e1 = dr_sample e ∧ dr_delivered e1 = dr_delivered e ∧ dr_largest_acked e1 = dr_largest_acked e ∧
          dr_last_sent e1 = dr_last_sent e ∧
          dr_last_app_limited e1 = (if is_app_limited e && (dr_last_app_limited e <? dr_largest_acked e) then 0 else dr_last_app_limited e))
    as (H1 & H2 & H3 & H4 & H5).
  { subst e1. by destruct (is_app_limited e && _). }
  rewrite H1. destruct (es_prior_time (dr_sample e)) as [pt|] eqn:Hpt.
  - destruct (Z.max _ _ =? 0).
    + intros [= <-]. cbn. by rewrite H2, H3, H4, H5.
    + unfold assert_. destruct (negb _); cbn [mbind]; [|done]. intros [= <-]. cbn. by rewrite H2, H3, H4, H5.
  - intros [= <-]. by rewrite H1, H2, H3, H4, H5.
Qed.

Lemma end_ack_est {E} now s s' out : end_ack (E:=E) now s = Ok (s', out) → s.(ds_pending) ≠ [] →
  generate_rate_sample (E:=E) (fold_batch (sort_packets s.(ds_pending)) s.(ds_est)) = Ok s'.(ds_est) ∧
  s'.(ds_pending) = [] ∧ s'.(ds_pacer_flags) = [].
Proof.
  unfold end_ack. destruct (ds_pending s) as [|p l] eqn:Hp; [done|]. intros He _. unfold fold_batch.
  destruct (generate_rate_sample _) as [e| |]; [|done..]. rewrite bind_Ok in He.
  revert He. destruct (es_interval (dr_sample e) =? 0); by intros [= <- <-].
Qed.

Lemma size_at_app fs k i : (i < length fs)%nat → size_at (fs ++ k) i = size_at fs i.
Proof. intros ?. unfold size_at. by rewrite lookup_app_l. Qed.
Lemma volume_snoc fs f l : Forall (λ i, (i < length fs)%nat) l → volume (fs ++ [f]) l = volume fs l.
Proof. unfold volume. induction 1 as [|i l Hi _ IH]; [done|]. rewrite !fmap_cons. cbn [foldr]. by rewrite size_at_app, IH. Qed.
Lemma marked_snoc fs f l : Forall (λ i, (i < length fs)%nat) l → marked_at (fs ++ [f]) <$> l = marked_at fs <$> l.
Proof.
  induction 1 as [|i l Hi _ IH]; [done|]. rewrite !fmap_cons, IH. f_equal. unfold marked_at. by rewrite lookup_app_l.
Qed.
Lemma volume_app fs l k : volume fs (l ++ k) = volume fs l + volume fs k.
Proof. unfold volume. induction l as [|i l IH]; [done|]. cbn [app]. rewrite !fmap_cons. cbn [foldr]. rewrite IH. lia. Qed.
Lemma Forall_prefix {A} (P : A → Prop) l k : l `prefix_of` k → Forall P k → Forall P l.
Proof. intros [x ->]. by intros [? _]%Forall_app. Qed.

(** The packets of the batch being gathered. *)
Lemma batch_packets g l : (∀ i f, g.(sg_flights) !! i = Some f → flight_ok g i f) →
  Forall2 (λ it a, ∃ f, g.(sg_flights) !! it.1 = Some f ∧ a = acked_of f it.2) g.(sg_batch) l →
  Forall foldable (packet_of <$> l) ∧ volume_of (packet_of <$> l) = volume g.(sg_flights) g.(sg_batch).*1 ∧
  (λ p, p.(sp_state).(rp_delivered)) <$> (packet_of <$> l) = marked_at g.(sg_flights) <$> g.(sg_batch).*1 ∧
  sp_pkt_num <$> (packet_of <$> l) = (λ i : nat, Z.of_nat i + 1) <$> g.(sg_batch).*1 ∧
  (l = [] ↔ g.(sg_batch) = []).
Proof.
  intros Hf Hl. assert (∀ fs i, Z.min U64_SAT (volume fs i) < 0 → ∃ j f, fs !! j = Some f ∧ f.(fl_bytes) < 0) as Hneg.
  { intros fs js H. assert (volume fs js < 0) as Hv by (unfold U64_SAT in *; lia). clear H.
    induction js as [|i js IH]; [done|]. change (volume fs (i :: js)) with (size_at fs i + volume fs js) in Hv.
    destruct (Z.lt_ge_cases (volume fs js) 0); [by apply IH|]. unfold size_at in Hv. destruct (fs !! i) as [f|] eqn:Hi; [|lia].
    exists i, f. split; [done|lia]. }
  induction Hl as [|[i t] a b l (f & Hi & ->) _ IH]; [done|].
  destruct IH as (IH1 & IH2 & IH3 & IH4 & _). pose proof (Hf _ _ Hi) as [Hn Hd Ht _ Hb _]. rewrite !fmap_cons. cbn [fst] in *.
  split_and!.
  - constructor; [|done]. split_and!; cbn; [done|done|done|]. rewrite Hd.
    destruct (Z.lt_ge_cases (U64_SAT `min` volume (sg_flights g) (fl_before f)) 0) as [H|]; [|done].
    destruct (Hneg _ _ H) as (j & k & Hj & Hk). pose proof (fo_bytes _ _ _ (Hf _ _ Hj)). lia.
  - rewrite volume_of_cons, IH2. change (volume (sg_flights g) (i :: b.*1)) with (size_at (sg_flights g) i + volume (sg_flights g) b.*1).
    unfold size_at. by rewrite Hi.
  - rewrite IH3. f_equal. unfold marked_at. by rewrite Hi.
  - rewrite IH4. f_equal. exact Hn.
  - done.
Qed.

Lemma forallb_true {A} (f : A → bool) l : forallb f l = true ↔ Forall (λ x, f x = true) l.
Proof. induction l as [|x l IH]; cbn; [by split|]. by rewrite andb_true_iff, Forall_cons, IH. Qed.
Lemma forallb_none {A} (f : A → bool) l : forallb f l = false ↔ ¬ Forall (λ x, f x = true) l.
Proof. rewrite <-forallb_true. by destruct (forallb f l). Qed.

(** *** The invariant *)

Lemma sampling_new_inv now : sampling_inv (sampling_new now).
Proof. constructor; cbn; try done; try by constructor. by exists []. Qed.

Lemma sv_folded_known g : sampling_inv g → Forall (λ i, (i < length g.(sg_flights))%nat) g.(sg_folded).
Proof. intros Hi. by pose proof (sv_known _ Hi) as [? _]%Forall_app. Qed.

Lemma depart_inv g at_ bytes in_flight pacer s m : sampling_inv g → 0 ≤ bytes →
  on_departure at_ bytes in_flight pacer (Z.of_nat (length g.(sg_flights))) g.(sg_sampler) = (s, m) →
  sampling_inv (mkSampling s (g.(sg_flights) ++ [mkFlight m at_ bytes g.(sg_folded) g.(sg_note)]) g.(sg_folded) g.(sg_batch) g.(sg_note)).
Proof.
  intros Hi Hb. unfold on_departure, on_packet_sent. cbv zeta. intros [= <- <-]. pose proof (sv_folded_known g Hi) as Hk.
  destruct Hi as [Hfl Hor Hkn Hon Hde Hpr Hpt Hla Hls Hbu Hno (l & Hl & Hpe & Hpf)].
  constructor; cbn [sg_sampler sg_flights sg_folded sg_batch sg_note ds_est ds_pending ds_pacer_flags dr_delivered dr_sample dr_largest_acked
    dr_last_sent dr_last_app_limited sp_pkt_num]; rewrite ?length_app; cbn [length].
  - intros i f [Hf|[Hlen Hf]]%lookup_app_Some.
    + destruct (Hfl i f Hf) as [H1 H2 H3 H4 H5 H6]. constructor; cbn [sg_flights sg_folded]; [done| |done..].
      rewrite volume_snoc; [done|]. by apply (Forall_prefix _ _ _ H6).
    + apply list_lookup_singleton_Some in Hf as [Hz <-].
      constructor; cbn [sg_flights sg_folded fl_mark fl_before fl_bytes rm_pkt_num rm_state sp_pkt_num sp_state rp_delivered rp_delivered_time
        rp_is_app_limited fl_note]; [lia| |done| |done..].
      * rewrite Hde. by rewrite volume_snoc.
      * unfold is_app_limited. rewrite Hbu. destruct (note_stands (sg_note g) (sg_folded g)) eqn:Hst; [|done].
        destruct (sg_note g) as [n|] eqn:Hn; [|done]. specialize (Hno n eq_refl). change (default 0 (Some n)) with n.
        by destruct (Z.eqb_spec n 0); [lia|].
  - intros i j f k Hf Hg Hij. apply lookup_app_Some in Hf as [Hf|[Hlen Hf]], Hg as [Hg|[Hlen' Hg]].
    + by eapply Hor.
    + apply list_lookup_singleton_Some in Hg as [_ <-]. cbn. apply (Hfl i f Hf).
    + apply lookup_lt_Some in Hg. lia.
    + apply list_lookup_singleton_Some in Hg as [_ <-], Hf as [_ <-]. done.
  - eapply Forall_impl; [exact Hkn|]. cbn. intros. lia.
  - done.
  - by rewrite volume_snoc.
  - by rewrite marked_snoc.
  - done.
  - done.
  - lia.
  - done.
  - intros n Hn. specialize (Hno n Hn). lia.
  - exists l. split; [|done]. eapply Forall2_impl; [exact Hl|]. intros it a (f & Hf & ->). exists f. split; [|done].
    by apply lookup_app_l_Some.
Qed.

Lemma no_backlog_inv g : sampling_inv g →
  sampling_inv (mkSampling (note_no_backlog g.(sg_sampler)) g.(sg_flights) g.(sg_folded) g.(sg_batch)
    (Some (Z.max (Z.of_nat (length g.(sg_flights))) 1))).
Proof.
  intros Hi. pose proof (sv_folded_known g Hi) as Hk. destruct Hi as [Hfl Hor Hkn Hon Hde Hpr Hpt Hla Hls Hbu Hno Hba].
  constructor; cbn; try done.
  - intros i f Hf. by destruct (Hfl i f Hf).
  - rewrite Hls. assert (forallb (λ i, Z.of_nat i + 1 <=? Z.max (Z.of_nat (length (sg_flights g))) 1) (sg_folded g) = true) as ->; [|done].
    apply forallb_true. eapply Forall_impl; [exact Hk|]. cbn. intros i ?. apply Z.leb_le. lia.
  - intros n [= <-]. lia.
Qed.

Lemma ack_inv g i f at_ : sampling_inv g → g.(sg_flights) !! i = Some f → i ∉ g.(sg_folded) ++ g.(sg_batch).*1 →
  sampling_inv (mkSampling (on_acked f.(fl_mark) f.(fl_at) f.(fl_bytes) at_ g.(sg_sampler)) g.(sg_flights) g.(sg_folded)
    (g.(sg_batch) ++ [(i, at_)]) g.(sg_note)).
Proof.
  intros [Hfl Hor Hkn Hon Hde Hpr Hpt Hla Hls Hbu Hno (l & Hl & Hpe & Hpf)] Hf Hnew.
  constructor; cbn [sg_sampler sg_flights sg_folded sg_batch sg_note on_acked ds_est ds_pending ds_pacer_flags]; try done.
  - intros j k Hk. by destruct (Hfl j k Hk).
  - rewrite fmap_app, app_assoc. apply Forall_app. split; [done|]. repeat constructor. by eapply lookup_lt_Some.
  - rewrite fmap_app, app_assoc. apply NoDup_app. split; [done|]. split; [|apply NoDup_singleton].
    intros x Hx Hin%list_elem_of_singleton. cbn in Hin. by subst x.
  - exists (l ++ [acked_of f at_]). split; [|by rewrite Hpe, Hpf, !fmap_app].
    apply Forall2_app; [done|]. constructor; [by exists f|constructor].
Qed.

Lemma note_stands_app note l k :
  note_stands note (l ++ k) = note_stands note l && match note with Some n => forallb (λ i, Z.of_nat i + 1 <=? n) k | None => true end.
Proof. destruct note; cbn; [apply forallb_app|done]. Qed.

Lemma end_inv {E} g now s out : sampling_inv g → end_ack (E:=E) now g.(sg_sampler) = Ok (s, out) →
  sampling_inv (mkSampling s g.(sg_flights) (g.(sg_folded) ++ g.(sg_batch).*1) [] g.(sg_note)).
Proof.
  intros Hi He. pose proof Hi as [Hfl Hor Hkn Hon Hde Hpr Hpt Hla Hls Hbu Hno (l & Hl & Hpe & Hpf)].
  destruct (batch_packets g l Hfl Hl) as (Hfo & Hvo & Hma & Hnu & Hnil).
  destruct (decide (ds_pending (sg_sampler g) = [])) as [Hemp|Hne].
  { assert (sg_batch g = []) as Hbe. { apply Hnil. rewrite Hpe in Hemp. by apply fmap_nil_inv in Hemp. }
    unfold end_ack in He. rewrite Hemp in He. injection He as <- <-. clear -Hi Hbe. destruct g as [gs gf gd gb gn]. cbn [sg_batch] in Hbe.
    subst gb. cbn [sg_sampler sg_flights sg_folded sg_batch sg_note fmap list_fmap]. by rewrite app_nil_r. }
  assert (l ≠ []) as Hl0. { intros ->. by rewrite Hpe in Hne. }
  destruct (end_ack_est now _ _ _ He Hne) as (Hge & Hpe' & Hpf'). rewrite Hpe in Hge.
  set (L := packet_of <$> l) in *. pose proof (sort_packets_perm L) as Hperm.
  assert (Forall foldable (sort_packets L)) as HfL by (by rewrite Hperm).
  destruct (fold_batch_spec (sort_packets L) (ds_est (sg_sampler g)) HfL) as [F1 F2 F3 F4 F5 F6].
  { rewrite Hde. lia. } { intros Hn%Hpt. by rewrite Hpr, Hn. }
  destruct (generate_keeps _ _ Hge) as (G1 & G2 & G3 & G4 & G5 & G6).
  assert (volume_of (sort_packets L) = volume (sg_flights g) (sg_batch g).*1) as Hvs by (rewrite <-Hvo; by apply volume_of_perm).
  constructor; cbn [sg_sampler sg_flights sg_folded sg_batch sg_note].
  - intros i f Hf. destruct (Hfl i f Hf) as [H1 H2 H3 H4 H5 H6]. constructor; cbn; [done..|]. by apply prefix_app_r.
  - done.
  - by rewrite app_nil_r.
  - by rewrite app_nil_r.
  - rewrite G1, F1, Hde, Hvs, volume_app. assert (0 ≤ volume (sg_flights g) (sg_batch g).*1) by (rewrite <-Hvo; by apply volume_of_nonneg). lia.
  - rewrite G2, F2, Hpr, <-max_of_app, fmap_app, <-Hma. apply max_of_perm. rewrite Hperm. apply Permutation_app_comm.
  - rewrite G3, F3, Hpt. split.
    + intros [_ Hs]. rewrite Hs in Hperm. apply Permutation_nil_l in Hperm. by destruct l.
    + intros [_ Hb]%app_eq_nil. apply fmap_nil_inv in Hb. by apply Hnil in Hb.
  - rewrite G4, F4, Hla, <-max_of_app, fmap_app, <-Hnu. apply max_of_perm. rewrite Hperm. apply Permutation_app_comm.
  - by rewrite G5, F6.
  - rewrite G6. unfold is_app_limited. rewrite F5, F4, Hla, Hbu, note_stands_app.
    destruct (note_stands (sg_note g) (sg_folded g)) eqn:Hst; [|by rewrite andb_false_l].
    destruct (sg_note g) as [n|] eqn:Hn; [|done]. cbn [andb]. specialize (Hno n eq_refl).
    change (default 0 (Some n)) with n. destruct (Z.eqb_spec n 0); [lia|]. cbn [negb andb].
    assert (max_of 0 ((λ i : nat, Z.of_nat i + 1) <$> sg_folded g) ≤ n) as Hlo.
    { apply max_of_le. split; [lia|]. apply Forall_fmap. apply forallb_true in Hst.
      eapply Forall_impl; [exact Hst|]. intros i H. by apply Z.leb_le in H. }
    assert ((n <? max_of (max_of 0 ((λ i : nat, Z.of_nat i + 1) <$> sg_folded g)) (sp_pkt_num <$> sort_packets L))
            = negb (forallb (λ i, Z.of_nat i + 1 <=? n) (sg_batch g).*1)) as ->.
    { assert (sp_pkt_num <$> sort_packets L ≡ₚ (λ i : nat, Z.of_nat i + 1) <$> (sg_batch g).*1) as Hps by (rewrite <-Hnu; by rewrite Hperm).
      rewrite (max_of_perm _ _ _ Hps). destruct (forallb _ (sg_batch g).*1) eqn:Hfb; cbn [negb].
      - apply Z.ltb_ge, max_of_le. split; [done|]. apply forallb_true in Hfb. apply Forall_fmap.
        eapply Forall_impl; [exact Hfb|]. intros i H. by apply Z.leb_le in H.
      - apply Z.ltb_lt, Z.nle_gt. intros [_ H]%max_of_le. apply forallb_none in Hfb. apply Hfb.
        rewrite Forall_forall in H. apply Forall_forall. intros i Hin. apply Z.leb_le, H, list_elem_of_fmap. by exists i. }
    by destruct (forallb _ _).
  - done.
  - exists []. split; [constructor|]. by rewrite Hpe', Hpf'.
Qed.

Lemma sampling_step_inv {E} ev g g' : sampling_inv g → sizes_ok [ev] → sampling_step (E:=E) ev g = Ok g' → sampling_inv g'.
Proof.
  intros Hi Hok. apply Forall_cons in Hok as [Hok _]. destruct ev as [at_ b inf pc| |i at_|now]; cbn [sampling_step].
  - destruct (on_departure _ _ _ _ _ _) as [s m] eqn:Hd. intros [= <-]. by eapply depart_inv.
  - intros [= <-]. by apply no_backlog_inv.
  - destruct (sg_flights g !! i) as [f|] eqn:Hf; [|by intros [= <-]]. case_bool_decide as Hin; intros [= <-]; [done|]. by apply ack_inv.
  - destruct (end_ack now (sg_sampler g)) as [[s out]| |] eqn:He; [|done..]. rewrite bind_Ok. intros [= <-]. by eapply end_inv.
Qed.
Lemma sampling_run_inv {E} evs g g' : sampling_inv g → sizes_ok evs → sampling_run (E:=E) evs g = Ok g' → sampling_inv g'.
Proof.
  induction evs as [|ev evs IH] in g |- *; intros Hi Hok; cbn [sampling_run]; [by intros [= <-]|].
  apply Forall_cons in Hok as [H1 H2]. destruct (sampling_step ev g) as [g1| |] eqn:Hs; [|done..]. rewrite bind_Ok. intros Hr.
  apply (IH g1); [|done..]. eapply sampling_step_inv; [done| |exact Hs]. by constructor.
Qed.

(** *** The newest transmission's flight *)

Lemma sort_packets_last l p : NoDup (sp_pkt_num <$> l) → p ∈ l → Forall (λ q, q.(sp_pkt_num) ≤ p.(sp_pkt_num)) l →
  ∃ l', sort_packets l = l' ++ [p].
Proof.
  intros Hn Hp Hall. pose proof (sort_packets_perm l) as Hperm. pose proof (sort_packets_sorted l) as Hs.
  rewrite <-Hperm in Hp, Hall. assert (NoDup (sp_pkt_num <$> sort_packets l)) as Hn' by (by rewrite Hperm).
  apply list_elem_of_split in Hp as (a & b & Heq). rewrite Heq in *. exists a.
  destruct b as [|q b]; [done|]. exfalso. apply sorted_app_r, StronglySorted_inv in Hs as [_ Hf].
  apply Forall_cons in Hf as [Hpq _]. apply Forall_app in Hall as [_ Hall]. apply Forall_cons in Hall as [_ Hall].
  apply Forall_cons in Hall as [Hqp _]. rewrite fmap_app, !fmap_cons in Hn'. apply NoDup_app in Hn' as (_ & _ & Hn').
  apply NoDup_cons in Hn' as [Hnot _]. apply Hnot. unfold by_number in Hpq. assert (sp_pkt_num p = sp_pkt_num q) as -> by lia. left.
Qed.

Record last_folded (p : SentPacket) (e1 e : DeliveryRateEstimator) : Prop := {
  lf_send : e.(dr_sample).(es_send_elapsed) = sat_sub p.(sp_time_sent) (default p.(sp_time_sent) p.(sp_state).(rp_first_sent_time));
  lf_ack : e.(dr_sample).(es_ack_elapsed) =
    sat_sub (default 0 p.(sp_time_acked)) (default p.(sp_time_sent) p.(sp_state).(rp_delivered_time));
  lf_rtt : e.(dr_sample).(es_rtt) = sat_sub (default 0 p.(sp_time_acked)) p.(sp_time_sent);
  lf_app : e1.(dr_sample).(es_prior_time) = None ∨ e1.(dr_sample).(es_prior_delivered) < p.(sp_state).(rp_delivered) →
    e.(dr_sample).(es_is_app_limited) = p.(sp_state).(rp_is_app_limited);
}.
Lemma fold_batch_last l p e : foldable p → last_folded p (fold_batch l e) (fold_batch (l ++ [p]) e).
Proof.
  intros (Ht & Ha & _ & _). unfold fold_batch. rewrite foldl_app. cbn [foldl]. fold (fold_batch l e). set (e1 := fold_batch l e).
  unfold update_rate_sample. destruct (rp_delivered_time (sp_state p)) as [pt|] eqn:Hpt; [|done].
  destruct (sp_time_acked p) as [acked|] eqn:Hac; [|done].
  constructor; cbn [fst dr_sample es_send_elapsed es_ack_elapsed es_rtt es_is_app_limited]; rewrite ?Hpt, ?Hac; [done..|].
  intros [Hn|Hlt]; [by rewrite bool_decide_true|]. rewrite (proj2 (Z.ltb_lt _ _) Hlt). by rewrite orb_true_r.
Qed.

Lemma generate_rate {E} e : e.(dr_sample).(es_prior_time) ≠ None →
  let interval := Z.max e.(dr_sample).(es_send_elapsed) e.(dr_sample).(es_ack_elapsed) in
  1000 ≤ interval < 2 ^ 64 →
  ∃ e', generate_rate_sample (E:=E) e = Ok e' ∧ e'.(dr_sample).(es_interval) = interval ∧
    e'.(dr_sample).(es_delivery_rate) = u64 (sat_sub e.(dr_delivered) e.(dr_sample).(es_prior_delivered) * 1000000) / (interval / 1000) ∧
    e'.(dr_sample).(es_is_app_limited) = e.(dr_sample).(es_is_app_limited) ∧ e'.(dr_sample).(es_rtt) = e.(dr_sample).(es_rtt).
Proof.
  intros Hpt interval Hint. unfold generate_rate_sample. cbv zeta. set (e1 := if is_app_limited e && _ then _ else _).
  assert (dr_sample e1 = dr_sample e ∧ dr_delivered e1 = dr_delivered e) as [-> ->] by (subst e1; by destruct (is_app_limited e && _)).
  destruct (es_prior_time (dr_sample e)) as [pt|]; [|done]. fold interval.
  destruct (Z.eqb_spec interval 0); [lia|].
  assert (1 ≤ interval / 1000 < 2 ^ 64) as Hm by dlia. rewrite (wrap_small 64 (interval / 1000)) by (unfold in_width; lia).
  unfold assert_. destruct (Z.eqb_spec (interval / 1000) 0); [lia|]. cbn [negb]. rewrite bind_Ok. by eexists.
Qed.

Lemma newest_flag_of l n b : NoDup l.*1 → (n, b) ∈ l → Forall (λ x, x.1 ≤ n) l → newest_flag l = b.
Proof.
  intros Hn Hin Hall. rewrite newest_flag_eq. destruct (foldl newest_step None l) as [x|] eqn:Hx.
  - apply newest_fold in Hx as [[Hx|?] Hm]; [|done]. pose proof (Hm _ (or_introl Hin)) as H1. cbn in H1.
    rewrite Forall_forall in Hall. pose proof (Hall x Hx). by rewrite (NoDup_key_inj fst l x (n, b) Hn Hx Hin ltac:(cbn; lia)).
  - destruct l as [|y l]; [by apply not_elem_of_nil in Hin|]. exfalso. revert Hx. cbn. clear. revert y.
    induction l as [|z l IH]; intros y; [done|]. cbn. destruct (_ <? _); apply IH.
Qed.

Lemma volume_nonneg g l : sampling_inv g → 0 ≤ volume g.(sg_flights) l.
Proof.
  intros Hi. unfold volume. induction l as [|i l IH]; [done|]. rewrite fmap_cons. cbn [foldr].
  assert (0 ≤ size_at (sg_flights g) i); [|lia]. unfold size_at. destruct (sg_flights g !! i) eqn:Hf; [|done].
  apply (fo_bytes _ _ _ (sv_flights _ Hi _ _ Hf)).
Qed.
Lemma marked_mono g i j : sampling_inv g → (i ≤ j)%nat → (j < length g.(sg_flights))%nat → marked_at g.(sg_flights) i ≤ marked_at g.(sg_flights) j.
Proof.
  intros Hi Hij Hj. destruct (lookup_lt_is_Some_2 _ _ Hj) as [k Hk]. destruct (lookup_lt_is_Some_2 (sg_flights g) i ltac:(lia)) as [f Hf].
  unfold marked_at. rewrite Hf, Hk, (fo_delivered _ _ _ (sv_flights _ Hi _ _ Hf)), (fo_delivered _ _ _ (sv_flights _ Hi _ _ Hk)).
  destruct (sv_order _ Hi i j f k Hf Hk Hij) as [x ->]. rewrite volume_app. pose proof (volume_nonneg g x Hi). lia.
Qed.

Lemma batch_member g l P f at_ : Forall2 (λ it a, ∃ f, g.(sg_flights) !! it.1 = Some f ∧ a = acked_of f it.2) g.(sg_batch) l →
  (P, at_) ∈ g.(sg_batch) → g.(sg_flights) !! P = Some f →
  packet_of (acked_of f at_) ∈ packet_of <$> l ∧ flag_of (acked_of f at_) ∈ flag_of <$> l.
Proof.
  intros Hl HP Hf. induction Hl as [|[i t] a b l (k & Hk & ->) _ IH]; [by apply not_elem_of_nil in HP|]. rewrite !fmap_cons.
  apply elem_of_cons in HP as [[= -> ->]|HP].
  - cbn in Hk. rewrite Hf in Hk. injection Hk as <-. split; left.
  - destruct (IH HP) as [? ?]. split; by right.
Qed.

Lemma batch_numbers g P : sampling_inv g → Forall (λ i, (i ≤ P)%nat) (g.(sg_folded) ++ g.(sg_batch).*1) →
  NoDup ((λ i : nat, Z.of_nat i + 1) <$> g.(sg_batch).*1) ∧
  Forall (λ n, n ≤ Z.of_nat P + 1) ((λ i : nat, Z.of_nat i + 1) <$> g.(sg_batch).*1).
Proof.
  intros Hi [_ Hb]%Forall_app. pose proof (sv_once _ Hi) as (_ & _ & Hn)%NoDup_app. split.
  - apply NoDup_fmap_2; [|done]. intros i j ?. lia.
  - apply Forall_fmap. eapply Forall_impl; [exact Hb|]. cbn. intros. lia.
Qed.

(** What ending the batch has done to the estimator, before the sample is made. *)
Lemma end_folds g l : sampling_inv g → Forall2 (λ it a, ∃ f, g.(sg_flights) !! it.1 = Some f ∧ a = acked_of f it.2) g.(sg_batch) l →
  let acked := g.(sg_folded) ++ g.(sg_batch).*1 in
  let e := fold_batch (sort_packets (packet_of <$> l)) g.(sg_sampler).(ds_est) in
  e.(dr_delivered) = Z.min U64_SAT (volume g.(sg_flights) acked) ∧
  e.(dr_sample).(es_prior_delivered) = max_of 0 (marked_at g.(sg_flights) <$> acked) ∧
  (e.(dr_sample).(es_prior_time) = None ↔ acked = []).
Proof.
  intros Hi Hl acked e. destruct (batch_packets g l (sv_flights _ Hi) Hl) as (Hfo & Hvo & Hma & Hnu & Hnil).
  set (L := packet_of <$> l) in *. pose proof (sort_packets_perm L) as Hperm.
  destruct (fold_batch_spec (sort_packets L) (ds_est (sg_sampler g))) as [F1 F2 F3 _ _ _].
  { by rewrite Hperm. } { rewrite (sv_delivered _ Hi). lia. } { intros Hn%(sv_prior_time _ Hi). by rewrite (sv_prior _ Hi), Hn. }
  fold e in F1, F2, F3. split; [|split].
  - rewrite F1, (sv_delivered _ Hi), (volume_of_perm _ _ Hperm), Hvo. unfold acked. rewrite volume_app.
    pose proof (volume_nonneg g (sg_batch g).*1 Hi). lia.
  - rewrite F2, (sv_prior _ Hi), <-max_of_app. unfold acked. rewrite fmap_app, <-Hma. apply max_of_perm. rewrite Hperm. apply Permutation_app_comm.
  - rewrite F3, (sv_prior_time _ Hi). split.
    + intros [Hz Hs]. rewrite Hs in Hperm. apply Permutation_nil_l in Hperm. unfold acked. rewrite Hz.
      assert (sg_batch g = []) as ->; [|done]. apply Hnil. by destruct l.
    + intros [Hz Hb]%app_eq_nil. split; [done|]. apply fmap_nil_inv in Hb. apply Hnil in Hb. unfold L. by rewrite Hb.
Qed.

Lemma max_marked g P l : sampling_inv g → Forall (λ i, (i ≤ P)%nat) l → (P < length g.(sg_flights))%nat → P ∈ l →
  max_of 0 (marked_at g.(sg_flights) <$> l) = marked_at g.(sg_flights) P.
Proof.
  intros Hi Hl HP Hin. apply Z.le_antisymm.
  - apply max_of_le. split.
    + unfold marked_at. destruct (sg_flights g !! P) as [f|] eqn:Hf; [|done]. rewrite (fo_delivered _ _ _ (sv_flights _ Hi _ _ Hf)).
      pose proof (volume_nonneg g (fl_before f) Hi). unfold U64_SAT. lia.
    + apply Forall_fmap. eapply Forall_impl; [exact Hl|]. intros i Hi'. by apply marked_mono.
  - pose proof (proj1 (max_of_le 0 (marked_at (sg_flights g) <$> l) _) (Z.le_refl _)) as [_ H].
    rewrite Forall_forall in H. by apply H, list_elem_of_fmap_2.
Qed.
Lemma volume_prefix g f l : sampling_inv g → f.(fl_before) `prefix_of` l → 0 ≤ volume g.(sg_flights) f.(fl_before) ≤ volume g.(sg_flights) l.
Proof. intros Hi [x ->]. rewrite volume_app. pose proof (volume_nonneg g x Hi). pose proof (volume_nonneg g (fl_before f) Hi). lia. Qed.

Lemma end_ack_sample {E} now s e : s.(ds_pending) ≠ [] →
  generate_rate_sample (E:=E) (fold_batch (sort_packets s.(ds_pending)) s.(ds_est)) = Ok e → e.(dr_sample).(es_interval) ≠ 0 →
  ∃ s', end_ack (E:=E) now s = Ok (s', Some (mkRateSample e.(dr_sample).(es_delivery_rate) e.(dr_sample).(es_is_app_limited)
    (newest_flag s.(ds_pacer_flags)) e.(dr_sample).(es_rtt))).
Proof.
  intros Hne Hge Hint. unfold end_ack. destruct (ds_pending s) as [|p l] eqn:Hp; [done|].
  fold (fold_batch (sort_packets (p :: l)) (ds_est s)). rewrite Hge, bind_Ok. cbv zeta.
  destruct (Z.eqb_spec (es_interval (dr_sample e)) 0); [done|]. by eexists.
Qed.

Lemma max_of_lt l m : l ≠ [] → Forall (λ x, 0 ≤ x < m) l → max_of 0 l < m.
Proof.
  intros Hne Hl. destruct l as [|x l]; [done|]. assert (∀ k, Forall (λ x, 0 ≤ x < m) k → max_of x k < m) as H.
  { apply Forall_cons in Hl as [Hx _]. unfold max_of. induction 1; cbn; lia. }
  apply Forall_cons in Hl as [Hx Hl]. rewrite max_of_cons, Z.max_r by lia. by apply H.
Qed.
Lemma marked_nonneg g i : sampling_inv g → 0 ≤ marked_at g.(sg_flights) i.
Proof.
  intros Hi. unfold marked_at. destruct (sg_flights g !! i) as [f|] eqn:Hf; [|done].
  rewrite (fo_delivered _ _ _ (sv_flights _ Hi _ _ Hf)). pose proof (volume_nonneg g (fl_before f) Hi). unfold U64_SAT. lia.
Qed.
(** The batch without its newest transmission. *)
Lemma batch_without g P L' p : sampling_inv g → P ∈ g.(sg_batch).*1 → p.(sp_state).(rp_delivered) = marked_at g.(sg_flights) P →
  (λ q, q.(sp_state).(rp_delivered)) <$> (L' ++ [p]) ≡ₚ marked_at g.(sg_flights) <$> g.(sg_batch).*1 →
  ∃ b, g.(sg_batch).*1 ≡ₚ P :: b ∧ ¬ (P ∈ b ++ g.(sg_folded)) ∧
    (λ q, q.(sp_state).(rp_delivered)) <$> L' ≡ₚ marked_at g.(sg_flights) <$> b.
Proof.
  intros Hi HP Hp HD. destruct (proj1 (elem_of_Permutation (sg_batch g).*1 P) HP) as [b Hb].
  exists b. split; [done|]. pose proof (sv_once _ Hi) as Hn. rewrite Hb in Hn. split.
  - apply NoDup_app in Hn as (_ & Hn1 & Hn2). apply NoDup_cons in Hn2 as [Hn2 _]. intros [Hin|Hin]%elem_of_app; [done|].
    apply (Hn1 P Hin). left.
  - rewrite Hb, fmap_cons, fmap_app in HD. cbn [fmap list_fmap] in HD. rewrite Hp in HD. rewrite Permutation_app_comm in HD. cbn [app] in HD.
    by apply Permutation_cons_inv in HD.
Qed.

(** The newest transmission of a batch is folded last. *)
Lemma newest_folded g P f at_ : sampling_inv g → (P, at_) ∈ g.(sg_batch) → g.(sg_flights) !! P = Some f →
  let acked := g.(sg_folded) ++ g.(sg_batch).*1 in
  let p := packet_of (acked_of f at_) in
  Forall (λ i, (i ≤ P)%nat) acked →
  ∃ L', sort_packets g.(sg_sampler).(ds_pending) = L' ++ [p] ∧ foldable p ∧
    (let e := fold_batch L' g.(sg_sampler).(ds_est) in
     Forall (λ i, i = P ∨ marked_at g.(sg_flights) i < marked_at g.(sg_flights) P) acked →
     e.(dr_sample).(es_prior_time) = None ∨ e.(dr_sample).(es_prior_delivered) < p.(sp_state).(rp_delivered)) ∧
    newest_flag g.(sg_sampler).(ds_pacer_flags) = f.(fl_mark).(rm_pacer_limited) ∧ g.(sg_sampler).(ds_pending) ≠ [].
Proof.
  intros Hi HP Hf acked p Hnew.
  destruct (sv_batch _ Hi) as (l & Hl & Hpe & Hpf). destruct (batch_packets g l (sv_flights _ Hi) Hl) as (Hfo & _ & Hma & Hnu & _).
  destruct (batch_member g l P f at_ Hl HP Hf) as [Hp Hflag]. fold p in Hp. rewrite <-Hpe in Hfo, Hma, Hnu, Hp.
  pose proof (fo_num _ _ _ (sv_flights _ Hi _ _ Hf)) as Fn.
  pose proof (batch_numbers g P Hi Hnew) as (Hdup & Hle). pose proof Hle as Hle'. rewrite <-Hnu in Hdup, Hle'.
  destruct (sort_packets_last (ds_pending (sg_sampler g)) p Hdup Hp) as (L' & HL).
  { rewrite Forall_forall in Hle'. apply Forall_forall. intros q Hq. cbn. rewrite Fn. by apply Hle', list_elem_of_fmap_2. }
  assert (Forall foldable (L' ++ [p])) as HfL by (rewrite <-HL; by rewrite sort_packets_perm).
  apply Forall_app in HfL as [HfL' Hfp]. apply Forall_cons in Hfp as [Hfp _].
  exists L'. split; [done|]. split; [done|]. split; [|split].
  - intros e Hall. destruct (fold_batch_spec L' (ds_est (sg_sampler g)) HfL') as [_ F2 F3 _ _ _].
    { rewrite (sv_delivered _ Hi). lia. } { intros Hn%(sv_prior_time _ Hi). by rewrite (sv_prior _ Hi), Hn. }
    fold e in F2, F3. rewrite (sv_prior_time _ Hi) in F3. rewrite (sv_prior _ Hi), <-max_of_app in F2.
    assert (rp_delivered (sp_state p) = marked_at (sg_flights g) P) as -> by (unfold marked_at; by rewrite Hf).
    destruct (batch_without g P L' p Hi (list_elem_of_fmap_2 fst _ _ HP)) as (b & Hb & HPb & HD).
    { unfold marked_at. by rewrite Hf. } { rewrite <-Hma, <-HL. by rewrite sort_packets_perm. }
    rewrite (max_of_perm _ _ (marked_at (sg_flights g) <$> b ++ sg_folded g)) in F2 by (by rewrite fmap_app, HD).
    destruct (decide (sg_folded g = [] ∧ L' = [])) as [Hn|Hsome]; [by left; apply F3|right].
    rewrite F2. apply max_of_lt.
    + intros [Hb0 Hf0]%fmap_nil_inv%app_eq_nil. apply Hsome. split; [done|]. rewrite Hb0 in HD. cbn in HD.
      apply Permutation_nil_r in HD. by apply fmap_nil_inv in HD.
    + rewrite Forall_forall in Hall. apply Forall_fmap, Forall_forall. intros i Hin. cbn.
      split; [by apply marked_nonneg|]. destruct (Hall i) as [->|?]; [|by destruct HPb|done].
      unfold acked. rewrite Hb, elem_of_app, elem_of_cons. apply elem_of_app in Hin as [?|?]; [by right; right|by left].
  - assert ((flag_of <$> l).*1 = (λ i : nat, Z.of_nat i + 1) <$> (sg_batch g).*1) as Hkeys.
    { rewrite <-Hnu, Hpe, <-!list_fmap_compose. done. }
    rewrite Hpf. apply (newest_flag_of _ (Z.of_nat P + 1)); [rewrite Hkeys; by rewrite <-Hnu| |].
    + rewrite <-Fn. exact Hflag.
    + rewrite <-Hkeys in Hle. rewrite Forall_forall in Hle. apply Forall_forall. intros x Hx. by apply Hle, list_elem_of_fmap_2.
  - intros Hn. rewrite Hn in Hp. by apply not_elem_of_nil in Hp.
Qed.

(** C0: A sample measures the newest transmission's flight.  After any session of departures, backlog notes,
    acknowledgements and batches, when a batch ends whose newest transmission is newer than every
    one acknowledged before, the sample is the bytes acknowledged since that transmission left, over the
    longer of the time it took to send them and the time it took to acknowledge them, and its round trip
    is that transmission's.  If no other transmission was sent at the same point of the delivery, the
    sample is application-limited exactly when, at that departure, something had been sent with no backlog
    and nothing sent after it had been acknowledged. *)
Theorem sample_measures_the_flight {E} evs t0 g P f at_ now :
  sizes_ok evs → sampling_run (E:=E) evs (sampling_new t0) = Ok g →
  (P, at_) ∈ g.(sg_batch) → g.(sg_flights) !! P = Some f →
  let acked := g.(sg_folded) ++ g.(sg_batch).*1 in
  let bytes := volume g.(sg_flights) acked - volume g.(sg_flights) f.(fl_before) in
  let st := f.(fl_mark).(rm_state) in
  let interval := Z.max (sat_sub f.(fl_at) (default f.(fl_at) st.(rp_first_sent_time)))
                        (sat_sub at_ (default f.(fl_at) st.(rp_delivered_time))) in
  Forall (λ i, (i ≤ P)%nat) acked → volume g.(sg_flights) acked < 2 ^ 64 → bytes * 1000000 < 2 ^ 64 → 1000 ≤ interval < 2 ^ 64 →
  ∃ s app, end_ack (E:=E) now g.(sg_sampler)
      = Ok (s, Some (mkRateSample (bytes * 1000000 / (interval / 1000)) app f.(fl_mark).(rm_pacer_limited) (sat_sub at_ f.(fl_at)))) ∧
    (Forall (λ i, i = P ∨ marked_at g.(sg_flights) i < marked_at g.(sg_flights) P) acked → app = note_stands f.(fl_note) f.(fl_before)).
Proof.
  intros Hok Hrun HP Hf acked bytes st interval Hnew Hvol Hprod Hint.
  pose proof (sampling_run_inv _ _ _ (sampling_new_inv t0) Hok Hrun) as Hi.
  destruct (newest_folded g P f at_ Hi HP Hf Hnew) as (L' & HL & Hfp & Hprior & Hpacer & Hne).
  destruct (sv_batch _ Hi) as (l & Hl & Hpe & Hpf). pose proof (end_folds g l Hi Hl) as (Hde & Hpr & Hpt).
  rewrite <-Hpe, HL in Hde, Hpr, Hpt. set (p := packet_of (acked_of f at_)) in *.
  destruct (fold_batch_last L' p (ds_est (sg_sampler g)) Hfp) as [H1 H2 H3 H4]. fold acked in Hde, Hpr, Hpt, Hprior.
  set (e := fold_batch (L' ++ [p]) (ds_est (sg_sampler g))) in *.
  pose proof (sv_flights _ Hi _ _ Hf) as [_ Fd Ft Fa _ Fp]. pose proof (lookup_lt_Some _ _ _ Hf) as HPlt.
  assert (P ∈ acked) as HPa by (apply elem_of_app; right; by apply (list_elem_of_fmap_2 fst _ _ HP)).
  rewrite (max_marked g P acked Hi Hnew HPlt HPa) in Hpr.
  assert (sat_sub (dr_delivered e) (es_prior_delivered (dr_sample e)) = bytes) as Hbytes.
  { rewrite Hde, Hpr. unfold marked_at. rewrite Hf, Fd. pose proof (volume_prefix g f acked Hi ltac:(by apply prefix_app_r)) as Hv.
    unfold sat_sub, bytes, U64_SAT. lia. }
  assert (0 ≤ bytes) as Hb0 by (rewrite <-Hbytes; unfold sat_sub; lia).
  assert (es_prior_time (dr_sample e) ≠ None) as Hpt'. { intros Hn%Hpt. rewrite Hn in HPa. by apply not_elem_of_nil in HPa. }
  assert (Z.max (es_send_elapsed (dr_sample e)) (es_ack_elapsed (dr_sample e)) = interval) as Hiv by (by rewrite H1, H2).
  destruct (generate_rate (E:=E) e Hpt') as (e' & Hge & G1 & G2 & G3 & G4); [by rewrite Hiv|].
  rewrite Hiv in G1, G2. rewrite Hbytes, wrap_small in G2 by (unfold in_width; lia).
  destruct (end_ack_sample (E:=E) now (sg_sampler g) e') as [s Hs]; [exact Hne|by rewrite HL|lia|].
  exists s, (es_is_app_limited (dr_sample e')). split; [by rewrite Hs, G2, Hpacer, G4, H3|].
  intros Hall. rewrite G3, H4; [exact Fa|]. by apply Hprior.
Qed.

(** ** Examples *)

Lemma windowed_max_is_the_max_witness :
  let samples := [(0, 5, false); (500000000, 3, false); (600000000, 4, true); (1200000000, 2, true)] in
  wm_get 1400000000 (max_run samples []) = window_max 1400000000 [(0, 5); (500000000, 3)] ∧
  window_max 1400000000 [(0, 5); (500000000, 3)] = 3.
Proof.
  cbv zeta. split; [|vm_compute; reflexivity].
  rewrite (windowed_max_is_the_max [(0, 5, false); (500000000, 3, false); (600000000, 4, true); (1200000000, 2, true)] 1400000000).
  - vm_compute. reflexivity.
  - repeat constructor; cbn; lia.
  - repeat constructor; cbn; lia.
Defined.

Definition ex_mark (n : Z) : RateMark := mkRateMark n (mkRateState 0 (Some 0) (Some 0) false 0 0) false.
Lemma batch_order_irrelevant_witness :
  let a := mkAcked (ex_mark 1) 0 1000 40000000 in let b := mkAcked (ex_mark 2) 1000000 1000 41000000 in
  end_ack (E:=Empty_set) 41000000 (ack_all [a; b] (sampler_new 0)) = end_ack 41000000 (ack_all [b; a] (sampler_new 0)) ∧ a ≠ b.
Proof.
  cbv zeta. split; [|intros H; discriminate H].
  apply (batch_order_irrelevant (E:=Empty_set) 41000000
    [mkAcked (ex_mark 1) 0 1000 40000000; mkAcked (ex_mark 2) 1000000 1000 41000000]).
  - reflexivity.
  - reflexivity.
  - constructor.
  - cbn. repeat constructor; rewrite ?list_elem_of_singleton; try lia. apply not_elem_of_nil.
Defined.

(** Two transmissions a millisecond apart, both acknowledged at 41 ms, the newer one first. *)
Definition ex_flights : list sampling_event :=
  [DvDepart 0 1000 0 false; DvDepart 1000000 1000 1000 false; DvAck 1 41000000; DvAck 0 41000000].
Definition ex_sampling : Sampling :=
  match sampling_run (E:=Empty_set) ex_flights (sampling_new 0) with Ok g => g | _ => sampling_new 0 end.
Lemma sample_measures_the_flight_witness :
  ∃ s app, end_ack (E:=Empty_set) 41000000 ex_sampling.(sg_sampler) = Ok (s, Some (mkRateSample 48780 app false 40000000)).
Proof.
  destruct (sample_measures_the_flight (E:=Empty_set) ex_flights 0 ex_sampling 1
    (mkFlight (mkRateMark 2 (mkRateState 0 (Some 0) (Some 0) false 1000 0) false) 1000000 1000 [] None) 41000000 41000000)
    as (s & app & H & _).
  - repeat constructor; cbn; lia.
  - vm_compute. reflexivity.
  - left.
  - vm_compute. reflexivity.
  - repeat constructor; cbn; lia.
  - vm_compute. reflexivity.
  - vm_compute. reflexivity.
  - split; [vm_compute; discriminate|vm_compute; reflexivity].
  - exists s, app. exact H.
Defined.

(** An interval that is not zero but shorter than a microsecond is divided by all the same. *)
Example short_interval_panics :
  sampling_run (E:=Empty_set) [DvDepart 0 1000 0 false; DvAck 0 500; DvEnd 500] (sampling_new 0) = Panic.
Proof. vm_compute. reflexivity. Qed.
