(* ===== verification/LossWindow.v ===== *)
(** * The sender's loss rate

    The server's [transport/loss_window.rs]: verdicts on transmissions are pooled by the time they were
    sent, and the rate is read over one second of sends old enough for their verdicts to be
    final; the last real measurement stands in for five seconds.

    The theorem is a refinement: the deque of buckets, with its [u32] counters, its pruning and
    its unwrapping of 32-bit stamps, answers as a plain count of all verdicts by true time does. *)

From Stdlib Require Import ZArith Lia.
From S2P Require Import Prelude F32.
From stdpp Require Import base option numbers list gmap sorting.

Local Open Scope Z_scope.

(** ** Definitions *)

Definition SETTLE_US : Z := 600000.
Definition WINDOW_US : Z := 1000000.
Definition BUCKET_US : Z := 10000.
Definition MIN_SAMPLES : Z := 100.
Definition HOLD_US : Z := 5000000.

Record Bucket : Type := mkBucket { bk_index : Z; bk_delivered : Z; bk_lost : Z }.
Record LossWindow : Type := mkLossWindow { lw_buckets : list Bucket; lw_clock_us : Z; lw_held : option (f32 * Z) }.
Definition loss_window_new : LossWindow := mkLossWindow [] 0 None.

Definition U64_TOP : Z := 2 ^ 64 - 1.
(** [saturating_add_signed] *)
Definition add_signed (a d : Z) : Z := Z.max 0 (Z.min U64_TOP (a + d)).
Definition unwrap_stamp (stamp_us : Z) (w : LossWindow) : LossWindow * Z :=
  let delta := swrap 32 (wsub32 stamp_us (u32 w.(lw_clock_us))) in
  let at_ := add_signed w.(lw_clock_us) delta in
  (mkLossWindow w.(lw_buckets) (Z.max w.(lw_clock_us) at_) w.(lw_held), at_).

(** [rposition(|b| b.index <= index).map_or(0, |i| i + 1)] *)
Fixpoint after_last (index : Z) (bs : list Bucket) : nat :=
  match bs with
  | [] => 0
  | b :: bs' => match after_last index bs' with
                | O => if b.(bk_index) <=? index then 1 else 0
                | S n => S (S n)
                end
  end.
Definition count_verdict (lost : bool) (b : Bucket) : Bucket :=
  if lost then mkBucket b.(bk_index) b.(bk_delivered) (u32 (b.(bk_lost) + 1))
  else mkBucket b.(bk_index) (u32 (b.(bk_delivered) + 1)) b.(bk_lost).
Definition file_verdict (index : Z) (lost : bool) (bs : list Bucket) : list Bucket :=
  let at_ := after_last index bs in
  match bs !! pred at_ with
  | Some b =>
      if (0 <? at_)%nat && (b.(bk_index) =? index) then <[pred at_ := count_verdict lost b]> bs
      else take at_ bs ++ [count_verdict lost (mkBucket index 0 0)] ++ drop at_ bs
  | None => take at_ bs ++ [count_verdict lost (mkBucket index 0 0)] ++ drop at_ bs
  end.
Definition lw_record (sent_us : Z) (lost : bool) (w : LossWindow) : LossWindow :=
  let '(w, at_) := unwrap_stamp sent_us w in
  mkLossWindow (file_verdict (at_ / BUCKET_US) lost w.(lw_buckets)) w.(lw_clock_us) w.(lw_held).

Definition withdraw (b : Bucket) : Bucket :=
  if 0 <? b.(bk_lost) then mkBucket b.(bk_index) (u32 (b.(bk_delivered) + 1)) (b.(bk_lost) - 1) else b.
(** The newest bucket of that index, if there is one. *)
Definition retract_bucket (index : Z) (bs : list Bucket) : list Bucket :=
  match list_find (λ b, b.(bk_index) = index) (reverse bs) with
  | Some (i, b) => <[(length bs - S i)%nat := withdraw b]> bs
  | None => bs
  end.
Definition lw_retract (sent_us : Z) (w : LossWindow) : LossWindow :=
  let '(w, at_) := unwrap_stamp sent_us w in
  mkLossWindow (retract_bucket (at_ / BUCKET_US) w.(lw_buckets)) w.(lw_clock_us) w.(lw_held).

Fixpoint prune_before (oldest : Z) (bs : list Bucket) : list Bucket :=
  match bs with b :: bs' => if b.(bk_index) <? oldest then prune_before oldest bs' else bs | [] => [] end.
(** [take_while(|b| b.index < settled).fold(..)] *)
Fixpoint tally_until (settled : Z) (bs : list Bucket) (acc : Z * Z) : Z * Z :=
  match bs with
  | b :: bs' =>
      if b.(bk_index) <? settled then tally_until settled bs' (u32 (acc.1 + b.(bk_delivered)), u32 (acc.2 + b.(bk_lost))) else acc
  | [] => acc
  end.
Definition lw_rate (now_us : Z) (w : LossWindow) : LossWindow * f32 :=
  let '(w, now) := unwrap_stamp now_us w in
  let settled := sat_sub now SETTLE_US / BUCKET_US in
  let oldest := sat_sub settled (WINDOW_US / BUCKET_US) in
  let bs := prune_before oldest w.(lw_buckets) in
  let '(delivered, lost) := tally_until settled bs (0, 0) in
  if MIN_SAMPLES <=? u32 (delivered + lost) then
    let rate := f32_div (f32_of_Z lost) (f32_of_Z (u32 (delivered + lost))) in
    (mkLossWindow bs w.(lw_clock_us) (Some (rate, now)), rate)
  else
    match w.(lw_held) with
    | Some (rate, at_) =>
        if sat_sub now at_ <=? HOLD_US then (mkLossWindow bs w.(lw_clock_us) w.(lw_held), rate)
        else (mkLossWindow bs w.(lw_clock_us) None, f32_of_Z 0)
    | None => (mkLossWindow bs w.(lw_clock_us) None, f32_of_Z 0)
    end.

(** ** The specification *)

(** Events on the true timeline. *)
Inductive loss_event : Type :=
  | LeRecord (t : Z) (lost : bool)
  | LeRetract (t : Z)
  | LeRate (t : Z).
Definition le_time (ev : loss_event) : Z := match ev with LeRecord t _ | LeRetract t | LeRate t => t end.

(** All verdicts so far, delivered and lost, by ten-millisecond slot of send time; and the last measurement. *)
Record LossSpec : Type := mkLossSpec { lp_counts : gmap Z (Z * Z); lp_held : option (f32 * Z) }.
Definition counts_at (m : gmap Z (Z * Z)) (i : Z) : Z * Z := default (0, 0) (m !! i).
Definition spec_record (t : Z) (lost : bool) (s : LossSpec) : LossSpec :=
  let i := t / 10000 in
  let '(d, l) := counts_at s.(lp_counts) i in
  mkLossSpec (<[i := if lost then (d, l + 1) else (d + 1, l)]> s.(lp_counts)) s.(lp_held).
Definition spec_retract (t : Z) (s : LossSpec) : LossSpec :=
  let i := t / 10000 in
  let '(d, l) := counts_at s.(lp_counts) i in
  mkLossSpec (if 0 <? l then <[i := (d + 1, l - 1)]> s.(lp_counts) else s.(lp_counts)) s.(lp_held).
(** The verdicts on sends between 1.6 s and 0.6 s ago. *)
Definition padd (a b : Z * Z) : Z * Z := (a.1 + b.1, a.2 + b.2).
Definition psum (f : Z → Z * Z) (l : list Z) : Z * Z := foldr (λ i acc, padd (f i) acc) (0, 0) l.
Definition window_sum (m : gmap Z (Z * Z)) (from upto : Z) : Z * Z := psum (counts_at m) (seqZ from (upto - from)).
Definition spec_rate (t : Z) (s : LossSpec) : LossSpec * f32 :=
  let settled := sat_sub t 600000 / 10000 in
  let '(d, l) := window_sum s.(lp_counts) (sat_sub settled 100) settled in
  if 100 <=? d + l then
    let rate := f32_div (f32_of_Z l) (f32_of_Z (d + l)) in (mkLossSpec s.(lp_counts) (Some (rate, t)), rate)
  else match s.(lp_held) with
       | Some (rate, at_) => if t - at_ <=? 5000000 then (s, rate) else (mkLossSpec s.(lp_counts) None, f32_of_Z 0)
       | None => (s, f32_of_Z 0)
       end.

(** The answers of a session. *)
Fixpoint spec_run (evs : list loss_event) (s : LossSpec) : list f32 :=
  match evs with
  | [] => []
  | LeRecord t lost :: evs => spec_run evs (spec_record t lost s)
  | LeRetract t :: evs => spec_run evs (spec_retract t s)
  | LeRate t :: evs => let '(s, r) := spec_rate t s in r :: spec_run evs s
  end.
Fixpoint lw_run (evs : list loss_event) (w : LossWindow) : list f32 :=
  match evs with
  | [] => []
  | LeRecord t lost :: evs => lw_run evs (lw_record (u32 t) lost w)
  | LeRetract t :: evs => lw_run evs (lw_retract (u32 t) w)
  | LeRate t :: evs => let '(w, r) := lw_rate (u32 t) w in r :: lw_run evs w
  end.

(** Stamps stay within 2^31 microseconds of the newest one, readings are taken in order, and there are fewer than
    2^32 of everything. *)
Fixpoint session_ok (newest last_rate : Z) (evs : list loss_event) : Prop :=
  match evs with
  | [] => True
  | ev :: evs =>
      0 ≤ le_time ev < 2 ^ 64 ∧ - 2 ^ 31 ≤ le_time ev - newest < 2 ^ 31 ∧
      match ev with
      | LeRate t => last_rate ≤ t ∧ session_ok (Z.max newest t) t evs
      | _ => session_ok (Z.max newest (le_time ev)) last_rate evs
      end
  end.

(** ** The refinement *)

Definition slot (b : Bucket) : Z * Z := (b.(bk_delivered), b.(bk_lost)).
Fixpoint find_bucket (i : Z) (bs : list Bucket) : option Bucket :=
  match bs with [] => None | b :: bs' => if b.(bk_index) =? i then Some b else find_bucket i bs' end.
Definition bucket_counts (bs : list Bucket) (i : Z) : Z * Z := match find_bucket i bs with Some b => slot b | None => (0, 0) end.
Definition ascending (bs : list Bucket) : Prop := StronglySorted (λ a b, a.(bk_index) < b.(bk_index)) bs.

Definition weight (bs : list Bucket) : Z := foldr Z.add 0 ((λ b, b.(bk_delivered) + b.(bk_lost)) <$> bs).
Definition counting (bs : list Bucket) : Prop := ∀ b, b ∈ bs → 0 ≤ b.(bk_delivered) ∧ 0 ≤ b.(bk_lost).

(** The deque holds the counts of every slot from [low] on, all of them of at most [n] verdicts. *)
Record lw_rel (low n : Z) (w : LossWindow) (s : LossSpec) : Prop := {
  lr_sorted : ascending w.(lw_buckets);
  lr_counts : ∀ i, low ≤ i → bucket_counts w.(lw_buckets) i = counts_at s.(lp_counts) i;
  lr_counting : counting w.(lw_buckets);
  lr_total : weight w.(lw_buckets) ≤ n;
  lr_held : w.(lw_held) = s.(lp_held);
}.

Lemma unwrap_exact t w : 0 ≤ t < 2 ^ 64 → - 2 ^ 31 ≤ t - w.(lw_clock_us) < 2 ^ 31 →
  unwrap_stamp (u32 t) w = (mkLossWindow w.(lw_buckets) (Z.max w.(lw_clock_us) t) w.(lw_held), t).
Proof.
  intros Ht Hd. unfold unwrap_stamp.
  assert (swrap 32 (wsub32 (u32 t) (u32 (lw_clock_us w))) = t - lw_clock_us w) as ->.
  { unfold wsub32, swrap, wrap. rewrite Zminus_mod_idemp_l, Zminus_mod_idemp_r. rewrite Zplus_mod_idemp_l.
    change (2 ^ (32 - 1)) with (2 ^ 31). rewrite Z.mod_small by lia. lia. }
  unfold add_signed, U64_TOP. replace (Z.max 0 (Z.min (2 ^ 64 - 1) (lw_clock_us w + (t - lw_clock_us w)))) with t by lia. done.
Qed.

(** *** Buckets *)

Lemma ascending_app a b : ascending (a ++ b) ↔ ascending a ∧ ascending b ∧ (∀ x y, x ∈ a → y ∈ b → x.(bk_index) < y.(bk_index)).
Proof.
  unfold ascending. induction a as [|x a IH]; cbn [app].
  - split; [|by intros (_ & ? & _)]. intros H. split; [constructor|]. split; [done|]. by intros x y ?%not_elem_of_nil.
  - split.
    + intros [Hs Hf]%StronglySorted_inv. apply IH in Hs as (H1 & H2 & H3). apply Forall_app in Hf as [Hf1 Hf2].
      split; [by constructor|]. split; [done|]. intros u v [->|Hu]%elem_of_cons Hv; [|by apply H3].
      rewrite Forall_forall in Hf2. by apply Hf2.
    + intros ([H1 Hf]%StronglySorted_inv & H2 & H3). constructor.
      * apply IH. split; [done|]. split; [done|]. intros u v Hu Hv. apply H3; [by right|done].
      * apply Forall_app. split; [done|]. apply Forall_forall. intros v Hv. apply H3; [left|done].
Qed.

Lemma find_bucket_app i a b : find_bucket i (a ++ b) = match find_bucket i a with Some x => Some x | None => find_bucket i b end.
Proof. induction a as [|x a IH]; [done|]. cbn. by destruct (_ =? _). Qed.
Lemma find_bucket_none i a : Forall (λ b, b.(bk_index) ≠ i) a → find_bucket i a = None.
Proof. induction 1 as [|x a Hx _ IH]; [done|]. cbn. by destruct (Z.eqb_spec (bk_index x) i). Qed.

(** The slots below and above an index, and the bucket at it. *)
Record split_at (i : Z) (bs a : list Bucket) (x : option Bucket) (b : list Bucket) : Prop := {
  sa_eq : bs = a ++ (match x with Some x => [x] | None => [] end) ++ b;
  sa_below : Forall (λ y, y.(bk_index) < i) a;
  sa_at : ∀ y, x = Some y → y.(bk_index) = i;
  sa_above : Forall (λ y, i < y.(bk_index)) b;
}.
Lemma split_at_ex i bs : ascending bs → ∃ a x b, split_at i bs a x b.
Proof.
  induction bs as [|y bs IH]; intros Hs; [exists [], None, []; by split|].
  apply StronglySorted_inv in Hs as [Hs Hf]. destruct (Z.lt_trichotomy (bk_index y) i) as [Hlt|[Heq|Hgt]].
  - destruct (IH Hs) as (a & x & b & [-> H1 H2 H3]). exists (y :: a), x, b. split; [done|by constructor|done|done].
  - exists [], (Some y), bs. split; [done|constructor|by intros ? [= <-]|]. eapply Forall_impl; [exact Hf|]. cbn. intros. lia.
  - exists [], None, (y :: bs). split; [done|constructor|done|]. constructor; [lia|]. eapply Forall_impl; [exact Hf|]. cbn. intros. lia.
Qed.

Lemma after_last_above i b : Forall (λ y, i < y.(bk_index)) b → after_last i b = 0%nat.
Proof. induction 1 as [|y b Hy _ IH]; [done|]. cbn. rewrite IH. by destruct (Z.leb_spec (bk_index y) i); [lia|]. Qed.
Lemma after_last_app i a b : Forall (λ y, y.(bk_index) ≤ i) a → Forall (λ y, i < y.(bk_index)) b → after_last i (a ++ b) = length a.
Proof.
  induction 1 as [|y a Hy _ IH]; intros Hb; cbn; [by apply after_last_above|]. rewrite (IH Hb).
  destruct a as [|z a]; cbn; [|done]. by destruct (Z.leb_spec (bk_index y) i); [|lia].
Qed.

Lemma file_verdict_split i lost bs a x b : split_at i bs a x b →
  file_verdict i lost bs = a ++ count_verdict lost (default (mkBucket i 0 0) x) :: b.
Proof.
  intros [-> Ha Hx Hb]. unfold file_verdict.
  assert (Forall (λ y, y.(bk_index) ≤ i) a) as Ha' by (eapply Forall_impl; [exact Ha|]; cbn; intros; lia).
  destruct x as [x|]; cbn [app].
  - specialize (Hx x eq_refl). rewrite (app_assoc a [x] b : a ++ x :: b = (a ++ [x]) ++ b).
    assert (Forall (λ y, y.(bk_index) ≤ i) (a ++ [x])) as Hax.
    { apply Forall_app. split; [done|]. constructor; [lia|constructor]. }
    rewrite after_last_app by done.
    rewrite length_app, Nat.add_1_r. cbn [pred]. rewrite <-app_assoc. cbn [app]. rewrite list_lookup_middle by done.
    rewrite (proj2 (Z.eqb_eq _ _) Hx). cbn. by rewrite insert_app_r_alt, Nat.sub_diag by lia.
  - rewrite after_last_app by done. assert (∀ y, (a ++ b) !! pred (length a) = Some y → (0 <? length a)%nat && (bk_index y =? i) = false) as Hno.
    { intros y Hy. destruct a as [|z a] using rev_ind; [done|]. clear IHa. rewrite length_app in Hy. cbn [length] in Hy.
      replace (pred (length a + 1)) with (length a) in Hy by lia. rewrite <-app_assoc in Hy. cbn [app] in Hy.
      rewrite list_lookup_middle in Hy by done. injection Hy as <-. apply Forall_app in Ha as [_ Ha]. apply Forall_cons in Ha as [Hz _].
      destruct (Z.eqb_spec (bk_index z) i); [lia|]. apply andb_false_r. }
    rewrite take_app_length, drop_app_length. destruct ((a ++ b) !! pred (length a)) as [y|] eqn:Hy; [by rewrite (Hno y eq_refl)|done].
Qed.

Lemma retract_split i bs a x b : split_at i bs a x b →
  retract_bucket i bs = match x with Some x => a ++ withdraw x :: b | None => bs end.
Proof.
  intros [-> Ha Hx Hb]. unfold retract_bucket.
  assert (∀ l, Forall (λ y, i ≠ y.(bk_index)) l → Forall (λ y : Bucket, ¬ bk_index y = i) (reverse l)) as Hne.
  { intros l Hl. apply Forall_reverse. eapply Forall_impl; [exact Hl|]. cbn. intros y H1 H2. congruence. }
  assert (Forall (λ y, i ≠ y.(bk_index)) a) as Ha' by (eapply Forall_impl; [exact Ha|]; cbn; intros; lia).
  assert (Forall (λ y, i ≠ y.(bk_index)) b) as Hb' by (eapply Forall_impl; [exact Hb|]; cbn; intros; lia).
  destruct x as [x|]; cbn [app].
  - specialize (Hx x eq_refl). rewrite reverse_app, reverse_cons, <-app_assoc. cbn [app].
    rewrite (list_find_app_r _ (reverse b)) by (by apply list_find_None, Hne).
    assert (list_find (λ y, bk_index y = i) (x :: reverse a) = Some (0%nat, x)) as -> by (cbn; by rewrite decide_True).
    cbn. rewrite length_app, length_reverse. cbn [length].
    replace (length a + S (length b) - S (length b))%nat with (length a) by lia. by rewrite insert_app_r_alt, Nat.sub_diag by lia.
  - rewrite (proj2 (list_find_None _ _)); [done|]. apply Hne, Forall_app. done.
Qed.

Lemma find_below i j a : Forall (λ y, y.(bk_index) < i) a → i ≤ j → find_bucket j a = None.
Proof. intros Ha Hj. apply find_bucket_none. eapply Forall_impl; [exact Ha|]. cbn. intros. lia. Qed.
Lemma find_above i j b : Forall (λ y, i < y.(bk_index)) b → j ≤ i → find_bucket j b = None.
Proof. intros Hb Hj. apply find_bucket_none. eapply Forall_impl; [exact Hb|]. cbn. intros. lia. Qed.

Lemma split_counts i bs a x b y j : split_at i bs a x b → y.(bk_index) = i →
  bucket_counts (a ++ y :: b) j = (if j =? i then slot y else bucket_counts bs j).
Proof.
  intros [-> Ha Hx Hb] Hy. unfold bucket_counts. rewrite !find_bucket_app. cbn [find_bucket]. rewrite Hy.
  destruct (Z.eqb_spec j i) as [->|Hne].
  - rewrite (find_below i i) by (done || lia). by rewrite Z.eqb_refl.
  - destruct (find_bucket j a); [done|]. destruct (Z.eqb_spec i j); [by subst|]. destruct x as [x|]; [|done].
    cbn [find_bucket app]. rewrite (Hx x eq_refl). destruct (Z.eqb_spec i j); [by subst|done].
Qed.
Lemma split_count i bs a x b : split_at i bs a x b → bucket_counts bs i = match x with Some x => slot x | None => (0, 0) end.
Proof.
  intros [-> Ha Hx Hb]. unfold bucket_counts. rewrite !find_bucket_app, (find_below i i a) by (done || lia).
  destruct x as [x|]; cbn; [by rewrite (Hx x eq_refl), Z.eqb_refl|]. by rewrite (find_above i i b) by (done || lia).
Qed.
Lemma split_ascending i bs a x b y : ascending bs → split_at i bs a x b → y.(bk_index) = i → ascending (a ++ y :: b).
Proof.
  intros Hs [-> Ha Hx Hb] Hy. apply ascending_app in Hs as (H1 & H2 & H3). apply ascending_app in H2 as (_ & H2 & _).
  rewrite Forall_forall in Ha. apply ascending_app. split; [done|]. split.
  - constructor; [done|]. eapply Forall_impl; [exact Hb|]. cbn. intros. lia.
  - intros u v Hu [->|Hv]%elem_of_cons; [by rewrite Hy; apply Ha|]. apply H3; [done|]. apply elem_of_app. by right.
Qed.

Lemma weight_cons y b : weight (y :: b) = y.(bk_delivered) + y.(bk_lost) + weight b.
Proof. done. Qed.
Lemma weight_app a b : weight (a ++ b) = weight a + weight b.
Proof. induction a as [|y a IH]; [done|]. cbn [app]. rewrite !weight_cons, IH. lia. Qed.
Lemma counting_app a b : counting (a ++ b) ↔ counting a ∧ counting b.
Proof.
  unfold counting. split; [intros H; split; intros y Hy; apply H, elem_of_app; [by left|by right]|].
  intros [Ha Hb] y [Hy|Hy]%elem_of_app; [by apply Ha|by apply Hb].
Qed.
Lemma counting_cons y b : counting (y :: b) ↔ (0 ≤ y.(bk_delivered) ∧ 0 ≤ y.(bk_lost)) ∧ counting b.
Proof.
  unfold counting. split; [intros H; split; [apply H; left|intros z Hz; apply H; by right]|].
  intros [Hy Hb] z [->|Hz]%elem_of_cons; [done|by apply Hb].
Qed.
Lemma weight_nonneg bs : counting bs → 0 ≤ weight bs.
Proof. induction bs as [|y bs IH]; [done|]. intros [Hy Hb]%counting_cons. rewrite weight_cons. specialize (IH Hb). lia. Qed.

(** Filing a verdict or withdrawing one changes its slot's counts and no other's. *)
Lemma file_verdict_spec n i lost bs : ascending bs → counting bs → weight bs ≤ n → n + 1 < 2 ^ 32 →
  let bs' := file_verdict i lost bs in
  ascending bs' ∧ counting bs' ∧ weight bs' ≤ n + 1 ∧
  ∀ j, bucket_counts bs' j = (let '(d, l) := bucket_counts bs i in
    if j =? i then (if lost then (d, l + 1) else (d + 1, l)) else bucket_counts bs j).
Proof.
  intros Hs Hc Hw Hn bs'. destruct (split_at_ex i bs Hs) as (a & x & b & Hsp). subst bs'. rewrite (file_verdict_split i lost bs a x b Hsp).
  pose proof (sa_eq _ _ _ _ _ Hsp) as Heq. pose proof (sa_at _ _ _ _ _ Hsp) as Hx.
  set (y0 := default (mkBucket i 0 0) x). assert (bk_index y0 = i) as Hy0 by (destruct x; [by apply Hx|done]).
  rewrite Heq in Hc, Hw. rewrite !counting_app in Hc. rewrite !weight_app in Hw. destruct Hc as (Hca & Hcx & Hcb).
  pose proof (weight_nonneg a Hca). pose proof (weight_nonneg b Hcb).
  assert (0 ≤ y0.(bk_delivered) ∧ 0 ≤ y0.(bk_lost) ∧ y0.(bk_delivered) + y0.(bk_lost) + weight a + weight b ≤ n ∧
          slot y0 = bucket_counts bs i) as (Hy1 & Hy2 & Hy3 & Hy4).
  { rewrite (split_count _ _ _ _ _ Hsp). subst y0. destruct x as [x|]; cbn [default] in *.
    - apply counting_cons in Hcx as [Hcx _]. rewrite weight_cons in Hw. cbn in Hw |- *. split_and!; (done || lia).
    - cbn in Hw |- *. split_and!; (done || lia). }
  set (y := count_verdict lost y0). assert (bk_index y = i ∧ bk_delivered y = bk_delivered y0 + Z.b2z (negb lost) ∧
    bk_lost y = bk_lost y0 + Z.b2z lost) as (Hy & Hyd & Hyl).
  { subst y. destruct lost; cbn; rewrite wrap_small by (unfold in_width; lia); split_and!; (done || lia). }
  split; [by eapply split_ascending|]. split.
  { apply counting_app. split; [done|]. apply counting_cons. split; [|done]. destruct lost; cbn in *; lia. }
  split. { rewrite weight_app, weight_cons. destruct lost; cbn in *; lia. }
  intros j. rewrite (split_counts i bs a x b y j Hsp Hy), <-Hy4. unfold slot. rewrite Hyd, Hyl.
  destruct (j =? i); [|done]. destruct lost; cbn; by rewrite ?Z.add_0_r.
Qed.

Lemma retract_spec n i bs : ascending bs → counting bs → weight bs ≤ n → n < 2 ^ 32 →
  let bs' := retract_bucket i bs in
  ascending bs' ∧ counting bs' ∧ weight bs' ≤ n ∧
  ∀ j, bucket_counts bs' j = (let '(d, l) := bucket_counts bs i in
    if (j =? i) && (0 <? l) then (d + 1, l - 1) else bucket_counts bs j).
Proof.
  intros Hs Hc Hw Hn bs'. destruct (split_at_ex i bs Hs) as (a & x & b & Hsp). subst bs'. rewrite (retract_split i bs a x b Hsp).
  rewrite (split_count _ _ _ _ _ Hsp). destruct x as [x|]; [|by split_and!; try done; intros j; rewrite andb_false_r].
  pose proof (sa_eq _ _ _ _ _ Hsp) as Heq. pose proof (sa_at _ _ _ _ _ Hsp x eq_refl) as Hx.
  pose proof Hc as Hc0. rewrite Heq in Hc0, Hw. rewrite !counting_app in Hc0. rewrite !weight_app in Hw. destruct Hc0 as (Hca & Hcx & Hcb).
  pose proof (weight_nonneg a Hca). pose proof (weight_nonneg b Hcb). apply counting_cons in Hcx as [[Hd Hl] _].
  rewrite weight_cons in Hw. change (weight []) with 0 in Hw. unfold withdraw.
  destruct (Z.ltb_spec 0 (bk_lost x)) as [Hpos|Hzero]; cbn [slot].
  - rewrite wrap_small by (unfold in_width; lia).
    split; [by eapply split_ascending|]. split; [apply counting_app; split; [done|]; apply counting_cons; split; [cbn; lia|done]|].
    split; [rewrite weight_app, weight_cons; cbn; lia|]. intros j. rewrite (split_counts i bs a (Some x) b _ j Hsp) by done. cbn [slot bk_delivered bk_lost].
    unfold slot. rewrite (proj2 (Z.ltb_lt _ _) Hpos). rewrite andb_true_r. by destruct (j =? i).
  - cbn [app] in Heq. rewrite <-Heq. split; [done|]. split; [done|]. split; [rewrite Heq, weight_app, weight_cons; lia|].
    intros j. unfold slot. destruct (Z.ltb_spec 0 (bk_lost x)); [lia|]. by rewrite andb_false_r.
Qed.

Lemma prune_spec oldest bs : ascending bs → let bs' := prune_before oldest bs in
  ascending bs' ∧ Forall (λ b, oldest ≤ b.(bk_index)) bs' ∧ (∀ y, y ∈ bs' → y ∈ bs) ∧ (counting bs → weight bs' ≤ weight bs) ∧
  ∀ i, oldest ≤ i → bucket_counts bs' i = bucket_counts bs i.
Proof.
  induction bs as [|y bs IH]; intros Hs; [by split_and!|]. pose proof Hs as [Hs0 Hf]%StronglySorted_inv. cbn [prune_before].
  destruct (Z.ltb_spec (bk_index y) oldest) as [Hlt|Hge].
  - destruct (IH Hs0) as (H1 & H2 & H3 & H4 & H5). split; [done|]. split; [done|]. split; [intros z Hz; right; by apply H3|]. split.
    + intros [Hy Hc]%counting_cons. rewrite weight_cons. specialize (H4 Hc). lia.
    + intros i Hi. rewrite (H5 i Hi). unfold bucket_counts. cbn. by destruct (Z.eqb_spec (bk_index y) i); [lia|].
  - split; [done|]. split; [|by split_and!]. constructor; [done|]. eapply Forall_impl; [exact Hf|]. cbn. intros. lia.
Qed.

Lemma psum_padd f g l : psum (λ i, padd (f i) (g i)) l = padd (psum f l) (psum g l).
Proof.
  induction l as [|i l IH]; [done|]. change (padd (padd (f i) (g i)) (psum (λ i, padd (f i) (g i)) l) = padd (padd (f i) (psum f l)) (padd (g i) (psum g l))).
  rewrite IH. unfold padd. cbn. f_equal; lia.
Qed.
Lemma psum_ext f g l : (∀ i, i ∈ l → f i = g i) → psum f l = psum g l.
Proof.
  induction l as [|i l IH]; [done|]. intros H. change (padd (f i) (psum f l) = padd (g i) (psum g l)).
  rewrite IH, H; [done|left|intros j Hj; apply H; by right].
Qed.
Lemma psum_zero l : psum (λ _, (0, 0)) l = (0, 0).
Proof. induction l as [|i l IH]; [done|]. change (padd (0, 0) (psum (λ _, (0, 0)) l) = (0, 0)). by rewrite IH. Qed.
Lemma psum_at k v l : NoDup l → psum (λ i, if i =? k then v else (0, 0)) l = if bool_decide (k ∈ l) then v else (0, 0).
Proof.
  induction 1 as [|i l Hi _ IH]; [done|]. change (padd (if i =? k then v else (0, 0)) (psum (λ i, if i =? k then v else (0, 0)) l)
    = if bool_decide (k ∈ i :: l) then v else (0, 0)). rewrite IH. destruct v as [a b]. destruct (Z.eqb_spec i k) as [->|Hne].
  - rewrite (bool_decide_false (k ∈ l)) by done. rewrite bool_decide_true by left. unfold padd. cbn. f_equal; lia.
  - rewrite (bool_decide_ext (k ∈ i :: l) (k ∈ l)); [by destruct (bool_decide (k ∈ l))|]. rewrite elem_of_cons. naive_solver.
Qed.

(** The tally up to a slot is the sum over the slots. *)
Lemma tally_spec n from upto bs acc : ascending bs → Forall (λ b, from ≤ b.(bk_index)) bs → counting bs → n < 2 ^ 32 →
  0 ≤ acc.1 → 0 ≤ acc.2 → acc.1 + acc.2 + weight bs ≤ n →
  tally_until upto bs acc = padd acc (psum (bucket_counts bs) (seqZ from (upto - from))).
Proof.
  intros Hs Hfr Hc Hn. induction bs as [|y bs IH] in acc, Hs, Hfr, Hc |- *; intros H1 H2 Hw.
  - cbn. rewrite (psum_ext _ (λ _, (0, 0))) by done. rewrite psum_zero. destruct acc. unfold padd. cbn. f_equal; lia.
  - pose proof Hs as [Hs0 Hf]%StronglySorted_inv. apply Forall_cons in Hfr as [Hy Hfr]. apply counting_cons in Hc as [[Hd Hl] Hc].
    rewrite weight_cons in Hw. pose proof (weight_nonneg bs Hc).
    assert (∀ i, bucket_counts (y :: bs) i = padd (if i =? bk_index y then slot y else (0, 0)) (bucket_counts bs i)) as Hpt.
    { intros i. unfold bucket_counts. cbn [find_bucket]. rewrite (Z.eqb_sym i). destruct (Z.eqb_spec (bk_index y) i) as [<-|Hne].
      - rewrite (find_bucket_none (bk_index y) bs); [unfold padd, slot; cbn; f_equal; lia|].
        eapply Forall_impl; [exact Hf|]. cbn. intros. lia.
      - destruct (find_bucket i bs); unfold padd, slot; cbn; [by f_equal|done]. }
    rewrite (psum_ext _ _ _ (λ i _, Hpt i)), psum_padd, psum_at by apply NoDup_seqZ. cbn [tally_until].
    destruct (Z.ltb_spec (bk_index y) upto) as [Hlt|Hge].
    + rewrite bool_decide_true by (apply elem_of_seqZ; lia). rewrite !wrap_small by (unfold in_width; lia).
      rewrite IH by (cbn; done || lia). unfold padd, slot. cbn. f_equal; lia.
    + rewrite bool_decide_false by (rewrite elem_of_seqZ; lia). rewrite (psum_ext (bucket_counts bs) (λ _, (0, 0))).
      * rewrite psum_zero. destruct acc. unfold padd. cbn. f_equal; lia.
      * intros i Hi%elem_of_seqZ. unfold bucket_counts. rewrite find_bucket_none; [done|]. eapply Forall_impl; [exact Hf|]. cbn. intros. lia.
Qed.

Lemma tally_bounds n upto bs acc : counting bs → n < 2 ^ 32 → 0 ≤ acc.1 → 0 ≤ acc.2 → acc.1 + acc.2 + weight bs ≤ n →
  let r := tally_until upto bs acc in 0 ≤ r.1 ∧ 0 ≤ r.2 ∧ r.1 + r.2 ≤ n.
Proof.
  intros Hc Hn. induction bs as [|y bs IH] in acc, Hc |- *; intros H1 H2 Hw; [cbn in *; change (weight []) with 0 in Hw; lia|].
  apply counting_cons in Hc as [[Hd Hl] Hc]. rewrite weight_cons in Hw. pose proof (weight_nonneg bs Hc). cbn [tally_until].
  destruct (bk_index y <? upto); [|cbn; lia]. apply IH; [done| | |]; cbn; rewrite ?wrap_small by (unfold in_width; lia); lia.
Qed.

Definition oldest_of (t : Z) : Z := sat_sub (sat_sub t 600000 / 10000) 100.
Lemma oldest_mono t t' : t ≤ t' → oldest_of t ≤ oldest_of t'.
Proof. intros. unfold oldest_of, sat_sub. pose proof (Z.div_le_mono (Z.max 0 (t - 600000)) (Z.max 0 (t' - 600000)) 10000). lia. Qed.

Lemma counts_insert m i v j : counts_at (<[i := v]> m) j = if j =? i then v else counts_at m j.
Proof.
  unfold counts_at. destruct (Z.eqb_spec j i) as [->|Hne]; [by rewrite lookup_insert_eq|by rewrite lookup_insert_ne by done].
Qed.

Lemma record_rel low n w s t lost : lw_rel low n w s → 0 ≤ t < 2 ^ 64 → - 2 ^ 31 ≤ t - w.(lw_clock_us) < 2 ^ 31 → n + 1 < 2 ^ 32 →
  lw_rel low (n + 1) (lw_record (u32 t) lost w) (spec_record t lost s) ∧ (lw_record (u32 t) lost w).(lw_clock_us) = Z.max w.(lw_clock_us) t.
Proof.
  intros [H1 H2 H3 H4 H5] Ht Hd Hn. unfold lw_record. rewrite (unwrap_exact t w Ht Hd). cbn [lw_buckets lw_clock_us lw_held].
  split; [|done]. change BUCKET_US with 10000.
  destruct (file_verdict_spec n (t / 10000) lost (lw_buckets w) H1 H3 H4 Hn) as (G1 & G2 & G3 & G4). unfold spec_record.
  destruct (counts_at (lp_counts s) (t / 10000)) as [d l] eqn:Hc.
  constructor; cbn [lw_buckets lw_held lp_counts lp_held]; [done| |done..].
  intros j Hj. rewrite G4, counts_insert. destruct (Z.eqb_spec j (t / 10000)) as [->|Hne].
  - rewrite (H2 (t / 10000) Hj), Hc. done.
  - destruct (bucket_counts (lw_buckets w) (t / 10000)). by apply H2.
Qed.
Lemma retract_rel low n w s t : lw_rel low n w s → 0 ≤ t < 2 ^ 64 → - 2 ^ 31 ≤ t - w.(lw_clock_us) < 2 ^ 31 → n < 2 ^ 32 →
  lw_rel low n (lw_retract (u32 t) w) (spec_retract t s) ∧ (lw_retract (u32 t) w).(lw_clock_us) = Z.max w.(lw_clock_us) t.
Proof.
  intros [H1 H2 H3 H4 H5] Ht Hd Hn. unfold lw_retract. rewrite (unwrap_exact t w Ht Hd). cbn [lw_buckets lw_clock_us lw_held].
  split; [|done]. change BUCKET_US with 10000.
  destruct (retract_spec n (t / 10000) (lw_buckets w) H1 H3 H4 Hn) as (G1 & G2 & G3 & G4). unfold spec_retract.
  destruct (counts_at (lp_counts s) (t / 10000)) as [d l] eqn:Hc.
  constructor; cbn [lw_buckets lw_held lp_counts lp_held]; [done| |done..].
  intros j Hj. rewrite G4. destruct (Z.eqb_spec j (t / 10000)) as [->|Hne].
  - rewrite (H2 (t / 10000) Hj), Hc. cbn [andb]. destruct (0 <? l); [by rewrite counts_insert, Z.eqb_refl|done].
  - destruct (bucket_counts (lw_buckets w) (t / 10000)) as [d' l']. cbn [andb]. destruct (0 <? l); [rewrite counts_insert|by apply H2].
    destruct (Z.eqb_spec j (t / 10000)); [done|by apply H2].
Qed.
Lemma rate_rel low n w s t w' r : lw_rel low n w s → 0 ≤ t < 2 ^ 64 → - 2 ^ 31 ≤ t - w.(lw_clock_us) < 2 ^ 31 → n < 2 ^ 32 →
  low ≤ oldest_of t → (∀ x at_, lp_held s = Some (x, at_) → at_ ≤ t) → lw_rate (u32 t) w = (w', r) →
  ∃ s', spec_rate t s = (s', r) ∧ lw_rel (oldest_of t) n w' s' ∧ w'.(lw_clock_us) = Z.max w.(lw_clock_us) t ∧
    (∀ x at_, lp_held s' = Some (x, at_) → at_ ≤ t).
Proof.
  intros [H1 H2 H3 H4 H5] Ht Hd Hn Hlow Hheld. unfold lw_rate. rewrite (unwrap_exact t w Ht Hd). cbn [lw_buckets lw_clock_us lw_held].
  change SETTLE_US with 600000. change BUCKET_US with 10000. change (WINDOW_US / 10000) with 100. change MIN_SAMPLES with 100. change HOLD_US with 5000000.
  fold (oldest_of t). set (settled := sat_sub t 600000 / 10000) in *.
  destruct (prune_spec (oldest_of t) (lw_buckets w) H1) as (P1 & P2 & P3 & P4 & P5). set (bs := prune_before (oldest_of t) (lw_buckets w)) in *.
  assert (counting bs) as Hcb by (intros y Hy; by apply H3, P3). specialize (P4 H3). pose proof (weight_nonneg bs Hcb).
  destruct (tally_bounds n settled bs (0, 0) Hcb Hn ltac:(done) ltac:(done) ltac:(cbn; lia)) as (T1 & T2 & T3).
  pose proof (tally_spec n (oldest_of t) settled bs (0, 0) P1 P2 Hcb Hn ltac:(done) ltac:(done) ltac:(cbn; lia)) as Htally.
  rewrite (psum_ext (bucket_counts bs) (counts_at (lp_counts s))) in Htally.
  2:{ intros i Hi%elem_of_seqZ. rewrite P5 by lia. apply H2. lia. }
  unfold spec_rate. fold settled. change (sat_sub settled 100) with (oldest_of t). unfold window_sum.
  destruct (psum (counts_at (lp_counts s)) (seqZ (oldest_of t) (settled - oldest_of t))) as [d l].
  destruct (tally_until settled bs (0, 0)) as [d' l']. unfold padd in Htally. cbn in Htally, T1, T2, T3. rewrite ?Z.add_0_l in Htally. injection Htally as -> ->.
  rewrite wrap_small by (unfold in_width; lia).
  assert (∀ held, lw_rel (oldest_of t) n (mkLossWindow bs (Z.max (lw_clock_us w) t) held) (mkLossSpec (lp_counts s) held)) as Hrel.
  { intros held. constructor; cbn [lw_buckets lp_counts lw_held lp_held]; [done| |done|lia|done]. intros i Hi. rewrite P5 by done. apply H2. lia. }
  cbv zeta. destruct (100 <=? d + l).
  - intros [= <- <-]. eexists. split; [done|]. split; [apply Hrel|]. split; [done|]. cbn. intros x at_ [= <- <-]. done.
  - rewrite H5. destruct (lp_held s) as [[x at_]|] eqn:Hh.
    + specialize (Hheld x at_ eq_refl). assert ((sat_sub t at_ <=? 5000000) = (t - at_ <=? 5000000)) as ->.
      { unfold sat_sub. by rewrite Z.max_r by lia. }
      destruct (t - at_ <=? 5000000); intros [= <- <-].
      * exists s. split; [done|]. split; [|split; [done|]].
        -- specialize (Hrel (Some (x, at_))). rewrite <-Hh in Hrel at 2. by destruct s.
        -- rewrite Hh. by intros ? ? [= <- <-].
      * eexists. split; [done|]. split; [apply Hrel|]. by split.
    + intros [= <- <-]. exists s. split; [done|]. split; [|split; [done|by rewrite Hh]].
      specialize (Hrel None). rewrite <-Hh in Hrel at 2. by destruct s.
Qed.

Lemma lw_run_refines evs low_t n w s : lw_rel (oldest_of low_t) n w s → session_ok w.(lw_clock_us) low_t evs →
  (∀ x at_, lp_held s = Some (x, at_) → at_ ≤ low_t) → n + Z.of_nat (length evs) < 2 ^ 32 →
  lw_run evs w = spec_run evs s.
Proof.
  induction evs as [|ev evs IH] in low_t, n, w, s |- *; intros Hr Hok Hh Hn; [done|].
  cbn [session_ok] in Hok. destruct Hok as (Ht & Hd & Hok). cbn [length] in Hn. destruct ev as [t lost|t|t]; cbn [le_time] in *; cbn [lw_run spec_run].
  - destruct (record_rel _ n w s t lost Hr Ht Hd ltac:(lia)) as [Hr' Hcl]. rewrite <-Hcl in Hok.
    apply (IH low_t (n + 1)); [done|done| |lia]. unfold spec_record. by destruct (counts_at _ _).
  - destruct (retract_rel _ n w s t Hr Ht Hd ltac:(lia)) as [Hr' Hcl]. rewrite <-Hcl in Hok.
    apply (IH low_t n); [done|done| |lia]. unfold spec_retract. by destruct (counts_at _ _).
  - destruct Hok as [Hle Hok]. destruct (lw_rate (u32 t) w) as [w' r] eqn:Hrate.
    destruct (rate_rel _ n w s t w' r Hr Ht Hd ltac:(lia) (oldest_mono _ _ Hle)) as (s' & Hs & Hr' & Hcl & Hh'); [|done|].
    { intros x at_ Hx. specialize (Hh x at_ Hx). lia. }
    rewrite Hs. f_equal. rewrite <-Hcl in Hok. apply (IH t n); [done..|lia].
Qed.

(** C0: The loss rate is a count of verdicts by true send time.  For any session of verdicts, withdrawals and
    readings, on 32-bit stamps that stay within half a wrap of the newest, the window answers every reading as the
    plain specification does: losses over verdicts for the sends between 1.6 s and 0.6 s old
    (rounded to 10 ms) when there are at least a hundred; otherwise the last such measurement if it is at most five
    seconds old; otherwise zero. *)
Theorem loss_rate_is_the_count evs :
  session_ok 0 0 evs → Z.of_nat (length evs) < 2 ^ 32 → lw_run evs loss_window_new = spec_run evs (mkLossSpec ∅ None).
Proof.
  intros Hok Hn. apply (lw_run_refines evs 0 0); [|exact Hok|done|lia]. constructor; cbn [lw_buckets loss_window_new lp_counts lp_held lw_held].
  - apply SSorted_nil.
  - intros i _. unfold counts_at. by rewrite lookup_empty.
  - by intros b ?%not_elem_of_nil.
  - done.
  - done.
Qed.

(** 120 sends over 1.2 s from 71.5 minutes on, so that the stamps wrap among them, every sixth lost and one loss
    withdrawn: 16 of the hundred in the window are lost, held for the next two seconds, and gone after six. *)
Definition ex_losses : list loss_event :=
  LeRate 2000000000 :: LeRate 4000000000 ::
  ((λ i, LeRecord (4294000000 + 10000 * Z.of_nat i) (Nat.eqb (i mod 6) 0)) <$> seq 0 120) ++
  [LeRetract (4294000000 + 180000); LeRate (4294000000 + 1600000); LeRate (4294000000 + 3600000); LeRate (4294000000 + 9600000)].
Lemma loss_rate_is_the_count_witness :
  lw_run ex_losses loss_window_new = [f32_of_Z 0; f32_of_Z 0; f32_div (f32_of_Z 16) (f32_of_Z 100); f32_div (f32_of_Z 16) (f32_of_Z 100); f32_of_Z 0].
Proof.
  rewrite (loss_rate_is_the_count ex_losses).
  - vm_compute. reflexivity.
  - vm_compute. repeat split; try discriminate; try reflexivity.
  - vm_compute. reflexivity.
Defined.
